(* ===== verification/_CoqProject ===== *)
-Q . S2P
Prelude.v
Bytes.v
Alist.v
Lmb.v
LmbFacts.v
LmbMap.v
LmbAlloc.v
LmbProps.v
Membuf.v
Cstring.v
CstringProps.v
Qsort.v
Hashtable.v
HashSearch.v
HashProps.v
HashClaims.v
HashEntries.v
Slre.v
EnvAttr.v
EnvLookup.v
EnvFlags.v
EnvTypes.v
EnvPolicy.v
EnvUpdate.v
Crc32.v
HashIO.v
HashIOProps.v
Rtc.v
Strto.v
Vsprintf.v
VsprintfNumber.v
VsprintfText.v
VsprintfRound.v
EnvCommon.v
EnvCommonProps.v
EnvLinear.v
EnvStore.v
EnvDrivers.v
NetUtils.v
NetText.v
Cli.v
CliProps.v
CliRun.v
CliGetch.v
Readline.v
ReadlineProps.v
ReadlineRun.v
Dm.v
DmWf.v
DmLife.v
DmBind.v
DmTree.v
DmUnbind.v
DmFind.v
DmProps.v
Bloblist.v
BloblistRep.v
BloblistProps.v
BloblistOps.v
NetDefrag.v
NetDefragRep.v
NetDefragProps.v
Net.v
NetProps.v
NetSafe.v
NetArp.v
Tftp.v
TftpGet.v
TftpLmb.v
TftpRun.v
TftpSafe.v
Digest.v
Sha256.v
Sha512.v
Sha1.v
Md5.v
HashAlgo.v
Image.v
Bootm.v
