(* ===== verification/Prelude.v ===== *)
(** * U-Boot: a verification of core library components

    This library models parts of the U-Boot boot loader in Gallina, one
    definition per C function (helpers stand for the loops of a function), and
    proves what the functions guarantee.  Paths are relative to the root of
    the source tree.

    ** The program and its parts

    U-Boot starts on bare hardware, so it brings its own library and keeps
    its own books:
    - lib/alist.c: growable arrays of objects, the storage of the allocator;
    - lib/lmb.c: logical memory blocks, the record of which memory exists and
      which of it is reserved; everything that is loaded or booted claims its
      memory here.  Its lists are alists;
    - lib/membuf.c: circular byte buffers, used for console recording;
    - lib/string.c, include/linux/ctype.h: strings and memory blocks;
    - lib/qsort.c: sorting;
    - lib/hashtable.c: the environment, a hash table of named variables with
      a text form that is saved to and loaded from storage.  It compares keys
      with strcmp and sorts an export with qsort;
    - lib/slre.c: regular expressions, compiled to a byte code and matched;
    - env/attr.c, env/flags.c, env/callback.c: lists that give variables
      types, access rights and callbacks.  The hash table consults them
      before every change; names in the lists are regular expressions when
      CONFIG_REGEX is set;
    - lib/crc32.c: the checksum of saved environments;
    - env/common.c, env/env.c: setting and reading variables, before and
      after the table exists, defaults, saving and loading with one or two
      copies, and the choice of the storage driver;
    - lib/rtc-lib.c, lib/date.c, include/bcd.h: calendar time;
    - lib/strto.c, lib/vsprintf.c: numbers in strings, formatted output;
    - lib/net_utils.c: addresses as text, the Internet checksum;
    - common/cli_getch.c, common/cli_readline.c: keys and the line editor;
    - common/cli_simple.c: the command line: expands variables of the
      environment, splits a line into commands and arguments and runs them;
    - drivers/core: the driver model, devices in a tree and in lists of
      uclasses, bound to drivers, probed, removed and unbound;
    - common/bloblist.c, lib/tables_csum.c: the list of blobs one boot phase
      hands to the next;
    - net/net.c, net/arp.c, net/ping.c: the packet layer: Ethernet frames, the
      resolution of addresses, IP with reassembly, ICMP echo and UDP;
    - net/tftp.c: loading and sending files.  It sends through the packet
      layer and claims the memory of every block from the allocator;
    - lib/sha256.c, lib/sha512.c, lib/sha1.c, lib/md5.c, lib/crc16-ccitt.c,
      lib/crc8.c, common/hash.c: digests, and the command that stores them in
      the environment and verifies memory against them;
    - include/image.h, boot/image.c, boot/bootm.c, boot/image-board.c with
      tools/default_image.c and tools/mkimage.c: legacy boot images from the
      tool that makes them to the kernel in memory.  Booting asks the
      environment whether to verify and reserves what it loads.

    ** Files

    - [Prelude]: machine integers with their wrap-around, error codes,
      alignment macros, tactics and hint databases, generic lemmas.
    - [Bytes]: blocks of memory as lists of bytes ([slice], [store]).
    - [Alist]: lib/alist.c and its theorems.
    - [Lmb]: lib/lmb.c.  [LmbFacts] relates the array operations to lists of
      regions ([repr]); [LmbMap] classifies what adding a region does and
      reads region lists as maps from addresses to flags ([covers]);
      [LmbAlloc] treats freeing and the allocation search; [LmbProps] states
      the guarantees.
    - [Membuf]: lib/membuf.c as a bounded FIFO queue.
    - [Cstring], [CstringProps]: lib/string.c.  Word-at-a-time loops are
      modelled as such and proved equal to their byte-wise meaning.
    - [Qsort]: lib/qsort.c.
    - [Hashtable]: lib/hashtable.c without import and export.  [HashSearch]:
      double hashing over a prime visits every node, the invariant and the
      outcome of a search; [HashProps]: the table as a
      finite map; [HashClaims]: the guarantees; [HashEntries]: the table as a
      map of whole entries, with flags and callbacks.
    - [Slre]: lib/slre.c.
    - [EnvAttr]: env/attr.c and the walk over a list; [EnvLookup]: the lookup
      of a name without and with CONFIG_REGEX.  [EnvFlags]: env/flags.c and
      env/callback.c.
      [EnvTypes]: which values a type admits; [EnvPolicy]: the table with the
      flags as its hooks, types and access rights as invariants; [EnvUpdate]:
      changing all flags at once.
    - [Crc32]: lib/crc32.c and its equivalence with the bit-serial CRC.
    - [HashIO], [HashIOProps]: hexport_r and himport_r.
    - [Rtc]: calendar time.  [Strto]: lib/strto.c.
    - [Vsprintf]: lib/vsprintf.c.  [VsprintfNumber]: decimal digits
      and number fields; [VsprintfText]: the text of a format
      and its truncation; [VsprintfRound]: printing against parsing.
    - [EnvCommon]: env/common.c.  [EnvCommonProps]: setting and getting;
      [EnvLinear]: the environment before relocation; [EnvStore]: images and
      redundant copies.  [EnvDrivers]: env/env.c.
    - [NetUtils]: lib/net_utils.c, the address variables and the checksum;
      [NetText]: addresses as text.
    - [Cli]: common/cli_simple.c.  [CliProps]: macro expansion; [CliRun]:
      arguments and running a line.
    - [CliGetch]: common/cli_getch.c as a state machine and the table it
      implements.
    - [Readline]: common/cli_readline.c.  [ReadlineProps]: every key on the
      buffer and on the terminal; [ReadlineRun]: the editor it implements
      and the history.
    - [Dm]: device.c, device-remove.c, uclass.c and lists.c of drivers/core, in
      a monad with a heap of devices and buffers.  [DmWf]: total correctness
      and the invariant; [DmLife]: memory in use, platform data, removing and
      probing; [DmBind]: binding and its clean-up; [DmTree]: devices joining
      the tree, new uclasses, binding as a whole; [DmUnbind]: leaving the tree; [DmFind]: searches, start and end (root.c), binding from
      lists and nodes; [DmProps]: reachable states and the guarantees.
    - [Bloblist]: common/bloblist.c.  [BloblistRep]: the bytes of a list and
      the blobs they hold ([bl_rep]); [BloblistProps]: finding and adding;
      [BloblistOps]: making, finishing, checking, moving and resizing.
    - [NetDefrag]: IP reassembly.  [NetDefragRep]: the list of holes inside the
      packet buffer; [NetDefragProps]: the invariant and what is reassembled.
    - [Net]: the packet layer.  [NetProps]: frames as bytes, sending and
      receiving; [NetSafe]: bounds for arbitrary frames; [NetArp]:
      address resolution between two stations.
    - [Tftp]: net/tftp.c.  [TftpGet]: one event of a download, against class
      [Grants]; [TftpLmb]: the allocator is an instance of it; [TftpRun]:
      option negotiation, downloads from start to end, surprises; [TftpSafe]:
      arbitrary networks.
    - [Digest]: what the hash functions share: iterating a compression
      function over blocks that arrive in pieces, padding, HMAC, and the class
      [Digest] of streaming hashes, for which the watchdog loop and HMAC are
      proved once.  [Sha256], [Sha512], [Sha1], [Md5]: the standards' functions
      as specifications, with constants computed from primes and sines, the
      code, and the instances.  [HashAlgo]: common/hash.c with the two small
      checksums.
    - [Image]: legacy images: the header, mkimage, the checks, multi-file
      images, loading; what CRC-32 detects.  [Bootm]: boot/bootm.c.

    ** How code becomes definitions

    State is passed explicitly: an operation takes the structure it changes
    and returns its result with the new structure.  Integers are [Z]; every
    place where the C type's width matters goes through [u8], [u16], [u32],
    [u64], [s32] or [s64].  phys_addr_t, size_t and ulong are 64 bits wide,
    memory is little-endian and plain char is unsigned, as on ARM.  Pointers
    are offsets or the rest of a string; NULL is [None].  Errors are the
    negative codes the code returns.  A function that may run out of memory
    takes the outcome of its allocations as arguments ([mem_ok] and the like).

    Code outside these files is an argument: the EFI memory-map notification
    of the allocator (a section variable), the permission check and callbacks
    of environment variables (class [EnvHooks], which [EnvPolicy] and
    [EnvUpdate] instantiate with the flags component), the environment as the
    command line sees it (class [EnvGet]), running a command (class
    [Commands]), completion in the line editor, the load, save and init
    functions of storage drivers, and the callbacks [%p] formats use.  The
    methods of drivers and uclasses and the subsystems the driver model calls
    (power domains, pin control, clocks, events) are computations on its
    whole state; the theorems take them to leave the driver model's own state
    alone (class [Quiet]) and removal methods not to answer -EKEYREJECTED
    (class [Polite]), any result being possible otherwise; the allocator may
    fail at any time.
    The network driver gets the frames that are sent (field [sent]) and a
    handler's calls are recorded (field [calls]); the timer is an argument.
    Configuration constants are arguments too.  Reads and writes outside a
    buffer are values of their own ([Overrun], a flag of the state, or no
    result), so that theorems can exclude them.

    ** What is proved

    - LMB: reserving, freeing, allocating and claiming memory act on the
      reserved map as promised, keep the lists ordered and disjoint, and
      allocation finds the highest aligned free block below the limit;
      allocating and freeing restores the map; the queries are sound.
    - Membuf: every sequence of operations behaves as a bounded queue; making
      contiguous, growing and reading lines keep it.
    - Environment table: creating, finding, entering and deleting are
      operations on a finite map, with every refusal; the search always ends;
      an export is exact and sorted, and importing it restores the map.
    - Environment policy: a value is accepted exactly when it is of its type;
      any sequence of commands keeps all values within their types and
      protected variables as they are; setting ".flags" gives every variable
      the flags it would get when created; a lookup in an attribute list finds
      the last entry that fits, also by pattern.
    - Environment front end: env_set and env_get are update and lookup; early
      and late lookups agree; a saved image loads back, and with two copies a
      damaged write never loses both; loading takes the first storage that
      works.
    - Formatted output: a number field is exactly what its flags ask for; a
      bounded call writes a terminated prefix of the text and returns its
      length; the format loop ends; printing and parsing are inverse.
    - CRC-32 equals the bit-serial definition at every alignment; the Internet
      checksum of parts combines to that of the whole, and is accepted where
      it was stored; addresses survive printing and parsing.
    - Keys and lines: the key reader hands out the decoding of its input and
      never stops early; the line editor implements an editor of two texts,
      stays inside its buffer and keeps the terminal in step; the history is
      the list of the last lines.
    - Library: memmove, memset, memchr_inv, strcmp, strstr and strlcpy do what
      their names say for all alignments and overlaps; qsort sorts; numbers
      parse to their value; dates convert both ways.
    - Command line: expansion never overruns and means what the syntax says;
      arguments are the words; commands run in order in the changing state.
    - Driver model: in every state that calls can reach the tree, the lists
      of the uclasses, memory and the active devices are consistent, and every
      call returns without a fault; a probe succeeds exactly when the device
      and all above it are active; a removal that succeeds stops everything
      below; a failed bind leaves nothing behind; an unbind gives back what
      binding took, and undoes it.
    - Bloblist: finding returns the first blob with the tag, adding appends,
      resizing keeps the other blobs, a finished list passes its check and one
      changed byte is noticed.
    - Network: fragments in many orders reassemble to the datagram that was
      sent; for arbitrary frames the packet layer stays inside its buffers;
      sending to an unknown station resolves its address and delivers; a
      download leaves a prefix of the file in memory at every point of a run
      with lost, repeated and reordered blocks and succeeds exactly when the
      whole file is there; no packets make TFTP change memory that is reserved
      with flags.
    - Hashing: SHA-256, SHA-384, SHA-512, SHA-1 and MD5 give the digest of their
      standard for every way to cut a message; sha256_hmac is HMAC for every
      key; one-shot and progressive hashing agree; a digest stored in a
      variable verifies exactly the memory with that digest.
    - Boot images: what mkimage makes passes the checks and gives back the files
      it was made of; changing up to four bytes in a row is always noticed,
      and such an image is not booted; an uncompressed kernel arrives at its
      load address exactly, also when it overlaps the image.
    - Defects the models exhibit are stated as theorems on concrete states:
      [lmb_reserve_loses_region], [lmb_alloc_base_underflow],
      [lmb_alloc_addr_outside], [membuf_readline_rereads],
      [hmatch_r_misses_last], [hexport_r_overrun], [himport_r_crlf_tail],
      [bloblist_resize_corrupts], [bloblist_resize_overrun],
      [bloblist_resize_wraps], [bloblist_resize_unpadded],
      [bloblist_add_unreachable], [bloblist_add_endless], [slre_compile_hangs],
      [slre_match_hangs], [on_flags_drops_pattern], [env_flags_init_overrun],
      [env_set_dash], [early_late_backslash], [ip_checksum_ok_lax], [unbind_leaks_priv],
      [defragment_middle_first], [defragment_overruns],
      [defragment_repeat_faults], [ping_fragments_overrun],
      [ping_fragments_wrong_answer], [udp_odd_checksum_rejected],
      [high_block_never_nacked], [any_ack_completes_put],
      [server_keeps_put_active], [late_oack_restarts], [zero_block_size_taken],
      [large_blocks_overflow], [sha1_hmac_cut], [csum_loop_stuck] and
      [fdt_overlap_missed]; the fault of ^W on blanks is part of [cread_line_edits].  The hypotheses of the
      positive theorems exclude such states.

    ** Fuel

    Loops that are not structural take fuel, and the theorems show that the
    fuel the model gives is enough: the allocation search moves strictly down
    the reservations, a probe sequence has at most [size] steps, trial
    division stops at the square root, the year loop of rtc_to_tm steps back
    fewer than 5000 years, the gaps of qsort shrink, the import
    parser, the macro loop and the format loop consume a byte per round, a
    walk over a bloblist advances by at least 8 bytes, a pattern without
    nested repetition is matched in as many steps as the name has characters,
    a key takes at most seven rounds of the reader, a device is deeper in the
    heap than its parent, which bounds the recursions of the driver model
    ([dm_fuel]).  The walk over the holes of a datagram has [walk_fuel]
    = 65537 steps, more than there are links, the carries of a checksum
    are folded within 16 rounds, hashing and moving with a watchdog take at
    least a byte per round, and a table of sizes ends before memory does.  Running out of fuel is a value of its own
    ([None], [StepStuck], [Diverges], [Hangs], [FHang]), never a normal
    result.

    ** Not modelled, and next

    Drivers, boards, architectures, file systems, the EFI loader, the
    device-tree library with the FIT images that need it, and vendored code
    (zlib and the other decompressors, lwIP, dlmalloc, the hush shell) are
    outside.  Loading an image takes the decompressors as arguments.  Of
    booting, ramdisks and device trees beyond their checks, the pre-load stage,
    booti and the jump to the kernel are left out; of hashing, the hardware
    accelerators.  Of the network, IPv6, TCP and the protocols other than
    ARP, ICMP echo and TFTP are left out, and so are the network loop, which
    polls the device, the progress marks and messages of TFTP, its tsize
    option and port variables.  Of the modelled files, printing functions,
    lmb_init with its board hooks, cli_simple_loop, bloblist_init, the
    regular-expression match of hexport_r, env_complete and env_import_fdt,
    UTF-16 strings and device paths in formats, string_to_ip6, the reader
    without line editing, moving a device to another parent and devices that
    the build instantiates are left out.  Next in line: UUIDs as text
    (lib/uuid.c), the boot-phase logic of bloblist_init, list_sort and the
    pre-relocation allocator. *)

From Stdlib Require Export ZArith Lia List Bool.
From stdpp Require Export base list numbers option sorting.

#[global] Open Scope Z_scope.

Declare Scope uboot_scope.
Delimit Scope uboot_scope with uboot.
#[global] Open Scope uboot_scope.

(** * Machine integers

    Every integer of the model is a [Z]; assignments to a C object of a given
    width go through the wrap-around of that width. *)

Definition u8 (x : Z) : Z := x mod 256.
Definition u16 (x : Z) : Z := x mod 65536.
Definition u32 (x : Z) : Z := x mod 4294967296.
Definition u64 (x : Z) : Z := x mod 18446744073709551616.

(** Two's complement reading of a 32- or 64-bit pattern. *)
Definition s32 (x : Z) : Z := (x + 2147483648) mod 4294967296 - 2147483648.
Definition s64 (x : Z) : Z :=
  (x + 9223372036854775808) mod 18446744073709551616 - 9223372036854775808.

Definition U64_MAX : Z := 18446744073709551615.

(** [lia] with the quotient and remainder equations it needs for [mod]. *)
Ltac zlia := Z.div_mod_to_equations; lia.

(** Unfold every wrap-around and solve. *)
Ltac unwrap := unfold u8, u16, u32, u64, s32, s64, U64_MAX in *.
Ltac wrap_lia := unwrap; zlia.

Lemma u8_small x : 0 <= x < 256 -> u8 x = x.
Proof. intros; unfold u8; apply Z.mod_small; lia. Qed.
Lemma u16_small x : 0 <= x < 65536 -> u16 x = x.
Proof. intros; unfold u16; apply Z.mod_small; lia. Qed.
Lemma u32_small x : 0 <= x < 4294967296 -> u32 x = x.
Proof. intros; unfold u32; apply Z.mod_small; lia. Qed.
Lemma u64_small x : 0 <= x <= U64_MAX -> u64 x = x.
Proof. unfold U64_MAX; intros; unfold u64; apply Z.mod_small; lia. Qed.
Lemma s32_small x : -2147483648 <= x < 2147483648 -> s32 x = x.
Proof. intros; wrap_lia. Qed.

Lemma u64_range x : 0 <= u64 x <= U64_MAX.
Proof. wrap_lia. Qed.
Lemma u32_range x : 0 <= u32 x < 4294967296.
Proof. wrap_lia. Qed.
Lemma u16_range x : 0 <= u16 x < 65536.
Proof. wrap_lia. Qed.

Create HintDb wrap.
Create Rewrite HintDb wrap_rw.
#[export] Hint Rewrite u8_small u16_small u32_small u64_small s32_small using lia : wrap_rw.
#[export] Hint Resolve u64_range u32_range u16_range : wrap.

(** Remove the wrap-arounds whose argument is provably in range. *)
Ltac nowrap := unfold U64_MAX in *; autorewrite with wrap_rw in *.

(** [ALIGN] and [ALIGN_DOWN] at type [phys_addr_t] (include/linux/kernel.h). *)
Definition align_mask (x mask : Z) : Z := Z.land (u64 (x + mask)) (u64 (Z.lnot mask)).
Definition ALIGN (x a : Z) : Z := align_mask x (u64 (a - 1)).
Definition ALIGN_DOWN (x a : Z) : Z := ALIGN (u64 (x - u64 (a - 1))) a.

(** * Error codes the components return (include/linux/errno.h) *)

Definition EPERM : Z := 1.
Definition ENOENT : Z := 2.
Definition ESRCH : Z := 3.
Definition EIO : Z := 5.
Definition E2BIG : Z := 7.
Definition EAGAIN : Z := 11.
Definition ENOMEM : Z := 12.
Definition EFAULT : Z := 14.
Definition EEXIST : Z := 17.
Definition ENODEV : Z := 19.
Definition EINVAL : Z := 22.
Definition EFBIG : Z := 27.
Definition ENOSPC : Z := 28.
Definition ESPIPE : Z := 29.

(** * Alignment *)

Lemma u64_land x : u64 x = Z.land x (Z.ones 64).
Proof. rewrite Z.land_ones by lia. reflexivity. Qed.

(** On a power of two, [ALIGN_DOWN] rounds down to a multiple. *)
Lemma ALIGN_DOWN_pow2 x k :
  0 <= k < 64 -> 0 <= x <= U64_MAX -> ALIGN_DOWN x (2 ^ k) = x - x mod 2 ^ k.
Proof.
  intros Hk Hx. unfold ALIGN_DOWN, ALIGN, align_mask.
  assert (0 < 2 ^ k <= 2 ^ 63) as Hp.
  { split; [apply Z.pow_pos_nonneg; lia|apply Z.pow_le_mono_r; lia]. }
  change (2 ^ 63) with 9223372036854775808 in Hp.
  rewrite (u64_small (2 ^ k - 1)) by (unfold U64_MAX; lia).
  replace (u64 (u64 (x - (2 ^ k - 1)) + (2 ^ k - 1))) with x.
  2:{ unfold u64. rewrite Zplus_mod_idemp_l. rewrite Z.mod_small; unfold U64_MAX in *; lia. }
  replace (2 ^ k - 1) with (Z.ones k) by (rewrite Z.ones_equiv; lia).
  rewrite u64_land, Z.land_assoc, (Z.land_comm x), <- Z.land_assoc.
  rewrite Z.land_ones by lia. rewrite Z.mod_small by (unfold U64_MAX in *; lia).
  rewrite Z.land_comm, <- Z.ldiff_land, Z.ldiff_ones_r by lia.
  rewrite Z.shiftl_mul_pow2, Z.shiftr_div_pow2 by lia.
  pose proof (Z.div_mod x (2 ^ k) ltac:(lia)). lia.
Qed.

(** It yields the greatest multiple that is not above. *)
Lemma align_down_greatest x y k :
  0 <= k -> y mod 2 ^ k = 0 -> y <= x -> y <= x - x mod 2 ^ k.
Proof.
  intros Hk Hy Hle. assert (0 < 2 ^ k) by (apply Z.pow_pos_nonneg; lia).
  pose proof (Z.div_mod x (2 ^ k) ltac:(lia)). pose proof (Z.div_mod y (2 ^ k) ltac:(lia)).
  assert (y / 2 ^ k <= x / 2 ^ k) by (apply Z.div_le_mono; lia). nia.
Qed.

Lemma align_down_aligned x k : 0 <= k -> (x - x mod 2 ^ k) mod 2 ^ k = 0.
Proof.
  intros. assert (0 < 2 ^ k) by (apply Z.pow_pos_nonneg; lia).
  rewrite Zminus_mod_idemp_r, Z.sub_diag. apply Z.mod_0_l. lia.
Qed.

(** * Case analysis on boolean tests *)

Lemma eqb_spec_Z (x y : Z) : reflect (x = y) (x =? y).
Proof. apply Z.eqb_spec. Qed.

(** Split every boolean comparison of integers in the goal or hypotheses. *)
Ltac case_Z :=
  match goal with
  | |- context [Z.eqb ?x ?y] => destruct (Z.eqb_spec x y)
  | |- context [Z.ltb ?x ?y] => destruct (Z.ltb_spec x y)
  | |- context [Z.leb ?x ?y] => destruct (Z.leb_spec x y)
  | H : context [Z.eqb ?x ?y] |- _ => destruct (Z.eqb_spec x y)
  | H : context [Z.ltb ?x ?y] |- _ => destruct (Z.ltb_spec x y)
  | H : context [Z.leb ?x ?y] |- _ => destruct (Z.leb_spec x y)
  end.

(** Turn boolean hypotheses into the propositions they decide. *)
Ltac bprop :=
  repeat match goal with
  | H : andb _ _ = true |- _ => apply andb_true_iff in H; destruct H
  | H : orb _ _ = false |- _ => apply orb_false_iff in H; destruct H
  | H : negb _ = true |- _ => apply negb_true_iff in H
  | H : negb _ = false |- _ => apply negb_false_iff in H
  | H : Z.eqb _ _ = true |- _ => apply Z.eqb_eq in H
  | H : Z.eqb _ _ = false |- _ => apply Z.eqb_neq in H
  | H : Z.ltb _ _ = true |- _ => apply Z.ltb_lt in H
  | H : Z.ltb _ _ = false |- _ => apply Z.ltb_ge in H
  | H : Z.leb _ _ = true |- _ => apply Z.leb_le in H
  | H : Z.leb _ _ = false |- _ => apply Z.leb_gt in H
  end.

(** * Arrays

    A C array is a list; [l !!! i] reads it and [<[i := x]> l] writes it. *)

Section Lists.
Context {A : Type}.
Implicit Types (l : list A) (x : A).

Lemma lookup_total_app_mid `{Inhabited A} l1 x l2 :
  (l1 ++ x :: l2) !!! length l1 = x.
Proof.
  apply list_lookup_total_correct. rewrite lookup_app_r by lia.
  by rewrite Nat.sub_diag.
Qed.

Lemma insert_app_mid l1 x y l2 :
  <[length l1 := y]> (l1 ++ x :: l2) = l1 ++ y :: l2.
Proof.
  rewrite insert_app_r_alt by lia. by rewrite Nat.sub_diag.
Qed.

Lemma split_at l (i : nat) x :
  l !! i = Some x -> l = take i l ++ x :: drop (S i) l.
Proof. intros. symmetry. by apply take_drop_middle. Qed.

Lemma split_ex l (i : nat) :
  (i < length l)%nat -> exists l1 x l2, l = l1 ++ x :: l2 /\ length l1 = i.
Proof.
  intros [x Hx]%lookup_lt_is_Some. exists (take i l), x, (drop (S i) l).
  split; [by apply split_at|]. apply length_take_le. apply lookup_lt_Some in Hx. lia.
Qed.

(** The first element of a list that fails a decidable predicate. *)
Lemma first_fail (P : A -> Prop) `{forall x, Decision (P x)} l :
  Forall P l \/ exists l1 x l2, l = l1 ++ x :: l2 /\ Forall P l1 /\ ~ P x.
Proof.
  induction l as [|a l IH]; [by left|].
  destruct (decide (P a)) as [Pa|Pa]; [|right; exists [], a, l; auto].
  destruct IH as [F|(l1 & x & l2 & -> & F & N)]; [left; auto|].
  right. exists (a :: l1), x, l2. auto.
Qed.

Lemma take_insert_in l (i n : nat) x :
  (i < n)%nat -> take n (<[i := x]> l) = <[i := x]> (take n l).
Proof. intros. by rewrite take_insert_lt. Qed.
End Lists.

(** A list is empty or has a last element. *)
Lemma list_last_dec {A} (l : list A) : l = [] \/ exists l' x, l = l' ++ [x].
Proof.
  destruct l as [|a l]; [by left|]. right.
  destruct (exists_last (l := a :: l)) as (l' & x & ->); [done|]. eauto.
Qed.
