(* ===== verification/Bytes.v ===== *)
(** Byte buffers shared by the components: a block of memory is the list of
    its bytes, an address in it is an offset.  [slice] reads a range and
    [store] is what memcpy and memmove leave; the lemmas say how the two
    interact, and [slice_ext] decides equations between them by comparing
    the entries. *)

From S2P Require Import Prelude.

Section Blocks.
Context {A : Type}.
Implicit Types (m bs : list A) (lo hi off : Z).

(** The entries of [m] at [lo .. hi - 1]. *)
Definition slice m lo hi : list A := take (Z.to_nat (hi - lo)) (drop (Z.to_nat lo) m).

(** [m] with [bs] written at [off]. *)
Definition store m off bs : list A :=
  take (Z.to_nat off) m ++ bs ++ drop (Z.to_nat off + length bs) m.

Lemma slice_lookup m lo hi (i : nat) :
  0 <= lo ->
  slice m lo hi !! i = if decide (Z.of_nat i < hi - lo) then m !! (Z.to_nat lo + i)%nat else None.
Proof.
  intros. unfold slice. case_decide.
  - rewrite lookup_take_lt, lookup_drop by lia. done.
  - apply lookup_ge_None. rewrite length_take. lia.
Qed.

Lemma slice_length m lo hi :
  0 <= lo -> lo <= hi -> hi <= Z.of_nat (length m) ->
  Z.of_nat (length (slice m lo hi)) = hi - lo.
Proof. intros. unfold slice. rewrite length_take, length_drop. lia. Qed.

Lemma slice_empty m lo hi : hi <= lo -> slice m lo hi = [].
Proof. intros. unfold slice. by replace (Z.to_nat (hi - lo)) with 0%nat by lia. Qed.

Lemma slice_all m : slice m 0 (Z.of_nat (length m)) = m.
Proof. unfold slice. rewrite drop_0, take_ge; [done|lia]. Qed.

Lemma store_length m off bs :
  0 <= off -> off + Z.of_nat (length bs) <= Z.of_nat (length m) ->
  length (store m off bs) = length m.
Proof. intros. unfold store. rewrite !length_app, length_take, length_drop. lia. Qed.

Lemma store_lookup m off bs (i : nat) :
  0 <= off -> off + Z.of_nat (length bs) <= Z.of_nat (length m) ->
  store m off bs !! i =
    if decide (Z.of_nat i < off) then m !! i
    else if decide (Z.of_nat i < off + Z.of_nat (length bs))
         then bs !! (i - Z.to_nat off)%nat else m !! i.
Proof.
  intros. unfold store. repeat case_decide.
  - rewrite lookup_app_l by (rewrite length_take; lia). rewrite lookup_take_lt by lia. done.
  - rewrite lookup_app_r by (rewrite length_take; lia).
    rewrite length_take, lookup_app_l by lia. f_equal. lia.
  - rewrite lookup_app_r by (rewrite length_take; lia).
    rewrite length_take, lookup_app_r, lookup_drop by lia. f_equal. lia.
Qed.

Lemma lookup_app_if (l k : list A) (i : nat) :
  (l ++ k) !! i = if decide (i < length l)%nat then l !! i else k !! (i - length l)%nat.
Proof. case_decide; [by rewrite lookup_app_l|rewrite lookup_app_r by lia; done]. Qed.

Lemma lookup_take_if m (n i : nat) :
  take n m !! i = if decide (i < n)%nat then m !! i else None.
Proof. case_decide; [by rewrite lookup_take_lt|by rewrite lookup_take_ge by lia]. Qed.

(** The same facts without side conditions, for rewriting. *)
Lemma slice_lookup_tot m lo hi (i : nat) :
  slice m lo hi !! i =
    if decide (i < Z.to_nat (hi - lo))%nat then m !! (Z.to_nat lo + i)%nat else None.
Proof. unfold slice. rewrite lookup_take_if, lookup_drop. done. Qed.

Lemma slice_length_tot m lo hi :
  length (slice m lo hi) = Nat.min (Z.to_nat (hi - lo)) (length m - Z.to_nat lo).
Proof. unfold slice. by rewrite length_take, length_drop. Qed.

Lemma store_length_tot m off bs :
  length (store m off bs) =
    (Nat.min (Z.to_nat off) (length m) + (length bs + (length m - (Z.to_nat off + length bs))))%nat.
Proof. unfold store. rewrite !length_app, length_take, length_drop. done. Qed.

Lemma store_lookup_tot m off bs (i : nat) :
  store m off bs !! i =
    let o := Nat.min (Z.to_nat off) (length m) in
    if decide (i < o)%nat then m !! i
    else if decide (i - o < length bs)%nat then bs !! (i - o)%nat
    else m !! (Z.to_nat off + length bs + (i - o - length bs))%nat.
Proof.
  unfold store. rewrite !lookup_app_if, lookup_take_if, lookup_drop, length_take. simpl.
  repeat case_decide; try lia; done.
Qed.
End Blocks.

(** Decide an equation between lists built from [slice], [store], [take],
    [drop] and [++] by comparing their entries. *)
Ltac slice_len :=
  rewrite ?length_app, ?slice_length_tot, ?store_length_tot, ?length_take, ?length_drop in *; simpl in *.

Ltac slice_ext :=
  apply list_eq; intros ?i;
  repeat (first [rewrite lookup_app_if|rewrite lookup_drop|rewrite lookup_take_if
                |rewrite slice_lookup_tot|rewrite store_lookup_tot]; cbv zeta);
  repeat (first [rewrite length_app|rewrite slice_length_tot|rewrite store_length_tot
                |rewrite length_take|rewrite length_drop]);
  simpl length in *;
  repeat (case_decide; try lia);
  try (f_equal; lia);
  try (symmetry; apply lookup_ge_None; slice_len; lia);
  try (apply lookup_ge_None; slice_len; lia); auto.

Section Laws.
Context {A : Type}.
Implicit Types (m bs : list A) (lo hi off : Z).

Lemma slice_store_same m off bs :
  0 <= off -> off + Z.of_nat (length bs) <= Z.of_nat (length m) ->
  slice (store m off bs) off (off + Z.of_nat (length bs)) = bs.
Proof. intros. slice_ext. Qed.

Lemma slice_store_other m off bs lo hi :
  0 <= off -> off + Z.of_nat (length bs) <= Z.of_nat (length m) -> 0 <= lo ->
  hi <= off \/ off + Z.of_nat (length bs) <= lo ->
  slice (store m off bs) lo hi = slice m lo hi.
Proof. intros ? ? ? []; slice_ext. Qed.

Lemma slice_store_app m off bs lo hi :
  0 <= lo <= off -> off + Z.of_nat (length bs) <= Z.of_nat (length m) ->
  hi = off + Z.of_nat (length bs) ->
  slice (store m off bs) lo hi = slice m lo off ++ bs.
Proof. intros ? ? ->. slice_ext. Qed.

Lemma slice_split m lo mid hi :
  0 <= lo -> lo <= mid <= hi -> hi <= Z.of_nat (length m) ->
  slice m lo hi = slice m lo mid ++ slice m mid hi.
Proof. intros. slice_ext. Qed.

Lemma take_slice m lo hi (n : nat) :
  0 <= lo -> hi <= Z.of_nat (length m) -> Z.of_nat n <= hi - lo ->
  take n (slice m lo hi) = slice m lo (lo + Z.of_nat n).
Proof. intros. slice_ext. Qed.

Lemma drop_slice m lo hi (n : nat) :
  0 <= lo -> hi <= Z.of_nat (length m) -> Z.of_nat n <= hi - lo ->
  drop n (slice m lo hi) = slice m (lo + Z.of_nat n) hi.
Proof. intros. slice_ext. Qed.
End Laws.

Lemma slice_cons {A} `{Inhabited A} (m : list A) lo hi :
  0 <= lo < hi -> hi <= Z.of_nat (length m) ->
  slice m lo hi = m !!! Z.to_nat lo :: slice m (lo + 1) hi.
Proof.
  intros. rewrite (slice_split m lo (lo + 1)) by lia. unfold slice at 1.
  replace (Z.to_nat (lo + 1 - lo)) with 1%nat by lia.
  assert (Z.to_nat lo < length m)%nat as Hl by lia.
  apply lookup_lt_is_Some in Hl as [x Hx]. rewrite (drop_S _ x) by done.
  by rewrite (list_lookup_total_correct _ _ x).
Qed.
