(* ===== verification/Alist.v ===== *)
(** Array lists (lib/alist.c, include/alist.h).

    An [alist] owns a block of [alloc] objects of [obj_size] bytes, the first
    [count] of which are in use.  The block is the list [al_data]; a pointer
    into it is its byte offset from [lst->data], so that pointer arithmetic is
    arithmetic on [Z].  Whether an allocation succeeds is the argument
    [mem_ok] of the operations that allocate.  [count] and [alloc] are u16
    fields, and every store to them wraps. *)

From S2P Require Import Prelude.

Record alist (A : Type) := Alist {
  al_data : list A;
  al_obj_size : Z;
  al_count : Z;
  al_alloc : Z;
  al_flags : Z
}.
Arguments Alist {A}.
Arguments al_data {A}.
Arguments al_obj_size {A}.
Arguments al_count {A}.
Arguments al_alloc {A}.
Arguments al_flags {A}.

Definition ALIST_INITIAL_SIZE : Z := 4.
Definition ALISTF_FAIL : Z := 1.

Section Ops.
Context {A : Type}.
(** The object whose bytes are all zero, as [calloc] and [memset] leave it. *)
Variable zero : A.
Implicit Type lst : alist A.

(** The list after [memset(lst, '\0', sizeof(struct alist))]. *)
Definition alist_zeroed : alist A := Alist [] 0 0 0 0.

Definition alist_has lst (index : Z) : bool := index <? al_count lst.
Definition alist_err lst : bool := negb (Z.land (al_flags lst) ALISTF_FAIL =? 0).
Definition alist_full lst : bool := al_count lst =? al_alloc lst.

Definition alist_init (mem_ok : bool) (obj_size start_size : Z) : bool * alist A :=
  if start_size =? 0 then (true, Alist [] (u16 obj_size) 0 0 0)
  else if mem_ok then
    (true, Alist (replicate (Z.to_nat start_size) zero) (u16 obj_size) 0
                 (u16 start_size) 0)
  else (false, Alist [] 0 0 0 ALISTF_FAIL).

Definition alist_uninit lst : alist A := alist_zeroed.

Definition set_count lst (c : Z) : alist A :=
  Alist (al_data lst) (al_obj_size lst) (u16 c) (al_alloc lst) (al_flags lst).
Definition set_data lst (d : list A) : alist A :=
  Alist d (al_obj_size lst) (al_count lst) (al_alloc lst) (al_flags lst).

Definition alist_empty lst : alist A := set_count lst 0.

Definition alist_expand_to (mem_ok : bool) lst (new_alloc : Z) : bool * alist A :=
  if alist_err lst then (false, lst)
  else if mem_ok then
    (true,
     Alist (take (Z.to_nat (al_alloc lst)) (al_data lst)
            ++ replicate (Z.to_nat (new_alloc - al_alloc lst)) zero)
           (al_obj_size lst) (al_count lst) (u16 new_alloc) (al_flags lst))
  else
    (false, Alist (al_data lst) (al_obj_size lst) (al_count lst) (al_alloc lst)
                  (Z.lor (al_flags lst) ALISTF_FAIL)).

Definition alist_expand_by (mem_ok : bool) lst (inc_by : Z) : bool * alist A :=
  alist_expand_to mem_ok lst (u32 (al_alloc lst + inc_by)).

(** The doubling loop of [alist_expand_min]; [None] when it does not end
    within [fuel] doublings. *)
Fixpoint expand_size (fuel : nat) (new_alloc min_alloc : Z) : option Z :=
  if new_alloc <? min_alloc then
    match fuel with
    | O => None
    | S n => expand_size n (u32 (new_alloc * 2)) min_alloc
    end
  else Some new_alloc.

Definition alist_expand_min (mem_ok : bool) lst (min_alloc : Z)
  : option (bool * alist A) :=
  let start := if al_alloc lst =? 0 then ALIST_INITIAL_SIZE else al_alloc lst in
  match expand_size 32 start min_alloc with
  | Some new_alloc => Some (alist_expand_to mem_ok lst new_alloc)
  | None => None
  end.

Definition alist_get_ptr lst (index : Z) : option Z :=
  if al_count lst <=? index then None else Some (index * al_obj_size lst).

Definition alist_calc_index lst (ptr : Z) : Z :=
  if (al_count lst =? 0) || (ptr <? 0) then -1
  else s32 (u32 (ptr / al_obj_size lst)).

Definition alist_update_end lst (ptr : Z) : alist A :=
  let index := alist_calc_index lst ptr in
  set_count lst (if index =? -1 then 0 else index).

Definition alist_chk_ptr lst (ptr : Z) : bool :=
  let index := alist_calc_index lst ptr in
  (0 <=? index) && (index <? al_count lst).

Definition alist_next_ptrd lst (ptr : Z) : option Z :=
  alist_get_ptr lst (u32 (alist_calc_index lst ptr + 1)).

(** [None]: the expansion loop does not end.  [Some (None, lst)]: NULL. *)
Definition alist_ensure_ptr (mem_ok : bool) lst (index : Z)
  : option (option Z * alist A) :=
  let minsize := u32 (index + 1) in
  let finish l :=
    let ptr := index * al_obj_size l in
    (Some ptr, if al_count l <=? minsize then set_count l minsize else l) in
  if al_alloc lst <=? index then
    match alist_expand_min mem_ok lst minsize with
    | None => None
    | Some (false, l) => Some (None, l)
    | Some (true, l) => Some (finish l)
    end
  else Some (finish lst).

Definition alist_add_placeholder (mem_ok : bool) lst :=
  alist_ensure_ptr mem_ok lst (al_count lst).

(** [memcpy(ptr, obj, obj_size)] writes the object [ptr] points at. *)
Definition store_obj lst (ptr : Z) (obj : A) : alist A :=
  set_data lst (<[Z.to_nat (ptr / al_obj_size lst) := obj]> (al_data lst)).

Definition alist_add_ptr (mem_ok : bool) lst (obj : A)
  : option (option Z * alist A) :=
  match alist_add_placeholder mem_ok lst with
  | Some (Some ptr, l) => Some (Some ptr, store_obj l ptr obj)
  | r => r
  end.

(** The block handed to the caller, the count stored in [*countp] and the
    list left behind. *)
Definition alist_uninit_move_ptr lst : option (list A) * Z * alist A :=
  if al_count lst =? 0 then (None, al_count lst, alist_uninit lst)
  else (Some (al_data lst), al_count lst,
        snd (alist_init true (al_obj_size lst) 0)).

(** ** What a list holds *)

Definition items lst : list A := take (Z.to_nat (al_count lst)) (al_data lst).

Record al_wf lst : Prop := {
  wf_len : Z.of_nat (length (al_data lst)) = al_alloc lst;
  wf_count : 0 <= al_count lst <= al_alloc lst;
  wf_alloc : al_alloc lst < 65536;
  wf_obj : 0 < al_obj_size lst < 65536
}.
End Ops.

(** * Properties *)

Lemma expand_size_ok fuel start min :
  0 < start -> min <= 2147483648 -> min <= start * 2 ^ Z.of_nat fuel ->
  exists n, expand_size fuel start min = Some n /\
            start <= n /\ min <= n /\ (n = start \/ n < 2 * min).
Proof.
  revert start. induction fuel as [|fuel IH]; intros start Hs Hm Hf; simpl.
  - change (2 ^ Z.of_nat 0) with 1 in Hf.
    destruct (Z.ltb_spec start min); [lia|]. eexists; split; [reflexivity|lia].
  - destruct (Z.ltb_spec start min).
    + rewrite u32_small by lia.
      rewrite Nat2Z.inj_succ, Z.pow_succ_r in Hf by lia.
      destruct (IH (start * 2)) as (n & E & ? & ? & ?); [lia|lia|lia|].
      exists n; rewrite E; repeat split; lia.
    + eexists; split; [reflexivity|lia].
Qed.

Section Props.
Context {A : Type} (zero : A).
Implicit Type lst : alist A.

Lemma items_length lst :
  al_wf lst -> Z.of_nat (length (items lst)) = al_count lst.
Proof. intros []. unfold items. rewrite length_take. lia. Qed.

Lemma set_count_wf lst c :
  al_wf lst -> 0 <= c <= al_alloc lst -> al_wf (set_count lst c).
Proof.
  intros [] ?. constructor; simpl; auto; rewrite u16_small; lia.
Qed.

Lemma alist_expand_to_ok lst n :
  al_wf lst -> alist_err lst = false -> al_alloc lst <= n < 65536 ->
  exists l', alist_expand_to zero true lst n = (true, l') /\ al_wf l' /\
    items l' = items lst /\ al_alloc l' = n /\ al_count l' = al_count lst /\
    al_obj_size l' = al_obj_size lst /\ al_flags l' = al_flags lst.
Proof.
  intros [Hl Hc Ha Ho] He Hn. unfold alist_expand_to. rewrite He.
  eexists; split; [reflexivity|]. rewrite u16_small by lia.
  rewrite take_ge by lia.
  split; [constructor; simpl; try lia|].
  { rewrite length_app, length_replicate. lia. }
  split; [|auto].
  unfold items; simpl. rewrite take_app_le by lia. done.
Qed.

Lemma alist_expand_to_fail lst n :
  alist_expand_to zero false lst n =
    (false, if alist_err lst then lst else
            Alist (al_data lst) (al_obj_size lst) (al_count lst) (al_alloc lst)
                  (Z.lor (al_flags lst) ALISTF_FAIL)).
Proof. unfold alist_expand_to. by destruct (alist_err lst). Qed.

(** The size [alist_expand_min] settles on. *)
Lemma alist_expand_min_ok lst m :
  al_wf lst -> alist_err lst = false -> al_alloc lst < m -> m <= 32768 ->
  exists l', alist_expand_min zero true lst m = Some (true, l') /\ al_wf l' /\
    items l' = items lst /\ m <= al_alloc l' /\ al_count l' = al_count lst /\
    al_obj_size l' = al_obj_size lst /\ al_flags l' = al_flags lst.
Proof.
  intros W He Hlt Hm. unfold alist_expand_min.
  set (start := if al_alloc lst =? 0 then _ else _).
  assert (0 < start /\ (start = al_alloc lst \/ start = 4) /\ al_alloc lst <= start) as (Hs & Hs' & Hle).
  { subst start. unfold ALIST_INITIAL_SIZE. destruct W. case_Z; lia. }
  destruct (expand_size_ok 32 start m) as (n & E & H1 & H2 & H3); [lia|lia|..].
  { change (2 ^ Z.of_nat 32) with 4294967296. lia. }
  rewrite E.
  destruct (alist_expand_to_ok lst n W He) as (l' & E' & W' & I & Al & R); [lia|].
  exists l'. rewrite E'. repeat split; try apply W'; intuition lia.
Qed.

Lemma alist_ensure_ptr_next lst :
  al_wf lst -> alist_err lst = false -> al_count lst < 32768 ->
  exists l', alist_ensure_ptr zero true lst (al_count lst)
             = Some (Some (al_count lst * al_obj_size lst), l') /\
    al_wf l' /\ take (Z.to_nat (al_count lst)) (al_data l') = items lst /\
    al_count l' = al_count lst + 1 /\ al_obj_size l' = al_obj_size lst /\
    al_flags l' = al_flags lst.
Proof.
  intros W He Hc. unfold alist_ensure_ptr.
  assert (0 <= al_count lst) by (destruct W; lia).
  rewrite u32_small by lia.
  assert (forall l, al_wf l -> al_count l = al_count lst ->
    al_obj_size l = al_obj_size lst -> al_flags l = al_flags lst ->
    items l = items lst -> al_count lst < al_alloc l ->
    exists l', Some (Some (al_count lst * al_obj_size l),
      if al_count l <=? al_count lst + 1 then set_count l (al_count lst + 1) else l)
      = Some (Some (al_count lst * al_obj_size lst), l') /\ al_wf l' /\
    take (Z.to_nat (al_count lst)) (al_data l') = items lst /\
    al_count l' = al_count lst + 1 /\ al_obj_size l' = al_obj_size lst /\
    al_flags l' = al_flags lst) as fin.
  { intros l W' Ec Eo Ef Ei Hlt.
    destruct (Z.leb_spec (al_count l) (al_count lst + 1)); [|lia].
    rewrite Eo. eexists; split; [reflexivity|].
    split; [apply set_count_wf; [done|lia]|].
    simpl. rewrite u16_small by lia.
    repeat split; auto. rewrite <- Ei. unfold items. by rewrite Ec. }
  destruct (Z.leb_spec (al_alloc lst) (al_count lst)).
  - destruct (alist_expand_min_ok lst (al_count lst + 1)) as
      (l & E & W' & Ei & Ha & Ec & Eo & Ef); auto; [lia|lia|].
    rewrite E. apply fin; auto; lia.
  - apply fin; auto; lia.
Qed.

End Props.

(** The pointer returned for a new entry addresses exactly that entry. *)
Lemma ptr_index (i sz : Z) : 0 < sz -> i * sz / sz = i.
Proof. intros. apply Z.div_mul. lia. Qed.

(** [alist_add_ptr] appends: whatever the spare room, as long as the list is
    healthy and memory is available, the entries afterwards are the old
    entries followed by the new object, and the returned pointer is the
    address of the new entry. *)
Theorem alist_add_ptr_appends {A} (zero : A) (lst : alist A) (obj : A) :
  al_wf lst -> alist_err lst = false -> al_count lst < 32768 ->
  exists l', alist_add_ptr zero true lst obj
             = Some (Some (al_count lst * al_obj_size lst), l') /\
    al_wf l' /\ items l' = items lst ++ [obj] /\
    alist_get_ptr l' (al_count lst) = Some (al_count lst * al_obj_size lst) /\
    alist_calc_index l' (al_count lst * al_obj_size lst) = al_count lst.
Proof.
  intros W He Hc. unfold alist_add_ptr, alist_add_placeholder.
  destruct (alist_ensure_ptr_next zero lst W He Hc) as (l & -> & W' & Ht & Ec & Eo & Ef).
  eexists; split; [reflexivity|].
  assert (0 <= al_count lst /\ 0 < al_obj_size lst) as [? ?] by (destruct W; lia).
  unfold store_obj, alist_get_ptr, alist_calc_index, items; simpl.
  rewrite Eo, Ec, !ptr_index by lia.
  destruct W' as [Wl Wc Wa Wo].
  split; [constructor; simpl; try lia; rewrite length_insert; lia|].
  split.
  - replace (Z.to_nat (al_count lst + 1)) with (S (Z.to_nat (al_count lst))) by lia.
    rewrite (take_S_r _ _ obj).
    2:{ apply list_lookup_insert_eq. lia. }
    rewrite take_insert_ge by lia. unfold items in Ht. by rewrite Ht.
  - split.
    + destruct (Z.leb_spec (al_count lst + 1) (al_count lst)); [lia|done].
    + destruct (Z.eqb_spec (al_count lst + 1) 0); [lia|].
      destruct (Z.ltb_spec (al_count lst * al_obj_size lst) 0); [nia|]. simpl.
      rewrite u32_small, s32_small by lia. done.
Qed.

Definition demo_list : alist Z :=
  Alist [10; 20; 30; 40] 8 4 4 0.

Lemma alist_add_ptr_appends_witness :
  exists l', alist_add_ptr 0 true demo_list 50 = Some (Some (al_count demo_list * al_obj_size demo_list), l') /\
    al_wf l' /\ items l' = [10; 20; 30; 40; 50] /\
    alist_get_ptr l' 4 = Some 32 /\ alist_calc_index l' 32 = 4.
Proof.
  apply (alist_add_ptr_appends 0 demo_list 50); [constructor; simpl; lia|reflexivity|simpl; lia].
Defined.

(** When the list is full and no memory can be had, [alist_add_ptr] returns
    NULL, keeps every entry and latches the failure flag, after which every
    later expansion is refused, whatever memory there is. *)
Theorem alist_add_ptr_no_memory {A} (zero : A) (lst : alist A) (obj : A) :
  al_wf lst -> alist_full lst = true -> al_count lst < 32768 ->
  exists l', alist_add_ptr zero false lst obj = Some (None, l') /\
    al_wf l' /\ items l' = items lst /\ alist_err l' = true /\
    (forall mem_ok n, alist_expand_to zero mem_ok l' n = (false, l')).
Proof.
  intros W Hf Hc. apply Z.eqb_eq in Hf. pose proof W as [? ? ? ?].
  unfold alist_add_ptr, alist_add_placeholder, alist_ensure_ptr.
  rewrite u32_small by lia. destruct (Z.leb_spec (al_alloc lst) (al_count lst)); [|lia].
  unfold alist_expand_min. set (start := if al_alloc lst =? 0 then _ else _).
  destruct (expand_size_ok 32 start (al_count lst + 1)) as (n & -> & _);
    [subst start; unfold ALIST_INITIAL_SIZE; case_Z; lia|lia| |].
  { change (2 ^ Z.of_nat 32) with 4294967296. subst start. unfold ALIST_INITIAL_SIZE. case_Z; lia. }
  rewrite alist_expand_to_fail. eexists; split; [reflexivity|].
  assert (forall f, alist_err (Alist (al_data lst) (al_obj_size lst) (al_count lst) (al_alloc lst)
                    (Z.lor f ALISTF_FAIL)) = true) as L.
  { intros f. unfold alist_err, ALISTF_FAIL; simpl. rewrite Z.land_lor_distr_l.
    apply negb_true_iff, Z.eqb_neq. intros E%Z.lor_eq_0_iff. by destruct E. }
  destruct (alist_err lst) eqn:E.
  - split; [done|]. split; [done|]. split; [done|]. intros. unfold alist_expand_to. by rewrite E.
  - split; [by destruct W; constructor|]. split; [done|]. split; [apply L|].
    intros. unfold alist_expand_to. by rewrite L.
Qed.

Lemma alist_add_ptr_no_memory_witness :
  exists l', alist_add_ptr 0 false demo_list 50 = Some (None, l') /\
    al_wf l' /\ items l' = [10; 20; 30; 40] /\ alist_err l' = true /\
    (forall mem_ok n, alist_expand_to 0 mem_ok l' n = (false, l')).
Proof.
  apply (alist_add_ptr_no_memory 0 demo_list 50); [constructor; simpl; lia|reflexivity|simpl; lia].
Defined.
