(* ===== verification/Lmb.v ===== *)
(** Logical memory blocks (lib/lmb.c, include/lmb.h): the model.

    A region list is an [alist] of [lmb_region]; the allocator keeps one list
    of available memory and one of reserved memory.  [phys_addr_t],
    [phys_size_t] and [ulong] are 64 bits wide.  What the allocator calls
    outside this file is a section variable: the EFI memory-map notification
    and the architecture's own memory map.  Each operation that may enlarge a list takes the outcome of
    that allocation as [mem_ok]. *)

From S2P Require Import Prelude Alist.

Record lmb_region := Region { r_base : Z; r_size : Z; r_flags : Z }.

#[export] Instance lmb_region_inhabited : Inhabited lmb_region :=
  populate (Region 0 0 0).
#[export] Instance lmb_region_eq_dec : EqDecision lmb_region.
Proof. solve_decision. Defined.

Abbreviation rgn_lst := (alist lmb_region).

Definition rgn0 : lmb_region := Region 0 0 0.

(** [sizeof(struct lmb_region)]: two 64-bit fields, a u32 and padding. *)
Definition sizeof_region : Z := 24.

Definition LMB_ALLOC_ANYWHERE : Z := 0.
Definition LMB_ALIST_INITIAL_SIZE : Z := 4.
Definition LMB_NONE : Z := 0.
Definition LMB_NOMAP : Z := 2.
Definition LMB_NOOVERWRITE : Z := 4.
Definition LMB_NONOTIFY : Z := 8.

Inductive lmb_map_op := LMB_MAP_OP_RESERVE | LMB_MAP_OP_FREE | LMB_MAP_OP_ADD.

Record lmb := Lmb {
  available_mem : rgn_lst;
  used_mem : rgn_lst;
  lmb_test : bool
}.

(** [rgn[i]], read and written. *)
Definition rgn (l : rgn_lst) (i : Z) : lmb_region := al_data l !!! Z.to_nat i.
Definition set_rgn (l : rgn_lst) (i : Z) (r : lmb_region) : rgn_lst :=
  set_data l (<[Z.to_nat i := r]> (al_data l)).

(** * Region lists *)

Definition lmb_addrs_overlap (base1 size1 base2 size2 : Z) : bool :=
  let base1_end := u64 (base1 + size1 - 1) in
  let base2_end := u64 (base2 + size2 - 1) in
  (base1 <=? base2_end) && (base2 <=? base1_end).

Definition lmb_addrs_adjacent (base1 size1 base2 size2 : Z) : Z :=
  if base2 =? u64 (base1 + size1) then 1
  else if base1 =? u64 (base2 + size2) then -1
  else 0.

Definition LMB_RGN_OVERLAP : Z := 1.
Definition LMB_RGN_ADJACENT : Z := 2.

Definition lmb_regions_check (l : rgn_lst) (r1 r2 : Z) : Z :=
  let a := rgn l r1 in
  let b := rgn l r2 in
  if negb (r_flags a =? r_flags b) then 0
  else if lmb_addrs_overlap (r_base a) (r_size a) (r_base b) (r_size b) then LMB_RGN_OVERLAP
  else if negb (lmb_addrs_adjacent (r_base a) (r_size a) (r_base b) (r_size b) =? 0)
  then LMB_RGN_ADJACENT
  else 0.

(** [for (i = r; i < count - 1; i++) rgn[i] = rgn[i + 1]] *)
Fixpoint shift_down (n : nat) (l : rgn_lst) (i : Z) : rgn_lst :=
  match n with
  | O => l
  | S n' =>
      if i <? al_count l - 1 then shift_down n' (set_rgn l i (rgn l (i + 1))) (i + 1)
      else l
  end.

Definition lmb_remove_region (l : rgn_lst) (r : Z) : rgn_lst :=
  let l' := shift_down (Z.to_nat (al_count l)) l r in
  set_count l' (al_count l' - 1).

Definition lmb_coalesce_regions (l : rgn_lst) (r1 r2 : Z) : rgn_lst :=
  let a := rgn l r1 in
  let l' := set_rgn l r1 (Region (r_base a) (u64 (r_size a + r_size (rgn l r2))) (r_flags a)) in
  lmb_remove_region l' r2.

(** The counting loop of [lmb_resize_regions]: [None] when an overlapping
    region is not [LMB_NONE], else the number of overlapping regions and the
    index of the last one. *)
Fixpoint count_overlaps (n : nat) (l : rgn_lst) (base size idx rgn_cnt idx_end : Z)
  : option (Z * Z) :=
  match n with
  | O => Some (rgn_cnt, idx_end)
  | S n' =>
      if idx <=? al_count l - 1 then
        let r := rgn l idx in
        if lmb_addrs_overlap base size (r_base r) (r_size r) then
          if negb (r_flags r =? LMB_NONE) then None
          else count_overlaps n' l base size (idx + 1) (rgn_cnt + 1) idx
        else count_overlaps n' l base size (idx + 1) rgn_cnt idx_end
      else Some (rgn_cnt, idx_end)
  end.

Definition lmb_resize_regions (l : rgn_lst) (idx_start base size : Z) : Z * rgn_lst :=
  match count_overlaps (Z.to_nat (al_count l)) l base size idx_start 0 idx_start with
  | None => (-1, l)
  | Some (rgn_cnt, idx_end) =>
      let mergebase := Z.min base (r_base (rgn l idx_start)) in
      let rgnend := u64 (r_base (rgn l idx_end) + r_size (rgn l idx_end)) in
      let mergeend := Z.max rgnend (u64 (base + size)) in
      let l1 := set_rgn l idx_start
                  (Region mergebase (u64 (mergeend - mergebase)) (r_flags (rgn l idx_start))) in
      (* while (--rgn_cnt) *)
      (0, Nat.iter (Z.to_nat (u64 (rgn_cnt - 1)))
            (fun l => lmb_remove_region l (idx_start + 1)) l1)
  end.

(** How the first loop of [lmb_add_region_flags] ends: with [-1] returned, or
    at index [i] with the regions changed and coalesced or not. *)
Inductive add_scan := ScanFail (l : rgn_lst) | ScanAt (l : rgn_lst) (i coalesced : Z).

Fixpoint add_loop (n : nat) (l : rgn_lst) (base size flags i : Z) : add_scan :=
  match n with
  | O => ScanAt l i 0
  | S n' =>
      if i <? al_count l then
        let r := rgn l i in
        let ret := lmb_addrs_adjacent base size (r_base r) (r_size r) in
        if 0 <? ret then
          if negb (flags =? r_flags r) then ScanAt l i 0
          else ScanAt (set_rgn l i (Region (u64 (r_base r - size)) (u64 (r_size r + size))
                                           (r_flags r))) i 1
        else if ret <? 0 then
          if negb (flags =? r_flags r) then add_loop n' l base size flags (i + 1)
          else ScanAt (set_rgn l i (Region (r_base r) (u64 (r_size r + size)) (r_flags r))) i 1
        else if lmb_addrs_overlap base size (r_base r) (r_size r) then
          let (ret, l') := lmb_resize_regions l i base size in
          if ret <? 0 then ScanFail l' else ScanAt l' i 1
        else add_loop n' l base size flags (i + 1)
      else ScanAt l i 0
  end.

(** [for (i = count; i >= 0; i--)]: shift the larger bases up, then store. *)
Fixpoint insert_sorted (i : nat) (l : rgn_lst) (r : lmb_region) : rgn_lst :=
  match i with
  | O => set_rgn l 0 r
  | S i' =>
      let p := rgn l (Z.of_nat i') in
      if r_base r <? r_base p
      then insert_sorted i' (set_rgn l (Z.of_nat i) p) r
      else set_rgn l (Z.of_nat i) r
  end.

(** The block after the loop: join region [i] with its successor where they
    touch or overlap.  [inl] when [-1] is returned, else the regions and the
    [coalesced] counter. *)
Definition add_check (l : rgn_lst) (i coalesced : Z) : rgn_lst + rgn_lst * Z :=
  if negb (al_count l =? 0) && (i <? al_count l - 1) then
    let ret := lmb_regions_check l i (i + 1) in
    if ret =? LMB_RGN_ADJACENT then inr (lmb_coalesce_regions l i (i + 1), coalesced + 1)
    else if ret =? LMB_RGN_OVERLAP then
      let r := rgn l i in
      let (ret, l') := lmb_resize_regions l i (r_base r) (r_size r) in
      if ret <? 0 then inl l' else inr (l', coalesced + 1)
    else inr (l, coalesced)
  else inr (l, coalesced).

(** "Couldn't coalesce the LMB, so add it to the sorted table." *)
Definition add_new (mem_ok : bool) (l : rgn_lst) (base size flags : Z) : Z * rgn_lst :=
  let (ok, l') :=
    if alist_full l then alist_expand_by rgn0 mem_ok l (al_alloc l) else (true, l) in
  if ok then
    let l4 := insert_sorted (Z.to_nat (al_count l')) l' (Region base size flags) in
    (0, set_count l4 (al_count l4 + 1))
  else (-1, l').

Definition lmb_add_region_flags (mem_ok : bool) (l : rgn_lst) (base size flags : Z)
  : Z * rgn_lst :=
  if alist_err l then (-1, l)
  else
    match add_loop (Z.to_nat (al_count l)) l base size flags 0 with
    | ScanFail l1 => (-1, l1)
    | ScanAt l1 i coalesced =>
        match add_check l1 i coalesced with
        | inl l2 => (-1, l2)
        | inr (l2, coalesced) =>
            if negb (coalesced =? 0) then (0, l2)
            else add_new mem_ok l2 base size flags
        end
    end.

(** The region [_lmb_free] finds: its index with [rgnbegin] and [rgnend]. *)
Fixpoint free_find (n : nat) (l : rgn_lst) (base end_ i : Z) : option (Z * Z * Z) :=
  match n with
  | O => None
  | S n' =>
      if i <? al_count l then
        let rgnbegin := r_base (rgn l i) in
        let rgnend := u64 (rgnbegin + r_size (rgn l i) - 1) in
        if (rgnbegin <=? base) && (end_ <=? rgnend) then Some (i, rgnbegin, rgnend)
        else free_find n' l base end_ (i + 1)
      else None
  end.

Definition lmb_free_rgn (mem_ok : bool) (l : rgn_lst) (base size : Z) : Z * rgn_lst :=
  let end_ := u64 (base + size - 1) in
  match free_find (Z.to_nat (al_count l)) l base end_ 0 with
  | None => (-1, l)
  | Some (i, rgnbegin, rgnend) =>
      let r := rgn l i in
      if (rgnbegin =? base) && (rgnend =? end_) then (0, lmb_remove_region l i)
      else if rgnbegin =? base then
        (0, set_rgn l i (Region (u64 (end_ + 1)) (u64 (r_size r - size)) (r_flags r)))
      else if rgnend =? end_ then
        (0, set_rgn l i (Region (r_base r) (u64 (r_size r - size)) (r_flags r)))
      else
        let l' := set_rgn l i (Region (r_base r) (u64 (base - r_base r)) (r_flags r)) in
        lmb_add_region_flags mem_ok l' (u64 (end_ + 1)) (u64 (rgnend - end_)) (r_flags r)
  end.

Fixpoint overlaps_from (n : nat) (l : rgn_lst) (base size i : Z) : Z :=
  match n with
  | O => -1
  | S n' =>
      if i <? al_count l then
        if lmb_addrs_overlap base size (r_base (rgn l i)) (r_size (rgn l i)) then i
        else overlaps_from n' l base size (i + 1)
      else -1
  end.

Definition lmb_overlaps_region (l : rgn_lst) (base size : Z) : Z :=
  overlaps_from (Z.to_nat (al_count l)) l base size 0.

(** * The allocation search shared by [_lmb_alloc_base] and [io_lmb_alloc] *)

Inductive probe := Taken (base : Z) | NotHere | NoFuel.

(** [while (base && lmbbase <= base)]: step below each reserved region met. *)
Fixpoint alloc_probe (fuel : nat) (used : rgn_lst) (lmbbase size align base : Z) : probe :=
  if negb (base =? 0) && (lmbbase <=? base) then
    match fuel with
    | O => NoFuel
    | S n =>
        let i := lmb_overlaps_region used base size in
        if i <? 0 then Taken base
        else
          let res_base := r_base (rgn used i) in
          if res_base <? size then NotHere
          else alloc_probe n used lmbbase size align (ALIGN_DOWN (u64 (res_base - size)) align)
    end
  else NotHere.

(** Where the search of one memory region starts; [None]: the region is skipped. *)
Definition alloc_start (r : lmb_region) (size align max_addr : Z) : option Z :=
  let lmbbase := r_base r in
  let lmbsize := r_size r in
  if lmbsize <? size then None
  else if max_addr =? LMB_ALLOC_ANYWHERE then
    Some (ALIGN_DOWN (u64 (lmbbase + lmbsize - size)) align)
  else if lmbbase <? max_addr then
    let b := u64 (lmbbase + lmbsize) in
    let b := if b <? lmbbase then U64_MAX else b in
    Some (ALIGN_DOWN (u64 (Z.min b max_addr - size)) align)
  else None.

(** [for (i = count - 1; i >= 0; i--)]: the highest memory region first. *)
Fixpoint alloc_scan (n : nat) (avail used : rgn_lst) (size align max_addr : Z) : probe :=
  match n with
  | O => NotHere
  | S i =>
      let r := rgn avail (Z.of_nat i) in
      match alloc_start r size align max_addr with
      | None => alloc_scan i avail used size align max_addr
      | Some base =>
          match alloc_probe (S (Z.to_nat (al_count used))) used (r_base r) size align base with
          | NotHere => alloc_scan i avail used size align max_addr
          | p => p
          end
      end
  end.

(** * IOVA maps: the [io_lmb] functions *)

Definition lmb_lists (mem_avail mem_used : bool) (test : bool) (old : lmb) : Z * lmb :=
  let (ok1, a) := alist_init rgn0 mem_avail sizeof_region LMB_ALIST_INITIAL_SIZE in
  if ok1 then
    let (ok2, u) := alist_init rgn0 mem_used sizeof_region LMB_ALIST_INITIAL_SIZE in
    if ok2 then (0, Lmb a u test)
    else (- ENOMEM, Lmb a u (lmb_test old))
  else (- ENOMEM, Lmb a (used_mem old) (lmb_test old)).

Definition io_lmb_setup (mem_avail mem_used : bool) (old : lmb) : Z * lmb :=
  lmb_lists mem_avail mem_used false old.

Definition io_lmb_teardown (m : lmb) : lmb :=
  Lmb (alist_uninit (available_mem m)) (alist_uninit (used_mem m)) (lmb_test m).

Definition io_lmb_add (mem_ok : bool) (m : lmb) (base size : Z) : Z * lmb :=
  let (ret, a) := lmb_add_region_flags mem_ok (available_mem m) base size LMB_NONE in
  (ret, Lmb a (used_mem m) (lmb_test m)).

(** [None] only when the search runs out of fuel. *)
Definition io_lmb_alloc (mem_ok : bool) (m : lmb) (size align : Z) : option (Z * lmb) :=
  match alloc_scan (Z.to_nat (al_count (available_mem m))) (available_mem m) (used_mem m)
                   size align LMB_ALLOC_ANYWHERE with
  | NoFuel => None
  | NotHere => Some (0, m)
  | Taken base =>
      let (ret, u) := lmb_add_region_flags mem_ok (used_mem m) base size LMB_NONE in
      let m' := Lmb (available_mem m) u (lmb_test m) in
      Some (if ret <? 0 then 0 else base, m')
  end.

Definition io_lmb_free (mem_ok : bool) (m : lmb) (base size : Z) : Z * lmb :=
  let (ret, u) := lmb_free_rgn mem_ok (used_mem m) base size in
  (ret, Lmb (available_mem m) u (lmb_test m)).

(** * The global map *)

Section Global.
(** CONFIG_IS_ENABLED(EFI_LOADER) and lib/efi_loader's map update. *)
Variable efi_loader : bool.
Variable efi_map_update_notify : Z -> Z -> lmb_map_op -> Z.

Definition lmb_map_update_notify (m : lmb) (addr size : Z) (op : lmb_map_op) (flags : Z) : Z :=
  if efi_loader && negb (lmb_test m) && (Z.land flags LMB_NONOTIFY =? 0)
  then efi_map_update_notify addr size op
  else 0.

Fixpoint can_reserve_from (n : nat) (u : rgn_lst) (base size flags i : Z) : bool :=
  match n with
  | O => true
  | S n' =>
      if i <? al_count u then
        let r := rgn u i in
        if lmb_addrs_overlap base size (r_base r) (r_size r)
           && (negb (flags =? LMB_NONE) || negb (flags =? r_flags r))
        then false
        else can_reserve_from n' u base size flags (i + 1)
      else true
  end.

Definition lmb_can_reserve_region (m : lmb) (base size flags : Z) : bool :=
  can_reserve_from (Z.to_nat (al_count (used_mem m))) (used_mem m) base size flags 0.

Definition lmb_add (mem_ok : bool) (m : lmb) (base size : Z) : Z * lmb :=
  let (ret, a) := lmb_add_region_flags mem_ok (available_mem m) base size LMB_NONE in
  let m' := Lmb a (used_mem m) (lmb_test m) in
  if negb (ret =? 0) then (ret, m')
  else (lmb_map_update_notify m' base size LMB_MAP_OP_ADD LMB_NONE, m').

Definition lmb_free_flags (mem_ok : bool) (m : lmb) (base size flags : Z) : Z * lmb :=
  let (ret, u) := lmb_free_rgn mem_ok (used_mem m) base size in
  let m' := Lmb (available_mem m) u (lmb_test m) in
  if ret <? 0 then (ret, m')
  else (lmb_map_update_notify m' base size LMB_MAP_OP_FREE flags, m').

Definition lmb_free (mem_ok : bool) (m : lmb) (base size : Z) : Z * lmb :=
  lmb_free_flags mem_ok m base size LMB_NONE.

Definition lmb_reserve (mem_ok : bool) (m : lmb) (base size flags : Z) : Z * lmb :=
  if negb (lmb_can_reserve_region m base size flags) then (- EEXIST, m)
  else
    let (ret, u) := lmb_add_region_flags mem_ok (used_mem m) base size flags in
    let m' := Lmb (available_mem m) u (lmb_test m) in
    if negb (ret =? 0) then (ret, m')
    else (lmb_map_update_notify m' base size LMB_MAP_OP_RESERVE flags, m').

(** The address returned and the map left; [None]: out of fuel. *)
Definition lmb_alloc_base_ (mem_ok : bool) (m : lmb) (size align max_addr flags : Z)
  : option (Z * lmb) :=
  match alloc_scan (Z.to_nat (al_count (available_mem m))) (available_mem m) (used_mem m)
                   size align max_addr with
  | NoFuel => None
  | NotHere => Some (0, m)
  | Taken base =>
      let (ret, u) := lmb_add_region_flags mem_ok (used_mem m) base size flags in
      let m' := Lmb (available_mem m) u (lmb_test m) in
      if negb (ret =? 0) then Some (0, m')
      else
        let ret := lmb_map_update_notify m' base size LMB_MAP_OP_RESERVE flags in
        (* int converted to phys_addr_t *)
        if negb (ret =? 0) then Some (u64 ret, m') else Some (base, m')
  end.

Definition lmb_alloc (mem_ok : bool) (m : lmb) (size align : Z) : option (Z * lmb) :=
  lmb_alloc_base_ mem_ok m size align LMB_ALLOC_ANYWHERE LMB_NONE.

Definition lmb_alloc_base (mem_ok : bool) (m : lmb) (size align max_addr flags : Z) :=
  lmb_alloc_base_ mem_ok m size align max_addr flags.

Definition lmb_alloc_addr (mem_ok : bool) (m : lmb) (base size flags : Z) : Z * lmb :=
  let i := lmb_overlaps_region (available_mem m) base size in
  if 0 <=? i then
    let r := rgn (available_mem m) i in
    if lmb_addrs_overlap (r_base r) (r_size r) (u64 (base + size - 1)) 1 then
      let (ret, m') := lmb_reserve mem_ok m base size flags in
      if ret =? 0 then (0, m') else (-1, m')
    else (-1, m)
  else (-1, m).

Fixpoint free_size_from (n : nat) (u : rgn_lst) (addr i : Z) : option Z :=
  match n with
  | O => None
  | S n' =>
      if i <? al_count u then
        let r := rgn u i in
        if addr <? r_base r then Some (u64 (r_base r - addr))
        else if addr <? u64 (r_base r + r_size r) then Some 0
        else free_size_from n' u addr (i + 1)
      else None
  end.

Definition lmb_get_free_size (m : lmb) (addr : Z) : Z :=
  if 0 <=? lmb_overlaps_region (available_mem m) addr 1 then
    match free_size_from (Z.to_nat (al_count (used_mem m))) (used_mem m) addr 0 with
    | Some s => s
    | None =>
        let r := rgn (available_mem m) (al_count (available_mem m) - 1) in
        u64 (r_base r + r_size r - addr)
    end
  else 0.

Fixpoint reserved_flags_from (n : nat) (u : rgn_lst) (addr flags i : Z) : bool :=
  match n with
  | O => false
  | S n' =>
      if i <? al_count u then
        let r := rgn u i in
        let upper := u64 (r_base r + r_size r - 1) in
        if (r_base r <=? addr) && (addr <=? upper) then Z.land (r_flags r) flags =? flags
        else reserved_flags_from n' u addr flags (i + 1)
      else false
  end.

Definition lmb_is_reserved_flags (m : lmb) (addr flags : Z) : bool :=
  reserved_flags_from (Z.to_nat (al_count (used_mem m))) (used_mem m) addr flags 0.

Definition lmb_setup (mem_avail mem_used : bool) (test : bool) (old : lmb) : Z * lmb :=
  lmb_lists mem_avail mem_used test old.

(** ** Initialisation from the board's memory banks *)

(** The fields of [gd] and [bd_info] the initialisation reads. *)
Record board_info := {
  bi_dram : list (Z * Z);          (* start, size of each bank *)
  ram_top : Z;
  start_addr_sp : Z;
  stack_size : Z;                  (* CONFIG_STACK_SIZE *)
  skip_reloc : bool;               (* gd->flags & GD_FLG_SKIP_RELOC *)
  start_sym : Z;                   (* _start *)
  mon_len : Z
}.

(** The [i]-th allocation of a sequence succeeds or not. *)
Variable mem : nat -> bool.

Fixpoint add_banks (banks : list (Z * Z)) (top : Z) (k : nat) (m : lmb) : lmb :=
  match banks with
  | [] => m
  | (start, size) :: banks' =>
      let bank_end := u64 (start + size) in
      let m' :=
        if size =? 0 then m
        else
          let m1 := snd (lmb_add (mem k) m start size) in
          if top <=? start then snd (lmb_reserve (mem (S k)) m1 start size LMB_NOOVERWRITE)
          else if top <? bank_end then
            snd (lmb_reserve (mem (S k)) m1 top (u64 (bank_end - top)) LMB_NOOVERWRITE)
          else m1 in
      add_banks banks' top (S (S k)) m'
  end.

(** The architecture's own memory map, with CONFIG_LMB_ARCH_MEM_MAP. *)
Variable lmb_arch_add_memory : option (lmb -> lmb).

Definition lmb_add_memory (bd : board_info) (m : lmb) : lmb :=
  match lmb_arch_add_memory with Some f => f m | None =>
  let top := if ram_top bd =? 0 then 4294967296 else ram_top bd in
  add_banks (bi_dram bd) top 0 m
  end.

(** The bank holding the stack: everything from below the stack to the end
    of that bank (or of usable RAM) is reserved. *)
Fixpoint reserve_uboot_from (banks : list (Z * Z)) (bd : board_info) (m : lmb) : lmb :=
  match banks with
  | [] => m
  | (start, size) :: banks' =>
      let rsv_start := u64 (start_addr_sp bd - stack_size bd) in
      let bank_end := u64 (start + size - 1) in
      if (size =? 0) || (rsv_start <? start) then reserve_uboot_from banks' bd m
      else if bank_end <? rsv_start then reserve_uboot_from banks' bd m
      else
        let bank_end := if ram_top bd <? bank_end then u64 (ram_top bd - 1) else bank_end in
        let m1 := snd (lmb_reserve (mem 0%nat) m rsv_start (u64 (bank_end - rsv_start + 1))
                                   LMB_NOOVERWRITE) in
        if skip_reloc bd
        then snd (lmb_reserve (mem 1%nat) m1 (start_sym bd) (mon_len bd) LMB_NOOVERWRITE)
        else m1
  end.

Definition lmb_reserve_uboot_region (bd : board_info) (m : lmb) : lmb :=
  reserve_uboot_from (bi_dram bd) bd m.
End Global.

(** * Running the model *)

Definition no_notify (addr size : Z) (op : lmb_map_op) : Z := 0.
Definition lmb_empty : lmb :=
  snd (lmb_setup true true true (Lmb alist_zeroed alist_zeroed false)).

(** The reservations of test_lmb_overlapping_reserve in test/lib/lmb.c. *)
Example lmb_run_overlap :
  let m := snd (lmb_add false no_notify true lmb_empty 0x40000000 0x20000000) in
  let rsv m b s := lmb_reserve false no_notify true m b s LMB_NONE in
  let m1 := snd (rsv m 0x40010000 0x10000) in
  let m2 := snd (rsv m1 0x40030000 0x10000) in
  let m3 := snd (rsv m2 0x40020000 0x10000) in
  items (used_mem m3) = [Region 0x40010000 0x30000 0].
Proof. vm_compute. reflexivity. Qed.
