(* ===== verification/LmbFacts.v ===== *)
(** Logical memory blocks: what the region-list operations do.

    [repr l rs] says that the array list [l] is healthy and holds the regions
    [rs].  Each array operation of lib/lmb.c is related to an operation on
    [rs]; the main result is [lmb_add_region_flags_spec], which describes the
    list left by an insertion by cases on how the new region sits among the
    old ones. *)

From S2P Require Import Prelude Alist Lmb.

(** * Regions as address intervals *)

Definition rend (r : lmb_region) : Z := r_base r + r_size r.

Definition valid (r : lmb_region) : Prop :=
  0 <= r_base r /\ 0 < r_size r /\ rend r <= U64_MAX.

Definition before (a b : lmb_region) : Prop := rend a <= r_base b.

(** Adjacent with equal flags: the pair a coalescing pass would merge. *)
Definition tight (a b : lmb_region) : Prop :=
  rend a = r_base b /\ r_flags a = r_flags b.

#[export] Instance tight_dec a b : Decision (tight a b).
Proof. unfold tight. apply _. Defined.

(** Regions valid, in increasing order and disjoint. *)
Definition ordered (rs : list lmb_region) : Prop :=
  Forall valid rs /\ StronglySorted before rs.

Definition coalesced (rs : list lmb_region) : Prop :=
  Sorted (fun a b => ~ tight a b) rs.

(** [x] overlaps [y] as intervals. *)
Definition meets (x y : lmb_region) : Prop :=
  r_base x < rend y /\ r_base y < rend x.

#[export] Instance meets_dec x y : Decision (meets x y).
Proof. unfold meets. apply _. Defined.

(** The abstract map: address [a] lies in a region with flags [f]. *)
Definition covers (rs : list lmb_region) (a f : Z) : Prop :=
  Exists (fun r => r_base r <= a < rend r /\ r_flags r = f) rs.

Definition inside (r : lmb_region) (a : Z) : Prop := r_base r <= a < rend r.

#[export] Instance inside_dec r a : Decision (inside r a).
Proof. unfold inside. apply _. Defined.

Ltac region :=
  unfold valid, before, tight, meets, inside, rend, U64_MAX in *; simpl in *.

Lemma overlap_meets x y :
  valid x -> valid y ->
  lmb_addrs_overlap (r_base x) (r_size x) (r_base y) (r_size y) = true <-> meets x y.
Proof.
  intros Hx Hy. unfold lmb_addrs_overlap. region.
  rewrite !u64_small by (unfold U64_MAX; lia).
  rewrite andb_true_iff, !Z.leb_le. lia.
Qed.

Lemma overlap_meets_false x y :
  valid x -> valid y ->
  lmb_addrs_overlap (r_base x) (r_size x) (r_base y) (r_size y) = false <-> ~ meets x y.
Proof.
  intros. rewrite <- not_true_iff_false, overlap_meets by done. done.
Qed.

Lemma adjacent_cases x y :
  valid x -> valid y ->
  lmb_addrs_adjacent (r_base x) (r_size x) (r_base y) (r_size y) =
    if rend x =? r_base y then 1 else if rend y =? r_base x then -1 else 0.
Proof.
  intros. unfold lmb_addrs_adjacent. region.
  rewrite !u64_small by (unfold U64_MAX; lia). repeat case_Z; lia.
Qed.

(** * Array lists that hold regions *)

Definition repr (l : rgn_lst) (rs : list lmb_region) : Prop :=
  al_wf l /\ items l = rs /\ alist_err l = false /\ 0 < al_alloc l.

Section Repr.
Implicit Types (rs : list lmb_region) (x y : lmb_region).

Lemma repr_count (l : rgn_lst) rs : repr l rs -> al_count l = Z.of_nat (length rs).
Proof. intros (W & <- & _). by rewrite items_length. Qed.

Lemma repr_data (l : rgn_lst) rs (i : nat) :
  repr l rs -> (i < length rs)%nat -> al_data l !! i = rs !! i.
Proof.
  intros R Hi. pose proof (repr_count _ _ R). destruct R as (W & <- & _).
  unfold items. rewrite lookup_take_lt; [done|]. lia.
Qed.

Lemma repr_rgn (l : rgn_lst) l1 x l2 i :
  repr l (l1 ++ x :: l2) -> i = Z.of_nat (length l1) -> rgn l i = x.
Proof.
  intros R ->. unfold rgn. rewrite Nat2Z.id.
  apply list_lookup_total_correct. erewrite repr_data; [|eassumption|].
  - by rewrite lookup_app_r, Nat.sub_diag by lia.
  - rewrite length_app; simpl; lia.
Qed.

Lemma repr_set (l : rgn_lst) l1 x l2 i y :
  repr l (l1 ++ x :: l2) -> i = Z.of_nat (length l1) ->
  repr (set_rgn l i y) (l1 ++ y :: l2).
Proof.
  intros R ->. pose proof (repr_count _ _ R) as Hc.
  rewrite length_app in Hc; simpl in Hc.
  destruct R as ([] & Hi & He). split; [|split]; [|unfold items in *; simpl|done].
  - constructor; simpl; auto. by rewrite length_insert.
  - rewrite Nat2Z.id, take_insert_lt by lia. rewrite Hi. apply insert_app_mid.
Qed.

Lemma repr_drop_last (l : rgn_lst) rs z :
  repr l (rs ++ [z]) -> repr (set_count l (al_count l - 1)) rs.
Proof.
  intros R. pose proof (repr_count _ _ R) as Hc.
  rewrite length_app in Hc; simpl in Hc.
  destruct R as (W & Hi & He). split; [|split]; [|unfold items in *; simpl|done].
  - apply set_count_wf; [done|]. destruct W; lia.
  - destruct W. rewrite u16_small by lia.
    replace (Z.to_nat (al_count l)) with (S (length rs)) in Hi by lia.
    replace (Z.to_nat (al_count l - 1)) with (length rs) by lia.
    apply (f_equal (take (length rs))) in Hi.
    rewrite take_take, take_app_length in Hi.
    by replace (length rs `min` S (length rs))%nat with (length rs) in Hi by lia.
Qed.

Lemma shift_down_repr n : forall (l : rgn_lst) l1 x l2 i,
  repr l (l1 ++ x :: l2) -> i = Z.of_nat (length l1) -> (length l2 <= n)%nat ->
  exists z, repr (shift_down n l i) (l1 ++ l2 ++ [z]).
Proof.
  induction n as [|n IH]; intros l l1 x l2 i R Hi Hn; simpl.
  - destruct l2; [|simpl in Hn; lia]. by exists x.
  - pose proof (repr_count _ _ R) as Hc. rewrite length_app in Hc; simpl in Hc.
    destruct l2 as [|y l2].
    + simpl in Hc. destruct (Z.ltb_spec i (al_count l - 1)); [lia|]. by exists x.
    + simpl in Hc, Hn. destruct (Z.ltb_spec i (al_count l - 1)); [|lia].
      rewrite (repr_rgn l (l1 ++ [x]) y l2 (i + 1)).
      2:{ by rewrite <- app_assoc. } 2:{ rewrite length_app; simpl; lia. }
      destruct (IH (set_rgn l i y) (l1 ++ [y]) y l2 (i + 1)) as [z Hz].
      * rewrite <- app_assoc. by apply (repr_set l l1 x).
      * rewrite length_app; simpl; lia.
      * lia.
      * exists z. by rewrite <- app_assoc in Hz.
Qed.

Lemma remove_repr (l : rgn_lst) l1 x l2 i :
  repr l (l1 ++ x :: l2) -> i = Z.of_nat (length l1) ->
  repr (lmb_remove_region l i) (l1 ++ l2).
Proof.
  intros R Hi. unfold lmb_remove_region.
  pose proof (repr_count _ _ R) as Hc. rewrite length_app in Hc; simpl in Hc.
  destruct (shift_down_repr (Z.to_nat (al_count l)) l l1 x l2 i R Hi) as [z Hz]; [lia|].
  eapply repr_drop_last. by rewrite <- app_assoc.
Qed.

(** Removing the [k] regions after position [i]. *)
Lemma remove_iter_repr k : forall (l : rgn_lst) l1 mid l2 i,
  repr l (l1 ++ mid ++ l2) -> length mid = k -> i = Z.of_nat (length l1) ->
  repr (Nat.iter k (fun l => lmb_remove_region l i) l) (l1 ++ l2).
Proof.
  induction k as [|k IH]; intros l l1 mid l2 i R Hk Hi.
  - by destruct mid.
  - destruct mid as [|x mid]; [done|]. rewrite Nat.iter_succ_r.
    eapply (IH _ l1 mid l2); [|simpl in Hk; lia|done].
    by eapply remove_repr.
Qed.

Lemma coalesce_repr (l : rgn_lst) l1 a b l2 i :
  repr l (l1 ++ a :: b :: l2) -> i = Z.of_nat (length l1) ->
  rend a <= U64_MAX -> 0 <= r_size a -> 0 <= r_size b -> 0 <= r_base a ->
  rend a + r_size b <= U64_MAX ->
  repr (lmb_coalesce_regions l i (i + 1))
       (l1 ++ Region (r_base a) (r_size a + r_size b) (r_flags a) :: l2).
Proof.
  intros R Hi ? ? ? ? ?. unfold lmb_coalesce_regions.
  rewrite (repr_rgn l l1 a (b :: l2) i R Hi).
  rewrite (repr_rgn l (l1 ++ [a]) b l2 (i + 1)).
  2:{ by rewrite <- app_assoc. } 2:{ rewrite length_app; simpl; lia. }
  rewrite u64_small by (unfold rend in *; lia).
  set (ab := Region _ _ _).
  assert (repr (set_rgn l i ab) ((l1 ++ [ab]) ++ b :: l2)) as R'.
  { rewrite <- app_assoc. by apply (repr_set l l1 a). }
  apply (remove_repr _ _ _ _ (i + 1)) in R'; [|rewrite length_app; simpl; lia].
  by rewrite <- app_assoc in R'.
Qed.
End Repr.

(** * Resizing a run of overlapping regions *)

Section Resize.
Implicit Types (n x m : lmb_region) (mid hi : list lmb_region).

Lemma count_overlaps_none n hi : forall k (l : rgn_lst) l1 idx cnt last,
  repr l (l1 ++ hi) -> idx = Z.of_nat (length l1) -> (length hi <= k)%nat ->
  valid n -> Forall valid hi -> Forall (fun r => ~ meets n r) hi ->
  count_overlaps k l (r_base n) (r_size n) idx cnt last = Some (cnt, last).
Proof.
  induction hi as [|h hi IH]; intros k l l1 idx cnt last R Hi Hk Vn V M;
    pose proof (repr_count _ _ R) as Hc; rewrite length_app in Hc; simpl in Hc, Hk.
  - destruct k; [done|]. simpl. destruct (Z.leb_spec idx (al_count l - 1)); [lia|done].
  - destruct k as [|k]; [lia|]. simpl. destruct (Z.leb_spec idx (al_count l - 1)); [|lia].
    rewrite (repr_rgn l l1 h hi idx R Hi).
    apply Forall_cons in V as [Vh V]. apply Forall_cons in M as [Mh M].
    rewrite (proj2 (overlap_meets_false n h Vn Vh) Mh).
    apply (IH k l (l1 ++ [h])); auto; [by rewrite <- app_assoc| |lia].
    rewrite length_app; simpl; lia.
Qed.

Lemma count_overlaps_run n mid : forall k (l : rgn_lst) l1 hi idx cnt last,
  repr l (l1 ++ mid ++ hi) -> idx = Z.of_nat (length l1) ->
  (length mid + length hi <= k)%nat ->
  valid n -> Forall valid mid -> Forall valid hi ->
  Forall (fun r => meets n r /\ r_flags r = LMB_NONE) mid ->
  Forall (fun r => ~ meets n r) hi ->
  count_overlaps k l (r_base n) (r_size n) idx cnt last =
    Some (cnt + Z.of_nat (length mid),
          if decide (mid = []) then last else idx + Z.of_nat (length mid) - 1).
Proof.
  induction mid as [|m mid IH]; intros k l l1 hi idx cnt last R Hi Hk Vn V Vh M Mh.
  - rewrite decide_True by done. simpl. rewrite Z.add_0_r. by eapply count_overlaps_none.
  - pose proof (repr_count _ _ R) as Hc. rewrite !length_app in Hc; simpl in Hc, Hk.
    destruct k as [|k]; [lia|]. simpl. destruct (Z.leb_spec idx (al_count l - 1)); [|lia].
    rewrite (repr_rgn l l1 m (mid ++ hi) idx R Hi).
    apply Forall_cons in V as [Vm V]. apply Forall_cons in M as [[Mm Fm] M].
    rewrite (proj2 (overlap_meets n m Vn Vm) Mm), Fm. simpl.
    rewrite (IH k l (l1 ++ [m]) hi); auto; first last.
    { lia. } { rewrite length_app; simpl; lia. } { by rewrite <- app_assoc. }
    destruct (decide (m :: mid = [])); [done|]. destruct (decide (mid = [])) as [->|];
      simpl; f_equal; f_equal; lia.
Qed.

(** The merged region spans from the lower of the two bases to the higher of
    the two ends; the other overlapped regions disappear. *)
Lemma resize_repr n (l : rgn_lst) l1 m0 mid mid' ml hi i :
  repr l (l1 ++ (m0 :: mid) ++ hi) -> i = Z.of_nat (length l1) ->
  m0 :: mid = mid' ++ [ml] -> valid n ->
  Forall valid (m0 :: mid) -> Forall valid hi ->
  Forall (fun r => meets n r /\ r_flags r = LMB_NONE) (m0 :: mid) ->
  Forall (fun r => ~ meets n r) hi ->
  let lo := Z.min (r_base n) (r_base m0) in
  exists l', lmb_resize_regions l i (r_base n) (r_size n) = (0, l') /\
    repr l' (l1 ++ Region lo (Z.max (rend ml) (rend n) - lo) (r_flags m0) :: hi).
Proof.
  intros R Hi E Vn V Vh M Mh lo. unfold lmb_resize_regions.
  pose proof (repr_count _ _ R) as Hc. rewrite !length_app in Hc; simpl in Hc.
  erewrite count_overlaps_run; eauto; [|simpl; lia].
  rewrite decide_False by done.
  assert (length (m0 :: mid) = S (length mid')) as Hlen.
  { rewrite E, length_app. simpl. lia. }
  rewrite (repr_rgn l l1 m0 (mid ++ hi) i R Hi).
  rewrite (repr_rgn l (l1 ++ mid') ml hi).
  2:{ rewrite E in R. by rewrite <- !app_assoc in *. }
  2:{ rewrite Hlen, length_app. lia. }
  assert (valid ml) as Vml.
  { rewrite E in V. apply Forall_app in V as [_ V]. by apply Forall_cons in V as [V _]. }
  assert (valid m0 /\ meets n m0) as [V0 M0].
  { apply Forall_cons in V as [V0 _]. apply Forall_cons in M as [[M0 _] _]. auto. }
  clear V Vh M Mh. simpl in Hlen.
  eexists; split; [reflexivity|]. fold lo.
  replace (u64 (r_base ml + r_size ml)) with (rend ml) by (symmetry; region; apply u64_small; unfold U64_MAX; lia).
  replace (u64 (r_base n + r_size n)) with (rend n) by (symmetry; region; apply u64_small; unfold U64_MAX; lia).
  assert (0 <= Z.max (rend ml) (rend n) - lo <= U64_MAX) by (subst lo; region; lia).
  rewrite (u64_small (Z.max _ _ - _)) by lia.
  assert (0 <= al_count l < 65536) by (destruct R as ([] & _); lia).
  rewrite (u64_small (0 + _ - 1)) by (unfold U64_MAX; cbn [length]; lia).
  set (m := Region lo _ _).
  apply (repr_set l l1 m0 (mid ++ hi) i m) in R; [|done].
  replace (l1 ++ m :: hi) with ((l1 ++ [m]) ++ hi) by by rewrite <- app_assoc.
  replace (l1 ++ m :: mid ++ hi) with ((l1 ++ [m]) ++ mid ++ hi) in R by by rewrite <- app_assoc.
  eapply remove_iter_repr; eauto; [simpl; lia|]. rewrite length_app; simpl; lia.
Qed.
End Resize.

(** * Inserting into the sorted table *)

Section Insert.
Implicit Types (n : lmb_region) (lo hi tail : list lmb_region).

Lemma rgn_data (l : rgn_lst) l1 x l2 i :
  al_data l = l1 ++ x :: l2 -> i = Z.of_nat (length l1) -> rgn l i = x.
Proof. intros E ->. unfold rgn. rewrite Nat2Z.id, E. apply lookup_total_app_mid. Qed.

Lemma set_rgn_data (l : rgn_lst) l1 x l2 i y :
  al_data l = l1 ++ x :: l2 -> i = Z.of_nat (length l1) ->
  set_rgn l i y = set_data l (l1 ++ y :: l2).
Proof. intros E ->. unfold set_rgn. by rewrite Nat2Z.id, E, insert_app_mid. Qed.

Lemma insert_sorted_data n hi : forall (l : rgn_lst) lo z tail,
  al_data l = lo ++ hi ++ z :: tail ->
  Forall (fun r => r_base r <= r_base n) lo ->
  Forall (fun r => r_base n < r_base r) hi ->
  insert_sorted (length lo + length hi) l n = set_data l (lo ++ n :: hi ++ tail).
Proof.
  induction hi as [|h hi IH] using rev_ind; intros l lo z tail E Hlo Hhi.
  - simpl in *. rewrite Nat.add_0_r. destruct lo as [|p lo _] using rev_ind.
    + simpl. by rewrite (set_rgn_data l [] z tail).
    + rewrite length_app, Nat.add_1_r. cbn [insert_sorted].
      rewrite (rgn_data l lo p (z :: tail)); [|by rewrite E, <- app_assoc|done].
      apply Forall_app in Hlo as [_ [Hp _]%Forall_cons]. 
      destruct (Z.ltb_spec (r_base n) (r_base p)); [lia|].
      rewrite (set_rgn_data l (lo ++ [p]) z tail); [done|done|].
      rewrite length_app; simpl; lia.
  - rewrite length_app, Nat.add_1_r, Nat.add_succ_r. cbn [insert_sorted].
    apply Forall_app in Hhi as [Hhi [Hh _]%Forall_cons]. 
    rewrite (rgn_data l (lo ++ hi) h (z :: tail)).
    2:{ by rewrite E, <- !app_assoc. } 2:{ by rewrite length_app. }
    destruct (Z.ltb_spec (r_base n) (r_base h)); [|lia].
    rewrite (set_rgn_data l (lo ++ hi ++ [h]) z tail).
    2:{ by rewrite E, <- !app_assoc. } 2:{ rewrite !length_app; simpl; lia. }
    rewrite (IH _ lo h (h :: tail)); auto.
    + by rewrite <- !app_assoc.
    + simpl. by rewrite <- !app_assoc.
Qed.

Lemma insert_repr n (l : rgn_lst) lo hi :
  repr l (lo ++ hi) -> al_count l < al_alloc l ->
  Forall (fun r => r_base r <= r_base n) lo ->
  Forall (fun r => r_base n < r_base r) hi ->
  let l4 := insert_sorted (Z.to_nat (al_count l)) l n in
  repr (set_count l4 (al_count l4 + 1)) (lo ++ n :: hi).
Proof.
  intros R Hlt Hlo Hhi. simpl. pose proof (repr_count _ _ R) as Hc.
  destruct R as ([Wl Wc Wa Wo] & Hi & He & Ha). rewrite length_app in Hc.
  assert (al_data l = (lo ++ hi) ++ drop (Z.to_nat (al_count l)) (al_data l)) as E.
  { rewrite <- Hi. unfold items. by rewrite take_drop. }
  assert (length (drop (Z.to_nat (al_count l)) (al_data l)) <> 0%nat) as Hd.
  { rewrite length_drop. lia. }
  destruct (drop _ _) as [|z tail]; [done|].
  replace (Z.to_nat (al_count l)) with (length lo + length hi)%nat by lia.
  rewrite (insert_sorted_data n hi l lo z tail); auto; [|by rewrite E, <- app_assoc].
  assert (length (lo ++ n :: hi ++ tail) = length (al_data l)) as Hlen.
  { rewrite E, !length_app. simpl. rewrite !length_app. lia. }
  split; [|split]; [|unfold items; simpl|split; [done|simpl; lia]].
  - constructor; simpl; auto; [by rewrite Hlen|rewrite u16_small; lia].
  - rewrite u16_small by lia.
    replace (Z.to_nat (al_count l + 1)) with (length (lo ++ n :: hi)).
    2:{ rewrite length_app; simpl; lia. }
    replace (lo ++ n :: hi ++ tail) with ((lo ++ n :: hi) ++ tail) by by rewrite <- app_assoc.
    apply take_app_length.
Qed.

(** Room for one more region is made when the table is full. *)
Lemma grow_repr (l : rgn_lst) rs :
  repr l rs -> Z.of_nat (length rs) < 32768 ->
  exists l3, (if alist_full l then alist_expand_by rgn0 true l (al_alloc l) else (true, l))
             = (true, l3) /\ repr l3 rs /\ al_count l3 < al_alloc l3.
Proof.
  intros R Hlen. pose proof (repr_count _ _ R) as Hc.
  destruct R as (W & Hi & He & Ha). unfold alist_full.
  destruct (Z.eqb_spec (al_count l) (al_alloc l)).
  - unfold alist_expand_by. rewrite u32_small by lia.
    destruct (alist_expand_to_ok rgn0 l (al_alloc l + al_alloc l) W He) as
      (l3 & E & W3 & I3 & A3 & C3 & O3 & F3); [lia|].
    exists l3. rewrite E. split; [done|]. split; [|lia].
    split; [done|]. split; [by rewrite I3|]. split; [|lia].
    unfold alist_err in *. by rewrite F3.
  - exists l. split; [done|]. split; [done|]. destruct W; lia.
Qed.
End Insert.
