(* ===== verification/LmbMap.v ===== *)
(** Logical memory blocks: what adding a region does to the list, and region
    lists as address maps.

    [add_case lo mid hi n rs'] relates the regions below, overlapping and
    above a new region [n] to the list [lmb_add_region_flags] leaves; one
    constructor per way the code can take.  [AddLost] is the way in which the
    new region is not recorded at all.

    [covers rs a f] reads a region list as the map from addresses to flags it
    stands for; the lemmas show what each way of adding a region and of
    freeing one does to that map and to the order of the list. *)

From S2P Require Import Prelude Alist Lmb LmbFacts.

(** One region from the base of [a] to the end of [b]. *)
Definition join (a b : lmb_region) : lmb_region :=
  Region (r_base a) (rend b - r_base a) (r_flags a).

(** Region [x] followed by [hi], joined with its successor where they touch. *)
Definition merge_next (x : lmb_region) (hi : list lmb_region) : list lmb_region :=
  match hi with
  | h :: t => if decide (tight x h) then join x h :: t else x :: hi
  | [] => [x]
  end.

(** The span of [n] and a run of regions from [m0] to [ml]. *)
Definition span (n m0 ml : lmb_region) : lmb_region :=
  Region (Z.min (r_base n) (r_base m0))
         (Z.max (rend ml) (rend n) - Z.min (r_base n) (r_base m0)) (r_flags m0).

Definition no_tight_last (lo : list lmb_region) (n : lmb_region) : Prop :=
  forall lo' p, lo = lo' ++ [p] -> ~ tight p n.

Inductive add_case (lo mid hi : list lmb_region) (n : lmb_region) : list lmb_region -> Prop :=
| AddLow lo' p :
    lo = lo' ++ [p] -> tight p n -> mid = [] ->
    add_case lo mid hi n (lo' ++ merge_next (join p n) hi)
| AddLowMid lo' p m0 mids mid' ml :
    lo = lo' ++ [p] -> tight p n -> mid = m0 :: mids -> mid = mid' ++ [ml] ->
    add_case lo mid hi n (lo' ++ span (join p n) (join p n) ml :: hi)
| AddMid m0 mids mid' ml :
    no_tight_last lo n -> mid = m0 :: mids -> mid = mid' ++ [ml] ->
    add_case lo mid hi n (lo ++ merge_next (span n m0 ml) hi)
| AddHigh h hi' :
    no_tight_last lo n -> mid = [] -> hi = h :: hi' -> tight n h ->
    add_case lo mid hi n (lo ++ merge_next (join n h) hi')
| AddLost h h1 t :
    no_tight_last lo n -> mid = [] -> hi = h :: h1 :: t ->
    rend n = r_base h -> r_flags n <> r_flags h -> tight h h1 ->
    add_case lo mid hi n (lo ++ join h h1 :: t)
| AddNew :
    no_tight_last lo n -> mid = [] ->
    (forall h hi', hi = h :: hi' -> ~ tight n h) ->
    add_case lo mid hi n (lo ++ n :: hi).

(** How a list sits around [n]. *)
Record around (n : lmb_region) (lo mid hi : list lmb_region) : Prop := {
  ar_lo : Forall (fun r => rend r <= r_base n) lo;
  ar_mid : Forall (meets n) mid;
  ar_hi : Forall (fun r => rend n <= r_base r) hi
}.

(** Overlapping is only allowed between regions without flags. *)
Definition compatible (n : lmb_region) (rs : list lmb_region) : Prop :=
  Forall (fun r => meets n r -> r_flags n = LMB_NONE /\ r_flags r = LMB_NONE) rs.

Lemma ordered_cons r rs :
  ordered (r :: rs) <-> valid r /\ Forall (before r) rs /\ ordered rs.
Proof.
  unfold ordered. rewrite Forall_cons, StronglySorted_cons. naive_solver.
Qed.

Lemma ordered_app l1 l2 :
  ordered (l1 ++ l2) <->
  ordered l1 /\ ordered l2 /\ Forall (fun a => Forall (before a) l2) l1.
Proof.
  unfold ordered. rewrite Forall_app, StronglySorted_app.
  rewrite !Forall_forall. setoid_rewrite Forall_forall. naive_solver.
Qed.

Lemma ordered_valid rs : ordered rs -> Forall valid rs.
Proof. by intros []. Qed.
#[export] Hint Resolve ordered_valid : core.

Lemma Forall_bases (P Q : lmb_region -> Prop) rs :
  ordered rs -> (forall r, valid r -> P r -> Q r) -> Forall P rs -> Forall Q rs.
Proof.
  intros [V _] H HP. rewrite Forall_forall in *. naive_solver.
Qed.

Lemma split_around n rs :
  ordered rs -> valid n -> exists lo mid hi, rs = lo ++ mid ++ hi /\ around n lo mid hi.
Proof.
  intros O Vn. induction rs as [|r rs IH].
  - exists [], [], []. by repeat constructor.
  - apply ordered_cons in O as (Vr & B & O).
    destruct (IH O) as (lo & mid & hi & -> & [Hlo Hmid Hhi]).
    destruct (decide (rend r <= r_base n)).
    { exists (r :: lo), mid, hi. split; [done|]. by repeat constructor. }
    (* [r] is not below: nothing after it is *)
    assert (lo = []) as ->.
    { destruct lo as [|x lo]; [done|]. simpl in B, O.
      apply Forall_cons in B as [B _]. apply Forall_cons in Hlo as [Hx _].
      apply ordered_cons in O as (Vx & _). region. lia. }
    destruct (decide (rend n <= r_base r)).
    + assert (mid = []) as ->.
      { destruct mid as [|x mid]; [done|]. simpl in B, O.
        apply Forall_cons in B as [B _]. apply Forall_cons in Hmid as [Hx _].
        region. lia. }
      exists [], [], (r :: hi). split; [done|]. by repeat constructor.
    + exists [], (r :: mid), hi. split; [done|].
      split; [done| |done]. constructor; [|done]. region. lia.
Qed.

(** * The scan for a region to join *)

Definition skips (n r : lmb_region) : Prop :=
  (rend r <= r_base n /\ ~ tight r n) \/ rend n < r_base r.

Section Scan.
Implicit Types (n r : lmb_region) (pre rest : list lmb_region).

Lemma add_loop_skip n pre : forall k (l : rgn_lst) l1 rest i,
  repr l (l1 ++ pre ++ rest) -> i = Z.of_nat (length l1) -> (length pre <= k)%nat ->
  valid n -> Forall valid pre -> Forall (skips n) pre ->
  add_loop k l (r_base n) (r_size n) (r_flags n) i =
  add_loop (k - length pre) l (r_base n) (r_size n) (r_flags n) (i + Z.of_nat (length pre)).
Proof.
  induction pre as [|r pre IH]; intros k l l1 rest i R Hi Hk Vn V Sk.
  - simpl. by rewrite Nat.sub_0_r, Z.add_0_r.
  - pose proof (repr_count _ _ R) as Hc. rewrite !length_app in Hc; simpl in Hc, Hk.
    destruct k as [|k]; [lia|]. cbn [add_loop].
    destruct (Z.ltb_spec i (al_count l)); [|lia].
    rewrite (repr_rgn l l1 r (pre ++ rest) i R Hi).
    apply Forall_cons in V as [Vr V]. apply Forall_cons in Sk as [Sr Sk].
    assert (add_loop k l (r_base n) (r_size n) (r_flags n) (i + 1) =
      add_loop (k - length pre) l (r_base n) (r_size n) (r_flags n)
               (i + 1 + Z.of_nat (length pre))) as E.
    { apply (IH k l (l1 ++ [r]) rest); auto; [by rewrite <- app_assoc| |lia].
      rewrite length_app; simpl; lia. }
    rewrite adjacent_cases by done.
    replace (lmb_addrs_overlap (r_base n) (r_size n) (r_base r) (r_size r)) with false.
    2:{ symmetry. apply overlap_meets_false; auto. unfold skips in Sr. region. lia. }
    replace (S k - length (r :: pre))%nat with (k - length pre)%nat by (simpl; lia).
    replace (i + Z.of_nat (length (r :: pre))) with (i + 1 + Z.of_nat (length pre)) by (simpl; lia).
    rewrite <- E. unfold skips, tight in Sr. simpl.
    destruct (Z.eqb_spec (rend n) (r_base r)); [region; lia|].
    destruct (Z.eqb_spec (rend r) (r_base n)); simpl; [|done].
    destruct (Z.eqb_spec (r_flags n) (r_flags r)); simpl; [|done].
    region. lia.
Qed.

Context (n r : lmb_region) (l : rgn_lst) (l1 l2 : list lmb_region) (i : Z) (k : nat).
Hypothesis R : repr l (l1 ++ r :: l2).
Hypothesis Hi : i = Z.of_nat (length l1).
Hypothesis Vn : valid n.
Hypothesis Vr : valid r.

Let count_gt : (i <? al_count l) = true.
Proof.
  pose proof (repr_count _ _ R) as Hc. rewrite length_app in Hc; simpl in Hc.
  apply Z.ltb_lt. lia.
Qed.

Lemma add_loop_high :
  rend n = r_base r ->
  add_loop (S k) l (r_base n) (r_size n) (r_flags n) i =
    if decide (r_flags n = r_flags r) then ScanAt (set_rgn l i (join n r)) i 1
    else ScanAt l i 0.
Proof.
  intros E. cbn [add_loop]. rewrite count_gt, (repr_rgn l l1 r l2 i R Hi).
  rewrite adjacent_cases by done. rewrite (proj2 (Z.eqb_eq _ _) E). simpl.
  destruct (Z.eqb_spec (r_flags n) (r_flags r)) as [F|F]; simpl.
  - rewrite decide_True by done. unfold join. rewrite F. repeat f_equal; region;
    [rewrite u64_small by (unfold U64_MAX; lia)..]; lia.
  - by rewrite decide_False.
Qed.

Lemma add_loop_low :
  tight r n ->
  add_loop (S k) l (r_base n) (r_size n) (r_flags n) i =
    ScanAt (set_rgn l i (join r n)) i 1.
Proof.
  intros [E F]. cbn [add_loop]. rewrite count_gt, (repr_rgn l l1 r l2 i R Hi).
  rewrite adjacent_cases by done.
  destruct (Z.eqb_spec (rend n) (r_base r)); [region; lia|].
  rewrite (proj2 (Z.eqb_eq _ _) E), F, Z.eqb_refl. simpl.
  unfold join. rewrite F. repeat f_equal. region.
  rewrite u64_small by (unfold U64_MAX; lia). lia.
Qed.

Lemma add_loop_mid :
  meets n r ->
  add_loop (S k) l (r_base n) (r_size n) (r_flags n) i =
    let (ret, l') := lmb_resize_regions l i (r_base n) (r_size n) in
    if ret <? 0 then ScanFail l' else ScanAt l' i 1.
Proof.
  intros M. cbn [add_loop]. rewrite count_gt, (repr_rgn l l1 r l2 i R Hi).
  rewrite adjacent_cases by done. rewrite (proj2 (overlap_meets n r Vn Vr) M).
  destruct (Z.eqb_spec (rend n) (r_base r)); [region; lia|].
  destruct (Z.eqb_spec (rend r) (r_base n)); [region; lia|]. done.
Qed.
End Scan.

(** * The pass that joins region [i] with its successor *)

Section Check.
Context (x : lmb_region) (l : rgn_lst) (l1 hi : list lmb_region) (i c : Z).
Hypothesis R : repr l (l1 ++ x :: hi).
Hypothesis Hi : i = Z.of_nat (length l1).
Hypothesis Vx : valid x.
Hypothesis Vh : Forall valid hi.

Lemma regions_check_next h t :
  hi = h :: t ->
  lmb_regions_check l i (i + 1) =
    if decide (r_flags x = r_flags h) then
      if decide (meets x h) then LMB_RGN_OVERLAP
      else if decide (rend x = r_base h \/ rend h = r_base x) then LMB_RGN_ADJACENT else 0
    else 0.
Proof.
  intros ->. apply Forall_cons in Vh as [Vh0 _]. unfold lmb_regions_check.
  rewrite (repr_rgn l l1 x (h :: t) i R Hi).
  rewrite (repr_rgn l (l1 ++ [x]) h t (i + 1)).
  2:{ by rewrite <- app_assoc. } 2:{ rewrite length_app; simpl; lia. }
  destruct (Z.eqb_spec (r_flags x) (r_flags h)); simpl.
  2:{ by rewrite decide_False. }
  rewrite decide_True by done. rewrite adjacent_cases by done.
  destruct (decide (meets x h)) as [M|M].
  - by rewrite (proj2 (overlap_meets x h Vx Vh0) M).
  - rewrite (proj2 (overlap_meets_false x h Vx Vh0) M).
    destruct (decide _) as [D|D]; repeat case_Z; simpl; auto; lia.
Qed.

End Check.

(** Nothing above overlaps: the list is joined where it touches. *)
Lemma add_check_merge x (l : rgn_lst) l1 hi i c :
  repr l (l1 ++ x :: hi) -> i = Z.of_nat (length l1) -> valid x -> Forall valid hi ->
  Forall (before x) hi ->
  exists l' c', add_check l i c = inr (l', c') /\ c <= c' /\ repr l' (l1 ++ merge_next x hi) /\
    (c' = c -> l' = l /\ merge_next x hi = x :: hi) /\ (merge_next x hi = x :: hi -> c' = c).
Proof.
  intros R Hi Vx Vh B. unfold add_check.
  pose proof (repr_count _ _ R) as Hc. rewrite length_app in Hc; simpl in Hc.
  destruct hi as [|h t].
  { simpl in Hc. destruct (Z.ltb_spec i (al_count l - 1)); [lia|].
    rewrite andb_false_r. exists l, c. simpl. split; [done|]. split; [lia|]. auto. }
  simpl in Hc. destruct (Z.eqb_spec (al_count l) 0); [lia|].
  destruct (Z.ltb_spec i (al_count l - 1)); [|lia]. simpl.
  rewrite (regions_check_next x l l1 (h :: t) i R Hi Vx Vh h t) by done.
  apply Forall_cons in B as [B _]. pose proof Vh as Vh'. apply Forall_cons in Vh' as [Vh0 _].
  destruct (decide (tight x h)) as [[T F]|T].
  - rewrite decide_True by done. rewrite decide_False by (region; lia).
    rewrite decide_True by auto. simpl.
    exists (lmb_coalesce_regions l i (i + 1)), (c + 1).
    split; [done|]. split; [lia|]. split.
    + replace (join x h) with (Region (r_base x) (r_size x + r_size h) (r_flags x)).
      2:{ unfold join. region. f_equal. lia. }
      eapply coalesce_repr; eauto; region; lia.
    + split; [lia|]. intros E. apply (f_equal length) in E. simpl in E. lia.
  - exists l, c. split; [|split; [lia|auto]].
    destruct (decide (r_flags x = r_flags h)); [|done].
    rewrite decide_False by (region; lia).
    rewrite decide_False; [done|]. unfold tight in T. region. lia.
Qed.

Lemma list_cases {A} (l : list A) : l = [] \/ exists x t, l = x :: t.
Proof. destruct l; eauto. Qed.

Lemma tight_last_dec lo n :
  (exists lo' p, lo = lo' ++ [p] /\ tight p n) \/ no_tight_last lo n.
Proof.
  destruct (last lo) as [p|] eqn:E.
  - destruct (decide (tight p n)) as [T|T].
    + left. apply last_Some in E as [lo' ->]. eauto.
    + right. intros lo' q -> T'. rewrite last_snoc in E. injection E as ->. done.
  - right. intros lo' q -> T'. by rewrite last_snoc in E.
Qed.

Lemma valid_join_low lo p n lo' :
  lo = lo' ++ [p] -> Forall valid lo -> tight p n -> valid n -> valid (join p n).
Proof.
  intros -> V T Vn. apply Forall_app in V as [_ [Vp _]%Forall_cons].
  unfold join; region; lia.
Qed.

(** * All the ways through [lmb_add_region_flags] *)

Section Add.
Context (n : lmb_region) (l : rgn_lst) (lo mid hi : list lmb_region).
Hypothesis R : repr l (lo ++ mid ++ hi).
Hypothesis O : ordered (lo ++ mid ++ hi).
Hypothesis Vn : valid n.
Hypothesis Ar : around n lo mid hi.
Hypothesis C : compatible n (lo ++ mid ++ hi).

Let Vlo : Forall valid lo.
Proof. apply ordered_valid in O. by apply Forall_app in O as [? _]. Qed.
Let Vmid : Forall valid mid.
Proof. apply ordered_valid in O. apply Forall_app in O as [_ H]. by apply Forall_app in H as [? _]. Qed.
Let Vhi : Forall valid hi.
Proof. apply ordered_valid in O. apply Forall_app in O as [_ H]. by apply Forall_app in H as [_ ?]. Qed.

Let Mflags : Forall (fun r => meets n r /\ r_flags r = LMB_NONE) mid.
Proof.
  pose proof (ar_mid _ _ _ _ Ar) as M. unfold compatible in C.
  apply Forall_app in C as [_ C']. apply Forall_app in C' as [C' _].
  rewrite Forall_forall in *. naive_solver.
Qed.

Let Mnone m0 mids : mid = m0 :: mids -> r_flags n = LMB_NONE /\ r_flags m0 = LMB_NONE.
Proof.
  intros E. pose proof (ar_mid _ _ _ _ Ar) as M. unfold compatible in C.
  rewrite E in M. apply Forall_cons in M as [M _].
  apply Forall_app in C as [_ C']. apply Forall_app in C' as [C' _].
  rewrite E in C'. apply Forall_cons in C' as [C' _]. auto.
Qed.

Let mid_before_hi : Forall (fun a => Forall (before a) hi) mid.
Proof. apply ordered_app in O as (_ & O' & _). by apply ordered_app in O' as (_ & _ & ?). Qed.

Lemma span_before m0 mids mid' ml :
  mid = m0 :: mids -> mid = mid' ++ [ml] ->
  valid (span n m0 ml) /\ Forall (before (span n m0 ml)) hi.
Proof.
  intros E E'. pose proof (ar_hi _ _ _ _ Ar) as H.
  pose proof mid_before_hi as B. rewrite E' in B. apply Forall_app in B as [_ [B _]%Forall_cons].
  pose proof Vmid as V. rewrite E' in V. apply Forall_app in V as [_ [Vml _]%Forall_cons].
  pose proof Vmid as V. rewrite E in V. apply Forall_cons in V as [V0 _].
  pose proof (ar_mid _ _ _ _ Ar) as M. rewrite E in M. apply Forall_cons in M as [M0 _].
  split; [unfold span; region; lia|].
  rewrite Forall_forall in *. intros h Hh. specialize (H h Hh). specialize (B h Hh).
  unfold span; region. lia.
Qed.

Lemma skip_lo lo1 lo2 :
  lo = lo1 ++ lo2 -> Forall (fun r => ~ tight r n) lo1 ->
  add_loop (Z.to_nat (al_count l)) l (r_base n) (r_size n) (r_flags n) 0 =
  add_loop (length (lo2 ++ mid ++ hi)) l (r_base n) (r_size n) (r_flags n)
           (Z.of_nat (length lo1)).
Proof.
  intros E T. pose proof R as R'. pose proof Vlo as V. pose proof (ar_lo _ _ _ _ Ar) as A.
  pose proof (repr_count _ _ R) as Hc. rewrite E, <- app_assoc in R'.
  rewrite E, <- app_assoc, length_app in Hc.
  rewrite E in V, A. apply Forall_app in V as [V _]. apply Forall_app in A as [A _].
  rewrite (add_loop_skip n lo1 _ l [] (lo2 ++ mid ++ hi)); auto.
  - replace (Z.to_nat (al_count l) - length lo1)%nat with (length (lo2 ++ mid ++ hi)) by lia.
    done.
  - lia.
  - rewrite Forall_forall in *. intros r Hr. left. auto.
Qed.

Lemma low_not_tight lo' p :
  lo = lo' ++ [p] -> Forall (fun r => ~ tight r n) lo'.
Proof.
  intros E. pose proof O as O'. rewrite E, <- app_assoc in O'.
  apply ordered_app in O' as (_ & O' & B).
  simpl in O'. apply ordered_cons in O' as (Vp & _ & _).
  pose proof (ar_lo _ _ _ _ Ar) as A. rewrite E in A. apply Forall_app in A as [_ [A _]%Forall_cons].
  rewrite Forall_forall in B |- *. intros r Hr T. specialize (B r Hr).
  simpl in B. apply Forall_cons in B as [B _]. region. lia.
Qed.

(** The list after the loop when a lower neighbour is extended. *)
Lemma add_low lo' p :
  lo = lo' ++ [p] -> tight p n ->
  exists l1, add_loop (Z.to_nat (al_count l)) l (r_base n) (r_size n) (r_flags n) 0
             = ScanAt l1 (Z.of_nat (length lo')) 1 /\
    repr l1 (lo' ++ join p n :: mid ++ hi).
Proof.
  intros E T. rewrite (skip_lo lo' [p] E (low_not_tight lo' p E)).
  pose proof R as R'. rewrite E, <- app_assoc in R'. simpl in R'.
  assert (valid p) as Vp.
  { pose proof Vlo as V. rewrite E in V. by apply Forall_app in V as [_ [? _]%Forall_cons]. }
  cbn [app length]. rewrite (add_loop_low n p l lo' (mid ++ hi)); auto.
  eexists; split; [reflexivity|]. by eapply repr_set.
Qed.

Lemma add_low_check lo' p m0 mids mid' ml l1 :
  lo = lo' ++ [p] -> tight p n -> mid = m0 :: mids -> mid = mid' ++ [ml] ->
  repr l1 (lo' ++ join p n :: mid ++ hi) ->
  exists l2, add_check l1 (Z.of_nat (length lo')) 1 = inr (l2, 2) /\
    repr l2 (lo' ++ span (join p n) (join p n) ml :: hi).
Proof.
  intros E T Em Em' R1. destruct (Mnone m0 mids Em) as [Fn F0].
  assert (valid p) as Vp.
  { pose proof Vlo as V. rewrite E in V. by apply Forall_app in V as [_ [? _]%Forall_cons]. }
  assert (valid (join p n)) as Vj by (unfold join; region; lia).
  assert (forall r, meets n r -> meets (join p n) r) as Mj by (intros; unfold join; region; lia).
  pose proof (ar_mid _ _ _ _ Ar) as M. pose proof (ar_hi _ _ _ _ Ar) as H.
  unfold add_check. pose proof (repr_count _ _ R1) as Hc.
  rewrite length_app in Hc. simpl in Hc. rewrite length_app, Em in Hc. simpl in Hc.
  destruct (Z.eqb_spec (al_count l1) 0); [lia|].
  destruct (Z.ltb_spec (Z.of_nat (length lo')) (al_count l1 - 1)); [|lia]. simpl.
  erewrite (regions_check_next (join p n) l1 lo' (mid ++ hi)); eauto.
  2:{ by apply Forall_app. } 2:{ by rewrite Em. }
  rewrite decide_True by (unfold join; simpl; destruct T; congruence).
  rewrite decide_True by (apply Mj; rewrite Em in M; by apply Forall_cons in M as [? _]).
  simpl. rewrite (repr_rgn l1 lo' (join p n) (mid ++ hi)) by auto.
  destruct (resize_repr (join p n) l1 lo' (join p n) mid (join p n :: mid') ml hi
              (Z.of_nat (length lo'))) as (l2 & E2 & R2); auto.
  - simpl. by rewrite Em'.
  - constructor; [split; [unfold join; region; lia|]|].
    + unfold join; simpl. destruct T; congruence.
    + eapply Forall_impl; [exact Mflags|]. simpl. intros r []. auto.
  - rewrite Forall_forall in *. intros h Hh Mh. specialize (H h Hh). unfold join in *; region; lia.
  - rewrite E2. simpl. eexists; split; [done|]. exact R2.
Qed.

Lemma add_new_repr :
  mid = [] -> Z.of_nat (length (lo ++ hi)) < 32768 ->
  exists l', add_new true l (r_base n) (r_size n) (r_flags n) = (0, l') /\ repr l' (lo ++ n :: hi).
Proof.
  intros Em Hlen. unfold add_new.
  assert (repr l (lo ++ hi)) as R' by (rewrite Em in R; exact R).
  destruct (grow_repr l (lo ++ hi) R' Hlen) as (l3 & -> & R3 & Hlt).
  eexists; split; [reflexivity|].
  pose proof (ar_lo _ _ _ _ Ar) as A. pose proof (ar_hi _ _ _ _ Ar) as H.
  replace (Region (r_base n) (r_size n) (r_flags n)) with n by by destruct n.
  apply insert_repr; auto; rewrite !Forall_forall in *; intros r Hr.
  - specialize (A r Hr). specialize (Vlo r Hr). region. lia.
  - specialize (H r Hr). region. lia.
Qed.

Lemma not_tight_lo : no_tight_last lo n -> Forall (fun r => ~ tight r n) lo.
Proof.
  intros T. destruct (list_last_dec lo) as [E|(lo' & p & E)].
  - by rewrite E.
  - rewrite E. apply Forall_app. split; [by eapply low_not_tight|].
    constructor; [by eapply T|done].
Qed.

(** No neighbour below and nothing overlapping: what lies above decides. *)
Lemma add_above :
  no_tight_last lo n -> mid = [] -> Z.of_nat (length (lo ++ mid ++ hi)) < 32768 ->
  exists l' rs',
    match add_loop (Z.to_nat (al_count l)) l (r_base n) (r_size n) (r_flags n) 0 with
    | ScanFail l1 => (-1, l1)
    | ScanAt l1 i coalesced =>
        match add_check l1 i coalesced with
        | inl l2 => (-1, l2)
        | inr (l2, coalesced) =>
            if negb (coalesced =? 0) then (0, l2)
            else add_new true l2 (r_base n) (r_size n) (r_flags n)
        end
    end = (0, l') /\ repr l' rs' /\ add_case lo mid hi n rs'.
Proof.
  intros T Em Hlen. rewrite (skip_lo lo []) by (auto using not_tight_lo, app_nil_r).
  pose proof R as R'. pose proof O as O'. rewrite Em in R', O'. cbn [app] in R', O'.
  assert (Z.of_nat (length (lo ++ hi)) < 32768) as Hlen' by (by rewrite Em in Hlen).
  destruct (add_new_repr Em Hlen') as (ln & En & Rn).
  pose proof (repr_count _ _ R') as Hc. rewrite length_app in Hc.
  replace (length ([] ++ mid ++ hi)) with (length hi) by by rewrite Em.
  pose proof Vhi as V. pose proof (ar_hi _ _ _ _ Ar) as H.
  destruct (list_cases hi) as [Eh|(h & hi' & Eh)].
  { replace (length hi) with 0%nat by by rewrite Eh. cbn [add_loop]. unfold add_check. rewrite Eh in Hc. simpl in Hc.
    destruct (Z.ltb_spec (Z.of_nat (length lo)) (al_count l - 1)); [lia|].
    rewrite andb_false_r. simpl. rewrite En.
    do 2 eexists; split; [done|]. split; [exact Rn|]. apply AddNew; auto. by rewrite Eh. }
  rewrite Eh in R', O', V, H, Hc. simpl in Hc.
  replace (length hi) with (S (length hi')) by by rewrite Eh.
  apply Forall_cons in V as [Vh V]. apply Forall_cons in H as [Hh H].
  apply ordered_app in O' as (_ & O' & _). apply ordered_cons in O' as (_ & Bh & _).
  destruct (decide (rend n = r_base h)) as [E|E].
  - rewrite (add_loop_high n h l lo hi'); auto.
    destruct (decide (r_flags n = r_flags h)) as [F|F].
    + destruct (add_check_merge (join n h) (set_rgn l (Z.of_nat (length lo)) (join n h)) lo hi'
                  (Z.of_nat (length lo)) 1) as (l2 & c & -> & Hc' & R2 & _); auto.
      { by eapply repr_set. } { unfold join; region; lia. }
      { eapply Forall_impl; [exact Bh|]. intros r. unfold join; region. lia. }
      destruct (Z.eqb_spec c 0); [lia|]. simpl. do 2 eexists; split; [done|].
      split; [exact R2|]. eapply AddHigh; eauto. by split.
    + destruct (add_check_merge h l lo hi' (Z.of_nat (length lo)) 0) as
        (l2 & c & -> & Hc' & R2 & E0 & E1); auto.
      destruct (Z.eqb_spec c 0) as [->|Hc0]; simpl.
      * destruct E0 as [-> _]; [done|]. rewrite En.
        do 2 eexists; split; [done|]. split; [exact Rn|]. apply AddNew; auto.
        intros h' t' E'. rewrite Eh in E'. injection E' as <- <-. by intros [].
      * do 2 eexists; split; [done|]. split; [exact R2|].
        destruct hi' as [|h1 t]; [by rewrite E1 in Hc0|]. simpl in E1 |- *.
        destruct (decide (tight h h1)); [|by rewrite E1 in Hc0].
        by eapply AddLost.
  - assert (Forall (skips n) (h :: hi')) as Sk.
    { constructor; [right; lia|].
      eapply Forall_impl; [exact Bh|]. intros r Br. right. region. lia. }
    rewrite (add_loop_skip n (h :: hi') (S (length hi')) l lo []); auto.
    2:{ by rewrite app_nil_r. }
    replace (S (length hi') - length (h :: hi'))%nat with 0%nat by (simpl; lia).
    cbn [add_loop]. unfold add_check.
    destruct (Z.ltb_spec (Z.of_nat (length lo) + Z.of_nat (length (h :: hi'))) (al_count l - 1));
      [simpl in *; lia|].
    rewrite andb_false_r. simpl. rewrite En.
    do 2 eexists; split; [done|]. split; [exact Rn|]. apply AddNew; auto.
    intros h' t' E'. rewrite Eh in E'. injection E' as <- <-. intros [? _]. done.
Qed.

Lemma add_mid_loop m0 mids mid' ml :
  no_tight_last lo n -> mid = m0 :: mids -> mid = mid' ++ [ml] ->
  exists l1, add_loop (Z.to_nat (al_count l)) l (r_base n) (r_size n) (r_flags n) 0
             = ScanAt l1 (Z.of_nat (length lo)) 1 /\
    repr l1 (lo ++ span n m0 ml :: hi).
Proof.
  intros T Em Em'. rewrite (skip_lo lo []) by (try apply not_tight_lo; auto using app_nil_r).
  pose proof R as R'. rewrite Em in R'.
  pose proof Vmid as V. rewrite Em in V. pose proof (ar_mid _ _ _ _ Ar) as M. rewrite Em in M.
  pose proof Mflags as Mf. rewrite Em in Mf.
  replace (length ([] ++ mid ++ hi)) with (S (length (mids ++ hi))) by by rewrite Em.
  rewrite (add_loop_mid n m0 l lo (mids ++ hi)); auto.
  2:{ by apply Forall_cons in V as [? _]. } 2:{ by apply Forall_cons in M as [? _]. }
  destruct (resize_repr n l lo m0 mids mid' ml hi (Z.of_nat (length lo))) as (l2 & E2 & R2); auto.
  - by rewrite <- Em.
  - pose proof (ar_hi _ _ _ _ Ar) as H. rewrite Forall_forall in *.
    intros h Hh Mh. specialize (H h Hh). region. lia.
  - rewrite E2. simpl. eexists; split; [done|]. exact R2.
Qed.

Theorem lmb_add_region_flags_cases :
  Z.of_nat (length (lo ++ mid ++ hi)) < 32768 ->
  exists l' rs', lmb_add_region_flags true l (r_base n) (r_size n) (r_flags n) = (0, l') /\
    repr l' rs' /\ add_case lo mid hi n rs'.
Proof.
  intros Hlen. unfold lmb_add_region_flags.
  replace (alist_err l) with false by (symmetry; apply R).
  destruct (tight_last_dec lo n) as [(lo' & p & E & T)|T].
  - (* a lower neighbour to extend *)
    destruct (add_low lo' p E T) as (l1 & -> & R1).
    destruct (list_cases mid) as [Em|(m0 & mids & Em)].
    + rewrite Em in R1. cbn [app] in R1.
      destruct (add_check_merge (join p n) l1 lo' hi (Z.of_nat (length lo')) 1) as
        (l2 & c & -> & Hc & R2 & _); auto.
      { eapply valid_join_low; eauto. }
      { pose proof (ar_hi _ _ _ _ Ar) as H. eapply Forall_impl; [exact H|].
        intros h. unfold join; region. lia. }
      destruct (Z.eqb_spec c 0); [lia|]. simpl. do 2 eexists; split; [done|].
      split; [exact R2|]. by eapply AddLow.
    + destruct (list_last_dec mid) as [Em'|(mid' & ml & Em')]; [congruence|].
      destruct (add_low_check lo' p m0 mids mid' ml l1) as (l2 & -> & R2); auto.
      simpl. do 2 eexists; split; [done|]. split; [exact R2|]. by eapply AddLowMid.
  - destruct (list_cases mid) as [Em|(m0 & mids & Em)].
    + exact (add_above T Em Hlen).
    + destruct (list_last_dec mid) as [Em'|(mid' & ml & Em')]; [congruence|].
      destruct (add_mid_loop m0 mids mid' ml) as (l1 & -> & R1); auto.
      destruct (span_before m0 mids mid' ml) as [Vs Bs]; auto.
      destruct (add_check_merge (span n m0 ml) l1 lo hi (Z.of_nat (length lo)) 1) as
        (l2 & c & -> & Hc & R2 & _); auto.
      destruct (Z.eqb_spec c 0); [lia|]. simpl. do 2 eexists; split; [done|].
      split; [exact R2|]. by eapply AddMid.
Qed.
End Add.

Section Covers.
Implicit Types (rs l : list lmb_region) (r x n : lmb_region) (a f : Z).

Lemma covers_nil a f : covers [] a f <-> False.
Proof. unfold covers. by rewrite Exists_nil. Qed.

Lemma covers_cons r rs a f :
  covers (r :: rs) a f <-> (inside r a /\ r_flags r = f) \/ covers rs a f.
Proof. unfold covers. by rewrite Exists_cons. Qed.

Lemma covers_app l1 l2 a f : covers (l1 ++ l2) a f <-> covers l1 a f \/ covers l2 a f.
Proof. unfold covers. by rewrite Exists_app. Qed.

Lemma covers_elem rs a f :
  covers rs a f <-> exists r, r ∈ rs /\ inside r a /\ r_flags r = f.
Proof. unfold covers. by rewrite Exists_exists. Qed.

Lemma covers_below n rs a f :
  Forall (fun r => rend r <= r_base n) rs -> covers rs a f -> a < r_base n.
Proof.
  rewrite covers_elem, Forall_forall. intros H (r & Hr & I & _).
  specialize (H r Hr). region. lia.
Qed.

Lemma covers_above n rs a f :
  Forall (fun r => rend n <= r_base r) rs -> covers rs a f -> rend n <= a.
Proof.
  rewrite covers_elem, Forall_forall. intros H (r & Hr & I & _).
  specialize (H r Hr). region. lia.
Qed.

Lemma covers_merge_next x hi a f :
  valid x -> Forall valid hi -> covers (merge_next x hi) a f <-> covers (x :: hi) a f.
Proof.
  intros Vx V. destruct hi as [|h t]; [done|]. simpl. destruct (decide (tight x h)) as [[E F]|]; [|done].
  apply Forall_cons in V as [Vh _]. rewrite !covers_cons. unfold join, inside. region.
  rewrite <- F. intuition lia.
Qed.

(** In an ordered run the first region is lowest and the last ends highest. *)
Lemma run_bounds m0 mids mid' ml r :
  ordered (m0 :: mids) -> m0 :: mids = mid' ++ [ml] -> r ∈ m0 :: mids ->
  r_base m0 <= r_base r /\ rend r <= rend ml.
Proof.
  intros O E Hr. split.
  - apply ordered_cons in O as (V & B & _). apply elem_of_cons in Hr as [->|Hr]; [lia|].
    rewrite Forall_forall in B. specialize (B r Hr). region. lia.
  - rewrite E in O, Hr. apply ordered_app in O as (_ & O & B).
    apply ordered_cons in O as (V & _). rewrite Forall_forall in B.
    apply elem_of_app in Hr as [Hr|Hr].
    + specialize (B r Hr). apply Forall_cons in B as [B _]. region. lia.
    + apply list_elem_of_singleton in Hr as ->. lia.
Qed.

(** The span of [n] and a run it overlaps is their union. *)
Lemma span_union n m0 mids mid' ml a :
  valid n -> ordered (m0 :: mids) -> m0 :: mids = mid' ++ [ml] ->
  Forall (fun r => meets n r /\ r_flags r = LMB_NONE) (m0 :: mids) ->
  inside (span n m0 ml) a <-> inside n a \/ covers (m0 :: mids) a LMB_NONE.
Proof.
  intros Vn O E M. rewrite covers_elem. rewrite Forall_forall in M.
  assert (m0 ∈ m0 :: mids /\ ml ∈ m0 :: mids) as [I0 Il].
  { split; [by constructor|]. rewrite E. apply elem_of_app. right. by constructor. }
  destruct (M m0 I0) as [M0 F0], (M ml Il) as [Ml Fl]. split.
  - intros Ha. destruct (decide (inside n a)) as [|Hn]; [by left|]. right.
    destruct (decide (a < r_base n)).
    + exists m0. repeat split; auto; unfold span in *; region; lia.
    + exists ml. repeat split; auto; unfold span in *; region; lia.
  - intros [Ha|(r & Hr & Ha & _)].
    + unfold span; region; lia.
    + destruct (run_bounds m0 mids mid' ml r O E Hr). unfold span; region; lia.
Qed.

Lemma covers_flags rs a f : Forall (fun r => r_flags r = LMB_NONE) rs ->
  covers rs a f -> f = LMB_NONE.
Proof.
  rewrite covers_elem, Forall_forall. intros H (r & Hr & _ & <-). auto.
Qed.

Lemma inside_join_low p n a :
  valid p -> valid n -> rend p = r_base n -> inside (join p n) a <-> inside p a \/ inside n a.
Proof. intros. unfold join; region. lia. Qed.
End Covers.

Create Rewrite HintDb covers.
#[export] Hint Rewrite covers_nil covers_cons covers_app : covers.

(** * Coalesced lists *)

Lemma coalesced_cons x l :
  coalesced (x :: l) <-> coalesced l /\ (forall h t, l = h :: t -> ~ tight x h).
Proof.
  unfold coalesced. split.
  - intros [S Hd]%Sorted_inv. split; [done|]. intros h t ->. by inversion Hd.
  - intros [S Hd]. constructor; [done|]. destruct l; constructor. eauto.
Qed.

Lemma coalesced_nil : coalesced [].
Proof. constructor. Qed.

Lemma coalesced_snoc l x l2 :
  coalesced (l ++ x :: l2) <-> coalesced (l ++ [x]) /\ coalesced (x :: l2).
Proof.
  induction l as [|y l IH]; simpl.
  - pose proof coalesced_nil. rewrite (coalesced_cons x []). naive_solver.
  - rewrite (coalesced_cons y (l ++ x :: l2)), (coalesced_cons y (l ++ [x])), IH. split.
    + intros [[H1 H2] H3]. split; [|done]. split; [done|].
      intros h t E. destruct l; simpl in *; naive_solver.
    + intros [[H1 H2] H3]. split; [done|]. intros h t E.
      destruct l; simpl in *; naive_solver.
Qed.

Lemma coalesced_app l1 l2 :
  coalesced (l1 ++ l2) <->
  coalesced l1 /\ coalesced l2 /\
  (forall l x h t, l1 = l ++ [x] -> l2 = h :: t -> ~ tight x h).
Proof.
  destruct (list_last_dec l1) as [->|(l & x & ->)].
  - simpl. pose proof coalesced_nil. split; [|tauto].
    intros. split; [done|]. split; [done|]. intros l x h t E. by destruct l.
  - rewrite <- app_assoc. simpl. rewrite coalesced_snoc, coalesced_cons. split.
    + intros (H1 & H2 & H3). split; [done|]. split; [done|].
      intros l' x' h t [-> ->]%app_inj_tail E. eauto.
    + intros (H1 & H2 & H3). eauto 10.
Qed.

(** The map after adding [n]: [n]'s flags inside it, the old map elsewhere. *)
Definition updates (rs : list lmb_region) (n : lmb_region) (rs' : list lmb_region) : Prop :=
  forall a f, covers rs' a f <->
    (inside n a /\ f = r_flags n) \/ (covers rs a f /\ ~ inside n a).

Section AddMap.
Context (n : lmb_region) (lo mid hi rs' : list lmb_region).
Hypothesis O : ordered (lo ++ mid ++ hi).
Hypothesis Vn : valid n.
Hypothesis Ar : around n lo mid hi.
Hypothesis C : compatible n (lo ++ mid ++ hi).

Lemma around_flags : Forall (fun r => meets n r /\ r_flags r = LMB_NONE) mid.
Proof.
  pose proof (ar_mid _ _ _ _ Ar) as M. unfold compatible in C.
  apply Forall_app in C as [_ C']. apply Forall_app in C' as [C' _].
  rewrite Forall_forall in *. naive_solver.
Qed.

Lemma around_none m0 mids : mid = m0 :: mids -> r_flags n = LMB_NONE.
Proof.
  intros E. pose proof (ar_mid _ _ _ _ Ar) as M. unfold compatible in C.
  apply Forall_app in C as [_ C']. apply Forall_app in C' as [C' _].
  rewrite E in M, C'. apply Forall_cons in M as [M _]. apply Forall_cons in C' as [C' _].
  by apply C'.
Qed.

Lemma parts_ordered : ordered lo /\ ordered mid /\ ordered hi.
Proof.
  apply ordered_app in O as (? & O' & _). by apply ordered_app in O' as (? & ? & _).
Qed.

(** Away from the overlapped run the old map does not meet [n]. *)
Lemma outside_lo a f : covers lo a f -> ~ inside n a.
Proof. intros H%(covers_below n); [|apply Ar]. region. lia. Qed.
Lemma outside_hi a f : covers hi a f -> ~ inside n a.
Proof. intros H%(covers_above n); [|apply Ar]. region. lia. Qed.

Lemma covers_mid_none a f : covers mid a f -> f = LMB_NONE.
Proof.
  apply covers_flags. eapply Forall_impl; [exact around_flags|]. by intros r [].
Qed.

Lemma add_case_updates :
  add_case lo mid hi n rs' -> coalesced (lo ++ mid ++ hi) ->
  updates (lo ++ mid ++ hi) n rs'.
Proof.
  intros Hc Co a f. destruct parts_ordered as (Ol & Om & Oh).
  pose proof (outside_lo a f) as Dl. pose proof (outside_hi a f) as Dh.
  destruct Hc as [lo' p El T Em | lo' p m0 mids mid' ml El T Em Em'
                 | m0 mids mid' ml T Em Em' | h hi' T Em Eh Th
                 | h h1 t T Em Eh E F Th | T Em Eh].
  - assert (valid p) as Vp.
    { apply ordered_valid in Ol. rewrite El in Ol. by apply Forall_app in Ol as [_ [? _]%Forall_cons]. }
    rewrite El, Em in *. rewrite !covers_app, covers_merge_next; auto.
    2:{ destruct T. unfold join; region; lia. }
    rewrite !covers_cons. rewrite covers_app, covers_cons in Dl. rewrite inside_join_low by (auto; apply T).
    destruct T as [E F]. simpl. rewrite F, !covers_nil in *.
    assert (inside p a -> ~ inside n a) by (region; lia). intuition congruence.
  - assert (valid p) as Vp.
    { apply ordered_valid in Ol. rewrite El in Ol. by apply Forall_app in Ol as [_ [? _]%Forall_cons]. }
    pose proof (around_none m0 mids Em) as Fn. pose proof around_flags as Mf.
    pose proof (covers_mid_none a f) as Dm.
    pose proof (span_union n m0 mids mid' ml a Vn) as U.
    rewrite <- Em in U. specialize (U Om Em' Mf).
    rewrite El in *. rewrite !covers_app, !covers_cons. rewrite covers_app, covers_cons in Dl.
    assert (inside (span (join p n) (join p n) ml) a <->
            inside p a \/ inside (span n m0 ml) a) as ->.
    { pose proof Om as Om'. rewrite Em in Om'. apply ordered_cons in Om' as (V0 & _ & _).
      assert (r_base n <= r_base m0).
      { rewrite <- app_assoc in O. apply ordered_app in O as (_ & O' & _).
        rewrite Em in O'. apply ordered_cons in O' as (_ & B & _). simpl in B.
        apply Forall_cons in B as [B _]. destruct T. region. lia. }
      pose proof Mf as Mf'. rewrite Em' in Mf'. apply Forall_app in Mf' as [_ [[Ml _] _]%Forall_cons].
      destruct T. unfold span, join; region. lia. }
    rewrite U. destruct T as [E F]. simpl in *. rewrite F, Fn, covers_nil in *.
    assert (inside p a -> ~ inside n a) by (region; lia).
    destruct (decide (f = LMB_NONE)) as [->|], (decide (inside n a)); intuition congruence.
  - pose proof (around_none m0 mids Em) as Fn. pose proof around_flags as Mf.
    pose proof (covers_mid_none a f) as Dm.
    pose proof (span_union n m0 mids mid' ml a Vn) as U.
    rewrite <- Em in U. specialize (U Om Em' Mf).
    assert (r_flags m0 = LMB_NONE) as F0.
    { rewrite Em in Mf. by apply Forall_cons in Mf as [[_ ?] _]. }
    rewrite !covers_app, covers_merge_next; auto.
    2:{ eapply span_before; eauto. }
    rewrite covers_cons, U. simpl. rewrite F0, Fn.
    destruct (decide (f = LMB_NONE)) as [->|], (decide (inside n a)); intuition congruence.
  - rewrite Em, Eh in *. apply ordered_cons in Oh as (Vh & Bh & Oh).
    rewrite !covers_app, covers_merge_next; auto.
    2:{ destruct Th. unfold join; region; lia. }
    rewrite covers_cons in Dh. rewrite !covers_cons, inside_join_low by (auto; apply Th).
    destruct Th as [E F]. simpl. rewrite F, covers_nil in *.
    assert (inside h a -> ~ inside n a) by (region; lia). intuition congruence.
  - exfalso. rewrite Em, Eh in Co. cbn [app] in Co.
    apply coalesced_app in Co as (_ & [_ Co]%coalesced_cons & _). by eapply Co.
  - rewrite Em. cbn [app]. rewrite !covers_app, covers_cons.
    intuition congruence.
Qed.
End AddMap.

(** * Order and coalescing after an addition *)

Lemma ordered_mid l1 x l2 :
  ordered (l1 ++ x :: l2) <->
  ordered l1 /\ valid x /\ ordered l2 /\
  Forall (fun a => rend a <= r_base x) l1 /\ Forall (fun b => rend x <= r_base b) l2.
Proof.
  rewrite ordered_app, ordered_cons. split.
  - intros (O1 & (V & B & O2) & C). repeat split; auto; try apply O1; try apply O2; try apply V.
    eapply Forall_impl; [exact C|]. intros a Ca. by apply Forall_cons in Ca as [? _].
  - intros (O1 & V & O2 & A & B). split; [done|]. split; [done|].
    rewrite Forall_forall in *. intros a Ha. specialize (A a Ha).
    constructor; [exact A|]. rewrite Forall_forall. intros b Hb. specialize (B b Hb).
    region. lia.
Qed.

(** Replacing one region by another that does not reach its neighbours. *)
Lemma ordered_replace l1 x y l2 :
  ordered (l1 ++ x :: l2) -> valid y -> r_base y = r_base x ->
  Forall (fun b => rend y <= r_base b) l2 -> ordered (l1 ++ y :: l2).
Proof.
  rewrite !ordered_mid. intros (O1 & V & O2 & A & B) Vy E By. by rewrite E.
Qed.

Lemma ordered_merge_next l1 x hi :
  ordered (l1 ++ x :: hi) -> ordered (l1 ++ merge_next x hi).
Proof.
  intros O. destruct hi as [|h t]; [done|]. simpl. destruct (decide (tight x h)) as [[E _]|]; [|done].
  apply ordered_mid in O as (O1 & V & [Vh [B O2]]%ordered_cons & A & _).
  apply ordered_mid. split; [done|]. split; [unfold join; region; lia|]. split; [done|].
  split; [done|]. eapply Forall_impl; [exact B|]. intros b. unfold join; region. lia.
Qed.

Lemma coalesced_merge_next l1 x hi :
  coalesced (l1 ++ [x]) -> coalesced hi -> coalesced (l1 ++ merge_next x hi).
Proof.
  intros C1 C2. destruct hi as [|h t]; [done|]. simpl.
  destruct (decide (tight x h)) as [[E F]|T].
  - rewrite coalesced_snoc, coalesced_cons. apply coalesced_cons in C2 as [C2 Ct].
    split; [|split; [done|]].
    + apply coalesced_app in C1 as (C1 & _ & Tx). apply coalesced_app.
      split; [done|]. split; [by repeat constructor|].
      intros l y b t' -> [= <- <-]. apply (Tx l y x []); done.
    + intros b t' ->. specialize (Ct b t' eq_refl). unfold join, tight in *; region.
      rewrite F. intros []. apply Ct. split; [lia|done].
  - rewrite coalesced_snoc, (coalesced_cons x). split; [done|]. split; [done|].
    by intros ? ? [= <- <-].
Qed.

(** Same base and flags: the neighbour below sees no difference. *)
Lemma coalesced_last l1 x y :
  coalesced (l1 ++ [x]) -> r_base y = r_base x -> r_flags y = r_flags x ->
  coalesced (l1 ++ [y]).
Proof.
  rewrite !coalesced_app. intros (C & _ & T) E F.
  split; [done|]. split; [by repeat constructor|].
  intros l z h t -> [= <- <-]. intros [E' F']. eapply (T l z x []); auto.
  split; congruence.
Qed.

Section AddOrder.
Context (n : lmb_region) (lo mid hi rs' : list lmb_region).
Hypothesis O : ordered (lo ++ mid ++ hi).
Hypothesis Vn : valid n.
Hypothesis Ar : around n lo mid hi.

Lemma lo_hi_ordered : ordered (lo ++ hi).
Proof.
  rewrite ordered_app in *. destruct O as (Ol & Omh & B).
  apply ordered_app in Omh as (_ & Oh & _). split; [done|]. split; [done|].
  eapply Forall_impl; [exact B|]. intros a Ha. by apply Forall_app in Ha as [_ ?].
Qed.

(** Where a non-empty overlapped run ends towards its neighbours. *)
Lemma run_neighbours m0 mids mid' ml :
  mid = m0 :: mids -> mid = mid' ++ [ml] ->
  valid m0 /\ valid ml /\ Forall (fun a => rend a <= r_base m0) lo /\
  Forall (fun b => rend ml <= r_base b) hi.
Proof.
  intros Em Em'.
  pose proof O as O1. rewrite Em in O1. apply ordered_mid in O1 as (_ & V0 & _ & A & _).
  pose proof O as O2. rewrite Em', <- (app_assoc mid'), app_assoc in O2.
  apply ordered_mid in O2 as (_ & Vl & _ & _ & B). auto.
Qed.

Lemma add_case_ordered : add_case lo mid hi n rs' -> ordered rs'.
Proof.
  intros Hc. destruct Ar as [Al Am Ah].
  pose proof lo_hi_ordered as Olh.
  destruct (parts_ordered lo mid hi O) as (Ol & Om & Oh).
  destruct Hc as [lo' p El T Em | lo' p m0 mids mid' ml El T Em Em'
                 | m0 mids mid' ml T Em Em' | h hi' T Em Eh Th
                 | h h1 t T Em Eh E F Th | T Em Eh].
  - apply ordered_merge_next. rewrite El, <- app_assoc in Olh. cbn [app] in Olh.
    pose proof Olh as (_ & Vp & _)%ordered_mid. destruct T.
    apply (ordered_replace _ p); auto; [unfold join; region; lia|].
    eapply Forall_impl; [exact Ah|]. intros b. unfold join; region. lia.
  - destruct (run_neighbours m0 mids mid' ml Em Em') as (V0 & Vl & A & B).
    rewrite El, <- app_assoc in Olh. cbn [app] in Olh.
    pose proof Olh as (_ & Vp & _)%ordered_mid. destruct T.
    apply (ordered_replace _ p); auto;
      [unfold span, join; region; lia|unfold span, join; simpl; lia|].
    rewrite Forall_forall in *. intros b Hb. specialize (B b Hb). specialize (Ah b Hb).
    unfold span, join; region. lia.
  - destruct (run_neighbours m0 mids mid' ml Em Em') as (V0 & Vl & A & B).
    apply ordered_merge_next, ordered_mid. split; [done|].
    split; [unfold span; region; lia|]. split; [done|]. rewrite !Forall_forall in *.
    split; [intros a Ha; specialize (A a Ha); specialize (Al a Ha)
           |intros b Hb; specialize (B b Hb); specialize (Ah b Hb)];
      unfold span; region; lia.
  - apply ordered_merge_next. rewrite Eh in *. apply ordered_cons in Oh as (Vh & B & Oh).
    apply ordered_mid. split; [done|]. destruct Th.
    split; [unfold join; region; lia|]. split; [done|]. split; [exact Al|].
    eapply Forall_impl; [exact B|]. intros b. unfold join; region. lia.
  - replace (lo ++ join h h1 :: t) with (lo ++ merge_next h (h1 :: t)).
    + apply ordered_merge_next. by rewrite <- Eh.
    + simpl. by rewrite decide_True.
  - apply ordered_mid. auto.
Qed.

(** Only joining below and overlapping above at once can leave two adjacent
    regions with equal flags. *)
Lemma add_case_coalesced :
  add_case lo mid hi n rs' -> coalesced (lo ++ mid ++ hi) -> mid = [] -> coalesced rs'.
Proof.
  intros Hc Co Em0. rewrite Em0 in Co. cbn [app] in Co.
  pose proof Co as (Cl & Ch & Clh)%coalesced_app.
  destruct Hc as [lo' p El T Em | lo' p m0 mids mid' ml El T Em Em'
                 | m0 mids mid' ml T Em Em' | h hi' T Em Eh Th
                 | h h1 t T Em Eh E F Th | T Em Eh]; try congruence.
  - apply coalesced_merge_next; [|done]. rewrite El in Cl. by apply (coalesced_last _ p).
  - rewrite Eh in Ch. apply coalesced_cons in Ch as [Ch _].
    apply coalesced_merge_next; [|done]. apply (coalesced_last _ n); auto.
    apply coalesced_app. split; [done|]. split; [by repeat constructor|].
    intros l x b t -> [= <- <-]. by eapply T.
  - exfalso. rewrite Eh in Ch. apply coalesced_cons in Ch as [_ Ch]. by eapply Ch.
  - rewrite coalesced_snoc, (coalesced_cons n). split; [|auto].
    apply coalesced_app. split; [done|]. split; [by repeat constructor|].
    intros l x b t -> [= <- <-]. by eapply T.
Qed.
End AddOrder.
