(* ===== verification/LmbAlloc.v ===== *)
(** Logical memory blocks: freeing, searching and the global operations.

    The allocation search is characterised by the set of addresses a block
    may be placed at ([candidate]): it ends, and it takes the highest one. *)

From S2P Require Import Prelude Alist Lmb LmbFacts LmbMap.

(** * Freeing *)

Definition contains (r n : lmb_region) : Prop :=
  r_base r <= r_base n /\ rend n <= rend r.

Section Free.
Implicit Types (n r : lmb_region).

Lemma free_find_skip n pre : forall k (l : rgn_lst) l1 rest i,
  repr l (l1 ++ pre ++ rest) -> i = Z.of_nat (length l1) -> (length pre <= k)%nat ->
  valid n -> Forall valid pre -> Forall (fun r => ~ contains r n) pre ->
  free_find k l (r_base n) (rend n - 1) i =
  free_find (k - length pre) l (r_base n) (rend n - 1) (i + Z.of_nat (length pre)).
Proof.
  induction pre as [|r pre IH]; intros k l l1 rest i R Hi Hk Vn V Nc.
  - simpl. by rewrite Nat.sub_0_r, Z.add_0_r.
  - pose proof (repr_count _ _ R) as Hc. rewrite !length_app in Hc; simpl in Hc, Hk.
    destruct k as [|k]; [lia|]. cbn [free_find].
    destruct (Z.ltb_spec i (al_count l)); [|lia].
    rewrite (repr_rgn l l1 r (pre ++ rest) i R Hi).
    apply Forall_cons in V as [Vr V]. apply Forall_cons in Nc as [Nr Nc].
    rewrite u64_small by (region; lia).
    replace (_ && _) with false.
    2:{ symmetry. apply andb_false_iff. unfold contains in Nr. region.
        rewrite !Z.leb_gt. lia. }
    rewrite (IH k l (l1 ++ [r]) rest); auto;
      [|by rewrite <- app_assoc|rewrite length_app; simpl; lia|lia].
    f_equal; simpl; lia.
Qed.

Lemma free_find_hit n r l (l1 l2 : list lmb_region) k i :
  repr l (l1 ++ r :: l2) -> i = Z.of_nat (length l1) -> valid n -> valid r -> contains r n ->
  free_find (S k) l (r_base n) (rend n - 1) i = Some (i, r_base r, rend r - 1).
Proof.
  intros R Hi Vn Vr Cr. pose proof (repr_count _ _ R) as Hc.
  rewrite length_app in Hc; simpl in Hc. cbn [free_find].
  destruct (Z.ltb_spec i (al_count l)); [|lia].
  rewrite (repr_rgn l l1 r l2 i R Hi). rewrite u64_small by (region; lia).
  replace (_ && _) with true; [done|].
  symmetry. apply andb_true_iff. rewrite !Z.leb_le. unfold contains in Cr. region. lia.
Qed.

(** Freeing inside [r]: what is left of it. *)
Lemma free_repr n r (l : rgn_lst) l1 l2 :
  repr l (l1 ++ r :: l2) -> ordered (l1 ++ r :: l2) -> coalesced (l1 ++ r :: l2) ->
  valid n -> contains r n -> Z.of_nat (length (l1 ++ r :: l2)) < 32768 ->
  let low := Region (r_base r) (r_base n - r_base r) (r_flags r) in
  let high := Region (rend n) (rend r - rend n) (r_flags r) in
  exists l', lmb_free_rgn true l (r_base n) (r_size n) = (0, l') /\
    repr l' (l1 ++ (if r_base r =? r_base n then [] else [low])
                ++ (if rend r =? rend n then [] else [high]) ++ l2).
Proof.
  intros R O Co Vn Cr Hlen low high. pose proof O as (O1 & Vr & O2 & A & B)%ordered_mid.
  assert (Forall (fun x => ~ contains x n) l1) as Nc.
  { rewrite Forall_forall in *. intros x Hx [? ?]. specialize (A x Hx).
    unfold contains in *. region. lia. }
  pose proof (repr_count _ _ R) as Hc. rewrite length_app in Hc; simpl in Hc.
  unfold lmb_free_rgn.
  replace (u64 (r_base n + r_size n - 1)) with (rend n - 1)
    by (symmetry; apply u64_small; region; lia).
  rewrite (free_find_skip n l1 _ l [] (r :: l2)) by (auto; lia).
  replace (Z.to_nat (al_count l) - length l1)%nat with (S (length l2)) by lia.
  rewrite (free_find_hit n r l l1 l2) by auto. rewrite Z.add_0_l.
  rewrite (repr_rgn l l1 r l2) by auto.
  replace (rend r - 1 =? rend n - 1) with (rend r =? rend n) by (repeat case_Z; lia).
  unfold contains in Cr.
  destruct (Z.eqb_spec (r_base r) (r_base n)) as [Eb|Eb],
           (Z.eqb_spec (rend r) (rend n)) as [Ee|Ee]; simpl.
  - eexists; split; [done|]. by eapply remove_repr.
  - eexists; split; [done|].
    replace (Region _ _ _) with high; [by eapply repr_set|].
    unfold high. rewrite !u64_small by (region; lia). f_equal; region; lia.
  - eexists; split; [done|].
    replace (Region _ _ _) with low; [by eapply repr_set|].
    unfold low. rewrite !u64_small by (region; lia). f_equal; region; lia.
  - replace (u64 (r_base n - r_base r)) with (r_base n - r_base r)
      by (symmetry; apply u64_small; region; lia).
    fold low.
    replace (u64 (rend n - 1 + 1)) with (r_base high)
      by (symmetry; unfold high; simpl; rewrite u64_small by (region; lia); lia).
    replace (u64 (rend r - 1 - (rend n - 1))) with (r_size high)
      by (symmetry; unfold high; simpl; rewrite u64_small by (region; lia); lia).
    change (r_flags r) with (r_flags high).
    assert (repr (set_rgn l (Z.of_nat (length l1)) low) ((l1 ++ [low]) ++ [] ++ l2)) as R'.
    { rewrite <- app_assoc. by eapply repr_set. }
    assert (ordered ((l1 ++ [low]) ++ [] ++ l2)) as O'.
    { rewrite <- app_assoc. apply (ordered_replace _ r); auto.
      - unfold low; region; lia.
      - eapply Forall_impl; [exact B|]. intros b. unfold low; region. lia. }
    assert (around high (l1 ++ [low]) [] l2) as Ar.
    { split; [|constructor|].
      - apply Forall_app. split; [|by repeat constructor; unfold low, high; region; lia].
        eapply Forall_impl; [exact A|]. intros a. unfold high; region. lia.
      - eapply Forall_impl; [exact B|]. intros b. unfold high; region. lia. }
    assert (compatible high ((l1 ++ [low]) ++ [] ++ l2)) as C.
    { destruct Ar as [Al _ Ah]. apply Forall_app. split;
        (eapply Forall_impl; [eassumption|]); intros x Hx M; exfalso; region; lia. }
    destruct (lmb_add_region_flags_cases high _ _ _ _ R' O') as (l' & rs' & E & Rl & Hcase);
      auto; [unfold high; region; lia| |].
    { rewrite !length_app in *; simpl in *. lia. }
    exists l'. split; [exact E|].
    replace rs' with (l1 ++ [low] ++ [high] ++ l2) in Rl; [exact Rl|].
    apply coalesced_snoc in Co as [_ [Co Ct]%coalesced_cons].
    inversion Hcase as [lo' p El T Em | lo' p m0 mids mid' ml El T Em Em'
                 | m0 mids mid' ml T Em Em' | h hi' T Em Eh Th
                 | h h1 t T Em Eh Eb' F Th | T Em Eh]; try done.
    + apply app_inj_tail in El as [_ <-]. destruct T as [T _]. unfold low, high in T; region; lia.
    + exfalso. apply (Ct h hi' Eh). destruct Th as [T1 T2]. unfold high in *. region. lia.
    + exfalso. rewrite Eh in Co. apply coalesced_cons in Co as [_ Co]. by eapply Co.
    + by rewrite <- app_assoc.
Qed.
End Free.

(** The map after freeing [n]: nothing inside [n], the old map elsewhere. *)
Definition frees (rs : list lmb_region) (n : lmb_region) (rs' : list lmb_region) : Prop :=
  forall a f, covers rs' a f <-> covers rs a f /\ ~ inside n a.

Section FreeMap.
Context (n r : lmb_region) (l1 l2 : list lmb_region).
Hypothesis O : ordered (l1 ++ r :: l2).
Hypothesis Co : coalesced (l1 ++ r :: l2).
Hypothesis Vn : valid n.
Hypothesis Cr : contains r n.

Let low := Region (r_base r) (r_base n - r_base r) (r_flags r).
Let high := Region (rend n) (rend r - rend n) (r_flags r).
Let rest := l1 ++ (if r_base r =? r_base n then [] else [low])
               ++ (if rend r =? rend n then [] else [high]) ++ l2.

Lemma free_parts_outside a f :
  covers l1 a f \/ covers l2 a f -> ~ inside n a /\ ~ inside r a.
Proof.
  pose proof O as (_ & Vr & _ & A & B)%ordered_mid.
  intros [H|H]; [apply (covers_below r) in H|apply (covers_above r) in H]; auto;
    unfold contains in Cr; region; lia.
Qed.

Lemma free_rest_frees : frees (l1 ++ r :: l2) n rest.
Proof.
  intros a f. pose proof (free_parts_outside a f) as D. unfold rest.
  rewrite !covers_app, covers_cons. pose proof O as (_ & Vr & _)%ordered_mid.
  unfold contains in Cr.
  assert (covers (if r_base r =? r_base n then [] else [low]) a f <->
          inside r a /\ r_flags r = f /\ a < r_base n) as ->.
  { destruct (Z.eqb_spec (r_base r) (r_base n)); autorewrite with covers; unfold low; region; lia. }
  assert (covers (if rend r =? rend n then [] else [high]) a f <->
          inside r a /\ r_flags r = f /\ rend n <= a) as ->.
  { destruct (Z.eqb_spec (rend r) (rend n)); autorewrite with covers; unfold high; region; lia. }
  assert (~ inside n a <-> a < r_base n \/ rend n <= a) by (region; lia).
  tauto.
Qed.

Lemma free_rest_ordered : ordered rest.
Proof.
  pose proof O as (O1 & Vr & O2 & A & B)%ordered_mid. unfold contains in Cr.
  unfold rest. rewrite app_assoc.
  assert (ordered ((if rend r =? rend n then [] else [high]) ++ l2) /\
          Forall (fun b => rend n <= r_base b) ((if rend r =? rend n then [] else [high]) ++ l2))
    as [Oh Bh].
  { destruct (Z.eqb_spec (rend r) (rend n)); simpl.
    - split; [done|]. eapply Forall_impl; [exact B|]. simpl. lia.
    - split.
      + apply ordered_cons. split; [unfold high; region; lia|]. split; [|done].
        eapply Forall_impl; [exact B|]. intros b. unfold high; region. lia.
      + constructor; [unfold high; region; lia|]. eapply Forall_impl; [exact B|]. simpl. lia. }
  rewrite app_assoc. rewrite <- (app_assoc _ _ l2), <- (app_assoc l1).
  destruct (Z.eqb_spec (r_base r) (r_base n)).
  - cbn [app]. apply ordered_app. split; [done|]. split; [done|].
    rewrite Forall_forall in *. intros a Ha. specialize (A a Ha).
    rewrite Forall_forall in *. intros b Hb. specialize (Bh b Hb). region. lia.
  - cbn [app]. apply ordered_mid. split; [done|].
    split; [unfold low; region; lia|]. split; [done|]. split; [exact A|].
    eapply Forall_impl; [exact Bh|]. intros b. unfold low; region. lia.
Qed.

Lemma free_rest_coalesced : coalesced rest.
Proof.
  pose proof O as (O1 & Vr & O2 & A & B)%ordered_mid. unfold contains in Cr.
  pose proof Co as [C1 C2]%coalesced_snoc. pose proof C2 as [C2' T2]%coalesced_cons.
  assert (coalesced ((if rend r =? rend n then [] else [high]) ++ l2)) as Ch.
  { destruct (Z.eqb_spec (rend r) (rend n)); simpl; [done|].
    apply coalesced_cons. split; [done|]. intros h t E [T F]. apply (T2 h t E).
    unfold high in *; region. split; [lia|done]. }
  unfold rest. destruct (Z.eqb_spec (r_base r) (r_base n)).
  - cbn [app]. apply coalesced_app in C1 as (C1 & _ & T1). apply coalesced_app.
    split; [done|]. split; [done|]. intros l x h t El Eh [T F].
    assert (rend x <= r_base r /\ rend n <= r_base h) as [].
    { rewrite El in A. apply Forall_app in A as [_ [A _]%Forall_cons]. split; [done|].
      destruct (Z.eqb_spec (rend r) (rend n)); simpl in Eh.
      - rewrite Eh in B. apply Forall_cons in B as [B _]. lia.
      - injection Eh as <- <-. unfold high; region; lia. }
    region. lia.
  - cbn [app]. rewrite coalesced_snoc. split.
    + by apply (coalesced_last _ r).
    + apply coalesced_cons. split; [done|]. intros h t Eh [T F].
      assert (rend n <= r_base h).
      { destruct (Z.eqb_spec (rend r) (rend n)); simpl in Eh.
        - rewrite Eh in B. apply Forall_cons in B as [B _]. lia.
        - injection Eh as <- <-. unfold high; region; lia. }
      unfold low in T; region. lia.
Qed.
End FreeMap.

(** * Finding the first overlapping region *)

Section Overlaps.
Implicit Types (n r : lmb_region).

Lemma overlaps_from_skip n pre : forall k (l : rgn_lst) l1 rest i,
  repr l (l1 ++ pre ++ rest) -> i = Z.of_nat (length l1) -> (length pre <= k)%nat ->
  valid n -> Forall valid pre -> Forall (fun r => ~ meets n r) pre ->
  overlaps_from k l (r_base n) (r_size n) i =
  overlaps_from (k - length pre) l (r_base n) (r_size n) (i + Z.of_nat (length pre)).
Proof.
  induction pre as [|r pre IH]; intros k l l1 rest i R Hi Hk Vn V Nc.
  - simpl. by rewrite Nat.sub_0_r, Z.add_0_r.
  - pose proof (repr_count _ _ R) as Hc. rewrite !length_app in Hc; simpl in Hc, Hk.
    destruct k as [|k]; [lia|]. cbn [overlaps_from].
    destruct (Z.ltb_spec i (al_count l)); [|lia].
    rewrite (repr_rgn l l1 r (pre ++ rest) i R Hi).
    apply Forall_cons in V as [Vr V]. apply Forall_cons in Nc as [Nr Nc].
    rewrite (proj2 (overlap_meets_false n r Vn Vr) Nr).
    rewrite (IH k l (l1 ++ [r]) rest); auto;
      [|by rewrite <- app_assoc|rewrite length_app; simpl; lia|lia].
    f_equal; simpl; lia.
Qed.

Lemma overlaps_none n (l : rgn_lst) rs :
  repr l rs -> valid n -> Forall valid rs -> Forall (fun r => ~ meets n r) rs ->
  lmb_overlaps_region l (r_base n) (r_size n) = -1.
Proof.
  intros R Vn V Nm. pose proof (repr_count _ _ R) as Hc. unfold lmb_overlaps_region.
  rewrite (overlaps_from_skip n rs _ l [] []); auto; [|by rewrite app_nil_r|lia].
  replace (Z.to_nat (al_count l) - length rs)%nat with 0%nat by lia. done.
Qed.

Lemma overlaps_some n r (l : rgn_lst) l1 l2 :
  repr l (l1 ++ r :: l2) -> valid n -> Forall valid (l1 ++ r :: l2) ->
  Forall (fun r => ~ meets n r) l1 -> meets n r ->
  lmb_overlaps_region l (r_base n) (r_size n) = Z.of_nat (length l1).
Proof.
  intros R Vn V Nm M. pose proof (repr_count _ _ R) as Hc.
  rewrite length_app in Hc; simpl in Hc. unfold lmb_overlaps_region.
  apply Forall_app in V as [V1 [Vr _]%Forall_cons].
  rewrite (overlaps_from_skip n l1 _ l [] (r :: l2)); auto; [|lia].
  replace (Z.to_nat (al_count l) - length l1)%nat with (S (length l2)) by lia.
  cbn [overlaps_from]. rewrite Z.add_0_l.
  destruct (Z.ltb_spec (Z.of_nat (length l1)) (al_count l)); [|lia].
  rewrite (repr_rgn l l1 r l2) by auto. by rewrite (proj2 (overlap_meets n r Vn Vr) M).
Qed.

(** The first region of a list that overlaps [n], if any. *)
Lemma first_meet n rs :
  Forall (fun r => ~ meets n r) rs \/
  exists l1 r l2, rs = l1 ++ r :: l2 /\ Forall (fun r => ~ meets n r) l1 /\ meets n r.
Proof.
  destruct (first_fail (fun r => ~ meets n r) rs) as [H|(l1 & r & l2 & -> & H & M)]; [by left|].
  right. exists l1, r, l2. split; [done|]. split; [done|]. by apply dec_stable.
Qed.
End Overlaps.

(** * The allocation search *)

Section Search.
Context (size k : Z).
Hypothesis Hsize : 0 < size.
Hypothesis Hk : 0 <= k < 64.
Let align := 2 ^ k.

Definition block (x : Z) : lmb_region := Region x size LMB_NONE.
Definition is_free (used : list lmb_region) (x : Z) : Prop :=
  Forall (fun r => ~ meets (block x) r) used.

(** The addresses at which a block may be placed. *)
Record candidate (avail used : list lmb_region) (max_addr x : Z) : Prop := {
  ca_pos : x <> 0;
  ca_align : x mod align = 0;
  ca_mem : Exists (fun r => contains r (block x)) avail;
  ca_max : max_addr = LMB_ALLOC_ANYWHERE \/ x + size <= max_addr;
  ca_free : is_free used x
}.

(** The outcome of searching below [base] in one memory region. *)
Definition probe_ok (used : list lmb_region) (lmbbase base : Z) (p : probe) : Prop :=
  match p with
  | Taken x => x <> 0 /\ x mod align = 0 /\ lmbbase <= x <= base /\ is_free used x /\
               forall y, y mod align = 0 -> x < y <= base -> ~ is_free used y
  | NotHere => forall y, y <> 0 -> y mod align = 0 -> lmbbase <= y <= base -> ~ is_free used y
  | NoFuel => False
  end.

Lemma alloc_probe_ok fuel : forall (l : rgn_lst) us l1 l2 lmbbase base,
  repr l us -> ordered us -> us = l1 ++ l2 -> (length l1 < fuel)%nat ->
  Forall (fun r => base + size <= r_base r) l2 ->
  0 <= lmbbase -> 0 <= base -> base + size <= U64_MAX -> base mod align = 0 ->
  probe_ok us lmbbase base (alloc_probe fuel l lmbbase size align base).
Proof.
  induction fuel as [|fuel IH]; intros l us l1 l2 lmbbase base R O E Hf A H0 Hb Hm Ha; [lia|].
  cbn [alloc_probe].
  destruct (Z.eqb_spec base 0) as [->|Hb0]; simpl; [intros y ? ? ?; lia|].
  destruct (Z.leb_spec lmbbase base); simpl; [|intros y ? ? ?; lia].
  assert (valid (block base)) as Vb by (unfold block; region; lia).
  destruct (first_meet (block base) us) as [F|(a & r & b & Eu & F & M)].
  { replace (lmb_overlaps_region l base size) with (-1) by (symmetry; by apply (overlaps_none (block base) l us); auto).
    simpl. repeat split; auto; try lia. }
  replace (lmb_overlaps_region l base size) with (Z.of_nat (length a)).
  2:{ symmetry. rewrite Eu in R, O. apply (overlaps_some (block base) r l a b); auto. }
  destruct (Z.ltb_spec (Z.of_nat (length a)) 0); [lia|].
  rewrite (repr_rgn l a r b) by (rewrite <- ?Eu; auto).
  pose proof O as O'. rewrite Eu in O'. apply ordered_mid in O' as (Oa & Vr & Ob & Ba & Bb).
  assert (forall y, y <= base -> r_base r < y + size -> ~ is_free us y) as Nf.
  { intros y Hy Hy' Fy. unfold is_free in Fy. rewrite Eu in Fy.
    apply Forall_app in Fy as [_ [Fy _]%Forall_cons]. apply Fy. unfold block in *; region; lia. }
  destruct (Z.ltb_spec (r_base r) size).
  { intros y Hy0 Hya Hy. apply Nf; lia. }
  rewrite u64_small by (region; lia).
  unfold align. rewrite ALIGN_DOWN_pow2 by (auto; region; lia). fold align.
  set (base' := r_base r - size - (r_base r - size) mod align).
  assert (0 < align) by (apply Z.pow_pos_nonneg; lia).
  assert (0 <= base' <= r_base r - size).
  { subst base'. pose proof (Z.mod_pos_bound (r_base r - size) align).
    pose proof (Z.mod_le (r_base r - size) align). lia. }
  assert (base' <= base) by (unfold block in M; region; lia).
  assert (base' mod align = 0) as Ha' by (apply align_down_aligned; lia).
  assert (forall y, y mod align = 0 -> base' < y <= base -> ~ is_free us y) as Gap.
  { intros y Hya Hy. apply Nf; [lia|].
    destruct (Z.le_gt_cases (y + size) (r_base r)) as [Hle|]; [|lia].
    pose proof (align_down_greatest (r_base r - size) y k ltac:(lia) Hya ltac:(lia)).
    subst base'. unfold align in *. lia. }
  specialize (IH l us a (r :: b) lmbbase base' R O Eu).
  assert (probe_ok us lmbbase base' (alloc_probe fuel l lmbbase size align base')) as P.
  { apply IH; auto; try (region; lia).
    - (* the region met lies in [l1] *)
      rewrite E in Eu. clear -A Eu M Hf.
      assert (length a < length l1)%nat; [|lia].
      destruct (Nat.lt_ge_cases (length a) (length l1)) as [|Hge]; [done|exfalso].
      assert (r ∈ l2) as Hr.
      { apply list_elem_of_lookup. exists (length a - length l1)%nat.
        rewrite <- lookup_app_r by lia. rewrite Eu, lookup_app_r by lia. by rewrite Nat.sub_diag. }
      rewrite Forall_forall in A. specialize (A r Hr). unfold block in M; region; lia.
    - constructor; [lia|]. eapply Forall_impl; [exact Bb|]. simpl. region. lia. }
  unfold probe_ok in *. destruct (alloc_probe fuel l lmbbase size align base') as [x| |]; [|intros y ? ? ?|done].
  - destruct P as (P1 & P2 & P3 & P4 & P5). repeat split; auto; try lia.
    intros y Hya Hy. destruct (Z.le_gt_cases y base'); [apply P5; auto; lia|apply Gap; auto; lia].
  - destruct (Z.le_gt_cases y base'); [apply P; auto; lia|apply Gap; auto; lia].
Qed.

(** Where a block inside [r] may start: the bound the search begins at. *)
Lemma alloc_start_ok r max_addr :
  valid r -> 0 <= max_addr <= U64_MAX -> (max_addr = LMB_ALLOC_ANYWHERE \/ size <= max_addr) ->
  match alloc_start r size align max_addr with
  | Some b => 0 <= b /\ b + size <= rend r /\ b mod align = 0 /\
              (max_addr = LMB_ALLOC_ANYWHERE \/ b + size <= max_addr) /\
              forall y, y mod align = 0 -> contains r (block y) ->
                (max_addr = LMB_ALLOC_ANYWHERE \/ y + size <= max_addr) -> y <= b
  | None => forall y, contains r (block y) ->
              (max_addr = LMB_ALLOC_ANYWHERE \/ y + size <= max_addr) -> False
  end.
Proof.
  intros Vr Hmax Hs. unfold alloc_start, LMB_ALLOC_ANYWHERE in *.
  assert (0 < align) by (apply Z.pow_pos_nonneg; lia).
  destruct (Z.ltb_spec (r_size r) size).
  { intros y [? ?] _. unfold block in *; region; lia. }
  assert (forall e, 0 <= e <= rend r - size ->
    let b := ALIGN_DOWN (u64 e) align in
    0 <= b <= e /\ b mod align = 0 /\ (forall y, y mod align = 0 -> y <= e -> y <= b)) as AD.
  { intros e He b. subst b. rewrite u64_small by (region; lia). unfold align.
    rewrite ALIGN_DOWN_pow2 by (auto; region; lia). fold align.
    pose proof (Z.mod_pos_bound e align). pose proof (Z.mod_le e align).
    split; [lia|]. split; [apply align_down_aligned; lia|].
    intros y Hy Hle. apply align_down_greatest; auto; lia. }
  destruct (Z.eqb_spec max_addr 0) as [->|Hm].
  - destruct (AD (r_base r + r_size r - size)) as (A1 & A2 & A3); [region; lia|].
    repeat split; try lia; auto; [region; lia|].
    intros y Hy [? ?] _. apply A3; auto. unfold block in *; region; lia.
  - destruct (Z.ltb_spec (r_base r) max_addr).
    + rewrite (u64_small (r_base r + r_size r)) by (region; lia).
      destruct (Z.ltb_spec (r_base r + r_size r) (r_base r)); [region; lia|].
      destruct (AD (Z.min (r_base r + r_size r) max_addr - size)) as (A1 & A2 & A3); [region; lia|].
      repeat split; try lia; auto; [region; lia|].
      intros y Hy [? ?] Hym. apply A3; auto. unfold block in *; region; lia.
    + intros y [? ?] Hym. unfold block in *; region; lia.
Qed.

Context (la lu : rgn_lst) (ra ru : list lmb_region) (max_addr : Z).
Hypothesis Ra : repr la ra.
Hypothesis Ru : repr lu ru.
Hypothesis Oa : ordered ra.
Hypothesis Ou : ordered ru.
Hypothesis Hmax : 0 <= max_addr <= U64_MAX.
Hypothesis Hlim : max_addr = LMB_ALLOC_ANYWHERE \/ size <= max_addr.

(** The outcome of the whole search: the highest candidate, if any. *)
Definition scan_ok (avail : list lmb_region) (p : probe) : Prop :=
  match p with
  | Taken x => candidate avail ru max_addr x /\
               forall y, candidate avail ru max_addr y -> y <= x
  | NotHere => forall y, ~ candidate avail ru max_addr y
  | NoFuel => False
  end.

Lemma candidate_app l1 l2 y :
  candidate (l1 ++ l2) ru max_addr y <->
  candidate l1 ru max_addr y \/ candidate l2 ru max_addr y.
Proof.
  split.
  - intros [? ? [?|?]%Exists_app ? ?]; [left|right]; by constructor.
  - intros [[]|[]]; constructor; auto; apply Exists_app; auto.
Qed.

Lemma candidate_one r y :
  candidate [r] ru max_addr y <->
  y <> 0 /\ y mod align = 0 /\ contains r (block y) /\
  (max_addr = LMB_ALLOC_ANYWHERE \/ y + size <= max_addr) /\ is_free ru y.
Proof.
  split.
  - intros [? ? H ? ?]. apply Exists_cons in H as [H|H]; [auto|by apply Exists_nil in H].
  - intros (? & ? & ? & ? & ?). constructor; auto.
Qed.

(** One memory region of the scan. *)
Lemma alloc_region_ok r :
  r ∈ ra ->
  match alloc_start r size align max_addr with
  | Some b => scan_ok [r] (alloc_probe (S (Z.to_nat (al_count lu))) lu (r_base r) size align b)
  | None => scan_ok [r] NotHere
  end.
Proof.
  intros Hr. pose proof (ordered_valid _ Oa) as V. rewrite Forall_forall in V.
  specialize (V r Hr). pose proof (alloc_start_ok r max_addr V Hmax Hlim) as S.
  destruct (alloc_start r size align max_addr) as [b|].
  - destruct S as (S1 & S2 & S3 & S4 & S5).
    pose proof (repr_count _ _ Ru) as Hc.
    pose proof (alloc_probe_ok (S (Z.to_nat (al_count lu))) lu ru ru [] (r_base r) b Ru Ou) as P.
    rewrite app_nil_r in P. specialize (P eq_refl ltac:(lia) ltac:(constructor)).
    unfold valid in V. specialize (P ltac:(lia) S1 ltac:(lia) S3).
    destruct (alloc_probe _ _ _ _ _ _) as [x| |]; simpl in *; [|intros y|done].
    + destruct P as (P1 & P2 & P3 & P4 & P5). split.
      * apply candidate_one. unfold contains, block; region. repeat split; auto; lia.
      * intros y (? & ? & ? & ? & F)%candidate_one.
        destruct (Z.le_gt_cases y x) as [|Hgt]; [done|]. exfalso.
        assert (y <= b) by (apply S5; auto). apply (P5 y); auto; lia.
    + intros (? & ? & C & ? & F)%candidate_one.
      assert (y <= b) by (apply S5; auto). apply (P y); auto.
      unfold contains, block in C; region; lia.
  - intros y (? & ? & ? & ? & F)%candidate_one. eauto.
Qed.

Lemma alloc_scan_ok n :
  (n <= length ra)%nat -> scan_ok (take n ra) (alloc_scan n la lu size align max_addr).
Proof.
  induction n as [|i IH]; intros Hn.
  { intros y [_ _ H _ _]. by apply Exists_nil in H. }
  specialize (IH ltac:(lia)). cbn [alloc_scan].
  destruct (lookup_lt_is_Some_2 ra i ltac:(lia)) as [r Hr].
  rewrite (take_S_r _ _ _ Hr). pose proof (split_at _ _ _ Hr) as E.
  rewrite (repr_rgn la (take i ra) r (drop (S i) ra)).
  2:{ by rewrite <- E. } 2:{ rewrite length_take_le; lia. }
  assert (r ∈ ra) as Hin by (by eapply list_elem_of_lookup_2).
  pose proof (alloc_region_ok r Hin) as S.
  pose proof Oa as O'. rewrite E in O'. apply ordered_mid in O' as (_ & Vr & _ & A & _).
  assert (forall p, scan_ok [r] NotHere -> scan_ok (take i ra) p -> scan_ok (take i ra ++ [r]) p) as Skip.
  { intros p N. unfold scan_ok in *. destruct p as [x| |]; [|intros I y|done].
    - intros [I1 I2]. split; [apply candidate_app; auto|].
      intros y [?|Hy]%candidate_app; [auto|by destruct (N y)].
    - intros [?|Hy]%candidate_app; [by eapply I|by destruct (N y)]. }
  destruct (alloc_start r size align max_addr) as [b|]; [|by apply Skip].
  destruct (alloc_probe _ _ _ _ _ _) as [x| |]; [|by apply Skip|done].
  destruct S as [S1 S2]. split; [apply candidate_app; auto|].
  intros y [Hy|Hy]%candidate_app; [|auto].
  destruct Hy as [_ _ Hy _ _]. apply candidate_one in S1 as (_ & _ & [C1 _] & _).
  apply Exists_exists in Hy as (r' & Hr' & _ & C2). rewrite Forall_forall in A.
  specialize (A r' Hr'). unfold block in *; region; lia.
Qed.

(** The search ends and takes the highest place a block fits. *)
Lemma alloc_search_ok :
  scan_ok ra (alloc_scan (Z.to_nat (al_count la)) la lu size align max_addr).
Proof.
  pose proof (repr_count _ _ Ra) as Hc.
  replace ra with (take (length ra) ra) at 1 by by apply take_ge.
  replace (Z.to_nat (al_count la)) with (length ra) by lia. by apply alloc_scan_ok.
Qed.
End Search.
