(* ===== verification/LmbProps.v ===== *)
(** Logical memory blocks: the guarantees of the allocator (lib/lmb.c).

    The abstract view of the allocator is a pair of address maps, the
    available and the reserved one; the theorems say what every operation does
    to them, that the search for free memory is exact, and where the code
    departs from what its comments promise. *)

From S2P Require Import Prelude Alist Lmb LmbFacts LmbMap LmbAlloc.

(** The state of the allocator: healthy lists holding the available regions
    [ra] and the reserved regions [ru], both ordered and disjoint. *)
Record lmb_inv (m : lmb) (ra ru : list lmb_region) : Prop := {
  inv_ra : repr (available_mem m) ra;
  inv_ru : repr (used_mem m) ru;
  inv_oa : ordered ra;
  inv_ou : ordered ru
}.

Section Ops.
Context (efi : bool) (notify : Z -> Z -> lmb_map_op -> Z).
Implicit Types (m : lmb) (n r : lmb_region) (ra ru rs : list lmb_region).

(** Adding a region to a healthy list, as one statement. *)
Lemma add_region_ok (l : rgn_lst) rs n :
  repr l rs -> ordered rs -> coalesced rs -> valid n -> compatible n rs ->
  Z.of_nat (length rs) < 32768 ->
  exists l' rs', lmb_add_region_flags true l (r_base n) (r_size n) (r_flags n) = (0, l') /\
    repr l' rs' /\ ordered rs' /\ updates rs n rs' /\
    (Forall (fun r => ~ meets n r) rs -> coalesced rs').
Proof.
  intros R O Co Vn C Hlen.
  destruct (split_around n rs O Vn) as (lo & mid & hi & -> & Ar).
  destruct (lmb_add_region_flags_cases n l lo mid hi R O Vn Ar C Hlen) as (l' & rs' & E & R' & Hc).
  exists l', rs'. split; [done|]. split; [done|].
  split; [by eapply add_case_ordered|]. split; [by eapply add_case_updates|].
  intros Nm. eapply add_case_coalesced; eauto.
  apply Forall_app in Nm as [_ Nm]. apply Forall_app in Nm as [Nm _].
  pose proof (ar_mid _ _ _ _ Ar) as M. destruct mid as [|x mid]; [done|].
  apply Forall_cons in Nm as [Nx _]. apply Forall_cons in M as [Mx _]. done.
Qed.

Lemma can_reserve_skip n pre : forall k (u : rgn_lst) l1 rest i,
  repr u (l1 ++ pre ++ rest) -> i = Z.of_nat (length l1) -> (length pre <= k)%nat ->
  valid n -> Forall valid pre -> compatible n pre ->
  can_reserve_from k u (r_base n) (r_size n) (r_flags n) i =
  can_reserve_from (k - length pre) u (r_base n) (r_size n) (r_flags n) (i + Z.of_nat (length pre)).
Proof.
  induction pre as [|r pre IH]; intros k u l1 rest i R Hi Hk Vn V C.
  - simpl. by rewrite Nat.sub_0_r, Z.add_0_r.
  - pose proof (repr_count _ _ R) as Hc. rewrite !length_app in Hc; simpl in Hc, Hk.
    destruct k as [|k]; [lia|]. cbn [can_reserve_from].
    destruct (Z.ltb_spec i (al_count u)); [|lia].
    rewrite (repr_rgn u l1 r (pre ++ rest) i R Hi).
    apply Forall_cons in V as [Vr V]. apply Forall_cons in C as [Cr C].
    replace (_ && _) with false.
    2:{ destruct (lmb_addrs_overlap _ _ _ _) eqn:Eo; [|done].
        apply overlap_meets in Eo; auto. destruct (Cr Eo) as [-> ->]. done. }
    rewrite (IH k u (l1 ++ [r]) rest); auto;
      [|by rewrite <- app_assoc|rewrite length_app; simpl; lia|lia].
    f_equal; simpl; lia.
Qed.

(** The guard of [lmb_reserve] is exactly the compatibility of the overlap. *)
Lemma can_reserve_compatible m ra ru n :
  lmb_inv m ra ru -> valid n ->
  lmb_can_reserve_region m (r_base n) (r_size n) (r_flags n) = true <-> compatible n ru.
Proof.
  intros [_ R _ O] Vn. unfold lmb_can_reserve_region.
  pose proof (repr_count _ _ R) as Hc. pose proof (ordered_valid _ O) as V. split.
  - intros E. unfold compatible.
    destruct (first_fail (fun r => meets n r -> r_flags n = LMB_NONE /\ r_flags r = LMB_NONE) ru)
      as [|(l1 & r & l2 & E1 & C1 & Nf)]; [done|exfalso].
    assert (meets n r) as M by (destruct (decide (meets n r)); tauto).
    rewrite E1 in R, Hc, V. rewrite length_app in Hc; simpl in Hc.
      apply Forall_app in V as [V1 [Vr _]%Forall_cons].
      rewrite (can_reserve_skip n l1 _ _ [] (r :: l2)) in E; auto; [|lia].
      replace (Z.to_nat (al_count (used_mem m)) - length l1)%nat with (S (length l2)) in E by lia.
      cbn [can_reserve_from] in E. rewrite Z.add_0_l in E.
      destruct (Z.ltb_spec (Z.of_nat (length l1)) (al_count (used_mem m))); [|lia].
      rewrite (repr_rgn _ l1 r l2) in E by auto.
      rewrite (proj2 (overlap_meets n r Vn Vr) M) in E. simpl in E.
      unfold LMB_NONE in *. repeat case_Z; simpl in E; try done. apply Nf. intros _. split; congruence.
  - intros C. rewrite (can_reserve_skip n ru _ _ [] []); auto; [|by rewrite app_nil_r|lia].
    replace (Z.to_nat (al_count (used_mem m)) - length ru)%nat with 0%nat by lia. done.
Qed.
End Ops.

(** * Reading the maps *)

(** The loops of [lmb_get_free_size] and [lmb_is_reserved_flags] over the
    regions themselves. *)
Fixpoint free_size_list (rs : list lmb_region) (addr : Z) : option Z :=
  match rs with
  | [] => None
  | r :: rs' => if addr <? r_base r then Some (r_base r - addr)
                else if addr <? rend r then Some 0 else free_size_list rs' addr
  end.

Fixpoint reserved_list (rs : list lmb_region) (addr flags : Z) : bool :=
  match rs with
  | [] => false
  | r :: rs' => if (r_base r <=? addr) && (addr <? rend r)
                then Z.land (r_flags r) flags =? flags else reserved_list rs' addr flags
  end.

Section Reads.
Implicit Types (rs : list lmb_region).

Lemma free_size_repr addr rs : forall k (u : rgn_lst) l1 i,
  repr u (l1 ++ rs) -> i = Z.of_nat (length l1) -> k = length rs ->
  Forall valid rs -> 0 <= addr ->
  free_size_from k u addr i = free_size_list rs addr.
Proof.
  induction rs as [|r rs IH]; intros k u l1 i R Hi -> V Ha; [done|].
  pose proof (repr_count _ _ R) as Hc. rewrite length_app in Hc; simpl in Hc.
  apply Forall_cons in V as [Vr V]. simpl.
  destruct (Z.ltb_spec i (al_count u)); [|lia].
  rewrite (repr_rgn u l1 r rs i R Hi).
  replace (u64 (r_base r + r_size r)) with (rend r) by (symmetry; apply u64_small; region; lia).
  rewrite (IH _ u (l1 ++ [r])); auto;
    [|by rewrite <- app_assoc|rewrite length_app; simpl; lia].
  destruct (Z.ltb_spec addr (r_base r)); [|done]. rewrite u64_small; [done|region; lia].
Qed.

Lemma reserved_repr addr flags rs : forall k (u : rgn_lst) l1 i,
  repr u (l1 ++ rs) -> i = Z.of_nat (length l1) -> k = length rs -> Forall valid rs ->
  reserved_flags_from k u addr flags i = reserved_list rs addr flags.
Proof.
  induction rs as [|r rs IH]; intros k u l1 i R Hi -> V; [done|].
  pose proof (repr_count _ _ R) as Hc. rewrite length_app in Hc; simpl in Hc.
  apply Forall_cons in V as [Vr V]. simpl.
  destruct (Z.ltb_spec i (al_count u)); [|lia].
  rewrite (repr_rgn u l1 r rs i R Hi).
  replace (u64 (r_base r + r_size r - 1)) with (rend r - 1)
    by (symmetry; apply u64_small; region; lia).
  rewrite (IH _ u (l1 ++ [r])); auto;
    [|by rewrite <- app_assoc|rewrite length_app; simpl; lia].
  replace (addr <=? rend r - 1) with (addr <? rend r) by (repeat case_Z; lia). done.
Qed.

Lemma reserved_list_covers addr flags rs :
  ordered rs ->
  reserved_list rs addr flags = true <->
  exists f, covers rs addr f /\ Z.land f flags = flags.
Proof.
  induction rs as [|r rs IH]; intros O.
  - split; [done|]. intros (f & C%covers_nil & _). done.
  - apply ordered_cons in O as (V & B & O). simpl. setoid_rewrite covers_cons.
    destruct (Z.leb_spec (r_base r) addr), (Z.ltb_spec addr (rend r)); simpl;
      try (rewrite (IH O); split;
           [intros (f & ? & ?); eauto
           |intros (f & [[? ?]|?] & ?); [region; lia|eauto]]).
    rewrite Z.eqb_eq. split; [intros; exists (r_flags r); split; [left; split; [region; lia|done]|done]|].
    intros (f & [[_ <-]|C] & ?); [done|exfalso].
    apply (covers_above r) in C; [lia|exact B].
Qed.

Lemma free_size_list_clear addr rs :
  ordered rs ->
  match free_size_list rs addr with
  | Some s => 0 <= s /\ (forall a f, addr <= a < addr + s -> ~ covers rs a f) /\
              (forall f, covers rs addr f -> s = 0)
  | None => forall a f, addr <= a -> ~ covers rs a f
  end.
Proof.
  induction rs as [|r rs IH]; intros O; simpl.
  - intros a f _ C%covers_nil. done.
  - apply ordered_cons in O as (V & B & O). specialize (IH O).
    destruct (Z.ltb_spec addr (r_base r)); [|destruct (Z.ltb_spec addr (rend r))].
    + split; [lia|]. split.
      * intros a f Ha [[? _]|C]%covers_cons; [region; lia|]. apply (covers_above r) in C; [|exact B].
        region; lia.
      * intros f [[? _]|C]%covers_cons; [region; lia|]. apply (covers_above r) in C; [|exact B].
        region; lia.
    + split; [lia|]. split; [lia|done].
    + destruct (free_size_list rs addr) as [s|].
      * destruct IH as (I1 & I2 & I3). split; [done|]. split.
        -- intros a f Ha [[? _]|C]%covers_cons; [region; lia|by eapply I2].
        -- intros f [[? _]|C]%covers_cons; [region; lia|by eapply I3].
      * intros a f Ha [[? _]|C]%covers_cons; [region; lia|by eapply IH].
Qed.
End Reads.

(** * A state to run the theorems on *)

Definition demo_ra : list lmb_region := [Region 0x1000 0x8000 LMB_NONE].
Definition demo_ru : list lmb_region :=
  [Region 0x2000 0x1000 LMB_NONE; Region 0x5000 0x1000 LMB_NOMAP].
Definition demo : lmb :=
  let m1 := snd (lmb_add false no_notify true lmb_empty 0x1000 0x8000) in
  let m2 := snd (lmb_reserve false no_notify true m1 0x2000 0x1000 LMB_NONE) in
  snd (lmb_reserve false no_notify true m2 0x5000 0x1000 LMB_NOMAP).

Ltac solve_regions :=
  repeat match goal with
  | |- ordered _ => split
  | |- coalesced _ => unfold coalesced
  | |- Forall _ _ => constructor
  | |- StronglySorted _ _ => constructor
  | |- Sorted _ _ => constructor
  | |- HdRel _ _ _ => constructor
  | |- valid _ => region
  | |- before _ _ => region
  | |- ~ tight _ _ => intros [? ?]; region; discriminate
  | |- ~ meets _ _ => unfold meets, rend; simpl; lia
  end; try lia.

Lemma demo_inv : lmb_inv demo demo_ra demo_ru.
Proof.
  constructor; try (by solve_regions);
    (split; [constructor; vm_compute; intuition congruence|vm_compute; auto]).
Qed.

Lemma demo_coalesced : coalesced demo_ru.
Proof. unfold demo_ru. solve_regions. Qed.

Section Claims.
Context (efi : bool) (notify : Z -> Z -> lmb_map_op -> Z).
Implicit Types (m : lmb) (n r : lmb_region) (ra ru rs : list lmb_region).

Lemma lmb_inv_used m ra ru u ru' t :
  lmb_inv m ra ru -> repr u ru' -> ordered ru' -> lmb_inv (Lmb (available_mem m) u t) ra ru'.
Proof. intros [Ra Ru Oa Ou] R O. by constructor. Qed.

Lemma reserve_ok m ra ru n :
  lmb_inv m ra ru -> coalesced ru -> valid n -> Z.of_nat (length ru) < 32768 ->
  compatible n ru ->
  exists m' ru',
    lmb_reserve efi notify true m (r_base n) (r_size n) (r_flags n) =
      (lmb_map_update_notify efi notify m' (r_base n) (r_size n) LMB_MAP_OP_RESERVE (r_flags n), m') /\
    lmb_inv m' ra ru' /\ updates ru n ru' /\
    (Forall (fun r => ~ meets n r) ru -> coalesced ru').
Proof.
  intros I Co Vn Hlen C. unfold lmb_reserve.
  rewrite (proj2 (can_reserve_compatible m ra ru n I Vn) C). simpl.
  destruct (add_region_ok (used_mem m) ru n (inv_ru _ _ _ I) (inv_ou _ _ _ I) Co Vn C Hlen)
    as (l' & rs' & -> & R & O & U & Cn). simpl.
  do 2 eexists; split; [reflexivity|]. split; [by eapply lmb_inv_used|auto].
Qed.

Lemma free_ok m ra ru n r :
  lmb_inv m ra ru -> coalesced ru -> valid n -> Z.of_nat (length ru) < 32768 ->
  r ∈ ru -> contains r n ->
  exists m' ru',
    lmb_free efi notify true m (r_base n) (r_size n) =
      (lmb_map_update_notify efi notify m' (r_base n) (r_size n) LMB_MAP_OP_FREE LMB_NONE, m') /\
    lmb_inv m' ra ru' /\ coalesced ru' /\ frees ru n ru'.
Proof.
  intros I Co Vn Hlen Hr Cr. unfold lmb_free, lmb_free_flags.
  apply list_elem_of_split in Hr as (l1 & l2 & ->).
  destruct (free_repr n r (used_mem m) l1 l2 (inv_ru _ _ _ I) (inv_ou _ _ _ I) Co Vn Cr Hlen)
    as (l' & -> & R). simpl.
  do 2 eexists; split; [reflexivity|].
  split; [eapply lmb_inv_used; eauto; eapply free_rest_ordered; eauto; apply I|].
  split; [eapply free_rest_coalesced; eauto; apply I|].
  eapply free_rest_frees; eauto; apply I.
Qed.

(** A block all of whose bytes are mapped alike lies in one region of a
    coalesced list. *)
Lemma covered_contained ru n :
  ordered ru -> coalesced ru -> valid n ->
  (forall a, inside n a -> covers ru a (r_flags n)) -> exists r, r ∈ ru /\ contains r n.
Proof.
  intros O Co Vn H.
  destruct (proj1 (covers_elem _ _ _) (H (r_base n) ltac:(region; lia))) as (r & Hr & I & F).
  exists r. split; [done|]. split; [region; lia|].
  destruct (Z.le_gt_cases (rend n) (rend r)) as [|Hlt]; [done|exfalso].
  destruct (proj1 (covers_elem _ _ _) (H (rend r) ltac:(region; lia))) as (r' & Hr' & I' & F').
  apply list_elem_of_split in Hr as (l1 & l2 & ->).
  apply ordered_mid in O as (O1 & V & O2 & A & B).
  apply coalesced_snoc in Co as [_ [_ T]%coalesced_cons].
  apply elem_of_app in Hr' as [Hr'|Hr'].
  { rewrite Forall_forall in A. specialize (A r' Hr'). region; lia. }
  apply elem_of_cons in Hr' as [->|Hr']; [region; lia|].
  destruct l2 as [|h t]; [by apply elem_of_nil in Hr'|].
  apply Forall_cons in B as [Bh B]. apply ordered_cons in O2 as (Vh & Bt & _).
  apply elem_of_cons in Hr' as [->|Hr'].
  - apply (T h t eq_refl). split; [region; lia|congruence].
  - rewrite Forall_forall in Bt. specialize (Bt r' Hr'). region; lia.
Qed.

Lemma candidate_new size k ra ru max_addr x flags :
  ordered ra -> 0 < size -> candidate size k ra ru max_addr x ->
  valid (Region x size flags) /\ compatible (Region x size flags) ru /\
  Forall (fun r => ~ meets (Region x size flags) r) ru.
Proof.
  intros O Hs [H0 Ha Hm Hl Hf]. apply Exists_exists in Hm as (r & Hr & C1 & C2).
  apply ordered_valid in O. rewrite Forall_forall in O. specialize (O r Hr).
  unfold block in *. split; [region; lia|]. split; [|exact Hf].
  eapply Forall_impl; [exact Hf|]. intros y Ny M. by destruct Ny.
Qed.

Hypothesis Hnotify : forall a s op, notify a s op = 0.

Lemma notify_zero m a s op flags : lmb_map_update_notify efi notify m a s op flags = 0.
Proof. unfold lmb_map_update_notify. destruct (_ && _); auto. Qed.

(** What an allocation may do to the state. *)
Definition alloc_result size k max_addr flags m ra ru (x : Z) (m' : lmb) : Prop :=
  (x = 0 /\ m' = m /\ forall y, ~ candidate size k ra ru max_addr y) \/
  (candidate size k ra ru max_addr x /\
   (forall y, candidate size k ra ru max_addr y -> y <= x) /\
   exists ru', lmb_inv m' ra ru' /\ coalesced ru' /\ updates ru (Region x size flags) ru').

Lemma alloc_base_ok m ra ru size k max_addr flags :
  lmb_inv m ra ru -> coalesced ru -> Z.of_nat (length ru) < 32768 ->
  0 < size -> 0 <= k < 64 -> 0 <= max_addr <= U64_MAX ->
  max_addr = LMB_ALLOC_ANYWHERE \/ size <= max_addr ->
  exists x m', lmb_alloc_base efi notify true m size (2 ^ k) max_addr flags = Some (x, m') /\
    alloc_result size k max_addr flags m ra ru x m'.
Proof.
  intros I Co Hlen Hs Hk Hm Hl. unfold lmb_alloc_base, lmb_alloc_base_.
  pose proof (alloc_search_ok size k Hs Hk _ _ ra ru max_addr (inv_ra _ _ _ I) (inv_ru _ _ _ I)
                (inv_oa _ _ _ I) (inv_ou _ _ _ I) Hm Hl) as S.
  destruct (alloc_scan _ _ _ _ _ _) as [x| |]; [|by exists 0, m; split; [done|left]|done].
  destruct S as [S1 S2].
  destruct (candidate_new size k ra ru max_addr x flags (inv_oa _ _ _ I) Hs S1) as (Vx & Cx & Nx).
  destruct (add_region_ok (used_mem m) ru (Region x size flags) (inv_ru _ _ _ I) (inv_ou _ _ _ I)
              Co Vx Cx Hlen) as (l' & rs' & E & R & O & U & Cn). simpl in E. rewrite E. simpl.
  rewrite notify_zero. simpl. do 2 eexists; split; [reflexivity|]. right.
  split; [done|]. split; [done|]. exists rs'. split; [by eapply lmb_inv_used|auto].
Qed.
End Claims.

(** * The guarantees *)







(** Allocating a block and freeing it again succeeds and restores the
    reserved map, address by address. *)
Theorem lmb_alloc_free_roundtrip (efi : bool) (notify : Z -> Z -> lmb_map_op -> Z) (m m1 : lmb)
    (ra ru : list lmb_region) (size k x : Z) :
  (forall a s op, notify a s op = 0) ->
  lmb_inv m ra ru -> coalesced ru -> Z.of_nat (length ru) < 32767 ->
  0 < size -> 0 <= k < 64 ->
  lmb_alloc efi notify true m size (2 ^ k) = Some (x, m1) -> x <> 0 ->
  Z.of_nat (length (items (used_mem m1))) < 32768 ->
  exists m2 ru2, lmb_free efi notify true m1 x size = (0, m2) /\ lmb_inv m2 ra ru2 /\
    forall a f, covers ru2 a f <-> covers ru a f.
Proof.
  intros N I Co Hlen Hs Hk E Hx Hlen1.
  destruct (alloc_base_ok efi notify N m ra ru size k LMB_ALLOC_ANYWHERE LMB_NONE I Co ltac:(lia)
              Hs Hk ltac:(unfold U64_MAX, LMB_ALLOC_ANYWHERE; lia) ltac:(by left))
    as (x' & m' & E' & S).
  unfold lmb_alloc, lmb_alloc_base in *. rewrite E in E'. injection E' as <- <-.
  destruct S as [[? _]|(C & _ & ru1 & I1 & Co1 & U)]; [done|].
  set (n := Region x size LMB_NONE) in *.
  destruct (candidate_new size k ra ru LMB_ALLOC_ANYWHERE x LMB_NONE (inv_oa _ _ _ I) Hs C) as (Vx & _ & Nx).
  assert (items (used_mem m1) = ru1) as Ei by (apply (inv_ru _ _ _ I1)). rewrite Ei in Hlen1.
  destruct (covered_contained ru1 n (inv_ou _ _ _ I1) Co1 Vx) as (r & Hr & Cr).
  { intros a Ha. apply U. auto. }
  destruct (free_ok efi notify m1 ra ru1 n r I1 Co1 Vx Hlen1 Hr Cr) as (m2 & ru2 & E2 & I2 & _ & F).
  exists m2, ru2. simpl in E2. rewrite E2, notify_zero by done. split; [done|]. split; [done|].
  intros a f. rewrite (F a f), (U a f). split; [tauto|].
  intros Hc. assert (~ inside n a); [|tauto].
  intros Ha. apply covers_elem in Hc as (y & Hy & Iy & _). rewrite Forall_forall in Nx.
  apply (Nx y Hy). fold n. region. lia.
Qed.

Lemma lmb_alloc_free_roundtrip_witness :
  exists m2 ru2, lmb_free false no_notify true
      (snd (default (0, demo) (lmb_alloc false no_notify true demo 0x800 (2 ^ 3)))) 0x8800 0x800
      = (0, m2) /\ lmb_inv m2 demo_ra ru2 /\
    forall a f, covers ru2 a f <-> covers demo_ru a f.
Proof.
  apply (lmb_alloc_free_roundtrip false no_notify demo _ demo_ra demo_ru 0x800 3 0x8800);
    [done|exact demo_inv|exact demo_coalesced|simpl; lia|lia|lia
    |vm_compute; reflexivity|lia|vm_compute; reflexivity].
Defined.

(** Looking an address or a block up in the available list. *)
Lemma overlaps_cases (n : lmb_region) (l : rgn_lst) (rs : list lmb_region) :
  repr l rs -> valid n -> Forall valid rs ->
  (Forall (fun r => ~ meets n r) rs /\ lmb_overlaps_region l (r_base n) (r_size n) = -1) \/
  (exists l1 r l2, rs = l1 ++ r :: l2 /\ meets n r /\ Forall (fun r => ~ meets n r) l1 /\
     lmb_overlaps_region l (r_base n) (r_size n) = Z.of_nat (length l1) /\
     rgn l (Z.of_nat (length l1)) = r).
Proof.
  intros R Vn V. destruct (first_fail (fun r => ~ meets n r) rs) as [N|(l1 & r & l2 & -> & N & F)].
  - left. split; [done|]. by eapply overlaps_none.
  - right. exists l1, r, l2. split; [done|].
    assert (meets n r) as M by (destruct (decide (meets n r)); tauto).
    split; [done|]. split; [done|]. split; [by eapply overlaps_some|].
    by eapply repr_rgn.
Qed.

Lemma block_in_memory (efi : bool) notify (m : lmb) ra ru n r :
  lmb_inv m ra ru -> valid n -> r ∈ ra -> contains r n ->
  lmb_alloc_addr efi notify true m (r_base n) (r_size n) (r_flags n) =
  let (ret, m') := lmb_reserve efi notify true m (r_base n) (r_size n) (r_flags n) in
  if ret =? 0 then (0, m') else (-1, m').
Proof.
  intros I Vn Hr [C1 C2]. pose proof (ordered_valid _ (inv_oa _ _ _ I)) as V. unfold lmb_alloc_addr.
  destruct (overlaps_cases n _ ra (inv_ra _ _ _ I) Vn V) as [[N _]|(l1 & q & l2 & E & M & N & -> & ->)].
  { rewrite Forall_forall in N. destruct (N r Hr). region; lia. }
  assert (q = r) as ->.
  { rewrite E in Hr. pose proof (inv_oa _ _ _ I) as O. rewrite E in O.
    apply ordered_mid in O as (_ & Vq & O2 & _ & B).
    rewrite Forall_forall in N. apply elem_of_app in Hr as [Hr|Hr].
    { destruct (N r Hr). region; lia. }
    apply elem_of_cons in Hr as [->|Hr]; [done|exfalso].
    rewrite Forall_forall in B. specialize (B r Hr). region; lia. }
  rewrite Forall_forall in V. specialize (V r Hr).
  destruct (Z.leb_spec 0 (Z.of_nat (length l1))); [|lia].
  replace (u64 (r_base n + r_size n - 1)) with (rend n - 1)
    by (symmetry; apply u64_small; region; lia).
  assert (lmb_addrs_overlap (r_base r) (r_size r) (rend n - 1) 1 = true) as ->; [|done].
  apply (overlap_meets r (Region (rend n - 1) 1 0) V); region; lia.
Qed.

(** Claiming a given block: when the block lies inside one region of
    memory, [lmb_alloc_addr] reserves exactly it and returns 0 when every
    overlap is compatible, and returns -1 leaving the state as it was when
    one is not; when the block touches no memory it returns -1 and changes
    nothing. *)
Theorem lmb_alloc_addr_refines (efi : bool) (notify : Z -> Z -> lmb_map_op -> Z) (m : lmb)
    (ra ru : list lmb_region) (n : lmb_region) :
  (forall a s op, notify a s op = 0) ->
  lmb_inv m ra ru -> coalesced ru -> valid n -> Z.of_nat (length ru) < 32768 ->
  ((exists r, r ∈ ra /\ contains r n) -> compatible n ru ->
   exists m' ru', lmb_alloc_addr efi notify true m (r_base n) (r_size n) (r_flags n) = (0, m') /\
     lmb_inv m' ra ru' /\ updates ru n ru') /\
  ((exists r, r ∈ ra /\ contains r n) -> ~ compatible n ru ->
   lmb_alloc_addr efi notify true m (r_base n) (r_size n) (r_flags n) = (-1, m)) /\
  (Forall (fun r => ~ meets n r) ra ->
   lmb_alloc_addr efi notify true m (r_base n) (r_size n) (r_flags n) = (-1, m)).
Proof.
  intros N I Co Vn Hlen. split; [|split].
  - intros (r & Hr & C) Hc. rewrite (block_in_memory efi notify m ra ru n r) by done.
    destruct (reserve_ok efi notify m ra ru n I Co Vn Hlen Hc) as (m' & ru' & -> & I' & U & _).
    rewrite notify_zero by done. simpl. eauto.
  - intros (r & Hr & C) Hc. rewrite (block_in_memory efi notify m ra ru n r) by done.
    unfold lmb_reserve.
    destruct (lmb_can_reserve_region _ _ _ _) eqn:E; [|done].
    by apply (can_reserve_compatible m ra ru n I Vn) in E.
  - intros Nm. unfold lmb_alloc_addr.
    rewrite (overlaps_none n _ ra (inv_ra _ _ _ I) Vn (ordered_valid _ (inv_oa _ _ _ I)) Nm). done.
Qed.

Lemma lmb_alloc_addr_refines_witness :
  exists m' ru', lmb_alloc_addr false no_notify true demo 0x3000 0x800 LMB_NOOVERWRITE = (0, m') /\
     lmb_inv m' demo_ra ru' /\ updates demo_ru (Region 0x3000 0x800 LMB_NOOVERWRITE) ru'.
Proof.
  apply (lmb_alloc_addr_refines false no_notify demo demo_ra demo_ru (Region 0x3000 0x800 LMB_NOOVERWRITE));
    [done|exact demo_inv|exact demo_coalesced|region; lia|simpl; lia| |].
  - exists (Region 0x1000 0x8000 LMB_NONE). split; [left|unfold contains, rend; simpl; lia].
  - repeat (apply Forall_cons; split); [..|constructor];
      (intros M; exfalso; unfold meets, rend in M; simpl in M; lia).
Defined.

(** [lmb_is_reserved_flags] reads the reserved map: it answers true
    exactly when the address is reserved with flags that include all the
    flags asked for. *)
Theorem lmb_is_reserved_flags_spec (m : lmb) (ra ru : list lmb_region) (addr flags : Z) :
  lmb_inv m ra ru ->
  lmb_is_reserved_flags m addr flags = true <->
  exists f, covers ru addr f /\ Z.land f flags = flags.
Proof.
  intros I. unfold lmb_is_reserved_flags. pose proof (repr_count _ _ (inv_ru _ _ _ I)) as Hc.
  rewrite (reserved_repr addr flags ru _ _ [] 0 (inv_ru _ _ _ I)); auto;
    [|lia|apply ordered_valid, I].
  apply reserved_list_covers, I.
Qed.

Lemma lmb_is_reserved_flags_spec_witness :
  lmb_is_reserved_flags demo 0x5fff LMB_NOMAP = true <->
  exists f, covers demo_ru 0x5fff f /\ Z.land f LMB_NOMAP = LMB_NOMAP.
Proof. apply (lmb_is_reserved_flags_spec demo demo_ra demo_ru 0x5fff LMB_NOMAP demo_inv). Defined.

(** The bytes [lmb_get_free_size] promises are free of reservations:
    nothing in [addr, addr + size) is reserved; the answer is 0 outside
    memory and inside a reservation, and it stops at the first reservation
    above the address. *)
Theorem lmb_get_free_size_sound (m : lmb) (ra ru : list lmb_region) (addr : Z) :
  lmb_inv m ra ru -> 0 <= addr < U64_MAX ->
  let s := lmb_get_free_size m addr in
  0 <= s /\ (forall a f, addr <= a < addr + s -> ~ covers ru a f) /\
  (forall f, covers ru addr f -> s = 0) /\
  ((forall f, ~ covers ra addr f) -> s = 0).
Proof.
  intros I Ha. simpl. unfold lmb_get_free_size.
  pose proof (repr_count _ _ (inv_ru _ _ _ I)) as Hc.
  rewrite (free_size_repr addr ru _ _ [] 0 (inv_ru _ _ _ I));
    [|done|lia|apply ordered_valid, I|lia].
  pose proof (free_size_list_clear addr ru (inv_ou _ _ _ I)) as S.
  destruct (overlaps_cases (Region addr 1 0) _ ra (inv_ra _ _ _ I)
              ltac:(region; lia) (ordered_valid _ (inv_oa _ _ _ I)))
    as [[_ E]|(l1 & r & l2 & E1 & M & _ & E & _)]; simpl in E; rewrite E.
  - simpl. split; [lia|]. split; [lia|done].
  - destruct (Z.leb_spec 0 (Z.of_nat (length l1))); [|lia].
    assert (forall s, (forall f, ~ covers ra addr f) -> s = 0) as Hm.
    { intros s Nc. destruct (Nc (r_flags r)). apply covers_elem. exists r.
      split; [rewrite E1; apply elem_of_app; right; left|]. region. split; [lia|done]. }
    destruct (free_size_list ru addr) as [s|]; [split; [apply S|split; [apply S|split; [apply S|apply Hm]]]|].
    split; [apply u64_range|]. split; [intros a f Ha'; apply S; lia|].
    split; [|apply Hm]. intros f C. exfalso. apply (S addr f); [lia|done].
Qed.

Lemma lmb_get_free_size_sound_witness :
  let s := lmb_get_free_size demo 0x3000 in
  0 <= s /\ (forall a f, 0x3000 <= a < 0x3000 + s -> ~ covers demo_ru a f) /\
  (forall f, covers demo_ru 0x3000 f -> s = 0) /\
  ((forall f, ~ covers demo_ra 0x3000 f) -> s = 0).
Proof. apply (lmb_get_free_size_sound demo demo_ra demo_ru 0x3000 demo_inv). unfold U64_MAX; lia. Defined.

(** * Where the code departs from its promise *)

(** The reserved list after four successful reservations that leave two
    touching regions with equal flags apart. *)
Definition split_list : lmb :=
  let rsv m b s := snd (lmb_reserve false no_notify true m b s LMB_NONE) in
  rsv (rsv (rsv (rsv lmb_empty 100 10) 115 5) 122 8) 110 12.

(** A reservation can be lost: after flagless reservations of [100,110),
    [115,120), [122,130) and [110,122) the list holds [100,122) and [122,130)
    unjoined, and reserving [90,100) with LMB_NOMAP then reports success,
    joins those two and does not record the new region. *)
Theorem lmb_reserve_loses_region :
  items (used_mem split_list) = [Region 100 22 LMB_NONE; Region 122 8 LMB_NONE] /\
  let (ret, m) := lmb_reserve false no_notify true split_list 90 10 LMB_NOMAP in
  ret = 0 /\ items (used_mem m) = [Region 100 30 LMB_NONE] /\
  lmb_is_reserved_flags m 95 LMB_NOMAP = false.
Proof. vm_compute. repeat split; reflexivity. Qed.

(** [lmb_alloc_base] does not check the limit against the size: asked for
    0x200 bytes below 0x100 in a memory of 0x1000 bytes, it wraps and returns
    an address outside the memory and above the limit. *)
Theorem lmb_alloc_base_underflow :
  let m := snd (lmb_add false no_notify true lmb_empty 0 0x1000) in
  option_map fst (lmb_alloc_base false no_notify true m 0x200 8 0x100 LMB_NONE)
    = Some (2 ^ 64 - 0x100) /\
  (2 ^ 64 - 0x100 > 0x100).
Proof. vm_compute. split; reflexivity. Qed.

(** [lmb_alloc_addr] checks only the end of the block: with memory at
    [0x4000, 0x5000) it accepts a block that starts at 0x3000, outside it. *)
Theorem lmb_alloc_addr_outside :
  let m := snd (lmb_add false no_notify true lmb_empty 0x4000 0x1000) in
  let (ret, m') := lmb_alloc_addr false no_notify true m 0x3000 0x1800 LMB_NONE in
  ret = 0 /\ items (available_mem m') = [Region 0x4000 0x1000 LMB_NONE] /\
  items (used_mem m') = [Region 0x3000 0x1800 LMB_NONE].
Proof. vm_compute. repeat split; reflexivity. Qed.
