(* ===== verification/Membuf.v ===== *)
(** Circular buffers (lib/membuf.c, include/membuf.h): the model, and that every
    operation refines a bounded byte queue.

    The buffer's memory is a list of bytes and its pointers are offsets from
    [start] ([None] is a NULL start).  One byte of the block is never used, so
    that [head = tail] always means empty.  Memory obtained from the heap has
    unspecified contents: the byte at each offset is given by [fresh]. *)

From S2P Require Import Prelude Bytes.

Record membuf := Membuf {
  mb_start : option (list Z);
  mb_end : Z;
  mb_head : Z;
  mb_tail : Z
}.

Definition mb_mem (mb : membuf) : list Z := default [] (mb_start mb).
Definition set_head (mb : membuf) (h : Z) : membuf :=
  Membuf (mb_start mb) (mb_end mb) h (mb_tail mb).
Definition set_tail (mb : membuf) (t : Z) : membuf :=
  Membuf (mb_start mb) (mb_end mb) (mb_head mb) t.
(** Bytes written at an offset of the block. *)
Definition mb_write (mb : membuf) (off : Z) (bs : list Z) : membuf :=
  Membuf (option_map (fun m => store m off bs) (mb_start mb)) (mb_end mb) (mb_head mb) (mb_tail mb).

Definition membuf_purge (mb : membuf) : membuf := set_tail (set_head mb 0) 0.

(** [if (maxlen >= 0 && len > maxlen) len = maxlen] *)
Definition clip (maxlen len : Z) : Z :=
  if (0 <=? maxlen) && (maxlen <? len) then maxlen else len.

(** The length, the offset in [*offsetp] and the buffer left. *)
Definition membuf_putrawflex (mb : membuf) (maxlen : Z) (update : bool) : Z * Z * membuf :=
  let offset := mb_head mb in
  match mb_start mb with
  | None => (0, offset, mb)
  | Some _ =>
      if mb_tail mb <=? mb_head mb then
        let len := clip maxlen (mb_end mb - mb_head mb - 1) in
        let mb1 := if update then set_head mb (mb_head mb + len) else mb in
        if ((maxlen <? 0) || (len <? maxlen)) && negb (mb_tail mb =? 0)
        then (len + 1, offset, if update then set_head mb1 0 else mb1)
        else (len, offset, mb1)
      else
        let len := clip maxlen (mb_tail mb - mb_head mb - 1) in
        (len, offset, if update then set_head mb (mb_head mb + len) else mb)
  end.

Definition membuf_putraw (mb : membuf) (maxlen : Z) (update : bool) : Z * Z * membuf :=
  membuf_putrawflex mb maxlen update.

Definition membuf_putbyte (mb : membuf) (ch : Z) : bool * membuf :=
  let '(n, data, mb1) := membuf_putraw mb 1 true in
  if negb (n =? 1) then (false, mb1) else (true, mb_write mb1 data [u8 ch]).

(** The length, where [*data] points ([None]: not assigned) and the buffer left. *)
Definition membuf_getraw (mb : membuf) (maxlen : Z) (update : bool) : Z * option Z * membuf :=
  if mb_tail mb <? mb_head mb then
    let len := clip maxlen (mb_head mb - mb_tail mb) in
    (len, Some (mb_tail mb), if update then set_tail mb (mb_tail mb + len) else mb)
  else if mb_head mb <? mb_tail mb then
    let len := clip maxlen (mb_end mb - mb_tail mb) in
    let t := mb_tail mb + len in
    (len, Some (mb_tail mb), if update then set_tail mb (if t =? mb_end mb then 0 else t) else mb)
  else (0, None, mb).

(** The bytes a call of [membuf_getraw] hands out. *)
Definition raw_bytes (mb : membuf) (len : Z) (data : option Z) : list Z :=
  match data with Some d => slice (mb_mem mb) d (d + len) | None => [] end.

Definition membuf_getbyte (mb : membuf) : Z * membuf :=
  let '(n, data, mb1) := membuf_getraw mb 1 true in
  (if negb (n =? 1) then -1 else u8 (hd 0 (raw_bytes mb n data)), mb1).

Definition membuf_peekbyte (mb : membuf) : Z * membuf :=
  let '(n, data, mb1) := membuf_getraw mb 1 false in
  (if negb (n =? 1) then -1 else u8 (hd 0 (raw_bytes mb n data)), mb1).

(** [for (i = 0; len && i < 2; i++)], collecting the bytes copied to [buff]. *)
Fixpoint get_loop (i : nat) (mb : membuf) (len maxlen : Z) (buff : list Z) : list Z * membuf :=
  match i with
  | O => (buff, mb)
  | S i' =>
      if len =? 0 then (buff, mb)
      else
        let '(n, data, mb1) := membuf_getraw mb maxlen true in
        get_loop i' mb1 n (maxlen - n) (buff ++ raw_bytes mb n data)
  end.

(** The bytes copied to [buff] (their number is the result) and the buffer. *)
Definition membuf_get (mb : membuf) (maxlen : Z) : list Z * membuf :=
  get_loop 2 mb 1 maxlen [].

Fixpoint put_loop (i : nat) (mb : membuf) (buff : list Z) (length written : Z) : Z * membuf :=
  match i with
  | O => (written, mb)
  | S i' =>
      let '(n, data, mb1) := membuf_putraw mb length true in
      put_loop i' (mb_write mb1 data (slice buff 0 n)) (slice buff n (Z.of_nat (List.length buff)))
               (length - n) (written + n)
  end.

Definition membuf_put (mb : membuf) (buff : list Z) (length : Z) : Z * membuf :=
  put_loop 2 mb buff length 0.

Definition membuf_isempty (mb : membuf) : bool := mb_head mb =? mb_tail mb.

Definition membuf_avail (mb : membuf) : Z :=
  let '(n1, _, c1) := membuf_getraw mb (-1) true in
  let '(n2, _, _) := membuf_getraw c1 (-1) true in
  n1 + n2.

Definition membuf_size (mb : membuf) : Z := mb_end mb.

Definition membuf_free (mb : membuf) : Z :=
  if mb_end mb =? 0 then 0 else mb_end mb - 1 - membuf_avail mb.

(** memcpy copies upwards from the lowest byte, so that the overlapping copy
    to the start of the block delivers the bytes that were there. *)
Definition membuf_makecontig (mb : membuf) : bool * membuf :=
  let m := mb_mem mb in
  if mb_head mb <? mb_tail mb then
    let topsize := mb_end mb - mb_tail mb in
    let botsize := mb_head mb in
    if mb_tail mb <=? mb_head mb + topsize then (false, mb)
    else
      let mb1 := mb_write mb topsize (slice m 0 botsize) in
      let mb2 := mb_write mb1 0 (slice (mb_mem mb1) (mb_tail mb) (mb_tail mb + topsize)) in
      (true, set_head (set_tail mb2 0) (topsize + botsize))
  else
    let topsize := mb_head mb - mb_tail mb in
    let mb2 := mb_write mb 0 (slice m (mb_tail mb) (mb_tail mb + topsize)) in
    (true, set_head (set_tail mb2 0) (topsize + 0)).

(** The copying loop of [membuf_readline]; the fuel is the room left in the
    caller's string, [maxlen - 1 - len].  Result: [ok], [s] and the bytes. *)
Fixpoint readline_loop (room : nat) (mb : membuf) (minch s end_ : Z) (str : list Z)
  : bool * Z * list Z :=
  match room with
  | O => (false, s, str)
  | S room' =>
      if s <? end_ then
        let c := mb_mem mb !!! Z.to_nat s in
        let s := s + 1 in
        if (c =? 10) || (c <? minch) then (true, s, str ++ [c])
        else
          let wrap := (s =? end_) && (mb_head mb <? mb_tail mb) in
          readline_loop room' mb minch (if wrap then 0 else s) (if wrap then mb_head mb else end_)
                        (str ++ [c])
      else (false, s, str)
  end.

(** The result, the bytes left in the caller's string and the buffer. *)
Definition membuf_readline (mb : membuf) (maxlen minch : Z) (must_fit : bool)
  : Z * list Z * membuf :=
  let end_ := if mb_tail mb <=? mb_head mb then mb_head mb else mb_end mb in
  let '(ok, s, str) := readline_loop (Z.to_nat (maxlen - 1)) mb minch (mb_tail mb) end_ [] in
  if negb ok && must_fit then
    (0, if negb (maxlen =? 0) then store str 0 [0] else str, mb)
  else
    (* the break leaves [str] at the line end, which the terminator replaces *)
    (Z.of_nat (length str), (if ok then removelast str else str) ++ [0],
     set_tail mb (if s =? mb_end mb then 0 else s)).

(** The doubling loop of [membuf_extend_by]; [None]: it does not end. *)
Fixpoint extend_size (fuel : nat) (size target : Z) : option Z :=
  if size <? target then
    match fuel with O => None | S n => extend_size n (s32 (size * 2)) target end
  else Some size.

Section Heap.
Variable fresh : nat -> Z.

Definition membuf_extend_by (mem_ok : bool) (mb : membuf) (by_ max : Z) : option (Z * membuf) :=
  let orig := mb_end mb in
  match extend_size 32 orig (orig + by_) with
  | None => None
  | Some size =>
      let size := if negb (max =? -1) then Z.min size max else size in
      let by_ := size - orig in
      if by_ <=? 0 then Some (- E2BIG, mb)
      else if negb mem_ok then Some (- ENOMEM, mb)
      else
        let m := mb_mem mb ++ map fresh (seq (Z.to_nat orig) (Z.to_nat by_)) in
        let oldtail := mb_tail mb in
        let mb1 := Membuf (Some m) orig (mb_head mb) oldtail in
        let mb2 :=
          if mb_head mb1 <? mb_tail mb1 then
            set_tail (mb_write mb1 (oldtail + by_) (slice m oldtail orig)) (oldtail + by_)
          else mb1 in
        Some (0, Membuf (mb_start mb2) size (mb_head mb2) (mb_tail mb2))
  end.

Definition membuf_init (buff : option (list Z)) (size : Z) : membuf :=
  membuf_purge (Membuf buff size 0 0).

Definition membuf_new (mem_ok : bool) (mb : membuf) (size : Z) : Z * membuf :=
  if mem_ok then (0, membuf_init (Some (map fresh (seq 0 (Z.to_nat size)))) size)
  else (- ENOMEM, Membuf None (mb_end mb) (mb_head mb) (mb_tail mb)).

Definition membuf_uninit : membuf := membuf_purge (Membuf None 0 0 0).
Definition membuf_dispose : membuf := membuf_uninit.
End Heap.

(** * The queue a buffer holds *)

Definition contents (mb : membuf) : list Z :=
  if mb_tail mb <=? mb_head mb then slice (mb_mem mb) (mb_tail mb) (mb_head mb)
  else slice (mb_mem mb) (mb_tail mb) (mb_end mb) ++ slice (mb_mem mb) 0 (mb_head mb).

(** A buffer in use: a block of at least one byte, of a size an [int] holds,
    with both pointers inside it. *)
Record mb_wf (mb : membuf) : Prop := {
  mw_start : is_Some (mb_start mb);
  mw_len : Z.of_nat (length (mb_mem mb)) = mb_end mb;
  mw_size : 0 < mb_end mb < 2147483648;
  mw_head : 0 <= mb_head mb < mb_end mb;
  mw_tail : 0 <= mb_tail mb < mb_end mb
}.

Example membuf_run :
  let mb := snd (membuf_new (fun _ => 0) true (Membuf None 0 0 0) 8) in
  let mb1 := snd (membuf_put mb [1; 2; 3; 4; 5; 6] 6) in
  let (a, mb2) := membuf_get mb1 4 in
  let (n, mb3) := membuf_put mb2 [7; 8; 9; 10; 11; 12] 6 in
  let (b, mb4) := membuf_get mb3 100 in
  (a, n, b, contents mb3, membuf_free mb3) = ([1; 2; 3; 4], 5, [5; 6; 7; 8; 9; 10; 11], [5; 6; 7; 8; 9; 10; 11], 0).
Proof. vm_compute. reflexivity. Qed.

Definition used (mb : membuf) : Z :=
  if mb_tail mb <=? mb_head mb then mb_head mb - mb_tail mb
  else mb_end mb - mb_tail mb + mb_head mb.

(** What one call of [membuf_putraw] and of [membuf_getraw] can cover. *)
Definition put_room (mb : membuf) : Z :=
  if mb_tail mb <=? mb_head mb then
    if mb_tail mb =? 0 then mb_end mb - mb_head mb - 1 else mb_end mb - mb_head mb
  else mb_tail mb - mb_head mb - 1.
Definition get_seg (mb : membuf) : Z :=
  if mb_tail mb <=? mb_head mb then mb_head mb - mb_tail mb else mb_end mb - mb_tail mb.

(** Case analysis on the pointers, with the block exposed. *)
Ltac mb_cases :=
  unfold used, put_room, get_seg, clip, contents, mb_mem, mb_write, set_head, set_tail in *; simpl in *;
  repeat (case_Z; simpl in *; try lia).

Lemma mb_mem_some (m : list Z) (e h t : Z) : mb_mem (Membuf (Some m) e h t) = m.
Proof. done. Qed.

Section Queue.
Implicit Types (mb : membuf) (bs : list Z).

Lemma contents_length mb : mb_wf mb -> Z.of_nat (length (contents mb)) = used mb.
Proof.
  intros [S L Sz H T]. mb_cases; rewrite ?length_app, ?Nat2Z.inj_add, !slice_length; lia.
Qed.

Lemma used_bound mb : mb_wf mb -> 0 <= used mb <= mb_end mb - 1.
Proof. intros [S L Sz H T]. mb_cases. Qed.

Lemma putraw_ok mb maxlen :
  mb_wf mb -> 0 <= maxlen ->
  exists n h, membuf_putraw mb maxlen true = (n, mb_head mb, set_head mb h) /\
    n = Z.min maxlen (put_room mb) /\ 0 <= n /\
    h = (if mb_head mb + n =? mb_end mb then 0 else mb_head mb + n) /\
    mb_head mb + n <= mb_end mb /\
    (mb_head mb + n = mb_end mb -> 0 < mb_tail mb <= mb_head mb) /\
    (mb_head mb < mb_tail mb -> mb_head mb + n < mb_tail mb).
Proof.
  intros [[m Sm] L Sz H T] Hm. destruct mb as [st e h t]. simpl in *. subst st.
  unfold membuf_putraw, membuf_putrawflex, set_head, put_room, clip; simpl.
  repeat (case_Z; simpl in *; try lia); do 2 eexists; (split; [reflexivity|]);
    split; try lia; split; try lia; case_Z; lia.
Qed.

(** Writing [bs] at the head and moving the head over it. *)
Lemma write_contents mb bs h :
  mb_wf mb ->
  let n := Z.of_nat (length bs) in
  h = (if mb_head mb + n =? mb_end mb then 0 else mb_head mb + n) ->
  mb_head mb + n <= mb_end mb ->
  (mb_head mb + n = mb_end mb -> 0 < mb_tail mb <= mb_head mb) ->
  (mb_head mb < mb_tail mb -> mb_head mb + n < mb_tail mb) ->
  let mb2 := mb_write (set_head mb h) (mb_head mb) bs in
  mb_wf mb2 /\ contents mb2 = contents mb ++ bs.
Proof.
  intros [[m Sm] L Sz H T] n Eh Hn He Hl. destruct mb as [st e h0 t]. simpl in *. subst st.
  unfold mb_mem in L; simpl in *. split.
  - constructor; unfold mb_mem; simpl; [eauto|rewrite store_length by lia; lia|..];
      repeat case_Z; lia.
  - unfold contents, mb_mem; simpl. subst h.
    repeat (case_Z; simpl; try lia);
      repeat first [rewrite slice_store_app by lia|rewrite slice_store_other by lia
                   |rewrite (slice_empty _ 0 0) by lia];
      rewrite ?app_nil_r, ?app_assoc; try done.
Qed.

Lemma put_step mb bs :
  mb_wf mb ->
  exists n mb1, membuf_putraw mb (Z.of_nat (length bs)) true = (n, mb_head mb, mb1) /\
  let mb2 := mb_write mb1 (mb_head mb) (slice bs 0 n) in
  n = Z.min (Z.of_nat (length bs)) (put_room mb) /\ 0 <= n /\ mb_wf mb2 /\
  contents mb2 = contents mb ++ slice bs 0 n /\ mb_end mb2 = mb_end mb /\
  (n = put_room mb -> put_room mb2 = mb_end mb - 1 - used mb - n).
Proof.
  intros W. destruct (putraw_ok mb (Z.of_nat (length bs)) W ltac:(lia))
    as (n & h & E & En & Hn & Eh & He & Hw & Hl).
  assert (Z.of_nat (length (slice bs 0 n)) = n) as Lb by (rewrite slice_length; lia).
  exists n, (set_head mb h). split; [exact E|]. simpl.
  destruct (write_contents mb (slice bs 0 n) h W) as [W2 C2]; rewrite ?Lb; auto.
  split; [done|]. split; [done|]. split; [done|]. split; [done|]. split; [done|].
  destruct W. unfold put_room, used in *; simpl. subst h. intros. repeat (case_Z; simpl in *; try lia).
Qed.

Lemma getraw_ok mb maxlen :
  mb_wf mb ->
  exists n d mb1, membuf_getraw mb maxlen true = (n, d, mb1) /\
    n = clip maxlen (get_seg mb) /\
    ((0 <= n) -> mb_wf mb1 /\ mb_end mb1 = mb_end mb /\ mb_mem mb1 = mb_mem mb /\
     raw_bytes mb n d = take (Z.to_nat n) (contents mb) /\
     contents mb1 = drop (Z.to_nat n) (contents mb) /\
     (n = get_seg mb -> get_seg mb1 = used mb - n /\ used mb1 = get_seg mb1)).
Proof.
  intros [[m Sm] L Sz H T]. destruct mb as [st e h t]. simpl in *. subst st.
  unfold mb_mem in L; simpl in *.
  unfold membuf_getraw, set_tail, clip, contents, get_seg, used, mb_mem; simpl.
  repeat (case_Z; simpl in *; try lia); do 3 eexists; (split; [reflexivity|]); (split; [lia|]);
    intros Hn; (split; [constructor; unfold mb_mem; simpl; eauto; lia|]);
    (split; [done|]); (split; [done|]); simpl;
    rewrite ?take_app_le, ?drop_app_le by (rewrite slice_length_tot; lia);
    (split; [first [rewrite take_slice by lia|idtac]; rewrite ?Z2Nat.id by lia; try done
            |split; [|try lia]]).
  all: rewrite ?drop_slice, ?Z2Nat.id by lia.
  all: repeat (case_Z; try lia); rewrite ?(slice_empty _ (t + (e - t))) by lia; simpl;
    first [done|symmetry; apply slice_empty; lia|intros; split; lia|f_equal; f_equal; lia|f_equal; lia].
Qed.

Lemma clip_nonneg maxlen len : 0 <= len -> 0 <= clip maxlen len.
Proof. unfold clip. repeat (case_Z; simpl); lia. Qed.
Lemma clip_min maxlen len : 0 <= maxlen -> clip maxlen len = Z.min maxlen len.
Proof. unfold clip. repeat (case_Z; simpl); lia. Qed.
Lemma get_seg_bound mb : mb_wf mb -> 0 <= get_seg mb <= used mb.
Proof. intros []. unfold get_seg, used. case_Z; lia. Qed.

(** Two passes take everything that is asked for. *)
Lemma membuf_get_spec mb maxlen :
  mb_wf mb -> 0 <= maxlen ->
  exists mb', membuf_get mb maxlen = (take (Z.to_nat maxlen) (contents mb), mb') /\
    mb_wf mb' /\ mb_end mb' = mb_end mb /\ contents mb' = drop (Z.to_nat maxlen) (contents mb).
Proof.
  intros W Hm. unfold membuf_get. cbn [get_loop].
  destruct (getraw_ok mb maxlen W) as (n & d & mb1 & E1 & En & R1). rewrite E1.
  pose proof (get_seg_bound mb W) as Sb. rewrite clip_min in En by lia.
  destruct R1 as (W1 & Ee1 & Em1 & B1 & C1 & S1); [lia|]. simpl. rewrite B1.
  pose proof (contents_length mb W) as Lc.
  destruct (Z.eqb_spec n 0).
  - exists mb1. rewrite C1. subst n. destruct (Z.eq_dec maxlen 0) as [->|]; [by rewrite e|].
    assert (contents mb = []) as ->
      by (apply length_zero_iff_nil; destruct W; unfold get_seg, used in *; repeat case_Z; lia).
    rewrite !take_nil, !drop_nil. done.
  - destruct (getraw_ok mb1 (maxlen - n) W1) as (n2 & d2 & mb2 & E2 & En2 & R2). rewrite E2.
    pose proof (get_seg_bound mb1 W1) as Sb1. rewrite clip_min in En2 by lia.
    destruct R2 as (W2 & Ee2 & Em2 & B2 & C2 & S2); [lia|]. simpl. rewrite B2, C1.
    exists mb2. rewrite C2, C1, drop_drop, <- Ee1.
    assert (n2 = Z.min (maxlen - n) (used mb - n)) as N2.
    { destruct (Z.eq_dec n maxlen); [lia|]. specialize (S1 ltac:(lia)). lia. }
    split; [f_equal|split; [done|split; [done|]]].
    + rewrite take_take_drop. destruct (Z.le_gt_cases maxlen (used mb)); [f_equal; lia|].
      rewrite !take_ge by lia. done.
    + destruct (Z.le_gt_cases maxlen (used mb)); [f_equal; lia|]. rewrite !drop_ge by lia. done.
Qed.

Lemma membuf_put_spec mb bs :
  mb_wf mb ->
  let n := Z.min (Z.of_nat (length bs)) (mb_end mb - 1 - Z.of_nat (length (contents mb))) in
  exists mb', membuf_put mb bs (Z.of_nat (length bs)) = (n, mb') /\ mb_wf mb' /\
    mb_end mb' = mb_end mb /\ contents mb' = contents mb ++ take (Z.to_nat n) bs.
Proof.
  intros W n. subst n. rewrite contents_length by done.
  unfold membuf_put. cbn [put_loop].
  destruct (put_step mb bs W) as (n1 & mb1 & E1 & N1 & P1 & W1 & C1 & Ee1 & R1). rewrite E1.
  set (mb1' := mb_write mb1 (mb_head mb) (slice bs 0 n1)) in *.
  assert (Z.of_nat (length (slice bs n1 (Z.of_nat (length bs)))) = Z.of_nat (length bs) - n1) as L2
    by (rewrite slice_length; lia).
  destruct (put_step mb1' (slice bs n1 (Z.of_nat (length bs))) W1)
    as (n2 & mb2 & E2 & N2 & P2 & W2 & C2 & Ee2 & R2).
  rewrite <- L2, E2. set (mb2' := mb_write mb2 _ _) in *. rewrite L2 in N2.
  pose proof (contents_length mb W) as Lc. pose proof (contents_length mb1' W1) as Lc1.
  rewrite C1, length_app in Lc1.
  assert (Z.of_nat (length (slice bs 0 n1)) = n1) by (rewrite slice_length; lia).
  pose proof (used_bound mb W). pose proof (used_bound mb1' W1).
  exists mb2'. split; [f_equal|].
  - assert (0 <= put_room mb <= mb_end mb - 1 - used mb)
      by (destruct W; unfold put_room, used; repeat case_Z; lia).
    assert (0 <= put_room mb1') by (destruct W1; unfold put_room; repeat case_Z; lia).
    destruct (Z.eq_dec n1 (put_room mb)) as [Er|]; [specialize (R1 Er)|]; lia.
  - split; [done|]. split; [congruence|]. rewrite C2, C1, <- app_assoc. f_equal.
    assert (0 <= put_room mb <= mb_end mb - 1 - used mb)
      by (destruct W; unfold put_room, used; repeat case_Z; lia).
    assert (0 <= put_room mb1') by (destruct W1; unfold put_room; repeat case_Z; lia).
    assert (n1 + n2 = Z.min (Z.of_nat (length bs)) (mb_end mb - 1 - used mb)) as <-.
    { destruct (Z.eq_dec n1 (put_room mb)) as [Er|]; [specialize (R1 Er)|]; lia. }
    clear - N1 P1 N2 P2. slice_ext.
Qed.

Lemma membuf_avail_spec mb : mb_wf mb -> membuf_avail mb = Z.of_nat (length (contents mb)).
Proof.
  intros W. unfold membuf_avail. rewrite contents_length by done.
  destruct (getraw_ok mb (-1) W) as (n & d & mb1 & -> & En & R1).
  pose proof (get_seg_bound mb W) as Sb. unfold clip in En; simpl in En.
  destruct R1 as (W1 & _ & _ & _ & _ & S1); [lia|]. specialize (S1 En).
  destruct (getraw_ok mb1 (-1) W1) as (n2 & d2 & mb2 & -> & En2 & _).
  unfold clip in En2; simpl in En2. lia.
Qed.

Lemma membuf_putbyte_spec mb ch :
  mb_wf mb ->
  exists mb', membuf_putbyte mb ch
              = (Z.of_nat (length (contents mb)) <? mb_end mb - 1, mb') /\
    mb_wf mb' /\ mb_end mb' = mb_end mb /\
    contents mb' = if Z.of_nat (length (contents mb)) <? mb_end mb - 1
                   then contents mb ++ [u8 ch] else contents mb.
Proof.
  intros W. unfold membuf_putbyte. rewrite contents_length by done.
  destruct (put_step mb [u8 ch] W) as (n & mb1 & E & N & P & W1 & C1 & Ee & R).
  simpl length in *. change (Z.of_nat 1) with 1 in *. rewrite E.
  assert (0 <= put_room mb <= mb_end mb - 1 - used mb /\
          (put_room mb = 0 -> used mb = mb_end mb - 1)) as [Hr Hz]
    by (destruct W; unfold put_room, used; repeat case_Z; lia).
  destruct (Z.eqb_spec n 1) as [->|]; simpl.
  - exists (mb_write mb1 (mb_head mb) [u8 ch]). destruct (Z.ltb_spec (used mb) (mb_end mb - 1)); [|lia].
    done.
  - assert (n = 0) as -> by lia. destruct (Z.ltb_spec (used mb) (mb_end mb - 1)); [lia|].
    destruct (putraw_ok mb 1 W ltac:(lia)) as (n' & h & E' & _ & _ & Eh & _).
    rewrite E in E'. injection E' as <- ->. destruct W as [? ? ? Wh Wt].
    assert (h = mb_head mb) as -> by (subst h; case_Z; lia).
    exists (set_head mb (mb_head mb)). destruct mb; done.
Qed.

Lemma membuf_getbyte_spec mb :
  mb_wf mb -> Forall (fun b => 0 <= b < 256) (contents mb) ->
  exists mb', membuf_getbyte mb = (default (-1) (head (contents mb)), mb') /\
    mb_wf mb' /\ mb_end mb' = mb_end mb /\ contents mb' = tail (contents mb).
Proof.
  intros W B. unfold membuf_getbyte.
  destruct (getraw_ok mb 1 W) as (n & d & mb1 & E & En & R1). rewrite E.
  pose proof (get_seg_bound mb W) as Sb. rewrite clip_min in En by lia.
  destruct R1 as (W1 & Ee1 & _ & B1 & C1 & S1); [lia|]. rewrite B1.
  pose proof (contents_length mb W) as Lc. exists mb1.
  destruct (Z.eqb_spec n 1) as [->|]; simpl.
  - rewrite C1. destruct (contents mb) as [|c q]; simpl in *.
    { unfold used, get_seg in *. repeat case_Z; lia. }
    apply Forall_cons in B as [Bc _]. rewrite u8_small by lia. rewrite drop_0. done.
  - assert (contents mb = []) as Ec.
    { apply length_zero_iff_nil. destruct W; unfold get_seg, used in *; repeat case_Z; lia. }
    rewrite C1, Ec, drop_nil. done.
Qed.

Lemma membuf_peekbyte_spec mb :
  mb_wf mb -> Forall (fun b => 0 <= b < 256) (contents mb) ->
  membuf_peekbyte mb = (default (-1) (head (contents mb)), mb).
Proof.
  intros W B. destruct (membuf_getbyte_spec mb W B) as (mb' & E & _).
  unfold membuf_getbyte, membuf_peekbyte, membuf_getraw in *.
  destruct (mb_tail mb <? mb_head mb); [|destruct (mb_head mb <? mb_tail mb)];
    injection E as E _; f_equal; exact E.
Qed.
End Queue.

(** * The abstract queue *)

(** A bounded byte queue and what each operation promises on it. *)
Record queue := Queue { q_bytes : list Z; q_cap : Z }.

Inductive cmd :=
  | Put (bs : list Z) | Get (maxlen : Z) | PutByte (ch : Z) | GetByte | PeekByte
  | Avail | FreeSpace | IsEmpty | Size | Purge.

Definition q_free (q : queue) : Z := q_cap q - Z.of_nat (length (q_bytes q)).

Definition q_step (c : cmd) (q : queue) : list Z * queue :=
  let b := q_bytes q in
  match c with
  | Put bs => let n := Z.min (Z.of_nat (length bs)) (q_free q) in
              ([n], Queue (b ++ take (Z.to_nat n) bs) (q_cap q))
  | Get n => (take (Z.to_nat n) b, Queue (drop (Z.to_nat n) b) (q_cap q))
  | PutByte ch => if 0 <? q_free q then ([1], Queue (b ++ [u8 ch]) (q_cap q)) else ([0], q)
  | GetByte => ([default (-1) (head b)], Queue (tail b) (q_cap q))
  | PeekByte => ([default (-1) (head b)], q)
  | Avail => ([Z.of_nat (length b)], q)
  | FreeSpace => ([q_free q], q)
  | IsEmpty => ([Z.b2z (bool_decide (b = []))], q)
  | Size => ([q_cap q + 1], q)
  | Purge => ([], Queue [] (q_cap q))
  end.

Definition mb_step (c : cmd) (mb : membuf) : list Z * membuf :=
  match c with
  | Put bs => let (n, mb') := membuf_put mb bs (Z.of_nat (length bs)) in ([n], mb')
  | Get n => membuf_get mb n
  | PutByte ch => let (ok, mb') := membuf_putbyte mb ch in ([Z.b2z ok], mb')
  | GetByte => let (ch, mb') := membuf_getbyte mb in ([ch], mb')
  | PeekByte => let (ch, mb') := membuf_peekbyte mb in ([ch], mb')
  | Avail => ([membuf_avail mb], mb)
  | FreeSpace => ([membuf_free mb], mb)
  | IsEmpty => ([Z.b2z (membuf_isempty mb)], mb)
  | Size => ([membuf_size mb], mb)
  | Purge => ([], membuf_purge mb)
  end.

(** Callers hand over bytes and non-negative lengths. *)
Definition cmd_ok (c : cmd) : Prop :=
  match c with
  | Put bs => Forall (fun b => 0 <= b < 256) bs
  | Get n => 0 <= n
  | _ => True
  end.

Fixpoint run {S} (step : cmd -> S -> list Z * S) (cs : list cmd) (s : S) : list (list Z) * S :=
  match cs with
  | [] => ([], s)
  | c :: cs' => let (o, s1) := step c s in let (os, s2) := run step cs' s1 in (o :: os, s2)
  end.

Record mb_sim (mb : membuf) (q : queue) : Prop := {
  sim_wf : mb_wf mb;
  sim_bytes : contents mb = q_bytes q;
  sim_cap : mb_end mb - 1 = q_cap q;
  sim_byte : Forall (fun b => 0 <= b < 256) (q_bytes q)
}.

Lemma mb_step_sim (c : cmd) (mb : membuf) (q : queue) :
  mb_sim mb q -> cmd_ok c ->
  fst (mb_step c mb) = fst (q_step c q) /\ mb_sim (snd (mb_step c mb)) (snd (q_step c q)).
Proof.
  intros S Hc. pose proof S as [W Eb Ec Hb]. destruct q as [b cap]. simpl in *. subst cap b.
  destruct c; simpl in *; unfold q_free; simpl.
  - destruct (membuf_put_spec mb bs W) as (mb' & -> & W' & Ee & Eq). simpl. split; [done|].
    constructor; simpl; auto; [lia|]. apply Forall_app; split; [done|by apply Forall_take].
  - destruct (membuf_get_spec mb maxlen W Hc) as (mb' & -> & W' & Ee & Eq). simpl. split; [done|].
    constructor; simpl; auto; [lia|]. by apply Forall_drop.
  - destruct (membuf_putbyte_spec mb ch W) as (mb' & -> & W' & Ee & Eq). simpl.
    destruct (Z.ltb_spec (Z.of_nat (length (contents mb))) (mb_end mb - 1)),
      (Z.ltb_spec 0 (mb_end mb - 1 - Z.of_nat (length (contents mb)))); try lia; simpl;
      (split; [done|constructor; simpl; auto; try lia]).
    apply Forall_app; split; [done|]. constructor; [|done]. unfold u8. zlia.
  - destruct (membuf_getbyte_spec mb W Hb) as (mb' & -> & W' & Ee & Eq). simpl. split; [done|].
    constructor; simpl; auto; [lia|]. by destruct (contents mb) as [|? ?]; [|apply Forall_cons in Hb as [_ Hb]].
  - rewrite (membuf_peekbyte_spec mb W Hb). by simpl.
  - rewrite membuf_avail_spec by done. done.
  - unfold membuf_free. rewrite membuf_avail_spec by done. destruct (Z.eqb_spec (mb_end mb) 0); [destruct W; lia|done].
  - split; [|done]. f_equal. f_equal. unfold membuf_isempty. pose proof (contents_length mb W) as L.
    destruct W. case_bool_decide as E; [rewrite E in L; simpl in L|];
      unfold used in *; repeat case_Z; try lia; try done.
    destruct E. by apply length_zero_iff_nil; lia.
  - split; [f_equal; unfold membuf_size; lia|done].
  - split; [done|]. constructor; simpl; auto. destruct W. constructor; simpl; auto; lia.
Qed.

Lemma mb_run_sim (cs : list cmd) : forall (mb : membuf) (q : queue),
  mb_sim mb q -> Forall cmd_ok cs ->
  fst (run mb_step cs mb) = fst (run q_step cs q) /\
  mb_sim (snd (run mb_step cs mb)) (snd (run q_step cs q)).
Proof.
  induction cs as [|c cs IH]; intros mb q S F; [done|].
  apply Forall_cons in F as [Hc F]. destruct (mb_step_sim c mb q S Hc) as [E S1]. simpl.
  destruct (mb_step c mb) as [o mb1], (q_step c q) as [o' q1]. simpl in *. subst o'.
  destruct (IH mb1 q1 S1 F) as [E2 S2].
  destruct (run mb_step cs mb1), (run q_step cs q1). simpl in *. subst. done.
Qed.

Lemma membuf_new_sim (fresh : nat -> Z) (mb : membuf) (size : Z) :
  0 < size < 2147483648 -> mb_sim (snd (membuf_new fresh true mb size)) (Queue [] (size - 1)).
Proof.
  intros H. constructor; simpl; auto. constructor; simpl; try lia; [eauto|].
  unfold mb_mem; simpl. rewrite length_map, length_seq. lia.
Qed.

(** C18: A circular buffer is a bounded FIFO queue of bytes: whatever sequence
    of puts, gets, single-byte operations, queries and purges is run on a
    newly made buffer of [size] bytes, every result is the one a queue of
    [size - 1] bytes gives, and the bytes held at the end are the queue's. *)
Theorem membuf_refines_queue (fresh : nat -> Z) (mb : membuf) (size : Z) (cs : list cmd) :
  0 < size < 2147483648 -> Forall cmd_ok cs ->
  let b := run mb_step cs (snd (membuf_new fresh true mb size)) in
  let q := run q_step cs (Queue [] (size - 1)) in
  fst b = fst q /\ contents (snd b) = q_bytes (snd q).
Proof.
  intros H F. simpl. destruct (mb_run_sim cs _ _ (membuf_new_sim fresh mb size H) F) as [E S].
  split; [exact E|apply S].
Qed.

Definition demo_cmds : list cmd :=
  [Put [1; 2; 3; 4; 5]; Get 3; Put [6; 7; 8; 9; 10; 11]; Avail; FreeSpace; GetByte; PutByte 12; Get 100; IsEmpty].

Lemma membuf_refines_queue_witness :
  fst (run mb_step demo_cmds (snd (membuf_new (fun _ => 0) true (Membuf None 0 0 0) 8))) =
  fst (run q_step demo_cmds (Queue [] 7)).
Proof.
  apply (membuf_refines_queue (fun _ => 0) (Membuf None 0 0 0) 8 demo_cmds); [lia|].
  unfold demo_cmds. repeat (constructor; simpl; try lia).
Defined.

(** * Rearranging the block *)

(** [membuf_makecontig] keeps the queue: on success the bytes start at the
    bottom of the block in order, and on failure nothing has changed. *)
Theorem membuf_makecontig_keeps (mb : membuf) :
  mb_wf mb ->
  let (ok, mb') := membuf_makecontig mb in
  mb_wf mb' /\ contents mb' = contents mb /\
  (ok = true -> slice (mb_mem mb') 0 (mb_head mb') = contents mb /\ mb_tail mb' = 0) /\
  (ok = false -> mb' = mb).
Proof.
  intros W. pose proof W as [[m Sm] L Sz H T]. destruct mb as [st e h t]. simpl in *. subst st.
  unfold mb_mem in L; simpl in L. unfold membuf_makecontig; simpl.
  assert (forall m' h', Z.of_nat (length m') = e -> 0 <= h' < e ->
            slice m' 0 h' = contents (Membuf (Some m) e h t) ->
            mb_wf (Membuf (Some m') e h' 0) /\
            contents (Membuf (Some m') e h' 0) = contents (Membuf (Some m) e h t) /\
            (true = true -> slice m' 0 h' = contents (Membuf (Some m) e h t) /\ 0 = 0) /\
            (true = false -> Membuf (Some m') e h' 0 = Membuf (Some m) e h t)) as fin.
  { intros m' h' Lm Hh E. split; [constructor; unfold mb_mem; simpl; eauto; lia|].
    split; [|done]. unfold contents at 1; simpl. by destruct (Z.leb_spec 0 h'); [|lia]. }
  destruct (Z.ltb_spec h t).
  - destruct (Z.leb_spec t (h + (e - t))); [done|]. unfold mb_write, mb_mem; simpl.
    assert (length (slice m 0 h) = Z.to_nat h) as Lh by (rewrite slice_length_tot; lia).
    rewrite (slice_store_other m (e - t)) by lia.
    assert (length (store m (e - t) (slice m 0 h)) = length m) as L1 by (apply store_length; lia).
    assert (length (slice m t (t + (e - t))) = Z.to_nat (e - t)) as Lt by (rewrite slice_length_tot; lia).
    apply fin; [rewrite store_length; lia|lia|].
    rewrite (slice_split _ 0 (e - t)) by (rewrite ?store_length; lia).
    rewrite (slice_store_other _ 0 _ (e - t)) by lia.
    rewrite (slice_store_app _ 0), (slice_empty _ 0 0) by lia.
    rewrite (slice_store_app m (e - t)), (slice_empty _ (e - t) (e - t)) by lia.
    unfold contents, mb_mem; simpl. destruct (Z.leb_spec t h); [lia|].
    by replace (t + (e - t)) with e by lia.
  - unfold mb_write, mb_mem; simpl.
    assert (length (slice m t (t + (h - t))) = Z.to_nat (h - t)) as Lh by (rewrite slice_length_tot; lia).
    apply fin; [rewrite store_length; lia|lia|].
    rewrite (slice_store_app _ 0), (slice_empty _ 0 0) by lia.
    unfold contents, mb_mem; simpl. destruct (Z.leb_spec t h); [|lia].
    by replace (t + (h - t)) with h by lia.
Qed.

Lemma membuf_makecontig_keeps_witness :
  let (ok, mb') := membuf_makecontig (Membuf (Some [3; 4; 0; 0; 0; 0; 1; 2]) 8 2 6) in
  ok = true /\ contents mb' = [1; 2; 3; 4].
Proof.
  pose proof (membuf_makecontig_keeps (Membuf (Some [3; 4; 0; 0; 0; 0; 1; 2]) 8 2 6)) as H.
  destruct H as (_ & H & _); [constructor; vm_compute; try done; eauto; intuition congruence|].
  split; [reflexivity|exact H].
Defined.

Lemma extend_size_ok (fuel : nat) : forall size target,
  0 < size -> target <= 1073741824 -> target <= size * 2 ^ Z.of_nat fuel ->
  exists n, extend_size fuel size target = Some n /\ size <= n /\ target <= n /\
            (n = size \/ n < 2147483648).
Proof.
  induction fuel as [|fuel IH]; intros size target Hs Ht Hf; simpl.
  - change (2 ^ Z.of_nat 0) with 1 in Hf. destruct (Z.ltb_spec size target); [lia|].
    eexists; split; [reflexivity|lia].
  - destruct (Z.ltb_spec size target).
    + rewrite s32_small by lia. rewrite Nat2Z.inj_succ, Z.pow_succ_r in Hf by lia.
      destruct (IH (size * 2) target) as (n & -> & ? & ? & ?); [lia|lia|lia|].
      eexists; split; [reflexivity|lia].
    + eexists; split; [reflexivity|lia].
Qed.

(** [membuf_extend_by] always ends and never loses a byte: it grows the
    block by at least the bytes asked for when no maximum stops it, keeping
    the queue, returns -E2BIG when the block is already at the maximum (or
    nothing was asked for) and -ENOMEM when the heap is exhausted, both
    without a change. *)
Theorem membuf_extend_by_keeps (fresh : nat -> Z) (mem_ok : bool) (mb : membuf) (by_ max : Z) :
  mb_wf mb -> 0 <= by_ -> mb_end mb + by_ <= 1073741824 -> max = -1 \/ 0 <= max ->
  exists ret mb', membuf_extend_by fresh mem_ok mb by_ max = Some (ret, mb') /\
    mb_wf mb' /\ contents mb' = contents mb /\
    (ret = 0 /\ mem_ok = true /\ mb_end mb < mb_end mb' /\
       (max = -1 -> mb_end mb + by_ <= mb_end mb') /\
       (max <> -1 -> mb_end mb' <= max /\ (mb_end mb + by_ <= max -> mb_end mb + by_ <= mb_end mb')) \/
     ret = - E2BIG /\ mb' = mb /\ (by_ = 0 \/ max <> -1 /\ max <= mb_end mb) \/
     ret = - ENOMEM /\ mb' = mb /\ mem_ok = false).
Proof.
  intros W Hb Ht Hm. pose proof W as [[m Sm] L Sz H T].
  unfold membuf_extend_by.
  destruct (extend_size_ok 32 (mb_end mb) (mb_end mb + by_)) as (n & E & N1 & N2 & N3); [lia|lia| |].
  { change (2 ^ Z.of_nat 32) with 4294967296. lia. }
  rewrite E. set (size := if negb (max =? -1) then _ else _).
  assert (size <= n /\ (max = -1 -> size = n) /\ (max <> -1 -> size = Z.min n max)) as (S1 & S2 & S3).
  { subst size. case_Z; simpl; lia. }
  destruct (Z.leb_spec (size - mb_end mb) 0).
  { do 2 eexists; split; [reflexivity|]. split; [done|]. split; [done|]. right; left.
    split; [done|]. split; [done|]. lia. }
  destruct mem_ok; simpl; [|do 2 eexists; split; [reflexivity|]; auto 10].
  set (grown := mb_mem mb ++ _). set (k := size - mb_end mb) in *.
  assert (Z.of_nat (length grown) = size) as Lg.
  { subst grown. rewrite length_app, length_map, length_seq. lia. }
  assert (forall lo hi, 0 <= lo -> hi <= mb_end mb -> slice grown lo hi = slice (mb_mem mb) lo hi) as Sg.
  { intros lo hi Hlo Hhi. subst grown. clear -L Hlo Hhi. slice_ext. }
  do 2 eexists; split; [reflexivity|].
  destruct (Z.ltb_spec (mb_head mb) (mb_tail mb)) as [Hw|Hw]; simpl.
  - assert (length (slice grown (mb_tail mb) (mb_end mb)) = Z.to_nat (mb_end mb - mb_tail mb)) as Ls
      by (rewrite slice_length_tot; lia).
    split; [constructor; unfold mb_mem; simpl; [eauto|rewrite store_length by lia; lia|lia..]|].
    split; [|left; split; [done|split; [done|lia]]].
    unfold contents; simpl. rewrite !mb_mem_some. repeat (case_Z; try lia).
    rewrite slice_store_app, (slice_empty _ (mb_tail mb + k)), (slice_store_other _ _ _ 0) by lia. rewrite !Sg by lia. done.
  - split; [constructor; unfold mb_mem; simpl; [eauto|lia..]|].
    split; [|left; split; [done|split; [done|lia]]].
    unfold contents; simpl. rewrite !mb_mem_some. repeat (case_Z; try lia). apply Sg; lia.
Qed.

Lemma membuf_extend_by_keeps_witness :
  exists ret mb', membuf_extend_by (fun _ => 0) true (Membuf (Some [3; 4; 0; 2]) 4 2 3) 5 (-1)
                    = Some (ret, mb') /\ contents mb' = [2; 3; 4].
Proof.
  destruct (membuf_extend_by_keeps (fun _ => 0) true (Membuf (Some [3; 4; 0; 2]) 4 2 3) 5 (-1))
    as (ret & mb' & E & _ & C & _); [|simpl; lia|simpl; lia|by left|].
  - constructor; vm_compute; try done; eauto; intuition congruence.
  - exists ret, mb'. split; [exact E|exact C].
Defined.

(** * Reading lines *)

Definition is_eol (minch c : Z) : bool := (c =? 10) || (c <? minch).

(** Where the loop of [membuf_readline] stands: in the only segment, in the
    upper segment of a wrapped buffer, or in its lower one. *)
Inductive phase (mb : membuf) (s : Z) : Z -> list Z -> Prop :=
  | Flat : mb_tail mb <= mb_head mb -> mb_tail mb <= s <= mb_head mb ->
      phase mb s (mb_head mb) (slice (mb_mem mb) s (mb_head mb))
  | Upper : mb_head mb < mb_tail mb -> mb_tail mb <= s < mb_end mb ->
      phase mb s (mb_end mb) (slice (mb_mem mb) s (mb_end mb) ++ slice (mb_mem mb) 0 (mb_head mb))
  | Lower : mb_head mb < mb_tail mb -> 0 <= s <= mb_head mb ->
      phase mb s (mb_head mb) (slice (mb_mem mb) s (mb_head mb)).

Section Readline.
Context (mb : membuf) (W : mb_wf mb) (minch : Z).

(** One byte further. *)
Lemma phase_step s e c q :
  phase mb s e (c :: q) ->
  s < e /\ mb_mem mb !!! Z.to_nat s = c /\
  contents (set_tail mb (if s + 1 =? mb_end mb then 0 else s + 1)) = q /\
  mb_wf (set_tail mb (if s + 1 =? mb_end mb then 0 else s + 1)) /\
  let wrap := (s + 1 =? e) && (mb_head mb <? mb_tail mb) in
  (q <> [] -> phase mb (if wrap then 0 else s + 1) (if wrap then mb_head mb else e) q).
Proof.
  destruct W as [[m Sm] L Sz Hh Ht]. intros P. cbv zeta. inversion P as [H1 H2 E1 E2|H1 H2 E1 E2|H1 H2 E1 E2]; subst e.
  - destruct (Z.eq_dec s (mb_head mb)) as [->|]; [by rewrite slice_empty in E2 by lia|].
    rewrite slice_cons in E2 by lia. injection E2 as Ec Eq. split; [lia|]. split; [done|].
    destruct (Z.eqb_spec (s + 1) (mb_end mb)); [lia|].
    split; [unfold contents; simpl; by destruct (Z.leb_spec (s + 1) (mb_head mb)); [|lia]|].
    split; [constructor; simpl; eauto; lia|].
    destruct (Z.ltb_spec (mb_head mb) (mb_tail mb)); [lia|]. rewrite andb_false_r. intros _.
    rewrite <- Eq. constructor; lia.
  - rewrite slice_cons in E2 by lia. injection E2 as Ec Eq. split; [lia|]. split; [done|].
    destruct (Z.ltb_spec (mb_head mb) (mb_tail mb)); [|lia]. rewrite andb_true_r.
    destruct (Z.eqb_spec (s + 1) (mb_end mb)).
    + rewrite slice_empty in Eq by lia. simpl in Eq. split.
      { unfold contents; simpl. by destruct (Z.leb_spec 0 (mb_head mb)); [|lia]. }
      split; [constructor; simpl; eauto; lia|]. intros _. rewrite <- Eq. constructor; lia.
    + split; [unfold contents; simpl; by destruct (Z.leb_spec (s + 1) (mb_head mb)); [lia|]|].
      split; [constructor; simpl; eauto; lia|]. intros _. rewrite <- Eq. constructor; lia.
  - destruct (Z.eq_dec s (mb_head mb)) as [->|]; [by rewrite slice_empty in E2 by lia|].
    rewrite slice_cons in E2 by lia. injection E2 as Ec Eq. split; [lia|]. split; [done|].
    destruct (Z.eqb_spec (s + 1) (mb_end mb)); [lia|].
    split; [unfold contents; simpl; by destruct (Z.leb_spec (s + 1) (mb_head mb)); [|lia]|].
    split; [constructor; simpl; eauto; lia|].
    intros Hq. destruct (Z.eqb_spec (s + 1) (mb_head mb)) as [E|].
    + destruct Hq. rewrite <- Eq, E. by apply slice_empty.
    + simpl. rewrite <- Eq. constructor; lia.
Qed.

Lemma readline_found pre : forall room s e c rest str,
  phase mb s e (pre ++ c :: rest) -> Forall (fun x => is_eol minch x = false) pre ->
  is_eol minch c = true -> (length pre < room)%nat ->
  exists s', readline_loop room mb minch s e str = (true, s', str ++ pre ++ [c]) /\
    let mb' := set_tail mb (if s' =? mb_end mb then 0 else s') in
    mb_wf mb' /\ contents mb' = rest.
Proof.
  induction pre as [|x pre IH]; intros room s e c rest str P F Hc Hr;
    (destruct room as [|room]; [simpl in Hr; lia|]); cbn [readline_loop];
    apply phase_step in P as (Hlt & -> & C & W' & Hp); (destruct (Z.ltb_spec s e); [|lia]).
  - change ((c =? 10) || (c <? minch)) with (is_eol minch c). rewrite Hc. eauto.
  - apply Forall_cons in F as [Fx F]. change ((x =? 10) || (x <? minch)) with (is_eol minch x). rewrite Fx.
    destruct (IH room _ _ c rest (str ++ [x]) (Hp ltac:(by destruct pre)) F Hc ltac:(simpl in Hr; lia))
      as (s' & -> & R).
    exists s'. split; [|done]. by rewrite <- app_assoc.
Qed.

(** The bytes the loop may look at. *)
Definition quiet : Prop :=
  forall i, 0 <= i < mb_end mb ->
    (if mb_tail mb <=? mb_head mb then mb_tail mb <= i < mb_head mb
     else mb_tail mb <= i \/ i < mb_head mb) ->
    is_eol minch (mb_mem mb !!! Z.to_nat i) = false.

Lemma readline_none room : forall s e q str,
  phase mb s e q -> quiet -> fst (fst (readline_loop room mb minch s e str)) = false.
Proof.
  induction room as [|room IH]; intros s e q str P Q; [done|]. cbn [readline_loop].
  destruct (Z.ltb_spec s e); [|done].
  change ((?c =? 10) || (?c <? minch)) with (is_eol minch c). destruct W as [_ L Sz Hh Ht].
  rewrite (Q s); [|destruct P; lia|destruct P; case_Z; lia].
  destruct (Z.eqb_spec (s + 1) e) as [E|], (Z.ltb_spec (mb_head mb) (mb_tail mb)); simpl;
    destruct P; try lia;
    solve [eapply IH; [apply Flat; lia|done]|eapply IH; [apply Upper; lia|done]
          |eapply IH; [apply Lower; lia|done]].
Qed.

Lemma phase_start :
  phase mb (mb_tail mb) (if mb_tail mb <=? mb_head mb then mb_head mb else mb_end mb) (contents mb).
Proof. destruct W. unfold contents. case_Z; constructor; lia. Qed.

Lemma quiet_contents : Forall (fun c => is_eol minch c = false) (contents mb) -> quiet.
Proof.
  destruct W as [_ L Sz Hh Ht]. intros F i Hi Hr. rewrite Forall_forall in F. apply F.
  assert (forall lo hi, 0 <= lo <= i -> i < hi <= mb_end mb ->
            mb_mem mb !!! Z.to_nat i ∈ slice (mb_mem mb) lo hi) as S.
  { intros lo hi Hlo Hhi. rewrite (slice_split _ lo i), (slice_cons _ i) by lia.
    apply elem_of_app. right. left. }
  unfold contents. destruct (Z.leb_spec (mb_tail mb) (mb_head mb)); [apply S; lia|].
  apply elem_of_app. destruct Hr; [left|right]; apply S; lia.
Qed.
End Readline.

(** [membuf_readline] returns the first line: when the queue holds a line
    end (a newline or a character below [minch]) within the caller's space,
    it gives the caller the bytes before it as a terminated string, removes
    them with the line end and returns how many it removed; when no byte of
    the queue ends a line and the line must fit, it returns 0 and leaves the
    queue alone. *)
Theorem membuf_readline_line (mb : membuf) (maxlen minch : Z) :
  mb_wf mb ->
  (forall pre c rest must_fit,
     contents mb = pre ++ c :: rest -> Forall (fun x => is_eol minch x = false) pre ->
     is_eol minch c = true -> Z.of_nat (length pre) + 1 < maxlen ->
     exists mb', membuf_readline mb maxlen minch must_fit
                 = (Z.of_nat (length pre) + 1, pre ++ [0], mb') /\
       mb_wf mb' /\ contents mb' = rest) /\
  (Forall (fun x => is_eol minch x = false) (contents mb) ->
   exists str, membuf_readline mb maxlen minch true = (0, str, mb)).
Proof.
  intros W. split.
  - intros pre c rest must_fit E F Hc Hm. unfold membuf_readline.
    pose proof (phase_start mb W) as P. rewrite E in P.
    destruct (readline_found mb W minch pre (Z.to_nat (maxlen - 1)) _ _ c rest [] P F Hc ltac:(lia))
      as (s' & -> & W' & C). simpl.
    eexists; split; [|split; [exact W'|exact C]].
    rewrite removelast_last, length_app; simpl. repeat f_equal. lia.
  - intros F. unfold membuf_readline.
    pose proof (readline_none mb W minch (Z.to_nat (maxlen - 1)) _ _ _ [] (phase_start mb W)
                  (quiet_contents mb W minch F)) as N.
    destruct (readline_loop _ _ _ _ _ _) as [[ok s] str]. simpl in N. subst ok. simpl. eauto.
Qed.

Lemma membuf_readline_line_witness :
  exists mb', membuf_readline (Membuf (Some [99; 10; 100; 0; 0; 0; 97; 98]) 8 3 6) 10 32 true
              = (4, [97; 98; 99; 0], mb') /\ contents mb' = [100].
Proof.
  destruct (membuf_readline_line (Membuf (Some [99; 10; 100; 0; 0; 0; 97; 98]) 8 3 6) 10 32)
    as [H _]; [constructor; vm_compute; try done; eauto; intuition congruence|].
  destruct (H [97; 98; 99] 10 [100] true) as (mb' & E & _ & C);
    [reflexivity|repeat constructor|reflexivity|simpl; lia|].
  exists mb'. split; [exact E|exact C].
Defined.

(** When the data wraps around the end of the block, holds no line end and
    the line need not fit, [membuf_readline] reads the lower part again and
    again: from a queue of 4 bytes it returns 9. *)
Theorem membuf_readline_rereads :
  let mb := Membuf (Some [99; 100; 0; 0; 0; 0; 97; 98]) 8 2 6 in
  contents mb = [97; 98; 99; 100] /\
  fst (membuf_readline mb 10 32 false) = (9, [97; 98; 99; 100; 99; 100; 99; 100; 99; 0]).
Proof. split; reflexivity. Qed.
