(* ===== verification/Cstring.v ===== *)
(** Strings and memory blocks (lib/string.c): the model.

    A [char *] to read from is the list of bytes from the pointer to the end
    of its block; past the end a read gives 0, so a list with no NUL stands
    for a terminated string.  [char] is unsigned, as on ARM.  Functions that
    write work on a block of memory [m] with addresses as offsets; the block
    starts on a word boundary and a word has 8 bytes, little endian.  Result
    pointers are offsets, [None] being NULL.  [size_t] is 64 bits wide. *)

From S2P Require Import Prelude Bytes.

Definition rd (s : list Z) : Z := hd 0 s.

(** The string a pointer designates: the bytes before the first NUL. *)
Fixpoint cstr (s : list Z) : list Z :=
  match s with
  | [] => []
  | c :: s' => if c =? 0 then [] else c :: cstr s'
  end.

(** * Character classes (include/linux/ctype.h, lib/ctype.c) *)

Definition isupper (c : Z) : bool :=
  ((65 <=? c) && (c <=? 90)) || ((192 <=? c) && (c <=? 222) && negb (c =? 215)).
Definition islower (c : Z) : bool :=
  ((97 <=? c) && (c <=? 122)) || ((223 <=? c) && (c <=? 255) && negb (c =? 247)).
Definition isdigit (c : Z) : bool := (48 <=? c) && (c <=? 57).
Definition isxdigit (c : Z) : bool :=
  isdigit c || ((65 <=? c) && (c <=? 70)) || ((97 <=? c) && (c <=? 102)).
Definition isspace (c : Z) : bool := ((9 <=? c) && (c <=? 13)) || (c =? 32) || (c =? 160).
Definition isblank (c : Z) : bool := (c =? 32) || (c =? 9).
Definition tolower (c : Z) : Z := if isupper c then u8 (c + 32) else c.
Definition toupper (c : Z) : Z := if islower c then u8 (c - 32) else c.

(** * Lengths and searches *)

Fixpoint strlen (s : list Z) : Z :=
  match s with
  | [] => 0
  | c :: s' => if c =? 0 then 0 else strlen s' + 1
  end.

Fixpoint strnlen_nat (s : list Z) (count : nat) : Z :=
  match count, s with
  | S n, c :: s' => if c =? 0 then 0 else strnlen_nat s' n + 1
  | _, _ => 0
  end.
Definition strnlen (s : list Z) (count : Z) : Z := strnlen_nat s (Z.to_nat count).

Fixpoint strchr_at (s : list Z) (c off : Z) : option Z :=
  if rd s =? c then Some off
  else if rd s =? 0 then None
  else match s with [] => None | _ :: s' => strchr_at s' c (off + 1) end.
Definition strchr (s : list Z) (c : Z) : option Z := strchr_at s (u8 c) 0.

Fixpoint strchrnul_at (s : list Z) (c off : Z) : Z :=
  if rd s =? c then off
  else if rd s =? 0 then off
  else match s with [] => off | _ :: s' => strchrnul_at s' c (off + 1) end.
Definition strchrnul (s : list Z) (c : Z) : Z := strchrnul_at s (u8 c) 0.

(** [p] from the terminator down to the first byte. *)
Fixpoint strrchr_from (s : list Z) (c : Z) (p : nat) : option Z :=
  if nth p s 0 =? c then Some (Z.of_nat p)
  else match p with O => None | S p' => strrchr_from s c p' end.
Definition strrchr (s : list Z) (c : Z) : option Z :=
  strrchr_from s (u8 c) (Z.to_nat (strlen s)).

(** Whether [c] is one of the bytes of the string [set]. *)
Fixpoint in_set (c : Z) (set : list Z) : bool :=
  match set with
  | [] => false
  | r :: set' => if r =? 0 then false else if c =? r then true else in_set c set'
  end.

Fixpoint strcspn (s reject : list Z) : Z :=
  match s with
  | [] => 0
  | c :: s' => if c =? 0 then 0 else if in_set c reject then 0 else strcspn s' reject + 1
  end.

Fixpoint strspn (s accept : list Z) : Z :=
  match s with
  | [] => 0
  | c :: s' => if c =? 0 then 0 else if in_set c accept then strspn s' accept + 1 else 0
  end.

Fixpoint strpbrk_at (cs ct : list Z) (off : Z) : option Z :=
  match cs with
  | [] => None
  | c :: cs' => if c =? 0 then None
                else if in_set c ct then Some off else strpbrk_at cs' ct (off + 1)
  end.
Definition strpbrk (cs ct : list Z) : option Z := strpbrk_at cs ct 0.

(** * Comparisons *)

Fixpoint strcmp (cs ct : list Z) : Z :=
  let ret := rd cs - rd ct in
  if negb (ret =? 0) || (rd ct =? 0) then ret
  else match ct with [] => ret | _ :: ct' => strcmp (tl cs) ct' end.

Fixpoint strncmp_nat (cs ct : list Z) (count : nat) (ret : Z) : Z :=
  match count with
  | O => ret
  | S n =>
      let ret := rd cs - rd ct in
      if negb (ret =? 0) || (rd ct =? 0) then ret else strncmp_nat (tl cs) (tl ct) n ret
  end.
Definition strncmp (cs ct : list Z) (count : Z) : Z := strncmp_nat cs ct (Z.to_nat count) 0.

(** The do loop with [len] rounds left; the pair is [(c1, c2)] on exit. *)
Fixpoint strncasecmp_nat (s1 s2 : list Z) (len : nat) (c : Z * Z) : Z * Z :=
  match len with
  | O => c
  | S n =>
      let c1 := rd s1 in
      let c2 := rd s2 in
      if (c1 =? 0) || (c2 =? 0) then (c1, c2)
      else if c1 =? c2 then strncasecmp_nat (tl s1) (tl s2) n (c1, c2)
      else
        let c1 := tolower c1 in
        let c2 := tolower c2 in
        if negb (c1 =? c2) then (c1, c2) else strncasecmp_nat (tl s1) (tl s2) n (c1, c2)
  end.
Definition strncasecmp (s1 s2 : list Z) (len : Z) : Z :=
  let (c1, c2) := strncasecmp_nat s1 s2 (Z.to_nat len) (0, 0) in c1 - c2.
(** [strncasecmp(s1, s2, -1U)]: the strings end long before the limit; the
    limit is kept symbolic through the longer of the two. *)
Definition strcasecmp (s1 s2 : list Z) : Z :=
  strncasecmp s1 s2 (Z.min 4294967295 (Z.of_nat (S (length s1)))).

Fixpoint memcmp_nat (cs ct : list Z) (count : nat) (res : Z) : Z :=
  match count with
  | O => res
  | S n => let res := rd cs - rd ct in
           if negb (res =? 0) then res else memcmp_nat (tl cs) (tl ct) n res
  end.
Definition memcmp (cs ct : list Z) (count : Z) : Z := memcmp_nat cs ct (Z.to_nat count) 0.

(** [for (; l1 >= l2; --l1, ++s1)] on unsigned lengths: [l1] drops to [l2]
    and, when [l2] is 0, the first comparison already succeeds. *)
Fixpoint strnstr_from (rounds : nat) (s1 s2 : list Z) (l1 l2 off : Z) : option Z :=
  match rounds with
  | O => None
  | S n =>
      if l2 <=? l1 then
        if memcmp s1 s2 l2 =? 0 then Some off
        else strnstr_from n (tl s1) s2 (l1 - 1) l2 (off + 1)
      else None
  end.
Definition strnstr (s1 s2 : list Z) (len : Z) : option Z :=
  let l1 := strnlen s1 len in
  strnstr_from (S (Z.to_nat l1)) s1 s2 l1 (strlen s2) 0.
(** The limit SIZE_MAX is never reached within a block. *)
Definition strstr (s1 s2 : list Z) : option Z :=
  strnstr s1 s2 (Z.of_nat (length s1)).

(** * Memory blocks *)

Definition word : Z := 8.

(** [cl] after the eight rounds of [cl <<= 8; cl |= c & 0xff]. *)
Definition repeat_byte (c : Z) : Z :=
  Nat.iter 8 (fun cl => Z.lor (u64 (Z.shiftl cl 8)) (Z.land c 255)) 0.

(** The bytes of a word, lowest address first. *)
Fixpoint le_bytes (n : nat) (w : Z) : list Z :=
  match n with
  | O => []
  | S n' => Z.land w 255 :: le_bytes n' (Z.shiftr w 8)
  end.

Fixpoint memset_bytes (count : nat) (m : list Z) (s8 c : Z) : list Z :=
  match count with
  | O => m
  | S n => memset_bytes n (store m s8 [u8 c]) (s8 + 1) c
  end.

Fixpoint memset_words (fuel : nat) (m : list Z) (sl cl count : Z) : list Z * Z * Z :=
  match fuel with
  | O => (m, sl, count)
  | S n => if word <=? count
           then memset_words n (store m sl (le_bytes 8 cl)) (sl + word) cl (count - word)
           else (m, sl, count)
  end.

Definition memset (m : list Z) (s c count : Z) : list Z :=
  let '(m1, sl, count1) :=
    if Z.land s (word - 1) =? 0
    then memset_words (Z.to_nat count) m s (repeat_byte c) count
    else (m, s, count) in
  memset_bytes (Z.to_nat count1) m1 sl c.

Fixpoint memcpy_bytes (count : nat) (m : list Z) (d8 s8 : Z) : list Z :=
  match count with
  | O => m
  | S n => memcpy_bytes n (store m d8 (slice m s8 (s8 + 1))) (d8 + 1) (s8 + 1)
  end.

Fixpoint memcpy_words (fuel : nat) (m : list Z) (dl sl count : Z) : list Z * Z * Z * Z :=
  match fuel with
  | O => (m, dl, sl, count)
  | S n => if word <=? count
           then memcpy_words n (store m dl (slice m sl (sl + word))) (dl + word) (sl + word)
                             (count - word)
           else (m, dl, sl, count)
  end.

Definition memcpy (m : list Z) (dest src count : Z) : list Z :=
  if src =? dest then m
  else
    let '(m1, dl, sl, count1) :=
      if Z.land (Z.lor dest src) (word - 1) =? 0
      then memcpy_words (Z.to_nat count) m dest src count
      else (m, dest, src, count) in
    memcpy_bytes (Z.to_nat count1) m1 dl sl.

(** The copy from the last byte down to the first. *)
Fixpoint memmove_down (count : nat) (m : list Z) (tmp s : Z) : list Z :=
  match count with
  | O => m
  | S n => memmove_down n (store m (tmp - 1) (slice m (s - 1) s)) (tmp - 1) (s - 1)
  end.

Definition memmove (m : list Z) (dest src count : Z) : list Z :=
  if (dest <=? src) || (src + count <=? dest) then memcpy m dest src count
  else memmove_down (Z.to_nat count) m (dest + count) (src + count).

Fixpoint memscan_nat (s : list Z) (c : Z) (size : nat) (off : Z) : Z :=
  match size with
  | O => off
  | S n => if rd s =? c then off else memscan_nat (tl s) c n (off + 1)
  end.
Definition memscan (s : list Z) (c size : Z) : Z := memscan_nat s c (Z.to_nat size) 0.

Fixpoint memchr_nat (s : list Z) (c : Z) (n : nat) (off : Z) : option Z :=
  match n with
  | O => None
  | S n' => if c =? rd s then Some off else memchr_nat (tl s) c n' (off + 1)
  end.
Definition memchr (s : list Z) (c n : Z) : option Z := memchr_nat s (u8 c) (Z.to_nat n) 0.

Fixpoint check_bytes8 (m : list Z) (start value : Z) (bytes : nat) : option Z :=
  match bytes with
  | O => None
  | S n => if negb (m !!! Z.to_nat start =? value) then Some start
           else check_bytes8 m (start + 1) value n
  end.

(** A 64-bit load. *)
Definition load64 (m : list Z) (a : Z) : Z :=
  foldr (fun b w => b + 256 * w) 0 (slice m a (a + 8)).

Fixpoint check_words (words : nat) (m : list Z) (start value value64 bytes : Z) : option Z :=
  match words with
  | O => check_bytes8 m start value (Z.to_nat (bytes mod 8))
  | S n => if negb (load64 m start =? value64) then check_bytes8 m start value 8
           else check_words n m (start + 8) value value64 bytes
  end.

Definition memchr_inv (m : list Z) (start c bytes : Z) : option Z :=
  let value := u8 c in
  if bytes <=? 16 then check_bytes8 m start value (Z.to_nat bytes)
  else
    let v := value in
    let v := Z.lor v (u64 (Z.shiftl v 8)) in
    let v := Z.lor v (u64 (Z.shiftl v 16)) in
    let value64 := Z.lor v (u64 (Z.shiftl v 32)) in
    let prefix := start mod 8 in
    if negb (prefix =? 0) then
      let prefix := 8 - prefix in
      match check_bytes8 m start value (Z.to_nat prefix) with
      | Some r => Some r
      | None =>
          let bytes := bytes - prefix in
          check_words (Z.to_nat (u32 (bytes / 8))) m (start + prefix) value value64 bytes
      end
    else check_words (Z.to_nat (u32 (bytes / 8))) m start value value64 bytes.

(** * Copies of strings *)

(** Copy [src] with its terminator to [dest]. *)
Fixpoint strcpy (m : list Z) (dest : Z) (src : list Z) : list Z :=
  let m := store m dest [rd src] in
  match src with
  | [] => m
  | c :: src' => if c =? 0 then m else strcpy m (dest + 1) src'
  end.

Fixpoint strncpy_nat (m : list Z) (dest : Z) (src : list Z) (count : nat) : list Z :=
  match count with
  | O => m
  | S n =>
      let m := store m dest [rd src] in
      if rd src =? 0 then m else strncpy_nat m (dest + 1) (tl src) n
  end.
Definition strncpy (m : list Z) (dest : Z) (src : list Z) (count : Z) : list Z :=
  strncpy_nat m dest src (Z.to_nat count).

(** The source is another block, so memcpy reads it unchanged. *)
Definition strlcpy (m : list Z) (dest : Z) (src : list Z) (size : Z) : Z * list Z :=
  let ret := strlen src in
  if negb (size =? 0) then
    let len := if size <=? ret then size - 1 else ret in
    (ret, store (store m dest (slice src 0 len)) (dest + len) [0])
  else (ret, m).

(** The bytes from address [a] on. *)
Definition at_addr (m : list Z) (a : Z) : list Z := drop (Z.to_nat a) m.

Definition strcat (m : list Z) (dest : Z) (src : list Z) : list Z :=
  strcpy m (dest + strlen (at_addr m dest)) src.

(** The copying loop: stop after the terminator, or write one when the count
    reaches 0. *)
Fixpoint strncat_nat (m : list Z) (dest : Z) (src : list Z) (count : nat) : list Z :=
  match count with
  | O => m
  | S n =>
      let m := store m dest [rd src] in
      if rd src =? 0 then m
      else match n with
           | O => store m (dest + 1) [0]
           | S _ => strncat_nat m (dest + 1) (tl src) n
           end
  end.
Definition strncat (m : list Z) (dest : Z) (src : list Z) (count : Z) : list Z :=
  if count =? 0 then m
  else strncat_nat m (dest + strlen (at_addr m dest)) src (Z.to_nat count).

Definition strlcat (m : list Z) (dest : Z) (src : list Z) (size : Z) : Z * list Z :=
  let len := strnlen (at_addr m dest) size in
  let (r, m') := strlcpy m (dest + len) src (size - len) in
  (len + r, m').

(** The block malloc returned, with the string copied into it; [None]: NULL. *)
Definition strdup (mem_ok : bool) (s : option (list Z)) : option (list Z) :=
  match s with
  | None => None
  | Some s =>
      if mem_ok then Some (strcpy (replicate (Z.to_nat (strlen s + 1)) 0) 0 s) else None
  end.

Definition strndup (mem_ok : bool) (s : option (list Z)) (n : Z) : option (list Z) :=
  match s with
  | None => None
  | Some s =>
      let len := strlen s in
      let len := if n <? len then n else len in
      if mem_ok
      then Some (store (strncpy (replicate (Z.to_nat (len + 1)) 0) 0 s len) len [0])
      else None
  end.

(** * Tokens *)

(** [strtok]: [saved] is the static pointer, [None] when NULL; a pointer is an
    address of [m].  Result, new [saved] and memory. *)
Definition strtok (m : list Z) (saved : option Z) (s : option Z) (ct : list Z)
  : option Z * option Z * list Z :=
  match (match s with Some p => Some p | None => saved end) with
  | None => (None, saved, m)
  | Some sbegin =>
      let sbegin := sbegin + strspn (at_addr m sbegin) ct in
      if rd (at_addr m sbegin) =? 0 then (None, None, m)
      else
        match strpbrk (at_addr m sbegin) ct with
        | Some o => (Some sbegin, Some (sbegin + o + 1), store m (sbegin + o) [0])
        | None => (Some sbegin, None, m)
        end
  end.

Definition strsep (m : list Z) (s : option Z) (ct : list Z) : option Z * option Z * list Z :=
  match s with
  | None => (None, None, m)
  | Some sbegin =>
      match strpbrk (at_addr m sbegin) ct with
      | Some o => (Some sbegin, Some (sbegin + o + 1), store m (sbegin + o) [0])
      | None => (Some sbegin, None, m)
      end
  end.

(** Swap the bytes of each pair; [None]: NULL is returned. *)
Fixpoint swab_pairs (s : list Z) : list Z :=
  match s with
  | p :: q :: s' => if (p =? 0) || (q =? 0) then s else q :: p :: swab_pairs s'
  | _ => s
  end.
Definition strswab (s : list Z) : option (list Z) :=
  if rd s =? 0 then None else Some (swab_pairs s).
