(* ===== verification/CstringProps.v ===== *)
(** Strings and memory blocks: what lib/string.c guarantees.  strcmp is an
    order on strings, the word-at-a-time block operations agree with their
    byte-wise meaning even when source and destination overlap, and the
    bounded copies stay in bounds and terminate. *)

From S2P Require Import Prelude Bytes Cstring.

(** * Comparison *)

Section Strcmp.
Implicit Types (a b c s : list Z).

Lemma strcmp_unfold a b :
  strcmp a b = if negb (rd a - rd b =? 0) || (rd b =? 0) then rd a - rd b else strcmp (tl a) (tl b).
Proof. destruct b as [|y b]; simpl; [|done]. rewrite orb_true_r. done. Qed.

(** Induction along two strings: stop at the first difference or the end. *)
Lemma strcmp_ind (P : list Z -> list Z -> Prop) :
  (forall a b, rd a <> rd b -> P a b) ->
  (forall a b, rd a = 0 -> rd b = 0 -> P a b) ->
  (forall x a b, x <> 0 -> P a b -> P (x :: a) (x :: b)) ->
  forall a b, P a b.
Proof.
  intros Hd Hz Hs a. induction a as [|x a IH]; intros b.
  - destruct (Z.eq_dec (rd b) 0); [apply Hz|apply Hd; simpl]; auto.
  - destruct (Z.eq_dec x (rd b)) as [E|]; [|by apply Hd].
    destruct (Z.eq_dec x 0); [apply Hz; simpl; congruence|].
    destruct b as [|y b]; [done|]. simpl in E. subst y. apply Hs; auto.
Qed.

Lemma cstr_end s : rd s = 0 -> cstr s = [].
Proof. destruct s as [|c s]; simpl; [done|]. by intros ->. Qed.
Lemma cstr_step (x : Z) s : x <> 0 -> cstr (x :: s) = x :: cstr s.
Proof. intros. simpl. by destruct (Z.eqb_spec x 0). Qed.

Lemma cstr_plain (w : list Z) : Forall (fun c : Z => c <> 0) w -> cstr w = w.
Proof. induction 1 as [|c l Hc P IH]; [done|]. rewrite cstr_step by done. by f_equal. Qed.

Lemma strcmp_diff a b : rd a <> rd b -> strcmp a b = rd a - rd b.
Proof. intros. rewrite strcmp_unfold. destruct (Z.eqb_spec (rd a - rd b) 0); [lia|done]. Qed.
Lemma strcmp_end a b : rd a = 0 -> rd b = 0 -> strcmp a b = 0.
Proof. intros Ea Eb. rewrite strcmp_unfold, Ea, Eb. done. Qed.
Lemma strcmp_step x a b : x <> 0 -> strcmp (x :: a) (x :: b) = strcmp a b.
Proof.
  intros. rewrite strcmp_unfold. simpl rd. rewrite Z.sub_diag. simpl.
  by destruct (Z.eqb_spec x 0).
Qed.

Lemma strcmp_eq a b : strcmp a b = 0 <-> cstr a = cstr b.
Proof.
  pattern a, b. apply strcmp_ind; clear a b; [intros a b N|intros a b Ea Eb|intros x a b Hx IH].
  - rewrite strcmp_diff by done. split; [lia|]. intros E. exfalso.
    destruct a as [|x a], b as [|y b]; simpl in *; try done;
      repeat case_Z; simplify_eq; try done.
  - rewrite strcmp_end by done. rewrite !cstr_end by done. done.
  - rewrite strcmp_step, !cstr_step by done. rewrite IH. split; [congruence|]. by intros [= ->].
Qed.

Lemma strcmp_sym a b : strcmp b a = - strcmp a b.
Proof.
  pattern a, b. apply strcmp_ind; clear a b; [intros a b N|intros a b Ea Eb|intros x a b Hx IH].
  - rewrite !strcmp_diff by congruence. lia.
  - rewrite !strcmp_end by done. done.
  - rewrite !strcmp_step by done. done.
Qed.

Lemma strcmp_trans a b c : strcmp a b <= 0 -> strcmp b c <= 0 -> strcmp a c <= 0.
Proof.
  revert c. pattern a, b. apply strcmp_ind; clear a b; [intros a b N c|intros a b Ea Eb c|intros x a b Hx IH c].
  - rewrite strcmp_diff by done. intros H1 H2.
    destruct (Z.eq_dec (rd b) (rd c)) as [E|N'].
    + rewrite strcmp_diff by congruence. lia.
    + rewrite strcmp_diff in H2 by done. rewrite strcmp_diff by lia. lia.
  - intros _ H2. destruct (Z.eq_dec (rd c) 0).
    + rewrite strcmp_end by done. lia.
    + rewrite strcmp_diff in * by congruence. lia.
  - rewrite strcmp_step by done. intros H1 H2.
    destruct (Z.eq_dec x (rd c)) as [E|N'].
    + destruct c as [|y c]; [done|]. simpl in E. subst y.
      rewrite strcmp_step in * by done. auto.
    + rewrite strcmp_diff in * by done. done.
Qed.
End Strcmp.

(** Strcmp orders strings: it gives 0 exactly on equal strings, swapping
    its arguments flips its sign and it is transitive. *)
Theorem strcmp_orders (a b c : list Z) :
  (strcmp a b = 0 <-> cstr a = cstr b) /\
  strcmp b a = - strcmp a b /\
  (strcmp a b <= 0 /\ strcmp b c <= 0 -> strcmp a c <= 0).
Proof.
  split; [apply strcmp_eq|]. split; [apply strcmp_sym|].
  intros [H1 H2]. eapply strcmp_trans; eauto.
Qed.

(** * Block copies *)

Section Copies.
Implicit Types (m : list Z).

Lemma store_nil m off : 0 <= off -> store m off [] = m.
Proof. intros. unfold store. simpl. rewrite Nat.add_0_r. apply take_drop. Qed.

(** Two neighbouring writes are one. *)
Lemma store_store_app m off bs cs :
  0 <= off -> off + Z.of_nat (length bs) + Z.of_nat (length cs) <= Z.of_nat (length m) ->
  store (store m off bs) (off + Z.of_nat (length bs)) cs = store m off (bs ++ cs).
Proof.
  intros. apply list_eq. intros i. rewrite !store_lookup by (rewrite ?store_length, ?length_app by lia; lia).
  rewrite lookup_app_if, length_app. repeat (case_decide; try lia); try done. f_equal; lia.
Qed.

(** Writes to disjoint areas commute. *)
Lemma store_comm m off bs off2 cs :
  0 <= off -> 0 <= off2 -> off + Z.of_nat (length bs) <= Z.of_nat (length m) ->
  off2 + Z.of_nat (length cs) <= Z.of_nat (length m) ->
  off + Z.of_nat (length bs) <= off2 \/ off2 + Z.of_nat (length cs) <= off ->
  store (store m off2 cs) off bs = store (store m off bs) off2 cs.
Proof.
  intros. apply list_eq. intros i. rewrite !store_lookup by (rewrite ?store_length by lia; lia).
  repeat (case_decide; try lia); done.
Qed.

(** A forward copy loop that has moved [k] bytes reads unspoilt source. *)
Lemma slice_store_before m d bs lo hi :
  0 <= d -> d + Z.of_nat (length bs) <= Z.of_nat (length m) -> 0 <= lo ->
  d + Z.of_nat (length bs) <= lo \/ hi <= d ->
  slice (store m d bs) lo hi = slice m lo hi.
Proof. intros. apply slice_store_other; auto. tauto. Qed.

(** One forward step of [k] bytes followed by a copy of the rest. *)
Lemma forward_step m d s (k n : Z) :
  0 <= d -> 0 <= s -> 0 <= k -> 0 <= n -> d + k + n <= Z.of_nat (length m) ->
  s + k + n <= Z.of_nat (length m) -> d <= s \/ s + k + n <= d ->
  let m1 := store m d (slice m s (s + k)) in
  store m1 (d + k) (slice m1 (s + k) (s + k + n)) = store m d (slice m s (s + k + n)).
Proof.
  intros Hd Hs Hk Hn H1 H2 H3. simpl.
  assert (Z.of_nat (length (slice m s (s + k))) = k) as L by (rewrite slice_length; lia).
  rewrite slice_store_before by lia. rewrite <- L at 2.
  rewrite store_store_app by (rewrite ?L, ?slice_length by lia; lia). f_equal.
  rewrite <- slice_split by lia. done.
Qed.

Lemma memcpy_bytes_ok n : forall m d s,
  0 <= d -> 0 <= s -> d + Z.of_nat n <= Z.of_nat (length m) -> s + Z.of_nat n <= Z.of_nat (length m) ->
  d <= s \/ s + Z.of_nat n <= d ->
  memcpy_bytes n m d s = store m d (slice m s (s + Z.of_nat n)).
Proof.
  induction n as [|n IH]; intros m d s Hd Hs H1 H2 H3.
  - simpl. rewrite slice_empty by lia. by rewrite store_nil.
  - cbn [memcpy_bytes].
    assert (Z.of_nat (length (slice m s (s + 1))) = 1) as L by (rewrite slice_length; lia).
    rewrite IH; rewrite ?store_length by lia; try lia.
    pose proof (forward_step m d s 1 (Z.of_nat n)) as F. simpl in F.
    replace (s + Z.of_nat (S n)) with (s + 1 + Z.of_nat n) by lia. apply F; lia.
Qed.

Lemma memcpy_words_ok fuel : forall m d s count,
  0 <= d -> 0 <= s -> 0 <= count <= Z.of_nat fuel ->
  d + count <= Z.of_nat (length m) -> s + count <= Z.of_nat (length m) ->
  d <= s \/ s + count <= d ->
  let '(m1, dl, sl, c1) := memcpy_words fuel m d s count in
  exists k, 0 <= k /\ 0 <= c1 /\ k + c1 = count /\ dl = d + k /\ sl = s + k /\
    m1 = store m d (slice m s (s + k)) /\ length m1 = length m.
Proof.
  induction fuel as [|fuel IH]; intros m d s count Hd Hs Hc H1 H2 H3; cbn [memcpy_words];
    assert (store m d (slice m s (s + 0)) = m) as Z0
      by (rewrite slice_empty by lia; by apply store_nil).
  - exists 0. rewrite Z0. repeat split; lia.
  - destruct (Z.leb_spec word count) as [Hw|]; [|exists 0; rewrite Z0; repeat split; lia].
    unfold word in *.
    assert (Z.of_nat (length (slice m s (s + 8))) = 8) as L by (rewrite slice_length; lia).
    set (m' := store m d (slice m s (s + 8))).
    assert (length m' = length m) as Lm by (apply store_length; lia).
    specialize (IH m' (d + 8) (s + 8) (count - 8)).
    destruct (memcpy_words fuel m' (d + 8) (s + 8) (count - 8)) as [[[m1 dl] sl] c1].
    destruct IH as (k & Hk & Hc1 & Ek & Ed & Es & Em & El); try lia.
    exists (k + 8). rewrite Em, (Z.add_comm k 8), Z.add_assoc.
    pose proof (forward_step m d s 8 k) as F. simpl in F. fold m' in F.
    rewrite F by lia. do 5 (split; [lia|]). split; [by rewrite Z.add_assoc|].
    apply store_length; [lia|]. rewrite slice_length; lia.
Qed.

(** Source above the destination, or disjoint blocks. *)
Lemma memcpy_ok m d s count :
  0 <= d -> 0 <= s -> 0 <= count -> d + count <= Z.of_nat (length m) ->
  s + count <= Z.of_nat (length m) -> d <= s \/ s + count <= d ->
  memcpy m d s count = store m d (slice m s (s + count)).
Proof.
  intros Hd Hs Hc H1 H2 H3. unfold memcpy. destruct (Z.eqb_spec s d) as [->|N].
  { slice_ext. }
  destruct (Z.eqb_spec (Z.land (Z.lor d s) (word - 1)) 0) as [_|_].
  - pose proof (memcpy_words_ok (Z.to_nat count) m d s count) as Wd.
    destruct (memcpy_words _ m d s count) as [[[m1 dl] sl] c1].
    destruct Wd as (k & Hk & Hc1 & Ek & -> & -> & Em & El); try lia.
    rewrite memcpy_bytes_ok by lia. rewrite Z2Nat.id by lia. subst m1.
    pose proof (forward_step m d s k c1) as F. simpl in F.
    rewrite F by lia. do 2 f_equal; lia.
  - rewrite memcpy_bytes_ok by lia. by rewrite Z2Nat.id by lia.
Qed.

Lemma memmove_down_ok n : forall m d s,
  0 <= s < d -> d + Z.of_nat n <= Z.of_nat (length m) ->
  memmove_down n m (d + Z.of_nat n) (s + Z.of_nat n) = store m d (slice m s (s + Z.of_nat n)).
Proof.
  induction n as [|n IH]; intros m d s Hd H1.
  - simpl. rewrite slice_empty by lia. by rewrite store_nil by lia.
  - cbn [memmove_down].
    replace (d + Z.of_nat (S n) - 1) with (d + Z.of_nat n) by lia.
    replace (s + Z.of_nat (S n) - 1) with (s + Z.of_nat n) by lia.
    set (last := slice m (s + Z.of_nat n) (s + Z.of_nat (S n))).
    assert (Z.of_nat (length last) = 1) as L by (subst last; rewrite slice_length; lia).
    rewrite IH by (rewrite ?store_length by lia; lia).
    rewrite slice_store_other by lia.
    rewrite (slice_split m s (s + Z.of_nat n) (s + Z.of_nat (S n))) by lia. fold last.
    assert (Z.of_nat (length (slice m s (s + Z.of_nat n))) = Z.of_nat n) as L2
      by (rewrite slice_length; lia).
    rewrite <- L2 at 1. clear - Hd H1 L L2. set (bs := slice m s (s + Z.of_nat n)) in *.
    rewrite <- store_store_app by lia. rewrite L2.
    apply store_comm; lia.
Qed.

Lemma memset_bytes_ok n : forall m s c,
  0 <= s -> s + Z.of_nat n <= Z.of_nat (length m) ->
  memset_bytes n m s c = store m s (replicate n (u8 c)).
Proof.
  induction n as [|n IH]; intros m s c Hs H; [by rewrite store_nil|].
  cbn [memset_bytes]. rewrite IH by (rewrite ?store_length; simpl; lia).
  rewrite (store_store_app m s [u8 c]) by (simpl; rewrite ?length_replicate; lia). done.
Qed.

Lemma repeat_byte_bytes c : le_bytes 8 (repeat_byte c) = replicate 8 (u8 c).
Proof.
  assert (Z.land c 255 = u8 c) as E by (change 255 with (Z.ones 8); by rewrite Z.land_ones by lia).
  unfold repeat_byte. rewrite E. assert (0 <= u8 c < 256) as B by (unfold u8; zlia).
  remember (u8 c) as b eqn:Eb. clear Eb E c.
  assert (forallb (fun x => bool_decide (le_bytes 8 (Nat.iter 8 (fun cl => Z.lor (u64 (Z.shiftl cl 8)) x) 0)
            = replicate 8 x)) (map Z.of_nat (seq 0 256)) = true) as F by (vm_compute; reflexivity).
  rewrite forallb_forall in F. eapply bool_decide_eq_true_1, F, in_map_iff.
  exists (Z.to_nat b). split; [lia|apply in_seq; lia].
Qed.

Lemma memset_words_ok fuel : forall m s c count,
  0 <= s -> 0 <= count -> s + count <= Z.of_nat (length m) ->
  let '(m1, sl, c1) := memset_words fuel m s (repeat_byte c) count in
  exists k : nat, 0 <= c1 /\ Z.of_nat k + c1 = count /\ sl = s + Z.of_nat k /\
    m1 = store m s (replicate k (u8 c)) /\ length m1 = length m.
Proof.
  induction fuel as [|fuel IH]; intros m s c count Hs Hc H; cbn [memset_words].
  - exists 0%nat. rewrite store_nil by lia. repeat split; lia.
  - unfold word. destruct (Z.leb_spec 8 count); [|exists 0%nat; rewrite store_nil by lia; repeat split; lia].
    rewrite repeat_byte_bytes. set (m' := store m s (replicate 8 (u8 c))).
    assert (length m' = length m) as L by (apply store_length; simpl; lia).
    specialize (IH m' (s + 8) c (count - 8)).
    destruct (memset_words fuel m' (s + 8) (repeat_byte c) (count - 8)) as [[m1 sl] c1].
    destruct IH as (k & Hc1 & Ek & Es & Em & El); try lia.
    exists (8 + k)%nat. do 3 (split; [lia|]). split; [|lia].
    rewrite Em. subst m'. rewrite replicate_add.
    rewrite (store_store_app m s (replicate 8 (u8 c))) by (simpl; rewrite ?length_replicate; lia). done.
Qed.
End Copies.

Lemma memmove_ok (m : list Z) (dest src count : Z) :
  0 <= dest -> 0 <= src -> 0 <= count ->
  dest + count <= Z.of_nat (length m) -> src + count <= Z.of_nat (length m) ->
  memmove m dest src count = store m dest (slice m src (src + count)).
Proof.
  intros Hd Hs Hc H1 H2. unfold memmove.
  destruct (Z.leb_spec dest src); simpl; [apply memcpy_ok; lia|].
  destruct (Z.leb_spec (src + count) dest); [apply memcpy_ok; lia|].
  pose proof (memmove_down_ok (Z.to_nat count) m dest src) as D.
  rewrite Z2Nat.id in D by lia. apply D; lia.
Qed.

(** Memmove moves: whatever the alignment and however the two areas
    overlap, it leaves at the destination the bytes the source held before
    and every other byte as it was. *)
Theorem memmove_moves (m : list Z) (dest src count : Z) :
  0 <= dest -> 0 <= src -> 0 <= count ->
  dest + count <= Z.of_nat (length m) -> src + count <= Z.of_nat (length m) ->
  memmove m dest src count = store m dest (slice m src (src + count)).
Proof. apply memmove_ok. Qed.

Lemma memmove_moves_witness :
  memmove [1; 2; 3; 4; 5; 6; 7; 8; 9; 10] 2 0 6
  = store [1; 2; 3; 4; 5; 6; 7; 8; 9; 10] 2 (slice [1; 2; 3; 4; 5; 6; 7; 8; 9; 10] 0 (0 + 6)).
Proof. apply memmove_moves; simpl; lia. Defined.

Lemma memset_ok (m : list Z) (s c count : Z) :
  0 <= s -> 0 <= count -> s + count <= Z.of_nat (length m) ->
  memset m s c count = store m s (replicate (Z.to_nat count) (u8 c)).
Proof.
  intros Hs Hc H. unfold memset. destruct (Z.land s (word - 1) =? 0).
  - pose proof (memset_words_ok (Z.to_nat count) m s c count Hs Hc H) as Wd.
    destruct (memset_words _ _ _ _ _) as [[m1 sl] c1].
    destruct Wd as (k & Hc1 & Ek & -> & Em & El). rewrite memset_bytes_ok by lia. subst m1.
    replace (Z.to_nat count) with (k + Z.to_nat c1)%nat by lia. rewrite replicate_add.
    rewrite <- store_store_app by (rewrite ?length_replicate; lia). by rewrite length_replicate.
  - apply memset_bytes_ok; lia.
Qed.

(** Memset fills: the word-at-a-time loop and the byte loop together write
    the byte [c] (taken modulo 256) to every one of the [count] bytes and to
    no other. *)
Theorem memset_fills (m : list Z) (s c count : Z) :
  0 <= s -> 0 <= count -> s + count <= Z.of_nat (length m) ->
  memset m s c count = store m s (replicate (Z.to_nat count) (u8 c)).
Proof. apply memset_ok. Qed.

Lemma memset_fills_witness :
  memset (replicate 20 7) 8 (-1) 11 = store (replicate 20 7) 8 (replicate 11 255).
Proof. apply (memset_fills (replicate 20 7) 8 (-1) 11); simpl; lia. Defined.

(** * Searching blocks *)

Section Inv.
Context (m : list Z).
Hypothesis Hm : Forall (fun b => 0 <= b < 256) m.

Lemma check_bytes8_app (i j : nat) : forall s v,
  check_bytes8 m s v (i + j) =
  match check_bytes8 m s v i with
  | Some r => Some r
  | None => check_bytes8 m (s + Z.of_nat i) v j
  end.
Proof.
  induction i as [|i IH]; intros s v; [by rewrite Z.add_0_r|].
  cbn [Nat.add check_bytes8]. destruct (_ =? v); simpl; [|done].
  rewrite IH. by replace (s + Z.of_nat (S i)) with (s + 1 + Z.of_nat i) by lia.
Qed.

Lemma check_bytes8_none (n : nat) : forall s v,
  0 <= s -> s + Z.of_nat n <= Z.of_nat (length m) ->
  check_bytes8 m s v n = None <-> slice m s (s + Z.of_nat n) = replicate n v.
Proof.
  induction n as [|n IH]; intros s v Hs H.
  - rewrite slice_empty by lia. done.
  - cbn [check_bytes8]. rewrite slice_cons by lia.
    destruct (Z.eqb_spec (m !!! Z.to_nat s) v) as [->|N]; simpl negb; cbn iota.
    + rewrite IH by lia. replace (s + 1 + Z.of_nat n) with (s + Z.of_nat (S n)) by lia.
      cbn [replicate]. split; [by intros ->|by intros [= ->]].
    + split; [done|]. by intros [= ? _].
Qed.

Definition word_of (l : list Z) : Z := foldr (fun b w => b + 256 * w) 0 l.

Lemma word_of_inj l : forall k,
  length l = length k -> Forall (fun b => 0 <= b < 256) l -> Forall (fun b => 0 <= b < 256) k ->
  word_of l = word_of k <-> l = k.
Proof.
  induction l as [|b l IH]; intros [|c k] L Fl Fk; try done. simpl.
  apply Forall_cons in Fl as [Hb Fl]. apply Forall_cons in Fk as [Hc Fk]. split; [|by intros [= -> ->]].
  intros E. assert (b = c /\ word_of l = word_of k) as [-> E'] by lia.
  f_equal. apply IH; auto.
Qed.

Definition spread (v : Z) : Z :=
  let v := Z.lor v (u64 (Z.shiftl v 8)) in
  let v := Z.lor v (u64 (Z.shiftl v 16)) in Z.lor v (u64 (Z.shiftl v 32)).

Lemma spread_word v : 0 <= v < 256 -> spread v = word_of (replicate 8 v).
Proof.
  intros B.
  assert (forallb (fun x => spread x =? word_of (replicate 8 x)) (map Z.of_nat (seq 0 256)) = true) as F
    by (vm_compute; reflexivity).
  rewrite forallb_forall in F. apply Z.eqb_eq, F, in_map_iff.
  exists (Z.to_nat v). split; [lia|apply in_seq; lia].
Qed.

Lemma load64_spread s v :
  0 <= s -> s + 8 <= Z.of_nat (length m) -> 0 <= v < 256 ->
  load64 m s = spread v <-> slice m s (s + 8) = replicate 8 v.
Proof.
  intros Hs H Hv. rewrite spread_word by done. apply word_of_inj.
  - rewrite slice_length_tot, length_replicate. lia.
  - unfold slice. by apply Forall_take, Forall_drop.
  - by apply Forall_replicate.
Qed.

Lemma check_words_ok (n : nat) : forall s v bytes,
  0 <= s -> 0 <= v < 256 -> 0 <= bytes ->
  s + 8 * Z.of_nat n + bytes mod 8 <= Z.of_nat (length m) ->
  check_words n m s v (spread v) bytes
  = check_bytes8 m s v (8 * n + Z.to_nat (bytes mod 8)).
Proof.
  induction n as [|n IH]; intros s v bytes Hs Hv Hb H; [done|]. cbn [check_words].
  replace (8 * S n + Z.to_nat (bytes mod 8))%nat with (8 + (8 * n + Z.to_nat (bytes mod 8)))%nat by lia.
  rewrite (check_bytes8_app 8). change (Z.of_nat 8) with 8.
  assert (0 <= bytes mod 8) by (apply Z.mod_pos_bound; lia).
  pose proof (check_bytes8_none 8 s v Hs ltac:(lia)) as N. change (Z.of_nat 8) with 8 in N.
  destruct (Z.eqb_spec (load64 m s) (spread v)) as [E|E]; cbn [negb];
    rewrite load64_spread in E by lia; rewrite <- N in E.
  - rewrite E. apply IH; lia.
  - by destruct (check_bytes8 m s v 8).
Qed.
End Inv.

(** Memchr_inv, which skips equal bytes a word at a time after aligning,
    gives the same answer as scanning byte by byte: the first byte that
    differs from [c], or NULL. *)
Theorem memchr_inv_bytewise (m : list Z) (start c bytes : Z) :
  Forall (fun b => 0 <= b < 256) m -> 0 <= start -> 0 <= bytes < 2 ^ 35 ->
  start + bytes <= Z.of_nat (length m) ->
  memchr_inv m start c bytes = check_bytes8 m start (u8 c) (Z.to_nat bytes).
Proof.
  intros Hm Hs Hb H. unfold memchr_inv. destruct (Z.leb_spec bytes 16); [done|].
  assert (0 <= u8 c < 256) as Hv by (unfold u8; zlia).
  fold (spread (u8 c)).
  assert (forall s b, 0 <= s -> 0 <= b < 2 ^ 35 -> s + b <= Z.of_nat (length m) ->
            check_words (Z.to_nat (u32 (b / 8))) m s (u8 c) (spread (u8 c)) b
            = check_bytes8 m s (u8 c) (Z.to_nat b)) as CW.
  { intros s b Hs' Hb' H'. assert (0 <= b / 8 < 4294967296) by zlia.
    rewrite u32_small by lia. rewrite (check_words_ok m Hm) by (try lia; zlia).
    f_equal. zlia. }
  assert (0 <= start mod 8 < 8) by (apply Z.mod_pos_bound; lia).
  destruct (Z.eqb_spec (start mod 8) 0); simpl; [apply CW; lia|].
  rewrite CW by lia.
  replace (Z.to_nat bytes) with (Z.to_nat (8 - start mod 8) + Z.to_nat (bytes - (8 - start mod 8)))%nat by lia.
  rewrite check_bytes8_app. by rewrite Z2Nat.id by lia.
Qed.

Lemma memchr_inv_bytewise_witness :
  memchr_inv (replicate 30 255 ++ [254; 255]) 3 255 29
  = check_bytes8 (replicate 30 255 ++ [254; 255]) 3 255 29.
Proof.
  apply (memchr_inv_bytewise (replicate 30 255 ++ [254; 255]) 3 255 29); try (simpl; lia).
  apply Forall_app; split; [apply Forall_replicate; lia|repeat constructor; lia].
Defined.

(** * Strings in buffers *)

Section Strings.
Implicit Types (s : list Z).

Lemma strlen_cstr s : strlen s = Z.of_nat (length (cstr s)).
Proof. induction s as [|c s IH]; simpl; [done|]. destruct (c =? 0); simpl; lia. Qed.

Lemma cstr_prefix s : cstr s = take (length (cstr s)) s.
Proof. induction s as [|c s IH]; simpl; [done|]. destruct (c =? 0); simpl; [done|]. by f_equal. Qed.

Lemma cstr_length s : (length (cstr s) <= length s)%nat.
Proof. rewrite cstr_prefix, length_take. lia. Qed.

Lemma cstr_nonzero s : Forall (fun c => c <> 0) (cstr s).
Proof.
  induction s as [|c s IH]; simpl; [constructor|]. destruct (Z.eqb_spec c 0); constructor; auto.
Qed.

(** A terminated run of non-zero bytes is the string. *)
Lemma cstr_app_end l s : Forall (fun c => c <> 0) l -> cstr (l ++ 0 :: s) = l.
Proof.
  induction 1 as [|c l Hc F IH]; simpl; [done|]. destruct (Z.eqb_spec c 0); [done|]. by f_equal.
Qed.

Lemma take_cstr (n : nat) s : (n <= length (cstr s))%nat -> take n s = take n (cstr s).
Proof. intros. rewrite (cstr_prefix s), take_take. f_equal. lia. Qed.

Lemma memcmp_nat_eq (n : nat) : forall a b : list Z,
  (n <= length a)%nat -> (n <= length b)%nat ->
  memcmp_nat a b n 0 = 0 <-> take n a = take n b.
Proof.
  induction n as [|n IH]; intros [|x a] [|y b] Ha Hb; simpl in *; try lia; try done.
  destruct (Z.eqb_spec (x - y) 0) as [E|]; simpl.
  - rewrite E, IH by lia. assert (x = y) as -> by lia. split; [congruence|by intros [= ->]].
  - split; [lia|]. intros [= -> ?]. lia.
Qed.

Lemma prefix_take (k l : list Z) : k `prefix_of` l <-> take (length k) l = k.
Proof.
  split.
  - intros [r ->]. by rewrite take_app_length.
  - intros E. exists (drop (length k) l). by rewrite <- E at 1; rewrite take_drop.
Qed.

Lemma strnstr_from_ok (needle : list Z) (rounds : nat) : forall s (off : Z),
  rounds = S (length (cstr s)) ->
  match strnstr_from rounds s needle (strlen s) (strlen needle) off with
  | Some o => exists i : nat, o = off + Z.of_nat i /\ cstr needle `prefix_of` drop i (cstr s) /\
                forall j : nat, (j < i)%nat -> ~ cstr needle `prefix_of` drop j (cstr s)
  | None => forall j : nat, ~ cstr needle `prefix_of` drop j (cstr s)
  end.
Proof.
  induction rounds as [|rounds IH]; intros s off Hr; [done|]. cbn [strnstr_from].
  pose proof (cstr_length s) as Ls. pose proof (cstr_length needle) as Ln.
  rewrite !strlen_cstr. unfold memcmp. rewrite Nat2Z.id.
  destruct (Z.leb_spec (Z.of_nat (length (cstr needle))) (Z.of_nat (length (cstr s)))) as [Hle|Hlt].
  2:{ intros j P. apply prefix_length in P. rewrite length_drop in P. lia. }
  pose proof (memcmp_nat_eq (length (cstr needle)) s needle ltac:(lia) ltac:(lia)) as M.
  rewrite (take_cstr _ s) in M by lia. rewrite <- (cstr_prefix needle), <- prefix_take in M.
  destruct (Z.eqb_spec (memcmp_nat s needle (length (cstr needle)) 0) 0) as [E|E].
  { exists 0%nat. rewrite drop_0. split; [lia|]. split; [by apply M|lia]. }
  assert (~ cstr needle `prefix_of` cstr s) as N0 by tauto.
  destruct s as [|c s]; [simpl in *; destruct (cstr needle); [destruct N0; apply prefix_nil|simpl in Hle; lia]|].
  simpl in Hr, Hle, N0. destruct (Z.eqb_spec c 0) as [->|Hc].
  { simpl in Hle. destruct (cstr needle); [destruct N0; apply prefix_nil|simpl in Hle; lia]. }
  simpl in Hr. injection Hr as Hr. specialize (IH s (off + 1) Hr). rewrite !strlen_cstr in IH.
  rewrite cstr_step by done. simpl length. simpl tl.
  replace (Z.of_nat (S (length (cstr s))) - 1) with (Z.of_nat (length (cstr s))) by lia.
  destruct (strnstr_from rounds s needle _ _ _) as [o|].
  - destruct IH as (i & -> & P & Nj). exists (S i). split; [lia|]. split; [done|].
    intros [|j] Hj; [done|]. apply Nj. lia.
  - intros [|j]; [done|]. apply IH.
Qed.

Lemma strnlen_strlen s : forall n : nat, (length s <= n)%nat -> strnlen_nat s n = strlen s.
Proof.
  induction s as [|c s IH]; intros [|n] H; simpl in *; try done; try lia.
  destruct (c =? 0); [done|]. rewrite IH by lia. done.
Qed.
End Strings.

Lemma strstr_ok (s needle : list Z) :
  match strstr s needle with
  | Some o => 0 <= o /\ cstr needle `prefix_of` drop (Z.to_nat o) (cstr s) /\
              forall j : nat, (j < Z.to_nat o)%nat -> ~ cstr needle `prefix_of` drop j (cstr s)
  | None => forall j : nat, ~ cstr needle `prefix_of` drop j (cstr s)
  end.
Proof.
  unfold strstr, strnstr, strnlen. rewrite Nat2Z.id, strnlen_strlen by lia.
  pose proof (strnstr_from_ok needle (S (length (cstr s))) s 0 eq_refl) as H.
  rewrite !strlen_cstr in *. rewrite Nat2Z.id.
  destruct (strnstr_from _ _ _ _ _ _) as [o|]; [|exact H].
  destruct H as (i & -> & P & N). rewrite Z.add_0_l, Nat2Z.id. split; [lia|done].
Qed.

(** Strstr finds the first occurrence: the offset it returns is one where
    the needle occurs in the string, no smaller offset is, and NULL means
    that the needle occurs nowhere. *)
Theorem strstr_first (s needle : list Z) :
  match strstr s needle with
  | Some o => 0 <= o /\ cstr needle `prefix_of` drop (Z.to_nat o) (cstr s) /\
              forall j : nat, (j < Z.to_nat o)%nat -> ~ cstr needle `prefix_of` drop j (cstr s)
  | None => forall j : nat, ~ cstr needle `prefix_of` drop j (cstr s)
  end.
Proof. exact (strstr_ok s needle). Qed.

(** Strlcpy fills a buffer of [size] bytes with as much of the source as
    leaves room for the terminator, writes nothing outside the buffer, and
    returns the length of the source. *)
Theorem strlcpy_bounded (m src : list Z) (dest size : Z) :
  0 <= dest -> 0 < size -> dest + size <= Z.of_nat (length m) ->
  let (ret, m') := strlcpy m dest src size in
  ret = strlen src /\ length m' = length m /\
  cstr (at_addr m' dest) = take (Z.to_nat (size - 1)) (cstr src) /\
  slice m' 0 dest = slice m 0 dest /\
  slice m' (dest + size) (Z.of_nat (length m)) = slice m (dest + size) (Z.of_nat (length m)).
Proof.
  intros Hd Hs H. unfold strlcpy. destruct (Z.eqb_spec size 0); [lia|]. simpl. split; [done|].
  rewrite strlen_cstr. set (len := if size <=? _ then _ else _).
  pose proof (cstr_length src) as Lc.
  assert (0 <= len <= size - 1 /\ len <= Z.of_nat (length (cstr src)) /\
          (len = size - 1 \/ len = Z.of_nat (length (cstr src)))) as (B1 & B2 & B3)
    by (subst len; case_Z; lia).
  assert (Z.of_nat (length (slice src 0 len)) = len) as L by (rewrite slice_length; lia).
  replace (dest + len) with (dest + Z.of_nat (length (slice src 0 len))) by lia.
  rewrite store_store_app by (simpl; lia).
  set (bs := slice src 0 len ++ [0]).
  assert (Z.of_nat (length bs) = len + 1) as Lb by (subst bs; rewrite length_app; simpl; lia).
  split; [apply store_length; lia|]. split; [|split; [apply slice_store_other; lia|]].
  - unfold at_addr, store. rewrite drop_app_length' by (rewrite length_take; lia).
    subst bs. rewrite <- app_assoc. simpl.
    assert (slice src 0 len = take (Z.to_nat (size - 1)) (cstr src)) as ->.
    { unfold slice. rewrite drop_0, Z.sub_0_r, take_cstr by lia.
      destruct B3 as [->| ->]; [done|]. rewrite Nat2Z.id, !take_ge by lia. done. }
    apply cstr_app_end, Forall_take, cstr_nonzero.
  - apply slice_store_other; lia.
Qed.

Lemma strlcpy_bounded_witness :
  let (ret, m') := strlcpy (replicate 8 9) 2 [104; 101; 108; 108; 111; 0] 4 in
  ret = 5 /\ cstr (at_addr m' 2) = [104; 101; 108].
Proof.
  pose proof (strlcpy_bounded (replicate 8 9) [104; 101; 108; 108; 111; 0] 2 4) as H.
  destruct H as (E & _ & C & _); [lia|lia|simpl; lia|]. split; [exact E|exact C].
Defined.
