(* ===== verification/Qsort.v ===== *)
(** Sorting (lib/qsort.c): the Shell sort behind [qsort].

    The array is the list of its elements: the indices of the source, which
    count bytes, are divided by [width] and the byte loop that exchanges two
    elements is one exchange.  The comparison is an argument. *)

From S2P Require Import Prelude.

Section Qsort.
Context {A : Type} `{Inhabited A}.
Variable comp : A -> A -> Z.
Implicit Type l : list A.

(** Exchange the elements at [j] and [j + wgap]. *)
Definition swap (l : list A) (j k : nat) : list A :=
  <[k := l !!! j]> (<[j := l !!! k]> l).

(** The inner [do ... while (j >= wgap)] loop, entered with [j >= wgap]. *)
Fixpoint sift (fuel : nat) (wgap j : nat) (l : list A) : list A :=
  match fuel with
  | O => l
  | S n =>
      let j' := (j - wgap)%nat in
      if comp (l !!! j') (l !!! (j' + wgap)%nat) <=? 0 then l
      else
        let l' := swap l j' (j' + wgap) in
        if (wgap <=? j')%nat then sift n wgap j' l' else l'
  end.

(** The loop over [i], with [n] rounds left. *)
Fixpoint gap_pass (n : nat) (wgap i : nat) (l : list A) : list A :=
  match n with
  | O => l
  | S n' => gap_pass n' wgap (S i) (sift i wgap i l)
  end.

(** [do wgap = 3 * wgap + 1; while (wgap < (nel - 1) / 3)] *)
Fixpoint first_gap (fuel : nat) (nel wgap : nat) : nat :=
  let w := (3 * wgap + 1)%nat in
  match fuel with
  | O => w
  | S n => if (w <? (nel - 1) / 3)%nat then first_gap n nel w else w
  end.

(** The outer loop: pass after pass until the gap is 0. *)
Fixpoint gap_loop (fuel : nat) (nel wgap : nat) (l : list A) : list A :=
  match fuel with
  | O => l
  | S n =>
      let l' := gap_pass (nel - wgap) wgap wgap l in
      let w := ((wgap - 1) / 3)%nat in
      if (w =? 0)%nat then l' else gap_loop n nel w l'
  end.

Definition qsort (l : list A) : list A :=
  let nel := length l in
  if (1 <? nel)%nat then
    let wgap := first_gap nel nel 0 in
    gap_loop wgap nel wgap l
  else l.

(** * Permutation *)

Lemma swap_perm l j k : (j < k < length l)%nat -> swap l j k ≡ₚ l.
Proof.
  intros Hjk. unfold swap.
  destruct (split_ex l j) as (l1 & x & r & -> & <-); [lia|].
  rewrite length_app in Hjk. simpl in Hjk.
  destruct (split_ex r (k - length l1 - 1)) as (l2 & y & l3 & -> & E2); [lia|].
  assert (forall z, l1 ++ z :: l2 ++ y :: l3 = (l1 ++ z :: l2) ++ y :: l3) as As
    by (intros; by rewrite <- app_assoc).
  assert (forall z, k = length (l1 ++ z :: l2)) as Ek by (intros; rewrite length_app; simpl; lia).
  rewrite lookup_total_app_mid, insert_app_mid.
  rewrite (Ek x), (As x), lookup_total_app_mid, <- (Ek x), (Ek y), (As y), insert_app_mid.
  rewrite <- !app_assoc. simpl. rewrite <- !Permutation_middle. apply perm_swap.
Qed.

Lemma sift_perm fuel : forall wgap j l,
  (0 < wgap <= j)%nat -> (j < length l)%nat -> sift fuel wgap j l ≡ₚ l.
Proof.
  induction fuel as [|fuel IH]; intros wgap j l Hw Hj; [done|]. cbn [sift].
  destruct (comp _ _ <=? 0); [done|].
  assert (swap l (j - wgap) (j - wgap + wgap) ≡ₚ l) as P by (apply swap_perm; lia).
  destruct (Nat.leb_spec wgap (j - wgap)); [|done].
  rewrite IH; [done|lia|]. rewrite (Permutation_length P). lia.
Qed.

Lemma gap_pass_perm n : forall wgap i l,
  (0 < wgap <= i)%nat -> (i + n <= length l)%nat -> gap_pass n wgap i l ≡ₚ l.
Proof.
  induction n as [|n IH]; intros wgap i l Hw Hi; [done|]. cbn [gap_pass].
  pose proof (sift_perm i wgap i l ltac:(lia) ltac:(lia)) as P.
  rewrite IH; [done|lia|]. rewrite (Permutation_length P). lia.
Qed.

(** * Sortedness: the last pass, with gap 1, is an insertion sort *)

Definition le_comp (x y : A) : Prop := comp x y <= 0.

Hypothesis comp_total : forall x y, 0 < comp x y -> le_comp y x.
Hypothesis comp_trans : forall x y z, le_comp x y -> le_comp y z -> le_comp x z.

Lemma swap_adjacent (p r : list A) y x :
  swap (p ++ y :: x :: r) (length p) (length p + 1) = p ++ x :: y :: r.
Proof.
  unfold swap. rewrite lookup_total_app_mid, insert_app_mid.
  assert (forall z, p ++ z :: x :: r = (p ++ [z]) ++ x :: r) as As by (intros; by rewrite <- app_assoc).
  assert (forall z, (length p + 1)%nat = length (p ++ [z])) as El by (intros; by rewrite length_app).
  rewrite (El y), (As y), lookup_total_app_mid, <- (El y), (El x), (As x), insert_app_mid.
  by rewrite <- app_assoc.
Qed.

(** Sifting [x] into the sorted prefix [p] stops behind the last element not
    above it. *)
Lemma sift_insert x r : forall (p : list A) fuel,
  p <> [] -> (length p <= fuel)%nat ->
  exists p1 p2, p = p1 ++ p2 /\ sift fuel 1 (length p) (p ++ x :: r) = p1 ++ x :: p2 ++ r /\
    Forall (fun y => 0 < comp y x) p2 /\ (forall q y, p1 = q ++ [y] -> le_comp y x).
Proof.
  intros p. generalize r. induction p as [|y p IH] using rev_ind; intros r' fuel Hp Hf; [done|].
  rewrite length_app in *. simpl in *. destruct fuel as [|fuel]; [lia|]. cbn [sift].
  replace (length p + 1 - 1)%nat with (length p) by lia. rewrite <- app_assoc. simpl.
  assert (forall z, p ++ y :: z :: r' = (p ++ [y]) ++ z :: r') as As by (intros; by rewrite <- app_assoc).
  rewrite lookup_total_app_mid.
  assert ((p ++ y :: x :: r') !!! (length p + 1)%nat = x) as ->.
  { rewrite As. replace (length p + 1)%nat with (length (p ++ [y])) by (by rewrite length_app).
    apply lookup_total_app_mid. }
  destruct (Z.leb_spec (comp y x) 0) as [Hc|Hc].
  - exists (p ++ [y]), []. rewrite app_nil_r, <- app_assoc. simpl. repeat split; auto.
    intros q z E. apply app_inj_tail in E as [_ ->]. exact Hc.
  - rewrite swap_adjacent.
    destruct p as [|z p'] eqn:Ep.
    + exists [], [y]. simpl. repeat split; auto. intros [|? ?] ? E; discriminate E.
    + rewrite <- Ep in *. destruct (Nat.leb_spec 1 (length p)); [|rewrite Ep in *; simpl in *; lia].
      destruct (IH (y :: r') fuel) as (p1 & p2 & E1 & E2 & F & L); [by rewrite Ep|lia|].
      exists p1, (p2 ++ [y]). rewrite E2. split; [by rewrite E1, app_assoc|].
      replace (match length p with 0%nat => false | S _ => true end) with true
        by (destruct (length p); [lia|done]).
      split; [by rewrite <- app_assoc|]. split; [|done].
      apply Forall_app; split; auto.
Qed.

Lemma sorted_insert (p1 p2 : list A) x :
  StronglySorted le_comp (p1 ++ p2) -> Forall (fun y => 0 < comp y x) p2 ->
  (forall q y, p1 = q ++ [y] -> le_comp y x) -> StronglySorted le_comp (p1 ++ x :: p2).
Proof.
  intros S F L. apply StronglySorted_app in S as (Sx & S1 & S2).
  apply StronglySorted_app. split; [|split; [done|]].
  - intros y z Hy Hz. apply elem_of_cons in Hz as [->|Hz]; [|by apply Sx].
    destruct (list_last_dec p1) as [->|(q & w & ->)]; [by apply elem_of_nil in Hy|].
    specialize (L q w eq_refl). apply elem_of_app in Hy as [Hy|Hy].
    + apply StronglySorted_app in S1 as (S1 & _). apply (comp_trans y w); [|done].
      apply S1; [done|apply list_elem_of_singleton]. done.
    + apply list_elem_of_singleton in Hy as ->. done.
  - apply StronglySorted_cons. split; [|done].
    eapply Forall_impl; [exact F|]. intros y Hy. by apply comp_total.
Qed.

Lemma insertion_pass (n : nat) : forall (p r : list A),
  p <> [] -> StronglySorted le_comp p -> length r = n ->
  StronglySorted le_comp (gap_pass n 1 (length p) (p ++ r)).
Proof.
  induction n as [|n IH]; intros p [|x r] Hp Hs Hn; try done; cbn [gap_pass].
  - by rewrite app_nil_r.
  - destruct (sift_insert x r p (length p) Hp ltac:(lia)) as (p1 & p2 & E & -> & F & L).
    replace (p1 ++ x :: p2 ++ r) with ((p1 ++ x :: p2) ++ r) by (by rewrite <- app_assoc).
    replace (S (length p)) with (length (p1 ++ x :: p2))
      by (rewrite E, !length_app; simpl; lia).
    apply IH; [by destruct p1|apply sorted_insert; auto; by rewrite <- E|simpl in Hn; lia].
Qed.

(** The gaps are 1, 4, 13, ... *)
Inductive knuth : nat -> Prop :=
  | knuth_1 : knuth 1
  | knuth_S g : knuth g -> knuth (3 * g + 1).

Lemma first_gap_knuth fuel : forall nel wgap,
  (wgap = 0%nat \/ knuth wgap) -> knuth (first_gap fuel nel wgap).
Proof.
  induction fuel as [|fuel IH]; intros nel wgap Hw; cbn [first_gap];
    (assert (knuth (3 * wgap + 1)) by (destruct Hw as [->|]; [apply knuth_1|by apply knuth_S])); [done|].
  destruct (_ <? _)%nat; auto.
Qed.

Lemma first_gap_lt fuel : forall nel wgap,
  (1 < nel)%nat -> (wgap = 0 \/ wgap < (nel - 1) / 3)%nat -> (first_gap fuel nel wgap < nel)%nat.
Proof.
  induction fuel as [|fuel IH]; intros nel wgap Hn Hw; cbn [first_gap];
    (assert (3 * wgap + 1 < nel)%nat
       by (pose proof (Nat.Div0.mul_div_le (nel - 1) 3); lia)); [done|].
  destruct (Nat.ltb_spec (3 * wgap + 1) ((nel - 1) / 3)); auto.
Qed.

Lemma knuth_pos g : knuth g -> (0 < g)%nat.
Proof. induction 1; lia. Qed.

Lemma gap_loop_ok g : knuth g -> forall fuel l,
  (g <= fuel)%nat -> (g < length l)%nat ->
  gap_loop fuel (length l) g l ≡ₚ l /\ StronglySorted le_comp (gap_loop fuel (length l) g l).
Proof.
  induction 1 as [|g K IH]; intros fuel l Hf Hl; (destruct fuel as [|fuel]; [lia|]); cbn [gap_loop].
  - simpl. destruct l as [|x l]; [simpl in Hl; lia|].
    replace (length (x :: l) - 1)%nat with (length l) by (simpl; lia). split.
    + apply gap_pass_perm; simpl; lia.
    + apply (insertion_pass (length l) [x] l); [done|repeat constructor|done].
  - pose proof (knuth_pos g K).
    replace ((3 * g + 1 - 1) / 3)%nat with g by (rewrite Nat.add_sub, Nat.mul_comm, Nat.div_mul; lia).
    destruct (Nat.eqb_spec g 0); [lia|].
    set (l' := gap_pass _ _ _ _).
    assert (l' ≡ₚ l) as P by (apply gap_pass_perm; lia).
    pose proof (Permutation_length P) as Lp. rewrite <- Lp in *.
    destruct (IH fuel l') as [P' S]; [lia|lia|]. split; [|done]. by rewrite P'.
Qed.

Lemma qsort_ok l : qsort l ≡ₚ l /\ StronglySorted le_comp (qsort l).
Proof.
  unfold qsort. destruct (Nat.ltb_spec 1 (length l)) as [Hl|Hl].
  - apply gap_loop_ok; [by apply first_gap_knuth; left|lia|apply first_gap_lt; auto].
  - split; [done|]. destruct l as [|x [|y l]]; [constructor|repeat constructor|simpl in Hl; lia].
Qed.
End Qsort.

(** Qsort sorts: for every array and every comparison that is a total
    preorder, the result is a permutation of the input in ascending order. *)
Theorem qsort_sorts {A : Type} `{Inhabited A} (comp : A -> A -> Z) (l : list A) :
  (forall x y, 0 < comp x y -> comp y x <= 0) ->
  (forall x y z, comp x y <= 0 -> comp y z <= 0 -> comp x z <= 0) ->
  qsort comp l ≡ₚ l /\ StronglySorted (fun x y => comp x y <= 0) (qsort comp l).
Proof. intros T Tr. by apply qsort_ok. Qed.

Lemma qsort_sorts_witness :
  qsort Z.sub [5; 3; 9; 1; 7; 3; 8; 2; 6; 4; 0] ≡ₚ [5; 3; 9; 1; 7; 3; 8; 2; 6; 4; 0] /\
  StronglySorted (fun x y => x - y <= 0) (qsort Z.sub [5; 3; 9; 1; 7; 3; 8; 2; 6; 4; 0]).
Proof. apply (qsort_sorts Z.sub [5; 3; 9; 1; 7; 3; 8; 2; 6; 4; 0]); intros; lia. Defined.
