(* ===== verification/Hashtable.v ===== *)
(** The environment hash table (lib/hashtable.c, include/search.h): the model.

    Keys and values are strings without their terminator ([None]: NULL, which
    only a failed strdup leaves behind).  The table has [size + 1] nodes of
    which number 0 is never used; [used] is 0 for a free node, -1 for a
    deleted one and the first hash of the key otherwise.  What the table
    calls outside this file is the class [EnvHooks]: the permission check
    [change_ok], the callbacks of the variables and the lookups that give a
    new variable its callback and flags.  A callback does not change the
    table, so [in_callback] is false whenever one is called. *)

From S2P Require Import Prelude Bytes Cstring Qsort.

Inductive env_action := ENV_FIND | ENV_ENTER.
Inductive env_op := env_op_create | env_op_delete | env_op_overwrite.

Record env_entry := Entry {
  e_key : option (list Z);
  e_data : option (list Z);
  e_callback : option nat;      (* which function, when not NULL *)
  e_flags : Z
}.

Record env_entry_node := Node { used : Z; entry : env_entry }.

Definition entry0 : env_entry := Entry None None None 0.
Definition node0 : env_entry_node := Node 0 entry0.

#[export] Instance env_entry_inhabited : Inhabited env_entry := populate entry0.
#[export] Instance env_entry_node_inhabited : Inhabited env_entry_node := populate node0.

Record hsearch_data := Htab {
  table : option (list env_entry_node);
  size : Z;
  filled : Z
}.

Definition USED_FREE : Z := 0.
Definition USED_DELETED : Z := -1.
Definition H_NOCLEAR : Z := 1.
Definition H_HIDE_DOT : Z := 8.
Definition H_MATCH_KEY : Z := 16.
Definition H_MATCH_DATA : Z := 32.
Definition H_MATCH_IDENT : Z := 64.
Definition H_MATCH_SUBSTR : Z := 128.
Definition H_MATCH_REGEX : Z := 256.
Definition H_MATCH_METHOD : Z := Z.lor H_MATCH_IDENT (Z.lor H_MATCH_SUBSTR H_MATCH_REGEX).

(** What the rest of the environment code promises to the table. *)
Class EnvHooks := {
  change_ok : option (env_entry -> option (list Z) -> env_op -> Z -> Z);
  run_callback : nat -> list Z -> option (list Z) -> env_op -> Z -> Z;
  env_callback_init : list Z -> option nat;
  env_flags_init : list Z -> option Z   (* [None]: the field is left alone *)
}.

(** Reading and writing [htab->table[idx]]. *)
Definition nodes (h : hsearch_data) : list env_entry_node := default [] (table h).
Definition node (h : hsearch_data) (idx : Z) : env_entry_node := nodes h !!! Z.to_nat idx.
Definition set_node (h : hsearch_data) (idx : Z) (n : env_entry_node) : hsearch_data :=
  Htab (option_map (<[Z.to_nat idx := n]>) (table h)) (size h) (filled h).
Definition set_filled (h : hsearch_data) (f : Z) : hsearch_data := Htab (table h) (size h) (u32 f).

(** * Creating and destroying *)

(** The trial division loop; [None]: not within the fuel. *)
Fixpoint isprime_from (fuel : nat) (div number : Z) : option bool :=
  if (u32 (div * div) <? number) && negb (number mod div =? 0) then
    match fuel with O => None | S n => isprime_from n (u32 (div + 2)) number end
  else Some (negb (number mod div =? 0)).
(** Divisors below 2^16 are enough for a 32-bit number. *)
Definition isprime (number : Z) : option bool := isprime_from (Z.to_nat 32768) 3 number.

(** [while (!isprime(nel)) nel += 2] *)
Fixpoint next_prime (fuel : nat) (nel : Z) : option Z :=
  match isprime nel with
  | Some true => Some nel
  | Some false => match fuel with O => None | S n => next_prime n (nel + 2) end
  | None => None
  end.

(** The result is the return value and [errno] when it is set. *)
Definition hcreate_r (fuel : nat) (mem_ok : bool) (nel : Z) (h : hsearch_data)
  : option (Z * option Z * hsearch_data) :=
  match table h with
  | Some _ => Some (0, Some EINVAL, h)
  | None =>
      match next_prime fuel (Z.lor nel 1) with
      | None => None
      | Some n =>
          if mem_ok then Some (1, None, Htab (Some (replicate (Z.to_nat (n + 1)) node0)) n 0)
          else Some (0, Some ENOMEM, Htab None n 0)
      end
  end.

Definition hdestroy_r (h : hsearch_data) : hsearch_data := Htab None (size h) (filled h).

(** * Searching *)

(** [strcmp(a, b) == 0] where a NULL string never matches. *)
Definition same_key (k : list Z) (o : option (list Z)) : bool :=
  match o with Some k' => strcmp k k' =? 0 | None => false end.

(** The entries hmatch_r looks at; the result is the index, 0 for none. *)
Fixpoint hmatch_from (n : nat) (h : hsearch_data) (mtch : list Z) (idx : Z) : Z :=
  match n with
  | O => 0
  | S n' =>
      if idx <? size h then
        if used (node h idx) <=? 0 then hmatch_from n' h mtch (idx + 1)
        else if strncmp mtch (default [] (e_key (entry (node h idx)))) (strlen mtch) =? 0 then idx
        else hmatch_from n' h mtch (idx + 1)
      else 0
  end.
Definition hmatch_r (mtch : list Z) (last_idx : Z) (h : hsearch_data) : Z :=
  hmatch_from (Z.to_nat (size h)) h mtch (last_idx + 1).

(** [hval] before the reduction: the bytes from the last to the first. *)
Definition hash_string (key : list Z) : Z :=
  foldr (fun c hval => u32 (u32 (Z.shiftl hval 4) + c)) (strlen key) key.

Definition hash1 (h : hsearch_data) (key : list Z) : Z :=
  let hval := hash_string key mod size h in
  if hval =? 0 then hval + 1 else hval.

Definition hash2 (h : hsearch_data) (hval : Z) : Z := 1 + hval mod (size h - 2).

Definition next_idx (h : hsearch_data) (hval2 idx : Z) : Z :=
  if idx <=? hval2 then size h + idx - hval2 else idx - hval2.

(** What hsearch_r gives back: the return value, the node [*retval] points
    into ([None]: NULL), [errno] when set, and the table. *)
Record search_result := Result {
  sr_ret : Z; sr_retval : option Z; sr_errno : option Z; sr_tab : hsearch_data
}.

Section Hooks.
Context `{EnvHooks}.

Definition do_callback (e : env_entry) (name : list Z) (value : option (list Z)) (op : env_op)
    (flags : Z) : Z :=
  match e_callback e with None => 0 | Some f => run_callback f name value op flags end.

Definition denied (e : env_entry) (value : option (list Z)) (op : env_op) (flag : Z) : bool :=
  match change_ok with Some f => negb (f e value op flag =? 0) | None => false end.

(** [None]: keep searching.  [md] is the outcome of the strdup. *)
Definition compare_and_overwrite_entry (md : bool) (key : list Z) (data : option (list Z))
    (action : env_action) (h : hsearch_data) (flag hval idx : Z) : option search_result :=
  let e := entry (node h idx) in
  if (u32 (used (node h idx)) =? hval) && same_key key (e_key e) then
    match action, data with
    | ENV_ENTER, Some d =>
        if denied e data env_op_overwrite flag then Some (Result 0 None (Some EPERM) h)
        else if negb (do_callback e key data env_op_overwrite flag =? 0)
        then Some (Result 0 None (Some EINVAL) h)
        else
          let dup := if md then Some d else None in
          let h' := set_node h idx (Node (used (node h idx))
                                         (Entry (e_key e) dup (e_callback e) (e_flags e))) in
          if md then Some (Result idx (Some idx) None h') else Some (Result 0 None (Some ENOMEM) h')
    | _, _ => Some (Result idx (Some idx) None h)
    end
  else None.

(** The do loop: [inl] when an entry is found, else the index it stops at
    and [first_deleted]; [None]: out of fuel. *)
Fixpoint probe_loop (fuel : nat) (md : bool) (key : list Z) (data : option (list Z))
    (action : env_action) (h : hsearch_data) (flag hval hval2 idx first_deleted : Z)
  : option (search_result + Z * Z) :=
  match fuel with
  | O => None
  | S n =>
      let idx := next_idx h hval2 idx in
      if idx =? hval then Some (inr (idx, first_deleted))
      else
        let first_deleted :=
          if (used (node h idx) =? USED_DELETED) && (first_deleted =? 0) then idx else first_deleted in
        match compare_and_overwrite_entry md key data action h flag hval idx with
        | Some r => Some (inl r)
        | None => if negb (used (node h idx) =? USED_FREE)
                  then probe_loop n md key data action h flag hval hval2 idx first_deleted
                  else Some (inr (idx, first_deleted))
        end
  end.

Definition search_slot (md : bool) (key : list Z) (data : option (list Z)) (action : env_action)
    (h : hsearch_data) (flag : Z) : option (search_result + Z * Z) :=
  let hval := hash1 h key in
  let idx := hval in
  if negb (used (node h idx) =? 0) then
    let first_deleted := if used (node h idx) =? USED_DELETED then idx else 0 in
    match compare_and_overwrite_entry md key data action h flag hval idx with
    | Some r => Some (inl r)
    | None => probe_loop (Z.to_nat (size h)) md key data action h flag hval (hash2 h hval) idx
                         first_deleted
    end
  else Some (inr (idx, 0)).

(** Free the node and mark it deleted. *)
Definition hdelete_node (h : hsearch_data) (idx : Z) : hsearch_data :=
  let e := entry (node h idx) in
  let h' := set_node h idx (Node USED_DELETED (Entry (e_key e) (e_data e) (e_callback e) 0)) in
  set_filled h' (filled h' - 1).

(** Creating the entry in node [idx]; [mk] and [md] are the outcomes of the
    two calls of strdup. *)
Definition create_entry (mk md : bool) (key : list Z) (data : option (list Z)) (h : hsearch_data)
    (flag hval idx : Z) : search_result :=
  let old := entry (node h idx) in
  let k := if mk then Some key else None in
  let d := if md then data else None in
  let h1 := set_node h idx (Node hval (Entry k d (e_callback old) (e_flags old))) in
  match k, d with
  | Some _, Some _ =>
      let h2 := set_filled h1 (filled h1 + 1) in
      let e := Entry k d (env_callback_init key) (default (e_flags old) (env_flags_init key)) in
      let h3 := set_node h2 idx (Node hval e) in
      if denied e data env_op_create flag
      then Result 0 None (Some EPERM) (hdelete_node h3 idx)
      else if negb (do_callback e key data env_op_create flag =? 0)
      then Result 0 None (Some EINVAL) (hdelete_node h3 idx)
      else Result 1 (Some idx) None h3
  | _, _ => Result 0 None (Some ENOMEM) h1
  end.

Definition hsearch_r (mk md : bool) (key : list Z) (data : option (list Z)) (action : env_action)
    (h : hsearch_data) (flag : Z) : option search_result :=
  match search_slot md key data action h flag with
  | None => None
  | Some (inl r) => Some r
  | Some (inr (idx, first_deleted)) =>
      match action with
      | ENV_ENTER =>
          if filled h =? size h then Some (Result 0 None (Some ENOMEM) h)
          else
            let idx := if negb (first_deleted =? 0) then first_deleted else idx in
            Some (create_entry mk md key data h flag (hash1 h key) idx)
      | ENV_FIND => Some (Result 0 None (Some ESRCH) h)
      end
  end.

(** The return value, [errno] and the table. *)
Definition hdelete_r (key : list Z) (h : hsearch_data) (flag : Z)
  : option (Z * option Z * hsearch_data) :=
  match hsearch_r true true key None ENV_FIND h 0 with
  | None => None
  | Some r =>
      let idx := sr_ret r in
      if idx =? 0 then Some (- ENOENT, Some ESRCH, h)
      else
        let e := entry (node h idx) in
        if denied e None env_op_delete flag then Some (- EPERM, Some EPERM, h)
        else if negb (do_callback e key None env_op_delete flag =? 0)
        then Some (- EINVAL, Some EINVAL, h)
        else Some (0, None, hdelete_node h idx)
  end.
End Hooks.

(** Walking the used entries with a callback that may change them. *)
Fixpoint hwalk_from (n : nat) (callback : env_entry -> Z * env_entry) (h : hsearch_data) (i : Z)
  : Z * hsearch_data :=
  match n with
  | O => (0, h)
  | S n' =>
      if i <=? size h then
        if 0 <? used (node h i) then
          let (retval, e) := callback (entry (node h i)) in
          let h' := set_node h i (Node (used (node h i)) e) in
          if negb (retval =? 0) then (retval, h') else hwalk_from n' callback h' (i + 1)
        else hwalk_from n' callback h (i + 1)
      else (0, h)
  end.
Definition hwalk_r (h : hsearch_data) (callback : env_entry -> Z * env_entry) : Z * hsearch_data :=
  hwalk_from (Z.to_nat (size h)) callback h 1.
