(* ===== verification/HashSearch.v ===== *)
(** The environment hash table: double hashing over a prime number of nodes
    visits every node once, so the search ends at the entry, at a free node or
    after seeing the whole table; the invariant, the outcome of a search and
    what each change does to the nodes. *)

From Stdlib Require Import Znumtheory.
From S2P Require Import Prelude Bytes Cstring CstringProps Qsort Hashtable.

(** The [k]-th node of the sequence that starts at [hv] and steps by [h2]. *)
Definition pos (sz hv h2 k : Z) : Z := 1 + (hv - 1 - k * h2) mod sz.

Section Sequence.
Context (sz hv h2 : Z).
Hypothesis Hp : prime sz.
Hypothesis Hv : 1 <= hv <= sz.
Hypothesis H2 : 0 < h2 < sz.

Lemma sz_pos : 1 < sz.
Proof using Hp. destruct Hp. lia. Qed.

Lemma pos_range k : 1 <= pos sz hv h2 k <= sz.
Proof using Hp.
  unfold pos. pose proof sz_pos. pose proof (Z.mod_pos_bound (hv - 1 - k * h2) sz ltac:(lia)). lia.
Qed.

Lemma pos_0 : pos sz hv h2 0 = hv.
Proof using Hv. unfold pos. rewrite Z.mul_0_l, Z.sub_0_r, Z.mod_small; lia. Qed.

Lemma pos_next h k :
  size h = sz -> next_idx h h2 (pos sz hv h2 k) = pos sz hv h2 (k + 1).
Proof using Hp H2.
  intros Hs. pose proof sz_pos. unfold next_idx, pos. rewrite Hs.
  replace (hv - 1 - (k + 1) * h2) with (hv - 1 - k * h2 - h2) by lia.
  set (x := hv - 1 - k * h2). pose proof (Z.mod_pos_bound x sz ltac:(lia)) as B.
  rewrite <- (Zminus_mod_idemp_l x h2 sz). set (r := x mod sz) in *.
  destruct (Z.leb_spec (1 + r) h2).
  - rewrite <- (Z_mod_plus_full (r - h2) 1 sz), Z.mod_small; lia.
  - rewrite (Z.mod_small (r - h2)); lia.
Qed.

(** The sequence hits each node exactly once in [sz] steps. *)
Lemma pos_eq_iff j k : pos sz hv h2 j = pos sz hv h2 k <-> (sz | j - k).
Proof using Hp H2.
  pose proof sz_pos as S. unfold pos. split.
  - intros E. assert ((hv - 1 - j * h2) mod sz = (hv - 1 - k * h2) mod sz) as E' by lia.
    assert (sz | (j - k) * h2) as D.
    { apply Z.mod_divide; [lia|].
      replace ((j - k) * h2) with ((hv - 1 - k * h2) - (hv - 1 - j * h2)) by lia.
      rewrite Zminus_mod, E', Z.sub_diag. apply Z.mod_0_l. lia. }
    apply prime_mult in D as [D|D]; [done| |exact Hp].
    apply Z.divide_pos_le in D; lia.
  - intros [q E]. f_equal. replace (hv - 1 - j * h2) with (hv - 1 - k * h2 + (- q * h2) * sz) by lia.
    by rewrite Z_mod_plus_full.
Qed.

Lemma pos_inj j k :
  0 <= j < sz -> 0 <= k < sz -> pos sz hv h2 j = pos sz hv h2 k -> j = k.
Proof using Hp H2.
  intros Hj Hk D%pos_eq_iff. pose proof sz_pos.
  destruct (Z.eq_dec j k); [done|]. exfalso.
  destruct (Z.lt_total j k) as [|[|]]; [|done|].
  - rewrite <- Z.divide_opp_r in D. apply Z.divide_pos_le in D; lia.
  - apply Z.divide_pos_le in D; lia.
Qed.

Lemma pos_surj i : 1 <= i <= sz -> exists k, 0 <= k < sz /\ pos sz hv h2 k = i.
Proof using Hp H2.
  intros Hi. pose proof sz_pos as S.
  assert (rel_prime h2 sz) as [u v B]%rel_prime_bezout.
  { apply rel_prime_sym, prime_rel_prime; [exact Hp|]. intros D. apply Z.divide_pos_le in D; lia. }
  exists (((hv - i) * u) mod sz). split; [apply Z.mod_pos_bound; lia|]. unfold pos.
  rewrite <- Zminus_mod_idemp_r, Zmult_mod_idemp_l, Zminus_mod_idemp_r.
  replace (hv - 1 - (hv - i) * u * h2) with (i - 1 + (hv - i) * v * sz).
  - rewrite Z_mod_plus_full, Z.mod_small; lia.
  - replace ((hv - i) * u * h2) with ((hv - i) * (u * h2)) by ring.
    replace (u * h2) with (1 - v * sz) by lia. ring.
Qed.
End Sequence.

(** A string without embedded terminators, as every C string is. *)
Definition plain (k : list Z) : Prop := Forall (fun c => c <> 0) k.

Definition live (h : hsearch_data) (i : Z) : Prop := 1 <= i <= size h /\ 0 < used (node h i).
Definition slot (h : hsearch_data) (key : list Z) (k : Z) : Z :=
  pos (size h) (hash1 h key) (hash2 h (hash1 h key)) k.

(** The shape of the table: a prime number of nodes beside the unused node 0. *)
Record ht_shape (h : hsearch_data) : Prop := {
  sh_prime : prime (size h);
  sh_size : 3 < size h < 2147483648;
  sh_table : is_Some (table h);
  sh_len : Z.of_nat (length (nodes h)) = size h + 1
}.

(** Live nodes carry their key's first hash, lie on its probe sequence with
    no free node before them, and no key occurs twice. *)
Record ht_wf (h : hsearch_data) : Prop := {
  wf_shape : ht_shape h;
  wf_zero : used (node h 0) = USED_FREE;
  wf_used : forall i, 1 <= i <= size h -> -1 <= used (node h i);
  wf_live : forall i, live h i -> exists key d,
      e_key (entry (node h i)) = Some key /\ e_data (entry (node h i)) = Some d /\
      plain key /\ used (node h i) = hash1 h key /\
      exists k, 0 <= k < size h /\ i = slot h key k /\
        forall j, 0 <= j < k -> used (node h (slot h key j)) <> USED_FREE;
  wf_uniq : forall i j, live h i -> live h j ->
      e_key (entry (node h i)) = e_key (entry (node h j)) -> i = j;
  wf_filled : filled h = Z.of_nat (length (filter (fun n => 0 < used n) (nodes h)))
}.

(** The abstract contents: key [key] has value [d]. *)
Definition maps (h : hsearch_data) (key d : list Z) : Prop :=
  exists i, live h i /\ e_key (entry (node h i)) = Some key /\ e_data (entry (node h i)) = Some d.

Section Shape.
Context (h : hsearch_data) (S : ht_shape h).

Lemma hash1_range key : 1 <= hash1 h key < size h.
Proof using S.
  destruct S. unfold hash1.
  pose proof (Z.mod_pos_bound (hash_string key) (size h) ltac:(lia)). case_Z; lia.
Qed.

Lemma hash2_range hv : 0 < hash2 h hv < size h.
Proof using S.
  destruct S. unfold hash2. pose proof (Z.mod_pos_bound hv (size h - 2) ltac:(lia)). lia.
Qed.

Lemma probe_range key k : 1 <= slot h key k <= size h.
Proof using S. apply pos_range, S. Qed.
Lemma probe_0 key : slot h key 0 = hash1 h key.
Proof using S. pose proof (hash1_range key). apply pos_0. lia. Qed.
Lemma probe_next key k :
  next_idx h (hash2 h (hash1 h key)) (slot h key k) = slot h key (k + 1).
Proof using S. apply pos_next; [apply S|apply hash2_range|done]. Qed.
Lemma probe_inj key j k :
  0 <= j < size h -> 0 <= k < size h -> slot h key j = slot h key k -> j = k.
Proof using S. apply pos_inj; [apply S|apply hash2_range]. Qed.
Lemma probe_surj key i : 1 <= i <= size h -> exists k, 0 <= k < size h /\ slot h key k = i.
Proof using S. apply pos_surj; [apply S|apply hash2_range]. Qed.

(** The whole table has been seen when the sequence is back at its start. *)
Lemma probe_back key k : 0 < k <= size h -> slot h key k = hash1 h key <-> k = size h.
Proof using S.
  intros Hk. rewrite <- probe_0. unfold slot.
  rewrite pos_eq_iff by (try apply S; apply hash2_range). rewrite Z.sub_0_r. split.
  - intros D. apply Z.divide_pos_le in D; lia.
  - intros ->. apply Z.divide_refl.
Qed.
End Shape.

Section Search.
Context `{EnvHooks} (h : hsearch_data) (W : ht_wf h).
Context (key : list Z) (Pk : plain key).

Let S : ht_shape h := wf_shape h W.
Let hv := hash1 h key.
Let P := slot h key.

(** Node [i] holds the key searched for. *)
Definition hit (i : Z) : Prop := live h i /\ e_key (entry (node h i)) = Some key.

Lemma live_key i : live h i -> exists k, e_key (entry (node h i)) = Some k /\ plain k /\
  used (node h i) = hash1 h k.
Proof using W. intros L. destruct (wf_live h W i L) as (k & d & E & _ & Pl & U & _). eauto. Qed.

Lemma compare_hit_iff i :
  1 <= i <= size h ->
  (u32 (used (node h i)) =? hv) && same_key key (e_key (entry (node h i))) = true <-> hit i.
Proof using W Pk.
  intros Hi. pose proof (hash1_range h S key) as Hh. fold hv in Hh. pose proof (sh_size h S) as Hs.
  pose proof (wf_used h W i Hi) as Hu.
  assert (forall k, plain k -> same_key key (Some k) = true <-> k = key) as SK.
  { intros k Hk. simpl. rewrite Z.eqb_eq, strcmp_eq, !cstr_plain by done. split; congruence. }
  rewrite andb_true_iff, Z.eqb_eq. split.
  - intros [E K]. assert (live h i) as L.
    { split; [done|]. destruct (Z.eq_dec (used (node h i)) (-1)) as [Ed|];
        [rewrite Ed in E; change (u32 (-1)) with 4294967295 in E; lia|].
      destruct (Z.eq_dec (used (node h i)) 0) as [Ez|]; [rewrite Ez in E; change (u32 0) with 0 in E|]; lia. }
    split; [done|]. destruct (live_key i L) as (k & Ek & Pl & _). rewrite Ek in *.
    f_equal. by apply SK.
  - intros [L E]. destruct (live_key i L) as (k & Ek & Pl & U). rewrite E in *.
    injection Ek as <-. split; [|by apply SK]. rewrite U. apply u32_small. fold hv. lia.
Qed.

Lemma compare_miss md data action flag i :
  1 <= i <= size h -> ~ hit i ->
  compare_and_overwrite_entry md key data action h flag hv i = None.
Proof using W Pk.
  intros Hi N. unfold compare_and_overwrite_entry.
  destruct ((u32 _ =? hv) && _) eqn:E; [|done]. by apply compare_hit_iff in E.
Qed.

Lemma compare_some md data action flag i :
  hit i -> is_Some (compare_and_overwrite_entry md key data action h flag hv i).
Proof using W Pk.
  intros Hh. unfold compare_and_overwrite_entry.
  rewrite (proj2 (compare_hit_iff i (proj1 (proj1 Hh))) Hh).
  destruct action, data; eauto. destruct (denied _ _ _ _); eauto.
  destruct (negb _); eauto. destruct md; eauto.
Qed.

Definition skipped (k : Z) : Prop :=
  forall j, 0 <= j < k -> used (node h (P j)) <> USED_FREE /\ ~ hit (P j).

(** [first_deleted] after the nodes before the [k]-th. *)
Definition deleted_ok (k fd : Z) : Prop :=
  (fd = 0 /\ forall j, 0 <= j < k -> used (node h (P j)) <> USED_DELETED) \/
  (exists j, 0 <= j < k /\ fd = P j /\ used (node h fd) = USED_DELETED).

(** How a search can end. *)
Inductive slot_case (md : bool) (data : option (list Z)) (action : env_action) (flag : Z)
  : search_result + Z * Z -> Prop :=
  | SlotHit k r :
      0 <= k < size h -> skipped k -> hit (P k) ->
      compare_and_overwrite_entry md key data action h flag hv (P k) = Some r ->
      slot_case md data action flag (inl r)
  | SlotFree k fd :
      0 <= k < size h -> skipped k -> used (node h (P k)) = USED_FREE -> deleted_ok k fd ->
      slot_case md data action flag (inr (P k, fd))
  | SlotFull fd :
      skipped (size h) -> deleted_ok (size h) fd -> slot_case md data action flag (inr (hv, fd)).

#[local] Instance hit_dec i : Decision (hit i).
Proof. unfold hit, live. apply _. Defined.

Lemma skipped_S k : skipped k -> used (node h (P k)) <> USED_FREE -> ~ hit (P k) -> skipped (k + 1).
Proof using. intros Sk U N j Hj. destruct (Z.eq_dec j k) as [->|]; [done|]. apply Sk. lia. Qed.

Lemma deleted_S k fd :
  0 <= k -> deleted_ok k fd ->
  deleted_ok (k + 1) (if (used (node h (P k)) =? USED_DELETED) && (fd =? 0) then P k else fd).
Proof using W.
  intros Hk D. pose proof (probe_range h S key) as R.
  destruct (Z.eqb_spec (used (node h (P k))) USED_DELETED) as [E|E]; simpl.
  - destruct (Z.eqb_spec fd 0) as [->|N].
    + right. exists k. repeat split; auto; lia.
    + destruct D as [[-> _]|(j & Hj & -> & U)]; [done|]. right. exists j. repeat split; auto; lia.
  - destruct D as [[-> D]|(j & Hj & -> & U)].
    + left. split; [done|]. intros j Hj. destruct (Z.eq_dec j k) as [->|]; [done|]. apply D. lia.
    + right. exists j. repeat split; auto; lia.
Qed.

Lemma probe_loop_ok md data action flag (fuel : nat) : forall k fd,
  0 <= k < size h -> size h - k <= Z.of_nat fuel -> skipped (k + 1) -> deleted_ok (k + 1) fd ->
  exists r, probe_loop fuel md key data action h flag hv (hash2 h hv) (P k) fd = Some r /\
    slot_case md data action flag r.
Proof using W Pk.
  induction fuel as [|fuel IH]; intros k fd Hk Hf Sk D; [lia|]. cbn [probe_loop].
  unfold P, hv. rewrite (probe_next h S). fold hv. fold (P (k + 1)).
  pose proof (probe_back h S key (k + 1) ltac:(lia)) as B. fold hv in B. fold (P (k + 1)) in B.
  destruct (Z.eqb_spec (P (k + 1)) hv) as [E|E].
  - rewrite E. eexists; split; [reflexivity|]. apply B in E. apply SlotFull; by rewrite <- E.
  - assert (k + 1 < size h) by (destruct (Z.eq_dec (k + 1) (size h)); [tauto|lia]).
    pose proof (probe_range h S key (k + 1)) as R. fold (P (k + 1)) in R.
    destruct (decide (hit (P (k + 1)))) as [Hh|Nh].
    + destruct (compare_some md data action flag _ Hh) as [r Er]. rewrite Er.
      eexists; split; [reflexivity|]. apply (SlotHit md data action flag (k + 1)); [lia|done|done|done].
    + rewrite compare_miss by done.
      pose proof (deleted_S (k + 1) fd ltac:(lia) D) as D'. unfold USED_FREE.
      destruct (Z.eqb_spec (used (node h (P (k + 1)))) 0) as [U|U]; simpl.
      * rewrite U. simpl. eexists; split; [reflexivity|]. apply SlotFree; [lia|done|exact U|done].
      * apply IH; [lia|lia|by apply skipped_S|exact D'].
Qed.

Lemma search_slot_ok md data action flag :
  exists r, search_slot md key data action h flag = Some r /\ slot_case md data action flag r.
Proof using W Pk.
  unfold search_slot. fold hv. pose proof (hash1_range h S key) as R. fold hv in R.
  pose proof (probe_0 h S key) as E0. fold hv in E0. change (P 0 = hv) in E0.
  pose proof (sh_size h S).
  assert (skipped 0) as S0 by (intros j Hj; lia).
  destruct (Z.eqb_spec (used (node h hv)) 0) as [U|U]; simpl.
  - eexists; split; [reflexivity|]. rewrite <- E0. apply SlotFree; [lia|done|by rewrite E0|].
    left. split; [done|lia].
  - destruct (decide (hit hv)) as [Hh|Nh].
    + destruct (compare_some md data action flag _ Hh) as [r Er]. rewrite Er.
      eexists; split; [reflexivity|]. apply (SlotHit md data action flag 0); [lia|done|by rewrite E0|by rewrite E0].
    + rewrite compare_miss by (done || lia).
      pose proof (deleted_S 0 0 ltac:(lia) ltac:(left; split; [done|lia])) as D.
      pose proof (skipped_S 0 S0 ltac:(by rewrite E0) ltac:(by rewrite E0)) as S1.
      rewrite andb_true_r, E0 in D.
      pose proof (probe_loop_ok md data action flag (Z.to_nat (size h)) 0 _ ltac:(lia) ltac:(lia) S1 D) as L.
      by rewrite E0 in L.
Qed.

(** A live entry is where the search ends. *)
Lemma hit_found i k :
  hit i -> 0 <= k < size h -> skipped k ->
  (hit (P k) -> P k = i) /\ used (node h (P k)) <> USED_FREE.
Proof using W.
  intros [L E] Hk Sk. split.
  - intros [L' E']. apply (wf_uniq h W); congruence.
  - destruct (wf_live h W i L) as (k' & d & Ek & _ & _ & _ & ki & Hki & -> & Np).
    rewrite E in Ek. injection Ek as <-. fold (P ki) in L, E.
    destruct (Z.lt_total k ki) as [|[->|]]; [apply Np; lia| |].
    + destruct L. unfold USED_FREE. lia.
    + destruct (Sk ki ltac:(lia)) as [_ N]. by destruct N.
Qed.

Lemma hit_not_full i : hit i -> ~ skipped (size h).
Proof using W.
  intros [L E] Sk. destruct (wf_live h W i L) as (k' & d & Ek & _ & _ & _ & ki & Hki & -> & _).
  rewrite E in Ek. injection Ek as <-. destruct (Sk ki Hki) as [_ N]. by destruct N.
Qed.

Lemma search_hit md data action flag i :
  hit i ->
  search_slot md key data action h flag =
    option_map inl (compare_and_overwrite_entry md key data action h flag hv i).
Proof using W Pk.
  intros Hi. destruct (search_slot_ok md data action flag) as (r & -> & C).
  destruct C as [k r Hk Sk Hh E|k fd Hk Sk U D|fd Sk D].
  - rewrite <- (proj1 (hit_found i k Hi Hk Sk) Hh). by rewrite E.
  - by destruct (proj2 (hit_found i k Hi Hk Sk)).
  - by destruct (hit_not_full i Hi).
Qed.

(** When the key is absent the search ends at a free node or, with every
    node seen, at the start. *)
Lemma search_miss md data action flag :
  (forall i, ~ hit i) ->
  exists idx fd, search_slot md key data action h flag = Some (inr (idx, fd)) /\
    ((exists k, 0 <= k < size h /\ idx = P k /\ skipped k /\
        used (node h idx) = USED_FREE /\ deleted_ok k fd) \/
     (skipped (size h) /\ deleted_ok (size h) fd)).
Proof using W Pk.
  intros N. destruct (search_slot_ok md data action flag) as (r & -> & C).
  destruct C as [k r Hk Sk Hh E|k fd Hk Sk U D|fd Sk D].
  - by destruct (N (P k)).
  - do 2 eexists; split; [reflexivity|]. left. exists k. auto.
  - do 2 eexists; split; [reflexivity|]. by right.
Qed.
End Search.
