(* ===== verification/HashProps.v ===== *)
(** The environment hash table is a finite map from names to values: the
    effect of every operation on the map, refusals included. *)

From Stdlib Require Import Znumtheory.
From stdpp Require Import gmap.
From S2P Require Import Prelude Bytes Cstring CstringProps Qsort Hashtable HashSearch.

(** * Writing one node *)

Section Write.
Context (h : hsearch_data) (W : ht_wf h).
Context (i : Z) (n : env_entry_node) (f : Z).
Hypothesis Hi : 1 <= i <= size h.

Definition put : hsearch_data := Htab (Some (<[Z.to_nat i := n]> (nodes h))) (size h) f.

Lemma put_len : (Z.to_nat i < length (nodes h))%nat.
Proof using W Hi. pose proof (sh_len h (wf_shape h W)). lia. Qed.

Lemma put_same : node put i = n.
Proof using W Hi. unfold node, nodes. simpl. apply list_lookup_total_insert_eq, put_len. Qed.

Lemma put_other j : 0 <= j -> j <> i -> node put j = node h j.
Proof using Hi. intros Hj N. unfold node, nodes. simpl. apply list_lookup_total_insert_ne. lia. Qed.

Lemma put_shape : ht_shape put.
Proof using W.
  destruct (wf_shape h W) as [P Sz T L]. constructor; simpl; eauto.
  unfold nodes; simpl. rewrite length_insert. exact L.
Qed.

Lemma count_put :
  Z.of_nat (length (filter (fun x => 0 < used x) (<[Z.to_nat i := n]> (nodes h)))) =
  filled h + (if decide (0 < used n) then 1 else 0) - (if decide (0 < used (node h i)) then 1 else 0).
Proof using W Hi.
  rewrite (wf_filled h W). destruct (split_ex (nodes h) (Z.to_nat i) put_len) as (l1 & x & l2 & E & El).
  unfold node. rewrite E. rewrite <- El, insert_app_mid, lookup_total_app_mid.
  rewrite !filter_app, !filter_cons, !length_app. repeat case_decide; simpl; lia.
Qed.

Hypothesis Hu : used n <> USED_FREE.
Hypothesis Hlow : -1 <= used n.
Hypothesis Hlive : 0 < used n -> exists key d,
  e_key (entry n) = Some key /\ e_data (entry n) = Some d /\ plain key /\ used n = hash1 h key /\
  exists k, 0 <= k < size h /\ i = slot h key k /\
    forall j, 0 <= j < k -> used (node h (slot h key j)) <> USED_FREE.
Hypothesis Huniq : 0 < used n -> forall j, live h j -> j <> i ->
  e_key (entry (node h j)) <> e_key (entry n).
Hypothesis Hf : f = filled h + (if decide (0 < used n) then 1 else 0)
                    - (if decide (0 < used (node h i)) then 1 else 0).

(** Live nodes after the write: the new node, and the old ones elsewhere. *)
Lemma put_live j : live put j <-> (j = i /\ 0 < used n) \/ (j <> i /\ live h j).
Proof using W Hi.
  unfold live. simpl. destruct (Z.eq_dec j i) as [->|N].
  - rewrite put_same. split; [intros [_ ?]; by left|].
    intros [[_ ?]|[? _]]; [by split|done].
  - split; [intros [? Hj]; rewrite put_other in Hj by lia; tauto|].
    intros [[? _]|(_ & ? & ?)]; [done|]. by rewrite put_other by lia.
Qed.

Lemma put_not_free j : 1 <= j -> used (node h j) <> USED_FREE -> used (node put j) <> USED_FREE.
Proof using W Hi Hu.
  intros Hj Nf. destruct (Z.eq_dec j i) as [->|]; [by rewrite put_same|by rewrite put_other by lia].
Qed.

Lemma put_wf : ht_wf put.
Proof using W Hi Hu Hlow Hlive Huniq Hf.
  pose proof (wf_shape h W) as S.
  assert (forall key j, slot put key j = slot h key j) as Ep by done.
  assert (forall key k, (forall j, 0 <= j < k -> used (node h (slot h key j)) <> USED_FREE) ->
            forall j, 0 <= j < k -> used (node put (slot put key j)) <> USED_FREE) as Path.
  { intros key k Np j Hj. rewrite Ep. pose proof (probe_range h S key j).
    apply put_not_free; [lia|by apply Np]. }
  constructor.
  - exact put_shape.
  - rewrite put_other by lia. apply W.
  - intros j Hj. destruct (Z.eq_dec j i) as [->|]; [by rewrite put_same|].
    rewrite put_other by lia. by apply W.
  - intros j [[-> Hn]|[N L]]%put_live.
    + rewrite put_same. destruct (Hlive Hn) as (key & d & E1 & E2 & Pl & Eu & k & Hk & Ei & Np).
      exists key, d. repeat split; auto. exists k. repeat split; try apply Hk; auto. by apply Path.
    + assert (node put j = node h j) as -> by (apply put_other; [destruct L; lia|done]).
      destruct (wf_live h W j L) as (key & d & E1 & E2 & Pl & Eu & k & Hk & Ei & Np).
      exists key, d. repeat split; auto. exists k. repeat split; try apply Hk; auto. by apply Path.
  - assert (forall j, j <> i -> live h j -> node put j = node h j) as Eo
      by (intros j N L; apply put_other; [destruct L; lia|done]).
    intros j1 j2 [[-> H1]|[N1 L1]]%put_live [[-> H2]|[N2 L2]]%put_live; [done|..];
      rewrite ?put_same, ?Eo by done; intros E.
    + exfalso. by apply (Huniq H1 j2).
    + exfalso. by apply (Huniq H2 j1).
    + by apply (wf_uniq h W).
  - unfold nodes. simpl. rewrite count_put. exact Hf.
Qed.

Lemma put_maps key d :
  maps put key d <->
  (0 < used n /\ e_key (entry n) = Some key /\ e_data (entry n) = Some d) \/
  (exists j, j <> i /\ live h j /\ e_key (entry (node h j)) = Some key /\
             e_data (entry (node h j)) = Some d).
Proof using W Hi.
  split.
  - intros (j & [[-> Hn]|[N L]]%put_live & E1 & E2).
    + rewrite put_same in *. by left.
    + rewrite put_other in * by (try done; destruct L; lia). right. by exists j.
  - intros [(Hn & E1 & E2)|(j & N & L & E1 & E2)].
    + exists i. rewrite put_same. split; [apply put_live; by left|done].
    + exists j. rewrite put_other by (try done; destruct L; lia). split; [apply put_live; by right|done].
Qed.
End Write.

(** * The abstract map *)

Lemma maps_hit h key d i :
  ht_wf h -> live h i -> e_key (entry (node h i)) = Some key ->
  maps h key d <-> e_data (entry (node h i)) = Some d.
Proof.
  intros W L E. split.
  - intros (j & Lj & Ej & Dj). by rewrite (wf_uniq h W i j L Lj) by congruence.
  - intros D. by exists i.
Qed.

Definition rep (h : hsearch_data) (m : gmap (list Z) (list Z)) : Prop :=
  ht_wf h /\ forall key d, m !! key = Some d <-> maps h key d.

Lemma filled_bound h : ht_wf h -> 0 <= filled h <= size h.
Proof.
  intros W. rewrite (wf_filled h W). split; [lia|].
  pose proof (sh_len h (wf_shape h W)) as L. pose proof (sh_size h (wf_shape h W)). pose proof (wf_zero h W) as Z0. unfold node in Z0.
  destruct (nodes h) as [|n0 t]; [simpl in L; lia|]. simpl in Z0, L.
  rewrite filter_cons. rewrite decide_False by (change (used n0 = USED_FREE) in Z0; unfold USED_FREE in Z0; lia).
  pose proof (length_filter (fun n => 0 < used n) t). lia.
Qed.

Lemma filter_all {A} (P : A -> Prop) `{forall x, Decision (P x)} (l : list A) :
  Forall P l -> filter P l = l.
Proof. induction 1 as [|x l Hx F IH]; [done|]. rewrite filter_cons_True by done. by rewrite IH. Qed.

(** Every node in use means a full table. *)
Lemma all_live_full h :
  ht_wf h -> (forall i, 1 <= i <= size h -> 0 < used (node h i)) -> filled h = size h.
Proof.
  intros W A. rewrite (wf_filled h W). pose proof (sh_len h (wf_shape h W)) as L.
  pose proof (sh_size h (wf_shape h W)). pose proof (wf_zero h W) as Z0. unfold node in *.
  destruct (nodes h) as [|n0 t]; [simpl in L; lia|]. simpl in L.
  change (used n0 = USED_FREE) in Z0. rewrite filter_cons_False by (unfold USED_FREE in Z0; lia).
  assert (filter (fun n => 0 < used n) t = t) as ->; [|lia].
  apply filter_all, Forall_lookup. intros j x Hx. pose proof (lookup_lt_Some _ _ _ Hx).
  specialize (A (Z.of_nat (S j)) ltac:(lia)). rewrite Nat2Z.id in A.
  change (0 < used (t !!! j)) in A. by rewrite (list_lookup_total_correct _ _ _ Hx) in A.
Qed.

Section Ops.
Context `{EnvHooks}.
Implicit Types (h : hsearch_data) (key d : list Z).

Lemma set_node_put h i n : is_Some (table h) -> set_node h i n = put h i n (filled h).
Proof. intros [t E]. unfold set_node, put, nodes. by rewrite E. Qed.

Lemma hit_maps h key : ht_wf h -> (exists i, hit h key i) <-> (exists d, maps h key d).
Proof.
  intros W. split.
  - intros (i & L & E). destruct (wf_live h W i L) as (k & d & _ & D & _). exists d, i. auto.
  - intros (d & i & L & E & _). by exists i.
Qed.

(** ** Finding *)

Lemma find_hit h key i mk md flag :
  ht_wf h -> plain key -> hit h key i ->
  hsearch_r mk md key None ENV_FIND h flag = Some (Result i (Some i) None h).
Proof.
  intros W Pk Hi. unfold hsearch_r. rewrite (search_hit h W key Pk _ _ _ _ i Hi).
  unfold compare_and_overwrite_entry.
  by rewrite (proj2 (compare_hit_iff h W key Pk i (proj1 (proj1 Hi))) Hi).
Qed.

Lemma find_miss h key data mk md flag :
  ht_wf h -> plain key -> (forall i, ~ hit h key i) ->
  hsearch_r mk md key data ENV_FIND h flag = Some (Result 0 None (Some ESRCH) h).
Proof.
  intros W Pk N. unfold hsearch_r.
  by destruct (search_miss h W key Pk md data ENV_FIND flag N) as (idx & fd & -> & _).
Qed.

(** ** Changing the value of an entry *)

Lemma overwrite_ok h key i d' :
  ht_wf h -> hit h key i ->
  let e := entry (node h i) in
  let h' := set_node h i (Node (used (node h i)) (Entry (e_key e) (Some d') (e_callback e) (e_flags e))) in
  ht_wf h' /\ forall k x, maps h' k x <-> (k = key /\ x = d') \/ (k <> key /\ maps h k x).
Proof.
  intros W [L E] e h'. pose proof L as [Li Lu]. pose proof (wf_shape h W) as S.
  subst h'. rewrite set_node_put by apply S.
  set (n := Node _ _). destruct (wf_live h W i L) as (k0 & d & Ek & Ed & Pl & Eu & Hp).
  rewrite E in Ek. injection Ek as <-. split.
  - apply put_wf; auto.
    + simpl. unfold USED_FREE. lia.
    + simpl. lia.
    + intros _. exists key, d'. simpl. auto.
    + intros _ j Lj N E'. apply N, (wf_uniq h W); auto.
    + rewrite !decide_True by done. lia.
  - intros k x. rewrite put_maps by done. subst n. simpl. fold e in E. rewrite E. split.
    + intros [(_ & [= <-] & [= <-])|(j & N & Lj & E1 & E2)]; [by left|]. right. split; [|by exists j].
      intros ->. apply N, (wf_uniq h W); auto. subst e. congruence.
    + intros [[-> ->]|[N (j & Lj & E1 & E2)]]; [by left|]. right. exists j.
      repeat split; try apply Lj; auto. intros ->. subst e. congruence.
Qed.

(** ** Removing an entry *)

Lemma delete_ok h key i :
  ht_wf h -> hit h key i ->
  ht_wf (hdelete_node h i) /\
  (forall k x, maps (hdelete_node h i) k x <-> k <> key /\ maps h k x) /\
  filled (hdelete_node h i) = filled h - 1.
Proof.
  intros W [L E]. pose proof L as [Li Lu]. pose proof (wf_shape h W) as S.
  pose proof (filled_bound h W) as Fb. pose proof (sh_size h S).
  assert (0 < filled h) as Fp.
  { rewrite (wf_filled h W). destruct (split_ex (nodes h) (Z.to_nat i)) as (l1 & x & l2 & En & El);
      [pose proof (sh_len h S); lia|].
    unfold node in Lu. rewrite En, <- El, lookup_total_app_mid in Lu.
    rewrite En, filter_app, filter_cons_True by done. rewrite length_app. simpl. lia. }
  set (n := Node USED_DELETED (Entry (e_key (entry (node h i))) (e_data (entry (node h i)))
                                     (e_callback (entry (node h i))) 0)).
  assert (hdelete_node h i = put h i n (filled h - 1)) as ->.
  { unfold hdelete_node. rewrite set_node_put by apply S. unfold set_filled, put. simpl.
    rewrite u32_small by lia. done. }
  split; [|split; [|done]].
  - apply put_wf; auto; try done.
    rewrite decide_False by (simpl; unfold USED_DELETED; lia). rewrite decide_True by done. lia.
  - intros k x. rewrite put_maps by done. split.
    + intros [(B & _)|(j & N & Lj & E1 & E2)]; [simpl in B; unfold USED_DELETED in B; lia|].
      split; [|by exists j]. intros ->. apply N, (wf_uniq h W); auto. congruence.
    + intros [N (j & Lj & E1 & E2)]. right. exists j. repeat split; try apply Lj; auto.
      intros ->. congruence.
Qed.

(** ** Creating an entry *)

(** The node chosen for a new key: not in use, on the key's probe sequence
    and with no free node before it. *)
Lemma choose_slot h key md data flag :
  ht_wf h -> plain key -> (forall i, ~ hit h key i) -> filled h <> size h ->
  exists idx fd, search_slot md key data ENV_ENTER h flag = Some (inr (idx, fd)) /\
    let i := if negb (fd =? 0) then fd else idx in
    1 <= i <= size h /\ used (node h i) <= 0 /\
    exists k, 0 <= k < size h /\ i = slot h key k /\
      forall j, 0 <= j < k -> used (node h (slot h key j)) <> USED_FREE.
Proof.
  intros W Pk N Hf. pose proof (wf_shape h W) as S.
  destruct (search_miss h W key Pk md data ENV_ENTER flag N) as (idx & fd & E & C).
  exists idx, fd. split; [done|]. cbv zeta.
  assert (forall k j, 0 <= j < k -> k <= size h -> skipped h key k -> used (node h (slot h key j)) = USED_DELETED ->
            let i := slot h key j in
            1 <= i <= size h /\ used (node h i) <= 0 /\
            exists k, 0 <= k < size h /\ i = slot h key k /\
              forall j, 0 <= j < k -> used (node h (slot h key j)) <> USED_FREE) as Del.
  { intros k j Hj Hk Sk U. cbv zeta. split; [apply (probe_range h S)|]. unfold USED_DELETED in U.
    split; [lia|]. exists j. repeat split; try lia. intros j' Hj'. apply Sk. lia. }
  destruct C as [(k & Hk & -> & Sk & U & [[-> _]|(j & Hj & -> & D)])|[Sk [[-> D]|(j & Hj & -> & D)]]].
  - simpl. split; [apply (probe_range h S)|]. unfold USED_FREE in U. split; [lia|].
    exists k. repeat split; try lia. intros j Hj. by apply Sk.
  - pose proof (probe_range h S key j). destruct (Z.eqb_spec (slot h key j) 0); [lia|].
    apply (Del k); auto; lia.
  - exfalso. apply Hf, all_live_full; [done|]. intros i Hi.
    destruct (probe_surj h S key i Hi) as (k & Hk & <-). destruct (Sk k Hk) as [U _].
    pose proof (wf_used h W _ (probe_range h S key k)). specialize (D k Hk).
    unfold USED_FREE, USED_DELETED in *. lia.
  - pose proof (probe_range h S key j). destruct (Z.eqb_spec (slot h key j) 0); [lia|].
    apply (Del (size h)); auto; lia.
Qed.

Lemma create_put h key d i fl :
  ht_wf h -> plain key -> (forall i, ~ hit h key i) -> filled h <> size h ->
  1 <= i <= size h -> used (node h i) <= 0 ->
  (exists k, 0 <= k < size h /\ i = slot h key k /\
     forall j, 0 <= j < k -> used (node h (slot h key j)) <> USED_FREE) ->
  let n := Node (hash1 h key) (Entry (Some key) (Some d) (env_callback_init key) fl) in
  let h3 := put h i n (filled h + 1) in
  ht_wf h3 /\ hit h3 key i /\
  (forall k x, maps h3 k x <-> (k = key /\ x = d) \/ (k <> key /\ maps h k x)).
Proof.
  intros W Pk N Hf Hi Hu Hp n h3. pose proof (wf_shape h W) as S. pose proof (hash1_range h S key).
  assert (ht_wf h3) as W3.
  { apply put_wf; auto.
    - simpl. unfold USED_FREE. lia.
    - simpl. lia.
    - intros _. exists key, d. auto 10.
    - intros _ j Lj Nj E. simpl in E. apply (N j). by split.
    - rewrite decide_True by (simpl; lia). rewrite decide_False by lia. lia. }
  split; [done|]. split.
  - split; [split; [done|]|]; subst h3; rewrite put_same by done; simpl; [lia|done].
  - intros k x. subst h3. rewrite put_maps by done. simpl. split.
    + intros [(_ & [= <-] & [= <-])|(j & Nj & Lj & E1 & E2)]; [by left|]. right. split; [|by exists j].
      intros ->. by apply (N j).
    + intros [[-> ->]|[Nk (j & Lj & E1 & E2)]]; [left; split; [lia|done]|].
      right. exists j. repeat split; try apply Lj; auto. intros ->. destruct Lj. lia.
Qed.

(** [create_entry] with memory available. *)
Lemma create_entry_eq h key d flag i :
  ht_wf h -> filled h <> size h -> 1 <= i <= size h ->
  let e := Entry (Some key) (Some d) (env_callback_init key)
                 (default (e_flags (entry (node h i))) (env_flags_init key)) in
  let h3 := put h i (Node (hash1 h key) e) (filled h + 1) in
  create_entry true true key (Some d) h flag (hash1 h key) i =
    if denied e (Some d) env_op_create flag then Result 0 None (Some EPERM) (hdelete_node h3 i)
    else if negb (do_callback e key (Some d) env_op_create flag =? 0)
    then Result 0 None (Some EINVAL) (hdelete_node h3 i)
    else Result 1 (Some i) None h3.
Proof.
  intros W Hf Hi e h3. pose proof (wf_shape h W) as S. pose proof (filled_bound h W).
  pose proof (sh_size h S). destruct (sh_table h S) as [t Et].
  unfold create_entry, set_filled, set_node. simpl. rewrite Et. simpl. rewrite u32_small by lia.
  subst h3. unfold put, nodes. rewrite Et. simpl. rewrite list_insert_insert_eq. done.
Qed.
End Ops.
