(* ===== verification/HashClaims.v ===== *)
(** The environment hash table: its guarantees.  A table created by
    [hcreate_r] represents the empty map; searching, entering and deleting
    act on the map they represent, whatever the hooks answer. *)

From Stdlib Require Import Znumtheory.
From stdpp Require Import gmap.
From S2P Require Import Prelude Bytes Cstring CstringProps Qsort Hashtable HashSearch HashProps.

(** * Prime table sizes *)

Section Prime.
Context (n : Z).
Hypothesis Hn : 3 < n < 2147483648.
Hypothesis Hodd : n mod 2 = 1.

Definition no_divisor (div : Z) : Prop := forall d, 3 <= d < div -> d mod 2 = 1 -> n mod d <> 0.

Lemma mod_0_divide d : 0 < d -> n mod d = 0 <-> (d | n).
Proof. intros. apply Z.mod_divide. lia. Qed.

(** Without a divisor up to its square root an odd number is prime. *)
Lemma prime_by_trial div :
  no_divisor div -> 3 <= div -> n <= div * div -> n mod div <> 0 -> div mod 2 = 1 -> prime n.
Proof using Hn Hodd.
  intros Nd Hd Hsq Nm Ho. apply prime_alt. split; [lia|]. intros d Hd1 [e E].
  assert (forall c, 1 < c -> (c | n) -> c * c <= n -> False) as Small.
  { intros c Hc Dc Hcc.
    assert (c mod 2 = 1) as Hco.
    { destruct Dc as [q ->]. pose proof (Z.mod_pos_bound c 2 ltac:(lia)).
      destruct (Z.eq_dec (c mod 2) 0) as [Z0|]; [|lia].
      rewrite Z.mul_mod, Z0, Z.mul_0_r in Hodd by lia. discriminate Hodd. }
    assert (c <= div) by nia. apply mod_0_divide in Dc; [|lia].
    destruct (Z.eq_dec c div) as [->|]; [done|]. apply (Nd c); auto.
    assert (c <> 2) by (intros ->; discriminate Hco). lia. }
  assert (0 < e) by nia.
  destruct (Z.le_gt_cases d e).
  - apply (Small d); [lia|by exists e|nia].
  - apply (Small e); [nia|exists d; lia|nia].
Qed.

Lemma isprime_from_ok (fuel : nat) : forall div,
  no_divisor div -> 3 <= div -> div mod 2 = 1 -> (div - 2) * (div - 2) < n ->
  46345 <= div + 2 * Z.of_nat fuel ->
  exists b, isprime_from fuel div n = Some b /\ (b = true <-> prime n).
Proof using Hn Hodd.
  induction fuel as [|fuel IH]; intros div Nd Hd Ho Hsq Hf; cbn [isprime_from].
  - exfalso. assert (46343 * 46343 <= (div - 2) * (div - 2)) by (apply Z.mul_le_mono_nonneg; lia). lia.
  - assert (div <= 46343) as Hb.
    { destruct (Z.le_gt_cases div 46343); [done|].
      assert (46342 * 46342 <= (div - 2) * (div - 2)) by (apply Z.mul_le_mono_nonneg; lia). lia. }
    assert (div * div < 4294967296) by nia. rewrite u32_small by nia.
    assert (div < n) by nia.
    assert (n mod div = 0 -> ~ prime n) as Comp.
    { intros M P. apply prime_alt in P as [_ P]. apply (P div); [lia|]. apply mod_0_divide; lia. }
    destruct (Z.ltb_spec (div * div) n) as [Hlt|Hge]; simpl.
    + destruct (Z.eqb_spec (n mod div) 0) as [M|M]; simpl.
      { eexists; split; [reflexivity|]. split; [done|]. intros P. by destruct (Comp M). }
      rewrite u32_small by lia. apply IH; [|lia|zlia|by replace (div + 2 - 2) with div by lia|lia].
      intros d Hd' Hdo. destruct (Z.eq_dec d div) as [->|]; [done|].
      destruct (Z.eq_dec d (div + 1)) as [->|]; [|apply Nd; [lia|done]].
      exfalso. zlia.
    + eexists; split; [reflexivity|].
      destruct (Z.eqb_spec (n mod div) 0) as [M|M]; simpl.
      * split; [done|]. intros P. by destruct (Comp M).
      * split; [intros _; by apply (prime_by_trial div)|done].
Qed.
End Prime.

Lemma isprime_ok (n : Z) :
  3 < n < 2147483648 -> n mod 2 = 1 ->
  exists b, isprime n = Some b /\ (b = true <-> prime n).
Proof.
  intros Hn Ho. unfold isprime. apply isprime_from_ok; auto; try lia.
  intros d Hd. lia.
Qed.

(** [isprime] decides primality of the odd numbers above 3 that an int can
    hold, within the divisions its loop makes. *)
Theorem isprime_decides (n : Z) :
  3 < n < 2147483648 -> n mod 2 = 1 ->
  exists b, isprime n = Some b /\ (b = true <-> prime n).
Proof. apply isprime_ok. Qed.

Lemma isprime_decides_witness : exists b, isprime 509 = Some b /\ (b = true <-> prime 509).
Proof. apply (isprime_decides 509); [lia|reflexivity]. Defined.

(** * Creating a table *)

Lemma next_prime_ok fuel : forall n p,
  3 < n -> n mod 2 = 1 -> n + 2 * Z.of_nat fuel < 2147483648 ->
  next_prime fuel n = Some p -> prime p /\ n <= p < 2147483648.
Proof.
  induction fuel as [|fuel IH]; intros n p Hn Ho Hb; cbn [next_prime];
    destruct (isprime_ok n ltac:(lia) Ho) as (b & -> & Hp); destruct b; try done;
    try (intros [= <-]; split; [by apply Hp|lia]).
  intros E. apply IH in E; [|lia|zlia|lia]. split; [apply E|lia].
Qed.

Lemma node_replicate (k : nat) (n : Z) (h : hsearch_data) :
  table h = Some (replicate k node0) -> node h n = node0.
Proof.
  intros E. unfold node, nodes. rewrite E. simpl.
  destruct (decide (Z.to_nat n < k)%nat).
  - by rewrite lookup_total_replicate_2.
  - rewrite list_lookup_total_alt.
    assert (replicate k node0 !! Z.to_nat n = None) as ->; [|done].
    apply lookup_ge_None. rewrite length_replicate. lia.
Qed.

Lemma fresh_rep (p : Z) :
  prime p -> 3 < p < 2147483648 -> rep (Htab (Some (replicate (Z.to_nat (p + 1)) node0)) p 0) ∅.
Proof.
  intros Hp Hb. set (h := Htab _ _ _).
  assert (forall i, node h i = node0) as N by (intros; by eapply node_replicate).
  assert (forall i, ~ live h i) as L by (intros i [_ L]; rewrite N in L; simpl in L; lia).
  split.
  - constructor; auto.
    + constructor; simpl; eauto. unfold nodes; simpl. rewrite length_replicate. lia.
    + by rewrite N.
    + intros i _. rewrite N. simpl. lia.
    + intros i Li. by destruct (L i).
    + intros i j Li. by destruct (L i).
    + unfold nodes; simpl. generalize (Z.to_nat (p + 1)). intros k. induction k as [|k IH]; [done|].
      rewrite replicate_S, filter_cons_False by (simpl; lia). exact IH.
  - intros key d. rewrite lookup_empty. split; [done|]. intros (i & Li & _). by destruct (L i).
Qed.

Definition create_size (nel : Z) : bool :=
  let n := Z.lor nel 1 in
  (nel <=? n) && (n <=? nel + 1) && (n mod 2 =? 1) &&
  match next_prime 20 n with Some _ => true | None => false end.

Lemma hcreate_ok (nel : Z) (h : hsearch_data) :
  4 <= nel <= 1024 ->
  (table h = None ->
   (exists h', hcreate_r 20 true nel h = Some (1, None, h') /\ rep h' ∅ /\ nel <= size h') /\
   (exists h', hcreate_r 20 false nel h = Some (0, Some ENOMEM, h') /\ table h' = None)) /\
  (forall mem_ok, table h <> None -> hcreate_r 20 mem_ok nel h = Some (0, Some EINVAL, h)).
Proof.
  intros Hn. unfold hcreate_r. split.
  - intros ->.
    assert (forallb create_size (map Z.of_nat (seq 4 1021)) = true) as F by (vm_compute; reflexivity).
    rewrite forallb_forall in F. specialize (F nel).
    assert (In nel (map Z.of_nat (seq 4 1021))) as I
      by (apply in_map_iff; exists (Z.to_nat nel); rewrite in_seq; lia).
    specialize (F I). unfold create_size in F. rewrite !andb_true_iff in F.
    destruct F as [[[F1 F2] F3] F4]. apply Z.leb_le in F1, F2. apply Z.eqb_eq in F3.
    destruct (next_prime 20 (Z.lor nel 1)) as [p|] eqn:E; [|done].
    assert (prime p /\ Z.lor nel 1 <= p < 2147483648) as [Pp Bp].
    { apply (next_prime_ok 20); auto; lia. }
    split; eexists; (split; [reflexivity|]); [|done].
    split; [apply fresh_rep; [done|]|simpl; lia]. lia.
  - intros mem_ok Ht. by destruct (table h).
Qed.

(** For every size from 4 to 1024 entries (himport_r asks for 64 to 512)
    [hcreate_r] ends, takes a prime size at least the one asked for and
    leaves a table that represents the empty map; on an existing table it
    fails with EINVAL and without memory with ENOMEM. *)
Theorem hcreate_r_empty (nel : Z) (h : hsearch_data) :
  4 <= nel <= 1024 ->
  (table h = None ->
   (exists h', hcreate_r 20 true nel h = Some (1, None, h') /\ rep h' ∅ /\ nel <= size h') /\
   (exists h', hcreate_r 20 false nel h = Some (0, Some ENOMEM, h') /\ table h' = None)) /\
  (forall mem_ok, table h <> None -> hcreate_r 20 mem_ok nel h = Some (0, Some EINVAL, h)).
Proof. apply hcreate_ok. Qed.

Lemma hcreate_r_empty_witness :
  exists h', hcreate_r 20 true 512 (Htab None 0 0) = Some (1, None, h') /\ rep h' ∅ /\ 512 <= size h'.
Proof. apply (hcreate_r_empty 512 (Htab None 0 0)); [lia|reflexivity]. Defined.

(** * Entries *)

Section Entries.
Context `{EnvHooks}.
Implicit Types (h : hsearch_data) (m : gmap (list Z) (list Z)) (key d : list Z).

Lemma rep_hit h m key d : rep h m -> m !! key = Some d ->
  exists i, hit h key i /\ e_data (entry (node h i)) = Some d.
Proof. intros [W R] (i & L & E & D)%R. exists i. by split; [split|]. Qed.

Lemma rep_absent h m key : rep h m -> m !! key = None -> forall i, ~ hit h key i.
Proof.
  intros [W R] N i Hi. destruct (proj1 (hit_maps h key W)) as [d Hd]; [by exists i|].
  apply R in Hd. congruence.
Qed.

Lemma rep_insert h m key d h' :
  rep h m -> ht_wf h' ->
  (forall k x, maps h' k x <-> (k = key /\ x = d) \/ (k <> key /\ maps h k x)) ->
  rep h' (<[key := d]> m).
Proof.
  intros [W R] W' M. split; [done|]. intros k x. rewrite M, lookup_insert_Some, R. naive_solver.
Qed.

Lemma rep_delete h m key h' :
  rep h m -> ht_wf h' -> (forall k x, maps h' k x <-> k <> key /\ maps h k x) ->
  rep h' (delete key m).
Proof.
  intros [W R] W' M. split; [done|]. intros k x. rewrite M, lookup_delete_Some, R. naive_solver.
Qed.

(** A refused change: the permission check or the callback of an entry with
    this key said no, and [errno] tells which. *)
Definition refused key value op flag (err : option Z) : Prop :=
  exists e, e_key e = Some key /\
    ((err = Some EPERM /\ denied e value op flag = true) \/
     (err = Some EINVAL /\ do_callback e key value op flag <> 0)).

Lemma enter_present h m key d old flag mk :
  rep h m -> plain key -> m !! key = Some old ->
  exists r, hsearch_r mk true key (Some d) ENV_ENTER h flag = Some r /\
    ((0 < sr_ret r /\ sr_errno r = None /\ rep (sr_tab r) (<[key := d]> m) /\
      filled (sr_tab r) = filled h /\ size (sr_tab r) = size h) \/
     (sr_ret r = 0 /\ sr_tab r = h /\ refused key (Some d) env_op_overwrite flag (sr_errno r))).
Proof.
  intros R Pk E. pose proof R as [W _]. destruct (rep_hit h m key old R E) as (i & Hi & _).
  pose proof Hi as [[Li _] Ek].
  unfold hsearch_r. rewrite (search_hit h W key Pk _ _ _ _ i Hi).
  unfold compare_and_overwrite_entry. rewrite (proj2 (compare_hit_iff h W key Pk i Li) Hi).
  destruct (denied _ _ _ _) eqn:Dn.
  { eexists; split; [reflexivity|]. right. simpl. repeat split. eexists; split; [exact Ek|]. by left. }
  destruct (Z.eqb_spec (do_callback (entry (node h i)) key (Some d) env_op_overwrite flag) 0) as [Ec|Ec]; simpl.
  - eexists; split; [reflexivity|]. left. simpl. split; [lia|]. split; [done|].
    destruct (overwrite_ok h key i d W Hi) as [W' M]. split; [by eapply rep_insert|done].
  - eexists; split; [reflexivity|]. right. simpl. repeat split. eexists; split; [exact Ek|]. by right.
Qed.

Lemma enter_absent h m key d flag :
  rep h m -> plain key -> m !! key = None ->
  exists r, hsearch_r true true key (Some d) ENV_ENTER h flag = Some r /\
    ((0 < sr_ret r /\ sr_errno r = None /\ rep (sr_tab r) (<[key := d]> m) /\
      filled (sr_tab r) = filled h + 1 /\ size (sr_tab r) = size h) \/
     (sr_ret r = 0 /\ rep (sr_tab r) m /\
      ((sr_errno r = Some ENOMEM /\ filled h = size h /\ sr_tab r = h) \/
       refused key (Some d) env_op_create flag (sr_errno r)))).
Proof.
  intros R Pk E. pose proof R as [W Rm]. pose proof (rep_absent h m key R E) as N.
  unfold hsearch_r. destruct (Z.eq_dec (filled h) (size h)) as [Hf|Hf].
  - destruct (search_miss h W key Pk true (Some d) ENV_ENTER flag N) as (idx & fd & -> & _).
    rewrite Hf, Z.eqb_refl. eexists; split; [reflexivity|]. right. simpl.
    split; [done|]. split; [done|]. left. auto.
  - destruct (choose_slot h key true (Some d) flag W Pk N Hf) as (idx & fd & -> & Hi & Hu & Hp).
    rewrite (proj2 (Z.eqb_neq _ _) Hf). eexists; split; [reflexivity|].
    set (i := if negb (fd =? 0) then fd else idx) in *.
    rewrite (create_entry_eq h key d flag i W Hf Hi).
    destruct (create_put h key d i (default (e_flags (entry (node h i))) (env_flags_init key)) W Pk N Hf Hi Hu Hp) as (W3 & Hit3 & M3).
    set (h3 := put h i _ _) in *. set (e := Entry (Some key) (Some d) _ _) in *.
    destruct (delete_ok h3 key i W3 Hit3) as (W4 & M4 & _).
    assert (rep (hdelete_node h3 i) m) as R4.
    { split; [done|]. intros k x. rewrite M4, M3, Rm. split; [|naive_solver].
      intros Mk. assert (k <> key); [|naive_solver]. intros ->. apply Rm in Mk. congruence. }
    destruct (denied e _ _ _) eqn:Dn; [right; simpl; split; [done|]; split; [exact R4|]; right; exists e; auto|].
    destruct (Z.eqb_spec (do_callback e key (Some d) env_op_create flag) 0); simpl.
    + left. split; [lia|]. split; [done|]. split; [exact (rep_insert h m key d h3 R W3 M3)|done].
    + right. split; [done|]. split; [exact R4|]. right. exists e. auto.
Qed.
End Entries.

(** Hooks that allow everything. *)
Definition no_hooks : EnvHooks := {|
  change_ok := None; run_callback _ _ _ _ _ := 0;
  env_callback_init _ := None; env_flags_init _ := None
|}.

(** Finding is map lookup: with an entry for the key, hsearch_r returns a
    positive index whose node holds that key and value; without one it returns
    0, NULL and ESRCH.  The search always ends and changes nothing. *)
Theorem hsearch_find_lookup `{EnvHooks} (h : hsearch_data) (m : gmap (list Z) (list Z))
    (key : list Z) (flag : Z) :
  rep h m -> plain key ->
  match m !! key with
  | Some d => exists i, 0 < i <= size h /\
      hsearch_r true true key None ENV_FIND h flag = Some (Result i (Some i) None h) /\
      e_key (entry (node h i)) = Some key /\ e_data (entry (node h i)) = Some d
  | None => hsearch_r true true key None ENV_FIND h flag = Some (Result 0 None (Some ESRCH) h)
  end.
Proof.
  intros R Pk. pose proof R as [W _]. destruct (m !! key) as [d|] eqn:E.
  - destruct (rep_hit h m key d R E) as (i & Hi & D). exists i. pose proof Hi as [[L _] Ek].
    split; [lia|]. split; [by apply find_hit|done].
  - apply find_miss; auto. by eapply rep_absent.
Qed.

(** A table holding three variables, for the witnesses. *)
Definition demo_key (c : Z) : list Z := [118; 97; 114; c].
Definition demo_tab : hsearch_data :=
  let h0 := match hcreate_r 20 true 5 (Htab None 0 0) with
            | Some (_, _, h) => h | None => Htab None 0 0 end in
  let set h k d := match @hsearch_r no_hooks true true k (Some d) ENV_ENTER h 0 with
                   | Some r => sr_tab r | None => h end in
  set (set (set h0 (demo_key 65) [49]) (demo_key 66) [50; 50]) (demo_key 67) [51; 92; 10].
Definition demo_map : gmap (list Z) (list Z) :=
  {[ demo_key 67 := [51; 92; 10]; demo_key 66 := [50; 50]; demo_key 65 := [49] ]}.

Lemma prime_5 : prime 5.
Proof.
  destruct (isprime_ok 5) as (b & E & Hb); [lia|reflexivity|].
  apply Hb. assert (Some b = Some true) as [= ->] by (rewrite <- E; reflexivity). done.
Qed.

Lemma demo_rep : rep demo_tab demo_map.
Proof.
  assert (rep (Htab (Some (replicate 6 node0)) 5 0) ∅) as R0 by (apply (fresh_rep 5 prime_5); lia).
  assert (forall k d h m, rep h m -> plain k -> m !! k = None -> filled h <> size h ->
    rep (match @hsearch_r no_hooks true true k (Some d) ENV_ENTER h 0 with
         | Some r => sr_tab r | None => h end) (<[k := d]> m)) as Step.
  { intros k d h m R Pk E Hf. destruct (@enter_absent no_hooks h m k d 0 R Pk E) as (r & -> & [S|S]); [apply S|].
    exfalso. destruct S as (_ & _ & [(_ & ? & _)|(e & _ & [[_ D]|[_ D]])]); [done|discriminate D|].
    apply D. unfold do_callback. by destruct (e_callback e). }
  unfold demo_tab, demo_map. cbv zeta.
  replace (match hcreate_r 20 true 5 (Htab None 0 0) with Some (_, _, h) => h | None => Htab None 0 0 end)
    with (Htab (Some (replicate 6 node0)) 5 0) by (vm_compute; reflexivity).
  assert (forall c, plain (demo_key c) \/ c = 0) as Pl.
  { intros c. destruct (Z.eq_dec c 0); [by right|]. left. repeat constructor; done. }
  apply Step; [apply Step; [apply Step; [exact R0|by destruct (Pl 65)| |]|by destruct (Pl 66)| |]
              |by destruct (Pl 67)| |]; vm_compute; done.
Qed.

Lemma hsearch_find_lookup_witness :
  exists i, 0 < i <= 5 /\
    @hsearch_r no_hooks true true (demo_key 66) None ENV_FIND demo_tab 0
      = Some (Result i (Some i) None demo_tab) /\
    e_key (entry (node demo_tab i)) = Some (demo_key 66) /\
    e_data (entry (node demo_tab i)) = Some [50; 50].
Proof.
  apply (@hsearch_find_lookup no_hooks demo_tab demo_map (demo_key 66) 0 demo_rep).
  repeat constructor; discriminate.
Defined.

(** C9: Entering is map insertion: hsearch_r always ends, and either it
    succeeds with a positive result and the table represents the map with the
    value set, or it returns 0 with the map as it was, because the table is
    full (ENOMEM, a new key and no free node), the permission check refused
    (EPERM) or the variable's callback did (EINVAL). *)
Theorem hsearch_enter_insert `{EnvHooks} (h : hsearch_data) (m : gmap (list Z) (list Z))
    (key d : list Z) (flag : Z) :
  rep h m -> plain key ->
  exists r, hsearch_r true true key (Some d) ENV_ENTER h flag = Some r /\
    ((0 < sr_ret r /\ sr_errno r = None /\ rep (sr_tab r) (<[key := d]> m)) \/
     (sr_ret r = 0 /\ rep (sr_tab r) m /\
      ((sr_errno r = Some ENOMEM /\ m !! key = None /\ filled h = size h) \/
       exists op, refused key (Some d) op flag (sr_errno r)))).
Proof.
  intros R Pk. destruct (m !! key) as [old|] eqn:E.
  - destruct (enter_present h m key d old flag true R Pk E) as (r & Er & [S|(S1 & S0 & S2)]);
      exists r; (split; [exact Er|]); [left; split; [apply S|]; split; apply S|].
    right. rewrite S0. eauto 6.
  - destruct (enter_absent h m key d flag R Pk E) as (r & Er & [S|(S1 & S2 & [S3|S3])]);
      exists r; (split; [exact Er|]); [left; split; [apply S|]; split; apply S| |].
    + right. split; [done|]. split; [done|]. left. split; [apply S3|]. split; [done|apply S3].
    + right. eauto 6.
Qed.

Lemma hsearch_enter_insert_witness :
  exists r, @hsearch_r no_hooks true true (demo_key 65) (Some [57]) ENV_ENTER demo_tab 0 = Some r /\
    ((0 < sr_ret r /\ sr_errno r = None /\ rep (sr_tab r) (<[demo_key 65 := [57]]> demo_map)) \/
     (sr_ret r = 0 /\ rep (sr_tab r) demo_map /\
      ((sr_errno r = Some ENOMEM /\ demo_map !! demo_key 65 = None /\ filled demo_tab = size demo_tab) \/
       exists op, @refused no_hooks (demo_key 65) (Some [57]) op 0 (sr_errno r)))).
Proof.
  apply (@hsearch_enter_insert no_hooks demo_tab demo_map (demo_key 65) [57] 0 demo_rep).
  repeat constructor; discriminate.
Defined.

(** C35: Deleting is map deletion: hdelete_r always ends; for a missing key it
    returns -ENOENT and changes nothing, and otherwise it either returns 0 and
    the table represents the map without the key, or it leaves the table alone
    and returns -EPERM or -EINVAL because the permission check or the callback
    refused. *)
Theorem hdelete_r_delete `{EnvHooks} (h : hsearch_data) (m : gmap (list Z) (list Z))
    (key : list Z) (flag : Z) :
  rep h m -> plain key ->
  match m !! key with
  | None => hdelete_r key h flag = Some (- ENOENT, Some ESRCH, h)
  | Some _ =>
      (exists h', hdelete_r key h flag = Some (0, None, h') /\ rep h' (delete key m)) \/
      (exists err, hdelete_r key h flag = Some (- err, Some err, h) /\
         refused key None env_op_delete flag (Some err))
  end.
Proof.
  intros R Pk. pose proof R as [W _]. unfold hdelete_r. destruct (m !! key) as [d|] eqn:E.
  - destruct (rep_hit h m key d R E) as (i & Hi & _). pose proof Hi as [[L _] Ek].
    rewrite (find_hit h key i _ _ _ W Pk Hi). cbn [sr_ret]. destruct (Z.eqb_spec i 0); [lia|].
    destruct (denied _ _ _ _) eqn:Dn.
    { right. exists EPERM. split; [done|]. eexists; split; [exact Ek|]. by left. }
    destruct (Z.eqb_spec (do_callback (entry (node h i)) key None env_op_delete flag) 0); cbn [negb].
    + left. eexists; split; [reflexivity|]. destruct (delete_ok h key i W Hi) as (W' & M & _).
      by eapply rep_delete.
    + right. exists EINVAL. split; [done|]. eexists; split; [exact Ek|]. by right.
  - rewrite find_miss; auto. by eapply rep_absent.
Qed.

Lemma hdelete_r_delete_witness :
  (exists h', @hdelete_r no_hooks (demo_key 66) demo_tab 0 = Some (0, None, h') /\
     rep h' (delete (demo_key 66) demo_map)) \/
  (exists err, @hdelete_r no_hooks (demo_key 66) demo_tab 0 = Some (- err, Some err, demo_tab) /\
     @refused no_hooks (demo_key 66) None env_op_delete 0 (Some err)).
Proof.
  apply (@hdelete_r_delete no_hooks demo_tab demo_map (demo_key 66) 0 demo_rep).
  repeat constructor; discriminate.
Defined.

(** [hmatch_r] stops one node short: its loop never looks at node [size],
    so an entry stored there is not found although its name matches. *)
Theorem hmatch_r_misses_last :
  let set h k := match @hsearch_r no_hooks true true k (Some [49]) ENV_ENTER h 0 with
                 | Some r => sr_tab r | None => h end in
  let h := set (set (set (Htab (Some (replicate 6 node0)) 5 0) [98]) [103]) [108] in
  @hsearch_r no_hooks true true [108] None ENV_FIND h 0 = Some (Result (size h) (Some (size h)) None h) /\
  hmatch_r [108] 0 h = 0.
Proof. vm_compute. split; reflexivity. Qed.
