(* ===== verification/HashEntries.v ===== *)
(** The environment table as a map of whole entries: value, callback and
    flags.  The operations of lib/hashtable.c are exactly the operations
    [find_entry], [enter_entry] and [delete_entry] on that map, which is what
    the theorems about permissions and types build on. *)

From Stdlib Require Import Znumtheory.
From stdpp Require Import gmap.
From S2P Require Import Prelude Bytes Cstring CstringProps Hashtable HashSearch HashProps HashClaims.

Abbreviation env_map := (gmap (list Z) env_entry).

(** A live node has the key and this entry. *)
Definition holds (h : hsearch_data) (key : list Z) (e : env_entry) : Prop :=
  exists i, hit h key i /\ entry (node h i) = e.

(** Nodes that are not in use carry no flags: calloc clears them and
    _hdelete resets them, so a new variable does not inherit any. *)
Definition unused_clean (h : hsearch_data) : Prop :=
  forall i, 1 <= i <= size h -> used (node h i) <= 0 -> e_flags (entry (node h i)) = 0.

Definition env_rep (h : hsearch_data) (M : env_map) : Prop :=
  ht_wf h /\ unused_clean h /\ forall key e, M !! key = Some e <-> holds h key e.

(** * The abstract operations *)

Definition with_data (e : env_entry) (d : list Z) : env_entry :=
  Entry (e_key e) (Some d) (e_callback e) (e_flags e).

Section Spec.
Context `{EnvHooks}.

Definition new_entry (key d : list Z) : env_entry :=
  Entry (Some key) (Some d) (env_callback_init key) (default 0 (env_flags_init key)).

(** Permission check, then the variable's callback; the error, if any. *)
Definition change_error (e : env_entry) (key : list Z) (value : option (list Z)) (op : env_op)
    (flag : Z) : option Z :=
  if denied e value op flag then Some EPERM
  else if negb (do_callback e key value op flag =? 0) then Some EINVAL
  else None.

Definition enter_entry (full : bool) (flag : Z) (key d : list Z) (M : env_map) : option Z * env_map :=
  match M !! key with
  | Some e => match change_error e key (Some d) env_op_overwrite flag with
              | Some err => (Some err, M)
              | None => (None, <[key := with_data e d]> M)
              end
  | None =>
      if full then (Some ENOMEM, M)
      else let e := new_entry key d in
           match change_error e key (Some d) env_op_create flag with
           | Some err => (Some err, M)
           | None => (None, <[key := e]> M)
           end
  end.

(** The return value of hdelete_r and the map. *)
Definition delete_entry (flag : Z) (key : list Z) (M : env_map) : Z * env_map :=
  match M !! key with
  | None => (- ENOENT, M)
  | Some e => match change_error e key None env_op_delete flag with
              | Some err => (- err, M)
              | None => (0, delete key M)
              end
  end.
End Spec.

(** * Writing one node *)

Section Put.
Context (h : hsearch_data) (W : ht_wf h) (i : Z) (Hi : 1 <= i <= size h) (key : list Z).
Hypothesis only : forall k, hit h k i -> k = key.
Hypothesis unique : forall j, hit h key j -> j = i.

Lemma put_holds n f k e :
  e_key (entry n) = Some key ->
  holds (put h i n f) k e <-> (k = key /\ 0 < used n /\ e = entry n) \/ (k <> key /\ holds h k e).
Proof using W Hi only unique.
  intros Ek. unfold holds, hit. split.
  - intros (j & ([[-> Hu]|[N L]]%(put_live h W i n f Hi) & Ej) & Ee).
    + rewrite put_same in * by done. left. split; [congruence|]. by split.
    + rewrite put_other in * by (try done; destruct L; lia). right. split; [|by exists j].
      intros ->. by apply N, unique.
  - intros [(-> & Hu & ->)|(N & j & [L Ej] & Ee)].
    + exists i. rewrite put_same by done. split; [split; [apply put_live; auto|done]|done].
    + assert (j <> i) as Nj by (intros ->; by apply N, only).
      exists j. rewrite put_other by (try done; destruct L; lia).
      split; [split; [apply put_live; auto|done]|done].
Qed.

Lemma put_clean n f :
  unused_clean h -> (used n <= 0 -> e_flags (entry n) = 0) -> unused_clean (put h i n f).
Proof using W Hi.
  intros C Cn j Hj. destruct (Z.eq_dec j i) as [->|N]; [by rewrite put_same|].
  rewrite put_other by lia. by apply C.
Qed.
End Put.

Lemma hit_uniq h key i j : ht_wf h -> hit h key i -> hit h key j -> j = i.
Proof. intros W [Li Ei] [Lj Ej]. apply (wf_uniq h W); congruence. Qed.
Lemma hit_key h i k1 k2 : hit h k1 i -> hit h k2 i -> k2 = k1.
Proof. intros [_ E1] [_ E2]. congruence. Qed.
Create HintDb hashdb.
#[export] Hint Resolve hit_uniq hit_key : hashdb.

Section Refine.
Context `{EnvHooks}.
Implicit Types (h : hsearch_data) (M : env_map) (key d : list Z).

Lemma env_rep_hit h M key e : env_rep h M -> M !! key = Some e ->
  exists i, hit h key i /\ entry (node h i) = e.
Proof. intros (W & C & R) E. by apply R in E. Qed.

Lemma env_rep_absent h M key : env_rep h M -> M !! key = None -> forall i, ~ hit h key i.
Proof.
  intros (W & C & R) N i Hi. enough (M !! key = Some (entry (node h i))) by congruence.
  apply R. by exists i.
Qed.

(** The state after a write represents the updated map. *)
Lemma env_rep_insert h h' M key e :
  env_rep h M -> ht_wf h' -> unused_clean h' ->
  (forall k x, holds h' k x <-> (k = key /\ x = e) \/ (k <> key /\ holds h k x)) ->
  env_rep h' (<[key := e]> M).
Proof.
  intros (W & C & R) W' C' HH. split; [done|]. split; [done|]. intros k x.
  rewrite HH, lookup_insert_Some, R. naive_solver.
Qed.

Lemma env_rep_delete h h' M key :
  env_rep h M -> ht_wf h' -> unused_clean h' ->
  (forall k x, holds h' k x <-> k <> key /\ holds h k x) -> env_rep h' (delete key M).
Proof.
  intros (W & C & R) W' C' HH. split; [done|]. split; [done|]. intros k x.
  rewrite HH, lookup_delete_Some, R. naive_solver.
Qed.

Lemma set_data_rep h M key d i :
  env_rep h M -> hit h key i ->
  env_rep (set_node h i (Node (used (node h i)) (with_data (entry (node h i)) d)))
          (<[key := with_data (entry (node h i)) d]> M).
Proof.
  intros R Hi. pose proof R as (W & C & _). pose proof Hi as [[L U] E].
  destruct (overwrite_ok h key i d W Hi) as [W' _].
  apply (env_rep_insert h); [done|exact W'| |]; rewrite set_node_put by apply (wf_shape h W).
  - apply put_clean; auto. cbn [used]. lia.
  - intros k x. rewrite put_holds by (eauto with hashdb; exact E). cbn [used entry]. naive_solver.
Qed.

Lemma hdelete_node_rep h M key i :
  env_rep h M -> hit h key i -> env_rep (hdelete_node h i) (delete key M).
Proof.
  intros R Hi. pose proof R as (W & C & _). pose proof Hi as [[L U] E].
  destruct (delete_ok h key i W Hi) as (W' & _ & Ef).
  assert (hdelete_node h i = put h i (Node USED_DELETED (Entry (e_key (entry (node h i)))
            (e_data (entry (node h i))) (e_callback (entry (node h i))) 0)) (filled h - 1)) as Eh.
  { cbn in Ef. unfold hdelete_node. rewrite set_node_put by apply (wf_shape h W).
    unfold set_filled, put. cbn [table size filled] in *. f_equal. exact Ef. }
  apply (env_rep_delete h); [done|exact W'| |]; rewrite Eh.
  - apply put_clean; auto.
  - intros k x. rewrite put_holds by (eauto with hashdb; exact E). cbn [used entry].
    unfold USED_DELETED. split; [intros [(_ & ? & _)|?]; [lia|done]|by right].
Qed.

(** * What the operations do *)

Lemma find_refines h M key flag :
  env_rep h M -> plain key ->
  match M !! key with
  | Some e => exists i, 0 < i <= size h /\ entry (node h i) = e /\
      hsearch_r true true key None ENV_FIND h flag = Some (Result i (Some i) None h)
  | None => hsearch_r true true key None ENV_FIND h flag = Some (Result 0 None (Some ESRCH) h)
  end.
Proof.
  intros R Pk. pose proof R as (W & _ & _). destruct (M !! key) as [e|] eqn:E.
  - destruct (env_rep_hit h M key e R E) as (i & Hi & Ee). exists i. pose proof Hi as [[L _] _].
    split; [lia|]. split; [done|]. by apply find_hit.
  - apply find_miss; auto. by eapply env_rep_absent.
Qed.

Lemma enter_present_refines h M key d flag e full :
  env_rep h M -> plain key -> M !! key = Some e ->
  exists r, hsearch_r true true key (Some d) ENV_ENTER h flag = Some r /\
    let '(err, M') := enter_entry full flag key d M in
    sr_errno r = err /\ env_rep (sr_tab r) M' /\ (sr_ret r = 0 <-> err <> None).
Proof.
  intros R Pk E. pose proof R as (W & _ & _). destruct (env_rep_hit h M key e R E) as (i & Hi & <-).
  pose proof Hi as [[Li _] Ek]. unfold hsearch_r. rewrite (search_hit h W key Pk _ _ _ _ i Hi).
  unfold compare_and_overwrite_entry. rewrite (proj2 (compare_hit_iff h W key Pk i Li) Hi).
  unfold enter_entry, change_error. rewrite E.
  destruct (denied _ _ _ _); [|destruct (negb _)];
    (eexists; split; [reflexivity|]); [by split; [|split]..|].
  split; [done|]. split; [by apply set_data_rep|]. cbn [sr_ret]. split; [lia|done].
Qed.

Lemma create_rep h M key d i :
  env_rep h M -> plain key -> M !! key = None -> filled h <> size h ->
  1 <= i <= size h -> used (node h i) <= 0 ->
  (exists k, 0 <= k < size h /\ i = slot h key k /\
     forall j, 0 <= j < k -> used (node h (slot h key j)) <> USED_FREE) ->
  let h3 := put h i (Node (hash1 h key) (new_entry key d)) (filled h + 1) in
  env_rep h3 (<[key := new_entry key d]> M) /\ env_rep (hdelete_node h3 i) M.
Proof.
  intros R Pk E Hf Hi Hu Hp h3. pose proof R as (W & C & _).
  pose proof (env_rep_absent h M key R E) as N.
  destruct (create_put h key d i (default 0 (env_flags_init key)) W Pk N Hf Hi Hu Hp) as (W3 & Hit3 & _).
  fold (new_entry key d) in *. fold h3 in W3, Hit3.
  pose proof (hash1_range h (wf_shape h W) key) as Hh.
  assert (env_rep h3 (<[key := new_entry key d]> M)) as R3.
  { apply (env_rep_insert h); auto.
    - apply put_clean; auto. cbn [used]. lia.
    - intros k x. unfold h3. rewrite put_holds; auto; [cbn [used entry]; naive_solver lia| |].
      + intros k' [[_ L] _]. lia.
      + intros j Hj. by apply N in Hj. }
  split; [done|]. apply (hdelete_node_rep h3 _ key i) in R3; [|done].
  by rewrite delete_insert_id in R3.
Qed.

Lemma enter_absent_refines h M key d flag :
  env_rep h M -> plain key -> M !! key = None ->
  exists r, hsearch_r true true key (Some d) ENV_ENTER h flag = Some r /\
    let '(err, M') := enter_entry (filled h =? size h) flag key d M in
    sr_errno r = err /\ env_rep (sr_tab r) M' /\ (sr_ret r = 0 <-> err <> None).
Proof.
  intros R Pk E. pose proof R as (W & C & _). pose proof (env_rep_absent h M key R E) as N.
  unfold hsearch_r, enter_entry. rewrite E. destruct (Z.eqb_spec (filled h) (size h)) as [Hf|Hf].
  - destruct (search_miss h W key Pk true (Some d) ENV_ENTER flag N) as (idx & fd & -> & _).
    eexists; split; [reflexivity|]. by split; [|split].
  - destruct (choose_slot h key true (Some d) flag W Pk N Hf) as (idx & fd & -> & HC).
    cbv zeta in HC. destruct HC as (Hi & Hu & Hp).
    eexists; split; [reflexivity|]. set (i := if negb (fd =? 0) then fd else idx) in *.
    rewrite (create_entry_eq h key d flag i W Hf Hi). cbv zeta. rewrite (C i Hi Hu).
    fold (new_entry key d). pose proof (create_rep h M key d i R Pk E Hf Hi Hu Hp) as [R3 R4].
    unfold change_error. destruct (denied _ _ _ _); [by split; [|split]|].
    destruct (negb (do_callback _ _ _ _ _ =? 0)); by split; [|split].
Qed.

Lemma enter_refines h M key d flag :
  env_rep h M -> plain key ->
  exists r, hsearch_r true true key (Some d) ENV_ENTER h flag = Some r /\
    let '(err, M') := enter_entry (filled h =? size h) flag key d M in
    sr_errno r = err /\ env_rep (sr_tab r) M' /\ (sr_ret r = 0 <-> err <> None).
Proof.
  intros R Pk. destruct (M !! key) as [e|] eqn:E;
    [by eapply enter_present_refines|by apply enter_absent_refines].
Qed.

Lemma delete_refines h M key flag :
  env_rep h M -> plain key ->
  let '(ret, M') := delete_entry flag key M in
  exists err h', hdelete_r key h flag = Some (ret, err, h') /\ env_rep h' M'.
Proof.
  intros R Pk. pose proof (find_refines h M key 0 R Pk) as F.
  pose proof R as (W & _ & _). unfold delete_entry, change_error, hdelete_r.
  destruct (M !! key) as [e|] eqn:E.
  - destruct (env_rep_hit h M key e R E) as (i & Hi & <-).
    rewrite (find_hit h key i _ _ _ W Pk Hi). cbn [sr_ret].
    destruct (Z.eqb_spec i 0); [destruct Hi as [[? _] _]; lia|].
    destruct (denied _ _ _ _); [eauto|]. destruct (negb _); [eauto|].
    eexists _, _. split; [reflexivity|]. by apply hdelete_node_rep.
  - rewrite F. cbn [sr_ret Z.eqb]. eauto.
Qed.
End Refine.

(** A fresh table has no variables. *)
Lemma fresh_env_rep n : prime n -> 3 < n < 2147483648 ->
  env_rep (Htab (Some (replicate (Z.to_nat (n + 1)) node0)) n 0) ∅.
Proof.
  intros Pn Hn. destruct (fresh_rep n Pn Hn) as [W R]. set (h := Htab _ _ _) in *.
  assert (forall i, node h i = node0) as N0 by (intros; by eapply node_replicate).
  split; [done|]. split.
  - intros i _ _. by rewrite N0.
  - intros key e. rewrite lookup_empty. split; [done|]. intros (i & [[_ L] _] & _). rewrite N0 in L. simpl in L. lia.
Qed.
