(* ===== verification/Slre.v ===== *)
(** Regular expressions (lib/slre.c, include/slre.h).

    slre_compile translates a pattern to byte code in a 256-byte array;
    slre_match interprets it.  A pattern is the block of memory its pointer
    leads into, so what the compiler reads past the terminator of the pattern
    is part of the argument.  The arrays of [struct slre] are not initialised
    by the callers: their first contents are an argument too.  [sl_overrun]
    records a write behind the code array, which the code does not check for
    in [relocate].  Both phases take fuel; [None] is running out of it.

    What it guarantees for the patterns the environment uses: names as literal
    patterns and names with a [\d*] wildcard match exactly the strings they
    describe, with fuel that is always enough; and patterns on which the
    compiler or the matcher goes wrong. *)

From S2P Require Import Prelude Bytes Cstring CstringProps.

Inductive opcode :=
  END | BRANCH | ANY | EXACT | ANYOF | ANYBUT | OPEN | CLOSE | BOL | EOL
  | STAR | PLUS | STARQ | PLUSQ | QUEST | SPACE | NONSPACE | DIGIT.

Definition op_code (o : opcode) : Z :=
  match o with
  | END => 0 | BRANCH => 1 | ANY => 2 | EXACT => 3 | ANYOF => 4 | ANYBUT => 5
  | OPEN => 6 | CLOSE => 7 | BOL => 8 | EOL => 9 | STAR => 10 | PLUS => 11
  | STARQ => 12 | PLUSQ => 13 | QUEST => 14 | SPACE => 15 | NONSPACE => 16 | DIGIT => 17
  end.
Definition opcodes : list opcode :=
  [END; BRANCH; ANY; EXACT; ANYOF; ANYBUT; OPEN; CLOSE; BOL; EOL;
   STAR; PLUS; STARQ; PLUSQ; QUEST; SPACE; NONSPACE; DIGIT].
Definition opcode_of (c : Z) : option opcode := opcodes !! Z.to_nat c.

Inductive slre_error :=
  JumpTooBig | CodeOverflow | DataOverflow | NoClosingSquare | NoClosingBracket | Unbalanced.

Record slre := Slre {
  code : list Z;
  data : list Z;
  code_size : Z;
  data_size : Z;
  num_caps : Z;
  anchored : Z;
  err_str : option slre_error;
  sl_overrun : bool
}.

Definition set_err (r : slre) (e : slre_error) : slre :=
  Slre (code r) (data r) (code_size r) (data_size r) (num_caps r) (anchored r) (Some e) (sl_overrun r).
Definition set_code (r : slre) (c : list Z) (n : Z) : slre :=
  Slre c (data r) n (data_size r) (num_caps r) (anchored r) (err_str r) (sl_overrun r).
Definition set_data (r : slre) (d : list Z) (n : Z) : slre :=
  Slre (code r) d (code_size r) n (num_caps r) (anchored r) (err_str r) (sl_overrun r).
Definition set_caps (r : slre) (n : Z) : slre :=
  Slre (code r) (data r) (code_size r) (data_size r) n (anchored r) (err_str r) (sl_overrun r).
Definition set_overrun (r : slre) : slre :=
  Slre (code r) (data r) (code_size r) (data_size r) (num_caps r) (anchored r) (err_str r) true.

Definition code_at (r : slre) (pc : Z) : Z := code r !!! Z.to_nat pc.
Definition write_code (r : slre) (pc v : Z) : slre :=
  set_code r (<[Z.to_nat pc := u8 v]> (code r)) (code_size r).

(** * The compiler *)

Definition set_jump_offset (r : slre) (pc offset : Z) : slre :=
  if 255 <? code_size r - offset then set_err r JumpTooBig
  else write_code r pc (code_size r - offset).

Definition emit (r : slre) (c : Z) : slre :=
  if 256 <=? code_size r then set_err r CodeOverflow
  else set_code r (<[Z.to_nat (code_size r) := u8 c]> (code r)) (code_size r + 1).
Definition emit_op (r : slre) (o : opcode) : slre := emit r (op_code o).

Definition store_char_in_data (r : slre) (ch : Z) : slre :=
  if 256 <=? data_size r then set_err r DataOverflow
  else set_data r (<[Z.to_nat (data_size r) := u8 ch]> (data r)) (data_size r + 1).

(** The string "|.^$*+?()[\". *)
Definition meta_chars : list Z := [124; 46; 94; 36; 42; 43; 63; 40; 41; 91; 92].

(** The loop of [exact]: the rest of the pattern and the state. *)
Fixpoint exact_chars (r : slre) (re : list Z) : slre * list Z :=
  match re with
  | c :: re' =>
      if negb (c =? 0) && match strchr meta_chars c with None => true | Some _ => false end
      then exact_chars (store_char_in_data r c) re'
      else (r, re)
  | [] => (r, re)
  end.
Definition exact (r : slre) (re : list Z) : slre * list Z :=
  let old_data_size := data_size r in
  let (r, re) := exact_chars r re in
  (emit (emit (emit_op r EXACT) old_data_size) (data_size r - old_data_size), re).

Definition get_escape_char (re : list Z) : Z * list Z :=
  let c := rd re in
  (if c =? 110 then 10
   else if c =? 114 then 13
   else if c =? 116 then 9
   else if c =? 48 then 0
   else if c =? 83 then Z.shiftl (op_code NONSPACE) 8
   else if c =? 115 then Z.shiftl (op_code SPACE) 8
   else if c =? 100 then Z.shiftl (op_code DIGIT) 8
   else c, tl re).

(** The loop of [anyof]; the fuel bounds the characters of the set. *)
Fixpoint anyof_loop (fuel : nat) (r : slre) (re : list Z) (op : opcode) (old_data_size : Z)
  : slre * list Z :=
  match fuel with
  | O => (r, re)
  | S n =>
      let c := rd re in
      if c =? 0 then (set_err r NoClosingSquare, re)
      else if c =? 93 then
        (emit (emit (emit_op r op) old_data_size) (data_size r - old_data_size), tl re)
      else if c =? 92 then
        let (esc, re') := get_escape_char (tl re) in
        let r := if Z.land esc 255 =? 0
                 then store_char_in_data (store_char_in_data r 0) (Z.shiftr esc 8)
                 else store_char_in_data r esc in
        anyof_loop n r re' op old_data_size
      else anyof_loop n (store_char_in_data r c) (tl re) op old_data_size
  end.
Definition anyof (r : slre) (re : list Z) : slre * list Z :=
  let (op, re) := if rd re =? 94 then (ANYBUT, tl re) else (ANYOF, re) in
  anyof_loop (S (length re)) r re op (data_size r).

Definition relocate (r : slre) (begin shift : Z) : slre :=
  let r := emit_op r END in
  let moved := slice (code r) begin (code_size r) in
  let r := if 256 <? code_size r + shift then set_overrun r else r in
  set_code r (store (code r) (begin + shift) moved) (code_size r + shift).

Definition quantifier (r : slre) (prev : Z) (op : opcode) : slre :=
  let '(r, prev) :=
    if (code_at r prev =? op_code EXACT) && (1 <? code_at r (prev + 2)) then
      let r := write_code r (prev + 2) (code_at r (prev + 2) - 1) in
      let r := emit_op r EXACT in
      let r := emit (emit r (code_at r (prev + 1) + code_at r (prev + 2))) 1 in
      (r, code_size r - 3)
    else (r, prev) in
  let r := relocate r prev 2 in
  let r := write_code r prev (op_code op) in
  set_jump_offset r (prev + 1) prev.

Definition exact_one_char (r : slre) (ch : Z) : slre :=
  store_char_in_data (emit (emit (emit_op r EXACT) (data_size r)) 1) ch.

Definition fixup_branch (r : slre) (fixup : Z) : slre :=
  if 0 <? fixup then set_jump_offset (emit_op r END) fixup (fixup - 2) else r.

(** The [for (;;)] of [compile] with its local variables. *)
Fixpoint compile_loop (fuel : nat) (r : slre) (re : list Z) (level branch_start last_op fixup : Z)
  : option (slre * list Z) :=
  match fuel with
  | O => None
  | S n =>
      let c := rd re in
      let re1 := tl re in
      if c =? 0 then Some (r, re)
      else if c =? 94 then compile_loop n (emit_op r BOL) re1 level branch_start last_op fixup
      else if c =? 36 then compile_loop n (emit_op r EOL) re1 level branch_start last_op fixup
      else if c =? 46 then compile_loop n (emit_op r ANY) re1 level branch_start (code_size r) fixup
      else if c =? 91 then
        let (r', re2) := anyof r re1 in
        compile_loop n r' re2 level branch_start (code_size r) fixup
      else if c =? 92 then
        let last_op := code_size r in
        let (esc, re2) := get_escape_char re1 in
        let r := if negb (Z.land esc 65280 =? 0) then emit r (Z.shiftr esc 8)
                 else exact_one_char r esc in
        compile_loop n r re2 level branch_start last_op fixup
      else if c =? 40 then
        let last_op := code_size r in
        let cap_no := num_caps r + 1 in
        let r := emit (emit_op (set_caps r cap_no) OPEN) cap_no in
        match compile_loop n r re1 (num_caps r) (code_size r) (code_size r) 0 with
        | None => None
        | Some (r, re2) =>
            if negb (rd re2 =? 41) then Some (set_err r NoClosingBracket, tl re2)
            else compile_loop n (emit (emit_op r CLOSE) cap_no) (tl re2) level branch_start last_op fixup
        end
      else if c =? 41 then
        let r := fixup_branch r fixup in
        Some (if level =? 0 then set_err r Unbalanced else r, re)
      else if (c =? 43) || (c =? 42) then
        let op := if c =? 42 then STAR else PLUS in
        if rd re1 =? 63 then
          compile_loop n (quantifier r last_op (if c =? 42 then STARQ else PLUSQ)) (tl re1)
                       level branch_start last_op fixup
        else compile_loop n (quantifier r last_op op) re1 level branch_start last_op fixup
      else if c =? 63 then
        compile_loop n (quantifier r last_op QUEST) re1 level branch_start last_op fixup
      else if c =? 124 then
        let r := relocate (fixup_branch r fixup) branch_start 3 in
        let r := write_code r branch_start (op_code BRANCH) in
        let r := set_jump_offset r (branch_start + 1) branch_start in
        let fixup := branch_start + 2 in
        compile_loop n (write_code r fixup 255) re1 level branch_start last_op fixup
      else
        let (r', re2) := exact r re in
        compile_loop n r' re2 level branch_start (code_size r) fixup
  end.
Definition compile (fuel : nat) (r : slre) (re : list Z) : option (slre * list Z) :=
  compile_loop fuel r re (num_caps r) (code_size r) (code_size r) 0.

Fixpoint compile_all (rounds fuel : nat) (r : slre) (re : list Z) : option slre :=
  if rd re =? 0 then Some r
  else match rounds with
       | O => None
       | S k => match compile fuel r re with
                | None => None
                | Some (r, re') => compile_all k fuel r re'
                end
       end.

(** [code0] and [data0]: what the two arrays held before. *)
Definition slre_compile (fuel : nat) (code0 data0 re : list Z) : option (Z * slre) :=
  let r := Slre code0 data0 0 0 0 (if rd re =? 94 then 1 else 0) None false in
  let r := emit (emit_op r OPEN) 0 in
  match compile_all fuel fuel r re with
  | None => None
  | Some r =>
      let r := if code_at r 2 =? op_code BRANCH then fixup_branch r 4 else r in
      let r := emit_op (emit (emit_op r CLOSE) 0) END in
      Some (match err_str r with None => 1 | Some _ => 0 end, r)
  end.

(** * The matcher *)

(** [p] points to [len] bytes of the data array. *)
Fixpoint in_bytes (p : list Z) (len : nat) (ch : Z) : bool :=
  match len with
  | O => false
  | S n => (rd p =? ch) || in_bytes (tl p) n ch
  end.
Definition is_any_of (p : list Z) (len : Z) (s : list Z) (ofs : Z) : bool * Z :=
  if in_bytes p (Z.to_nat len) (s !!! Z.to_nat ofs) then (true, ofs + 1) else (false, ofs).
Definition is_any_but (p : list Z) (len : Z) (s : list Z) (ofs : Z) : bool * Z :=
  if in_bytes p (Z.to_nat len) (s !!! Z.to_nat ofs) then (false, ofs) else (true, ofs + 1).

(** [struct cap]: the start of the substring as an offset, and its length. *)
Abbreviation caps_t := (option (list (Z * Z))).
Definition cap_open (caps : caps_t) (k ofs : Z) : caps_t :=
  match caps with
  | Some l => Some (<[Z.to_nat k := (ofs, snd (l !!! Z.to_nat k))]> l)
  | None => None
  end.
Definition cap_close (caps : caps_t) (k ofs : Z) : caps_t :=
  match caps with
  | Some l => Some (<[Z.to_nat k := (fst (l !!! Z.to_nat k), ofs - fst (l !!! Z.to_nat k))]> l)
  | None => None
  end.

(** One character that satisfies [f]. *)
Definition one_char (f : Z -> bool) (s : list Z) (len ofs : Z) : bool * Z :=
  if (ofs <? len) && f (s !!! Z.to_nat ofs) then (true, ofs + 1) else (false, ofs).

Fixpoint match_re (fuel : nat) (r : slre) (pc : Z) (s : list Z) (len ofs : Z) (caps : caps_t)
  : option (bool * Z * caps_t) :=
  match fuel with
  | O => None
  | S n =>
      let next (res : bool) pc ofs caps :=
        if res then match_re n r pc s len ofs caps else Some (false, ofs, caps) in
      let arg k := code_at r (pc + k) in
      match opcode_of (code_at r pc) with
      | Some END => Some (true, ofs, caps)
      | Some BRANCH =>
          match match_re n r (pc + 3) s len ofs caps with
          | None => None
          | Some (true, ofs1, caps1) => next true (pc + arg 2) ofs1 caps1
          | Some (false, _, caps1) =>
              match match_re n r (pc + arg 1) s len ofs caps1 with
              | None => None
              | Some (res, ofs2, caps2) => next res (pc + arg 2) ofs2 caps2
              end
          end
      | Some EXACT =>
          if (arg 2 <=? len - ofs) &&
             (memcmp (drop (Z.to_nat ofs) s) (drop (Z.to_nat (arg 1)) (data r)) (arg 2) =? 0)
          then next true (pc + 3) (ofs + arg 2) caps else next false (pc + 3) ofs caps
      | Some QUEST =>
          match match_re n r (pc + 2) s len ofs caps with
          | None => None
          | Some (res, ofs1, caps1) => next true (pc + arg 1) (if res then ofs1 else ofs) caps1
          end
      | Some STAR =>
          match loop_greedy n r pc s len ofs ofs with
          | None => None
          | Some ofs1 => next true (pc + arg 1) ofs1 caps
          end
      | Some STARQ =>
          match loop_non_greedy n r pc s len ofs ofs with
          | None => None
          | Some ofs1 => next true (pc + arg 1) ofs1 caps
          end
      | Some PLUS =>
          match match_re n r (pc + 2) s len ofs caps with
          | None => None
          | Some (false, ofs1, caps1) => next false pc ofs1 caps1
          | Some (true, ofs1, caps1) =>
              match loop_greedy n r pc s len ofs1 ofs1 with
              | None => None
              | Some ofs2 => next true (pc + arg 1) ofs2 caps1
              end
          end
      | Some PLUSQ =>
          match match_re n r (pc + 2) s len ofs caps with
          | None => None
          | Some (false, ofs1, caps1) => next false pc ofs1 caps1
          | Some (true, ofs1, caps1) =>
              match loop_non_greedy n r pc s len ofs1 ofs1 with
              | None => None
              | Some ofs2 => next true (pc + arg 1) ofs2 caps1
              end
          end
      | Some SPACE => let (res, ofs1) := one_char isspace s len ofs in next res (pc + 1) ofs1 caps
      | Some NONSPACE =>
          let (res, ofs1) := one_char (fun c => negb (isspace c)) s len ofs in next res (pc + 1) ofs1 caps
      | Some DIGIT => let (res, ofs1) := one_char isdigit s len ofs in next res (pc + 1) ofs1 caps
      | Some ANY => let (res, ofs1) := one_char (fun _ => true) s len ofs in next res (pc + 1) ofs1 caps
      | Some ANYOF =>
          let (res, ofs1) := if ofs <? len
                             then is_any_of (drop (Z.to_nat (arg 1)) (data r)) (arg 2) s ofs
                             else (false, ofs) in
          next res (pc + 3) ofs1 caps
      | Some ANYBUT =>
          let (res, ofs1) := if ofs <? len
                             then is_any_but (drop (Z.to_nat (arg 1)) (data r)) (arg 2) s ofs
                             else (false, ofs) in
          next res (pc + 3) ofs1 caps
      | Some BOL => next (ofs =? 0) (pc + 1) ofs caps
      | Some EOL => next (ofs =? len) (pc + 1) ofs caps
      | Some OPEN => next true (pc + 2) ofs (cap_open caps (arg 1) ofs)
      | Some CLOSE => next true (pc + 2) ofs (cap_close caps (arg 1) ofs)
      | None => match_re n r pc s len ofs caps      (* unknown command: no progress *)
      end
  end
with loop_greedy (fuel : nat) (r : slre) (pc : Z) (s : list Z) (len ofs matched : Z) : option Z :=
  match fuel with
  | O => None
  | S n =>
      match match_re n r (pc + 2) s len ofs None with
      | None => None
      | Some (false, _, _) => Some matched
      | Some (true, saved, _) =>
          match match_re n r (pc + code_at r (pc + 1)) s len saved None with
          | None => None
          | Some (res, _, _) => loop_greedy n r pc s len saved (if res then saved else matched)
          end
      end
  end
with loop_non_greedy (fuel : nat) (r : slre) (pc : Z) (s : list Z) (len ofs saved : Z) : option Z :=
  match fuel with
  | O => None
  | S n =>
      match match_re n r (pc + 2) s len ofs None with
      | None => None
      | Some (false, _, _) => Some saved
      | Some (true, saved, _) =>
          match match_re n r (pc + code_at r (pc + 1)) s len saved None with
          | None => None
          | Some (true, _, _) => Some saved
          | Some (false, ofs1, _) => loop_non_greedy n r pc s len ofs1 saved
          end
      end
  end.

(** The loop over start positions of an unanchored pattern. *)
Fixpoint match_from (k fuel : nat) (r : slre) (s : list Z) (len i : Z) (caps : caps_t)
  : option (bool * caps_t) :=
  match k with
  | O => Some (false, caps)
  | S k' =>
      match match_re fuel r 0 s len i caps with
      | None => None
      | Some (true, _, caps) => Some (true, caps)
      | Some (false, _, caps) => match_from k' fuel r s len (i + 1) caps
      end
  end.
Definition slre_match (fuel : nat) (r : slre) (buf : list Z) (len : Z) (caps : caps_t)
  : option (bool * caps_t) :=
  if negb (anchored r =? 0) then
    match match_re fuel r 0 buf len 0 caps with
    | None => None
    | Some (res, _, caps) => Some (res, caps)
    end
  else match_from (Z.to_nat len) fuel r buf len 0 caps.

Abbreviation len l := (Z.of_nat (length l)).

Ltac slside :=
  repeat rewrite ?length_app, ?length_drop, ?length_tl in *; cbn [length] in *; lia.

(** * Emitting code *)

(** A state without errors: what has been emitted, and the rest of the arrays. *)
Definition prog (bs cr ds dr : list Z) (caps anch : Z) : slre :=
  Slre (bs ++ cr) (ds ++ dr) (len bs) (len ds) caps anch None false.

Lemma tl_drop1 {A} (l : list A) : tl l = drop 1 l.
Proof. by destruct l. Qed.

Lemma insert_end {A} (bs : list A) x c cr : <[length bs := x]> (bs ++ c :: cr) = (bs ++ [x]) ++ cr.
Proof. by rewrite insert_app_mid, <- app_assoc. Qed.

Section Emit.
Context (bs cr ds dr : list Z) (caps anch : Z).
Let r := prog bs cr ds dr caps anch.

Lemma emit_prog c :
  (length bs < 256)%nat -> (0 < length cr)%nat ->
  emit r c = prog (bs ++ [u8 c]) (tl cr) ds dr caps anch.
Proof.
  intros H N. subst r. unfold emit. cbn [code_size prog]. destruct (Z.leb_spec 256 (len bs)); [lia|].
  destruct cr as [|c0 cr']; [simpl in N; lia|]. unfold set_code, prog. simpl. rewrite Nat2Z.id, insert_end, length_app.
  f_equal. simpl. lia.
Qed.

Lemma store_prog c :
  (length ds < 256)%nat -> (0 < length dr)%nat ->
  store_char_in_data r c = prog bs cr (ds ++ [u8 c]) (tl dr) caps anch.
Proof.
  intros H N. subst r. unfold store_char_in_data. cbn [data_size prog].
  destruct (Z.leb_spec 256 (len ds)); [lia|].
  destruct dr as [|d0 dr']; [simpl in N; lia|]. unfold set_data, prog. simpl. rewrite Nat2Z.id, insert_end, length_app.
  f_equal. simpl. lia.
Qed.

Lemma code_at_prog (i : Z) : 0 <= i < len bs -> code_at r i = bs !!! Z.to_nat i.
Proof. intros. subst r. unfold code_at. simpl. apply lookup_total_app_l. lia. Qed.
End Emit.

(** Characters that stand for themselves. *)
Definition literal (c : Z) : Prop := 0 < c < 256 /\ strchr meta_chars c = None.

Lemma exact_chars_prog name : forall bs cr ds dr caps anch x rest,
  Forall literal name -> strchr meta_chars x <> None ->
  (length ds + length name <= 256)%nat -> length (ds ++ dr) = 256%nat ->
  exact_chars (prog bs cr ds dr caps anch) (name ++ x :: rest) =
    (prog bs cr (ds ++ name) (drop (length name) dr) caps anch, x :: rest).
Proof.
  induction name as [|c name IH]; intros bs cr ds dr caps anch x rest F Hx Hl Hd.
  - simpl. rewrite app_nil_r. destruct (strchr meta_chars x); [|done]. by rewrite andb_false_r.
  - apply Forall_cons in F as [[Hc1 Hc2] F]. simpl in Hl. rewrite length_app in Hd. cbn [app exact_chars].
    rewrite Hc2. destruct (Z.eqb_spec c 0); [lia|]. cbn [negb andb].
    rewrite store_prog by lia.
    rewrite u8_small by lia. rewrite IH; auto.
    + rewrite <- app_assoc. cbn [app length]. destruct dr; [simpl in Hd; lia|done].
    + rewrite length_app. simpl. lia.
    + rewrite !length_app. simpl. destruct dr; simpl in *; lia.
Qed.

(** The pattern compiled so far ends in [bs]; [exact] adds one instruction. *)
Lemma exact_prog name bs cr ds dr caps anch x rest :
  Forall literal name -> strchr meta_chars x <> None ->
  (length ds + length name < 256)%nat -> length (ds ++ dr) = 256%nat ->
  (length bs + 3 <= 256)%nat -> length (bs ++ cr) = 256%nat ->
  exact (prog bs cr ds dr caps anch) (name ++ x :: rest) =
    (prog (bs ++ [op_code EXACT; len ds; len name]) (drop 3 cr) (ds ++ name)
          (drop (length name) dr) caps anch, x :: rest).
Proof.
  intros F Hx Hl Hd Hb Hc. unfold exact, emit_op. rewrite exact_chars_prog by (auto; lia).
  rewrite length_app in Hc. destruct cr as [|c0 [|c1 [|c2 cr]]]; cbn [length] in Hc; try lia.
  rewrite !emit_prog by slside.
  cbn [tl prog data_size]. rewrite <- !app_assoc. cbn [app]. rewrite length_app.
  rewrite !u8_small by (unfold op_code; lia). do 2 f_equal. repeat f_equal. lia.
Qed.

Lemma strchr_meta_dollar : strchr meta_chars 36 <> None.
Proof. done. Qed.
Lemma strchr_meta_escape : strchr meta_chars 92 <> None.
Proof. done. Qed.

(** A literal is none of the characters the compiler treats specially. *)
Lemma literal_plain c : literal c ->
  c <> 0 /\ c <> 94 /\ c <> 36 /\ c <> 46 /\ c <> 91 /\ c <> 92 /\ c <> 40 /\ c <> 41 /\ c <> 43 /\
  c <> 42 /\ c <> 63 /\ c <> 124.
Proof.
  intros [H1 H2]. split; [lia|].
  assert (forall x, strchr meta_chars x <> None -> c <> x) as N by (intros x Hx ->; done).
  repeat split; apply N; vm_compute; done.
Qed.

(** One round of the compiler on a literal name. *)
Lemma compile_literal n c name bs cr ds dr caps anch x rest level bst lop fix_ :
  Forall literal (c :: name) -> strchr meta_chars x <> None ->
  (length ds + length (c :: name) < 256)%nat -> length (ds ++ dr) = 256%nat ->
  (length bs + 3 <= 256)%nat -> length (bs ++ cr) = 256%nat ->
  compile_loop (S n) (prog bs cr ds dr caps anch) ((c :: name) ++ x :: rest) level bst lop fix_ =
  compile_loop n (prog (bs ++ [op_code EXACT; len ds; len (c :: name)]) (drop 3 cr) (ds ++ c :: name)
                       (drop (length (c :: name)) dr) caps anch)
               (x :: rest) level bst (len bs) fix_.
Proof.
  intros F Hx Hl Hd Hb Hc. pose proof F as [Lc _]%Forall_cons.
  destruct (literal_plain c Lc) as (N0 & N1 & N2 & N3 & N4 & N5 & N6 & N7 & N8 & N9 & N10 & N11).
  cbn [compile_loop]. change (rd ((c :: name) ++ x :: rest)) with c. cbv zeta.
  do 2 (rewrite ?(proj2 (Z.eqb_neq c _)) by done; cbn [orb]).
  rewrite (exact_prog (c :: name)) by done. reflexivity.
Qed.

Ltac peel cr Hc := destruct cr as [|? cr]; [rewrite ?length_app in Hc; cbn [length] in Hc; lia|].

Lemma compile_caret n re bs cr ds dr caps anch level bst lop fix_ :
  (length bs < 256)%nat -> (0 < length cr)%nat ->
  compile_loop (S n) (prog bs cr ds dr caps anch) (94 :: re) level bst lop fix_ =
  compile_loop n (prog (bs ++ [op_code BOL]) (tl cr) ds dr caps anch) re level bst lop fix_.
Proof. intros. cbn [compile_loop rd hd tl Z.eqb Pos.eqb]. cbv zeta. unfold emit_op. by rewrite emit_prog. Qed.

Lemma compile_dollar n re bs cr ds dr caps anch level bst lop fix_ :
  (length bs < 256)%nat -> (0 < length cr)%nat ->
  compile_loop (S n) (prog bs cr ds dr caps anch) (36 :: re) level bst lop fix_ =
  compile_loop n (prog (bs ++ [op_code EOL]) (tl cr) ds dr caps anch) re level bst lop fix_.
Proof. intros. cbn [compile_loop rd hd tl Z.eqb Pos.eqb]. cbv zeta. unfold emit_op. by rewrite emit_prog. Qed.

(** [\d*] becomes STAR 4 DIGIT END. *)
Lemma compile_digits n x rest bs cr ds dr caps anch level bst lop fix_ :
  (length bs + 4 <= 256)%nat -> length (bs ++ cr) = 256%nat -> x <> 63 ->
  compile_loop (S (S n)) (prog bs cr ds dr caps anch) (92 :: 100 :: 42 :: x :: rest) level bst lop fix_ =
  compile_loop n (prog (bs ++ [op_code STAR; 4; op_code DIGIT; op_code END]) (drop 4 cr) ds dr caps anch)
               (x :: rest) level bst (len bs) fix_.
Proof.
  intros Hb Hc Nx. rewrite length_app in Hc. do 4 peel cr Hc.
  cbn [compile_loop rd hd tl Z.eqb Pos.eqb get_escape_char]. cbv zeta.
  change (emit (prog bs (z :: z0 :: z1 :: z2 :: cr) ds dr caps anch) (Z.shiftr (Z.shiftl (op_code DIGIT) 8) 8))
    with (emit (prog bs (z :: z0 :: z1 :: z2 :: cr) ds dr caps anch) 17).
  change (negb (Z.land (Z.shiftl (op_code DIGIT) 8) 65280 =? 0)) with true. cbv iota.
  rewrite emit_prog by slside. cbn [code_size prog tl].
  rewrite (proj2 (Z.eqb_neq x 63)) by done. cbn [rd hd tl Z.eqb Pos.eqb orb].
  change (u8 17) with 17. f_equal. clear Nx lop.
  unfold quantifier. rewrite code_at_prog by (rewrite length_app; simpl; lia).
  rewrite Nat2Z.id. rewrite (lookup_total_app_mid bs 17 []).
  change ((17 =? op_code EXACT) && _) with false. cbv iota.
  unfold relocate, emit_op. rewrite emit_prog by slside.
  change (u8 (op_code END)) with 0. cbn [tl code_size prog].
  rewrite <- app_assoc. cbn [app]. rewrite !length_app. cbn [length].
  destruct (Z.ltb_spec 256 (Z.of_nat (length bs + 2) + 2)); [lia|].
  assert (slice (bs ++ 17 :: 0 :: z1 :: z2 :: cr) (len bs) (Z.of_nat (length bs + 2)) = [17; 0]) as Es.
  { unfold slice. rewrite Nat2Z.id. replace (Z.to_nat _) with 2%nat by lia.
    by rewrite drop_app_length. }
  assert (store (bs ++ 17 :: 0 :: z1 :: z2 :: cr) (len bs + 2) [17; 0] = bs ++ 17 :: 0 :: 17 :: 0 :: cr) as Et.
  { unfold store. replace (Z.to_nat (len bs + 2)) with (length bs + 2)%nat by lia.
    rewrite take_app_add, <- Nat.add_assoc, drop_app_add. cbn [length Nat.add take drop].
    by rewrite <- app_assoc. }
  change (code (prog (bs ++ [17; 0]) (z1 :: z2 :: cr) ds dr caps anch))
    with ((bs ++ [17; 0]) ++ z1 :: z2 :: cr).
  rewrite <- app_assoc. cbn [app]. rewrite Es, Et.
  unfold set_jump_offset, write_code, set_code. cbn [code_size code data data_size num_caps anchored err_str sl_overrun prog].
  rewrite Nat2Z.id. rewrite insert_app_mid. cbn [length].
  match goal with |- context [255 <? ?x] => replace x with 4 by (rewrite ?length_app; simpl; lia) end. cbn [Z.ltb Z.compare Pos.compare Pos.compare_cont].
  replace (Z.to_nat (len bs + 1)) with (length (bs ++ [op_code STAR])) by (rewrite length_app; simpl; lia).
  change (u8 (op_code STAR)) with (op_code STAR).
  change (bs ++ op_code STAR :: 0 :: 17 :: 0 :: cr) with (bs ++ [op_code STAR] ++ 0 :: 17 :: 0 :: cr).
  rewrite app_assoc, insert_app_mid, <- !app_assoc. unfold prog. rewrite length_app. cbn [app length].
  rewrite <- app_assoc. cbn [app drop]. rewrite length_app. f_equal. simpl. lia.
Qed.

(** * Compiled names *)

Definition name_code (n : Z) : list Z :=
  [op_code OPEN; 0; op_code BOL; op_code EXACT; 0; n; op_code EOL; op_code CLOSE; 0; op_code END].
Definition wild_code (n1 n2 : Z) : list Z :=
  [op_code OPEN; 0; op_code BOL; op_code EXACT; 0; n1; op_code STAR; 4; op_code DIGIT; op_code END;
   op_code EXACT; n1; n2; op_code EOL; op_code CLOSE; 0; op_code END].

Section Compile.
Context (code0 data0 : list Z) (Hc : length code0 = 256%nat) (Hd : length data0 = 256%nat).

Lemma start_prog anch :
  emit (emit_op (Slre code0 data0 0 0 0 anch None false) OPEN) 0 =
  prog [op_code OPEN; 0] (drop 2 code0) [] data0 0 anch.
Proof using Hc Hd.
  change (Slre code0 data0 0 0 0 anch None false) with (prog [] code0 [] data0 0 anch).
  unfold emit_op. destruct code0 as [|a [|b c0]]; [done..|]. rewrite !emit_prog by slside.
  reflexivity.
Qed.

(** The end of slre_compile. *)
Lemma finish_prog bs cr ds dr anch :
  (2 < length bs <= 253)%nat -> length (bs ++ cr) = 256%nat -> bs !!! 2%nat <> op_code BRANCH ->
  let r := prog bs cr ds dr 0 anch in
  let r := if code_at r 2 =? op_code BRANCH then fixup_branch r 4 else r in
  emit_op (emit (emit_op r CLOSE) 0) END =
  prog (bs ++ [op_code CLOSE; 0; op_code END]) (drop 3 cr) ds dr 0 anch.
Proof.
  intros Hb Hl Hn. cbv zeta. rewrite code_at_prog by lia.
  change (Z.to_nat 2) with 2%nat. rewrite (proj2 (Z.eqb_neq _ _) Hn). unfold emit_op. rewrite length_app in Hl.
  do 3 peel cr Hl. rewrite !emit_prog by slside.
  cbn [tl drop]. rewrite <- !app_assoc. reflexivity.
Qed.

Lemma compile_name name fuel :
  Forall literal name -> name <> [] -> (length name < 256)%nat -> (5 <= fuel)%nat ->
  slre_compile fuel code0 data0 (94 :: name ++ [36]) =
  Some (1, prog (name_code (len name)) (drop 10 code0) name (drop (length name) data0) 0 1).
Proof using Hc Hd.
  intros F N L Hf. unfold slre_compile. cbn [rd hd]. rewrite start_prog.
  do 5 (destruct fuel as [|fuel]; [lia|]). cbn [compile_all]. unfold compile.
  cbn [rd hd Z.eqb num_caps code_size prog]. destruct name as [|c name]; [done|].
  assert (length (drop 2 code0) = 254%nat) as H2 by (rewrite length_drop; lia).
  rewrite compile_caret by slside.
  rewrite (compile_literal _ c name) by (done || slside).
  rewrite compile_dollar by slside. cbn [compile_loop rd hd Z.eqb].
  rewrite finish_prog by (done || slside). cbn [prog err_str app].
  rewrite !tl_drop1, !drop_drop. reflexivity.
Qed.

Lemma compile_wild pre suf fuel :
  Forall literal pre -> Forall literal suf -> pre <> [] -> suf <> [] ->
  (length pre + length suf < 256)%nat -> (8 <= fuel)%nat ->
  slre_compile fuel code0 data0 (94 :: pre ++ 92 :: 100 :: 42 :: suf ++ [36]) =
  Some (1, prog (wild_code (len pre) (len suf)) (drop 17 code0) (pre ++ suf)
                (drop (length (pre ++ suf)) data0) 0 1).
Proof using Hc Hd.
  intros F1 F2 N1 N2 L Hf. unfold slre_compile. cbn [rd hd]. rewrite start_prog.
  do 8 (destruct fuel as [|fuel]; [lia|]). cbn [compile_all]. unfold compile.
  cbn [rd hd Z.eqb num_caps code_size prog].
  destruct pre as [|c pre]; [done|]. destruct suf as [|d suf]; [done|].
  assert (length (drop 2 code0) = 254%nat) as H2 by (rewrite length_drop; lia).
  pose proof F2 as [Ld _]%Forall_cons. destruct (literal_plain d Ld) as (_ & _ & _ & _ & _ & _ & _ & _ & _ & _ & N63 & _).
  rewrite compile_caret by slside.
  rewrite (compile_literal _ c pre) by (done || slside).
  change ((d :: suf) ++ [36]) with (d :: suf ++ [36]).
  rewrite compile_digits by (done || slside).
  change (d :: suf ++ [36]) with ((d :: suf) ++ [36]).
  rewrite (compile_literal _ d suf) by (done || slside).
  rewrite compile_dollar by slside. cbn [compile_loop rd hd Z.eqb].
  rewrite finish_prog by (done || slside). cbn [prog err_str app].
  rewrite !tl_drop1, !drop_drop. change (d :: suf) with ([d] ++ suf).
  rewrite app_comm_cons, (length_app (c :: pre)). reflexivity.
Qed.
End Compile.

(** * Single instructions of the matcher *)

Section Steps.
Context (n : nat) (r : slre) (pc : Z) (s : list Z) (l ofs : Z) (caps : caps_t).

Lemma step_end : code_at r pc = op_code END -> match_re (S n) r pc s l ofs caps = Some (true, ofs, caps).
Proof. intros E. cbn [match_re]. by rewrite E. Qed.

Lemma step_open : code_at r pc = op_code OPEN ->
  match_re (S n) r pc s l ofs caps = match_re n r (pc + 2) s l ofs (cap_open caps (code_at r (pc + 1)) ofs).
Proof. intros E. cbn [match_re]. by rewrite E. Qed.

Lemma step_close : code_at r pc = op_code CLOSE ->
  match_re (S n) r pc s l ofs caps = match_re n r (pc + 2) s l ofs (cap_close caps (code_at r (pc + 1)) ofs).
Proof. intros E. cbn [match_re]. by rewrite E. Qed.

Lemma step_bol : code_at r pc = op_code BOL ->
  match_re (S n) r pc s l ofs caps =
    if ofs =? 0 then match_re n r (pc + 1) s l ofs caps else Some (false, ofs, caps).
Proof. intros E. cbn [match_re]. by rewrite E. Qed.

Lemma step_eol : code_at r pc = op_code EOL ->
  match_re (S n) r pc s l ofs caps =
    if ofs =? l then match_re n r (pc + 1) s l ofs caps else Some (false, ofs, caps).
Proof. intros E. cbn [match_re]. by rewrite E. Qed.

Lemma step_digit : code_at r pc = op_code DIGIT ->
  match_re (S n) r pc s l ofs caps =
    if (ofs <? l) && isdigit (s !!! Z.to_nat ofs)
    then match_re n r (pc + 1) s l (ofs + 1) caps else Some (false, ofs, caps).
Proof. intros E. cbn [match_re]. rewrite E. unfold one_char. simpl. by destruct (_ && _). Qed.

Lemma step_star : code_at r pc = op_code STAR ->
  match_re (S n) r pc s l ofs caps =
    match loop_greedy n r pc s l ofs ofs with
    | None => None
    | Some ofs1 => match_re n r (pc + code_at r (pc + 1)) s l ofs1 caps
    end.
Proof. intros E. cbn [match_re]. by rewrite E. Qed.

Lemma loop_greedy_S m :
  loop_greedy (S n) r pc s l ofs m =
    match match_re n r (pc + 2) s l ofs None with
    | None => None
    | Some (false, _, _) => Some m
    | Some (true, saved, _) =>
        match match_re n r (pc + code_at r (pc + 1)) s l saved None with
        | None => None
        | Some (res, _, _) => loop_greedy n r pc s l saved (if res then saved else m)
        end
    end.
Proof. reflexivity. Qed.

Lemma step_exact lit :
  code_at r pc = op_code EXACT -> code_at r (pc + 2) = len lit -> l = len s -> 0 <= ofs <= l ->
  lit = slice (data r) (code_at r (pc + 1)) (code_at r (pc + 1) + len lit) ->
  match_re (S n) r pc s l ofs caps =
    if decide (take (length lit) (drop (Z.to_nat ofs) s) = lit)
    then match_re n r (pc + 3) s l (ofs + len lit) caps else Some (false, ofs, caps).
Proof.
  intros E E2 El Ho Es. cbn [match_re]. rewrite E, E2. change (opcode_of (op_code EXACT)) with (Some EXACT).
  cbv iota. unfold slice in Es. replace (Z.to_nat _) with (length lit) in Es by lia.
  assert ((len lit <=? l - ofs) && (memcmp (drop (Z.to_nat ofs) s)
            (drop (Z.to_nat (code_at r (pc + 1))) (data r)) (len lit) =? 0) = true <->
          take (length lit) (drop (Z.to_nat ofs) s) = lit) as C.
  { rewrite andb_true_iff, Z.leb_le, Z.eqb_eq. unfold memcmp. rewrite Nat2Z.id.
    assert (length lit <= length (drop (Z.to_nat (code_at r (pc + 1))) (data r)))%nat as Hl.
    { rewrite Es at 1. rewrite length_take. lia. }
    split.
    - intros [Hn Hm]. rewrite Es at 2. apply memcmp_nat_eq; [rewrite length_drop; lia|done|done].
    - intros Ht. assert (len lit <= l - ofs) as Hn.
      { apply (f_equal length) in Ht. rewrite length_take, length_drop in Ht. lia. }
      split; [done|]. apply memcmp_nat_eq; [rewrite length_drop; lia|done|congruence]. }
  case_decide as D; [by rewrite (proj2 C D)|].
  destruct (_ && _) eqn:B; [by destruct D; apply C|done].
Qed.
End Steps.

(** From an offset to the end of the string: [EXACT lit; EOL; CLOSE 0; END]. *)
Lemma match_tail n r pc s ofs caps lit :
  code_at r pc = op_code EXACT -> code_at r (pc + 2) = len lit -> 0 <= ofs <= len s ->
  lit = slice (data r) (code_at r (pc + 1)) (code_at r (pc + 1) + len lit) ->
  code_at r (pc + 3) = op_code EOL -> code_at r (pc + 3 + 1) = op_code CLOSE ->
  code_at r (pc + 3 + 1 + 2) = op_code END ->
  exists o c, match_re (S (S (S (S n)))) r pc s (len s) ofs caps =
    Some (bool_decide (drop (Z.to_nat ofs) s = lit), o, c).
Proof.
  intros E E2 Ho Es E3 E4 E5. rewrite (step_exact _ _ _ _ _ _ _ lit) by done.
  set (t := drop (Z.to_nat ofs) s). assert (len t = len s - ofs) as Lt by (subst t; rewrite length_drop; lia).
  case_decide as D.
  - rewrite step_eol by done. assert (len lit <= len t) by (rewrite <- D, length_take; lia).
    destruct (Z.eqb_spec (ofs + len lit) (len s)) as [El|El].
    + rewrite step_close by done. rewrite step_end by done. eexists _, _. rewrite bool_decide_true; [done|].
      rewrite <- D. symmetry. apply take_ge. lia.
    + eexists _, _. rewrite bool_decide_false; [done|]. intros ->. lia.
  - eexists _, _. rewrite bool_decide_false; [done|]. intros ->. apply D, take_ge. lia.
Qed.

(** * Names as patterns *)

Section Names.
Context (code0 data0 : list Z).

Lemma match_name name s caps fuel :
  name <> [] -> (length name < 256)%nat -> (6 <= fuel)%nat ->
  exists caps', slre_match fuel (prog (name_code (len name)) (drop 10 code0) name
                                      (drop (length name) data0) 0 1) s (len s) caps
                = Some (bool_decide (s = name), caps').
Proof.
  intros N L Hf. set (r := prog _ _ _ _ _ _). unfold slre_match.
  change (negb (anchored r =? 0)) with true. cbv iota.
  do 6 (destruct fuel as [|fuel]; [lia|]).
  rewrite step_open by done. rewrite step_bol by done. cbn [Z.eqb].
  edestruct (match_tail fuel r (0 + 2 + 1) s 0 (cap_open caps (code_at r (0 + 1)) 0) name) as (o & c & E);
    try done; [lia| |].
  - change (code_at r (0 + 2 + 1 + 1)) with 0. unfold slice. cbn [data prog r]. 
    rewrite drop_0, Z.add_0_l, Z.sub_0_r, Nat2Z.id. by rewrite take_app_length.
  - rewrite E. rewrite drop_0. by exists c.
Qed.

(** The greedy loop over digits: [matched] moves to the last offset behind a
    digit from which the suffix is the rest of the string. *)
Fixpoint digit_run (suf l : list Z) (ofs matched : Z) : Z :=
  match l with
  | c :: l' => if isdigit c
               then digit_run suf l' (ofs + 1) (if decide (l' = suf) then ofs + 1 else matched)
               else matched
  | [] => matched
  end.

Lemma digit_run_range suf l : forall ofs matched,
  0 <= matched <= ofs -> 0 <= digit_run suf l ofs matched <= ofs + len l.
Proof.
  induction l as [|c l IH]; intros ofs matched Hm; simpl; [lia|].
  destruct (isdigit c); [|lia]. case_decide.
  - specialize (IH (ofs + 1) (ofs + 1)). lia.
  - specialize (IH (ofs + 1) matched). lia.
Qed.

Lemma digit_run_found suf s l : forall ofs matched,
  0 <= ofs -> drop (Z.to_nat ofs) s = l ->
  drop (Z.to_nat (digit_run suf l ofs matched)) s = suf <->
  drop (Z.to_nat matched) s = suf \/
  exists d ds, Forall (fun c => isdigit c = true) (d :: ds) /\ l = d :: ds ++ suf.
Proof.
  induction l as [|c l IH]; intros ofs matched Ho El; cbn [digit_run].
  { split; [by left|]. intros [?|(d & ds & _ & ?)]; done. }
  assert (drop (Z.to_nat (ofs + 1)) s = l) as El'.
  { replace (Z.to_nat (ofs + 1)) with (Z.to_nat ofs + 1)%nat by lia. rewrite <- drop_drop, El. done. }
  destruct (isdigit c) eqn:Dc.
  - rewrite (IH (ofs + 1)) by (done || lia). case_decide as D.
    + split; [|intros _; left; congruence]. intros _. right. exists c, []. split; [by repeat constructor|by rewrite D].
    + split; (intros [?|(d & ds & F & E)]; [by left|right]).
      * exists c, (d :: ds). split; [by constructor|by rewrite E].
      * apply Forall_cons in F as [_ F]. injection E as -> ->. destruct ds as [|d' ds]; [done|].
        by exists d', ds.
  - split; [by left|]. intros [?|(d & ds & F & E)]; [done|].
    apply Forall_cons in F as [F _]. congruence.
Qed.

Section Wild.
Context (pre suf : list Z).
Let r := prog (wild_code (len pre) (len suf)) (drop 17 code0) (pre ++ suf)
              (drop (length (pre ++ suf)) data0) 0 1.

Lemma wild_data_pre : pre = slice (data r) 0 (len pre).
Proof.
  unfold slice. cbn [data prog r]. rewrite drop_0, Z.sub_0_r, Nat2Z.id, <- app_assoc.
  by rewrite take_app_length.
Qed.
Lemma wild_data_suf : suf = slice (data r) (len pre) (len pre + len suf).
Proof.
  unfold slice. cbn [data prog r]. rewrite Nat2Z.id, <- app_assoc, drop_app_length.
  replace (Z.to_nat _) with (length suf) by lia. by rewrite take_app_length.
Qed.

Lemma wild_tail n s ofs caps : 0 <= ofs <= len s ->
  exists o c, match_re (S (S (S (S n)))) r 10 s (len s) ofs caps =
    Some (bool_decide (drop (Z.to_nat ofs) s = suf), o, c).
Proof. intros Ho. apply match_tail; try done. exact wild_data_suf. Qed.

Lemma wild_loop s l : forall n ofs matched,
  drop (Z.to_nat ofs) s = l -> 0 <= ofs <= len s ->
  loop_greedy (length l + 5 + n) r 6 s (len s) ofs matched = Some (digit_run suf l ofs matched).
Proof.
  induction l as [|c l IH]; intros n ofs matched El Ho.
  - cbn [length Nat.add]. rewrite loop_greedy_S, step_digit by done.
    assert (len s <= ofs) by (apply (f_equal length) in El; rewrite length_drop in El; simpl in El; lia).
    destruct (Z.ltb_spec ofs (len s)); [lia|]. done.
  - cbn [length Nat.add]. rewrite loop_greedy_S.
    assert (ofs < len s) by (apply (f_equal length) in El; rewrite length_drop in El; simpl in El; lia).
    assert (drop (Z.to_nat (ofs + 1)) s = l) as El'.
    { replace (Z.to_nat (ofs + 1)) with (Z.to_nat ofs + 1)%nat by lia. rewrite <- drop_drop, El. done. }
    assert (s !!! Z.to_nat ofs = c) as Ec.
    { apply list_lookup_total_correct. rewrite <- (Nat.add_0_r (Z.to_nat ofs)), <- lookup_drop, El. done. }
    replace (length l + 5 + n)%nat with (S (S (S (S (S (length l + n)))))) by lia.
    rewrite step_digit by done. destruct (Z.ltb_spec ofs (len s)); [|lia].
    rewrite Ec. cbn [digit_run andb]. destruct (isdigit c); [|done].
    rewrite step_end by done. replace (6 + code_at r (6 + 1)) with 10 by reflexivity.
    destruct (wild_tail (S (length l + n)) s (ofs + 1) None) as (o & c' & ->); [lia|].
    rewrite El'. replace (S (S (S (S (S (length l + n)))))) with (length l + 5 + n)%nat by lia.
    rewrite IH by (done || lia). by destruct (decide (l = suf)); [rewrite bool_decide_true|rewrite bool_decide_false].
Qed.

Lemma match_wild s caps n :
  exists b caps', slre_match (length s + 10 + n) r s (len s) caps = Some (b, caps') /\
    (b = true <-> exists ds, Forall (fun c => isdigit c = true) ds /\ s = pre ++ ds ++ suf).
Proof.
  unfold slre_match. change (negb (anchored r =? 0)) with true. cbv iota.
  replace (length s + 10 + n)%nat with (S (S (S (S (length s + 6 + n))))) by lia.
  rewrite step_open by done. rewrite step_bol by done. cbn [Z.eqb].
  rewrite (step_exact _ _ _ _ _ _ _ pre) by (done || lia || exact wild_data_pre).
  rewrite drop_0. case_decide as D.
  - assert (s = pre ++ drop (length pre) s) as Es by (rewrite <- D at 1; by rewrite take_drop).
    assert (len pre <= len s) as Hp by (rewrite Es, length_app; lia).
    replace (0 + 2 + 1 + 3) with 6 by reflexivity. rewrite step_star by done.
    replace (6 + code_at r (6 + 1)) with 10 by reflexivity.
    rewrite (Z.add_0_l (len pre)).
    set (t := drop (length pre) s) in *.
    replace (length s + 6 + n)%nat with (length t + 5 + (length pre + 1 + n))%nat
      by (rewrite Es, length_app; lia).
    rewrite (wild_loop s t) by (rewrite ?Nat2Z.id; done || lia).
    pose proof (digit_run_range suf t (len pre) (len pre) ltac:(lia)) as Hr.
    pose proof (digit_run_found suf s t (len pre) (len pre) ltac:(lia)) as F.
    rewrite Nat2Z.id in F. specialize (F eq_refl). fold t in F.
    set (o := digit_run _ _ _ _) in *.
    replace (length t + 5 + _)%nat with (S (S (S (S (length t + 1 + (length pre + 1 + n)))))) by lia.
    assert (len s = len pre + len t) as Ls by (rewrite Es at 1; rewrite length_app; lia).
    edestruct (wild_tail (length t + 1 + (length pre + 1 + n)) s o) as (o' & c & E); [lia|].
    rewrite E. eexists _, _. split; [reflexivity|]. rewrite bool_decide_eq_true, F. split.
    + intros [->|(d & ds & Fd & Et)]; [exists []|exists (d :: ds)]; (split; [done|]); [by rewrite Es at 1|].
      rewrite Es at 1. by rewrite Et.
    + intros (ds & Fd & E'). assert (t = ds ++ suf) as Et by (apply (app_inv_head pre); congruence).
      destruct ds as [|d ds]; [by left|right; by exists d, ds].
  - eexists _, _. split; [reflexivity|]. split; [done|]. intros (ds & _ & ->). destruct D.
    by rewrite take_app_length.
Qed.
End Wild.
End Names.

(** * The guarantees *)

(** A name used as a pattern, [^name$], compiles and matches exactly
    itself; the name holds no character with a meaning of its own. *)
Theorem slre_literal_exact (code0 data0 name s : list Z) (caps : caps_t) :
  length code0 = 256%nat -> length data0 = 256%nat ->
  Forall literal name -> name <> [] -> (length name < 256)%nat ->
  exists r caps', slre_compile 5 code0 data0 (94 :: name ++ [36]) = Some (1, r) /\
    slre_match 6 r s (len s) caps = Some (bool_decide (s = name), caps').
Proof.
  intros Hc Hd F N L. eexists. rewrite (compile_name code0 data0 Hc Hd name 5 F N L) by lia.
  destruct (match_name code0 data0 name s caps 6 N L) as [caps' E]; [lia|]. exists caps'. by split.
Qed.

Lemma slre_literal_exact_witness :
  exists r caps', slre_compile 5 (replicate 256 0) (replicate 256 0) (94 :: [101; 116; 104] ++ [36]) = Some (1, r) /\
    slre_match 6 r [101; 116; 104; 49] 4 None = Some (false, caps').
Proof.
  apply (slre_literal_exact (replicate 256 0) (replicate 256 0) [101; 116; 104] [101; 116; 104; 49] None);
    [reflexivity..| |discriminate|simpl; lia].
  repeat (constructor; [split; [lia|reflexivity]|]). constructor.
Defined.

(** A name with the wildcard [\d*] in it, as in [eth\d*addr], compiles and
    matches exactly the strings with any number of digits in that place; the
    backtracking of the greedy loop loses no match, and the fuel linear in the
    string is enough. *)
Theorem slre_wildcard_exact (code0 data0 pre suf s : list Z) (caps : caps_t) :
  length code0 = 256%nat -> length data0 = 256%nat ->
  Forall literal pre -> Forall literal suf -> pre <> [] -> suf <> [] ->
  (length pre + length suf < 256)%nat ->
  exists r b caps', slre_compile 8 code0 data0 (94 :: pre ++ 92 :: 100 :: 42 :: suf ++ [36]) = Some (1, r) /\
    slre_match (length s + 10) r s (len s) caps = Some (b, caps') /\
    (b = true <-> exists ds, Forall (fun c => isdigit c = true) ds /\ s = pre ++ ds ++ suf).
Proof.
  intros Hc Hd F1 F2 N1 N2 L. eexists. rewrite (compile_wild code0 data0 Hc Hd pre suf 8 F1 F2 N1 N2 L) by lia.
  destruct (match_wild code0 data0 pre suf s caps 0) as (b & caps' & E & B).
  rewrite Nat.add_0_r in E. exists b, caps'. by split.
Qed.

Lemma slre_wildcard_exact_witness :
  exists r b caps', slre_compile 8 (replicate 256 0) (replicate 256 0)
      (94 :: [101; 116; 104] ++ 92 :: 100 :: 42 :: [97; 100; 100; 114] ++ [36]) = Some (1, r) /\
    slre_match (9 + 10) r [101; 116; 104; 49; 50; 97; 100; 100; 114] 9 None = Some (b, caps') /\
    (b = true <-> exists ds, Forall (fun c => isdigit c = true) ds /\
       [101; 116; 104; 49; 50; 97; 100; 100; 114] = [101; 116; 104] ++ ds ++ [97; 100; 100; 114]).
Proof.
  apply (slre_wildcard_exact (replicate 256 0) (replicate 256 0) [101; 116; 104] [97; 100; 100; 114]
           [101; 116; 104; 49; 50; 97; 100; 100; 114] None); [reflexivity..| | | | |simpl; lia];
    try discriminate; repeat (constructor; [split; [lia|reflexivity]|]); constructor.
Defined.

(** * Patterns that go wrong *)

Lemma compile_all_stuck re k : forall fuel r,
  num_caps r = 0 -> compile_all k fuel r (41 :: re) = None.
Proof.
  induction k as [|k IH]; intros fuel r Hr; [done|]. cbn [compile_all rd hd Z.eqb]. unfold compile.
  destruct fuel as [|fuel]; [done|]. cbn [compile_loop rd hd Z.eqb Pos.eqb fixup_branch Z.ltb Z.compare].
  rewrite Hr. cbn [Z.eqb]. by apply IH.
Qed.

(** A pattern that starts with an unmatched closing bracket is never
    rejected: the compiler puts the bracket back and meets it again forever,
    whatever the fuel. *)
Theorem slre_compile_hangs (fuel : nat) (code0 data0 re : list Z) :
  length code0 = 256%nat -> slre_compile fuel code0 data0 (41 :: re) = None.
Proof.
  intros Hc. unfold slre_compile. rewrite compile_all_stuck; [done|].
  destruct code0 as [|a [|b c]]; [done..|]. reflexivity.
Qed.

Lemma slre_compile_hangs_witness : slre_compile 1000 (replicate 256 0) [] [41; 97] = None.
Proof. apply (slre_compile_hangs 1000 (replicate 256 0) [] [97]). reflexivity. Defined.

(** A starred group that holds a starred letter. *)
Definition star_star : slre :=
  match slre_compile 20 (replicate 256 0) (replicate 256 0) [94; 40; 97; 42; 41; 42; 36] with
  | Some (_, r) => r
  | None => prog [] [] [] [] 0 0
  end.

(** Matching it never ends, not even on the empty string: the inner loop
    matches nothing and the outer one repeats it. *)
Theorem slre_match_hangs (fuel : nat) : slre_match fuel star_star [] 0 None = None.
Proof.
  assert (forall n m, loop_greedy n star_star 3 [] 0 0 m = None) as Lp.
  { induction n as [|n IH]; intros m; [done|]. cbn [loop_greedy].
    assert (match_re n star_star (3 + 2) [] 0 0 None = None \/
            match_re n star_star (3 + 2) [] 0 0 None = Some (true, 0, None)) as [->| ->].
    { clear IH. do 8 (destruct n as [|n]; [first [left; vm_compute; reflexivity|right; vm_compute; reflexivity]|]).
      right. vm_compute. reflexivity. }
    { done. }
    destruct (match_re n star_star _ [] 0 0 None) as [[[[] ?] ?]|]; by try apply IH. }
  unfold slre_match. change (negb (anchored star_star =? 0)) with true. cbv iota.
  do 3 (destruct fuel as [|fuel]; [vm_compute; reflexivity|]).
  rewrite step_open, step_bol, step_star by (vm_compute; reflexivity). cbn [Z.eqb].
  change (0 + 2 + 1) with 3. by rewrite Lp.
Qed.
