(* ===== verification/EnvAttr.v ===== *)
(** Attribute lists of the environment (env/attr.c, lib/linux_string.c): the
    model, and what a walk visits.

    A list such as [ipaddr:i,eth\d*addr:mo] associates variables with flags
    or callbacks.  env_attr_walk visits its entries; env_attr_lookup finds the
    attributes of one name and exists twice, with regular expressions
    (CONFIG_REGEX) and without.  Copies of an entry live in a block [m] that
    the code writes terminators into, as here.  A callback with its private
    data is a function on a state; it gives [None] when it does not return.
    [mem_ok k] is the outcome of the k-th allocation of a walk.  Lists are
    shorter than 2^31 bytes, so lengths fit an int. *)

From S2P Require Import Prelude Bytes Cstring CstringProps Slre.

Definition ENV_ATTR_LIST_DELIM : Z := 44.
Definition ENV_ATTR_SEP : Z := 58.

(** * White space (lib/linux_string.c) *)

Fixpoint skip_spaces (s : list Z) : list Z :=
  match s with
  | c :: s' => if isspace c then skip_spaces s' else s
  | [] => s
  end.

(** [while (end >= s && isspace( *end)) end--] *)
Fixpoint trim_back (n : nat) (m : list Z) (s end_ : Z) : Z :=
  if (s <=? end_) && isspace (m !!! Z.to_nat end_) then
    match n with O => end_ | S n' => trim_back n' m s (end_ - 1) end
  else end_.

(** The new start of the string and the block. *)
Definition strim (m : list Z) (s : Z) : Z * list Z :=
  let rest := skip_spaces (at_addr m s) in
  let s := s + (Z.of_nat (length (at_addr m s)) - Z.of_nat (length rest)) in
  let size := strlen (at_addr m s) in
  if size =? 0 then (s, m)
  else
    let end_ := trim_back (Z.to_nat size) m s (s + size - 1) in
    (s, store m (end_ + 1) [0]).

(** * Walking a list *)

(** Name and attributes of a non-empty entry, taken apart in its copy. *)
Definition split_entry (entry : list Z) : list Z * option (list Z) :=
  let m := entry ++ [0] in
  match strchr m ENV_ATTR_SEP with
  | Some a =>
      let m := store m a [0] in
      let (attributes, m) := strim m (a + 1) in
      let (name, m) := strim m 0 in
      (cstr (at_addr m name), Some (cstr (at_addr m attributes)))
  | None =>
      let (name, m) := strim m 0 in (cstr (at_addr m name), None)
  end.

Section Walk.
Context {St : Type} (mem_ok : nat -> bool).
Context (callback : list Z -> option (list Z) -> St -> option (Z * St)).

(** The do loop from [entry] on; [k] allocations were made. *)
Fixpoint walk_loop (fuel k : nat) (entry : list Z) (st : St) : option (Z * St) :=
  match fuel with
  | O => None
  | S n =>
      let entry_end := strchr entry ENV_ATTR_LIST_DELIM in
      let entry_len := match entry_end with None => strlen entry | Some e => e end in
      let next k st := match entry_end with
                       | Some e => walk_loop n k (drop (Z.to_nat (e + 1)) entry) st
                       | None => Some (0, st)
                       end in
      if entry_len =? 0 then next k st
      else if negb (mem_ok k) then Some (- ENOMEM, st)
      else
        let (name, attributes) := split_entry (slice entry 0 entry_len) in
        if negb (strlen name =? 0) then
          match callback name attributes st with
          | None => None
          | Some (retval, st) => if negb (retval =? 0) then Some (retval, st) else next (S k) st
          end
        else next (S k) st
  end.

Definition env_attr_walk (attr_list : option (list Z)) (st : St) : option (Z * St) :=
  match attr_list with
  | None => Some (1, st)
  | Some l => walk_loop (S (length l)) 0 l st
  end.
End Walk.

(** * Looking up a name without regular expressions *)

(** Reading at an offset; the byte before the string is [before]. *)
Definition byte_at (before : Z) (s : list Z) (p : Z) : Z :=
  if p <? 0 then before else nth (Z.to_nat p) s 0.

Fixpoint spaces_back (n : nat) (before : Z) (s : list Z) (p : Z) : Z :=
  if (byte_at before s p =? 32) && (0 <=? p)
  then match n with O => p | S n' => spaces_back n' before s (p - 1) end
  else p.
Fixpoint spaces_fwd (s : list Z) : list Z :=
  match s with
  | c :: s' => if c =? 32 then spaces_fwd s' else s
  | [] => s
  end.

(** The search loop: [res] is [*result] and [result_size]. *)
Fixpoint name_search (fuel : nat) (before : Z) (searched search_for : list Z) (cur : Z)
    (res : option Z * Z) : option (option Z * Z) :=
  match fuel with
  | O => None
  | S n =>
      match strstr (drop (Z.to_nat cur) searched) search_for with
      | None => Some res
      | Some off =>
          let match_ := cur + off in
          let prevch := spaces_back (S (Z.to_nat match_)) before searched (match_ - 1) in
          let nextch := rd (spaces_fwd (drop (Z.to_nat (match_ + strlen search_for)) searched)) in
          let cur := match_ + 1 in
          if negb (match_ =? 0) && negb (byte_at before searched prevch =? ENV_ATTR_LIST_DELIM) &&
             negb (prevch =? -1)
          then name_search n before searched search_for cur res
          else if negb (nextch =? ENV_ATTR_SEP) && negb (nextch =? ENV_ATTR_LIST_DELIM) &&
                  negb (nextch =? 0)
          then name_search n before searched search_for cur res
          else name_search n before searched search_for cur (Some match_, strlen search_for)
      end
  end.

Definition reverse_name_search (before : Z) (searched search_for : list Z) : option (option Z * Z) :=
  if rd search_for =? 0 then Some (Some 0, strlen searched)
  else name_search (S (length searched)) before searched search_for 0 (None, 0).

(** The return value and the string left in [attributes]; [out] tells whether
    the caller passed a buffer. *)
Definition env_attr_lookup (before : Z) (out : bool) (attr_list : option (list Z)) (name : list Z)
  : option (Z * option (list Z)) :=
  match out, attr_list with
  | true, Some l =>
      match reverse_name_search before l name with
      | None => None
      | Some (None, _) => Some (- ENOENT, None)
      | Some (Some start, entry_len) =>
          let entry := spaces_fwd (drop (Z.to_nat (start + entry_len)) l) in
          if negb (rd entry =? ENV_ATTR_SEP) then Some (0, Some [])
          else
            let entry := spaces_fwd (tl entry) in
            let len := match strpbrk entry [ENV_ATTR_LIST_DELIM; 32] with
                       | None => strlen entry
                       | Some delim => delim
                       end in
            Some (0, Some (slice entry 0 len))
      end
  | _, _ => Some (- EINVAL, None)
  end.

(** * Looking up a name with regular expressions *)

Record regex_callback_priv := Priv {
  searched_for : list Z;
  regex : option (list Z);
  attributes : option (list Z)
}.

Section Regex.
Context (fuel : nat) (code0 data0 : list Z) (mem_regex mem_attr : bool).

Definition regex_callback (name : list Z) (attrs : option (list Z)) (cbp : regex_callback_priv)
  : option (Z * regex_callback_priv) :=
  let re := 94 :: name ++ [36] in
  match slre_compile fuel code0 data0 re with
  | None => None
  | Some (ok, r) =>
      if negb (ok =? 0) then
        match slre_match fuel r (searched_for cbp) (strlen (searched_for cbp))
                         (Some (replicate (Z.to_nat (num_caps r + 2)) (0, 0))) with
        | None => None
        | Some (true, _) =>
            match attrs with
            | None => Some (- EINVAL, cbp)
            | Some a =>
                if negb mem_regex then Some (- ENOMEM, Priv (searched_for cbp) None (attributes cbp))
                else if negb mem_attr then Some (- ENOMEM, Priv (searched_for cbp) None None)
                else Some (0, Priv (searched_for cbp) (Some re) (Some a))
            end
        | Some (false, _) => Some (0, cbp)
        end
      else Some (- EINVAL, cbp)
  end.

Definition env_attr_lookup_regex (mem_ok : nat -> bool) (out : bool) (attr_list : option (list Z))
    (name : list Z) : option (Z * option (list Z)) :=
  match out, attr_list with
  | true, Some l =>
      match env_attr_walk mem_ok regex_callback (Some l) (Priv name None None) with
      | None => None
      | Some (retval, priv) =>
          if negb (retval =? 0) then Some (retval, None)
          else match regex priv with
               | Some _ => Some (0, attributes priv)
               | None => Some (- ENOENT, None)
               end
      end
  | _, _ => Some (- EINVAL, None)
  end.
End Regex.

Abbreviation len l := (Z.of_nat (length l)).

(** * The meaning of a list *)

(** A string without white space at its ends. *)
Definition trim (s : list Z) : list Z := rev (skip_spaces (rev (skip_spaces s))).

(** The pieces between the delimiters. *)
Fixpoint split_on (c : Z) (s : list Z) : list (list Z) :=
  match s with
  | [] => [[]]
  | x :: s' => if x =? c then [] :: split_on c s'
               else match split_on c s' with p :: ps => (x :: p) :: ps | [] => [[x]] end
  end.

(** [name], or [name:attributes]. *)
Definition read_entry (p : list Z) : list Z * option (list Z) :=
  match strchr p ENV_ATTR_SEP with
  | None => (trim p, None)
  | Some a => (trim (take (Z.to_nat a) p), Some (trim (drop (Z.to_nat (a + 1)) p)))
  end.

Definition attr_entries (l : list Z) : list (list Z * option (list Z)) :=
  filter (fun e => fst e <> []) (map read_entry (split_on ENV_ATTR_LIST_DELIM l)).

(** Calling the callback on one entry after the other until it objects. *)
Fixpoint visit {St} (callback : list Z -> option (list Z) -> St -> option (Z * St))
    (es : list (list Z * option (list Z))) (st : St) : option (Z * St) :=
  match es with
  | [] => Some (0, st)
  | (name, attrs) :: es' =>
      match callback name attrs st with
      | None => None
      | Some (retval, st') => if negb (retval =? 0) then Some (retval, st') else visit callback es' st'
      end
  end.

(** * Trimming *)

Abbreviation plain := (Forall (fun c : Z => c <> 0)).

Lemma skip_spaces_app t rest c :
  isspace c = false -> skip_spaces (t ++ c :: rest) = skip_spaces t ++ c :: rest.
Proof. intros Hc. induction t as [|x t IH]; simpl; [by rewrite Hc|]. by destruct (isspace x). Qed.

Lemma skip_spaces_split t : exists sp, t = sp ++ skip_spaces t /\ Forall (fun c => isspace c = true) sp.
Proof.
  induction t as [|x t (sp & E & F)]; [by exists []|]. simpl. destruct (isspace x) eqn:X.
  - exists (x :: sp). split; [by rewrite E at 1|by constructor].
  - by exists [].
Qed.

(** The bytes from the end that are no spaces. *)
Definition rtrim (v : list Z) : list Z := rev (skip_spaces (rev v)).

Lemma rtrim_snoc v c : rtrim (v ++ [c]) = if isspace c then rtrim v else v ++ [c].
Proof.
  unfold rtrim. rewrite rev_app_distr. cbn [rev app skip_spaces].
  destruct (isspace c); [done|]. change (c :: rev v) with ([c] ++ rev v).
  by rewrite rev_app_distr, rev_involutive.
Qed.

Lemma rtrim_split v : exists sp, v = rtrim v ++ sp /\ Forall (fun c => isspace c = true) sp.
Proof.
  unfold rtrim. destruct (skip_spaces_split (rev v)) as (sp & E & F). exists (rev sp).
  split; [by rewrite <- rev_app_distr, <- E, rev_involutive|by apply List.Forall_rev].
Qed.

Lemma trim_back_ok pre post v : forall n,
  (length v <= n)%nat ->
  trim_back n (pre ++ v ++ post) (len pre) (len pre + len v - 1) = len pre + len (rtrim v) - 1.
Proof.
  revert post. induction v as [|c v IH] using rev_ind; intros post n Hn.
  - destruct n; cbn [trim_back]; (rewrite (proj2 (Z.leb_gt _ _)) by (cbn [length]; lia)); done.
  - rewrite length_app in *. cbn [length] in *. destruct n as [|n]; [lia|]. rewrite rtrim_snoc.
    cbn [trim_back]. destruct (Z.leb_spec (len pre) (len pre + Z.of_nat (length v + 1) - 1)); [|lia].
    assert ((pre ++ (v ++ [c]) ++ post) !!! Z.to_nat (len pre + Z.of_nat (length v + 1) - 1) = c) as ->.
    { replace (Z.to_nat _) with (length (pre ++ v)) by (rewrite length_app; lia).
      rewrite <- app_assoc, app_assoc. apply lookup_total_app_mid. }
    cbn [andb]. destruct (isspace c).
    + rewrite <- app_assoc. replace (len pre + Z.of_nat (length v + 1) - 1 - 1) with (len pre + len v - 1) by lia.
      apply IH. lia.
    + rewrite length_app. done.
Qed.

(** [strim] on a string inside a block: its pointer moves to the trimmed
    string, and only the string and its terminator are written. *)
Lemma strim_block pre t post :
  plain t ->
  exists lead junk w,
    strim (pre ++ t ++ 0 :: post) (len pre) = (len pre + lead, pre ++ w ++ post) /\
    0 <= lead /\ length w = S (length t) /\ drop (Z.to_nat lead) w = trim t ++ 0 :: junk.
Proof.
  intros P. unfold strim, at_addr. rewrite Nat2Z.id, drop_app_length.
  rewrite skip_spaces_app by done. set (v := skip_spaces t).
  destruct (skip_spaces_split t) as (sp & Et & Fs). fold v in Et.
  replace (len (t ++ 0 :: post) - len (v ++ 0 :: post)) with (len sp)
    by (rewrite Et, !length_app; simpl; lia).
  replace (Z.to_nat (len pre + len sp)) with (length (pre ++ sp)) by (rewrite length_app; lia).
  assert (pre ++ t ++ 0 :: post = (pre ++ sp) ++ v ++ 0 :: post) as Em by (by rewrite Et, <- !app_assoc).
  rewrite Em, drop_app_length. assert (plain v) as Pv by (rewrite Et in P; by apply Forall_app in P as [_ P]).
  assert (strlen (v ++ 0 :: post) = len v) as -> by (by rewrite strlen_cstr, cstr_app_end).
  assert (trim t = rtrim v) as -> by done.
  destruct (Z.eqb_spec (len v) 0) as [Ev|Ev].
  - assert (v = []) as E0 by (destruct v; [done|simpl in Ev; lia]). exists (len sp), [], (t ++ [0]).
    rewrite <- Em. split; [by rewrite <- !app_assoc|]. split; [lia|]. split; [rewrite length_app; simpl; lia|].
    rewrite Et, E0, app_nil_r, Nat2Z.id, drop_app_length. done.
  - replace (len pre + len sp) with (len (pre ++ sp)) by (rewrite length_app; lia).
    rewrite trim_back_ok by lia. destruct (rtrim_split v) as (sp2 & Es & _).
    set (u := rtrim v) in *.
    exists (len sp), (drop 1 (sp2 ++ [0])), (sp ++ u ++ 0 :: drop 1 (sp2 ++ [0])).
    split; [|split; [lia|split]].
    + f_equal; [rewrite length_app; lia|]. unfold store.
      replace (Z.to_nat (len (pre ++ sp) + len u - 1 + 1)) with (length ((pre ++ sp) ++ u)) by (rewrite length_app; lia).
      rewrite Es. rewrite <- (app_assoc u), (app_assoc (pre ++ sp) u), take_app_length, drop_app_add.
      cbn [length]. rewrite <- !app_assoc. do 3 f_equal. cbn [app]. f_equal.
      destruct sp2 as [|x sp2]; [done|]. simpl. by rewrite !drop_0, <- app_assoc.
    + rewrite Et, Es, !length_app. cbn [length]. rewrite length_drop, length_app. simpl. lia.
    + by rewrite Nat2Z.id, drop_app_length.
Qed.

Lemma strchr_at_ok s c off :
  c <> 0 ->
  match strchr_at s c off with
  | Some a => exists p rest, s = p ++ c :: rest /\ a = off + len p /\ ~ In c p /\ plain p
  | None => ~ In c (cstr s)
  end.
Proof.
  intros Nc. revert off. induction s as [|x s IH]; intros off; cbn [strchr_at rd hd].
  { destruct (Z.eqb_spec 0 c); [congruence|]. simpl. tauto. }
  destruct (Z.eqb_spec x c) as [->|Nx].
  - exists [], s. simpl. repeat split; [lia|tauto|constructor].
  - destruct (Z.eqb_spec x 0) as [->|N0]; [simpl; tauto|].
    specialize (IH (off + 1)). destruct (strchr_at s c (off + 1)) as [a|].
    + destruct IH as (p & rest & -> & -> & N & P). exists (x :: p), rest. cbn [app length].
      repeat split; [lia|intros [?|?]; tauto|by constructor].
    + rewrite cstr_step by done. intros [?|?]; tauto.
Qed.

Lemma strchr_ok s c :
  0 < c < 256 ->
  match strchr s c with
  | Some a => exists p rest, s = p ++ c :: rest /\ a = len p /\ ~ In c p /\ plain p
  | None => ~ In c (cstr s)
  end.
Proof.
  intros Hc. unfold strchr. rewrite u8_small by lia. pose proof (strchr_at_ok s c 0 ltac:(lia)) as H.
  destruct (strchr_at s c 0); [|done]. destruct H as (p & rest & ? & ? & ?). exists p, rest. by rewrite Z.add_0_l in *.
Qed.

(** Where the first [c] of a string is. *)
Lemma strchr_found p c rest : 0 < c < 256 -> ~ In c p -> plain p -> strchr (p ++ c :: rest) c = Some (len p).
Proof.
  intros Hc N P. pose proof (strchr_ok (p ++ c :: rest) c Hc) as H. destruct (strchr _ c) as [a|].
  - destruct H as (p' & rest' & E & -> & N' & _). f_equal. f_equal.
    revert p' N' E. clear P. induction p as [|x p IH]; intros [|y p'] N' E; try done; injection E as E1 E2.
    + subst. simpl in N'. tauto.
    + subst. simpl in N. tauto.
    + simpl in *. f_equal. apply IH; tauto.
  - destruct H. rewrite <- (take_app_length p (c :: rest)) at 1. clear N. induction P as [|x p Px P IH]; simpl.
    + destruct (Z.eqb_spec c 0); [lia|by left].
    + rewrite (proj2 (Z.eqb_neq x 0)) by done. by right.
Qed.

Lemma strchr_missing s c : 0 < c < 256 -> plain s -> ~ In c s -> strchr s c = None.
Proof.
  intros Hc P N. pose proof (strchr_ok s c Hc) as H. destruct (strchr s c); [|done].
  destruct H as (p & rest & -> & _). destruct N. apply in_or_app. right. by left.
Qed.

Lemma strchr_end s c : 0 < c < 256 -> plain s -> ~ In c s -> strchr (s ++ [0]) c = None.
Proof.
  intros Hc P N. pose proof (strchr_ok (s ++ [0]) c Hc) as H. destruct (strchr _ c); [|done].
  destruct H as (p & rest & E & _). destruct N.
  assert (In c (s ++ [0])) as [I|[I|[]]]%in_app_or by (rewrite E; apply in_or_app; right; by left); [done|lia].
Qed.

Lemma skip_spaces_plain s : plain s -> plain (skip_spaces s).
Proof. intros P. destruct (skip_spaces_split s) as (sp & E & _). rewrite E in P. by apply Forall_app in P as [_ P]. Qed.
Lemma rev_plain s : plain s -> plain (rev s).
Proof. intros P. apply List.Forall_rev, P. Qed.
Lemma trim_plain s : plain s -> plain (trim s).
Proof. intros P. unfold trim. by apply rev_plain, skip_spaces_plain, rev_plain, skip_spaces_plain. Qed.

(** Taking an entry apart in its copy reads it as specified. *)
Lemma split_entry_ok e : plain e -> split_entry e = read_entry e.
Proof.
  intros P. unfold split_entry, read_entry. pose proof (strchr_ok e ENV_ATTR_SEP ltac:(done)) as H.
  destruct (strchr e ENV_ATTR_SEP) as [a|].
  - destruct H as (p & rest & -> & -> & N & Pp). apply Forall_app in P as [_ [_ Pr]%Forall_cons].
    rewrite <- app_assoc. cbn [app]. rewrite strchr_found by done.
    unfold store. rewrite Nat2Z.id, take_app_length, drop_app_add. cbn [length drop app].
    replace (len p + 1) with (len (p ++ [0])) by (rewrite length_app; simpl; lia).
    change (p ++ [0] ++ drop 0 (rest ++ [0])) with (p ++ 0 :: rest ++ [0]) || rewrite drop_0.
    replace (p ++ 0 :: rest ++ [0]) with ((p ++ [0]) ++ rest ++ 0 :: []) by (by rewrite <- app_assoc).
    destruct (strim_block (p ++ [0]) rest [] Pr) as (l1 & j1 & w1 & -> & L1 & Lw1 & D1).
    rewrite app_nil_r, <- app_assoc. cbn [app].
    destruct (strim_block [] p w1 Pp) as (l2 & j2 & w2 & E2 & L2 & Lw2 & D2).
    cbn [app length] in E2. change (Z.of_nat 0) with 0 in E2. rewrite Z.add_0_l in E2. rewrite E2. unfold at_addr. cbn [app Z.of_nat Z.add].
    replace (Z.to_nat (len (p ++ [0]) + l1)) with (length w2 + Z.to_nat l1)%nat by (rewrite length_app; simpl; lia).
    rewrite drop_app_add, D1. f_equal; [|f_equal].
    + rewrite drop_app_le by (rewrite Lw2; apply (f_equal length) in D2; rewrite length_drop, length_app in D2; simpl in D2; lia).
      rewrite D2, <- app_assoc. cbn [app]. rewrite cstr_app_end by (by apply trim_plain). by rewrite ?Nat2Z.id, take_app_length.
    + rewrite cstr_app_end by (by apply trim_plain). f_equal.
      replace (Z.to_nat (len (p ++ [0]))) with (length p + 1)%nat by (rewrite length_app; simpl; lia).
      by rewrite drop_app_add.
  - assert (~ In ENV_ATTR_SEP e) as N by (by rewrite cstr_plain in H).
    rewrite strchr_end by done.
    destruct (strim_block [] e [] P) as (l2 & j2 & w2 & E2 & L2 & Lw2 & D2).
    cbn [app length] in E2. change (Z.of_nat 0) with 0 in E2. rewrite Z.add_0_l in E2. rewrite E2. unfold at_addr. cbn [app Z.of_nat Z.add].
    rewrite app_nil_r, D2. by rewrite cstr_app_end by (by apply trim_plain).
Qed.

(** * Walking visits the entries *)

Lemma split_on_cons c p rest : ~ In c p -> split_on c (p ++ c :: rest) = p :: split_on c rest.
Proof.
  induction p as [|x p IH]; intros N; simpl; [by rewrite Z.eqb_refl|].
  simpl in N. rewrite (proj2 (Z.eqb_neq x c)) by tauto. by rewrite IH by tauto.
Qed.
Lemma split_on_last c p : ~ In c p -> split_on c p = [p].
Proof.
  induction p as [|x p IH]; intros N; simpl; [done|].
  simpl in N. rewrite (proj2 (Z.eqb_neq x c)) by tauto. by rewrite IH by tauto.
Qed.

Lemma attr_entries_cons p rest :
  ~ In ENV_ATTR_LIST_DELIM p ->
  attr_entries (p ++ ENV_ATTR_LIST_DELIM :: rest) =
  (if decide (fst (read_entry p) <> []) then [read_entry p] else []) ++ attr_entries rest.
Proof. intros N. unfold attr_entries. rewrite split_on_cons by done. cbn [map]. rewrite filter_cons. by case_decide. Qed.

Lemma attr_entries_last p :
  ~ In ENV_ATTR_LIST_DELIM p ->
  attr_entries p = if decide (fst (read_entry p) <> []) then [read_entry p] else [].
Proof. intros N. unfold attr_entries. rewrite split_on_last by done. cbn [map]. rewrite filter_cons. by case_decide. Qed.

Section Visit.
Context {St : Type} (mem_ok : nat -> bool) (mem : forall k, mem_ok k = true).
Context (callback : list Z -> option (list Z) -> St -> option (Z * St)).

(** One entry of the walk: [next] is what happens behind it. *)
Lemma walk_entry p (k : nat) (next : nat -> St -> option (Z * St)) es st :
  plain p -> (forall k st, next k st = visit callback es st) ->
  (if len p =? 0 then next k st
   else if negb (mem_ok k) then Some (- ENOMEM, st)
   else let (name, attributes) := split_entry p in
        if negb (strlen name =? 0) then
          match callback name attributes st with
          | None => None
          | Some (retval, st) => if negb (retval =? 0) then Some (retval, st) else next (S k) st
          end
        else next (S k) st) =
  visit callback ((if decide (fst (read_entry p) <> []) then [read_entry p] else []) ++ es) st.
Proof using mem.
  intros P Hn. rewrite split_entry_ok, mem by done.
  destruct (Z.eqb_spec (len p) 0) as [E|E].
  { destruct p; [|simpl in E; lia]. apply Hn. }
  assert (plain (fst (read_entry p))) as Pn.
  { unfold read_entry. destruct (strchr p ENV_ATTR_SEP); cbn [fst]; apply trim_plain; [by apply Forall_take|done]. }
  cbn [negb]. destruct (read_entry p) as [name attrs]. cbn [fst] in *.
  rewrite strlen_cstr, cstr_plain by done.
  case_decide as D; [|subst name; apply Hn].
  rewrite (proj2 (Z.eqb_neq _ 0)) by (destruct name; [done|simpl; lia]). cbn [negb app visit].
  destruct (callback name attrs st) as [[retval st']|]; [|done]. by rewrite Hn.
Qed.

Lemma walk_loop_ok fuel : forall l k st,
  plain l -> (length l < fuel)%nat ->
  walk_loop mem_ok callback fuel k l st = visit callback (attr_entries l) st.
Proof using mem.
  induction fuel as [|fuel IH]; intros l k st P Hf; [lia|]. cbn [walk_loop].
  pose proof (strchr_ok l ENV_ATTR_LIST_DELIM ltac:(done)) as H.
  destruct (strchr l ENV_ATTR_LIST_DELIM) as [a|].
  - destruct H as (p & rest & -> & -> & N & Pp). rewrite attr_entries_cons by done.
    assert (slice (p ++ ENV_ATTR_LIST_DELIM :: rest) 0 (len p) = p) as ->.
    { unfold slice. rewrite Z.sub_0_r, Nat2Z.id, drop_0. apply take_app_length. }
    apply (walk_entry p k (fun k st => walk_loop mem_ok callback fuel k _ st)); [done|].
    intros k' st'. replace (Z.to_nat (len p + 1)) with (length p + 1)%nat by lia.
    rewrite drop_app_add. apply IH; [by apply Forall_app in P as [_ [_ ?]%Forall_cons]|].
    rewrite length_app in Hf. simpl in *. lia.
  - rewrite cstr_plain in H by done. rewrite attr_entries_last by done.
    rewrite strlen_cstr, cstr_plain, slice_all by done.
    rewrite <- (app_nil_r (if decide _ then _ else _)).
    by apply (walk_entry l k (fun k st => Some (0, st))).
Qed.
End Visit.

(** Env_attr_walk visits exactly the entries of a list: the pieces
    between the commas that have a name, from first to last, with white space
    trimmed off name and attributes, until the callback returns non-zero; that
    value is the result, or 0.  The walk ends whenever the callback does. *)
Theorem env_attr_walk_visits {St} (mem_ok : nat -> bool)
    (callback : list Z -> option (list Z) -> St -> option (Z * St)) (l : list Z) (st : St) :
  (forall k, mem_ok k = true) -> Forall (fun c => c <> 0) l ->
  env_attr_walk mem_ok callback (Some l) st = visit callback (attr_entries l) st.
Proof. intros mem P. apply walk_loop_ok; [done|done|lia]. Qed.

(** The list [a:b, c : d,,e]. *)
Lemma env_attr_walk_visits_witness :
  env_attr_walk (fun _ => true) (fun n a st => Some (0, st ++ [(n, a)]))
    (Some [97; 58; 98; 44; 32; 99; 32; 58; 32; 100; 44; 44; 101]) []
  = Some (0, [([97], Some [98]); ([99], Some [100]); ([101], None)]).
Proof.
  etransitivity; [apply (env_attr_walk_visits (fun _ => true)); [done|]|vm_compute; reflexivity].
  repeat constructor; discriminate.
Defined.
