(* ===== verification/EnvLookup.v ===== *)
(** Looking up a name in an attribute list (env_attr_lookup of env/attr.c):
    without regular expressions the result is the attributes of the last entry
    with that name that a walk over the list visits; with CONFIG_REGEX, for
    entries that are plain names or names with the wildcard of the built-in
    lists, those of the last entry whose pattern describes the name. *)

From S2P Require Import Prelude Bytes Cstring CstringProps Slre EnvAttr.

(** * Positions where the name stands as an entry *)

(** The first character behind the spaces is one of [set] or the end. *)
Definition edge (set s : list Z) : bool :=
  match spaces_fwd s with [] => true | c :: _ => bool_decide (c ∈ set) end.

Definition good (name l : list Z) (p : nat) : bool :=
  bool_decide (name `prefix_of` drop p l) && edge [ENV_ATTR_LIST_DELIM] (rev (take p l)) &&
  edge [ENV_ATTR_SEP; ENV_ATTR_LIST_DELIM] (drop (p + length name) l).

(** [p] is the last of them that is not below [cur]. *)
Definition last_good (name l : list Z) (cur : nat) (p : option nat) : Prop :=
  match p with
  | Some p => (cur <= p)%nat /\ good name l p = true /\
              forall q, (p < q)%nat -> good name l q = false
  | None => forall q, (cur <= q)%nat -> good name l q = false
  end.

Lemma good_bound name l p : name <> [] -> good name l p = true -> (p < length l)%nat.
Proof.
  unfold good. rewrite !andb_true_iff, bool_decide_eq_true. intros N [[P _] _].
  apply prefix_length in P. rewrite length_drop in P. destruct name; [done|]. simpl in P. lia.
Qed.

Lemma spaces_fwd_plain s : plain s -> plain (spaces_fwd s).
Proof. induction s as [|c s IH]; intros P; [done|]. simpl. destruct (c =? 32); [|done]. apply IH. by apply Forall_cons in P as [_ ?]. Qed.

(** Reading the next character decides the right edge. *)
Lemma edge_rd set s :
  plain s -> Forall (fun c => c <> 0) set ->
  edge set s = bool_decide (rd (spaces_fwd s) ∈ 0 :: set).
Proof.
  intros P Fs. unfold edge. pose proof (spaces_fwd_plain s P) as P'. destruct (spaces_fwd s) as [|c t].
  - symmetry. apply bool_decide_true. left.
  - apply Forall_cons in P' as [Pc _]. cbn [rd hd]. apply bool_decide_ext. rewrite elem_of_cons. tauto.
Qed.

Section Search.
Context (before : Z) (l name : list Z) (Pl : plain l) (Pn : plain name) (Nn : name <> []).

(** The character the backward loop stops at. *)
Lemma spaces_back_ok (p : nat) : forall n,
  (p <= length l)%nat -> (p <= n)%nat ->
  let q := spaces_back n before l (Z.of_nat p - 1) in
  match spaces_fwd (rev (take p l)) with
  | [] => q = -1
  | c :: _ => 0 <= q /\ byte_at before l q = c
  end.
Proof using Type.
  induction p as [|p IH]; intros n Hp Hn q; subst q.
  { cbn [take rev spaces_fwd]. destruct n; cbn [spaces_back Z.of_nat Z.sub Z.add Z.opp Pos.compare];
      rewrite andb_false_r; done. }
  destruct (lookup_lt_is_Some_2 l p) as [c Hc]; [lia|].
  rewrite (take_S_r l p c Hc), rev_app_distr. cbn [rev app spaces_fwd].
  destruct n as [|n]; [lia|]. cbn [spaces_back].
  replace (Z.of_nat (S p) - 1) with (Z.of_nat p) by lia.
  assert (byte_at before l (Z.of_nat p) = c) as Eb.
  { unfold byte_at. destruct (Z.ltb_spec (Z.of_nat p) 0); [lia|]. rewrite Nat2Z.id.
    by apply nth_lookup_Some. }
  rewrite Eb. destruct (Z.leb_spec 0 (Z.of_nat p)); [|lia]. rewrite andb_true_r.
  destruct (Z.eqb_spec c 32) as [->|Nc]; [apply IH; lia|]. split; [lia|done].
Qed.

(** The two tests of a round of the search. *)
Lemma round_good (p : nat) :
  (p <= length l)%nat -> name `prefix_of` drop p l ->
  let prevch := spaces_back (S p) before l (Z.of_nat p - 1) in
  let nextch := rd (spaces_fwd (drop (p + length name) l)) in
  good name l p =
    negb (negb (Z.of_nat p =? 0) && negb (byte_at before l prevch =? ENV_ATTR_LIST_DELIM) && negb (prevch =? -1))
    && negb (negb (nextch =? ENV_ATTR_SEP) && negb (nextch =? ENV_ATTR_LIST_DELIM) && negb (nextch =? 0)).
Proof using Pl.
  intros Hp Hpre prevch nextch. unfold good. rewrite (bool_decide_true _ Hpre). cbn [andb]. f_equal.
  - pose proof (spaces_back_ok p (S p) Hp ltac:(lia)) as B. cbv zeta in B. fold prevch in B. unfold edge.
    destruct p as [|p].
    { cbn. done. }
    rewrite (proj2 (Z.eqb_neq (Z.of_nat (S p)) 0)) by lia. cbn [negb andb].
    destruct (spaces_fwd (rev (take (S p) l))) as [|c t].
    + rewrite B. cbn. by rewrite andb_false_r.
    + destruct B as [B1 ->]. rewrite (proj2 (Z.eqb_neq prevch (-1))) by lia. cbn [negb]. rewrite andb_true_r, negb_involutive.
      destruct (Z.eqb_spec c ENV_ATTR_LIST_DELIM) as [->|N].
      * apply bool_decide_true. left.
      * apply bool_decide_false. rewrite list_elem_of_singleton. done.
  - rewrite edge_rd; [|by apply Forall_drop|by repeat constructor].
    fold nextch. rewrite !negb_andb, !negb_involutive.
    destruct (Z.eqb_spec nextch ENV_ATTR_SEP) as [->|N1]; [by apply bool_decide_true; right; left|].
    destruct (Z.eqb_spec nextch ENV_ATTR_LIST_DELIM) as [->|N2]; [by apply bool_decide_true; right; right; left|].
    destruct (Z.eqb_spec nextch 0) as [->|N3]; [by apply bool_decide_true; left|].
    apply bool_decide_false. rewrite !elem_of_cons, elem_of_nil. tauto.
Qed.
Lemma not_good_before (cur i q : nat) :
  (forall j : nat, (j < i)%nat -> ~ name `prefix_of` drop j (drop cur l)) ->
  (cur <= q < cur + i)%nat -> good name l q = false.
Proof using Type.
  intros N H. unfold good. rewrite bool_decide_false; [done|]. specialize (N (q - cur)%nat ltac:(lia)).
  by rewrite drop_drop, Nat.add_comm, Nat.sub_add in N by lia.
Qed.

Lemma name_search_ok fuel : forall (cur : nat) res,
  (length l - cur < fuel)%nat ->
  exists p, last_good name l cur p /\
    name_search fuel before l name (Z.of_nat cur) res =
      Some (match p with Some p => (Some (Z.of_nat p), len name) | None => res end).
Proof using Pl Pn Nn.
  induction fuel as [|fuel IH]; intros cur res Hf; [lia|]. cbn [name_search].
  rewrite Nat2Z.id. pose proof (strstr_ok (drop cur l) name) as F.
  rewrite !cstr_plain in F by (done || by apply Forall_drop).
  destruct (strstr (drop cur l) name) as [o|].
  2:{ exists None. split; [|done]. intros q Hq. unfold good. rewrite bool_decide_false; [done|].
      specialize (F (q - cur)%nat). by rewrite drop_drop, Nat.add_comm, Nat.sub_add in F by lia. }
  destruct F as (Ho & Hpre & Hfst). set (i := Z.to_nat o) in *.
  replace (Z.of_nat cur + o) with (Z.of_nat (cur + i)) by lia. set (p := (cur + i)%nat) in *.
  rewrite drop_drop in Hpre. fold p in Hpre.
  assert (p < length l)%nat as Hp.
  { apply prefix_length in Hpre. rewrite length_drop in Hpre. destruct name; [done|]. simpl in Hpre. lia. }
  assert (forall q, (cur <= q < p)%nat -> good name l q = false) as Lo by (intros q Hq; by eapply not_good_before).
  pose proof (round_good p ltac:(lia) Hpre) as G. cbv zeta in G.
  rewrite Nat2Z.id. rewrite (strlen_cstr name), (cstr_plain name) by done.
  replace (Z.to_nat (Z.of_nat p + len name)) with (p + length name)%nat by lia.
  replace (Z.of_nat p + 1) with (Z.of_nat (S p)) by lia.
  assert (forall res', exists p', last_good name l (S p) p' /\
            name_search fuel before l name (Z.of_nat (S p)) res' =
              Some (match p' with Some p' => (Some (Z.of_nat p'), len name) | None => res' end)) as IHp
    by (intros res'; apply IH; lia). clear IH.
  assert (good name l p = false -> exists p', last_good name l cur p' /\
            name_search fuel before l name (Z.of_nat (S p)) res =
              Some (match p' with Some p' => (Some (Z.of_nat p'), len name) | None => res end)) as Skip.
  { intros Gp. destruct (IHp res) as (p' & L & E). exists p'. split; [|done]. destruct p' as [p'|].
    - destruct L as (? & ?). split; [lia|done].
    - intros q Hq. destruct (decide (q < p)%nat); [by apply Lo|]. destruct (decide (q = p)) as [->|]; [done|].
      apply L. lia. }
  destruct (negb _ && _ && _) in G |- *; [by apply Skip|].
  destruct (negb _ && _ && _) in G |- *; [by apply Skip|].
  destruct (IHp (Some (Z.of_nat p), len name)) as (p' & L & ->). cbn in G. destruct p' as [p'|].
  - exists (Some p'). split; [|done]. destruct L as (? & ?). split; [lia|done].
  - exists (Some p). split; [|done]. split; [lia|]. split; [done|]. intros q Hq. apply L. lia.
Qed.
End Search.

(** * The attributes behind a position *)

(** Up to the next delimiter or space. *)
Fixpoint attr_word (s : list Z) : list Z :=
  match s with
  | c :: s' => if (c =? ENV_ATTR_LIST_DELIM) || (c =? 32) then [] else c :: attr_word s'
  | [] => []
  end.

Lemma strpbrk_at_word s : forall off,
  plain s ->
  match strpbrk_at s [ENV_ATTR_LIST_DELIM; 32] off with
  | Some d => d = off + len (attr_word s)
  | None => attr_word s = s
  end /\ take (length (attr_word s)) s = attr_word s.
Proof.
  induction s as [|c s IH]; intros off P; [done|]. apply Forall_cons in P as [Pc P].
  cbn [strpbrk_at attr_word in_set]. rewrite (proj2 (Z.eqb_neq c 0)) by done.
  change (ENV_ATTR_LIST_DELIM =? 0) with false. change (32 =? 0) with false. cbv iota.
  destruct (c =? ENV_ATTR_LIST_DELIM); cbn [orb]; [split; [simpl; lia|done]|].
  destruct (c =? 32); [split; [simpl; lia|done]|].
  destruct (IH (off + 1) P) as [E T]. split; [|cbn [length take]; by rewrite T].
  destruct (strpbrk_at s _ _); [simpl in *; lia|by rewrite E].
Qed.

Definition attrs_at (name l : list Z) (p : nat) : list Z :=
  match spaces_fwd (drop (p + length name) l) with
  | c :: t => if c =? ENV_ATTR_SEP then attr_word (spaces_fwd t) else []
  | [] => []
  end.

(** env_attr_lookup in these terms. *)
Lemma lookup_last before l name :
  plain l -> plain name -> name <> [] ->
  exists p, last_good name l 0 p /\
    env_attr_lookup before true (Some l) name =
      Some (match p with Some p => (0, Some (attrs_at name l p)) | None => (- ENOENT, None) end).
Proof.
  intros Pl Pn Nn. destruct (name_search_ok before l name Pl Pn Nn (S (length l)) 0 (None, 0)) as (p & L & E); [lia|].
  exists p. split; [done|]. unfold env_attr_lookup, reverse_name_search.
  destruct name as [|c name]; [done|]. pose proof Pn as [Pc _]%Forall_cons. cbn [rd hd].
  rewrite (proj2 (Z.eqb_neq c 0)) by done. change (Z.of_nat 0) with 0 in E. rewrite E. destruct p as [p|]; [|done].
  replace (Z.to_nat (Z.of_nat p + len (c :: name))) with (p + length (c :: name))%nat by lia.
  unfold attrs_at. pose proof (spaces_fwd_plain (drop (p + length (c :: name)) l) ltac:(by apply Forall_drop)) as Ps.
  destruct (spaces_fwd (drop (p + length (c :: name)) l)) as [|x t]; [done|]. cbn [rd hd tl].
  apply Forall_cons in Ps as [_ Pt]. destruct (x =? ENV_ATTR_SEP); [|done]. cbn [negb].
  pose proof (spaces_fwd_plain t Pt) as Pf. do 3 f_equal. unfold strpbrk, slice. rewrite drop_0, Z.sub_0_r.
  destruct (strpbrk_at_word (spaces_fwd t) 0 Pf) as [W T]. destruct (strpbrk_at _ _ _).
  - subst. rewrite Z.add_0_l, Nat2Z.id. done.
  - rewrite W, strlen_cstr, cstr_plain by done. rewrite Nat2Z.id. by apply take_ge.
Qed.

(** * The entries of a list one by one *)

Lemma spaces_fwd_app s c t : c <> 32 -> spaces_fwd (s ++ c :: t) = spaces_fwd s ++ c :: t.
Proof.
  intros N. induction s as [|x s IH]; simpl; [by rewrite (proj2 (Z.eqb_neq c 32))|]. by destruct (x =? 32).
Qed.

Lemma attr_word_app s t : attr_word (s ++ ENV_ATTR_LIST_DELIM :: t) = attr_word s.
Proof. induction s as [|x s IH]; [done|]. simpl. destruct (_ || _); [done|]. by rewrite IH. Qed.

Section Cut.
Context (name e rest : list Z) (Ne : ~ In ENV_ATTR_LIST_DELIM e) (Nn : ~ In ENV_ATTR_LIST_DELIM name).
Let l := e ++ ENV_ATTR_LIST_DELIM :: rest.

Lemma prefix_cut (p : nat) : (p <= length e)%nat -> name `prefix_of` drop p l <-> name `prefix_of` drop p e.
Proof using Nn.
  intros Hp. unfold l. rewrite drop_app_le by lia. split.
  - intros [k E]. destruct (decide (length name <= length (drop p e))%nat) as [Hl|Hl].
    + exists (take (length (drop p e) - length name) k).
      apply (f_equal (take (length (drop p e)))) in E. rewrite take_app_length in E.
      by rewrite take_app_ge in E by lia.
    + exfalso. apply Nn. apply (f_equal (fun s => s !! length (drop p e))) in E.
      rewrite (lookup_app_l name) in E by lia. rewrite list_lookup_middle in E by done.
      symmetry in E. apply list_elem_of_lookup_2 in E. by apply list_elem_of_In.
  - intros [k E]. rewrite E. exists (k ++ ENV_ATTR_LIST_DELIM :: rest). by rewrite app_assoc.
Qed.

Lemma edge_delim set s t : ENV_ATTR_LIST_DELIM ∈ set ->
  edge set (s ++ ENV_ATTR_LIST_DELIM :: t) = edge set s.
Proof.
  intros I. unfold edge. rewrite spaces_fwd_app by done. destruct (spaces_fwd s); [|done]. cbn [app].
  by apply bool_decide_true.
Qed.

Lemma good_left (p : nat) : (p <= length e)%nat -> good name l p = good name e p.
Proof using Nn.
  intros Hp. unfold good. rewrite (bool_decide_ext _ _ (prefix_cut p Hp)).
  case_bool_decide as D; [|done]. apply prefix_length in D. rewrite length_drop in D.
  unfold l. rewrite take_app_le by lia. cbn [andb].
  rewrite drop_app_le by lia. f_equal. apply edge_delim. right. left.
Qed.

Lemma drop_cut (q : nat) : drop (length e + 1 + q) l = drop q rest.
Proof. unfold l. by rewrite <- Nat.add_assoc, drop_app_add. Qed.

Lemma good_right (q : nat) : good name l (length e + 1 + q) = good name rest q.
Proof.
  unfold good. rewrite <- (Nat.add_assoc _ q), !drop_cut. f_equal. f_equal. unfold l.
  rewrite <- Nat.add_assoc, take_app_add. cbn [Nat.add take].
  rewrite rev_app_distr. cbn [rev]. rewrite <- app_assoc. cbn [app]. apply edge_delim. left.
Qed.

Lemma attrs_left (p : nat) : (p + length name <= length e)%nat -> attrs_at name l p = attrs_at name e p.
Proof.
  intros Hp. unfold attrs_at, l. rewrite drop_app_le by lia. rewrite spaces_fwd_app by done.
  destruct (spaces_fwd _) as [|c t]; [done|]. cbn [app]. destruct (c =? ENV_ATTR_SEP); [|done].
  rewrite spaces_fwd_app by done. apply attr_word_app.
Qed.

Lemma attrs_right (q : nat) : attrs_at name l (length e + 1 + q) = attrs_at name rest q.
Proof. unfold attrs_at. by rewrite <- (Nat.add_assoc _ q), drop_cut. Qed.

(** The last position of a list is in its last part that has one. *)
Lemma last_good_cut pr pe :
  name <> [] -> last_good name rest 0 pr -> last_good name e 0 pe ->
  last_good name l 0 (match pr with Some q => Some (length e + 1 + q)%nat | None => pe end).
Proof using Nn.
  intros N Lr Le.
  assert (forall q, (length e < q)%nat -> good name l q = good name rest (q - length e - 1)) as R.
  { intros q Hq. rewrite <- good_right. f_equal. lia. }
  destruct pr as [q|].
  - destruct Lr as (_ & G & U). split; [lia|]. split; [by rewrite good_right|].
    intros q' Hq'. rewrite R by lia. apply U. lia.
  - assert (forall q, (length e < q)%nat -> good name l q = false) as R0 by (intros q Hq; rewrite R by lia; apply Lr; lia).
    destruct pe as [p|]; simpl in *.
    + destruct Le as (_ & G & U). pose proof (good_bound name e p N G). split; [lia|].
      split; [by rewrite good_left by lia|]. intros q Hq.
      destruct (decide (q <= length e)%nat); [rewrite good_left by lia; by apply U|apply R0; lia].
    + intros q _. destruct (decide (q <= length e)%nat); [rewrite good_left by lia; apply Le; lia|apply R0; lia].
Qed.
End Cut.

(** * One entry *)

Abbreviation spaces := (Forall (fun c : Z => c = 32)).

Lemma spaces_fwd_split s : exists sp, s = sp ++ spaces_fwd s /\ spaces sp /\
  match spaces_fwd s with c :: _ => c <> 32 | [] => True end.
Proof.
  induction s as [|c s (sp & E & F & H)]; [by exists []|]. simpl. destruct (Z.eqb_spec c 32) as [->|N].
  - exists (32 :: sp). split; [by rewrite E at 1|]. split; [by constructor|done].
  - by exists [].
Qed.

Lemma spaces_isspace s : spaces s -> Forall (fun c => isspace c = true) s.
Proof. intros F. eapply Forall_impl; [exact F|]. by intros c ->. Qed.

Lemma skip_spaces_pad sp t : Forall (fun c => isspace c = true) sp -> skip_spaces (sp ++ t) = skip_spaces t.
Proof. induction 1 as [|c sp Hc F IH]; [done|]. simpl. by rewrite Hc. Qed.

Lemma rtrim_pad t sp : Forall (fun c => isspace c = true) sp -> rtrim (t ++ sp) = rtrim t.
Proof.
  intros F. unfold rtrim. rewrite rev_app_distr, skip_spaces_pad; [done|]. by apply List.Forall_rev.
Qed.

(** Names as the lists spell them: no separator, no space at the ends. *)
Definition attr_name (name : list Z) : Prop :=
  name <> [] /\ plain name /\ ~ In ENV_ATTR_LIST_DELIM name /\ ~ In ENV_ATTR_SEP name /\ trim name = name.

Lemma trim_fix t : trim t = t -> skip_spaces t = t /\ rtrim t = t.
Proof.
  intros E. destruct (skip_spaces_split t) as (sp & Et & _). destruct (rtrim_split (skip_spaces t)) as (sp2 & Es & _).
  change (trim t) with (rtrim (skip_spaces t)) in E. rewrite E in Es.
  assert (sp = []) as ->.
  { apply (f_equal length) in Et. apply (f_equal length) in Es. rewrite length_app in *. destruct sp; [done|simpl in *; lia]. }
  cbn [app] in Et. split; [done|]. by rewrite Et at 1.
Qed.

Lemma trim_pad sp1 sp2 t :
  Forall (fun c => isspace c = true) sp1 -> Forall (fun c => isspace c = true) sp2 ->
  skip_spaces t = t -> t <> [] -> trim (sp1 ++ t ++ sp2) = rtrim t.
Proof.
  intros F1 F2 E N. unfold trim. fold (rtrim (skip_spaces (sp1 ++ t ++ sp2))).
  rewrite skip_spaces_pad by done. destruct t as [|c t]; [done|]. cbn [app skip_spaces] in *.
  destruct (isspace c) eqn:C.
  - exfalso. destruct (skip_spaces_split t) as (sp & Et & _).
    apply (f_equal length) in E. apply (f_equal length) in Et. rewrite length_app in Et. simpl in *. lia.
  - change (c :: t ++ sp2) with ((c :: t) ++ sp2). by apply rtrim_pad.
Qed.

(** The attributes of the last entry with a name. *)
Fixpoint last_attrs (name : list Z) (es : list (list Z * option (list Z))) : option (option (list Z)) :=
  match es with
  | [] => None
  | (n, a) :: es' => match last_attrs name es' with
                     | Some r => Some r
                     | None => if decide (n = name) then Some a else None
                     end
  end.

(** Lists as the grammar in env/attr.c has them: the only white space is the
    space, and attributes hold none. *)
Definition attr_list_ok (l : list Z) : Prop :=
  plain l /\ Forall (fun c => isspace c = true -> c = 32) l /\
  Forall (fun e => match snd e with Some a => ~ In 32 a | None => True end) (attr_entries l).

Lemma blank_spaces sp : Forall (fun c => isspace c = true -> c = 32) sp ->
  Forall (fun c => isspace c = true) sp -> spaces sp.
Proof. intros B F. rewrite Forall_forall in *. auto. Qed.

(** A string in three parts: spaces, what trimming keeps, spaces. *)
Lemma trim_parts t : Forall (fun c => isspace c = true -> c = 32) t ->
  exists sp1 sp2, t = sp1 ++ trim t ++ sp2 /\ spaces sp1 /\ spaces sp2 /\ skip_spaces t = trim t ++ sp2.
Proof.
  intros B. destruct (skip_spaces_split t) as (sp1 & E1 & F1). destruct (rtrim_split (skip_spaces t)) as (sp2 & E2 & F2).
  change (rtrim (skip_spaces t)) with (trim t) in E2. rewrite E1 in B. apply Forall_app in B as [B1 B2].
  rewrite E2 in B2. apply Forall_app in B2 as [_ B2]. exists sp1, sp2.
  split; [by rewrite <- E2|]. split; [by apply blank_spaces|]. split; [by apply blank_spaces|done].
Qed.

Lemma attr_word_keep u sp : ~ In 32 u -> ~ In ENV_ATTR_LIST_DELIM u -> spaces sp -> attr_word (u ++ sp) = u.
Proof.
  intros N1 N2 F. induction u as [|c u IH]; [by destruct F as [|? ? -> F]|]. simpl in *.
  rewrite (proj2 (Z.eqb_neq c ENV_ATTR_LIST_DELIM)), (proj2 (Z.eqb_neq c 32)) by tauto. cbn [orb].
  by rewrite IH by tauto.
Qed.

Lemma word_trim t :
  Forall (fun c => isspace c = true -> c = 32) t -> ~ In ENV_ATTR_LIST_DELIM t -> ~ In 32 (trim t) ->
  attr_word (spaces_fwd t) = trim t.
Proof.
  intros B N1 N2. destruct (trim_parts t B) as (sp1 & sp2 & E & F1 & F2 & Es).
  assert (spaces_fwd t = if decide (trim t = []) then [] else trim t ++ sp2) as ->.
  { rewrite E at 1. clear E Es. assert (forall sp t, spaces sp -> spaces_fwd (sp ++ t) = spaces_fwd t) as Sp
      by (induction 1 as [|c sp -> F IH]; [done|exact IH]).
    rewrite Sp by done. case_decide as D; [rewrite D; cbn [app]; by rewrite <- (app_nil_r sp2), Sp|].
    destruct (trim t) as [|c u]; [done|]. simpl. simpl in N2. by rewrite (proj2 (Z.eqb_neq c 32)) by tauto. }
  case_decide as D; [by rewrite D|]. apply attr_word_keep; auto. intros I. apply N1. rewrite E.
  apply in_or_app. right. apply in_or_app. by left.
Qed.

Section One.
Context (name e : list Z) (An : attr_name name) (Pe : plain e) (Ne : ~ In ENV_ATTR_LIST_DELIM e).
Context (Be : Forall (fun c => isspace c = true -> c = 32) e).

Definition tail_ok (tl_ : list Z) : Prop := tl_ = [] \/ exists t, tl_ = ENV_ATTR_SEP :: t.

Lemma entry_good (p : nat) :
  good name e p = true ->
  exists sp1 sp2 tl_, e = sp1 ++ name ++ sp2 ++ tl_ /\ length sp1 = p /\ spaces sp1 /\ spaces sp2 /\ tail_ok tl_.
Proof using An Pe Ne.
  intros G. destruct An as (Nn & _). pose proof (good_bound name e p Nn G) as Hp. unfold good in G.
  rewrite !andb_true_iff, bool_decide_eq_true in G. destruct G as [[[k Ek] G1] G2].
  assert (e = take p e ++ name ++ k) as Ee by (by rewrite <- Ek, take_drop).
  assert (drop (p + length name) e = k) as Ed by (by rewrite <- drop_drop, Ek, drop_app_length).
  rewrite Ed in G2. destruct (spaces_fwd_split k) as (sp2 & Ek2 & F2 & _).
  exists (take p e), sp2, (spaces_fwd k). rewrite <- Ek2. split; [done|]. split; [rewrite length_take; lia|].
  split; [|split; [done|]].
  - unfold edge in G1. destruct (spaces_fwd_split (rev (take p e))) as (sp & Er & Fs & _).
    destruct (spaces_fwd (rev (take p e))) as [|c t].
    + rewrite app_nil_r in Er. rewrite <- (rev_involutive (take p e)), Er. by apply List.Forall_rev.
    + exfalso. apply bool_decide_eq_true in G1. apply list_elem_of_singleton in G1 as ->. apply Ne.
      assert (In ENV_ATTR_LIST_DELIM (take p e)) as I by (rewrite in_rev, Er; apply in_or_app; right; by left).
      rewrite Ee. apply in_or_app. by left.
  - unfold edge in G2. unfold tail_ok. destruct (spaces_fwd k) as [|c t]; [by left|]. right.
    apply bool_decide_eq_true in G2. apply elem_of_cons in G2 as [->|G2]; [by exists t|].
    exfalso. apply list_elem_of_singleton in G2 as ->. apply Ne. rewrite Ee, Ek2.
    apply in_or_app. right. apply in_or_app. right. apply in_or_app. right. by left.
Qed.

Lemma good_entry sp1 sp2 tl_ :
  e = sp1 ++ name ++ sp2 ++ tl_ -> spaces sp1 -> spaces sp2 -> tail_ok tl_ ->
  good name e (length sp1) = true.
Proof using Type.
  intros E F1 F2 T. rewrite E. unfold good. rewrite drop_app_length, take_app_length, drop_app_add, drop_app_length.
  rewrite bool_decide_true by (by apply prefix_app_r). cbn [andb].
  assert (forall sp t, spaces sp -> spaces_fwd (sp ++ t) = spaces_fwd t) as Sp.
  { induction 1 as [|c sp -> F IH]; [done|]. exact IH. }
  unfold edge. rewrite <- (app_nil_r (rev sp1)), Sp by (by apply List.Forall_rev). cbn [spaces_fwd andb].
  rewrite Sp by done. destruct T as [-> |[t ->]]; [done|]. cbn. apply bool_decide_true. left.
Qed.

Lemma read_entry_pad sp1 sp2 tl_ :
  e = sp1 ++ name ++ sp2 ++ tl_ -> spaces sp1 -> spaces sp2 -> tail_ok tl_ ->
  read_entry e = (name, match tl_ with [] => None | _ :: t => Some (trim t) end).
Proof using An Pe.
  intros E F1 F2 T. destruct An as (Nn & _ & _ & Ns & Tr). apply trim_fix in Tr as [Ts Tr].
  assert (trim (sp1 ++ name ++ sp2) = name) as Ht by (rewrite trim_pad; auto using spaces_isspace).
  assert (forall sp, spaces sp -> ~ In ENV_ATTR_SEP sp) as Nsp.
  { intros sp F I. rewrite Forall_forall in F. by specialize (F _ (proj2 (list_elem_of_In _ _) I)). }
  assert (~ In ENV_ATTR_SEP (sp1 ++ name ++ sp2)) as N.
  { rewrite !in_app_iff. intros [I|[I|I]]; [by apply (Nsp sp1)|done|by apply (Nsp sp2)]. }
  unfold read_entry. destruct T as [-> |[t ->]].
  - rewrite app_nil_r in E. rewrite strchr_missing by (done || (rewrite E; done)). by rewrite E, Ht.
  - assert (e = (sp1 ++ name ++ sp2) ++ ENV_ATTR_SEP :: t) as E2 by (by rewrite E, <- !app_assoc).
    pose proof Pe as P1. rewrite E2 in P1 |- *. apply Forall_app in P1 as [P1 _].
    rewrite strchr_found by done.
    rewrite Nat2Z.id, take_app_length, Ht. do 2 f_equal.
    replace (Z.to_nat (len (sp1 ++ name ++ sp2) + 1)) with (length (sp1 ++ name ++ sp2) + 1)%nat by lia.
    by rewrite drop_app_add.
Qed.

Lemma entry_named :
  fst (read_entry e) = name ->
  exists sp1 sp2 tl_, e = sp1 ++ name ++ sp2 ++ tl_ /\ spaces sp1 /\ spaces sp2 /\ tail_ok tl_.
Proof using Be.
  unfold read_entry. pose proof (strchr_ok e ENV_ATTR_SEP ltac:(done)) as H.
  destruct (strchr e ENV_ATTR_SEP) as [a|]; cbn [fst].
  - destruct H as (p & rest & E & -> & _). intros Et. rewrite E in Be. apply Forall_app in Be as [Bp _].
    rewrite E, Nat2Z.id, take_app_length in Et. destruct (trim_parts p Bp) as (sp1 & sp2 & Ep & F1 & F2 & _).
    rewrite Et in Ep. exists sp1, sp2, (ENV_ATTR_SEP :: rest). rewrite E, Ep at 1. rewrite <- !app_assoc.
    split; [done|]. split; [done|]. split; [done|]. right. by exists rest.
  - intros Et. destruct (trim_parts e Be) as (sp1 & sp2 & Ep & F1 & F2 & _). rewrite Et in Ep.
    exists sp1, sp2, []. rewrite app_nil_r. split; [done|]. split; [done|]. split; [done|by left].
Qed.

Lemma attrs_entry sp1 sp2 tl_ :
  e = sp1 ++ name ++ sp2 ++ tl_ -> spaces sp1 -> spaces sp2 -> tail_ok tl_ ->
  match snd (read_entry e) with Some a => ~ In 32 a | None => True end ->
  attrs_at name e (length sp1) = default [] (snd (read_entry e)).
Proof using An Pe Ne Be.
  intros E F1 F2 T A. rewrite (read_entry_pad sp1 sp2 tl_ E F1 F2 T) in *. cbn [snd] in *.
  unfold attrs_at. rewrite E, drop_app_add, drop_app_length.
  assert (spaces_fwd (sp2 ++ tl_) = tl_) as ->.
  { clear E A. induction F2 as [|c sp2 -> F2 IH]; [by destruct T as [-> |[t ->]]|exact IH]. }
  destruct T as [-> |[t ->]]; [done|]. cbn [Z.eqb]. change (ENV_ATTR_SEP =? ENV_ATTR_SEP) with true. cbv iota.
  cbn [default]. apply word_trim; [| |done].
  - rewrite E in Be. apply Forall_app in Be as [_ [_ [_ [_ ?]%Forall_cons]%Forall_app]%Forall_app]. done.
  - intros I. apply Ne. rewrite E, !in_app_iff. right. right. right. by right.
Qed.
End One.

(** * The result of a lookup *)

Lemma last_good_unique name l p1 p2 :
  last_good name l 0 p1 -> last_good name l 0 p2 -> p1 = p2.
Proof.
  destruct p1 as [p1|], p2 as [p2|]; simpl; try done.
  - intros (_ & G1 & U1) (_ & G2 & U2). f_equal. destruct (Nat.lt_total p1 p2) as [H|[H|H]]; [|done|].
    + apply U1 in H. congruence.
    + apply U2 in H. congruence.
  - intros (_ & G1 & _) U. rewrite U in G1 by lia. done.
  - intros U (_ & G2 & _). rewrite U in G2 by lia. done.
Qed.

Lemma last_attrs_app name es1 es2 :
  last_attrs name (es1 ++ es2) = match last_attrs name es2 with Some r => Some r | None => last_attrs name es1 end.
Proof.
  induction es1 as [|[n a] es1 IH]; simpl; [by destruct (last_attrs name es2)|].
  rewrite IH. by destruct (last_attrs name es2).
Qed.

(** What the position and the entries say agrees. *)
Definition agrees (name l : list Z) (p : option nat) (es : list (list Z * option (list Z))) : Prop :=
  match p with
  | Some p => exists a, last_attrs name es = Some a /\ attrs_at name l p = default [] a
  | None => last_attrs name es = None
  end.

Lemma entry_agrees name e p :
  attr_name name -> plain e -> ~ In ENV_ATTR_LIST_DELIM e ->
  Forall (fun c => isspace c = true -> c = 32) e ->
  Forall (fun e => match snd e with Some a => ~ In 32 a | None => True end)
         (if decide (fst (read_entry e) <> []) then [read_entry e] else []) ->
  last_good name e 0 p ->
  agrees name e p (if decide (fst (read_entry e) <> []) then [read_entry e] else []).
Proof.
  intros An Pe Ne Be A L. destruct p as [p|]; unfold agrees.
  - destruct L as (_ & G & _). destruct (entry_good name e An Pe Ne p G) as (sp1 & sp2 & tl_ & E & <- & F1 & F2 & T).
    pose proof (read_entry_pad name e An Pe sp1 sp2 tl_ E F1 F2 T) as R.
    rewrite decide_True in A |- * by (rewrite R; apply An). apply Forall_cons in A as [A _].
    exists (snd (read_entry e)). split; [|by eapply attrs_entry].
    rewrite R. simpl. by rewrite decide_True.
  - case_decide as D; [|done]. destruct (read_entry e) as [n a] eqn:R. simpl. case_decide as D2; [|done].
    exfalso. destruct (entry_named name e Be) as (sp1 & sp2 & tl_ & E & F1 & F2 & T); [by rewrite R|].
    pose proof (good_entry name e sp1 sp2 tl_ E F1 F2 T) as G. simpl in L. rewrite L in G by lia. done.
Qed.

Lemma lookup_agrees name : attr_name name -> forall n l p,
  (length l <= n)%nat -> attr_list_ok l -> last_good name l 0 p -> agrees name l p (attr_entries l).
Proof.
  intros An. induction n as [|n IH]; intros l p Hn (Pl & Bl & Al) L.
  { destruct l; [|simpl in Hn; lia]. destruct p as [p|]; [|done]. exfalso.
    destruct L as (_ & G & _). apply good_bound in G; [simpl in G; lia|apply An]. }
  pose proof (strchr_ok l ENV_ATTR_LIST_DELIM ltac:(done)) as H.
  destruct (strchr l ENV_ATTR_LIST_DELIM) as [a|].
  - destruct H as (e & rest & -> & _ & Ne & Pe). rewrite attr_entries_cons in * by done.
    apply Forall_app in Pl as [_ [_ Pr]%Forall_cons], Bl as [Be [_ Br]%Forall_cons], Al as [Ae Ar].
    assert (attr_list_ok rest) as Okr by (by split; [|split]).
    pose proof An as (Nn & Pn & N1 & N2 & N3).
    destruct (name_search_ok 0 rest name Pr Pn Nn (S (length rest)) 0 (None, 0)) as (pr & Lr & _); [lia|].
    destruct (name_search_ok 0 e name Pe Pn Nn (S (length e)) 0 (None, 0)) as (pe & Le & _); [lia|].
    pose proof (last_good_cut name e rest N1 pr pe Nn Lr Le) as L'.
    rewrite (last_good_unique _ _ _ _ L L'). clear L L' p.
    assert (agrees name rest pr (attr_entries rest)) as IHr
      by (apply IH; [rewrite length_app in Hn; simpl in Hn; lia|done|done]).
    assert (agrees name e pe (if decide (fst (read_entry e) <> []) then [read_entry e] else [])) as Ha
      by (by apply entry_agrees).
    unfold agrees in *. rewrite last_attrs_app. destruct pr as [q|].
    + destruct IHr as (a' & -> & E). exists a'. split; [done|]. by rewrite attrs_right.
    + rewrite IHr. destruct pe as [p|]; [|done]. destruct Ha as (a' & E1 & E2). exists a'. split; [done|].
      rewrite attrs_left; [done|]. destruct Le as (_ & G & _). unfold good in G.
      rewrite !andb_true_iff, bool_decide_eq_true in G. destruct G as [[G _] _].
      apply prefix_length in G. rewrite length_drop in G. destruct name; [done|]. simpl in *. lia.
  - rewrite cstr_plain in H by done. rewrite attr_entries_last in * by done.
    by apply entry_agrees.
Qed.

(** Env_attr_lookup returns the attributes of the last entry with the
    name among the entries env_attr_walk visits, the empty string when that
    entry has none, and -ENOENT when there is no such entry; the search always
    ends and the byte before the list, which it reads, does not matter.  The
    list has no white space but spaces and none inside attributes, and the
    name has no separator. *)
Theorem env_attr_lookup_last (before : Z) (l name : list Z) :
  attr_list_ok l -> attr_name name ->
  env_attr_lookup before true (Some l) name =
    Some (match last_attrs name (attr_entries l) with
          | Some a => (0, Some (default [] a))
          | None => (- ENOENT, None)
          end).
Proof.
  intros Ok An. pose proof An as (Nn & Pn & _). pose proof Ok as [Pl _].
  destruct (lookup_last before l name Pl Pn Nn) as (p & L & ->).
  pose proof (lookup_agrees name An (length l) l p (Nat.le_refl _) Ok L) as A. unfold agrees in A.
  destruct p as [p|]; [destruct A as (a & -> & ->)|rewrite A]; done.
Qed.

(** The list [foo:a, bar : b,foo:c]. *)
Definition demo_attrs : list Z :=
  [102; 111; 111; 58; 97; 44; 32; 98; 97; 114; 32; 58; 32; 98; 44; 102; 111; 111; 58; 99].

Lemma env_attr_lookup_last_witness :
  env_attr_lookup 32 true (Some demo_attrs) [102; 111; 111] = Some (0, Some [99]).
Proof.
  etransitivity; [apply (env_attr_lookup_last 32 demo_attrs [102; 111; 111])|vm_compute; reflexivity].
  - split; [|split].
    + repeat constructor; discriminate.
    + repeat (constructor; [intros H; first [discriminate H|reflexivity]|]). constructor.
    + assert (attr_entries demo_attrs = [([102; 111; 111], Some [97]); ([98; 97; 114], Some [98]);
                                          ([102; 111; 111], Some [99])]) as -> by (vm_compute; reflexivity).
      repeat (constructor; [simpl; intuition discriminate|]). constructor.
  - split; [discriminate|]. split; [repeat constructor; discriminate|].
    split; [simpl; intuition discriminate|]. split; [simpl; intuition discriminate|]. reflexivity.
Defined.

(** The patterns of the built-in lists: a name, or a name with [\d*] in it. *)
Inductive pattern := PName (name : list Z) | PWild (pre suf : list Z).

Definition pattern_text (p : pattern) : list Z :=
  match p with
  | PName n => n
  | PWild pre suf => pre ++ 92 :: 100 :: 42 :: suf
  end.

Definition pattern_ok (p : pattern) : Prop :=
  match p with
  | PName n => Forall literal n /\ n <> [] /\ (length n < 256)%nat
  | PWild pre suf => Forall literal pre /\ Forall literal suf /\ pre <> [] /\ suf <> [] /\
                     (length pre + length suf < 256)%nat
  end.

(** Whether the string is one the pattern describes. *)
Definition accepts (p : pattern) (s : list Z) : bool :=
  match p with
  | PName n => bool_decide (s = n)
  | PWild pre suf =>
      let mid := slice s (len pre) (len s - len suf) in
      bool_decide (length pre + length suf <= length s)%nat && bool_decide (s = pre ++ mid ++ suf) &&
      forallb isdigit mid
  end.

Lemma accepts_wild pre suf s :
  accepts (PWild pre suf) s = true <->
  exists ds, Forall (fun c => isdigit c = true) ds /\ s = pre ++ ds ++ suf.
Proof.
  unfold accepts. rewrite !andb_true_iff, !bool_decide_eq_true, forallb_forall. split.
  - intros [[_ E] F]. exists (slice s (len pre) (len s - len suf)). split; [|done].
    apply Forall_forall. intros x Hx. apply F. by apply list_elem_of_In.
  - intros (ds & F & E).
    assert (slice s (len pre) (len s - len suf) = ds) as ->.
    { rewrite E. unfold slice. rewrite Nat2Z.id, drop_app_length, !length_app.
      replace (Z.to_nat _) with (length ds) by lia. apply take_app_length. }
    split; [split; [rewrite E, !length_app; lia|done]|].
    intros x Hx. rewrite Forall_forall in F. apply F. by apply list_elem_of_In.
Qed.

Section Regex.
Context (code0 data0 : list Z) (Hc : length code0 = 256%nat) (Hd : length data0 = 256%nat).

(** Compiling a pattern and matching a string, with enough fuel. *)
Lemma pattern_run p s fuel caps :
  pattern_ok p -> (length s + 10 <= fuel)%nat ->
  exists r caps', slre_compile fuel code0 data0 (94 :: pattern_text p ++ [36]) = Some (1, r) /\
    slre_match fuel r s (len s) caps = Some (accepts p s, caps').
Proof using Hc Hd.
  destruct p as [n|pre suf]; cbn [pattern_ok pattern_text].
  - intros (F & N & L) Hf. eexists. rewrite (compile_name code0 data0 Hc Hd n fuel F N L) by lia.
    destruct (match_name code0 data0 n s caps fuel N L) as [caps' E]; [lia|]. exists caps'. by split.
  - intros (F1 & F2 & N1 & N2 & L) Hf. eexists. rewrite <- app_assoc. cbn [app].
    rewrite (compile_wild code0 data0 Hc Hd pre suf fuel F1 F2 N1 N2 L) by lia.
    destruct (match_wild code0 data0 pre suf s caps (fuel - (length s + 10))) as (b & caps' & E & B).
    replace (length s + 10 + _)%nat with fuel in E by lia. exists caps'. split; [done|]. rewrite E. do 2 f_equal.
    apply eq_true_iff_eq. by rewrite B, accepts_wild.
Qed.

(** An attribute list read as patterns. *)
Definition reads (es : list (list Z * option (list Z))) (ps : list (pattern * list Z)) : Prop :=
  es = map (fun '(p, a) => (pattern_text p, Some a)) ps.

(** The attributes of the last pattern that describes the name. *)
Definition last_accepted (name : list Z) (ps : list (pattern * list Z)) : option (list Z) :=
  fold_left (fun acc '(p, a) => if accepts p name then Some a else acc) ps None.

Lemma visit_patterns name fuel ps : forall cbp,
  Forall (fun pa => pattern_ok (fst pa)) ps -> plain name -> (length name + 10 <= fuel)%nat ->
  searched_for cbp = name -> (regex cbp = None <-> attributes cbp = None) ->
  exists cbp', visit (regex_callback fuel code0 data0 true true)
                     (map (fun '(p, a) => (pattern_text p, Some a)) ps) cbp = Some (0, cbp') /\
    (regex cbp' = None <-> attributes cbp' = None) /\
    attributes cbp' = fold_left (fun acc '(p, a) => if accepts p name then Some a else acc) ps (attributes cbp).
Proof using Hc Hd.
  induction ps as [|[p a] ps IH]; intros cbp F Pn Hf Es Hr; [by exists cbp|].
  apply Forall_cons in F as [Fp F]. cbn [map visit fold_left]. unfold regex_callback at 1.
  assert (strlen (searched_for cbp) = len name) as -> by (by rewrite Es, strlen_cstr, cstr_plain).
  rewrite Es. 
  destruct (pattern_run p name fuel None Fp Hf) as (r & _ & Ec & _). rewrite Ec.
  change (negb (1 =? 0)) with true. cbv iota.
  destruct (pattern_run p name fuel (Some (replicate (Z.to_nat (num_caps r + 2)) (0, 0))) Fp Hf)
    as (r' & caps' & Ec' & Em). rewrite Ec in Ec'. injection Ec' as <-. rewrite Em.
  destruct (accepts p name).
  - cbn [negb]. change (negb (0 =? 0)) with false. cbv iota.
    destruct (IH (Priv name (Some (94 :: pattern_text p ++ [36])) (Some a)) F Pn Hf eq_refl ltac:(done)) as (cbp' & E).
    by exists cbp'.
  - change (negb (0 =? 0)) with false. cbv iota. by apply IH.
Qed.
End Regex.

(** With regular expressions, env_attr_lookup returns the attributes of
    the last entry whose pattern describes the whole name, and -ENOENT when
    there is none; the entries of the list are names or names with a [\d*]
    wildcard, each with attributes.  Compiling and matching always end. *)
Theorem env_attr_lookup_regex_last (code0 data0 l name : list Z) (ps : list (pattern * list Z)) (fuel : nat) :
  length code0 = 256%nat -> length data0 = 256%nat -> (length name + 10 <= fuel)%nat ->
  Forall (fun c => c <> 0) l -> Forall (fun c => c <> 0) name ->
  Forall (fun pa => pattern_ok (fst pa)) ps -> reads (attr_entries l) ps ->
  env_attr_lookup_regex fuel code0 data0 true true (fun _ => true) true (Some l) name =
    Some (match last_accepted name ps with
          | Some a => (0, Some a)
          | None => (- ENOENT, None)
          end).
Proof.
  intros Hc Hd Hf Pl Pn F Re. unfold env_attr_lookup_regex, env_attr_walk.
  rewrite walk_loop_ok by (done || lia). rewrite Re.
  destruct (visit_patterns code0 data0 Hc Hd name fuel ps (Priv name None None) F Pn Hf eq_refl ltac:(done))
    as (cbp & -> & Hr & Ea).
  change (negb (0 =? 0)) with false. cbv iota. unfold last_accepted. cbn [attributes] in Ea. rewrite <- Ea.
  destruct (regex cbp), (attributes cbp); try done; exfalso; [by destruct Hr as [_ Hr]; specialize (Hr eq_refl)|].
  destruct Hr as [Hr _]. by specialize (Hr eq_refl).
Qed.

(** The list [eth\d*addr:mo,serial:so] and the variable eth1addr. *)
Lemma env_attr_lookup_regex_last_witness :
  env_attr_lookup_regex 18 (replicate 256 0) (replicate 256 0) true true (fun _ => true) true
    (Some [101; 116; 104; 92; 100; 42; 97; 100; 100; 114; 58; 109; 111; 44;
           115; 101; 114; 105; 97; 108; 58; 115; 111])
    [101; 116; 104; 49; 97; 100; 100; 114] = Some (0, Some [109; 111]).
Proof.
  etransitivity;
    [apply (env_attr_lookup_regex_last (replicate 256 0) (replicate 256 0) _ _
             [(PWild [101; 116; 104] [97; 100; 100; 114], [109; 111]);
              (PName [115; 101; 114; 105; 97; 108], [115; 111])] 18)|vm_compute; reflexivity];
    [reflexivity|reflexivity|simpl; lia|repeat constructor; discriminate|repeat constructor; discriminate| |
     vm_compute; reflexivity].
  assert (forall s, Forall (fun c => (0 <? c) && (c <? 256) && match strchr meta_chars c with None => true | _ => false end = true) s
                    -> Forall literal s) as Lit.
  { intros s F. eapply Forall_impl; [exact F|]. intros c H. rewrite !andb_true_iff, !Z.ltb_lt in H. split; [tauto|].
    destruct H as [_ H]. by destruct (strchr meta_chars c). }
  constructor; [|constructor; [|constructor]]; cbn [fst pattern_ok].
  - split; [apply Lit; repeat constructor|]. split; [apply Lit; repeat constructor|].
    split; [discriminate|]. split; [discriminate|]. simpl. lia.
  - split; [apply Lit; repeat constructor|]. split; [discriminate|]. simpl. lia.
Defined.
