(* ===== verification/EnvFlags.v ===== *)
(** Flags and callbacks of environment variables (env/flags.c,
    env/callback.c, include/env_flags.h, include/env_callback.h): the model.

    The types of variables include the network ones (CONFIG_NET).  The
    configuration switches are CONFIG_ENV_WRITEABLE_LIST ([writeable]) and
    CONFIG_ENV_ACCESS_IGNORE_FORCE ([ignore_force]); the built-in lists are
    arguments.  [attr_lookup] is env_attr_lookup in the configured variant.
    A pointer into a value is the rest of the value.  Messages are left out. *)

From S2P Require Import Prelude Bytes Cstring Hashtable Slre EnvAttr.

Inductive env_flags_vartype :=
  | env_flags_vartype_string | env_flags_vartype_decimal | env_flags_vartype_hex
  | env_flags_vartype_bool | env_flags_vartype_ipaddr | env_flags_vartype_macaddr
  | env_flags_vartype_end.

Inductive env_flags_varaccess :=
  | env_flags_varaccess_any | env_flags_varaccess_readonly | env_flags_varaccess_writeonce
  | env_flags_varaccess_changedefault | env_flags_varaccess_writeable | env_flags_varaccess_end.

#[export] Instance vartype_eq_dec : EqDecision env_flags_vartype.
Proof. solve_decision. Defined.
#[export] Instance varaccess_eq_dec : EqDecision env_flags_varaccess.
Proof. solve_decision. Defined.

(** The values of the enumerators, and the casts from int. *)
Definition vartypes : list env_flags_vartype :=
  [env_flags_vartype_string; env_flags_vartype_decimal; env_flags_vartype_hex;
   env_flags_vartype_bool; env_flags_vartype_ipaddr; env_flags_vartype_macaddr; env_flags_vartype_end].
Definition vartype_num (t : env_flags_vartype) : Z :=
  match t with
  | env_flags_vartype_string => 0 | env_flags_vartype_decimal => 1 | env_flags_vartype_hex => 2
  | env_flags_vartype_bool => 3 | env_flags_vartype_ipaddr => 4 | env_flags_vartype_macaddr => 5
  | env_flags_vartype_end => 6
  end.
(** [None]: a number that is no enumerator. *)
Definition vartype_of (n : Z) : option env_flags_vartype := vartypes !! Z.to_nat n.

Definition varaccesses : list env_flags_varaccess :=
  [env_flags_varaccess_any; env_flags_varaccess_readonly; env_flags_varaccess_writeonce;
   env_flags_varaccess_changedefault; env_flags_varaccess_writeable].
Definition varaccess_num (a : env_flags_varaccess) : Z :=
  match a with
  | env_flags_varaccess_any => 0 | env_flags_varaccess_readonly => 1
  | env_flags_varaccess_writeonce => 2 | env_flags_varaccess_changedefault => 3
  | env_flags_varaccess_writeable => 4 | env_flags_varaccess_end => 5
  end.

Definition ENV_FLAGS_VARTYPE_BIN_MASK : Z := 7.
Definition ENV_FLAGS_VARACCESS_PREVENT_DELETE : Z := 8.
Definition ENV_FLAGS_VARACCESS_PREVENT_CREATE : Z := 16.
Definition ENV_FLAGS_VARACCESS_PREVENT_OVERWR : Z := 32.
Definition ENV_FLAGS_VARACCESS_PREVENT_NONDEF_OVERWR : Z := 64.
Definition ENV_FLAGS_VARACCESS_WRITEABLE : Z := 128.
Definition ENV_FLAGS_VARACCESS_BIN_MASK : Z := 248.
Definition ENV_FLAGS_ATTR_MAX_LEN : Z := 2.
Definition ENV_FLAGS_VARTYPE_LOC : Z := 0.
Definition ENV_FLAGS_VARACCESS_LOC : Z := 1.

Definition H_FORCE : Z := 2.
Definition H_INTERACTIVE : Z := 4.
Definition H_PROGRAMMATIC : Z := 512.
Definition H_DEFAULT : Z := 1024.
Definition H_EXTERNAL : Z := 2048.

(** "sdxbim" and "aroc" or "arocw". *)
Definition env_flags_vartype_rep : list Z := [115; 100; 120; 98; 105; 109].
Definition env_flags_varaccess_rep (writeable : bool) : list Z :=
  [97; 114; 111; 99] ++ if writeable then [119] else [].
Definition env_flags_varaccess_mask (writeable : bool) : list Z :=
  [0;
   Z.lor ENV_FLAGS_VARACCESS_PREVENT_DELETE
     (Z.lor ENV_FLAGS_VARACCESS_PREVENT_CREATE ENV_FLAGS_VARACCESS_PREVENT_OVERWR);
   Z.lor ENV_FLAGS_VARACCESS_PREVENT_DELETE ENV_FLAGS_VARACCESS_PREVENT_OVERWR;
   Z.lor ENV_FLAGS_VARACCESS_PREVENT_DELETE ENV_FLAGS_VARACCESS_PREVENT_NONDEF_OVERWR] ++
  if writeable then [ENV_FLAGS_VARACCESS_WRITEABLE] else [].

(** * Parsing flags *)

Definition env_flags_parse_vartype (flags : list Z) : env_flags_vartype :=
  if strlen flags <=? ENV_FLAGS_VARTYPE_LOC then env_flags_vartype_string
  else match strchr env_flags_vartype_rep (nth (Z.to_nat ENV_FLAGS_VARTYPE_LOC) flags 0) with
       | Some i => default env_flags_vartype_string (vartype_of i)
       | None => env_flags_vartype_string
       end.

Definition env_flags_parse_varaccess (writeable : bool) (flags : list Z) : env_flags_varaccess :=
  if strlen flags <=? ENV_FLAGS_VARACCESS_LOC then env_flags_varaccess_any
  else match strchr (env_flags_varaccess_rep writeable) (nth (Z.to_nat ENV_FLAGS_VARACCESS_LOC) flags 0) with
       | Some i => default env_flags_varaccess_any (varaccesses !! Z.to_nat i)
       | None => env_flags_varaccess_any
       end.

Fixpoint mask_index (masks : list Z) (i : nat) (bits : Z) : option env_flags_varaccess :=
  match masks with
  | [] => None
  | m :: masks' => if m =? bits then varaccesses !! i else mask_index masks' (S i) bits
  end.
Definition env_flags_parse_varaccess_from_binflags (writeable : bool) (binflags : Z) : env_flags_varaccess :=
  default env_flags_varaccess_any
    (mask_index (env_flags_varaccess_mask writeable) 0 (Z.land binflags ENV_FLAGS_VARACCESS_BIN_MASK)).

Definition env_parse_flags_to_bin (writeable : bool) (flags : list Z) : Z :=
  let binflags := Z.land (vartype_num (env_flags_parse_vartype flags)) ENV_FLAGS_VARTYPE_BIN_MASK in
  Z.lor binflags (env_flags_varaccess_mask writeable !!!
                  Z.to_nat (varaccess_num (env_flags_parse_varaccess writeable flags))).

(** * Checking values *)

Definition is_hex_prefix (value : list Z) : bool :=
  (nth 0 value 0 =? 48) && ((nth 1 value 0 =? 120) || (nth 1 value 0 =? 88)).

(** The loop of skip_num; [i] is negative for no limit. *)
Fixpoint skip_digits (hex : bool) (value : list Z) (i : Z) : list Z :=
  if i =? 0 then value
  else match value with
       | c :: value' => if (if hex then isxdigit c else isdigit c)
                        then skip_digits hex value' (i - 1) else value
       | [] => value
       end.
Definition skip_num (hex : bool) (value : list Z) (max_digits : Z) : list Z :=
  let value := if hex && is_hex_prefix value then drop 2 value else value in
  skip_digits hex value max_digits.

(** [a == b] and [a + 2 == b] for pointers into the same string. *)
Definition same_ptr (a b : list Z) : bool := (length a =? length b)%nat.
Definition two_ahead (a b : list Z) : bool := (length a =? length b + 2)%nat.

(** Groups [i, i + 1, ..., 5] of an Ethernet address. *)
Fixpoint ethaddr_groups (n : nat) (i : Z) (cur : list Z) : Z :=
  match n with
  | O => 0
  | S n' =>
      let end_ := skip_num true cur 2 in
      if same_ptr cur end_ then -1
      else if two_ahead cur end_ && is_hex_prefix cur then -1
      else if negb (i =? 5) && negb (rd end_ =? 58) then -1
      else if (i =? 5) && negb (rd end_ =? 0) then -1
      else ethaddr_groups n' (i + 1) (tl end_)
  end.
Definition eth_validate_ethaddr_str (addr : list Z) : Z := ethaddr_groups 6 0 addr.

Fixpoint ipaddr_groups (n : nat) (i : Z) (cur : list Z) : Z :=
  match n with
  | O => 0
  | S n' =>
      let end_ := skip_num false cur 3 in
      if same_ptr cur end_ then -1
      else if negb (i =? 3) && negb (rd end_ =? 46) then -1
      else if (i =? 3) && negb (rd end_ =? 0) then -1
      else ipaddr_groups n' (i + 1) (tl end_)
  end.

(** The characters "1ytYT0nfNF". *)
Definition bool_chars : list Z := [49; 121; 116; 89; 84; 48; 110; 102; 78; 70].

(** [_env_flags_validate_type]; a number that is no enumerator passes. *)
Definition validate_type (value : list Z) (type : option env_flags_vartype) : Z :=
  match type with
  | Some env_flags_vartype_string => 0
  | Some env_flags_vartype_decimal =>
      let end_ := skip_num false value (-1) in
      if negb (rd end_ =? 0) then -1 else 0
  | Some env_flags_vartype_hex =>
      let end_ := skip_num true value (-1) in
      if negb (rd end_ =? 0) then -1
      else if two_ahead value end_ && is_hex_prefix value then -1
      else 0
  | Some env_flags_vartype_bool =>
      if negb (existsb (Z.eqb (nth 0 value 0)) bool_chars) then -1
      else if negb (nth 1 value 0 =? 0) then -1
      else 0
  | Some env_flags_vartype_ipaddr => ipaddr_groups 4 0 value
  | Some env_flags_vartype_macaddr => if negb (eth_validate_ethaddr_str value =? 0) then -1 else 0
  | Some env_flags_vartype_end => -1
  | None => 0
  end.

(** * Flags of the entries *)

(** How a call with a buffer on the stack can end: it does not return, the
    string it copies is longer than the buffer, or normally. *)
Inductive outcome (A : Type) := Hangs | Overrun | Done (a : A).
Arguments Hangs {A}.
Arguments Overrun {A}.
Arguments Done {A} a.

Section Flags.
Context (writeable ignore_force : bool).
Context (attr_lookup : option (list Z) -> list Z -> option (Z * option (list Z))).
Context (ENV_FLAGS_LIST_STATIC : list Z).
Context (env_get_default : list Z -> option (list Z)).

(** The return value and the string in [flags]. *)
Definition env_flags_lookup (flags_list : option (list Z)) (name : list Z)
  : option (Z * option (list Z)) :=
  match (match flags_list with
         | Some l => attr_lookup (Some l) name
         | None => Some (1, None)
         end) with
  | None => None
  | Some (ret, flags) =>
      if negb (ret =? 0) then attr_lookup (Some ENV_FLAGS_LIST_STATIC) name else Some (ret, flags)
  end.

(** [first_call] and [flags_list] of env/flags.c. *)
Record flags_state := FlagsState { ff_first_call : bool; ff_list : option (list Z) }.

(** [env_get_flags] is the value of ".flags"; the result is what the call
    stores into the entry's flags, if anything. *)
Definition env_flags_init (env_get_flags : option (list Z)) (st : flags_state) (var_name : list Z)
  : outcome (option Z) * flags_state :=
  let st := if ff_first_call st
            then FlagsState false (if writeable then Some ENV_FLAGS_LIST_STATIC else env_get_flags)
            else st in
  (match env_flags_lookup (ff_list st) var_name with
   | None => Hangs
   | Some (ret, flags) =>
       let flags := default [] flags in
       if ENV_FLAGS_ATTR_MAX_LEN <? strlen flags then Overrun
       else if (ret =? 0) && negb (strlen flags =? 0)
       then Done (Some (env_parse_flags_to_bin writeable flags))
       else Done None
   end, st).

Definition with_flags (e : env_entry) (f : Z) : env_entry :=
  Entry (e_key e) (e_data e) (e_callback e) f.
Definition clear_flags (e : env_entry) : Z * env_entry := (0, with_flags e 0).

(** Writing through the pointer hsearch_r returned. *)
Definition update_entry (h : hsearch_data) (i : Z) (f : env_entry -> env_entry) : hsearch_data :=
  set_node h i (Node (used (node h i)) (f (entry (node h i)))).

Section Hooks.
Context `{EnvHooks}.

Definition set_flags (name : list Z) (value : option (list Z)) (h : hsearch_data)
  : option (Z * hsearch_data) :=
  match hsearch_r true true name None ENV_FIND h 0 with
  | None => None
  | Some r =>
      match sr_retval r with
      | None => Some (0, h)
      | Some ep =>
          let f := match value with
                   | Some v => if strlen v =? 0 then 0 else env_parse_flags_to_bin writeable v
                   | None => 0
                   end in
          Some (0, update_entry h ep (fun e => with_flags e f))
      end
  end.

Definition on_flags (mem_ok : nat -> bool) (value : option (list Z)) (h : hsearch_data)
  : option (Z * hsearch_data) :=
  let (_, h) := hwalk_r h clear_flags in
  match env_attr_walk mem_ok set_flags (Some ENV_FLAGS_LIST_STATIC) h with
  | None => None
  | Some (_, h) =>
      match env_attr_walk mem_ok set_flags value h with
      | None => None
      | Some (_, h) => Some (0, h)
      end
  end.
End Hooks.

Definition has (flags bit : Z) : bool := negb (Z.land flags bit =? 0).

Definition env_flags_validate (item : env_entry) (newval : option (list Z)) (op : env_op) (flag : Z) : Z :=
  let oldval := match op with env_op_create => None | _ => e_data item end in
  let name := default [] (e_key item) in
  let newval := default [] newval in
  let type := vartype_of (Z.land ENV_FLAGS_VARTYPE_BIN_MASK (e_flags item)) in
  if match op with env_op_delete => false | _ => validate_type newval type <? 0 end then -1
  else if writeable && has flag H_DEFAULT then 0
  else if writeable && has flag H_EXTERNAL && negb (has (e_flags item) ENV_FLAGS_VARACCESS_WRITEABLE) then 1
  else if has flag H_FORCE && negb ignore_force then 0
  else match op with
       | env_op_delete => if has (e_flags item) ENV_FLAGS_VARACCESS_PREVENT_DELETE then 1 else 0
       | env_op_overwrite =>
           if has (e_flags item) ENV_FLAGS_VARACCESS_PREVENT_OVERWR then 1
           else if has (e_flags item) ENV_FLAGS_VARACCESS_PREVENT_NONDEF_OVERWR then
             if negb (strcmp (default [] oldval) (default [] (env_get_default name)) =? 0) then 1 else 0
           else 0
       | env_op_create => if has (e_flags item) ENV_FLAGS_VARACCESS_PREVENT_CREATE then 1 else 0
       end.

(** * The variants for tools/env (USE_HOSTCC) *)

Definition env_flags_get_type (flags_list : option (list Z)) (name : list Z)
  : outcome env_flags_vartype :=
  match env_flags_lookup flags_list name with
  | None => Hangs
  | Some (ret, flags) =>
      let flags := default [] flags in
      if ENV_FLAGS_ATTR_MAX_LEN <? strlen flags then Overrun
      else if negb (ret =? 0) then Done env_flags_vartype_string
      else if strlen flags <=? ENV_FLAGS_VARTYPE_LOC then Done env_flags_vartype_string
      else Done (env_flags_parse_vartype flags)
  end.

Definition env_flags_get_varaccess (flags_list : option (list Z)) (name : list Z)
  : outcome env_flags_varaccess :=
  match env_flags_lookup flags_list name with
  | None => Hangs
  | Some (ret, flags) =>
      let flags := default [] flags in
      if ENV_FLAGS_ATTR_MAX_LEN <? strlen flags then Overrun
      else if negb (ret =? 0) then Done env_flags_varaccess_any
      else if strlen flags <=? ENV_FLAGS_VARACCESS_LOC then Done env_flags_varaccess_any
      else Done (env_flags_parse_varaccess writeable flags)
  end.

Definition env_flags_validate_type (flags_list : option (list Z)) (name : list Z)
    (value : option (list Z)) : outcome Z :=
  match value with
  | None => Done 0
  | Some v =>
      match env_flags_get_type flags_list name with
      | Hangs => Hangs
      | Overrun => Overrun
      | Done type => Done (if validate_type v (Some type) <? 0 then -1 else 0)
      end
  end.

Definition env_flags_validate_varaccess (flags_list : option (list Z)) (name : list Z)
    (check_mask : Z) : outcome Z :=
  match env_flags_get_varaccess flags_list name with
  | Hangs => Hangs
  | Overrun => Overrun
  | Done access =>
      let access_mask := env_flags_varaccess_mask writeable !!! Z.to_nat (varaccess_num access) in
      Done (if has check_mask access_mask then 1 else 0)
  end.

Definition env_flags_validate_env_set_params (flags_list : option (list Z)) (name : list Z)
    (val : list (option (list Z))) (count : Z) : outcome Z :=
  match (if 1 <=? count then nth 0 val None else None) with
  | None => Done 0
  | Some v =>
      match env_flags_get_type flags_list name with
      | Hangs => Hangs
      | Overrun => Overrun
      | Done type =>
          if negb (bool_decide (type = env_flags_vartype_string)) && (1 <? count) then Done (-1)
          else env_flags_validate_type flags_list name (Some v)
      end
  end.
End Flags.

(** * Callbacks *)

Section Callbacks.
Context (attr_lookup : option (list Z) -> list Z -> option (Z * option (list Z))).
Context (ENV_CALLBACK_LIST_STATIC : list Z).
(** The linker list: names and functions. *)
Context (env_clbk : list (list Z * nat)).

Fixpoint find_in (tbl : list (list Z * nat)) (name : list Z) : option nat :=
  match tbl with
  | [] => None
  | (n, f) :: tbl' => if strcmp name n =? 0 then Some f else find_in tbl' name
  end.
Definition find_env_callback (name : option (list Z)) : option nat :=
  match name with None => None | Some n => find_in env_clbk n end.

Record callback_state := CallbackState { cb_first_call : bool; cb_list : option (list Z) }.

(** [callback_name] has 256 bytes. *)
Definition env_callback_init (env_get_callbacks : option (list Z)) (st : callback_state) (var_name : list Z)
  : outcome (option nat) * callback_state :=
  let st := if cb_first_call st then CallbackState false env_get_callbacks else st in
  (match (match cb_list st with
          | Some l => attr_lookup (Some l) var_name
          | None => Some (1, None)
          end) with
   | None => Hangs
   | Some (ret, name1) =>
       match (if negb (ret =? 0) then attr_lookup (Some ENV_CALLBACK_LIST_STATIC) var_name
              else Some (ret, name1)) with
       | None => Hangs
       | Some (ret, callback_name) =>
           let callback_name := default [] callback_name in
           if 255 <? strlen callback_name then Overrun
           else if (ret =? 0) && negb (strlen callback_name =? 0)
           then Done (find_env_callback (Some callback_name))
           else Done None
       end
   end, st).

Definition with_callback (e : env_entry) (f : option nat) : env_entry :=
  Entry (e_key e) (e_data e) f (e_flags e).
Definition clear_callback (e : env_entry) : Z * env_entry := (0, with_callback e None).

Context `{EnvHooks}.

Definition set_callback (name : list Z) (value : option (list Z)) (h : hsearch_data)
  : option (Z * hsearch_data) :=
  match hsearch_r true true name None ENV_FIND h 0 with
  | None => None
  | Some r =>
      match sr_retval r with
      | None => Some (0, h)
      | Some ep =>
          match value with
          | None => Some (0, update_entry h ep (fun e => with_callback e None))
          | Some v =>
              if strlen v =? 0 then Some (0, update_entry h ep (fun e => with_callback e None))
              else match find_env_callback (Some v) with
                   | Some f => Some (0, update_entry h ep (fun e => with_callback e (Some f)))
                   | None => Some (0, h)
                   end
          end
      end
  end.

Definition on_callbacks (mem_ok : nat -> bool) (value : option (list Z)) (h : hsearch_data)
  : option (Z * hsearch_data) :=
  let (_, h) := hwalk_r h clear_callback in
  match env_attr_walk mem_ok set_callback (Some ENV_CALLBACK_LIST_STATIC) h with
  | None => None
  | Some (_, h) =>
      match env_attr_walk mem_ok set_callback value h with
      | None => None
      | Some (_, h) => Some (0, h)
      end
  end.
End Callbacks.
