(* ===== verification/EnvTypes.v ===== *)
(** The types of environment variables (env/flags.c): the check of a value
    accepts exactly the strings of its type, and the binary form of flags
    keeps what the characters say. *)

From S2P Require Import Prelude Bytes Cstring CstringProps Hashtable Slre EnvAttr EnvFlags.

(** * The strings of a type *)

Definition digit_of (hex : bool) (c : Z) : bool := if hex then isxdigit c else isdigit c.
Abbreviation all_digits hex := (Forall (fun c : Z => digit_of hex c = true)).

(** [n] groups with the separator between them. *)
Fixpoint grouped (group : list Z -> Prop) (sep : Z) (n : nat) (v : list Z) : Prop :=
  match n with
  | O => False
  | S O => group v
  | S n' => exists g rest, group g /\ v = g ++ sep :: rest /\ grouped group sep n' rest
  end.

Definition hex_digits (lo hi : nat) (v : list Z) : Prop :=
  all_digits true v /\ (lo <= length v <= hi)%nat \/
  exists x h, v = 48 :: x :: h /\ (x = 120 \/ x = 88) /\ all_digits true h /\ (1 <= length h <= hi)%nat.

Definition well_typed (t : env_flags_vartype) (v : list Z) : Prop :=
  match t with
  | env_flags_vartype_string => True
  | env_flags_vartype_decimal => all_digits false v
  | env_flags_vartype_hex => hex_digits 0 (length v) v
  | env_flags_vartype_bool => exists c, v = [c] /\ c ∈ bool_chars
  | env_flags_vartype_ipaddr =>
      grouped (fun g => all_digits false g /\ (1 <= length g <= 3)%nat) 46 4 v
  | env_flags_vartype_macaddr => grouped (hex_digits 1 2) 58 6 v
  | env_flags_vartype_end => False
  end.

(** * Skipping digits *)

(** What may follow the digits. *)
Definition stops (hex : bool) (t : list Z) : Prop :=
  match t with [] => True | c :: _ => digit_of hex c = false end.

Lemma skip_digits_app hex ds t : forall i,
  all_digits hex ds -> stops hex t -> i < 0 \/ len ds <= i -> skip_digits hex (ds ++ t) i = t.
Proof.
  induction ds as [|c ds IH]; intros i F S Hi.
  - destruct t as [|c t]; simpl; [by destruct (i =? 0)|]. simpl in S. unfold digit_of in S. rewrite S. by destruct (i =? 0).
  - apply Forall_cons in F as [Fc F]. cbn [app skip_digits length] in *.
    destruct (Z.eqb_spec i 0); [lia|]. unfold digit_of in Fc. rewrite Fc. apply IH; auto. lia.
Qed.

Lemma skip_digits_inv hex v : forall i,
  exists ds, v = ds ++ skip_digits hex v i /\ all_digits hex ds /\ (0 <= i -> len ds <= i).
Proof.
  induction v as [|c v IH]; intros i; simpl.
  - exists []. simpl. repeat split; [by destruct (i =? 0)|constructor|lia].
  - destruct (Z.eqb_spec i 0) as [->|Ni]; [exists []; repeat split; [constructor|simpl; lia]|].
    destruct (if hex then isxdigit c else isdigit c) eqn:D.
    + destruct (IH (i - 1)) as (ds & E & F & L). exists (c :: ds). split; [by rewrite E at 1|].
      split; [by constructor|]. simpl. lia.
    + exists []. repeat split; [constructor|simpl; lia].
Qed.

Lemma prefix_inv v : is_hex_prefix v = true -> exists x h, v = 48 :: x :: h /\ (x = 120 \/ x = 88).
Proof.
  unfold is_hex_prefix. rewrite andb_true_iff, orb_true_iff, !Z.eqb_eq. intros [E1 E2].
  destruct v as [|a [|b v]]; simpl in *; [done|lia|]. subst. by exists b, v.
Qed.

Lemma prefix_digits v t : all_digits true v -> stops true t -> (t = [] \/ rd t = 58) -> is_hex_prefix (v ++ t) = false.
Proof.
  intros F S Ht. destruct (is_hex_prefix (v ++ t)) eqn:P; [|done].
  destruct (prefix_inv _ P) as (x & h & E & Hx). exfalso.
  destruct v as [|a [|b v]]; cbn [app] in E.
  - destruct Ht as [->|Ht]; [done|]. rewrite E in Ht. done.
  - injection E as -> E. destruct Ht as [->|Ht]; [done|]. rewrite E in Ht. cbn in Ht. lia.
  - injection E as -> -> E. apply Forall_cons in F as [_ [F _]%Forall_cons].
    destruct Hx as [->| ->]; done.
Qed.

(** One group of hexadecimal digits and what follows it. *)
Lemma hex_group (max : Z) hi v t :
  (max < 0 /\ (length v <= hi)%nat \/ 0 <= max /\ hi = Z.to_nat max) ->
  stops true t -> (t = [] \/ rd t = 58) ->
  (skip_num true v max = t /\ two_ahead v t && is_hex_prefix v = false) <->
  exists g, hex_digits 0 hi g /\ v = g ++ t.
Proof.
  intros Hm St Ht. unfold skip_num, two_ahead. cbn [andb]. split.
  - intros [E N]. destruct (is_hex_prefix v) eqn:P.
    + destruct (prefix_inv v P) as (x & h & -> & Hx). cbn [drop] in E. rewrite drop_0 in E || idtac.
      destruct (skip_digits_inv true h max) as (ds & Eh & F & L). rewrite E in Eh.
      rewrite andb_true_r in N. apply Nat.eqb_neq in N. simpl in N. rewrite Eh, length_app in N.
      exists (48 :: x :: ds). split; [|by rewrite Eh]. right. exists x, ds.
      assert (length ds <= length h)%nat by (rewrite Eh, length_app; lia).
      repeat split; auto; simpl in *; lia.
    + destruct (skip_digits_inv true v max) as (ds & Eh & F & L). rewrite E in Eh. exists ds.
      split; [|done]. left. assert (length ds <= length v)%nat by (rewrite Eh, length_app; lia). split; [done|lia].
  - intros (g & [[F L]|(x & h & -> & Hx & F & L)] & ->).
    + rewrite (prefix_digits g t F St Ht), andb_false_r. split; [|done]. apply skip_digits_app; auto. lia.
    + assert (is_hex_prefix ((48 :: x :: h) ++ t) = true) as ->.
      { unfold is_hex_prefix. cbn. by destruct Hx as [->| ->]. }
      cbn [app drop]. rewrite ?drop_0. split; [apply skip_digits_app; auto; lia|].
      rewrite andb_true_r. apply Nat.eqb_neq. simpl. rewrite length_app. lia.
Qed.

Lemma dec_group (max : Z) hi v t :
  (max < 0 /\ (length v <= hi)%nat \/ 0 <= max /\ hi = Z.to_nat max) -> stops false t ->
  skip_num false v max = t <-> exists g, (all_digits false g /\ (length g <= hi)%nat) /\ v = g ++ t.
Proof.
  intros Hm St. unfold skip_num. cbn [andb]. split.
  - intros E. destruct (skip_digits_inv false v max) as (ds & Eh & F & L). rewrite E in Eh. exists ds.
    assert (length ds <= length v)%nat by (rewrite Eh, length_app; lia). repeat split; auto. lia.
  - intros (g & [F L] & ->). apply skip_digits_app; auto. rewrite length_app in Hm. lia.
Qed.

(** * Addresses *)

Lemma hex_digits_nonempty hi g : hex_digits 1 hi g <-> hex_digits 0 hi g /\ g <> [].
Proof.
  unfold hex_digits. split.
  - intros [[F L]|(x & h & -> & R)]; [split; [left; split; [done|lia]|by destruct g; [simpl in L; lia|]]|].
    split; [right; by exists x, h|done].
  - intros [[[F L]|R] N]; [|by right]. left. split; [done|]. destruct g; [done|]. simpl in *. lia.
Qed.

Lemma rd_zero v : plain v -> rd v = 0 <-> v = [].
Proof. intros P. destruct v; [done|]. apply Forall_cons in P as [P _]. cbn. split; [done|]. by intros. Qed.

Lemma rd_is v c : c <> 0 -> rd v = c <-> exists t, v = c :: t.
Proof. intros N. destruct v as [|x v]; cbn; split; [congruence|by intros [t E]|intros ->; by exists v|by intros [t [= -> ->]]]. Qed.

Lemma same_ptr_app g t : same_ptr (g ++ t) t = bool_decide (g = []).
Proof.
  unfold same_ptr. rewrite length_app. destruct g; [by rewrite Nat.eqb_refl|].
  rewrite bool_decide_false by done. apply Nat.eqb_neq. simpl. lia.
Qed.

Lemma skip_num_plain hex v i : plain v -> plain (skip_num hex v i).
Proof.
  intros P. unfold skip_num. destruct (skip_digits_inv hex (if hex && is_hex_prefix v then drop 2 v else v) i) as (ds & E & _).
  assert (plain (if hex && is_hex_prefix v then drop 2 v else v)) as P2 by (destruct (hex && _); [by apply Forall_drop|done]).
  rewrite E in P2. by apply Forall_app in P2 as [_ ?].
Qed.

(** The loop both address checks are: read a group, refuse it or go on behind
    its separator. *)
Section Groups.
Context (skip : list Z -> list Z) (bad : list Z -> list Z -> bool) (sep : Z) (group : list Z -> Prop).

Fixpoint groups_check (n : nat) (v : list Z) : bool :=
  match n with
  | O => true
  | S n' => let e := skip v in
            negb (bad v e) &&
            match n' with
            | O => rd e =? 0
            | _ => (rd e =? sep) && groups_check n' (tl e)
            end
  end.

(** What may follow a group. *)
Definition behind (t : list Z) : Prop := t = [] \/ rd t = sep.

Hypothesis Hsep : sep <> 0.
Hypothesis skip_plain : forall v, plain v -> plain (skip v).
Hypothesis good_group : forall v t, behind t -> skip v = t -> bad v t = false -> exists g, group g /\ v = g ++ t.
Hypothesis group_good : forall g t, behind t -> group g -> skip (g ++ t) = t /\ bad (g ++ t) t = false.

Lemma groups_check_ok n : forall v, plain v -> groups_check (S n) v = true <-> grouped group sep (S n) v.
Proof using Hsep skip_plain good_group group_good.
  induction n as [|n IH]; intros v P.
  - cbn [groups_check grouped]. rewrite andb_true_iff, negb_true_iff, Z.eqb_eq, rd_zero by auto. split.
    + intros [B E]. destruct (good_group v [] (or_introl eq_refl) E) as (g & Hg & ->); [by rewrite <- E|].
      by rewrite app_nil_r.
    + intros Hg. destruct (group_good v [] (or_introl eq_refl) Hg) as [E B]. rewrite app_nil_r in *.
      by rewrite E.
  - change (grouped group sep (S (S n)) v)
      with (exists g rest, group g /\ v = g ++ sep :: rest /\ grouped group sep (S n) rest).
    remember (S n) as m eqn:Em. cbn [groups_check]. rewrite Em at 1. rewrite !andb_true_iff, negb_true_iff, Z.eqb_eq.
    rewrite rd_is by done. split.
    + intros [B [[t E] G]]. rewrite E in *. cbn [tl] in G.
      destruct (good_group v (sep :: t) (or_intror eq_refl) E B) as (g & Hg & Ev).
      exists g, t. split; [done|]. split; [done|]. apply IH; [|done].
      apply skip_plain in P. rewrite E in P. by apply Forall_cons in P as [_ ?].
    + intros (g & rest & Hg & -> & G). destruct (group_good g (sep :: rest) (or_intror eq_refl) Hg) as [E B].
      rewrite E. split; [done|]. split; [by exists rest|]. apply IH; [|done].
      by apply Forall_app in P as [_ [_ ?]%Forall_cons].
Qed.
End Groups.

Definition eth_bad (v e : list Z) : bool := same_ptr v e || (two_ahead v e && is_hex_prefix v).

Lemma eth_groups_eq n : forall i cur,
  i + Z.of_nat n = 6 ->
  ethaddr_groups n i cur = if groups_check (fun v => skip_num true v 2) eth_bad 58 n cur then 0 else -1.
Proof.
  induction n as [|n IH]; intros i cur Hi; [done|]. cbn [ethaddr_groups groups_check]. unfold eth_bad at 1.
  destruct (same_ptr _ _); [done|]. destruct (_ && is_hex_prefix cur); [done|]. cbn [orb negb andb].
  destruct n as [|n].
  - destruct (Z.eqb_spec i 5); [|lia]. cbn [negb andb]. by destruct (rd _ =? 0).
  - destruct (Z.eqb_spec i 5); [lia|]. cbn [negb andb]. destruct (rd _ =? 58); [|done]. cbn [negb andb].
    apply IH. lia.
Qed.

Lemma ip_groups_eq n : forall i cur,
  i + Z.of_nat n = 4 ->
  ipaddr_groups n i cur = if groups_check (fun v => skip_num false v 3) same_ptr 46 n cur then 0 else -1.
Proof.
  induction n as [|n IH]; intros i cur Hi; [done|]. cbn [ipaddr_groups groups_check].
  destruct (same_ptr _ _); [done|]. cbn [negb andb]. destruct n as [|n].
  - destruct (Z.eqb_spec i 3); [|lia]. cbn [negb andb]. by destruct (rd _ =? 0).
  - destruct (Z.eqb_spec i 3); [lia|]. cbn [negb andb]. destruct (rd _ =? 46); [|done]. cbn [negb andb].
    apply IH. lia.
Qed.

Lemma behind_stops hex sep t : sep <> 0 -> digit_of hex sep = false -> behind sep t -> stops hex t.
Proof. intros N D [->|E]; [done|]. apply rd_is in E as [t' ->]; done. Qed.

Lemma eth_ok v : plain v -> eth_validate_ethaddr_str v = 0 <-> grouped (hex_digits 1 2) 58 6 v.
Proof.
  intros P. unfold eth_validate_ethaddr_str. rewrite eth_groups_eq by done.
  rewrite <- (groups_check_ok (fun v => skip_num true v 2) eth_bad 58 (hex_digits 1 2)); auto; try done.
  - by destruct (groups_check _ _ _ _ _).
  - intros w Pw. by apply skip_num_plain.
  - intros w t Ht E B. pose proof (behind_stops true 58 t ltac:(done) eq_refl Ht) as St.
    pose proof (hex_group 2 2 w t ltac:(right; done) St Ht) as H.
    unfold eth_bad in B. apply orb_false_iff in B as [S T]. destruct (proj1 H (conj E T)) as (g & Hg & ->).
    exists g. split; [|done]. apply hex_digits_nonempty. split; [done|].
    rewrite same_ptr_app in S. by apply bool_decide_eq_false in S.
  - intros g t Ht [Hg N]%hex_digits_nonempty. pose proof (behind_stops true 58 t ltac:(done) eq_refl Ht) as St.
    destruct (proj2 (hex_group 2 2 (g ++ t) t ltac:(right; done) St Ht)) as [E T]; [by exists g|].
    split; [done|]. unfold eth_bad. by rewrite same_ptr_app, bool_decide_false by done.
Qed.

Lemma ip_ok v : plain v ->
  ipaddr_groups 4 0 v = 0 <-> grouped (fun g => all_digits false g /\ (1 <= length g <= 3)%nat) 46 4 v.
Proof.
  intros P. rewrite ip_groups_eq by done.
  rewrite <- (groups_check_ok (fun v => skip_num false v 3) same_ptr 46
               (fun g => all_digits false g /\ (1 <= length g <= 3)%nat)); auto; try done.
  - by destruct (groups_check _ _ _ _ _).
  - intros w Pw. by apply skip_num_plain.
  - intros w t Ht E S. pose proof (behind_stops false 46 t ltac:(done) eq_refl Ht) as St.
    destruct (proj1 (dec_group 3 3 w t ltac:(right; done) St) E) as (g & [F L] & ->). exists g.
    rewrite same_ptr_app in S. apply bool_decide_eq_false in S. split; [|done]. split; [done|].
    destruct g; [done|]. simpl in *. lia.
  - intros g t Ht [F L]. pose proof (behind_stops false 46 t ltac:(done) eq_refl Ht) as St.
    split; [apply (dec_group 3 3 (g ++ t) t ltac:(right; done) St); exists g; split; [split; [done|lia]|done]|].
    rewrite same_ptr_app. apply bool_decide_false. by destruct g; [simpl in L; lia|].
Qed.

(** * The check of a value *)

Lemma validate_decimal v : plain v -> validate_type v (Some env_flags_vartype_decimal) = 0 <-> all_digits false v.
Proof.
  intros P. unfold validate_type. pose proof (dec_group (-1) (length v) v [] ltac:(left; split; [done|lia]) I) as H.
  pose proof (rd_zero _ (skip_num_plain false v (-1) P)) as Z0.
  destruct (Z.eqb_spec (rd (skip_num false v (-1))) 0) as [E|E]; cbn [negb].
  - split; [intros _|done]. apply Z0 in E. destruct (proj1 H E) as (g & [F _] & ->). by rewrite app_nil_r.
  - split; [done|]. intros F. destruct E. apply Z0, H. exists v. split; [done|by rewrite app_nil_r].
Qed.

Lemma validate_hex v : plain v -> validate_type v (Some env_flags_vartype_hex) = 0 <-> hex_digits 0 (length v) v.
Proof.
  intros P. unfold validate_type.
  pose proof (hex_group (-1) (length v) v [] ltac:(left; split; [done|lia]) I (or_introl eq_refl)) as H.
  pose proof (rd_zero _ (skip_num_plain true v (-1) P)) as Z0.
  destruct (Z.eqb_spec (rd (skip_num true v (-1))) 0) as [E|E]; cbn [negb].
  - apply Z0 in E. rewrite E. destruct (two_ahead v [] && is_hex_prefix v) eqn:T.
    + split; [done|]. intros Hx. destruct (proj2 H) as [_ T']; [exists v; by rewrite app_nil_r|done].
    + split; [intros _|done]. destruct (proj1 H (conj E eq_refl)) as (g & Hg & Ev). rewrite app_nil_r in Ev. by rewrite Ev at 2.
  - split; [done|]. intros Hx. destruct E. apply Z0. destruct (proj2 H) as [E' _]; [exists v; by rewrite app_nil_r|done].
Qed.

Lemma validate_bool v : plain v ->
  validate_type v (Some env_flags_vartype_bool) = 0 <-> exists c, v = [c] /\ c ∈ bool_chars.
Proof.
  intros P. unfold validate_type. destruct (existsb _ bool_chars) eqn:B; cbn [negb].
  - apply existsb_exists in B as (c & Hc & E%Z.eqb_eq). destruct v as [|x [|y v]]; cbn [nth] in *.
    + exfalso. rewrite <- E in Hc. simpl in Hc. intuition discriminate.
    + cbn. split; [intros _|done]. exists x. split; [done|]. rewrite E. by apply list_elem_of_In.
    + apply Forall_cons in P as [_ [Py _]%Forall_cons]. rewrite (proj2 (Z.eqb_neq y 0)) by done.
      split; [done|]. by intros (c' & ? & _).
  - split; [done|]. intros (c & -> & Hc). exfalso. cbn [nth] in B.
    assert (existsb (Z.eqb c) bool_chars = true); [|congruence].
    apply existsb_exists. exists c. split; [by apply list_elem_of_In|apply Z.eqb_refl].
Qed.

(** The check of a value against the type of its variable accepts exactly
    the strings of the type: decimal numbers are digits, hexadecimal ones
    digits with an optional 0x that must not stand alone, booleans one of ten
    letters, IP addresses four groups of one to three digits, MAC addresses
    six groups of one or two hexadecimal digits. *)
Theorem validate_type_spec (v : list Z) (t : env_flags_vartype) :
  Forall (fun c => c <> 0) v -> validate_type v (Some t) = 0 <-> well_typed t v.
Proof.
  intros P. destruct t; cbn [well_typed].
  - done.
  - by apply validate_decimal.
  - by apply validate_hex.
  - by apply validate_bool.
  - by apply ip_ok.
  - cbn [validate_type]. rewrite <- (eth_ok v P). destruct (Z.eqb_spec (eth_validate_ethaddr_str v) 0); cbn [negb]; tauto || lia.
  - done.
Qed.

(** The value 10.0.0.1 as an IP address. *)
Lemma validate_type_spec_witness :
  validate_type [49; 48; 46; 48; 46; 48; 46; 49] (Some env_flags_vartype_ipaddr) = 0 <->
  well_typed env_flags_vartype_ipaddr [49; 48; 46; 48; 46; 48; 46; 49].
Proof. apply (validate_type_spec [49; 48; 46; 48; 46; 48; 46; 49] env_flags_vartype_ipaddr). repeat constructor; discriminate. Defined.

(** * The binary form of flags *)

Lemma strchr_range s c i : 0 < c < 256 -> strchr s c = Some i -> 0 <= i < len s.
Proof.
  intros Hc E. pose proof (strchr_ok s c Hc) as H. rewrite E in H. destruct H as (p & rest & -> & -> & _).
  rewrite length_app. simpl. lia.
Qed.

Abbreviation chars := (Forall (fun c : Z => 0 < c < 256)).

Lemma chars_plain s : chars s -> plain s.
Proof. intros F. eapply Forall_impl; [exact F|]. intros c [? ?]. lia. Qed.

Lemma nth_char s (i : nat) : chars s -> Z.of_nat i < strlen s -> 0 < nth i s 0 < 256.
Proof.
  intros F Hi. rewrite strlen_cstr, cstr_plain in Hi by (by apply chars_plain).
  rewrite Forall_forall in F. apply F, list_elem_of_In, nth_In. lia.
Qed.

(** The type is one of the six, the access one the table has. *)
Lemma parse_vartype_ok flags : chars flags -> env_flags_parse_vartype flags <> env_flags_vartype_end.
Proof.
  intros F. unfold env_flags_parse_vartype. destruct (Z.leb_spec (strlen flags) ENV_FLAGS_VARTYPE_LOC); [done|].
  destruct (strchr env_flags_vartype_rep _) as [i|] eqn:E; [|done].
  apply strchr_range in E; [|by apply nth_char].
  assert (i = 0 \/ i = 1 \/ i = 2 \/ i = 3 \/ i = 4 \/ i = 5) as Hi by (simpl in E; lia).
  by destruct Hi as [->|[->|[->|[->|[->| ->]]]]].
Qed.

Lemma parse_varaccess_ok w flags : chars flags ->
  env_flags_parse_varaccess w flags <> env_flags_varaccess_end /\
  (w = false -> env_flags_parse_varaccess w flags <> env_flags_varaccess_writeable).
Proof.
  intros F. unfold env_flags_parse_varaccess. destruct (Z.leb_spec (strlen flags) ENV_FLAGS_VARACCESS_LOC); [done|].
  destruct (strchr (env_flags_varaccess_rep w) _) as [i|] eqn:E; [|done].
  apply strchr_range in E; [|by apply nth_char].
  assert (i = 0 \/ i = 1 \/ i = 2 \/ i = 3 \/ (i = 4 /\ w = true)) as Hi by (destruct w; simpl in E; lia).
  by destruct Hi as [->|[->|[->|[->|[-> ->]]]]].
Qed.

(** The binary flags of an entry keep both halves of the flags string: the
    type and the access method read back from them are the ones the string
    names, in both configurations. *)
Theorem binflags_roundtrip (w : bool) (flags : list Z) :
  Forall (fun c => 0 < c < 256) flags ->
  let bin := env_parse_flags_to_bin w flags in
  vartype_of (Z.land ENV_FLAGS_VARTYPE_BIN_MASK bin) = Some (env_flags_parse_vartype flags) /\
  env_flags_parse_varaccess_from_binflags w bin = env_flags_parse_varaccess w flags.
Proof.
  intros F. pose proof (parse_vartype_ok flags F) as T. pose proof (parse_varaccess_ok w flags F) as [A1 A2].
  unfold env_parse_flags_to_bin. cbv zeta.
  destruct (env_flags_parse_vartype flags); try done;
    (destruct (env_flags_parse_varaccess w flags), w; try done; by specialize (A2 eq_refl)).
Qed.

(** The flags "mo": a MAC address, write once. *)
Lemma binflags_roundtrip_witness :
  vartype_of (Z.land ENV_FLAGS_VARTYPE_BIN_MASK (env_parse_flags_to_bin false [109; 111]))
    = Some env_flags_vartype_macaddr /\
  env_flags_parse_varaccess_from_binflags false (env_parse_flags_to_bin false [109; 111])
    = env_flags_varaccess_writeonce.
Proof. apply (binflags_roundtrip false [109; 111]). repeat constructor; lia. Defined.
