(* ===== verification/EnvUpdate.v ===== *)
(** Updating the flags of all variables at once (on_flags of env/flags.c):
    the result is what env_flags_init gives a variable when it is created. *)

From stdpp Require Import gmap.
From S2P Require Import Prelude Bytes Cstring CstringProps Hashtable HashSearch HashProps HashClaims.
From S2P Require Import HashEntries Slre EnvAttr EnvLookup EnvFlags EnvTypes EnvPolicy.

(** * Writing to an entry in place *)

Lemma relabel_wf h key i e d :
  ht_wf h -> hit h key i -> e_key e = Some key -> e_data e = Some d ->
  ht_wf (put h i (Node (used (node h i)) e) (filled h)).
Proof.
  intros W [L E] Ek Ed. pose proof L as [Li Lu]. pose proof (wf_shape h W) as S.
  destruct (wf_live h W i L) as (k0 & d0 & Ek0 & _ & Pl & Eu & Hp). rewrite E in Ek0. injection Ek0 as <-.
  apply put_wf; auto.
  - simpl. unfold USED_FREE. lia.
  - simpl. lia.
  - intros _. exists key, d. simpl. auto.
  - intros _ j Lj N E'. simpl in E'. apply N, (wf_uniq h W); congruence.
  - rewrite !decide_True by done. lia.
Qed.

Lemma update_entry_rep h M key i f d :
  env_rep h M -> hit h key i -> e_key (f (entry (node h i))) = Some key ->
  e_data (f (entry (node h i))) = Some d ->
  env_rep (update_entry h i f) (<[key := f (entry (node h i))]> M).
Proof.
  intros R Hi Ek Ed. pose proof R as (W & C & _). pose proof Hi as [[L U] E].
  unfold update_entry. rewrite set_node_put by apply (wf_shape h W).
  apply (env_rep_insert h); [done|by eapply relabel_wf| |].
  - apply put_clean; auto. cbn [used]. lia.
  - intros k x. rewrite put_holds by (eauto with hashdb; exact Ek). cbn [used entry]. naive_solver.
Qed.

(** * Walking the table *)

Section Walk.
Context (f : env_entry -> env_entry).
Hypothesis keeps : forall e, e_key (f e) = e_key e /\ e_data (f e) = e_data e.

(** The nodes before [i] are done, the others untouched. *)
Definition walked (h h' : hsearch_data) (i : Z) : Prop :=
  size h' = size h /\ ht_wf h' /\ unused_clean h' /\
  forall j, 1 <= j <= size h ->
    node h' j = if (j <? i) && (0 <? used (node h j))
                then Node (used (node h j)) (f (entry (node h j))) else node h j.

Lemma walk_step h h' i :
  walked h h' i -> 1 <= i <= size h -> 0 < used (node h' i) ->
  walked h (update_entry h' i f) (i + 1).
Proof using keeps.
  intros (Es & W & C & N) Hi U. unfold update_entry. rewrite set_node_put by apply (wf_shape h' W).
  assert (live h' i) as L by (split; [lia|done]). destruct (wf_live h' W i L) as (key & d & Ek & Ed & _).
  destruct (keeps (entry (node h' i))) as [K1 K2].
  assert (node h' i = node h i) as Ei by (rewrite N by lia; by rewrite Z.ltb_irrefl).
  split; [done|]. split; [|split].
  - apply (relabel_wf h' key i _ d W); [by split|congruence|congruence].
  - apply put_clean; auto; [lia|]. cbn [used]. lia.
  - intros j Hj. destruct (Z.eq_dec j i) as [->|Nj].
    + rewrite put_same by (done || lia). rewrite Ei in *. rewrite (proj2 (Z.ltb_lt i (i + 1))) by lia.
      by rewrite (proj2 (Z.ltb_lt 0 _) U).
    + rewrite put_other by lia. rewrite N by lia. f_equal. f_equal.
      destruct (Z.ltb_spec j i), (Z.ltb_spec j (i + 1)); lia || done.
Qed.

Lemma walk_skip h h' i :
  walked h h' i -> 1 <= i <= size h -> ~ 0 < used (node h' i) -> walked h h' (i + 1).
Proof.
  intros (Es & W & C & N) Hi U. split; [done|]. split; [done|]. split; [done|]. intros j Hj. rewrite N by done.
  destruct (Z.eq_dec j i) as [->|Nj].
  - rewrite Z.ltb_irrefl. rewrite N, Z.ltb_irrefl in U by done. cbn in U.
    rewrite (proj2 (Z.ltb_ge 0 (used (node h i)))) by lia. by rewrite !andb_false_r.
  - f_equal. f_equal. destruct (Z.ltb_spec j i), (Z.ltb_spec j (i + 1)); lia || done.
Qed.

Lemma hwalk_from_ok h n : forall h' i,
  walked h h' i -> 1 <= i -> i + Z.of_nat n = size h + 1 ->
  exists h2, hwalk_from n (fun e => (0, f e)) h' i = (0, h2) /\ walked h h2 (size h + 1).
Proof using keeps.
  induction n as [|n IH]; intros h' i Wk Hi Hn.
  { exists h'. split; [done|]. by replace (size h + 1) with i by lia. }
  cbn [hwalk_from]. pose proof Wk as (Es & _). rewrite Es, (proj2 (Z.leb_le i (size h))) by lia.
  destruct (Z.ltb_spec 0 (used (node h' i))).
  - cbn [Z.eqb negb]. apply IH; [|lia..]. apply walk_step; [done|lia|done].
  - apply IH; [|lia..]. apply walk_skip; [done|lia|lia].
Qed.

(** hwalk_r with a callback that keeps key and value changes every entry. *)
Lemma hwalk_r_map h M :
  env_rep h M ->
  exists h', hwalk_r h (fun e => (0, f e)) = (0, h') /\ env_rep h' (f <$> M).
Proof using keeps.
  intros (W & C & R). pose proof (sh_size h (wf_shape h W)).
  destruct (hwalk_from_ok h (Z.to_nat (size h)) h 1) as (h' & E & Es & W' & C' & N); [|lia|lia|].
  { split; [done|]. split; [done|]. split; [done|]. intros j Hj. by rewrite (proj2 (Z.ltb_ge j 1)) by lia. }
  exists h'. split; [done|]. split; [done|]. split; [done|]. intros key e. rewrite lookup_fmap_Some.
  assert (forall j, 1 <= j <= size h -> used (node h' j) = used (node h j)) as Eu.
  { intros j Hj. rewrite N by done. by destruct (_ && _). }
  assert (forall j, live h j -> entry (node h' j) = f (entry (node h j))) as Ee.
  { intros j [Hj Uj]. rewrite N by done. by rewrite (proj2 (Z.ltb_lt j _)), (proj2 (Z.ltb_lt 0 _)) by lia. }
  assert (forall j, live h' j <-> live h j) as El.
  { intros j. unfold live. rewrite Es. split; intros [Hj Uj]; (split; [done|]); by rewrite ?Eu in * by done. }
  split.
  - intros (e0 & <- & (i & [L Ek] & <-)%R). exists i. split; [split; [by apply El|]|by apply Ee].
    rewrite Ee by done. by rewrite (proj1 (keeps _)).
  - intros (i & [L%El Ek] & <-). exists (entry (node h i)). rewrite Ee in * by done. split; [done|].
    apply R. exists i. split; [split; [done|]|done]. by rewrite <- (proj1 (keeps _)).
Qed.
End Walk.

(** * Setting the flags of the listed variables *)

Lemma env_rep_entry h M key e : env_rep h M -> M !! key = Some e -> e_key e = Some key /\ exists d, e_data e = Some d.
Proof.
  intros (W & _ & R) (i & [L E] & <-)%R. split; [done|].
  destruct (wf_live h W i L) as (k & d & _ & Ed & _). by exists d.
Qed.

(** The pieces of a string without NUL have none. *)
Lemma split_on_plain c s : plain s -> Forall (fun p => plain p) (split_on c s).
Proof.
  induction 1 as [|x s Px P IH]; [by repeat constructor|]. simpl. destruct (x =? c); [by constructor|].
  destruct (split_on c s); [by repeat constructor|]. apply Forall_cons in IH as [IH1 IH2]. by repeat constructor.
Qed.

Lemma attr_entries_plain l : plain l -> Forall (fun e => plain (fst e)) (attr_entries l).
Proof.
  intros P. unfold attr_entries.
  apply Forall_forall. intros e He. apply list_elem_of_filter in He as [_ He].
  apply list_elem_of_fmap in He as (p & -> & Hp).
  pose proof (split_on_plain ENV_ATTR_LIST_DELIM l P) as F. rewrite Forall_forall in F. specialize (F p Hp).
  unfold read_entry. destruct (strchr p ENV_ATTR_SEP); cbn [fst]; apply trim_plain; [by apply Forall_take|done].
Qed.

Section SetFlags.
Context (w : bool).

(** The flags an entry of the list stands for. *)
Definition attr_flags (value : option (list Z)) : Z :=
  match value with
  | Some v => if strlen v =? 0 then 0 else env_parse_flags_to_bin w v
  | None => 0
  end.

Definition set_flags_map (M : env_map) (e : list Z * option (list Z)) : env_map :=
  match M !! fst e with
  | Some x => <[fst e := with_flags x (attr_flags (snd e))]> M
  | None => M
  end.

Lemma set_flags_refines `{EnvHooks} h M name value :
  env_rep h M -> plain name ->
  exists h', set_flags w name value h = Some (0, h') /\ env_rep h' (set_flags_map M (name, value)).
Proof.
  intros R Pn. pose proof (find_refines h M name 0 R Pn) as F. unfold set_flags, set_flags_map. cbn [fst snd].
  destruct (M !! name) as [e|] eqn:E.
  - destruct (env_rep_hit h M name e R E) as (i & Hi & Ei). pose proof R as (W & _ & _).
    rewrite (find_hit h name i _ _ _ W Pn Hi). cbn [sr_retval]. fold (attr_flags value). eexists. split; [reflexivity|].
    destruct (env_rep_entry h M name e R E) as [Ek [d Ed]]. rewrite <- Ei in *.
    by apply (update_entry_rep h M name i (fun e => with_flags e (attr_flags value)) d).
  - rewrite F. cbn [sr_retval]. by exists h.
Qed.

Lemma visit_set_flags `{EnvHooks} es : forall h M,
  env_rep h M -> Forall (fun e => plain (fst e)) es ->
  exists h', visit (set_flags w) es h = Some (0, h') /\ env_rep h' (fold_left set_flags_map es M).
Proof.
  induction es as [|[n a] es IH]; intros h M R F; [by exists h|]. apply Forall_cons in F as [Fn F].
  cbn [visit fold_left]. destruct (set_flags_refines h M n a R Fn) as (h1 & -> & R1). cbn [Z.eqb negb].
  by apply IH.
Qed.

(** What the list says about one variable. *)
Lemma set_flags_fold es : forall M key,
  fold_left set_flags_map es M !! key =
    match M !! key with
    | Some e => Some (match last_attrs key es with Some a => with_flags e (attr_flags a) | None => e end)
    | None => None
    end.
Proof.
  induction es as [|[n a] es IH]; intros M key; cbn [fold_left last_attrs]; [by destruct (M !! key)|].
  rewrite IH. unfold set_flags_map. cbn [fst snd]. destruct (M !! n) as [x|] eqn:En.
  - destruct (decide (n = key)) as [->|N].
    + rewrite lookup_insert_eq, En. by destruct (last_attrs key es).
    + rewrite lookup_insert_ne by done. destruct (M !! key); [|done]. by destruct (last_attrs key es).
  - destruct (decide (n = key)) as [->|N]; [by rewrite En|].
    destruct (M !! key); [|done]. by destruct (last_attrs key es).
Qed.
End SetFlags.

(** Lists whose attributes fit the three-byte buffer of env_flags_init. *)
Definition short_attrs (l : list Z) : Prop :=
  Forall (fun e => match snd e with Some a => plain a /\ (length a <= 2)%nat | None => True end) (attr_entries l).

Lemma last_attrs_in name es a : last_attrs name es = Some a -> (name, a) ∈ es.
Proof.
  induction es as [|[n b] es IH]; [done|]. simpl. destruct (last_attrs name es) as [r|].
  - intros [= ->]. right. by apply IH.
  - case_decide as D; [|done]. intros [= ->]. subst. left.
Qed.

Lemma short_last l name a :
  short_attrs l -> last_attrs name (attr_entries l) = Some (Some a) -> plain a /\ (length a <= 2)%nat.
Proof. intros S E%last_attrs_in. unfold short_attrs in S. rewrite Forall_forall in S. by specialize (S _ E). Qed.

(** The flags that the lists, the variable's first, give a name. *)
Definition listed_flags (w : bool) (static : list Z) (value : option (list Z)) (name : list Z) : Z :=
  match (match value with Some v => last_attrs name (attr_entries v) | None => None end) with
  | Some a => attr_flags w a
  | None => match last_attrs name (attr_entries static) with Some a => attr_flags w a | None => 0 end
  end.

Definition list_ready (l : list Z) : Prop := attr_list_ok l /\ short_attrs l.

Lemma lookup_found w before l name a :
  list_ready l -> attr_name name -> last_attrs name (attr_entries l) = Some a ->
  env_attr_lookup before true (Some l) name = Some (0, Some (default [] a)) /\
  strlen (default [] a) <= 2 /\
  attr_flags w a = if strlen (default [] a) =? 0 then 0 else env_parse_flags_to_bin w (default [] a).
Proof.
  intros [Ok Sh] An E. pose proof An as (Nn & Pn & _). pose proof Ok as [Pl _].
  destruct (lookup_last before l name Pl Pn Nn) as (p & L & ->).
  pose proof (lookup_agrees name An (length l) l p (Nat.le_refl _) Ok L) as A. unfold agrees in A.
  destruct p as [p|]; [|congruence]. destruct A as (a' & E' & ->). rewrite E in E'. injection E' as <-.
  split; [done|]. destruct a as [v|]; cbn [default]; [|split; [simpl; lia|done]].
  destruct (short_last l name v Sh E) as [Pv Lv]. split; [|done].
  unfold id. rewrite strlen_cstr, cstr_plain by done. lia.
Qed.

Lemma lookup_missing before l name :
  list_ready l -> attr_name name -> last_attrs name (attr_entries l) = None ->
  env_attr_lookup before true (Some l) name = Some (- ENOENT, None).
Proof.
  intros [Ok Sh] An E. pose proof An as (Nn & Pn & _). pose proof Ok as [Pl _].
  destruct (lookup_last before l name Pl Pn Nn) as (p & L & ->).
  pose proof (lookup_agrees name An (length l) l p (Nat.le_refl _) Ok L) as A. unfold agrees in A.
  destruct p as [p|]; [|done]. destruct A as (a & E' & _). congruence.
Qed.

(** What env_flags_init stores for a new variable, once its list is read. *)
Lemma env_flags_init_listed w before static value name :
  list_ready static -> (forall v, value = Some v -> list_ready v) -> attr_name name ->
  exists f, fst (env_flags_init w (env_attr_lookup before true) static None (FlagsState false value) name) = Done f /\
    default 0 f = listed_flags w static value name.
Proof.
  intros Rs Rv An. unfold env_flags_init, env_flags_lookup, listed_flags. cbn [ff_first_call ff_list fst].
  assert (forall a, strlen (default [] a) <= 2 ->
    exists f, (if ENV_FLAGS_ATTR_MAX_LEN <? strlen (default [] (Some (default [] a))) then Overrun
               else if (0 =? 0) && negb (strlen (default [] (Some (default [] a))) =? 0)
                    then Done (Some (env_parse_flags_to_bin w (default [] (Some (default [] a))))) else Done None) = Done f /\
      default 0 f = if strlen (default [] a) =? 0 then 0 else env_parse_flags_to_bin w (default [] a)) as Fin.
  { intros a Ha. change (default [] (Some (default [] a))) with (default [] a).
    rewrite (proj2 (Z.ltb_ge _ _)) by (unfold ENV_FLAGS_ATTR_MAX_LEN; lia). cbn [Z.eqb andb].
    destruct (strlen (default [] a) =? 0); cbn [negb]; [exists None|eexists]; done. }
  destruct (match value with Some v => last_attrs name (attr_entries v) | None => None end) as [a|] eqn:Ev.
  - destruct value as [v|]; [|done]. destruct (lookup_found w before v name a (Rv v eq_refl) An Ev) as (-> & La & ->).
    cbn [Z.eqb negb]. by apply Fin.
  - assert (exists ret fl, (match value with Some l => env_attr_lookup before true (Some l) name | None => Some (1, None) end)
              = Some (ret, fl) /\ negb (ret =? 0) = true) as (ret & fl & -> & ->).
    { destruct value as [v|]; [|by exists 1, None]. exists (- ENOENT), None. split; [|done].
      by apply lookup_missing; [apply Rv|..]. }
    destruct (last_attrs name (attr_entries static)) as [a|] eqn:Es.
    + destruct (lookup_found w before static name a Rs An Es) as (-> & La & ->). by apply Fin.
    + rewrite lookup_missing by done. by exists None.
Qed.

(** Updating the flags of all variables, as setting ".flags" does, agrees
    with giving each its flags when it is created: on_flags always ends with 0
    and leaves every variable with its value, its callback and exactly the
    flags env_flags_init computes for its name from the same lists.  Names in
    the lists are taken literally (no CONFIG_REGEX). *)
Theorem on_flags_agrees `{EnvHooks} (w : bool) (before : Z) (static : list Z) (value : option (list Z))
    (h : hsearch_data) (M : env_map) :
  env_rep h M -> list_ready static -> (forall v, value = Some v -> list_ready v) ->
  (forall key, is_Some (M !! key) -> attr_name key) ->
  exists h' M', on_flags w static (fun _ => true) value h = Some (0, h') /\ env_rep h' M' /\
    forall key, match M !! key with
    | None => M' !! key = None
    | Some e => exists f,
        fst (env_flags_init w (env_attr_lookup before true) static None (FlagsState false value) key) = Done f /\
        M' !! key = Some (with_flags e (default 0 f))
    end.
Proof.
  intros R Rs Rv Ks. unfold on_flags.
  destruct (hwalk_r_map (fun e => with_flags e 0) ltac:(done) h M R) as (h1 & E1 & R1).
  change (hwalk_r h clear_flags) with (hwalk_r h (fun e => (0, with_flags e 0))). rewrite E1.
  pose proof Rs as [[Ps _] _]. unfold env_attr_walk at 1. rewrite walk_loop_ok by (done || lia).
  destruct (visit_set_flags w (attr_entries static) h1 _ R1 (attr_entries_plain static Ps)) as (h2 & -> & R2).
  set (M2 := fold_left _ _ _) in R2.
  assert (exists r h3, env_attr_walk (fun _ => true) (set_flags w) value h2 = Some (r, h3) /\
    env_rep h3 (match value with Some v => fold_left (set_flags_map w) (attr_entries v) M2 | None => M2 end)) as (r & h3 & -> & R3).
  { destruct value as [v|]; [|by exists 1, h2]. pose proof (Rv v eq_refl) as [[Pv _] _].
    unfold env_attr_walk. rewrite walk_loop_ok by (done || lia).
    destruct (visit_set_flags w (attr_entries v) h2 M2 R2 (attr_entries_plain v Pv)) as (h3 & -> & R3). by exists 0, h3. }
  eexists h3, _. split; [done|]. split; [exact R3|]. intros key.
  destruct (M !! key) as [e|] eqn:E.
  - destruct (env_flags_init_listed w before static value key Rs Rv (Ks key ltac:(by eexists))) as (f & Ef & Df).
    exists f. split; [done|]. rewrite Df. unfold listed_flags.
    assert (M2 !! key = Some (match last_attrs key (attr_entries static) with
                              | Some a => with_flags e (attr_flags w a) | None => with_flags e 0 end)) as E2.
    { unfold M2. rewrite set_flags_fold, lookup_fmap, E. cbn. by destruct (last_attrs key _). }
    destruct value as [v|]; [|rewrite E2; by destruct (last_attrs key _)].
    rewrite set_flags_fold, E2. destruct (last_attrs key (attr_entries v)); [|by destruct (last_attrs key _)].
    by destruct (last_attrs key (attr_entries static)).
  - assert (M2 !! key = None) as E2 by (unfold M2; by rewrite set_flags_fold, lookup_fmap, E).
    destruct value as [v|]; [|done]. by rewrite set_flags_fold, E2.
Qed.

(** The variable ser, set under the built-in list, when ".flags" becomes "num:x". *)
Definition demo_value : list Z := [110; 117; 109; 58; 120].

Lemma demo_ready : list_ready demo_static /\ list_ready demo_value /\ attr_name demo_ser.
Proof.
  assert (attr_entries demo_static = [(demo_ser, Some [115; 111]); (demo_num, Some [100])]) as Es by (vm_compute; reflexivity).
  assert (attr_entries demo_value = [(demo_num, Some [120])]) as Ev by (vm_compute; reflexivity).
  unfold list_ready, attr_list_ok, short_attrs. rewrite Es, Ev. split; [|split].
  - split; [split; [|split]|]; [repeat constructor; discriminate| | |].
    + repeat (constructor; [intros H; first [discriminate H|reflexivity]|]). constructor.
    + repeat (constructor; [simpl; intuition discriminate|]). constructor.
    + repeat (constructor; [split; [repeat constructor; discriminate|simpl; lia]|]). constructor.
  - split; [split; [|split]|]; [repeat constructor; discriminate| | |].
    + repeat (constructor; [intros H; first [discriminate H|reflexivity]|]). constructor.
    + repeat (constructor; [simpl; intuition discriminate|]). constructor.
    + repeat (constructor; [split; [repeat constructor; discriminate|simpl; lia]|]). constructor.
  - split; [discriminate|]. split; [repeat constructor; discriminate|].
    split; [simpl; intuition discriminate|]. split; [simpl; intuition discriminate|]. reflexivity.
Qed.

Lemma on_flags_agrees_witness :
  exists h' M', @on_flags false demo_static demo_hooks (fun _ => true) (Some demo_value) demo_set = Some (0, h') /\
    env_rep h' M' /\
    forall key, match ({[ demo_ser := demo_entry ]} : env_map) !! key with
    | None => M' !! key = None
    | Some e => exists f,
        fst (env_flags_init false (env_attr_lookup 0 true) demo_static None (FlagsState false (Some demo_value)) key) = Done f /\
        M' !! key = Some (with_flags e (default 0 f))
    end.
Proof.
  destruct demo_ready as (R1 & R2 & An).
  apply (@on_flags_agrees demo_hooks false 0 demo_static (Some demo_value) demo_set {[ demo_ser := demo_entry ]}).
  - exact demo_set_rep.
  - exact R1.
  - intros v [= <-]. exact R2.
  - intros key [e L]. apply lookup_singleton_Some in L as [<- _]. exact An.
Defined.

(** * Where the two ways of setting flags differ *)

(** The built-in list [eth\d*addr:mo] with regular expressions, and ethaddr. *)
Definition demo_wild : list Z := [101; 116; 104; 92; 100; 42; 97; 100; 100; 114; 58; 109; 111].
Definition demo_ethaddr : list Z := [101; 116; 104; 97; 100; 100; 114].
Definition regex_lookup (l : option (list Z)) (name : list Z) : option (Z * option (list Z)) :=
  env_attr_lookup_regex 40 (replicate 256 0) (replicate 256 0) true true (fun _ => true) true l name.
Definition regex_hooks : EnvHooks :=
  env_hooks false false regex_lookup demo_wild [] None None [] (fun _ _ _ _ _ => 0) (fun _ => None).
(** The value 0:0:0:0:0:1. *)
Definition demo_mac : list Z := [48; 58; 48; 58; 48; 58; 48; 58; 48; 58; 49].
Definition mac_set : hsearch_data :=
  match @hsearch_r regex_hooks true true demo_ethaddr (Some demo_mac) ENV_ENTER demo_fresh 0 with
  | Some r => sr_tab r
  | None => demo_fresh
  end.

(** With CONFIG_REGEX the walk of on_flags looks for a variable whose name is
    the pattern itself, so setting ".flags" to anything drops the write-once
    protection of ethaddr: it could not be overwritten before and can be
    overwritten, even with a string that is no address, afterwards. *)
Theorem on_flags_drops_pattern :
  (exists r, @hsearch_r regex_hooks true true demo_ethaddr (Some [120]) ENV_ENTER mac_set 0 = Some r /\
     sr_errno r = Some EPERM) /\
  exists h' r, @on_flags false demo_wild regex_hooks (fun _ => true) (Some []) mac_set = Some (0, h') /\
    @hsearch_r regex_hooks true true demo_ethaddr (Some [120]) ENV_ENTER h' 0 = Some r /\ 0 < sr_ret r.
Proof.
  split.
  - eexists. split; [vm_compute; reflexivity|reflexivity].
  - eexists _, _. split; [vm_compute; reflexivity|]. split; [vm_compute; reflexivity|]. done.
Qed.

(** Attributes longer than two characters overrun the buffer of
    env_flags_init: ".flags" set to "ser:sox" is enough, and the next creation
    of ser writes behind it. *)
Theorem env_flags_init_overrun :
  fst (env_flags_init false (env_attr_lookup 0 true) demo_static (Some [115; 101; 114; 58; 115; 111; 120])
                      (FlagsState true None) demo_ser) = Overrun.
Proof. vm_compute. reflexivity. Qed.
