(* ===== verification/Crc32.v ===== *)
(** CRC-32 (lib/crc32.c): the model and its equivalence with the bit-serial
    definition.

    The buffer is the list of its bytes and [addr] its address, of which the
    lowest two bits matter: the code reads single bytes up to a word boundary,
    then 32-bit words, then the bytes left.  Memory is little-endian, so the
    byte-order conversions do nothing.  [int] is 32 bits wide. *)

From S2P Require Import Prelude Bytes Cstring.

Abbreviation len l := (Z.of_nat (length l)).

(** * Tables *)

(** The exponents of the polynomial but the highest, and its pattern. *)
Definition poly_terms : list Z := [0; 1; 2; 4; 5; 7; 8; 10; 11; 12; 16; 22; 23; 26].
Definition crc_poly : Z := fold_left (fun poly p => Z.lor poly (Z.shiftl 1 (31 - p))) poly_terms 0.

(** One round of the inner loop of make_crc_table. *)
Definition crc_bit (c : Z) : Z :=
  if negb (Z.land c 1 =? 0) then Z.lxor crc_poly (Z.shiftr c 1) else Z.shiftr c 1.

(** CONFIG_DYNAMIC_CRC_TABLE *)
Definition make_crc_table : list Z := map (fun n => Nat.iter 8 crc_bit (Z.of_nat n)) (seq 0 256).

(** The table in the source. *)
Definition crc_table : list Z :=
  [
   0; 1996959894; 3993919788; 2567524794; 124634137; 1886057615;
   3915621685; 2657392035; 249268274; 2044508324; 3772115230; 2547177864;
   162941995; 2125561021; 3887607047; 2428444049; 498536548; 1789927666;
   4089016648; 2227061214; 450548861; 1843258603; 4107580753; 2211677639;
   325883990; 1684777152; 4251122042; 2321926636; 335633487; 1661365465;
   4195302755; 2366115317; 997073096; 1281953886; 3579855332; 2724688242;
   1006888145; 1258607687; 3524101629; 2768942443; 901097722; 1119000684;
   3686517206; 2898065728; 853044451; 1172266101; 3705015759; 2882616665;
   651767980; 1373503546; 3369554304; 3218104598; 565507253; 1454621731;
   3485111705; 3099436303; 671266974; 1594198024; 3322730930; 2970347812;
   795835527; 1483230225; 3244367275; 3060149565; 1994146192; 31158534;
   2563907772; 4023717930; 1907459465; 112637215; 2680153253; 3904427059;
   2013776290; 251722036; 2517215374; 3775830040; 2137656763; 141376813;
   2439277719; 3865271297; 1802195444; 476864866; 2238001368; 4066508878;
   1812370925; 453092731; 2181625025; 4111451223; 1706088902; 314042704;
   2344532202; 4240017532; 1658658271; 366619977; 2362670323; 4224994405;
   1303535960; 984961486; 2747007092; 3569037538; 1256170817; 1037604311;
   2765210733; 3554079995; 1131014506; 879679996; 2909243462; 3663771856;
   1141124467; 855842277; 2852801631; 3708648649; 1342533948; 654459306;
   3188396048; 3373015174; 1466479909; 544179635; 3110523913; 3462522015;
   1591671054; 702138776; 2966460450; 3352799412; 1504918807; 783551873;
   3082640443; 3233442989; 3988292384; 2596254646; 62317068; 1957810842;
   3939845945; 2647816111; 81470997; 1943803523; 3814918930; 2489596804;
   225274430; 2053790376; 3826175755; 2466906013; 167816743; 2097651377;
   4027552580; 2265490386; 503444072; 1762050814; 4150417245; 2154129355;
   426522225; 1852507879; 4275313526; 2312317920; 282753626; 1742555852;
   4189708143; 2394877945; 397917763; 1622183637; 3604390888; 2714866558;
   953729732; 1340076626; 3518719985; 2797360999; 1068828381; 1219638859;
   3624741850; 2936675148; 906185462; 1090812512; 3747672003; 2825379669;
   829329135; 1181335161; 3412177804; 3160834842; 628085408; 1382605366;
   3423369109; 3138078467; 570562233; 1426400815; 3317316542; 2998733608;
   733239954; 1555261956; 3268935591; 3050360625; 752459403; 1541320221;
   2607071920; 3965973030; 1969922972; 40735498; 2617837225; 3943577151;
   1913087877; 83908371; 2512341634; 3803740692; 2075208622; 213261112;
   2463272603; 3855990285; 2094854071; 198958881; 2262029012; 4057260610;
   1759359992; 534414190; 2176718541; 4139329115; 1873836001; 414664567;
   2282248934; 4279200368; 1711684554; 285281116; 2405801727; 4167216745;
   1634467795; 376229701; 2685067896; 3608007406; 1308918612; 956543938;
   2808555105; 3495958263; 1231636301; 1047427035; 2932959818; 3654703836;
   1088359270; 936918000; 2847714899; 3736837829; 1202900863; 817233897;
   3183342108; 3401237130; 1404277552; 615818150; 3134207493; 3453421203;
   1423857449; 601450431; 3009837614; 3294710456; 1567103746; 711928724;
   3020668471; 3272380065; 1510334235; 755167117].

(** * Checksums *)

Definition do_crc (crc x : Z) : Z :=
  Z.lxor (crc_table !!! Z.to_nat (Z.land (Z.lxor crc x) 255)) (Z.shiftr crc 8).

(** Bytes up to a word boundary: what is left of the buffer, and the checksum. *)
Fixpoint crc_align (buf : list Z) (addr crc : Z) : list Z * Z :=
  match buf with
  | b :: buf' => if Z.land addr 3 =? 0 then (buf, crc) else crc_align buf' (addr + 1) (do_crc crc b)
  | [] => (buf, crc)
  end.

(** A 32-bit load. *)
Definition le_load (bs : list Z) : Z := foldr (fun b w => b + 256 * w) 0 bs.

(** [n] words. *)
Fixpoint crc_words (n : nat) (buf : list Z) (crc : Z) : list Z * Z :=
  match n with
  | O => (buf, crc)
  | S n' =>
      let crc := Z.lxor crc (le_load (take 4 buf)) in
      crc_words n' (drop 4 buf) (do_crc (do_crc (do_crc (do_crc crc 0) 0) 0) 0)
  end.

Definition crc32_no_comp (addr crc : Z) (buf : list Z) : Z :=
  let (buf, crc) := crc_align buf addr crc in
  let (buf, crc) := crc_words (Z.to_nat (Z.shiftr (len buf) 2)) buf crc in
  fold_left do_crc buf crc.

Definition crc32 (addr crc : Z) (buf : list Z) : Z :=
  Z.lxor (crc32_no_comp addr (Z.lxor crc 4294967295) buf) 4294967295.

(** The loop with the watchdog; [None]: no progress. *)
Fixpoint crc32_chunks (fuel : nat) (addr crc : Z) (buf : list Z) (chunk_sz : Z) : option Z :=
  match buf with
  | [] => Some crc
  | _ =>
      match fuel with
      | O => None
      | S n =>
          let chunk := if chunk_sz <? u32 (len buf) then chunk_sz else len buf in
          crc32_chunks n (addr + chunk) (crc32 addr crc (take (Z.to_nat chunk) buf))
                       (drop (Z.to_nat chunk) buf) chunk_sz
      end
  end.
Definition crc32_wd (watchdog : bool) (addr crc : Z) (buf : list Z) (chunk_sz : Z) : option Z :=
  if watchdog then crc32_chunks (length buf) addr crc buf chunk_sz else Some (crc32 addr crc buf).

(** The four bytes in network order. *)
Definition crc32_wd_buf (watchdog : bool) (addr : Z) (input : list Z) (chunk_sz : Z) : option (list Z) :=
  option_map (fun crc => rev (le_bytes 4 crc)) (crc32_wd watchdog addr 0 input chunk_sz).

(** * The bit-serial definition *)

(** Feed one byte, lowest bit first, into the shift register. *)
Definition crc_byte (c b : Z) : Z := Nat.iter 8 crc_bit (Z.lxor c b).
Definition crc_spec (crc : Z) (buf : list Z) : Z :=
  Z.lxor (fold_left crc_byte buf (Z.lxor crc 4294967295)) 4294967295.

(** ** The shift register is linear *)

Lemma crc_bit_xor a b : crc_bit (Z.lxor a b) = Z.lxor (crc_bit a) (crc_bit b).
Proof.
  assert (forall c, Z.land c 1 = if Z.odd c then 1 else 0) as L.
  { intros c. apply Z.bits_inj'. intros n Hn. rewrite Z.land_spec. destruct (Z.eq_dec n 0) as [->|].
    - rewrite Z.bit0_odd. by destruct (Z.odd c).
    - assert (Z.testbit 1 n = false) as -> by (apply (Z.pow2_bits_false 0); lia). rewrite andb_false_r.
      destruct (Z.odd c); [|by rewrite Z.testbit_0_l]. symmetry. apply (Z.pow2_bits_false 0). lia. }
  unfold crc_bit. rewrite !L, Z.shiftr_lxor.
  replace (Z.odd (Z.lxor a b)) with (xorb (Z.odd a) (Z.odd b)) by (by rewrite <- !Z.bit0_odd, Z.lxor_spec).
  destruct (Z.odd a), (Z.odd b); cbn [xorb Z.eqb negb]; apply Z.bits_inj'; intros n Hn; rewrite !Z.lxor_spec;
    destruct (Z.testbit crc_poly n), (Z.testbit (Z.shiftr a 1) n), (Z.testbit (Z.shiftr b 1) n); done.
Qed.

Lemma crc_iter_xor n a b : Nat.iter n crc_bit (Z.lxor a b) = Z.lxor (Nat.iter n crc_bit a) (Nat.iter n crc_bit b).
Proof. induction n as [|n IH]; [done|]. simpl. by rewrite IH, crc_bit_xor. Qed.

Lemma crc_bit_even a : crc_bit (Z.shiftl a 1) = a.
Proof.
  unfold crc_bit. assert (Z.land (Z.shiftl a 1) 1 = 0) as ->.
  { apply Z.bits_inj'. intros n Hn. rewrite Z.land_spec, Z.bits_0. destruct (Z.eq_dec n 0) as [->|].
    - by rewrite Z.shiftl_spec_low by lia.
    - assert (Z.testbit 1 n = false) as -> by (apply (Z.pow2_bits_false 0); lia). apply andb_false_r. }
  rewrite Z.shiftr_shiftl_l by lia. apply Z.shiftl_0_r.
Qed.

Lemma crc_iter_shift n a : Nat.iter n crc_bit (Z.shiftl a (Z.of_nat n)) = a.
Proof.
  induction n as [|n IH]; [apply Z.shiftl_0_r|]. rewrite Nat2Z.inj_succ, <- Z.add_1_l.
  rewrite Nat.iter_succ_r.
  rewrite Z.add_comm, <- Z.shiftl_shiftl by lia. rewrite <- (IH) at 2. f_equal. apply crc_bit_even.
Qed.

(** ** One byte *)

Lemma table_made : crc_table = make_crc_table.
Proof. vm_compute. reflexivity. Qed.

Lemma table_entry n : 0 <= n < 256 -> crc_table !!! Z.to_nat n = Nat.iter 8 crc_bit n.
Proof.
  intros Hn. rewrite table_made. unfold make_crc_table.
  apply list_lookup_total_correct. rewrite list_lookup_fmap, lookup_seq_lt by lia. cbn [fmap option_fmap option_map].
  by rewrite Nat.add_0_l, Z2Nat.id by lia.
Qed.

Lemma land_255 x : 0 <= Z.land x 255 < 256.
Proof. change 255 with (Z.ones 8). rewrite Z.land_ones by lia. apply Z.mod_pos_bound. lia. Qed.

(** A number is its low byte and the rest. *)
Lemma low_high c : c = Z.lxor (Z.land c 255) (Z.shiftl (Z.shiftr c 8) 8).
Proof.
  apply Z.bits_inj'. intros n Hn. rewrite Z.lxor_spec, Z.land_spec. change 255 with (Z.ones 8).
  destruct (Z.ltb_spec n 8).
  - rewrite Z.shiftl_spec_low, Z.ones_spec_low by lia. by rewrite andb_true_r, xorb_false_r.
  - rewrite Z.shiftl_spec, Z.shiftr_spec, Z.ones_spec_high by lia. rewrite andb_false_r, xorb_false_l. f_equal. lia.
Qed.

Lemma do_crc_byte c b : 0 <= b < 256 -> do_crc c b = crc_byte c b.
Proof.
  intros Hb. unfold do_crc, crc_byte. rewrite table_entry by apply land_255.
  rewrite (low_high (Z.lxor c b)) at 2. rewrite crc_iter_xor. f_equal.
  change 8 with (Z.of_nat 8) at 3. rewrite crc_iter_shift, Z.shiftr_lxor.
  assert (Z.shiftr b 8 = 0) as ->; [|by rewrite Z.lxor_0_r].
  rewrite Z.shiftr_div_pow2 by lia. apply Z.div_small. lia.
Qed.

Lemma fold_do_crc buf : forall c, Forall (fun b => 0 <= b < 256) buf -> fold_left do_crc buf c = fold_left crc_byte buf c.
Proof.
  induction buf as [|b buf IH]; intros c F; [done|]. apply Forall_cons in F as [Fb F]. simpl.
  by rewrite do_crc_byte, IH.
Qed.

(** ** Words *)

Lemma do_crc_word c b w :
  0 <= b < 256 -> 0 <= w -> do_crc (Z.lxor c (b + 256 * w)) 0 = Z.lxor (do_crc c b) w.
Proof.
  intros Hb Hw. unfold do_crc. rewrite Z.lxor_0_r.
  assert (b + 256 * w = Z.lxor b (Z.shiftl w 8)) as E.
  { rewrite Z.lxor_comm, <- Z.add_nocarry_lxor.
    - rewrite Z.shiftl_mul_pow2 by lia. lia.
    - apply Z.bits_inj'. intros n Hn. rewrite Z.land_spec, Z.bits_0. destruct (Z.ltb_spec n 8).
      + by rewrite Z.shiftl_spec_low by lia; rewrite ?andb_false_r.
      + assert (Z.testbit b n = false) as ->; [|by rewrite ?andb_false_r, ?andb_false_l].
        destruct (Z.eq_dec b 0) as [->|]; [apply Z.bits_0|]. apply Z.bits_above_log2; [lia|].
        enough (Z.log2 b < 8) by lia. apply Z.log2_lt_pow2; lia. }
  assert (Z.land (Z.lxor c (b + 256 * w)) 255 = Z.land (Z.lxor c b) 255) as ->.
  { rewrite E. apply Z.bits_inj'. intros n Hn. change 255 with (Z.ones 8).
    rewrite !Z.land_spec, !Z.lxor_spec. destruct (Z.ltb_spec n 8).
    - rewrite Z.shiftl_spec_low by lia. by rewrite ?xorb_false_r.
    - rewrite Z.ones_spec_high by lia. by rewrite !andb_false_r. }
  rewrite Z.lxor_assoc. f_equal. rewrite Z.shiftr_lxor. f_equal.
  rewrite Z.shiftr_div_pow2 by lia. change (2 ^ 8) with 256. rewrite Z.mul_comm, Z.div_add by lia.
  rewrite Z.div_small by lia. lia.
Qed.

Lemma le_load_nonneg bs : Forall (fun b => 0 <= b < 256) bs -> 0 <= le_load bs.
Proof. induction 1 as [|b bs Hb F IH]; simpl; lia. Qed.

(** Four rounds on a word are four bytes. *)
Lemma word_bytes b0 b1 b2 b3 c :
  Forall (fun b => 0 <= b < 256) [b0; b1; b2; b3] ->
  do_crc (do_crc (do_crc (do_crc (Z.lxor c (le_load [b0; b1; b2; b3])) 0) 0) 0) 0 =
  fold_left do_crc [b0; b1; b2; b3] c.
Proof.
  intros F. rewrite !Forall_cons in F. destruct F as (F0 & F1 & F2 & F3 & _). cbn [le_load foldr fold_left].
  rewrite do_crc_word by lia. rewrite do_crc_word by lia. rewrite do_crc_word by lia.
  rewrite do_crc_word by lia. apply Z.lxor_0_r.
Qed.

Lemma crc_words_ok n : forall buf c,
  Forall (fun b => 0 <= b < 256) buf -> (4 * n <= length buf)%nat ->
  crc_words n buf c = (drop (4 * n) buf, fold_left do_crc (take (4 * n) buf) c).
Proof.
  induction n as [|n IH]; intros buf c F L; [done|].
  destruct buf as [|b0 [|b1 [|b2 [|b3 buf]]]]; simpl in L; try lia.
  cbn [crc_words]. change (take 4 (b0 :: b1 :: b2 :: b3 :: buf)) with [b0; b1; b2; b3].
  change (drop 4 (b0 :: b1 :: b2 :: b3 :: buf)) with buf.
  change (b0 :: b1 :: b2 :: b3 :: buf) with ([b0; b1; b2; b3] ++ buf) in F. apply Forall_app in F as [F4 F].
  rewrite word_bytes by done. rewrite IH by (done || lia).
  replace (4 * S n)%nat with (S (S (S (S (4 * n))))) by lia. reflexivity.
Qed.

Lemma crc_align_ok buf : forall addr c,
  exists k, crc_align buf addr c = (drop k buf, fold_left do_crc (take k buf) c).
Proof.
  induction buf as [|b buf IH]; intros addr c; [by exists 0%nat|]. cbn [crc_align].
  destruct (Z.land addr 3 =? 0); [by exists 0%nat|]. destruct (IH (addr + 1) (do_crc c b)) as (k & E). by exists (S k).
Qed.

Lemma crc32_no_comp_ok addr c buf :
  Forall (fun b => 0 <= b < 256) buf -> crc32_no_comp addr c buf = fold_left crc_byte buf c.
Proof.
  intros F. unfold crc32_no_comp. destruct (crc_align_ok buf addr c) as (k & ->).
  set (rest := drop k buf). assert (Forall (fun b => 0 <= b < 256) rest) as Fr by (by apply Forall_drop).
  assert (4 * Z.to_nat (Z.shiftr (len rest) 2) <= length rest)%nat as L.
  { rewrite Z.shiftr_div_pow2 by lia. change (2 ^ 2) with 4. pose proof (Z.mul_div_le (len rest) 4 ltac:(lia)).
    assert (0 <= len rest / 4) by (apply Z.div_pos; lia). lia. }
  rewrite crc_words_ok by done. rewrite <- fold_left_app, take_drop. subst rest.
  rewrite <- fold_left_app, take_drop. by apply fold_do_crc.
Qed.

Lemma crc32_ok addr c buf : Forall (fun b => 0 <= b < 256) buf -> crc32 addr c buf = crc_spec c buf.
Proof. intros F. unfold crc32, crc_spec. by rewrite crc32_no_comp_ok. Qed.

Lemma crc_spec_app c a b : crc_spec (crc_spec c a) b = crc_spec c (a ++ b).
Proof.
  unfold crc_spec. rewrite fold_left_app. rewrite Z.lxor_assoc, Z.lxor_nilpotent, Z.lxor_0_r. done.
Qed.

(** * The guarantees *)

(** The optimised CRC-32 (bytes to a word boundary, words through the
    table, bytes) is the bit-serial CRC of the buffer, for every alignment,
    length and start value; the table in the source is the one the dynamic
    variant computes. *)
Theorem crc32_bitserial (addr crc : Z) (buf : list Z) :
  Forall (fun b => 0 <= b < 256) buf ->
  crc32 addr crc buf = crc_spec crc buf /\ crc_table = make_crc_table.
Proof. intros F. split; [by apply crc32_ok|exact table_made]. Qed.

(** The string 123456789 at an odd address has the check value cbf43926. *)
Lemma crc32_bitserial_witness :
  crc32 1 0 [49; 50; 51; 52; 53; 54; 55; 56; 57] = 3421780262 /\ crc_table = make_crc_table.
Proof.
  destruct (crc32_bitserial 1 0 [49; 50; 51; 52; 53; 54; 55; 56; 57]) as [E T]; [repeat constructor; lia|].
  split; [rewrite E; vm_compute; reflexivity|exact T].
Defined.

Lemma crc32_chunks_ok chunk_sz : 0 < chunk_sz -> forall fuel addr crc buf,
  Forall (fun b => 0 <= b < 256) buf -> len buf < 4294967296 -> (length buf <= fuel)%nat ->
  crc32_chunks fuel addr crc buf chunk_sz = Some (if decide (buf = []) then crc else crc_spec crc buf).
Proof.
  intros Hc. induction fuel as [|fuel IH]; intros addr crc buf F L Hf.
  { by destruct buf; [|simpl in Hf; lia]. }
  destruct buf as [|b buf]; [done|]. cbn [crc32_chunks]. rewrite u32_small by lia. set (l := b :: buf) in *.
  set (chunk := if chunk_sz <? len l then chunk_sz else len l).
  assert (0 < chunk <= len l) as Hk by (subst chunk; destruct (Z.ltb_spec chunk_sz (len l)); subst l; simpl in *; lia).
  rewrite IH; [|by apply Forall_drop|rewrite length_drop; lia|rewrite length_drop; lia].
  rewrite crc32_ok by (by apply Forall_take). rewrite (decide_False (P := l = [])) by done. f_equal.
  case_decide as D.
  - f_equal. rewrite <- (take_drop (Z.to_nat chunk) l) at 2. by rewrite D, app_nil_r.
  - by rewrite crc_spec_app, take_drop.
Qed.

(** Computing the checksum in chunks, to serve the watchdog in between,
    gives the same value as in one go and ends, for every positive chunk size;
    a chunk size of 0 makes no progress on a non-empty buffer. *)
Theorem crc32_wd_chunks (addr crc chunk_sz : Z) (buf : list Z) :
  Forall (fun b => 0 <= b < 256) buf -> len buf < 4294967296 -> 0 <= chunk_sz -> buf <> [] ->
  crc32_wd true addr crc buf chunk_sz =
    if chunk_sz =? 0 then None else crc32_wd false addr crc buf chunk_sz.
Proof.
  intros F L Hc N. unfold crc32_wd. destruct (Z.eqb_spec chunk_sz 0) as [->|Hn].
  - assert (forall fuel a c, crc32_chunks fuel a c buf 0 = None) as St; [|apply St].
    induction fuel as [|fuel IH]; intros a c; [by destruct buf|]. destruct buf as [|b buf']; [done|]. cbn [crc32_chunks].
    rewrite (proj2 (Z.ltb_lt _ _)) by (rewrite u32_small; simpl in *; lia). apply IH.
  - rewrite crc32_chunks_ok by (done || lia). rewrite decide_False by done. by rewrite crc32_ok.
Qed.

Lemma crc32_wd_chunks_witness :
  crc32_wd true 2 0 [1; 2; 3; 4; 5; 6; 7] 3 = crc32_wd false 2 0 [1; 2; 3; 4; 5; 6; 7] 3.
Proof. apply (crc32_wd_chunks 2 0 3 [1; 2; 3; 4; 5; 6; 7]); [repeat constructor; lia|simpl; lia|lia|discriminate]. Defined.
