(* ===== verification/HashIO.v ===== *)
(** Exporting and importing the environment (lib/hashtable.c): the model of
    [hexport_r] and [himport_r].

    A pointer into the import buffer is the list of bytes from it to the end
    of the buffer, terminator included; the writes of the parser stay behind
    the read pointer and are not read again, so names and values are returned
    instead.  The regular expression matcher (CONFIG_REGEX) is left out, and the
    copies of names and values an import makes are taken to find memory. *)

From S2P Require Import Prelude Bytes Cstring Qsort Hashtable.

Definition key_of (e : env_entry) : list Z := default [] (e_key e).
Definition data_of (e : env_entry) : list Z := default [] (e_data e).

(** * Export *)

Definition cmpkey (e1 e2 : env_entry) : Z := strcmp (key_of e1) (key_of e2).

Definition match_string (flag : Z) (str pat : list Z) : bool :=
  let method := Z.land flag H_MATCH_METHOD in
  if method =? H_MATCH_IDENT then strcmp str pat =? 0
  else if method =? H_MATCH_SUBSTR then
    match strstr str pat with Some _ => true | None => false end
  else false.

Fixpoint match_entry (e : env_entry) (flag : Z) (argv : list (list Z)) : bool :=
  match argv with
  | [] => false
  | a :: argv' =>
      if negb (Z.land flag H_MATCH_KEY =? 0) && match_string flag (key_of e) a then true
      else if negb (Z.land flag H_MATCH_DATA =? 0) && match_string flag (data_of e) a then true
      else match_entry e flag argv'
  end.

(** Bytes pass 1 reserves for a value. *)
Definition data_room (sep : Z) (data : list Z) : Z :=
  if sep =? 0 then strlen data
  else foldr (fun c n => n + 1 + (if (c =? sep) || (c =? 92) then 1 else 0)) 0 (cstr data).

(** Pass 1 over the nodes 1 to [size]: the entries and their total length. *)
Fixpoint export_pass1 (ns : list env_entry_node) (sep flag : Z) (argv : list (list Z))
  : list env_entry * Z :=
  match ns with
  | [] => ([], 0)
  | n :: ns' =>
      let (list, totlen) := export_pass1 ns' sep flag argv in
      if 0 <? used n then
        let ep := entry n in
        if (0 <? Z.of_nat (length argv)) && negb (match_entry ep flag argv) then (list, totlen)
        else if negb (Z.land flag H_HIDE_DOT =? 0) && (rd (key_of ep) =? 46) then (list, totlen)
        else (ep :: list, strlen (key_of ep) + data_room sep (data_of ep) + 2 + totlen)
      else (list, totlen)
  end.

(** Separators and backslashes get a backslash in front. *)
Fixpoint escape (sep : Z) (s : list Z) : list Z :=
  match s with
  | [] => []
  | c :: s' => if c =? 0 then []
               else if (c =? sep) || (c =? 92) then 92 :: c :: escape sep s' else c :: escape sep s'
  end.

Definition export_item (sep : Z) (e : env_entry) : list Z :=
  cstr (key_of e) ++ 61 :: escape sep (data_of e) ++ [sep].

(** What an export can end in: an error, a buffer of [size] bytes, or writes
    past the end of that buffer. *)
Inductive export := ExportError (errno : Z) | ExportOk (size : Z) (buf : list Z) | ExportOverrun.

Definition hexport_r (mem_ok have_buf : bool) (h : hsearch_data) (sep flag size_arg : Z)
    (argv : list (list Z)) : export :=
  let (list, totlen) := export_pass1 (tl (nodes h)) sep flag argv in
  let list := qsort cmpkey list in
  if negb (size_arg =? 0) && (size_arg <? totlen + 1) then ExportError ENOMEM
  else
    let size := if negb (size_arg =? 0) then size_arg else totlen + 1 in
    if negb have_buf && negb mem_ok then ExportError ENOMEM
    else
      let out := concat (map (export_item sep) list) ++ [0] in
      if size <? Z.of_nat (length out) then ExportOverrun
      else ExportOk size (out ++ replicate (Z.to_nat (size - Z.of_nat (length out))) 0).

(** * Import *)

(** Whether [name] is to be processed; all its occurrences are cleared. *)
Definition drop_var_from_set (name : list Z) (vars : list (option (list Z)))
  : bool * list (option (list Z)) :=
  match vars with
  | [] => (true, vars)
  | _ =>
      (existsb (fun v => same_key name v) vars,
       map (fun v => if same_key name v then None else v) vars)
  end.

Fixpoint skip_blanks (s : list Z) : list Z :=
  match s with
  | c :: s' => if isblank c then skip_blanks s' else s
  | [] => []
  end.

(** Skip to the separator or the terminator. *)
Fixpoint skip_line (sep : Z) (s : list Z) : list Z :=
  match s with
  | c :: s' => if (c =? 0) || (c =? sep) then s else skip_line sep s'
  | [] => []
  end.

Fixpoint parse_name (sep : Z) (s : list Z) : list Z * list Z :=
  match s with
  | c :: s' =>
      if (c =? 61) || (c =? 0) || (c =? sep) then ([], s)
      else let (n, r) := parse_name sep s' in (c :: n, r)
  | [] => ([], [])
  end.

Fixpoint parse_value (sep : Z) (s : list Z) : list Z * list Z :=
  match s with
  | c :: s' =>
      if (c =? 0) || (c =? sep) then ([], s)
      else
        match s' with
        | c' :: s'' =>
            if (c =? 92) && negb (c' =? 0)
            then let (v, r) := parse_value sep s'' in (c' :: v, r)
            else let (v, r) := parse_value sep s' in (c :: v, r)
        | [] => ([c], [])
        end
  | [] => ([], [])
  end.

(** Drop the carriage returns in front of line feeds by moving the following
    bytes down; the bytes behind the new end stay.  [rest] is the part still
    to read, [kept] the part written, [ignored] the number dropped. *)
Fixpoint crlf_loop (rest : list Z) (room : Z) (kept : list Z) (ignored : Z) : list Z * Z :=
  match rest with
  | [] => (kept, ignored)
  | c :: rest' =>
      if (0 <? room) && negb (c =? 0) then
        if (c =? 13) && (1 <? room) && (rd rest' =? 10)
        then crlf_loop rest' (room - 1) kept (ignored + 1)
        else crlf_loop rest' (room - 1) (kept ++ [c]) ignored
      else (kept, ignored)
  end.

Section Importing.
Context `{EnvHooks}.
(** CONFIG_ENV_MIN_ENTRIES, CONFIG_ENV_MAX_ENTRIES and ENV_APPEND. *)
Variables (min_entries max_entries : Z) (env_append : bool).

(** How one round of the parser ends: with [return 0], or with the read
    pointer, the variables left and the table for the next. *)
Inductive import_step :=
  | StepFail (h : hsearch_data)
  | StepNext (s : list Z) (vars : list (option (list Z))) (h : hsearch_data)
  | StepStuck.

Definition step_delete (name : list Z) (s : list Z) (vars : list (option (list Z))) (flag : Z)
    (h : hsearch_data) : import_step :=
  let (wanted, vars') := drop_var_from_set name vars in
  if negb wanted then StepNext s vars' h
  else match hdelete_r name h flag with
       | Some (_, _, h') => StepNext s vars' h'
       | None => StepStuck
       end.

Definition step_insert (name value : list Z) (s : list Z) (vars : list (option (list Z)))
    (flag : Z) (h : hsearch_data) : import_step :=
  match name with
  | [] => StepFail h
  | _ =>
      let (wanted, vars') := drop_var_from_set name vars in
      if negb wanted then StepNext s vars' h
      else match hsearch_r true true name (Some value) ENV_ENTER h flag with
           | Some r => StepNext s vars' (sr_tab r)
           | None => StepStuck
           end
  end.

Definition import_round (sep flag : Z) (s : list Z) (vars : list (option (list Z)))
    (h : hsearch_data) : import_step :=
  let s := skip_blanks s in
  if rd s =? 35 then StepNext (tl (skip_line sep s)) vars h
  else
    let (name, s) := parse_name sep s in
    if (rd s =? 0) || (rd (tl s) =? 0) || (rd s =? sep) || (rd (tl s) =? sep) then
      step_delete name (if rd s =? 61 then tl (tl s) else tl s) vars flag h
    else
      let (value, s) := parse_value sep (tl s) in
      step_insert name value (tl s) vars flag h.

(** [do ... while (dp < data + size && *dp)]; [slack] is the number of bytes
    of the buffer behind [data + size]. *)
Fixpoint import_loop (fuel : nat) (sep flag slack : Z) (s : list Z)
    (vars : list (option (list Z))) (h : hsearch_data) : import_step :=
  match fuel with
  | O => StepStuck
  | S n =>
      match import_round sep flag s vars h with
      | StepNext s' vars' h' =>
          if (slack <? Z.of_nat (length s')) && negb (rd s' =? 0)
          then import_loop n sep flag slack s' vars' h'
          else StepNext s' vars' h'
      | r => r
      end
  end.

(** The variables asked for but not imported are removed. *)
Fixpoint delete_rest (vars : list (option (list Z))) (flag : Z) (h : hsearch_data)
  : option hsearch_data :=
  match vars with
  | [] => Some h
  | None :: vars' => delete_rest vars' flag h
  | Some v :: vars' =>
      match hdelete_r v h flag with
      | Some (_, _, h') => delete_rest vars' flag h'
      | None => None
      end
  end.

(** The return value and the table; [None]: a loop did not end within its
    fuel. *)
Definition himport_r (mem_ok tab_ok : bool) (h : hsearch_data) (env : list Z) (sep flag : Z)
    (crlf_is_lf : bool) (vars : list (list Z)) : option (Z * hsearch_data) :=
  if negb mem_ok then Some (0, h)
  else
    let size := Z.of_nat (length env) in
    let flag := if env_append then Z.lor flag H_NOCLEAR else flag in
    let h0 :=
      if (Z.land flag H_NOCLEAR =? 0) && (Z.of_nat (length vars) =? 0)
      then match table h with Some _ => hdestroy_r h | None => h end
      else h in
    let created :=
      match table h0 with
      | Some _ => Some (true, h0)
      | None =>
          let nent := Z.min (min_entries + size / 8) max_entries in
          match hcreate_r 20 tab_ok nent h0 with
          | Some (r, _, h1) => Some (negb (r =? 0), h1)
          | None => None
          end
      end in
    match created with
    | None => None
    | Some (false, h1) => Some (0, h1)
    | Some (true, h1) =>
        if size =? 0 then Some (1, h1)
        else
          let data := env ++ [0] in
          let '(data, slack) :=
            if crlf_is_lf then
              let (kept, ignored) := crlf_loop data size [] 0 in
              (store data 0 kept, 1 + ignored)
            else (data, 1) in
          match import_loop (S (length data)) sep flag slack data (map Some vars) h1 with
          | StepStuck => None
          | StepFail h2 => Some (0, h2)
          | StepNext _ vars' h2 =>
              if negb (Z.land flag H_NOCLEAR =? 0) then Some (1, h2)
              else match delete_rest vars' flag h2 with
                   | Some h3 => Some (1, h3)
                   | None => None
                   end
          end
    end.
End Importing.
