(* ===== verification/HashIOProps.v ===== *)
(** Exporting and importing the environment: the buffer [hexport_r] makes
    holds the sorted entries and [himport_r] reads them back. *)

From Stdlib Require Import Znumtheory.
From stdpp Require Import gmap.
From S2P Require Import Prelude Bytes Cstring CstringProps Qsort Hashtable HashSearch HashProps HashClaims HashIO.

(** * Export *)

Section Exporting.
Implicit Types (e : env_entry) (es : list env_entry).

Lemma escape_room sep data :
  sep <> 0 -> data_room sep data = Z.of_nat (length (escape sep data)).
Proof.
  intros Hs. unfold data_room. rewrite (proj2 (Z.eqb_neq _ _) Hs).
  induction data as [|c data IH]; [done|]. simpl. destruct (c =? 0); [done|]. simpl.
  destruct ((c =? sep) || (c =? 92)); simpl; lia.
Qed.

Lemma item_length sep e :
  sep <> 0 ->
  Z.of_nat (length (export_item sep e)) = strlen (key_of e) + data_room sep (data_of e) + 2.
Proof.
  intros Hs. unfold export_item. rewrite escape_room, strlen_cstr by done.
  rewrite length_app. simpl. rewrite length_app. simpl. lia.
Qed.

Definition items_of (sep : Z) es : list Z := concat (map (export_item sep) es).

Lemma pass1_room ns sep flag argv :
  sep <> 0 ->
  snd (export_pass1 ns sep flag argv)
  = Z.of_nat (length (items_of sep (fst (export_pass1 ns sep flag argv)))).
Proof.
  intros Hs. unfold items_of. induction ns as [|n ns IH]; [done|]. simpl.
  destruct (export_pass1 ns sep flag argv) as [l t]. simpl in IH.
  destruct (0 <? used n); [|done]. destruct (_ && _); [done|]. destruct (_ && _); [done|]. simpl.
  rewrite length_app, Nat2Z.inj_add, item_length by done. lia.
Qed.

Lemma items_perm sep es es' :
  es ≡ₚ es' -> length (items_of sep es) = length (items_of sep es').
Proof.
  unfold items_of.
  induction 1 as [|x l l' P IH|x y l|l1 l2 l3 P1 IH1 P2 IH2]; simpl; rewrite ?length_app; lia.
Qed.

Lemma cmpkey_total e1 e2 : 0 < cmpkey e1 e2 -> cmpkey e2 e1 <= 0.
Proof. unfold cmpkey. rewrite (strcmp_sym (key_of e1) (key_of e2)). lia. Qed.
Lemma cmpkey_trans e1 e2 e3 : cmpkey e1 e2 <= 0 -> cmpkey e2 e3 <= 0 -> cmpkey e1 e3 <= 0.
Proof. apply strcmp_trans. Qed.

Lemma sort_ok es :
  qsort cmpkey es ≡ₚ es /\ StronglySorted (fun x y => cmpkey x y <= 0) (qsort cmpkey es).
Proof. apply qsort_ok; [apply cmpkey_total|apply cmpkey_trans]. Qed.
End Exporting.

(** With a separator other than NUL the room [hexport_r] computes in its
    first pass is exactly what its second pass writes: it fails with ENOMEM
    when the buffer given is too small, and otherwise produces, without
    writing past the buffer, the selected entries as escaped name=value items
    in ascending order of their names, a terminator and zero padding. *)
Theorem hexport_r_exact (have_buf : bool) (h : hsearch_data) (sep flag size : Z) (argv : list (list Z)) :
  sep <> 0 -> 0 <= size ->
  let selected := fst (export_pass1 (tl (nodes h)) sep flag argv) in
  exists sorted, sorted ≡ₚ selected /\ StronglySorted (fun x y => cmpkey x y <= 0) sorted /\
    let out := concat (map (export_item sep) sorted) ++ [0] in
    let need := Z.of_nat (length out) in
    hexport_r true have_buf h sep flag size argv =
      if decide (size <> 0 /\ size < need) then ExportError ENOMEM
      else let sz := if decide (size = 0) then need else size in
           ExportOk sz (out ++ replicate (Z.to_nat (sz - need)) 0).
Proof.
  intros Hs Hz selected. exists (qsort cmpkey selected).
  destruct (sort_ok selected) as [P S]. split; [done|]. split; [done|].
  intros out need. unfold hexport_r. subst selected.
  pose proof (pass1_room (tl (nodes h)) sep flag argv Hs) as R.
  destruct (export_pass1 (tl (nodes h)) sep flag argv) as [l totlen]. simpl in R, P, out.
  assert (totlen + 1 = need) as En.
  { subst need out. rewrite length_app. simpl. fold (items_of sep (qsort cmpkey l)).
    rewrite (items_perm sep _ l) by done. lia. }
  assert (0 < need) by (subst need out; rewrite length_app; simpl; lia).
  rewrite En, andb_false_r. fold out. fold need.
  destruct (Z.eqb_spec size 0) as [->|N]; cbn [negb andb].
  - rewrite decide_False by lia. rewrite decide_True by done.
    destruct (Z.ltb_spec need need); [lia|done].
  - destruct (Z.ltb_spec size need); [by rewrite decide_True by lia|].
    rewrite decide_False by lia. rewrite decide_False by done. done.
Qed.

Lemma hexport_r_exact_witness :
  exists sorted, sorted ≡ₚ fst (export_pass1 (tl (nodes demo_tab)) 10 0 []) /\
    StronglySorted (fun x y => cmpkey x y <= 0) sorted.
Proof.
  destruct (hexport_r_exact true demo_tab 10 0 100 []) as (sorted & P & S & _); [lia|lia|].
  exists sorted. split; [exact P|exact S].
Defined.

(** With the NUL separator the room is too small when a value contains a
    backslash: the first pass counts the value once, the second one escapes
    the backslash and writes past the end of the buffer it allocated. *)
Theorem hexport_r_overrun :
  let h := match @hsearch_r no_hooks true true [97] (Some [98; 92; 99]) ENV_ENTER
                   (Htab (Some (replicate 6 node0)) 5 0) 0 with
           | Some r => sr_tab r | None => Htab None 0 0 end in
  hexport_r true false h 0 0 0 [] = ExportOverrun.
Proof. vm_compute. reflexivity. Qed.

(** * Import *)

(** Names an exported text can carry: not empty, without '=', separator or
    NUL, and not starting with a blank or '#'. *)
Definition good_name (sep : Z) (k : list Z) : Prop :=
  k <> [] /\ Forall (fun c => c <> 0 /\ c <> 61 /\ c <> sep) k /\
  isblank (rd k) = false /\ rd k <> 35.
Definition good_value (d : list Z) : Prop := d <> [] /\ plain d.

Lemma good_plain sep k : good_name sep k -> plain k.
Proof. intros (_ & F & _). eapply Forall_impl; [exact F|]. by intros c (H & _). Qed.

Section Parse.
Context (sep : Z).
Hypothesis Hsep : sep = 0 \/ sep = 10.

Lemma parse_name_item k r :
  Forall (fun c => c <> 0 /\ c <> 61 /\ c <> sep) k -> parse_name sep (k ++ 61 :: r) = (k, 61 :: r).
Proof.
  induction 1 as [|c k (H0 & H1 & H2) F IH]; [done|]. simpl. rewrite IH.
  by rewrite !(proj2 (Z.eqb_neq _ _)) by done.
Qed.

Lemma parse_value_escape d r :
  plain d -> parse_value sep (escape sep d ++ sep :: r) = (d, sep :: r).
Proof using Hsep.
  assert (forall c s, c <> 0 -> c <> sep -> c <> 92 ->
    parse_value sep (c :: s) = (c :: fst (parse_value sep s), snd (parse_value sep s))) as Plain.
  { intros c s H0 H1 H2. simpl. rewrite !(proj2 (Z.eqb_neq _ _)) by done. simpl.
    destruct s as [|c' s]; [done|]. by destruct (parse_value sep (c' :: s)). }
  assert (forall c s, c <> 0 ->
    parse_value sep (92 :: c :: s) = (c :: fst (parse_value sep s), snd (parse_value sep s))) as Esc.
  { intros c s H0. cbn [parse_value]. change (92 =? 0) with false.
    destruct (Z.eqb_spec 92 sep); [lia|]. change (92 =? 92) with true.
    rewrite (proj2 (Z.eqb_neq _ _) H0). cbn [orb andb negb]. by destruct (parse_value sep s). }
  induction 1 as [|c d Hc F IH].
  - simpl. rewrite Z.eqb_refl, orb_true_r. done.
  - simpl escape. rewrite (proj2 (Z.eqb_neq _ _) Hc).
    destruct (Z.eqb_spec c sep) as [E|N], (Z.eqb_spec c 92) as [E2|N2]; cbn [orb app];
      try (rewrite Esc by done; by rewrite IH).
    rewrite Plain by done. by rewrite IH.
Qed.

Lemma escape_first d : good_value d -> rd (escape sep d) <> 0 /\ rd (escape sep d) <> sep.
Proof using Hsep.
  intros [Hd Pd]. destruct d as [|c d]; [done|]. apply Forall_cons in Pd as [Hc _]. simpl.
  rewrite (proj2 (Z.eqb_neq _ _) Hc).
  destruct (Z.eqb_spec c sep), (Z.eqb_spec c 92); simpl; lia.
Qed.

(** One exported item is read back as its name and value. *)
Lemma import_round_item `{EnvHooks} flag k d e rest h :
  e_key e = Some k -> e_data e = Some d -> good_name sep k -> good_value d ->
  import_round sep flag (export_item sep e ++ rest) [] h = step_insert k d rest [] flag h.
Proof using Hsep.
  intros Ek Ed Gk Gd. pose proof (good_plain sep k Gk) as Pk. pose proof (proj2 Gd) as Pd.
  assert (export_item sep e ++ rest = k ++ 61 :: escape sep d ++ sep :: rest) as ->.
  { unfold export_item, key_of, data_of. rewrite Ek, Ed. simpl. rewrite cstr_plain by done.
    rewrite <- app_assoc. simpl. by rewrite <- app_assoc. }
  unfold import_round. destruct Gk as (Hk & F & B & C). destruct k as [|c k]; [done|].
  assert (skip_blanks ((c :: k) ++ 61 :: escape sep d ++ sep :: rest)
          = (c :: k) ++ 61 :: escape sep d ++ sep :: rest) as ->.
  { simpl in *. by rewrite B. }
  cbn [rd hd] in B, C.
  change (rd ((c :: k) ++ 61 :: escape sep d ++ sep :: rest)) with c.
  rewrite (proj2 (Z.eqb_neq _ _) C).
  rewrite (parse_name_item (c :: k)) by done. cbn [rd hd tl].
  change (61 =? 0) with false. cbn [app].
  destruct (escape_first d Gd) as [E1 E2].
  assert (rd (escape sep d ++ sep :: rest) = rd (escape sep d)) as Er
    by (destruct (escape sep d); [by destruct E1|done]).
  rewrite Er, !(proj2 (Z.eqb_neq _ _)) by (auto; lia). cbn [orb].
  rewrite parse_value_escape by done. done.
Qed.
End Parse.

Definition kv (e : env_entry) : list Z * list Z := (key_of e, data_of e).

Section Reload.
Context `{EnvHooks} (sep flag : Z).
Hypothesis Hsep : sep = 0 \/ sep = 10.

(** No hook refuses a change made with this flag. *)
Definition permissive : Prop :=
  (forall e v op, denied e v op flag = false) /\ (forall e k v op, do_callback e k v op flag = 0).
Hypothesis Hperm : permissive.

Definition good_entry (e : env_entry) : Prop :=
  exists k d, e_key e = Some k /\ e_data e = Some d /\ good_name sep k /\ good_value d.

Lemma enter_new (h : hsearch_data) (m : gmap (list Z) (list Z)) k d :
  rep h m -> plain k -> m !! k = None -> filled h < size h ->
  exists r, hsearch_r true true k (Some d) ENV_ENTER h flag = Some r /\
    rep (sr_tab r) (<[k := d]> m) /\ filled (sr_tab r) = filled h + 1 /\ size (sr_tab r) = size h.
Proof using Hperm.
  intros R Pk N Hf. destruct (enter_absent h m k d flag R Pk N) as (r & E & [S|S]); exists r.
  - split; [exact E|]. split; [apply S|]. split; apply S.
  - exfalso. destruct S as (_ & _ & [(_ & ? & _)|(e & _ & [[_ D]|[_ D]])]); [lia| |].
    + by rewrite (proj1 Hperm) in D.
    + by apply D, Hperm.
Qed.

Lemma item_first e rest : good_entry e -> rd (export_item sep e ++ rest) <> 0.
Proof using.
  intros (k & d & Ek & _ & Gk & _). unfold export_item, key_of. rewrite Ek. simpl.
  rewrite cstr_plain by (by eapply good_plain). destruct Gk as (Hk & F & _).
  destruct k as [|c k]; [done|]. by apply Forall_cons in F as [[? _] _].
Qed.

Lemma import_items es : forall fuel (h : hsearch_data) (m : gmap (list Z) (list Z)) z,
  es <> [] -> rep h m -> Forall good_entry es -> NoDup (map key_of es) ->
  Forall (fun e => m !! key_of e = None) es -> filled h + Z.of_nat (length es) <= size h ->
  (length es <= fuel)%nat ->
  exists h', import_loop fuel sep flag 1 (items_of sep es ++ 0 :: z) [] h = StepNext (0 :: z) [] h' /\
    rep h' (list_to_map (map kv es) ∪ m).
Proof using Hsep Hperm.
  induction es as [|e es IH]; intros fuel h m z Hne R G Nd Ab Hf Hl; [done|].
  destruct fuel as [|fuel]; [simpl in Hl; lia|]. cbn [import_loop].
  apply Forall_cons in G as [Ge G]. apply Forall_cons in Ab as [Ae Ab]. simpl in Hf, Nd.
  apply NoDup_cons in Nd as [Ne Nd]. pose proof Ge as (k & d & Ek & Ed & Gk & Gd).
  assert (key_of e = k /\ data_of e = d) as [Eko Edo] by (unfold key_of, data_of; by rewrite Ek, Ed).
  unfold items_of. simpl. rewrite <- app_assoc. fold (items_of sep es).
  rewrite (import_round_item sep Hsep flag k d) by done.
  unfold step_insert. destruct k as [|c k'] eqn:Ekk; [by destruct Gk|]. rewrite <- Ekk in *.
  simpl. rewrite Eko in Ae, Ne.
  destruct (enter_new h m k d R (good_plain sep k Gk) Ae ltac:(lia)) as (r & -> & R1 & F1 & S1).
  assert ((list_to_map (map kv es) : gmap (list Z) (list Z)) !! k = None) as Nk.
  { apply not_elem_of_list_to_map_1. intros I. apply Ne. rewrite <- list_fmap_compose in I. exact I. }
  set (after := if _ && _ then import_loop _ _ _ _ _ _ _ else _).
  cut (exists h', after = StepNext (0 :: z) [] h' /\ rep h' (list_to_map (map kv es) ∪ <[k := d]> m)).
  { intros (h' & E & R'). exists h'. split; [exact E|]. rewrite Eko, Edo.
    rewrite <- insert_union_l, insert_union_r by done. exact R'. }
  subst after. destruct es as [|e2 es2].
  - simpl. rewrite andb_false_r. exists (sr_tab r). split; [done|]. rewrite (left_id_L ∅ _). done.
  - apply Forall_cons in G as [G2 G].
    assert (rd (items_of sep (e2 :: es2) ++ 0 :: z) <> 0) as Hrd.
    { unfold items_of. simpl. rewrite <- app_assoc. by apply item_first. }
    assert (1 < Z.of_nat (length (items_of sep (e2 :: es2) ++ 0 :: z))) as Hlen.
    { rewrite length_app. simpl. destruct (items_of sep (e2 :: es2)); [by destruct Hrd|simpl; lia]. }
    destruct (Z.ltb_spec 1 (Z.of_nat (length (items_of sep (e2 :: es2) ++ 0 :: z)))); [|lia].
    rewrite (proj2 (Z.eqb_neq _ _) Hrd). simpl andb. cbn iota.
    apply (IH fuel (sr_tab r) (<[k := d]> m) z); auto.
    + apply Forall_forall. intros e' He'. rewrite Forall_forall in Ab.
      rewrite lookup_insert_ne; [by apply Ab|]. intros ->. apply Ne.
      apply list_elem_of_fmap. eauto.
    + rewrite F1, S1. simpl in *. lia.
    + simpl in *. lia.
Qed.

End Reload.

(** * The entries of a table *)

Definition live_entries (h : hsearch_data) : list env_entry :=
  map entry (filter (fun n => 0 < used n) (tl (nodes h))).

Lemma pass1_all ns sep : fst (export_pass1 ns sep 0 []) = map entry (filter (fun n => 0 < used n) ns).
Proof.
  induction ns as [|n ns IH]; [done|]. simpl. destruct (export_pass1 ns sep 0 []) as [l t]. simpl in IH.
  subst l. rewrite filter_cons. destruct (Z.ltb_spec 0 (used n)).
  - by rewrite decide_True.
  - by rewrite decide_False by lia.
Qed.

Section Live.
Context (h : hsearch_data) (m : gmap (list Z) (list Z)) (R : rep h m).
Let W : ht_wf h := proj1 R.

Lemma tl_nodes (j : nat) n :
  tl (nodes h) !! j = Some n -> node h (Z.of_nat (S j)) = n /\ 1 <= Z.of_nat (S j) <= size h.
Proof using R.
  intros E. pose proof (sh_len h (wf_shape h W)) as L. unfold node. rewrite Nat2Z.id.
  destruct (nodes h) as [|n0 t]; [done|]. simpl in *. pose proof (lookup_lt_Some _ _ _ E).
  split; [by apply list_lookup_total_correct|lia].
Qed.

Lemma live_entry_iff e :
  e ∈ live_entries h <-> exists i, live h i /\ entry (node h i) = e.
Proof using R.
  unfold live_entries. rewrite list_elem_of_fmap. setoid_rewrite list_elem_of_filter. split.
  - intros (n & -> & U & [j E]%list_elem_of_lookup). destruct (tl_nodes j n E) as [En Ej].
    exists (Z.of_nat (S j)). rewrite <- En in U. split; [by split|]. by rewrite En.
  - intros (i & [Hi U] & <-). exists (node h i). split; [done|]. split; [done|].
    pose proof (sh_len h (wf_shape h W)) as L. unfold node in *.
    destruct (nodes h) as [|n0 t]; [simpl in L; lia|]. simpl in L.
    apply (list_elem_of_lookup_2 _ (Z.to_nat (i - 1))). simpl.
    replace (Z.to_nat i) with (S (Z.to_nat (i - 1))) by lia. simpl.
    apply list_lookup_lookup_total_lt. lia.
Qed.

Lemma live_entry_kv e :
  e ∈ live_entries h -> exists k d, e_key e = Some k /\ e_data e = Some d /\ m !! k = Some d.
Proof using R.
  intros (i & L & <-)%live_entry_iff. destruct (wf_live h W i L) as (k & d & Ek & Ed & _).
  exists k, d. split; [done|]. split; [done|]. apply R. exists i. auto.
Qed.

Lemma live_keys_nodup : NoDup (map key_of (live_entries h)).
Proof using R.
  unfold live_entries.
  assert (forall (t : list env_entry_node),
    (forall (i j : nat) x y, t !! i = Some x -> t !! j = Some y -> 0 < used x -> 0 < used y ->
       key_of (entry x) = key_of (entry y) -> i = j) ->
    NoDup (map key_of (map entry (filter (fun n => 0 < used n) t)))) as Gen.
  { induction t as [|n t IH]; intros Inj; [constructor|].
    assert (NoDup (map key_of (map entry (filter (fun n => 0 < used n) t)))) as IH'.
    { apply IH. intros i j x y Hi Hj Ux Uy E.
      assert (S i = S j) as [= ->]; [|done]. by apply (Inj (S i) (S j) x y). }
    rewrite filter_cons. case_decide as U; [|done]. simpl. apply NoDup_cons. split; [|done].
    intros (e & Ee & (x & -> & I)%list_elem_of_fmap)%list_elem_of_fmap.
    apply list_elem_of_filter in I as [Ux [j Hj]%list_elem_of_lookup].
    specialize (Inj 0%nat (S j) n x eq_refl Hj U Ux Ee). discriminate. }
  apply Gen. intros i j x y Hi Hj Ux Uy E.
  destruct (tl_nodes i x Hi) as [Ex Bi], (tl_nodes j y Hj) as [Ey Bj].
  assert (live h (Z.of_nat (S i))) as Li by (split; [done|by rewrite Ex]).
  assert (live h (Z.of_nat (S j))) as Lj by (split; [done|by rewrite Ey]).
  assert (Z.of_nat (S i) = Z.of_nat (S j)); [|lia]. apply (wf_uniq h W); auto.
  destruct (wf_live h W _ Li) as (k1 & d1 & E1 & _), (wf_live h W _ Lj) as (k2 & d2 & E2 & _).
  rewrite Ex in E1 |- *. rewrite Ey in E2 |- *. unfold key_of in E. rewrite E1, E2 in *. simpl in E. congruence.
Qed.

Lemma live_map es : es ≡ₚ live_entries h -> list_to_map (map kv es) = m.
Proof using R.
  intros P. assert (NoDup (map kv es).*1) as Nd.
  { rewrite <- list_fmap_compose. change (NoDup (map key_of es)). rewrite P. apply live_keys_nodup. }
  apply map_eq. intros k. apply option_eq. intros d.
  rewrite <- elem_of_list_to_map by done. rewrite list_elem_of_fmap. split.
  - intros (e & [= -> ->] & I). rewrite P in I. destruct (live_entry_kv e I) as (k & d & E1 & E2 & Hm).
    unfold key_of, data_of. by rewrite E1, E2.
  - intros (i & L & Ek & Ed)%(proj2 R). exists (entry (node h i)). unfold kv, key_of, data_of.
    rewrite Ek, Ed. split; [done|]. rewrite P. apply live_entry_iff. eauto.
Qed.
End Live.

Lemma live_count (h : hsearch_data) : ht_wf h -> Z.of_nat (length (live_entries h)) = filled h.
Proof.
  intros W. rewrite (wf_filled h W). unfold live_entries. rewrite length_map.
  pose proof (wf_zero h W) as Z0. unfold node in Z0. destruct (nodes h) as [|n0 t]; [done|].
  change (used n0 = USED_FREE) in Z0. rewrite filter_cons_False by (unfold USED_FREE in Z0; lia). done.
Qed.

Lemma hexport_ok_buf (mem_ok have_buf : bool) (h : hsearch_data) (sep size_arg sz : Z) (buf : list Z) :
  hexport_r mem_ok have_buf h sep 0 size_arg [] = ExportOk sz buf ->
  exists es n, es ≡ₚ live_entries h /\ buf = items_of sep es ++ 0 :: replicate n 0.
Proof.
  unfold hexport_r. pose proof (pass1_all (tl (nodes h)) sep) as P.
  destruct (export_pass1 (tl (nodes h)) sep 0 []) as [l totlen]. simpl in P. subst l.
  destruct (_ && _); [done|]. destruct (_ && _); [done|].
  set (out := concat _ ++ [0]). set (s := if negb (size_arg =? 0) then size_arg else _).
  destruct (s <? _); [done|]. intros [= <- <-].
  exists (qsort cmpkey (live_entries h)). eexists. split; [apply sort_ok|].
  subst out. unfold items_of, live_entries. rewrite <- app_assoc. simpl. reflexivity.
Qed.

Section RoundTrip.
Context `{EnvHooks} (sep flag : Z) (Hsep : sep = 0 \/ sep = 10) (Hperm : permissive flag).

(** A buffer without entries deletes the variable without a name. *)
Lemma import_no_items (fuel n : nat) (h : hsearch_data) :
  rep h ∅ -> import_loop (S fuel) sep flag 1 (0 :: replicate n 0) [] h = StepNext (replicate n 0) [] h.
Proof using.
  intros R. cbn [import_loop].
  assert (import_round sep flag (0 :: replicate n 0) [] h = StepNext (replicate n 0) [] h) as ->.
  { unfold import_round. simpl. unfold step_delete. simpl.
    assert (hdelete_r [] h flag = Some (- ENOENT, Some ESRCH, h)) as ->; [|done].
    unfold hdelete_r. rewrite find_miss; [done|apply R|constructor|]. by apply (rep_absent h ∅). }
  destruct n; simpl; [done|]. by rewrite andb_false_r.
Qed.

Lemma import_items_all (es : list env_entry) (fuel n : nat) (h : hsearch_data) :
  rep h ∅ -> Forall (good_entry sep) es -> NoDup (map key_of es) -> filled h = 0 ->
  Z.of_nat (length es) <= size h -> (length es <= fuel)%nat ->
  exists s h', import_loop (S fuel) sep flag 1 (items_of sep es ++ 0 :: replicate n 0) [] h
               = StepNext s [] h' /\ rep h' (list_to_map (map kv es)).
Proof using Hsep Hperm.
  intros R G Nd F Hs Hf. destruct es as [|e es].
  - exists (replicate n 0), h. split; [by apply import_no_items|exact R].
  - destruct (import_items sep flag Hsep Hperm (e :: es) (S fuel) h ∅ (replicate n 0))
      as (h' & E & R'); auto; [|lia|].
    { apply Forall_forall. intros x _. apply lookup_empty. }
    exists (0 :: replicate n 0), h'. split; [exact E|]. by rewrite (right_id_L ∅ _) in R'.
Qed.
End RoundTrip.

(** Importing a buffer of items builds the map of their names and values. *)
Lemma import_buffer `{EnvHooks} (old : hsearch_data) (es : list env_entry)
    (sep flag min_entries max_entries : Z) (n : nat) :
  sep = 0 \/ sep = 10 -> permissive flag -> Z.land flag H_NOCLEAR = 0 ->
  Forall (good_entry sep) es -> NoDup (map key_of es) ->
  let buf := items_of sep es ++ 0 :: replicate n 0 in
  let nent := Z.min (min_entries + Z.of_nat (length buf) / 8) max_entries in
  4 <= nent <= 1024 -> Z.of_nat (length es) <= nent ->
  exists h', himport_r min_entries max_entries false true true old buf sep flag false [] = Some (1, h') /\
    rep h' (list_to_map (map kv es)).
Proof.
  intros Hsep Hperm Hfl G Nd buf nent Hn Hc.
  unfold himport_r. cbv zeta. rewrite Hfl. cbn [negb length Z.of_nat Z.eqb andb map].
  change (Z.of_nat 0 =? 0) with true. cbn iota.
  set (h0 := match table old with Some _ => _ | None => _ end).
  assert (table h0 = None) as T0 by (subst h0; by destruct (table old) eqn:E).
  rewrite T0. fold nent.
  destruct (hcreate_ok nent h0 Hn) as [Hcr _]. destruct (Hcr T0) as [(h1 & -> & R1 & S1) _].
  change (negb (1 =? 0)) with true. cbn iota.
  destruct (Z.eqb_spec (Z.of_nat (length buf)) 0) as [E|_].
  { subst buf. rewrite length_app in E. simpl in E. lia. }
  assert (filled h1 = 0) as F1.
  { rewrite <- (live_count h1 (proj1 R1)).
    destruct (live_entries h1) as [|e l] eqn:El; [done|].
    destruct (live_entry_kv h1 ∅ R1 e) as (k & d & _ & _ & Hm); [rewrite El; left|].
    by rewrite lookup_empty in Hm. }
  destruct (import_items_all sep flag Hsep Hperm es (length (buf ++ [0])) (S n) h1 R1)
    as (s & h2 & E & R2); auto; [lia| |].
  - subst buf. rewrite !length_app. simpl.
    assert (length es <= length (items_of sep es))%nat; [|lia].
    unfold items_of. clear. induction es as [|e es IH]; [done|]. simpl.
    rewrite length_app. unfold export_item at 1. rewrite length_app. simpl. lia.
  - replace (buf ++ [0]) with (items_of sep es ++ 0 :: replicate (S n) 0) in *
      by (subst buf; rewrite <- app_assoc; simpl; by rewrite <- replicate_cons_app).
    rewrite E. exists h2. cbn [delete_rest]. by split.
Qed.

Lemma export_import_ok `{EnvHooks} (h old : hsearch_data) (m : gmap (list Z) (list Z))
    (sep flag size_arg sz min_entries max_entries : Z) (have_buf : bool) (buf : list Z) :
  rep h m -> sep = 0 \/ sep = 10 -> permissive flag -> Z.land flag H_NOCLEAR = 0 ->
  (forall k d, m !! k = Some d -> good_name sep k /\ good_value d) ->
  hexport_r true have_buf h sep 0 size_arg [] = ExportOk sz buf ->
  let nent := Z.min (min_entries + Z.of_nat (length buf) / 8) max_entries in
  4 <= nent <= 1024 -> filled h <= nent ->
  exists h', himport_r min_entries max_entries false true true old buf sep flag false [] = Some (1, h') /\
    rep h' m.
Proof.
  intros R Hsep Hperm Hfl Hgood Hex nent Hn Hc.
  destruct (hexport_ok_buf _ _ _ _ _ _ _ Hex) as (es & n & P & ->).
  destruct (import_buffer old es sep flag min_entries max_entries n) as (h' & E & R'); auto.
  - apply Forall_forall. intros e He. rewrite P in He.
    destruct (live_entry_kv h m R e He) as (k & d & Ek & Ed & Hm). exists k, d. by split; [|split; [|apply Hgood]].
  - rewrite P. by apply (live_keys_nodup h m).
  - assert (length es = length (live_entries h)) as -> by (by rewrite P).
    rewrite (live_count h (proj1 R)). exact Hc.
  - exists h'. split; [exact E|]. by rewrite (live_map h m R es P) in R'.
Qed.

(** C19: Importing an export restores the environment: whatever buffer
    [hexport_r] produces for all variables with a newline or NUL separator,
    [himport_r] accepts it, replaces whatever table there was and ends with a
    table that represents the same map.  (Hypotheses: names and values that the
    text format can carry, hooks that allow the import, and a table large
    enough for the entries.) *)
Theorem export_import_roundtrip `{EnvHooks} (h old : hsearch_data) (m : gmap (list Z) (list Z))
    (sep flag size_arg sz min_entries max_entries : Z) (have_buf : bool) (buf : list Z) :
  rep h m -> sep = 0 \/ sep = 10 -> permissive flag -> Z.land flag H_NOCLEAR = 0 ->
  (forall k d, m !! k = Some d -> good_name sep k /\ good_value d) ->
  hexport_r true have_buf h sep 0 size_arg [] = ExportOk sz buf ->
  let nent := Z.min (min_entries + Z.of_nat (length buf) / 8) max_entries in
  4 <= nent <= 1024 -> filled h <= nent ->
  exists h', himport_r min_entries max_entries false true true old buf sep flag false [] = Some (1, h') /\
    rep h' m.
Proof. apply export_import_ok. Qed.

Lemma export_import_roundtrip_witness :
  exists h', @himport_r no_hooks 64 512 false true true (Htab None 0 0)
      [118; 97; 114; 65; 61; 49; 10; 118; 97; 114; 66; 61; 50; 50; 10; 118; 97; 114; 67; 61; 51; 92; 92;
       92; 10; 10; 0] 10 0 false [] = Some (1, h') /\ rep h' demo_map.
Proof.
  apply (@export_import_roundtrip no_hooks demo_tab (Htab None 0 0) demo_map 10 0 0 27 64 512 false).
  - exact demo_rep.
  - by right.
  - split; [done|]. intros e k v op. unfold do_callback. by destruct (e_callback e).
  - reflexivity.
  - intros k d. unfold demo_map. rewrite !lookup_insert_Some, lookup_singleton_Some.
    assert (forall c, c <> 0 -> c <> 61 -> c <> 10 -> good_name 10 (demo_key c)) as G.
    { intros c H0 H1 H2. split; [done|]. split; [repeat constructor; done|]. split; [reflexivity|].
      vm_compute. discriminate. }
    intros [[<- <-]|[_ [[<- <-]|[_ [<- <-]]]]]; (split; [by apply G|]);
      (split; [discriminate|repeat constructor; discriminate]).
  - vm_compute. reflexivity.
  - vm_compute. split; discriminate.
  - vm_compute. discriminate.
Defined.

(** Removing carriage returns leaves the old end of the text in the buffer
    and the parser does not stop at the new end: importing the lines a=1 and
    b=2 separated by CR LF, the last one not ended by a line feed, gives b the
    value 22. *)
Theorem himport_r_crlf_tail :
  match @himport_r no_hooks 64 512 false true true (Htab None 0 0)
          [97; 61; 49; 13; 10; 98; 61; 50] 10 0 true [] with
  | Some (ret, h) => ret = 1 /\
      map kv (fst (export_pass1 (tl (nodes h)) 10 0 [])) = [([97], [49]); ([98], [50; 50])]
  | None => False
  end.
Proof. vm_compute. split; reflexivity. Qed.
