(* ===== verification/Rtc.v ===== *)
(** Calendar time (lib/rtc-lib.c, lib/date.c, include/rtc.h, include/bcd.h).

    [rtc_to_tm] turns seconds since 1970 into a Gregorian date and
    [rtc_mktime] goes back; [rtc_calc_weekday] finds the day of the week from
    the date alone.  The theorems hold for every time whose day count fits an
    int, which is past the year five million. *)

From S2P Require Import Prelude.

Record rtc_time := Tm {
  tm_sec : Z; tm_min : Z; tm_hour : Z; tm_mday : Z; tm_mon : Z; tm_year : Z;
  tm_wday : Z; tm_yday : Z; tm_isdst : Z
}.

(** C division and remainder, which truncate towards zero. *)
Definition cdiv (a b : Z) : Z := Z.quot a b.
Definition crem (a b : Z) : Z := Z.rem a b.

Definition is_leap_year (year : Z) : bool :=
  ((year mod 4 =? 0) && negb (year mod 100 =? 0)) || (year mod 400 =? 0).

Definition rtc_days_in_month : list Z := [31; 28; 31; 30; 31; 30; 31; 31; 30; 31; 30; 31].

Definition LEAPS_THRU_END_OF (y : Z) : Z := y / 4 - y / 100 + y / 400.

(** Months count from 0 here. *)
Definition rtc_month_days (month year : Z) : Z :=
  nth (Z.to_nat month) rtc_days_in_month 0 + (if is_leap_year year && (month =? 1) then 1 else 0).

(** [while (days < 0)]; [None]: not within the fuel. *)
Fixpoint year_loop (fuel : nat) (year days : Z) : option (Z * Z) :=
  if days <? 0 then
    match fuel with
    | O => None
    | S n => let year := u32 (year - 1) in
             year_loop n year (s32 (days + 365 + (if is_leap_year year then 1 else 0)))
    end
  else Some (year, days).

(** [for (month = 0; month < 11; month++)], with [n] rounds left. *)
Fixpoint month_loop (n : nat) (month year days : Z) : Z * Z :=
  match n with
  | O => (month, days)
  | S n' =>
      let newdays := days - rtc_month_days month year in
      if newdays <? 0 then (month, days) else month_loop n' (month + 1) year newdays
  end.

(** At most about 3900 rounds are needed for a 31-bit day count. *)
Definition year_fuel : nat := Z.to_nat 5000.

Definition rtc_to_tm (time : Z) : option rtc_time :=
  let secs := time mod 86400 in
  let days := s32 (time / 86400) in
  let wday := crem (days + 4) 7 in
  let year := u32 (1970 + cdiv days 365) in
  let days := s32 (days - u32 ((year - 1970) * 365 + LEAPS_THRU_END_OF (year - 1)
                               - LEAPS_THRU_END_OF (1970 - 1))) in
  match year_loop year_fuel year days with
  | None => None
  | Some (year, days) =>
      let (month, mdays) := month_loop 11 0 year days in
      let hour := secs / 3600 in
      let secs := secs - hour * 3600 in
      let min := secs / 60 in
      Some (Tm (secs - min * 60) min hour (mdays + 1) (month + 1) (s32 year) wday (days + 1) 0)
  end.

Definition month_offset : list Z := [0; 31; 59; 90; 120; 151; 181; 212; 243; 273; 304; 334].

(** The return value and the structure. *)
Definition rtc_calc_weekday (tm : rtc_time) : Z * rtc_time :=
  if tm_year tm <? 1753 then (-1, tm)
  else
    let last_year := tm_year tm - 1 in
    let leaps_to_date := cdiv last_year 4 - cdiv last_year 100 + cdiv last_year 400 in
    let day := if (crem (tm_year tm) 4 =? 0)
                  && (negb (crem (tm_year tm) 100 =? 0) || (crem (tm_year tm) 400 =? 0))
                  && (2 <? tm_mon tm) then 1 else 0 in
    let day := day + last_year * 365 + leaps_to_date
               + nth (Z.to_nat (tm_mon tm - 1)) month_offset 0 + tm_mday tm in
    (0, Tm (tm_sec tm) (tm_min tm) (tm_hour tm) (tm_mday tm) (tm_mon tm) (tm_year tm)
           (crem day 7) (tm_yday tm) (tm_isdst tm)).

(** [unsigned long] and [time64_t] are 64 bits wide. *)
Definition rtc_mktime (tm : rtc_time) : Z :=
  let mon := tm_mon tm - 2 in
  let year := tm_year tm in
  let (mon, year) := if mon <=? 0 then (mon + 12, year - 1) else (mon, year) in
  let days := u64 (cdiv year 4 - cdiv year 100 + cdiv year 400 + cdiv (367 * mon) 12 + tm_mday tm
                   + year * 365 - 719499) in
  let hours := s64 (u64 (days * 24) + tm_hour tm) in
  (hours * 60 + tm_min tm) * 60 + tm_sec tm.

Definition mktime64 (year mon day hour min sec : Z) : Z :=
  rtc_mktime (Tm sec min hour day mon year 0 0 0).

Definition bcd2bin (val : Z) : Z := Z.land val 15 + Z.shiftr (Z.land val 255) 4 * 10.
Definition bin2bcd (val : Z) : Z := Z.lor (Z.shiftl (val / 10) 4) (val mod 10).

Example rtc_epoch : rtc_to_tm 951827696 = Some (Tm 56 34 12 29 2 2000 2 60 0).
Proof. vm_compute. reflexivity. Qed.

(** * Days and years *)

Lemma leap_step y :
  LEAPS_THRU_END_OF y - LEAPS_THRU_END_OF (y - 1) = if is_leap_year y then 1 else 0.
Proof.
  unfold LEAPS_THRU_END_OF, is_leap_year. repeat case_Z; simpl; zlia.
Qed.

(** Days from the epoch to the first of January. *)
Definition year_start (y : Z) : Z :=
  (y - 1970) * 365 + LEAPS_THRU_END_OF (y - 1) - LEAPS_THRU_END_OF 1969.

Lemma year_start_S y :
  year_start (y + 1) = year_start y + 365 + (if is_leap_year y then 1 else 0).
Proof. unfold year_start. replace (y + 1 - 1) with y by lia. rewrite <- leap_step. lia. Qed.

Lemma leaps_bound y : 0 <= y -> 0 <= LEAPS_THRU_END_OF y <= y / 4.
Proof. intros. unfold LEAPS_THRU_END_OF. zlia. Qed.

Lemma leap_bit y : 0 <= (if is_leap_year y then 1 else 0) <= 1.
Proof. destruct (is_leap_year y); lia. Qed.

(** The loop steps back to the year that holds the day. *)
Lemma year_loop_ok fuel : forall year t,
  1970 <= year <= 6000000 -> 0 <= t -> t < year_start (year + 1) ->
  year_start year - t <= 365 * Z.of_nat fuel ->
  -2000000 <= t - year_start year ->
  exists y, year_loop fuel year (t - year_start year) = Some (y, t - year_start y) /\
    year_start y <= t < year_start (y + 1) /\ 1970 <= y <= year.
Proof.
  induction fuel as [|fuel IH]; intros year t Hy Ht Hhi Hf Hlo; cbn [year_loop];
    (destruct (Z.ltb_spec (t - year_start year) 0); [|exists year; repeat split; lia]); [lia|].
  assert (year <> 1970) as Hn by (intros ->; change (year_start 1970) with 0 in *; lia).
  pose proof (year_start_S (year - 1)) as S. replace (year - 1 + 1) with year in S by lia.
  pose proof (leap_bit (year - 1)). rewrite u32_small by lia. rewrite s32_small by lia.
  replace (t - year_start year + 365 + _) with (t - year_start (year - 1)) by lia.
  destruct (IH (year - 1) t) as (y & -> & B & R); [lia|lia|replace (year - 1 + 1) with year by lia; lia|lia|lia|].
  exists y. repeat split; lia.
Qed.

(** The day of the year of day [md] of month [m], both from 0. *)
Definition day_of_year (year m md : Z) : Z :=
  nth (Z.to_nat m) month_offset 0 + (if is_leap_year year && (2 <=? m) then 1 else 0) + md.

Lemma month_loop_ok year d :
  0 <= d < 365 + (if is_leap_year year then 1 else 0) ->
  exists m md, month_loop 11 0 year d = (m, md) /\ 0 <= m <= 11 /\
    0 <= md < rtc_month_days m year /\ d = day_of_year year m md.
Proof.
  unfold day_of_year, rtc_month_days. intros Hd. cbn [month_loop].
  repeat match goal with
  | |- context [if ?x <? 0 then _ else _] => destruct (Z.ltb_spec x 0)
  end; unfold rtc_month_days, rtc_days_in_month in *; simpl in *;
    destruct (is_leap_year year); simpl in *;
    do 2 eexists; (split; [reflexivity|]); simpl; lia.
Qed.

(** The day number rtc_mktime computes, before scaling to seconds. *)
Lemma mktime_days year m md :
  1970 <= year -> 0 <= m <= 11 ->
  let mon := m + 1 - 2 in
  let (mon, y) := if mon <=? 0 then (mon + 12, year - 1) else (mon, year) in
  cdiv y 4 - cdiv y 100 + cdiv y 400 + cdiv (367 * mon) 12 + (md + 1) + y * 365 - 719499
  = year_start year + day_of_year year m md.
Proof.
  intros Hy Hm. unfold day_of_year, year_start.
  change (LEAPS_THRU_END_OF 1969) with 477.
  pose proof (leap_step year) as L.
  assert (m = 0 \/ m = 1 \/ m = 2 \/ m = 3 \/ m = 4 \/ m = 5 \/ m = 6 \/ m = 7 \/ m = 8 \/ m = 9
          \/ m = 10 \/ m = 11) as C by lia.
  assert (forall y, 0 <= y -> cdiv y 4 - cdiv y 100 + cdiv y 400 = LEAPS_THRU_END_OF y) as Q.
  { intros y H. unfold cdiv, LEAPS_THRU_END_OF. by rewrite !Z.quot_div_nonneg by lia. }
  repeat destruct C as [->|C]; try subst m; simpl;
    rewrite Q by lia; rewrite ?andb_false_r, ?andb_true_r;
    match goal with |- context [cdiv ?a 12] => let v := eval vm_compute in (cdiv a 12) in change (cdiv a 12) with v end;
    destruct (is_leap_year year); simpl; lia.
Qed.

(** What [rtc_to_tm] computes for a time of [t] days and [s] seconds. *)
Lemma rtc_to_tm_ok time :
  0 <= time < 86400 * 2147483648 ->
  exists y m md, let s := time mod 86400 in
    rtc_to_tm time = Some (Tm (s mod 60) (s / 60 mod 60) (s / 3600) (md + 1) (m + 1) y
                              ((time / 86400 + 4) mod 7) (day_of_year y m md + 1) 0) /\
    1970 <= y <= 5885486 /\ 0 <= m <= 11 /\ 0 <= md < rtc_month_days m y /\
    time / 86400 = year_start y + day_of_year y m md.
Proof.
  intros Ht. set (t := time / 86400). assert (0 <= t < 2147483648) as Bt by (subst t; zlia).
  set (s := time mod 86400). assert (0 <= s < 86400) as Bs by (apply Z.mod_pos_bound; lia).
  set (y0 := 1970 + t / 365).
  assert (1970 <= y0 <= 5885486) as B0 by (subst y0; zlia).
  pose proof (leaps_bound (y0 - 1) ltac:(lia)) as L0. pose proof (leaps_bound y0 ltac:(lia)) as L1.
  assert (t < year_start (y0 + 1)) as Hi.
  { unfold year_start. change (LEAPS_THRU_END_OF 1969) with 477. replace (y0 + 1 - 1) with y0 by lia.
    assert (477 <= LEAPS_THRU_END_OF y0) by (unfold LEAPS_THRU_END_OF; zlia). subst y0. zlia. }
  assert (year_start y0 - t <= 1471371 /\ 0 <= year_start y0 < 4294967296) as [Lo Bd].
  { unfold year_start. change (LEAPS_THRU_END_OF 1969) with 477.
    assert (477 <= LEAPS_THRU_END_OF (y0 - 1)) by (unfold LEAPS_THRU_END_OF; zlia). subst y0. zlia. }
  destruct (year_loop_ok year_fuel y0 t) as (y & E & By & Ry); [lia|lia|done| |lia|].
  { unfold year_fuel. rewrite Z2Nat.id by lia. lia. }
  rewrite year_start_S in By.
  destruct (month_loop_ok y (t - year_start y)) as (m & md & Em & Bm & Bmd & Ed); [lia|].
  exists y, m, md. cbv zeta. fold s. unfold rtc_to_tm. cbv zeta. fold s t.
  rewrite (s32_small t) by lia. unfold cdiv, crem.
  rewrite Z.quot_div_nonneg, Z.rem_mod_nonneg by lia. fold y0. rewrite (u32_small y0) by lia.
  change (LEAPS_THRU_END_OF (1970 - 1)) with (LEAPS_THRU_END_OF 1969). fold (year_start y0).
  rewrite (u32_small (year_start y0)), (s32_small (t - year_start y0)) by lia.
  rewrite E, Em, (s32_small y) by lia. split.
  - rewrite Ed. f_equal. f_equal; zlia.
  - split; [lia|]. split; [lia|]. split; [done|lia].
Qed.

(** Converting a time to a date and back gives the time: for every number
    of seconds whose day count fits an int, [rtc_to_tm] ends, its fields are
    those of a valid date and time of day, and [rtc_mktime] of it is the
    number again. *)
Theorem rtc_roundtrip (time : Z) :
  0 <= time < 86400 * 2147483648 ->
  exists tm, rtc_to_tm time = Some tm /\ rtc_mktime tm = time /\
    0 <= tm_sec tm < 60 /\ 0 <= tm_min tm < 60 /\ 0 <= tm_hour tm < 24 /\
    1 <= tm_mon tm <= 12 /\ 1 <= tm_mday tm <= rtc_month_days (tm_mon tm - 1) (tm_year tm) /\
    1970 <= tm_year tm.
Proof.
  intros Ht. destruct (rtc_to_tm_ok time Ht) as (y & m & md & E & By & Bm & Bd & Et).
  eexists; split; [exact E|]. simpl.
  assert (0 <= time mod 86400 < 86400) as Bs by (apply Z.mod_pos_bound; lia).
  replace (m + 1 - 1) with m by lia. split; [|zlia].
  unfold rtc_mktime. simpl. pose proof (mktime_days y m md ltac:(lia) Bm) as M. cbv zeta in M.
  destruct (m + 1 - 2 <=? 0); rewrite M, <- Et;
    (assert (0 <= time / 86400 < 2147483648) by zlia);
    rewrite (u64_small (time / 86400)) by (unfold U64_MAX; lia);
    rewrite (u64_small (time / 86400 * 24)) by (unfold U64_MAX; lia);
    (assert (forall x, 0 <= x < 9223372036854775808 -> s64 x = x) as S64 by (intros; wrap_lia));
    rewrite S64 by zlia; zlia.
Qed.

Lemma rtc_roundtrip_witness :
  exists tm, rtc_to_tm 1709210096 = Some tm /\ rtc_mktime tm = 1709210096.
Proof.
  destruct (rtc_roundtrip 1709210096) as (tm & E & M & _); [lia|]. exists tm. split; [exact E|exact M].
Defined.

(** The two ways to find the day of the week agree: [rtc_calc_weekday],
    which looks at the date only, gives the day [rtc_to_tm] counted from
    Thursday, the first of January 1970. *)
Theorem rtc_weekday_agrees (time : Z) :
  0 <= time < 86400 * 2147483648 ->
  exists tm, rtc_to_tm time = Some tm /\ rtc_calc_weekday tm = (0, tm).
Proof.
  intros Ht. destruct (rtc_to_tm_ok time Ht) as (y & m & md & E & By & Bm & Bd & Et).
  eexists; split; [exact E|]. unfold rtc_calc_weekday. simpl tm_year. simpl tm_mon. simpl tm_mday.
  destruct (Z.ltb_spec y 1753); [lia|].
  cbn [tm_sec tm_min tm_hour tm_mday tm_mon tm_year tm_wday tm_yday tm_isdst].
  f_equal. f_equal. rewrite Et.
  unfold cdiv, crem. rewrite !(Z.quot_div_nonneg (y - 1)) by lia.
  rewrite !(Z.rem_mod_nonneg y) by lia.
  replace (m + 1 - 1) with m by lia. unfold day_of_year, year_start.
  change (LEAPS_THRU_END_OF 1969) with 477. unfold LEAPS_THRU_END_OF.
  assert (0 <= nth (Z.to_nat m) month_offset 0 <= 334) as Bo.
  { assert (m = 0 \/ m = 1 \/ m = 2 \/ m = 3 \/ m = 4 \/ m = 5 \/ m = 6 \/ m = 7 \/ m = 8 \/ m = 9
            \/ m = 10 \/ m = 11) as C by lia. repeat destruct C as [->|C]; try subst m; simpl; lia. }
  set (o := nth _ _ _) in *.
  assert ((y mod 4 =? 0) && (negb (y mod 100 =? 0) || (y mod 400 =? 0)) = is_leap_year y) as ->
    by (unfold is_leap_year; repeat case_Z; simpl; zlia || done).
  replace (2 <? m + 1) with (2 <=? m) by (repeat case_Z; lia).
  assert (0 <= (if is_leap_year y && (2 <=? m) then 1 else 0) <= 1) as Bl by (destruct (_ && _); lia).
  set (b := if is_leap_year y && _ then 1 else 0) in *. clearbody o b. clear -Bo Bl Bd By Bm.
  rewrite Z.rem_mod_nonneg by zlia. rewrite <- (Z_mod_plus_full _ (-102737) 7). f_equal. lia.
Qed.

Lemma rtc_weekday_agrees_witness :
  exists tm, rtc_to_tm 1709210096 = Some tm /\ rtc_calc_weekday tm = (0, tm).
Proof. apply (rtc_weekday_agrees 1709210096). lia. Defined.

(** Binary-coded decimal conversion is undone by its inverse for every
    value of two digits. *)
Lemma bcd_roundtrip (val : Z) :
  0 <= val < 100 -> bcd2bin (bin2bcd val) = val.
Proof.
  intros H.
  assert (forallb (fun v => bcd2bin (bin2bcd v) =? v) (map Z.of_nat (seq 0 100)) = true) as F
    by (vm_compute; reflexivity).
  rewrite forallb_forall in F. apply Z.eqb_eq, F, in_map_iff.
  exists (Z.to_nat val). rewrite in_seq. lia.
Qed.
