(* ===== verification/Strto.v ===== *)
(** Numbers in strings (lib/strto.c).

    Strings are read as in [Cstring]; the pointer stored in [*endp] is the
    rest of the string from it on.  [ulong] and [unsigned long long] are 64
    bits wide. *)

From S2P Require Import Prelude Bytes Cstring CstringProps.

(** The string behind a radix prefix and the base. *)
Definition parse_integer_fixup_radix (s : list Z) (base : Z) : list Z * Z :=
  let '(s, base) :=
    if rd s =? 48 then
      let ch := tolower (rd (tl s)) in
      if ch =? 120 then (tl (tl s), 16)
      else if base =? 0 then (s, 8) else (s, base)
    else (s, base) in
  if base =? 0 then (s, 10) else (s, base).

Definition decode_digit (ch : Z) : Z :=
  if negb (isxdigit ch) then 256
  else let ch := tolower ch in if ch <=? 57 then ch - 48 else ch - 97 + 10.

(** [while (value = decode_digit( *cp ), value < base)] *)
Fixpoint digits_loop (cp : list Z) (base result : Z) : Z * list Z :=
  match cp with
  | [] => (result, [])
  | c :: cp' =>
      let value := decode_digit c in
      if value <? base then digits_loop cp' base (u64 (result * base + value)) else (result, cp)
  end.

Definition simple_strtoul (cp : list Z) (base : Z) : Z * list Z :=
  let (cp, base) := parse_integer_fixup_radix cp base in digits_loop cp base 0.
Definition simple_strtoull (cp : list Z) (base : Z) : Z * list Z :=
  let (cp, base) := parse_integer_fixup_radix cp base in digits_loop cp base 0.
Definition hextoul (cp : list Z) : Z * list Z := simple_strtoul cp 16.
Definition hextoull (cp : list Z) : Z * list Z := simple_strtoull cp 16.
Definition dectoul (cp : list Z) : Z * list Z := simple_strtoul cp 10.

(** The return value and [*res]. *)
Definition strict_strtoul (cp : list Z) (base : Z) : Z * Z :=
  let len := strlen cp in
  if len =? 0 then (- EINVAL, 0)
  else
    let (val, tail) := simple_strtoul cp base in
    let off := Z.of_nat (length cp) - Z.of_nat (length tail) in
    if off =? 0 then (- EINVAL, 0)
    else if (rd tail =? 0) || ((len =? off + 1) && (rd tail =? 10)) then (0, val)
    else (- EINVAL, 0).

Definition simple_strtol (cp : list Z) (base : Z) : Z * list Z :=
  if rd cp =? 45 then let (r, e) := simple_strtoul (tl cp) base in (s64 (u64 (- r)), e)
  else let (r, e) := simple_strtoul cp base in (s64 r, e).
Definition simple_strtoll (cp : list Z) (base : Z) : Z * list Z :=
  if rd cp =? 45 then let (r, e) := simple_strtoull (tl cp) base in (s64 (u64 (- r)), e)
  else let (r, e) := simple_strtoull cp base in (s64 r, e).

(** The multiplier suffix: g, m and k fall through; then "iB", "i" or "B". *)
Definition size_suffix (result : Z) (endp : list Z) : Z * list Z :=
  let c := tolower (rd endp) in
  let times r := u64 (r * 1024) in
  let finish r :=
    let e := tl endp in
    let e := if rd e =? 105 then tl e else e in
    let e := if rd e =? 66 then tl e else e in
    (r, e) in
  if c =? 103 then finish (times (times (times result)))
  else if c =? 109 then finish (times (times result))
  else if c =? 107 then finish (times result)
  else (result, endp).
Definition ustrtoul (cp : list Z) (base : Z) : Z * list Z :=
  let (r, e) := simple_strtoul cp base in size_suffix r e.
Definition ustrtoull (cp : list Z) (base : Z) : Z * list Z :=
  let (r, e) := simple_strtoull cp base in size_suffix r e.

(** [p] runs down from [end - 1] to the second character of the string. *)
Fixpoint trailing_from (str : list Z) (p : nat) : option Z :=
  match p with
  | O => None
  | S p' => if negb (isdigit (nth p' str 0)) then Some (Z.of_nat p) else trailing_from str p'
  end.

(** The number and [*endp]; [end_] is the offset given, [None] for NULL. *)
Definition trailing_strtoln_end (str : list Z) (end_ : option Z) : Z * Z :=
  let end_ := match end_ with Some e => e | None => strlen str end in
  let p := end_ - 1 in
  if (0 <? p) && isdigit (nth (Z.to_nat p) str 0) then
    match trailing_from str (Z.to_nat p) with
    | Some q => (s64 (fst (dectoul (drop (Z.to_nat q) str))), q)
    | None => (-1, end_)
    end
  else (-1, end_).
Definition trailing_strtoln (str : list Z) (end_ : option Z) : Z := fst (trailing_strtoln_end str end_).
Definition trailing_strtol (str : list Z) : Z := trailing_strtoln str None.

(** The bytes written to [out]. *)
Fixpoint str_to_upper_nat (input : list Z) (len : nat) : list Z :=
  match len with
  | O => []
  | S n => if rd input =? 0 then [0] else toupper (rd input) :: str_to_upper_nat (tl input) n
  end.
Definition str_to_upper (input : list Z) (len : Z) : list Z := str_to_upper_nat input (Z.to_nat len).

(** The copy with its spaces turned into terminators and the number of them. *)
Fixpoint split_spaces (s : list Z) : list Z * Z :=
  match s with
  | [] => ([], 0)
  | c :: s' =>
      if c =? 0 then ([], 0)
      else let (r, n) := split_spaces s' in if c =? 32 then (0 :: r, n + 1) else (c :: r, n)
  end.

(** [ptr[i] = p; p += strlen(p) + 1] *)
Fixpoint list_strings (count : nat) (p : list Z) : list (list Z) :=
  match count with
  | O => []
  | S n => cstr p :: list_strings n (drop (Z.to_nat (strlen p + 1)) p)
  end.

(** [None]: NULL, when memory runs out. *)
Definition str_to_list (mem_str mem_ptr : bool) (instr : list Z) : option (list (list Z)) :=
  if negb (rd instr =? 0) && negb mem_str then None
  else
    let (str, count) := split_spaces instr in
    let count := if negb (Z.of_nat (length str) =? 0) && negb (List.last str 0 =? 0) then count + 1 else count in
    if mem_ptr then Some (list_strings (Z.to_nat count) str) else None.

Example strto_run :
  (fst (simple_strtoul [48; 120; 49; 70; 103] 0), fst (ustrtoul [49; 48; 77; 105; 66] 10),
   trailing_strtol [109; 109; 99; 49; 50], str_to_list true true [97; 32; 32; 98; 99])
  = (31, 10485760, 12, Some [[97]; []; [98; 99]]).
Proof. vm_compute. reflexivity. Qed.

(** * What a digit string means *)

(** The value of a string of digit values, most significant first. *)
Definition positional (base : Z) (ds : list Z) : Z := fold_left (fun r d => r * base + d) ds 0.

Lemma digits_loop_ok base ds : forall rest r,
  0 < base -> Forall (fun c => decode_digit c < base) ds ->
  (forall c, head rest = Some c -> base <= decode_digit c) ->
  digits_loop (ds ++ rest) base (u64 r)
  = (u64 (fold_left (fun r d => r * base + d) (map decode_digit ds) r), rest).
Proof.
  induction ds as [|c ds IH]; intros rest r Hb F Hr.
  - simpl. destruct rest as [|c rest]; [done|]. simpl.
    specialize (Hr c eq_refl). destruct (Z.ltb_spec (decode_digit c) base); [lia|done].
  - apply Forall_cons in F as [Fc F]. simpl. destruct (Z.ltb_spec (decode_digit c) base); [|lia].
    rewrite <- IH by done. f_equal. unfold u64. rewrite (Z.mul_comm (r mod _)), (Z.mul_comm r).
    rewrite <- Zplus_mod_idemp_l, Zmult_mod_idemp_r, Zplus_mod_idemp_l. done.
Qed.

(** Digit characters of a base up to 16, as text. *)
Definition digit_char (d : Z) : Z := if d <? 10 then 48 + d else 87 + d.

Lemma digit_char_ok d : 0 <= d < 16 -> decode_digit (digit_char d) = d /\ digit_char d <> 0.
Proof.
  intros H.
  assert (forallb (fun v => (decode_digit (digit_char v) =? v) && negb (digit_char v =? 0))
            (map Z.of_nat (seq 0 16)) = true) as F by (vm_compute; reflexivity).
  rewrite forallb_forall in F. specialize (F d). rewrite andb_true_iff, Z.eqb_eq, negb_true_iff, Z.eqb_neq in F.
  apply F, in_map_iff. exists (Z.to_nat d). rewrite in_seq. lia.
Qed.

(** The digits of a number, most significant first; [n] bounds their number. *)
Fixpoint digits_of (fuel : nat) (base n : Z) : list Z :=
  match fuel with
  | O => []
  | S k => if n <? base then [n] else digits_of k base (n / base) ++ [n mod base]
  end.

Lemma positional_snoc base ds d : positional base (ds ++ [d]) = positional base ds * base + d.
Proof. unfold positional. by rewrite fold_left_app. Qed.

Lemma digits_of_ok base fuel : forall n,
  1 < base -> 0 <= n < base ^ Z.of_nat fuel -> (0 < fuel)%nat ->
  positional base (digits_of fuel base n) = n /\
  Forall (fun d => 0 <= d < base) (digits_of fuel base n) /\ digits_of fuel base n <> [].
Proof.
  induction fuel as [|fuel IH]; intros n Hb Hn Hf; [lia|]. cbn [digits_of].
  destruct (Z.ltb_spec n base) as [Hs|Hs].
  - split; [unfold positional; simpl; lia|]. split; [|done]. constructor; [lia|constructor].
  - rewrite Nat2Z.inj_succ, Z.pow_succ_r in Hn by lia.
    assert (0 < fuel)%nat as Hf'.
    { destruct fuel; [|lia]. change (base ^ Z.of_nat 0) with 1 in Hn. lia. }
    destruct (IH (n / base) Hb) as (E & F & _); [split; [apply Z.div_pos; lia|apply Z.div_lt_upper_bound; lia]|done|].
    pose proof (Z.mod_pos_bound n base ltac:(lia)). pose proof (Z.div_mod n base ltac:(lia)).
    rewrite positional_snoc, E. split; [lia|]. split; [|by destruct (digits_of fuel base (n / base))].
    apply Forall_app. split; [done|]. constructor; [lia|constructor].
Qed.

Lemma strtoul_value (base : Z) (ds rest : list Z) :
  0 < base <= 16 -> ds <> [] -> Forall (fun c => decode_digit c < base) ds ->
  (forall c, head rest = Some c -> base <= decode_digit c) ->
  (rd ds <> 48 \/ tolower (rd (tl (ds ++ rest))) <> 120) ->
  simple_strtoul (ds ++ rest) base = (u64 (positional base (map decode_digit ds)), rest).
Proof.
  intros Hb Hne F Hr Hx. unfold simple_strtoul, parse_integer_fixup_radix.
  assert (rd (ds ++ rest) = rd ds) as -> by (by destruct ds).
  assert ((base =? 0) = false) as Hb0 by (apply Z.eqb_neq; lia).
  assert (forall s : list Z, (let '(s0, b) := (s, base) in if b =? 0 then (s0, 10) else (s0, b)) = (s, base)) as Hs
    by (intros; by rewrite Hb0).
  pose proof (digits_loop_ok base ds rest 0 ltac:(lia) F Hr) as D. change (u64 0) with 0 in D.
  destruct (Z.eqb_spec (rd ds) 48); [|by rewrite Hs].
  destruct (Z.eqb_spec (tolower (rd (tl (ds ++ rest)))) 120); [lia|]. by rewrite Hb0, Hs.
Qed.

(** Number parsing is exact modulo 2^64: with an explicit base up to 16 and
    no 0x prefix, simple_strtoul consumes exactly the longest run of digits of
    the base and returns their positional value wrapped to the width. *)
Theorem simple_strtoul_value (base : Z) (ds rest : list Z) :
  0 < base <= 16 -> ds <> [] -> Forall (fun c => decode_digit c < base) ds ->
  (forall c, head rest = Some c -> base <= decode_digit c) ->
  (rd ds <> 48 \/ tolower (rd (tl (ds ++ rest))) <> 120) ->
  simple_strtoul (ds ++ rest) base = (u64 (positional base (map decode_digit ds)), rest).
Proof. apply strtoul_value. Qed.

Lemma simple_strtoul_value_witness :
  simple_strtoul ([51; 55; 57] ++ [97; 98]) 10 = (u64 379, [97; 98]).
Proof.
  apply (simple_strtoul_value 10 [51; 55; 57] [97; 98]).
  - lia.
  - discriminate.
  - repeat constructor; reflexivity.
  - intros c [= <-]. vm_compute. discriminate.
  - left. vm_compute. discriminate.
Defined.

Lemma strtoul_digits (base n : Z) :
  2 <= base <= 16 -> 0 <= n <= U64_MAX ->
  let text := map digit_char (digits_of 64 base n) in
  simple_strtoul text base = (n, []) /\ strict_strtoul text base = (0, n).
Proof.
  intros Hb Hn text.
  destruct (digits_of_ok base 64 n) as (E & F & Ne); [lia| |lia|].
  { split; [lia|]. pose proof (Z.pow_le_mono_l 2 base (Z.of_nat 64) ltac:(lia)) as P.
    change (2 ^ Z.of_nat 64) with 18446744073709551616 in P. unfold U64_MAX in Hn. lia. }
  assert (map decode_digit text = digits_of 64 base n) as Ed.
  { subst text. rewrite map_map. rewrite <- (map_id (digits_of 64 base n)) at 2.
    apply map_ext_Forall. eapply Forall_impl; [exact F|]. intros d [? ?]. apply digit_char_ok. lia. }
  assert (Forall (fun c => decode_digit c < base) text) as Ft.
  { subst text. apply Forall_map. eapply Forall_impl; [exact F|]. intros d [? ?]. simpl.
    destruct (digit_char_ok d ltac:(lia)) as [-> _]. lia. }
  assert (Forall (fun c => c <> 0 /\ tolower c <> 120) text) as Fz.
  { subst text. apply Forall_map. eapply Forall_impl; [exact F|]. intros d [? ?]. simpl.
    assert (forallb (fun v => negb (digit_char v =? 0) && negb (tolower (digit_char v) =? 120))
              (map Z.of_nat (seq 0 16)) = true) as FF by (vm_compute; reflexivity).
    rewrite forallb_forall in FF. specialize (FF d).
    rewrite andb_true_iff, !negb_true_iff, !Z.eqb_neq in FF. apply FF, in_map_iff.
    exists (Z.to_nat d). rewrite in_seq. lia. }
  assert (simple_strtoul text base = (n, [])) as S.
  { pose proof (strtoul_value base text []) as V. rewrite app_nil_r in V. rewrite V, Ed, E; auto.
    - by rewrite u64_small.
    - lia.
    - subst text. by destruct (digits_of 64 base n).
    - done.
    - right. destruct text as [|c [|c' t]]; [done|done|]. apply Forall_cons in Fz as [_ Fz].
      apply Forall_cons in Fz as [Fc _]. apply Fc. }
  split; [exact S|]. unfold strict_strtoul. rewrite S.
  assert (cstr text = text) as Ec.
  { clear - Fz. induction Fz as [|c t [Hc _] F IH]; [done|]. rewrite cstr_step by done. by f_equal. }
  rewrite strlen_cstr, Ec. assert (0 < Z.of_nat (length text)).
  { subst text. rewrite length_map.
    assert (length (digits_of 64 base n) <> 0%nat); [|lia]. by intros ?%length_zero_iff_nil. }
  destruct (Z.eqb_spec (Z.of_nat (length text)) 0); [lia|]. cbn [length Z.of_nat rd hd].
  rewrite Z.sub_0_r. destruct (Z.eqb_spec (Z.of_nat (length text)) 0); [lia|]. reflexivity.
Qed.

(** Printing and parsing: for every 64-bit number and every base from 2 to
    16, the digits of the number parse back to it with nothing left over, and
    strict_strtoul accepts them. *)
Theorem strtoul_digits_roundtrip (base n : Z) :
  2 <= base <= 16 -> 0 <= n <= U64_MAX ->
  let text := map digit_char (digits_of 64 base n) in
  simple_strtoul text base = (n, []) /\ strict_strtoul text base = (0, n).
Proof. apply strtoul_digits. Qed.

Lemma strtoul_digits_roundtrip_witness :
  simple_strtoul (map digit_char (digits_of 64 16 3735928559)) 16 = (3735928559, []).
Proof. apply (strtoul_digits_roundtrip 16 3735928559); unfold U64_MAX; lia. Defined.
