(* ===== verification/Vsprintf.v ===== *)
(** Formatted output (lib/vsprintf.c).

    The output buffer is the memory from [buf] on; [end] is the offset of the
    first byte that must not be written.  A write below [end] but behind the
    memory there is sets [over].  Digits are collected as the list of the
    bytes stored so far.  An argument list is a list of tagged values; taking
    an argument of the wrong kind has no result ([None]).  The configuration
    has neither EFI device paths nor UTF-16 strings. *)

From S2P Require Import Prelude Bytes Cstring Strto.

Definition is_digit (c : Z) : bool := (48 <=? c) && (c <=? 57).

Fixpoint skip_atoi_from (s : list Z) (i : Z) : Z * list Z :=
  match s with
  | c :: s' => if is_digit c then skip_atoi_from s' (s32 (i * 10 + c - 48)) else (i, s)
  | [] => (i, [])
  end.
Definition skip_atoi (s : list Z) : Z * list Z := skip_atoi_from s 0.

(** * Decimal digits, least significant first *)

Definition put_dec_trunc (buf : list Z) (q : Z) : list Z :=
  let d1 := Z.land (Z.shiftr q 4) 15 in
  let d2 := Z.land (Z.shiftr q 8) 15 in
  let d3 := Z.shiftr q 12 in
  let d0 := u32 (6 * (d3 + d2 + d1) + Z.land q 15) in
  let q := Z.shiftr (u32 (d0 * 205)) 11 in
  let d0 := u32 (d0 - 10 * q) in
  let buf := buf ++ [u8 (d0 + 48)] in
  let d1 := u32 (q + 9 * d3 + 5 * d2 + d1) in
  if negb (d1 =? 0) then
    let q := Z.shiftr (u32 (d1 * 205)) 11 in
    let d1 := u32 (d1 - 10 * q) in
    let buf := buf ++ [u8 (d1 + 48)] in
    let d2 := u32 (q + 2 * d2) in
    if negb (d2 =? 0) || negb (d3 =? 0) then
      let q := Z.shiftr (u32 (d2 * 13)) 7 in
      let d2 := u32 (d2 - 10 * q) in
      let buf := buf ++ [u8 (d2 + 48)] in
      let d3 := u32 (q + 4 * d3) in
      if negb (d3 =? 0) then
        let q := Z.shiftr (u32 (d3 * 205)) 11 in
        let d3 := u32 (d3 - 10 * q) in
        let buf := buf ++ [u8 (d3 + 48)] in
        if negb (q =? 0) then buf ++ [u8 (q + 48)] else buf
      else buf
    else buf
  else buf.

Definition put_dec_full (buf : list Z) (q : Z) : list Z :=
  let d1 := Z.land (Z.shiftr q 4) 15 in
  let d2 := Z.land (Z.shiftr q 8) 15 in
  let d3 := Z.shiftr q 12 in
  let d0 := u32 (6 * (d3 + d2 + d1) + Z.land q 15) in
  let q := Z.shiftr (u32 (d0 * 205)) 11 in
  let d0 := u32 (d0 - 10 * q) in
  let d1 := u32 (q + 9 * d3 + 5 * d2 + d1) in
  let q := Z.shiftr (u32 (d1 * 205)) 11 in
  let d1 := u32 (d1 - 10 * q) in
  let d2 := u32 (q + 2 * d2) in
  let q := Z.shiftr (u32 (d2 * 13)) 7 in
  let d2 := u32 (d2 - 10 * q) in
  let d3 := u32 (q + 4 * d3) in
  let q := Z.shiftr (u32 (d3 * 205)) 11 in
  let d3 := u32 (d3 - 10 * q) in
  buf ++ [u8 (d0 + 48); u8 (d1 + 48); u8 (d2 + 48); u8 (d3 + 48); u8 (q + 48)].

(** A 64-bit number needs four rounds; see [put_dec_ok]. *)
Fixpoint put_dec_from (fuel : nat) (buf : list Z) (num : Z) : list Z :=
  match fuel with
  | O => buf
  | S n =>
      if num <? 100000 then put_dec_trunc buf num
      else put_dec_from n (put_dec_full buf (num mod 100000)) (num / 100000)
  end.
Definition put_dec (buf : list Z) (num : Z) : list Z := put_dec_from 5 buf num.

(** * The output buffer *)

Definition ZEROPAD : Z := 1.
Definition SIGN : Z := 2.
Definition PLUS : Z := 4.
Definition SPACE : Z := 8.
Definition LEFT : Z := 16.
Definition SMALL : Z := 32.
Definition SPECIAL : Z := 64.
Definition ERRSTR : Z := 128.

Definition flag_set (flags f : Z) : bool := negb (Z.land flags f =? 0).

Record sink := Sink { sk_mem : list Z; sk_str : Z; sk_over : bool }.

(** The arguments of a call; a pointer comes with the bytes it points to. *)
Inductive arg :=
  | ArgInt (v : Z)
  | ArgStr (s : option (list Z))
  | ArgPtr (addr : Z) (mem : list Z).

Section Output.
Context (end_ : Z).

Definition ADDCH (b : sink) (ch : Z) : sink :=
  let (m, str, over) := b in
  if str <? end_
  then Sink (<[Z.to_nat str := u8 ch]> m) (str + 1) (over || (Z.of_nat (length m) <=? str))
  else Sink m (str + 1) over.

Fixpoint pad (n : nat) (b : sink) (c : Z) : sink :=
  match n with O => b | S n' => pad n' (ADDCH b c) c end.

(** [while (--size >= 0) ADDCH(buf, c)], with the size it leaves. *)
Definition pad_down (b : sink) (c size : Z) : sink * Z :=
  let size := s32 (size - 1) in
  if 0 <=? size then (pad (Z.to_nat (size + 1)) b c, -1) else (b, size).

Definition put_all (b : sink) (cs : list Z) : sink := fold_left ADDCH cs b.

(** The digits of a base that is a power of two, least significant first. *)
Fixpoint pow2_digits (fuel : nat) (num mask shift locase : Z) : list Z :=
  match fuel with
  | O => []
  | S n =>
      let digits := [48; 49; 50; 51; 52; 53; 54; 55; 56; 57; 65; 66; 67; 68; 69; 70] in
      let d := Z.lor (digits !!! Z.to_nat (Z.land (u8 num) mask)) locase in
      let num := Z.shiftr num shift in
      if num =? 0 then [d] else d :: pow2_digits n num mask shift locase
  end.

Definition number (buf : sink) (num base size precision type : Z) : sink :=
  let need_pfx := flag_set type SPECIAL && negb (base =? 10) in
  let locase := Z.land type SMALL in
  let type := if flag_set type LEFT then Z.land type (Z.lnot ZEROPAD) else type in
  let '(sign, num, size) :=
    if flag_set type SIGN then
      if s64 num <? 0 then (45, u64 (- s64 num), s32 (size - 1))
      else if flag_set type PLUS then (43, num, s32 (size - 1))
      else if flag_set type SPACE then (32, num, s32 (size - 1))
      else (0, num, size)
    else (0, num, size) in
  let size :=
    if need_pfx then let size := s32 (size - 1) in if base =? 16 then s32 (size - 1) else size
    else size in
  let tmp :=
    if num =? 0 then [48]
    else if negb (base =? 10) then pow2_digits 64 num (base - 1) (if base =? 16 then 4 else 3) locase
    else put_dec [] num in
  let i := Z.of_nat (length tmp) in
  let precision := if precision <? i then i else precision in
  let size := s32 (size - precision) in
  let '(buf, size) :=
    if Z.land type (ZEROPAD + LEFT) =? 0 then pad_down buf 32 size else (buf, size) in
  let buf := if negb (sign =? 0) then ADDCH buf sign else buf in
  let buf :=
    if need_pfx then
      let buf := ADDCH buf 48 in if base =? 16 then ADDCH buf (Z.lor 88 locase) else buf
    else buf in
  let '(buf, size) :=
    if negb (flag_set type LEFT)
    then pad_down buf (if flag_set type ZEROPAD then 48 else 32) size else (buf, size) in
  let buf := pad (Z.to_nat (precision - i)) buf 48 in
  let buf := put_all buf (rev tmp) in
  fst (pad_down buf 32 size).

(** [while (len < field_width--) ADDCH(buf, ' ')], with the width it leaves. *)
Definition pad_to (b : sink) (len field_width : Z) : sink * Z :=
  (pad (Z.to_nat (field_width - len)) b 32, Z.min field_width len - 1).

Definition null_text : list Z := [60; 78; 85; 76; 76; 62].

(** The length is bounded by the list, so a precision of -1 is no limit. *)
Definition string (buf : sink) (s : option (list Z)) (field_width precision flags : Z) : sink :=
  let s := match s with Some s => s | None => null_text end in
  let len := strnlen s (Z.min (u64 precision) (Z.of_nat (length s))) in
  let '(buf, field_width) :=
    if negb (flag_set flags LEFT) then pad_to buf len field_width else (buf, field_width) in
  let buf := put_all buf (take (Z.to_nat len) s) in
  fst (pad_to buf len field_width).

(** * Addresses *)

Definition hex_asc (d : Z) : Z :=
  [48; 49; 50; 51; 52; 53; 54; 55; 56; 57; 97; 98; 99; 100; 101; 102] !!! Z.to_nat d.
Definition hex_byte_pack (byte : Z) : list Z :=
  [hex_asc (Z.shiftr (Z.land byte 240) 4); hex_asc (Z.land byte 15)].

Fixpoint mac_text (sep : bool) (addr : list Z) : list Z :=
  match addr with
  | [] => []
  | [a] => hex_byte_pack a
  | a :: addr' => hex_byte_pack a ++ (if sep then [58] else []) ++ mac_text sep addr'
  end.

Fixpoint ip6_text (sep : bool) (addr : list Z) : list Z :=
  match addr with
  | a :: b :: addr' =>
      hex_byte_pack a ++ hex_byte_pack b ++
      match addr' with [] => [] | _ => (if sep then [58] else []) ++ ip6_text sep addr' end
  | _ => []
  end.

Fixpoint ip4_text (addr : list Z) : list Z :=
  match addr with
  | [] => []
  | [a] => rev (put_dec_trunc [] a)
  | a :: addr' => rev (put_dec_trunc [] a) ++ [46] ++ ip4_text addr'
  end.

Definition no_special (flags : Z) : Z := Z.land flags (Z.lnot SPECIAL).

Definition mac_address_string (buf : sink) (addr : list Z) (field_width precision flags : Z) : sink :=
  string buf (Some (mac_text (negb (flag_set flags SPECIAL)) (take 6 addr))) field_width precision
         (no_special flags).
Definition ip6_addr_string (buf : sink) (addr : list Z) (field_width precision flags : Z) : sink :=
  string buf (Some (ip6_text (negb (flag_set flags SPECIAL)) (take 16 addr))) field_width precision
         (no_special flags).
Definition ip4_addr_string (buf : sink) (addr : list Z) (field_width precision flags : Z) : sink :=
  string buf (Some (ip4_text (take 4 addr))) field_width precision (no_special flags).

(** CONFIG_IPV6; with CONFIG_LIB_UUID, uuid_bin_to_str and uuid_guid_get_str
    of lib/uuid.c; with CONFIG_ERRNO_STR, errno_str of lib/errno_str.c. *)
Context (ipv6 : bool).
Context (uuid : option ((list Z -> Z -> list Z) * (list Z -> option (list Z)))).
Context (errno_str : option (Z -> list Z)).

Definition UUID_STR_FORMAT_STD : Z := 0.
Definition UUID_STR_FORMAT_GUID : Z := 1.
Definition UUID_STR_UPPER_CASE : Z := 2.

Definition uuid_string (bin_to_str : list Z -> Z -> list Z) (get_str : list Z -> option (list Z))
    (buf : sink) (addr : Z) (mem : list Z) (field_width precision flags c : Z) : sink :=
  let text str_format := if negb (addr =? 0) then bin_to_str mem str_format else null_text in
  let put str := string buf (Some str) field_width precision flags in
  if c =? 76 then put (text (Z.lor UUID_STR_FORMAT_GUID UUID_STR_UPPER_CASE))
  else if c =? 108 then put (text UUID_STR_FORMAT_GUID)
  else if c =? 66 then put (text (Z.lor UUID_STR_FORMAT_STD UUID_STR_UPPER_CASE))
  else if c =? 115 then
    match get_str mem with Some str => put str | None => put (text UUID_STR_FORMAT_GUID) end
  else put (text UUID_STR_FORMAT_STD).

(** The end of [pointer]: the number in hexadecimal. *)
Definition pointer_number (buf : sink) (num field_width precision flags : Z) : sink :=
  let flags := Z.lor flags SMALL in
  let '(field_width, flags) :=
    if field_width =? -1 then (16, Z.lor flags ZEROPAD) else (field_width, flags) in
  number buf num 16 field_width precision flags.

(** [None] when the pointer does not point to the bytes the format reads. *)
Definition pointer (fmt : list Z) (buf : sink) (addr : Z) (mem : list Z)
    (field_width precision flags : Z) : option sink :=
  let c := rd fmt in
  let c1 := rd (tl fmt) in
  let need n (r : sink) := if Z.of_nat (length mem) <? n then None else Some r in
  if c =? 97 then
    need 8 (pointer_number buf (load64 mem 0) 18 precision (Z.lor flags (Z.lor SPECIAL ZEROPAD)))
  else if (c =? 109) || (c =? 77) then
    let flags := if c =? 109 then Z.lor flags SPECIAL else flags in
    need 6 (mac_address_string buf mem field_width precision flags)
  else if (c =? 105) || (c =? 73) then
    let flags := if c =? 105 then Z.lor flags SPECIAL else flags in
    if ipv6 && (c1 =? 54) then need 16 (ip6_addr_string buf mem field_width precision flags)
    else if c1 =? 52 then need 4 (ip4_addr_string buf mem field_width precision flags)
    else Some (pointer_number buf (u64 addr) field_width precision (no_special flags))
  else
    match uuid with
    | Some (bin_to_str, get_str) =>
        if c =? 85 then
          let r := uuid_string bin_to_str get_str buf addr mem field_width precision flags c1 in
          if (addr =? 0) && negb (c1 =? 115) then Some r else need 16 r
        else Some (pointer_number buf (u64 addr) field_width precision flags)
    | None => Some (pointer_number buf (u64 addr) field_width precision flags)
    end.

(** * The format *)

Fixpoint parse_flags (fmt : list Z) (flags : Z) : list Z * Z :=
  match fmt with
  | [] => ([], flags)
  | c :: fmt' =>
      if c =? 45 then parse_flags fmt' (Z.lor flags LEFT)
      else if c =? 43 then parse_flags fmt' (Z.lor flags PLUS)
      else if c =? 32 then parse_flags fmt' (Z.lor flags SPACE)
      else if c =? 35 then parse_flags fmt' (Z.lor flags SPECIAL)
      else if c =? 48 then parse_flags fmt' (Z.lor flags ZEROPAD)
      else (fmt, flags)
  end.

Definition va_int (args : list arg) : option (Z * list arg) :=
  match args with ArgInt v :: args' => Some (v, args') | _ => None end.

(** The width, its flags and what is left of the format and the arguments. *)
Definition parse_width (fmt : list Z) (flags : Z) (args : list arg)
  : option (Z * Z * list Z * list arg) :=
  if is_digit (rd fmt) then
    let (w, fmt) := skip_atoi fmt in Some (w, flags, fmt, args)
  else if rd fmt =? 42 then
    match va_int args with
    | Some (v, args) =>
        let w := s32 v in
        if w <? 0 then Some (s32 (- w), Z.lor flags LEFT, tl fmt, args) else Some (w, flags, tl fmt, args)
    | None => None
    end
  else Some (-1, flags, fmt, args).

Definition parse_precision (fmt : list Z) (args : list arg) : option (Z * list Z * list arg) :=
  if rd fmt =? 46 then
    let fmt := tl fmt in
    let r :=
      if is_digit (rd fmt) then let (p, fmt) := skip_atoi fmt in Some (p, fmt, args)
      else if rd fmt =? 42 then
        match va_int args with Some (v, args) => Some (s32 v, tl fmt, args) | None => None end
      else Some (-1, fmt, args) in
    match r with
    | Some (p, fmt, args) => Some (if p <? 0 then 0 else p, fmt, args)
    | None => None
    end
  else Some (-1, fmt, args).

(** h is 104, l is 108, L is 76, Z is 90, z is 122 and t is 116. *)
Definition parse_qualifier (fmt : list Z) : Z * list Z :=
  let c := rd fmt in
  if (c =? 104) || (c =? 108) || (c =? 76) || (c =? 90) || (c =? 122) || (c =? 116) then
    if (c =? 108) && (rd (tl fmt) =? 108) then (76, tl (tl fmt)) else (c, tl fmt)
  else (-1, fmt).

Definition isalnum (c : Z) : bool := isupper c || islower c || isdigit c.

(** [while (isalnum(fmt[1])) fmt++], from the character behind the p on. *)
Fixpoint skip_alnum (fmt : list Z) : list Z :=
  match fmt with
  | c :: fmt' => if isalnum c then skip_alnum fmt' else fmt
  | [] => []
  end.

(** The 64-bit number an integer conversion prints. *)
Definition int_arg (v qualifier flags : Z) : Z :=
  if qualifier =? 76 then u64 v
  else if qualifier =? 108 then u64 v
  else if (qualifier =? 90) || (qualifier =? 122) then u64 v
  else if qualifier =? 116 then u64 v
  else if qualifier =? 104 then
    let n := u16 v in
    if flag_set flags SIGN then u64 (if n <? 32768 then n else n - 65536) else n
  else if flag_set flags SIGN then u64 (s32 v) else u32 v.

(** The state between two conversions: the format left, the arguments left,
    the buffer and what the %n conversions stored. *)
Record vstate := VState { vs_fmt : list Z; vs_args : list arg; vs_buf : sink; vs_stored : list Z }.

Definition conv_int (b : sink) (args : list arg) (stored : list Z) (fmt : list Z)
    (base qualifier field_width precision flags : Z) : option vstate :=
  match va_int args with
  | None => None
  | Some (v, args) =>
      let num := int_arg v qualifier flags in
      let b := number b num base field_width precision flags in
      let b :=
        match errno_str with
        | Some es =>
            if flag_set flags ERRSTR then put_all (ADDCH (ADDCH b 58) 32) (cstr (es (s32 num))) else b
        | None => b
        end in
      Some (VState fmt args b stored)
  end.

Definition conv_char (b : sink) (args : list arg) (stored : list Z) (fmt : list Z)
    (field_width flags : Z) : option vstate :=
  match va_int args with
  | None => None
  | Some (v, args) =>
      let '(b, field_width) :=
        if negb (flag_set flags LEFT)
        then (pad (Z.to_nat (field_width - 1)) b 32, Z.min (field_width - 1) 0) else (b, field_width) in
      let b := ADDCH b (u8 v) in
      Some (VState fmt args (pad (Z.to_nat (field_width - 1)) b 32) stored)
  end.

(** One conversion, [fmt] being behind the percent sign. *)
Definition conversion (fmt : list Z) (args : list arg) (b : sink) (stored : list Z) : option vstate :=
  let (fmt, flags) := parse_flags fmt 0 in
  match parse_width fmt flags args with
  | None => None
  | Some (field_width, flags, fmt, args) =>
  match parse_precision fmt args with
  | None => None
  | Some (precision, fmt, args) =>
  let (qualifier, fmt) := parse_qualifier fmt in
  let c := rd fmt in
  let rest := tl fmt in
  let int_conv base flags rest :=
    conv_int b args stored rest base qualifier field_width precision flags in
  if c =? 99 then conv_char b args stored rest field_width flags
  else if c =? 115 then
    match args with
    | ArgStr s :: args => Some (VState rest args (string b s field_width precision flags) stored)
    | _ => None
    end
  else if c =? 112 then
    match args with
    | ArgPtr addr mem :: args =>
        match pointer rest b addr mem field_width precision flags with
        | Some b => Some (VState (skip_alnum rest) args b stored)
        | None => None
        end
    | _ => None
    end
  else if c =? 110 then
    match args with
    | ArgPtr _ _ :: args =>
        Some (VState rest args b (stored ++ [if qualifier =? 108 then sk_str b else s32 (sk_str b)]))
    | _ => None
    end
  else if c =? 37 then Some (VState rest args (ADDCH b 37) stored)
  else if c =? 111 then int_conv 8 flags rest
  else if c =? 120 then int_conv 16 (Z.lor flags SMALL) rest
  else if c =? 88 then int_conv 16 flags rest
  else if c =? 100 then
    if rd rest =? 69 then int_conv 10 (Z.lor (Z.lor flags ERRSTR) SIGN) (tl rest)
    else int_conv 10 (Z.lor flags SIGN) rest
  else if c =? 105 then int_conv 10 (Z.lor flags SIGN) rest
  else if c =? 117 then int_conv 10 flags rest
  else if c =? 0 then Some (VState fmt args (ADDCH b 37) stored)
  else Some (VState rest args (ADDCH (ADDCH b 37) c) stored)
  end end.

(** The loop over the format: [None] when the fuel runs out, [Some None] when
    an argument is missing or of the wrong kind. *)
Fixpoint format_loop (fuel : nat) (v : vstate) : option (option vstate) :=
  match fuel with
  | O => None
  | S n =>
      let '(VState fmt args b stored) := v in
      if rd fmt =? 0 then Some (Some v)
      else if negb (rd fmt =? 37) then format_loop n (VState (tl fmt) args (ADDCH b (rd fmt)) stored)
      else match conversion (tl fmt) args b stored with
           | Some v' => format_loop n v'
           | None => Some None
           end
  end.
End Output.

(** * The functions of the family *)

(** The return value, the memory, whether a write missed it, and what the %n
    conversions stored. *)
Record printed := Printed { pr_ret : Z; pr_mem : list Z; pr_over : bool; pr_stored : list Z }.

Section Printf.
Context (ipv6 : bool).
Context (uuid : option ((list Z -> Z -> list Z) * (list Z -> option (list Z)))).
Context (errno_str : option (Z -> list Z)).

Definition vsnprintf_internal (mem : list Z) (size : Z) (fmt : list Z) (args : list arg) : option printed :=
  match format_loop size ipv6 uuid errno_str (S (length fmt)) (VState fmt args (Sink mem 0 false) []) with
  | None | Some None => None
  | Some (Some (VState _ _ b stored)) =>
      if 0 <? size then
        let b := ADDCH size b 0 in
        let m := if size <? sk_str b then <[Z.to_nat (size - 1) := 0]> (sk_mem b) else sk_mem b in
        Some (Printed (s32 (sk_str b - 1)) m (sk_over b) stored)
      else Some (Printed (s32 (sk_str b)) (sk_mem b) (sk_over b) stored)
  end.

Definition vsnprintf := vsnprintf_internal.

Definition vscnprintf (mem : list Z) (size : Z) (fmt : list Z) (args : list arg) : option printed :=
  match vsnprintf mem size fmt args with
  | None => None
  | Some (Printed i m over stored) =>
      let ret := if u64 i <? size then i else if negb (size =? 0) then s32 (size - 1) else 0 in
      Some (Printed ret m over stored)
  end.

Definition snprintf (mem : list Z) (size : Z) (fmt : list Z) (args : list arg) : option printed :=
  vsnprintf mem size fmt args.
Definition scnprintf (mem : list Z) (size : Z) (fmt : list Z) (args : list arg) : option printed :=
  vscnprintf mem size fmt args.

Definition INT_MAX : Z := 2147483647.
Definition vsprintf (mem : list Z) (fmt : list Z) (args : list arg) : option printed :=
  vsnprintf_internal mem INT_MAX fmt args.
Definition sprintf (mem : list Z) (fmt : list Z) (args : list arg) : option printed :=
  vsprintf mem fmt args.

(** What goes to the console, and the return value; the buffer has
    CONFIG_SYS_PBSIZE bytes. *)
Definition vprintf (pbsize : Z) (fmt : list Z) (args : list arg) : option (Z * list Z) :=
  match vscnprintf (replicate (Z.to_nat pbsize) 0) pbsize fmt args with
  | None => None
  | Some (Printed i m _ _) => Some (i, if u32 i =? 0 then [] else cstr m)
  end.
Definition printf := vprintf.
End Printf.

(** * Short conversions *)

(** The bytes stored from [p] down to, and the terminator. *)
Fixpoint itoa_loop (fuel : nat) (i : Z) (text : list Z) : list Z :=
  match fuel with
  | O => text
  | S n => let text := 48 + i mod 10 :: text in
           let i := i / 10 in if 0 <? i then itoa_loop n i text else text
  end.
Definition simple_itoa (i : Z) : list Z := itoa_loop 21 i [].

Fixpoint xtoa_loop (fuel : nat) (num : Z) (text : list Z) : list Z :=
  match fuel with
  | O => text
  | S n => let text := hex_byte_pack (Z.land num 255) ++ text in
           let num := Z.shiftr num 8 in if 0 <? num then xtoa_loop n num text else text
  end.
Definition simple_xtoa (num : Z) : list Z := xtoa_loop 8 num [].

(** The result and the number. *)
Definition str2off (p : list Z) : bool * Z :=
  let (num, endptr) := simple_strtoull p 16 in (negb (rd p =? 0) && (rd endptr =? 0), num).
