(* ===== verification/VsprintfNumber.v ===== *)
(** Formatted output: the digit tricks print decimal and hexadecimal digits;
    what [number] and [string] put into the buffer, as a text that does not
    depend on the buffer. *)

From S2P Require Import Prelude Bytes Cstring CstringProps Strto Vsprintf.

(** * Digits, least significant first *)

Definition dig (base n : Z) : list Z := rev (digits_of 64 base n).

Lemma digits_fuel base f : forall f' n,
  1 < base -> 0 <= n < base ^ Z.of_nat f -> n < base ^ Z.of_nat f' -> (0 < f)%nat -> (0 < f')%nat ->
  digits_of f base n = digits_of f' base n.
Proof.
  induction f as [|f IH]; intros [|f'] n Hb Hn Hn' Hf Hf'; [lia..|]. cbn [digits_of].
  destruct (Z.ltb_spec n base); [done|]. rewrite Nat2Z.inj_succ, Z.pow_succ_r in Hn, Hn' by lia.
  assert (forall g : nat, n < base * base ^ Z.of_nat g -> (0 < g)%nat) as Pos.
  { intros [|g] Hg; [change (base ^ Z.of_nat 0) with 1 in Hg|]; lia. }
  f_equal. apply IH; [done| | |apply Pos; lia|apply Pos; lia].
  - split; [apply Z.div_pos; lia|apply Z.div_lt_upper_bound; lia].
  - apply Z.div_lt_upper_bound; lia.
Qed.

Lemma digits_S k base n :
  digits_of (S k) base n = if n <? base then [n] else digits_of k base (n / base) ++ [n mod base].
Proof. done. Qed.

Lemma dig_small base n : n < base -> dig base n = [n].
Proof. intros H. unfold dig. by rewrite digits_S, (proj2 (Z.ltb_lt _ _) H). Qed.

Lemma pow64 base : 2 <= base -> U64_MAX < base ^ 64.
Proof.
  intros Hb. pose proof (Z.pow_le_mono_l 2 base 64 ltac:(lia)) as P.
  change (2 ^ 64) with 18446744073709551616 in P. unfold U64_MAX. lia.
Qed.

Lemma dig_step base n :
  2 <= base -> base <= n <= U64_MAX -> dig base n = n mod base :: dig base (n / base).
Proof.
  intros Hb Hn. pose proof (pow64 base Hb) as P. unfold dig at 1. rewrite digits_S.
  destruct (Z.ltb_spec n base); [lia|]. rewrite rev_app_distr. cbn [rev app].
  assert (n / base < base ^ 63) as D.
  { apply Z.div_lt_upper_bound; [lia|]. rewrite <- Z.pow_succ_r by lia. change (Z.succ 63) with 64. lia. }
  unfold dig. rewrite (digits_fuel base 63 64 (n / base)); [done|lia| | |lia|lia].
  - split; [apply Z.div_pos; lia|exact D].
  - change (Z.of_nat 64) with (Z.succ 63). rewrite Z.pow_succ_r by lia. nia.
Qed.

(** * The decimal trick *)

Lemma div10_205 x : 0 <= x < 400 -> Z.shiftr (u32 (x * 205)) 11 = x / 10.
Proof.
  intros H. assert (forallb (fun v => Z.shiftr (u32 (v * 205)) 11 =? v / 10) (map Z.of_nat (seq 0 400)) = true)
    as F by (vm_compute; reflexivity).
  rewrite forallb_forall in F. apply Z.eqb_eq, F, in_map_iff. exists (Z.to_nat x). rewrite in_seq. lia.
Qed.

Lemma div10_13 x : 0 <= x < 69 -> Z.shiftr (u32 (x * 13)) 7 = x / 10.
Proof.
  intros H. assert (forallb (fun v => Z.shiftr (u32 (v * 13)) 7 =? v / 10) (map Z.of_nat (seq 0 69)) = true)
    as F by (vm_compute; reflexivity).
  rewrite forallb_forall in F. apply Z.eqb_eq, F, in_map_iff. exists (Z.to_nat x). rewrite in_seq. lia.
Qed.

(** The nibbles of a number below 100000. *)
Lemma nibbles q : 0 <= q < 100000 ->
  exists n3 n2 n1 n0, q = 4096 * n3 + 256 * n2 + 16 * n1 + n0 /\
    Z.shiftr q 12 = n3 /\ Z.land (Z.shiftr q 8) 15 = n2 /\ Z.land (Z.shiftr q 4) 15 = n1 /\
    Z.land q 15 = n0 /\ 0 <= n3 <= 24 /\ 0 <= n2 < 16 /\ 0 <= n1 < 16 /\ 0 <= n0 < 16.
Proof.
  intros H. change 15 with (Z.ones 4). rewrite !Z.land_ones, !Z.shiftr_div_pow2 by lia.
  change (2 ^ 12) with 4096. change (2 ^ 8) with 256. change (2 ^ 4) with 16.
  exists (q / 4096), (q / 256 mod 16), (q / 16 mod 16), (q mod 16). repeat split; zlia.
Qed.

(** Both routines compute the five decimal digits of [q] by these steps. *)
Lemma dec_steps q : 0 <= q < 100000 ->
  let d1 := Z.land (Z.shiftr q 4) 15 in
  let d2 := Z.land (Z.shiftr q 8) 15 in
  let d3 := Z.shiftr q 12 in
  let e0 := u32 (6 * (d3 + d2 + d1) + Z.land q 15) in
  let q0 := Z.shiftr (u32 (e0 * 205)) 11 in
  let e1 := u32 (q0 + 9 * d3 + 5 * d2 + d1) in
  let q1 := Z.shiftr (u32 (e1 * 205)) 11 in
  let e2 := u32 (q1 + 2 * d2) in
  let q2 := Z.shiftr (u32 (e2 * 13)) 7 in
  let e3 := u32 (q2 + 4 * d3) in
  let q3 := Z.shiftr (u32 (e3 * 205)) 11 in
  u32 (e0 - 10 * q0) = q mod 10 /\ u32 (e1 - 10 * q1) = q / 10 mod 10 /\
  u32 (e2 - 10 * q2) = q / 100 mod 10 /\ u32 (e3 - 10 * q3) = q / 1000 mod 10 /\ q3 = q / 10000 /\
  e3 = q / 1000 /\ (e1 = 0 <-> q < 10) /\ (e2 = 0 /\ d3 = 0 <-> q < 100).
Proof.
  intros H. destruct (nibbles q H) as (n3 & n2 & n1 & n0 & E & -> & -> & -> & -> & R3 & R2 & R1 & R0).
  cbv zeta. rewrite (u32_small (6 * _ + _)) by lia. rewrite (div10_205 (6 * _ + _)) by lia.
  set (e0 := 6 * _ + _). assert (e0 = 6 * (n3 + n2 + n1) + n0) as E0 by done. clearbody e0.
  rewrite (u32_small (e0 / 10 + _ + _ + _)) by zlia. rewrite (div10_205 (e0 / 10 + _ + _ + _)) by zlia.
  set (e1 := e0 / 10 + _ + _ + _). assert (e1 = e0 / 10 + 9 * n3 + 5 * n2 + n1) as E1 by done. clearbody e1.
  rewrite (u32_small (e1 / 10 + _)) by zlia. rewrite (div10_13 (e1 / 10 + _)) by zlia.
  set (e2 := e1 / 10 + _). assert (e2 = e1 / 10 + 2 * n2) as E2 by done. clearbody e2.
  rewrite (u32_small (e2 / 10 + _)) by zlia. rewrite (div10_205 (e2 / 10 + _)) by zlia.
  set (e3 := e2 / 10 + _). assert (e3 = e2 / 10 + 4 * n3) as E3 by done. clearbody e3.
  assert (q / 10 = e1 + 10 * (40 * n3 + 2 * n2)) as Q1 by zlia.
  assert (q / 100 = e2 + 10 * (4 * n3)) as Q2.
  { change 100 with (10 * 10). rewrite <- Z.div_div by lia. zlia. }
  assert (q / 1000 = e3) as Q3.
  { change 1000 with (100 * 10). rewrite <- Z.div_div by lia. zlia. }
  assert (q / 10000 = e3 / 10) as Q4.
  { change 10000 with (1000 * 10). rewrite <- Z.div_div by lia. zlia. }
  rewrite !u32_small by zlia.
  split; [zlia|]. split; [rewrite Q1; zlia|]. split; [rewrite Q2; zlia|]. split; [rewrite Q3; zlia|].
  split; [done|]. split; [done|]. split; [zlia|]. zlia.
Qed.

Lemma digit_char_dec d : 0 <= d < 10 -> u8 (d + 48) = digit_char d.
Proof. intros H. unfold digit_char. rewrite u8_small by lia. destruct (Z.ltb_spec d 10); lia. Qed.

Definition five (q : Z) : list Z := [q mod 10; q / 10 mod 10; q / 100 mod 10; q / 1000 mod 10; q / 10000].

Lemma put_dec_full_ok buf q : 0 <= q < 100000 -> put_dec_full buf q = buf ++ map digit_char (five q).
Proof.
  intros H. destruct (dec_steps q H) as (D0 & D1 & D2 & D3 & D4 & _). unfold put_dec_full.
  rewrite D0, D1, D2, D3, D4. unfold five. cbn [map]. rewrite !digit_char_dec by zlia. done.
Qed.

Lemma div_10s q : q / 10 / 10 = q / 100 /\ q / 100 / 10 = q / 1000 /\ q / 1000 / 10 = q / 10000 /\ q / 10000 / 10 = q / 100000.
Proof. rewrite !Z.div_div by lia. done. Qed.

(** The number with its lowest decimal digits split off. *)
Lemma dig_dec q :
  0 <= q <= U64_MAX ->
  dig 10 q = if q <? 10 then [q]
    else if q <? 100 then [q mod 10; q / 10]
    else if q <? 1000 then [q mod 10; q / 10 mod 10; q / 100]
    else if q <? 10000 then [q mod 10; q / 10 mod 10; q / 100 mod 10; q / 1000]
    else if q <? 100000 then five q
    else five (q mod 100000) ++ dig 10 (q / 100000).
Proof.
  intros H. destruct (div_10s q) as (D1 & D2 & D3 & D4). unfold five.
  destruct (Z.ltb_spec q 10); [by apply dig_small|]. rewrite dig_step by lia.
  destruct (Z.ltb_spec q 100); [by rewrite dig_small by zlia|]. rewrite (dig_step 10 (q / 10)), D1 by zlia.
  destruct (Z.ltb_spec q 1000); [by rewrite dig_small by zlia|]. rewrite (dig_step 10 (q / 100)), D2 by zlia.
  destruct (Z.ltb_spec q 10000); [by rewrite dig_small by zlia|]. rewrite (dig_step 10 (q / 1000)), D3 by zlia.
  destruct (Z.ltb_spec q 100000); [by rewrite dig_small by zlia|]. rewrite (dig_step 10 (q / 10000)), D4 by zlia.
  replace (q mod 100000 mod 10) with (q mod 10) by zlia.
  replace (q mod 100000 / 10 mod 10) with (q / 10 mod 10) by zlia.
  replace (q mod 100000 / 100 mod 10) with (q / 100 mod 10) by zlia.
  replace (q mod 100000 / 1000 mod 10) with (q / 1000 mod 10) by zlia.
  replace (q mod 100000 / 10000) with (q / 10000 mod 10) by zlia. done.
Qed.

Lemma put_dec_trunc_ok buf q : 0 <= q < 100000 -> put_dec_trunc buf q = buf ++ map digit_char (dig 10 q).
Proof.
  intros H. destruct (dec_steps q H) as (D0 & D1 & D2 & D3 & D4 & E3 & C1 & C2). unfold put_dec_trunc.
  rewrite D0, D1, D2, D3, D4, E3. rewrite dig_dec by (unfold U64_MAX; lia). unfold five.
  set (e1 := u32 (_ + 5 * _ + _)) in *. set (e2 := u32 (Z.shiftr (u32 (e1 * 205)) 11 + _)) in *.
  clearbody e1 e2. clear D0 D1 D2 D3 D4 E3. rewrite <- !app_assoc. cbn [app].
  destruct (Z.eqb_spec e1 0) as [Z1|Z1]; destruct (Z.ltb_spec q 10) as [L1|L1]; [|lia..|].
  { cbn [negb map]. rewrite digit_char_dec by zlia. by rewrite Z.mod_small by lia. }
  cbn [negb]. destruct (Z.eqb_spec e2 0) as [Z2|Z2], (Z.eqb_spec (Z.shiftr q 12) 0) as [Z3|Z3]; cbn [negb orb];
    (destruct (Z.ltb_spec q 100) as [L2|L2]; [try lia|try lia]).
  { cbn [map]. rewrite !digit_char_dec by zlia. by rewrite (Z.mod_small (q / 10)) by zlia. }
  all: destruct (Z.eqb_spec (q / 1000) 0), (Z.ltb_spec q 1000); cbn [negb];
    [|zlia..|destruct (Z.eqb_spec (q / 10000) 0), (Z.ltb_spec q 10000); [|zlia..|]]; cbn [negb map];
    try (destruct (Z.ltb_spec q 100000); [|lia]); cbn [map]; rewrite !digit_char_dec by zlia.
  all: try rewrite (Z.mod_small (q / 100)) by zlia; try rewrite (Z.mod_small (q / 1000)) by zlia; done.
Qed.

Lemma put_dec_from_ok fuel : forall buf num,
  0 <= num <= U64_MAX -> num < 100000 ^ Z.of_nat fuel -> (0 < fuel)%nat ->
  put_dec_from fuel buf num = buf ++ map digit_char (dig 10 num).
Proof.
  induction fuel as [|fuel IH]; intros buf num Hn Hf H0; [lia|]. cbn [put_dec_from].
  rewrite Nat2Z.inj_succ, Z.pow_succ_r in Hf by lia.
  destruct (Z.ltb_spec num 100000); [apply put_dec_trunc_ok; lia|].
  rewrite put_dec_full_ok by zlia. rewrite IH; [|zlia|apply Z.div_lt_upper_bound; lia|].
  - rewrite <- app_assoc, <- map_app. rewrite (dig_dec num) by lia.
    rewrite !(proj2 (Z.ltb_ge _ _)) by lia. done.
  - destruct fuel; [change (100000 ^ Z.of_nat 0) with 1 in Hf|]; lia.
Qed.

Lemma put_dec_ok buf num : 0 <= num <= U64_MAX -> put_dec buf num = buf ++ map digit_char (dig 10 num).
Proof. intros H. apply put_dec_from_ok; [done| |lia]. unfold U64_MAX in H. change (100000 ^ Z.of_nat 5) with 10000000000000000000000000. lia. Qed.

(** * Everything is a sequence of characters *)

Lemma put_all_app e b cs ds : put_all e (put_all e b cs) ds = put_all e b (cs ++ ds).
Proof. unfold put_all. by rewrite fold_left_app. Qed.
Lemma put_one e b c : ADDCH e b c = put_all e b [c].
Proof. done. Qed.
Lemma put_none e b : b = put_all e b [].
Proof. done. Qed.

Lemma pad_put e n : forall b c, pad e n b c = put_all e b (replicate n c).
Proof. induction n as [|n IH]; intros b c; [done|]. cbn [pad replicate]. by rewrite IH. Qed.

(** The number of characters a padding loop writes and the size it leaves. *)
Definition pad_count (size : Z) : nat := Z.to_nat (s32 (size - 1) + 1).
Definition pad_left (size : Z) : Z := if 0 <=? s32 (size - 1) then -1 else s32 (size - 1).

Lemma pad_down_put e b c size :
  pad_down e b c size = (put_all e b (replicate (pad_count size) c), pad_left size).
Proof.
  unfold pad_down, pad_count, pad_left. destruct (Z.leb_spec 0 (s32 (size - 1))); [by rewrite pad_put|].
  by replace (Z.to_nat (s32 (size - 1) + 1)) with 0%nat by lia.
Qed.

Lemma if_put e b (c : bool) x y :
  (if c then put_all e b x else put_all e b y) = put_all e b (if c then x else y).
Proof. by destruct c. Qed.
Lemma if_put_l e b (c : bool) x : (if c then put_all e b x else b) = put_all e b (if c then x else []).
Proof. by destruct c. Qed.
Lemma if_put_pair e b (c : bool) x (s t : Z) :
  (if c then (put_all e b x, s) else (b, t)) = (put_all e b (if c then x else []), if c then s else t).
Proof. by destruct c. Qed.

(** Sign character (0: none), magnitude and remaining width of a number. *)
Definition sign_step (num size type : Z) : Z * Z * Z :=
  if flag_set type SIGN then
    if s64 num <? 0 then (45, u64 (- s64 num), s32 (size - 1))
    else if flag_set type PLUS then (43, num, s32 (size - 1))
    else if flag_set type SPACE then (32, num, s32 (size - 1))
    else (0, num, size)
  else (0, num, size).

Definition number_digits (num base locase : Z) : list Z :=
  if num =? 0 then [48]
  else if negb (base =? 10) then pow2_digits 64 num (base - 1) (if base =? 16 then 4 else 3) locase
  else put_dec [] num.

(** The characters of a field, with the padding of each of the three loops. *)
Definition number_chars (num base size precision type : Z) : list Z :=
  let need_pfx := flag_set type SPECIAL && negb (base =? 10) in
  let locase := Z.land type SMALL in
  let type := if flag_set type LEFT then Z.land type (Z.lnot ZEROPAD) else type in
  let '(sign, num, size) := sign_step num size type in
  let size := if need_pfx then if base =? 16 then s32 (s32 (size - 1) - 1) else s32 (size - 1) else size in
  let tmp := number_digits num base locase in
  let i := Z.of_nat (length tmp) in
  let precision := if precision <? i then i else precision in
  let size0 := s32 (size - precision) in
  let c1 := Z.land type (ZEROPAD + LEFT) =? 0 in
  let size1 := if c1 then pad_left size0 else size0 in
  let c2 := negb (flag_set type LEFT) in
  let size2 := if c2 then pad_left size1 else size1 in
  (if c1 then replicate (pad_count size0) 32 else []) ++ (if negb (sign =? 0) then [sign] else []) ++
  (if need_pfx then 48 :: (if base =? 16 then [Z.lor 88 locase] else []) else []) ++
  (if c2 then replicate (pad_count size1) (if flag_set type ZEROPAD then 48 else 32) else []) ++
  replicate (Z.to_nat (precision - i)) 48 ++ rev tmp ++ replicate (pad_count size2) 32.

Lemma number_put e b num base size precision type :
  number e b num base size precision type = put_all e b (number_chars num base size precision type).
Proof.
  unfold number, number_chars. cbv zeta.
  fold (sign_step num size (if flag_set type LEFT then Z.land type (Z.lnot ZEROPAD) else type)).
  set (type' := if flag_set type LEFT then _ else _). destruct (sign_step num size type') as [[sign mag] sz].
  fold (number_digits mag base (Z.land type SMALL)). set (tmp := number_digits _ _ _).
  rewrite pad_down_put, if_put_pair, !put_one.
  destruct (flag_set type SPECIAL && negb (base =? 10)), (base =? 16); cbn iota beta;
    rewrite if_put_l, ?put_one, !put_all_app, pad_down_put, if_put_pair; cbn iota beta;
    rewrite pad_put, !pad_down_put; cbn [fst]; rewrite !put_all_app, <- !app_assoc; reflexivity.
Qed.

(** * Digits of any base *)

Definition digit_text (small : bool) (d : Z) : Z := if d <? 10 then 48 + d else if small then 87 + d else 55 + d.

Lemma digit_text_small d : digit_text true d = digit_char d.
Proof. done. Qed.

Definition small_of (locase : Z) : bool := negb (locase =? 0).

Lemma digit_table d locase :
  0 <= d < 16 -> locase = 0 \/ locase = 32 ->
  Z.lor ([48; 49; 50; 51; 52; 53; 54; 55; 56; 57; 65; 66; 67; 68; 69; 70] !!! Z.to_nat d) locase
  = digit_text (small_of locase) d.
Proof.
  intros H L.
  assert (forallb (fun v => forallb (fun l =>
      Z.lor ([48; 49; 50; 51; 52; 53; 54; 55; 56; 57; 65; 66; 67; 68; 69; 70] !!! Z.to_nat v) l
      =? digit_text (small_of l) v) [0; 32]) (map Z.of_nat (seq 0 16)) = true) as F by (vm_compute; reflexivity).
  rewrite forallb_forall in F. specialize (F d). rewrite forallb_forall in F.
  apply Z.eqb_eq, F; [apply in_map_iff; exists (Z.to_nat d); rewrite in_seq; lia|].
  destruct L as [->| ->]; [left|right; left]; done.
Qed.

Lemma pow2_digits_ok sh locase fuel : forall num,
  3 <= sh <= 4 -> locase = 0 \/ locase = 32 -> 0 <= num <= U64_MAX -> num < (2 ^ sh) ^ Z.of_nat fuel ->
  (0 < fuel)%nat ->
  pow2_digits fuel num (2 ^ sh - 1) sh locase = map (digit_text (small_of locase)) (dig (2 ^ sh) num).
Proof.
  induction fuel as [|fuel IH]; intros num Hs Hl Hn Hf H0; [lia|]. cbn [pow2_digits].
  assert (8 <= 2 ^ sh <= 16) as Hp.
  { change 8 with (2 ^ 3). change 16 with (2 ^ 4). split; apply Z.pow_le_mono_r; lia. }
  replace (2 ^ sh - 1) with (Z.ones sh) by (rewrite Z.ones_equiv; lia).
  rewrite Z.land_ones, Z.shiftr_div_pow2 by lia.
  assert (u8 num mod 2 ^ sh = num mod 2 ^ sh) as ->.
  { unfold u8. destruct (decide (sh = 3)) as [->|]; [change (2 ^ 3) with 8; zlia|].
    replace sh with 4 by lia. change (2 ^ 4) with 16. zlia. }
  pose proof (Z.mod_pos_bound num (2 ^ sh) ltac:(lia)). rewrite digit_table by (done || lia).
  rewrite Nat2Z.inj_succ, Z.pow_succ_r in Hf by lia.
  destruct (Z.eqb_spec (num / 2 ^ sh) 0) as [E|E].
  - apply Z.div_small_iff in E; [|lia]. rewrite dig_small by lia. cbn [map]. by rewrite Z.mod_small by lia.
  - assert (2 ^ sh <= num) as Hge.
    { destruct (Z.le_gt_cases (2 ^ sh) num); [done|]. destruct E. apply Z.div_small. lia. }
    rewrite dig_step by lia. cbn [map]. f_equal. rewrite Z.ones_equiv, <- Z.sub_1_r. apply IH; auto.
    + split; [apply Z.div_pos; lia|]. etransitivity; [|apply Hn]. apply Z.div_le_upper_bound; nia.
    + apply Z.div_lt_upper_bound; lia.
    + destruct fuel; [change ((2 ^ sh) ^ Z.of_nat 0) with 1 in Hf|]; lia.
Qed.

Definition printable_base (base : Z) : Prop := base = 8 \/ base = 10 \/ base = 16.

(** The digits of a magnitude, least significant first, as the code stores
    them. *)
Lemma number_digits_ok num base locase :
  printable_base base -> locase = 0 \/ locase = 32 -> 0 <= num <= U64_MAX ->
  number_digits num base locase = map (digit_text (small_of locase)) (dig base num).
Proof.
  intros Hb Hl Hn. unfold number_digits. destruct (Z.eqb_spec num 0) as [->|N0].
  { rewrite dig_small by (destruct Hb as [|[|]]; lia). done. }
  assert (forall sh, 3 <= sh -> num < (2 ^ sh) ^ Z.of_nat 64) as Hp.
  { intros sh Hs. change (Z.of_nat 64) with 64. eapply Z.le_lt_trans; [apply Hn|]. apply pow64.
    pose proof (Z.pow_le_mono_r 2 3 sh ltac:(lia) Hs) as P. change (2 ^ 3) with 8 in P. lia. }
  destruct Hb as [->|[->| ->]].
  - change (8 - 1) with (2 ^ 3 - 1). change (negb (8 =? 10)) with true. cbn iota. change (8 =? 16) with false. cbn iota.
    rewrite pow2_digits_ok by (done || lia || by apply Hp). done.
  - change (negb (10 =? 10)) with false. cbn iota. rewrite put_dec_ok by done. cbn [app].
    apply map_ext_Forall. unfold dig. apply Forall_rev.
    destruct (digits_of_ok 10 64 num) as (_ & F & _); [lia| |lia|].
    + pose proof (pow64 10 ltac:(lia)). change (Z.of_nat 64) with 64. lia.
    + eapply Forall_impl; [exact F|]. intros d [? ?]. unfold digit_char, digit_text.
      destruct (Z.ltb_spec d 10); [done|lia].
  - change (16 - 1) with (2 ^ 4 - 1). change (negb (16 =? 10)) with true. cbn iota. change (16 =? 16) with true. cbn iota.
    rewrite pow2_digits_ok by (done || lia || by apply Hp). done.
Qed.

(** * The layout of a field *)

Definition sign_text (num type : Z) : list Z :=
  if flag_set type SIGN then
    if s64 num <? 0 then [45] else if flag_set type PLUS then [43] else if flag_set type SPACE then [32] else []
  else [].
Definition magnitude (num type : Z) : Z := if flag_set type SIGN && (s64 num <? 0) then - s64 num else num.
Definition prefix_text (base type : Z) : list Z :=
  if flag_set type SPECIAL && negb (base =? 10) then
    48 :: (if base =? 16 then [if flag_set type SMALL then 120 else 88] else [])
  else [].

(** A field of at least [size] characters with at least [precision] digits. *)
Definition number_text (num base size precision type : Z) : list Z :=
  let digits := map (digit_text (flag_set type SMALL)) (digits_of 64 base (magnitude num type)) in
  let body := replicate (Z.to_nat (precision - Z.of_nat (length digits))) 48 ++ digits in
  let front := sign_text num type ++ prefix_text base type in
  let fill := Z.to_nat (size - Z.of_nat (length (front ++ body))) in
  if flag_set type LEFT then front ++ body ++ replicate fill 32
  else if flag_set type ZEROPAD then front ++ replicate fill 48 ++ body
  else replicate fill 32 ++ front ++ body.

Lemma flag_bit x k : 0 <= k -> flag_set x (2 ^ k) = Z.testbit x k.
Proof.
  intros Hk. unfold flag_set. apply eq_true_iff_eq. rewrite negb_true_iff, Z.eqb_neq. split.
  - intros N. destruct (Z.testbit x k) eqn:E; [done|]. destruct N. apply Z.bits_inj'. intros n Hn.
    rewrite Z.land_spec, Z.pow2_bits_eqb, Z.bits_0 by done.
    destruct (Z.eqb_spec k n) as [->|]; [by rewrite E|apply andb_false_r].
  - intros E N. assert (Z.testbit (Z.land x (2 ^ k)) k = false) as F by (rewrite N; apply Z.bits_0).
    rewrite Z.land_spec, Z.pow2_bits_true, E in F by done. done.
Qed.

Lemma flag_drop x j k : 0 <= j -> 0 <= k -> flag_set (Z.land x (Z.lnot (2 ^ j))) (2 ^ k) = flag_set x (2 ^ k) && negb (j =? k).
Proof. intros Hj Hk. by rewrite !flag_bit, Z.land_spec, Z.lnot_spec, Z.pow2_bits_eqb by lia. Qed.

Lemma flag_either x j k : (Z.land x (Z.lor j k) =? 0) = negb (flag_set x j) && negb (flag_set x k).
Proof.
  unfold flag_set. rewrite !negb_involutive, Z.land_lor_distr_r. apply eq_true_iff_eq.
  by rewrite andb_true_iff, !Z.eqb_eq, Z.lor_eq_0_iff.
Qed.

Lemma pad_count_ok size : -2147483647 <= size < 2147483648 -> pad_count size = Z.to_nat size.
Proof. intros H. unfold pad_count. rewrite s32_small by lia. f_equal. lia. Qed.
Lemma pad_left_ok size : -2147483646 <= size < 2147483648 -> pad_count (pad_left size) = 0%nat.
Proof.
  intros H. unfold pad_left. rewrite s32_small by lia. destruct (Z.leb_spec 0 (size - 1)); [reflexivity|].
  rewrite pad_count_ok; lia.
Qed.

Definition no_zeropad (type : Z) : Z := if flag_set type LEFT then Z.land type (Z.lnot ZEROPAD) else type.

Lemma no_zeropad_flag type k : 0 < k -> flag_set (no_zeropad type) (2 ^ k) = flag_set type (2 ^ k).
Proof.
  intros Hk. unfold no_zeropad. destruct (flag_set type LEFT); [|done]. change ZEROPAD with (2 ^ 0).
  rewrite flag_drop by lia. destruct (Z.eqb_spec 0 k); [lia|apply andb_true_r].
Qed.

Lemma no_zeropad_zero type : flag_set (no_zeropad type) ZEROPAD = flag_set type ZEROPAD && negb (flag_set type LEFT).
Proof.
  unfold no_zeropad. destruct (flag_set type LEFT); [|by rewrite andb_true_r].
  change ZEROPAD with (2 ^ 0). by rewrite flag_drop by lia.
Qed.

Lemma sign_step_ok num size type :
  0 <= num <= U64_MAX -> -1000 <= size < 1000000000 ->
  exists sign, sign_step num size (no_zeropad type)
    = (sign, magnitude num type, size - Z.of_nat (length (sign_text num type))) /\
    (if negb (sign =? 0) then [sign] else []) = sign_text num type /\
    0 <= magnitude num type <= U64_MAX.
Proof.
  intros Hn Hs. unfold sign_step, sign_text, magnitude.
  change SIGN with (2 ^ 1). change PLUS with (2 ^ 2). change SPACE with (2 ^ 3). rewrite !no_zeropad_flag by lia.
  destruct (flag_set type (2 ^ 1)); cbn [andb]; [|exists 0; rewrite Z.sub_0_r; done].
  destruct (Z.ltb_spec (s64 num) 0).
  - exists 45. rewrite s32_small by lia. assert (0 <= - s64 num <= U64_MAX) by wrap_lia. by rewrite u64_small.
  - destruct (flag_set type (2 ^ 2)); [exists 43; by rewrite s32_small by lia|].
    destruct (flag_set type (2 ^ 3)); [exists 32; by rewrite s32_small by lia|]. exists 0. by rewrite Z.sub_0_r.
Qed.

Lemma small_flag type : small_of (Z.land type SMALL) = flag_set type SMALL.
Proof. done. Qed.
Lemma locase_cases type : Z.land type SMALL = 0 \/ Z.land type SMALL = 32.
Proof.
  pose proof (flag_bit type 5 ltac:(lia)) as B. unfold flag_set in B. change SMALL with (2 ^ 5).
  destruct (Z.eqb_spec (Z.land type (2 ^ 5)) 0); [by left|]. right. cbn [negb] in B.
  apply Z.bits_inj'. intros k Hk. rewrite Z.land_spec. change 32 with (2 ^ 5). rewrite Z.pow2_bits_eqb by done.
  destruct (Z.eqb_spec 5 k) as [<-|]; [by rewrite <- B|apply andb_false_r].
Qed.

Lemma prefix_ok base type :
  (if flag_set type SPECIAL && negb (base =? 10)
   then 48 :: (if base =? 16 then [Z.lor 88 (Z.land type SMALL)] else []) else []) = prefix_text base type.
Proof.
  unfold prefix_text. rewrite <- small_flag. destruct (_ && _); [|done]. f_equal. destruct (base =? 16); [|done].
  by destruct (locase_cases type) as [->| ->].
Qed.

Lemma prefix_size base type size :
  -1000 <= size < 1000000000 ->
  (if flag_set type SPECIAL && negb (base =? 10)
   then if base =? 16 then s32 (s32 (size - 1) - 1) else s32 (size - 1) else size)
  = size - Z.of_nat (length (prefix_text base type)).
Proof.
  intros H. unfold prefix_text. destruct (_ && _); [|cbn [length]; lia].
  destruct (base =? 16); rewrite !s32_small by (rewrite ?s32_small; lia); cbn [length]; lia.
Qed.

Lemma digits_length base fuel : forall n, (0 < fuel)%nat -> (0 < length (digits_of fuel base n) <= fuel)%nat.
Proof.
  induction fuel as [|fuel IH]; intros n H; [lia|]. rewrite digits_S. destruct (n <? base); [simpl; lia|].
  rewrite length_app. cbn [length]. destruct fuel as [|f]; [simpl; lia|]. specialize (IH (n / base)). lia.
Qed.

Lemma number_chars_ok num base size precision type :
  printable_base base -> 0 <= num <= U64_MAX -> -1 <= size < 1000000000 -> -1 <= precision < 1000000000 ->
  number_chars num base size precision type = number_text num base size precision type.
Proof.
  intros Hb Hn Hs Hp. unfold number_chars, number_text. cbv zeta. fold (no_zeropad type).
  destruct (sign_step_ok num size type Hn ltac:(lia)) as (sg & -> & -> & Hm).
  assert (length (sign_text num type) <= 1)%nat as L1 by (unfold sign_text; repeat case_match; simpl; lia).
  assert (length (prefix_text base type) <= 2)%nat as L2 by (unfold prefix_text; repeat case_match; simpl; lia).
  rewrite prefix_ok, prefix_size by lia.
  rewrite number_digits_ok by (done || apply locase_cases). rewrite small_flag.
  unfold dig. rewrite map_rev, rev_involutive, length_rev.
  set (digits := map _ (digits_of 64 base _)). set (s := sign_text num type) in *. set (x := prefix_text base type) in *.
  set (n := Z.of_nat (length digits)).
  assert (0 < n <= 64) as Hlen.
  { subst n digits. rewrite length_map. pose proof (digits_length base 64 (magnitude num type)). lia. }
  set (p := if precision <? n then n else precision).
  assert (Z.to_nat (p - n) = Z.to_nat (precision - n)) as -> by (subst p; destruct (Z.ltb_spec precision n); lia).
  set (zeros := replicate (Z.to_nat (precision - n)) 48).
  assert (Z.of_nat (length ((s ++ x) ++ zeros ++ digits)) = Z.of_nat (length s) + Z.of_nat (length x) + p) as ->.
  { rewrite !length_app. subst zeros. rewrite length_replicate. subst p. fold n. destruct (Z.ltb_spec precision n); lia. }
  assert (n <= p < 1000000000) by (subst p; destruct (Z.ltb_spec precision n); lia).
  rewrite s32_small by lia. set (room := size - _ - _ - p).
  assert (size - (Z.of_nat (length s) + Z.of_nat (length x) + p) = room) as -> by (subst room; lia).
  assert (-2147480000 <= room < 1000000000) as Hr by (subst room; lia).
  change (ZEROPAD + LEFT) with (Z.lor ZEROPAD LEFT). rewrite flag_either, no_zeropad_zero.
  assert (flag_set (no_zeropad type) LEFT = flag_set type LEFT) as -> by (apply (no_zeropad_flag type 4); lia).
  clearbody room digits s x zeros. clear - Hr.
  assert (-2147480001 <= pad_left room < 0) as Hr1.
  { unfold pad_left. rewrite s32_small by lia. destruct (Z.leb_spec 0 (room - 1)); lia. }
  destruct (flag_set type LEFT), (flag_set type ZEROPAD); cbn [negb andb];
    rewrite ?pad_left_ok, ?pad_count_ok by lia; cbn [replicate]; rewrite ?app_nil_r, <- ?app_assoc; done.
Qed.
