(* ===== verification/VsprintfText.v ===== *)
(** Bounded printing: whatever the format, the bytes a call leaves in its
    buffer are a prefix of one text that depends on the format and the
    arguments only, and nothing behind the given size is written. *)

From S2P Require Import Prelude Bytes Cstring CstringProps Strto Vsprintf VsprintfNumber.

(** * The buffer after a text *)

Definition sink_of (mem : list Z) (end_ : Z) (text : list Z) : sink :=
  Sink (store mem 0 (take (Z.to_nat end_) text)) (Z.of_nat (length text)) false.

Lemma addch_sink mem end_ text c :
  0 <= end_ <= Z.of_nat (length mem) ->
  ADDCH end_ (sink_of mem end_ text) c = sink_of mem end_ (text ++ [u8 c]).
Proof.
  intros He. unfold ADDCH, sink_of. rewrite length_app, Nat2Z.inj_add. cbn [length].
  destruct (Z.ltb_spec (Z.of_nat (length text)) end_) as [L|L].
  - rewrite !take_ge by (rewrite ?length_app; simpl; lia).
    rewrite store_length by lia. destruct (Z.leb_spec (Z.of_nat (length mem)) (Z.of_nat (length text))); [lia|].
    f_equal. rewrite Nat2Z.id. unfold store. change (Z.to_nat 0) with 0%nat. rewrite !take_0, !app_nil_l, !Nat.add_0_l.
    rewrite insert_app_r_alt, Nat.sub_diag by lia. rewrite length_app. cbn [length].
    rewrite (drop_S mem (mem !!! length text)) by (apply list_lookup_lookup_total_lt; lia).
    cbn [insert list_insert]. rewrite <- app_assoc. cbn [app]. by rewrite Nat.add_1_r.
  - rewrite take_app_le by lia. done.
Qed.

Lemma put_all_sink mem end_ cs : forall text,
  0 <= end_ <= Z.of_nat (length mem) ->
  put_all end_ (sink_of mem end_ text) cs = sink_of mem end_ (text ++ map u8 cs).
Proof.
  induction cs as [|c cs IH]; intros text He; [by rewrite app_nil_r|].
  unfold put_all in *. cbn [fold_left map]. rewrite addch_sink, IH by done. by rewrite <- app_assoc.
Qed.

(** * Strings and addresses *)

(** [f] puts the characters [cs], whatever the buffer. *)
Definition puts (f : Z -> sink -> sink) (cs : list Z) : Prop := forall e b, f e b = put_all e b cs.

Definition string_chars (s : option (list Z)) (field_width precision flags : Z) : list Z :=
  let s := default null_text s in
  let len := strnlen s (Z.min (u64 precision) (Z.of_nat (length s))) in
  let left := flag_set flags LEFT in
  (if negb left then replicate (Z.to_nat (field_width - len)) 32 else []) ++ take (Z.to_nat len) s ++
  (if left then replicate (Z.to_nat (field_width - len)) 32 else []).

Lemma string_puts s field_width precision flags :
  puts (fun e b => string e b s field_width precision flags) (string_chars s field_width precision flags).
Proof.
  intros e b. unfold string, string_chars, pad_to. change (match s with Some s0 => s0 | None => null_text end) with (default null_text s).
  set (t := default null_text s). set (len := strnlen _ _).
  destruct (flag_set flags LEFT); cbn [negb fst]; rewrite ?pad_put, ?put_all_app; [by rewrite ?app_nil_l|].
  replace (Z.to_nat (Z.min field_width len - 1 - len)) with 0%nat by lia. cbn [replicate]. by rewrite ?app_nil_r, <- ?app_assoc.
Qed.

Section Text.
Context (ipv6 : bool).
Context (uuid : option ((list Z -> Z -> list Z) * (list Z -> option (list Z)))).
Context (errno_str : option (Z -> list Z)).

Definition some_puts (f : Z -> sink -> sink) : Prop := exists cs, puts f cs.

Lemma number_some num base size precision type :
  some_puts (fun e b => number e b num base size precision type).
Proof. eexists. intros e b. apply number_put. Qed.
Lemma string_some s w p fl : some_puts (fun e b => string e b s w p fl).
Proof. eexists. apply string_puts. Qed.
Lemma some_comp f g : some_puts f -> some_puts g -> some_puts (fun e b => g e (f e b)).
Proof. intros [cs F] [ds G]. exists (cs ++ ds). intros e b. by rewrite F, G, put_all_app. Qed.
Lemma some_id : some_puts (fun _ b => b).
Proof. by exists []. Qed.
Lemma some_addch c : some_puts (fun e b => ADDCH e b c).
Proof. by exists [c]. Qed.
Lemma some_pad n c : some_puts (fun e b => pad e n b c).
Proof. exists (replicate n c). intros e b. apply pad_put. Qed.
Lemma some_put_all cs : some_puts (fun e b => put_all e b cs).
Proof. by exists cs. Qed.

Create HintDb putdb.
#[local] Hint Resolve number_some string_some some_id some_addch some_pad some_put_all : putdb.

Lemma pointer_number_some num w p fl : some_puts (fun e b => pointer_number e b num w p fl).
Proof. unfold pointer_number. destruct (w =? -1); auto with putdb. Qed.
#[local] Hint Resolve pointer_number_some : putdb.

Lemma uuid_string_some f g addr mem w p fl c :
  some_puts (fun e b => uuid_string e f g b addr mem w p fl c).
Proof. unfold uuid_string. repeat case_match; auto with putdb. Qed.
#[local] Hint Resolve uuid_string_some : putdb.

(** A pointer conversion either never has a result or always puts one text. *)
Definition maybe_puts (f : Z -> sink -> option sink) : Prop :=
  (forall e b, f e b = None) \/ exists g, some_puts g /\ forall e b, f e b = Some (g e b).

Lemma maybe_if (c : bool) f g : maybe_puts f -> maybe_puts g -> maybe_puts (fun e b => if c then f e b else g e b).
Proof. by destruct c. Qed.
Lemma maybe_some f : some_puts f -> maybe_puts (fun e b => Some (f e b)).
Proof. intros F. right. by exists f. Qed.
Lemma maybe_none : maybe_puts (fun _ _ => None).
Proof. by left. Qed.
#[local] Hint Resolve maybe_if maybe_some maybe_none : putdb.

Lemma pointer_maybe fmt addr mem w p fl : maybe_puts (fun e b => pointer e ipv6 uuid fmt b addr mem w p fl).
Proof.
  unfold pointer, mac_address_string, ip6_addr_string, ip4_addr_string.
  destruct uuid as [[f g]|]; repeat first [apply maybe_if|apply maybe_some|apply maybe_none]; auto with putdb.
Qed.

(** * One conversion *)

(** With [n] characters out, [f] has no result, or puts one text and goes on
    with one format, one list of arguments and one list of stored counts. *)
Definition steps (n : Z) (f : Z -> sink -> option vstate) : Prop :=
  (forall e b, sk_str b = n -> f e b = None) \/
  exists fmt args g stored, some_puts g /\ forall e b, sk_str b = n -> f e b = Some (VState fmt args (g e b) stored).

Lemma steps_if n (c : bool) f g : steps n f -> steps n g -> steps n (fun e b => if c then f e b else g e b).
Proof. by destruct c. Qed.
Lemma steps_some n fmt args g stored : some_puts g -> steps n (fun e b => Some (VState fmt args (g e b) stored)).
Proof. intros G. right. by exists fmt, args, g, stored. Qed.
Lemma steps_none n : steps n (fun _ _ => None).
Proof. by left. Qed.
Lemma steps_pointer n f fmt args stored :
  maybe_puts f -> steps n (fun e b => match f e b with Some b => Some (VState fmt args b stored) | None => None end).
Proof.
  intros [N|(g & G & E)]; [left; intros e b _; by rewrite N|]. right. exists fmt, args, g, stored.
  split; [done|]. intros e b _. by rewrite E.
Qed.

Lemma conv_int_steps n args stored fmt base q w p fl :
  steps n (fun e b => conv_int e errno_str b args stored fmt base q w p fl).
Proof.
  unfold conv_int. destruct (va_int args) as [[v args']|]; [|apply steps_none]. apply steps_some.
  destruct errno_str as [es|]; [|auto with putdb]. destruct (flag_set fl ERRSTR); [|auto with putdb].
  apply (some_comp (fun e b => ADDCH e (ADDCH e (number e b _ _ _ _ _) 58) 32) (fun e b => put_all e b _)); [|auto with putdb].
  apply (some_comp (fun e b => ADDCH e (number e b _ _ _ _ _) 58) (fun e b => ADDCH e b 32)); [|auto with putdb].
  apply (some_comp (fun e b => number e b _ _ _ _ _) (fun e b => ADDCH e b 58)); auto with putdb.
Qed.

Lemma conv_char_steps n args stored fmt w fl : steps n (fun e b => conv_char e b args stored fmt w fl).
Proof.
  unfold conv_char. destruct (va_int args) as [[v args']|]; [|apply steps_none].
  assert (forall k k', some_puts (fun e b => pad e k (ADDCH e (pad e k' b 32) (u8 v)) 32)) as S.
  { intros k k'. exists (replicate k' 32 ++ [u8 v] ++ replicate k 32). intros e b.
    by rewrite !pad_put, put_one, !put_all_app. }
  destruct (flag_set fl LEFT); cbn [negb]; apply steps_some; [apply (S _ 0%nat)|apply S].
Qed.

Lemma conversion_steps fmt args n stored :
  steps n (fun e b => conversion e ipv6 uuid errno_str fmt args b stored).
Proof.
  unfold conversion. destruct (parse_flags fmt 0) as [fmt1 fl].
  destruct (parse_width fmt1 fl args) as [[[[w fl2] fmt2] args2]|]; [|apply steps_none].
  destruct (parse_precision fmt2 args2) as [[[p fmt3] args3]|]; [|apply steps_none].
  destruct (parse_qualifier fmt3) as [q fmt4]. cbv zeta.
  repeat (apply steps_if); try apply conv_int_steps; try apply conv_char_steps.
  - destruct args3 as [|[|s|] args3]; try apply steps_none. apply steps_some. auto with putdb.
  - destruct args3 as [|[| |addr mem] args3]; try apply steps_none. apply steps_pointer, pointer_maybe.
  - destruct args3 as [|[| |addr mem] args3]; try apply steps_none. right.
    exists (tl fmt4), args3, (fun _ b => b), (stored ++ [if q =? 108 then n else s32 n]).
    split; [auto with putdb|]. by intros e b <-.
  - apply steps_some. auto with putdb.
  - apply steps_some. auto with putdb.
  - apply steps_some. by exists [37; rd fmt4].
Qed.

(** * The format gets shorter *)

Lemma tl_length (s : list Z) : (length (tl s) <= length s)%nat.
Proof. destruct s; simpl; lia. Qed.

Lemma parse_flags_length fmt : forall fl, (length (fst (parse_flags fmt fl)) <= length fmt)%nat.
Proof.
  induction fmt as [|c fmt IH]; intros fl; [done|]. cbn [parse_flags length].
  repeat (match goal with |- context [if ?c then _ else _] => destruct c end; [etransitivity; [apply IH|lia]|]). done.
Qed.

Lemma skip_atoi_length s : forall i, (length (snd (skip_atoi_from s i)) <= length s)%nat.
Proof.
  induction s as [|c s IH]; intros i; [done|]. cbn [skip_atoi_from].
  destruct (is_digit c); [etransitivity; [apply IH|simpl; lia]|done].
Qed.

Lemma parse_width_length fmt fl args w fl' fmt' args' :
  parse_width fmt fl args = Some (w, fl', fmt', args') -> (length fmt' <= length fmt)%nat.
Proof.
  unfold parse_width, skip_atoi. pose proof (skip_atoi_length fmt 0). pose proof (tl_length fmt).
  destruct (is_digit _); [destruct (skip_atoi_from fmt 0); intros; simplify_eq; simpl in *; lia|].
  destruct (rd fmt =? 42); [|intros; by simplify_eq].
  destruct (va_int args) as [[v a]|]; [|done]. destruct (s32 v <? 0); intros; simplify_eq; lia.
Qed.

Lemma parse_precision_length fmt args p fmt' args' :
  parse_precision fmt args = Some (p, fmt', args') -> (length fmt' <= length fmt)%nat.
Proof.
  unfold parse_precision, skip_atoi. pose proof (skip_atoi_length (tl fmt) 0). pose proof (tl_length fmt).
  pose proof (tl_length (tl fmt)). destruct (rd fmt =? 46); [|intros; by simplify_eq].
  destruct (is_digit _); [destruct (skip_atoi_from (tl fmt) 0); intros; simplify_eq; simpl in *; lia|].
  destruct (_ =? 42); [|intros; simplify_eq; lia].
  destruct (va_int args) as [[v a]|]; [|done]. intros; simplify_eq; lia.
Qed.

Lemma parse_qualifier_length fmt : (length (snd (parse_qualifier fmt)) <= length fmt)%nat.
Proof.
  unfold parse_qualifier. pose proof (tl_length fmt). pose proof (tl_length (tl fmt)).
  repeat case_match; simpl; lia.
Qed.

Lemma skip_alnum_length fmt : (length (skip_alnum fmt) <= length fmt)%nat.
Proof. induction fmt as [|c fmt IH]; [done|]. cbn [skip_alnum length]. destruct (isalnum c); simpl; lia. Qed.

Lemma conv_int_fmt e b args stored fmt base q w p fl v :
  conv_int e errno_str b args stored fmt base q w p fl = Some v -> vs_fmt v = fmt.
Proof. unfold conv_int. destruct (va_int args) as [[]|]; [|done]. by intros [= <-]. Qed.
Lemma conv_char_fmt e b args stored fmt w fl v : conv_char e b args stored fmt w fl = Some v -> vs_fmt v = fmt.
Proof. unfold conv_char. destruct (va_int args) as [[]|]; [|done]. destruct (negb _); by intros [= <-]. Qed.

Lemma conversion_length e b fmt args stored v :
  conversion e ipv6 uuid errno_str fmt args b stored = Some v -> (length (vs_fmt v) <= length fmt)%nat.
Proof.
  unfold conversion. pose proof (parse_flags_length fmt 0). destruct (parse_flags fmt 0) as [fmt1 fl].
  destruct (parse_width fmt1 fl args) as [[[[w fl2] fmt2] args2]|] eqn:E1; [|done]. apply parse_width_length in E1.
  destruct (parse_precision fmt2 args2) as [[[p fmt3] args3]|] eqn:E2; [|done]. apply parse_precision_length in E2.
  pose proof (parse_qualifier_length fmt3). destruct (parse_qualifier fmt3) as [q fmt4]. cbv zeta.
  pose proof (tl_length fmt4). pose proof (tl_length (tl fmt4)). pose proof (skip_alnum_length (tl fmt4)).
  cbn [fst snd] in *.
  assert (forall r, vs_fmt v = r -> (length r <= length fmt4)%nat -> (length (vs_fmt v) <= length fmt)%nat) as Done
    by (intros r <-; lia).
  repeat (match goal with |- (if ?c then _ else _) = _ -> _ => destruct c end);
    try (intros E%conv_int_fmt; eapply Done; [exact E|lia]);
    try (intros E%conv_char_fmt; eapply Done; [exact E|lia]);
    repeat case_match; intros; simplify_eq; cbn [vs_fmt]; lia.
Qed.

(** Every round of the loop takes a character of the format, so it ends. *)
Lemma loop_ends e fuel : forall v,
  (length (vs_fmt v) < fuel)%nat -> format_loop e ipv6 uuid errno_str fuel v <> None.
Proof.
  induction fuel as [|fuel IH]; intros [fmt args b stored] Hf; [simpl in Hf; lia|]. cbn [vs_fmt] in Hf.
  cbn [format_loop]. destruct (Z.eqb_spec (rd fmt) 0) as [E0|E0]; [done|].
  destruct fmt as [|c fmt]; [done|]. cbn [rd hd tl length] in *. destruct (c =? 37); cbn [negb].
  - destruct (conversion _ _ _ _ fmt args b stored) as [v|] eqn:E; [|done].
    apply IH. apply conversion_length in E. lia.
  - apply IH. cbn [vs_fmt]. lia.
Qed.

(** * The whole format *)

Lemma loop_text fuel : forall fmt args text stored,
  (forall mem e, 0 <= e <= Z.of_nat (length mem) ->
     match format_loop e ipv6 uuid errno_str fuel (VState fmt args (sink_of mem e text) stored) with
     | Some (Some _) => False | _ => True end) \/
  exists fmt' args' t stored', forall mem e, 0 <= e <= Z.of_nat (length mem) ->
     format_loop e ipv6 uuid errno_str fuel (VState fmt args (sink_of mem e text) stored)
     = Some (Some (VState fmt' args' (sink_of mem e (text ++ map u8 t)) stored')).
Proof.
  induction fuel as [|fuel IH]; intros fmt args text stored; [by left|]. cbn [format_loop].
  destruct (rd fmt =? 0).
  { right. exists fmt, args, [], stored. intros mem e He. by rewrite app_nil_r. }
  destruct (rd fmt =? 37); cbn [negb].
  - destruct (conversion_steps (tl fmt) args (Z.of_nat (length text)) stored)
      as [N|(fmt1 & args1 & g & stored1 & [cs G] & S)].
    { left. intros mem e He. by rewrite N. }
    destruct (IH fmt1 args1 (text ++ map u8 cs) stored1) as [N|(fmt2 & args2 & t & stored2 & R)].
    + left. intros mem e He. rewrite S, G, put_all_sink by done. by apply N.
    + right. exists fmt2, args2, (cs ++ t), stored2. intros mem e He. rewrite S, G, put_all_sink, R by done.
      by rewrite map_app, <- app_assoc.
  - destruct (IH (tl fmt) args (text ++ [u8 (rd fmt)]) stored) as [N|(fmt2 & args2 & t & stored2 & R)].
    + left. intros mem e He. rewrite addch_sink by done. by apply N.
    + right. exists fmt2, args2, (rd fmt :: t), stored2. intros mem e He. rewrite addch_sink, R by done.
      by rewrite <- app_assoc.
Qed.

(** The buffer after a print of [text] with room for [size] bytes. *)
Definition cut_to (mem : list Z) (size : Z) (text : list Z) : list Z :=
  if size =? 0 then mem else store mem 0 (take (Z.to_nat (size - 1)) text ++ [0]).

Lemma terminate_cut mem size text :
  0 < size <= Z.of_nat (length mem) ->
  let b := ADDCH size (sink_of mem size text) 0 in
  (if size <? sk_str b then <[Z.to_nat (size - 1) := 0]> (sk_mem b) else sk_mem b) = cut_to mem size text /\
  sk_str b = Z.of_nat (length text) + 1 /\ sk_over b = false.
Proof.
  intros Hs. rewrite addch_sink by lia. cbv zeta. cbn [sink_of sk_str sk_mem sk_over].
  rewrite length_app. cbn [length]. split; [|split; [lia|done]]. unfold cut_to.
  destruct (Z.eqb_spec size 0); [lia|]. change (u8 0) with 0.
  destruct (Z.ltb_spec size (Z.of_nat (length text + 1))).
  - rewrite take_app_le by lia.
    rewrite <- (take_drop_middle (take (Z.to_nat size) text) (Z.to_nat (size - 1)) (text !!! Z.to_nat (size - 1))).
    2:{ rewrite lookup_take_lt by lia. apply list_lookup_lookup_total_lt. lia. }
    rewrite take_take, Nat.min_l by lia. rewrite (drop_ge (take _ _)) by (rewrite length_take; lia).
    unfold store. change (Z.to_nat 0) with 0%nat. rewrite !take_0, !app_nil_l, !length_app. cbn [length].
    rewrite <- !app_assoc. cbn [app]. rewrite insert_app_r_alt by (rewrite length_take; lia).
    rewrite length_take, Nat.min_l, Nat.sub_diag by lia. done.
  - rewrite !take_ge by (rewrite ?length_app; simpl; lia). done.
Qed.

Lemma vsnprintf_text fmt args :
  (forall mem size, 0 <= size <= Z.of_nat (length mem) -> vsnprintf ipv6 uuid errno_str mem size fmt args = None) \/
  exists t stored, forall mem size, 0 <= size <= Z.of_nat (length mem) ->
    vsnprintf ipv6 uuid errno_str mem size fmt args
    = Some (Printed (s32 (Z.of_nat (length t))) (cut_to mem size (map u8 t)) false stored).
Proof.
  assert (forall mem size, Sink mem 0 false = sink_of mem size []) as E0.
  { intros mem size. unfold sink_of. rewrite take_nil. unfold store. change (Z.to_nat 0) with 0%nat. done. }
  unfold vsnprintf, vsnprintf_internal.
  destruct (loop_text (S (length fmt)) fmt args [] []) as [N|(fmt' & args' & t & stored & R)].
  - left. intros mem size Hs. rewrite (E0 mem size). specialize (N mem size Hs).
    destruct (format_loop _ _ _ _ _ _) as [[v|]|]; done.
  - right. exists t, stored. intros mem size Hs. rewrite (E0 mem size), R by done. cbn [app].
    destruct (Z.ltb_spec 0 size) as [L|L].
    + destruct (terminate_cut mem size (map u8 t) ltac:(lia)) as (-> & -> & ->).
      rewrite length_map. by replace (Z.of_nat (length t) + 1 - 1) with (Z.of_nat (length t)) by lia.
    + assert (size = 0) as -> by lia. cbn [sink_of sk_mem sk_str sk_over]. rewrite length_map. done.
Qed.

(** C34: Bounded printing truncates: once a call returns for a format and its
    arguments, there is one text such that every call with any buffer and any
    size within it returns the length of the text, stores the same counts, and
    leaves the first size - 1 characters of the text and a terminator in the
    buffer, no byte behind it changed; with size 0 nothing is written. *)
Theorem vsnprintf_truncates (mem0 : list Z) (size0 : Z) (fmt : list Z) (args : list arg) (r : printed) :
  0 <= size0 <= Z.of_nat (length mem0) -> vsnprintf ipv6 uuid errno_str mem0 size0 fmt args = Some r ->
  exists text, Forall (fun c => 0 <= c < 256) text /\
    forall mem size, 0 <= size <= Z.of_nat (length mem) ->
      vsnprintf ipv6 uuid errno_str mem size fmt args
      = Some (Printed (s32 (Z.of_nat (length text)))
                (if size =? 0 then mem else store mem 0 (take (Z.to_nat (size - 1)) text ++ [0]))
                false (pr_stored r)).
Proof.
  intros H0 E. destruct (vsnprintf_text fmt args) as [N|(t & stored & R)]; [by rewrite N in E|].
  exists (map u8 t). split.
  - apply Forall_map. apply Forall_forall. intros c _. unfold u8. apply Z.mod_pos_bound. lia.
  - intros mem size Hs. rewrite R in E by done. injection E as <-. rewrite R by done. by rewrite length_map.
Qed.

(** C40: Printing ends: whatever the format and the arguments, the loop over the
    format reaches its end, or an argument that is missing or of another kind,
    within as many rounds as the format has characters, and one. *)
Theorem format_loop_ends (e : Z) (fmt : list Z) (args : list arg) (b : sink) (stored : list Z) :
  format_loop e ipv6 uuid errno_str (S (length fmt)) (VState fmt args b stored) <> None.
Proof. apply loop_ends. cbn [vs_fmt]. lia. Qed.
End Text.

(** "%d%n" with -5 into 2 bytes of 3. *)
Lemma vsnprintf_truncates_witness :
  exists text, Forall (fun c => 0 <= c < 256) text /\
    vsnprintf false None None [9; 9; 9] 2 [37; 100; 37; 110] [ArgInt (-5); ArgPtr 0 []]
    = Some (Printed (s32 (Z.of_nat (length text))) (store [9; 9; 9] 0 (take 1 text ++ [0])) false [2]).
Proof.
  destruct (vsnprintf_truncates false None None [] 0 [37; 100; 37; 110] [ArgInt (-5); ArgPtr 0 []]
              (Printed 2 [] false [2])) as (text & F & R).
  - simpl. lia.
  - vm_compute. reflexivity.
  - exists text. split; [exact F|]. apply (R [9; 9; 9] 2). simpl. lia.
Defined.
