(* ===== verification/VsprintfRound.v ===== *)
(** Printing numbers exactly: the decimal trick, the layout of a field and the
    way back through the parsers of lib/strto.c. *)

From S2P Require Import Prelude Bytes Cstring CstringProps Strto Vsprintf VsprintfNumber VsprintfText.

(** The multiplication trick is decimal conversion: for every 64-bit number
    [put_dec] appends to the buffer exactly its decimal digits, least
    significant first, in as many rounds of five digits as it needs. *)
Theorem put_dec_decimal (buf : list Z) (num : Z) :
  0 <= num <= U64_MAX -> put_dec buf num = buf ++ rev (map digit_char (digits_of 64 10 num)).
Proof. intros H. rewrite put_dec_ok by done. unfold dig. by rewrite map_rev. Qed.

Lemma put_dec_decimal_witness :
  put_dec [7] 18446744073709551615 = [7] ++ rev (map digit_char (digits_of 64 10 18446744073709551615)).
Proof. apply put_dec_decimal. unfold U64_MAX. lia. Defined.

(** C33: A number field is laid out as documented: in octal, decimal or
    hexadecimal, for every 64-bit argument and any flags, [number] writes the
    padding, the sign, the 0 or 0x prefix, the zeros up to the precision and
    the digits in the order the flags ask for, at least as wide as the width. *)
Theorem number_exact (end_ : Z) (b : sink) (num base size precision type : Z) :
  printable_base base -> 0 <= num <= U64_MAX -> -1 <= size < 1000000000 -> -1 <= precision < 1000000000 ->
  number end_ b num base size precision type = put_all end_ b (number_text num base size precision type).
Proof. intros. rewrite number_put. by rewrite number_chars_ok. Qed.

(** -78 in a field of 6 with zeros: "-00078". *)
Lemma number_exact_witness :
  number 10 (Sink (replicate 10 0) 0 false) (u64 (-78)) 10 6 (-1) (Z.lor ZEROPAD SIGN)
  = put_all 10 (Sink (replicate 10 0) 0 false) [45; 48; 48; 48; 55; 56].
Proof.
  apply (number_exact 10 (Sink (replicate 10 0) 0 false) (u64 (-78)) 10 6 (-1) (Z.lor ZEROPAD SIGN)).
  - right. by left.
  - apply u64_range.
  - lia.
  - lia.
Defined.

(** * There and back *)

(** The text of a plain number. *)
Definition plain_text (base n : Z) : list Z := map digit_char (digits_of 64 base n).

Lemma number_text_plain base n (small : bool) :
  0 < base <= 16 -> (0 < base <= 10 \/ small = true) -> 0 <= n <= U64_MAX -> 2 <= base ->
  number_text n base (-1) (-1) (if small then SMALL else 0) = plain_text base n.
Proof.
  intros Hb Hsm Hn H2. unfold number_text, plain_text.
  assert (forall x, (if small then SMALL else 0) = x -> flag_set x LEFT = false /\ flag_set x ZEROPAD = false /\
    flag_set x SIGN = false /\ flag_set x SPECIAL = false /\ flag_set x SMALL = small) as Fl.
  { intros x <-. destruct small; done. }
  destruct (Fl _ eq_refl) as (F1 & F2 & F3 & F4 & F5). unfold magnitude, sign_text, prefix_text.
  rewrite F1, F2, F3, F4, F5. cbn [andb app]. cbv zeta.
  replace (Z.to_nat (-1 - _)) with 0%nat by lia. replace (Z.to_nat (-1 - _)) with 0%nat by lia. cbn [replicate app].
  destruct small; [apply map_ext; intros; apply digit_text_small|]. destruct Hsm as [Hsm|]; [|done]. apply map_ext_Forall.
  destruct (digits_of_ok base 64 n) as (_ & F & _); [lia| |lia|].
  - split; [apply Hn|]. eapply Z.le_lt_trans; [apply Hn|]. by apply pow64.
  - eapply Forall_impl; [exact F|]. intros d [? ?]. unfold digit_text, digit_char. destruct (Z.ltb_spec d 10); lia.
Qed.

Lemma plain_text_bytes base n :
  2 <= base <= 16 -> 0 <= n <= U64_MAX ->
  Forall (fun c => c <> 0 /\ 0 <= c < 256) (plain_text base n) /\ (0 < length (plain_text base n) <= 64)%nat.
Proof.
  intros Hb Hn. unfold plain_text. rewrite length_map. split; [|apply digits_length; lia].
  destruct (digits_of_ok base 64 n) as (_ & F & _); [lia| |lia|].
  - split; [apply Hn|]. eapply Z.le_lt_trans; [apply Hn|]. apply pow64. lia.
  - apply Forall_map. eapply Forall_impl; [exact F|]. intros d [? ?]. unfold digit_char.
    destruct (Z.ltb_spec d 10); lia.
Qed.

Lemma digit_char_not_x d : 0 <= d < 16 -> tolower (digit_char d) <> 120.
Proof.
  intros H. assert (forallb (fun v => negb (tolower (digit_char v) =? 120)) (map Z.of_nat (seq 0 16)) = true) as F
    by (vm_compute; reflexivity).
  rewrite forallb_forall in F. specialize (F d). rewrite negb_true_iff, Z.eqb_neq in F.
  apply F, in_map_iff. exists (Z.to_nat d). rewrite in_seq. lia.
Qed.

Lemma parse_plain base n : 2 <= base <= 16 -> 0 <= n <= U64_MAX -> simple_strtoul (plain_text base n) base = (n, []).
Proof. intros Hb Hn. by apply strtoul_digits. Qed.

(** The digits of a number are read up to anything that is not a digit. *)
Lemma parse_plain_rest base n rest :
  2 <= base <= 16 -> 0 <= n <= U64_MAX ->
  (forall c, head rest = Some c -> base <= decode_digit c /\ tolower c <> 120) ->
  simple_strtoul (plain_text base n ++ rest) base = (n, rest).
Proof.
  intros Hb Hn Hr. unfold plain_text.
  destruct (digits_of_ok base 64 n) as (E & F & Ne); [lia| |lia|].
  { split; [apply Hn|]. eapply Z.le_lt_trans; [apply Hn|]. apply pow64. lia. }
  generalize dependent (digits_of 64 base n). intros ds E F Ne.
  assert (map decode_digit (map digit_char ds) = ds) as Ed.
  { rewrite map_map. rewrite <- (map_id ds) at 2. apply map_ext_Forall. eapply Forall_impl; [exact F|].
    intros d [? ?]. apply digit_char_ok. lia. }
  assert (Forall (fun c => decode_digit c < base /\ tolower c <> 120) (map digit_char ds)) as Ft.
  { apply Forall_map. eapply Forall_impl; [exact F|]. intros d [? ?]. cbn beta.
    rewrite (proj1 (digit_char_ok d ltac:(lia))). split; [lia|]. by apply digit_char_not_x; lia. }
  rewrite strtoul_value; [by rewrite Ed, E, u64_small|lia|by destruct ds| | |].
  - eapply Forall_impl; [exact Ft|]. by intros c [? _].
  - intros c Hc. by apply Hr.
  - right. destruct ds as [|d [|d' ds]]; [done| |].
    + cbn [map app tl]. destruct rest as [|c rest]; [done|]. by apply (Hr c).
    + cbn [map app tl rd hd] in *. apply Forall_cons in Ft as [_ Ft]. apply Forall_cons in Ft as [[_ ?] _]. done.
Qed.

(** The long conversions for octal, decimal and hexadecimal. *)
Definition long_conv (base : Z) : Z := if base =? 8 then 111 else if base =? 10 then 117 else 120.

Section Round.
Context (ipv6 : bool).
Context (uuid : option ((list Z -> Z -> list Z) * (list Z -> option (list Z)))).
Context (errno_str : option (Z -> list Z)).

Lemma long_conv_loop base n :
  printable_base base -> 0 <= n <= U64_MAX ->
  forall e b, format_loop e ipv6 uuid errno_str 4 (VState [37; 108; long_conv base] [ArgInt n] b [])
    = Some (Some (VState [] [] (put_all e b (plain_text base n)) [])).
Proof.
  intros Hb Hn.
  assert (exists small : bool, (0 < base <= 10 \/ small = true) /\ forall e b,
    format_loop e ipv6 uuid errno_str 4 (VState [37; 108; long_conv base] [ArgInt n] b [])
    = Some (Some (VState [] [] (number e b n base (-1) (-1) (if small then SMALL else 0)) []))) as (small & Hsm & E).
  { destruct Hb as [->|[->| ->]]; [exists false|exists false|exists true]; (split; [lia || by right|]); intros e b;
      cbn -[number int_arg u64]; unfold int_arg; cbn -[number u64]; rewrite u64_small by done;
      destruct errno_str; reflexivity. }
  assert (2 <= base <= 16) as Hb2 by (destruct Hb as [->|[->| ->]]; lia).
  intros e b. rewrite E, number_put, number_chars_ok, number_text_plain by (done || lia). done.
Qed.

Lemma plain_text_u8 base n : 2 <= base <= 16 -> 0 <= n <= U64_MAX -> map u8 (plain_text base n) = plain_text base n.
Proof.
  intros Hb Hn. destruct (plain_text_bytes base n Hb Hn) as [Fb _].
  rewrite <- (map_id (plain_text base n)) at 2. apply map_ext_Forall. eapply Forall_impl; [exact Fb|].
  intros c [_ ?]. by apply u8_small.
Qed.

Lemma long_conv_prints base n mem size :
  printable_base base -> 0 <= n <= U64_MAX -> 0 <= size <= Z.of_nat (length mem) ->
  vsnprintf ipv6 uuid errno_str mem size [37; 108; long_conv base] [ArgInt n]
  = Some (Printed (Z.of_nat (length (plain_text base n))) (cut_to mem size (plain_text base n)) false []).
Proof.
  intros Hb Hn Hs. assert (2 <= base <= 16) as Hb2 by (destruct Hb as [->|[->| ->]]; lia).
  destruct (plain_text_bytes base n Hb2 Hn) as [Fb Lb].
  unfold vsnprintf, vsnprintf_internal. cbn [length]. rewrite long_conv_loop by done. cbn iota beta.
  assert (Sink mem 0 false = sink_of mem size []) as -> by (unfold sink_of; by rewrite take_nil).
  rewrite put_all_sink, plain_text_u8 by (done || lia). cbn [app].
  destruct (Z.ltb_spec 0 size) as [L|L].
  - destruct (terminate_cut mem size (plain_text base n) ltac:(lia)) as (-> & -> & ->).
    by rewrite s32_small, Z.add_simpl_r by lia.
  - assert (size = 0) as -> by lia. cbn [sink_of sk_mem sk_str sk_over]. by rewrite s32_small by lia.
Qed.

(** Writes within the buffer do not depend on its end. *)
Lemma put_all_end e e' cs : forall b,
  sk_str b + Z.of_nat (length cs) <= e -> sk_str b + Z.of_nat (length cs) <= e' -> put_all e b cs = put_all e' b cs.
Proof.
  induction cs as [|c cs IH]; intros [m str over] H1 H2; [done|]. unfold put_all in *. cbn [fold_left length sk_str] in *.
  unfold ADDCH at 2 4. destruct (Z.ltb_spec str e), (Z.ltb_spec str e'); try lia. apply IH; cbn [sk_str]; lia.
Qed.

(** An unbounded print of a text that fits its memory. *)
Lemma sprintf_fits mem fmt args text fmt' args' stored :
  (forall e b, sk_str b = 0 -> format_loop e ipv6 uuid errno_str (S (length fmt)) (VState fmt args b [])
     = Some (Some (VState fmt' args' (put_all e b text) stored))) ->
  (length text < length mem)%nat -> Z.of_nat (length mem) <= INT_MAX ->
  sprintf ipv6 uuid errno_str mem fmt args
  = Some (Printed (Z.of_nat (length text)) (store mem 0 (map u8 text ++ [0])) false stored).
Proof.
  intros E Hl Hm. unfold sprintf, vsprintf, vsnprintf_internal. rewrite E by done. cbn iota beta.
  change (0 <? INT_MAX) with true. cbn iota.
  change (ADDCH ?e (put_all ?e ?b ?cs) 0) with (put_all e (put_all e b cs) [0]). rewrite put_all_app.
  rewrite (put_all_end INT_MAX (Z.of_nat (length mem))) by (cbn [sk_str]; rewrite length_app; cbn [length]; lia).
  assert (Sink mem 0 false = sink_of mem (Z.of_nat (length mem)) []) as -> by (unfold sink_of; by rewrite take_nil).
  rewrite put_all_sink by lia. cbn [sink_of sk_str sk_mem sk_over app].
  rewrite map_app, length_app, length_map. cbn [map length]. change (u8 0) with 0.
  rewrite take_ge by (rewrite length_app, length_map; cbn [length]; lia).
  destruct (Z.ltb_spec INT_MAX (Z.of_nat (length text + 1))); [lia|].
  rewrite s32_small by (unfold INT_MAX in *; lia). do 2 f_equal. lia.
Qed.

Lemma long_conv_sprintf base n mem :
  printable_base base -> 0 <= n <= U64_MAX -> (length (plain_text base n) < length mem)%nat ->
  Z.of_nat (length mem) <= INT_MAX ->
  sprintf ipv6 uuid errno_str mem [37; 108; long_conv base] [ArgInt n]
  = Some (Printed (Z.of_nat (length (plain_text base n))) (store mem 0 (plain_text base n ++ [0])) false []).
Proof.
  intros Hb Hn Hl Hm. assert (2 <= base <= 16) as Hb2 by (destruct Hb as [->|[->| ->]]; lia).
  rewrite <- (plain_text_u8 base n) at 2 by done. eapply sprintf_fits; [|done|done].
  intros e b _. by apply long_conv_loop.
Qed.

(** A signed decimal number that is not negative. *)
Lemma number_dec e b v : 0 <= v < 2147483648 ->
  number e b (u64 (s32 v)) 10 (-1) (-1) SIGN = put_all e b (plain_text 10 v).
Proof.
  intros Hv. rewrite s32_small, u64_small by (unfold U64_MAX; lia). rewrite number_put.
  rewrite number_chars_ok by (lia || (unfold U64_MAX; lia) || by right; left). f_equal.
  rewrite <- (number_text_plain 10 v false) by (lia || (unfold U64_MAX; lia)). unfold number_text, sign_text, magnitude.
  change (flag_set SIGN SIGN) with true. change (flag_set 0 SIGN) with false.
  assert ((s64 v <? 0) = false) as -> by (apply Z.ltb_ge; unfold s64; rewrite Z.mod_small by lia; lia). done.
Qed.

Lemma hex_text_length n : 0 <= n <= U64_MAX -> (length (plain_text 16 n) <= 16)%nat.
Proof.
  intros Hn. unfold plain_text. rewrite length_map, (digits_fuel 16 64 16 n); [apply digits_length; lia|lia| | |lia|lia].
  - split; [apply Hn|]. eapply Z.le_lt_trans; [apply Hn|]. by apply pow64.
  - unfold U64_MAX in Hn. change (16 ^ Z.of_nat 16) with 18446744073709551616. lia.
Qed.

(** Printing and parsing numbers is lossless: every 64-bit number printed
    with %lo, %lu or %lx into a buffer the text fits in reads back as itself
    in the same base with nothing left over. *)
Theorem print_parse_roundtrip (base n : Z) (mem : list Z) (size : Z) :
  printable_base base -> 0 <= n <= U64_MAX -> 64 < size <= Z.of_nat (length mem) ->
  exists r, snprintf ipv6 uuid errno_str mem size [37; 108; long_conv base] [ArgInt n] = Some r /\
    pr_over r = false /\ pr_ret r = strlen (pr_mem r) /\
    simple_strtoul (cstr (pr_mem r)) base = (n, []).
Proof.
  intros Hb Hn Hs. eexists. split; [apply long_conv_prints; [done|done|lia]|]. cbn [pr_over pr_ret pr_mem].
  assert (2 <= base <= 16) as Hb2 by (destruct Hb as [->|[->| ->]]; lia).
  destruct (plain_text_bytes base n Hb2 Hn) as [Fb Lb].
  assert (cstr (cut_to mem size (plain_text base n)) = plain_text base n) as Ec.
  { unfold cut_to. destruct (Z.eqb_spec size 0); [lia|]. rewrite take_ge by lia. unfold store.
    change (Z.to_nat 0) with 0%nat. rewrite take_0, app_nil_l, <- app_assoc. cbn [app]. apply cstr_app_end.
    eapply Forall_impl; [exact Fb|]. by intros c [? _]. }
  rewrite strlen_cstr, Ec. split; [done|]. split; [done|]. by apply parse_plain.
Qed.

Lemma itoa_loop_ok fuel : forall i text,
  0 <= i <= U64_MAX -> i < 10 ^ Z.of_nat fuel -> (0 < fuel)%nat ->
  itoa_loop fuel i text = rev (map digit_char (dig 10 i)) ++ text.
Proof.
  induction fuel as [|fuel IH]; intros i text Hi Hf H0; [lia|]. cbn [itoa_loop].
  rewrite Nat2Z.inj_succ, Z.pow_succ_r in Hf by lia.
  assert (48 + i mod 10 = digit_char (i mod 10)) as ->.
  { unfold digit_char. pose proof (Z.mod_pos_bound i 10 ltac:(lia)). destruct (Z.ltb_spec (i mod 10) 10); lia. }
  destruct (Z.ltb_spec 0 (i / 10)).
  - rewrite IH; [|zlia|apply Z.div_lt_upper_bound; lia|].
    + rewrite (dig_step 10 i) by zlia. cbn [map rev]. by rewrite <- app_assoc.
    + destruct fuel; [change (10 ^ Z.of_nat 0) with 1 in Hf; zlia|lia].
  - rewrite dig_small by zlia. cbn [map rev app]. by rewrite Z.mod_small by zlia.
Qed.

Lemma simple_itoa_ok i : 0 <= i <= U64_MAX -> simple_itoa i = plain_text 10 i.
Proof.
  intros Hi. unfold simple_itoa. rewrite itoa_loop_ok; [|done| |lia].
  - rewrite app_nil_r. unfold dig, plain_text. by rewrite map_rev, rev_involutive.
  - unfold U64_MAX in Hi. change (10 ^ Z.of_nat 21) with 1000000000000000000000. lia.
Qed.
End Round.

Lemma print_parse_roundtrip_witness :
  exists r, snprintf false None None (replicate 70 0) 65 [37; 108; 120] [ArgInt 3735928559] = Some r /\
    pr_over r = false /\ pr_ret r = strlen (pr_mem r) /\ simple_strtoul (cstr (pr_mem r)) 16 = (3735928559, []).
Proof.
  apply (print_parse_roundtrip false None None 16 3735928559 (replicate 70 0) 65).
  - right. by right.
  - unfold U64_MAX. lia.
  - rewrite length_replicate. lia.
Defined.
