(* ===== verification/EnvCommon.v ===== *)
(** The environment's front end (env/common.c): setting and getting variables,
    the linear environment read before relocation, defaults, and import and
    export of the stored image with its CRC and serial number.

    Strings are lists of bytes whose end reads as the terminator.  A call that
    follows a null pointer or writes past a buffer ends in [Overrun]; [Hangs]
    is a search of the table that does not end.  Messages are left out. *)

From S2P Require Import Prelude Bytes Cstring Strto Hashtable HashIO EnvFlags Crc32 Vsprintf.

Inductive env_valid := ENV_INVALID | ENV_VALID | ENV_REDUND.

(** The stored image: checksum, serial number (CONFIG_SYS_REDUNDAND_ENVIRONMENT)
    and ENV_SIZE bytes of data. *)
Record env_t := EnvT { et_crc : Z; et_flags : Z; et_data : list Z }.

(** The table, the flags GD_FLG_ENV_READY and GD_FLG_ENV_DEFAULT, gd->env_valid,
    the memory at gd->env_addr, gd->env_buf, env_id and the serial number. *)
Record env_state := Env {
  es_htab : hsearch_data; es_ready : bool; es_default : bool; es_valid : env_valid;
  es_addr : list Z; es_buf : list Z; es_id : Z; es_serial : Z
}.

Definition with_htab (st : env_state) (h : hsearch_data) : env_state :=
  Env h (es_ready st) (es_default st) (es_valid st) (es_addr st) (es_buf st) (es_id st) (es_serial st).
Definition with_ready (st : env_state) : env_state :=
  Env (es_htab st) true (es_default st) (es_valid st) (es_addr st) (es_buf st) (es_id st) (es_serial st).
Definition with_default (st : env_state) : env_state :=
  Env (es_htab st) (es_ready st) true (es_valid st) (es_addr st) (es_buf st) (es_id st) (es_serial st).
Definition with_valid (st : env_state) (v : env_valid) : env_state :=
  Env (es_htab st) (es_ready st) (es_default st) v (es_addr st) (es_buf st) (es_id st) (es_serial st).
Definition with_buf (st : env_state) (b : list Z) : env_state :=
  Env (es_htab st) (es_ready st) (es_default st) (es_valid st) (es_addr st) b (es_id st) (es_serial st).
Definition with_serial (st : env_state) (n : Z) : env_state :=
  Env (es_htab st) (es_ready st) (es_default st) (es_valid st) (es_addr st) (es_buf st) (es_id st) n.

Definition env_get_id (st : env_state) : Z := es_id st.
Definition env_inc_id (st : env_state) : env_state :=
  Env (es_htab st) (es_ready st) (es_default st) (es_valid st) (es_addr st) (es_buf st) (s32 (es_id st + 1)) (es_serial st).

Definition ENOMSG : Z := 42.
Definition CMD_RET_USAGE : Z := -1.

(** * The linear environment *)

(** The characters behind the dash of an option. *)
Fixpoint option_chars (arg : list Z) (env_flag : Z) : option Z :=
  match arg with
  | [] => Some env_flag
  | c :: arg' =>
      if c =? 0 then Some env_flag
      else if c =? 102 then option_chars arg' (Z.lor env_flag H_FORCE) else None
  end.

(** The arguments from [argv + 1] on; [None] is a usage error. *)
Fixpoint set_options (argv : list (list Z)) (env_flag : Z) : option (list (list Z) * Z) :=
  match argv with
  | arg :: argv' =>
      if rd arg =? 45 then
        match option_chars (tl arg) env_flag with
        | Some env_flag => set_options argv' env_flag
        | None => None
        end
      else Some (argv, env_flag)
  | [] => Some ([], env_flag)
  end.

(** Every argument is followed by a space; the last one becomes the
    terminator. *)
Definition join_values (argv : list (list Z)) : list Z :=
  removelast (concat (map (fun v => cstr v ++ [32]) argv)).

Section Linear.
(** CONFIG_ENV_SIZE. *)
Context (config_env_size : Z).

(** [p] is the memory from the entry on, [off] its offset from [env]. *)
Fixpoint linear_loop (fuel : nat) (p : list Z) (off : Z) (name : list Z) (buf : list Z) (len : Z)
  : Z * list Z :=
  match fuel with
  | O => (-1, buf)
  | S n =>
      if rd p =? 0 then (-1, buf)
      else
        let l := strlen p in
        if config_env_size <? off + l then (-1, buf)
        else
          let name_len := strlen name in
          if negb (strncmp name p name_len =? 0) || negb (rd (drop (Z.to_nat name_len) p) =? 61)
          then linear_loop n (drop (Z.to_nat (l + 1)) p) (off + l + 1) name buf len
          else
            let value := drop (Z.to_nat (name_len + 1)) p in
            let res := l - (name_len + 1) in
            let buf := store buf 0 (take (Z.to_nat (Z.min len (res + 1))) (cstr value ++ [0])) in
            let buf := if len <=? res then <[Z.to_nat (len - 1) := 0]> buf else buf in
            (res, buf)
  end.

(** The return value and the buffer; every entry takes a byte of the memory. *)
Definition env_get_from_linear (env name buf : list Z) (len : Z) : Z * list Z :=
  if rd name =? 0 then (-1, buf) else linear_loop (S (length env)) env 0 name buf len.
End Linear.

(** * The table *)

Section Env.
Context `{EnvHooks}.
(** CONFIG_ENV_MIN_ENTRIES, CONFIG_ENV_MAX_ENTRIES, ENV_APPEND,
    CONFIG_ENV_SIZE and default_environment. *)
Context (min_entries max_entries : Z) (env_append : bool) (config_env_size : Z) (default_environment : list Z).
(** Whether the image has a serial number, and the address of the device tree
    when it came in a bloblist. *)
Context (redundant : bool) (fdt_blob : option Z).

Definition ENV_SIZE : Z := config_env_size - (if redundant then 5 else 4).

(** [mem]: the joined value finds memory; the copies in the table do. *)
Definition env_do_env_set (mem : bool) (argv : list (list Z)) (env_flag : Z) (st : env_state)
  : outcome (Z * env_state) :=
  match set_options (tl argv) env_flag with
  | None => Done (CMD_RET_USAGE, st)
  | Some ([], _) => Overrun
  | Some (name :: values, env_flag) =>
      match strchr name 61 with
      | Some _ => Done (1, st)
      | None =>
          let st := env_inc_id st in
          match values with
          | [] =>
              match hdelete_r (cstr name) (es_htab st) env_flag with
              | None => Hangs
              | Some (rc, _, h) =>
                  Done (if negb (rc =? 0) && negb (rc =? - ENOENT) then 1 else 0, with_htab st h)
              end
          | _ =>
              if negb mem then Done (1, st)
              else
                match hsearch_r true true (cstr name) (Some (join_values values)) ENV_ENTER (es_htab st) env_flag with
                | None => Hangs
                | Some r => Done (match sr_retval r with Some _ => 0 | None => 1 end, with_htab st (sr_tab r))
                end
          end
      end
  end.

Definition env_set (varname : list Z) (varvalue : option (list Z)) (st : env_state) : outcome (Z * env_state) :=
  let setenv := [115; 101; 116; 101; 110; 118] in
  if negb (es_ready st) then Done (1, st)
  else
    match varvalue with
    | Some v => if rd v =? 0 then env_do_env_set true [setenv; varname] H_PROGRAMMATIC st
                else env_do_env_set true [setenv; varname; v] H_PROGRAMMATIC st
    | None => env_do_env_set true [setenv; varname] H_PROGRAMMATIC st
    end.

Definition env_set_ulong (varname : list Z) (value : Z) (st : env_state) : outcome (Z * env_state) :=
  env_set varname (Some (simple_itoa value)) st.

(** [char str[17]] and "%lx". *)
Definition env_set_hex (varname : list Z) (value : Z) (st : env_state) : outcome (Z * env_state) :=
  match sprintf false None None (replicate 17 0) [37; 108; 120] [ArgInt value] with
  | Some r => if pr_over r then Overrun else env_set varname (Some (cstr (pr_mem r))) st
  | None => Overrun
  end.

Definition env_get_f (name buf : list Z) (len : Z) (st : env_state) : Z * list Z :=
  env_get_from_linear config_env_size
    (match es_valid st with ENV_INVALID => default_environment | _ => es_addr st end) name buf len.

(** The value, [None] for NULL; before the import it is in gd->env_buf. *)
Definition env_get (name : list Z) (st : env_state) : outcome (option (list Z) * env_state) :=
  if es_ready st then
    match hsearch_r true true (cstr name) None ENV_FIND (es_htab st) 0 with
    | None => Hangs
    | Some r =>
        Done (match sr_retval r with Some i => e_data (entry (node (es_htab st) i)) | None => None end, st)
    end
  else
    let (ret, buf) := env_get_f name (es_buf st) 32 st in
    let st := with_buf st buf in
    Done (if 0 <=? ret then Some (cstr buf) else None, st).

Definition from_env := env_get.

Definition env_get_hex (varname : list Z) (default_val : Z) (st : env_state) : outcome (Z * env_state) :=
  match env_get varname st with
  | Done (Some s, st) =>
      let (value, endp) := hextoul s in
      Done (if Z.of_nat (length endp) =? Z.of_nat (length s) then default_val else value, st)
  | Done (None, st) => Done (default_val, st)
  | Hangs => Hangs
  | Overrun => Overrun
  end.

Definition env_get_ulong (name : list Z) (base default_val : Z) (st : env_state) : outcome (Z * env_state) :=
  match env_get name st with
  | Done (Some s, st) => Done (fst (simple_strtoul s base), st)
  | Done (None, st) => Done (default_val, st)
  | Hangs => Hangs
  | Overrun => Overrun
  end.

(** One of 1, y, Y, t and T. *)
Definition env_get_yesno (var : list Z) (st : env_state) : outcome (Z * env_state) :=
  match env_get var st with
  | Done (Some s, st) =>
      let c := rd s in
      Done (if (c =? 49) || (c =? 121) || (c =? 89) || (c =? 116) || (c =? 84) then 1 else 0, st)
  | Done (None, st) => Done (-1, st)
  | Hangs => Hangs
  | Overrun => Overrun
  end.

(** "autostart" *)
Definition env_get_autostart (st : env_state) : outcome (bool * env_state) :=
  match env_get_yesno [97; 117; 116; 111; 115; 116; 97; 114; 116] st with
  | Done (r, st) => Done (r =? 1, st)
  | Hangs => Hangs
  | Overrun => Overrun
  end.

Definition env_get_default_into (name buf : list Z) (len : Z) : Z * list Z :=
  env_get_from_linear config_env_size default_environment name buf len.

Definition env_get_default (name : list Z) (st : env_state) : option (list Z) * env_state :=
  let (ret, buf) := env_get_default_into name (es_buf st) 32 in
  (if 0 <=? ret then Some (cstr buf) else None, with_buf st buf).

(** "fdt_addr" *)
Definition env_update_fdt_addr_from_bloblist (st : env_state) : outcome (Z * env_state) :=
  match fdt_blob with
  | None => Done (0, st)
  | Some addr => env_set_hex [102; 100; 116; 95; 97; 100; 100; 114] addr st
  end.

Definition import_table (st : env_state) (data : list Z) (flags : Z) (vars : list (list Z)) : outcome (Z * env_state) :=
  match himport_r min_entries max_entries env_append true true (es_htab st) data 0 flags false vars with
  | None => Hangs
  | Some (ret, h) => Done (ret, with_htab st h)
  end.

(** An error of the update of fdt_addr is only reported. *)
Definition env_set_default (flags : Z) (st : env_state) : outcome env_state :=
  match import_table st default_environment (Z.lor flags H_DEFAULT) [] with
  | Done (ret, st) =>
      if ret =? 0 then Done st
      else
        match env_update_fdt_addr_from_bloblist (with_default (with_ready st)) with
        | Done (_, st) => Done st
        | Hangs => Hangs
        | Overrun => Overrun
        end
  | Hangs => Hangs
  | Overrun => Overrun
  end.

Definition env_set_default_vars (vars : list (list Z)) (flags : Z) (st : env_state) : outcome (Z * env_state) :=
  let flags := match vars with [] => Z.lor flags H_NOCLEAR | _ => flags end in
  import_table st default_environment (Z.lor flags H_DEFAULT) vars.

(** [addr]: where the data is, which crc32 aligns its reads to. *)
Definition env_import (addr : Z) (ep : env_t) (check : bool) (flags : Z) (st : env_state)
  : outcome (Z * env_state) :=
  let default_with ret :=
    match env_set_default 0 st with
    | Done st => Done (ret, st)
    | Hangs => Hangs
    | Overrun => Overrun
    end in
  if check && negb (crc32 addr 0 (et_data ep) =? et_crc ep) then default_with (- ENOMSG)
  else
    match import_table st (et_data ep) flags [] with
    | Done (ret, st) =>
        if negb (ret =? 0) then env_update_fdt_addr_from_bloblist (with_ready st)
        else match env_set_default 0 st with
             | Done st => Done (- EIO, st)
             | Hangs => Hangs
             | Overrun => Overrun
             end
    | Hangs => Hangs
    | Overrun => Overrun
    end.

(** A copy that could not be read is [None]. *)
Definition env_check_redund (addr1 addr2 : Z) (buf1 buf2 : option env_t) (st : env_state) : Z * env_state :=
  let crc_ok addr buf :=
    match buf with Some ep => crc32 addr 0 (et_data ep) =? et_crc ep | None => false end in
  match buf1, buf2 with
  | None, None => (- EIO, st)
  | _, _ =>
      let crc1_ok := crc_ok addr1 buf1 in
      let crc2_ok := crc_ok addr2 buf2 in
      if negb crc1_ok && negb crc2_ok then (- ENOMSG, with_valid st ENV_INVALID)
      else if crc1_ok && negb crc2_ok then (0, with_valid st ENV_VALID)
      else if negb crc1_ok && crc2_ok then (0, with_valid st ENV_REDUND)
      else
        let f1 := match buf1 with Some ep => et_flags ep | None => 0 end in
        let f2 := match buf2 with Some ep => et_flags ep | None => 0 end in
        if (f1 =? 255) && (f2 =? 0) then (0, with_valid st ENV_REDUND)
        else if (f2 =? 255) && (f1 =? 0) then (0, with_valid st ENV_VALID)
        else if f2 <? f1 then (0, with_valid st ENV_VALID)
        else if f1 <? f2 then (0, with_valid st ENV_REDUND)
        else (0, with_valid st ENV_VALID)
  end.

Definition env_import_redund (addr1 addr2 : Z) (buf1 buf2 : option env_t) (flags : Z) (st : env_state)
  : outcome (Z * env_state) :=
  let (ret, st) := env_check_redund addr1 addr2 buf1 buf2 st in
  if (ret =? - EIO) || (ret =? - ENOMSG) then
    match env_set_default 0 st with
    | Done st => Done (ret, st)
    | Hangs => Hangs
    | Overrun => Overrun
    end
  else
    let '(addr, ep) := match es_valid st with ENV_VALID => (addr1, buf1) | _ => (addr2, buf2) end in
    match ep with
    | None => Overrun
    | Some ep => env_import addr ep false flags (with_serial st (et_flags ep))
    end.

(** The return value, the image and the new serial number; [flags] of an image
    without one stays. *)
Definition env_export (addr : Z) (out : env_t) (st : env_state) : outcome (Z * env_t * env_state) :=
  match hexport_r true true (es_htab st) 0 0 ENV_SIZE [] with
  | ExportError _ => Done (1, out, st)
  | ExportOverrun => Overrun
  | ExportOk _ buf =>
      let crc := crc32 addr 0 buf in
      if redundant then
        let serial := u8 (es_serial st + 1) in
        Done (0, EnvT crc serial buf, with_serial st serial)
      else Done (0, EnvT crc (et_flags out) buf, st)
  end.
End Env.
