(* ===== verification/EnvCommonProps.v ===== *)
(** The environment's front end: [env_set] and [env_get] are update and lookup
    of a map of variables, and numbers stored in variables come back. *)

From stdpp Require Import gmap.
From S2P Require Import Prelude Bytes Cstring CstringProps Strto Hashtable HashSearch HashProps HashClaims.
From S2P Require Import HashEntries HashIO EnvAttr EnvFlags Crc32 Vsprintf VsprintfNumber.
From S2P Require Import VsprintfText VsprintfRound EnvCommon.

(** * The entry returned and errno *)

Section Returned.
Context `{EnvHooks}.

Definition settled (r : search_result) : Prop := sr_retval r = None <-> sr_errno r <> None.

Lemma compare_settled md key data action h flag hval idx r :
  compare_and_overwrite_entry md key data action h flag hval idx = Some r -> settled r.
Proof.
  unfold compare_and_overwrite_entry, settled. repeat case_match; intros; simplify_eq; cbn; naive_solver.
Qed.

Lemma probe_settled fuel : forall md key data action h flag hval hval2 idx fd r,
  probe_loop fuel md key data action h flag hval hval2 idx fd = Some (inl r) -> settled r.
Proof.
  induction fuel as [|fuel IH]; intros *; [done|]. cbn [probe_loop]. cbv zeta.
  destruct (_ =? hval); [done|].
  destruct (compare_and_overwrite_entry _ _ _ _ _ _ _ _) eqn:E; [intros [= <-]; by eapply compare_settled|].
  destruct (negb _); [apply IH|done].
Qed.

Lemma hsearch_settled mk md key data action h flag r :
  hsearch_r mk md key data action h flag = Some r -> settled r.
Proof.
  unfold hsearch_r. destruct (search_slot md key data action h flag) as [[r'|[idx fd]]|] eqn:E; [|..|done].
  - intros [= <-]. unfold search_slot in E. destruct (negb _); [|done].
    destruct (compare_and_overwrite_entry _ _ _ _ _ _ _ _) eqn:E2.
    + injection E as <-. by eapply compare_settled.
    + by eapply probe_settled.
  - destruct action; [by intros [= <-]; cbn; unfold settled; cbn; naive_solver|].
    destruct (_ =? _); [by intros [= <-]; unfold settled; cbn; naive_solver|]. intros [= <-].
    unfold settled, create_entry. repeat case_match; cbn; naive_solver.
Qed.
End Returned.

(** * Setting and getting *)

(** Names [env_set] can set: no '=', and no leading dash, which would be read
    as an option. *)
Definition settable (name : list Z) : Prop := plain name /\ ~ In 61 name /\ rd name <> 45.

Section Set_Get.
Context `{EnvHooks}.
Context (config_env_size : Z) (default_environment : list Z).
Implicit Types (st : env_state) (M : env_map) (name v : list Z).

Abbreviation get := (env_get config_env_size default_environment).

(** The map after a variable is set; an empty value deletes it. *)
Definition set_var (full : bool) (name v : list Z) (M : env_map) : Z * env_map :=
  match v with
  | [] => let (rc, M') := delete_entry H_PROGRAMMATIC name M in
          (if decide (rc = 0 \/ rc = - ENOENT) then 0 else 1, M')
  | _ => let (err, M') := enter_entry full H_PROGRAMMATIC name v M in
         (match err with None => 0 | Some _ => 1 end, M')
  end.

(** The state represents the map, and the import has been done. *)
Definition env_holds st M : Prop := es_ready st = true /\ env_rep (es_htab st) M.

Lemma join_one v : plain v -> join_values [v] = v.
Proof. intros P. unfold join_values. cbn [map concat]. rewrite app_nil_r, cstr_plain by done. apply removelast_last. Qed.

Lemma env_get_ok st M k : env_holds st M -> plain k -> get k st = Done (M !! k ≫= e_data, st).
Proof.
  intros [Rd R] Pk. unfold env_get. rewrite Rd, cstr_plain by done.
  pose proof (find_refines (es_htab st) M k 0 R Pk) as F. destruct (M !! k) as [e|].
  - destruct F as (i & _ & <- & ->). done.
  - by rewrite F.
Qed.

Lemma env_set_ok st M name v :
  env_holds st M -> settable name -> plain v ->
  exists st', env_set name (Some v) st = Done (fst (set_var (filled (es_htab st) =? size (es_htab st)) name v M), st') /\
    env_holds st' (snd (set_var (filled (es_htab st) =? size (es_htab st)) name v M)) /\ es_id st' = s32 (es_id st + 1).
Proof.
  intros [Rd R] (Pn & Ne & Nd) Pv. unfold env_set. rewrite Rd. cbn [negb].
  assert (strchr name 61 = None) as Es by (apply strchr_missing; [lia|done|done]).
  assert (forall vs, set_options (name :: vs) H_PROGRAMMATIC = Some (name :: vs, H_PROGRAMMATIC)) as Eo.
  { intros vs. cbn [set_options]. by rewrite (proj2 (Z.eqb_neq _ _) Nd). }
  unfold env_do_env_set. destruct v as [|c v].
  - change (rd [] =? 0) with true. cbn [tl]. rewrite Eo, Es, cstr_plain by done. cbn [env_inc_id es_htab].
    pose proof (delete_refines (es_htab st) M name H_PROGRAMMATIC R Pn) as D. cbn [set_var].
    destruct (delete_entry H_PROGRAMMATIC name M) as [rc M']. destruct D as (err & h' & -> & R'). cbn [fst snd].
    exists (with_htab (env_inc_id st) h'). split; [|by split]. do 2 f_equal.
    destruct (Z.eqb_spec rc 0), (Z.eqb_spec rc (- ENOENT)); cbn [negb andb]; case_decide; lia.
  - apply Forall_cons in Pv as Pv'. destruct Pv' as [Hc _].
    change (rd (c :: v)) with c. rewrite (proj2 (Z.eqb_neq _ _) Hc). cbn [tl]. rewrite Eo, Es, cstr_plain by done.
    rewrite join_one by done. cbn [negb env_inc_id es_htab]. cbn [set_var].
    destruct (enter_refines (es_htab st) M name (c :: v) H_PROGRAMMATIC R Pn) as (r & E & S). rewrite E.
    destruct (enter_entry _ H_PROGRAMMATIC name (c :: v) M) as [err M']. destruct S as (Ee & R' & _).
    pose proof (hsearch_settled _ _ _ _ _ _ _ _ E) as T. unfold settled in T. rewrite Ee in T. cbn [fst snd].
    exists (with_htab (env_inc_id st) (sr_tab r)). split; [|by split]. do 2 f_equal.
    destruct (sr_retval r), err; naive_solver.
Qed.

(** C10: [env_set] and [env_get] are update and lookup of a map: once the
    environment is loaded, setting a variable returns, with 0 exactly when the
    change is allowed and fits, the new map has the value (none for an empty
    one) under the name and is otherwise unchanged, and [env_get] afterwards
    returns for every name what the map holds. *)
Theorem env_set_get_refines (st : env_state) (M : env_map) (name v : list Z) :
  env_holds st M -> settable name -> plain v ->
  exists ret st' M', env_set name (Some v) st = Done (ret, st') /\
    (ret, M') = set_var (filled (es_htab st) =? size (es_htab st)) name v M /\ env_holds st' M' /\
    (forall k, k <> name -> M' !! k = M !! k) /\
    (forall k, plain k -> env_get config_env_size default_environment k st' = Done (M' !! k ≫= e_data, st')).
Proof.
  intros Hd Sn Pv. destruct (env_set_ok st M name v Hd Sn Pv) as (st' & E & Hd' & _).
  destruct (set_var _ name v M) as [ret M'] eqn:Es. cbn [fst snd] in *. exists ret, st', M'.
  split; [done|]. split; [done|]. split; [done|]. split; [|intros k Pk; by apply env_get_ok].
  intros k Nk. unfold set_var in Es. destruct v as [|c v].
  - unfold delete_entry in Es. destruct (M !! name); [|by simplify_eq].
    destruct (change_error _ _ _ _ _); simplify_eq; [done|by rewrite lookup_delete_ne].
  - unfold enter_entry in Es. destruct (M !! name).
    + destruct (change_error _ _ _ _ _); simplify_eq; [done|by rewrite lookup_insert_ne].
    + destruct (_ =? _); [by simplify_eq|]. destruct (change_error _ _ _ _ _); simplify_eq; [done|by rewrite lookup_insert_ne].
Qed.

(** A successful set leaves the value under the name. *)
Lemma set_var_value full name v M M' :
  v <> [] -> set_var full name v M = (0, M') -> M' !! name ≫= e_data = Some v.
Proof.
  intros Hv E. unfold set_var in E. destruct v as [|c v]; [done|]. unfold enter_entry in E.
  destruct (M !! name) as [e|]; [|destruct full; [done|]]; (destruct (change_error _ _ _ _ _); [done|]);
    simplify_eq; by rewrite lookup_insert_eq.
Qed.

Lemma plain_text_plain base n : 2 <= base <= 16 -> 0 <= n <= U64_MAX -> plain (plain_text base n) /\ plain_text base n <> [].
Proof.
  intros Hb Hn. destruct (plain_text_bytes base n Hb Hn) as [F L]. split.
  - eapply Forall_impl; [exact F|]. by intros c [? _].
  - intros E. rewrite E in L. simpl in L. lia.
Qed.

Lemma set_hex_eq name n st : 0 <= n <= U64_MAX -> env_set_hex name n st = env_set name (Some (plain_text 16 n)) st.
Proof.
  intros Hn. unfold env_set_hex. change [37; 108; 120] with [37; 108; long_conv 16].
  rewrite long_conv_sprintf; [|by right; right|done|rewrite length_replicate; pose proof (hex_text_length n Hn); lia|
    rewrite length_replicate; unfold INT_MAX; lia].
  cbn [pr_over pr_mem]. destruct (plain_text_plain 16 n ltac:(lia) Hn) as [P _].
  unfold store. change (Z.to_nat 0) with 0%nat. rewrite take_0, app_nil_l, <- app_assoc. cbn [app].
  by rewrite cstr_app_end.
Qed.

(** Numbers survive the environment: a 64-bit number that [env_set_hex] or
    [env_set_ulong] stored is what [env_get_hex], or [env_get_ulong] in base 10,
    reads back, whatever default is given. *)
Theorem env_number_roundtrip (st : env_state) (M : env_map) (name : list Z) (n d : Z) :
  env_holds st M -> settable name -> 0 <= n <= U64_MAX ->
  exists ret st1 ret2 st2,
    env_set_hex name n st = Done (ret, st1) /\ env_set_ulong name n st = Done (ret2, st2) /\
    (ret = 0 -> env_get_hex config_env_size default_environment name d st1 = Done (n, st1)) /\
    (ret2 = 0 -> env_get_ulong config_env_size default_environment name 10 d st2 = Done (n, st2)).
Proof.
  intros Hd Sn Hn. rewrite set_hex_eq by done. unfold env_set_ulong. rewrite simple_itoa_ok by done.
  destruct (plain_text_plain 16 n ltac:(lia) Hn) as [P1 N1], (plain_text_plain 10 n ltac:(lia) Hn) as [P2 N2].
  destruct (env_set_ok st M name _ Hd Sn P1) as (st1 & E1 & H1 & _).
  destruct (env_set_ok st M name _ Hd Sn P2) as (st2 & E2 & H2 & _).
  destruct (set_var _ name (plain_text 16 n) M) as [r1 M1] eqn:S1.
  destruct (set_var _ name (plain_text 10 n) M) as [r2 M2] eqn:S2. cbn [fst snd] in *.
  exists r1, st1, r2, st2. split; [done|]. split; [done|]. split; intros ->.
  - unfold env_get_hex. rewrite (env_get_ok st1 M1) by (done || apply Sn). rewrite (set_var_value _ _ _ _ _ N1 S1).
    unfold hextoul. rewrite parse_plain by (done || lia). cbn [length].
    destruct (Z.eqb_spec (Z.of_nat 0) (Z.of_nat (length (plain_text 16 n)))) as [E|]; [|done].
    destruct (plain_text 16 n); [done|simpl in E; lia].
  - unfold env_get_ulong. rewrite (env_get_ok st2 M2) by (done || apply Sn). rewrite (set_var_value _ _ _ _ _ N2 S2).
    by rewrite parse_plain by (done || lia).
Qed.
End Set_Get.

(** * A small environment for the witnesses *)

Definition demo_empty : env_state := Env (Htab (Some (replicate 6 node0)) 5 0) true false ENV_VALID [] [] 1 0.

Lemma demo_empty_holds : env_holds demo_empty ∅.
Proof. split; [done|]. apply (fresh_env_rep 5 prime_5). lia. Qed.

Lemma demo_settable : settable [97; 98].
Proof. split; [repeat constructor; discriminate|]. split; [intros [|[|[]]]; discriminate|discriminate]. Qed.

Lemma env_set_get_refines_witness :
  exists ret st' M', @env_set no_hooks [97; 98] (Some [120]) demo_empty = Done (ret, st') /\
    (ret, M') = @set_var no_hooks (filled (es_htab demo_empty) =? size (es_htab demo_empty)) [97; 98] [120] ∅ /\
    env_holds st' M' /\ (forall k, k <> [97; 98] -> M' !! k = (∅ : env_map) !! k) /\
    (forall k, plain k -> @env_get no_hooks 64 [] k st' = Done (M' !! k ≫= e_data, st')).
Proof.
  apply (@env_set_get_refines no_hooks 64 [] demo_empty ∅ [97; 98] [120]).
  - exact demo_empty_holds.
  - exact demo_settable.
  - repeat constructor; discriminate.
Defined.

Lemma env_number_roundtrip_witness :
  exists ret st1 ret2 st2,
    @env_set_hex no_hooks [97; 98] 3735928559 demo_empty = Done (ret, st1) /\
    @env_set_ulong no_hooks [97; 98] 3735928559 demo_empty = Done (ret2, st2) /\
    (ret = 0 -> @env_get_hex no_hooks 64 [] [97; 98] 7 st1 = Done (3735928559, st1)) /\
    (ret2 = 0 -> @env_get_ulong no_hooks 64 [] [97; 98] 10 7 st2 = Done (3735928559, st2)).
Proof.
  apply (@env_number_roundtrip no_hooks 64 [] demo_empty ∅ [97; 98] 3735928559 7).
  - exact demo_empty_holds.
  - exact demo_settable.
  - unfold U64_MAX. lia.
Defined.

(** A name with a leading dash is read as an option even when a program sets
    it: setting the variable "-f" to ab deletes the variable ab, overriding its
    protection, and the command "setenv -f" follows a null pointer. *)
Theorem env_set_dash :
  exists st1 st2,
    @env_set no_hooks [97; 98] (Some [120]) demo_empty = Done (0, st1) /\
    @env_get no_hooks 64 [] [97; 98] st1 = Done (Some [120], st1) /\
    @env_set no_hooks [45; 102] (Some [97; 98]) st1 = Done (0, st2) /\
    @env_get no_hooks 64 [] [97; 98] st2 = Done (None, st2) /\
    @env_do_env_set no_hooks true [[115; 101; 116; 101; 110; 118]; [45; 102]] 0 st1 = Overrun.
Proof.
  eexists _, _. split; [vm_compute; reflexivity|]. split; [vm_compute; reflexivity|].
  split; [vm_compute; reflexivity|]. split; vm_compute; reflexivity.
Qed.
