(* ===== verification/EnvLinear.v ===== *)
(** The linear environment: a lookup before relocation finds the first entry
    with the name, cut to the buffer, and agrees with the lookup after the
    environment has been imported. *)

From Stdlib Require Import Znumtheory.
From stdpp Require Import gmap.
From S2P Require Import Prelude Bytes Cstring CstringProps Hashtable HashSearch HashProps HashClaims.
From S2P Require Import HashIO HashIOProps EnvFlags EnvCommon.

(** * Entries *)

(** The bytes of an entry and of an environment. *)
Definition entry_text (kv : list Z * list Z) : list Z := fst kv ++ 61 :: snd kv ++ [0].
Definition env_text (kvs : list (list Z * list Z)) : list Z := concat (map entry_text kvs) ++ [0].

Definition name_ok (k : list Z) : Prop := plain k /\ ~ In 61 k.
Definition kv_ok (kv : list Z * list Z) : Prop := name_ok (fst kv) /\ plain (snd kv).

Fixpoint find_kv (name : list Z) (kvs : list (list Z * list Z)) : option (list Z) :=
  match kvs with
  | [] => None
  | kv :: kvs' => if decide (fst kv = name) then Some (snd kv) else find_kv name kvs'
  end.

Lemma strncmp_prefix name : plain name -> forall p, strncmp_nat name p (length name) 0 = 0 <-> name `prefix_of` p.
Proof.
  induction 1 as [|c name Hc P IH]; intros p; [split; [intros; apply prefix_nil|done]|].
  cbn [length strncmp_nat]. change (rd (c :: name)) with c. change (tl (c :: name)) with name.
  destruct p as [|x p].
  - change (rd []) with 0. rewrite Z.sub_0_r, (proj2 (Z.eqb_neq _ _) Hc). cbn [negb orb].
    split; [done|]. by intros ?%prefix_nil_inv.
  - change (rd (x :: p)) with x. change (tl (x :: p)) with p. destruct (Z.eqb_spec (c - x) 0) as [E|E]; cbn [negb orb].
    + assert (x = c) as -> by lia. rewrite (proj2 (Z.eqb_neq _ _) Hc), Z.sub_diag, IH. split.
      * apply prefix_cons.
      * apply prefix_cons_inv_2.
    + split; [lia|]. intros ?%prefix_cons_inv_1. lia.
Qed.

(** An entry matches a name exactly when it is its name. *)
Lemma entry_match name k t :
  name_ok name -> name_ok k ->
  (name `prefix_of` k ++ 61 :: t /\ rd (drop (length name) (k ++ 61 :: t)) = 61) <-> k = name.
Proof.
  intros [_ Nn] [_ Nk]. split; [|intros ->; split; [apply prefix_app_r; done|by rewrite drop_app_length]].
  intros [[z E] R]. revert name Nn E R. induction k as [|c k IH]; intros [|x name] Nn E R; try done.
  - simpl in E. injection E as E1 E2. destruct Nn. by left.
  - cbn [app length drop rd hd] in *. destruct Nk. by left.
  - simpl in E. injection E as <- E2. f_equal. apply IH; [|intros I; apply Nn; by right|done|exact R].
    intros I. apply Nk. by right.
Qed.

Lemma entry_cstr kv rest : kv_ok kv -> cstr (entry_text kv ++ rest) = fst kv ++ 61 :: snd kv.
Proof.
  intros [[Pk _] Pv]. unfold entry_text. rewrite <- app_assoc. cbn [app]. rewrite <- app_assoc. cbn [app].
  change (61 :: snd kv ++ 0 :: rest) with ((61 :: snd kv) ++ 0 :: rest). rewrite app_assoc.
  apply cstr_app_end. apply Forall_app. split; [done|]. constructor; [lia|done].
Qed.

(** * The lookup *)

(** The buffer after a value is copied into it. *)
Definition cut_copy (buf v : list Z) (len : Z) : list Z :=
  store buf 0 (take (Z.to_nat (len - 1)) v ++ [0]).

Lemma copied_value buf v len : 0 < len <= Z.of_nat (length buf) ->
  let res := Z.of_nat (length v) in
  let buf1 := store buf 0 (take (Z.to_nat (Z.min len (res + 1))) (v ++ [0])) in
  (if len <=? res then <[Z.to_nat (len - 1) := 0]> buf1 else buf1) = cut_copy buf v len.
Proof.
  intros Hl. cbv zeta. unfold cut_copy. destruct (Z.leb_spec len (Z.of_nat (length v))) as [L|L].
  - rewrite Z.min_l by lia. rewrite take_app_le by lia.
    assert (take (Z.to_nat len) v = take (Z.to_nat (len - 1)) v ++ [v !!! Z.to_nat (len - 1)]) as ->.
    { replace (Z.to_nat len) with (S (Z.to_nat (len - 1))) by lia. apply take_S_r.
      apply list_lookup_lookup_total_lt. lia. }
    unfold store. change (Z.to_nat 0) with 0%nat. rewrite !take_0, !app_nil_l, !length_app. cbn [length].
    rewrite <- !app_assoc. cbn [app]. rewrite insert_app_r_alt by (rewrite length_take; lia).
    rewrite length_take, Nat.min_l, Nat.sub_diag by lia. done.
  - rewrite Z.min_r by lia. rewrite !take_ge by (rewrite ?length_app; simpl; lia). done.
Qed.

Section Linear.
Context (config_env_size : Z).

Lemma linear_loop_ok name buf len rest kvs : forall fuel off,
  name_ok name -> Forall kv_ok kvs -> 0 < len <= Z.of_nat (length buf) ->
  off + Z.of_nat (length (concat (map entry_text kvs))) <= config_env_size -> (length kvs < fuel)%nat ->
  linear_loop config_env_size fuel (concat (map entry_text kvs) ++ 0 :: rest) off name buf len
  = match find_kv name kvs with
    | Some v => (Z.of_nat (length v), cut_copy buf v len)
    | None => (-1, buf)
    end.
Proof.
  intros fuel off Nn F Hl. revert fuel off. induction F as [|[k v] kvs Hkv F IH]; intros [|fuel] off Ho Hf;
    try (simpl in Hf; lia); [done|]. cbn [map concat find_kv fst snd]. cbn [linear_loop].
  rewrite <- app_assoc. set (tail := concat (map entry_text kvs) ++ 0 :: rest).
  pose proof (entry_cstr (k, v) tail Hkv) as Ec. cbn [fst snd] in Ec. pose proof Hkv as [Nk Pv]. cbn [fst snd] in Nk, Pv.
  assert (strlen (entry_text (k, v) ++ tail) = Z.of_nat (length k + 1 + length v)) as El.
  { rewrite strlen_cstr, Ec, length_app. cbn [length]. lia. }
  assert (rd (entry_text (k, v) ++ tail) <> 0) as Hr.
  { unfold entry_text. cbn [fst snd]. destruct Nk as [Pk _]. destruct k as [|c k]; [cbn; lia|].
    apply Forall_cons in Pk as [Hc _]. exact Hc. }
  rewrite (proj2 (Z.eqb_neq _ _) Hr), El.
  assert (length (entry_text (k, v)) = (length k + 1 + length v + 1)%nat) as Le.
  { unfold entry_text. cbn [fst snd]. rewrite !length_app. cbn [length]. rewrite length_app. cbn [length]. lia. }
  cbn [map concat] in Ho. rewrite length_app, Le in Ho.
  destruct (Z.ltb_spec config_env_size (off + Z.of_nat (length k + 1 + length v))); [lia|].
  rewrite strlen_cstr, cstr_plain by apply Nn. rewrite Nat2Z.id. unfold strncmp. rewrite Nat2Z.id.
  assert (entry_text (k, v) ++ tail = k ++ 61 :: v ++ 0 :: tail) as Et.
  { unfold entry_text. cbn [fst snd]. rewrite <- app_assoc. cbn [app]. by rewrite <- app_assoc. }
  pose proof (entry_match name k (v ++ 0 :: tail) Nn Nk) as Em. rewrite <- Et, <- (strncmp_prefix name (proj1 Nn)) in Em.
  destruct (decide (k = name)) as [E|Ne].
  - pose proof (proj2 Em E) as [-> ->]. cbn [negb orb Z.eqb]. change (61 =? 61) with true. cbn [negb].
    subst name. rewrite Et. replace (Z.to_nat (Z.of_nat (length k) + 1)) with (length (k ++ [61])) by (rewrite length_app; simpl; lia).
    replace (k ++ 61 :: v ++ 0 :: tail) with ((k ++ [61]) ++ v ++ 0 :: tail) by (by rewrite <- app_assoc).
    rewrite drop_app_length, cstr_app_end by done.
    replace (Z.of_nat (length k + 1 + length v) - (Z.of_nat (length k) + 1)) with (Z.of_nat (length v)) by lia.
    f_equal. by apply copied_value.
  - assert (negb (strncmp_nat name (entry_text (k, v) ++ tail) (length name) 0 =? 0)
            || negb (rd (drop (length name) (entry_text (k, v) ++ tail)) =? 61) = true) as ->.
    { apply not_false_iff_true. rewrite orb_false_iff, !negb_false_iff, !Z.eqb_eq. by rewrite Em. }
    replace (Z.to_nat (Z.of_nat (length k + 1 + length v) + 1)) with (length (entry_text (k, v))) by lia.
    rewrite drop_app_length. apply IH; simpl in Hf; lia.
Qed.

Lemma concat_length_ge (kvs : list (list Z * list Z)) : (length kvs <= length (concat (map entry_text kvs)))%nat.
Proof.
  induction kvs as [|kv kvs IH]; [done|]. cbn [map concat length]. rewrite length_app. unfold entry_text at 1.
  rewrite length_app. cbn [length]. lia.
Qed.

(** Before relocation a variable is read from the linear environment: for
    a well-formed one that fits CONFIG_ENV_SIZE, the lookup returns the full
    length of the value of the first entry with exactly this name and leaves
    the value, cut to the buffer and always terminated, at its start; without
    such an entry it returns -1 and leaves the buffer alone. *)
Theorem env_get_linear_first (kvs : list (list Z * list Z)) (rest name buf : list Z) (len : Z) :
  Forall kv_ok kvs -> name_ok name -> name <> [] -> 0 < len <= Z.of_nat (length buf) ->
  Z.of_nat (length (env_text kvs)) <= config_env_size ->
  env_get_from_linear config_env_size (env_text kvs ++ rest) name buf len
  = match find_kv name kvs with
    | Some v => (Z.of_nat (length v), store buf 0 (take (Z.to_nat (len - 1)) v ++ [0]))
    | None => (-1, buf)
    end.
Proof.
  intros F Nn Ne Hl Hs. unfold env_get_from_linear.
  assert (rd name <> 0) as Hr by (destruct name as [|c n]; [done|]; destruct Nn as [Pn _]; apply Forall_cons in Pn as [Hc _]; exact Hc).
  rewrite (proj2 (Z.eqb_neq _ _) Hr). unfold env_text in *. rewrite <- app_assoc. cbn [app].
  rewrite length_app in Hs. cbn [length] in Hs. pose proof (concat_length_ge kvs).
  rewrite (linear_loop_ok name buf len rest kvs); auto; [lia|]. rewrite length_app. cbn [length]. lia.
Qed.
End Linear.

(** * Before and after the import *)

Lemma get_rep `{EnvHooks} (size : Z) (env : list Z) (st : env_state) (m : gmap (list Z) (list Z)) (k : list Z) :
  es_ready st = true -> rep (es_htab st) m -> plain k -> env_get size env k st = Done (m !! k, st).
Proof.
  intros Rd R Pk. unfold env_get. rewrite Rd, cstr_plain by done. destruct (m !! k) as [d|] eqn:E.
  - apply R in E as (i & L & Ek & Ed). rewrite (find_hit _ k i) by (done || apply R). cbn [sr_retval]. by rewrite Ed.
  - by rewrite find_miss by (done || apply R || by eapply rep_absent).
Qed.

(** Values without backslashes are stored as they are. *)
Definition verbatim (v : list Z) : Prop := good_value v /\ ~ In 92 v.

Lemma escape_verbatim v : plain v -> ~ In 92 v -> escape 0 v = v.
Proof.
  induction 1 as [|c v Hc P IH]; intros N; [done|]. cbn [escape]. rewrite (proj2 (Z.eqb_neq _ _) Hc). cbn [orb].
  rewrite IH by (intros I; apply N; by right). destruct (Z.eqb_spec c 92) as [->|]; [|done]. destruct N. by left.
Qed.

Definition to_entry (kv : list Z * list Z) : env_entry := Entry (Some (fst kv)) (Some (snd kv)) None 0.

Lemma items_text kvs : Forall (fun kv => plain (fst kv) /\ verbatim (snd kv)) kvs ->
  items_of 0 (map to_entry kvs) = concat (map entry_text kvs).
Proof.
  unfold items_of. induction 1 as [|[k v] kvs [Pk [[_ Pv] Nv]] F IH]; [done|]. cbn [map concat fst snd]. rewrite IH. f_equal.
  unfold export_item, key_of, data_of, entry_text. cbn [to_entry e_key e_data fst snd].
  change (default [] (Some k)) with k. change (default [] (Some v)) with v. by rewrite cstr_plain, escape_verbatim.
Qed.

Lemma find_kv_map name kvs : NoDup (map fst kvs) ->
  find_kv name kvs = (list_to_map kvs : gmap (list Z) (list Z)) !! name.
Proof.
  induction kvs as [|[k v] kvs IH]; intros Nd; [done|]. cbn [map fst] in Nd. apply NoDup_cons in Nd as [_ Nd].
  cbn [find_kv fst snd list_to_map foldr]. change (foldr _ ∅ kvs) with (list_to_map kvs : gmap (list Z) (list Z)).
  case_decide as D; [subst; by rewrite lookup_insert_eq|]. rewrite lookup_insert_ne by done. by apply IH.
Qed.

Definition kv_good (kv : list Z * list Z) : Prop := good_name 0 (fst kv) /\ verbatim (snd kv).

Lemma kv_good_ok kv : kv_good kv -> kv_ok kv.
Proof.
  intros [G [[_ Pv] _]]. split; [|done]. split; [by eapply good_plain|]. destruct G as (_ & F & _).
  intros I. rewrite Forall_forall in F. apply list_elem_of_In in I. by destruct (F _ I) as (_ & ? & _).
Qed.

Lemma cstr_cut buf v len : plain v -> cstr (cut_copy buf v len) = take (Z.to_nat (len - 1)) v.
Proof.
  intros P. unfold cut_copy, store. change (Z.to_nat 0) with 0%nat. rewrite take_0, app_nil_l, <- app_assoc. cbn [app].
  apply cstr_app_end. by apply Forall_take.
Qed.

Lemma find_kv_in name kvs v : find_kv name kvs = Some v -> (name, v) ∈ kvs.
Proof.
  induction kvs as [|[k w] kvs IH]; [done|]. cbn [find_kv fst snd].
  case_decide as D; [intros [= ->]; subst; left|intros E; right; auto].
Qed.

(** A built-in environment with padding, and the entries its table is made for. *)
Definition padded (kvs : list (list Z * list Z)) (n : nat) : list Z := env_text kvs ++ replicate n 0.
Definition entries_for (min_entries max_entries : Z) (env : list Z) : Z :=
  Z.min (min_entries + Z.of_nat (length env) / 8) max_entries.

Section Agree.
Context `{EnvHooks} (min_entries max_entries config_env_size : Z).

(** Early and late lookups agree: when the default environment is a list
    of entries with distinct names and values without backslashes, loading it
    succeeds, and for every name the lookup in the linear environment before
    the import returns the first 31 characters of what the lookup in the table
    returns afterwards, or nothing when that finds nothing. *)
Theorem env_get_early_late (kvs : list (list Z * list Z)) (n : nat) (st : env_state) :
  let env := padded kvs n in
  let nent := entries_for min_entries max_entries env in
  Forall kv_good kvs -> NoDup (map fst kvs) -> permissive H_DEFAULT ->
  Z.of_nat (length env) <= config_env_size -> 4 <= nent <= 1024 -> Z.of_nat (length kvs) <= nent ->
  es_ready st = false -> es_valid st = ENV_INVALID -> length (es_buf st) = 32%nat ->
  exists st1, env_set_default min_entries max_entries false env None 0 st = Done st1 /\
    forall name, name_ok name -> name <> [] ->
      exists late buf, env_get config_env_size env name st1 = Done (late, st1) /\
        env_get config_env_size env name st = Done (option_map (take 31) late, with_buf st buf).
Proof.
  intros env nent G Nd Hp Hs Hn Hc Hr Hv Hb.
  assert (Forall kv_ok kvs) as Fk by (eapply Forall_impl; [exact G|]; apply kv_good_ok).
  assert (env = items_of 0 (map to_entry kvs) ++ 0 :: replicate n 0) as Ee.
  { unfold env, padded, env_text. rewrite <- app_assoc. cbn [app]. f_equal. symmetry. apply items_text.
    eapply Forall_impl; [exact G|]. intros [k v] [Gk Gv]. split; [by eapply good_plain|done]. }
  assert (map key_of (map to_entry kvs) = map fst kvs) as Ek by (rewrite map_map; by apply map_ext).
  destruct (import_buffer (es_htab st) (map to_entry kvs) 0 H_DEFAULT min_entries max_entries n) as (h' & E & R);
    [by left|done|done| |by rewrite Ek|rewrite <- Ee; exact Hn|rewrite <- Ee, length_map; exact Hc|].
  { apply Forall_map. eapply Forall_impl; [exact G|]. intros [k v] [Gk [Gv _]]. by exists k, v. }
  rewrite <- Ee in E. assert (map kv (map to_entry kvs) = kvs) as Ekv.
  { rewrite map_map. rewrite <- (map_id kvs) at 2. apply map_ext. by intros [k v]. }
  rewrite Ekv in R. unfold env_set_default, import_table. change (Z.lor 0 H_DEFAULT) with H_DEFAULT. rewrite E.
  change (1 =? 0) with false. cbn iota. cbn [env_update_fdt_addr_from_bloblist]. eexists. split; [reflexivity|].
  intros name Nn Ne. pose proof (find_kv_map name kvs Nd) as Ef.
  exists (find_kv name kvs). rewrite (get_rep _ _ _ (list_to_map kvs)) by (done || apply Nn). rewrite <- Ef.
  unfold env_get. rewrite Hr. unfold env_get_f. rewrite Hv. unfold env_get_from_linear.
  assert (rd name <> 0) as Hrd by (destruct name as [|c nm]; [done|]; destruct Nn as [Pn _]; apply Forall_cons in Pn as [Hc0 _]; exact Hc0).
  rewrite (proj2 (Z.eqb_neq _ _) Hrd). unfold env, padded, env_text in Hs |- *.
  rewrite <- app_assoc in Hs |- *. cbn [app] in Hs |- *. rewrite length_app in Hs. cbn [length] in Hs.
  rewrite (linear_loop_ok _ name (es_buf st) 32 (replicate n 0) kvs); auto; [|lia|lia|].
  2:{ rewrite length_app. cbn [length]. pose proof (concat_length_ge kvs). lia. }
  destruct (find_kv name kvs) as [v|] eqn:Ev; [|by eexists].
  exists (cut_copy (es_buf st) v 32). split; [done|]. destruct (Z.leb_spec 0 (Z.of_nat (length v))); [|lia].
  apply find_kv_in in Ev. rewrite Forall_forall in Fk. destruct (Fk _ Ev) as [_ Pv]. by rewrite cstr_cut.
Qed.
End Agree.

(** The environment with a=1, bb=xy and a second a, looked up with two bytes
    of room. *)
Definition demo_kvs : list (list Z * list Z) := [([97], [49]); ([98; 98], [120; 121]); ([97], [50])].

Lemma env_get_linear_first_witness :
  env_get_from_linear 64 (env_text demo_kvs ++ [7]) [98; 98] [9; 9; 9] 2 = (2, [120; 0; 9]).
Proof.
  apply (env_get_linear_first 64 demo_kvs [7] [98; 98] [9; 9; 9] 2).
  - repeat constructor; cbn; try discriminate; try tauto; intros [|]; try discriminate; naive_solver.
  - split; [repeat constructor; discriminate|]. intros [|[|[]]]; discriminate.
  - discriminate.
  - cbn. lia.
  - vm_compute. discriminate.
Defined.

(** bb has 40 characters. *)
Definition demo_default : list (list Z * list Z) := [([97], [49]); ([98; 98], replicate 40 120)].
Definition demo_early : env_state := Env (Htab None 0 0) false false ENV_INVALID [] (replicate 32 0) 1 0.

Lemma env_get_early_late_witness :
  exists st1, @env_set_default no_hooks 64 512 false (padded demo_default 2) None 0 demo_early = Done st1 /\
    exists late buf, @env_get no_hooks 64 (padded demo_default 2) [98; 98] st1 = Done (late, st1) /\
      @env_get no_hooks 64 (padded demo_default 2) [98; 98] demo_early
      = Done (option_map (take 31) late, with_buf demo_early buf).
Proof.
  destruct (@env_get_early_late no_hooks 64 512 64 demo_default 2 demo_early) as (st1 & E & A).
  - repeat constructor; cbn; try discriminate; try (intros I; simpl in I; repeat destruct I as [I|I]; lia);
      try (apply Forall_replicate; discriminate).
  - repeat constructor; rewrite ?list_elem_of_In; simpl; intuition discriminate.
  - split; [done|]. intros e k v op. unfold do_callback. by destruct (e_callback e).
  - vm_compute. discriminate.
  - vm_compute. split; discriminate.
  - vm_compute. discriminate.
  - reflexivity.
  - reflexivity.
  - reflexivity.
  - exists st1. split; [exact E|]. apply A; [|discriminate].
    split; [repeat constructor; discriminate|]. intros [|[|[]]]; discriminate.
Defined.

(** With a backslash in a value they do not: the linear lookup returns a=b\c as
    it is, the import takes the backslash as an escape and the table has bc. *)
Theorem early_late_backslash :
  let env := padded [([97], [98; 92; 99])] 0 in
  exists st1, @env_set_default no_hooks 64 512 false env None 0 demo_early = Done st1 /\
    @env_get no_hooks 64 env [97] st1 = Done (Some [98; 99], st1) /\
    exists buf, @env_get no_hooks 64 env [97] demo_early = Done (Some [98; 92; 99], with_buf demo_early buf).
Proof.
  cbv zeta. eexists. split; [vm_compute; reflexivity|]. split; [vm_compute; reflexivity|].
  eexists. vm_compute. reflexivity.
Qed.
