(* ===== verification/EnvStore.v ===== *)
(** The stored environment: an image written by [env_export] loads back, and
    with two copies the newer complete one is taken. *)

From Stdlib Require Import Znumtheory.
From stdpp Require Import gmap.
From S2P Require Import Prelude Bytes Cstring CstringProps Hashtable HashSearch HashProps HashClaims.
From S2P Require Import HashIO HashIOProps EnvFlags Crc32 EnvCommon EnvLinear.

Definition is_byte (b : Z) : Prop := 0 <= b < 256.

(** An image whose checksum fits its data. *)
Definition intact (ep : env_t) : Prop := et_crc ep = crc_spec 0 (et_data ep) /\ Forall is_byte (et_data ep).

Lemma intact_crc addr ep : intact ep -> crc32 addr 0 (et_data ep) = et_crc ep.
Proof. intros [E F]. by rewrite crc32_ok. Qed.

(** A copy that cannot be read or does not have the checksum of its data. *)
Definition broken (copy : option env_t) : Prop :=
  match copy with Some ep => et_crc ep <> crc_spec 0 (et_data ep) /\ Forall is_byte (et_data ep) | None => True end.

Lemma broken_crc addr ep : broken (Some ep) -> (crc32 addr 0 (et_data ep) =? et_crc ep) = false.
Proof. intros [N F]. rewrite crc32_ok by done. apply Z.eqb_neq. congruence. Qed.

(** * Choosing between two copies *)

(** Serial numbers count modulo 256. *)
Definition newer (s1 s2 : Z) : Prop := s2 = u8 (s1 + 1).

Section Choice.
Context (addr1 addr2 : Z) (st : env_state).

Lemma check_two c1 c2 :
  intact c1 -> intact c2 ->
  env_check_redund addr1 addr2 (Some c1) (Some c2) st =
    (0, with_valid st (if (et_flags c1 =? 255) && (et_flags c2 =? 0) then ENV_REDUND
         else if (et_flags c2 =? 255) && (et_flags c1 =? 0) then ENV_VALID
         else if et_flags c2 <? et_flags c1 then ENV_VALID
         else if et_flags c1 <? et_flags c2 then ENV_REDUND else ENV_VALID)).
Proof.
  intros I1 I2. unfold env_check_redund. rewrite !intact_crc, !Z.eqb_refl by done. cbn [negb andb].
  repeat case_match; done.
Qed.

Lemma check_newer_second c1 c2 :
  intact c1 -> intact c2 -> is_byte (et_flags c1) -> newer (et_flags c1) (et_flags c2) ->
  env_check_redund addr1 addr2 (Some c1) (Some c2) st = (0, with_valid st ENV_REDUND).
Proof.
  intros I1 I2 B N. rewrite check_two by done. unfold newer, u8, is_byte in *. do 2 f_equal.
  repeat case_Z; cbn [andb]; try done; zlia.
Qed.

Lemma check_newer_first c1 c2 :
  intact c1 -> intact c2 -> is_byte (et_flags c2) -> newer (et_flags c2) (et_flags c1) ->
  env_check_redund addr1 addr2 (Some c1) (Some c2) st = (0, with_valid st ENV_VALID).
Proof.
  intros I1 I2 B N. rewrite check_two by done. unfold newer, u8, is_byte in *. do 2 f_equal.
  repeat case_Z; cbn [andb]; try done; zlia.
Qed.

Lemma check_only_first c1 c2 :
  intact c1 -> broken c2 -> env_check_redund addr1 addr2 (Some c1) c2 st = (0, with_valid st ENV_VALID).
Proof.
  intros I B. unfold env_check_redund. rewrite intact_crc, Z.eqb_refl by done.
  destruct c2 as [c2|]; [|done]. by rewrite broken_crc.
Qed.

Lemma check_only_second c1 c2 :
  broken c1 -> intact c2 -> env_check_redund addr1 addr2 c1 (Some c2) st = (0, with_valid st ENV_REDUND).
Proof.
  intros B I. unfold env_check_redund. rewrite intact_crc, Z.eqb_refl by done.
  destruct c1 as [c1|]; [|done]. by rewrite broken_crc.
Qed.
End Choice.

(** * Saving and loading *)

Section Store.
Context `{EnvHooks} (min_entries max_entries config_env_size : Z) (default_environment : list Z) (flags : Z).
Hypothesis allowed : permissive flags.
Hypothesis clears : Z.land flags H_NOCLEAR = 0.

Abbreviation import := (env_import min_entries max_entries false default_environment None).
Abbreviation import_redund := (env_import_redund min_entries max_entries false default_environment None).

(** An environment the image format can carry, in a table for it. *)
Definition storable (h : hsearch_data) (m : gmap (list Z) (list Z)) (ep : env_t) : Prop :=
  rep h m /\ (forall k d, m !! k = Some d -> good_name 0 k /\ good_value d) /\ Forall is_byte (et_data ep) /\
  4 <= entries_for min_entries max_entries (et_data ep) <= 1024 /\
  filled h <= entries_for min_entries max_entries (et_data ep).

(** What the state is after a load. *)
Definition loaded (st : env_state) (m : gmap (list Z) (list Z)) : Prop :=
  es_ready st = true /\ rep (es_htab st) m.

Lemma export_image (redundant : bool) addr out st img st1 :
  env_export config_env_size redundant addr out st = Done (0, img, st1) ->
  exists sz, hexport_r true true (es_htab st) 0 0 (ENV_SIZE config_env_size redundant) [] = ExportOk sz (et_data img) /\
    et_crc img = crc32 addr 0 (et_data img) /\
    (redundant = true -> et_flags img = u8 (es_serial st + 1) /\ es_serial st1 = et_flags img).
Proof.
  unfold env_export. destruct (hexport_r _ _ _ _ _ _ _) as [err|sz buf|] eqn:E; [done| |done].
  destruct redundant; intros [= <- <-]; exists sz; cbn; (split; [done|]); split; done.
Qed.

Lemma import_image (check redundant : bool) addr addr' out st m img st1 st2 :
  env_export config_env_size redundant addr out st = Done (0, img, st1) -> storable (es_htab st) m img ->
  exists st', import addr' img check flags st2 = Done (0, st') /\ loaded st' m /\ es_serial st' = es_serial st2.
Proof using allowed clears.
  intros E (R & G & B & Hn & Hf). destruct (export_image _ _ _ _ _ _ E) as (sz & X & C & _).
  destruct (export_import_ok (es_htab st) (es_htab st2) m 0 flags (ENV_SIZE config_env_size redundant) sz min_entries max_entries true (et_data img) R)
    as (h' & I & R'); auto.
  unfold env_import, import_table. rewrite (proj2 (Z.eqb_eq _ _)) by (rewrite C, !crc32_ok; done).
  cbn [negb]. rewrite andb_false_r, I. cbn [negb Z.eqb env_update_fdt_addr_from_bloblist]. change (1 =? 0) with false.
  cbn [negb]. eexists. split; [reflexivity|]. by split.
Qed.

(** A saved environment loads back: the image [env_export] makes of a
    table passes the checksum test of [env_import] wherever it is read to, the
    import succeeds, and every variable then reads as it did. *)
Theorem env_save_load (redundant : bool) (addr addr' : Z) (out img : env_t) (st st1 st2 : env_state)
    (m : gmap (list Z) (list Z)) :
  env_export config_env_size redundant addr out st = Done (0, img, st1) -> storable (es_htab st) m img ->
  exists st', env_import min_entries max_entries false default_environment None addr' img true flags st2 = Done (0, st') /\
    rep (es_htab st') m /\
    forall k, plain k -> env_get config_env_size default_environment k st' = Done (m !! k, st').
Proof using allowed clears.
  intros E S. destruct (import_image true redundant addr addr' out st m img st1 st2 E S) as (st' & I & [Rd R] & _).
  exists st'. split; [exact I|]. split; [exact R|]. intros k Pk. by apply get_rep.
Qed.

Lemma redund_first a1 a2 c1 c2 st :
  env_check_redund a1 a2 (Some c1) c2 st = (0, with_valid st ENV_VALID) ->
  import_redund a1 a2 (Some c1) c2 flags st = import a1 c1 false flags (with_serial (with_valid st ENV_VALID) (et_flags c1)).
Proof. intros E. unfold env_import_redund. by rewrite E. Qed.
Lemma redund_second a1 a2 c1 c2 st :
  env_check_redund a1 a2 c1 (Some c2) st = (0, with_valid st ENV_REDUND) ->
  import_redund a1 a2 c1 (Some c2) flags st = import a2 c2 false flags (with_serial (with_valid st ENV_REDUND) (et_flags c2)).
Proof. intros E. unfold env_import_redund. by rewrite E. Qed.

Lemma export_intact redundant addr out st img st1 :
  env_export config_env_size redundant addr out st = Done (0, img, st1) -> Forall is_byte (et_data img) -> intact img.
Proof.
  intros E B. destruct (export_image _ _ _ _ _ _ E) as (sz & _ & C & _). split; [|done]. by rewrite C, crc32_ok.
Qed.

(** C21: Saving with two copies survives a lost write: when the new image is
    written over one copy and the other one holds the image saved or loaded
    before, loading takes the new image if it is complete, whichever copy it
    is in and also when the serial number wraps to 0, and continues with its
    serial number; if the new image is damaged or unreadable, loading takes the
    old one. *)
Theorem env_save_redundant (a a1 a2 : Z) (out old img : env_t) (torn : option env_t) (st st1 st2 : env_state)
    (m : gmap (list Z) (list Z)) :
  env_export config_env_size true a out st = Done (0, img, st1) -> storable (es_htab st) m img ->
  intact old -> es_serial st = et_flags old -> is_byte (et_flags old) -> broken torn ->
  (exists st', import_redund a1 a2 (Some old) (Some img) flags st2 = Done (0, st') /\ loaded st' m /\
     es_serial st' = u8 (es_serial st + 1)) /\
  (exists st', import_redund a1 a2 (Some img) (Some old) flags st2 = Done (0, st') /\ loaded st' m /\
     es_serial st' = u8 (es_serial st + 1)) /\
  import_redund a1 a2 (Some old) torn flags st2
    = import a1 old false flags (with_serial (with_valid st2 ENV_VALID) (et_flags old)) /\
  import_redund a1 a2 torn (Some old) flags st2
    = import a2 old false flags (with_serial (with_valid st2 ENV_REDUND) (et_flags old)).
Proof using allowed clears.
  intros E S Io Es Bo Bt. assert (intact img) as Ii by (eapply export_intact; [exact E|apply S]).
  destruct (export_image _ _ _ _ _ _ E) as (sz & _ & _ & [Ef _]); [done|].
  assert (newer (et_flags old) (et_flags img)) as N by (unfold newer; by rewrite <- Es).
  split; [|split; [|split]].
  - rewrite redund_second by (by apply check_newer_second).
    destruct (import_image false true a a2 out st m img st1 (with_serial (with_valid st2 ENV_REDUND) (et_flags img)) E S)
      as (st' & I & L & Q). exists st'. split; [exact I|]. split; [done|]. rewrite Q. exact Ef.
  - rewrite redund_first by (by apply check_newer_first).
    destruct (import_image false true a a1 out st m img st1 (with_serial (with_valid st2 ENV_VALID) (et_flags img)) E S)
      as (st' & I & L & Q). exists st'. split; [exact I|]. split; [done|]. rewrite Q. exact Ef.
  - apply redund_first. by apply check_only_first.
  - apply redund_second. by apply check_only_second.
Qed.
End Store.

(** * The table of three variables, saved with serial number 255 before *)

Definition demo_state : env_state := Env demo_tab true false ENV_VALID [] [] 1 255.
Definition demo_image : env_t :=
  match env_export 64 true 0 (EnvT 0 0 []) demo_state with Done (_, img, _) => img | _ => EnvT 0 0 [] end.
Definition demo_old : env_t := EnvT (crc_spec 0 [0; 0]) 255 [0; 0].

Lemma demo_export : env_export 64 true 0 (EnvT 0 0 []) demo_state = Done (0, demo_image, with_serial demo_state 0).
Proof. vm_compute. reflexivity. Qed.

Lemma demo_storable : storable 64 512 demo_tab demo_map demo_image.
Proof.
  split; [exact demo_rep|]. split; [|split; [|split]].
  - intros k d. unfold demo_map. rewrite !lookup_insert_Some, lookup_singleton_Some.
    assert (forall c, c <> 0 -> c <> 61 -> good_name 0 (demo_key c)) as G.
    { intros c H0 H1. split; [done|]. split; [repeat constructor; done|]. split; [reflexivity|].
      vm_compute. discriminate. }
    intros [[<- <-]|[_ [[<- <-]|[_ [<- <-]]]]]; (split; [by apply G|]);
      (split; [discriminate|repeat constructor; discriminate]).
  - unfold is_byte. vm_compute. repeat (constructor; [split; [discriminate|reflexivity]|]). constructor.
  - vm_compute. split; discriminate.
  - vm_compute. discriminate.
Qed.

Lemma demo_permissive : @permissive no_hooks 0.
Proof. split; [done|]. intros e k v op. unfold do_callback. by destruct (e_callback e). Qed.

Lemma env_save_load_witness :
  exists st', @env_import no_hooks 64 512 false [] None 3 demo_image true 0 demo_early = Done (0, st') /\
    rep (es_htab st') demo_map /\
    forall k, plain k -> @env_get no_hooks 64 [] k st' = Done (demo_map !! k, st').
Proof.
  apply (@env_save_load no_hooks 64 512 64 [] 0 demo_permissive eq_refl true 0 3 (EnvT 0 0 []) demo_image demo_state
           (with_serial demo_state 0) demo_early demo_map).
  - exact demo_export.
  - exact demo_storable.
Defined.

(** The new image has serial number 0; the damaged copy is unreadable. *)
Lemma env_save_redundant_witness :
  exists st', @env_import_redund no_hooks 64 512 false [] None 1 2 (Some demo_old) (Some demo_image) 0 demo_early = Done (0, st') /\
    loaded st' demo_map /\ es_serial st' = 0.
Proof.
  apply (@env_save_redundant no_hooks 64 512 64 [] 0 demo_permissive eq_refl 0 1 2 (EnvT 0 0 []) demo_old demo_image None
           demo_state (with_serial demo_state 0) demo_early demo_map).
  - exact demo_export.
  - exact demo_storable.
  - split; [reflexivity|]. repeat constructor; lia.
  - reflexivity.
  - split; [discriminate|reflexivity].
  - exact I.
Defined.
