(* ===== verification/EnvDrivers.v ===== *)
(** Choosing where the environment is stored (env/env.c), and which location
    it is loaded from.

    A driver's methods are functions of the whole state; a method that is NULL
    is [None].  The locations are tried in the order of [env_locations], and a
    loop over priorities ends at the first one without a driver. *)

From S2P Require Import Prelude Cstring EnvFlags EnvCommon.

Definition ENVL_UNKNOWN : Z := 0.

(** The environment, gd->env_has_init (a bit per location) and
    gd->env_load_prio. *)
Record env_gd := Gd { gd_env : env_state; gd_has_init : Z; gd_load_prio : Z }.

Record env_driver := Driver {
  drv_name : list Z; drv_location : Z;
  drv_load : env_gd -> Z * env_gd;
  drv_save : option (env_gd -> Z * env_gd);
  drv_erase : option (env_gd -> Z * env_gd);
  drv_init : option (env_gd -> Z * env_gd)
}.

Definition with_prio (g : env_gd) (prio : Z) : env_gd := Gd (gd_env g) (gd_has_init g) prio.

Section Drivers.
(** The drivers linked in, the locations configured, the default environment
    and, with CONFIG_ENV_WRITEABLE_LIST, env_set_default. *)
Context (drivers : list env_driver) (env_locations : list Z) (default_environment : list Z).
Context (set_default : option (env_gd -> env_gd)).

Fixpoint _env_driver_lookup (entries : list env_driver) (loc : Z) : option env_driver :=
  match entries with
  | [] => None
  | entry :: entries' => if loc =? drv_location entry then Some entry else _env_driver_lookup entries' loc
  end.

Definition env_has_inited (g : env_gd) (location : Z) : bool := Z.testbit (gd_has_init g) location.
Definition env_set_inited (g : env_gd) (location : Z) : env_gd :=
  Gd (gd_env g) (Z.lor (gd_has_init g) (Z.shiftl 1 location)) (gd_load_prio g).

(** The operation does not matter to the default choice; a negative priority
    is larger than any as an unsigned number. *)
Definition arch_env_get_location (prio : Z) : Z :=
  if prio <? 0 then ENVL_UNKNOWN else nth (Z.to_nat prio) env_locations ENVL_UNKNOWN.
Definition env_get_location (prio : Z) : Z := arch_env_get_location prio.

Definition env_driver_lookup (prio : Z) : option env_driver :=
  let loc := env_get_location prio in
  if loc =? ENVL_UNKNOWN then None else _env_driver_lookup drivers loc.

(** The loop of [env_load] from [prio] on; [None]: it does not end. *)
Fixpoint load_loop (fuel : nat) (prio best_prio : Z) (g : env_gd) : option (Z * env_gd) :=
  match fuel with
  | O => None
  | S n =>
      match env_driver_lookup prio with
      | None => Some (- ENODEV, with_prio g (if 0 <=? best_prio then best_prio else 0))
      | Some drv =>
          if negb (env_has_inited g (drv_location drv)) then load_loop n (prio + 1) best_prio g
          else
            let (ret, g) := drv_load drv g in
            if ret =? 0 then Some (0, with_prio g prio)
            else if ret =? - ENOMSG
            then load_loop n (prio + 1) (if best_prio =? -1 then prio else best_prio) g
            else load_loop n (prio + 1) best_prio g
      end
  end.

Definition rounds : nat := S (length env_locations).

Definition env_load (g : env_gd) : option (Z * env_gd) :=
  let g := match set_default with Some f => f g | None => g end in load_loop rounds 0 (-1) g.

Definition env_reload (g : env_gd) : Z * env_gd :=
  match env_driver_lookup (gd_load_prio g) with
  | Some drv =>
      if negb (env_has_inited g (drv_location drv)) then (- ENODEV, g)
      else let (ret, g) := drv_load drv g in if ret =? 0 then (0, g) else (- ENODEV, g)
  | None => (- ENODEV, g)
  end.

Definition env_save (g : env_gd) : Z * env_gd :=
  match env_driver_lookup (gd_load_prio g) with
  | Some drv =>
      match drv_save drv with
      | None => (- ENODEV, g)
      | Some save =>
          if negb (env_has_inited g (drv_location drv)) then (- ENODEV, g)
          else let (ret, g) := save g in if ret =? 0 then (0, g) else (- ENODEV, g)
      end
  | None => (- ENODEV, g)
  end.

Definition env_erase (g : env_gd) : Z * env_gd :=
  match env_driver_lookup (gd_load_prio g) with
  | Some drv =>
      match drv_erase drv with
      | None => (- ENODEV, g)
      | Some erase =>
          if negb (env_has_inited g (drv_location drv)) then (- ENODEV, g)
          else let (ret, g) := erase g in if ret =? 0 then (0, g) else (- ENODEV, g)
      end
  | None => (- ENODEV, g)
  end.

(** The loop of [env_init]: the number of drivers, [ret] and the state. *)
Fixpoint init_loop (fuel : nat) (prio ret : Z) (g : env_gd) : option (Z * Z * env_gd) :=
  match fuel with
  | O => None
  | S n =>
      match env_driver_lookup prio with
      | None => Some (prio, ret, g)
      | Some drv =>
          let '(ret, g) :=
            match drv_init drv with
            | None => (ret, env_set_inited g (drv_location drv))
            | Some init =>
                let (ret, g) := init g in
                (ret, if ret =? 0 then env_set_inited g (drv_location drv) else g)
            end in
          let g := if ret =? - ENOENT then env_set_inited g (drv_location drv) else g in
          let ret := match es_valid (gd_env g) with ENV_INVALID => - ENOENT | _ => ret end in
          init_loop n (prio + 1) ret g
      end
  end.

Definition env_init (g : env_gd) : option (Z * env_gd) :=
  match init_loop rounds 0 (- ENOENT) g with
  | None => None
  | Some (prio, ret, g) =>
      if prio =? 0 then Some (- ENODEV, g)
      else if ret =? - ENOENT then
        let st := gd_env g in
        Some (0, Gd (Env (es_htab st) (es_ready st) (es_default st) ENV_VALID default_environment (es_buf st)
                         (es_id st) (es_serial st)) (gd_has_init g) (gd_load_prio g))
      else Some (ret, g)
  end.

Fixpoint find_name (entries : list env_driver) (name : list Z) : option env_driver :=
  match entries with
  | [] => None
  | entry :: entries' => if strcmp (drv_name entry) name =? 0 then Some entry else find_name entries' name
  end.

Fixpoint select_loop (fuel : nat) (location prio : Z) (g : env_gd) : option (Z * env_gd) :=
  match fuel with
  | O => None
  | S n =>
      match env_driver_lookup prio with
      | None => Some (- ENODEV, g)
      | Some _ =>
          if location =? env_get_location prio then
            if negb (gd_load_prio g =? prio) then
              let st := gd_env g in
              Some (0, Gd (Env (es_htab st) (es_ready st) false ENV_INVALID (es_addr st) (es_buf st)
                               (es_id st) (es_serial st)) (gd_has_init g) prio)
            else Some (0, g)
          else select_loop n location (prio + 1) g
      end
  end.

Definition env_select (name : list Z) (g : env_gd) : option (Z * env_gd) :=
  match find_name drivers name with
  | None => Some (- ENODEV, g)
  | Some entry => select_loop rounds (drv_location entry) 0 g
  end.

(** [env_relocate] of env/common.c. *)
Definition env_relocate (default_env : env_gd -> env_gd) (g : env_gd) : option env_gd :=
  match es_valid (gd_env g) with
  | ENV_INVALID => Some (default_env g)
  | _ => option_map snd (env_load g)
  end.
End Drivers.

Section Loads.
Context (drivers : list env_driver) (env_locations : list Z).

Abbreviation lookup_prio k := (env_driver_lookup drivers env_locations (Z.of_nat k)).

(** What the load at a priority returns in a state, if it is tried, and the
    state behind it. *)
Definition attempt (k : nat) (g : env_gd) : option Z * env_gd :=
  match lookup_prio k with
  | Some drv => if env_has_inited g (drv_location drv) then let (r, g') := drv_load drv g in (Some r, g') else (None, g)
  | None => (None, g)
  end.

(** The state behind the first [k] attempts, and the result of attempt [k]. *)
Fixpoint after_loads (k : nat) (g : env_gd) : env_gd :=
  match k with O => g | S j => snd (attempt j (after_loads j g)) end.
Definition load_result (k : nat) (g : env_gd) : option Z := fst (attempt k (after_loads k g)).

(** [p] is the first priority whose attempt returned [r]. *)
Definition first_with (r : Z) (g : env_gd) (p : nat) : Prop :=
  load_result p g = Some r /\ forall j, (j < p)%nat -> load_result j g <> Some r.

(** What the loop knows behind [k] attempts. *)
Definition best_known (g : env_gd) (k : nat) (best : Z) : Prop :=
  (best = -1 /\ forall j, (j < k)%nat -> load_result j g <> Some (- ENOMSG)) \/
  exists j, best = Z.of_nat j /\ (j < k)%nat /\ first_with (- ENOMSG) g j.

Lemma best_next g k best r :
  best_known g k best -> load_result k g = r ->
  best_known g (S k) (if decide (r = Some (- ENOMSG)) then if best =? -1 then Z.of_nat k else best else best).
Proof.
  intros B E. case_decide as D.
  - destruct B as [[-> N]|(j & -> & Hj & F)].
    + right. exists k. split; [done|]. split; [lia|]. split; [by rewrite E|done].
    + right. destruct (Z.eqb_spec (Z.of_nat j) (-1)); [lia|]. exists j. split; [done|]. split; [lia|done].
  - destruct B as [[-> N]|(j & -> & Hj & F)].
    + left. split; [done|]. intros i Hi. destruct (decide (i = k)) as [->|]; [by rewrite E|apply N; lia].
    + right. exists j. split; [done|]. split; [lia|done].
Qed.

Definition load_outcome (g : env_gd) (ret : Z) (g' : env_gd) : Prop :=
  (ret = 0 /\ exists p, first_with 0 g p /\ g' = with_prio (after_loads (S p) g) (Z.of_nat p)) \/
  (ret = - ENODEV /\ exists n best, lookup_prio n = None /\ (forall j, (j < n)%nat -> load_result j g <> Some 0) /\
     best_known g n best /\ g' = with_prio (after_loads n g) (if 0 <=? best then best else 0)).

Lemma lookup_prio_range k drv : lookup_prio k = Some drv -> (k < length env_locations)%nat.
Proof.
  intros E. destruct (Nat.lt_ge_cases k (length env_locations)) as [|L]; [done|].
  unfold env_driver_lookup, env_get_location, arch_env_get_location in E. rewrite Nat2Z.id in E.
  destruct (Z.ltb_spec (Z.of_nat k) 0); [lia|]. by rewrite nth_overflow in E by lia.
Qed.

Lemma load_loop_ok g fuel : forall k best,
  (length env_locations < k + fuel)%nat -> (k <= length env_locations)%nat ->
  (forall j, (j < k)%nat -> load_result j g <> Some 0) -> best_known g k best ->
  exists ret g', load_loop drivers env_locations fuel (Z.of_nat k) best (after_loads k g) = Some (ret, g') /\
    load_outcome g ret g'.
Proof.
  induction fuel as [|fuel IH]; intros k best Hf Hk H0 B; [lia|].
  cbn [load_loop]. destruct (lookup_prio k) as [drv|] eqn:E.
  2:{ eexists _, _. split; [reflexivity|]. right. split; [done|]. exists k, best. done. }
  pose proof (lookup_prio_range k drv E) as Hlt.
  assert (attempt k (after_loads k g) = if env_has_inited (after_loads k g) (drv_location drv)
    then let (r, g') := drv_load drv (after_loads k g) in (Some r, g') else (None, after_loads k g)) as Ea
    by (unfold attempt; by rewrite E).
  assert (forall r g1 best1, attempt k (after_loads k g) = (r, g1) -> r <> Some 0 ->
    best1 = (if decide (r = Some (- ENOMSG)) then if best =? -1 then Z.of_nat k else best else best) ->
    exists ret g', load_loop drivers env_locations fuel (Z.of_nat (S k)) best1 g1 = Some (ret, g') /\
      load_outcome g ret g') as Next.
  { intros r g1 best1 Er Nr ->. assert (load_result k g = r) as El by (unfold load_result; by rewrite Er).
    assert (g1 = after_loads (S k) g) as -> by (cbn [after_loads]; by rewrite Er).
    apply IH; [lia|lia| |by apply best_next].
    intros j Hj. destruct (decide (j = k)) as [->|]; [by rewrite El|apply H0; lia]. }
  replace (Z.of_nat k + 1) with (Z.of_nat (S k)) by lia.
  destruct (env_has_inited _ _); cbn [negb]; [|by eapply Next].
  destruct (drv_load drv (after_loads k g)) as [r g1].
  destruct (Z.eqb_spec r 0) as [->|Nr].
  - eexists _, _. split; [reflexivity|]. left. split; [done|]. exists k.
    split; [split; [unfold load_result; by rewrite Ea|done]|]. cbn [after_loads]. by rewrite Ea.
  - destruct (Z.eqb_spec r (- ENOMSG)) as [->|Nm]; (eapply Next; [exact Ea|congruence|]).
    + by rewrite decide_True.
    + rewrite decide_False; [done|congruence].
Qed.

(** [env_load] returns and takes the first priority that works: with result
    0 the priority recorded is the first one whose initialised driver loaded
    successfully, later ones being left alone; otherwise every driver failed
    and the priority recorded for the next save is the first one with a bad
    CRC, or 0 when there is none. *)
Theorem env_load_selects (g : env_gd) :
  exists ret g', env_load drivers env_locations None g = Some (ret, g') /\
    ((ret = 0 /\ exists p, first_with 0 g p /\ g' = with_prio (after_loads (S p) g) (Z.of_nat p)) \/
     (ret = - ENODEV /\ exists n, lookup_prio n = None /\ (forall j, (j < n)%nat -> load_result j g <> Some 0) /\
        ((exists p, (p < n)%nat /\ first_with (- ENOMSG) g p /\ g' = with_prio (after_loads n g) (Z.of_nat p)) \/
         ((forall j, (j < n)%nat -> load_result j g <> Some (- ENOMSG)) /\ g' = with_prio (after_loads n g) 0)))).
Proof.
  destruct (load_loop_ok g (rounds env_locations) 0 (-1)) as (ret & g' & E & O).
  - unfold rounds. lia.
  - lia.
  - intros j Hj. lia.
  - left. split; [done|]. intros j Hj. lia.
  - exists ret, g'. split; [exact E|]. destruct O as [O|(-> & n & best & En & N0 & B & ->)]; [by left|].
    right. split; [done|]. exists n. split; [done|]. split; [done|].
    destruct B as [[-> N]|(j & -> & Hj & F)]; [by right|]. left. exists j. split; [done|]. split; [done|].
    destruct (Z.leb_spec 0 (Z.of_nat j)); [done|lia].
Qed.
End Loads.
