(* ===== verification/NetUtils.v ===== *)
(** Addresses and checksums of the network stack (lib/net_utils.c and the
    Ethernet address helpers of include/net-common.h and env/common.c).

    The machine is little endian: an IPv4 address is the 32-bit number whose
    bytes in memory are in network order.  The IP checksum is the one's
    complement sum: partial checksums combine, and data with its checksum in
    place is accepted. *)

From S2P Require Import Prelude Bytes Cstring Hashtable EnvFlags Crc32 Strto Vsprintf EnvCommon.

(** Byte reversal of a 32-bit number. *)
Definition htonl (x : Z) : Z := le_load (rev (le_bytes 4 x)).
Definition ntohl (x : Z) : Z := htonl x.

(** * Addresses in text *)

(** The rounds from [i] on; [s] is the text left, [addr] the number so far. *)
Fixpoint string_to_ip_loop (rounds : nat) (s : list Z) (addr : Z) : Z :=
  match rounds with
  | O => htonl addr
  | S n =>
      let (val, e) := dectoul s in
      if 255 <? val then 0
      else if negb (Nat.eqb n 0) && negb (rd e =? 46) then 0
      else string_to_ip_loop n (if rd e =? 0 then e else tl e)
                             (Z.lor (u32 (Z.shiftl addr 8)) (Z.land val 255))
  end.
Definition string_to_ip (s : option (list Z)) : Z :=
  match s with None => 0 | Some s => string_to_ip_loop 4 s 0 end.

(** "%d.%d.%d.%d" *)
Definition ip_format : list Z := [37; 100; 46; 37; 100; 46; 37; 100; 46; 37; 100].

Definition ip_to_string (x : Z) (s : list Z) : option printed :=
  let x := ntohl x in
  sprintf false None None s ip_format
    [ArgInt (Z.land (Z.shiftr x 24) 255); ArgInt (Z.land (Z.shiftr x 16) 255);
     ArgInt (Z.land (Z.shiftr x 8) 255); ArgInt (Z.land x 255)].

Fixpoint string_to_enetaddr_loop (rounds : nat) (addr : option (list Z)) : list Z :=
  match rounds with
  | O => []
  | S n =>
      match addr with
      | None => 0 :: string_to_enetaddr_loop n None
      | Some addr =>
          let (val, end_) := hextoul addr in
          u8 val :: string_to_enetaddr_loop n (Some (if rd end_ =? 0 then end_ else tl end_))
      end
  end.
(** The six bytes stored. *)
Definition string_to_enetaddr (addr : option (list Z)) : list Z := string_to_enetaddr_loop 6 addr.

Definition is_zero_ethaddr (addr : list Z) : bool := fold_left Z.lor (take 6 addr) 0 =? 0.
Definition is_multicast_ethaddr (addr : list Z) : bool := negb (Z.land 1 (addr !!! 0%nat) =? 0).
Definition is_broadcast_ethaddr (addr : list Z) : bool := fold_left Z.land (take 6 addr) 255 =? 255.
Definition is_valid_ethaddr (addr : list Z) : bool := negb (is_multicast_ethaddr addr) && negb (is_zero_ethaddr addr).

(** * Addresses in the environment *)

Section Enet.
Context `{EnvHooks} (config_env_size : Z) (default_environment : list Z).

(** Whether the address is valid, the address and the state. *)
Definition eth_env_get_enetaddr (name : list Z) (st : env_state) : outcome (bool * list Z * env_state) :=
  match env_get config_env_size default_environment name st with
  | Done (s, st) => let a := string_to_enetaddr s in Done (is_valid_ethaddr a, a, st)
  | Hangs => Hangs
  | Overrun => Overrun
  end.

(** "%pM" into 18 bytes. *)
Definition eth_env_set_enetaddr (name enetaddr : list Z) (st : env_state) : outcome (Z * env_state) :=
  match eth_env_get_enetaddr name st with
  | Done (true, _, st) => Done (- EEXIST, st)
  | Done (false, _, st) =>
      match sprintf false None None (replicate 18 0) [37; 112; 77] [ArgPtr 1 enetaddr] with
      | Some r => if pr_over r then Overrun else env_set name (Some (cstr (pr_mem r))) st
      | None => Overrun
      end
  | Hangs => Hangs
  | Overrun => Overrun
  end.
End Enet.

(** * The IP checksum *)

(** The sum of 16-bit words; an odd byte at the end is a low byte. *)
Fixpoint sum_words (sum : Z) (bytes : list Z) : Z :=
  match bytes with
  | [] => sum
  | [b] => s32 (sum + b)
  | b0 :: b1 :: bytes' => sum_words (s32 (sum + (b0 + 256 * b1))) bytes'
  end.

Definition compute_ip_checksum (bytes : list Z) : Z :=
  let sum := sum_words 0 bytes in
  let sum := s32 (Z.shiftr sum 16 + Z.land sum 65535) in
  let sum := s32 (sum + Z.shiftr sum 16) in
  Z.land (Z.lnot sum) 65535.

Definition add_ip_checksums (offset sum new : Z) : Z :=
  let sum := Z.land (Z.lnot sum) 65535 in
  let new := Z.land (Z.lnot new) 65535 in
  let new :=
    if negb (Z.land offset 1 =? 0)
    then Z.lor (Z.land (Z.shiftr new 8) 255) (Z.land (Z.shiftl new 8) 65280) else new in
  let checksum := sum + new in
  let checksum := if 65535 <? checksum then checksum - 65535 else checksum in
  Z.land (Z.lnot checksum) 65535.

Definition ip_checksum_ok (bytes : list Z) : bool := Z.land (compute_ip_checksum bytes) 65534 =? 0.

(** * One's complement *)

(** The sum as an integer, bytes at odd positions counting 256 fold; [odd]
    says whether the first byte is at an odd position. *)
Fixpoint weighted (odd : bool) (bytes : list Z) : Z :=
  match bytes with
  | [] => 0
  | b :: bytes' => (if odd then 256 * b else b) + weighted (negb odd) bytes'
  end.

(** The representative of a sum modulo 65535 that is 0 only for 0. *)
Definition folded (s : Z) : Z := if s =? 0 then 0 else 1 + (s - 1) mod 65535.

Lemma folded_range s : 0 <= s -> 0 <= folded s <= 65535 /\ (folded s = 0 <-> s = 0).
Proof. intros H. unfold folded. destruct (Z.eqb_spec s 0); [lia|]. pose proof (Z.mod_pos_bound (s - 1) 65535). lia. Qed.

(** It is the only one. *)
Lemma folded_unique s r : 0 <= s -> 0 <= r <= 65535 -> (r = 0 <-> s = 0) -> (s - r) mod 65535 = 0 -> folded s = r.
Proof.
  intros Hs Hr Hz Hm. unfold folded. destruct (Z.eqb_spec s 0); [lia|]. zlia.
Qed.

Lemma folded_mod s : 0 <= s -> (s - folded s) mod 65535 = 0.
Proof. intros H. unfold folded. destruct (Z.eqb_spec s 0) as [->|]; [done|]. zlia. Qed.

Lemma land16 x : Z.land x 65535 = x mod 65536.
Proof. change 65535 with (Z.ones 16). by rewrite Z.land_ones by lia. Qed.
Lemma not16 x : Z.land (Z.lnot x) 65535 = 65535 - x mod 65536.
Proof. rewrite land16. unfold Z.lnot. zlia. Qed.

Lemma weighted_nonneg odd bytes : Forall (fun b => 0 <= b < 256) bytes -> 0 <= weighted odd bytes.
Proof. intros F. revert odd. induction F as [|b bytes Hb F IH]; intros odd; cbn [weighted]; [lia|]. specialize (IH (negb odd)). destruct odd; lia. Qed.

Lemma weighted_bound bytes : forall odd, Forall (fun b => 0 <= b < 256) bytes ->
  weighted odd bytes <= 32768 * (Z.of_nat (length bytes)) + (if odd then 32512 else 0).
Proof.
  induction bytes as [|b bytes IH]; intros odd F; cbn [weighted length]; [destruct odd; lia|].
  apply Forall_cons in F as [Hb F]. specialize (IH (negb odd) F). destruct odd; cbn [negb] in *; lia.
Qed.

Lemma list_pairs (P : list Z -> Prop) :
  P [] -> (forall b, P [b]) -> (forall b0 b1 l, P l -> P (b0 :: b1 :: l)) -> forall l, P l.
Proof.
  intros H0 H1 H2 l. enough (P l /\ forall b, P (b :: l)) by tauto.
  induction l as [|c l [IH1 IH2]]; split; auto.
Qed.

Lemma sum_words_ok bytes : forall s,
  Forall (fun b => 0 <= b < 256) bytes -> 0 <= s -> s + weighted false bytes < 2147483648 ->
  sum_words s bytes = s + weighted false bytes.
Proof.
  induction bytes as [|b|b0 b1 bytes IH] using list_pairs; intros s F Hs Hb; cbn [sum_words weighted negb] in *.
  - lia.
  - apply Forall_cons in F as [F0 _]. rewrite s32_small by lia. lia.
  - apply Forall_cons in F as [F0 F]. apply Forall_cons in F as [F1 F]. pose proof (weighted_nonneg false bytes F).
    rewrite s32_small by lia. rewrite IH by (done || lia). lia.
Qed.

Lemma checksum_ok bytes :
  Forall (fun b => 0 <= b < 256) bytes -> weighted false bytes < 2147483648 ->
  compute_ip_checksum bytes = 65535 - folded (weighted false bytes).
Proof.
  intros F Hb. unfold compute_ip_checksum. pose proof (weighted_nonneg false bytes F) as Hn.
  rewrite sum_words_ok by (done || lia). rewrite Z.add_0_l. set (s := weighted false bytes) in *. clearbody s.
  rewrite (land16 s), !Z.shiftr_div_pow2 by lia. change (2 ^ 16) with 65536.
  pose proof (Z.div_mod s 65536 ltac:(lia)) as E. pose proof (Z.mod_pos_bound s 65536 ltac:(lia)).
  set (q := s / 65536) in *. set (r := s mod 65536) in *. assert (0 <= q < 32768) by lia. clearbody q r.
  rewrite (s32_small (q + r)) by lia. rewrite s32_small by zlia. rewrite not16. f_equal.
  assert ((q + r + (q + r) / 65536) mod 65536 = if q + r <? 65536 then q + r else q + r - 65535) as ->.
  { destruct (Z.ltb_spec (q + r) 65536); zlia. }
  symmetry. destruct (Z.ltb_spec (q + r) 65536); (apply folded_unique; [lia|lia|lia|apply Z.mod_divide; [lia|]]).
  - exists q. lia.
  - exists (q + 1). lia.
Qed.

(** * Moving a part to an odd position *)

Definition odd_length (l : list Z) : bool := Nat.odd (length l).

Lemma odd_bit n : negb (Z.land (Z.of_nat n) 1 =? 0) = Nat.odd n.
Proof.
  assert (Z.odd (Z.of_nat n) = Nat.odd n) as <-.
  { induction n as [|n IH]; [done|]. by rewrite Nat2Z.inj_succ, Z.odd_succ, Nat.odd_succ, <- Z.negb_odd, <- Nat.negb_odd, IH. }
  change 1 with (Z.ones 1). rewrite Z.land_ones by lia. change (2 ^ 1) with 2. rewrite Zmod_odd. by destruct (Z.odd _).
Qed.

Lemma weighted_app a b : forall odd, weighted odd (a ++ b) = weighted odd a + weighted (xorb odd (odd_length a)) b.
Proof.
  unfold odd_length. induction a as [|x a IH]; intros odd; cbn [app weighted length].
  - by rewrite xorb_false_r.
  - rewrite IH, Nat.odd_succ, <- Nat.negb_odd. destruct odd, (Nat.odd (length a)); cbn; lia.
Qed.

Lemma weighted_swap bytes : forall odd, exists k, weighted (negb odd) bytes = 256 * weighted odd bytes + 65535 * k.
Proof.
  induction bytes as [|b bytes IH]; intros odd; cbn [weighted]; [by exists 0|].
  destruct (IH (negb odd)) as [k E]. rewrite E. destruct odd; cbn [negb]; [exists (k - b)|exists k]; lia.
Qed.

Lemma weighted_zero bytes : forall o1 o2, Forall (fun b => 0 <= b < 256) bytes -> weighted o1 bytes = 0 -> weighted o2 bytes = 0.
Proof.
  induction bytes as [|b bytes IH]; intros o1 o2 F E; cbn [weighted] in *; [done|]. apply Forall_cons in F as [Hb F].
  pose proof (weighted_nonneg (negb o1) bytes F). assert (b = 0) as -> by (destruct o1; lia).
  rewrite (IH (negb o1) (negb o2) F) by (destruct o1; lia). by destruct o2.
Qed.

(** Swapping the bytes of a 16-bit number. *)
Definition swap16 (w : Z) : Z := w / 256 + 256 * (w mod 256).

Lemma swap_bits w : 0 <= w <= 65535 ->
  Z.lor (Z.land (Z.shiftr w 8) 255) (Z.land (Z.shiftl w 8) 65280) = swap16 w.
Proof.
  intros H. unfold swap16. rewrite Z.shiftr_div_pow2, Z.shiftl_mul_pow2 by lia. change (2 ^ 8) with 256.
  assert (Z.land (w / 256) 255 = w / 256) as ->.
  { change 255 with (Z.ones 8). rewrite Z.land_ones by lia. change (2 ^ 8) with 256. zlia. }
  assert (Z.land (w * 256) 65280 = (w mod 256) * 2 ^ 8) as ->.
  { change 65280 with (Z.shiftl (Z.ones 8) 8). change (w * 256) with (w * 2 ^ 8).
    rewrite <- !Z.shiftl_mul_pow2, <- Z.shiftl_land, Z.land_ones by lia. done. }
  rewrite <- Z.shiftl_mul_pow2 by lia. assert (w / 256 = (w / 256) mod 2 ^ 8) as Ew by (change (2 ^ 8) with 256; zlia).
  assert (Z.land (w / 256) (Z.shiftl (w mod 256) 8) = 0) as L.
  { rewrite Ew. apply Z.bits_inj'. intros n Hn. rewrite Z.land_spec, Z.bits_0.
    destruct (Z.lt_ge_cases n 8); [rewrite Z.shiftl_spec_low by lia; apply andb_false_r|].
    by rewrite Z.mod_pow2_bits_high by lia. }
  rewrite <- Z.lxor_lor, <- Z.add_nocarry_lxor by exact L. rewrite Z.shiftl_mul_pow2 by lia. change (2 ^ 8) with 256. lia.
Qed.

Lemma swap16_folded s k t :
  0 <= s -> 0 <= t -> t = 256 * s + 65535 * k -> (s = 0 <-> t = 0) -> swap16 (folded s) = folded t.
Proof.
  intros Hs Ht E Z0. symmetry. pose proof (folded_range s Hs) as [R Rz]. pose proof (folded_mod s Hs) as M.
  apply Z.mod_divide in M as [q M]; [|lia]. set (w := folded s) in *. clearbody w. unfold swap16.
  apply folded_unique; [done|zlia|zlia|]. apply Z.mod_divide; [lia|].
  exists (256 * q + k + w / 256). pose proof (Z.div_mod w 256 ltac:(lia)). nia.
Qed.

Lemma folded_add s t : 0 <= s -> 0 <= t ->
  folded (s + t) = if 65535 <? folded s + folded t then folded s + folded t - 65535 else folded s + folded t.
Proof.
  intros Hs Ht. pose proof (folded_range s Hs) as [Rs Zs]. pose proof (folded_range t Ht) as [Rt Zt].
  pose proof (folded_mod s Hs) as Ms. pose proof (folded_mod t Ht) as Mt.
  apply Z.mod_divide in Ms as [q Ms]; [|lia]. apply Z.mod_divide in Mt as [p Mt]; [|lia].
  set (a := folded s) in *. set (b := folded t) in *. clearbody a b.
  destruct (Z.ltb_spec 65535 (a + b)); (apply folded_unique; [lia|lia|lia|apply Z.mod_divide; [lia|]]).
  - exists (q + p + 1). lia.
  - exists (q + p). lia.
Qed.

Lemma complement x : 0 <= x <= 65535 -> Z.land (Z.lnot (65535 - x)) 65535 = x.
Proof. intros H. rewrite not16. zlia. Qed.

(** Checksums of parts combine: for data of at most 65535 bytes cut
    anywhere, [add_ip_checksums] of the checksums of the two parts, with the
    position of the second one, is the checksum of the whole. *)
Theorem ip_checksum_concat (a b : list Z) :
  Forall (fun c => 0 <= c < 256) (a ++ b) -> Z.of_nat (length (a ++ b)) <= 65535 ->
  compute_ip_checksum (a ++ b)
  = add_ip_checksums (Z.of_nat (length a)) (compute_ip_checksum a) (compute_ip_checksum b).
Proof.
  intros F L. pose proof F as [Fa Fb]%Forall_app. pose proof (weighted_bound (a ++ b) false F) as B.
  rewrite checksum_ok by (done || lia). rewrite weighted_app in *. cbn [xorb] in *.
  pose proof (weighted_nonneg false a Fa) as Na. pose proof (weighted_nonneg (odd_length a) b Fb) as Nb.
  pose proof (weighted_bound b false Fb). rewrite length_app in B, L.
  rewrite !checksum_ok by (done || lia). unfold add_ip_checksums.
  rewrite !complement by (apply folded_range; [done || by apply weighted_nonneg]).
  assert (negb (Z.land (Z.of_nat (length a)) 1 =? 0) = odd_length a) as ->.
  { apply odd_bit. }
  rewrite swap_bits by (apply folded_range; by apply weighted_nonneg).
  assert ((if odd_length a then swap16 (folded (weighted false b)) else folded (weighted false b))
          = folded (weighted (odd_length a) b)) as ->.
  { destruct (odd_length a); [|done]. destruct (weighted_swap b false) as [k E].
    apply (swap16_folded _ k); [by apply weighted_nonneg|done|exact E|].
    split; intros; by eapply weighted_zero. }
  rewrite <- folded_add by done. rewrite not16, Z.mod_small; [done|].
  pose proof (folded_range (weighted false a + weighted (odd_length a) b)). lia.
Qed.

Lemma ip_checksum_concat_witness :
  compute_ip_checksum [1; 2; 255; 254; 7]
  = add_ip_checksums 3 (compute_ip_checksum [1; 2; 255]) (compute_ip_checksum [254; 7]).
Proof.
  apply (ip_checksum_concat [1; 2; 255] [254; 7]).
  - repeat constructor; discriminate.
  - cbn. lia.
Defined.

(** Data with its checksum in place is accepted: when the checksum of data
    with a zero word at an even position is stored in that word, the checksum
    of the result is 0 and the test succeeds. *)
Theorem ip_checksum_accepts (pre post : list Z) :
  let zeroed := pre ++ [0; 0] ++ post in
  let c := compute_ip_checksum zeroed in
  let sent := pre ++ [c mod 256; c / 256] ++ post in
  Forall (fun b => 0 <= b < 256) zeroed -> Nat.even (length pre) = true -> Z.of_nat (length zeroed) <= 65535 ->
  compute_ip_checksum sent = 0 /\ ip_checksum_ok sent = true.
Proof.
  intros zeroed c sent F Ev L. enough (compute_ip_checksum sent = 0) as E by (split; [done|]; unfold ip_checksum_ok; by rewrite E).
  assert (odd_length pre = false) as Od by (unfold odd_length; by rewrite <- Nat.negb_even, Ev).
  pose proof (weighted_bound zeroed false F) as B. pose proof (weighted_nonneg false zeroed F) as N.
  assert (c = 65535 - folded (weighted false zeroed)) as Ec by (apply checksum_ok; [done|lia]).
  clearbody c. pose proof (folded_range (weighted false zeroed) N) as [R Z0]. pose proof (folded_mod (weighted false zeroed) N) as M.
  assert (Forall (fun b => 0 <= b < 256) sent) as Fs.
  { apply Forall_app in F as [Fp Fq]. apply Forall_app. split; [done|]. apply Forall_app in Fq as [_ Fq].
    apply Forall_app. split; [|done]. repeat constructor; zlia. }
  assert (length sent = length zeroed) as Ls by (subst sent zeroed; by rewrite !length_app).
  assert (weighted false sent = weighted false zeroed + c) as Ew.
  { unfold sent, zeroed. rewrite !weighted_app, Od. change (odd_length [_; _]) with false.
    cbn [weighted xorb negb]. pose proof (Z.div_mod c 256 ltac:(lia)). lia. }
  pose proof (weighted_bound sent false Fs) as Bs. rewrite Ls in Bs.
  rewrite checksum_ok by (done || lia). rewrite Ew.
  rewrite (folded_unique _ 65535); [done|lia|lia|lia|].
  rewrite Ec. apply Z.mod_divide in M as [q M]; [|lia]. apply Z.mod_divide; [lia|]. exists q. lia.
Qed.

Lemma ip_checksum_accepts_witness : ip_checksum_ok [69; 0; 185; 255; 1] = true.
Proof.
  apply (ip_checksum_accepts [69; 0] [1]).
  - repeat constructor; discriminate.
  - reflexivity.
  - cbn. lia.
Defined.

(** The test ignores the lowest bit: it accepts data whose checksum is off by
    one. *)
Theorem ip_checksum_ok_lax :
  compute_ip_checksum [69; 0; 184; 255; 1] = 1 /\ ip_checksum_ok [69; 0; 184; 255; 1] = true.
Proof. split; reflexivity. Qed.
