(* ===== verification/NetText.v ===== *)
(** Addresses in text: IPv4 and Ethernet addresses are read back as printed,
    and an Ethernet address survives the environment. *)

From stdpp Require Import gmap.
From S2P Require Import Prelude Bytes Cstring CstringProps Strto Crc32 Vsprintf VsprintfNumber VsprintfText.
From S2P Require Import VsprintfRound Hashtable HashSearch HashProps HashClaims HashEntries HashIO EnvFlags.
From S2P Require Import EnvCommon EnvCommonProps NetUtils.

(** * IPv4 *)

Definition ip_byte (x k : Z) : Z := Z.land (Z.shiftr x k) 255.

Lemma ip_byte_range x k : 0 <= ip_byte x k < 256.
Proof. unfold ip_byte. change 255 with (Z.ones 8). rewrite Z.land_ones by lia. apply Z.mod_pos_bound. lia. Qed.

Definition ip_text (a b c d : Z) : list Z :=
  plain_text 10 a ++ 46 :: plain_text 10 b ++ 46 :: plain_text 10 c ++ 46 :: plain_text 10 d.

Definition quad (v : Z) : Prop := 0 <= v < 256.

Lemma quad_text v : quad v ->
  plain (plain_text 10 v) /\ (length (plain_text 10 v) <= 3)%nat /\ map u8 (plain_text 10 v) = plain_text 10 v.
Proof.
  intros H. unfold quad in H. assert (0 <= v <= U64_MAX) as Hv by (unfold U64_MAX; lia). split; [|split].
  - by apply plain_text_plain.
  - unfold plain_text. rewrite length_map, (digits_fuel 10 64 3 v); [apply digits_length; lia|lia| | |lia|lia].
    + split; [lia|]. eapply Z.le_lt_trans; [apply Hv|]. by apply pow64.
    + change (10 ^ Z.of_nat 3) with 1000. lia.
  - by apply plain_text_u8.
Qed.

Lemma ip_prints a b c d mem :
  quad a -> quad b -> quad c -> quad d -> (16 <= length mem)%nat -> Z.of_nat (length mem) <= INT_MAX ->
  sprintf false None None mem ip_format [ArgInt a; ArgInt b; ArgInt c; ArgInt d]
  = Some (Printed (Z.of_nat (length (ip_text a b c d))) (store mem 0 (ip_text a b c d ++ [0])) false []).
Proof.
  intros Ha Hb Hc Hd Hm Hi. unfold quad in *.
  assert (map u8 (ip_text a b c d) = ip_text a b c d) as Eu.
  { unfold ip_text. rewrite !map_app. cbn [map]. rewrite !map_app. cbn [map]. rewrite !map_app. cbn [map].
    by rewrite !(fun v H => proj2 (proj2 (quad_text v H))). }
  rewrite <- Eu at 2. eapply sprintf_fits; [|unfold ip_text|done].
  - intros e s _. cbn -[number u64 s32 ADDCH]. change (Z.lor 0 SIGN) with SIGN.
    change (flag_set SIGN SIGN) with true. cbn iota. rewrite !put_one, !number_dec, !put_all_app by lia. unfold ip_text.
    reflexivity.
  - rewrite length_app. cbn [length]. rewrite length_app. cbn [length]. rewrite length_app. cbn [length].
    pose proof (quad_text a Ha). pose proof (quad_text b Hb). pose proof (quad_text c Hc). pose proof (quad_text d Hd). lia.
Qed.

(** Reading a number that a dot or the end of the text follows. *)
Lemma dectoul_quad v rest : quad v -> rest = [] \/ rd rest = 46 -> dectoul (plain_text 10 v ++ rest) = (v, rest).
Proof.
  intros H Hr. unfold quad in H. unfold dectoul. apply parse_plain_rest; [lia|unfold U64_MAX; lia|].
  intros c Hc. destruct Hr as [->|Hr]; [done|]. destruct rest as [|x rest]; [done|]. injection Hc as <-.
  cbn [rd hd] in Hr. subst x. split; [vm_compute; discriminate|vm_compute; discriminate].
Qed.

(** A round of the loop appends a byte to the address. *)
Lemma join_byte x v : 0 <= x < 16777216 -> quad v -> Z.lor (u32 (Z.shiftl x 8)) (Z.land v 255) = 256 * x + v.
Proof.
  intros Hx Hv. unfold quad in Hv. rewrite Z.shiftl_mul_pow2 by lia. change (2 ^ 8) with 256. rewrite u32_small by lia.
  change 255 with (Z.ones 8). rewrite Z.land_ones by lia. change 256 with (2 ^ 8) at 1. rewrite <- Z.shiftl_mul_pow2 by lia.
  assert (Z.land (Z.shiftl x 8) (v mod 2 ^ 8) = 0) as L.
  { apply Z.bits_inj'. intros n Hn. rewrite Z.land_spec, Z.bits_0.
    destruct (Z.lt_ge_cases n 8); [by rewrite Z.shiftl_spec_low by lia|].
    rewrite Z.mod_pow2_bits_high by lia. apply andb_false_r. }
  rewrite <- Z.lxor_lor, <- Z.add_nocarry_lxor by exact L. rewrite Z.shiftl_mul_pow2 by lia.
  change (2 ^ 8) with 256. rewrite Z.mod_small by lia. lia.
Qed.

Lemma ip_round n v addr rest : quad v -> 0 <= addr < 16777216 ->
  string_to_ip_loop (S n) (plain_text 10 v ++ 46 :: rest) addr = string_to_ip_loop n rest (256 * addr + v).
Proof.
  intros Hv Ha. cbn [string_to_ip_loop]. rewrite dectoul_quad by (done || by right). cbn [rd hd tl].
  rewrite join_byte by done. destruct (Z.ltb_spec 255 v); [unfold quad in Hv; lia|].
  change (46 =? 46) with true. change (46 =? 0) with false. cbn [negb]. by rewrite andb_false_r.
Qed.

Lemma ip_last v addr : quad v -> 0 <= addr < 16777216 ->
  string_to_ip_loop 1 (plain_text 10 v) addr = htonl (256 * addr + v).
Proof.
  intros Hv Ha. cbn [string_to_ip_loop]. rewrite <- (app_nil_r (plain_text 10 v)), dectoul_quad by (done || by left).
  rewrite join_byte by done. destruct (Z.ltb_spec 255 v); unfold quad in Hv; [lia|done].
Qed.

Lemma ip_parses a b c d :
  quad a -> quad b -> quad c -> quad d ->
  string_to_ip (Some (ip_text a b c d)) = htonl (256 * (256 * (256 * a + b) + c) + d).
Proof.
  intros Ha Hb Hc Hd. pose proof Ha as Ha'. pose proof Hb as Hb'. pose proof Hc as Hc'. unfold quad in Ha', Hb', Hc'.
  unfold string_to_ip, ip_text. rewrite !ip_round, ip_last by (done || lia). done.
Qed.

Lemma htonl_bytes b0 b1 b2 b3 : quad b0 -> quad b1 -> quad b2 -> quad b3 ->
  htonl (b0 + 256 * (b1 + 256 * (b2 + 256 * b3))) = b3 + 256 * (b2 + 256 * (b1 + 256 * b0)).
Proof.
  unfold quad. intros. unfold htonl. cbn [le_bytes rev app]. change 255 with (Z.ones 8).
  rewrite !Z.land_ones, !Z.shiftr_div_pow2 by lia. change (2 ^ 8) with 256. unfold le_load. cbn [foldr].
  replace ((b0 + 256 * (b1 + 256 * (b2 + 256 * b3))) / 256) with (b1 + 256 * (b2 + 256 * b3)) by zlia.
  replace ((b1 + 256 * (b2 + 256 * b3)) / 256) with (b2 + 256 * b3) by zlia.
  replace ((b2 + 256 * b3) / 256) with b3 by zlia. zlia.
Qed.

Lemma htonl_split x : 0 <= x < 4294967296 ->
  htonl (256 * (256 * (256 * ip_byte (ntohl x) 24 + ip_byte (ntohl x) 16) + ip_byte (ntohl x) 8) + ip_byte (ntohl x) 0) = x.
Proof.
  intros Hx. set (b0 := x mod 256). set (b1 := x / 256 mod 256). set (b2 := x / 65536 mod 256). set (b3 := x / 16777216).
  assert (quad b0 /\ quad b1 /\ quad b2 /\ quad b3) as (Q0 & Q1 & Q2 & Q3) by (unfold quad, b0, b1, b2, b3; repeat split; zlia).
  assert (x = b0 + 256 * (b1 + 256 * (b2 + 256 * b3))) as E by (unfold b0, b1, b2, b3; zlia). clearbody b0 b1 b2 b3.
  unfold ntohl. rewrite E, htonl_bytes by done. set (y := b3 + _). assert (y = b3 + 256 * (b2 + 256 * (b1 + 256 * b0))) as Ey by done.
  clearbody y. unfold ip_byte. change 255 with (Z.ones 8). rewrite !Z.land_ones, !Z.shiftr_div_pow2 by lia. unfold quad in *.
  change (2 ^ 24) with 16777216. change (2 ^ 16) with 65536. change (2 ^ 8) with 256. change (2 ^ 0) with 1.
  replace (y / 16777216 mod 256) with b0 by zlia. replace (y / 65536 mod 256) with b1 by zlia.
  replace (y / 256 mod 256) with b2 by zlia. replace (y / 1 mod 256) with b3 by zlia.
  replace (256 * (256 * (256 * b0 + b1) + b2) + b3) with (b3 + 256 * (b2 + 256 * (b1 + 256 * b0))) by lia.
  by rewrite htonl_bytes.
Qed.

(** IPv4 addresses survive text: every address printed by [ip_to_string]
    into 16 bytes or more fits, and [string_to_ip] reads it back. *)
Theorem ip_text_roundtrip (x : Z) (mem : list Z) :
  0 <= x < 4294967296 -> 16 <= Z.of_nat (length mem) <= INT_MAX ->
  exists r, ip_to_string x mem = Some r /\ pr_over r = false /\ string_to_ip (Some (cstr (pr_mem r))) = x.
Proof.
  intros Hx Hm. unfold ip_to_string. fold (ip_byte (ntohl x) 24) (ip_byte (ntohl x) 16) (ip_byte (ntohl x) 8).
  assert (Z.land (ntohl x) 255 = ip_byte (ntohl x) 0) as -> by (unfold ip_byte; by rewrite Z.shiftr_0_r).
  pose proof (fun k => ip_byte_range (ntohl x) k) as Q.
  eexists. split; [apply ip_prints; try apply Q; lia|]. cbn [pr_over pr_mem]. split; [done|].
  unfold store. change (Z.to_nat 0) with 0%nat. rewrite take_0, app_nil_l, <- app_assoc. cbn [app].
  rewrite cstr_app_end.
  - rewrite ip_parses by apply Q. by apply htonl_split.
  - unfold ip_text. pose proof (fun k => proj1 (quad_text (ip_byte (ntohl x) k) (Q k))) as P.
    repeat (apply Forall_app; split; [apply P|constructor; [lia|]]). apply P.
Qed.

Lemma ip_text_roundtrip_witness :
  exists r, ip_to_string 16777343 (replicate 16 0) = Some r /\ pr_over r = false /\
    string_to_ip (Some (cstr (pr_mem r))) = 16777343.
Proof. apply (ip_text_roundtrip 16777343 (replicate 16 0)); [lia|]. vm_compute. split; discriminate. Defined.

(** * Ethernet addresses *)

Lemma hex_pack_digits a : quad a -> hex_byte_pack a = map digit_char [a / 16; a mod 16].
Proof.
  intros H. unfold quad in H.
  assert (forallb (fun v => bool_decide (hex_byte_pack v = map digit_char [v / 16; v mod 16])) (map Z.of_nat (seq 0 256)) = true)
    as F by (vm_compute; reflexivity).
  rewrite forallb_forall in F. specialize (F a). rewrite bool_decide_eq_true in F.
  apply F, in_map_iff. exists (Z.to_nat a). rewrite in_seq. lia.
Qed.

Lemma hextoul_pack a rest : quad a -> rest = [] \/ rd rest = 58 -> hextoul (hex_byte_pack a ++ rest) = (a, rest).
Proof.
  intros H Hr. rewrite hex_pack_digits by done. unfold quad in H. unfold hextoul.
  assert (0 <= a / 16 < 16 /\ 0 <= a mod 16 < 16) as [D1 D2] by zlia.
  rewrite strtoul_value; [|lia|done| | |].
  - cbn [map]. rewrite (proj1 (digit_char_ok _ D1)), (proj1 (digit_char_ok _ D2)). f_equal. unfold positional. cbn [fold_left].
    rewrite u64_small by (unfold U64_MAX; zlia). zlia.
  - cbn [map]. repeat constructor; [rewrite (proj1 (digit_char_ok _ D1))|rewrite (proj1 (digit_char_ok _ D2))]; lia.
  - intros c Hc. destruct Hr as [->|Hr]; [done|]. destruct rest as [|x rest]; [done|]. injection Hc as <-.
    cbn [rd hd] in Hr. subst x. vm_compute. discriminate.
  - right. cbn [map app tl rd hd]. by apply digit_char_not_x.
Qed.

Lemma enet_parses addr : addr <> [] -> Forall quad addr ->
  string_to_enetaddr_loop (length addr) (Some (mac_text true addr)) = addr.
Proof.
  intros Ne F. induction F as [|a addr Ha F IH]; [done|]. cbn [length string_to_enetaddr_loop].
  assert (u8 a = a) as Ea by (by apply u8_small). destruct addr as [|b addr].
  - change (mac_text true [a]) with (hex_byte_pack a). rewrite <- (app_nil_r (hex_byte_pack a)), hextoul_pack by (done || by left).
    cbn [rd hd]. change (0 =? 0) with true. by rewrite Ea.
  - change (mac_text true (a :: b :: addr)) with (hex_byte_pack a ++ 58 :: mac_text true (b :: addr)).
    rewrite hextoul_pack by (done || by right). cbn [rd hd tl]. change (58 =? 0) with false. cbn iota.
    rewrite Ea. f_equal. by apply IH.
Qed.

Lemma mac_text_plain addr : Forall quad addr -> Forall (fun c => c <> 0 /\ 0 <= c < 256) (mac_text true addr).
Proof.
  intros F. assert (forall a, quad a -> Forall (fun c => c <> 0 /\ 0 <= c < 256) (hex_byte_pack a)) as P.
  { intros a Ha. rewrite hex_pack_digits by done. unfold quad in Ha. cbn [map].
    assert (forall d, 0 <= d < 16 -> digit_char d <> 0 /\ 0 <= digit_char d < 256) as D.
    { intros d Hd. unfold digit_char. destruct (Z.ltb_spec d 10); lia. }
    repeat constructor; apply D; zlia. }
  induction F as [|a addr Ha F IH]; [constructor|]. destruct addr as [|b addr]; [by apply P|].
  change (mac_text true (a :: b :: addr)) with (hex_byte_pack a ++ 58 :: mac_text true (b :: addr)).
  apply Forall_app. split; [by apply P|]. constructor; [lia|done].
Qed.

(** A text without width and precision is put as it is. *)
Lemma string_chars_plain s fl : plain s -> Z.of_nat (length s) <= U64_MAX -> string_chars (Some s) (-1) (-1) fl = s.
Proof.
  intros P L. unfold string_chars. change (u64 (-1)) with U64_MAX. change (default null_text (Some s)) with s.
  rewrite Z.min_r by done. unfold strnlen. rewrite Nat2Z.id, strnlen_strlen, strlen_cstr, cstr_plain, Nat2Z.id by done.
  rewrite take_ge by done. replace (Z.to_nat (-1 - Z.of_nat (length s))) with 0%nat by lia. cbn [replicate].
  destruct (flag_set fl LEFT); cbn [negb app]; by rewrite ?app_nil_r.
Qed.

Definition enet (addr : list Z) : Prop := length addr = 6%nat /\ Forall quad addr.

Lemma mac_length addr : enet addr -> length (mac_text true addr) = 17%nat.
Proof. intros [L _]. by do 7 (destruct addr as [|? addr]; try discriminate L). Qed.

Lemma mac_prints addr mem : enet addr -> (18 <= length mem)%nat -> Z.of_nat (length mem) <= INT_MAX ->
  sprintf false None None mem [37; 112; 77] [ArgPtr 1 addr]
  = Some (Printed 17 (store mem 0 (mac_text true addr ++ [0])) false []).
Proof.
  intros E Hm Hi. pose proof (mac_length addr E) as L. pose proof E as [L6 F]. pose proof (mac_text_plain addr F) as P.
  assert (map u8 (mac_text true addr) = mac_text true addr) as Eu.
  { rewrite <- (map_id (mac_text true addr)) at 2. apply map_ext_Forall. eapply Forall_impl; [exact P|].
    intros c [_ ?]. by apply u8_small. }
  rewrite <- Eu. change 17 with (Z.of_nat 17). rewrite <- L. eapply sprintf_fits; [|lia|done].
  intros e b _. cbn -[string mac_text take no_special flag_set Z.ltb Z.of_nat length]. rewrite L6.
  change (Z.of_nat 6 <? 6) with false. cbn iota.
  assert (mac_address_string e b addr (-1) (-1) 0 = put_all e b (mac_text true addr)) as ->.
  { unfold mac_address_string. change (flag_set 0 SPECIAL) with false. cbn [negb]. rewrite (take_ge addr) by lia.
    rewrite string_puts, string_chars_plain; [done| |rewrite L; unfold U64_MAX; lia].
    eapply Forall_impl; [exact P|]. by intros c [? _]. }
  reflexivity.
Qed.

(** Ethernet addresses survive the environment: an address that
    [eth_env_set_enetaddr] stores, which it does only when no valid one is
    there, is what [eth_env_get_enetaddr] reads back; an address that is there
    already is refused with -EEXIST and stays. *)
Theorem eth_env_roundtrip `{EnvHooks} (config_env_size : Z) (default_environment : list Z) (st : env_state)
    (M : env_map) (name addr : list Z) :
  env_holds st M -> settable name -> enet addr ->
  exists ret st', eth_env_set_enetaddr config_env_size default_environment name addr st = Done (ret, st') /\
    (ret = 0 -> eth_env_get_enetaddr config_env_size default_environment name st'
                = Done (is_valid_ethaddr addr, addr, st')) /\
    (is_valid_ethaddr (string_to_enetaddr (M !! name ≫= e_data)) = true -> ret = - EEXIST /\ st' = st).
Proof.
  intros Hd Sn E. pose proof E as [L6 F]. pose proof (mac_text_plain addr F) as Pt.
  assert (plain (mac_text true addr)) as P by (eapply Forall_impl; [exact Pt|]; by intros c [? _]).
  unfold eth_env_set_enetaddr, eth_env_get_enetaddr. rewrite (env_get_ok _ _ st M) by (done || apply Sn).
  destruct (is_valid_ethaddr (string_to_enetaddr (M !! name ≫= e_data))).
  { eexists _, _. split; [reflexivity|]. split; [unfold EEXIST; lia|done]. }
  rewrite mac_prints; [|done|by rewrite length_replicate|rewrite length_replicate; unfold INT_MAX; lia].
  cbn [pr_over pr_mem]. unfold store. change (Z.to_nat 0) with 0%nat. rewrite take_0, app_nil_l, <- app_assoc. cbn [app].
  rewrite cstr_app_end by done. destruct (env_set_ok st M name _ Hd Sn P) as (st' & Es & H' & _).
  destruct (set_var _ name (mac_text true addr) M) as [ret M'] eqn:Ev. cbn [fst snd] in *.
  exists ret, st'. split; [exact Es|]. split; [|done]. intros ->.
  rewrite (env_get_ok _ _ st' M') by (done || apply Sn). rewrite (set_var_value _ _ _ _ _ ltac:(intros N; pose proof (mac_length addr E) as L; by rewrite N in L) Ev).
  unfold string_to_enetaddr. rewrite <- L6, enet_parses; [done|by destruct addr|done].
Qed.

Lemma eth_env_roundtrip_witness :
  exists ret st', @eth_env_set_enetaddr no_hooks 64 [] [97; 98] [2; 0; 17; 34; 51; 255] demo_empty = Done (ret, st') /\
    (ret = 0 -> @eth_env_get_enetaddr no_hooks 64 [] [97; 98] st' = Done (true, [2; 0; 17; 34; 51; 255], st')) /\
    (is_valid_ethaddr (string_to_enetaddr ((∅ : env_map) !! [97; 98] ≫= e_data)) = true -> ret = - EEXIST /\ st' = demo_empty).
Proof.
  apply (@eth_env_roundtrip no_hooks 64 [] demo_empty ∅ [97; 98] [2; 0; 17; 34; 51; 255]).
  - exact demo_empty_holds.
  - exact demo_settable.
  - split; [reflexivity|]. repeat constructor; discriminate.
Defined.
