(* ===== verification/Cli.v ===== *)
(** The simple command line (common/cli_simple.c): the model.

    The environment is the class [EnvGet], what running a command does is the
    class [Commands] (cmd_process with the state it changes, the environment
    in that state, and the Ctrl-C flag).
    CONFIG_SYS_CBSIZE and CONFIG_SYS_MAXARGS are arguments.  Output and
    argument strings are lists of bytes; a pointer into the input is the rest
    of the string. *)

From S2P Require Import Prelude Bytes Cstring.

(** What the environment promises: the value of a variable, if it has one. *)
Class EnvGet := env_get : list Z -> option (list Z).

(** * Macros *)

(** The local variables of the loop.  [m_out] holds the bytes written. *)
Record macro_state := MacroSt {
  m_in : list Z; m_inputcnt : Z; m_outputcnt : Z; m_state : Z; m_prev : Z;
  m_varname : list Z; m_out : list Z
}.

Section Macros.
Context `{EnvGet}.

(** Write one byte. *)
Definition emit (c : Z) (s : macro_state) : macro_state :=
  MacroSt (m_in s) (m_inputcnt s) (m_outputcnt s - 1) (m_state s) (m_prev s) (m_varname s)
          (m_out s ++ [c]).
Definition goto (st : Z) (s : macro_state) : macro_state :=
  MacroSt (m_in s) (m_inputcnt s) (m_outputcnt s) st (m_prev s) (m_varname s) (m_out s).

(** [while (( *envval ) && outputcnt)] *)
Fixpoint emit_value (v : list Z) (s : macro_state) : macro_state :=
  match v with
  | [] => s
  | c :: v' => if negb (c =? 0) && negb (m_outputcnt s =? 0) then emit_value v' (emit c s) else s
  end.

(** The switch on the state, for character [c]. *)
Definition macro_switch (c : Z) (s : macro_state) : macro_state :=
  let unescaped := negb (m_prev s =? 92) in
  if m_state s =? 0 then
    if (c =? 39) && unescaped then goto 3 s
    else if (c =? 36) && unescaped then goto 1 s
    else emit c s
  else if m_state s =? 1 then
    if (c =? 40) || (c =? 123) then
      MacroSt (m_in s) (m_inputcnt s) (m_outputcnt s) 2 (m_prev s) (m_in s) (m_out s)
    else
      let s := emit 36 (goto 0 s) in
      if negb (m_outputcnt s =? 0) then emit c s else s
  else if m_state s =? 2 then
    if (c =? 41) || (c =? 125) then
      let envcnt := Z.of_nat (length (m_varname s)) - Z.of_nat (length (m_in s)) - 1 in
      let s := match env_get (slice (m_varname s) 0 envcnt) with
               | Some v => emit_value v s
               | None => s
               end in
      goto 0 s
    else s
  else
    if (c =? 39) && unescaped then goto 0 s else emit c s.

Definition set_prev (p : Z) (s : macro_state) : macro_state :=
  MacroSt (m_in s) (m_inputcnt s) (m_outputcnt s) (m_state s) p (m_varname s) (m_out s).
Definition advance (s : macro_state) : macro_state :=
  MacroSt (tl (m_in s)) (m_inputcnt s - 1) (m_outputcnt s) (m_state s) (m_prev s) (m_varname s) (m_out s).

(** One round; [inl]: break out of the loop. *)
Definition macro_round (s : macro_state) : macro_state + macro_state :=
  let c := rd (m_in s) in
  let s := advance s in
  if negb (m_state s =? 3) && (c =? 92) && negb (m_prev s =? 92) then
    if m_inputcnt s =? 0 then
      inl (MacroSt (m_in s) (-1) (m_outputcnt s) (m_state s) (m_prev s) (m_varname s) (m_out s))
    else
      let c' := rd (m_in s) in
      let s := advance (set_prev c s) in
      inr (set_prev c' (macro_switch c' s))
  else inr (set_prev c (macro_switch c s)).

Fixpoint macro_loop (fuel : nat) (s : macro_state) : macro_state :=
  match fuel with
  | O => s
  | S n =>
      if negb (m_inputcnt s =? 0) && negb (m_outputcnt s =? 0) then
        match macro_round s with inl s' => s' | inr s' => macro_loop n s' end
      else s
  end.

Definition macro_init (input : list Z) (max_size : Z) : macro_state :=
  MacroSt input (strlen input) max_size 0 0 [] [].

(** The return value and the bytes in [output]. *)
Definition cli_simple_process_macros (input : list Z) (max_size : Z) : Z * list Z :=
  let s := macro_loop (length input) (macro_init input max_size) in
  let ret := if negb (m_inputcnt s =? 0) then - ENOSPC else 0 in
  if negb (m_outputcnt s =? 0) then (ret, m_out s ++ [0])
  else (- ENOSPC, removelast (m_out s) ++ [0]).
End Macros.

(** * Arguments *)

Fixpoint skip_white (line : list Z) : list Z :=
  match line with
  | c :: l => if isblank c then skip_white l else line
  | [] => []
  end.

(** The characters up to a blank or the terminator, and the rest. *)
Fixpoint take_arg (line : list Z) : list Z * list Z :=
  match line with
  | c :: l => if (c =? 0) || isblank c then ([], line)
              else let (a, r) := take_arg l in (c :: a, r)
  | [] => ([], [])
  end.

(** The arguments found and whether argv was terminated by a NULL; [room] is
    the number of arguments still allowed. *)
Fixpoint cli_parse_from (room : nat) (line : list Z) : list (list Z) * bool :=
  match room with
  | O => ([], false)
  | S n =>
      let line := skip_white line in
      if rd line =? 0 then ([], true)
      else
        let (arg, line) := take_arg line in
        if rd line =? 0 then ([arg], true)
        else let (args, fin) := cli_parse_from n (tl line) in (arg :: args, fin)
  end.
Definition cli_simple_parse_line (maxargs : nat) (line : list Z) : list (list Z) * bool :=
  cli_parse_from maxargs line.

(** * Commands *)

(** What the command line asks of the rest of the system, whose state is [S]:
    running a command with its flag, arguments and the repeatable count so far
    gives the result, the new count and the new state; the environment is part
    of the state, since commands change it; so is the Ctrl-C flag. *)
Class Commands (S : Type) := {
  cmd_process : S -> Z -> list (list Z) -> Z -> Z * Z * S;
  cmd_env : S -> EnvGet;
  clear_ctrlc : S -> S;
  had_ctrlc : S -> bool
}.

(** The length of the first command and the rest after the separator.
    [before] is the byte in front of [sep], [start] whether [sep == str]. *)
Fixpoint find_sep (s : list Z) (inquotes : bool) (before : Z) (start : bool) : list Z * list Z :=
  match s with
  | [] => ([], [])
  | c :: s' =>
      if c =? 0 then ([], [])
      else
        let inquotes := if (c =? 39) && negb (before =? 92) then negb inquotes else inquotes in
        if negb inquotes && (c =? 59) && negb start && negb (before =? 92) then ([], s')
        else let (t, r) := find_sep s' inquotes c false in (c :: t, r)
  end.

Section Run.
Context {S : Type} `{Commands S}.
Variables (cbsize : Z) (maxargs : nat).

(** The loop over the commands of a line; [before] is the byte in front of
    [str], outside the buffer for the first one. *)
Fixpoint run_loop (fuel : nat) (str : list Z) (before : Z) (flag rc repeatable : Z) (st : S)
  : Z * S :=
  match fuel with
  | O => (rc, st)
  | Datatypes.S n =>
      if rd str =? 0 then (if negb (rc =? 0) then rc else repeatable, st)
      else
        let (token, rest) := find_sep str false before true in
        let finaltoken := snd (@cli_simple_process_macros (cmd_env st) token cbsize) in
        let (argv, _) := cli_simple_parse_line maxargs finaltoken in
        match argv with
        | [] => run_loop n rest 0 flag (-1) repeatable st
        | _ =>
            let '(r, rep, st) := cmd_process st flag argv repeatable in
            let rc := if negb (r =? 0) then -1 else rc in
            if had_ctrlc st then (-1, st) else run_loop n rest 0 flag rc rep st
        end
  end.

(** [before0] is the byte in front of the local buffer. *)
Definition cli_simple_run_command (before0 : Z) (cmd : option (list Z)) (flag : Z) (st : S) : Z * S :=
  let st := clear_ctrlc st in
  match cmd with
  | None => (-1, st)
  | Some cmd =>
      if rd cmd =? 0 then (-1, st)
      else if cbsize <=? strlen cmd then (-1, st)
      else run_loop (Datatypes.S (length cmd)) (cstr cmd) before0 flag 0 1 st
  end.

(** Run the lines of a script until one fails; [line] is the current line
    so far. *)
Fixpoint list_loop (before0 : Z) (next line : list Z) (st : S) : Z * S :=
  match next with
  | [] => if negb (Z.of_nat (length line) =? 0)
          then let (r, st) := cli_simple_run_command before0 (Some line) 0 st in
               (if r <? 0 then 1 else 0, st)
          else (0, st)
  | c :: next' =>
      if c =? 10 then
        match line with
        | [] => list_loop before0 next' [] st
        | _ => let (r, st) := cli_simple_run_command before0 (Some line) 0 st in
               if r <? 0 then (1, st) else list_loop before0 next' [] st
        end
      else list_loop before0 next' (line ++ [c]) st
  end.
Definition cli_simple_run_command_list (before0 : Z) (cmd : list Z) (st : S) : Z * S :=
  list_loop before0 (cstr cmd) [] st.
End Run.
