(* ===== verification/CliProps.v ===== *)
(** The simple command line: macro expansion stays inside its buffer and
    means what the syntax says. *)

From S2P Require Import Prelude Bytes Cstring CstringProps Cli.

(** * Macro expansion *)

Section Bounded.
Context `{EnvGet}.

(** Bytes written and room left add up. *)
Definition budget (max : Z) (s : macro_state) : Prop :=
  Z.of_nat (length (m_out s)) + m_outputcnt s = max /\ 0 <= m_outputcnt s.

Lemma emit_budget max c s : budget max s -> m_outputcnt s <> 0 -> budget max (emit c s).
Proof using. intros [B P] N. split; simpl; rewrite ?length_app; simpl; lia. Qed.

Lemma emit_value_budget max v : forall s, budget max s -> budget max (emit_value v s).
Proof using.
  induction v as [|c v IH]; intros s B; [done|]. simpl.
  destruct (negb (c =? 0) && negb (m_outputcnt s =? 0)) eqn:E; [|done].
  apply andb_true_iff in E as [_ E%negb_true_iff%Z.eqb_neq]. by apply IH, emit_budget.
Qed.

Lemma switch_budget max c s : budget max s -> m_outputcnt s <> 0 -> budget max (macro_switch c s).
Proof.
  intros B N. unfold macro_switch. destruct (m_state s =? 0).
  { destruct (_ && _); [done|]. destruct (_ && _); [done|]. by apply emit_budget. }
  destruct (m_state s =? 1).
  { destruct (_ || _); [done|]. destruct (Z.eqb_spec (m_outputcnt (emit 36 (goto 0 s))) 0); simpl negb; cbn iota.
    - by apply emit_budget.
    - apply emit_budget; [by apply emit_budget|done]. }
  destruct (m_state s =? 2).
  { destruct (_ || _); [|done]. destruct (env_get _); [|done].
    by destruct (emit_value_budget max l s B). }
  destruct (_ && _); [done|]. by apply emit_budget.
Qed.

Lemma loop_budget max fuel : forall s, budget max s -> budget max (macro_loop fuel s).
Proof.
  induction fuel as [|fuel IH]; intros s B; [done|]. cbn [macro_loop].
  destruct (negb (m_inputcnt s =? 0) && negb (m_outputcnt s =? 0)) eqn:E; [|done].
  apply andb_true_iff in E as [_ E%negb_true_iff%Z.eqb_neq]. unfold macro_round.
  destruct (_ && _ && _); [destruct (_ =? 0); [done|]|]; apply IH;
    (match goal with |- budget _ (set_prev _ (macro_switch ?c ?t)) =>
       destruct (switch_budget max c t) as [S1 S2]; [done|done|by split] end).
Qed.
End Bounded.

(** Expansion never overruns: for every input, environment and buffer of at
    least one byte, [cli_simple_process_macros] leaves a terminated string of
    at most the size of the buffer, terminator included. *)
Theorem macros_bounded `{EnvGet} (input : list Z) (max_size : Z) :
  0 < max_size ->
  exists body, snd (cli_simple_process_macros input max_size) = body ++ [0] /\
    Z.of_nat (length body) + 1 <= max_size.
Proof.
  intros Hm. unfold cli_simple_process_macros.
  destruct (loop_budget max_size (length input) (macro_init input max_size)) as [B P];
    [split; simpl; lia|].
  set (s := macro_loop _ _) in *. destruct (Z.eqb_spec (m_outputcnt s) 0) as [E|N]; simpl.
  - exists (removelast (m_out s)). split; [done|].
    destruct (list_last_dec (m_out s)) as [En|(l & x & En)]; rewrite En in *.
    + simpl in *. lia.
    + rewrite removelast_last. rewrite length_app in B. simpl in B. lia.
  - exists (m_out s). split; [done|lia].
Qed.

(** The syntax of a command line, piece by piece. *)
Inductive piece :=
  | Text (s : list Z)       (* ordinary characters *)
  | Escaped (c : Z)         (* a backslash and a character *)
  | Quoted (s : list Z)     (* characters between single quotes *)
  | Var (name : list Z).    (* the value of a variable *)

Definition ordinary (c : Z) : Prop := c <> 0 /\ c <> 92 /\ c <> 39 /\ c <> 36.
Definition name_char (c : Z) : Prop := c <> 0 /\ c <> 92 /\ c <> 41 /\ c <> 125.

Definition piece_ok (p : piece) : Prop :=
  match p with
  | Text s => Forall ordinary s
  | Escaped c => c <> 0 /\ c <> 92
  | Quoted s => Forall (fun c => c <> 0 /\ c <> 92 /\ c <> 39) s
  | Var name => Forall name_char name
  end.

(** How a piece is written and what it stands for. *)
Definition written (p : piece) : list Z :=
  match p with
  | Text s => s
  | Escaped c => [92; c]
  | Quoted s => 39 :: s ++ [39]
  | Var name => 36 :: 123 :: name ++ [125]
  end.
Definition meaning `{EnvGet} (p : piece) : list Z :=
  match p with
  | Text s => s
  | Escaped c => [c]
  | Quoted s => s
  | Var name => cstr (default [] (env_get name))
  end.

Section Expand.
Context `{EnvGet}.

(** [k] rounds of the loop lead from [s] to [t]. *)
Definition rounds (k : nat) (s t : macro_state) : Prop :=
  forall fuel, macro_loop (k + fuel) s = macro_loop fuel t.

Lemma rounds_trans j k s t u : rounds j s t -> rounds k t u -> rounds (j + k) s u.
Proof. intros A B fuel. rewrite <- Nat.add_assoc, A. apply B. Qed.

(** A round on a character that is not an escape. *)
Lemma round_plain s c rest :
  m_in s = c :: rest -> m_inputcnt s <> 0 -> m_outputcnt s <> 0 ->
  (m_state s = 3 \/ c <> 92) ->
  rounds 1 s (set_prev c (macro_switch c (advance s))).
Proof.
  intros Ei Hi Ho Hc fuel. cbn [Nat.add macro_loop].
  rewrite !(proj2 (Z.eqb_neq _ _)) by done. cbn [negb andb]. unfold macro_round. rewrite Ei. cbn [rd hd].
  replace (_ && _ && _) with false; [done|]. symmetry. unfold advance; cbn [m_state m_prev].
  destruct Hc as [->|Hc]; [done|]. rewrite (proj2 (Z.eqb_neq c 92)) by done. by rewrite andb_false_r.
Qed.

Lemma text_rounds text : forall rest cnt oc prev vn out,
  Forall ordinary text -> cnt = Z.of_nat (length text) + Z.of_nat (length rest) ->
  Z.of_nat (length text) < oc -> prev <> 92 ->
  exists prev', prev' <> 92 /\
    rounds (length text) (MacroSt (text ++ rest) cnt oc 0 prev vn out)
      (MacroSt rest (Z.of_nat (length rest)) (oc - Z.of_nat (length text)) 0 prev' vn (out ++ text)).
Proof.
  induction text as [|c text IH]; intros rest cnt oc prev vn out F Ec Ho Hp.
  - exists prev. split; [done|]. intros fuel. simpl. rewrite app_nil_r, Z.sub_0_r. simpl in Ec. by subst cnt.
  - apply Forall_cons in F as [(H0 & H1 & H2 & H3) F]. simpl length in *.
    destruct (IH rest (cnt - 1) (oc - 1) c vn (out ++ [c]) F) as (p' & Hp' & R); [lia|lia|done|].
    exists p'. split; [done|]. apply (rounds_trans 1 (length text) _ (MacroSt (text ++ rest) (cnt - 1) (oc - 1) 0 c vn (out ++ [c]))).
    + pose proof (round_plain (MacroSt ((c :: text) ++ rest) cnt oc 0 prev vn out) c (text ++ rest) eq_refl) as Q.
      specialize (Q ltac:(simpl; lia) ltac:(simpl; lia) ltac:(by right)).
      intros fuel. rewrite Q. unfold macro_switch, advance, emit, set_prev. cbn [m_in m_inputcnt m_outputcnt m_state m_prev m_varname m_out tl app].
      rewrite !(proj2 (Z.eqb_neq c _)) by done. done.
    + intros fuel. rewrite R, <- app_assoc.
      by replace (oc - Z.of_nat (S (length text))) with (oc - 1 - Z.of_nat (length text)) by lia.
Qed.

Lemma quote_rounds q : forall rest cnt oc prev vn out,
  Forall (fun c => c <> 0 /\ c <> 92 /\ c <> 39) q ->
  cnt = Z.of_nat (length q) + Z.of_nat (length rest) -> Z.of_nat (length q) < oc -> prev <> 92 ->
  exists prev', prev' <> 92 /\
    rounds (length q) (MacroSt (q ++ rest) cnt oc 3 prev vn out)
      (MacroSt rest (Z.of_nat (length rest)) (oc - Z.of_nat (length q)) 3 prev' vn (out ++ q)).
Proof.
  induction q as [|c q IH]; intros rest cnt oc prev vn out F Ec Ho Hp.
  - exists prev. split; [done|]. intros fuel. simpl. rewrite app_nil_r, Z.sub_0_r. simpl in Ec. by subst cnt.
  - apply Forall_cons in F as [(H0 & H1 & H2) F]. simpl length in *.
    destruct (IH rest (cnt - 1) (oc - 1) c vn (out ++ [c]) F) as (p' & Hp' & R); [lia|lia|done|].
    exists p'. split; [done|]. apply (rounds_trans 1 (length q) _ (MacroSt (q ++ rest) (cnt - 1) (oc - 1) 3 c vn (out ++ [c]))).
    + pose proof (round_plain (MacroSt ((c :: q) ++ rest) cnt oc 3 prev vn out) c (q ++ rest) eq_refl) as Q.
      specialize (Q ltac:(simpl; lia) ltac:(simpl; lia) ltac:(by right)).
      intros fuel. rewrite Q. unfold macro_switch, advance, emit, set_prev. cbn [m_in m_inputcnt m_outputcnt m_state m_prev m_varname m_out tl app].
      rewrite !(proj2 (Z.eqb_neq c _)) by done. done.
    + intros fuel. rewrite R, <- app_assoc.
      by replace (oc - Z.of_nat (S (length q))) with (oc - 1 - Z.of_nat (length q)) by lia.
Qed.

Lemma name_rounds name : forall rest cnt oc prev vn out,
  Forall name_char name -> cnt = Z.of_nat (length name) + Z.of_nat (length rest) -> 0 < oc -> prev <> 92 ->
  exists prev', prev' <> 92 /\
    rounds (length name) (MacroSt (name ++ rest) cnt oc 2 prev vn out)
      (MacroSt rest (Z.of_nat (length rest)) oc 2 prev' vn out).
Proof.
  induction name as [|c name IH]; intros rest cnt oc prev vn out F Ec Ho Hp.
  - exists prev. split; [done|]. intros fuel. simpl in *. by subst cnt.
  - apply Forall_cons in F as [(H0 & H1 & H2 & H3) F]. simpl length in *.
    destruct (IH rest (cnt - 1) oc c vn out F) as (p' & Hp' & R); [lia|lia|done|].
    exists p'. split; [done|]. apply (rounds_trans 1 (length name) _ (MacroSt (name ++ rest) (cnt - 1) oc 2 c vn out)); [|exact R].
    pose proof (round_plain (MacroSt ((c :: name) ++ rest) cnt oc 2 prev vn out) c (name ++ rest) eq_refl) as Q.
    specialize (Q ltac:(simpl; lia) ltac:(simpl; lia) ltac:(by right)).
    intros fuel. rewrite Q. unfold macro_switch, advance, set_prev. cbn [m_in m_inputcnt m_outputcnt m_state m_prev m_varname m_out tl app].
    change (2 =? 0) with false. change (2 =? 1) with false. change (2 =? 2) with true. cbn iota.
    rewrite !(proj2 (Z.eqb_neq c _)) by done. done.
Qed.

Lemma emit_value_ok v : forall i cnt oc st prev vn out,
  Z.of_nat (length (cstr v)) < oc ->
  emit_value v (MacroSt i cnt oc st prev vn out)
  = MacroSt i cnt (oc - Z.of_nat (length (cstr v))) st prev vn (out ++ cstr v).
Proof.
  induction v as [|c v IH]; intros i cnt oc st prev vn out Ho; simpl.
  - by rewrite app_nil_r, Z.sub_0_r.
  - simpl in Ho. destruct (Z.eqb_spec c 0); simpl in *; [by rewrite app_nil_r, Z.sub_0_r|].
    destruct (Z.eqb_spec oc 0); [lia|]. simpl. unfold emit; simpl. rewrite IH by lia.
    rewrite <- app_assoc. simpl. f_equal. lia.
Qed.

(** A piece is read as its meaning. *)
Lemma piece_rounds p rest cnt oc prev vn out :
  piece_ok p -> cnt = Z.of_nat (length (written p)) + Z.of_nat (length rest) ->
  Z.of_nat (length (meaning p)) < oc -> prev <> 92 ->
  exists k prev' vn', (k <= length (written p))%nat /\ prev' <> 92 /\
    rounds k (MacroSt (written p ++ rest) cnt oc 0 prev vn out)
      (MacroSt rest (Z.of_nat (length rest)) (oc - Z.of_nat (length (meaning p))) 0 prev' vn'
               (out ++ meaning p)).
Proof.
  intros Ok Ec Ho Hp.
  assert (forall c r n o st pv v u t, n <> 0 -> o <> 0 -> (st = 3 \/ c <> 92) ->
    set_prev c (macro_switch c (MacroSt r (n - 1) o st pv v u)) = t ->
    rounds 1 (MacroSt (c :: r) n o st pv v u) t) as One.
  { intros c r n o st pv v u t H1 H2 H3 <-. eapply round_plain; simpl; eauto. }
  assert (forall x, x <> 92 -> (x =? 92) = false) as N92 by (intros; by apply Z.eqb_neq).
  destruct p as [s|c|s|name]; simpl in Ok; simpl written in *; simpl meaning in *.
  - destruct (text_rounds s rest cnt oc prev vn out Ok Ec Ho Hp) as (p' & Hp' & R).
    exists (length s), p', vn. auto.
  - destruct Ok as [H0 H1]. exists 1%nat, c, vn. split; [simpl; lia|]. split; [done|].
    intros fuel. cbn [Nat.add macro_loop m_inputcnt m_outputcnt].
    simpl length in *. destruct (Z.eqb_spec cnt 0); [lia|]. destruct (Z.eqb_spec oc 0); [lia|]. cbn [negb andb].
    unfold macro_round, advance, set_prev. cbn [m_in m_inputcnt m_outputcnt m_state m_prev m_varname m_out tl app rd hd].
    change (0 =? 3) with false. change (92 =? 92) with true. rewrite (proj2 (Z.eqb_neq prev 92)) by done. cbn [negb andb].
    destruct (Z.eqb_spec (cnt - 1) 0); [lia|].
    unfold macro_switch, emit. cbn [m_in m_inputcnt m_outputcnt m_state m_prev m_varname m_out].
    change (92 =? 92) with true. cbn [negb]. rewrite !andb_false_r. change (0 =? 0) with true. cbn iota.
    cbn [m_in m_inputcnt m_outputcnt m_state m_prev m_varname m_out]. f_equal. f_equal; lia.
  - rewrite <- app_comm_cons, <- app_assoc. simpl length in *. rewrite length_app in *. simpl length in *.
    destruct (quote_rounds s ([39] ++ rest) (cnt - 1) oc 39 vn out Ok) as (p' & Hp' & R); [simpl; lia|lia|done|].
    exists (1 + (length s + 1))%nat, 39, vn. split; [lia|]. split; [done|].
    apply (rounds_trans 1 _ _ (MacroSt (s ++ [39] ++ rest) (cnt - 1) oc 3 39 vn out));
      [|eapply rounds_trans; [exact R|]].
    + apply One; [lia|lia|by right|]. unfold macro_switch. cbn [m_prev]. by rewrite N92.
    + apply One; [simpl; lia|lia|by left|]. unfold macro_switch. cbn [m_prev]. rewrite N92 by done.
      transitivity (MacroSt rest (Z.of_nat (length ([39] ++ rest)) - 1) (oc - Z.of_nat (length s)) 0 39 vn (out ++ s));
        [reflexivity|f_equal; simpl length; lia].
  - simpl length in *. rewrite length_app in *. simpl length in *.
    set (v := cstr (default [] (env_get name))) in *.
    replace ((36 :: 123 :: name ++ [125]) ++ rest) with (36 :: 123 :: name ++ 125 :: rest)
      by (simpl; by rewrite <- app_assoc).
    destruct (name_rounds name (125 :: rest) (cnt - 1 - 1) oc 123 (name ++ 125 :: rest) out Ok)
      as (p' & Hp' & R); [simpl; lia|lia|done|].
    exists (1 + (1 + (length name + 1)))%nat, 125, (name ++ 125 :: rest). split; [lia|]. split; [done|].
    apply (rounds_trans 1 _ _ (MacroSt (123 :: name ++ 125 :: rest) (cnt - 1) oc 1 36 vn out)).
    { apply One; [lia|lia|by right|]. unfold macro_switch. cbn [m_prev]. by rewrite N92. }
    apply (rounds_trans 1 _ _ (MacroSt (name ++ 125 :: rest) (cnt - 1 - 1) oc 2 123 (name ++ 125 :: rest) out)).
    { apply One; [lia|lia|by right|reflexivity]. }
    eapply rounds_trans; [exact R|]. apply One; [simpl; lia|lia|by right|].
    unfold macro_switch. cbn [m_state m_varname m_in].
    change (2 =? 0) with false. change (2 =? 1) with false. change (2 =? 2) with true.
    change ((125 =? 41) || (125 =? 125)) with true. cbn iota.
    replace (slice (name ++ 125 :: rest) 0 _) with name.
    2:{ unfold slice. rewrite drop_0, length_app. simpl length.
        replace (Z.to_nat _) with (length name) by lia. by rewrite take_app_length. }
    subst v. destruct (env_get name) as [v|]; simpl default in *.
    + rewrite emit_value_ok by done. unfold goto, set_prev. cbn [m_in m_inputcnt m_outputcnt m_state m_prev m_varname m_out].
      f_equal. simpl length. lia.
    + unfold goto, set_prev. cbn [m_in m_inputcnt m_outputcnt m_state m_prev m_varname m_out cstr length].
      rewrite app_nil_r. f_equal; simpl; lia.
Qed.

Lemma pieces_rounds ps : forall cnt oc prev vn out,
  Forall piece_ok ps -> cnt = Z.of_nat (length (concat (map written ps))) ->
  Z.of_nat (length (concat (map meaning ps))) < oc -> prev <> 92 ->
  exists k prev' vn', (k <= length (concat (map written ps)))%nat /\
    rounds k (MacroSt (concat (map written ps)) cnt oc 0 prev vn out)
      (MacroSt [] 0 (oc - Z.of_nat (length (concat (map meaning ps)))) 0 prev' vn'
               (out ++ concat (map meaning ps))).
Proof.
  induction ps as [|p ps IH]; intros cnt oc prev vn out F Ec Ho Hp.
  - exists 0%nat, prev, vn. split; [done|]. intros fuel. simpl in *. subst cnt. by rewrite app_nil_r, Z.sub_0_r.
  - apply Forall_cons in F as [Op F]. simpl in *. rewrite !length_app in *.
    destruct (piece_rounds p (concat (map written ps)) cnt oc prev vn out Op)
      as (k & p1 & v1 & Hk & Hp1 & R1); [lia|lia|done|].
    destruct (IH (Z.of_nat (length (concat (map written ps)))) (oc - Z.of_nat (length (meaning p))) p1 v1 (out ++ meaning p) F eq_refl)
      as (k2 & p2 & v2 & Hk2 & R2); [lia|done|].
    exists (k + k2)%nat, p2, v2. split; [lia|]. eapply rounds_trans; [exact R1|].
    intros fuel. rewrite R2, <- app_assoc. f_equal. f_equal. lia.
Qed.
End Expand.

Lemma written_plain ps : Forall piece_ok ps -> Forall (fun c => c <> 0) (concat (map written ps)).
Proof.
  induction 1 as [|p ps Op F IH]; [constructor|]. simpl. apply Forall_app. split; [|done].
  assert (forall l, Forall (fun c => c <> 0) l -> Forall (fun c => c <> 0) l) by done.
  destruct p as [s|c|s|name]; simpl in *; repeat (apply Forall_cons; split; [done|]);
    try (apply Forall_app; split; [|repeat constructor; done]);
    try (eapply Forall_impl; [exact Op|]; intros c Hc; apply Hc).
  repeat constructor; apply Op.
Qed.

Lemma expand_ok `{EnvGet} (ps : list piece) (max_size : Z) :
  Forall piece_ok ps -> Z.of_nat (length (concat (map meaning ps))) < max_size ->
  cli_simple_process_macros (concat (map written ps)) max_size
  = (0, concat (map meaning ps) ++ [0]).
Proof.
  intros F Hm. unfold cli_simple_process_macros, macro_init.
  set (w := concat (map written ps)). set (e := concat (map meaning ps)) in *.
  assert (strlen w = Z.of_nat (length w)) as ->.
  { rewrite strlen_cstr. do 2 f_equal. by apply cstr_plain, written_plain. }
  destruct (pieces_rounds ps (Z.of_nat (length w)) max_size 0 [] [] F eq_refl Hm ltac:(done))
    as (k & p & v & Hk & R). fold w e in Hk, R.
  assert (macro_loop (length w) (MacroSt w (Z.of_nat (length w)) max_size 0 0 [] [])
          = MacroSt [] 0 (max_size - Z.of_nat (length e)) 0 p v e) as ->.
  { specialize (R (length w - k)%nat). replace (k + (length w - k))%nat with (length w) in R by lia.
    rewrite R. by destruct (length w - k)%nat. }
  simpl. destruct (Z.eqb_spec (max_size - Z.of_nat (length e)) 0); [lia|done].
Qed.

(** Expansion means what the syntax says: a line made of ordinary text,
    escaped characters, single-quoted text and references to variables expands
    to the text, the characters, the quoted text taken literally and the
    variables' values (nothing for an unset one), and returns 0, whenever the
    result fits the buffer. *)
Theorem macros_expand `{EnvGet} (ps : list piece) (max_size : Z) :
  Forall piece_ok ps -> Z.of_nat (length (concat (map meaning ps))) < max_size ->
  cli_simple_process_macros (concat (map written ps)) max_size
  = (0, concat (map meaning ps) ++ [0]).
Proof. apply expand_ok. Qed.

#[local] Definition demo_env : EnvGet := fun name =>
  if bool_decide (name = [98]) then Some [109; 109; 99; 32; 48] else None.

Lemma macros_expand_witness :
  @cli_simple_process_macros demo_env
    [108; 115; 32; 36; 123; 98; 125; 39; 36; 97; 39; 92; 36] 64
  = (0, [108; 115; 32; 109; 109; 99; 32; 48; 36; 97; 36; 0]).
Proof.
  apply (@macros_expand demo_env [Text [108; 115; 32]; Var [98]; Quoted [36; 97]; Escaped 36] 64).
  - repeat constructor; discriminate.
  - vm_compute. reflexivity.
Defined.

Lemma macros_bounded_witness :
  exists body, snd (@cli_simple_process_macros demo_env [36; 123; 98; 125; 36; 123; 98; 125] 7) = body ++ [0] /\
    Z.of_nat (length body) + 1 <= 7.
Proof. apply (@macros_bounded demo_env [36; 123; 98; 125; 36; 123; 98; 125] 7). lia. Defined.
