(* ===== verification/CliRun.v ===== *)
(** The simple command line: arguments are the blank-separated words of a
    line, and the commands of a line run in order, each expanded in the state
    the commands before it left. *)

From S2P Require Import Prelude Bytes Cstring CstringProps Cli CliProps.

(** * Arguments *)

Definition arg_word (w : list Z) : Prop := w <> [] /\ Forall (fun c => c <> 0 /\ isblank c = false) w.
Definition blanks (l : list Z) : Prop := Forall (fun c => isblank c = true) l.

(** A line as words, each with the blanks after it; only the last word may
    have none. *)
Fixpoint spaced (ws : list (list Z * list Z)) : list Z :=
  match ws with
  | [] => []
  | (w, bl) :: ws' => w ++ bl ++ spaced ws'
  end.
Fixpoint spaced_ok (ws : list (list Z * list Z)) : Prop :=
  match ws with
  | [] => True
  | (w, bl) :: ws' => arg_word w /\ blanks bl /\ (bl <> [] \/ ws' = []) /\ spaced_ok ws'
  end.

Lemma skip_lead bl rest : blanks bl -> skip_white (bl ++ rest) = skip_white rest.
Proof. induction 1 as [|c bl Hc F IH]; [done|]. simpl. by rewrite Hc. Qed.

Lemma skip_word w rest : arg_word w -> skip_white (w ++ rest) = w ++ rest.
Proof. intros [N F]. destruct w as [|c w]; [done|]. apply Forall_cons in F as [[_ Hc] _]. simpl. by rewrite Hc. Qed.

Lemma take_word w c rest :
  Forall (fun c => c <> 0 /\ isblank c = false) w -> (c = 0 \/ isblank c = true) ->
  take_arg (w ++ c :: rest) = (w, c :: rest).
Proof.
  intros F Hc. induction F as [|d w [H0 Hd] F IH]; simpl.
  - by destruct Hc as [->| ->]; rewrite ?orb_true_r.
  - rewrite (proj2 (Z.eqb_neq d 0)), Hd by done. simpl. by rewrite IH.
Qed.

Lemma parse_ok ws : forall maxargs lead rest,
  blanks lead -> spaced_ok ws -> (length ws < maxargs)%nat ->
  cli_parse_from maxargs (lead ++ spaced ws ++ 0 :: rest) = (map fst ws, true).
Proof.
  induction ws as [|[w bl] ws IH]; intros maxargs lead rest L Ok Hn;
    (destruct maxargs as [|n]; [simpl in Hn; lia|]); cbn [cli_parse_from spaced].
  - by rewrite skip_lead.
  - destruct Ok as (W & B & Sep & Ok). rewrite skip_lead by done. rewrite <- !app_assoc.
    rewrite skip_word by done.
    assert ((rd (w ++ bl ++ spaced ws ++ 0 :: rest) =? 0) = false) as ->.
    { destruct W as [N F]. destruct w as [|c w]; [done|]. apply Forall_cons in F as [[H0 _] _].
      by apply Z.eqb_neq. }
    destruct bl as [|b bl].
    + destruct Sep as [| ->]; [done|]. cbn [app spaced]. rewrite take_word by (apply W || by left). done.
    + apply Forall_cons in B as [Hb B]. rewrite <- app_comm_cons.
      rewrite take_word by (apply W || by right). cbn [rd hd tl].
      destruct (Z.eqb_spec b 0) as [->|_]; [done|]. rewrite IH by (done || simpl in Hn; lia). done.
Qed.

(** The arguments of a line are its words: for any words separated by one
    or more blanks (spaces or tabs), with blanks before the first and after the
    last, [cli_simple_parse_line] finds exactly the words, in order, and ends
    argv with a NULL, whenever there are fewer than CONFIG_SYS_MAXARGS. *)
Theorem parse_line_words (maxargs : nat) (lead rest : list Z) (ws : list (list Z * list Z)) :
  blanks lead -> spaced_ok ws -> (length ws < maxargs)%nat ->
  cli_simple_parse_line maxargs (lead ++ spaced ws ++ 0 :: rest) = (map fst ws, true).
Proof. apply parse_ok. Qed.

Lemma parse_line_words_witness :
  cli_simple_parse_line 4 [32; 115; 101; 116; 9; 32; 97; 32; 49; 0]
  = ([[115; 101; 116]; [97]; [49]], true).
Proof.
  apply (parse_line_words 4 [32] [] [([115; 101; 116], [9; 32]); ([97], [32]); ([49], [])]).
  - by repeat constructor.
  - simpl. unfold arg_word, blanks. split_and!; try done; try (by left); try (by right); repeat constructor; done.
  - simpl. lia.
Defined.

(** * Separators *)

(** Text a separator does not hide in: a ';' is escaped or quoted. *)
Definition one_command (p : piece) : Prop :=
  piece_ok p /\
  match p with
  | Text s => Forall (fun c => c <> 59) s
  | Var name => Forall (fun c => c <> 59 /\ c <> 39) name
  | _ => True
  end.

Lemma find_sep_step c s q b st :
  c <> 0 -> (c <> 39 \/ b = 92) -> (q = true \/ c <> 59 \/ b = 92) ->
  find_sep (c :: s) q b st = (c :: fst (find_sep s q c false), snd (find_sep s q c false)).
Proof.
  intros H0 Hq Hs. cbn [find_sep]. rewrite (proj2 (Z.eqb_neq c 0)) by done.
  assert ((c =? 39) && negb (b =? 92) = false) as ->.
  { destruct Hq as [N| ->]; [by rewrite (proj2 (Z.eqb_neq c 39))|apply andb_false_r]. }
  assert (negb q && (c =? 59) && negb st && negb (b =? 92) = false) as ->.
  { destruct Hs as [-> |[N| ->]]; [done|rewrite (proj2 (Z.eqb_neq c 59)) by done; by rewrite andb_false_r|apply andb_false_r]. }
  by destruct (find_sep s q c false).
Qed.

(** The scan passes over [u], going from quote state [q] to [q']. *)
Definition at_start (u : list Z) (st : bool) : bool := match u with [] => st | _ => false end.
Definition passes (u : list Z) (q q' : bool) : Prop :=
  forall rest b st, b <> 92 -> exists b', b' <> 92 /\
    find_sep (u ++ rest) q b st
    = (u ++ fst (find_sep rest q' b' (at_start u st)), snd (find_sep rest q' b' (at_start u st))).

Lemma passes_nil q : passes [] q q.
Proof. intros rest b st Hb. exists b. split; [done|]. simpl. by destruct (find_sep _ _ _ _). Qed.

Lemma passes_app u v q r t : passes u q r -> passes v r t -> passes (u ++ v) q t.
Proof.
  intros U V rest b st Hb. destruct (U (v ++ rest) b st Hb) as (b1 & Hb1 & F1).
  destruct (V rest b1 (at_start u st) Hb1) as (b2 & Hb2 & F2).
  exists b2. split; [done|]. rewrite <- app_assoc, F1, F2, <- app_assoc. simpl. by destruct u, v.
Qed.

Lemma passes_char c q : c <> 0 -> c <> 39 -> c <> 92 -> (q = true \/ c <> 59) -> passes [c] q q.
Proof.
  intros H0 H1 H2 Hs rest b st Hb. exists c. split; [done|]. simpl app.
  rewrite find_sep_step by tauto. done.
Qed.

Lemma passes_chars s q :
  Forall (fun c => c <> 0 /\ c <> 39 /\ c <> 92 /\ (q = true \/ c <> 59)) s -> passes s q q.
Proof.
  induction 1 as [|c s (H0 & H1 & H2 & H3) F IH]; [apply passes_nil|].
  apply (passes_app [c] s q q q); [by apply passes_char|done].
Qed.

Lemma passes_quote q : passes [39] q (negb q).
Proof.
  intros rest b st Hb. exists 39. split; [done|]. simpl app. cbn [find_sep at_start].
  rewrite (proj2 (Z.eqb_neq b 92)) by done. change (39 =? 0) with false. change (39 =? 39) with true.
  change (39 =? 59) with false. cbn [negb andb]. rewrite andb_false_r. cbn [andb].
  by destruct (find_sep rest (negb q) 39 false).
Qed.

Lemma passes_piece p : one_command p -> passes (written p) false false.
Proof.
  intros [Ok Oc]. destruct p as [s|c|s|name]; simpl in *.
  - apply passes_chars. eapply Forall_impl; [apply Forall_and; exact (conj Ok Oc)|].
    intros c [Hc Hd]. unfold ordinary in Hc. tauto.
  - intros rest b st Hb. exists c. split; [apply Ok|]. simpl app. destruct Ok as [H0 H1].
    rewrite find_sep_step by (try tauto; lia). rewrite (find_sep_step c) by tauto. done.
  - apply (passes_app [39] _ false true false); [apply passes_quote|].
    apply (passes_app _ [39] true true false); [|apply (passes_quote true)].
    apply passes_chars. eapply Forall_impl; [exact Ok|]. simpl. tauto.
  - apply (passes_app [36; 123] (name ++ [125]) false false false);
      [|apply (passes_app name [125] false false false)]; apply passes_chars.
    + repeat constructor; lia.
    + eapply Forall_impl; [apply Forall_and; exact (conj Ok Oc)|].
      intros c [Hc Hd]. unfold name_char in Hc. tauto.
    + repeat constructor; lia.
Qed.

Lemma passes_pieces ps : Forall one_command ps -> passes (concat (map written ps)) false false.
Proof.
  induction 1 as [|p ps Op F IH]; [apply passes_nil|]. simpl.
  eapply passes_app; [by apply passes_piece|done].
Qed.

(** The commands of a line, separated by ';'. *)
Fixpoint joined (cmds : list (list piece)) : list Z :=
  match cmds with
  | [] => []
  | [ps] => concat (map written ps)
  | ps :: cmds' => concat (map written ps) ++ 59 :: joined cmds'
  end.
Definition command_ok (ps : list piece) : Prop :=
  Forall one_command ps /\ concat (map written ps) <> [].

Lemma joined_more ps ps' cmds :
  joined (ps :: ps' :: cmds) = concat (map written ps) ++ 59 :: joined (ps' :: cmds).
Proof. reflexivity. Qed.

Lemma find_sep_joined ps cmds b :
  command_ok ps -> b <> 92 ->
  find_sep (joined (ps :: cmds)) false b true = (concat (map written ps), joined cmds).
Proof.
  intros [F N] Hb. assert (at_start (concat (map written ps)) true = false) as A
    by (by destruct (concat (map written ps))).
  destruct cmds as [|ps' cmds].
  - simpl joined. destruct (passes_pieces ps F [] b true Hb) as (b' & Hb' & E). rewrite app_nil_r in E.
    rewrite E, A. cbn [find_sep fst snd]. by rewrite app_nil_r.
  - destruct (passes_pieces ps F (59 :: joined (ps' :: cmds)) b true Hb) as (b' & Hb' & E).
    rewrite joined_more.
    rewrite E, A. cbn [find_sep]. change (59 =? 0) with false. change (59 =? 39) with false.
    change (59 =? 59) with true. rewrite (proj2 (Z.eqb_neq b' 92)) by done.
    cbn [negb andb fst snd]. by rewrite app_nil_r.
Qed.

(** * Running a line *)

Section Runs.
Context {S : Type} `{Commands S}.
Variables (cbsize : Z) (maxargs : nat) (flag : Z).

(** What a command expands to in state [st], and its arguments. *)
Definition expansion (st : S) (ps : list piece) : list Z :=
  concat (map (@meaning (cmd_env st)) ps).
Definition argv_of (st : S) (ps : list piece) : list (list Z) :=
  fst (cli_simple_parse_line maxargs (expansion st ps ++ [0])).
Definition fits (st : S) (ps : list piece) : Prop := Z.of_nat (length (expansion st ps)) < cbsize.

(** The commands [cmds], run from state [st] with result [rc] and count
    [rep] so far, end with the given result and state. *)
Inductive runs : list (list piece) -> Z -> Z -> S -> Z * S -> Prop :=
  | runs_end rc rep st : runs [] rc rep st (if rc =? 0 then rep else rc, st)
  | runs_nothing ps cmds rc rep st res :
      fits st ps -> argv_of st ps = [] -> runs cmds (-1) rep st res ->
      runs (ps :: cmds) rc rep st res
  | runs_ctrlc ps cmds rc rep st r rep' st' :
      fits st ps -> argv_of st ps <> [] ->
      cmd_process st flag (argv_of st ps) rep = (r, rep', st') -> had_ctrlc st' = true ->
      runs (ps :: cmds) rc rep st (-1, st')
  | runs_next ps cmds rc rep st r rep' st' res :
      fits st ps -> argv_of st ps <> [] ->
      cmd_process st flag (argv_of st ps) rep = (r, rep', st') -> had_ctrlc st' = false ->
      runs cmds (if r =? 0 then rc else -1) rep' st' res ->
      runs (ps :: cmds) rc rep st res.

Lemma pieces_of ps : Forall one_command ps -> Forall piece_ok ps.
Proof. intros F. eapply Forall_impl; [exact F|]. by intros p [? _]. Qed.

Lemma joined_cons ps cmds : command_ok ps -> rd (joined (ps :: cmds)) <> 0 /\
  (length (joined cmds) < length (joined (ps :: cmds)))%nat.
Proof.
  intros [F N]. pose proof (written_plain ps (pieces_of ps F)) as P.
  destruct cmds as [|ps' cmds];
    [simpl joined|rewrite joined_more];
    destruct (concat (map written ps)) as [|c l] eqn:E; try done;
    apply Forall_cons in P as [Hc P]; split; try done; rewrite ?length_app; simpl; rewrite ?length_app; simpl; lia.
Qed.

(** One turn of the loop on the first command. *)
Lemma run_loop_ok cmds rc rep st res :
  runs cmds rc rep st res -> Forall command_ok cmds ->
  forall fuel b, b <> 92 -> (length (joined cmds) < fuel)%nat ->
  run_loop cbsize maxargs fuel (joined cmds) b flag rc rep st = res.
Proof.
  assert (forall ps cmds b rc rep st fuel, command_ok ps -> b <> 92 -> fits st ps ->
    run_loop cbsize maxargs (Datatypes.S fuel) (joined (ps :: cmds)) b flag rc rep st
    = match argv_of st ps with
      | [] => run_loop cbsize maxargs fuel (joined cmds) 0 flag (-1) rep st
      | _ => let '(r, rep, st) := cmd_process st flag (argv_of st ps) rep in
             let rc := if negb (r =? 0) then -1 else rc in
             if had_ctrlc st then (-1, st) else run_loop cbsize maxargs fuel (joined cmds) 0 flag rc rep st
      end) as Turn.
  { intros ps cmds' b rc' rep' st' fuel Ok Hb Fit. cbn [run_loop].
    destruct (joined_cons ps cmds' Ok) as [Hr _]. rewrite (proj2 (Z.eqb_neq _ 0)) by done.
    rewrite find_sep_joined by done. rewrite expand_ok by (apply pieces_of, Ok || exact Fit).
    cbn [snd]. unfold argv_of. fold (expansion st' ps).
    destruct (cli_simple_parse_line maxargs (expansion st' ps ++ [0])) as [argv fin].
    cbn [fst]. by destruct argv. }
  induction 1 as [rc rep st|ps cmds rc rep st res Fit Ea R IH
                 |ps cmds rc rep st r rep' st' Fit Ea Ep Ec
                 |ps cmds rc rep st r rep' st' res Fit Ea Ep Ec R IH];
    intros F fuel b Hb Hf.
  - destruct fuel; [simpl in Hf; lia|]. simpl. by destruct (rc =? 0).
  - apply Forall_cons in F as [Ok F]. destruct (joined_cons ps cmds Ok) as [_ Hl].
    destruct fuel as [|fuel]; [lia|]. rewrite Turn, Ea by done. apply IH; [done|done|lia].
  - apply Forall_cons in F as [Ok F]. destruct fuel as [|fuel]; [lia|]. rewrite Turn by done.
    destruct (argv_of st ps) eqn:E; [done|]. rewrite Ep. cbn beta iota zeta. by rewrite Ec.
  - apply Forall_cons in F as [Ok F]. destruct (joined_cons ps cmds Ok) as [_ Hl].
    destruct fuel as [|fuel]; [lia|]. rewrite Turn by done.
    destruct (argv_of st ps) eqn:E; [done|]. rewrite Ep. cbn beta iota zeta. rewrite Ec.
    replace (if negb (r =? 0) then -1 else rc) with (if r =? 0 then rc else -1) by (by destruct (r =? 0)).
    apply IH; [done|done|lia].
Qed.

Lemma joined_plain cmds : Forall command_ok cmds -> Forall (fun c => c <> 0) (joined cmds).
Proof.
  induction 1 as [|ps cmds [F _] G IH]; [constructor|].
  pose proof (written_plain ps (pieces_of ps F)) as P.
  destruct cmds as [|ps' cmds]; [done|].
  rewrite joined_more. apply Forall_app. split; [done|]. constructor; [done|exact IH].
Qed.

(** C37: The commands of a line run in order: a line of commands joined by
    ';' (a quoted or escaped ';' belongs to its command) runs each command
    with the arguments its text expands to in the state the commands before
    it left, skips empty expansions, goes on after a failing command, stops
    at once when the user pressed Ctrl-C, and returns -1 if any command
    failed and the repeatable count otherwise. *)
Theorem run_command_sequences (cmds : list (list piece)) (before0 : Z) (st : S) (res : Z * S) :
  cmds <> [] -> Forall command_ok cmds -> Z.of_nat (length (joined cmds)) < cbsize ->
  before0 <> 92 -> runs cmds 0 1 (clear_ctrlc st) res ->
  cli_simple_run_command cbsize maxargs before0 (Some (joined cmds)) flag st = res.
Proof.
  intros N F Hl Hb R. unfold cli_simple_run_command.
  destruct cmds as [|ps cmds]; [done|].
  destruct (joined_cons ps cmds) as [Hr _]; [by apply Forall_cons in F as [? _]|].
  rewrite (proj2 (Z.eqb_neq _ 0)) by done. rewrite strlen_cstr, cstr_plain by by apply joined_plain.
  destruct (Z.leb_spec cbsize (Z.of_nat (length (joined (ps :: cmds))))); [lia|].
  apply run_loop_ok; [done..|lia].
Qed.
End Runs.

(** A machine whose state is its variables: "s" sets a variable, any other
    command fails. *)
#[local] Instance demo_commands : Commands (list (list Z * list Z)) := {|
  cmd_process st flag argv rep :=
    match argv with
    | [c; n; v] => if bool_decide (c = [115]) then (0, rep, (n, v) :: st) else (1, rep, st)
    | _ => (1, rep, st)
    end;
  cmd_env st := fun name => snd <$> find (fun e => bool_decide (fst e = name)) st;
  clear_ctrlc st := st;
  had_ctrlc _ := false
|}.

(* s a 1;s b ${a} *)
Lemma run_command_sequences_witness :
  cli_simple_run_command 64 8 0
    (Some [115; 32; 97; 32; 49; 59; 115; 32; 98; 32; 36; 123; 97; 125]) 0
    ([] : list (list Z * list Z))
  = (1, [([98], [49]); ([97], [49])]).
Proof.
  apply (run_command_sequences 64 8 0
           [[Text [115; 32; 97; 32; 49]]; [Text [115; 32; 98; 32]; Var [97]]] 0 []).
  - discriminate.
  - repeat constructor; discriminate.
  - vm_compute. reflexivity.
  - discriminate.
  - eapply runs_next; [vm_compute; reflexivity|discriminate|vm_compute; reflexivity|reflexivity|].
    eapply runs_next; [vm_compute; reflexivity|discriminate|vm_compute; reflexivity|reflexivity|].
    apply runs_end.
Defined.
