(* ===== verification/CliGetch.v ===== *)
(** Reading keys (common/cli_getch.c): escape sequences of terminals are turned
    into control characters, and a sequence that is not known is handed out
    again character by character.  What the reader hands out is the decoding of
    the input by a table of the known sequences, nothing that is not part of one
    is lost, and the buffer for a sequence does not overflow. *)

From stdpp Require Import relations.
From S2P Require Import Prelude.

Definition ETIMEDOUT : Z := 110.
Definition ESC : Z := 27.

Inductive cli_esc_state := ESC_REJECT | ESC_SAVE | ESC_CONVERTED.

(** [esc_save] has eight bytes. *)
Record cli_ch_state := Cch { esc_len : Z; esc_save : list Z; emit_upto : Z; emitting : bool }.

Definition cli_ch_init : cli_ch_state := Cch 0 (replicate 8 0) 0 false.

Definition save_at (cch : cli_ch_state) (i : Z) : Z := esc_save cch !!! Z.to_nat i.

(** The action and the character. *)
Definition cli_ch_esc (cch : cli_ch_state) (ichar : Z) : cli_esc_state * Z :=
  let n := esc_len cch in
  if n =? 1 then
    if (ichar =? 91) || (ichar =? 79) then (ESC_SAVE, ichar) else (ESC_CONVERTED, ichar)
  else if n =? 2 then
    if ichar =? 68 then (ESC_CONVERTED, 2)           (* left: ^B *)
    else if ichar =? 67 then (ESC_CONVERTED, 6)      (* right: ^F *)
    else if ichar =? 72 then (ESC_CONVERTED, 1)      (* home: ^A *)
    else if ichar =? 70 then (ESC_CONVERTED, 5)      (* end: ^E *)
    else if ichar =? 65 then (ESC_CONVERTED, 16)     (* up: ^P *)
    else if ichar =? 66 then (ESC_CONVERTED, 14)     (* down: ^N *)
    else if (ichar =? 49) || (ichar =? 50) || (ichar =? 51) || (ichar =? 52) || (ichar =? 55) || (ichar =? 56) then
      if save_at cch 1 =? 91 then (ESC_SAVE, ichar) else (ESC_REJECT, ichar)
    else (ESC_REJECT, ichar)
  else if n =? 3 then
    let s := save_at cch 2 in
    if ichar =? 126 then
      if s =? 51 then (ESC_CONVERTED, 4)             (* delete: ^D *)
      else if (s =? 49) || (s =? 55) then (ESC_CONVERTED, 1)
      else if (s =? 52) || (s =? 56) then (ESC_CONVERTED, 5)
      else (ESC_REJECT, ichar)
    else if ichar =? 48 then if s =? 50 then (ESC_SAVE, ichar) else (ESC_REJECT, ichar)
    else (ESC_REJECT, ichar)
  else if n =? 4 then
    if (ichar =? 48) || (ichar =? 49) then (ESC_SAVE, ichar) else (ESC_REJECT, ichar)
  else if n =? 5 then
    if ichar =? 126 then (ESC_CONVERTED, 0) else (ESC_REJECT, ichar)   (* bracketed paste *)
  else (ESC_REJECT, ichar).

(** [if (ichar == '\e') ...; return ichar] *)
Definition ch_tail (cch : cli_ch_state) (ichar : Z) : Z * cli_ch_state :=
  if ichar =? ESC then
    if esc_len cch =? 0
    then (0, Cch 1 (<[0%nat := u8 ichar]> (esc_save cch)) (emit_upto cch) (emitting cch))
    else (0, Cch 0 (esc_save cch) (emit_upto cch) (emitting cch))
  else (ichar, cch).

(** The character returned, 0 for none, and the state. *)
Definition cli_ch_process (cch : cli_ch_state) (ichar : Z) : Z * cli_ch_state :=
  if ichar =? 0 then
    if emitting cch then
      if emit_upto cch <? esc_len cch
      then (save_at cch (emit_upto cch), Cch (esc_len cch) (esc_save cch) (emit_upto cch + 1) true)
      else (0, Cch 0 (esc_save cch) 0 false)
    else (0, cch)
  else if ichar =? - ETIMEDOUT then
    if negb (esc_len cch =? 0) then (ESC, Cch 0 (esc_save cch) (emit_upto cch) (emitting cch)) else (0, cch)
  else if (ichar =? 10) || (ichar =? 13) then (10, cch)
  else if negb (esc_len cch =? 0) then
    let saved c := <[Z.to_nat (esc_len cch) := u8 c]> (esc_save cch) in
    match cli_ch_esc cch ichar with
    | (ESC_SAVE, c) => ch_tail (Cch (esc_len cch + 1) (saved c) (emit_upto cch) (emitting cch)) 0
    | (ESC_REJECT, c) =>
        (saved c !!! Z.to_nat (emit_upto cch), Cch (esc_len cch + 1) (saved c) (emit_upto cch + 1) true)
    | (ESC_CONVERTED, c) => ch_tail (Cch 0 (esc_save cch) (emit_upto cch) (emitting cch)) c
    end
  else ch_tail cch ichar.

(** * The loop that reads keys *)

(** What the console gives: a character, or nothing for a while. *)
Inductive key := Key (c : Z) | Quiet.
Definition ichar_of (k : key) : Z := match k with Key c => c | Quiet => - ETIMEDOUT end.

(** The characters still to come, those handed to the caller, and the state. *)
Record reader := Reader { rd_cch : cli_ch_state; rd_input : list key; rd_output : list Z }.

(** A character of value 0 is none. *)
Definition give (out : list Z) (c : Z) : list Z := if c =? 0 then out else out ++ [c].

(** One turn of the loop: a saved character when there is one, else the next
    one of the input. *)
Inductive read_step : reader -> reader -> Prop :=
  | step_saved cch input out c cch' :
      cli_ch_process cch 0 = (c, cch') -> c <> 0 ->
      read_step (Reader cch input out) (Reader cch' input (out ++ [c]))
  | step_key cch cch' k input out c cch'' :
      cli_ch_process cch 0 = (0, cch') -> cli_ch_process cch' (ichar_of k) = (c, cch'') ->
      read_step (Reader cch (k :: input) out) (Reader cch'' input (give out c)).

(** * The table *)

(** Known sequences and their characters: the arrow, home and end keys in two
    forms, delete, home and end with a number, and bracketed paste. *)
Definition known : list (list Z * Z) :=
  concat (map (fun o => [([27; o; 68], 2); ([27; o; 67], 6); ([27; o; 72], 1); ([27; o; 70], 5);
                         ([27; o; 65], 16); ([27; o; 66], 14)]) [91; 79]) ++
  [([27; 91; 51; 126], 4); ([27; 91; 49; 126], 1); ([27; 91; 55; 126], 1); ([27; 91; 52; 126], 5);
   ([27; 91; 56; 126], 5); ([27; 91; 50; 48; 48; 126], 0); ([27; 91; 50; 48; 49; 126], 0)].

Definition starts (s : list Z) (kr : list Z * Z) : bool := bool_decide (s `prefix_of` fst kr).

Inductive verdict := Save | Reject | Convert (r : Z).

(** Escape and another character is that character, unless a known sequence
    begins like this. *)
Definition classify (seq : list Z) (c : Z) : verdict :=
  let s := seq ++ [c] in
  match find (fun kr => bool_decide (fst kr = s)) known with
  | Some (_, r) => Convert r
  | None => if existsb (starts s) known then Save
            else if bool_decide (length seq = 1%nat) then Convert c else Reject
  end.

(** The output for an input when [seq] has been read of a sequence. *)
Fixpoint decode (seq : list Z) (input : list key) : list Z :=
  match input with
  | [] => []
  | Quiet :: input' => (match seq with [] => [] | _ => [ESC] end) ++ decode [] input'
  | Key c :: input' =>
      if (c =? 10) || (c =? 13) then 10 :: decode seq input'
      else
        match seq with
        | [] => if c =? ESC then decode [ESC] input' else c :: decode [] input'
        | _ =>
            match classify seq c with
            | Save => decode (seq ++ [c]) input'
            | Reject => seq ++ [c] ++ decode [] input'
            | Convert r => if r =? ESC then decode [ESC] input'
                           else if r =? 0 then decode [] input' else r :: decode [] input'
            end
        end
  end.

(** * The states between two keys *)

(** The beginnings of known sequences. *)
Definition pending : list (list Z) :=
  [[27]; [27; 91]; [27; 79]; [27; 91; 49]; [27; 91; 50]; [27; 91; 51]; [27; 91; 52]; [27; 91; 55]; [27; 91; 56];
   [27; 91; 50; 48]; [27; 91; 50; 48; 48]; [27; 91; 50; 48; 49]].

(** The code's switch is the table. *)
Definition verdict_of (r : cli_esc_state * Z) : verdict :=
  match r with (ESC_SAVE, _) => Save | (ESC_REJECT, _) => Reject | (ESC_CONVERTED, c) => Convert c end.

Definition seq_state (seq junk : list Z) : cli_ch_state := Cch (Z.of_nat (length seq)) (seq ++ junk) 0 false.

Definition agrees (seq : list Z) (c : Z) : bool :=
  let r := cli_ch_esc (seq_state seq []) c in
  match verdict_of r, classify seq c with
  | Save, Save => bool_decide (seq ++ [c] ∈ pending) && (snd r =? c)
  | Reject, Reject => snd r =? c
  | Convert x, Convert y => (x =? y) && (0 <=? y) && (y <? 256)
  | _, _ => false
  end.

Lemma table_agrees : forallb (fun s => forallb (agrees s) (map Z.of_nat (seq 1 255))) pending = true.
Proof. vm_compute. reflexivity. Qed.

Lemma pending_sound s : s ∈ pending -> (1 <= length s <= 5)%nat /\ Forall (fun c => 0 < c < 256) s.
Proof.
  assert (forallb (fun s => bool_decide ((1 <= length s <= 5)%nat /\ Forall (fun c => 0 < c < 256) s)) pending = true) as F
    by (vm_compute; reflexivity).
  rewrite forallb_forall in F. intros I%list_elem_of_In. specialize (F s I). by apply bool_decide_eq_true in F.
Qed.

Lemma table_at s c : s ∈ pending -> 0 < c < 256 -> agrees s c = true.
Proof.
  intros I Hc. pose proof table_agrees as F. rewrite forallb_forall in F. apply list_elem_of_In in I.
  specialize (F s I). rewrite forallb_forall in F. apply F, in_map_iff. exists (Z.to_nat c). rewrite in_seq. lia.
Qed.

(** Waiting for a key with [seq] read of a sequence. *)
Record rests (cch : cli_ch_state) (seq : list Z) : Prop := {
  rest_idle : emitting cch = false; rest_upto : emit_upto cch = 0; rest_room : length (esc_save cch) = 8%nat;
  rest_len : esc_len cch = Z.of_nat (length seq); rest_seq : exists junk, esc_save cch = seq ++ junk;
  rest_known : seq = [] \/ seq ∈ pending
}.

(** Handing out [left] of a sequence that is not known. *)
Record hands (cch : cli_ch_state) (left : list Z) : Prop := {
  hand_on : emitting cch = true; hand_room : length (esc_save cch) = 8%nat; hand_chars : Forall (fun c => 0 < c < 256) left;
  hand_upto : 0 <= emit_upto cch; hand_len : esc_len cch = emit_upto cch + Z.of_nat (length left) /\ esc_len cch <= 6;
  hand_left : take (length left) (drop (Z.to_nat (emit_upto cch)) (esc_save cch)) = left
}.

(** The switch looks at the sequence only. *)
Lemma esc_junk cch seq c :
  rests cch seq -> seq ∈ pending -> cli_ch_esc cch c = cli_ch_esc (seq_state seq []) c.
Proof.
  intros [_ _ _ El [junk Es] _] I. unfold cli_ch_esc, save_at, seq_state. cbn [esc_len esc_save]. rewrite El, Es, app_nil_r.
  assert (forall n : nat, (n < length seq)%nat -> (seq ++ junk) !!! n = seq !!! n) as Lk by (intros; by rewrite lookup_total_app_l).
  destruct (Z.eqb_spec (Z.of_nat (length seq)) 1); [done|].
  destruct (Z.eqb_spec (Z.of_nat (length seq)) 2); [by rewrite Lk by lia|].
  destruct (Z.eqb_spec (Z.of_nat (length seq)) 3); [by rewrite Lk by lia|]. done.
Qed.

Lemma rests_zero cch seq : rests cch seq -> cli_ch_process cch 0 = (0, cch).
Proof. intros R. unfold cli_ch_process. change (0 =? 0) with true. cbn iota. by rewrite (rest_idle _ _ R). Qed.

Lemma rests_clear cch seq : rests cch seq -> rests (Cch 0 (esc_save cch) (emit_upto cch) (emitting cch)) [].
Proof. intros [Ei Eu Er El Es _]. split; cbn; auto. by exists (esc_save cch). Qed.

Lemma rests_escape cch : rests cch [] -> rests (Cch 1 (<[0%nat := ESC]> (esc_save cch)) (emit_upto cch) (emitting cch)) [ESC].
Proof.
  intros [Ei Eu Er El Es _]. split; cbn; auto; [by rewrite length_insert| |right; left].
  destruct (esc_save cch) as [|x l]; [done|]. by exists l.
Qed.

Lemma rests_save cch seq c :
  rests cch seq -> seq ++ [c] ∈ pending -> 0 < c < 256 ->
  rests (Cch (esc_len cch + 1) (<[Z.to_nat (esc_len cch) := u8 c]> (esc_save cch)) (emit_upto cch) (emitting cch)) (seq ++ [c]).
Proof.
  intros [Ei Eu Er El [junk Es] _] I Hc. apply pending_sound in I as K. rewrite length_app in K. cbn [length] in K.
  split; cbn; auto; [by rewrite length_insert|rewrite length_app; cbn; lia|].
  rewrite El, Es, Nat2Z.id, u8_small by lia. rewrite Es, length_app in Er. destruct junk as [|x junk]; [simpl in Er; lia|].
  exists junk. rewrite insert_app_r_alt, Nat.sub_diag by lia. cbn [insert list_insert]. by rewrite <- app_assoc.
Qed.

(** A sequence that turns out not to be known is handed out from its start. *)
Lemma rests_reject cch seq c :
  rests cch seq -> seq ∈ pending -> 0 < c < 256 ->
  let saved := <[Z.to_nat (esc_len cch) := u8 c]> (esc_save cch) in
  exists x left, seq ++ [c] = x :: left /\ saved !!! Z.to_nat (emit_upto cch) = x /\ x <> 0 /\
    hands (Cch (esc_len cch + 1) saved (emit_upto cch + 1) true) left.
Proof.
  intros [Ei Eu Er El [junk Es] _] I Hc. apply pending_sound in I as [K F]. cbv zeta.
  rewrite El, Eu, Es, Nat2Z.id, u8_small by lia. rewrite Es, length_app in Er.
  destruct junk as [|y junk]; [simpl in Er; lia|].
  rewrite insert_app_r_alt, Nat.sub_diag by lia. cbn [insert list_insert].
  destruct seq as [|x seq]; [simpl in K; lia|]. apply Forall_cons in F as [Hx F]. cbn [length app] in *.
  exists x, (seq ++ [c]). split; [done|]. split; [done|]. split; [lia|].
  split; cbn [esc_len esc_save emit_upto emitting]; auto; try lia.
  - cbn [length]. rewrite length_app. cbn [length]. lia.
  - apply Forall_app. split; [done|]. by constructor.
  - rewrite length_app. cbn [length]. lia.
  - change (Z.to_nat (0 + 1)) with 1%nat. cbn [drop]. rewrite length_app. cbn [length].
    change (c :: junk) with ([c] ++ junk). rewrite app_assoc. replace (length seq + 1)%nat with (length (seq ++ [c])) by (rewrite length_app; done).
    apply take_app_length.
Qed.

Definition valid_key (k : key) : Prop := match k with Key c => 0 < c < 256 | Quiet => True end.

(** * A key *)

Definition key_result (seq : list Z) (k : key) (c : Z) (cch : cli_ch_state) : Prop :=
  (exists seq', rests cch seq' /\ forall input, decode seq (k :: input) = give [] c ++ decode seq' input) \/
  (exists left, hands cch left /\ c <> 0 /\ forall input, decode seq (k :: input) = c :: left ++ decode [] input).

Lemma tail_result cch c :
  rests cch [] -> 0 <= c < 256 ->
  let '(r, cch') := ch_tail cch c in
  exists seq', rests cch' seq' /\
    forall input, (if c =? ESC then decode [ESC] input else give [] c ++ decode [] input) = give [] r ++ decode seq' input.
Proof.
  intros R Hc. unfold ch_tail. rewrite (rest_len _ _ R). change (Z.of_nat (length [])) with 0. change (0 =? 0) with true.
  destruct (Z.eqb_spec c ESC) as [->|].
  - exists [ESC]. split; [|done]. change (u8 ESC) with ESC. by apply rests_escape.
  - by exists [].
Qed.

Lemma pending_key cch seq c :
  rests cch seq -> seq ∈ pending -> 0 < c < 256 -> c <> 10 -> c <> 13 ->
  let '(r, cch') := cli_ch_process cch c in key_result seq (Key c) r cch'.
Proof.
  intros R I Hc N10 N13. pose proof (pending_sound seq I) as [K _]. unfold cli_ch_process.
  rewrite !(proj2 (Z.eqb_neq c _)) by (unfold ETIMEDOUT; lia). cbn [orb].
  destruct (Z.eqb_spec (esc_len cch) 0) as [E0|_]; [rewrite (rest_len _ _ R) in E0; lia|]. cbn [negb].
  rewrite (esc_junk _ _ _ R I). pose proof (table_at seq c I Hc) as A. unfold agrees in A. cbv zeta in A.
  unfold key_result. cbn [decode]. rewrite !(proj2 (Z.eqb_neq c _)) by done. cbn [orb].
  destruct seq as [|x s] eqn:Eseq; [simpl in K; lia|]. rewrite <- Eseq in *.
  destruct (cli_ch_esc (seq_state seq []) c) as [[] r]; cbn [verdict_of snd] in A |- *;
    destruct (classify seq c) as [| |y]; try discriminate A.
  - apply Z.eqb_eq in A as ->. destruct (rests_reject cch seq c R I Hc) as (z & left & E & -> & Nz & H). right.
    exists left. split; [exact H|]. split; [done|]. intros input. by rewrite app_assoc, E.
  - apply andb_true_iff in A as [A1 A2]. apply Z.eqb_eq in A2 as ->. apply bool_decide_eq_true in A1. left.
    exists (seq ++ [c]). split; [by apply rests_save|done].
  - apply andb_true_iff in A as [A A3]. apply andb_true_iff in A as [A A2]. bprop. subst r.
    pose proof (tail_result _ y (rests_clear _ _ R) ltac:(lia)) as T.
    destruct (ch_tail _ y) as [r cch']. destruct T as (seq' & R' & T). left. exists seq'. split; [done|]. intros input.
    rewrite <- T. unfold give. destruct (y =? ESC); [done|]. by destruct (y =? 0).
Qed.

Lemma key_ok cch seq k :
  rests cch seq -> valid_key k -> let '(r, cch') := cli_ch_process cch (ichar_of k) in key_result seq k r cch'.
Proof.
  intros R V. destruct k as [c|]; cbn [ichar_of valid_key] in *.
  - destruct (decide (c = 10 \/ c = 13)) as [Nl|Nl].
    { unfold cli_ch_process. rewrite !(proj2 (Z.eqb_neq c _)) by (unfold ETIMEDOUT; lia).
      assert ((c =? 10) || (c =? 13) = true) as En by (destruct Nl as [->| ->]; done).
      rewrite En. left. exists seq. split; [done|]. intros input. cbn [decode]. by rewrite En. }
    destruct (rest_known _ _ R) as [->|I]; [|apply pending_key; auto; lia].
    unfold cli_ch_process. rewrite (rest_len _ _ R). change (negb (Z.of_nat (length []) =? 0)) with false.
    rewrite !(proj2 (Z.eqb_neq c _)) by (unfold ETIMEDOUT; lia). cbn [orb].
    pose proof (tail_result cch c R ltac:(lia)) as T. destruct (ch_tail cch c) as [r cch'].
    destruct T as (seq' & R' & T). left. exists seq'. split; [done|]. intros input. cbn [decode].
    rewrite !(proj2 (Z.eqb_neq c _)) by lia. cbn [orb]. rewrite <- T. unfold give. by rewrite (proj2 (Z.eqb_neq c 0)) by lia.
  - unfold cli_ch_process. change (- ETIMEDOUT =? 0) with false. change (- ETIMEDOUT =? - ETIMEDOUT) with true. cbn iota.
    rewrite (rest_len _ _ R). destruct seq as [|x seq].
    + change (negb (Z.of_nat (length []) =? 0)) with false. left. by exists [].
    + destruct (Z.eqb_spec (Z.of_nat (length (x :: seq))) 0) as [E|_]; [simpl in E; lia|]. cbn [negb]. left.
      exists []. split; [by eapply rests_clear|done].
Qed.

(** * Handing out *)

Lemma hands_next cch x left : hands cch (x :: left) ->
  exists cch', cli_ch_process cch 0 = (x, cch') /\ x <> 0 /\ hands cch' left.
Proof.
  intros [On Er Fc Eu [El L6] Ed]. apply Forall_cons in Fc as [Hx Fc]. cbn [length] in *.
  unfold cli_ch_process. change (0 =? 0) with true. cbn iota. rewrite On.
  destruct (Z.ltb_spec (emit_upto cch) (esc_len cch)); [|lia]. unfold save_at.
  destruct (drop (Z.to_nat (emit_upto cch)) (esc_save cch)) as [|y t] eqn:E; [done|]. cbn [take] in Ed. injection Ed as -> Et.
  assert (esc_save cch !!! Z.to_nat (emit_upto cch) = x) as ->.
  { rewrite <- (Nat.add_0_r (Z.to_nat (emit_upto cch))), <- lookup_total_drop, E. done. }
  eexists. split; [reflexivity|]. split; [lia|]. split; cbn [esc_len esc_save emit_upto emitting]; auto; try lia.
  replace (Z.to_nat (emit_upto cch + 1)) with (Z.to_nat (emit_upto cch) + 1)%nat by lia. rewrite <- drop_drop, E. done.
Qed.

Lemma hands_end cch : hands cch [] -> exists cch', cli_ch_process cch 0 = (0, cch') /\ rests cch' [].
Proof.
  intros [On Er Fc Eu [El L6] Ed]. cbn [length] in *. unfold cli_ch_process. change (0 =? 0) with true. cbn iota. rewrite On.
  destruct (Z.ltb_spec (emit_upto cch) (esc_len cch)); [lia|]. eexists. split; [reflexivity|].
  split; cbn; auto. by exists (esc_save cch).
Qed.

(** * The loop *)

(** What has been given and what is still owed make up the decoding [D]. *)
Definition owes (D : list Z) (r : reader) : Prop :=
  Forall valid_key (rd_input r) /\
  ((exists seq, rests (rd_cch r) seq /\ rd_output r ++ decode seq (rd_input r) = D) \/
   (exists left, hands (rd_cch r) left /\ rd_output r ++ left ++ decode [] (rd_input r) = D)).

Lemma give_app out c : give out c = out ++ give [] c.
Proof. unfold give. destruct (c =? 0); [by rewrite app_nil_r|done]. Qed.

Lemma owes_key D cch seq k input out c cch' :
  rests cch seq -> Forall valid_key (k :: input) -> out ++ decode seq (k :: input) = D ->
  cli_ch_process cch (ichar_of k) = (c, cch') -> owes D (Reader cch' input (give out c)).
Proof.
  intros R F E P. apply Forall_cons in F as [V F]. pose proof (key_ok cch seq k R V) as K. rewrite P in K.
  split; [done|]. cbn [rd_cch rd_input rd_output]. destruct K as [(seq' & R' & T)|(left & H & Nc & T)]; rewrite T in E.
  - left. exists seq'. split; [done|]. by rewrite give_app, <- app_assoc.
  - right. exists left. split; [done|]. unfold give. rewrite (proj2 (Z.eqb_neq c 0) Nc), <- app_assoc. done.
Qed.

Lemma owes_step D r r' : owes D r -> read_step r r' -> owes D r'.
Proof.
  intros [F O] S. destruct S as [cch input out c cch' P Nc|cch cch' k input out c cch'' P0 P]; cbn [rd_cch rd_input rd_output] in *;
    destruct O as [(seq & R & E)|(left & H & E)].
  - by rewrite (rests_zero _ _ R) in P; simplify_eq.
  - destruct left as [|x left]; [destruct (hands_end _ H) as (? & P' & _); congruence|].
    destruct (hands_next _ _ _ H) as (cch2 & P' & _ & H'). rewrite P in P'. injection P' as -> ->.
    split; [done|]. right. exists left. split; [done|]. cbn [rd_input rd_output]. by rewrite <- app_assoc.
  - rewrite (rests_zero _ _ R) in P0. injection P0 as <-. by eapply owes_key.
  - destruct left as [|x left]; [|destruct (hands_next _ _ _ H) as (? & P' & ? & _); congruence].
    destruct (hands_end _ H) as (cch2 & P' & R'). rewrite P0 in P'. injection P' as ->. by eapply owes_key.
Qed.

Lemma owes_reach D r r' : owes D r -> rtc read_step r r' -> owes D r'.
Proof. intros O S. induction S as [|r r1 r2 S1 _ IH]; [done|]. apply IH. by eapply owes_step. Qed.

Lemma owes_start input : Forall valid_key input -> owes (decode [] input) (Reader cli_ch_init input []).
Proof. intros F. split; [done|]. left. exists []. split; [|done]. split; cbn; auto. by eexists. Qed.

Definition finished (r : reader) : Prop := rd_input r = [] /\ forall r', ~ read_step r r'.

(** A character that is saved, or a key, is always taken. *)
Lemma owes_progress D r : owes D r -> (finished r /\ rd_output r = D) \/ exists r', read_step r r'.
Proof.
  destruct r as [cch input out]. intros [F O]. cbn [rd_cch rd_input rd_output] in *.
  assert (forall cch', cli_ch_process cch 0 = (0, cch') -> (input = [] -> out = D) ->
    (finished (Reader cch input out) /\ out = D) \/ exists r', read_step (Reader cch input out) r') as Next.
  { intros cch' P ED. destruct input as [|k input].
    - left. split; [|auto]. split; [done|]. intros r' S. inversion S; subst; congruence.
    - right. destruct (cli_ch_process cch' (ichar_of k)) as [c cch''] eqn:P2.
      eexists. by apply step_key with cch'. }
  destruct O as [(seq & R & E)|([|x left] & H & E)].
  - apply (Next cch); [by eapply rests_zero|]. intros ->. by rewrite app_nil_r in E.
  - destruct (hands_end _ H) as (cch' & P & _). apply (Next cch' P). intros ->. by rewrite !app_nil_r in E.
  - right. destruct (hands_next _ _ _ H) as (cch' & P & Nx & _). eexists. by eapply step_saved.
Qed.

(** The turns a state still needs: a saved character each, and seven for a key. *)
Definition turns (r : reader) : nat :=
  (Z.to_nat (if emitting (rd_cch r) then esc_len (rd_cch r) - emit_upto (rd_cch r) else 0) + 8 * length (rd_input r))%nat.

Lemma turns_rests cch seq input out : rests cch seq -> turns (Reader cch input out) = (8 * length input)%nat.
Proof. intros R. unfold turns. cbn [rd_cch rd_input]. by rewrite (rest_idle _ _ R). Qed.
Lemma turns_hands cch left input out : hands cch left ->
  turns (Reader cch input out) = (length left + 8 * length input)%nat /\ (length left <= 6)%nat.
Proof. intros [On _ _ Eu [El L6] _]. unfold turns. cbn [rd_cch rd_input]. rewrite On. lia. Qed.

Lemma turns_decrease D r r' : owes D r -> read_step r r' -> (turns r' < turns r)%nat.
Proof.
  intros O S. pose proof (owes_step D r r' O S) as O'. destruct O as [_ O], O' as [_ O'].
  assert (forall cch k input out cch' out', ((exists seq, rests cch seq) \/ exists left, hands cch left) ->
    ((exists seq, rests cch' seq) \/ exists left, hands cch' left) ->
    (turns (Reader cch' input out') < turns (Reader cch (k :: input) out))%nat) as Key.
  { intros cch k input out cch' out' H H'.
    assert (8 * length (k :: input) <= turns (Reader cch (k :: input) out))%nat by (unfold turns; cbn [rd_input]; lia).
    destruct H' as [[seq R]|[left L]]; [rewrite (turns_rests _ _ _ _ R)|destruct (turns_hands _ _ input out' L)]; cbn [length] in *; lia. }
  destruct S as [cch input out c cch' P Nc|cch cch' k input out c cch'' P0 P]; cbn [rd_cch rd_input rd_output] in *.
  - destruct O as [(seq & R & E)|(left & H & E)]; [rewrite (rests_zero _ _ R) in P; congruence|].
    destruct left as [|x left]; [destruct (hands_end _ H) as (? & P' & _); congruence|].
    destruct (hands_next _ _ _ H) as (cch2 & P' & _ & H'). rewrite P in P'. injection P' as -> ->.
    rewrite (proj1 (turns_hands _ _ _ _ H)), (proj1 (turns_hands _ _ _ _ H')). cbn [length]. lia.
  - apply Key; naive_solver.
Qed.

Lemma owes_finish D r : owes D r -> exists r', rtc read_step r r' /\ finished r' /\ rd_output r' = D.
Proof.
  remember (turns r) as n eqn:En. revert r En. induction n as [n IH] using lt_wf_ind. intros r -> O.
  destruct (owes_progress D r O) as [[Fi E]|[r1 S]]; [exists r; split; [constructor|done]|].
  destruct (IH (turns r1) (turns_decrease D r r1 O S) r1 eq_refl (owes_step D r r1 O S)) as (r' & S' & Q).
  exists r'. split; [by eapply rtc_l|done].
Qed.

(** C39: The key reader decodes by a table: for every sequence of characters and
    pauses, whatever turns the reading loop has taken, it can go on, it stops
    after finitely many turns with all input read, and the characters handed
    out are then the decoding of the input: known sequences become their
    control character, the characters of a sequence that turns out not to be
    known appear unchanged and in order, and all others pass through. *)
Theorem cli_ch_decodes (input : list key) (r : reader) :
  Forall valid_key input -> rtc read_step (Reader cli_ch_init input []) r ->
  (exists r', rtc read_step r r' /\ finished r' /\ rd_output r' = decode [] input) /\
  (exists owed, decode [] input = rd_output r ++ owed).
Proof.
  intros F S. pose proof (owes_reach _ _ _ (owes_start input F) S) as O. split; [by apply owes_finish|].
  destruct O as [_ [(seq & _ & <-)|(left & _ & <-)]]; eauto.
Qed.

(** The eight bytes for an escape sequence are never exceeded: in every
    state the loop reaches, at most six are in use, the next one to hand out is
    not behind the last, and the next write is within the array. *)
Theorem cli_ch_bounded (input : list key) (r : reader) :
  Forall valid_key input -> rtc read_step (Reader cli_ch_init input []) r ->
  let cch := rd_cch r in
  length (esc_save cch) = 8%nat /\ 0 <= emit_upto cch <= esc_len cch /\ esc_len cch <= 6 /\
  (emitting cch = false -> esc_len cch <= 5 /\ emit_upto cch = 0).
Proof.
  intros F S. pose proof (owes_reach _ _ _ (owes_start input F) S) as [_ O]. cbv zeta.
  destruct O as [(seq & [Ei Eu Er El _ K] & _)|(left & [On Er _ Eu [El L6] _] & _)].
  - rewrite Er, Eu, El. assert (length seq <= 5)%nat.
    { destruct K as [->|K]; [simpl; lia|]. by apply pending_sound in K as [[_ ?] _]. }
    split; [done|]. split; [lia|]. split; [lia|]. intros _. lia.
  - split; [done|]. split; [lia|]. split; [done|]. congruence.
Qed.

(** Escape, [, X is not known. *)
Definition demo_keys : list key := [Key 27; Key 91; Key 88; Key 97; Quiet; Key 27; Key 91; Key 65].

Lemma cli_ch_decodes_witness :
  (exists r', rtc read_step (Reader cli_ch_init demo_keys []) r' /\ finished r' /\ rd_output r' = [27; 91; 88; 97; 16]) /\
  (exists owed, decode [] demo_keys = [] ++ owed).
Proof.
  apply (cli_ch_decodes demo_keys (Reader cli_ch_init demo_keys [])).
  - repeat constructor; discriminate.
  - constructor.
Defined.

Lemma cli_ch_bounded_witness :
  let cch := rd_cch (Reader cli_ch_init demo_keys []) in
  length (esc_save cch) = 8%nat /\ 0 <= emit_upto cch <= esc_len cch /\ esc_len cch <= 6 /\
  (emitting cch = false -> esc_len cch <= 5 /\ emit_upto cch = 0).
Proof.
  apply (cli_ch_bounded demo_keys (Reader cli_ch_init demo_keys [])).
  - repeat constructor; discriminate.
  - constructor.
Defined.
