(* ===== verification/Readline.v ===== *)
(** The line editor (common/cli_readline.c, with CONFIG_CMDLINE_EDITING): one
    key at a time, the history, and the loop that reads a line.

    What goes to the console is part of the result.  The characters are
    unsigned.  A read or write outside the line buffer has no result.
    Completion (cmd_auto_complete) is a parameter; time-outs are left out. *)

From S2P Require Import Prelude Bytes Cstring CliGetch.

Definition EINTR : Z := 4.

Definition BEEP : Z := 7.
Definition BS : Z := 8.

(** * The history *)

Record history := Hist { hist_max : Z; hist_add_idx : Z; hist_cur : Z; hist_num : Z; hist_list : list (list Z) }.

Section History.
Context (HIST_MAX : Z).

Definition hist_init : history := Hist 0 0 (-1) 0 (replicate (Z.to_nat HIST_MAX) []).

Definition cread_add_to_hist (line : list Z) (h : history) : history :=
  let lst := <[Z.to_nat (hist_add_idx h) := cstr line]> (hist_list h) in
  let idx := hist_add_idx h + 1 in
  let idx := if HIST_MAX <=? idx then 0 else idx in
  Hist (if hist_max h <? idx then idx else hist_max h) idx (hist_cur h) (u32 (hist_num h + 1)) lst.

Definition hist_at (h : history) (i : Z) : list Z := hist_list h !!! Z.to_nat i.
Definition with_cur (h : history) (c : Z) : history :=
  Hist (hist_max h) (hist_add_idx h) c (hist_num h) (hist_list h).

Definition hist_prev (h : history) : option (list Z) * history :=
  if hist_cur h <? 0 then (None, h)
  else
    let old_cur := hist_cur h in
    let cur := hist_cur h - 1 in
    let cur := if cur <? 0 then hist_max h else cur in
    if cur =? hist_add_idx h then (None, with_cur h old_cur) else (Some (hist_at h cur), with_cur h cur).

Definition hist_next (h : history) : option (list Z) * history :=
  if hist_cur h <? 0 then (None, h)
  else if hist_cur h =? hist_add_idx h then (None, h)
  else
    let cur := hist_cur h + 1 in
    let cur := if hist_max h <? cur then 0 else cur in
    (Some (if cur =? hist_add_idx h then [] else hist_at h cur), with_cur h cur).

(** The lines printed, oldest first; [None]: the loop does not end. *)
Fixpoint print_hist_loop (fuel : nat) (i : Z) (h : history) : option (list (list Z)) :=
  match fuel with
  | O => None
  | S n =>
      let i := if hist_max h <? i then 0 else i in
      if i =? hist_add_idx h then Some []
      else option_map (cons (hist_at h i)) (print_hist_loop n (i + 1) h)
  end.
Definition cread_print_hist_list (h : history) : option (list (list Z)) :=
  print_hist_loop (Z.to_nat (HIST_MAX + 2)) (hist_add_idx h + 1) h.
End History.

(** * The line *)

Record cli_line_state := Cls {
  cl_num : Z; cl_eol : Z; cl_len : Z; cl_insert : bool; cl_history : bool; cl_complete : bool; cl_buf : list Z
}.

Definition with_line (c : cli_line_state) (num eol : Z) (buf : list Z) : cli_line_state :=
  Cls num eol (cl_len c) (cl_insert c) (cl_history c) (cl_complete c) buf.

(** [printf("%.*s", n, buf + at)] *)
Definition putnstr (buf : list Z) (at_ n : Z) : list Z := take (Z.to_nat n) (cstr (drop (Z.to_nat at_) buf)).
Definition putchars (count c : Z) : list Z := replicate (Z.to_nat count) c.

(** [BEGINNING_OF_LINE], [ERASE_TO_EOL] and [REFRESH_TO_EOL]: the line and the
    output. *)
Definition beginning_of_line (c : cli_line_state) : cli_line_state * list Z :=
  (with_line c 0 (cl_eol c) (cl_buf c), putchars (cl_num c) BS).
Definition erase_to_eol (c : cli_line_state) : cli_line_state * list Z :=
  if cl_num c <? cl_eol c
  then (with_line c (cl_num c) (cl_num c) (cl_buf c),
        putchars (cl_eol c - cl_num c) 32 ++ putchars (cl_eol c - cl_num c) BS)
  else (c, []).
Definition refresh_to_eol (c : cli_line_state) : cli_line_state * list Z :=
  if cl_num c <? cl_eol c
  then (with_line c (cl_eol c) (cl_eol c) (cl_buf c), putnstr (cl_buf c) (cl_num c) (cl_eol c - cl_num c))
  else (c, []).

(** A byte of the buffer, if it is in it. *)
Definition peek (buf : list Z) (i : Z) : option Z := if (0 <=? i) then buf !! Z.to_nat i else None.
Definition poke (buf : list Z) (i c : Z) : option (list Z) :=
  if (0 <=? i) && (i <? Z.of_nat (length buf)) then Some (<[Z.to_nat i := c]> buf) else None.
(** memmove within the buffer. *)
Definition move (buf : list Z) (dst src n : Z) : option (list Z) :=
  if (dst + n <=? Z.of_nat (length buf)) && (src + n <=? Z.of_nat (length buf)) then Some (memmove buf dst src n) else None.

Definition cread_add_char (ichar : Z) (insert : bool) (c : cli_line_state) : option (cli_line_state * list Z) :=
  let num := cl_num c in
  let grow := insert || (num =? cl_eol c) in
  if grow && (u32 (cl_len c - 1) <? cl_eol c) then Some (c, [BEEP])
  else
    let eol := if grow then u32 (cl_eol c + 1) else cl_eol c in
    if insert then
      let wlen := u32 (eol - num) in
      match (if 1 <? wlen then move (cl_buf c) (num + 1) num (wlen - 1) else Some (cl_buf c)) with
      | None => None
      | Some buf =>
          match poke buf num ichar with
          | None => None
          | Some buf => Some (with_line c (u32 (num + 1)) eol buf, putnstr buf num wlen ++ putchars (wlen - 1) BS)
          end
      end
    else
      match poke (cl_buf c) num ichar with
      | None => None
      | Some buf => Some (with_line c (u32 (num + 1)) eol buf, putnstr buf num 1)
      end.

Fixpoint cread_add_str (str : list Z) (insert : bool) (c : cli_line_state) : option (cli_line_state * list Z) :=
  match str with
  | [] => Some (c, [])
  | x :: str' =>
      match cread_add_char x insert c with
      | None => None
      | Some (c, out) =>
          match cread_add_str str' insert c with
          | None => None
          | Some (c, out') => Some (c, out ++ out')
          end
      end
  end.

(** The two loops of ^W; [base] is unsigned, so it never is below 0. *)
Fixpoint skip_spaces_back (fuel : nat) (buf : list Z) (base : Z) : option Z :=
  match fuel with
  | O => None
  | S n =>
      match peek buf base with
      | None => None
      | Some c => if c =? 32 then skip_spaces_back n buf (u32 (base - 1)) else Some base
      end
  end.
Fixpoint skip_word_back (n : nat) (buf : list Z) (base : Z) : option Z :=
  match n with
  | O => Some base
  | S n' =>
      if 0 <? base then
        match peek buf (base - 1) with
        | None => None
        | Some c => if negb (c =? 32) then skip_word_back n' buf (base - 1) else Some base
        end
      else Some base
  end.

Definition erase_word (c : cli_line_state) : option (cli_line_state * list Z) :=
  let num := cl_num c in
  if num =? 0 then Some (c, [])
  else
    match skip_spaces_back (S (length (cl_buf c))) (cl_buf c) (num - 1) with
    | None => None
    | Some base =>
        match skip_word_back (Z.to_nat base) (cl_buf c) base with
        | None => None
        | Some base =>
            let wlen := u32 (num - base) in
            let eol := u32 (cl_eol c - wlen) in
            match move (cl_buf c) base num (u32 (eol - base + 1)) with
            | None => None
            | Some buf =>
                Some (with_line c base eol buf,
                      putchars wlen BS ++ cstr (drop (Z.to_nat base) buf) ++ putchars wlen 32 ++
                      putchars (u32 (wlen + eol - base)) BS)
            end
        end
    end.

Definition delete_right (c : cli_line_state) : option (cli_line_state * list Z) :=
  let num := cl_num c in
  if num <? cl_eol c then
    let wlen := cl_eol c - num - 1 in
    match (if negb (wlen =? 0) then move (cl_buf c) num (num + 1) wlen else Some (cl_buf c)) with
    | None => None
    | Some buf =>
        Some (with_line c num (cl_eol c - 1) buf,
              (if negb (wlen =? 0) then putnstr buf num wlen else []) ++ 32 :: putchars (wlen + 1) BS)
    end
  else Some (c, []).

Definition delete_left (c : cli_line_state) : option (cli_line_state * list Z) :=
  if negb (cl_num c =? 0) then
    let wlen := u32 (cl_eol c - cl_num c) in
    let num := cl_num c - 1 in
    match move (cl_buf c) num (num + 1) wlen with
    | None => None
    | Some buf =>
        Some (with_line c num (u32 (cl_eol c - 1)) buf, BS :: putnstr buf num wlen ++ 32 :: putchars (wlen + 1) BS)
    end
  else Some (c, []).

Section Editor.
Context (HIST_MAX : Z).
(** cmd_auto_complete on the line: the new line and its length, if it
    completed anything, and the output. *)
Context (complete : list Z -> Z -> option (list Z * Z) * list Z).

(** Replacing the line by one of the history. *)
Definition show_hist (line : list Z) (c : cli_line_state) : option (cli_line_state * list Z) :=
  let (c, o1) := beginning_of_line c in
  let (c, o2) := erase_to_eol c in
  let line := cstr line in
  if Z.of_nat (length (cl_buf c)) <? Z.of_nat (length line) + 1 then None
  else
    let buf := store (cl_buf c) 0 (line ++ [0]) in
    let c := with_line c (cl_num c) (strlen buf) buf in
    let (c, o3) := refresh_to_eol c in
    Some (c, o1 ++ o2 ++ o3).

(** What a key other than the end of the line does: the line, the history and
    the output. *)
Definition edit_key (c : cli_line_state) (h : history) (ichar : Z) : option (cli_line_state * history * list Z) :=
  let keep r := option_map (fun '(c, out) => (c, h, out)) r in
  if ichar =? 1 then keep (Some (beginning_of_line c))
  else if ichar =? 6 then
    if cl_num c <? cl_eol c then
      match peek (cl_buf c) (cl_num c) with
      | None => None
      | Some x => Some (with_line c (cl_num c + 1) (cl_eol c) (cl_buf c), h, [x])
      end
    else Some (c, h, [])
  else if ichar =? 2 then
    if negb (cl_num c =? 0) then Some (with_line c (cl_num c - 1) (cl_eol c) (cl_buf c), h, [BS]) else Some (c, h, [])
  else if ichar =? 4 then keep (delete_right c)
  else if ichar =? 11 then keep (Some (erase_to_eol c))
  else if ichar =? 5 then keep (Some (refresh_to_eol c))
  else if ichar =? 15 then
    Some (Cls (cl_num c) (cl_eol c) (cl_len c) (negb (cl_insert c)) (cl_history c) (cl_complete c) (cl_buf c), h, [])
  else if ichar =? 23 then keep (erase_word c)
  else if (ichar =? 24) || (ichar =? 21) then
    let (c, o1) := beginning_of_line c in let (c, o2) := erase_to_eol c in Some (c, h, o1 ++ o2)
  else if (ichar =? 255) || (ichar =? 127) || (ichar =? 8) then keep (delete_left c)
  else if (ichar =? 16) || (ichar =? 14) then
    if cl_history c then
      let (hline, h) := if ichar =? 16 then hist_prev h else hist_next h in
      match hline with
      | None => Some (c, h, [BEEP])
      | Some line => option_map (fun '(c, out) => (c, h, out)) (show_hist line c)
      end
    else Some (c, h, [])
  else if (ichar =? 9) && cl_complete c then
    if cl_num c <? cl_eol c then Some (c, h, [BEEP])
    else
      match poke (cl_buf c) (cl_num c) 0 with
      | None => None
      | Some buf =>
          match complete buf (cl_num c) with
          | (Some (buf, num2), out) =>
              Some (with_line c (u32 (cl_num c + (num2 - cl_num c))) (u32 (cl_eol c + (num2 - cl_num c))) buf, h, out)
          | (None, out) => Some (with_line c (cl_num c) (cl_eol c) buf, h, out)
          end
      end
  else keep (cread_add_char ichar (cl_insert c) c).

(** The return value, the line, the history and the output. *)
Definition cread_line_process_ch (c : cli_line_state) (h : history) (ichar : Z)
  : option (Z * cli_line_state * history * list Z) :=
  if ichar =? 0 then Some (- EAGAIN, c, h, [])
  else if ichar =? 10 then
    option_map (fun buf => (0, with_line c (cl_num c) (cl_eol c) buf, h, [10])) (poke (cl_buf c) (cl_eol c) 0)
  else if ichar =? 3 then
    option_map (fun buf => (- EINTR, with_line c (cl_num c) (cl_eol c) buf, h, [])) (poke (cl_buf c) 0 0)
  else
    match edit_key c h ichar with
    | None => None
    | Some (c, h, out) =>
        option_map (fun buf => (- EAGAIN, with_line c (cl_num c) (cl_eol c) buf, h, out)) (poke (cl_buf c) (cl_eol c) 0)
    end.

Definition cli_cread_init (buf : list Z) (buf_size : Z) : option (cli_line_state * list Z) :=
  let c := Cls 0 0 buf_size true false false buf in
  if strlen buf =? 0 then Some (c, []) else cread_add_str (cstr buf) false c.

(** The loop of [cread_line]: the return value, the line, the history and the
    keys left; [None] also when the input ends before the line does. *)
Fixpoint cread_loop (fuel : nat) (cch : cli_ch_state) (input : list key) (c : cli_line_state) (h : history)
  : option (Z * cli_line_state * history * list key) :=
  match fuel with
  | O => None
  | S n =>
      let '(ichar, cch) := cli_ch_process cch 0 in
      let next :=
        if ichar =? 0 then
          match input with
          | [] => None
          | k :: input => let '(ichar, cch) := cli_ch_process cch (ichar_of k) in Some (ichar, cch, input)
          end
        else Some (ichar, cch, input) in
      match next with
      | None => None
      | Some (ichar, cch, input) =>
          match cread_line_process_ch c h (u8 ichar) with
          | None => None
          | Some (ret, c, h, _) =>
              if ret =? - EINTR then Some (-1, c, h, input)
              else if ret =? 0 then
                let h := if negb (rd (cl_buf c) =? 0) && negb (rd (cl_buf c) =? 33)
                         then cread_add_to_hist HIST_MAX (cl_buf c) h else h in
                Some (0, c, with_cur h (hist_add_idx h), input)
              else cread_loop n cch input c h
          end
      end
  end.

(** A key takes at most seven rounds. *)
Definition cread_line (buf : list Z) (len : Z) (input : list key) (h : history)
  : option (Z * cli_line_state * history * list key) :=
  match cli_cread_init buf len with
  | None => None
  | Some (c, _) =>
      let c := Cls (cl_num c) (cl_eol c) (cl_len c) (cl_insert c) true true (cl_buf c) in
      cread_loop (S (8 * length input)) cli_ch_init input c h
  end.
End Editor.
