(* ===== verification/ReadlineProps.v ===== *)
(** The line editor as an editor of two texts, the one in front of the cursor
    and the one behind it: every key has the effect it is documented for, the
    buffer is not exceeded, and the terminal shows the line with the cursor in
    its place. *)

From S2P Require Import Prelude Bytes Cstring CstringProps CliGetch Readline.

(** * The terminal *)

(** One line: the cells in front of the cursor and those from it on. *)
Record term := Term { t_left : list Z; t_right : list Z }.

Definition term_put (t : term) (c : Z) : term :=
  if c =? BEEP then t
  else if c =? BS then
    match rev (t_left t) with [] => t | x :: l => Term (rev l) (x :: t_right t) end
  else Term (t_left t ++ [c]) (tl (t_right t)).
Definition term_run (t : term) (out : list Z) : term := fold_left term_put out t.

(** Characters that take a cell. *)
Definition visible (c : Z) : Prop := 32 <= c < 127.
Definition spaces (n : nat) : list Z := replicate n 32.

Lemma term_run_app t o1 o2 : term_run t (o1 ++ o2) = term_run (term_run t o1) o2.
Proof. apply fold_left_app. Qed.

Lemma term_write w : Forall visible w -> forall A B, term_run (Term A B) w = Term (A ++ w) (drop (length w) B).
Proof.
  induction 1 as [|c w Hc F IH]; intros A B; [by rewrite app_nil_r|]. unfold term_run in *. cbn [fold_left length].
  unfold term_put at 2. unfold visible in Hc. rewrite !(proj2 (Z.eqb_neq c _)) by (unfold BEEP, BS; lia). cbn [t_left t_right].
  rewrite IH, <- app_assoc. destruct B; [cbn [tl]; by rewrite drop_nil|done].
Qed.

Lemma term_back W : forall A B, term_run (Term (A ++ W) B) (replicate (length W) BS) = Term A (W ++ B).
Proof.
  induction W as [|x W IH] using rev_ind; intros A B; [by rewrite app_nil_r|].
  rewrite length_app, Nat.add_comm. cbn [length Nat.add replicate]. unfold term_run in *. cbn [fold_left].
  unfold term_put at 2. change (BS =? BEEP) with false. change (BS =? BS) with true. cbn iota. cbn [t_left t_right].
  rewrite app_assoc, rev_app_distr. cbn [rev app]. rewrite rev_involutive, IH. by rewrite <- app_assoc.
Qed.

(** The line is shown, with blanks behind it. *)
Definition shows (pre l r : list Z) (t : term) : Prop := t_left t = pre ++ l /\ exists n, t_right t = r ++ spaces n.

(** The output turns the picture of one line into that of another. *)
Definition paints (out l r l' r' : list Z) : Prop :=
  forall pre t, shows pre l r t -> shows pre l' r' (term_run t out).

(** * The line in the buffer *)

Definition MAX_LINE : Z := 1000000000.

(** [l] and [r] are in the buffer, which has a byte for the terminator. *)
Record in_line (c : cli_line_state) (l r : list Z) : Prop := {
  il_num : cl_num c = Z.of_nat (length l);
  il_eol : cl_eol c = Z.of_nat (length l) + Z.of_nat (length r);
  il_fits : cl_eol c <= cl_len c;
  il_room : Z.of_nat (length (cl_buf c)) = cl_len c + 1;
  il_len : 0 < cl_len c <= MAX_LINE;
  il_text : exists junk, cl_buf c = l ++ r ++ junk;
  il_seen : Forall visible (l ++ r)
}.
Definition terminated (c : cli_line_state) (l r : list Z) : Prop := exists junk, cl_buf c = l ++ r ++ 0 :: junk.

Lemma visible_plain w : Forall visible w -> Forall (fun c => c <> 0) w.
Proof. intros F. eapply Forall_impl; [exact F|]. unfold visible. intros. lia. Qed.

(** The poke that ends every key. *)
Lemma poke_end c l r : in_line c l r ->
  exists buf, poke (cl_buf c) (cl_eol c) 0 = Some buf /\
    in_line (with_line c (cl_num c) (cl_eol c) buf) l r /\ terminated (with_line c (cl_num c) (cl_eol c) buf) l r.
Proof.
  intros [En Ee Ef Er El [junk Et] Es]. unfold poke. rewrite Ee.
  rewrite Et, !length_app in Er. destruct junk as [|x junk]; [simpl in Er; lia|]. cbn [length] in Er.
  assert (<[Z.to_nat (Z.of_nat (length l) + Z.of_nat (length r)) := 0]> (cl_buf c) = l ++ r ++ 0 :: junk) as Ei.
  { rewrite Et, insert_app_r_alt, insert_app_r_alt by lia.
    replace (Z.to_nat (Z.of_nat (length l) + Z.of_nat (length r)) - length l - length r)%nat with 0%nat by lia. done. }
  rewrite Ei, Et, !length_app. cbn [length].
  destruct (Z.leb_spec 0 (Z.of_nat (length l) + Z.of_nat (length r))); [|lia].
  destruct (Z.ltb_spec (Z.of_nat (length l) + Z.of_nat (length r)) (Z.of_nat (length l + (length r + S (length junk))))); [|lia].
  cbn [andb]. eexists. split; [reflexivity|]. split; [|by eexists].
  split; cbn [with_line cl_num cl_eol cl_len cl_buf]; auto; [lia|rewrite !length_app; cbn [length]; lia|by eexists].
Qed.

Lemma cstr_app_plain w s : Forall (fun c => c <> 0) w -> cstr (w ++ s) = w ++ cstr s.
Proof. induction 1 as [|c w Hc F IH]; [done|]. cbn [app]. by rewrite cstr_step, IH. Qed.

Lemma putnstr_at l r s : Forall visible r -> putnstr (l ++ r ++ s) (Z.of_nat (length l)) (Z.of_nat (length r)) = r.
Proof.
  intros F. unfold putnstr. rewrite !Nat2Z.id, drop_app_length, cstr_app_plain by (by apply visible_plain).
  apply take_app_length.
Qed.

Lemma store_at (l s w : list Z) : store (l ++ s) (Z.of_nat (length l)) w = l ++ w ++ drop (length w) s.
Proof. unfold store. rewrite Nat2Z.id, take_app_length, <- drop_drop, drop_app_length. done. Qed.

Lemma slice_at (l w s : list Z) : slice (l ++ w ++ s) (Z.of_nat (length l)) (Z.of_nat (length l) + Z.of_nat (length w)) = w.
Proof.
  unfold slice. rewrite Nat2Z.id, drop_app_length.
  replace (Z.to_nat (Z.of_nat (length l) + Z.of_nat (length w) - Z.of_nat (length l))) with (length w) by lia.
  apply take_app_length.
Qed.

(** Moving the text [w] that stands behind [p] to behind [l]. *)
Lemma move_at (buf l s p w q : list Z) :
  buf = l ++ s -> buf = p ++ w ++ q -> (length l + length w <= length buf)%nat ->
  move buf (Z.of_nat (length l)) (Z.of_nat (length p)) (Z.of_nat (length w)) = Some (l ++ w ++ drop (length w) s).
Proof.
  intros E1 E2 L. assert (length buf = length p + (length w + length q))%nat as Lq by (by rewrite E2, !length_app).
  unfold move. destruct (Z.leb_spec (Z.of_nat (length l) + Z.of_nat (length w)) (Z.of_nat (length buf))); [|lia].
  destruct (Z.leb_spec (Z.of_nat (length p) + Z.of_nat (length w)) (Z.of_nat (length buf))); [|lia]. cbn [andb].
  rewrite memmove_ok by lia. rewrite E2 at 2. rewrite slice_at, E1, store_at. done.
Qed.

Lemma poke_at (l s : list Z) (x c : Z) : poke (l ++ x :: s) (Z.of_nat (length l)) c = Some (l ++ c :: s).
Proof.
  unfold poke. rewrite length_app. cbn [length]. destruct (Z.leb_spec 0 (Z.of_nat (length l))); [|lia].
  destruct (Z.ltb_spec (Z.of_nat (length l)) (Z.of_nat (length l + S (length s)))); [|lia]. cbn [andb].
  by rewrite Nat2Z.id, insert_app_r_alt, Nat.sub_diag by lia.
Qed.

(** * The keys *)

(** The line [l], [r] becomes [l'], [r'] with nothing else changed, and the
    output paints it. *)
Definition edits (c : cli_line_state) (l r : list Z) (res : option (cli_line_state * list Z)) (l' r' : list Z) : Prop :=
  exists num eol buf out, res = Some (with_line c num eol buf, out) /\
    in_line (with_line c num eol buf) l' r' /\ paints out l r l' r'.

Lemma with_same c : with_line c (cl_num c) (cl_eol c) (cl_buf c) = c.
Proof. by destruct c. Qed.

Lemma paints_none l r : paints [] l r l r.
Proof. by intros pre t S. Qed.
Lemma paints_beep l r : paints [BEEP] l r l r.
Proof. by intros pre t S. Qed.

Lemma edits_none c l r : in_line c l r -> edits c l r (Some (c, [])) l r.
Proof. intros I. exists (cl_num c), (cl_eol c), (cl_buf c), []. rewrite with_same. split; [done|]. split; [done|apply paints_none]. Qed.

(** The line with the same text and another cursor. *)
Lemma in_line_split c l r l' r' :
  in_line c l r -> l' ++ r' = l ++ r ->
  in_line (with_line c (Z.of_nat (length l')) (cl_eol c) (cl_buf c)) l' r'.
Proof.
  intros [En Ee Ef Er El [junk Et] Es] E. assert (length l' + length r' = length l + length r)%nat as L
    by (rewrite <- !length_app; by rewrite E).
  split; cbn [with_line cl_num cl_eol cl_len cl_buf]; auto; [lia| |by rewrite E].
  exists junk. by rewrite Et, !app_assoc, E.
Qed.

Lemma home_ok c l r : in_line c l r -> edits c l r (Some (beginning_of_line c)) [] (l ++ r).
Proof.
  intros I. eexists _, _, _, _. split; [reflexivity|]. split; [by apply (in_line_split c l r [] (l ++ r))|].
  intros pre t [Sl [n Sr]]. destruct t as [A B]. cbn in Sl, Sr. subst A B. unfold putchars. rewrite (il_num _ _ _ I), Nat2Z.id, term_back.
  split; [by rewrite app_nil_r|]. exists n. cbn. by rewrite app_assoc.
Qed.

Lemma in_line_cut c l r : in_line c l r -> in_line (with_line c (cl_num c) (cl_num c) (cl_buf c)) l [].
Proof.
  intros [En Ee Ef Er El [junk Et] Es]. split; cbn [with_line cl_num cl_eol cl_len cl_buf]; auto.
  - rewrite En. cbn [length]. lia.
  - lia.
  - exists (r ++ junk). by rewrite Et.
  - apply Forall_app in Es as [Es _]. by rewrite app_nil_r.
Qed.

Lemma spaces_visible n : Forall visible (spaces n).
Proof. apply Forall_replicate. unfold visible. lia. Qed.

Lemma erase_ok c l r : in_line c l r -> edits c l r (Some (erase_to_eol c)) l [].
Proof.
  intros I. unfold erase_to_eol. pose proof (il_num _ _ _ I) as En. pose proof (il_eol _ _ _ I) as Ee.
  destruct (Z.ltb_spec (cl_num c) (cl_eol c)).
  - eexists _, _, _, _. split; [reflexivity|]. split; [by eapply in_line_cut|].
    intros pre t [Sl [n Sr]]. destruct t as [A B]. cbn in Sl, Sr. subst A B. unfold putchars.
    replace (Z.to_nat (cl_eol c - cl_num c)) with (length r) by lia. fold (spaces (length r)).
    rewrite term_run_app, term_write by apply spaces_visible. unfold spaces at 2. rewrite length_replicate, drop_app_length.
    rewrite <- (length_replicate (length r) 32) at 2. fold (spaces (length r)). rewrite term_back.
    split; [done|]. cbn. exists (length r + n)%nat. unfold spaces. by rewrite replicate_add.
  - assert (r = []) as -> by (destruct r; [done|simpl in Ee; lia]). by apply edits_none.
Qed.

Lemma refresh_ok c l r : in_line c l r -> edits c l r (Some (refresh_to_eol c)) (l ++ r) [].
Proof.
  intros I. unfold refresh_to_eol. pose proof (il_num _ _ _ I) as En. pose proof (il_eol _ _ _ I) as Ee.
  destruct (Z.ltb_spec (cl_num c) (cl_eol c)).
  - eexists _, _, _, _. split; [reflexivity|]. split.
    + rewrite Ee at 1. rewrite <- Nat2Z.inj_add, <- length_app. apply (in_line_split c l r (l ++ r) []); [done|by rewrite app_nil_r].
    + intros pre t [Sl [n Sr]]. destruct t as [A B]. cbn in Sl, Sr. subst A B. destruct (il_text _ _ _ I) as [junk Et].
      pose proof (il_seen _ _ _ I) as [_ Fr]%Forall_app.
      assert (putnstr (cl_buf c) (cl_num c) (cl_eol c - cl_num c) = r) as ->.
      { rewrite Et, En. replace (cl_eol c - Z.of_nat (length l)) with (Z.of_nat (length r)) by lia. by apply putnstr_at. }
      rewrite term_write, drop_app_length by done. split; [cbn; by rewrite app_assoc|]. by exists n.
  - assert (r = []) as -> by (destruct r; [done|simpl in Ee; lia]). rewrite app_nil_r. by apply edits_none.
Qed.

(** Building the line a key leaves. *)
Lemma in_line_new c l r l' r' num eol buf junk :
  in_line c l r -> buf = l' ++ r' ++ junk -> length buf = length (cl_buf c) ->
  num = Z.of_nat (length l') -> eol = Z.of_nat (length l') + Z.of_nat (length r') -> eol <= cl_len c ->
  Forall visible (l' ++ r') -> in_line (with_line c num eol buf) l' r'.
Proof.
  intros [En Ee Ef Er El Et Es] E L -> -> F V.
  split; cbn [with_line cl_num cl_eol cl_len cl_buf]; auto; [by rewrite L|by exists junk].
Qed.

Section Keys.
Context (c : cli_line_state) (l r : list Z) (I : in_line c l r).
Let En : cl_num c = Z.of_nat (length l) := il_num _ _ _ I.
Let Ee : cl_eol c = Z.of_nat (length l) + Z.of_nat (length r) := il_eol _ _ _ I.

Lemma line_visible : Forall visible l /\ Forall visible r.
Proof using I. apply Forall_app, (il_seen _ _ _ I). Qed.

Lemma room_left : exists junk, cl_buf c = l ++ r ++ junk /\
  Z.of_nat (length l) + Z.of_nat (length r) + Z.of_nat (length junk) = cl_len c + 1 /\ cl_len c <= MAX_LINE.
Proof using I.
  destruct (il_text _ _ _ I) as [junk Et]. exists junk. split; [done|]. pose proof (il_room _ _ _ I) as R.
  pose proof (il_len _ _ _ I). rewrite Et, !length_app in R. lia.
Qed.

Lemma add_full x insert : (insert || bool_decide (r = [])) = true -> cl_len c = Z.of_nat (length l) + Z.of_nat (length r) ->
  cread_add_char x insert c = Some (c, [BEEP]).
Proof using I En Ee.
  intros G L. pose proof (il_len _ _ _ I) as Hl. unfold MAX_LINE in Hl. unfold cread_add_char.
  assert (insert || (cl_num c =? cl_eol c) = true) as ->.
  { destruct insert; [done|]. cbn in G |- *. apply bool_decide_eq_true in G. rewrite En, Ee, G. apply Z.eqb_eq. cbn. lia. }
  rewrite u32_small, Ee by lia. destruct (Z.ltb_spec (cl_len c - 1) (Z.of_nat (length l) + Z.of_nat (length r))); [done|lia].
Qed.

Lemma insert_ok x :
  visible x -> Z.of_nat (length l) + Z.of_nat (length r) < cl_len c -> edits c l r (cread_add_char x true c) (l ++ [x]) r.
Proof using I En Ee.
  intros Hx L. destruct room_left as (junk & Et & Lj & Hm). unfold MAX_LINE in Hm. destruct line_visible as [Vl Vr].
  unfold cread_add_char. cbn [orb andb]. rewrite (u32_small (cl_len c - 1)) by lia. rewrite Ee.
  destruct (Z.ltb_spec (cl_len c - 1) (Z.of_nat (length l) + Z.of_nat (length r))); [lia|].
  rewrite !(u32_small (_ + 1)) by lia. rewrite u32_small by lia. rewrite En.
  replace (Z.of_nat (length l) + Z.of_nat (length r) + 1 - Z.of_nat (length l)) with (Z.of_nat (length (x :: r))) by (cbn [length]; lia).
  assert (exists y s, (if 1 <? Z.of_nat (length (x :: r)) then move (cl_buf c) (Z.of_nat (length l) + 1) (Z.of_nat (length l))
            (Z.of_nat (length (x :: r)) - 1) else Some (cl_buf c)) = Some (l ++ y :: r ++ s) /\
          length (l ++ y :: r ++ s) = length (cl_buf c)) as (y & s & -> & Ls).
  { destruct r as [|y r'] eqn:Er.
    - cbn [length]. change (1 <? Z.of_nat 1) with false. cbn iota. destruct junk as [|y junk]; [cbn [length] in *; lia|].
      exists y, junk. by rewrite Et.
    - rewrite <- Er in *. destruct (Z.ltb_spec 1 (Z.of_nat (length (x :: r)))); [|rewrite Er in *; cbn [length] in *; lia].
      replace (Z.of_nat (length (x :: r)) - 1) with (Z.of_nat (length r)) by (cbn [length]; lia).
      replace (Z.of_nat (length l) + 1) with (Z.of_nat (length (l ++ [y]))) by (rewrite length_app; cbn [length]; lia).
      rewrite (move_at (cl_buf c) (l ++ [y]) (r' ++ junk) l r junk).
      + eexists y, _. rewrite <- app_assoc. split; [reflexivity|]. rewrite Et, Er. cbn [app length]. 
        rewrite !length_app. cbn [length]. rewrite !length_app, length_drop, length_app. rewrite Er in Lj, L. cbn [length] in *. lia.
      + rewrite Et, Er, <- app_assoc. done.
      + done.
      + rewrite Et, !length_app, Er in *. cbn [length] in *. lia. }
  rewrite poke_at. eexists _, _, _, _. split; [reflexivity|].
  assert (l ++ x :: r ++ s = (l ++ [x]) ++ r ++ s) as Eb by (by rewrite <- app_assoc). split.
  - apply (in_line_new c l r _ _ _ _ _ s I); [exact Eb| | | |lia|].
    + rewrite <- Ls, !length_app. done.
    + rewrite length_app. cbn [length]. lia.
    + rewrite length_app. cbn [length]. lia.
    + apply Forall_app. split; [|done]. apply Forall_app. split; [done|]. by constructor.
  - intros pre t [Sl [n Sr]]. destruct t as [A B]. cbn in Sl, Sr. subst A B.
    change (x :: r ++ s) with ((x :: r) ++ s). rewrite putnstr_at by (by constructor).
    rewrite term_run_app, term_write by (by constructor). unfold putchars.
    replace (Z.to_nat (Z.of_nat (length (x :: r)) - 1)) with (length r) by (cbn [length]; lia).
    replace ((pre ++ l) ++ x :: r) with ((pre ++ l ++ [x]) ++ r) by (by rewrite <- !app_assoc). rewrite term_back.
    split; [done|]. cbn [t_right]. exists (n - 1)%nat. f_equal. cbn [length].
    rewrite drop_app, drop_ge by lia. cbn [app]. unfold spaces. rewrite drop_replicate. f_equal. lia.
Qed.

Lemma drop_spaces k n : drop k (spaces n) = spaces (n - k).
Proof. apply drop_replicate. Qed.

Lemma overtype_ok x :
  visible x -> (r = [] -> Z.of_nat (length l) < cl_len c) -> edits c l r (cread_add_char x false c) (l ++ [x]) (tl r).
Proof using I En Ee.
  intros Hx L. destruct room_left as (junk & Et & Lj & Hm). unfold MAX_LINE in Hm. destruct line_visible as [Vl Vr].
  unfold cread_add_char. cbn [orb].
  assert (exists y s, cl_buf c = l ++ y :: tl r ++ s /\ (r = [] -> length (cl_buf c) = (length l + 1 + length s)%nat)) as (y & s & Eb & _).
  { destruct r as [|y r']; [|by exists y, junk]. destruct junk as [|y junk]; [specialize (L eq_refl); cbn [length] in *; lia|].
    exists y, junk. split; [done|]. intros _. rewrite Et, !length_app. cbn [length]. lia. }
  assert (forall eol, eol = Z.of_nat (length l) + 1 + Z.of_nat (length (tl r)) -> eol <= cl_len c ->
    edits c l r (match poke (cl_buf c) (cl_num c) x with
                 | Some buf => Some (with_line c (u32 (cl_num c + 1)) eol buf, putnstr buf (cl_num c) 1)
                 | None => None end) (l ++ [x]) (tl r)) as Put.
  { intros eol Eeol Hf. rewrite En, Eb, poke_at. eexists _, _, _, _. split; [reflexivity|]. split.
    - apply (in_line_new c l r _ _ _ _ _ s I); [by rewrite <- app_assoc|rewrite Eb, !length_app; done| | |done|].
      + rewrite u32_small by lia. rewrite length_app. cbn [length]. lia.
      + rewrite length_app. cbn [length]. lia.
      + apply Forall_app. split; [|destruct Vr; [constructor|done]]. apply Forall_app. split; [done|]. by constructor.
    - intros pre t [Sl [n Sr]]. destruct t as [A B]. cbn in Sl, Sr. subst A B.
      change (l ++ x :: tl r ++ s) with (l ++ [x] ++ (tl r ++ s)). change 1 with (Z.of_nat (length [x])).
      rewrite putnstr_at, term_write by (by constructor). cbn [length].
      split; [cbn; by rewrite app_assoc|]. cbn [t_right]. destruct r as [|z r']; cbn [tl app].
      + exists (n - 1)%nat. apply drop_spaces.
      + by exists n. }
  destruct (Z.eqb_spec (cl_num c) (cl_eol c)) as [E|E]; cbn [andb].
  - assert (r = []) as Er by (destruct r; [done|cbn [length] in Ee; lia]).
    pose proof (il_len _ _ _ I). rewrite (u32_small (cl_len c - 1)) by lia. specialize (L Er).
    destruct (Z.ltb_spec (cl_len c - 1) (cl_eol c)); [lia|]. rewrite (u32_small (cl_eol c + 1)) by lia.
    apply Put; [rewrite Er; cbn [tl length]|]; lia.
  - assert (length r <> 0%nat) as Nr by lia.
    assert (Z.of_nat (length (tl r)) = Z.of_nat (length r) - 1) by (clear - Nr; destruct r; simpl in *; lia).
    pose proof (il_fits _ _ _ I). apply Put; lia.
Qed.
End Keys.

(** The text behind the cursor written one cell to the left, and a blank. *)
Lemma repaint w A x n : Forall visible w ->
  term_run (Term A (x :: w ++ spaces n)) (w ++ 32 :: replicate (length w + 1) BS) = Term A (w ++ spaces (S n)).
Proof.
  intros F. change (32 :: replicate (length w + 1) BS) with ([32] ++ replicate (length w + 1) BS). rewrite app_assoc, term_run_app.
  rewrite term_write by (apply Forall_app; split; [done|constructor; [unfold visible; lia|done]]).
  replace (length w + 1)%nat with (length (w ++ [32])) by (by rewrite length_app).
  rewrite term_back. f_equal. rewrite <- app_assoc. cbn [app]. f_equal. rewrite length_app, Nat.add_1_r. cbn [length drop].
  rewrite drop_app_length. done.
Qed.

Lemma delete_right_ok c l r : in_line c l r -> edits c l r (delete_right c) l (tl r).
Proof.
  intros I. destruct (room_left c l r I) as (junk & Et & Lj & Hm). destruct (line_visible c l r I) as [Vl Vr].
  pose proof (il_num _ _ _ I) as En. pose proof (il_eol _ _ _ I) as Ee. pose proof (il_fits _ _ _ I) as Ef. unfold delete_right.
  destruct r as [|x r']; cbn [length tl] in *.
  { destruct (Z.ltb_spec (cl_num c) (cl_eol c)); [lia|]. by apply edits_none. }
  apply Forall_cons in Vr as [Vx Vr]. destruct (Z.ltb_spec (cl_num c) (cl_eol c)); [|lia].
  replace (cl_eol c - cl_num c - 1) with (Z.of_nat (length r')) by lia.
  assert (exists s, (if negb (Z.of_nat (length r') =? 0) then move (cl_buf c) (cl_num c) (cl_num c + 1) (Z.of_nat (length r'))
            else Some (cl_buf c)) = Some (l ++ r' ++ s) /\ length (l ++ r' ++ s) = length (cl_buf c)) as (s & -> & Ls).
  { destruct (Z.eqb_spec (Z.of_nat (length r')) 0) as [E|_]; cbn [negb].
    { destruct r'; [|cbn [length] in E; lia]. exists (x :: junk). by rewrite Et. }
    rewrite En. replace (Z.of_nat (length l) + 1) with (Z.of_nat (length (l ++ [x]))) by (rewrite length_app; cbn [length]; lia).
    rewrite (move_at _ l (x :: r' ++ junk) (l ++ [x]) r' junk); [|by rewrite Et|by rewrite Et, <- app_assoc|].
    - eexists. split; [reflexivity|]. rewrite Et, !length_app, length_drop. cbn [length]. rewrite !length_app. lia.
    - rewrite Et, !length_app. cbn [length]. lia. }
  eexists _, _, _, _. split; [reflexivity|]. split.
  - apply (in_line_new c l (x :: r') l r' _ _ _ s I); [done|done|done|lia|lia|by apply Forall_app].
  - intros pre t [Sl [n Sr]]. destruct t as [A B]. cbn in Sl, Sr. subst A B. rewrite En, putnstr_at by done.
    unfold putchars. replace (Z.to_nat (Z.of_nat (length r') + 1)) with (length r' + 1)%nat by lia.
    assert ((if negb (Z.of_nat (length r') =? 0) then r' else []) = r') as ->.
    { destruct r'; [done|]. cbn [length]. by destruct (Z.eqb_spec (Z.of_nat (S (length r'))) 0); [lia|]. }
    rewrite repaint by done. split; [done|]. by exists (S n).
Qed.

Lemma delete_left_ok c l r x : in_line c (l ++ [x]) r -> edits c (l ++ [x]) r (delete_left c) l r.
Proof.
  intros I. destruct (room_left c _ r I) as (junk & Et & Lj & Hm). destruct (line_visible c _ r I) as [[Vl Vx]%Forall_app Vr].
  pose proof (il_num _ _ _ I) as En. pose proof (il_eol _ _ _ I) as Ee. pose proof (il_fits _ _ _ I) as Ef.
  rewrite length_app in En, Ee, Lj. cbn [length] in En, Ee, Lj. unfold MAX_LINE in Hm.
  unfold delete_left. destruct (Z.eqb_spec (cl_num c) 0) as [|_]; [lia|]. cbn [negb].
  rewrite !u32_small by lia. replace (cl_eol c - cl_num c) with (Z.of_nat (length r)) by lia.
  replace (cl_num c - 1) with (Z.of_nat (length l)) by lia.
  replace (Z.of_nat (length l) + 1) with (Z.of_nat (length (l ++ [x]))) by (rewrite length_app; cbn [length]; lia).
  rewrite (move_at _ l ([x] ++ r ++ junk) (l ++ [x]) r junk); [|by rewrite Et, <- app_assoc|done|].
  2:{ rewrite Et, !length_app. lia. }
  eexists _, _, _, _. split; [reflexivity|]. split.
  - apply (in_line_new c (l ++ [x]) r l r _ _ _ _ I eq_refl); [|done|lia|lia|by apply Forall_app].
    rewrite Et, !length_app, length_drop, !length_app. cbn [length]. lia.
  - intros pre t [Sl [n Sr]]. destruct t as [A B]. cbn in Sl, Sr. subst A B. rewrite putnstr_at by done.
    unfold putchars. replace (Z.to_nat (Z.of_nat (length r) + 1)) with (length r + 1)%nat by lia.
    rewrite app_assoc. change (BS :: r ++ 32 :: replicate (length r + 1) BS) with (replicate (length [x]) BS ++ (r ++ 32 :: replicate (length r + 1) BS)).
    rewrite term_run_app, term_back. cbn [app]. rewrite repaint by done. split; [done|]. by exists (S n).
Qed.

Lemma forward_ok c l r x : in_line c l (x :: r) ->
  peek (cl_buf c) (cl_num c) = Some x /\ cl_num c < cl_eol c /\
  in_line (with_line c (cl_num c + 1) (cl_eol c) (cl_buf c)) (l ++ [x]) r /\ paints [x] l (x :: r) (l ++ [x]) r.
Proof.
  intros I. pose proof (il_num _ _ _ I) as En. pose proof (il_eol _ _ _ I) as Ee. cbn [length] in Ee.
  destruct (il_text _ _ _ I) as [junk Et]. destruct (line_visible c _ _ I) as [Vl [Vx Vr]%Forall_cons]. split; [|split; [lia|split]].
  - unfold peek. rewrite En. destruct (Z.leb_spec 0 (Z.of_nat (length l))); [|lia].
    by rewrite Et, Nat2Z.id, lookup_app_r, Nat.sub_diag by lia.
  - replace (cl_num c + 1) with (Z.of_nat (length (l ++ [x]))) by (rewrite length_app; cbn [length]; lia).
    by apply (in_line_split c l (x :: r)); [|rewrite <- app_assoc].
  - intros pre t [Sl [n Sr]]. destruct t as [A B]. cbn in Sl, Sr. subst A B.
    rewrite term_write by (by constructor). cbn [length app drop]. split; [cbn; by rewrite app_assoc|by exists n].
Qed.

Lemma back_ok c l r x : in_line c (l ++ [x]) r ->
  cl_num c <> 0 /\
  in_line (with_line c (cl_num c - 1) (cl_eol c) (cl_buf c)) l (x :: r) /\ paints [BS] (l ++ [x]) r l (x :: r).
Proof.
  intros I. pose proof (il_num _ _ _ I) as En. rewrite length_app in En. cbn [length] in En. split; [lia|split].
  - replace (cl_num c - 1) with (Z.of_nat (length l)) by lia. by apply (in_line_split c (l ++ [x]) r); [|rewrite <- app_assoc].
  - intros pre t [Sl [n Sr]]. destruct t as [A B]. cbn in Sl, Sr. subst A B. rewrite app_assoc.
    change [BS] with (replicate (length [x]) BS). rewrite term_back. split; [done|by exists n].
Qed.

(** ** ^W *)

Lemma skip_spaces_ok p x q : x <> 32 -> forall k fuel, (k < fuel)%nat -> Z.of_nat (length p + k) <= MAX_LINE ->
  skip_spaces_back fuel (p ++ x :: spaces k ++ q) (Z.of_nat (length p + k)) = Some (Z.of_nat (length p)).
Proof.
  intros Hx k. revert q. induction k as [|k IH]; intros q fuel Hf Hm; destruct fuel as [|n]; try lia; cbn [skip_spaces_back].
  - unfold peek. destruct (Z.leb_spec 0 (Z.of_nat (length p + 0))); [|lia].
    rewrite Nat2Z.id, lookup_app_r by lia. replace (length p + 0 - length p)%nat with 0%nat by lia. cbn [lookup list_lookup].
    destruct (Z.eqb_spec x 32); [done|]. do 2 f_equal. lia.
  - unfold peek. destruct (Z.leb_spec 0 (Z.of_nat (length p + S k))); [|lia].
    replace (spaces (S k) ++ q) with (spaces k ++ [32] ++ q) by (unfold spaces; rewrite replicate_S_end, <- app_assoc; done).
    rewrite Nat2Z.id. replace ((p ++ x :: spaces k ++ [32] ++ q) !! (length p + S k)%nat) with (Some 32).
    2:{ replace (p ++ x :: spaces k ++ [32] ++ q) with ((p ++ x :: spaces k) ++ [32] ++ q) by (rewrite <- app_assoc; done).
        rewrite lookup_app_r; rewrite length_app; cbn [length]; unfold spaces; rewrite length_replicate; [|lia].
        by rewrite Nat.sub_diag. }
    change (32 =? 32) with true. cbn iota. unfold MAX_LINE in Hm. rewrite u32_small by lia.
    replace (Z.of_nat (length p + S k) - 1) with (Z.of_nat (length p + k)) by lia. apply IH; unfold MAX_LINE; lia.
Qed.

(** Blanks only: the unsigned index passes 0 and leaves the buffer. *)
Lemma skip_spaces_out k q : Z.of_nat (k + length q) <= MAX_LINE + 1 -> forall fuel, (k < fuel)%nat ->
  forall j, (j < k)%nat -> skip_spaces_back fuel (spaces k ++ q) (Z.of_nat j) = None.
Proof.
  intros Hm fuel Hf. assert (forall j fuel, (j < k)%nat -> skip_spaces_back fuel (spaces k ++ q) (Z.of_nat j) = None) as H; [|eauto].
  clear fuel Hf. induction j as [|j IH]; intros fuel Hj; destruct fuel as [|n]; try done; cbn [skip_spaces_back]; unfold peek at 1.
  all: destruct (Z.leb_spec 0 (Z.of_nat 0)); try lia.
  all: try (destruct (Z.leb_spec 0 (Z.of_nat (S j))); [|lia]); rewrite Nat2Z.id.
  all: rewrite lookup_app_l by (unfold spaces; rewrite length_replicate; lia).
  all: unfold spaces at 1; rewrite lookup_replicate_2 by lia; change (32 =? 32) with true; cbn iota.
  - destruct n as [|n]; [done|]. cbn [skip_spaces_back]. unfold peek. change (u32 (Z.of_nat 0 - 1)) with 4294967295.
    cbn [Z.leb]. rewrite lookup_ge_None_2; [done|]. rewrite length_app. unfold spaces. rewrite length_replicate. unfold MAX_LINE in Hm. lia.
  - unfold MAX_LINE in Hm. rewrite u32_small by lia. replace (Z.of_nat (S j) - 1) with (Z.of_nat j) by lia. apply IH. lia.
Qed.

Definition not_space (c : Z) : Prop := c <> 32.
(** Nothing, or something a word can follow. *)
Definition word_border (a : list Z) : Prop := a = [] \/ exists a', a = a' ++ [32].

Lemma skip_word_ok a q : word_border a -> forall w n, Forall not_space w -> (length w <= n)%nat -> (a = [] \/ length w < n)%nat ->
  skip_word_back n (a ++ w ++ q) (Z.of_nat (length a + length w)) = Some (Z.of_nat (length a)).
Proof.
  intros B w. revert q. induction w as [|x w IH] using rev_ind; intros q n F L M.
  - cbn [app length] in *. rewrite Nat.add_0_r. destruct n as [|n]; [by destruct M; [subst|lia]|]. cbn [skip_word_back].
    destruct B as [->|[a' ->]]; [done|]. destruct (Z.ltb_spec 0 (Z.of_nat (length (a' ++ [32])))) as [_|]; [|rewrite length_app in *; cbn [length] in *; lia].
    unfold peek. rewrite length_app. cbn [length]. destruct (Z.leb_spec 0 (Z.of_nat (length a' + 1) - 1)); [|lia].
    replace (Z.to_nat (Z.of_nat (length a' + 1) - 1)) with (length a') by lia.
    by rewrite <- app_assoc, lookup_app_r, Nat.sub_diag by lia.
  - rewrite length_app in *. cbn [length] in *. apply Forall_app in F as [F [Fx _]%Forall_cons]. unfold not_space in Fx.
    destruct n as [|n]; [lia|]. cbn [skip_word_back]. destruct (Z.ltb_spec 0 (Z.of_nat (length a + (length w + 1)))); [|lia].
    unfold peek. destruct (Z.leb_spec 0 (Z.of_nat (length a + (length w + 1)) - 1)); [|lia].
    replace (Z.to_nat (Z.of_nat (length a + (length w + 1)) - 1)) with (length a + length w)%nat by lia.
    rewrite <- app_assoc, lookup_app_r by lia. replace (length a + length w - length a)%nat with (length w) by lia.
    rewrite lookup_app_r, Nat.sub_diag by lia. cbn [app lookup list_lookup]. destruct (Z.eqb_spec x 32); [done|]. cbn [negb].
    replace (Z.of_nat (length a + (length w + 1)) - 1) with (Z.of_nat (length a + length w)) by lia.
    apply IH; [done|lia|destruct M; [by left|right; lia]].
Qed.

(** The text behind the cursor written [k] cells to the left, and blanks. *)
Lemma repaint_back A v w n : Forall visible w ->
  term_run (Term (A ++ v) (w ++ spaces n)) (replicate (length v) BS ++ w ++ spaces (length v) ++ replicate (length v + length w) BS) =
  Term A (w ++ spaces (length v + n)).
Proof.
  intros F. rewrite term_run_app, term_back, (app_assoc w (spaces (length v)) (replicate _ BS)), term_run_app.
  rewrite term_write by (apply Forall_app; split; [done|apply spaces_visible]).
  replace (length v + length w)%nat with (length (w ++ spaces (length v))) at 1
    by (rewrite length_app; unfold spaces; rewrite length_replicate; lia).
  rewrite term_back, <- app_assoc. f_equal. f_equal. rewrite length_app. unfold spaces at 2. rewrite length_replicate.
  rewrite (Nat.add_comm (length w)), app_assoc, drop_app_ge, length_app by (rewrite length_app; lia).
  replace (length v + length w - (length v + length w))%nat with 0%nat by lia. rewrite drop_0. unfold spaces. by rewrite <- replicate_add.
Qed.

Lemma erase_word_ok c a w k r : in_line c (a ++ w ++ spaces k) r -> terminated c (a ++ w ++ spaces k) r ->
  word_border a -> Forall not_space w -> w <> [] -> edits c (a ++ w ++ spaces k) r (erase_word c) a r.
Proof.
  intros I [junk Et] B Fw Nw. destruct (line_visible c _ r I) as [Vl Vr]. pose proof (il_room _ _ _ I) as R. pose proof (il_len _ _ _ I) as Hl.
  pose proof (il_num _ _ _ I) as En. pose proof (il_eol _ _ _ I) as Ee. pose proof (il_fits _ _ _ I) as Ef.
  destruct (exists_last Nw) as (w' & x & Ew). assert (length w = S (length w')) as Lw by (rewrite Ew, length_app; cbn [length]; lia).
  assert (not_space x /\ Forall not_space w') as [Hx Fw'] by (rewrite Ew in Fw; apply Forall_app in Fw as [? [? _]%Forall_cons]; done).
  assert (length (a ++ w ++ spaces k) = length a + length w + k)%nat as Ll by (rewrite !length_app; unfold spaces; rewrite length_replicate; lia).
  assert (length (cl_buf c) = length a + length w + k + length r + 1 + length junk)%nat as Lb
    by (rewrite Et, !length_app; unfold spaces; rewrite length_replicate; cbn [length]; lia).
  rewrite Ll in En, Ee. unfold erase_word. destruct (Z.eqb_spec (cl_num c) 0); [lia|].
  assert (cl_buf c = (a ++ w') ++ x :: spaces k ++ r ++ 0 :: junk) as E1 by (rewrite Et, Ew, <- !app_assoc; done).
  replace (cl_num c - 1) with (Z.of_nat (length (a ++ w') + k)) by (rewrite length_app; lia).
  rewrite E1 at 2. rewrite (skip_spaces_ok (a ++ w') x _ Hx) by (rewrite ?length_app; lia). rewrite E1 at 1. rewrite <- (app_assoc a w').
  rewrite Nat2Z.id, length_app, (skip_word_ok a _ B w') by (done || lia || (destruct a; [by left|right; cbn [length]; lia])).
  unfold MAX_LINE in Hl. rewrite En, Ee.
  rewrite (u32_small (Z.of_nat (length a + length w + k) - Z.of_nat (length a))), (u32_small (Z.of_nat _ + Z.of_nat (length r) - _)) by lia.
  rewrite !u32_small by lia.
  replace (Z.of_nat (length a + length w + k) + Z.of_nat (length r) - (Z.of_nat (length a + length w + k) - Z.of_nat (length a)) - Z.of_nat (length a) + 1)
    with (Z.of_nat (length (r ++ [0]))) by (rewrite length_app; cbn [length]; lia).
  rewrite <- Ll. rewrite (move_at _ a ((w ++ spaces k) ++ r ++ 0 :: junk) (a ++ w ++ spaces k) (r ++ [0]) junk).
  2:{ by rewrite Et, <- !app_assoc. } 2:{ by rewrite Et, <- !app_assoc. } 2:{ rewrite length_app; cbn [length]; lia. }
  eexists _, _, _, _. split; [reflexivity|]. rewrite Ll. split.
  - apply (in_line_new c _ r a r _ _ _ ([0] ++ drop (length (r ++ [0])) ((w ++ spaces k) ++ r ++ 0 :: junk)) I); [by rewrite <- !app_assoc| |done|lia|lia|].
    + rewrite Lb, !length_app, length_drop, !length_app. unfold spaces. rewrite length_replicate. cbn [length]. lia.
    + apply Forall_app in Vl as [Va _]. by apply Forall_app.
  - intros pre t [Sl [n' Sr]]. destruct t as [A C]. cbn in Sl, Sr. subst A C.
    rewrite Nat2Z.id, drop_app_length, <- app_assoc, cstr_app_plain by (by apply visible_plain). cbn [app].
    rewrite cstr_end, app_nil_r by done.
    unfold putchars. replace (Z.to_nat (Z.of_nat (length a + length w + k) - Z.of_nat (length a))) with (length (w ++ spaces k))
      by (rewrite length_app; unfold spaces; rewrite length_replicate; lia).
    replace (Z.to_nat _) with (length (w ++ spaces k) + length r)%nat by (rewrite length_app; unfold spaces; rewrite length_replicate; lia).
    rewrite (app_assoc pre a), repaint_back by done. split; [done|by eexists].
Qed.

(** ** The lines of the history *)

Lemma paints_trans o1 o2 l r l1 r1 l2 r2 : paints o1 l r l1 r1 -> paints o2 l1 r1 l2 r2 -> paints (o1 ++ o2) l r l2 r2.
Proof. intros P1 P2 pre t S. rewrite term_run_app. auto. Qed.

Lemma wipe_ok c l r : in_line c l r ->
  edits c l r (let (c, o1) := beginning_of_line c in let (c, o2) := erase_to_eol c in Some (c, o1 ++ o2)) [] [].
Proof.
  intros I. destruct (home_ok c l r I) as (n1 & e1 & b1 & o1 & E1 & I1 & P1).
  destruct (erase_ok _ _ _ I1) as (n2 & e2 & b2 & o2 & E2 & I2 & P2).
  apply (inj Some) in E1, E2. rewrite E1, E2.
  eexists n2, e2, b2, _. split; [reflexivity|]. split; [exact I2|]. by eapply paints_trans.
Qed.

Lemma show_hist_ok c l r line : in_line c l r -> Forall visible line -> Z.of_nat (length line) <= cl_len c ->
  edits c l r (show_hist line c) line [].
Proof.
  intros I V L. destruct (wipe_ok c l r I) as (n & e & b & o & E & I2 & P).
  unfold show_hist. destruct (beginning_of_line c) as [c1 o1]. destruct (erase_to_eol c1) as [c2 o2]. injection E as -> <-.
  pose proof (il_room _ _ _ I2) as R. pose proof (il_num _ _ _ I2) as En. cbn [with_line cl_len cl_buf cl_num length] in R, En |- *.
  rewrite cstr_plain by (by apply visible_plain). destruct (Z.ltb_spec (Z.of_nat (length b)) (Z.of_nat (length line) + 1)); [lia|].
  set (buf := store b 0 (line ++ [0])).
  assert (buf = line ++ 0 :: drop (length (line ++ [0])) b) as Eb 
    by (etransitivity; [exact (store_at [] b (line ++ [0]))|]; cbn [app]; by rewrite <- app_assoc).
  assert (strlen buf = Z.of_nat (length line)) as Es by (rewrite strlen_cstr, Eb, cstr_app_end by (by apply visible_plain); done).
  assert (in_line (with_line c n (strlen buf) buf) [] line) as I3.
  { apply (in_line_new _ _ _ _ _ _ _ _ (0 :: drop (length (line ++ [0])) b) I2); [done| |done|by rewrite Es|by rewrite Es|done].
    rewrite Eb, !length_app. cbn [length]. rewrite length_drop. cbn [length with_line cl_buf]. lia. }
  destruct (refresh_ok _ _ _ I3) as (n3 & e3 & b3 & o3 & E3 & I4 & P3).
  change (with_line (with_line c n e b) n (strlen buf) buf) with (with_line c n (strlen buf) buf).
  apply (inj Some) in E3. rewrite E3. eexists n3, e3, b3, _. split; [reflexivity|]. split; [exact I4|].
  rewrite app_assoc. eapply paints_trans; [exact P|]. intros pre t [Sl [m Sr]]. destruct t as [A B]. cbn in Sl, Sr. subst A B.
  assert (o3 = line) as ->.
  { unfold refresh_to_eol in E3. cbn [with_line cl_num cl_eol cl_buf] in E3. rewrite En, Es, ?Z.sub_0_r in E3. destruct (Z.ltb_spec (Z.of_nat 0) (Z.of_nat (length line))).
    - apply (f_equal snd) in E3; cbn [snd] in E3; rewrite <- E3. rewrite Eb. apply (putnstr_at [] line); done.
    - apply (f_equal snd) in E3; cbn [snd] in E3; rewrite <- E3. by destruct line; [|cbn [length] in *; lia]. }
  rewrite term_write by done. split; [cbn; by rewrite app_nil_r|]. cbn [app t_right]. rewrite drop_spaces. by eexists.
Qed.
