(* ===== verification/ReadlineRun.v ===== *)
(** The line editor against its specification: an editor of the text in front
    of the cursor and the text behind it, run over any sequence of keys; and
    the history as the list of the lines entered: the ring of [HIST_MAX]
    buffers shows the last [HIST_MAX - 1] of them, newest first going back,
    and the way forth again. *)

From S2P Require Import Prelude Bytes Cstring CstringProps CliGetch Readline ReadlineProps.

(** * The abstract editor *)

Record editor := Ed { ed_left : list Z; ed_right : list Z; ed_insert : bool; ed_hist : history }.

Fixpoint skip_while (p : Z -> bool) (l : list Z) : list Z :=
  match l with [] => [] | x :: l' => if p x then skip_while p l' else l end.
Definition is_blank (c : Z) : bool := c =? 32.

(** What ^W leaves of the text in front of the cursor; on blanks only the code
    leaves the buffer. *)
Definition without_word (l : list Z) : option (list Z) :=
  match skip_while is_blank (rev l) with
  | [] => match l with [] => Some [] | _ => None end
  | w => Some (rev (skip_while (fun c => negb (is_blank c)) w))
  end.

Definition set_text (e : editor) (l r : list Z) : editor := Ed l r (ed_insert e) (ed_hist e).
Definition ed_full (len : Z) (e : editor) : bool := len <=? Z.of_nat (length (ed_left e ++ ed_right e)).

(** A line of the history, or none. *)
Definition ed_recall (e : editor) (res : option (list Z) * history) : editor :=
  match res with
  | (Some line, h) => Ed line [] (ed_insert e) h
  | (None, h) => Ed (ed_left e) (ed_right e) (ed_insert e) h
  end.

Definition ed_type (len : Z) (e : editor) (k : Z) : editor :=
  if (ed_insert e || bool_decide (ed_right e = [])) && ed_full len e then e
  else set_text e (ed_left e ++ [k]) (if ed_insert e then ed_right e else tl (ed_right e)).

Definition ed_step (len : Z) (e : editor) (k : Z) : option editor :=
  let l := ed_left e in
  let r := ed_right e in
  if k =? 1 then Some (set_text e [] (l ++ r))
  else if k =? 6 then Some (match r with [] => e | x :: r' => set_text e (l ++ [x]) r' end)
  else if k =? 2 then Some (match rev l with [] => e | x :: l' => set_text e (rev l') (x :: r) end)
  else if k =? 4 then Some (set_text e l (tl r))
  else if k =? 11 then Some (set_text e l [])
  else if k =? 5 then Some (set_text e (l ++ r) [])
  else if k =? 15 then Some (Ed l r (negb (ed_insert e)) (ed_hist e))
  else if k =? 23 then option_map (fun l => set_text e l r) (without_word l)
  else if (k =? 24) || (k =? 21) then Some (set_text e [] [])
  else if (k =? 255) || (k =? 127) || (k =? 8) then Some (match rev l with [] => e | _ :: l' => set_text e (rev l') r end)
  else if k =? 16 then Some (ed_recall e (hist_prev (ed_hist e)))
  else if k =? 14 then Some (ed_recall e (hist_next (ed_hist e)))
  else Some (ed_type len e k).

Fixpoint ed_run (len : Z) (e : editor) (ks : list Z) : option editor :=
  match ks with [] => Some e | k :: ks' => match ed_step len e k with None => None | Some e => ed_run len e ks' end end.

(** The keys: the editing keys and the visible characters. *)
Definition edit_char (k : Z) : Prop :=
  k ∈ [1; 2; 4; 5; 6; 8; 11; 14; 15; 16; 21; 23; 24; 127; 255] \/ visible k.

(** The code, key after key. *)
Fixpoint process_keys (complete : list Z -> Z -> option (list Z * Z) * list Z) (c : cli_line_state) (h : history) (ks : list Z)
  : option (cli_line_state * history * list Z) :=
  match ks with
  | [] => Some (c, h, [])
  | k :: ks' =>
      match cread_line_process_ch complete c h k with
      | None => None
      | Some (_, c, h, out) => option_map (fun '(c, h, out') => (c, h, out ++ out')) (process_keys complete c h ks')
      end
  end.

(** * The words *)

Lemma skip_while_split p l : exists u, l = u ++ skip_while p l /\ Forall (fun x => p x = true) u /\
  match skip_while p l with [] => True | x :: _ => p x = false end.
Proof.
  induction l as [|x l (u & E & F & L)]; [by exists []|]. cbn [skip_while]. destruct (p x) eqn:P.
  - exists (x :: u). split; [cbn; by rewrite <- E|]. split; [by constructor|done].
  - exists []. split; [done|]. split; [constructor|done].
Qed.

Lemma blanks_only u : Forall (fun x => is_blank x = true) u -> u = spaces (length u).
Proof. induction 1 as [|x u Hx F IH]; [done|]. apply Z.eqb_eq in Hx as ->. cbn. by f_equal. Qed.

Lemma rev_spaces k : rev (spaces k) = spaces k.
Proof.
  unfold spaces. induction k as [|k IH]; [done|]. cbn [replicate rev]. by rewrite IH, <- replicate_S_end.
Qed.

Lemma without_word_cases l :
  (exists k, l = spaces k /\ without_word l = match k with O => Some [] | S _ => None end) \/
  (exists a w k, l = a ++ w ++ spaces k /\ word_border a /\ Forall not_space w /\ w <> [] /\ without_word l = Some a).
Proof.
  destruct (skip_while_split is_blank (rev l)) as (u & E & F & L). unfold without_word.
  apply blanks_only in F. set (s := skip_while is_blank (rev l)) in *. clearbody s. apply (f_equal (@rev Z)) in E. rewrite rev_involutive, rev_app_distr in E.
  rewrite F, rev_spaces in E. destruct s as [|x s]; [left; exists (length u); split; [done|]|right].
  { rewrite E. cbn [rev app]. destruct u; done. }
  destruct (skip_while_split (fun c => negb (is_blank c)) (x :: s)) as (w & Ew & Fw & Lw).
  set (t := skip_while _ (x :: s)) in *. clearbody t.
  exists (rev t), (rev w), (length u). split; [rewrite E, Ew, rev_app_distr; by rewrite <- app_assoc|]. split; [|split; [|split; [|done]]].
  - destruct t as [|y t]; [by left|right]. exists (rev t). apply negb_false_iff, Z.eqb_eq in Lw as ->. done.
  - apply Forall_rev. eapply Forall_impl; [exact Fw|]. intros y Hy. apply negb_true_iff, Z.eqb_neq in Hy. done.
  - intros Ez. apply (f_equal (@rev Z)) in Ez. rewrite rev_involutive in Ez. subst w. cbn in Ew. subst t.
    by rewrite L in Lw.
Qed.

(** * One key *)

Definition hist_fits (len : Z) (h : history) : Prop :=
  Forall (fun line => Forall visible line /\ Z.of_nat (length line) <= len) (hist_list h).

(** The state of the code that stands for the editor [e]. *)
Record implements (len : Z) (c : cli_line_state) (h : history) (e : editor) : Prop := {
  im_line : in_line c (ed_left e) (ed_right e);
  im_len : cl_len c = len;
  im_insert : cl_insert c = ed_insert e;
  im_on : cl_history c = true;
  im_hist : h = ed_hist e;
  im_fits : hist_fits len h
}.

Definition simulates (len : Z) (e : editor) (res : option (cli_line_state * history * list Z)) (e' : option editor) : Prop :=
  match e' with
  | None => res = None
  | Some e' => exists c h out, res = Some (c, h, out) /\ implements len c h e' /\
                 paints out (ed_left e) (ed_right e) (ed_left e') (ed_right e')
  end.

Lemma hist_at_fits len h i : 0 <= len -> hist_fits len h -> Forall visible (hist_at h i) /\ Z.of_nat (length (hist_at h i)) <= len.
Proof.
  intros H F. unfold hist_at. destruct (hist_list h !! Z.to_nat i) as [line|] eqn:E.
  - rewrite (list_lookup_total_correct _ _ _ E). exact (proj1 (Forall_lookup _ _) F _ _ E).
  - rewrite list_lookup_total_alt, E. cbn. split; [constructor|lia].
Qed.

Lemma set_text_same e : set_text e (ed_left e) (ed_right e) = e.
Proof. by destruct e. Qed.

Section OneKey.
Context (complete : list Z -> Z -> option (list Z * Z) * list Z).
Context (len : Z) (c : cli_line_state) (h : history) (e : editor) (M : implements len c h e).

(** What a key does to the text alone. *)
Lemma edits_simulates res l' r' :
  edits c (ed_left e) (ed_right e) res l' r' -> simulates len e (option_map (fun '(c, out) => (c, h, out)) res) (Some (set_text e l' r')).
Proof using M.
  intros (num & eol & buf & out & -> & I & P). destruct M as [_ El Ei Eo Eh Ef]. eexists _, _, _. split; [reflexivity|].
  split; [|exact P]. by split.
Qed.

Lemma stays_simulates out : paints out (ed_left e) (ed_right e) (ed_left e) (ed_right e) -> simulates len e (Some (c, h, out)) (Some e).
Proof using M. intros P. by exists c, h, out. Qed.

(** A line of the history, if there is one. *)
Lemma recall_simulates res :
  hist_list (snd res) = hist_list h -> (forall line, fst res = Some line -> Forall visible line /\ Z.of_nat (length line) <= len) ->
  simulates len e (let (hline, h) := res in
                   match hline with
                   | None => Some (c, h, [BEEP])
                   | Some line => option_map (fun '(c, out) => (c, h, out)) (show_hist line c)
                   end) (Some (ed_recall e res)).
Proof using M.
  intros El Ef. destruct M as [I L Ei Eo Eh F]. destruct res as [[line|] h']; cbn [fst snd ed_recall] in *.
  - destruct (Ef line eq_refl) as [V Ll]. rewrite <- L in Ll. destruct (show_hist_ok c _ _ line I V Ll) as (num & eol & buf & out & -> & I' & P).
    eexists _, _, _. split; [reflexivity|]. split; [|exact P]. split; try done. unfold hist_fits. by rewrite El.
  - exists c, h', [BEEP]. split; [done|]. split; [|apply paints_beep]. split; try done. unfold hist_fits. by rewrite El.
Qed.

Lemma type_simulates k : visible k ->
  simulates len e (option_map (fun '(c, out) => (c, h, out)) (cread_add_char k (cl_insert c) c)) (Some (ed_type len e k)).
Proof using M.
  intros V. pose proof (im_line _ _ _ _ M) as I. pose proof (im_len _ _ _ _ M) as L. pose proof (im_insert _ _ _ _ M) as Ei.
  pose proof (il_fits _ _ _ I) as Ef. rewrite (il_eol _ _ _ I) in Ef. unfold ed_type, ed_full. rewrite length_app, Ei.
  destruct (Z.leb_spec len (Z.of_nat (length (ed_left e) + length (ed_right e)))) as [H|H]; cycle 1.
  - rewrite andb_false_r. apply edits_simulates. destruct (ed_insert e); [apply insert_ok; [done|done|lia]|].
    apply overtype_ok; [done|done|]. intros E. rewrite E in H. cbn [length] in H. lia.
  - rewrite andb_true_r. destruct (ed_insert e || bool_decide (ed_right e = [])) eqn:G.
    + rewrite (add_full c _ _ I k _ G) by lia. apply stays_simulates, paints_beep.
    + apply orb_false_iff in G as [-> G]. apply bool_decide_eq_false in G. apply edits_simulates, overtype_ok; done.
Qed.
End OneKey.

Lemma hist_prev_fits len h : 0 <= len -> hist_fits len h ->
  hist_list (snd (hist_prev h)) = hist_list h /\ (forall line, fst (hist_prev h) = Some line -> Forall visible line /\ Z.of_nat (length line) <= len).
Proof.
  intros L F. unfold hist_prev. destruct (hist_cur h <? 0); [done|].
  match goal with |- context [if ?b then _ else _] => destruct b end; split; cbn; try done; intros line [= <-]; by apply hist_at_fits.
Qed.

Lemma hist_next_fits len h : 0 <= len -> hist_fits len h ->
  hist_list (snd (hist_next h)) = hist_list h /\ (forall line, fst (hist_next h) = Some line -> Forall visible line /\ Z.of_nat (length line) <= len).
Proof.
  intros L F. unfold hist_next. destruct (hist_cur h <? 0); [done|]. destruct (hist_cur h =? hist_add_idx h); [done|].
  split; [done|]. cbn [fst]. intros line [= <-]. match goal with |- context [if ?b then _ else _] => destruct b end; [|by apply hist_at_fits].
  all: try (match goal with |- context [if ?b then _ else _] => destruct b end); try by apply hist_at_fits.
  all: split; [constructor|cbn; lia].
Qed.

Section Step.
Context (complete : list Z -> Z -> option (list Z * Z) * list Z).
Context (len : Z) (c : cli_line_state) (h : history) (e : editor) (M : implements len c h e).

Lemma forward_simulates :
  simulates len e (if cl_num c <? cl_eol c then
                     match peek (cl_buf c) (cl_num c) with
                     | None => None
                     | Some x => Some (with_line c (cl_num c + 1) (cl_eol c) (cl_buf c), h, [x])
                     end
                   else Some (c, h, []))
    (Some (match ed_right e with [] => e | x :: r' => set_text e (ed_left e ++ [x]) r' end)).
Proof using M.
  destruct e as [l r ins hh]. pose proof (im_line _ _ _ _ M) as I. cbn [ed_left ed_right] in *. destruct r as [|x r].
  - rewrite (il_eol _ _ _ I), (il_num _ _ _ I). cbn [length]. rewrite Z.add_0_r, Z.ltb_irrefl. apply stays_simulates; [done|apply paints_none].
  - destruct (forward_ok _ _ _ _ I) as (-> & Lt & I' & P). apply Z.ltb_lt in Lt as ->.
    apply (edits_simulates len c h _ M (Some (_, _))). by eexists _, _, _, _.
Qed.

Lemma back_simulates :
  simulates len e (if negb (cl_num c =? 0) then Some (with_line c (cl_num c - 1) (cl_eol c) (cl_buf c), h, [BS]) else Some (c, h, []))
    (Some (match rev (ed_left e) with [] => e | x :: l' => set_text e (rev l') (x :: ed_right e) end)).
Proof using M.
  destruct e as [l r ins hh]. pose proof (im_line _ _ _ _ M) as I. cbn [ed_left ed_right] in *.
  destruct l as [|x l _] using rev_ind.
  - rewrite (il_num _ _ _ I). cbn [length rev]. apply stays_simulates; [done|apply paints_none].
  - rewrite rev_app_distr. cbn [rev app]. rewrite rev_involutive. destruct (back_ok _ _ _ _ I) as (N & I' & P).
    apply Z.eqb_neq in N as ->. apply (edits_simulates len c h _ M (Some (_, _))). by eexists _, _, _, _.
Qed.

Lemma rubout_simulates :
  simulates len e (option_map (fun '(c, out) => (c, h, out)) (delete_left c))
    (Some (match rev (ed_left e) with [] => e | _ :: l' => set_text e (rev l') (ed_right e) end)).
Proof using M.
  destruct e as [l r ins hh]. pose proof (im_line _ _ _ _ M) as I. cbn [ed_left ed_right] in *.
  destruct l as [|x l _] using rev_ind.
  - unfold delete_left. rewrite (il_num _ _ _ I). cbn [length rev]. apply stays_simulates; [done|apply paints_none].
  - rewrite rev_app_distr. cbn [rev app]. rewrite rev_involutive. by apply (edits_simulates len c h _ M), delete_left_ok.
Qed.

Lemma erase_word_simulates : terminated c (ed_left e) (ed_right e) ->
  simulates len e (option_map (fun '(c, out) => (c, h, out)) (erase_word c))
    (option_map (fun l => set_text e l (ed_right e)) (without_word (ed_left e))).
Proof using M.
  intros T. pose proof (im_line _ _ _ _ M) as I. destruct (without_word_cases (ed_left e)) as [([|k] & E & ->)|(a & w & k & E & B & Fw & Nw & ->)].
  - cbn [option_map]. change (spaces 0) with (@nil Z) in E. rewrite <- E, set_text_same. unfold erase_word. rewrite (il_num _ _ _ I), E. cbn [length].
    apply stays_simulates; [done|apply paints_none].
  - cbn [option_map simulates]. unfold erase_word. rewrite (il_num _ _ _ I), E. unfold spaces at 1 2. rewrite length_replicate.
    destruct (Z.eqb_spec (Z.of_nat (S k)) 0); [lia|]. destruct (il_text _ _ _ I) as [junk Et]. rewrite E in Et.
    pose proof (il_room _ _ _ I) as R. pose proof (il_len _ _ _ I) as L. assert (length (cl_buf c) = S k + length (ed_right e ++ junk))%nat as Lb
      by (rewrite Et, length_app; unfold spaces; by rewrite length_replicate).
    replace (Z.of_nat (S k) - 1) with (Z.of_nat k) by lia. rewrite Et at 2. rewrite skip_spaces_out; [done|lia|lia|lia].
  - cbn [option_map]. rewrite E in I, T. apply (edits_simulates len c h _ M). rewrite E. by apply erase_word_ok.
Qed.
End Step.

(** * Any keys *)

Lemma edit_key_simulates complete len c h e k :
  implements len c h e -> terminated c (ed_left e) (ed_right e) -> edit_char k ->
  simulates len e (edit_key complete c h k) (ed_step len e k).
Proof.
  intros M T K. pose proof (im_line _ _ _ _ M) as I. assert (0 <= len) as Hl by (pose proof (il_len _ _ _ I); pose proof (im_len _ _ _ _ M); lia).
  unfold edit_key, ed_step.
  destruct (Z.eqb_spec k 1); [by apply (edits_simulates len c h e M), home_ok|].
  destruct (Z.eqb_spec k 6); [by apply forward_simulates|].
  destruct (Z.eqb_spec k 2); [by apply back_simulates|].
  destruct (Z.eqb_spec k 4); [by apply (edits_simulates len c h e M), delete_right_ok|].
  destruct (Z.eqb_spec k 11); [by apply (edits_simulates len c h e M), erase_ok|].
  destruct (Z.eqb_spec k 5); [by apply (edits_simulates len c h e M), refresh_ok|].
  destruct (Z.eqb_spec k 15).
  { eexists _, _, _. split; [reflexivity|]. split; [|apply paints_none]. destruct M as [Il L Ei Eo Eh F].
    split; cbn [cl_len cl_insert cl_history ed_left ed_right ed_insert ed_hist]; try done; [|by rewrite Ei]. by destruct Il; split. }
  destruct (Z.eqb_spec k 23); [by apply erase_word_simulates|].
  destruct ((k =? 24) || (k =? 21)) eqn:U.
  { generalize (edits_simulates len c h e M _ _ _ (wipe_ok _ _ _ I)).
    unfold beginning_of_line. by destruct (erase_to_eol _) as [c2 o2]. }
  destruct ((k =? 255) || (k =? 127) || (k =? 8)) eqn:D; [by apply rubout_simulates|].
  destruct (Z.eqb_spec k 16) as [->|].
  { cbn [orb]. rewrite (im_on _ _ _ _ M). change (16 =? 16) with true. cbn iota. destruct (hist_prev_fits len h Hl (im_fits _ _ _ _ M)) as [E F].
    rewrite <- (im_hist _ _ _ _ M). exact (recall_simulates len c h e M (hist_prev h) E F). }
  destruct (Z.eqb_spec k 14) as [->|].
  { cbn [orb]. rewrite (im_on _ _ _ _ M). change (14 =? 16) with false. cbn iota. destruct (hist_next_fits len h Hl (im_fits _ _ _ _ M)) as [E F].
    rewrite <- (im_hist _ _ _ _ M). exact (recall_simulates len c h e M (hist_next h) E F). }
  assert (visible k) as V.
  { destruct K as [K|K]; [|done]. exfalso. apply orb_false_iff in D as [[D1 D2]%orb_false_iff D3]. apply Z.eqb_neq in D1, D2, D3.
    apply orb_false_iff in U as [U1 U2]. apply Z.eqb_neq in U1, U2. apply list_elem_of_In in K. simpl in K. lia. }
  cbn [orb]. destruct (Z.eqb_spec k 9); [unfold visible in V; lia|]. cbn [andb]. by apply type_simulates.
Qed.

(** The state between two keys. *)
Definition settled_line (len : Z) (c : cli_line_state) (h : history) (e : editor) : Prop :=
  implements len c h e /\ terminated c (ed_left e) (ed_right e).

Lemma process_ch_simulates complete len c h e k :
  settled_line len c h e -> edit_char k ->
  match ed_step len e k with
  | None => cread_line_process_ch complete c h k = None
  | Some e' => exists c' h' out, cread_line_process_ch complete c h k = Some (- EAGAIN, c', h', out) /\ settled_line len c' h' e' /\
                 paints out (ed_left e) (ed_right e) (ed_left e') (ed_right e')
  end.
Proof.
  intros [M T] K. pose proof (edit_key_simulates complete len c h e k M T K) as S. unfold cread_line_process_ch.
  assert (k <> 0 /\ k <> 10 /\ k <> 3) as (N0 & N10 & N3).
  { destruct K as [K|K]; [apply list_elem_of_In in K; simpl in K|unfold visible in K]; lia. }
  apply Z.eqb_neq in N0, N10, N3. rewrite N0, N10, N3. unfold simulates in S. destruct (ed_step len e k) as [e'|]; [|by rewrite S].
  destruct S as (c' & h' & out & -> & M' & P). destruct (poke_end c' _ _ (im_line _ _ _ _ M')) as (buf & -> & I' & T').
  eexists _, h', out. split; [reflexivity|]. split; [|exact P]. destruct M' as [_ L Ei Eo Eh F]. split; [by split|exact T'].
Qed.


Definition demo_hist : history := Hist 1 1 1 1 [[98; 111; 111; 116]; []; []].
Definition demo_cls : cli_line_state := Cls 0 0 8 true true false (replicate 9 0).

(** * What is done with a history *)

Inductive hist_event := HEnter (line : list Z) | HPrev | HNext.

(** The end of [cread_line], and the keys ^P and ^N. *)
Definition hist_enter (HIST_MAX : Z) (line : list Z) (h : history) : history :=
  let h := cread_add_to_hist HIST_MAX line h in with_cur h (hist_add_idx h).

Definition hist_event_step (HIST_MAX : Z) (h : history) (ev : hist_event) : option (list Z) * history :=
  match ev with HEnter line => (None, hist_enter HIST_MAX line h) | HPrev => hist_prev h | HNext => hist_next h end.
Fixpoint hist_events (HIST_MAX : Z) (h : history) (evs : list hist_event) : list (option (list Z)) * history :=
  match evs with
  | [] => ([], h)
  | ev :: evs' => let (o, h) := hist_event_step HIST_MAX h ev in let (os, h) := hist_events HIST_MAX h evs' in (o :: os, h)
  end.

(** * The specification: the lines, oldest first, and how far back one is *)

Record past := Past { past_lines : list (list Z); past_back : nat }.

Definition past_reach (HIST_MAX : Z) (ls : list (list Z)) : nat := Nat.min (length ls) (Z.to_nat HIST_MAX - 1).

Definition past_step (HIST_MAX : Z) (s : past) (ev : hist_event) : option (list Z) * past :=
  let ls := past_lines s in
  let p := past_back s in
  match ev with
  | HEnter line => (None, Past (ls ++ [cstr line]) 0)
  | HPrev => if decide (p < past_reach HIST_MAX ls)%nat then (Some (ls !!! (length ls - S p)%nat), Past ls (S p)) else (None, s)
  | HNext =>
      match p with
      | O => (None, s)
      | S p' => (Some (match p' with O => [] | _ => ls !!! (length ls - p')%nat end), Past ls p')
      end
  end.
Fixpoint past_events (HIST_MAX : Z) (s : past) (evs : list hist_event) : list (option (list Z)) * past :=
  match evs with
  | [] => ([], s)
  | ev :: evs' => let (o, s) := past_step HIST_MAX s ev in let (os, s) := past_events HIST_MAX s evs' in (o :: os, s)
  end.

(** * The ring *)

Section Ring.
Context (M : Z) (HM : 2 <= M).

Record ring (h : history) (s : past) : Prop := {
  rg_size : length (hist_list h) = Z.to_nat M;
  rg_idx : hist_add_idx h = Z.of_nat (length (past_lines s)) mod M;
  rg_max : hist_max h = Z.min (Z.of_nat (length (past_lines s))) (M - 1);
  rg_kept : forall j, (j < length (past_lines s))%nat -> Z.of_nat (length (past_lines s)) - M <= Z.of_nat j ->
              hist_at h (Z.of_nat j mod M) = past_lines s !!! j;
  rg_back : (past_back s <= past_reach M (past_lines s))%nat;
  rg_cur : hist_cur h = (Z.of_nat (length (past_lines s)) - Z.of_nat (past_back s)) mod M \/
           (hist_cur h = -1 /\ past_lines s = [])
}.

(** One step back on the ring, and one forth. *)
Lemma mod_pred x : 0 <= x -> (if x mod M - 1 <? 0 then M - 1 else x mod M - 1) = (x - 1) mod M.
Proof using HM.
  intros Hx. pose proof (Z.mod_pos_bound x M ltac:(lia)). destruct (Z.ltb_spec (x mod M - 1) 0).
  - apply Z.mod_unique with (x / M - 1); [lia|]. pose proof (Z.div_mod x M ltac:(lia)). nia.
  - apply Z.mod_unique with (x / M); [lia|]. pose proof (Z.div_mod x M ltac:(lia)). nia.
Qed.
Lemma mod_succ x : (if M - 1 <? x mod M + 1 then 0 else x mod M + 1) = (x + 1) mod M.
Proof using HM.
  pose proof (Z.mod_pos_bound x M ltac:(lia)). pose proof (Z.div_mod x M ltac:(lia)). destruct (Z.ltb_spec (M - 1) (x mod M + 1)).
  - apply Z.mod_unique with (x / M + 1); nia.
  - apply Z.mod_unique with (x / M); nia.
Qed.

(** Places less than the size of the ring apart are different. *)
Lemma mod_apart x y : 0 < x - y < M -> x mod M <> y mod M.
Proof using HM.
  intros H E. assert ((x - y) mod M = 0) as Z0 by (rewrite Zminus_mod, E, Z.sub_diag; apply Z.mod_0_l; lia).
  rewrite Z.mod_small in Z0 by lia. lia.
Qed.

Lemma ring_init : ring (hist_init M) (Past [] 0).
Proof using HM.
  split; cbn [past_lines past_back length hist_init hist_list hist_add_idx hist_max hist_cur]; try done.
  - apply length_replicate.
  - rewrite Z.min_l; [done|]. lia.
  - intros. lia.
  - by right.
Qed.

Lemma enter_ring h s line : ring h s -> ring (hist_enter M line h) (Past (past_lines s ++ [cstr line]) 0).
Proof using HM.
  intros [Es Ei Em Ek Eb Ec]. destruct s as [ls p]. cbn [past_lines past_back] in *. pose proof (Z.mod_pos_bound (Z.of_nat (length ls)) M ltac:(lia)) as B.
  assert (forall b : Z, (if M <=? b then 0 else b) = if M - 1 <? b then 0 else b) as Sw.
  { intros b. destruct (Z.leb_spec M b), (Z.ltb_spec (M - 1) b); done || lia. }
  split; cbn [past_lines past_back hist_enter cread_add_to_hist with_cur hist_list hist_add_idx hist_max hist_cur].
  - by rewrite length_insert.
  - rewrite Ei, Sw, mod_succ, length_app. cbn [length]. f_equal. lia.
  - rewrite Ei, Sw, mod_succ, Em, length_app. cbn [length]. replace (Z.of_nat (length ls + 1)) with (Z.of_nat (length ls) + 1) by lia.
    pose proof (Z.mod_pos_bound (Z.of_nat (length ls) + 1) M ltac:(lia)).
    destruct (Z_lt_ge_dec (Z.of_nat (length ls) + 1) M); [rewrite Z.mod_small by lia|];
      match goal with |- context [if ?b then _ else _] => destruct b eqn:Q end; lia.
  - intros j Lj Hj. rewrite length_app in Lj, Hj. cbn [length] in Lj, Hj. unfold hist_at, hist_enter, with_cur, cread_add_to_hist. cbn [hist_list]. rewrite Ei.
    destruct (decide (j = length ls)) as [->|N].
    + rewrite list_lookup_total_insert_eq by lia. by rewrite lookup_total_app_r, Nat.sub_diag by lia.
    + rewrite list_lookup_total_insert_ne.
      * rewrite lookup_total_app_l by lia. apply Ek; lia.
      * intros E. pose proof (Z.mod_pos_bound (Z.of_nat j) M ltac:(lia)). apply (mod_apart (Z.of_nat (length ls)) (Z.of_nat j)); lia.
  - lia.
  - left. rewrite Ei, Sw, mod_succ, length_app. cbn [length]. f_equal. lia.
Qed.

Lemma prev_ring h s : ring h s -> fst (hist_prev h) = fst (past_step M s HPrev) /\ ring (snd (hist_prev h)) (snd (past_step M s HPrev)).
Proof using HM.
  intros R. pose proof R as [Es Ei Em Ek Eb Ec]. destruct s as [ls p]. unfold past_reach in Eb. cbn [past_lines past_back past_step] in *.
  unfold hist_prev. destruct Ec as [Ec|[Ec ->]]; [|by rewrite Ec; cbn; rewrite decide_False by lia].
  pose proof (Z.mod_pos_bound (Z.of_nat (length ls) - Z.of_nat p) M ltac:(lia)) as B. rewrite Ec, Ei.
  destruct (Z.ltb_spec ((Z.of_nat (length ls) - Z.of_nat p) mod M) 0); [lia|].
  set (k := Z.of_nat (length ls)) in *. destruct (decide (p < past_reach M ls)%nat) as [D|D]; unfold past_reach in D.
  - assert ((if (k - Z.of_nat p) mod M - 1 <? 0 then hist_max h else (k - Z.of_nat p) mod M - 1) = (k - Z.of_nat p - 1) mod M) as ->.
    { destruct (Z_lt_ge_dec k M).
      - rewrite !Z.mod_small by lia. by destruct (Z.ltb_spec (k - Z.of_nat p - 1) 0); [lia|].
      - rewrite Em, Z.min_r by lia. apply mod_pred. lia. }
    destruct (Z.eqb_spec ((k - Z.of_nat p - 1) mod M) (k mod M)) as [E|_].
    { symmetry in E. apply mod_apart in E; [done|lia]. }
    cbn [fst snd]. split.
    + f_equal. replace (k - Z.of_nat p - 1) with (Z.of_nat (length ls - S p)) by lia. apply Ek; lia.
    + split; cbn [past_lines past_back with_cur hist_list hist_add_idx hist_max hist_cur]; try done.
      left. f_equal. lia.
  - assert ((if (k - Z.of_nat p) mod M - 1 <? 0 then hist_max h else (k - Z.of_nat p) mod M - 1) = k mod M) as ->.
    { destruct (Z_lt_ge_dec k M).
      - rewrite !Z.mod_small by lia. destruct (Z.ltb_spec (k - Z.of_nat p - 1) 0); lia.
      - rewrite Em, Z.min_r, mod_pred by lia. replace k with (k - Z.of_nat p - 1 + 1 * M) at 2 by lia. by rewrite Z.mod_add by lia. }
    rewrite Z.eqb_refl. cbn [fst snd]. split; [done|]. rewrite <- Ec. by destruct h.
Qed.

Lemma next_ring h s : ring h s -> fst (hist_next h) = fst (past_step M s HNext) /\ ring (snd (hist_next h)) (snd (past_step M s HNext)).
Proof using HM.
  intros R. pose proof R as [Es Ei Em Ek Eb Ec]. destruct s as [ls p]. unfold past_reach in Eb. cbn [past_lines past_back past_step] in *.
  unfold hist_next. destruct Ec as [Ec|[Ec ->]]; [|rewrite Ec; cbn in Eb; destruct p; [done|lia]].
  set (k := Z.of_nat (length ls)) in *. pose proof (Z.mod_pos_bound (k - Z.of_nat p) M ltac:(lia)) as B. rewrite Ec, Ei.
  destruct (Z.ltb_spec ((k - Z.of_nat p) mod M) 0); [lia|]. destruct p as [|p].
  { rewrite Z.sub_0_r, Z.eqb_refl. done. }
  destruct (Z.eqb_spec ((k - Z.of_nat (S p)) mod M) (k mod M)) as [E|_].
  { symmetry in E. apply mod_apart in E; [done|lia]. }
  assert ((if hist_max h <? (k - Z.of_nat (S p)) mod M + 1 then 0 else (k - Z.of_nat (S p)) mod M + 1) = (k - Z.of_nat p) mod M) as ->.
  { destruct (Z_lt_ge_dec k M).
    - rewrite Em, !Z.mod_small by lia. destruct (Z.ltb_spec (Z.min k (M - 1)) (k - Z.of_nat (S p) + 1)); lia.
    - rewrite Em, Z.min_r, mod_succ by lia. f_equal. lia. }
  cbn [fst snd]. split.
  - f_equal. destruct p as [|p]; [by rewrite Z.sub_0_r, Z.eqb_refl|].
    destruct (Z.eqb_spec ((k - Z.of_nat (S p)) mod M) (k mod M)) as [E|_].
    { symmetry in E. apply mod_apart in E; [done|lia]. }
    replace (k - Z.of_nat (S p)) with (Z.of_nat (length ls - S p)) by lia. apply Ek; lia.
  - split; cbn [past_lines past_back with_cur hist_list hist_add_idx hist_max hist_cur]; try done; [unfold past_reach; cbn [past_lines]; lia|by left].
Qed.

(** The next place of the loop that prints the history. *)
Lemma print_next h s q : ring h s -> (q <= past_reach M (past_lines s))%nat ->
  let k := Z.of_nat (length (past_lines s)) in
  k - Z.of_nat q + 1 <= k \/ M <= k ->
  (if hist_max h <? (k - Z.of_nat q) mod M + 1 then 0 else (k - Z.of_nat q) mod M + 1) = (k - Z.of_nat q + 1) mod M.
Proof using HM.
  intros [Es Ei Em Ek Eb Ec] Hq k C. unfold past_reach in Hq. rewrite Em. fold k. destruct (Z_lt_ge_dec k M).
  - rewrite !Z.mod_small by lia. destruct (Z.ltb_spec (Z.min k (M - 1)) (k - Z.of_nat q + 1)); lia.
  - rewrite Z.min_r, mod_succ by lia. done.
Qed.

Lemma print_loop_ok h s : ring h s -> let k := Z.of_nat (length (past_lines s)) in
  forall q fuel i, (q <= past_reach M (past_lines s))%nat -> (q < fuel)%nat ->
  (if hist_max h <? i then 0 else i) = (k - Z.of_nat q) mod M ->
  print_hist_loop fuel i h = Some (drop (length (past_lines s) - q) (past_lines s)).
Proof using HM.
  intros R k. pose proof R as [Es Ei Em Ek Eb Ec]. induction q as [|q IH]; intros fuel i Hq Hf E; destruct fuel as [|n]; try lia; cbn [print_hist_loop]; rewrite E, Ei.
  - rewrite Z.sub_0_r, Z.eqb_refl, Nat.sub_0_r, drop_all. done.
  - unfold past_reach in Hq. destruct (Z.eqb_spec ((k - Z.of_nat (S q)) mod M) (Z.of_nat (length (past_lines s)) mod M)) as [Q|_].
    { symmetry in Q. apply mod_apart in Q; [done|lia]. }
    rewrite IH; [|unfold past_reach; lia|lia|].
    2:{ unfold k. rewrite (print_next h s (S q) R); [f_equal; lia|unfold past_reach; lia|left; lia]. }
    cbn [option_map]. f_equal. replace (k - Z.of_nat (S q)) with (Z.of_nat (length (past_lines s) - S q)) by lia. rewrite Ek by lia.
    replace (length (past_lines s) - q)%nat with (S (length (past_lines s) - S q)) by lia.
    symmetry. apply drop_S, list_lookup_lookup_total_lt. lia.
Qed.

Lemma print_ok h s : ring h s ->
  cread_print_hist_list M h = Some (drop (length (past_lines s) - past_reach M (past_lines s)) (past_lines s)).
Proof using HM.
  intros R. pose proof R as [Es Ei Em Ek Eb Ec]. apply (print_loop_ok h s R); [lia|unfold past_reach; lia|].
  rewrite Ei, Em. unfold past_reach. set (k := Z.of_nat (length (past_lines s))). destruct (Z_lt_ge_dec k M).
  - rewrite (Z.mod_small k) by lia. destruct (Z.ltb_spec (Z.min k (M - 1)) (k + 1)); [|lia].
    replace (k - _) with 0 by lia. by rewrite Z.mod_0_l by lia.
  - rewrite Z.min_r, mod_succ by lia. replace (k + 1) with (k - Z.of_nat (Nat.min (length (past_lines s)) (Z.to_nat M - 1)) + 1 * M) by lia.
    by rewrite Z.mod_add by lia.
Qed.

Lemma events_ring evs : forall h s, ring h s ->
  fst (hist_events M h evs) = fst (past_events M s evs) /\ ring (snd (hist_events M h evs)) (snd (past_events M s evs)).
Proof using HM.
  induction evs as [|ev evs IH]; intros h s R; [done|]. cbn [hist_events past_events].
  assert (fst (hist_event_step M h ev) = fst (past_step M s ev) /\ ring (snd (hist_event_step M h ev)) (snd (past_step M s ev))) as [E R'].
  { destruct ev; [split; [done|by apply enter_ring]|by apply prev_ring|by apply next_ring]. }
  destruct (hist_event_step M h ev) as [o h1], (past_step M s ev) as [o' s1]. cbn [fst snd] in E, R'. subst o'.
  specialize (IH h1 s1 R') as [E2 R2]. destruct (hist_events M h1 evs) as [os h2], (past_events M s1 evs) as [os' s2]. cbn [fst snd] in *. by subst.
Qed.
End Ring.

(** The command history implements the list of the lines entered.  For any
    sequence of lines entered and of steps back and forth, the ring of
    [HIST_MAX] buffers answers as that list does: a step back gives the next
    older line until the oldest of the last [HIST_MAX - 1] is reached, where it
    gives none and the place is kept; a step forth gives the next newer line,
    then the empty line, then none; and the printed history is those last lines,
    oldest first. *)
Theorem hist_refines HIST_MAX evs : 2 <= HIST_MAX ->
  let (outs, h) := hist_events HIST_MAX (hist_init HIST_MAX) evs in
  let (outs', s) := past_events HIST_MAX (Past [] 0) evs in
  outs = outs' /\
  cread_print_hist_list HIST_MAX h = Some (drop (length (past_lines s) - past_reach HIST_MAX (past_lines s)) (past_lines s)).
Proof.
  intros HM. pose proof (events_ring HIST_MAX HM evs _ _ (ring_init HIST_MAX HM)) as [E R].
  destruct (hist_events _ _ evs) as [outs h], (past_events _ _ evs) as [outs' s]. cbn [fst snd] in *. split; [done|]. by apply print_ok.
Qed.

(** Four lines in a history of three, of which two are shown. *)
Lemma hist_refines_witness :
  let evs := [HEnter [97]; HEnter [98]; HEnter [99]; HEnter [100]; HPrev; HPrev; HPrev; HNext; HNext; HNext] in
  let (outs, h) := hist_events 3 (hist_init 3) evs in
  outs = [None; None; None; None; Some [100]; Some [99]; None; Some [100]; Some []; None] /\
  cread_print_hist_list 3 h = Some [[99]; [100]].
Proof.
  generalize (hist_refines 3 [HEnter [97]; HEnter [98]; HEnter [99]; HEnter [100]; HPrev; HPrev; HPrev; HNext; HNext; HNext] ltac:(lia)).
  vm_compute. exact (fun H => H).
Defined.
