(* ===== verification/Dm.v ===== *)
(** The driver model (drivers/core/device.c, device-remove.c, uclass.c and the
    lookups of lists.c): devices, their drivers and uclasses, and the life of
    a device from binding to probing, removal and unbinding.

    Devices and buffers live in a heap: a pointer is a number, handed out in
    increasing order, [dm_devs] holds the devices and [dm_heap] the buffers
    that are allocated.  Using a device that is not there, or freeing a buffer
    that is not allocated, is [Fault]; a recursion deeper than the fuel is
    [Hangs].  Intrusive lists are the lists of their members.  The methods of
    drivers and uclasses are computations on the whole state, so they may call
    back into the driver model.  Names are values, so a name that was allocated
    is not freed.  CONFIG_DM_DEVICE_REMOVE is on, OF_PLATDATA and
    its variants are off. *)

From stdpp Require Import gmap.
From S2P Require Import Prelude Bytes Cstring.

Definition EPFNOSUPPORT : Z := 96.
Definition EDEADLK : Z := 35.
Definition EKEYREJECTED : Z := 129.
Definition EPROBE_DEFER : Z := 517.

(** * Flags *)

Definition DM_FLAG_ACTIVATED : Z := 1.
Definition DM_FLAG_ALLOC_PDATA : Z := 2.
Definition DM_FLAG_PRE_RELOC : Z := 4.
Definition DM_FLAG_ALLOC_PARENT_PDATA : Z := 8.
Definition DM_FLAG_ALLOC_UCLASS_PDATA : Z := 16.
Definition DM_FLAG_BOUND : Z := 64.
Definition DM_FLAG_NAME_ALLOCED : Z := 128.
Definition DM_FLAG_ACTIVE_DMA : Z := 512.
Definition DM_FLAG_OS_PREPARE : Z := 1024.
Definition DM_FLAG_DEFAULT_PD_CTRL_OFF : Z := 2048.
Definition DM_FLAG_PLATDATA_VALID : Z := 4096.
Definition DM_FLAG_LEAVE_PD_ON : Z := 8192.
Definition DM_FLAG_VITAL : Z := 16384.

Definition DM_REMOVE_NORMAL : Z := 1.
Definition DM_REMOVE_NO_PD : Z := 2.
Definition DM_REMOVE_ACTIVE_ALL : Z := 1536.
Definition DM_REMOVE_NON_VITAL : Z := 16384.

Definition DM_UC_FLAG_SEQ_ALIAS : Z := 1.
Definition DM_UC_FLAG_NO_AUTO_SEQ : Z := 2.

Definition has_flag (x f : Z) : bool := negb (Z.land x f =? 0).

(** * The state *)

Record udevice := Dev {
  driver : Z; dev_name : list Z;
  plat_ : option Z; parent_plat_ : option Z; uclass_plat_ : option Z;
  driver_data : Z; parent : option Z;
  priv_ : option Z; uclass_priv_ : option Z; parent_priv_ : option Z;
  dev_uclass : Z; child_head : list Z; flags_ : Z; seq_ : Z; node_ : option Z; dma_offset : Z
}.

(** [uc_mem] is where the structure lies. *)
Record uclass := Uc { uc_drv : Z; uc_mem : Z; uc_priv : option Z; dev_head : list Z }.

(** What a computation gives. *)
Inductive result (A : Type) := Ok (a : A) | Fault | Hangs.
Arguments Ok {A} a.
Arguments Fault {A}.
Arguments Hangs {A}.

(** [W] is the state of everything outside the driver model. *)
Record dm (W : Type) := Dm {
  dm_devs : gmap Z udevice; dm_ucs : list uclass; dm_up : bool; dm_root : option Z;
  dm_heap : gset Z; dm_next : Z; dm_world : W
}.
Arguments Dm {W} _ _ _ _ _ _ _.
Arguments dm_devs {W} _.
Arguments dm_ucs {W} _.
Arguments dm_up {W} _.
Arguments dm_root {W} _.
Arguments dm_heap {W} _.
Arguments dm_next {W} _.
Arguments dm_world {W} _.

Section Monad.
Context {W : Type}.

Definition M (A : Type) : Type := dm W -> result (A * dm W).
Definition ret {A} (a : A) : M A := fun s => Ok (a, s).
Definition bind {A B} (m : M A) (k : A -> M B) : M B :=
  fun s => match m s with Ok (a, s') => k a s' | Fault => Fault | Hangs => Hangs end.
Definition hook : Type := Z -> M Z.

Definition set_devs (s : dm W) (m : gmap Z udevice) : dm W :=
  Dm m (dm_ucs s) (dm_up s) (dm_root s) (dm_heap s) (dm_next s) (dm_world s).
Definition set_ucs (s : dm W) (l : list uclass) : dm W :=
  Dm (dm_devs s) l (dm_up s) (dm_root s) (dm_heap s) (dm_next s) (dm_world s).
Definition set_heap (s : dm W) (hp : gset Z) (n : Z) : dm W :=
  Dm (dm_devs s) (dm_ucs s) (dm_up s) (dm_root s) hp n (dm_world s).
Definition set_world (s : dm W) (w : W) : dm W :=
  Dm (dm_devs s) (dm_ucs s) (dm_up s) (dm_root s) (dm_heap s) (dm_next s) w.
Definition set_root (s : dm W) (r : option Z) : dm W :=
  Dm (dm_devs s) (dm_ucs s) (dm_up s) r (dm_heap s) (dm_next s) (dm_world s).

Definition get_dev (d : Z) : M udevice := fun s => match dm_devs s !! d with Some u => Ok (u, s) | None => Fault end.
Definition upd_dev (d : Z) (f : udevice -> udevice) : M unit :=
  fun s => match dm_devs s !! d with Some u => Ok (tt, set_devs s (<[d := f u]> (dm_devs s))) | None => Fault end.
End Monad.

Notation "'let!' x ':=' m 'in' k" := (bind m (fun x => k)) (at level 10, x pattern, m at level 200, k at level 200) : uboot_scope.
Notation "m ;; k" := (bind m (fun _ => k)) (at level 100, right associativity) : uboot_scope.

(** ** Fields of a device *)

Definition with_flags_ (u : udevice) (f : Z) : udevice :=
  Dev (driver u) (dev_name u) (plat_ u) (parent_plat_ u) (uclass_plat_ u) (driver_data u) (parent u) (priv_ u)
    (uclass_priv_ u) (parent_priv_ u) (dev_uclass u) (child_head u) f (seq_ u) (node_ u) (dma_offset u).
Definition with_children (u : udevice) (l : list Z) : udevice :=
  Dev (driver u) (dev_name u) (plat_ u) (parent_plat_ u) (uclass_plat_ u) (driver_data u) (parent u) (priv_ u)
    (uclass_priv_ u) (parent_priv_ u) (dev_uclass u) l (flags_ u) (seq_ u) (node_ u) (dma_offset u).
Definition with_plats (u : udevice) (p pp up : option Z) : udevice :=
  Dev (driver u) (dev_name u) p pp up (driver_data u) (parent u) (priv_ u)
    (uclass_priv_ u) (parent_priv_ u) (dev_uclass u) (child_head u) (flags_ u) (seq_ u) (node_ u) (dma_offset u).
Definition with_privs (u : udevice) (p up pp : option Z) : udevice :=
  Dev (driver u) (dev_name u) (plat_ u) (parent_plat_ u) (uclass_plat_ u) (driver_data u) (parent u) p
    up pp (dev_uclass u) (child_head u) (flags_ u) (seq_ u) (node_ u) (dma_offset u).
Definition with_dma (u : udevice) (o : Z) : udevice :=
  Dev (driver u) (dev_name u) (plat_ u) (parent_plat_ u) (uclass_plat_ u) (driver_data u) (parent u) (priv_ u)
    (uclass_priv_ u) (parent_priv_ u) (dev_uclass u) (child_head u) (flags_ u) (seq_ u) (node_ u) o.
Definition with_parent (u : udevice) (p : option Z) : udevice :=
  Dev (driver u) (dev_name u) (plat_ u) (parent_plat_ u) (uclass_plat_ u) (driver_data u) p (priv_ u)
    (uclass_priv_ u) (parent_priv_ u) (dev_uclass u) (child_head u) (flags_ u) (seq_ u) (node_ u) (dma_offset u).

Definition dev_set_plat (u : udevice) (p : option Z) : udevice := with_plats u p (parent_plat_ u) (uclass_plat_ u).
Definition dev_set_parent_plat (u : udevice) (p : option Z) : udevice := with_plats u (plat_ u) p (uclass_plat_ u).
Definition dev_set_uclass_plat (u : udevice) (p : option Z) : udevice := with_plats u (plat_ u) (parent_plat_ u) p.
Definition dev_set_priv (u : udevice) (p : option Z) : udevice := with_privs u p (uclass_priv_ u) (parent_priv_ u).
Definition dev_set_uclass_priv (u : udevice) (p : option Z) : udevice := with_privs u (priv_ u) p (parent_priv_ u).
Definition dev_set_parent_priv (u : udevice) (p : option Z) : udevice := with_privs u (priv_ u) (uclass_priv_ u) p.

Definition or_flags (f : Z) (u : udevice) : udevice := with_flags_ u (Z.lor (flags_ u) f).
Definition bic_flags (f : Z) (u : udevice) : udevice := with_flags_ u (Z.land (flags_ u) (Z.lnot f)).

(** * Drivers *)

Record driver_rec {W : Type} := Driver {
  drv_name : list Z; drv_id : Z; drv_flags : Z;
  plat_auto : Z; priv_auto : Z; per_child_auto : Z; per_child_plat_auto : Z;
  drv_bind : option (@hook W); drv_probe : option (@hook W); drv_remove : option (@hook W); drv_unbind : option (@hook W);
  drv_of_to_plat : option (@hook W); drv_child_post_bind : option (@hook W); drv_child_pre_probe : option (@hook W);
  drv_child_post_remove : option (@hook W)
}.
Arguments driver_rec W : clear implicits.

Record uclass_driver {W : Type} := UclassDriver {
  uc_name : list Z; uc_id : Z; uc_flags : Z;
  uc_priv_auto : Z; per_device_auto : Z; per_device_plat_auto : Z; uc_per_child_auto : Z; uc_per_child_plat_auto : Z;
  uc_post_bind : option (@hook W); uc_pre_unbind : option (@hook W); uc_pre_probe : option (@hook W);
  uc_post_probe : option (@hook W); uc_pre_remove : option (@hook W); uc_child_post_bind : option (@hook W);
  uc_child_pre_probe : option (@hook W); uc_child_post_probe : option (@hook W);
  uc_init : option (@hook W); uc_destroy : option (@hook W)
}.
Arguments uclass_driver W : clear implicits.

Inductive dm_event := EVT_DM_PRE_PROBE | EVT_DM_POST_PROBE | EVT_DM_PRE_REMOVE | EVT_DM_POST_REMOVE.

(** The code around the driver model: memory, events, power domains, pin
    control, IOMMUs, clocks, managed resources and the device tree. *)
Record dm_ext {W : Type} := Ext {
  mem_ok : Z -> bool;
  device_notify : dm_event -> @hook W;
  power_domain : bool; dev_power_domain_on : @hook W; dev_power_domain_off : @hook W; cur_serial_dev : option Z;
  pinctrl_select_state : @hook W;
  iommu : bool; dev_iommu_enable : @hook W;
  dm_dma : bool; dev_get_dma_range : Z -> @M W (Z * Z);
  clk_set_defaults : @hook W;
  devres_release_all : @hook W; devres_release_probe : @hook W;
  seq_alias : bool; dev_read_alias_seq : udevice -> option Z; dev_read_alias_highest_id : list Z -> Z;
  UCLASS_POWER_DOMAIN : Z; UCLASS_PINCTRL : Z; UCLASS_IOMMU : Z
}.
Arguments dm_ext W : clear implicits.

Section DriverModel.
Context {W : Type} (drivers : list (driver_rec W)) (uclass_drivers : list (uclass_driver W)) (ext : dm_ext W).

#[local] Abbreviation M := (@M W).
#[local] Abbreviation hook := (@hook W).

(** ** The linker lists (lists.c) *)

Fixpoint driver_index (i : Z) (l : list (driver_rec W)) (name : list Z) : option Z :=
  match l with
  | [] => None
  | e :: l' => if strcmp name (drv_name e) =? 0 then Some i else driver_index (i + 1) l' name
  end.
Definition lists_driver_lookup_name (name : list Z) : option Z := driver_index 0 drivers name.

Definition lists_uclass_lookup (id : Z) : option (uclass_driver W) := find (fun e => uc_id e =? id) uclass_drivers.

(** ** Small steps *)

Definition or_hook (h : option hook) (d : Z) : M Z := match h with Some f => f d | None => ret 0 end.

Definition get_drv (i : Z) : M (driver_rec W) :=
  fun s => if 0 <=? i then match drivers !! Z.to_nat i with Some v => Ok (v, s) | None => Fault end else Fault.
Definition drv_of (d : Z) : M (driver_rec W) := let! u := get_dev d in get_drv (driver u).

Definition uc_get (id : Z) : M uclass :=
  fun s => match find (fun uc => uc_drv uc =? id) (dm_ucs s) with Some uc => Ok (uc, s) | None => Fault end.
Definition upd_uc (id : Z) (f : uclass -> uclass) : M unit :=
  fun s => Ok (tt, set_ucs s (map (fun uc => if uc_drv uc =? id then f uc else uc) (dm_ucs s))).
(** [uc->uc_drv] and [dev->uclass->uc_drv] *)
Definition get_uc_drv (id : Z) : M (uclass_driver W) :=
  uc_get id ;; fun s => match lists_uclass_lookup id with Some v => Ok (v, s) | None => Fault end.
Definition uc_drv_of (d : Z) : M (uclass_driver W) := let! u := get_dev d in get_uc_drv (dev_uclass u).

Definition dev_get_flags (d : Z) : M Z := let! u := get_dev d in ret (flags_ u).
Definition dev_or_flags (d f : Z) : M unit := upd_dev d (or_flags f).
Definition dev_bic_flags (d f : Z) : M unit := upd_dev d (bic_flags f).
Definition dev_get_parent (d : Z) : M (option Z) := let! u := get_dev d in ret (parent u).

Definition calloc : M (option Z) :=
  fun s =>
    let p := dm_next s in
    if mem_ok ext p then Ok (Some p, set_heap s ({[p]} ∪ dm_heap s) (p + 1)) else Ok (None, set_heap s (dm_heap s) (p + 1)).
Definition free (p : option Z) : M unit :=
  fun s =>
    match p with
    | None => Ok (tt, s)
    | Some p => if decide (p ∈ dm_heap s) then Ok (tt, set_heap s (dm_heap s ∖ {[p]}) (dm_next s)) else Fault
    end.

(** Memory for a device, and giving it back. *)
Definition calloc_dev (u : udevice) : M (option Z) :=
  fun s =>
    let p := dm_next s in
    if mem_ok ext p
    then Ok (Some p, Dm (<[p := u]> (dm_devs s)) (dm_ucs s) (dm_up s) (dm_root s) (dm_heap s) (p + 1) (dm_world s))
    else Ok (None, set_heap s (dm_heap s) (p + 1)).
Definition free_dev (d : Z) : M unit :=
  fun s => match dm_devs s !! d with Some _ => Ok (tt, set_devs s (delete d (dm_devs s))) | None => Fault end.

(** [list_del] on the list of the parent and on that of the uclass. *)
Definition without (d : Z) (l : list Z) : list Z := List.filter (fun x => negb (x =? d)) l.
Definition del_sibling (d : Z) : M unit :=
  let! u := get_dev d in
  match parent u with None => ret tt | Some p => upd_dev p (fun pu => with_children pu (without d (child_head pu))) end.
Definition del_uclass_node (d : Z) : M unit :=
  let! u := get_dev d in upd_uc (dev_uclass u) (fun uc => Uc (uc_drv uc) (uc_mem uc) (uc_priv uc) (without d (dev_head uc))).

(** ** Uclasses (uclass.c) *)

Definition uclass_find (key : Z) : M (option Z) :=
  fun s =>
    match dm_root s with
    | None => Ok (None, s)
    | Some _ => Ok (option_map uc_drv (find (fun uc => uc_drv uc =? key) (dm_ucs s)), s)
    end.

(** The result and the uclass. *)
Definition uclass_add (id : Z) : M (Z * option Z) :=
  match lists_uclass_lookup id with
  | None => ret (- EPFNOSUPPORT, None)
  | Some uc =>
      let! mem := calloc in
      match mem with
      | None => ret (- ENOMEM, None)
      | Some m =>
          let! priv := if negb (uc_priv_auto uc =? 0) then calloc else ret None in
          if negb (uc_priv_auto uc =? 0) && bool_decide (priv = None) then free (Some m) ;; ret (- ENOMEM, None)
          else
            (fun s => Ok (tt, set_ucs s (Uc id m priv [] :: dm_ucs s))) ;;
            let! r := or_hook (uc_init uc) id in
            if negb (r =? 0) then
              (if negb (uc_priv_auto uc =? 0) then free priv else ret tt) ;;
              (fun s => Ok (tt, set_ucs s (List.filter (fun c => negb (uc_drv c =? id)) (dm_ucs s)))) ;;
              free (Some m) ;; ret (r, None)
            else ret (0, Some id)
      end
  end.

Definition uclass_get (id : Z) : M (Z * option Z) :=
  fun s =>
    if negb (dm_up s) then Ok (- EDEADLK, None, s)
    else (let! uc := uclass_find id in
          match uc with Some uc => ret (0, Some uc) | None => uclass_add id end) s.

Definition uclass_find_next_free_seq (id : Z) : M Z :=
  let! uc := uc_get id in
  let! ucd := get_uc_drv id in
  let max := if seq_alias ext && has_flag (uc_flags ucd) DM_UC_FLAG_SEQ_ALIAS then dev_read_alias_highest_id ext (uc_name ucd) else -1 in
  (fix go (l : list Z) (max : Z) : M Z :=
     match l with
     | [] => ret (s32 (max + 1))
     | d :: l' => let! u := get_dev d in go l' (if max <? seq_ u then seq_ u else max)
     end) (dev_head uc) max.

Definition uclass_bind_device (d : Z) : M Z :=
  let! u := get_dev d in
  upd_uc (dev_uclass u) (fun uc => Uc (uc_drv uc) (uc_mem uc) (uc_priv uc) (dev_head uc ++ [d])) ;;
  match parent u with
  | None => ret 0
  | Some p =>
      let! ucd := uc_drv_of p in
      let! r := or_hook (uc_child_post_bind ucd) d in
      if negb (r =? 0) then del_uclass_node d ;; ret r else ret 0
  end.
Definition uclass_pre_unbind_device (d : Z) : M Z := let! ucd := uc_drv_of d in or_hook (uc_pre_unbind ucd) d.
Definition uclass_unbind_device (d : Z) : M Z := del_uclass_node d ;; ret 0.

Definition uclass_pre_probe_device (d : Z) : M Z :=
  let! ucd := uc_drv_of d in
  let! r := or_hook (uc_pre_probe ucd) d in
  if negb (r =? 0) then ret r
  else
    let! p := dev_get_parent d in
    match p with None => ret 0 | Some p => let! ucd := uc_drv_of p in or_hook (uc_child_pre_probe ucd) d end.
Definition uclass_post_probe_device (d : Z) : M Z :=
  let! p := dev_get_parent d in
  let! r := match p with None => ret 0 | Some p => let! ucd := uc_drv_of p in or_hook (uc_child_post_probe ucd) d end in
  if negb (r =? 0) then ret r else let! ucd := uc_drv_of d in or_hook (uc_post_probe ucd) d.
Definition uclass_pre_remove_device (d : Z) : M Z := let! ucd := uc_drv_of d in or_hook (uc_pre_remove ucd) d.

(** ** Binding (device.c) *)

(** The clean-up of [device_bind_common], from the last label to the first. *)
Definition fail_alloc1 (d r : Z) : M (Z * option Z) := devres_release_all ext d ;; free_dev d ;; ret (r, None).
Definition fail_alloc2 (d r : Z) : M (Z * option Z) :=
  let! u := get_dev d in
  (if has_flag (flags_ u) DM_FLAG_ALLOC_PDATA then free (plat_ u) ;; upd_dev d (fun u => dev_set_plat u None) else ret tt) ;;
  fail_alloc1 d r.
Definition fail_alloc3 (d r : Z) : M (Z * option Z) :=
  let! u := get_dev d in
  (if has_flag (flags_ u) DM_FLAG_ALLOC_UCLASS_PDATA then free (uclass_plat_ u) ;; upd_dev d (fun u => dev_set_uclass_plat u None)
   else ret tt) ;;
  fail_alloc2 d r.
Definition fail_uclass_bind (d r : Z) : M (Z * option Z) :=
  del_sibling d ;;
  let! u := get_dev d in
  (if has_flag (flags_ u) DM_FLAG_ALLOC_PARENT_PDATA then free (parent_plat_ u) ;; upd_dev d (fun u => dev_set_parent_plat u None)
   else ret tt) ;;
  fail_alloc3 d r.
Definition fail_bind (d r : Z) : M (Z * option Z) := uclass_unbind_device d ;; fail_uclass_bind d r.
Definition fail_child_post_bind (d r : Z) : M (Z * option Z) :=
  let! v := drv_of d in or_hook (drv_unbind v) d ;; fail_bind d r.

(** From the uclass's list on. *)
Definition bind_hooks (d : Z) (par : option Z) : M (Z * option Z) :=
  let! r := uclass_bind_device d in
  if negb (r =? 0) then fail_uclass_bind d r
  else
    let! v := drv_of d in
    let! r := or_hook (drv_bind v) d in
    if negb (r =? 0) then fail_bind d r
    else
      let! r := match par with None => ret 0 | Some p => let! pv := drv_of p in or_hook (drv_child_post_bind pv) d end in
      if negb (r =? 0) then fail_child_post_bind d r
      else
        let! ucd := uc_drv_of d in
        let! r := or_hook (uc_post_bind ucd) d in
        if negb (r =? 0) then fail_child_post_bind d r else dev_or_flags d DM_FLAG_BOUND ;; ret (0, Some d).

(** The memory the parent wants for each child, and its list. *)
Definition bind_parent (d : Z) (par : option Z) : M (Z * option Z) :=
  match par with
  | None => bind_hooks d par
  | Some p =>
      let! pv := drv_of p in
      let! pucd := uc_drv_of p in
      let size := if per_child_plat_auto pv =? 0 then uc_per_child_plat_auto pucd else per_child_plat_auto pv in
      let! r :=
        if negb (size =? 0) then
          dev_or_flags d DM_FLAG_ALLOC_PARENT_PDATA ;;
          let! ptr := calloc in
          match ptr with None => ret (- ENOMEM) | Some _ => upd_dev d (fun u => dev_set_parent_plat u ptr) ;; ret 0 end
        else ret 0 in
      if negb (r =? 0) then fail_alloc3 d r
      else upd_dev p (fun pu => with_children pu (child_head pu ++ [d])) ;; bind_hooks d par
  end.

(** The memory the uclass wants for each device. *)
Definition bind_uclass_plat (d : Z) (ucd : uclass_driver W) (par : option Z) : M (Z * option Z) :=
  if negb (per_device_plat_auto ucd =? 0) then
    dev_or_flags d DM_FLAG_ALLOC_UCLASS_PDATA ;;
    let! ptr := calloc in
    match ptr with
    | None => fail_alloc2 d (- ENOMEM)
    | Some _ => upd_dev d (fun u => dev_set_uclass_plat u ptr) ;; bind_parent d par
    end
  else bind_parent d par.

Definition bind_plat (d : Z) (v : driver_rec W) (ucd : uclass_driver W) (plat : option Z) (par : option Z) : M (Z * option Z) :=
  if negb (plat_auto v =? 0) && bool_decide (plat = None) then
    dev_or_flags d DM_FLAG_ALLOC_PDATA ;;
    let! ptr := calloc in
    match ptr with
    | None => fail_alloc1 d (- ENOMEM)
    | Some _ => upd_dev d (fun u => dev_set_plat u ptr) ;; bind_uclass_plat d ucd par
    end
  else bind_uclass_plat d ucd par.

Definition device_bind_common (par : option Z) (drv : Z) (name : option (list Z)) (plat : option Z) (data : Z) (node : option Z)
  : M (Z * option Z) :=
  match name with
  | None => ret (- EINVAL, None)
  | Some name =>
      let! v := get_drv drv in
      let! got := uclass_get (drv_id v) in
      let (r, uc) := (got : Z * option Z) in
      if negb (r =? 0) then ret (r, None)
      else
        let uc := default 0 uc in
        let! ucd := get_uc_drv uc in
        let u0 := Dev drv name plat None None data par None None None uc [] 0 (-1) node 0 in
        let! d := calloc_dev u0 in
        match d with
        | None => ret (- ENOMEM, None)
        | Some d =>
            let alias := if seq_alias ext && has_flag (uc_flags ucd) DM_UC_FLAG_SEQ_ALIAS && bool_decide (node <> None)
                         then dev_read_alias_seq ext u0 else None in
            let! seq := match alias with
                        | Some q => ret q
                        | None => if has_flag (uc_flags ucd) DM_UC_FLAG_NO_AUTO_SEQ then ret (-1) else uclass_find_next_free_seq uc
                        end in
            upd_dev d (fun u => Dev (driver u) (dev_name u) (plat_ u) (parent_plat_ u) (uclass_plat_ u) (driver_data u) (parent u)
                                  (priv_ u) (uclass_priv_ u) (parent_priv_ u) (dev_uclass u) (child_head u) (flags_ u) seq
                                  (node_ u) (dma_offset u)) ;;
            bind_plat d v ucd plat par
        end
  end.

Definition device_bind_with_driver_data (par : option Z) (drv : Z) (name : option (list Z)) (data : Z) (node : option Z) : M (Z * option Z) :=
  device_bind_common par drv name None data node.
Definition device_bind (par : option Z) (drv : Z) (name : option (list Z)) (plat node : option Z) : M (Z * option Z) :=
  device_bind_common par drv name plat 0 node.
Definition device_bind_by_name (par : option Z) (pre_reloc_only : bool) (info_name : list Z) (plat : option Z) : M (Z * option Z) :=
  match lists_driver_lookup_name info_name with
  | None => ret (- ENOENT, None)
  | Some drv =>
      let! v := get_drv drv in
      if pre_reloc_only && negb (has_flag (drv_flags v) DM_FLAG_PRE_RELOC) then ret (- EPERM, None)
      else device_bind_common par drv (Some info_name) plat 0 None
  end.

(** ** Memory of a device in use *)

Definition per_child_size (p : Z) : M Z :=
  let! pv := drv_of p in
  if negb (per_child_auto pv =? 0) then ret (per_child_auto pv) else let! pucd := uc_drv_of p in ret (uc_per_child_auto pucd).

(** [set] stores new memory unless there is some already. *)
Definition alloc_slot (d size : Z) (slot : udevice -> option Z) (set : udevice -> option Z -> udevice) : M Z :=
  let! u := get_dev d in
  if negb (size =? 0) && bool_decide (slot u = None) then
    let! ptr := calloc in
    match ptr with None => ret (- ENOMEM) | Some _ => upd_dev d (fun u => set u ptr) ;; ret 0 end
  else ret 0.

Definition device_alloc_priv (d : Z) : M Z :=
  let! v := drv_of d in
  let! r := alloc_slot d (priv_auto v) priv_ dev_set_priv in
  if negb (r =? 0) then ret r
  else
    let! ucd := uc_drv_of d in
    let! r := alloc_slot d (per_device_auto ucd) uclass_priv_ dev_set_uclass_priv in
    if negb (r =? 0) then ret r
    else
      let! p := dev_get_parent d in
      match p with
      | None => ret 0
      | Some p => let! size := per_child_size p in alloc_slot d size parent_priv_ dev_set_parent_priv
      end.

Definition free_slot (d size : Z) (slot : udevice -> option Z) (set : udevice -> option Z -> udevice) : M unit :=
  if negb (size =? 0) then let! u := get_dev d in free (slot u) ;; upd_dev d (fun u => set u None) else ret tt.

Definition device_free (d : Z) : M unit :=
  let! v := drv_of d in
  free_slot d (priv_auto v) priv_ dev_set_priv ;;
  let! ucd := uc_drv_of d in
  free_slot d (per_device_auto ucd) uclass_priv_ dev_set_uclass_priv ;;
  let! p := dev_get_parent d in
  (match p with None => ret tt | Some p => let! size := per_child_size p in free_slot d size parent_priv_ dev_set_parent_priv end) ;;
  dev_bic_flags d DM_FLAG_PLATDATA_VALID ;;
  devres_release_probe ext d ;; ret tt.

(** ** Removing and unbinding (device-remove.c) *)

Definition flags_remove (flags drv_flags : Z) : Z :=
  if negb (has_flag flags DM_REMOVE_NORMAL) then
    let active_match := negb (has_flag flags DM_REMOVE_ACTIVE_ALL) || has_flag drv_flags flags in
    let vital_match := negb (has_flag flags DM_REMOVE_NON_VITAL) || negb (has_flag drv_flags DM_FLAG_VITAL) in
    if negb vital_match then - EPROBE_DEFER else if negb active_match then - EKEYREJECTED else 0
  else 0.

(** The member behind [x], and the first one. *)
Fixpoint next_after (l : list Z) (x : Z) : option Z :=
  match l with [] => None | y :: l' => if y =? x then hd_error l' else next_after l' x end.
Definition next_child (d pos : Z) : M (option Z) := let! u := get_dev d in ret (next_after (child_head u) pos).

(** What [device_remove] does once the children are gone. *)
Definition remove_self (d flags : Z) : M Z :=
  let! v := drv_of d in
  let r := flags_remove flags (drv_flags v) in
  if negb (r =? 0) then ret r
  else
    let! r := uclass_pre_remove_device d in
    if negb (r =? 0) then ret r
    else
      let! r := or_hook (drv_remove v) d in
      if negb (r =? 0) then ret r
      else
        let! p := dev_get_parent d in
        (match p with None => ret 0 | Some p => let! pv := drv_of p in or_hook (drv_child_post_remove pv) d end) ;;
        (if negb (has_flag flags DM_REMOVE_NO_PD) &&
            negb (has_flag (drv_flags v) (Z.lor DM_FLAG_DEFAULT_PD_CTRL_OFF DM_FLAG_LEAVE_PD_ON)) &&
            negb (bool_decide (cur_serial_dev ext = Some d))
         then dev_power_domain_off ext d else ret 0) ;;
        device_free d ;;
        dev_bic_flags d DM_FLAG_ACTIVATED ;;
        device_notify ext EVT_DM_POST_REMOVE d.

(** [drv] restricts the children to those of one driver. *)
Fixpoint device_remove (fuel : nat) (d flags : Z) : M Z :=
  match fuel with
  | O => fun _ => Hangs
  | S n =>
      let! f := dev_get_flags d in
      if negb (has_flag f DM_FLAG_ACTIVATED) then ret 0
      else
        let! r := device_notify ext EVT_DM_PRE_REMOVE d in
        if negb (r =? 0) then ret r
        else
          let! u := get_dev d in
          let! r := chld_remove_loop n d (hd_error (child_head u)) None flags 0 in
          if negb (r =? 0) && negb (r =? - EKEYREJECTED) then ret r else remove_self d flags
  end
with chld_remove_loop (fuel : nat) (d : Z) (pos : option Z) (drv : option Z) (flags result : Z) : M Z :=
  match fuel with
  | O => fun _ => Hangs
  | S n =>
      match pos with
      | None => ret result
      | Some c =>
          let! nx := next_child d c in
          let! u := get_dev c in
          if bool_decide (drv <> None) && negb (bool_decide (drv = Some (driver u))) then chld_remove_loop n d nx drv flags result
          else
            let! r := device_remove n c flags in
            if r =? - EPROBE_DEFER then chld_remove_loop n d nx drv flags r
            else if negb (r =? 0) && negb (r =? - EKEYREJECTED) then ret r
            else chld_remove_loop n d nx drv flags result
      end
  end.
Definition device_chld_remove (fuel : nat) (d : Z) (drv : option Z) (flags : Z) : M Z :=
  let! u := get_dev d in chld_remove_loop fuel d (hd_error (child_head u)) drv flags 0.

(** What [device_unbind] does once the children are gone. *)
Definition unbind_self (d : Z) : M Z :=
  let! r := uclass_pre_unbind_device d in
  if negb (r =? 0) then ret r
  else
    let! u := get_dev d in
    (if has_flag (flags_ u) DM_FLAG_ALLOC_PDATA then free (plat_ u) ;; upd_dev d (fun u => dev_set_plat u None) else ret tt) ;;
    (if has_flag (flags_ u) DM_FLAG_ALLOC_UCLASS_PDATA
     then free (uclass_plat_ u) ;; upd_dev d (fun u => dev_set_uclass_plat u None) else ret tt) ;;
    (if has_flag (flags_ u) DM_FLAG_ALLOC_PARENT_PDATA
     then free (parent_plat_ u) ;; upd_dev d (fun u => dev_set_parent_plat u None) else ret tt) ;;
    let! r := uclass_unbind_device d in
    if negb (r =? 0) then ret r
    else del_sibling d ;; devres_release_all ext d ;; free_dev d ;; ret 0.

Fixpoint device_unbind (fuel : nat) (d : Z) : M Z :=
  match fuel with
  | O => fun _ => Hangs
  | S n =>
      let! f := dev_get_flags d in
      if has_flag f DM_FLAG_ACTIVATED then ret (- EINVAL)
      else if negb (has_flag f DM_FLAG_BOUND) then ret (- EINVAL)
      else
        let! v := drv_of d in
        let! r := or_hook (drv_unbind v) d in
        if negb (r =? 0) then ret r
        else
          let! u := get_dev d in
          let! r := chld_unbind_loop n d (hd_error (child_head u)) None 0 in
          if negb (r =? 0) then ret r else unbind_self d
  end
with chld_unbind_loop (fuel : nat) (d : Z) (pos : option Z) (drv : option Z) (saved_ret : Z) : M Z :=
  match fuel with
  | O => fun _ => Hangs
  | S n =>
      match pos with
      | None => ret saved_ret
      | Some c =>
          let! nx := next_child d c in
          let! u := get_dev c in
          if bool_decide (drv <> None) && negb (bool_decide (drv = Some (driver u))) then chld_unbind_loop n d nx drv saved_ret
          else
            let! r := device_unbind n c in
            chld_unbind_loop n d nx drv (if negb (r =? 0) && (saved_ret =? 0) then r else saved_ret)
      end
  end.
Definition device_chld_unbind (fuel : nat) (d : Z) (drv : option Z) : M Z :=
  let! u := get_dev d in chld_unbind_loop fuel d (hd_error (child_head u)) drv 0.

(** ** Probing (device.c) *)

Definition has_ofnode (u : udevice) : bool := bool_decide (node_ u <> None).

(** The part of [device_of_to_plat] behind the parents. *)
Definition to_plat_self (d : Z) : M Z :=
  let! r := device_alloc_priv d in
  if negb (r =? 0) then device_free d ;; ret r
  else
    let! u := get_dev d in
    let! v := drv_of d in
    let! r := if has_ofnode u then or_hook (drv_of_to_plat v) d else ret 0 in
    if negb (r =? 0) then device_free d ;; ret r else dev_or_flags d DM_FLAG_PLATDATA_VALID ;; ret 0.

Fixpoint device_of_to_plat (fuel : nat) (d : Z) : M Z :=
  match fuel with
  | O => fun _ => Hangs
  | S n =>
      let! f := dev_get_flags d in
      if has_flag f DM_FLAG_PLATDATA_VALID then ret 0
      else
        let! p := dev_get_parent d in
        match p with
        | None => to_plat_self d
        | Some p =>
            let! r := device_of_to_plat n p in
            if negb (r =? 0) then device_free d ;; ret r
            else
              let! f := dev_get_flags d in
              if has_flag f DM_FLAG_PLATDATA_VALID then ret 0 else to_plat_self d
        end
  end.

Definition device_get_dma_constraints (d : Z) : M Z :=
  let! p := dev_get_parent d in
  match p with
  | None => ret 0
  | Some p =>
      let! pu := get_dev p in
      if negb (dm_dma ext) || negb (has_ofnode pu) then ret 0
      else
        let! got := dev_get_dma_range ext p in
        let (r, off) := (got : Z * Z) in
        if negb (r =? 0) && negb (r =? - ENOENT) then ret r else upd_dev d (fun u => with_dma u off) ;; ret 0
  end.

(** The steps between activation and the end, in order; the first that fails
    ends the sequence.  [true]: the failure needs a removal. *)
Definition probe_steps (d : Z) (par : option Z) (v : driver_rec W) (uid : Z) : M (Z * bool) :=
  let fail r := ret (r, false) in
  let! r := if power_domain ext && bool_decide (par <> None) && negb (uid =? UCLASS_POWER_DOMAIN ext) &&
               negb (has_flag (drv_flags v) DM_FLAG_DEFAULT_PD_CTRL_OFF)
            then dev_power_domain_on ext d else ret 0 in
  if negb (r =? 0) then fail r else
  (if bool_decide (par <> None) && negb (uid =? UCLASS_PINCTRL ext) then pinctrl_select_state ext d else ret 0) ;;
  let! r := if iommu ext && bool_decide (par <> None) && negb (uid =? UCLASS_IOMMU ext) then dev_iommu_enable ext d else ret 0 in
  if negb (r =? 0) then fail r else
  let! r := device_get_dma_constraints d in
  if negb (r =? 0) then fail r else
  let! r := uclass_pre_probe_device d in
  if negb (r =? 0) then fail r else
  let! r := match par with None => ret 0 | Some p => let! pv := drv_of p in or_hook (drv_child_pre_probe pv) d end in
  if negb (r =? 0) then fail r else
  let! u := get_dev d in
  let! r := if has_ofnode u then clk_set_defaults ext d else ret 0 in
  if negb (r =? 0) then fail r else
  let! r := or_hook (drv_probe v) d in
  if negb (r =? 0) then fail r else
  let! r := uclass_post_probe_device d in
  if negb (r =? 0) then ret (r, true) else
  (if bool_decide (par <> None) && (uid =? UCLASS_PINCTRL ext) then pinctrl_select_state ext d else ret 0) ;;
  let! r := device_notify ext EVT_DM_POST_PROBE d in
  ret (r, negb (r =? 0)).

Definition probe_fail (d r : Z) : M Z := dev_bic_flags d DM_FLAG_ACTIVATED ;; device_free d ;; ret r.

Definition probe_self (fuel : nat) (d : Z) : M Z :=
  let! u := get_dev d in
  let! v := drv_of d in
  let! ucd := uc_drv_of d in
  dev_or_flags d DM_FLAG_ACTIVATED ;;
  let! got := probe_steps d (parent u) v (uc_id ucd) in
  let (r, undo) := (got : Z * bool) in
  if r =? 0 then ret 0
  else (if undo then device_remove fuel d DM_REMOVE_NORMAL else ret 0) ;; probe_fail d r.

Fixpoint device_probe (fuel : nat) (d : Z) : M Z :=
  match fuel with
  | O => fun _ => Hangs
  | S n =>
      let! f := dev_get_flags d in
      if has_flag f DM_FLAG_ACTIVATED then ret 0
      else
        let! r := device_notify ext EVT_DM_PRE_PROBE d in
        if negb (r =? 0) then ret r
        else
          let! r := device_of_to_plat n d in
          if negb (r =? 0) then probe_fail d r
          else
            let! p := dev_get_parent d in
            match p with
            | None => probe_self n d
            | Some p =>
                let! r := device_probe n p in
                if negb (r =? 0) then probe_fail d r
                else
                  let! f := dev_get_flags d in
                  if has_flag f DM_FLAG_ACTIVATED then ret 0 else probe_self n d
            end
  end.
End DriverModel.
