(* ===== verification/DmWf.v ===== *)
(** The driver model: total correctness of its computations, and the invariant
    that holds between calls: the tree and the uclass lists agree, memory in
    use is allocated and used once, an active device has its data and an active
    parent. *)

From stdpp Require Import gmap.
From S2P Require Import Prelude Bytes Cstring Dm.

(** * Total correctness *)

Section Wp.
Context {W : Type}.

(** The computation ends without a fault, in a state [Q] holds of. *)
Definition wp {A} (m : @M W A) (s : dm W) (Q : A -> dm W -> Prop) : Prop := exists a s', m s = Ok (a, s') /\ Q a s'.

Lemma wp_ret {A} (a : A) s (Q : A -> dm W -> Prop) : Q a s -> wp (ret a) s Q.
Proof. intros H. by exists a, s. Qed.

Lemma wp_bind {A B} (m : @M W A) (k : A -> @M W B) s Q : wp m s (fun a s' => wp (k a) s' Q) -> wp (bind m k) s Q.
Proof. intros (a & s' & E & b & t & E' & H). exists b, t. split; [|done]. unfold bind. by rewrite E. Qed.

Lemma wp_mono {A} (m : @M W A) s (Q Q' : A -> dm W -> Prop) : wp m s Q -> (forall a s', Q a s' -> Q' a s') -> wp m s Q'.
Proof. intros (a & s' & E & H) I. exists a, s'. auto. Qed.

Lemma wp_get_dev d u s Q : dm_devs s !! d = Some u -> Q u s -> wp (get_dev d) s Q.
Proof. intros E H. exists u, s. split; [|done]. unfold get_dev. by rewrite E. Qed.

Lemma wp_upd_dev d u f s (Q : unit -> dm W -> Prop) :
  dm_devs s !! d = Some u -> Q tt (set_devs s (<[d := f u]> (dm_devs s))) -> wp (upd_dev d f) s Q.
Proof. intros E H. eexists _, _. split; [unfold upd_dev; by rewrite E|done]. Qed.

(** A method that only changes what is outside the driver model. *)
Definition quiet (f : @hook W) : Prop := forall d s, exists r w, f d s = Ok (r, set_world s w).
Definition oquiet (h : option (@hook W)) : Prop := forall f, h = Some f -> quiet f.

Lemma wp_quiet f d s (Q : Z -> dm W -> Prop) : quiet f -> (forall r w, Q r (set_world s w)) -> wp (f d) s Q.
Proof. intros H I. destruct (H d s) as (r & w & E). exists r, (set_world s w). auto. Qed.

Lemma set_world_same (s : dm W) : set_world s (dm_world s) = s.
Proof. by destruct s. Qed.

Lemma wp_or_hook h d s (Q : Z -> dm W -> Prop) : oquiet h -> (forall r w, Q r (set_world s w)) -> wp (or_hook h d) s Q.
Proof.
  intros H I. unfold or_hook. destruct h as [f|]; [by apply wp_quiet; [apply H|]|]. apply wp_ret. rewrite <- (set_world_same s). apply I.
Qed.
End Wp.

(** * What the invariant is made of *)

Definition is_active (u : udevice) : Prop := has_flag (flags_ u) DM_FLAG_ACTIVATED = true.
Definition is_valid (u : udevice) : Prop := has_flag (flags_ u) DM_FLAG_PLATDATA_VALID = true.

#[export] Instance is_active_dec u : Decision (is_active u).
Proof. unfold is_active. apply _. Defined.
#[export] Instance is_valid_dec u : Decision (is_valid u).
Proof. unfold is_valid. apply _. Defined.

(** The flags of the life of a device in use. *)
Definition LIFE_FLAGS : Z := 4097.

(** The same device, in use or not. *)
Record same_dev (u u' : udevice) : Prop := {
  sd_driver : driver u' = driver u; sd_name : dev_name u' = dev_name u;
  sd_plat : plat_ u' = plat_ u; sd_pplat : parent_plat_ u' = parent_plat_ u; sd_uplat : uclass_plat_ u' = uclass_plat_ u;
  sd_data : driver_data u' = driver_data u; sd_parent : parent u' = parent u; sd_uclass : dev_uclass u' = dev_uclass u;
  sd_children : child_head u' = child_head u; sd_seq : seq_ u' = seq_ u; sd_node : node_ u' = node_ u;
  sd_flags : Z.land (flags_ u') (Z.lnot LIFE_FLAGS) = Z.land (flags_ u) (Z.lnot LIFE_FLAGS)
}.

#[export] Instance same_dev_refl : Reflexive same_dev.
Proof. intros u. by split. Qed.
#[export] Instance same_dev_trans : Transitive same_dev.
Proof. intros u v w [] []. split; congruence. Qed.

(** A flag outside these is the same. *)
Lemma same_flag u u' f : same_dev u u' -> Z.land f LIFE_FLAGS = 0 -> has_flag (flags_ u') f = has_flag (flags_ u) f.
Proof.
  intros S H. assert (forall x, Z.land x f = Z.land (Z.land x (Z.lnot LIFE_FLAGS)) f) as E.
  { intros x. rewrite <- Z.land_assoc, (Z.land_comm (Z.lnot _)). f_equal. apply Z.bits_inj'. intros n Hn.
    apply (f_equal (fun z => Z.testbit z n)) in H. rewrite Z.land_spec, Z.bits_0 in H.
    rewrite Z.land_spec, Z.lnot_spec by done. destruct (Z.testbit f n), (Z.testbit LIFE_FLAGS n); done. }
  unfold has_flag. rewrite (E (flags_ u')), (E (flags_ u)), (sd_flags _ _ S). done.
Qed.

Section Wf.
Context {W : Type} (drivers : list (driver_rec W)) (uclass_drivers : list (uclass_driver W)).

Definition uc_find (s : dm W) (id : Z) : option uclass := find (fun uc => uc_drv uc =? id) (dm_ucs s).

(** Devices, their parents and children, and the lists of the uclasses. *)
Record links (s : dm W) : Prop := {
  lk_next : forall d u, dm_devs s !! d = Some u -> 0 <= d < dm_next s;
  lk_driver : forall d u, dm_devs s !! d = Some u -> 0 <= driver u /\ is_Some (drivers !! Z.to_nat (driver u));
  lk_parent : forall d u p, dm_devs s !! d = Some u -> parent u = Some p ->
    p < d /\ exists pu, dm_devs s !! p = Some pu /\ d ∈ child_head pu;
  lk_child : forall p pu c, dm_devs s !! p = Some pu -> c ∈ child_head pu ->
    exists cu, dm_devs s !! c = Some cu /\ parent cu = Some p;
  lk_sorted : forall d u, dm_devs s !! d = Some u -> StronglySorted Z.lt (child_head u);
  lk_uclass : forall d u, dm_devs s !! d = Some u -> exists uc, uc_find s (dev_uclass u) = Some uc /\ d ∈ dev_head uc;
  lk_member : forall uc d, uc ∈ dm_ucs s -> d ∈ dev_head uc -> exists u, dm_devs s !! d = Some u /\ dev_uclass u = uc_drv uc;
  lk_ucdrv : forall uc, uc ∈ dm_ucs s -> is_Some (lists_uclass_lookup uclass_drivers (uc_drv uc));
  lk_ucs : NoDup (map uc_drv (dm_ucs s));
  lk_members : forall uc, uc ∈ dm_ucs s -> NoDup (dev_head uc)
}.

(** The memory a device or a uclass answers for. *)
Inductive owner := ODev (d : Z) (k : nat) | OUc (id : Z) (k : nat).

Definition own (u : udevice) (k : nat) : option Z :=
  match k with
  | 0%nat => if has_flag (flags_ u) DM_FLAG_ALLOC_PDATA then plat_ u else None
  | 1%nat => if has_flag (flags_ u) DM_FLAG_ALLOC_PARENT_PDATA then parent_plat_ u else None
  | 2%nat => if has_flag (flags_ u) DM_FLAG_ALLOC_UCLASS_PDATA then uclass_plat_ u else None
  | 3%nat => priv_ u
  | 4%nat => uclass_priv_ u
  | 5%nat => parent_priv_ u
  | _ => None
  end.
Definition uc_own (uc : uclass) (k : nat) : option Z := match k with 0%nat => Some (uc_mem uc) | 1%nat => uc_priv uc | _ => None end.
Definition owns (s : dm W) (o : owner) : option Z :=
  match o with
  | ODev d k => match dm_devs s !! d with Some u => own u k | None => None end
  | OUc id k => match uc_find s id with Some uc => uc_own uc k | None => None end
  end.

Record bufs (s : dm W) : Prop := {
  bf_heap : forall o p, owns s o = Some p -> p ∈ dm_heap s;
  bf_once : forall o o' p, owns s o = Some p -> owns s o' = Some p -> o = o';
  bf_next : forall p, p ∈ dm_heap s -> p < dm_next s
}.

(** An active device has its data, and its parent is active. *)
Definition alive (s : dm W) : Prop :=
  forall d u, dm_devs s !! d = Some u -> is_active u ->
    is_valid u /\ forall p pu, parent u = Some p -> dm_devs s !! p = Some pu -> is_active pu.

Record wf (s : dm W) : Prop := { wf_links : links s; wf_bufs : bufs s; wf_alive : alive s }.

(** The devices in [T] may have changed in use; the rest is as it was. *)
Record evolves (T : Z -> Prop) (s s' : dm W) : Prop := {
  ev_dev : forall d u, dm_devs s !! d = Some u -> exists u', dm_devs s' !! d = Some u' /\ same_dev u u' /\ (~ T d -> u' = u);
  ev_none : forall d, dm_devs s !! d = None -> dm_devs s' !! d = None;
  ev_ucs : dm_ucs s' = dm_ucs s; ev_up : dm_up s' = dm_up s; ev_root : dm_root s' = dm_root s;
  ev_next : dm_next s <= dm_next s'
}.

Lemma evolves_world T s w : evolves T s (set_world s w).
Proof. split; try done. intros d u E. by exists u. Qed.
Lemma evolves_refl T s : evolves T s s.
Proof. rewrite <- (set_world_same s) at 2. apply evolves_world. Qed.

Lemma evolves_trans T s1 s2 s3 : evolves T s1 s2 -> evolves T s2 s3 -> evolves T s1 s3.
Proof.
  intros [D1 N1 U1 P1 R1 X1] [D2 N2 U2 P2 R2 X2]. split; [| |congruence|congruence|congruence|lia].
  - intros d u E. destruct (D1 d u E) as (u1 & E1 & S1 & F1). destruct (D2 d u1 E1) as (u2 & E2 & S2 & F2).
    exists u2. split; [done|]. split; [by etransitivity|]. intros H. by rewrite F2, F1.
  - auto.
Qed.

Lemma evolves_mono (T T' : Z -> Prop) s s' : (forall d, T d -> T' d) -> evolves T s s' -> evolves T' s s'.
Proof.
  intros I [D N U P R X]. split; try done. intros d u E. destruct (D d u E) as (u' & E' & S & F). exists u'. split; [done|]. split; [done|].
  intros H. apply F. auto.
Qed.

Lemma evolves_back T s s' d u' : evolves T s s' -> dm_devs s' !! d = Some u' -> exists u, dm_devs s !! d = Some u /\ same_dev u u' /\ (~ T d -> u' = u).
Proof.
  intros V E. destruct (dm_devs s !! d) as [u|] eqn:E0; [|by rewrite (ev_none _ _ _ V d E0) in E].
  destruct (ev_dev _ _ _ V d u E0) as (u1 & E1 & S & F). rewrite E in E1. injection E1 as <-. by exists u.
Qed.

Lemma links_evolves T s s' : links s -> evolves T s s' -> links s'.
Proof.
  intros [L1 L2 L3 L4 L5 L6 L7 L8 L9 L10] V. assert (forall id, uc_find s' id = uc_find s id) as EU by (intros; unfold uc_find; by rewrite (ev_ucs _ _ _ V)).
  split; rewrite ?(ev_ucs _ _ _ V); auto.
  - intros d u' E. destruct (evolves_back _ _ _ _ _ V E) as (u & E0 & S & _). pose proof (L1 d u E0). pose proof (ev_next _ _ _ V). lia.
  - intros d u' E. destruct (evolves_back _ _ _ _ _ V E) as (u & E0 & S & _). rewrite (sd_driver _ _ S). eauto.
  - intros d u' p E Hp. destruct (evolves_back _ _ _ _ _ V E) as (u & E0 & S & _). rewrite (sd_parent _ _ S) in Hp.
    destruct (L3 d u p E0 Hp) as (Lt & pu & Ep & Hc). split; [done|]. destruct (ev_dev _ _ _ V p pu Ep) as (pu' & Ep' & Sp & _).
    exists pu'. split; [done|]. by rewrite (sd_children _ _ Sp).
  - intros p pu' c E Hc. destruct (evolves_back _ _ _ _ _ V E) as (pu & E0 & S & _). rewrite (sd_children _ _ S) in Hc.
    destruct (L4 p pu c E0 Hc) as (cu & Ec & Hp). destruct (ev_dev _ _ _ V c cu Ec) as (cu' & Ec' & Sc & _). exists cu'.
    by rewrite (sd_parent _ _ Sc).
  - intros d u' E. destruct (evolves_back _ _ _ _ _ V E) as (u & E0 & S & _). rewrite (sd_children _ _ S). eauto.
  - intros d u' E. destruct (evolves_back _ _ _ _ _ V E) as (u & E0 & S & _). rewrite (sd_uclass _ _ S), EU. eauto.
  - intros uc d Hu Hd. destruct (L7 uc d Hu Hd) as (u & E & Eu). destruct (ev_dev _ _ _ V d u E) as (u' & E' & S & _). exists u'.
    by rewrite (sd_uclass _ _ S).
Qed.

(** ** One device changes *)

Lemma evolves_upd (T : Z -> Prop) s d u u' hp n :
  T d -> dm_devs s !! d = Some u -> same_dev u u' -> dm_next s <= n ->
  evolves T s (set_devs (set_heap s hp n) (<[d := u']> (dm_devs s))).
Proof.
  intros H E S Hn. split; try done; cbn.
  - intros e v Ev. destruct (decide (e = d)) as [->|N].
    + exists u'. rewrite lookup_insert_eq. rewrite E in Ev. injection Ev as <-. done.
    + exists v. by rewrite lookup_insert_ne.
  - intros e Ev. destruct (decide (e = d)) as [->|N]; [by rewrite E in Ev|by rewrite lookup_insert_ne].
Qed.

Definition lb (s : dm W) : Prop := links s /\ bufs s.

(** Its memory is among what it had. *)
Lemma bufs_upd s d u u' hp :
  bufs s -> dm_devs s !! d = Some u -> (forall k p, own u' k = Some p -> own u k = Some p) ->
  (forall o p, owns s o = Some p -> (forall k, o = ODev d k -> own u' k = Some p) -> p ∈ hp) -> (forall p, p ∈ hp -> p ∈ dm_heap s) ->
  bufs (set_devs (set_heap s hp (dm_next s)) (<[d := u']> (dm_devs s))).
Proof.
  intros [B1 B2 B3] E I H Hs. set (s' := set_devs _ _).
  assert (forall o p, owns s' o = Some p -> owns s o = Some p /\ forall k, o = ODev d k -> own u' k = Some p) as K.
  { intros [e k|id k] p Ho; unfold owns in *; cbn in Ho; [|split; [exact Ho|done]].
    destruct (decide (e = d)) as [->|N]; [rewrite lookup_insert_eq in Ho; rewrite E; split; [auto|intros j [= <-]; done]|].
    rewrite lookup_insert_ne in Ho by done. split; [done|]. intros j [= -> <-]. done. }
  split.
  - intros o p Ho. apply K in Ho as [Ho Hk]. exact (H o p Ho Hk).
  - intros o o' p Ho Ho'. apply K in Ho as [Ho _], Ho' as [Ho' _]. eauto.
  - intros p Hp. apply B3. auto.
Qed.

Lemma lb_upd s d u u' :
  lb s -> dm_devs s !! d = Some u -> same_dev u u' -> (forall k p, own u' k = Some p -> own u k = Some p) ->
  lb (set_devs s (<[d := u']> (dm_devs s))).
Proof.
  intros [L B] E S I. replace (set_devs s (<[d := u']> (dm_devs s))) with (set_devs (set_heap s (dm_heap s) (dm_next s)) (<[d := u']> (dm_devs s)))
    by (by destruct s). split.
  - eapply links_evolves; [exact L|]. apply (evolves_upd (eq d) s d u); done.
  - apply (bufs_upd s d u); try done. intros o p Ho _. by apply (bf_heap _ B o).
Qed.

(** It gives back the memory in one place. *)
Lemma lb_free s d u u' k p :
  lb s -> dm_devs s !! d = Some u -> same_dev u u' -> own u k = Some p -> own u' k = None ->
  (forall j q, own u' j = Some q -> own u j = Some q) ->
  p ∈ dm_heap s /\ lb (set_devs (set_heap s (dm_heap s ∖ {[p]}) (dm_next s)) (<[d := u']> (dm_devs s))).
Proof.
  intros [L B] E S Ho Hn I. assert (owns s (ODev d k) = Some p) as Hp by (unfold owns; by rewrite E). split; [by apply (bf_heap _ B _ _ Hp)|]. split.
  - eapply links_evolves; [exact L|]. apply (evolves_upd (eq d) s d u); done.
  - apply (bufs_upd s d u); try done; [|set_solver]. intros o q Hq Hk. pose proof (bf_heap _ B _ _ Hq).
    assert (q <> p); [|set_solver]. intros ->. assert (o = ODev d k) as -> by eauto using bf_once. by rewrite (Hk k eq_refl) in Hn.
Qed.

(** It takes new memory into an empty place. *)
Lemma lb_alloc s d u u' k :
  lb s -> dm_devs s !! d = Some u -> same_dev u u' -> own u' k = Some (dm_next s) ->
  (forall j q, j <> k -> own u' j = Some q -> own u j = Some q) ->
  lb (set_devs (set_heap s ({[dm_next s]} ∪ dm_heap s) (dm_next s + 1)) (<[d := u']> (dm_devs s))).
Proof.
  intros [L B] E S Hk I. split.
  - eapply links_evolves; [exact L|]. apply (evolves_upd (eq d) s d u); try done. lia.
  - set (s' := set_devs _ _).
    assert (forall o p, owns s' o = Some p -> (o = ODev d k /\ p = dm_next s) \/ (owns s o = Some p /\ p < dm_next s)) as K.
    { intros o p Ho. assert (o = ODev d k \/ owns s o = Some p) as [->|H].
      - destruct o as [e j|id j]; unfold owns in *; cbn in Ho; [|by right].
        destruct (decide (e = d)) as [->|N]; [|rewrite lookup_insert_ne in Ho by done; by right].
        rewrite lookup_insert_eq in Ho. destruct (decide (j = k)) as [->|Nj]; [by left|right]. rewrite E. eauto.
      - left. split; [done|]. unfold owns in Ho. cbn in Ho. rewrite lookup_insert_eq, Hk in Ho. congruence.
      - right. split; [done|]. apply (bf_next _ B), (bf_heap _ B _ _ H). }
    split; cbn [s' set_devs set_heap dm_heap dm_next].
    + intros o p Ho. destruct (K o p Ho) as [[_ ->]|[H _]]; [set_solver|]. pose proof (bf_heap _ B _ _ H). set_solver.
    + intros o o' p Ho Ho'. destruct (K o p Ho) as [[E1 E2]|[H Hp]], (K o' p Ho') as [[E3 E4]|[H' Hp']]; try congruence; try lia. eauto using bf_once.
    + intros p Hp. apply elem_of_union in Hp as [Hp%elem_of_singleton|Hp]; [lia|]. pose proof (bf_next _ B p Hp). lia.
Qed.

Lemma lb_world s w : lb s -> lb (set_world s w).
Proof. intros [[] []]. split; split; done. Qed.
Lemma lb_next s n : lb s -> dm_next s <= n -> lb (set_heap s (dm_heap s) n).
Proof.
  intros [L B] H. split.
  - eapply (links_evolves (fun _ => True)); [exact L|]. split; try done. intros d u E. by exists u.
  - destruct B as [B1 B2 B3]. split; try done. intros p Hp. cbn. pose proof (B3 p Hp). lia.
Qed.
End Wf.
