(* ===== verification/DmLife.v ===== *)
(** The driver model: reading the data of a device, probing and removing it.
    The methods of drivers and uclasses may do what they like outside the
    driver model. *)

From stdpp Require Import gmap.
From S2P Require Import Prelude Bytes Cstring Dm DmWf.

(** * Flags *)

Lemma has_flag_bit x n : 0 <= n -> has_flag x (2 ^ n) = Z.testbit x n.
Proof.
  intros H. unfold has_flag. destruct (Z.testbit x n) eqn:E.
  - destruct (Z.eqb_spec (Z.land x (2 ^ n)) 0) as [E0|]; [|done]. apply (f_equal (fun z => Z.testbit z n)) in E0.
    rewrite Z.land_spec, Z.pow2_bits_true, E, Z.bits_0 in E0 by done. done.
  - destruct (Z.eqb_spec (Z.land x (2 ^ n)) 0) as [|E0]; [done|]. exfalso. apply E0, Z.bits_inj'. intros m Hm.
    rewrite Z.land_spec, Z.bits_0. destruct (decide (m = n)) as [->|N]; [by rewrite E|]. rewrite Z.pow2_bits_false by lia. apply andb_false_r.
Qed.

Lemma active_bit u : is_active u <-> Z.testbit (flags_ u) 0 = true.
Proof. unfold is_active. change DM_FLAG_ACTIVATED with (2 ^ 0). by rewrite has_flag_bit by lia. Qed.
Lemma valid_bit u : is_valid u <-> Z.testbit (flags_ u) 12 = true.
Proof. unfold is_valid. change DM_FLAG_PLATDATA_VALID with (2 ^ 12). by rewrite has_flag_bit by lia. Qed.

Ltac flag_bits := rewrite ?active_bit, ?valid_bit in *; cbn [or_flags bic_flags with_flags_ flags_] in *;
  rewrite ?Z.lor_spec, ?Z.land_spec, ?Z.lnot_spec in * by lia.

Lemma or_active u : is_active (or_flags DM_FLAG_ACTIVATED u) /\ (is_valid (or_flags DM_FLAG_ACTIVATED u) <-> is_valid u).
Proof. flag_bits. change (Z.testbit DM_FLAG_ACTIVATED 0) with true. change (Z.testbit DM_FLAG_ACTIVATED 12) with false. rewrite orb_true_r, orb_false_r. done. Qed.
Lemma bic_active u : ~ is_active (bic_flags DM_FLAG_ACTIVATED u) /\ (is_valid (bic_flags DM_FLAG_ACTIVATED u) <-> is_valid u).
Proof. flag_bits. change (Z.testbit DM_FLAG_ACTIVATED 0) with true. change (Z.testbit DM_FLAG_ACTIVATED 12) with false. rewrite andb_false_r, andb_true_r. done. Qed.
Lemma or_valid u : is_valid (or_flags DM_FLAG_PLATDATA_VALID u) /\ (is_active (or_flags DM_FLAG_PLATDATA_VALID u) <-> is_active u).
Proof. flag_bits. change (Z.testbit DM_FLAG_PLATDATA_VALID 0) with false. change (Z.testbit DM_FLAG_PLATDATA_VALID 12) with true. rewrite orb_true_r, orb_false_r. done. Qed.
Lemma bic_valid u : ~ is_valid (bic_flags DM_FLAG_PLATDATA_VALID u) /\ (is_active (bic_flags DM_FLAG_PLATDATA_VALID u) <-> is_active u).
Proof. flag_bits. change (Z.testbit DM_FLAG_PLATDATA_VALID 0) with false. change (Z.testbit DM_FLAG_PLATDATA_VALID 12) with true. rewrite andb_false_r, andb_true_r. done. Qed.

Lemma same_or u f : Z.land f (Z.lnot LIFE_FLAGS) = 0 -> same_dev u (or_flags f u).
Proof. intros H. split; try done. cbn. by rewrite Z.land_lor_distr_l, H, Z.lor_0_r. Qed.
Lemma same_bic u f : Z.land f (Z.lnot LIFE_FLAGS) = 0 -> same_dev u (bic_flags f u).
Proof.
  intros H. split; try done. cbn. rewrite <- Z.land_assoc. f_equal. apply Z.bits_inj'. intros n Hn.
  apply (f_equal (fun z => Z.testbit z n)) in H. rewrite Z.land_spec, Z.lnot_spec, Z.bits_0 in H by done.
  rewrite Z.land_spec, !Z.lnot_spec by done. destruct (Z.testbit f n), (Z.testbit LIFE_FLAGS n); done.
Qed.

Lemma own_same u u' k : same_dev u u' -> priv_ u' = priv_ u -> uclass_priv_ u' = uclass_priv_ u -> parent_priv_ u' = parent_priv_ u -> own u' k = own u k.
Proof.
  intros S E1 E2 E3. unfold own.
  by rewrite !(same_flag u u') by done; rewrite ?(sd_plat _ _ S), ?(sd_pplat _ _ S), ?(sd_uplat _ _ S), ?E1, ?E2, ?E3.
Qed.

(** A place for memory that comes and goes with the use of a device. *)
Record is_slot (k : nat) (slot : udevice -> option Z) (set : udevice -> option Z -> udevice) : Prop := {
  sl_own : forall u, own u k = slot u;
  sl_same : forall u p, same_dev u (set u p);
  sl_set : forall u p, slot (set u p) = p;
  sl_other : forall u p j, j <> k -> own (set u p) j = own u j;
  sl_flags : forall u p, flags_ (set u p) = flags_ u
}.
Lemma priv_slot : is_slot 3 priv_ dev_set_priv.
Proof. split; try done. intros u p j N. do 6 (destruct j as [|j]; [done|]). done. Qed.
Lemma uclass_priv_slot : is_slot 4 uclass_priv_ dev_set_uclass_priv.
Proof. split; try done. intros u p j N. do 6 (destruct j as [|j]; [done|]). done. Qed.
Lemma parent_priv_slot : is_slot 5 parent_priv_ dev_set_parent_priv.
Proof. split; try done. intros u p j N. do 6 (destruct j as [|j]; [done|]). done. Qed.

(** * Quiet drivers *)

Definition quiet_driver {W} (v : driver_rec W) : Prop :=
  oquiet (drv_bind v) /\ oquiet (drv_probe v) /\ oquiet (drv_remove v) /\ oquiet (drv_unbind v) /\ oquiet (drv_of_to_plat v) /\
  oquiet (drv_child_post_bind v) /\ oquiet (drv_child_pre_probe v) /\ oquiet (drv_child_post_remove v).
Definition quiet_uclass {W} (v : uclass_driver W) : Prop :=
  oquiet (uc_post_bind v) /\ oquiet (uc_pre_unbind v) /\ oquiet (uc_pre_probe v) /\ oquiet (uc_post_probe v) /\ oquiet (uc_pre_remove v) /\
  oquiet (uc_child_post_bind v) /\ oquiet (uc_child_pre_probe v) /\ oquiet (uc_child_post_probe v) /\ oquiet (uc_init v) /\ oquiet (uc_destroy v).
Record quiet_ext {W} (x : dm_ext W) : Prop := {
  qe_notify : forall ev, quiet (device_notify x ev);
  qe_on : quiet (dev_power_domain_on x); qe_off : quiet (dev_power_domain_off x); qe_pin : quiet (pinctrl_select_state x);
  qe_iommu : quiet (dev_iommu_enable x); qe_clk : quiet (clk_set_defaults x);
  qe_dma : forall d s, exists r w, dev_get_dma_range x d s = Ok (r, set_world s w);
  qe_all : quiet (devres_release_all x); qe_probe : quiet (devres_release_probe x)
}.

(** The promise the theorems ask of the code around the driver model. *)
Class Quiet {W} (drivers : list (driver_rec W)) (uclass_drivers : list (uclass_driver W)) (ext : dm_ext W) : Prop := {
  q_drivers : forall i v, drivers !! i = Some v -> quiet_driver v;
  q_uclasses : forall id v, lists_uclass_lookup uclass_drivers id = Some v -> quiet_uclass v;
  q_ext : quiet_ext ext
}.

(** The methods that remove a device do not use the error code the driver model
    reserves for devices that the flags leave alone. *)
Definition polite {W} (h : option (@hook W)) : Prop :=
  forall f d s r s', h = Some f -> f d s = Ok (r, s') -> r <> - EKEYREJECTED.
Class Polite {W} (drivers : list (driver_rec W)) (uclass_drivers : list (uclass_driver W)) (ext : dm_ext W) : Prop := {
  p_drivers : forall i v, drivers !! i = Some v -> polite (drv_remove v);
  p_uclasses : forall id v, lists_uclass_lookup uclass_drivers id = Some v -> polite (uc_pre_remove v);
  p_pre : polite (Some (device_notify ext EVT_DM_PRE_REMOVE));
  p_post : polite (Some (device_notify ext EVT_DM_POST_REMOVE))
}.

(** Flags with which no device is passed over because it does not match. *)
Definition gentle (flags : Z) : Prop := forall f, flags_remove flags f <> - EKEYREJECTED.

Lemma gentle_normal flags : has_flag flags DM_REMOVE_NORMAL = true -> gentle flags.
Proof. intros H f. unfold flags_remove. by rewrite H. Qed.
Lemma gentle_no_active flags : has_flag flags DM_REMOVE_ACTIVE_ALL = false -> gentle flags.
Proof. intros H f. unfold flags_remove. rewrite H. destruct (has_flag flags DM_REMOVE_NORMAL), (has_flag flags DM_REMOVE_NON_VITAL), (has_flag f DM_FLAG_VITAL); discriminate. Qed.

Lemma next_after_app l1 c l2 : c ∉ l1 -> next_after (l1 ++ c :: l2) c = hd_error l2.
Proof.
  induction l1 as [|x l1 IH]; intros N; cbn [next_after app]; [by rewrite Z.eqb_refl|].
  destruct (Z.eqb_spec x c) as [->|]; [by destruct N; left|]. apply IH. intros H. apply N. by right.
Qed.

Lemma sorted_not_in l1 (c : Z) l2 : StronglySorted Z.lt (l1 ++ c :: l2) -> (c ∉ l1) /\ Forall (Z.lt c) l2.
Proof.
  intros S. split.
  - induction l1 as [|x l1 IH]; [set_solver|]. cbn in S. apply StronglySorted_inv in S as [S F]. rewrite Forall_forall in F.
    apply not_elem_of_cons. split; [|auto]. pose proof (F c). assert (x < c) by (apply H; set_solver). lia.
  - induction l1 as [|x l1 IH]; cbn in S; apply StronglySorted_inv in S as [S F]; auto.
Qed.

Section Life.
Context {W : Type} (drivers : list (driver_rec W)) (uclass_drivers : list (uclass_driver W)) (ext : dm_ext W).
Context `{Q : !Quiet drivers uclass_drivers ext}.

#[local] Abbreviation links := (links drivers uclass_drivers).
#[local] Abbreviation lb := (lb drivers uclass_drivers).
#[local] Abbreviation wf := (wf drivers uclass_drivers).

(** * Looking things up *)

Lemma wp_drv_of s d u (P : driver_rec W -> dm W -> Prop) : links s -> dm_devs s !! d = Some u ->
  (forall v, drivers !! Z.to_nat (driver u) = Some v -> quiet_driver v -> P v s) -> wp (drv_of drivers d) s P.
Proof using Q.
  intros L E H. destruct (lk_driver _ _ _ L d u E) as (H0 & v & Ev). unfold drv_of. apply wp_bind, (wp_get_dev d u); [done|].
  exists v, s. split; [|apply H; [done|by eapply q_drivers]]. unfold get_drv. rewrite Ev. by destruct (Z.leb_spec 0 (driver u)); [|lia].
Qed.

Lemma wp_uc_drv_of s d u (P : uclass_driver W -> dm W -> Prop) : links s -> dm_devs s !! d = Some u ->
  (forall v, lists_uclass_lookup uclass_drivers (dev_uclass u) = Some v -> quiet_uclass v -> P v s) -> wp (uc_drv_of uclass_drivers d) s P.
Proof using Q.
  intros L E H. unfold uc_drv_of. apply wp_bind, (wp_get_dev d u); [done|]. destruct (lk_uclass _ _ _ L d u E) as (uc & Eu & _).
  unfold get_uc_drv. apply wp_bind. exists uc, s. unfold uc_get. fold (uc_find s (dev_uclass u)). rewrite Eu. split; [done|].
  unfold uc_find in Eu. apply find_some in Eu as [Hin Hid]. apply Z.eqb_eq in Hid. apply list_elem_of_In in Hin.
  destruct (lk_ucdrv _ _ _ L uc Hin) as [v Ev]. rewrite Hid in Ev. exists v, s. rewrite Ev. split; [done|]. apply H; [done|]. by eapply q_uclasses.
Qed.

(** * Memory in use *)

(** Only [d] has changed, its flags are now [f]. *)
Definition calm (d f : Z) (s s' : dm W) : Prop :=
  lb s' /\ evolves (eq d) s s' /\ exists u', dm_devs s' !! d = Some u' /\ flags_ u' = f.

Lemma calm_trans d f f' s s' s'' : calm d f s s' -> calm d f' s' s'' -> calm d f' s s''.
Proof using. intros (_ & V & _) (L & V' & E). split; [done|]. split; [by eapply evolves_trans|done]. Qed.
Lemma calm_world d f s s' w : calm d f s s' -> calm d f s (set_world s' w).
Proof using. intros (L & V & E). split; [by apply lb_world|]. split; [|done]. eapply evolves_trans; [exact V|apply evolves_world]. Qed.
Lemma calm_same s d u : lb s -> dm_devs s !! d = Some u -> calm d (flags_ u) s s.
Proof using. intros L E. split; [done|]. split; [apply evolves_refl|by exists u]. Qed.

(** A change of the device that leaves its memory as it is. *)
Lemma calm_upd s d u u' : lb s -> dm_devs s !! d = Some u -> same_dev u u' -> (forall k, own u' k = own u k) ->
  calm d (flags_ u') s (set_devs s (<[d := u']> (dm_devs s))).
Proof using.
  intros L E S O. split; [|split].
  - apply (lb_upd _ _ s d u); try done. intros k p. by rewrite O.
  - replace (set_devs s _) with (set_devs (set_heap s (dm_heap s) (dm_next s)) (<[d := u']> (dm_devs s))) by (by destruct s).
    by apply (evolves_upd (eq d) s d u).
  - exists u'. cbn. by rewrite lookup_insert_eq.
Qed.

Lemma wp_calloc s (P : option Z -> dm W -> Prop) :
  P (Some (dm_next s)) (set_heap s ({[dm_next s]} ∪ dm_heap s) (dm_next s + 1)) ->
  P None (set_heap s (dm_heap s) (dm_next s + 1)) -> wp (calloc ext) s P.
Proof using.
  intros H1 H2. destruct (mem_ok ext (dm_next s)) eqn:E; eexists _, _; (split; [unfold calloc; rewrite E; reflexivity|done]).
Qed.

Lemma wp_free_slot s d u k size slot set (P : unit -> dm W -> Prop) : is_slot k slot set -> lb s -> dm_devs s !! d = Some u ->
  (forall s', calm d (flags_ u) s s' -> P tt s') -> wp (free_slot d size slot set) s P.
Proof using.
  intros [So Ss Sg Sn Sf] L E H. unfold free_slot. destruct (negb (size =? 0)); [|apply wp_ret, H; by apply calm_same].
  apply wp_bind, (wp_get_dev d u); [done|]. apply wp_bind. destruct (slot u) as [p|] eqn:Ep.
  - destruct (lb_free _ _ s d u (set u None) k p L E (Ss u None)) as [Hp Lb].
    { by rewrite So. } { by rewrite So, Sg. } { intros j q Hq. destruct (decide (j = k)) as [->|N]; [by rewrite So, Sg in Hq|by rewrite Sn in Hq]. }
    exists tt. eexists. split; [unfold free; by rewrite decide_True|]. apply (wp_upd_dev d u); [done|]. apply H. split; [exact Lb|]. split.
    + by apply (evolves_upd (eq d) s d u).
    + exists (set u None). cbn. by rewrite lookup_insert_eq.
  - exists tt, s. split; [done|]. apply (wp_upd_dev d u); [done|]. apply H. rewrite <- (Sf u None). apply (calm_upd s d u); try done.
    intros j. destruct (decide (j = k)) as [->|N]; [by rewrite !So, Sg|by apply Sn].
Qed.

Lemma wp_alloc_slot s d u k size slot set (P : Z -> dm W -> Prop) : is_slot k slot set -> lb s -> dm_devs s !! d = Some u ->
  (forall r s', calm d (flags_ u) s s' -> P r s') -> wp (alloc_slot ext d size slot set) s P.
Proof using.
  intros [So Ss Sg Sn Sf] L E H. unfold alloc_slot. apply wp_bind, (wp_get_dev d u); [done|].
  destruct (negb (size =? 0) && bool_decide (slot u = None)) eqn:C; [|apply wp_ret, H; by apply calm_same].
  apply wp_bind, wp_calloc.
  - apply wp_bind, (wp_upd_dev d u); [done|]. apply wp_ret, H. split; [|split].
    + apply (lb_alloc _ _ s d u (set u (Some (dm_next s))) k); try done; [by rewrite So, Sg|]. intros j q N. by rewrite Sn.
    + apply (evolves_upd (eq d) s d u); try done. lia.
    + exists (set u (Some (dm_next s))). cbn. rewrite lookup_insert_eq. split; [done|apply Sf].
  - apply wp_ret, H. split; [apply lb_next; [done|lia]|]. split; [|by exists u].
    split; try done; cbn; [|lia]. intros e v Ev. by exists v.
Qed.

Lemma calm_dev d f s s' : calm d f s s' -> lb s' /\ exists u', dm_devs s' !! d = Some u' /\ flags_ u' = f.
Proof using. by intros (L & _ & E). Qed.

(** The parent of a device, if it has one. *)
Lemma parent_there s d u p : links s -> dm_devs s !! d = Some u -> parent u = Some p ->
  p <> d /\ exists pu, dm_devs s !! p = Some pu.
Proof using. intros L E H. destruct (lk_parent _ _ _ L d u p E H) as (Lt & pu & Ep & _). split; [lia|by exists pu]. Qed.

Lemma wp_per_child_size s p pu (P : Z -> dm W -> Prop) : links s -> dm_devs s !! p = Some pu -> (forall z, P z s) ->
  wp (per_child_size drivers uclass_drivers p) s P.
Proof using Q.
  intros L E H. unfold per_child_size. apply wp_bind, (wp_drv_of s p pu); [done..|]. intros v _ _.
  destruct (negb (per_child_auto v =? 0)); [by apply wp_ret|]. apply wp_bind, (wp_uc_drv_of s p pu); [done..|]. intros uv _ _. by apply wp_ret.
Qed.

(** The parent after a change. *)
Lemma calm_parent d f s s' u u' : calm d f s s' -> dm_devs s !! d = Some u -> dm_devs s' !! d = Some u' -> parent u' = parent u.
Proof using.
  intros (_ & V & _) E E'. destruct (ev_dev _ _ _ V d u E) as (u1 & E1 & S & _). rewrite E' in E1. injection E1 as <-. apply (sd_parent _ _ S).
Qed.

Lemma wp_device_free s d u (P : unit -> dm W -> Prop) : lb s -> dm_devs s !! d = Some u ->
  (forall s', calm d (flags_ (bic_flags DM_FLAG_PLATDATA_VALID u)) s s' -> P tt s') -> wp (device_free drivers uclass_drivers ext d) s P.
Proof using Q.
  intros L E H. unfold device_free. apply wp_bind, (wp_drv_of s d u); [apply L|done|]. intros v _ _.
  apply wp_bind, (wp_free_slot s d u _ _ _ _ _ priv_slot L E). intros s1 C1. destruct (calm_dev _ _ _ _ C1) as (L1 & u1 & E1 & F1).
  apply wp_bind, (wp_uc_drv_of s1 d u1); [apply L1|done|]. intros uv _ _.
  apply wp_bind, (wp_free_slot s1 d u1 _ _ _ _ _ uclass_priv_slot L1 E1). intros s2 C2. rewrite F1 in C2.
  assert (C := calm_trans _ _ _ _ _ _ C1 C2). clear C1 C2. destruct (calm_dev _ _ _ _ C) as (L2 & u2 & E2 & F2).
  apply wp_bind. unfold dev_get_parent. apply wp_bind, (wp_get_dev d u2); [done|]. apply wp_ret. apply wp_bind.
  assert (forall s3, calm d (flags_ u) s s3 -> wp (dev_bic_flags d DM_FLAG_PLATDATA_VALID;; (devres_release_probe ext d;; ret tt)) s3 P) as K.
  { clear - Q H. intros s3 C3. destruct (calm_dev _ _ _ _ C3) as (L3 & u3 & E3 & F3). apply wp_bind, (wp_upd_dev d u3); [done|].
    apply wp_bind, wp_quiet; [apply q_ext|]. intros r w. apply wp_ret, H, calm_world. eapply calm_trans; [exact C3|].
    replace (flags_ (bic_flags DM_FLAG_PLATDATA_VALID u)) with (flags_ (bic_flags DM_FLAG_PLATDATA_VALID u3)) by (cbn; by rewrite F3).
    apply (calm_upd s3 d u3); try done; [by apply same_bic|]. intros k. apply own_same; try done. by apply same_bic. }
  destruct (parent u2) as [p|] eqn:Ep; [|by apply wp_ret, K].
  destruct (parent_there s2 d u2 p (proj1 L2) E2 Ep) as (_ & pu & Epu).
  apply wp_bind, (wp_per_child_size s2 p pu); [apply L2|done|]. intros z.
  apply (wp_free_slot s2 d u2 _ _ _ _ _ parent_priv_slot L2 E2). intros s3 C3. rewrite F2 in C3. apply K. by eapply calm_trans.
Qed.

Lemma wp_alloc_priv s d u (P : Z -> dm W -> Prop) : lb s -> dm_devs s !! d = Some u ->
  (forall r s', calm d (flags_ u) s s' -> P r s') -> wp (device_alloc_priv drivers uclass_drivers ext d) s P.
Proof using Q.
  intros L E H. unfold device_alloc_priv. apply wp_bind, (wp_drv_of s d u); [apply L|done|]. intros v _ _.
  apply wp_bind, (wp_alloc_slot s d u _ _ _ _ _ priv_slot L E). intros r1 s1 C1. destruct (negb (r1 =? 0)); [by apply wp_ret, H|].
  destruct (calm_dev _ _ _ _ C1) as (L1 & u1 & E1 & F1). apply wp_bind, (wp_uc_drv_of s1 d u1); [apply L1|done|]. intros uv _ _.
  apply wp_bind, (wp_alloc_slot s1 d u1 _ _ _ _ _ uclass_priv_slot L1 E1). intros r2 s2 C2. rewrite F1 in C2.
  assert (C := calm_trans _ _ _ _ _ _ C1 C2). clear C1 C2. destruct (negb (r2 =? 0)); [by apply wp_ret, H|].
  destruct (calm_dev _ _ _ _ C) as (L2 & u2 & E2 & F2). unfold dev_get_parent. apply wp_bind, wp_bind, (wp_get_dev d u2); [done|]. apply wp_ret.
  destruct (parent u2) as [p|] eqn:Ep; [|by apply wp_ret, H].
  destruct (parent_there s2 d u2 p (proj1 L2) E2 Ep) as (_ & pu & Epu). apply wp_bind, (wp_per_child_size s2 p pu); [apply L2|done|]. intros z.
  apply (wp_alloc_slot s2 d u2 _ _ _ _ _ parent_priv_slot L2 E2). intros r3 s3 C3. rewrite F2 in C3. apply H. by eapply calm_trans.
Qed.

(** Reading the data of one device: valid or freed. *)
Lemma wp_to_plat_self s d u (P : Z -> dm W -> Prop) : lb s -> dm_devs s !! d = Some u ->
  (forall r s', calm d (flags_ (if r =? 0 then or_flags DM_FLAG_PLATDATA_VALID u else bic_flags DM_FLAG_PLATDATA_VALID u)) s s' -> P r s') ->
  wp (to_plat_self drivers uclass_drivers ext d) s P.
Proof using Q.
  intros L E H. unfold to_plat_self. apply wp_bind, (wp_alloc_priv s d u _ L E). intros r1 s1 C1. destruct (calm_dev _ _ _ _ C1) as (L1 & u1 & E1 & F1).
  assert (forall r s2, r <> 0 -> calm d (flags_ u) s s2 -> wp (device_free drivers uclass_drivers ext d;; ret r) s2 P) as K.
  { intros r s2 Hr C2. destruct (calm_dev _ _ _ _ C2) as (L2 & u2 & E2 & F2). apply wp_bind, (wp_device_free s2 d u2 _ L2 E2). intros s3 C3.
    apply wp_ret, H. apply Z.eqb_neq in Hr as ->. eapply calm_trans; [exact C2|]. cbn in C3 |- *. by rewrite F2 in C3. }
  destruct (Z.eqb_spec r1 0) as [->|N]; cbn [negb]; [|by apply K].
  apply wp_bind, (wp_get_dev d u1); [done|]. apply wp_bind, (wp_drv_of s1 d u1); [apply L1|done|]. intros v _ Qv.
  apply wp_bind. assert (forall r w, wp (if negb (r =? 0) then device_free drivers uclass_drivers ext d;; ret r
      else dev_or_flags d DM_FLAG_PLATDATA_VALID;; ret 0) (set_world s1 w) P) as K2.
  { intros r w. destruct (Z.eqb_spec r 0) as [->|N]; cbn [negb]; [|by apply K; [|by apply calm_world]].
    apply wp_bind, (wp_upd_dev d u1); [done|]. apply wp_ret, H. cbn [Z.eqb]. eapply calm_trans; [exact (calm_world _ _ _ _ w C1)|].
    replace (flags_ (or_flags DM_FLAG_PLATDATA_VALID u)) with (flags_ (or_flags DM_FLAG_PLATDATA_VALID u1)) by (cbn; by rewrite F1).
    apply (calm_upd (set_world s1 w) d u1); [by apply lb_world|done|by apply same_or|]. intros k. apply own_same; try done. by apply same_or. }
  destruct (has_ofnode u1); [apply wp_or_hook; [apply Qv|exact K2]|]. apply wp_ret. rewrite <- (set_world_same s1). apply K2.
Qed.

(** * The parents *)

Definition up (s : dm W) (a b : Z) : Prop := exists u, dm_devs s !! a = Some u /\ parent u = Some b.
(** [e] is [d] or above it. *)
Definition anc (s : dm W) : Z -> Z -> Prop := rtc (up s).

Lemma anc_le s d e : links s -> anc s d e -> e <= d.
Proof using. intros L A. induction A as [|a b e (u & E & Hp) _ IH]; [lia|]. destruct (lk_parent _ _ _ L a u b E Hp) as [Lt _]. lia. Qed.

Lemma anc_back T s s' d e : evolves T s s' -> anc s' d e -> anc s d e.
Proof using.
  intros V A. induction A as [|a b e (u' & E & Hp) _ IH]; [apply rtc_refl|]. eapply rtc_l; [|exact IH].
  destruct (evolves_back _ _ _ _ _ V E) as (u & E0 & S & _). exists u. by rewrite <- (sd_parent _ _ S).
Qed.

(** As many devices are active as were. *)
Definition act_same (s s' : dm W) : Prop :=
  forall e v v', dm_devs s !! e = Some v -> dm_devs s' !! e = Some v' -> (is_active v' <-> is_active v).

Lemma act_same_refl s : act_same s s.
Proof using. intros e v v' E E'. rewrite E in E'. by injection E' as ->. Qed.
Lemma act_same_trans s s1 s2 T : evolves T s s1 -> act_same s s1 -> act_same s1 s2 -> act_same s s2.
Proof using.
  intros V A1 A2 e v v' E E'. destruct (ev_dev _ _ _ V e v E) as (v1 & E1 & _). by rewrite (A2 e v1 v' E1 E'), (A1 e v v1 E E1).
Qed.

Lemma calm_act d f s s' u : calm d f s s' -> dm_devs s !! d = Some u -> Z.testbit f 0 = Z.testbit (flags_ u) 0 -> act_same s s'.
Proof using.
  intros (_ & V & u' & E' & F) E B e v v' Ev Ev'. destruct (decide (e = d)) as [->|N].
  - rewrite E in Ev. rewrite E' in Ev'. injection Ev as <-. injection Ev' as <-. by rewrite !active_bit, F, B.
  - destruct (ev_dev _ _ _ V e v Ev) as (v1 & E1 & _ & K). rewrite Ev' in E1. injection E1 as <-. by rewrite K by congruence.
Qed.

(** Changing what is not active. *)
Lemma alive_inactive (T : Z -> Prop) s s' : alive s -> evolves T s s' -> act_same s s' ->
  (forall e v, dm_devs s !! e = Some v -> T e -> ~ is_active v) -> alive s'.
Proof using.
  intros A V S N d u' E' H. destruct (evolves_back _ _ _ _ _ V E') as (u & E & Sd & K). assert (is_active u) as Ha by (by apply (S d u u' E E')).
  assert (u' = u) as -> by (apply K; intros T1; by apply (N d u E T1)). destruct (A d u E Ha) as [Hv Hp]. split; [done|].
  intros p pu' Hpp Ep'. destruct (evolves_back _ _ _ _ _ V Ep') as (pu & Ep & _). apply (S p pu pu' Ep Ep'). by apply (Hp p pu).
Qed.

(** * Reading the data *)

Definition not_valid (s : dm W) (e : Z) : Prop := forall v, dm_devs s !! e = Some v -> ~ is_valid v.

Record plat_post (s : dm W) (d r : Z) (s' : dm W) : Prop := {
  pp_lb : lb s'; pp_alive : alive s';
  pp_ev : evolves (fun e => anc s d e /\ not_valid s e) s s';
  pp_act : act_same s s';
  pp_valid : exists u', dm_devs s' !! d = Some u' /\ (r = 0 <-> is_valid u')
}.

(** The end of [device_of_to_plat], in a state the parents have changed. *)
Lemma plat_end s s1 s2 d u r f :
  alive s -> dm_devs s !! d = Some u -> ~ is_valid u -> dm_devs s1 !! d = Some u ->
  evolves (fun e => anc s d e /\ not_valid s e) s s1 -> act_same s s1 -> alive s1 ->
  calm d f s1 s2 -> Z.testbit f 0 = Z.testbit (flags_ u) 0 -> (r = 0 <-> Z.testbit f 12 = true) -> plat_post s d r s2.
Proof using.
  intros A E Hv E1 V1 S1 A1 C B R. pose proof (calm_act _ _ _ _ u C E1 B) as S2. destruct C as (L2 & V2 & u2 & E2 & F2).
  assert (not_valid s d) as Nv by (intros v Ev; congruence).
  split; [done| | | |].
  - eapply (alive_inactive (eq d)); [exact A1|exact V2|exact S2|]. intros e v Ev <-. rewrite E1 in Ev. injection Ev as <-.
    intros Ha. by destruct (A1 d u E1 Ha).
  - eapply evolves_trans; [exact V1|]. eapply evolves_mono; [|exact V2]. intros e <-. split; [apply rtc_refl|done].
  - by eapply act_same_trans.
  - exists u2. split; [done|]. by rewrite valid_bit, F2.
Qed.

Lemma valid_dec_flag u : has_flag (flags_ u) DM_FLAG_PLATDATA_VALID = bool_decide (is_valid u).
Proof using. case_bool_decide as H; unfold is_valid in H; [done|by apply not_true_is_false]. Qed.

Lemma bits_or_valid u : Z.testbit (flags_ (or_flags DM_FLAG_PLATDATA_VALID u)) 0 = Z.testbit (flags_ u) 0 /\
  Z.testbit (flags_ (or_flags DM_FLAG_PLATDATA_VALID u)) 12 = true.
Proof using. cbn [or_flags with_flags_ flags_]. rewrite !Z.lor_spec. change (Z.testbit _ 0) with false at 2. change (Z.testbit DM_FLAG_PLATDATA_VALID 12) with true. by rewrite orb_false_r, orb_true_r. Qed.
Lemma bits_bic_valid u : Z.testbit (flags_ (bic_flags DM_FLAG_PLATDATA_VALID u)) 0 = Z.testbit (flags_ u) 0 /\
  Z.testbit (flags_ (bic_flags DM_FLAG_PLATDATA_VALID u)) 12 = false.
Proof using. cbn [bic_flags with_flags_ flags_]. rewrite !Z.land_spec, !Z.lnot_spec by lia. change (Z.testbit DM_FLAG_PLATDATA_VALID 0) with false. change (Z.testbit DM_FLAG_PLATDATA_VALID 12) with true. by rewrite andb_true_r, andb_false_r. Qed.

Lemma wp_of_to_plat fuel : forall s d u (P : Z -> dm W -> Prop), lb s -> alive s -> dm_devs s !! d = Some u -> (Z.to_nat d < fuel)%nat ->
  (forall r s', plat_post s d r s' -> P r s') -> wp (device_of_to_plat drivers uclass_drivers ext fuel d) s P.
Proof using Q.
  induction fuel as [|n IH]; intros s d u P L A E Hf H; [lia|]. cbn [device_of_to_plat].
  apply wp_bind. unfold dev_get_flags at 1. apply wp_bind, (wp_get_dev d u); [done|]. apply wp_ret. rewrite valid_dec_flag.
  case_bool_decide as Hv.
  { apply wp_ret, H. split; [done|done|apply evolves_refl|apply act_same_refl|by exists u]. }
  apply wp_bind. unfold dev_get_parent at 1. apply wp_bind, (wp_get_dev d u); [done|]. apply wp_ret.
  assert (forall s1, lb s1 -> alive s1 -> evolves (fun e => anc s d e /\ not_valid s e) s s1 -> act_same s s1 -> dm_devs s1 !! d = Some u ->
    wp (to_plat_self drivers uclass_drivers ext d) s1 P) as K.
  { intros s1 L1 A1 V1 S1 E1. apply (wp_to_plat_self s1 d u _ L1 E1). intros r s2 C. apply H.
    destruct (Z.eqb_spec r 0) as [->|N]; eapply (plat_end s s1 s2 d u); try done; first [apply (bits_or_valid u)|apply (bits_bic_valid u)|idtac].
    - by rewrite (proj2 (bits_or_valid u)).
    - by rewrite (proj2 (bits_bic_valid u)). }
  destruct (parent u) as [p|] eqn:Ep.
  2:{ apply K; try done; [apply evolves_refl|apply act_same_refl]. }
  destruct (lk_parent _ _ _ (proj1 L) d u p E Ep) as (Lt & pu & Epu & _). pose proof (lk_next _ _ _ (proj1 L) p pu Epu).
  apply wp_bind, (IH s p pu); [done|done|done|lia|]. intros r s1 [L1 A1 V1 S1 _].
  assert (dm_devs s1 !! d = Some u) as E1.
  { destruct (ev_dev _ _ _ V1 d u E) as (u1 & E1 & _ & Ku). rewrite E1, Ku; [done|]. intros [Ha _]. pose proof (anc_le s p d (proj1 L) Ha). lia. }
  assert (evolves (fun e => anc s d e /\ not_valid s e) s s1) as V.
  { eapply evolves_mono; [|exact V1]. intros e [Ha Hn]. split; [|done]. eapply rtc_l; [|exact Ha]. by exists u. }
  destruct (Z.eqb_spec r 0) as [->|N]; cbn [negb].
  - apply wp_bind. unfold dev_get_flags. apply wp_bind, (wp_get_dev d u); [done|]. apply wp_ret. rewrite valid_dec_flag, bool_decide_false by done. by apply K.
  - apply wp_bind, (wp_device_free s1 d u _ L1 E1). intros s2 C. apply wp_ret, H. eapply (plat_end s s1 s2 d u); try done; [apply (bits_bic_valid u)|].
    by rewrite (proj2 (bits_bic_valid u)).
Qed.

(** * Removal *)

Context `{R : !Polite drivers uclass_drivers ext}.

Lemma wp_polite h d s (P : Z -> dm W -> Prop) : oquiet h -> polite h -> (forall r w, r <> - EKEYREJECTED -> P r (set_world s w)) -> wp (or_hook h d) s P.
Proof using.
  intros Qh Ph H. destruct h as [f|]; cbn.
  - destruct (Qh f eq_refl d s) as (r & w & E). exists r, (set_world s w). split; [done|]. apply H. by eapply Ph.
  - apply wp_ret. rewrite <- (set_world_same s). by apply H.
Qed.

Definition act_in (s : dm W) (e : Z) : Prop := exists v, dm_devs s !! e = Some v /\ is_active v.

(** Nothing becomes active. *)
Definition act_less (s s' : dm W) : Prop := forall e, act_in s' e -> act_in s e.

(** An active device stops, its children having stopped. *)
Lemma alive_off s s' d u u' : alive s -> dm_devs s !! d = Some u ->
  (forall c v, dm_devs s !! c = Some v -> parent v = Some d -> ~ is_active v) ->
  evolves (eq d) s s' -> dm_devs s' !! d = Some u' -> ~ is_active u' -> alive s' /\ act_less s s'.
Proof using.
  intros A E Hc V E' N. assert (forall e v', dm_devs s' !! e = Some v' -> is_active v' -> e <> d /\ dm_devs s !! e = Some v') as K.
  { intros e v' Ev' Ha. destruct (evolves_back _ _ _ _ _ V Ev') as (v & Ev & _ & Kv). assert (e <> d) as Ne by congruence. by rewrite Kv by congruence. }
  split.
  - intros e v' Ev' Ha. destruct (K e v' Ev' Ha) as [Ne Ev]. destruct (A e v' Ev Ha) as [Hv Hp]. split; [done|]. intros p pu' Hpp Ep'.
    destruct (decide (p = d)) as [->|Np]; [by destruct (Hc e v' Ev Hpp)|]. destruct (evolves_back _ _ _ _ _ V Ep') as (pu & Ep & _ & Kp).
    rewrite Kp by congruence. by apply (Hp p pu).
  - intros e (v' & Ev' & Ha). destruct (K e v' Ev' Ha) as [_ Ev]. by exists v'.
Qed.

Record rem_post (T : Z -> Prop) (s : dm W) (r : Z) (s' : dm W) : Prop := {
  rm_wf : wf s'; rm_ev : evolves (fun e => T e /\ act_in s e) s s'; rm_less : act_less s s'; rm_ret : r <> - EKEYREJECTED
}.

Lemma wf_world s w : wf s -> wf (set_world s w).
Proof using. intros [L B A]. destruct (lb_world drivers uclass_drivers s w (conj L B)). by split. Qed.

Lemma rem_same T s r w : wf s -> r <> - EKEYREJECTED -> rem_post T s r (set_world s w).
Proof using. intros Wf Hr. split; [by apply wf_world|apply evolves_world|by intros e|done]. Qed.

Lemma rem_none T s r : wf s -> r <> - EKEYREJECTED -> rem_post T s r s.
Proof using. intros Wf Hr. pose proof (rem_same T s r (dm_world s) Wf Hr) as H. by rewrite set_world_same in H. Qed.

(** One device, in a state its children have left. *)
Lemma wp_remove_self s d u flags (P : Z -> dm W -> Prop) : wf s -> dm_devs s !! d = Some u -> is_active u ->
  (forall c v, dm_devs s !! c = Some v -> parent v = Some d -> ~ is_active v) -> gentle flags ->
  (forall r s', rem_post (eq d) s r s' -> (r = 0 -> ~ act_in s' d) -> P r s') -> wp (remove_self drivers uclass_drivers ext d flags) s P.
Proof using Q R.
  intros Wf E Ha Hc Hn H. pose proof (wf_links _ _ _ Wf) as L. pose proof (wf_bufs _ _ _ Wf) as B. unfold remove_self.
  apply wp_bind, (wp_drv_of s d u); [done..|]. intros v Ev Qv. specialize (Hn (drv_flags v)). destruct (Z.eqb_spec (flags_remove flags (drv_flags v)) 0) as [_|N]; cbn [negb].
  2:{ apply wp_ret, H; [by apply rem_none|done]. }
  apply wp_bind. unfold uclass_pre_remove_device. apply wp_bind, (wp_uc_drv_of s d u); [done..|]. intros uv Euv Quv.
  apply wp_polite; [apply Quv|by eapply p_uclasses|]. intros r1 w1 N1. destruct (Z.eqb_spec r1 0) as [->|N]; cbn [negb].
  2:{ apply wp_ret, H; [by apply rem_same|done]. }
  apply wp_bind, wp_polite; [apply Qv|by eapply p_drivers|]. intros r2 w2 N2. change (set_world (set_world s w1) w2) with (set_world s w2).
  destruct (Z.eqb_spec r2 0) as [->|N]; cbn [negb]. 2:{ apply wp_ret, H; [by apply rem_same|done]. }
  apply wp_bind. unfold dev_get_parent. apply wp_bind, (wp_get_dev d u); [done|]. apply wp_ret.
  assert (forall w, wp (device_free drivers uclass_drivers ext d;; (dev_bic_flags d DM_FLAG_ACTIVATED;; device_notify ext EVT_DM_POST_REMOVE d)) (set_world s w) P) as K.
  { intros w. apply wp_bind, (wp_device_free (set_world s w) d u); [by apply lb_world|done|]. intros s1 C1. destruct (calm_dev _ _ _ _ C1) as (L1 & u1 & E1 & F1).
    apply wp_bind, (wp_upd_dev d u1); [done|]. set (s2 := set_devs s1 _).
    assert (calm d (flags_ (bic_flags DM_FLAG_ACTIVATED u1)) s1 s2) as C2.
    { apply (calm_upd s1 d u1); try done; [by apply same_bic|]. intros k. apply own_same; try done. by apply same_bic. }
    pose proof (calm_trans _ _ _ _ _ _ C1 C2) as (L2 & V2 & u2 & E2 & F2). assert (evolves (eq d) s s2) as V by (eapply evolves_trans; [apply evolves_world|exact V2]).
    assert (~ is_active u2) as N2'. { rewrite active_bit, F2, <- active_bit. apply bic_active. }
    destruct (alive_off s s2 d u u2 (wf_alive _ _ _ Wf) E Hc V E2 N2') as [A2 Le].
    change (device_notify ext EVT_DM_POST_REMOVE d) with (or_hook (Some (device_notify ext EVT_DM_POST_REMOVE)) d).
    apply wp_polite; [intros f [= <-]; apply q_ext|apply p_post|]. intros r w' Nr. apply H.
    - split; [apply wf_world; by split; [apply L2|apply L2|]| |exact Le|done]. eapply evolves_trans; [|apply evolves_world].
      eapply evolves_mono; [|exact V]. intros e <-. split; [done|]. by exists u.
    - intros _ (v' & Ev' & Hv'). change (dm_devs s2 !! d = Some v') in Ev'. rewrite E2 in Ev'. by injection Ev' as <-. }
  assert (forall w, wp ((if negb (has_flag flags DM_REMOVE_NO_PD) && negb (has_flag (drv_flags v) (Z.lor DM_FLAG_DEFAULT_PD_CTRL_OFF DM_FLAG_LEAVE_PD_ON)) &&
       negb (bool_decide (cur_serial_dev ext = Some d)) then dev_power_domain_off ext d else ret 0);;
       (device_free drivers uclass_drivers ext d;; (dev_bic_flags d DM_FLAG_ACTIVATED;; device_notify ext EVT_DM_POST_REMOVE d))) (set_world s w) P) as K2.
  { intros w. apply wp_bind. match goal with |- context [if ?b then _ else _] => destruct b end; [|by apply wp_ret].
    apply wp_quiet; [apply q_ext|]. intros r w'. apply K. }
  apply wp_bind. destruct (parent u) as [p|] eqn:Ep; [|by apply wp_ret].
  destruct (parent_there s d u p L E Ep) as (_ & pu & Epu). apply wp_bind, (wp_drv_of (set_world s w2) p pu); [apply (lb_world drivers uclass_drivers s w2 (conj L B))|done|].
  intros pv _ Qpv. apply wp_or_hook; [apply Qpv|]. intros r w. apply K2.
Qed.

Definition below (B : Z) (s : dm W) : Prop := forall d u, dm_devs s !! d = Some u -> d < B.

Lemma below_evolves B T s s' : below B s -> evolves T s s' -> below B s'.
Proof using. intros H V d u E. destruct (evolves_back _ _ _ _ _ V E) as (u0 & E0 & _). by apply (H d u0). Qed.

Lemma rem_trans T T1 T2 s s1 s2 r1 r2 : rem_post T1 s r1 s1 -> rem_post T2 s1 r2 s2 ->
  (forall e, T1 e -> T e) -> (forall e, T2 e -> T e) -> rem_post T s r2 s2.
Proof using.
  intros [W1 V1 L1 N1] [W2 V2 L2 N2] I1 I2. split; [done| |intros e H; auto|done]. eapply evolves_trans.
  - eapply evolves_mono; [|exact V1]. intros e [H1 H2]. auto.
  - eapply evolves_mono; [|exact V2]. intros e [H1 H2]. auto.
Qed.

(** [e] is below [d], or [d]. *)
Definition sub (s : dm W) (d e : Z) : Prop := anc s e d.

Definition below_child (s : dm W) (d e : Z) : Prop := sub s d e /\ e <> d.

Definition remove_ok (fuel : nat) (flags : Z) : Prop := forall s d u B (P : Z -> dm W -> Prop),
  wf s -> below B s -> dm_devs s !! d = Some u -> (2 * Z.to_nat (B - d) + 1 <= fuel)%nat ->
  (forall r s', rem_post (sub s d) s r s' -> (r = 0 -> ~ act_in s' d) -> P r s') ->
  wp (device_remove drivers uclass_drivers ext fuel d flags) s P.

Definition remove_loop_ok (fuel : nat) (flags : Z) : Prop := forall s d u B l1 l2 result (P : Z -> dm W -> Prop),
  wf s -> below B s -> dm_devs s !! d = Some u -> child_head u = l1 ++ l2 ->
  (match l2 with [] => 1 | c :: _ => 2 * Z.to_nat (B - c) + 2 end <= fuel)%nat ->
  result <> - EKEYREJECTED -> (result = 0 -> forall c, c ∈ l1 -> ~ act_in s c) ->
  (forall r s', rem_post (below_child s d) s r s' -> (r = 0 -> forall c, c ∈ child_head u -> ~ act_in s' c) -> P r s') ->
  wp (chld_remove_loop drivers uclass_drivers ext fuel d (hd_error l2) None flags result) s P.

Lemma remove_loop_step n flags : remove_ok n flags -> remove_loop_ok n flags -> remove_loop_ok (S n) flags.
Proof using.
  intros IHr IHl s d u B l1 l2 result P Wf Hb E El Hf Hr Hi H. pose proof (wf_links _ _ _ Wf) as L. cbn [chld_remove_loop].
  destruct l2 as [|c l2]; cbn [hd_error].
  { apply wp_ret, H; [by apply rem_none|rewrite El, app_nil_r; exact Hi]. }
  pose proof (lk_sorted _ _ _ L d u E) as Ss. rewrite El in Ss. destruct (sorted_not_in _ _ _ Ss) as [Nc Fc].
  destruct (lk_child _ _ _ L d u c E) as (cu & Ec & Hp). { rewrite El. apply elem_of_app. right. apply elem_of_cons. by left. }
  destruct (lk_parent _ _ _ L c cu d Ec Hp) as (Lt & _). pose proof (Hb c cu Ec) as Hc.
  unfold next_child at 1. apply wp_bind, wp_bind, (wp_get_dev d u); [done|]. apply wp_ret. rewrite El, next_after_app by done.
  apply wp_bind, (wp_get_dev c cu); [done|]. cbn [bool_decide]. rewrite bool_decide_false by (by intros []). cbn [andb].
  apply wp_bind, (IHr s c cu B); [done..|lia|]. intros r s1 Pr Hd. pose proof Pr as [W1 V1 L1 N1].
  assert (dm_devs s1 !! d = Some u) as E1.
  { destruct (ev_dev _ _ _ V1 d u E) as (u1 & E1 & _ & Ku). rewrite E1, Ku; [done|]. intros [Ha _]. pose proof (anc_le s d c L Ha). lia. }
  assert (forall e, below_child s1 d e -> below_child s d e) as Ib by (intros e [Ha Ne]; split; [by eapply anc_back|done]).
  assert (forall e, sub s c e -> below_child s d e) as Ic.
  { intros e Ha. split; [|intros ->; pose proof (anc_le s d c L Ha); lia]. eapply rtc_r; [exact Ha|]. by exists cu. }
  assert (forall res, res <> - EKEYREJECTED -> (res = 0 -> result = 0 /\ r = 0) ->
    wp (chld_remove_loop drivers uclass_drivers ext n d (hd_error l2) None flags res) s1 P) as K.
  { intros res Hres Hz. apply (IHl s1 d u B (l1 ++ [c]) l2); try done.
    - by eapply below_evolves.
    - by rewrite <- app_assoc.
    - destruct l2 as [|c' l2]; [lia|]. apply Forall_cons in Fc as [Fc _]. destruct (lk_child _ _ _ L d u c' E) as (cu' & Ec' & _).
      { rewrite El. apply elem_of_app. right. apply elem_of_cons. right. apply elem_of_cons. by left. } pose proof (Hb c' cu' Ec'). lia.
    - intros Hz0 x Hx Ha. destruct (Hz Hz0) as [Hz1 Hz2]. apply elem_of_app in Hx as [Hx|Hx%list_elem_of_singleton].
      + by apply (Hi Hz1 x Hx), L1.
      + subst x. by apply Hd.
    - intros r' s2 Pr' Hd'. apply H; [|done]. by eapply (rem_trans (below_child s d)). }
  destruct (Z.eqb_spec r (- EPROBE_DEFER)) as [->|N]; [apply K; [done|]; unfold EPROBE_DEFER; lia|].
  destruct (Z.eqb_spec r 0) as [->|N0]; cbn [negb andb]; [apply K; auto|].
  apply Z.eqb_neq in N1 as N1'. rewrite N1'. cbn [negb]. apply wp_ret, H; [|done].
  eapply (rem_trans (below_child s d)); [exact Pr|by apply (rem_none (below_child s1 d))|done|exact Ib].
Qed.

Lemma active_flag u : has_flag (flags_ u) DM_FLAG_ACTIVATED = bool_decide (is_active u).
Proof using. case_bool_decide as H; unfold is_active in H; [done|by apply not_true_is_false]. Qed.

Lemma remove_step n flags : gentle flags -> remove_loop_ok n flags -> remove_ok (S n) flags.
Proof using Q R.
  intros Hn IHl s d u B P Wf Hb E Hf H. pose proof (wf_links _ _ _ Wf) as L. pose proof (Hb d u E) as Hd. cbn [device_remove].
  unfold dev_get_flags. apply wp_bind, wp_bind, (wp_get_dev d u); [done|]. apply wp_ret. rewrite active_flag. case_bool_decide as Ha; cbn [negb].
  2:{ apply wp_ret, H; [by apply rem_none|]. intros _ (v & Ev & Hv). congruence. }
  change (device_notify ext EVT_DM_PRE_REMOVE d) with (or_hook (Some (device_notify ext EVT_DM_PRE_REMOVE)) d).
  apply wp_bind, wp_polite; [intros f [= <-]; apply q_ext|apply p_pre|]. intros r w Nr. destruct (Z.eqb_spec r 0) as [->|N]; cbn [negb].
  2:{ apply wp_ret, H; [by apply rem_same|done]. }
  apply wp_bind, (wp_get_dev d u); [done|]. apply wp_bind. pose proof (wf_world s w Wf) as Wf'.
  apply (IHl (set_world s w) d u B [] (child_head u)); try done.
  { destruct (child_head u) as [|c l2] eqn:El; [lia|]. destruct (lk_child _ _ _ L d u c E) as (cu & Ec & Hp); [rewrite El; by left|].
    destruct (lk_parent _ _ _ L c cu d Ec Hp) as (Lt & _). pose proof (Hb c cu Ec). lia. }
  { intros _ c Hc. by apply elem_of_nil in Hc. }
  intros r s1 Pr Hc. pose proof Pr as [W1 V1 L1 N1]. 
  assert (dm_devs s1 !! d = Some u) as E1.
  { destruct (ev_dev _ _ _ V1 d u E) as (u1 & E1 & _ & Ku). rewrite E1, Ku; [done|]. by intros [[_ ?] _]. }
  assert (rem_post (sub s d) s r s1) as P1.
  { destruct Pr as [W2 V2 L2 N2]. split; try done. eapply evolves_trans; [apply (evolves_world _ s w)|].
    eapply evolves_mono; [|exact V2]. intros e [[Hs _] Hx]. split; [exact Hs|exact Hx]. }
  assert (negb (r =? - EKEYREJECTED) = true) as Nk by (apply negb_true_iff, Z.eqb_neq; done). rewrite Nk, andb_true_r.
  destruct (Z.eqb_spec r 0) as [->|N]; cbn [negb]; [|by apply wp_ret, H].
  apply (wp_remove_self s1 d u flags); try done.
  - intros c v Ev Hp Hv. destruct (lk_parent _ _ _ (wf_links _ _ _ W1) c v d Ev Hp) as (_ & pu & Epu & Hin). rewrite E1 in Epu. injection Epu as <-.
    apply (Hc eq_refl c Hin). by exists v.
  - intros r s2 Pr2 Hd2. apply H; [|done]. eapply (rem_trans (sub s d)); [exact P1|exact Pr2|done|]. intros e <-. apply rtc_refl.
Qed.

Lemma remove_all_ok flags : gentle flags -> forall fuel, remove_ok fuel flags /\ remove_loop_ok fuel flags.
Proof using Q R.
  intros Hn. induction fuel as [|n [IHr IHl]].
  - split; [intros s d u B P Wf Hb E Hf; lia|]. intros s d u B l1 l2 result P Wf Hb E El Hf. destruct l2; lia.
  - split; [by apply remove_step|by apply remove_loop_step].
Qed.

(** * Probing *)

(** A step that changes nothing of the driver model but fields of [d]. *)
Definition calm_step (d : Z) (par : option Z) (m : @M W Z) : Prop := forall s u (P : Z -> dm W -> Prop),
  lb s -> dm_devs s !! d = Some u -> parent u = par -> (forall r s', calm d (flags_ u) s s' -> P r s') -> wp m s P.

Lemma calm_quiet d par f : quiet f -> calm_step d par (f d).
Proof using. intros Hf s u P L E Hp H. apply wp_quiet; [done|]. intros r w. by apply H, calm_world, calm_same. Qed.
Lemma calm_hook d par h : oquiet h -> calm_step d par (or_hook h d).
Proof using. intros Hf s u P L E Hp H. apply wp_or_hook; [done|]. intros r w. by apply H, calm_world, calm_same. Qed.
Lemma calm_ret d par : calm_step d par (ret 0).
Proof using. intros s u P L E Hp H. by apply wp_ret, H, calm_same. Qed.
Lemma calm_if d par (b : bool) m : calm_step d par m -> calm_step d par (if b then m else ret 0).
Proof using. intros H. destruct b; [done|apply calm_ret]. Qed.

(** One step and what follows it. *)
Lemma calm_bind {A} d par f s0 s m (k : Z -> @M W A) (P : A -> dm W -> Prop) : calm_step d par m -> calm d f s0 s ->
  (forall u, dm_devs s !! d = Some u -> parent u = par) ->
  (forall r s', calm d f s0 s' -> (forall u, dm_devs s' !! d = Some u -> parent u = par) -> wp (k r) s' P) -> wp (bind m k) s P.
Proof using.
  intros Hm C Hp H. destruct (calm_dev _ _ _ _ C) as (L & u & E & F). apply wp_bind, (Hm s u); [done|done|by apply Hp|]. intros r s' C'.
  apply H; [eapply calm_trans; [exact C|by rewrite F in C']|]. intros u' E'. rewrite (calm_parent _ _ _ _ _ _ C' E E'). by apply Hp.
Qed.

(** The parent's driver and uclass. *)
Lemma calm_parent_hook d p (pick : driver_rec W -> option hook) : (forall v, quiet_driver v -> oquiet (pick v)) ->
  calm_step d (Some p) (let! pv := drv_of drivers p in or_hook (pick pv) d).
Proof using Q.
  intros Hq s u P L E Hp H. destruct (parent_there s d u p (proj1 L) E Hp) as (_ & pu & Epu). apply wp_bind, (wp_drv_of s p pu); [apply L|done|].
  intros pv _ Qv. apply (calm_hook d (Some p) _ (Hq pv Qv) s u); done.
Qed.
Lemma calm_uclass_hook d par e (pick : uclass_driver W -> option hook) : e = d \/ par = Some e -> (forall v, quiet_uclass v -> oquiet (pick v)) ->
  calm_step d par (let! v := uc_drv_of uclass_drivers e in or_hook (pick v) d).
Proof using Q.
  intros He Hq s u P L E Hp H. assert (exists eu, dm_devs s !! e = Some eu) as [eu Ee].
  { destruct He as [->|He]; [by exists u|]. rewrite He in Hp. by destruct (parent_there s d u e (proj1 L) E Hp) as (_ & pu & Epu); exists pu. }
  apply wp_bind, (wp_uc_drv_of s e eu); [apply L|done|]. intros v _ Qv. apply (calm_hook d par _ (Hq v Qv) s u); done.
Qed.

Lemma calm_dma d par : calm_step d par (device_get_dma_constraints ext d).
Proof using Q.
  intros s u P L E Hp H. unfold device_get_dma_constraints, dev_get_parent. apply wp_bind, wp_bind, (wp_get_dev d u); [done|]. apply wp_ret.
  destruct (parent u) as [p|] eqn:Ep; [|by apply wp_ret, H, calm_same]. destruct (parent_there s d u p (proj1 L) E Ep) as (_ & pu & Epu).
  apply wp_bind, (wp_get_dev p pu); [done|]. destruct (negb (dm_dma ext) || negb (has_ofnode pu)); [by apply wp_ret, H, calm_same|].
  apply wp_bind. destruct (qe_dma ext q_ext p s) as ([r off] & w & Er). exists (r, off), (set_world s w). split; [done|].
  destruct (negb (r =? 0) && negb (r =? - ENOENT)); [by apply wp_ret, H, calm_world, calm_same|].
  apply wp_bind, (wp_upd_dev d u); [done|]. apply wp_ret, H. eapply calm_trans; [by apply calm_world, calm_same|].
  apply (calm_upd (set_world s w) d u (with_dma u off)); [by apply lb_world|done|by split|]. intros k. by apply own_same.
Qed.

Lemma calm_pre_probe d par : calm_step d par (uclass_pre_probe_device uclass_drivers d).
Proof using Q.
  intros s u P L E Hp H. unfold uclass_pre_probe_device. apply wp_bind, (wp_uc_drv_of s d u); [apply L|done|]. intros v _ Qv.
  apply wp_bind, wp_or_hook; [apply Qv|]. intros r w. destruct (negb (r =? 0)); [by apply wp_ret, H, calm_world, calm_same|].
  unfold dev_get_parent. apply wp_bind, wp_bind, (wp_get_dev d u); [done|]. apply wp_ret.
  destruct (parent u) as [p|] eqn:Ep; [|by apply wp_ret, H, calm_world, calm_same].
  apply (calm_uclass_hook d (Some p) p uc_child_pre_probe (or_intror eq_refl)) with (u := u); [by intros x Qx; apply Qx|by apply lb_world|done|done|].
  intros r' s' C. apply H. eapply calm_trans; [by apply calm_world, calm_same|exact C].
Qed.

Lemma calm_post_probe d par : calm_step d par (uclass_post_probe_device uclass_drivers d).
Proof using Q.
  intros s u P L E Hp H. unfold uclass_post_probe_device, dev_get_parent. apply wp_bind, wp_bind, (wp_get_dev d u); [done|]. apply wp_ret.
  assert (calm_step d par (match parent u with None => ret 0 | Some p => let! ucd := uc_drv_of uclass_drivers p in or_hook (uc_child_post_probe ucd) d end)) as K.
  { destruct (parent u) as [p|] eqn:Ep; [|apply calm_ret]. apply calm_uclass_hook; [by right|]. by intros x Qx; apply Qx. }
  apply (calm_bind d par (flags_ u) s s _ _ _ K); [by apply calm_same|intros u' E'; congruence|]. intros r s1 C1 Hp1.
  destruct (negb (r =? 0)); [by apply wp_ret, H|]. destruct (calm_dev _ _ _ _ C1) as (L1 & u1 & E1 & F1).
  apply (calm_uclass_hook d par d uc_post_probe (or_introl eq_refl)) with (u := u1); [by intros x Qx; apply Qx|done|done|by apply Hp1|].
  intros r' s' C. apply H. eapply calm_trans; [exact C1|by rewrite F1 in C].
Qed.

Lemma wp_probe_steps s d u v uid (P : Z * bool -> dm W -> Prop) : lb s -> dm_devs s !! d = Some u -> quiet_driver v ->
  (forall r b s', calm d (flags_ u) s s' -> P (r, b) s') -> wp (probe_steps drivers uclass_drivers ext d (parent u) v uid) s P.
Proof using Q.
  intros L E Qv H. unfold probe_steps. pose proof (calm_same s d u L E) as C. assert (forall u', dm_devs s !! d = Some u' -> parent u' = parent u) as Hp by (intros; congruence).
  remember (parent u) as par eqn:Epar. assert (forall s0 s1 m (k : Z -> @M W (Z * bool)) , calm_step d par m -> calm d (flags_ u) s0 s1 -> s0 = s ->
    (forall u', dm_devs s1 !! d = Some u' -> parent u' = par) ->
    (forall r s', calm d (flags_ u) s s' -> (forall u', dm_devs s' !! d = Some u' -> parent u' = par) -> wp (k r) s' P) -> wp (bind m k) s1 P) as Step.
  { intros s0 s1 m k Hm C1 -> Hp1 Hk. by apply (calm_bind d par (flags_ u) s s1 m k P). }
  assert (forall r s', calm d (flags_ u) s s' -> wp (ret (r, false)) s' P) as Stop by (intros; by apply wp_ret, H).
  apply (Step s s); [apply calm_if, calm_quiet, q_ext|done..|]. intros r1 s1 C1 H1. destruct (negb (r1 =? 0)); [by apply Stop|].
  apply (Step s s1); [apply calm_if, calm_quiet, q_ext|done..|]. intros r2 s2 C2 H2.
  apply (Step s s2); [apply calm_if, calm_quiet, q_ext|done..|]. intros r3 s3 C3 H3. destruct (negb (r3 =? 0)); [by apply Stop|].
  apply (Step s s3); [apply calm_dma|done..|]. intros r4 s4 C4 H4. destruct (negb (r4 =? 0)); [by apply Stop|].
  apply (Step s s4); [apply calm_pre_probe|done..|]. intros r5 s5 C5 H5. destruct (negb (r5 =? 0)); [by apply Stop|].
  apply (Step s s5); [destruct par as [p|]; [apply calm_parent_hook; by intros x Qx; apply Qx|apply calm_ret]|done..|]. intros r6 s6 C6 H6.
  destruct (negb (r6 =? 0)); [by apply Stop|]. destruct (calm_dev _ _ _ _ C6) as (L6 & u6 & E6 & F6). apply wp_bind, (wp_get_dev d u6); [done|].
  apply (Step s s6); [apply calm_if, calm_quiet, q_ext|done..|]. intros r7 s7 C7 H7. destruct (negb (r7 =? 0)); [by apply Stop|].
  apply (Step s s7); [apply calm_hook, Qv|done..|]. intros r8 s8 C8 H8. destruct (negb (r8 =? 0)); [by apply Stop|].
  apply (Step s s8); [apply calm_post_probe|done..|]. intros r9 s9 C9 H9. destruct (negb (r9 =? 0)); [by apply wp_ret, H|].
  apply (Step s s9); [apply calm_if, calm_quiet, q_ext|done..|]. intros r10 s10 C10 H10.
  apply (Step s s10); [apply calm_quiet, q_ext|done..|]. intros r11 s11 C11 H11. by apply wp_ret, H.
Qed.

Lemma wp_probe_fail s d u r (P : Z -> dm W -> Prop) : lb s -> dm_devs s !! d = Some u ->
  (forall s' u', lb s' -> evolves (eq d) s s' -> dm_devs s' !! d = Some u' -> ~ is_active u' -> P r s') ->
  wp (probe_fail drivers uclass_drivers ext d r) s P.
Proof using Q.
  intros L E H. unfold probe_fail. apply wp_bind, (wp_upd_dev d u); [done|].
  assert (calm d (flags_ (bic_flags DM_FLAG_ACTIVATED u)) s (set_devs s (<[d := bic_flags DM_FLAG_ACTIVATED u]> (dm_devs s)))) as C.
  { apply (calm_upd s d u); try done; [by apply same_bic|]. intros k. apply own_same; try done. by apply same_bic. }
  destruct (calm_dev _ _ _ _ C) as (L1 & u1 & E1 & F1). apply wp_bind, (wp_device_free _ d u1 _ L1 E1). intros s2 C2. apply wp_ret.
  destruct (calm_trans _ _ _ _ _ _ C C2) as (L2 & V2 & u2 & E2 & F2). apply (H s2 u2); try done.
  rewrite active_bit, F2, <- active_bit, (proj2 (bic_valid u1)), active_bit, F1, <- active_bit. apply bic_active.
Qed.

Record probe_post (T : Z -> Prop) (s : dm W) (d r : Z) (s' : dm W) : Prop := {
  pb_wf : wf s'; pb_ev : evolves T s s'; pb_act : r = 0 <-> act_in s' d
}.

Definition children_idle (s : dm W) (d : Z) : Prop := forall c v, dm_devs s !! c = Some v -> parent v = Some d -> ~ is_active v.

Lemma idle_below s d u : alive s -> dm_devs s !! d = Some u -> ~ is_active u -> children_idle s d.
Proof using. intros A E N c v Ev Hp Ha. destruct (A c v Ev Ha) as [_ H]. by apply N, (H d u). Qed.

Lemma idle_evolves s s' d : evolves (eq d) s s' -> (forall v u, dm_devs s !! d = Some v -> parent v = Some u -> u <> d) -> children_idle s d -> children_idle s' d.
Proof using.
  intros V Hs H c v' Ev' Hp Ha. destruct (evolves_back _ _ _ _ _ V Ev') as (v & Ev & S & K). rewrite (sd_parent _ _ S) in Hp.
  destruct (decide (c = d)) as [->|N]; [by destruct (Hs v d Ev Hp)|]. rewrite K in Ha by congruence. by apply (H c v).
Qed.

(** Failing leaves an inactive device. *)
Lemma wp_fail_post (T : Z -> Prop) s0 s d u r (P : Z -> dm W -> Prop) : lb s -> alive s -> evolves T s0 s -> T d -> dm_devs s !! d = Some u -> children_idle s d -> r <> 0 ->
  (forall s', probe_post T s0 d r s' -> P r s') -> wp (probe_fail drivers uclass_drivers ext d r) s P.
Proof using Q.
  intros L A V Td E Hc Nr H. apply (wp_probe_fail s d u r _ L E). intros s' u' L' V' E' N'. destruct (alive_off s s' d u u' A E Hc V' E' N') as [A' _].
  apply H. split.
  - split; [apply L'|apply L'|done].
  - eapply evolves_trans; [exact V|]. eapply evolves_mono; [|exact V']. by intros e <-.
  - split; [done|]. intros (v & Ev & Hv). congruence.
Qed.

Lemma anc_act s e a : alive s -> links s -> anc s e a -> act_in s e -> act_in s a.
Proof using.
  intros A L H. induction H as [|e b a (u & E & Hp) _ IH]; [done|]. intros (v & Ev & Ha). apply IH. rewrite E in Ev. injection Ev as <-.
  destruct (lk_parent _ _ _ L e u b E Hp) as (_ & pu & Epu & _). exists pu. split; [done|]. destruct (A e u E Ha) as [_ K]. by apply (K b pu).
Qed.

Lemma idle_sub s d e : alive s -> links s -> children_idle s d -> sub s d e -> act_in s e -> e = d.
Proof using.
  intros A L Hc H Ha. apply rtc_inv_r in H as [->|(c & Hec & (cu & Ec & Hp))]; [done|]. exfalso.
  destruct (anc_act s e c A L Hec Ha) as (v & Ev & Hv). rewrite Ec in Ev. injection Ev as <-. by apply (Hc c cu).
Qed.

Lemma wf_calm s s' d u f : wf s -> dm_devs s !! d = Some u -> calm d f s s' -> f = flags_ u -> wf s'.
Proof using.
  intros Wf E C Ef. pose proof (calm_act _ _ _ _ u C E) as Sa. rewrite Ef in Sa. specialize (Sa eq_refl). destruct C as (L' & V' & u' & E' & F').
  split; [apply L'|apply L'|]. intros e v' Ev' Ha. destruct (evolves_back _ _ _ _ _ V' Ev') as (v & Ev & S & K).
  assert (is_active v) as Hv by (by apply (Sa e v v' Ev Ev')). destruct (wf_alive _ _ _ Wf e v Ev Hv) as [Hval Hpar]. split.
  - destruct (decide (e = d)) as [->|N]; [|by rewrite K by congruence]. rewrite E in Ev. injection Ev as <-. rewrite E' in Ev'. injection Ev' as <-.
    rewrite valid_bit, F', Ef, <- valid_bit. done.
  - intros p pu' Hp Ep'. rewrite (sd_parent _ _ S) in Hp. destruct (evolves_back _ _ _ _ _ V' Ep') as (pu & Ep & _). apply (Sa p pu pu' Ep Ep'). by apply (Hpar p pu).
Qed.

(** A device whose data is there and whose parent is active. *)
Lemma wp_probe_self fuel s d u B (P : Z -> dm W -> Prop) : wf s -> below B s -> dm_devs s !! d = Some u -> ~ is_active u -> is_valid u ->
  (forall p, parent u = Some p -> act_in s p) -> (2 * Z.to_nat (B - d) + 1 <= fuel)%nat ->
  (forall r s', probe_post (eq d) s d r s' -> P r s') -> wp (probe_self drivers uclass_drivers ext fuel d) s P.
Proof using Q R.
  intros Wf Hb E N Hv Hp Hf H. pose proof (wf_links _ _ _ Wf) as L. pose proof (wf_bufs _ _ _ Wf) as Bu. unfold probe_self.
  apply wp_bind, (wp_get_dev d u); [done|]. apply wp_bind, (wp_drv_of s d u); [done..|]. intros v _ Qv. apply wp_bind, (wp_uc_drv_of s d u); [done..|]. intros uv _ _.
  apply wp_bind, (wp_upd_dev d u); [done|]. set (u1 := or_flags DM_FLAG_ACTIVATED u). set (s1 := set_devs s _).
  assert (calm d (flags_ u1) s s1) as C1.
  { apply (calm_upd s d u); try done; [by apply same_or|]. intros k. apply own_same; try done. by apply same_or. }
  assert (dm_devs s1 !! d = Some u1) as E1 by (cbn; apply lookup_insert_eq). pose proof C1 as (L1 & V1 & _).
  assert (forall p, parent u = Some p -> p <> d) as Np by (intros p Hpp; by apply (parent_there s d u p L E)).
  assert (wf s1) as Wf1.
  { split; [apply L1|apply L1|]. intros e w Ew Ha. destruct (evolves_back _ _ _ _ _ V1 Ew) as (w0 & E0 & S & K).
    assert (is_valid w /\ forall p, parent w = Some p -> act_in s p) as [Hvw Hpw].
    { destruct (decide (e = d)) as [->|Ne].
      - rewrite E1 in Ew. injection Ew as <-. split; [by apply or_active|done].
      - rewrite K in * by congruence. destruct (wf_alive _ _ _ Wf e w0 E0 Ha) as [K1 K2]. split; [done|]. intros p Hpp.
        destruct (parent_there s e w0 p L E0 Hpp) as (_ & pu & Epu). exists pu. eauto. }
    split; [done|]. intros p pu Hpp Epu. destruct (Hpw p Hpp) as (pu0 & Ep0 & Hap). destruct (decide (p = d)) as [->|Nd].
    - rewrite E1 in Epu. injection Epu as <-. apply or_active.
    - destruct (ev_dev _ _ _ V1 p pu0 Ep0) as (x & Ex & _ & Kx). rewrite Epu in Ex. injection Ex as <-. by rewrite Kx by congruence. }
  assert (children_idle s1 d) as Hc1 by (eapply idle_evolves; [exact V1|intros x y Ex Hx; rewrite E in Ex; injection Ex as <-; by apply Np|by eapply idle_below; [apply Wf|..]]).
  apply wp_bind. change (parent u) with (parent u1). apply (wp_probe_steps s1 d u1 v (uc_id uv) _ L1 E1 Qv). intros r b s2 C2.
  pose proof (wf_calm s1 s2 d u1 _ Wf1 E1 C2 eq_refl) as Wf2. destruct C2 as (L2 & V2 & u2 & E2 & F2).
  assert (evolves (eq d) s s2) as V by (by eapply evolves_trans). assert (is_active u2) as Ha2 by (rewrite active_bit, F2, <- active_bit; apply or_active).
  destruct (Z.eqb_spec r 0) as [->|Nr]. { apply wp_ret, H. split; [done|done|]. split; [|done]. intros _. by exists u2. }
  assert (children_idle s2 d) as Hc2.
  { eapply idle_evolves; [exact V2| |exact Hc1]. intros x y Ex Hx. rewrite E1 in Ex. injection Ex as <-. by apply Np. }
  apply wp_bind. destruct b.
  2:{ apply wp_ret, (wp_fail_post (eq d) s s2 d u2); try done; try apply Wf2. by apply H. }
  assert (Hb2 : below B s2) by (by eapply below_evolves).
  apply (proj1 (remove_all_ok DM_REMOVE_NORMAL (gentle_normal DM_REMOVE_NORMAL eq_refl) fuel) s2 d u2 B); try done. intros r3 s3 [W3 V3 Le3 _] _.
  assert (evolves (eq d) s2 s3) as V3'.
  { eapply evolves_mono; [|exact V3]. intros e [Hs He]. symmetry. eapply (idle_sub s2 d e); try done; apply Wf2. }
  destruct (ev_dev _ _ _ V3' d u2 E2) as (u3 & E3 & S3 & _). assert (evolves (eq d) s s3) as V' by (by eapply evolves_trans).
  assert (children_idle s3 d) as Hc3.
  { eapply idle_evolves; [exact V3'| |exact Hc2]. intros x y Ex Hx. rewrite E2 in Ex. injection Ex as <-. apply Np. rewrite <- Hx. symmetry.
    destruct (ev_dev _ _ _ V d u E) as (x & Ex & Sx & _). rewrite E2 in Ex. injection Ex as <-. apply (sd_parent _ _ Sx). }
  apply (wp_fail_post (eq d) s s3 d u3); [split; apply W3|apply W3|exact V'|done|exact E3|exact Hc3|exact Nr|intros s' K; by apply H].
Qed.

(** What a probe may change: the device and its parents, those not active. *)
Definition to_wake (s : dm W) (d e : Z) : Prop := anc s d e /\ ~ act_in s e.

Lemma act_in_same T s s' e : evolves T s s' -> act_same s s' -> act_in s' e <-> act_in s e.
Proof using.
  intros V A. split.
  - intros (v' & E' & H). destruct (evolves_back _ _ _ _ _ V E') as (v & E & _). exists v. split; [done|]. by apply (A e v v').
  - intros (v & E & H). destruct (ev_dev _ _ _ V e v E) as (v' & E' & _). exists v'. split; [done|]. by apply (A e v v').
Qed.

Lemma plat_to_wake s s' d : alive s -> evolves (fun e => anc s d e /\ not_valid s e) s s' -> evolves (to_wake s d) s s'.
Proof using. intros A. apply evolves_mono. intros e [Ha Hn]. split; [done|]. intros (v & Ev & Hv). apply (Hn v Ev). by apply (A e v). Qed.

(** Probing behind the parents. *)
Lemma wp_probe_end fuel s0 s d u B (P : Z -> dm W -> Prop) : evolves (to_wake s0 d) s0 s -> ~ act_in s0 d -> wf s -> below B s ->
  dm_devs s !! d = Some u -> ~ is_active u -> is_valid u -> (forall p, parent u = Some p -> act_in s p) -> (2 * Z.to_nat (B - d) + 1 <= fuel)%nat ->
  (forall r s', probe_post (to_wake s0 d) s0 d r s' -> P r s') -> wp (probe_self drivers uclass_drivers ext fuel d) s P.
Proof using Q R.
  intros V N0 Wf Hb E N Hv Hp Hf H. apply (wp_probe_self fuel s d u B); try done. intros r s' [W' V' A']. apply H. split; [done| |done].
  eapply evolves_trans; [exact V|]. eapply evolves_mono; [|exact V']. intros e <-. split; [apply rtc_refl|done].
Qed.

Lemma wp_device_probe fuel : forall s d u B (P : Z -> dm W -> Prop), wf s -> below B s -> dm_devs s !! d = Some u ->
  (2 * Z.to_nat B + Z.to_nat d + 3 <= fuel)%nat -> (forall r s', probe_post (to_wake s d) s d r s' -> P r s') ->
  wp (device_probe drivers uclass_drivers ext fuel d) s P.
Proof using Q R.
  induction fuel as [|n IH]; intros s d u B P Wf Hb E Hf H; [lia|]. cbn [device_probe].
  pose proof (wf_links _ _ _ Wf) as L. pose proof (lk_next _ _ _ L d u E) as Hd.
  apply wp_bind, wp_bind, (wp_get_dev d u), wp_ret; [done|]. rewrite active_flag. case_bool_decide as Ha.
  { apply wp_ret, H. split; [done|apply evolves_refl|]. split; [|done]. intros _. by exists u. }
  assert (~ act_in s d) as N0 by (intros (v & Ev & Hv); congruence).
  apply wp_bind, wp_quiet; [apply q_ext|]. intros r w. destruct (Z.eqb_spec r 0) as [->|Nr]; cbn [negb].
  2:{ apply wp_ret, H. split; [by apply wf_world|apply evolves_world|]. split; [done|]. intros (v & Ev & Hv). cbn in Ev. congruence. }
  set (s0 := set_world s w). assert (wf s0) as Wf0 by (by apply wf_world).
  apply wp_bind, (wp_of_to_plat n s0 d u); [split; apply Wf0|apply Wf0|done|lia|]. intros r s1 [Lb1 A1 V1 S1 (u1 & E1 & Hr)].
  assert (evolves (to_wake s d) s s1) as V.
  { apply (plat_to_wake s0 s1 d) in V1; [|apply Wf0]. eapply evolves_trans; [apply evolves_world|exact V1]. }
  assert (~ is_active u1) as N1 by (intros K; by apply Ha, (S1 d u u1)).
  assert (to_wake s d d) as Td by (split; [apply rtc_refl|done]).
  destruct (Z.eqb_spec r 0) as [->|Nr]; cbn [negb].
  2:{ apply (wp_fail_post (to_wake s d) s s1 d u1); [done..|by eapply idle_below|done|intros s' K; by apply H]. }
  assert (wf s1) as Wf1 by (split; [apply Lb1|apply Lb1|done]). assert (below B s1) as Hb1 by (by eapply below_evolves).
  apply wp_bind, wp_bind, (wp_get_dev d u1), wp_ret; [done|]. pose proof (wf_links _ _ _ Wf1) as L1. destruct (parent u1) as [p|] eqn:Hp.
  2:{ apply (wp_probe_end n s s1 d u1 B); try done; [by apply Hr|intros p; congruence|lia]. }
  destruct (lk_parent _ _ _ L1 d u1 p E1 Hp) as (Lt & pu & Ep & _). pose proof (lk_next _ _ _ L1 p pu Ep).
  apply wp_bind, (IH s1 p pu B); [done..|lia|]. intros r s2 [Wf2 V2 A2].
  assert (dm_devs s2 !! d = Some u1) as E2.
  { destruct (ev_dev _ _ _ V2 d u1 E1) as (u2 & E2 & _ & K). rewrite E2. f_equal. apply K. intros [K' _]. pose proof (anc_le _ _ _ L1 K'). lia. }
  assert (evolves (to_wake s d) s s2) as V'.
  { eapply evolves_trans; [exact V|]. eapply evolves_mono; [|exact V2]. intros e [He Hn]. split.
    - eapply rtc_l; [|by eapply anc_back]. destruct (evolves_back _ _ _ _ _ V E1) as (x & Ex & Sx & _). exists x. by rewrite <- (sd_parent _ _ Sx).
    - intros K. apply Hn. by apply (act_in_same _ _ _ e V1 S1). }
  destruct (Z.eqb_spec r 0) as [->|Nr]; cbn [negb].
  2:{ apply (wp_fail_post (to_wake s d) s s2 d u1); [split; apply Wf2|apply Wf2|done..|eapply idle_below; [apply Wf2|done..]|done|intros s' K; by apply H]. }
  apply wp_bind, wp_bind, (wp_get_dev d u1), wp_ret; [done|]. rewrite active_flag, bool_decide_eq_false_2 by done.
  apply (wp_probe_end n s s2 d u1 B); try done; [by eapply below_evolves|by apply Hr| |lia].
  intros q Hq. rewrite Hp in Hq. injection Hq as <-. by apply A2.
Qed.
End Life.
