(* ===== verification/DmBind.v ===== *)
(** The driver model: binding a device.  A failed bind gives back all it took,
    a successful one adds the device to the tree and to the list of its uclass
    and keeps the invariant. *)

From stdpp Require Import gmap.
From S2P Require Import Prelude Bytes Cstring Dm DmWf DmLife.

(** * Memory as a stack *)

Definition push (o : option Z) (h : gset Z) : gset Z := match o with Some p => {[p]} ∪ h | None => h end.
Definition not_in (o : option Z) (h : gset Z) : Prop := forall p, o = Some p -> p ∉ h.

Lemma push_elem o h p : p ∈ push o h <-> o = Some p \/ p ∈ h.
Proof. destruct o as [q|]; cbn; [|split; [by right|by intros [|]]]. rewrite elem_of_union, elem_of_singleton. naive_solver. Qed.

Lemma push_pop p h : not_in (Some p) h -> (push (Some p) h) ∖ {[p]} = h.
Proof. intros N. apply leibniz_equiv. specialize (N p eq_refl). cbn. set_solver. Qed.

(** The memory of a device being bound, the last taken on top. *)
Definition plats (u : udevice) (h : gset Z) : gset Z := push (own u 1) (push (own u 2) (push (own u 0) h)).
Record plats_ok (u : udevice) (h : gset Z) : Prop := {
  po_plat : not_in (own u 0) h; po_uclass : not_in (own u 2) (push (own u 0) h); po_parent : not_in (own u 1) (push (own u 2) (push (own u 0) h))
}.

Definition link_parent (par : option Z) (d : Z) (m : gmap Z udevice) : gmap Z udevice :=
  match par with Some p => alter (fun pu => with_children pu (child_head pu ++ [d])) p m | None => m end.
Definition link_uclass (id d : Z) (l : list uclass) : list uclass :=
  map (fun uc => if uc_drv uc =? id then Uc (uc_drv uc) (uc_mem uc) (uc_priv uc) (dev_head uc ++ [d]) else uc) l.

Lemma without_notin d l : d ∉ l -> without d l = l.
Proof.
  intros H. induction l as [|x l IH]; [done|]. apply not_elem_of_cons in H as [N H]. unfold without in *. cbn [List.filter].
  destruct (Z.eqb_spec x d); [congruence|]. cbn [negb]. by rewrite IH.
Qed.
Lemma without_snoc d l : d ∉ l -> without d (l ++ [d]) = l.
Proof. intros H. unfold without. rewrite List.filter_app. fold (without d l). rewrite without_notin by done. cbn. by rewrite Z.eqb_refl, app_nil_r. Qed.
Lemma without_elem x d l : x ∈ without d l <-> x ∈ l /\ x <> d.
Proof. unfold without. rewrite !list_elem_of_In, List.filter_In, Bool.negb_true_iff, Z.eqb_neq. done. Qed.

#[global] Arguments without : simpl never.

(** * Failing *)

Section Bind.
Context {W : Type} (drivers : list (driver_rec W)) (uclass_drivers : list (uclass_driver W)) (ext : dm_ext W).
Context `{Q : !Quiet drivers uclass_drivers ext}.

#[local] Abbreviation links := (links drivers uclass_drivers).
#[local] Abbreviation lb := (lb drivers uclass_drivers).
#[local] Abbreviation wf := (wf drivers uclass_drivers).

Lemma wp_drv_at s d u v (P : driver_rec W -> dm W -> Prop) : dm_devs s !! d = Some u -> 0 <= driver u -> drivers !! Z.to_nat (driver u) = Some v ->
  P v s -> wp (drv_of drivers d) s P.
Proof using.
  intros E H0 Ev H. apply wp_bind, (wp_get_dev d u); [done|]. exists v, s. split; [|done]. unfold get_drv. rewrite Ev.
  by destruct (Z.leb_spec 0 (driver u)); [|lia].
Qed.
Lemma wp_get_uc_drv s id uc v (P : uclass_driver W -> dm W -> Prop) : uc_find s id = Some uc ->
  lists_uclass_lookup uclass_drivers id = Some v -> P v s -> wp (get_uc_drv uclass_drivers id) s P.
Proof using. intros Eu Ev H. apply wp_bind. exists uc, s. unfold uc_get. fold (uc_find s id). rewrite Eu. split; [done|]. exists v, s. by rewrite Ev. Qed.
Lemma wp_uc_drv_at s d u uc v (P : uclass_driver W -> dm W -> Prop) : dm_devs s !! d = Some u -> uc_find s (dev_uclass u) = Some uc ->
  lists_uclass_lookup uclass_drivers (dev_uclass u) = Some v -> P v s -> wp (uc_drv_of uclass_drivers d) s P.
Proof using. intros E Eu Ev H. apply wp_bind, (wp_get_dev d u); [done|]. by eapply wp_get_uc_drv. Qed.

Lemma wp_free_push o h s (P : unit -> dm W -> Prop) : dm_heap s = push o h -> not_in o h ->
  P tt (set_heap s h (dm_next s)) -> wp (free o) s P.
Proof using.
  intros E N H. destruct o as [p|]; cbn [push] in E.
  - exists tt. eexists. split; [unfold free; rewrite decide_True by (rewrite E; apply (push_elem (Some p)); by left); reflexivity|].
    change ({[p]} ∪ h) with (push (Some p) h) in E. by rewrite E, push_pop.
  - exists tt, s. split; [done|]. rewrite <- E in H. by destruct s.
Qed.

(** A state with the device [d] on top of [s1]. *)
Definition ov (s1 : dm W) (m : gmap Z udevice) (l : list uclass) (d : Z) (u : udevice) (n : Z) (w : W) : dm W :=
  Dm (<[d := u]> m) l (dm_up s1) (dm_root s1) (plats u (dm_heap s1)) n w.
Definition fin (s1 : dm W) (n : Z) (w : W) : dm W := Dm (dm_devs s1) (dm_ucs s1) (dm_up s1) (dm_root s1) (dm_heap s1) n w.

Lemma wp_quiet_ov f e s1 m l d u n w (P : Z -> dm W -> Prop) : quiet f -> (forall r w', P r (ov s1 m l d u n w')) -> wp (f e) (ov s1 m l d u n w) P.
Proof using. intros Hq H. apply wp_quiet; [done|]. intros r w'. apply H. Qed.
Lemma wp_hook_ov h e s1 m l d u n w (P : Z -> dm W -> Prop) : oquiet h -> (forall r w', P r (ov s1 m l d u n w')) -> wp (or_hook h e) (ov s1 m l d u n w) P.
Proof using. intros Hq H. apply wp_or_hook; [done|]. intros r w'. apply H. Qed.
Lemma wp_get_ov s1 m l d u n w (P : udevice -> dm W -> Prop) : P u (ov s1 m l d u n w) -> wp (get_dev d) (ov s1 m l d u n w) P.
Proof using. intros H. apply (wp_get_dev d u); [apply lookup_insert_eq|done]. Qed.
Lemma wp_upd_ov s1 m l d u u' n w f (P : unit -> dm W -> Prop) : f u = u' -> plats u' (dm_heap s1) = plats u (dm_heap s1) ->
  P tt (ov s1 m l d u' n w) -> wp (upd_dev d f) (ov s1 m l d u n w) P.
Proof using.
  intros <- Ep H. apply (wp_upd_dev d u); [apply lookup_insert_eq|]. unfold set_devs. cbn. rewrite insert_insert_eq. unfold ov in H. by rewrite Ep in H.
Qed.

Section Fails.
Context (s1 : dm W) (d : Z) (N : dm_devs s1 !! d = None).
#[local] Abbreviation h := (dm_heap s1).

Lemma wp_fail_alloc1 u n w r (P : Z * option Z -> dm W -> Prop) : plats u h = h -> (forall w', P (r, None) (fin s1 n w')) ->
  wp (fail_alloc1 ext d r) (ov s1 (dm_devs s1) (dm_ucs s1) d u n w) P.
Proof using N Q.
  intros Ep H. apply wp_bind, wp_quiet_ov; [apply q_ext|]. intros _ w'. apply wp_bind. exists tt. eexists.
  split; [unfold free_dev, ov; cbn; by rewrite lookup_insert_eq|]. apply wp_ret. unfold set_devs. cbn. rewrite delete_insert_id, Ep by done. apply H.
Qed.

(** One of the three: the place [k], which [set] empties. *)
Lemma wp_free_plat {A} m l u n w fl (slot : udevice -> option Z) (set : udevice -> option Z -> udevice) k (rest : @M W A) (P : A -> dm W -> Prop) :
  own u k = (if has_flag (flags_ u) fl then slot u else None) ->
  not_in (own u k) (plats (set u None) h) -> plats u h = push (own u k) (plats (set u None) h) ->
  (own u k = None -> plats (set u None) h = plats u h) ->
  (forall u', (has_flag (flags_ u) fl = true -> u' = set u None) -> (has_flag (flags_ u) fl = false -> u' = u) -> wp rest (ov s1 m l d u' n w) P) ->
  wp (let! u := get_dev d in
      (if has_flag (flags_ u) fl then free (slot u) ;; upd_dev d (fun u => set u None) else ret tt) ;; rest) (ov s1 m l d u n w) P.
Proof using.
  intros Eo Ni Ep En H. apply wp_bind, wp_get_ov, wp_bind. destruct (has_flag (flags_ u) fl) eqn:F; [|apply wp_ret, H; done].
  apply wp_bind. rewrite <- Eo. apply (wp_free_push _ (plats (set u None) h)); [exact Ep|exact Ni|].
  apply (wp_upd_dev d u); [apply lookup_insert_eq|]. unfold set_devs, set_heap, ov. cbn. rewrite insert_insert_eq. apply H; [done|congruence].
Qed.

Lemma wp_fail_alloc2 u n w r (P : Z * option Z -> dm W -> Prop) : plats_ok u h -> own u 1 = None -> own u 2 = None -> (forall w', P (r, None) (fin s1 n w')) ->
  wp (fail_alloc2 ext d r) (ov s1 (dm_devs s1) (dm_ucs s1) d u n w) P.
Proof using N Q.
  intros O O1 O2 H. assert (plats (dev_set_plat u None) h = h) as E0.
  { unfold plats. change (own (dev_set_plat u None) 1) with (own u 1). change (own (dev_set_plat u None) 2) with (own u 2).
    rewrite O1, O2. cbn. by destruct (has_flag _ _). }
  apply (wp_free_plat _ _ u n w DM_FLAG_ALLOC_PDATA plat_ dev_set_plat 0); rewrite ?E0.
  - done.
  - apply O.
  - unfold plats. by rewrite O1, O2.
  - intros Hn. unfold plats. by rewrite O1, O2, Hn.
  - intros u' H1 H2. apply wp_fail_alloc1; [|done]. destruct (has_flag (flags_ u) DM_FLAG_ALLOC_PDATA) eqn:F; [by rewrite H1|].
    rewrite H2 by done. unfold plats. rewrite O1, O2. cbn [own]. by rewrite F.
Qed.

Lemma wp_fail_alloc3 u n w r (P : Z * option Z -> dm W -> Prop) : plats_ok u h -> own u 1 = None -> (forall w', P (r, None) (fin s1 n w')) ->
  wp (fail_alloc3 ext d r) (ov s1 (dm_devs s1) (dm_ucs s1) d u n w) P.
Proof using N Q.
  intros O O1 H. set (u0 := dev_set_uclass_plat u None).
  assert (own u0 2 = None) as Hn by (cbn; by destruct (has_flag _ _)).
  assert (plats u0 h = push (own u 0) h) as E0 by (unfold plats; rewrite Hn; change (own u0 1) with (own u 1); by rewrite O1).
  apply (wp_free_plat _ _ u n w DM_FLAG_ALLOC_UCLASS_PDATA uclass_plat_ dev_set_uclass_plat 2); fold u0; rewrite ?E0.
  - done.
  - apply O.
  - unfold plats. by rewrite O1.
  - intros K. unfold plats. by rewrite O1, K.
  - intros u' H1 H2. destruct (has_flag (flags_ u) DM_FLAG_ALLOC_UCLASS_PDATA) eqn:F.
    + rewrite H1 by done. fold u0. apply wp_fail_alloc2; try done. split; [apply O| |]; intros p; [by rewrite Hn|]. change (own u0 1) with (own u 1). by rewrite O1.
    + rewrite H2 by done. apply wp_fail_alloc2; try done. cbn [own]. by rewrite F.
Qed.

(** Out of the list of the parent. *)
Lemma unlink_parent par u : (forall p, par = Some p -> p <> d /\ exists pu, dm_devs s1 !! p = Some pu /\ d ∉ child_head pu) ->
  parent u = par -> forall l n w (P : unit -> dm W -> Prop), P tt (ov s1 (dm_devs s1) l d u n w) ->
  wp (del_sibling d) (ov s1 (link_parent par d (dm_devs s1)) l d u n w) P.
Proof using.
  intros Hp <- l n w P H. apply wp_bind, wp_get_ov. destruct (parent u) as [p|]; [|by apply wp_ret].
  destruct (Hp p eq_refl) as (Nd & pu & Ep & Nc). cbn [link_parent].
  apply (wp_upd_dev p (with_children pu (child_head pu ++ [d]))); [cbn; rewrite lookup_insert_ne by done; by rewrite lookup_alter_eq, Ep|].
  unfold set_devs, ov. cbn [dm_devs dm_ucs dm_up dm_root dm_heap dm_next dm_world child_head with_children]. rewrite without_snoc by done. rewrite insert_insert_ne by done.
  replace (<[p := _]> (alter _ p (dm_devs s1))) with (dm_devs s1); [done|].
  apply map_eq. intros e. destruct (decide (e = p)) as [->|Ne]; [by rewrite lookup_insert_eq, Ep; destruct pu|by rewrite lookup_insert_ne, lookup_alter_ne].
Qed.

Context (par : option Z) (Hpar : forall p, par = Some p -> p <> d /\ exists pu, dm_devs s1 !! p = Some pu /\ d ∉ child_head pu).

Lemma wp_fail_uclass_bind u n w r (P : Z * option Z -> dm W -> Prop) : plats_ok u h -> parent u = par -> (forall w', P (r, None) (fin s1 n w')) ->
  wp (fail_uclass_bind ext d r) (ov s1 (link_parent par d (dm_devs s1)) (dm_ucs s1) d u n w) P.
Proof using N Q Hpar.
  intros O Hp H. apply wp_bind, (unlink_parent par u); try done. set (u0 := dev_set_parent_plat u None).
  assert (own u0 1 = None) as Hn by (cbn; by destruct (has_flag _ _)).
  assert (plats u0 h = push (own u 2) (push (own u 0) h)) as E0 by (unfold plats; by rewrite Hn).
  apply (wp_free_plat _ _ u n w DM_FLAG_ALLOC_PARENT_PDATA parent_plat_ dev_set_parent_plat 1); fold u0; rewrite ?E0.
  - done.
  - apply O.
  - done.
  - intros K. unfold plats. by rewrite K.
  - intros u' H1 H2. destruct (has_flag (flags_ u) DM_FLAG_ALLOC_PARENT_PDATA) eqn:F.
    + rewrite H1 by done. fold u0. apply wp_fail_alloc3; try done. split; [apply O|apply O|]. intros p. by rewrite Hn.
    + rewrite H2 by done. apply wp_fail_alloc3; try done. cbn [own]. by rewrite F.
Qed.

(** Out of the list of the uclass. *)
Lemma unlink_uclass id m u n w (P : unit -> dm W -> Prop) : dev_uclass u = id -> (forall uc, uc ∈ dm_ucs s1 -> d ∉ dev_head uc) ->
  P tt (ov s1 m (dm_ucs s1) d u n w) -> wp (del_uclass_node d) (ov s1 m (link_uclass id d (dm_ucs s1)) d u n w) P.
Proof using.
  intros <- Hn H. apply wp_bind, wp_get_ov. exists tt. eexists. split; [reflexivity|]. unfold set_ucs, ov. cbn.
  replace (map _ (link_uclass _ d (dm_ucs s1))) with (dm_ucs s1); [done|]. clear H. unfold link_uclass. rewrite map_map.
  induction (dm_ucs s1) as [|uc l IH]; [done|]. cbn. rewrite <- IH by (intros uc' Hi; apply Hn; by right). f_equal.
  specialize (Hn uc ltac:(by left)). destruct (uc_drv uc =? dev_uclass u) eqn:E; cbn; rewrite E; [|done]. rewrite without_snoc by done. by destruct uc.
Qed.

Context (id : Z) (Huc : forall uc, uc ∈ dm_ucs s1 -> d ∉ dev_head uc).

Lemma wp_fail_bind u n w r (P : Z * option Z -> dm W -> Prop) : plats_ok u h -> parent u = par -> dev_uclass u = id -> (forall w', P (r, None) (fin s1 n w')) ->
  wp (fail_bind ext d r) (ov s1 (link_parent par d (dm_devs s1)) (link_uclass id d (dm_ucs s1)) d u n w) P.
Proof using N Q Hpar Huc.
  intros O Hp Hu H. apply wp_bind, wp_bind, (unlink_uclass id); [done..|]. apply wp_ret. by apply wp_fail_uclass_bind.
Qed.
End Fails.

(** * Taking memory *)

(** Memory taken for [u] so far is below [n]. *)
Record taking (h : gset Z) (u : udevice) (n : Z) : Prop := { tk_ok : plats_ok u h; tk_next : forall p, p ∈ plats u h -> p < n }.

Lemma taking_same h u u' n n' : (forall k, (k < 3)%nat -> own u' k = own u k) -> n <= n' -> taking h u n -> taking h u' n'.
Proof using.
  intros E Hn [[O0 O2 O1] T]. split; [split|]; unfold plats; rewrite ?E by lia; try done. intros p Hp. specialize (T p Hp). lia.
Qed.

Lemma plats_same h u u' : (forall k, (k < 3)%nat -> own u' k = own u k) -> plats u' h = plats u h.
Proof using. intros E. unfold plats. by rewrite !E by lia. Qed.

(** The places filled before the place [k] is. *)
Definition top (k : nat) (u : udevice) : Prop := own u 1 = None /\ match k with 0%nat => own u 2 = None | _ => True end /\ own u k = None.

Lemma taking_push h u u' n k : (k < 3)%nat -> top k u -> own u' k = Some n -> (forall j, (j < 3)%nat -> j <> k -> own u' j = own u j) -> taking h u n ->
  taking h u' (n + 1) /\ plats u' h = {[n]} ∪ plats u h.
Proof using.
  intros Hk (T1 & T2 & T3) En Eo [[O0 O2 O1] T].
  assert (not_in (Some n) (plats u h)) as Nn by (intros p [= <-] Hp; specialize (T n Hp); lia).
  assert (plats u' h = {[n]} ∪ plats u h /\ plats_ok u' h) as [Ep Ok].
  { unfold plats in *. rewrite T1 in Nn |- *. destruct k as [|[|[|]]]; try lia; rewrite ?T2, ?T3 in Nn |- *; cbn [push] in *.
    - rewrite En, !Eo, T1, T2 by lia. split; [done|]. split; rewrite ?En, ?Eo, ?T1, ?T2 by lia; done.
    - rewrite En, !Eo by lia. split; [done|]. split; rewrite ?En, ?Eo by lia; done.
    - rewrite En, !Eo, T1 by lia. split; [done|]. split; rewrite ?En, ?Eo, ?T1 by lia; done. }
  split; [|done]. split; [done|]. rewrite Ep. intros p. rewrite elem_of_union, elem_of_singleton. intros [->|Hp]; [lia|]. specialize (T p Hp). lia.
Qed.

(** One allocation: the device gets [set], or the clean-up [bad] runs. *)
Lemma wp_take {A} s1 m l d u n w fl (slot : udevice -> option Z) (set : udevice -> option Z -> udevice) k (bad rest : @M W A) (P : A -> dm W -> Prop) :
  (k < 3)%nat -> top k u -> taking (dm_heap s1) u n -> (forall j, (j < 3)%nat -> own (or_flags fl u) j = own u j) ->
  (forall p, own (set (or_flags fl u) (Some p)) k = Some p) -> (forall p j, (j < 3)%nat -> j <> k -> own (set (or_flags fl u) p) j = own u j) ->
  wp bad (ov s1 m l d (or_flags fl u) (n + 1) w) P ->
  (forall u', u' = set (or_flags fl u) (Some n) -> taking (dm_heap s1) u' (n + 1) -> wp rest (ov s1 m l d u' (n + 1) w) P) ->
  wp (dev_or_flags d fl ;; let! ptr := calloc ext in match ptr with None => bad | Some _ => upd_dev d (fun u => set u ptr) ;; rest end) (ov s1 m l d u n w) P.
Proof using.
  intros Hk Ht T Ef Es Eo Hb Hr. apply wp_bind, (wp_upd_ov _ _ _ _ _ (or_flags fl u)); [done|by apply plats_same|]. apply wp_bind, wp_calloc.
  - set (u' := set (or_flags fl u) (Some n)). destruct (taking_push (dm_heap s1) u u' n k Hk Ht) as [T' Ep]; [apply Es|intros; by apply Eo|done|].
    apply wp_bind, (wp_upd_dev d (or_flags fl u)); [apply lookup_insert_eq|]. unfold set_devs, set_heap, ov. cbn. rewrite insert_insert_eq.
    specialize (Hr u' eq_refl T'). unfold ov in Hr. rewrite (plats_same _ u (or_flags fl u)) by done. rewrite Ep in Hr. exact Hr.
  - exact Hb.
Qed.
End Bind.

Lemma has_flag_lor x f g : has_flag (Z.lor x f) g = has_flag x g || has_flag f g.
Proof.
  unfold has_flag. rewrite Z.land_lor_distr_l. destruct (Z.eqb_spec (Z.land x g) 0) as [->|N]; cbn; [done|].
  apply Bool.negb_true_iff, Z.eqb_neq. intros [H _]%Z.lor_eq_0_iff. done.
Qed.

Lemma own_or_other f u k : Z.land f 26 = 0 -> own (or_flags f u) k = own u k.
Proof.
  intros H. assert (forall g, Z.land 26 g = g -> has_flag f g = false) as K.
  { intros g Hg. unfold has_flag. rewrite <- Hg, Z.land_assoc, H. done. }
  destruct k as [|[|[|]]]; cbn [own or_flags with_flags_ flags_ plat_ parent_plat_ uclass_plat_]; try done;
    rewrite has_flag_lor, K, orb_false_r by done; done.
Qed.
Lemma own_or_none f u k : (f = DM_FLAG_ALLOC_PDATA /\ plat_ u = None) \/ (f = DM_FLAG_ALLOC_PARENT_PDATA /\ parent_plat_ u = None) \/
  (f = DM_FLAG_ALLOC_UCLASS_PDATA /\ uclass_plat_ u = None) -> own (or_flags f u) k = own u k.
Proof.
  intros H. destruct k as [|[|[|]]]; cbn [own or_flags with_flags_ flags_ plat_ parent_plat_ uclass_plat_]; try done; rewrite has_flag_lor;
    destruct H as [[-> E]|[[-> E]|[-> E]]]; rewrite ?E; cbn; rewrite ?orb_false_r; try done; by destruct (has_flag _ _).
Qed.

(** The same device but for its memory and the flags of binding. *)
Definition kin (u u' : udevice) : Prop :=
  exists a b c f, u' = with_flags_ (with_plats u a b c) f /\ Z.land f LIFE_FLAGS = Z.land (flags_ u) LIFE_FLAGS.

Lemma kin_refl u : kin u u.
Proof. exists (plat_ u), (parent_plat_ u), (uclass_plat_ u), (flags_ u). split; [by destruct u|done]. Qed.
Lemma kin_or u u' g : kin u u' -> Z.land g LIFE_FLAGS = 0 -> kin u (or_flags g u').
Proof.
  intros (a & b & c & f & -> & E) Hg. exists a, b, c, (Z.lor f g). split; [done|]. by rewrite Z.land_lor_distr_l, Hg, Z.lor_0_r.
Qed.
Lemma kin_plats u u' a b c : kin u u' -> kin u (with_plats u' a b c).
Proof. intros (a' & b' & c' & f & -> & E). by exists a, b, c, f. Qed.

Lemma find_link id d l k : find (fun uc => uc_drv uc =? k) (link_uclass id d l) =
  option_map (fun uc => if uc_drv uc =? id then Uc (uc_drv uc) (uc_mem uc) (uc_priv uc) (dev_head uc ++ [d]) else uc) (find (fun uc => uc_drv uc =? k) l).
Proof.
  induction l as [|uc l IH]; [done|]. cbn. destruct (uc_drv uc =? id) eqn:E; cbn; destruct (uc_drv uc =? k) eqn:E'; cbn; rewrite ?E; try done.
Qed.

Section Seat.
Context {W : Type} (drivers : list (driver_rec W)) (uclass_drivers : list (uclass_driver W)) (ext : dm_ext W).
Context `{Q : !Quiet drivers uclass_drivers ext}.

#[local] Abbreviation links := (links drivers uclass_drivers).
#[local] Abbreviation wf := (wf drivers uclass_drivers).

(** There is a place for the device [d]. *)
Record seat (s1 : dm W) (d : Z) (u0 : udevice) (v : driver_rec W) (ucd : uclass_driver W) : Prop := {
  st_links : links s1; st_heap : forall p, p ∈ dm_heap s1 -> p < d;
  st_fresh : forall e u, dm_devs s1 !! e = Some u -> e < d;
  st_parent : forall p, parent u0 = Some p -> is_Some (dm_devs s1 !! p);
  st_driver : 0 <= driver u0 /\ drivers !! Z.to_nat (driver u0) = Some v;
  st_uclass : (exists uc, uc_find s1 (dev_uclass u0) = Some uc) /\ lists_uclass_lookup uclass_drivers (dev_uclass u0) = Some ucd
}.

Section At.
Context (s1 : dm W) (d : Z) (u0 : udevice) (v : driver_rec W) (ucd : uclass_driver W) (S : seat s1 d u0 v ucd).
#[local] Abbreviation m1 := (link_parent (parent u0) d (dm_devs s1)).
#[local] Abbreviation l1 := (link_uclass (dev_uclass u0) d (dm_ucs s1)).
#[local] Abbreviation h := (dm_heap s1).

Lemma seat_none : dm_devs s1 !! d = None.
Proof using S. destruct (dm_devs s1 !! d) as [u|] eqn:E; [|done]. pose proof (st_fresh _ _ _ _ _ S d u E). lia. Qed.

Lemma seat_parent p : parent u0 = Some p -> p <> d /\ exists pu, dm_devs s1 !! p = Some pu /\ d ∉ child_head pu.
Proof using S.
  intros Hp. destruct (st_parent _ _ _ _ _ S p Hp) as [pu Ep]. split; [intros ->; by rewrite seat_none in Ep|]. exists pu. split; [done|].
  intros Hc. destruct (lk_child _ _ _ (st_links _ _ _ _ _ S) p pu d Ep Hc) as (cu & Ec & _). by rewrite seat_none in Ec.
Qed.

Lemma seat_uclass uc : uc ∈ dm_ucs s1 -> d ∉ dev_head uc.
Proof using S. intros Hu Hd. destruct (lk_member _ _ _ (st_links _ _ _ _ _ S) uc d Hu Hd) as (x & Ex & _). by rewrite seat_none in Ex. Qed.

Lemma kin_fields u : kin u0 u -> driver u = driver u0 /\ parent u = parent u0 /\ dev_uclass u = dev_uclass u0.
Proof using. by intros (a & b & c & f & -> & _). Qed.

(** The driver and the uclass of the parent. *)
Lemma wp_parent_drv p m l u n w (P : driver_rec W -> dm W -> Prop) : parent u0 = Some p -> m = dm_devs s1 \/ m = m1 ->
  (forall pv, quiet_driver pv -> P pv (ov s1 m l d u n w)) -> wp (drv_of drivers p) (ov s1 m l d u n w) P.
Proof using Q S.
  intros Hp Hm H. destruct (seat_parent p Hp) as (Nd & pu & Ep & _). destruct (lk_driver _ _ _ (st_links _ _ _ _ _ S) p pu Ep) as (H0 & pv & Ev).
  assert (exists pu', dm_devs (ov s1 m l d u n w) !! p = Some pu' /\ driver pu' = driver pu) as (pu' & Ep' & Ed).
  { cbn. rewrite lookup_insert_ne by done. destruct Hm as [->| ->]; [by exists pu|]. rewrite Hp. cbn. rewrite lookup_alter_eq, Ep. by eexists. }
  apply (wp_drv_at _ _ p pu' pv); rewrite ?Ed; try done. apply H. by eapply q_drivers.
Qed.

Lemma wp_parent_uc p m l u n w (P : uclass_driver W -> dm W -> Prop) : parent u0 = Some p -> m = dm_devs s1 \/ m = m1 -> l = dm_ucs s1 \/ l = l1 ->
  (forall pv, quiet_uclass pv -> P pv (ov s1 m l d u n w)) -> wp (uc_drv_of uclass_drivers p) (ov s1 m l d u n w) P.
Proof using Q S.
  intros Hp Hm Hl H. destruct (seat_parent p Hp) as (Nd & pu & Ep & _). pose proof (st_links _ _ _ _ _ S) as L.
  destruct (lk_uclass _ _ _ L p pu Ep) as (uc & Eu & _). pose proof Eu as Eu'. unfold uc_find in Eu'. apply find_some in Eu' as [Hin Hid].
  apply Z.eqb_eq in Hid. apply list_elem_of_In in Hin. destruct (lk_ucdrv _ _ _ L uc Hin) as [pv Ev]. rewrite Hid in Ev.
  assert (exists pu', dm_devs (ov s1 m l d u n w) !! p = Some pu' /\ dev_uclass pu' = dev_uclass pu) as (pu' & Ep' & Ed).
  { cbn. rewrite lookup_insert_ne by done. destruct Hm as [->| ->]; [by exists pu|]. rewrite Hp. cbn. rewrite lookup_alter_eq, Ep. by eexists. }
  assert (exists uc', uc_find (ov s1 m l d u n w) (dev_uclass pu) = Some uc') as [uc' Eu'].
  { unfold uc_find in *. cbn. destruct Hl as [->| ->]; [by exists uc|]. rewrite find_link, Eu. by eexists. }
  apply (wp_uc_drv_at _ _ p pu' uc' pv); rewrite ?Ed; try done. apply H. by eapply q_uclasses.
Qed.

Lemma wp_self_drv m l u n w (P : driver_rec W -> dm W -> Prop) : kin u0 u -> P v (ov s1 m l d u n w) -> wp (drv_of drivers d) (ov s1 m l d u n w) P.
Proof using S.
  intros K H. destruct (kin_fields u K) as (Ed & _). destruct (st_driver _ _ _ _ _ S).
  apply (wp_drv_at _ _ d u v); rewrite ?Ed; try done. apply lookup_insert_eq.
Qed.
Lemma wp_self_uc m u n w (P : uclass_driver W -> dm W -> Prop) : kin u0 u -> P ucd (ov s1 m l1 d u n w) ->
  wp (uc_drv_of uclass_drivers d) (ov s1 m l1 d u n w) P.
Proof using S.
  intros K H. destruct (kin_fields u K) as (_ & _ & Eu). destruct (st_uclass _ _ _ _ _ S) as [(uc & Ef) El].
  assert (exists uc', uc_find (ov s1 m l1 d u n w) (dev_uclass u0) = Some uc') as [uc' Ef'].
  { unfold uc_find in *. cbn. rewrite find_link, Ef. by eexists. }
  apply (wp_uc_drv_at _ _ d u uc' ucd); rewrite ?Eu; try done. apply lookup_insert_eq.
Qed.

Context (P : Z * option Z -> dm W -> Prop).
Context (Hbad : forall r n w, r <> 0 -> d < n -> P (r, None) (fin s1 n w)).
Context (Hgood : forall u n w, kin u0 u -> has_flag (flags_ u) DM_FLAG_BOUND = true -> taking h u n -> d < n -> P (0, Some d) (ov s1 m1 l1 d u n w)).

Lemma wp_bind_hooks u n w : kin u0 u -> taking h u n -> d < n ->
  wp (bind_hooks drivers uclass_drivers ext d (parent u0)) (ov s1 m1 (dm_ucs s1) d u n w) P.
Proof using Q S Hbad Hgood.
  intros K T Hn. destruct (kin_fields u K) as (Ed & Ep & Eu). pose proof seat_none as N. pose proof seat_parent as Hp. pose proof seat_uclass as Hu.
  assert (forall r w', r <> 0 -> wp (fail_bind ext d r) (ov s1 m1 l1 d u n w') P) as Fb.
  { intros r w' Nr. apply (wp_fail_bind drivers uclass_drivers ext s1 d N (parent u0) Hp (dev_uclass u0)); try done; [apply T|auto]. }
  assert (forall r w', r <> 0 -> wp (fail_child_post_bind drivers ext d r) (ov s1 m1 l1 d u n w') P) as Fc.
  { intros r w' Nr. apply wp_bind, wp_self_drv; [done|]. apply wp_bind, wp_hook_ov; [|auto].
    destruct (st_driver _ _ _ _ _ S) as [_ Ev]. by apply (q_drivers _ _ Ev). }
  unfold bind_hooks. apply wp_bind. unfold uclass_bind_device. apply wp_bind, wp_get_ov. apply wp_bind. exists tt. eexists. split; [reflexivity|].
  unfold set_ucs. cbn [dm_devs dm_ucs dm_up dm_root dm_heap dm_next dm_world ov]. rewrite Eu. fold (link_uclass (dev_uclass u0) d (dm_ucs s1)).
  change (Dm _ _ _ _ _ _ _) with (ov s1 m1 l1 d u n w).
  assert (forall w', wp (let! v0 := drv_of drivers d in
            let! r := or_hook (drv_bind v0) d in
            if negb (r =? 0) then fail_bind ext d r
            else
              let! r := match parent u0 with None => ret 0 | Some p => let! pv := drv_of drivers p in or_hook (drv_child_post_bind pv) d end in
              if negb (r =? 0) then fail_child_post_bind drivers ext d r
              else
                let! ucd := uc_drv_of uclass_drivers d in
                let! r := or_hook (uc_post_bind ucd) d in
                if negb (r =? 0) then fail_child_post_bind drivers ext d r else dev_or_flags d DM_FLAG_BOUND ;; ret (0, Some d)) (ov s1 m1 l1 d u n w') P) as Rest.
  { intros w1. destruct (st_driver _ _ _ _ _ S) as [_ Ev]. destruct (st_uclass _ _ _ _ _ S) as [_ El].
    apply wp_bind, wp_self_drv; [done|]. apply wp_bind, wp_hook_ov; [by apply (q_drivers _ _ Ev)|]. intros r w2.
    destruct (Z.eqb_spec r 0) as [->|Nr]; cbn [negb]; [|by apply Fb]. apply wp_bind.
    assert (forall r w', wp (if negb (r =? 0) then fail_child_post_bind drivers ext d r
              else
                let! ucd := uc_drv_of uclass_drivers d in
                let! r := or_hook (uc_post_bind ucd) d in
                if negb (r =? 0) then fail_child_post_bind drivers ext d r else dev_or_flags d DM_FLAG_BOUND ;; ret (0, Some d)) (ov s1 m1 l1 d u n w') P) as End.
    { intros r w3. destruct (Z.eqb_spec r 0) as [->|Nr]; cbn [negb]; [|by apply Fc]. apply wp_bind, wp_self_uc; [done|].
      apply wp_bind, wp_hook_ov; [by apply (q_uclasses _ _ El)|]. intros r w4. destruct (Z.eqb_spec r 0) as [->|Nr]; cbn [negb]; [|by apply Fc].
      assert (forall k, (k < 3)%nat -> own (or_flags DM_FLAG_BOUND u) k = own u k) as Ob by (intros; by apply own_or_other).
      apply wp_bind, (wp_upd_ov _ _ _ _ _ (or_flags DM_FLAG_BOUND u)); [done|by apply plats_same|]. apply wp_ret, Hgood; try done.
      - by apply kin_or.
      - cbn. rewrite has_flag_lor. apply orb_true_r.
      - by eapply taking_same. }
    destruct (parent u0) as [p|] eqn:Epar; [|apply wp_ret, End]. apply wp_bind, wp_parent_drv; [done|rewrite Epar; by right|]. intros pv Qp.
    apply wp_hook_ov; [apply Qp|]. intros r w3. apply End. }
  rewrite Ep. destruct (parent u0) as [p|] eqn:Epar; [|by apply wp_ret, Rest]. apply wp_bind, wp_parent_uc; [done|rewrite Epar; by right|by right|]. intros pv Qp.
  apply wp_bind, wp_hook_ov; [apply Qp|]. intros r w1. destruct (Z.eqb_spec r 0) as [->|Nr]; cbn [negb]; [by apply wp_ret, Rest|].
  apply wp_bind, (unlink_uclass s1 d (dev_uclass u0)); [done..|]. apply wp_ret. destruct (Z.eqb_spec r 0); [done|]. cbn [negb].
  apply (wp_fail_uclass_bind drivers uclass_drivers ext s1 d N (Some p) Hp); try done; [apply T|auto].
Qed.

Lemma parent_slot_own u p : own (dev_set_parent_plat (or_flags DM_FLAG_ALLOC_PARENT_PDATA u) (Some p)) 1 = Some p.
Proof using. cbn. rewrite has_flag_lor. cbn. by rewrite orb_true_r. Qed.
Lemma uclass_slot_own u p : own (dev_set_uclass_plat (or_flags DM_FLAG_ALLOC_UCLASS_PDATA u) (Some p)) 2 = Some p.
Proof using. cbn. rewrite has_flag_lor. cbn. by rewrite orb_true_r. Qed.
Lemma plat_slot_own u p : own (dev_set_plat (or_flags DM_FLAG_ALLOC_PDATA u) (Some p)) 0 = Some p.
Proof using. cbn. rewrite has_flag_lor. cbn. by rewrite orb_true_r. Qed.

Lemma own_no_slot u k : parent_plat_ u = None \/ k <> 1%nat -> uclass_plat_ u = None \/ k <> 2%nat -> (0 < k < 3)%nat -> own u k = None.
Proof using.
  intros H1 H2 Hk. destruct k as [|[|[|]]]; try lia; cbn.
  - destruct H1 as [->|]; [by destruct (has_flag _ _)|lia].
  - destruct H2 as [->|]; [by destruct (has_flag _ _)|lia].
Qed.

(** Into the list of the parent. *)
Lemma wp_link_parent p u n w (R : unit -> dm W -> Prop) : parent u0 = Some p -> R tt (ov s1 m1 (dm_ucs s1) d u n w) ->
  wp (upd_dev p (fun pu => with_children pu (child_head pu ++ [d]))) (ov s1 (dm_devs s1) (dm_ucs s1) d u n w) R.
Proof using S.
  intros Hp H. destruct (seat_parent p Hp) as (Nd & pu & Ep & _). rewrite Hp in H. cbn [link_parent] in H.
  apply (wp_upd_dev p pu); [cbn; by rewrite lookup_insert_ne|]. unfold set_devs, ov in *. cbn [dm_devs dm_ucs dm_up dm_root dm_heap dm_next dm_world].
  rewrite insert_insert_ne by done.
  replace (<[p := _]> (dm_devs s1)) with (alter (fun pu => with_children pu (child_head pu ++ [d])) p (dm_devs s1)); [done|].
  apply map_eq. intros e. destruct (decide (e = p)) as [->|Ne]; [by rewrite lookup_insert_eq, lookup_alter_eq, Ep|by rewrite lookup_insert_ne, lookup_alter_ne].
Qed.

Lemma wp_bind_parent u n w : kin u0 u -> taking h u n -> d < n -> parent_plat_ u = None ->
  wp (bind_parent drivers uclass_drivers ext d (parent u0)) (ov s1 (dm_devs s1) (dm_ucs s1) d u n w) P.
Proof using Q S Hbad Hgood.
  intros K T Hn Hs. pose proof seat_none as N. unfold bind_parent.
  pose proof wp_bind_hooks as Hk. pose proof wp_link_parent as Hl. case_eq (parent u0); [intros p Hp|intros Hp].
  2:{ specialize (Hk u n w K T Hn). by rewrite Hp in Hk. }
  apply wp_bind, wp_parent_drv; [done|by left|]. intros pv _. apply wp_bind, wp_parent_uc; [done|by left|by left|]. intros pucd _.
  set (size := if _ =? 0 then _ else _).
  assert (forall u n w, kin u0 u -> taking h u n -> d < n ->
    wp (upd_dev p (fun pu => with_children pu (child_head pu ++ [d])) ;; bind_hooks drivers uclass_drivers ext d (Some p)) (ov s1 (dm_devs s1) (dm_ucs s1) d u n w) P) as Go.
  { intros u' n' w' K' T' Hn'. apply wp_bind, Hl; [done|]. rewrite <- Hp. by apply Hk. }
  apply wp_bind. destruct (negb (size =? 0)); [|by apply wp_ret, Go].
  assert (own u 1 = None) as O1 by (cbn; rewrite Hs; by destruct (has_flag _ _)).
  apply (wp_take ext s1 _ _ d u n w DM_FLAG_ALLOC_PARENT_PDATA parent_plat_ dev_set_parent_plat 1); try done; try lia.
  - intros j _. apply own_or_none. auto.
  - intros q. apply parent_slot_own.
  - intros q j _ Nj. rewrite <- (own_or_none DM_FLAG_ALLOC_PARENT_PDATA u j) by auto. destruct j as [|[|]]; try done; lia.
  - apply wp_ret. cbn [negb Z.opp Z.eqb]. change (negb (- ENOMEM =? 0)) with true. cbn iota.
    apply (wp_fail_alloc3 drivers uclass_drivers ext s1 d N).
    + eapply (taking_same _ u _ n); [|reflexivity|exact T]. intros j _. apply own_or_none. auto.
    + rewrite own_or_none by auto. done.
    + intros w'. apply Hbad; [done|lia].
  - intros u' -> T'. apply wp_ret. cbn. apply Go; [|done|lia]. apply kin_plats, kin_or; done.
Qed.

Lemma wp_bind_uclass_plat u n w : kin u0 u -> taking h u n -> d < n -> parent_plat_ u = None -> uclass_plat_ u = None ->
  wp (bind_uclass_plat drivers uclass_drivers ext d ucd (parent u0)) (ov s1 (dm_devs s1) (dm_ucs s1) d u n w) P.
Proof using Q S Hbad Hgood.
  intros K T Hn Hs Hs2. pose proof seat_none as N. unfold bind_uclass_plat. destruct (negb (_ =? 0)); [|by apply wp_bind_parent].
  assert (own u 1 = None /\ own u 2 = None) as [O1 O2] by (cbn; rewrite Hs, Hs2; split; by destruct (has_flag _ _)).
  apply (wp_take ext s1 _ _ d u n w DM_FLAG_ALLOC_UCLASS_PDATA uclass_plat_ dev_set_uclass_plat 2); try done; try lia.
  - intros j _. apply own_or_none. auto.
  - intros q. apply uclass_slot_own.
  - intros q j _ Nj. rewrite <- (own_or_none DM_FLAG_ALLOC_UCLASS_PDATA u j) by auto. destruct j as [|[|[|]]]; try done; lia.
  - apply (wp_fail_alloc2 drivers uclass_drivers ext s1 d N).
    + eapply (taking_same _ u _ n); [|reflexivity|exact T]. intros j _. apply own_or_none. auto.
    + rewrite own_or_none by auto. done.
    + rewrite own_or_none by auto. done.
    + intros w'. apply Hbad; [done|lia].
  - intros u' -> T'. apply wp_bind_parent; [|done|lia|done]. apply kin_plats, kin_or; done.
Qed.

Lemma wp_bind_plat u n w plat : kin u0 u -> taking h u n -> d < n -> parent_plat_ u = None -> uclass_plat_ u = None -> plat_ u = plat -> own u 0 = None ->
  wp (bind_plat drivers uclass_drivers ext d v ucd plat (parent u0)) (ov s1 (dm_devs s1) (dm_ucs s1) d u n w) P.
Proof using Q S Hbad Hgood.
  intros K T Hn Hs Hs2 Epl O0. pose proof seat_none as N. unfold bind_plat. destruct (negb (_ =? 0) && bool_decide (plat = None)) eqn:C; [|by apply wp_bind_uclass_plat].
  apply andb_true_iff in C as [_ C%bool_decide_eq_true_1]. subst plat.
  assert (own u 1 = None /\ own u 2 = None) as [O1 O2] by (cbn; rewrite Hs, Hs2; split; by destruct (has_flag _ _)).
  apply (wp_take ext s1 _ _ d u n w DM_FLAG_ALLOC_PDATA plat_ dev_set_plat 0); try done; try lia.
  - intros j _. apply own_or_none. auto.
  - intros q. apply plat_slot_own.
  - intros q j _ Nj. rewrite <- (own_or_none DM_FLAG_ALLOC_PDATA u j) by auto. destruct j as [|[|[|]]]; try done; lia.
  - apply (wp_fail_alloc1 drivers uclass_drivers ext s1 d N).
    + unfold plats. rewrite !own_or_none by auto. by rewrite O0, O1, O2.
    + intros w'. apply Hbad; [done|lia].
  - intros u' -> T'. apply wp_bind_uclass_plat; [|done|lia|done..]. apply kin_plats, kin_or; done.
Qed.
End At.
End Seat.
