(* ===== verification/DmTree.v ===== *)
(** The driver model: the invariant when a device joins the tree and when it
    leaves it, and what binding a device does to the tree, the uclasses and
    memory. *)

From stdpp Require Import gmap.
From S2P Require Import Prelude Bytes Cstring Dm DmWf DmLife DmBind.

Lemma sorted_snoc l (x : Z) : StronglySorted Z.lt l -> (forall y, y ∈ l -> y < x) -> StronglySorted Z.lt (l ++ [x]).
Proof.
  induction 1 as [|y l S IH F]; intros H; cbn; [repeat constructor|]. constructor; [apply IH; intros z Hz; apply H; by right|].
  apply Forall_app. split; [done|]. repeat constructor. apply H. by left.
Qed.
Lemma sorted_without l (x : Z) : StronglySorted Z.lt l -> StronglySorted Z.lt (without x l).
Proof.
  unfold without. induction 1 as [|y l S IH F]; cbn; [constructor|]. destruct (negb (y =? x)); [|done]. constructor; [done|].
  rewrite Forall_forall in *. intros z Hz. apply F. apply list_elem_of_In in Hz. apply List.filter_In in Hz as [Hz _]. by apply list_elem_of_In.
Qed.
Lemma nodup_without l (x : Z) : NoDup l -> NoDup (without x l).
Proof.
  unfold without. induction 1 as [|y l N H IH]; cbn; [constructor|]. destruct (negb (y =? x)); [|done]. constructor; [|done].
  intros Hz. apply N. apply list_elem_of_In in Hz. apply List.filter_In in Hz as [Hz _]. by apply list_elem_of_In.
Qed.

Lemma own_children u l k : own (with_children u l) k = own u k.
Proof. by destruct k as [|[|[|[|[|[|]]]]]]. Qed.
Lemma children_same u : with_children u (child_head u) = u.
Proof. by destruct u. Qed.

(** Lists of uclasses whose members change. *)
Definition with_members (f : uclass -> list Z) (uc : uclass) : uclass := Uc (uc_drv uc) (uc_mem uc) (uc_priv uc) (f uc).

Lemma find_members f l k : find (fun uc => uc_drv uc =? k) (map (with_members f) l) = option_map (with_members f) (find (fun uc => uc_drv uc =? k) l).
Proof. induction l as [|uc l IH]; [done|]. cbn. by destruct (uc_drv uc =? k). Qed.

(** The places of the device are disjoint, and disjoint from the rest. *)
Lemma plats_own h u n k p : taking h u n -> (k < 3)%nat -> own u k = Some p -> p ∈ plats u h /\ p ∉ h.
Proof.
  intros T Hk E. destruct T as [[O0 O2 O1] _]. unfold plats. rewrite !push_elem. destruct k as [|[|[|]]]; try lia.
  - split; [auto|by apply O0].
  - split; [auto|]. specialize (O1 p E). rewrite !push_elem in O1. tauto.
  - split; [auto|]. specialize (O2 p E). rewrite !push_elem in O2. tauto.
Qed.
Lemma plats_once h u n j k p : taking h u n -> (j < 3)%nat -> (k < 3)%nat -> own u j = Some p -> own u k = Some p -> j = k.
Proof.
  intros T Hj Hk Ej Ek. destruct T as [[O0 O2 O1] _].
  assert (forall a b, (a < 3)%nat -> (b < 3)%nat -> own u a = Some p -> own u b = Some p -> (a < b)%nat -> False) as C.
  { intros a b Ha Hb Ea Eb Lt. destruct a as [|[|[|]]], b as [|[|[|]]]; try lia.
    - apply (O1 p Eb). rewrite !push_elem. auto.
    - apply (O2 p Eb). rewrite !push_elem. auto.
    - apply (O1 p Ea). rewrite !push_elem. auto. }
  destruct (lt_eq_lt_dec j k) as [[Lt| ->]|Lt]; [exfalso; eauto|done|exfalso; eauto].
Qed.

Lemma kin_inactive u u' : kin u u' -> Z.land (flags_ u) LIFE_FLAGS = 0 -> ~ is_active u'.
Proof.
  intros (a & b & c & f & -> & Ef) Hf. rewrite Hf in Ef. rewrite active_bit. cbn. apply (f_equal (fun z => Z.testbit z 0)) in Ef.
  rewrite Z.land_spec in Ef. cbn in Ef. rewrite andb_true_r in Ef. congruence.
Qed.

Section Tree.
Context {W : Type} (drivers : list (driver_rec W)) (uclass_drivers : list (uclass_driver W)).

#[local] Abbreviation links := (links drivers uclass_drivers).
#[local] Abbreviation wf := (wf drivers uclass_drivers).

(** [s'] has the devices of [s] among those [keep] holds of, and perhaps [d];
    their lists of children are [ch], the members of the uclasses [mem]. *)
Record regrows (s s' : dm W) (keep : Z -> Prop) (ch : Z -> udevice -> list Z) (mem : uclass -> list Z) : Prop := {
  rg_fwd : forall e x, dm_devs s !! e = Some x -> keep e -> dm_devs s' !! e = Some (with_children x (ch e x));
  rg_ucs : dm_ucs s' = map (with_members mem) (dm_ucs s)
}.

Lemma rg_find s s' keep ch mem id : regrows s s' keep ch mem -> uc_find s' id = option_map (with_members mem) (uc_find s id).
Proof using. intros R. unfold uc_find. rewrite (rg_ucs _ _ _ _ _ R). apply find_members. Qed.
Lemma rg_in s s' keep ch mem uc' : regrows s s' keep ch mem -> uc' ∈ dm_ucs s' -> exists uc, uc ∈ dm_ucs s /\ uc' = with_members mem uc.
Proof using.
  intros R. rewrite (rg_ucs _ _ _ _ _ R). intros H. apply list_elem_of_In, in_map_iff in H as (uc & <- & H). exists uc. by rewrite list_elem_of_In.
Qed.
Lemma rg_names s s' keep ch mem : regrows s s' keep ch mem -> map uc_drv (dm_ucs s') = map uc_drv (dm_ucs s).
Proof using. intros R. rewrite (rg_ucs _ _ _ _ _ R), map_map. done. Qed.
Lemma find_uc_in (s : dm W) id uc : uc_find s id = Some uc -> uc ∈ dm_ucs s /\ uc_drv uc = id.
Proof using. unfold uc_find. intros [H%list_elem_of_In E%Z.eqb_eq]%find_some. done. Qed.

(** ** Joining *)

Section Join.
Context (ext : dm_ext W) (s1 : dm W) (d : Z) (u0 u : udevice) (v : driver_rec W) (ucd : uclass_driver W) (n : Z) (w : W).
Context (S : seat drivers uclass_drivers s1 d u0 v ucd) (K : kin u0 u) (T : taking (dm_heap s1) u n) (Hn : d < n) (H0 : 0 <= d).
Context (Hc : child_head u0 = []) (Hf : Z.land (flags_ u0) LIFE_FLAGS = 0) (Hp : priv_ u0 = None /\ uclass_priv_ u0 = None /\ parent_priv_ u0 = None).
#[local] Abbreviation s' := (ov s1 (link_parent (parent u0) d (dm_devs s1)) (link_uclass (dev_uclass u0) d (dm_ucs s1)) d u n w).
Definition join_ch (e : Z) (x : udevice) : list Z := if bool_decide (parent u0 = Some e) then child_head x ++ [d] else child_head x.
Definition join_mem (uc : uclass) : list Z := if uc_drv uc =? dev_uclass u0 then dev_head uc ++ [d] else dev_head uc.

Lemma join_regrows : regrows s1 s' (fun _ => True) join_ch join_mem.
Proof using S.
  split.
  - intros e x E _. pose proof (st_fresh _ _ _ _ _ _ _ S e x E). cbn. rewrite lookup_insert_ne by lia. unfold join_ch, link_parent.
    destruct (parent u0) as [p|]; [|rewrite bool_decide_eq_false_2 by done; by rewrite children_same].
    destruct (decide (p = e)) as [->|N].
    + rewrite lookup_alter_eq, E, bool_decide_eq_true_2 by done. done.
    + rewrite lookup_alter_ne, bool_decide_eq_false_2 by congruence. by rewrite children_same.
  - cbn. unfold link_uclass. apply map_ext. intros uc. unfold with_members, join_mem. destruct (_ =? _); [done|by destruct uc].
Qed.

Lemma join_back e x : dm_devs s' !! e = Some x -> (e = d /\ x = u) \/ exists x0, dm_devs s1 !! e = Some x0 /\ e < d /\ x = with_children x0 (join_ch e x0).
Proof using S.
  intros E. cbn in E. destruct (decide (e = d)) as [->|N]; [rewrite lookup_insert_eq in E; injection E as <-; by left|]. right.
  rewrite lookup_insert_ne in E by done. destruct (dm_devs s1 !! e) as [x0|] eqn:E0.
  - exists x0. split; [done|]. split; [by apply (st_fresh _ _ _ _ _ _ _ S e x0)|]. pose proof (rg_fwd _ _ _ _ _ join_regrows e x0 E0 I) as F. cbn in F.
    rewrite lookup_insert_ne, E in F by done. by injection F.
  - exfalso. unfold link_parent in E. destruct (parent u0) as [p|]; [|by rewrite E0 in E].
    destruct (decide (p = e)) as [->|Np]; [by rewrite lookup_alter_eq, E0 in E|by rewrite lookup_alter_ne, E0 in E].
Qed.

Lemma join_fields : driver u = driver u0 /\ parent u = parent u0 /\ dev_uclass u = dev_uclass u0 /\ child_head u = [] /\
  ~ is_active u /\ (forall k, (3 <= k)%nat -> own u k = None).
Proof using K T Hc Hf Hp.
  pose proof (kin_inactive _ _ K Hf) as Na. destruct K as (a & b & c & f & -> & Ef). repeat (split; [done|]).
  destruct Hp as (H3 & H4 & H5). intros k Hk. destruct k as [|[|[|[|[|[|]]]]]]; try lia; done.
Qed.

Lemma join_links : links s'.
Proof using S K T Hn H0 Hc Hf Hp.
  destruct join_fields as (Fd & Fp & Fu & Fc & _ & _). pose proof join_regrows as R. pose proof join_back as B.
  pose proof (st_links _ _ _ _ _ _ _ S) as L. destruct L as [L1 L2 L3 L4 L5 L6 L7 L8 L9 L10].
  assert (dm_devs s' !! d = Some u) as Ed by (cbn; apply lookup_insert_eq).
  assert (forall e x, dm_devs s1 !! e = Some x -> dm_devs s' !! e = Some (with_children x (join_ch e x))) as F by (intros; by apply (rg_fwd _ _ _ _ _ R)).
  split.
  - intros e x E. cbn [ov dm_next]. destruct (B e x E) as [[-> ->]|(x0 & E0 & Lt & ->)]; [lia|]. pose proof (L1 e x0 E0). lia.
  - intros e x E. destruct (B e x E) as [[-> ->]|(x0 & E0 & Lt & ->)]; [|by apply (L2 e x0)]. rewrite Fd. destruct (st_driver _ _ _ _ _ _ _ S). eauto.
  - intros e x p E Hpar. destruct (B e x E) as [[-> ->]|(x0 & E0 & Lt & ->)].
    + rewrite Fp in Hpar. destruct (st_parent _ _ _ _ _ _ _ S p Hpar) as [pu Ep]. split; [by apply (st_fresh _ _ _ _ _ _ _ S p pu)|].
      eexists. split; [by apply F|]. cbn. unfold join_ch. rewrite bool_decide_eq_true_2 by done. apply elem_of_app. right. by left.
    + destruct (L3 e x0 p E0 Hpar) as (Lp & pu & Ep & Hin). split; [done|]. eexists. split; [by apply F|]. cbn. unfold join_ch.
      case_bool_decide; [apply elem_of_app; by left|done].
  - intros p pu c E Hin. destruct (B p pu E) as [[-> ->]|(x0 & E0 & Lt & ->)]; [rewrite Fc in Hin; by apply elem_of_nil in Hin|].
    cbn in Hin. unfold join_ch in Hin. assert (c ∈ child_head x0 \/ (c = d /\ parent u0 = Some p)) as [Hin'|[-> Hpar]].
    { case_bool_decide; [|by left]. apply elem_of_app in Hin as [|Hin%list_elem_of_singleton]; auto. }
    + destruct (L4 p x0 c E0 Hin') as (cu & Ec & Hcp). eexists. split; [by apply F|done].
    + exists u. by rewrite Fp.
  - intros e x E. destruct (B e x E) as [[-> ->]|(x0 & E0 & Lt & ->)]; [rewrite Fc; constructor|]. cbn. unfold join_ch. case_bool_decide; [|by eapply L5].
    apply sorted_snoc; [by eapply L5|]. intros c Hin. destruct (L4 e x0 c E0 Hin) as (cu & Ec & _). by apply (st_fresh _ _ _ _ _ _ _ S c cu).
  - intros e x E. destruct (B e x E) as [[-> ->]|(x0 & E0 & Lt & ->)]; rewrite (rg_find _ _ _ _ _ _ R).
    + rewrite Fu. destruct (st_uclass _ _ _ _ _ _ _ S) as [(uc & Eu) _]. rewrite Eu. eexists. split; [reflexivity|]. cbn. unfold join_mem.
      destruct (find_uc_in _ _ _ Eu) as [_ ->]. rewrite Z.eqb_refl. apply elem_of_app. right. by left.
    + destruct (L6 e x0 E0) as (uc & Eu & Hin). cbn [with_children dev_uclass]. rewrite Eu. eexists. split; [reflexivity|]. cbn. unfold join_mem.
      destruct (_ =? _); [apply elem_of_app; by left|done].
  - intros uc e Hin He. destruct (rg_in _ _ _ _ _ _ R Hin) as (uc0 & Hin0 & ->). cbn in He |- *. unfold join_mem in He.
    assert (e ∈ dev_head uc0 \/ (e = d /\ uc_drv uc0 = dev_uclass u0)) as [He'|[-> Eu]].
    { destruct (Z.eqb_spec (uc_drv uc0) (dev_uclass u0)); [|by left]. apply elem_of_app in He as [|He%list_elem_of_singleton]; auto. }
    + destruct (L7 uc0 e Hin0 He') as (x & Ex & Eu). eexists. split; [by apply F|done].
    + exists u. split; [done|]. by rewrite Fu, Eu.
  - intros uc Hin. destruct (rg_in _ _ _ _ _ _ R Hin) as (uc0 & Hin0 & ->). exact (L8 uc0 Hin0).
  - by rewrite (rg_names _ _ _ _ _ R).
  - intros uc Hin. destruct (rg_in _ _ _ _ _ _ R Hin) as (uc0 & Hin0 & ->). cbn. unfold join_mem. destruct (_ =? _); [|by apply L10].
    apply NoDup_app. split; [by apply L10|]. split; [|apply NoDup_singleton]. intros e He ->%list_elem_of_singleton. by apply (seat_uclass _ _ s1 d u0 v ucd S uc0).
Qed.

Lemma join_bufs : bufs s1 -> bufs s'.
Proof using S K T Hc Hf Hp.
  intros [B1 B2 B3]. destruct join_fields as (_ & _ & _ & _ & _ & Fo). pose proof join_regrows as R. pose proof join_back as B.
  assert (forall o p, owns s' o = Some p -> (exists k, o = ODev d k /\ own u k = Some p /\ (k < 3)%nat) \/ (owns s1 o = Some p /\ p ∈ dm_heap s1)) as Ho.
  { intros [e k|id k] p H; cbn [owns] in H.
    - destruct (dm_devs s' !! e) as [x|] eqn:E; [|done]. destruct (B e x E) as [[-> ->]|(x0 & E0 & Lt & ->)].
      + left. exists k. split; [done|]. split; [done|]. destruct (le_lt_dec 3 k); [by rewrite Fo in H|done].
      + right. assert (owns s1 (ODev e k) = Some p) as Ho by (cbn; rewrite E0; by rewrite own_children in H). split; [done|by eapply B1].
    - right. rewrite (rg_find _ _ _ _ _ _ R) in H. assert (owns s1 (OUc id k) = Some p) as Ho; [|split; [done|by eapply B1]].
      cbn. destruct (uc_find s1 id) as [uc|]; [|done]. exact H. }
  split.
  - intros o p H. cbn [ov dm_heap]. destruct (Ho o p H) as [(k & -> & E & Hk)|[_ Hin]]; [by apply (plats_own _ u n k)|]. unfold plats. rewrite !push_elem. auto.
  - intros o o' p H H'. destruct (Ho o p H) as [(k & -> & E & Hk)|[Hs Hin]], (Ho o' p H') as [(k' & -> & E' & Hk')|[Hs' Hin']].
    + f_equal. by eapply plats_once.
    + by destruct (plats_own _ u n k p T Hk E).
    + by destruct (plats_own _ u n k' p T Hk' E').
    + by eapply B2.
  - intros p. cbn [ov dm_heap dm_next]. apply T.
Qed.

Lemma join_wf : wf s1 -> wf s'.
Proof using S K T Hn H0 Hc Hf Hp.
  intros [L Bu A]. split; [apply join_links|by apply join_bufs|]. destruct join_fields as (_ & _ & _ & _ & Fa & _). pose proof join_back as B.
  intros e x E Ha. destruct (B e x E) as [[-> ->]|(x0 & E0 & Lt & ->)]; [done|]. destruct (A e x0 E0 Ha) as [Hv Hpa]. split; [done|].
  intros p pu Hpar Ep. destruct (lk_parent _ _ _ L e x0 p E0 Hpar) as (Lp & pu0 & Ep0 & _). destruct (B p pu Ep) as [[-> ->]|(x1 & E1 & _ & ->)]; [lia|].
  rewrite Ep0 in E1. injection E1 as <-. by apply (Hpa p pu0).
Qed.
End Join.

(** ** A new uclass *)

Lemma wf_fin s n w : wf s -> dm_next s <= n -> wf (fin s n w).
Proof using.
  intros [L B A] Hn. destruct (lb_world drivers uclass_drivers _ w (lb_next drivers uclass_drivers s n (conj L B) Hn)). by split.
Qed.

Definition new_uc (s : dm W) (id m : Z) (priv : option Z) (n : Z) (w : W) : dm W :=
  Dm (dm_devs s) (Uc id m priv [] :: dm_ucs s) (dm_up s) (dm_root s) (push priv (push (Some m) (dm_heap s))) n w.

Lemma new_uc_wf s id m priv n w : wf s -> uc_find s id = None -> is_Some (lists_uclass_lookup uclass_drivers id) ->
  dm_next s <= m < n -> (forall p, priv = Some p -> m < p < n) -> wf (new_uc s id m priv n w).
Proof using.
  intros [[L1 L2 L3 L4 L5 L6 L7 L8 L9 L10] [B1 B2 B3] A] Ei Ed Hm Hp. set (s' := new_uc s id m priv n w).
  assert (forall uc, uc ∈ dm_ucs s -> uc_drv uc <> id) as Ni.
  { intros uc Hin E. unfold uc_find in Ei. apply list_elem_of_In in Hin. pose proof (find_none _ _ Ei uc Hin) as K. cbn in K. by rewrite E, Z.eqb_refl in K. }
  assert (forall k, uc_find s' k = if id =? k then Some (Uc id m priv []) else uc_find s k) as Ef by (intros k; reflexivity).
  assert (forall k uc, uc_find s k = Some uc -> uc_find s' k = Some uc) as Ef'.
  { intros k uc E. rewrite Ef. destruct (Z.eqb_spec id k) as [<-|]; [congruence|done]. }
  split; [split|split|]; try done.
  - intros e x E. pose proof (L1 e x E). cbn [s' new_uc dm_next]. lia.
  - intros e x E. destruct (L6 e x E) as (uc & Eu & Hin). exists uc. split; [by apply Ef'|done].
  - intros uc e Hin He. cbn [s' new_uc dm_ucs] in Hin. apply elem_of_cons in Hin as [->|Hin]; [by apply elem_of_nil in He|]. by apply L7.
  - intros uc Hin. apply elem_of_cons in Hin as [->|Hin]; [done|]. by apply L8.
  - cbn [s' new_uc dm_ucs map uc_drv]. constructor; [|done]. intros Hin. apply list_elem_of_In, in_map_iff in Hin as (uc & E & Hin).
    apply list_elem_of_In in Hin. by apply (Ni uc).
  - intros uc Hin. apply elem_of_cons in Hin as [->|Hin]; [constructor|]. by apply L10.
  - intros o p Ho. cbn [s' new_uc dm_heap]. rewrite !push_elem. destruct o as [e k|k j]; [right; right; by apply (B1 (ODev e k))|].
    cbn [owns] in Ho. rewrite Ef in Ho. destruct (Z.eqb_spec id k) as [<-|]; [|right; right; by apply (B1 (OUc k j))]. destruct j as [|[|]]; cbn in Ho; [|by left|done]. by right; left.
  - assert (forall o p, owns s' o = Some p -> (o = OUc id 0 /\ p = m) \/ (o = OUc id 1 /\ m < p) \/ (owns s o = Some p /\ p < m)) as C.
    { intros o p Ho. assert (owns s o = Some p -> owns s o = Some p /\ p < m) as Hl by (intros H; split; [done|]; pose proof (B3 p (B1 o p H)); lia).
      destruct o as [e k|k j]; [right; right; by apply Hl|]. cbn [owns] in *. rewrite Ef in Ho. destruct (Z.eqb_spec id k) as [<-|]; [|auto].
      destruct j as [|[|]]; cbn in Ho; [left; split; congruence| |done]. right; left. split; [done|]. by apply Hp. }
    intros o o' p Ho Ho'. destruct (C o p Ho) as [[-> ->]|[[-> ?]|[? ?]]], (C o' _ Ho') as [[-> ?]|[[-> ?]|[? ?]]]; try done; try lia. by eapply B2.
  - intros p. cbn [s' new_uc dm_heap dm_next]. rewrite !push_elem. intros [E|[[= <-]|Hin]]; [by apply Hp|lia|]. pose proof (B3 p Hin). lia.
Qed.

Context (ext : dm_ext W) `{Q : !Quiet drivers uclass_drivers ext}.

(** Before the root there is nothing. *)
Definition started (s : dm W) : Prop := dm_root s = None -> dm_ucs s = [].

Inductive uc_step (id : Z) (s s1 : dm W) : Prop :=
  | uc_old : s1 = s -> uc_step id s s1
  | uc_new m priv n w : s1 = new_uc s id m priv n w -> dm_next s <= m < n -> n <= dm_next s + 2 -> (forall p, priv = Some p -> m < p < n) -> uc_find s id = None -> uc_step id s s1.

Record uc_got (id : Z) (s s1 : dm W) : Prop := {
  ug_step : uc_step id s s1; ug_wf : wf s1; ug_uc : exists uc, uc_find s1 id = Some uc; ug_drv : is_Some (lists_uclass_lookup uclass_drivers id)
}.

Lemma filter_new (s : dm W) id m priv : uc_find s id = None -> List.filter (fun c => negb (uc_drv c =? id)) (Uc id m priv [] :: dm_ucs s) = dm_ucs s.
Proof using.
  intros Ei. cbn. rewrite Z.eqb_refl. cbn [negb]. unfold uc_find in Ei. pose proof (find_none _ _ Ei) as H. clear Ei.
  induction (dm_ucs s) as [|uc l IH]; [done|]. cbn. rewrite (H uc) by (by left). cbn. rewrite IH; [done|]. intros x Hx. apply H. by right.
Qed.

Lemma wp_uclass_add id s (P : Z * option Z -> dm W -> Prop) : wf s -> uc_find s id = None ->
  (forall r n w, r <> 0 -> dm_next s <= n -> P (r, None) (fin s n w)) -> (forall s1, uc_got id s s1 -> P (0, Some id) s1) ->
  wp (uclass_add uclass_drivers ext id) s P.
Proof using Q.
  intros Wf Ei Hb Hg. pose proof (bf_next _ (wf_bufs _ _ _ Wf)) as Bn. unfold uclass_add. destruct (lists_uclass_lookup uclass_drivers id) as [v|] eqn:El.
  2:{ apply wp_ret. specialize (Hb (- EPFNOSUPPORT) (dm_next s) (dm_world s)). unfold fin in Hb. destruct s. by apply Hb. }
  apply wp_bind, wp_calloc; [|apply wp_ret, (Hb _ _ (dm_world s)); [done|lia]]. set (m := dm_next s).
  assert (forall priv n w, m < n -> n <= m + 2 -> (forall p, priv = Some p -> m < p < n) -> ((uc_priv_auto v =? 0) = true -> priv = None) ->
    wp ((fun s => Ok (tt, set_ucs s (Uc id m priv [] :: dm_ucs s))) ;;
        let! r := or_hook (uc_init v) id in
        if negb (r =? 0) then
          (if negb (uc_priv_auto v =? 0) then free priv else ret tt) ;;
          (fun s => Ok (tt, set_ucs s (List.filter (fun c => negb (uc_drv c =? id)) (dm_ucs s)))) ;;
          free (Some m) ;; ret (r, None)
        else ret (0, Some id)) (Dm (dm_devs s) (dm_ucs s) (dm_up s) (dm_root s) (push priv (push (Some m) (dm_heap s))) n w) P) as Go.
  { intros priv n w Hn Hn2 Hpr Hno. assert (not_in (Some m) (dm_heap s)) as N1 by (intros p [= <-] Hp; specialize (Bn m Hp); unfold m in *; lia).
    assert (not_in priv (push (Some m) (dm_heap s))) as N2.
    { intros p -> [[= ->]|Hp]%push_elem; specialize (Hpr p eq_refl); [lia|]. specialize (Bn p Hp). unfold m in *. lia. }
    apply wp_bind. exists tt. eexists. split; [reflexivity|]. apply wp_bind, wp_or_hook; [by apply (q_uclasses _ _ El)|]. intros r w'.
    destruct (Z.eqb_spec r 0) as [->|Nr]; cbn [negb].
    - apply wp_ret, Hg. split; [|apply (new_uc_wf s id m priv n w'); try done; lia| |done].
      + apply (uc_new id s _ m priv n w'); [done|lia|unfold m in *; lia|done..].
      + eexists. cbn. by rewrite Z.eqb_refl.
    - apply wp_bind. assert (wp (if negb (uc_priv_auto v =? 0) then free priv else ret tt) (new_uc s id m priv n w')
        (fun _ s2 => s2 = Dm (dm_devs s) (Uc id m priv [] :: dm_ucs s) (dm_up s) (dm_root s) (push (Some m) (dm_heap s)) n w')) as F.
      { destruct (uc_priv_auto v =? 0) eqn:Ea; cbn [negb]; [apply wp_ret; by rewrite (Hno eq_refl)|]. by eapply wp_free_push. }
      eapply wp_mono; [exact F|]. intros _ s2 ->. apply wp_bind. exists tt. eexists. split; [reflexivity|].
      unfold set_ucs. cbn [dm_devs dm_ucs dm_up dm_root dm_heap dm_next dm_world]. rewrite filter_new by done.
      apply wp_bind, (wp_free_push _ (dm_heap s)); [done|done|]. apply wp_ret, (Hb r n w'); [done|]. unfold m in *. lia. }
  apply wp_bind. destruct (negb (uc_priv_auto v =? 0)) eqn:Ea.
  - apply wp_calloc.
    + cbn [bool_decide andb]. rewrite bool_decide_eq_false_2 by done. cbn [andb].
      specialize (Go (Some (m + 1)) (m + 1 + 1) (dm_world s)). apply Go; [lia|lia|intros p [= <-]; lia|]. intros K. by rewrite K in Ea.
    + rewrite bool_decide_eq_true_2 by done. cbn [andb]. apply wp_bind, (wp_free_push _ (dm_heap s)); [done| |].
      { intros p [= <-] Hp. specialize (Bn m Hp). unfold m in *. lia. }
      apply wp_ret, (Hb _ _ (dm_world s)); [done|]. cbn. lia.
  - apply wp_ret. cbn [andb]. specialize (Go None (m + 1) (dm_world s)). apply Go; [lia|lia|done|done].
Qed.

Lemma wp_uclass_get id s (P : Z * option Z -> dm W -> Prop) : wf s -> started s ->
  (forall r n w, r <> 0 -> dm_next s <= n -> P (r, None) (fin s n w)) -> (forall s1, uc_got id s s1 -> P (0, Some id) s1) ->
  wp (uclass_get uclass_drivers ext id) s P.
Proof using Q.
  intros Wf St Hb Hg. unfold wp, uclass_get. destruct (dm_up s); cbn [negb].
  2:{ eexists _, _. split; [reflexivity|]. specialize (Hb (- EDEADLK) (dm_next s) (dm_world s)). destruct s. apply Hb; [done|]. cbn. lia. }
  assert (uc_find s id = None -> wp (uclass_add uclass_drivers ext id) s P) as Ha by (intros; by apply wp_uclass_add).
  change (wp (let! uc := uclass_find id in match uc with Some uc => ret (0, Some uc) | None => uclass_add uclass_drivers ext id end) s P).
  apply wp_bind. unfold wp at 1, uclass_find. destruct (dm_root s) as [rt|] eqn:Er.
  - eexists _, _. split; [reflexivity|]. fold (uc_find s id). destruct (uc_find s id) as [uc|] eqn:Eu; cbn [option_map]; [|by apply Ha].
    destruct (find_uc_in _ _ _ Eu) as [Hin Hid]. rewrite Hid. apply wp_ret, Hg. split; [by left|done|by exists uc|]. rewrite <- Hid.
    by apply (lk_ucdrv _ _ _ (wf_links _ _ _ Wf)).
  - eexists _, _. split; [reflexivity|]. apply Ha. unfold uc_find. by rewrite (St Er).
Qed.
End Tree.

Section Ops.
Context {W : Type} (drivers : list (driver_rec W)) (uclass_drivers : list (uclass_driver W)) (ext : dm_ext W).
Context `{Q : !Quiet drivers uclass_drivers ext}.

#[local] Abbreviation links := (links drivers uclass_drivers).
#[local] Abbreviation wf := (wf drivers uclass_drivers).

(** ** Sequence numbers *)

(** The highest number among [l], or [max]. *)
Definition top_seq (m : gmap Z udevice) (l : list Z) (max : Z) : Z :=
  fold_left (fun max e => match m !! e with Some x => Z.max max (seq_ x) | None => max end) l max.

Lemma top_seq_le m l : forall max, max <= top_seq m l max /\ forall e x, e ∈ l -> m !! e = Some x -> seq_ x <= top_seq m l max.
Proof using.
  induction l as [|e l IH]; intros max; [split; [cbn; lia|by intros e x H%elem_of_nil]|].
  set (max' := match m !! e with Some x => Z.max max (seq_ x) | None => max end). destruct (IH max') as [H1 H2].
  change (top_seq m (e :: l) max) with (top_seq m l max'). split; [assert (max <= max') by (unfold max'; destruct (m !! e); lia); lia|].
  intros e' x [->|H]%elem_of_cons E; [|by apply (H2 e')]. assert (seq_ x <= max') by (unfold max'; rewrite E; lia). lia.
Qed.

Definition seq_base (ucd : uclass_driver W) : Z :=
  if seq_alias ext && has_flag (uc_flags ucd) DM_UC_FLAG_SEQ_ALIAS then dev_read_alias_highest_id ext (uc_name ucd) else -1.

Lemma wp_next_seq id s uc ucd (P : Z -> dm W -> Prop) : uc_find s id = Some uc -> lists_uclass_lookup uclass_drivers id = Some ucd ->
  (forall e, e ∈ dev_head uc -> is_Some (dm_devs s !! e)) -> P (s32 (top_seq (dm_devs s) (dev_head uc) (seq_base ucd) + 1)) s ->
  wp (uclass_find_next_free_seq uclass_drivers ext id) s P.
Proof using.
  intros Eu El Hm H. unfold uclass_find_next_free_seq. apply wp_bind. exists uc, s. unfold uc_get. fold (uc_find s id). rewrite Eu. split; [done|].
  apply wp_bind, (wp_get_uc_drv _ _ _ uc ucd); [done..|]. fold (seq_base ucd). revert H. generalize (seq_base ucd). revert Hm.
  induction (dev_head uc) as [|e l IH]; intros Hm max H; cbn in H; [by apply wp_ret|]. destruct (Hm e) as [x Ex]; [by left|].
  apply wp_bind, (wp_get_dev e x); [done|]. apply IH; [intros e' He; apply Hm; by right|]. rewrite Ex in H.
  destruct (Z.ltb_spec max (seq_ x)); [by rewrite Z.max_r in H by lia|by rewrite Z.max_l in H by lia].
Qed.

(** ** Binding *)

(** The device a bind makes. *)
Definition new_dev (par : option Z) (drv : Z) (name : list Z) (plat : option Z) (data : Z) (node : option Z) (uc seq : Z) : udevice :=
  Dev drv name plat None None data par None None None uc [] 0 seq node 0.

(** Its number: from an alias, none, or the next free one. *)
Definition seq_of (s : dm W) (ucd : uclass_driver W) (uc : uclass) (u : udevice) : Z :=
  match (if seq_alias ext && has_flag (uc_flags ucd) DM_UC_FLAG_SEQ_ALIAS && bool_decide (node_ u <> None) then dev_read_alias_seq ext u else None) with
  | Some q => q
  | None => if has_flag (uc_flags ucd) DM_UC_FLAG_NO_AUTO_SEQ then -1 else s32 (top_seq (dm_devs s) (dev_head uc) (seq_base ucd) + 1)
  end.

(** The result: nothing but perhaps a uclass, or one device more. *)
Inductive bind_post (s : dm W) (par : option Z) (drv : Z) (name : option (list Z)) (plat : option Z) (data : Z) (node : option Z)
  : Z -> option Z -> dm W -> Prop :=
  | bind_failed r s1 n w v : drivers !! Z.to_nat drv = Some v -> r <> 0 -> uc_step (drv_id v) s s1 -> wf (fin s1 n w) -> dm_next s <= n ->
      bind_post s par drv name plat data node r None (fin s1 n w)
  | bind_done s1 d u n w v nm ucd uc : name = Some nm -> drivers !! Z.to_nat drv = Some v -> uc_step (drv_id v) s s1 ->
      d = dm_next s1 -> d < n -> uc_find s1 (drv_id v) = Some uc -> lists_uclass_lookup uclass_drivers (drv_id v) = Some ucd ->
      kin (new_dev par drv nm plat data node (drv_id v) (seq_of s1 ucd uc (new_dev par drv nm plat data node (drv_id v) (-1)))) u ->
      has_flag (flags_ u) DM_FLAG_BOUND = true -> taking (dm_heap s1) u n -> wf (ov s1 (link_parent par d (dm_devs s1)) (link_uclass (drv_id v) d (dm_ucs s1)) d u n w) ->
      bind_post s par drv name plat data node 0 (Some d) (ov s1 (link_parent par d (dm_devs s1)) (link_uclass (drv_id v) d (dm_ucs s1)) d u n w).

Lemma uc_step_devs id (s s1 : dm W) : uc_step id s s1 -> dm_devs s1 = dm_devs s /\ dm_up s1 = dm_up s /\ dm_root s1 = dm_root s /\ dm_next s <= dm_next s1 <= dm_next s + 2.
Proof using. intros [->|m priv n w -> Hm Hn _ _]; cbn; (split; [done|split; [done|split; [done|lia]]]). Qed.

Lemma fin_same (s : dm W) : fin s (dm_next s) (dm_world s) = s.
Proof using. by destruct s. Qed.

Lemma wp_bind_common s par drv name plat data node v (P : Z * option Z -> dm W -> Prop) :
  wf s -> started s -> 0 <= drv -> drivers !! Z.to_nat drv = Some v -> 0 <= dm_next s ->
  (forall p, par = Some p -> is_Some (dm_devs s !! p)) ->
  (forall r x s', bind_post s par drv name plat data node r x s' -> P (r, x) s') ->
  wp (device_bind_common drivers uclass_drivers ext par drv name plat data node) s P.
Proof using Q.
  intros Wf St H0 Ev Hz Hpar H. unfold device_bind_common. destruct name as [nm|].
  2:{ apply wp_ret. rewrite <- (fin_same s). apply H. apply (bind_failed _ _ _ _ _ _ _ _ _ _ _ v); try done; [by apply uc_old|by rewrite fin_same]. }
  apply wp_bind. exists v, s. split; [unfold get_drv; rewrite Ev; by destruct (Z.leb_spec 0 drv); [|lia]|].
  apply wp_bind, (wp_uclass_get drivers uclass_drivers ext); [done..| |].
  { intros r n w Nr Hn. destruct (Z.eqb_spec r 0); [done|]. cbn [negb]. apply wp_ret, H. eapply bind_failed; [done|done|by apply uc_old|by apply wf_fin|done]. }
  intros s1 [Us Wf1 [uc Eu] [ucd El]]. cbn [negb Z.eqb default]. apply wp_bind, (wp_get_uc_drv _ _ _ uc ucd); [done..|].
  destruct (uc_step_devs _ _ _ Us) as (Ed & Eup & Er & En). set (d := dm_next s1). set (ui := new_dev par drv nm plat data node (drv_id v) (-1)).
  apply wp_bind. unfold wp at 1, calloc_dev. fold d. destruct (mem_ok ext d).
  2:{ eexists _, _. split; [reflexivity|]. apply wp_ret, H. change (set_heap s1 (dm_heap s1) (d + 1)) with (fin s1 (d + 1) (dm_world s1)).
      eapply bind_failed; [done..|apply wf_fin; [done|lia]|lia]. }
  eexists _, _. split; [reflexivity|]. cbn beta iota. change (Dm _ _ _ _ _ _ _) with (ov s1 (dm_devs s1) (dm_ucs s1) d ui (d + 1) (dm_world s1)).
  set (u0 := new_dev par drv nm plat data node (drv_id v) (seq_of s1 ucd uc ui)).
  pose proof (wf_links _ _ _ Wf1) as L1. pose proof (wf_bufs _ _ _ Wf1) as B1.
  assert (forall e, e ∈ dev_head uc -> exists x, dm_devs s1 !! e = Some x /\ e < d) as Hm.
  { intros e He. destruct (find_uc_in _ _ _ Eu) as [Hin _]. destruct (lk_member _ _ _ L1 uc e Hin He) as (x & Ex & _). exists x. split; [done|].
    by apply (lk_next _ _ _ L1 e x). }
  assert (seat drivers uclass_drivers s1 d u0 v ucd) as S.
  { split; [done|apply B1|intros e x Ex; by apply (lk_next _ _ _ L1 e x)|by rewrite Ed|done|]. split; [by exists uc|done]. }
  apply wp_bind. apply (wp_mono _ _ (fun q s' => q = seq_of s1 ucd uc ui /\ s' = ov s1 (dm_devs s1) (dm_ucs s1) d ui (d + 1) (dm_world s1))).
  { unfold seq_of. change (node_ ui) with node. destruct (if _ && _ then _ else _) as [q|]; [by apply wp_ret|].
    destruct (has_flag _ _); [by apply wp_ret|]. apply (wp_next_seq _ _ uc ucd); [done|done| |].
    - intros e He. destruct (Hm e He) as (x & Ex & Lt). exists x. cbn. by rewrite lookup_insert_ne by lia.
    - split; [|done]. f_equal. f_equal. cbn [ov dm_devs]. clear -Hm. revert Hm. generalize (seq_base ucd). induction (dev_head uc) as [|e l IH]; intros b Hm; [done|].
      cbn. destruct (Hm e) as (x & Ex & Lt); [by left|]. rewrite lookup_insert_ne by lia. apply IH. intros e' He. apply Hm. by right. }
  intros q s2 [-> ->]. apply wp_bind, (wp_upd_ov _ _ _ _ _ u0); [done|done|].
  apply (wp_bind_plat drivers uclass_drivers ext s1 d u0 v ucd S).
  - intros r n w Nr Hn. apply H. eapply bind_failed; [done..|apply wf_fin; [done|lia]|lia].
  - intros u n w K Hb T Hn. apply H. eapply (bind_done _ _ _ _ _ _ _ s1 d u n w v nm ucd uc); try done.
    apply (join_wf drivers uclass_drivers s1 d u0 u v ucd); try done. lia.
  - apply kin_refl.
  - split; [split; by intros p|]. cbn. intros p Hp. pose proof (bf_next _ B1 p Hp). lia.
  - lia.
  - done.
  - done.
  - done.
  - done.
Qed.
End Ops.
