(* ===== verification/DmUnbind.v ===== *)
(** The driver model: unbinding a device and everything below it. *)

From stdpp Require Import gmap.
From S2P Require Import Prelude Bytes Cstring Dm DmWf DmLife DmBind DmTree.

Definition unpush (o : option Z) (h : gset Z) : gset Z := match o with Some p => h ∖ {[p]} | None => h end.
Lemma unpush_elem o h p : p ∈ unpush o h <-> p ∈ h /\ o <> Some p.
Proof. destruct o as [q|]; cbn; [|naive_solver]. rewrite elem_of_difference, elem_of_singleton. naive_solver. Qed.

Section Shed.
Context {W : Type} (drivers : list (driver_rec W)) (uclass_drivers : list (uclass_driver W)).

#[local] Abbreviation links := (links drivers uclass_drivers).
#[local] Abbreviation wf := (wf drivers uclass_drivers).

(** * Devices leave *)

Definition here (s : dm W) (e : Z) : bool := bool_decide (is_Some (dm_devs s !! e)).

(** The memory that binding a device now gone had taken. *)
Definition gone_plat (s s' : dm W) (p : Z) : Prop :=
  exists e x k, dm_devs s !! e = Some x /\ dm_devs s' !! e = None /\ (k < 3)%nat /\ own x k = Some p.

(** Of the devices of [s] some in [T] are gone, with their memory; the lists
    have lost them. *)
Record sheds (T : Z -> Prop) (s s' : dm W) : Prop := {
  sh_back : forall e x', dm_devs s' !! e = Some x' ->
    exists x, dm_devs s !! e = Some x /\ x' = with_children x (List.filter (here s') (child_head x));
  sh_stay : forall e x, dm_devs s !! e = Some x -> ~ T e -> is_Some (dm_devs s' !! e);
  sh_ucs : dm_ucs s' = map (with_members (fun uc => List.filter (here s') (dev_head uc))) (dm_ucs s);
  sh_heap : forall p, p ∈ dm_heap s' <-> p ∈ dm_heap s /\ ~ gone_plat s s' p;
  sh_up : dm_up s' = dm_up s; sh_root : dm_root s' = dm_root s; sh_next : dm_next s' = dm_next s
}.

Lemma filter_keep_all {A} (f : A -> bool) l : (forall x, x ∈ l -> f x = true) -> List.filter f l = l.
Proof using.
  intros H. induction l as [|x l IH]; [done|]. cbn. rewrite (H x) by (by left). f_equal. apply IH. intros y Hy. apply H. by right.
Qed.
Lemma filter_filter_sub {A} (f g : A -> bool) l : (forall x, f x = true -> g x = true) -> List.filter f (List.filter g l) = List.filter f l.
Proof using.
  intros H. induction l as [|x l IH]; [done|]. cbn. destruct (g x) eqn:G; cbn; [by rewrite IH|]. destruct (f x) eqn:F; [by rewrite (H x F) in G|done].
Qed.

Lemma here_some (s : dm W) e x : dm_devs s !! e = Some x -> here s e = true.
Proof using. intros E. apply bool_decide_eq_true_2. by exists x. Qed.

Lemma sheds_refl T s w : links s -> sheds T s (set_world s w).
Proof using.
  intros L. split; try done.
  - intros e x E. exists x. split; [done|]. rewrite filter_keep_all; [by rewrite children_same|]. intros c Hc.
    destruct (lk_child _ _ _ L e x c E Hc) as (cu & Ec & _). by apply (here_some _ c cu).
  - cbn. rewrite <- (map_id (dm_ucs s)) at 1. apply map_ext_in. intros uc Hin. apply list_elem_of_In in Hin. unfold with_members.
    rewrite filter_keep_all; [by destruct uc|]. intros c Hc. destruct (lk_member _ _ _ L uc c Hin Hc) as (cu & Ec & _). by apply (here_some _ c cu).
  - intros p. split; [|by intros [Hp _]]. intros Hp. split; [done|]. intros (e & x & k & Ex & En & _). cbn in En. congruence.
Qed.

Lemma sheds_trans T s s1 s2 : sheds T s s1 -> sheds T s1 s2 -> sheds T s s2.
Proof using.
  intros [B1 S1 U1 H1 P1 R1 N1] [B2 S2 U2 H2 P2 R2 N2].
  assert (forall e, here s2 e = true -> here s1 e = true) as Hh.
  { intros e [x E]%bool_decide_eq_true_1. destruct (B2 e x E) as (x1 & E1 & _). by apply (here_some _ e x1). }
  split; try congruence.
  - intros e x2 E2. destruct (B2 e x2 E2) as (x1 & E1 & ->). destruct (B1 e x1 E1) as (x & E & ->). exists x. split; [done|].
    cbn [with_children child_head]. by rewrite filter_filter_sub.
  - intros e x E Ht. destruct (S1 e x E Ht) as [x1 E1]. by apply (S2 e x1).
  - rewrite U2, U1, map_map. apply map_ext. intros uc. unfold with_members. cbn. by rewrite filter_filter_sub.
  - intros p. rewrite H2, H1. split.
    + intros [[Hp G1] G2]. split; [done|]. intros (e & x & k & Ex & En & Hk & Ho). destruct (dm_devs s1 !! e) as [x1|] eqn:E1.
      * destruct (B1 e x1 E1) as (y & Ey & ->). apply G2. exists e, (with_children y (List.filter (here s1) (child_head y))), k.
        rewrite own_children. rewrite Ex in Ey. by injection Ey as <-.
      * apply G1. by exists e, x, k.
    + intros [Hp G]. split; [split; [done|]|].
      * intros (e & x & k & Ex & En & Hk & Ho). apply G. exists e, x, k. split; [done|]. split; [|done].
        destruct (dm_devs s2 !! e) as [x2|] eqn:E2; [|done]. destruct (B2 e x2 E2) as (x1 & E1 & _). congruence.
      * intros (e & x & k & Ex & En & Hk & Ho). destruct (B1 e x Ex) as (y & Ey & ->). rewrite own_children in Ho. apply G. by exists e, y, k.
Qed.

Lemma sheds_mono (T T' : Z -> Prop) s s' : (forall e, T e -> T' e) -> sheds T s s' -> sheds T' s s'.
Proof using. intros I [B S U H P R N]. split; try done. intros e x E K. apply (S e x E). auto. Qed.

Lemma sheds_world T s s' w : sheds T s s' -> sheds T s (set_world s' w).
Proof using. intros [B S U H P R N]. by split. Qed.

Lemma below_sheds T B s s' : below B s -> sheds T s s' -> below B s'.
Proof using. intros Hb V e x E. destruct (sh_back _ _ _ V e x E) as (y & Ey & _). by apply (Hb e y). Qed.

(** The parents are as they were. *)
Lemma anc_sheds T s s' d e : sheds T s s' -> anc s' d e -> anc s d e.
Proof using.
  intros V. apply rtc_congruence with (f := id). intros a b (x & E & Hp). destruct (sh_back _ _ _ V a x E) as (y & Ey & ->). by exists y.
Qed.

(** ** One device *)

Section Leave.
Context (s : dm W) (d : Z) (u : udevice) (hp : gset Z) (w : W) (m' : gmap Z udevice).
Definition unlink_uc (id : Z) (l : list uclass) : list uclass :=
  map (fun uc => if uc_drv uc =? id then Uc (uc_drv uc) (uc_mem uc) (uc_priv uc) (without d (dev_head uc)) else uc) l.
#[local] Abbreviation s' := (Dm m' (unlink_uc (dev_uclass u) (dm_ucs s)) (dm_up s) (dm_root s) hp (dm_next s) w).
Context (Wf : wf s) (E : dm_devs s !! d = Some u) (Hc : child_head u = []).
Context (Hm : forall e, m' !! e = if decide (e = d) then None else (fun x => with_children x (without d (child_head x))) <$> dm_devs s !! e).
Context (Hh : forall p, p ∈ hp <-> p ∈ dm_heap s /\ own u 0 <> Some p /\ own u 1 <> Some p /\ own u 2 <> Some p).

Lemma leave_here e : here s' e = true <-> e <> d /\ here s e = true.
Proof using Hm. unfold here. cbn. rewrite !bool_decide_eq_true, Hm. destruct (decide (e = d)) as [->|N].
  - split; [by intros [x Hx]|by intros [Hx _]].
  - rewrite fmap_is_Some. split; [by intros Hx|by intros [_ Hx]].
Qed.

Lemma leave_filter l : (forall e, e ∈ l -> here s e = true) -> List.filter (here s') l = without d l.
Proof using Hm.
  intros H. apply filter_ext_in. intros e He. apply list_elem_of_In in He. specialize (H e He). apply Bool.eq_iff_eq_true.
  rewrite leave_here, Bool.negb_true_iff, Z.eqb_neq. tauto.
Qed.

Lemma leave_sheds : sheds (eq d) s s'.
Proof using Hm Hh Wf E.
  pose proof (wf_links _ _ _ Wf) as L. split; try done.
  - intros e x' Ex. cbn in Ex. rewrite Hm in Ex. destruct (decide (e = d)); [done|]. apply fmap_Some in Ex as (x & Ex & ->). exists x. split; [done|].
    rewrite leave_filter; [done|]. intros c Hin. destruct (lk_child _ _ _ L e x c Ex Hin) as (cu & Ec & _). by apply (here_some _ c cu).
  - intros e x Ex N. cbn. rewrite Hm, decide_False by congruence. rewrite Ex. by eexists.
  - cbn. unfold unlink_uc. apply map_ext_in. intros uc Hin. apply list_elem_of_In in Hin. unfold with_members.
    rewrite leave_filter. 2:{ intros c Hc'. destruct (lk_member _ _ _ L uc c Hin Hc') as (cu & Ec & _). by apply (here_some _ c cu). }
    destruct (Z.eqb_spec (uc_drv uc) (dev_uclass u)) as [|N]; [done|]. rewrite without_notin; [by destruct uc|].
    intros Hd. destruct (lk_member _ _ _ L uc d Hin Hd) as (x & Ex & Eu). congruence.
  - intros p. cbn [dm_heap]. rewrite Hh. assert (gone_plat s s' p <-> exists k, (k < 3)%nat /\ own u k = Some p) as ->.
    { split.
      - intros (e & x & k & Ex & En & Hk & Ho). cbn in En. rewrite Hm in En. destruct (decide (e = d)) as [->|N]; [|by rewrite Ex in En].
        rewrite E in Ex. injection Ex as <-. by exists k.
      - intros (k & Hk & Ho). exists d, u, k. split; [done|]. split; [|done]. cbn. by rewrite Hm, decide_True. }
    split; intros [Hp Hn]; (split; [done|]).
    + intros (k & Hk & Ho). destruct k as [|[|[|]]]; try lia; tauto.
    + split; [|split]; intros Ho; apply Hn; eexists; (split; [|exact Ho]); lia.
Qed.

Lemma leave_links : links s'.
Proof using Hm Hh Wf E Hc.
  pose proof (wf_links _ _ _ Wf) as L. destruct L as [L1 L2 L3 L4 L5 L6 L7 L8 L9 L10]. pose proof leave_sheds as V.
  assert (forall e x, m' !! e = Some x -> exists y, e <> d /\ dm_devs s !! e = Some y /\ x = with_children y (without d (child_head y))) as B.
  { intros e x Ex. rewrite Hm in Ex. destruct (decide (e = d)); [done|]. apply fmap_Some in Ex as (y & Ey & ->). by exists y. }
  assert (forall e y, e <> d -> dm_devs s !! e = Some y -> m' !! e = Some (with_children y (without d (child_head y)))) as F.
  { intros e y N Ey. by rewrite Hm, decide_False, Ey. }
  assert (forall uc', uc' ∈ unlink_uc (dev_uclass u) (dm_ucs s) -> exists uc, uc ∈ dm_ucs s /\ uc_drv uc' = uc_drv uc /\
    (forall e, e ∈ dev_head uc' -> e ∈ dev_head uc /\ e <> d) /\ (dev_head uc' = dev_head uc \/ dev_head uc' = without d (dev_head uc))) as U.
  { intros uc' Hin. apply list_elem_of_In, in_map_iff in Hin as (uc & <- & Hin). apply list_elem_of_In in Hin. exists uc. split; [done|].
    destruct (Z.eqb_spec (uc_drv uc) (dev_uclass u)) as [He|N]; cbn; (split; [done|]); (split; [|auto]).
    - intros c. by rewrite without_elem.
    - intros c Hd. split; [done|]. intros ->. destruct (L7 uc d Hin Hd) as (x & Ex & Eu). congruence. }
  split; cbn [dm_devs dm_ucs dm_next].
  - intros e x Ex. destruct (B e x Ex) as (y & N & Ey & ->). eauto.
  - intros e x Ex. destruct (B e x Ex) as (y & N & Ey & ->). by apply (L2 e y).
  - intros e x p Ex Hp. destruct (B e x Ex) as (y & N & Ey & ->). destruct (L3 e y p Ey Hp) as (Lt & pu & Ep & Hin). split; [done|].
    assert (p <> d) as Np by (intros ->; rewrite E in Ep; injection Ep as <-; rewrite Hc in Hin; by apply elem_of_nil in Hin).
    eexists. split; [by apply F|]. cbn. by apply without_elem.
  - intros p pu c Ex Hin. destruct (B p pu Ex) as (y & N & Ey & ->). cbn in Hin. apply without_elem in Hin as [Hin Nc].
    destruct (L4 p y c Ey Hin) as (cu & Ec & Hp). eexists. split; [by apply F|done].
  - intros e x Ex. destruct (B e x Ex) as (y & N & Ey & ->). cbn. apply sorted_without. eauto.
  - intros e x Ex. destruct (B e x Ex) as (y & N & Ey & ->). destruct (L6 e y Ey) as (uc & Eu & Hin). cbn [with_children dev_uclass].
    exists (with_members (fun uc => List.filter (here s') (dev_head uc)) uc). split.
    + unfold uc_find. rewrite (sh_ucs _ _ _ V), find_members. unfold uc_find in Eu. by rewrite Eu.
    + cbn. destruct (find_uc_in _ _ _ Eu) as [Hu _].
      rewrite leave_filter by (intros c Hc'; destruct (L7 uc c Hu Hc') as (cu & Ec & _); by apply (here_some _ c cu)). by apply without_elem.
  - intros uc' e Hin He. destruct (U uc' Hin) as (uc & Hu & -> & Hs & _). destruct (Hs e He) as [He' Ne]. destruct (L7 uc e Hu He') as (x & Ex & Eu).
    eexists. split; [by apply F|done].
  - intros uc' Hin. destruct (U uc' Hin) as (uc & Hu & -> & _). by apply L8.
  - unfold unlink_uc. rewrite map_map. rewrite (map_ext _ uc_drv); [done|]. intros uc. by destruct (_ =? _).
  - intros uc' Hin. destruct (U uc' Hin) as (uc & Hu & _ & _ & [->| ->]); [by apply L10|]. by apply nodup_without, L10.
Qed.

Lemma leave_bufs : bufs s'.
Proof using Hm Hh Wf E.
  pose proof (wf_bufs _ _ _ Wf) as [B1 B2 B3]. pose proof leave_sheds as V.
  assert (forall o p, owns s' o = Some p -> owns s o = Some p /\ forall k, o <> ODev d k) as Ho.
  { intros [e k|id k] p H; cbn [owns dm_devs] in H.
    - rewrite Hm in H. destruct (decide (e = d)) as [|N]; [done|]. cbn [owns]. destruct (dm_devs s !! e); [|done]. cbn in H. rewrite own_children in H.
      split; [done|]. intros j [= ? ?]. done.
    - split; [|done]. cbn [owns]. unfold uc_find in *. rewrite (sh_ucs _ _ _ V), find_members in H. by destruct (find _ (dm_ucs s)). }
  assert (forall k p, own u k = Some p -> owns s (ODev d k) = Some p) as Hk by (intros k p; cbn; by rewrite E).
  split; cbn [dm_heap dm_next].
  - intros o p H. destruct (Ho o p H) as [Hs N]. apply Hh. split; [by eapply B1|].
    split; [|split]; intros K; apply Hk in K; pose proof (B2 _ _ _ Hs K); by eapply N.
  - intros o o' p H H'. apply Ho in H as [H _], H' as [H' _]. by eapply B2.
  - intros p [Hp _]%Hh. auto.
Qed.

Lemma leave_wf : wf s'.
Proof using Hm Hh Wf E Hc.
  split; [apply leave_links|apply leave_bufs|]. intros e x Ex Ha. cbn in Ex. rewrite Hm in Ex. destruct (decide (e = d)) as [|N]; [done|].
  apply fmap_Some in Ex as (y & Ey & ->). destruct (wf_alive _ _ _ Wf e y Ey Ha) as [Hv Hp]. split; [done|]. intros p pu Hpar Ep. cbn in Ep. rewrite Hm in Ep.
  destruct (decide (p = d)); [done|]. apply fmap_Some in Ep as (z & Ez & ->). by apply (Hp p z).
Qed.
End Leave.
End Shed.

(** The drivers and uclasses never refuse. *)
Definition agrees {W} (h : option (@hook W)) : Prop := forall f d s r s', h = Some f -> f d s = Ok (r, s') -> r = 0.
Definition agreeable {W} (drivers : list (driver_rec W)) (uclass_drivers : list (uclass_driver W)) : Prop :=
  (forall i v, drivers !! i = Some v -> agrees (drv_unbind v)) /\
  (forall id v, lists_uclass_lookup uclass_drivers id = Some v -> agrees (uc_pre_unbind v)).
Definition all_bound {W} (s : dm W) : Prop := forall d u, dm_devs s !! d = Some u -> has_flag (flags_ u) DM_FLAG_BOUND = true.

Section Unbind.
Context {W : Type} (drivers : list (driver_rec W)) (uclass_drivers : list (uclass_driver W)) (ext : dm_ext W).
Context `{Q : !Quiet drivers uclass_drivers ext}.

#[local] Abbreviation links := (links drivers uclass_drivers).
#[local] Abbreviation wf := (wf drivers uclass_drivers).
#[local] Abbreviation agreeable := (agreeable drivers uclass_drivers).

Lemma wp_agrees h d s (P : Z -> dm W -> Prop) : oquiet h -> (forall r w, (agrees h -> r = 0) -> P r (set_world s w)) -> wp (or_hook h d) s P.
Proof using.
  intros Hq H. unfold or_hook. destruct h as [f|].
  - destruct (Hq f eq_refl d s) as (r & w & E). exists r, (set_world s w). split; [done|]. apply H. intros A. by apply (A f d s r (set_world s w)).
  - apply wp_ret. rewrite <- (set_world_same s). by apply H.
Qed.

(** Giving back the memory at the place [k]. *)
Lemma wp_unplat {A} s d u x fl (slot : udevice -> option Z) (set : udevice -> option Z -> udevice) k (rest : @M W A) (P : A -> dm W -> Prop) :
  own u k = (if has_flag (flags_ u) fl then slot u else None) -> dm_devs s !! d = Some x -> (forall p, own u k = Some p -> p ∈ dm_heap s) ->
  (forall x', x' = x \/ x' = set x None ->
    wp rest (Dm (<[d := x']> (dm_devs s)) (dm_ucs s) (dm_up s) (dm_root s) (unpush (own u k) (dm_heap s)) (dm_next s) (dm_world s)) P) ->
  wp ((if has_flag (flags_ u) fl then free (slot u) ;; upd_dev d (fun u => set u None) else ret tt) ;; rest) s P.
Proof using.
  intros Eo E Hp H. apply wp_bind. destruct (has_flag (flags_ u) fl) eqn:F.
  - rewrite <- Eo. apply wp_bind. destruct (own u k) as [p|] eqn:Ek.
    + exists tt. eexists. split; [unfold free; by rewrite decide_True by (by apply Hp)|]. apply (wp_upd_dev d x); [done|]. apply H. by right.
    + exists tt, s. split; [done|]. apply (wp_upd_dev d x); [done|]. apply (H (set x None)). by right.
  - apply wp_ret. rewrite Eo in H. specialize (H x). rewrite insert_id in H by done. destruct s. apply H. by left.
Qed.

(** The rest of an unbind: the device is inactive and has no children. *)
Lemma wp_unbind_self s d u (P : Z -> dm W -> Prop) : wf s -> dm_devs s !! d = Some u -> child_head u = [] ->
  (forall r s', wf s' -> sheds (eq d) s s' -> (r = 0 -> dm_devs s' !! d = None) -> (agreeable -> r = 0) -> P r s') ->
  wp (unbind_self uclass_drivers ext d) s P.
Proof using Q.
  intros Wf E Hc H. pose proof (wf_links _ _ _ Wf) as L. pose proof (wf_bufs _ _ _ Wf) as Bu. unfold unbind_self, uclass_pre_unbind_device.
  apply wp_bind, wp_bind, (wp_uc_drv_of drivers uclass_drivers ext s d u); [done..|]. intros ucd El Qu. apply wp_agrees; [apply Qu|]. intros r w Ha.
  destruct (Z.eqb_spec r 0) as [->|Nr]; cbn [negb].
  2:{ apply wp_ret, H; [by apply wf_world|by eapply sheds_refl|done|]. intros Ag. apply Ha, (proj2 Ag _ _ El). }
  apply wp_bind, (wp_get_dev d u); [done|]. assert (forall k p, own u k = Some p -> p ∈ dm_heap s) as Hin.
  { intros k p Ho. apply (bf_heap _ Bu (ODev d k)). cbn. by rewrite E. }
  assert (forall j k p, own u j = Some p -> own u k = Some p -> j = k) as Honce.
  { intros j k p Hj Hk. assert (ODev d j = ODev d k) as K; [|by injection K]. apply (bf_once _ Bu _ _ p); cbn; by rewrite E. }
  apply (wp_unplat _ d u u DM_FLAG_ALLOC_PDATA plat_ dev_set_plat 0); [done|done|by apply Hin|]. intros x0 H0.
  apply (wp_unplat _ d u x0 DM_FLAG_ALLOC_UCLASS_PDATA uclass_plat_ dev_set_uclass_plat 2); [done|apply lookup_insert_eq| |].
  { intros p Hp. apply unpush_elem. split; [by apply (Hin 2%nat)|]. intros K. by pose proof (Honce _ _ _ Hp K). }
  intros x1 H1. cbn [dm_devs dm_ucs dm_up dm_root dm_heap dm_next dm_world]. rewrite insert_insert_eq.
  apply (wp_unplat _ d u x1 DM_FLAG_ALLOC_PARENT_PDATA parent_plat_ dev_set_parent_plat 1); [done|apply lookup_insert_eq| |].
  { intros p Hp. cbn [dm_heap]. rewrite !unpush_elem. split; [split; [by apply (Hin 1%nat)|]|]; intros K; by pose proof (Honce _ _ _ Hp K). }
  intros x2 H2. cbn [dm_devs dm_ucs dm_up dm_root dm_heap dm_next dm_world]. rewrite insert_insert_eq.
  assert (parent x2 = parent u /\ dev_uclass x2 = dev_uclass u) as [Ep Eu] by (destruct H0 as [->| ->], H1 as [->| ->], H2 as [->| ->]; done).
  clear H0 H1 H2 x0 x1. set (hp := unpush _ _).
  apply wp_bind. unfold uclass_unbind_device. apply wp_bind, wp_bind, (wp_get_dev d x2); [apply lookup_insert_eq|]. exists tt. eexists. split; [reflexivity|].
  apply wp_ret. cbn [Z.eqb negb]. unfold set_ucs. cbn [dm_devs dm_ucs dm_up dm_root dm_heap dm_next dm_world]. rewrite Eu.
  fold (unlink_uc d (dev_uclass u) (dm_ucs s)). apply wp_bind, wp_bind, (wp_get_dev d x2); [apply lookup_insert_eq|].
  assert (forall m', (forall e, delete d m' !! e = if decide (e = d) then None else (fun x => with_children x (without d (child_head x))) <$> dm_devs s !! e) ->
     is_Some (m' !! d) -> wp (devres_release_all ext d ;; free_dev d ;; ret 0)
       (Dm m' (unlink_uc d (dev_uclass u) (dm_ucs s)) (dm_up s) (dm_root s) hp (dm_next s) w) P) as Fin.
  { intros m' Hm [y Ey]. apply wp_bind, wp_quiet; [apply q_ext|]. intros _ w'. apply wp_bind. exists tt. eexists.
    split; [unfold free_dev; cbn; by rewrite Ey|]. apply wp_ret, H; [| | |done].
    - apply (leave_wf drivers uclass_drivers s d u hp w'); try done. intros p. unfold hp. rewrite !unpush_elem. tauto.
    - apply (leave_sheds drivers uclass_drivers s d u hp w'); try done. intros p. unfold hp. rewrite !unpush_elem. tauto.
    - intros _. apply lookup_delete_eq. }
  assert (forall e x, dm_devs s !! e = Some x -> parent u <> Some e -> with_children x (without d (child_head x)) = x) as Hno.
  { intros e x Ex N. rewrite without_notin; [apply children_same|]. intros Hd. destruct (lk_child _ _ _ L e x d Ex Hd) as (cu & Ec & Hp). congruence. }
  rewrite Ep. destruct (parent u) as [p|] eqn:Epar.
  - destruct (lk_parent _ _ _ L d u p E Epar) as (Lt & pu & Epu & _). apply (wp_upd_dev p pu); [cbn; by rewrite lookup_insert_ne by lia|].
    apply Fin; cbn.
    + intros e. destruct (decide (e = d)) as [->|N]; [apply lookup_delete_eq|]. rewrite lookup_delete_ne by done.
      destruct (decide (e = p)) as [->|Np]; [by rewrite lookup_insert_eq, Epu|]. rewrite !lookup_insert_ne by done.
      destruct (dm_devs s !! e) as [x|] eqn:Ex; [|done]. cbn. f_equal. symmetry. apply (Hno e); [done|congruence].
    + rewrite lookup_insert_ne, lookup_insert_eq by lia. by eexists.
  - apply wp_ret, Fin; cbn.
    + intros e. destruct (decide (e = d)) as [->|N]; [apply lookup_delete_eq|]. rewrite lookup_delete_ne, lookup_insert_ne by done.
      destruct (dm_devs s !! e) as [x|] eqn:Ex; [|done]. cbn. f_equal. symmetry. by apply (Hno e).
    + rewrite lookup_insert_eq. by eexists.
Qed.

Definition unbind_ok (fuel : nat) : Prop := forall s d u B (P : Z -> dm W -> Prop),
  wf s -> below B s -> dm_devs s !! d = Some u -> (2 * Z.to_nat (B - d) + 1 <= fuel)%nat ->
  (forall r s', wf s' -> sheds (sub s d) s s' -> (r = 0 -> dm_devs s' !! d = None) ->
    (agreeable -> all_bound s -> ~ is_active u -> r = 0) -> P r s') ->
  wp (device_unbind drivers uclass_drivers ext fuel d) s P.

(** [l1] are the children that have stayed. *)
Definition unbind_loop_ok (fuel : nat) : Prop := forall s d u B l1 l2 saved (P : Z -> dm W -> Prop),
  wf s -> below B s -> dm_devs s !! d = Some u -> ~ is_active u -> child_head u = l1 ++ l2 ->
  (match l2 with [] => 1 | c :: _ => 2 * Z.to_nat (B - c) + 2 end <= fuel)%nat -> (saved = 0 -> l1 = []) ->
  (forall r s', wf s' -> sheds (below_child s d) s s' -> (r = 0 -> dm_devs s' !! d = Some (with_children u [])) ->
    (agreeable -> all_bound s -> saved = 0 -> r = 0) -> P r s') ->
  wp (chld_unbind_loop drivers uclass_drivers ext fuel d (hd_error l2) None saved) s P.

Lemma filter_one (f : Z -> bool) l1 c l2 : (forall e, e ∈ l1 ++ l2 -> f e = true) ->
  List.filter f (l1 ++ c :: l2) = (if f c then l1 ++ [c] else l1) ++ l2.
Proof using.
  intros H. rewrite List.filter_app. cbn. rewrite (filter_keep_all f l1), (filter_keep_all f l2) by (intros e He; apply H, elem_of_app; auto).
  destruct (f c); [by rewrite <- app_assoc|done].
Qed.

Lemma child_up s d u c : links s -> dm_devs s !! d = Some u -> c ∈ child_head u -> up s c d /\ d < c.
Proof using.
  intros L E Hc. destruct (lk_child _ _ _ L d u c E Hc) as (cu & Ec & Hp). split; [by exists cu|]. by apply (lk_parent _ _ _ L c cu d Ec Hp).
Qed.

(** A child and what is below it is not another child. *)
Lemma sub_child s d u c e : links s -> dm_devs s !! d = Some u -> c ∈ child_head u -> e ∈ child_head u -> sub s c e -> e = c.
Proof using.
  intros L E Hc He H. apply rtc_inv in H as [->|(b & (eu & Ee & Hp) & Hb)]; [done|]. exfalso.
  destruct (child_up s d u e L E He) as [(eu' & Ee' & Hp') _]. rewrite Ee in Ee'. injection Ee' as <-. rewrite Hp in Hp'. injection Hp' as ->.
  destruct (child_up s d u c L E Hc) as [_ Lt]. pose proof (anc_le drivers uclass_drivers s d c L Hb). lia.
Qed.

Lemma unbind_loop_step n : unbind_ok n -> unbind_loop_ok n -> unbind_loop_ok (S n).
Proof using Q.
  intros IHd IHl s d u B l1 l2 saved P Wf Hb E Na El Hf Hs H. pose proof (wf_links _ _ _ Wf) as L. cbn [chld_unbind_loop]. destruct l2 as [|c l2]; cbn [hd_error].
  { apply wp_ret. rewrite app_nil_r in El. rewrite <- (set_world_same s). apply H; [by rewrite set_world_same|by eapply sheds_refl| |done].
    intros ->. rewrite set_world_same. rewrite <- (Hs eq_refl), <- El. by rewrite children_same. }
  pose proof (lk_sorted _ _ _ L d u E) as So. rewrite El in So. destruct (sorted_not_in l1 c l2 So) as [Nc Fc].
  assert (c ∈ child_head u) as Hc by (rewrite El; apply elem_of_app; right; by left).
  destruct (lk_child _ _ _ L d u c E Hc) as (cu & Ec & Hp). destruct (child_up s d u c L E Hc) as [Uc Lt].
  apply wp_bind, wp_bind, (wp_get_dev d u), wp_ret; [done|]. rewrite El, next_after_app by done. apply wp_bind, (wp_get_dev c cu); [done|].
  rewrite bool_decide_eq_false_2 by (intros K; by apply K). cbn [andb].
  apply wp_bind, (IHd s c cu B); [done..|lia|]. intros r s1 Wf1 V1 Hr Hg.
  assert (~ sub s c d) as Nsub by (intros K; pose proof (anc_le drivers uclass_drivers s d c L K); lia).
  destruct (sh_stay _ _ _ V1 d u E Nsub) as [u1 E1]. destruct (sh_back _ _ _ V1 d u1 E1) as (u' & E' & Eu1). rewrite E in E'. injection E' as <-.
  assert (child_head u1 = (if here s1 c then l1 ++ [c] else l1) ++ l2) as El1.
  { rewrite Eu1. cbn. rewrite El. apply filter_one. intros e He. assert (e ∈ child_head u) as He'.
    { rewrite El. rewrite !elem_of_app in *. rewrite elem_of_cons. tauto. }
    destruct (lk_child _ _ _ L d u e E He') as (eu & Ee & _). destruct (sh_stay _ _ _ V1 e eu Ee) as [x Ex]; [|by apply (here_some _ e x)].
    intros K. pose proof (sub_child s d u c e L E Hc He' K) as ->. apply elem_of_app in He as [|He]; [done|].
    rewrite Forall_forall in Fc. specialize (Fc c He). lia. }
  assert (forall e, sub s c e -> below_child s d e) as Sc.
  { intros e K. split; [eapply rtc_r; [exact K|done]|]. intros ->. done. }
  eapply (IHl s1 d u1 B (if here s1 c then l1 ++ [c] else l1) l2); [done|by eapply below_sheds|done|by rewrite Eu1|done| | |].
  - destruct l2 as [|c2 l2]; [lia|]. apply Forall_cons in Fc as [Lc _].
    assert (c2 < B); [|lia]. assert (c2 ∈ child_head u) as H2 by (rewrite El; apply elem_of_app; right; right; by left).
    destruct (lk_child _ _ _ L d u c2 E H2) as (cu2 & Ec2 & _). by apply (Hb c2 cu2).
  - destruct (Z.eqb_spec r 0) as [->|Nr]; cbn [negb andb].
    + intros ->. assert (here s1 c = false) as ->; [|by apply Hs]. apply bool_decide_eq_false_2. rewrite (Hr eq_refl). by intros [x K].
    + destruct (Z.eqb_spec saved 0); done.
  - intros r2 s2 Wf2 V2 Hr2 Hg2. apply H; [done| | |].
    + eapply sheds_trans; [by eapply sheds_mono; [exact Sc|]|]. eapply sheds_mono; [|exact V2]. intros e [K Ne]. split; [by eapply anc_sheds|done].
    + intros K. rewrite (Hr2 K), Eu1. done.
    + intros Ag Ab ->. assert (r = 0) as ->.
      { apply Hg; [done|done|]. intros Ka. by destruct (wf_alive _ _ _ Wf c cu Ec Ka) as [_ K]; apply Na, (K d u). }
      apply Hg2; [done| |done]. intros e x Ex. destruct (sh_back _ _ _ V1 e x Ex) as (y & Ey & ->). by apply (Ab e y).
Qed.

Lemma unbind_step n : unbind_loop_ok n -> unbind_ok (S n).
Proof using Q.
  intros IH s d u B P Wf Hb E Hf H. pose proof (wf_links _ _ _ Wf) as L. cbn [device_unbind].
  assert (forall r w, r <> 0 -> (agreeable -> all_bound s -> ~ is_active u -> r = 0) -> P r (set_world s w)) as Stop.
  { intros r w Nr K. apply H; [by apply wf_world|by eapply sheds_refl|done|done]. }
  apply wp_bind, wp_bind, (wp_get_dev d u), wp_ret; [done|]. rewrite active_flag. case_bool_decide as Ha.
  { apply wp_ret. rewrite <- (set_world_same s). by apply Stop. }
  destruct (has_flag (flags_ u) DM_FLAG_BOUND) eqn:Fb; cbn [negb].
  2:{ apply wp_ret. rewrite <- (set_world_same s). apply Stop; [done|]. intros _ Ab _. by rewrite (Ab d u E) in Fb. }
  apply wp_bind, (wp_drv_of drivers uclass_drivers ext s d u); [done..|]. intros v Ev Qv. apply wp_bind, wp_agrees; [apply Qv|]. intros r w Hr.
  destruct (Z.eqb_spec r 0) as [->|Nr]; cbn [negb].
  2:{ apply wp_ret, Stop; [done|]. intros Ag _ _. apply Hr, (proj1 Ag _ _ Ev). }
  set (s0 := set_world s w). assert (wf s0) as Wf0 by (by apply wf_world). apply wp_bind, (wp_get_dev d u); [done|].
  apply wp_bind, (IH s0 d u B [] (child_head u)); try done.
  - pose proof (Hb d u E). destruct (child_head u) as [|c l] eqn:Ec; [lia|]. destruct (child_up s d u c L E) as [(cu & Ecu & _) Lt]; [rewrite Ec; by left|].
    pose proof (Hb c cu Ecu). lia.
  - intros r s1 Wf1 V1 Hr1 Hg1. assert (sheds (sub s d) s s1) as V.
    { eapply sheds_trans; [by eapply sheds_refl|]. eapply sheds_mono; [|exact V1]. by intros e [K _]. }
    destruct (Z.eqb_spec r 0) as [->|Nr]; cbn [negb].
    2:{ apply wp_ret, H; try done. intros Ag Ab _. by apply Hg1. }
    apply (wp_unbind_self s1 d (with_children u [])); [done|by apply Hr1|done|]. intros r2 s2 Wf2 V2 Hr2 Hg2. apply H; [done| |done|intros Ag _ _; by apply Hg2].
    eapply sheds_trans; [exact V|]. eapply sheds_mono; [|exact V2]. intros e <-. apply rtc_refl.
Qed.

Lemma unbind_all_ok fuel : unbind_ok fuel /\ unbind_loop_ok fuel.
Proof using Q.
  induction fuel as [|n [IHd IHl]].
  - split; [intros s d u B P _ _ _ Hf; lia|]. intros s d u B l1 l2 saved P _ _ _ _ _ Hf. destruct l2; lia.
  - split; [by apply unbind_step|by apply unbind_loop_step].
Qed.

(** When [d] is gone so is everything below it. *)
Lemma shed_all T s s' d e : wf s' -> sheds T s s' -> sub s d e -> dm_devs s' !! d = None -> dm_devs s' !! e = None.
Proof using.
  intros Wf V H. induction H as [|e b a (u & E & Hp) _ IH]; [done|]. intros N. specialize (IH N).
  destruct (dm_devs s' !! e) as [x'|] eqn:E'; [|done]. exfalso. destruct (sh_back _ _ _ V e x' E') as (x & Ex & ->). rewrite E in Ex. injection Ex as <-.
  destruct (lk_parent _ _ _ (wf_links _ _ _ Wf) e _ b E' Hp) as (_ & pu & Ep & _). by rewrite IH in Ep.
Qed.
End Unbind.
