(* ===== verification/DmFind.v ===== *)
(** The driver model: looking for devices in uclasses and among children, and
    getting them ready (drivers/core/uclass.c and device.c).  A function that
    gives a device through a pointer returns the result and that device. *)

From stdpp Require Import gmap.
From S2P Require Import Prelude Bytes Cstring Dm.

Section Find.
Context {W : Type} (drivers : list (driver_rec W)) (uclass_drivers : list (uclass_driver W)) (ext : dm_ext W).
(** What the device tree says about a device. *)
Context (dev_read_phandle : udevice -> Z).

#[local] Abbreviation M := (@M W).
#[local] Abbreviation uclass_get := (uclass_get uclass_drivers ext).
#[local] Abbreviation device_probe := (device_probe drivers uclass_drivers ext).
#[local] Abbreviation device_of_to_plat := (device_of_to_plat drivers uclass_drivers ext).

(** The first of [l] that [p] holds of: the loop of every search. *)
Fixpoint find_dev (p : udevice -> bool) (l : list Z) : M (option Z) :=
  match l with
  | [] => ret None
  | d :: l' => let! u := get_dev d in if p u then ret (Some d) else find_dev p l'
  end.
Fixpoint nth_dev (l : list Z) (index : Z) : option Z :=
  match l with [] => None | d :: l' => if index =? 0 then Some d else nth_dev l' (index - 1) end.

Definition found (x : option Z) : Z * option Z := match x with Some d => (0, Some d) | None => (- ENODEV, None) end.

(** ** Uclasses *)

(** The members of the uclass, or an error. *)
Definition members (id : Z) : M (Z * list Z) :=
  let! got := uclass_get id in
  let (r, uc) := (got : Z * option Z) in
  if negb (r =? 0) then ret (r, []) else let! uc := uc_get (default 0 uc) in ret (0, dev_head uc).
Definition uclass_search (id : Z) (p : udevice -> bool) : M (Z * option Z) :=
  let! got := members id in
  let (r, l) := (got : Z * list Z) in
  if negb (r =? 0) then ret (r, None) else let! x := find_dev p l in ret (found x).

Definition uclass_find_device (id index : Z) : M (Z * option Z) :=
  let! got := members id in
  let (r, l) := (got : Z * list Z) in
  if negb (r =? 0) then ret (r, None) else ret (found (nth_dev l index)).
Definition uclass_find_first_device (id : Z) : M (Z * option Z) :=
  let! got := members id in
  let (r, l) := (got : Z * list Z) in
  if negb (r =? 0) then ret (r, None) else ret (0, hd_error l).
Definition uclass_find_next_device (d : Z) : M (Z * option Z) :=
  let! u := get_dev d in
  let! uc := uc_get (dev_uclass u) in
  ret (0, next_after (dev_head uc) d).

Definition name_is (name : list Z) (len : Z) (u : udevice) : bool := (strncmp (dev_name u) name len =? 0) && (strlen (dev_name u) =? len).
Definition uclass_find_device_by_namelen (id : Z) (name : option (list Z)) (len : Z) : M (Z * option Z) :=
  match name with None => ret (- EINVAL, None) | Some name => uclass_search id (name_is name len) end.
Definition uclass_find_device_by_name (id : Z) (name : list Z) : M (Z * option Z) := uclass_find_device_by_namelen id (Some name) (strlen name).
Definition uclass_try_first_device (id : Z) : M (option Z) :=
  let! uc := uclass_find id in
  match uc with None => ret None | Some uc => let! uc := uc_get uc in ret (hd_error (dev_head uc)) end.
Definition uclass_find_device_by_seq (id seq : Z) : M (Z * option Z) :=
  if seq =? -1 then ret (- ENODEV, None) else uclass_search id (fun u => seq_ u =? seq).
Definition uclass_find_device_by_ofnode (id : Z) (node : option Z) : M (Z * option Z) :=
  match node with None => ret (- ENODEV, None) | Some _ => uclass_search id (fun u => bool_decide (node_ u = node)) end.
Definition uclass_find_device_by_phandle_id (id find_phandle : Z) : M (Z * option Z) :=
  uclass_search id (fun u => dev_read_phandle u =? find_phandle).

(** The device is used only when [r] is 0. *)
Definition uclass_get_device_tail (fuel : nat) (dev : option Z) (r : Z) : M (Z * option Z) :=
  if negb (r =? 0) then ret (r, None)
  else
    match dev with
    | None => fun _ => Fault
    | Some d => let! r := device_probe fuel d in if negb (r =? 0) then ret (r, None) else ret (0, Some d)
    end.
Definition get_found (fuel : nat) (m : M (Z * option Z)) : M (Z * option Z) :=
  let! got := m in let (r, dev) := (got : Z * option Z) in uclass_get_device_tail fuel dev r.

Definition uclass_get_device_by_driver (fuel : nat) (id find_drv : Z) : M (Z * option Z) :=
  get_found fuel (uclass_search id (fun u => driver u =? find_drv)).
Definition uclass_get_device (fuel : nat) (id index : Z) : M (Z * option Z) := get_found fuel (uclass_find_device id index).
Definition uclass_get_device_by_name (fuel : nat) (id : Z) (name : list Z) : M (Z * option Z) := get_found fuel (uclass_find_device_by_name id name).
Definition uclass_get_device_by_seq (fuel : nat) (id seq : Z) : M (Z * option Z) := get_found fuel (uclass_find_device_by_seq id seq).
Definition uclass_get_device_by_ofnode (fuel : nat) (id : Z) (node : option Z) : M (Z * option Z) :=
  get_found fuel (uclass_find_device_by_ofnode id node).
Definition uclass_get_device_by_phandle_id (fuel : nat) (id phandle_id : Z) : M (Z * option Z) :=
  get_found fuel (uclass_find_device_by_phandle_id id phandle_id).

(** From [dev] on, the first that probes; [rounds] bounds the devices tried. *)
Fixpoint next_device_from (rounds fuel : nat) (dev : option Z) : M (option Z) :=
  match dev with
  | None => ret None
  | Some d =>
      match rounds with
      | O => fun _ => Hangs
      | S n =>
          let! r := device_probe fuel d in
          if r =? 0 then ret (Some d)
          else let! got := uclass_find_next_device d in next_device_from n fuel (snd (got : Z * option Z))
      end
  end.
Definition uclass_first_device (rounds fuel : nat) (id : Z) : M (option Z) :=
  let! got := uclass_find_first_device id in next_device_from rounds fuel (snd (got : Z * option Z)).
Definition uclass_next_device (rounds fuel : nat) (d : Z) : M (option Z) :=
  let! got := uclass_find_next_device d in next_device_from rounds fuel (snd (got : Z * option Z)).

(** The device is given also when its probe fails. *)
Definition check_device (fuel : nat) (m : M (Z * option Z)) : M (Z * option Z) :=
  let! got := m in
  let (r, dev) := (got : Z * option Z) in
  if negb (r =? 0) then ret (r, dev)
  else match dev with None => ret (0, None) | Some d => let! r := device_probe fuel d in ret (r, Some d) end.
Definition uclass_first_device_check (fuel : nat) (id : Z) : M (Z * option Z) := check_device fuel (uclass_find_first_device id).
Definition uclass_next_device_check (fuel : nat) (d : Z) : M (Z * option Z) := check_device fuel (uclass_find_next_device d).
Definition err_device (m : M (Z * option Z)) : M (Z * option Z) :=
  let! got := m in
  let (r, dev) := (got : Z * option Z) in
  if negb (r =? 0) then ret (r, dev) else match dev with None => ret (- ENODEV, None) | Some d => ret (0, Some d) end.
Definition uclass_first_device_err (fuel : nat) (id : Z) : M (Z * option Z) := err_device (uclass_first_device_check fuel id).
Definition uclass_next_device_err (fuel : nat) (d : Z) : M (Z * option Z) := err_device (uclass_next_device_check fuel d).

Fixpoint probe_rest (rounds fuel : nat) (dev : option Z) (err : Z) : M Z :=
  match dev with
  | None => ret err
  | Some d =>
      match rounds with
      | O => fun _ => Hangs
      | S n =>
          let! got := uclass_next_device_check fuel d in
          let (r, dev) := (got : Z * option Z) in
          probe_rest n fuel dev (if negb (r =? 0) then r else err)
      end
  end.
Definition uclass_probe_all (rounds fuel : nat) (id : Z) : M Z :=
  let! got := uclass_first_device_check fuel id in
  let (err, dev) := (got : Z * option Z) in
  probe_rest rounds fuel dev err.

Definition uclass_get_count : M Z :=
  fun s => match dm_root s with Some _ => Ok (Z.of_nat (length (dm_ucs s)), s) | None => Ok (0, s) end.
Definition uclass_id_count (id : Z) : M Z :=
  let! got := members id in
  let (r, l) := (got : Z * list Z) in
  ret (if negb (r =? 0) then 0 else Z.of_nat (length l)).
Definition uclass_first_device_drvdata (fuel : nat) (id data : Z) : M (Z * option Z) :=
  let! got := members id in
  let (r, l) := (got : Z * list Z) in
  if negb (r =? 0) then ret (- ENODEV, None)
  else
    let! x := find_dev (fun u => driver_data u =? data) l in
    match x with None => ret (- ENODEV, None) | Some d => let! r := device_probe fuel d in ret (r, Some d) end.

(** ** Children *)

Definition device_get_device_tail (fuel : nat) (dev : option Z) (r : Z) : M (Z * option Z) :=
  if negb (r =? 0) then ret (r, None)
  else
    match dev with
    | None => ret (- EINVAL, None)
    | Some d => let! r := device_probe fuel d in if negb (r =? 0) then ret (r, None) else ret (0, Some d)
    end.
Definition children (p : Z) : M (list Z) := let! u := get_dev p in ret (child_head u).
Definition child_search (p : Z) (f : udevice -> bool) : M (Z * option Z) := let! l := children p in let! x := find_dev f l in ret (found x).

Definition device_get_child (fuel : nat) (p index : Z) : M (Z * option Z) :=
  let! l := children p in
  match nth_dev l index with Some d => device_get_device_tail fuel (Some d) 0 | None => ret (- ENODEV, None) end.
Definition device_get_child_count (p : Z) : M Z := let! l := children p in ret (Z.of_nat (length l)).
Fixpoint device_get_decendent_count (fuel : nat) (p : Z) : M Z :=
  match fuel with
  | O => fun _ => Hangs
  | S n =>
      let! l := children p in
      (fix go (l : list Z) (count : Z) : M Z :=
         match l with [] => ret count | d :: l' => let! c := device_get_decendent_count n d in go l' (count + c) end) l 1
  end.
Definition device_find_child_by_seq (p seq : Z) : M (Z * option Z) := child_search p (fun u => seq_ u =? seq).
Definition device_get_child_by_seq (fuel : nat) (p seq : Z) : M (Z * option Z) :=
  let! got := device_find_child_by_seq p seq in let (r, dev) := (got : Z * option Z) in device_get_device_tail fuel dev r.

Fixpoint _device_find_global_by_ofnode (fuel : nat) (p : Z) (node : option Z) : M (option Z) :=
  match fuel with
  | O => fun _ => Hangs
  | S n =>
      let! u := get_dev p in
      if bool_decide (node_ u = node) then ret (Some p)
      else
        (fix go (l : list Z) : M (option Z) :=
           match l with
           | [] => ret None
           | d :: l' => let! x := _device_find_global_by_ofnode n d node in match x with Some y => ret (Some y) | None => go l' end
           end) (child_head u)
  end.
Definition root_dev : M Z := fun s => match dm_root s with Some r => Ok (r, s) | None => Fault end.
Definition device_find_global_by_ofnode (fuel : nat) (node : option Z) : M (Z * option Z) :=
  let! r := root_dev in
  let! x := _device_find_global_by_ofnode fuel r node in
  ret (if bool_decide (x = None) then - ENOENT else 0, x).
Definition device_get_global_by_ofnode (fuel : nat) (node : option Z) : M (Z * option Z) :=
  let! r := root_dev in
  let! x := _device_find_global_by_ofnode fuel r node in
  device_get_device_tail fuel x (if bool_decide (x = None) then - ENOENT else 0).

Definition device_find_first_child (p : Z) : M (option Z) := let! l := children p in ret (hd_error l).
Definition device_find_next_child (d : Z) : M (option Z) :=
  let! p := dev_get_parent d in
  match p with None => fun _ => Fault | Some p => let! l := children p in ret (next_after l d) end.
Definition device_active (u : udevice) : bool := has_flag (flags_ u) DM_FLAG_ACTIVATED.
Definition device_find_first_inactive_child (p uclass_id : Z) : M (Z * option Z) :=
  child_search p (fun u => negb (device_active u) && (dev_uclass u =? uclass_id)).
Definition device_find_first_child_by_uclass (p uclass_id : Z) : M (Z * option Z) := child_search p (fun u => dev_uclass u =? uclass_id).
Definition device_find_child_by_namelen (p : Z) (name : list Z) (len : Z) : M (Z * option Z) := child_search p (name_is name len).
Definition device_find_child_by_name (p : Z) (name : list Z) : M (Z * option Z) := device_find_child_by_namelen p name (strlen name).

Definition child_err (m : M (option Z)) (tail : Z -> M (Z * option Z)) : M (Z * option Z) :=
  let! x := m in match x with None => ret (- ENODEV, None) | Some d => tail d end.
Definition device_first_child_err (fuel : nat) (p : Z) : M (Z * option Z) :=
  child_err (device_find_first_child p) (fun d => device_get_device_tail fuel (Some d) 0).
Definition device_next_child_err (fuel : nat) (d : Z) : M (Z * option Z) :=
  child_err (device_find_next_child d) (fun d => device_get_device_tail fuel (Some d) 0).
Definition ofdata_tail (fuel : nat) (d : Z) : M (Z * option Z) :=
  let! r := device_of_to_plat fuel d in if negb (r =? 0) then ret (r, None) else ret (0, Some d).
Definition device_first_child_ofdata_err (fuel : nat) (p : Z) : M (Z * option Z) := child_err (device_find_first_child p) (ofdata_tail fuel).
Definition device_next_child_ofdata_err (fuel : nat) (d : Z) : M (Z * option Z) := child_err (device_find_next_child d) (ofdata_tail fuel).

Definition device_has_children (d : Z) : M bool := let! l := children d in ret (negb (bool_decide (l = []))).
Definition device_has_active_children (d : Z) : M bool :=
  let! l := children d in let! x := find_dev device_active l in ret (negb (bool_decide (x = None))).
Definition device_is_last_sibling (d : Z) : M bool :=
  let! p := dev_get_parent d in
  match p with None => ret false | Some p => let! l := children p in ret (bool_decide (last l = Some d)) end.

(** ** Start and end (root.c) *)

Definition with_node (u : udevice) (n : option Z) : udevice :=
  Dev (driver u) (dev_name u) (plat_ u) (parent_plat_ u) (uclass_plat_ u) (driver_data u) (parent u) (priv_ u)
    (uclass_priv_ u) (parent_priv_ u) (dev_uclass u) (child_head u) (flags_ u) (seq_ u) n (dma_offset u).
Definition dev_set_ofnode (d : Z) (n : option Z) : M unit := upd_dev d (fun u => with_node u n).

Definition root_driver : list Z := [114; 111; 111; 116; 95; 100; 114; 105; 118; 101; 114].

Definition dm_init (fuel : nat) (of_control : bool) (ofnode_root : option Z) : M Z :=
  fun s =>
    match dm_root s with
    | Some _ => Ok (- EINVAL, s)
    | None =>
        (let! got := device_bind_by_name drivers uclass_drivers ext None false root_driver None in
         let (r, d) := (got : Z * option Z) in
         if negb (r =? 0) then ret r
         else
           let d := default 0 d in
           (fun s => Ok (tt, set_root s (Some d))) ;;
           (if of_control then dev_set_ofnode d ofnode_root else ret tt) ;;
           device_probe fuel d)
          (Dm (dm_devs s) [] true (dm_root s) (dm_heap s) (dm_next s) (dm_world s))
    end.

(** [dm_root()], which may be no device. *)
Definition on_root (m : Z -> M Z) : M Z := fun s => match dm_root s with Some r => m r s | None => Ok (- EINVAL, s) end.
Definition dm_remove_devices_flags (fuel : nat) (flags : Z) : M Z :=
  on_root (fun r => device_remove drivers uclass_drivers ext fuel r flags) ;; ret 0.
Definition dm_remove_devices_active (fuel : nat) : M unit :=
  on_root (fun r => device_remove drivers uclass_drivers ext fuel r (Z.lor DM_REMOVE_ACTIVE_ALL DM_REMOVE_NON_VITAL)) ;;
  on_root (fun r => device_remove drivers uclass_drivers ext fuel r DM_REMOVE_ACTIVE_ALL) ;; ret tt.
Definition dm_uninit (fuel : nat) : M Z :=
  on_root (fun r => device_remove drivers uclass_drivers ext fuel r DM_REMOVE_NON_VITAL) ;;
  on_root (fun r => device_remove drivers uclass_drivers ext fuel r DM_REMOVE_NORMAL) ;;
  on_root (fun r => device_unbind drivers uclass_drivers ext fuel r) ;;
  (fun s => Ok (0, set_root s None)).

(** The end of a uclass, its members first; [rounds] bounds the members. *)
Fixpoint destroy_members (rounds fuel : nat) (id : Z) : M Z :=
  let! uc := uc_get id in
  match dev_head uc with
  | [] => ret 0
  | d :: _ =>
      match rounds with
      | O => fun _ => Hangs
      | S n =>
          let! r := device_remove drivers uclass_drivers ext fuel d (Z.lor DM_REMOVE_NORMAL DM_REMOVE_NO_PD) in
          if negb (r =? 0) then ret r
          else
            let! r := device_unbind drivers uclass_drivers ext fuel d in
            if negb (r =? 0) then ret r else destroy_members n fuel id
      end
  end.
Definition uclass_destroy (rounds fuel : nat) (id : Z) : M Z :=
  let! r := destroy_members rounds fuel id in
  if negb (r =? 0) then ret r
  else
    let! ucd := get_uc_drv uclass_drivers id in
    or_hook (uc_destroy ucd) id ;;
    let! uc := uc_get id in
    (fun s => Ok (tt, set_ucs s (List.filter (fun c => negb (uc_drv c =? id)) (dm_ucs s)))) ;;
    (if negb (uc_priv_auto ucd =? 0) then free (uc_priv uc) else ret tt) ;;
    free (Some (uc_mem uc)) ;; ret 0.

(** The devices the build declares: name of the driver and platform data. *)
Fixpoint bind_drivers_pass (infos : list (list Z * option Z)) (p : Z) (pre_reloc_only : bool) (result : Z) : M Z :=
  match infos with
  | [] => ret result
  | (name, plat) :: infos' =>
      let! got := device_bind_by_name drivers uclass_drivers ext (Some p) pre_reloc_only name plat in
      let (r, _) := (got : Z * option Z) in
      bind_drivers_pass infos' p pre_reloc_only
        (if r =? 0 then result else if negb (r =? - EPERM) && ((result =? 0) || negb (r =? - ENOENT)) then r else result)
  end.
Fixpoint bind_passes (n : nat) (infos : list (list Z * option Z)) (p : Z) (pre_reloc_only : bool) (result : Z) : M Z :=
  match n with
  | O => ret result
  | S n' =>
      let! r := bind_drivers_pass infos p pre_reloc_only 0 in
      let result := if (result =? 0) || (result =? - EAGAIN) then r else result in
      if negb (r =? - EAGAIN) then ret result else bind_passes n' infos p pre_reloc_only result
  end.
Definition lists_bind_drivers (infos : list (list Z * option Z)) (p : Z) (pre_reloc_only : bool) : M Z := bind_passes 10 infos p pre_reloc_only 0.
Definition dm_scan_plat (infos : list (list Z * option Z)) (pre_reloc_only : bool) : M Z :=
  let! p := root_dev in
  let! r := lists_bind_drivers infos p pre_reloc_only in
  ret (if r =? - ENOENT then 0 else r).

Definition device_bind_driver_to_node (p : Z) (drv_name dev_name : list Z) (node : option Z) : M (Z * option Z) :=
  match lists_driver_lookup_name drivers drv_name with
  | None => ret (- ENOENT, None)
  | Some drv => device_bind_with_driver_data drivers uclass_drivers ext (Some p) drv (Some dev_name) 0 node
  end.
Definition device_bind_driver (p : Z) (drv_name dev_name : list Z) : M (Z * option Z) := device_bind_driver_to_node p drv_name dev_name None.

(** ** Binding from a node of the device tree (lists.c) *)

(** [of_match] of each driver: compatible strings and their data. *)
Context (of_match : Z -> option (list (list Z * Z))).

Fixpoint driver_check_compatible (l : list (list Z * Z)) (compat : list Z) : option Z :=
  match l with [] => None | (c, data) :: l' => if strcmp c compat =? 0 then Some data else driver_check_compatible l' compat end.

(** The first of the [n] drivers from [i] on that matches, with its data; a
    driver asked for by the caller that lists no strings matches. *)
Fixpoint match_driver (n : nat) (i : Z) (drv : option Z) (compat : list Z) : option (Z * option Z) :=
  match n with
  | O => None
  | S n' =>
      if bool_decide (drv <> None) && negb (bool_decide (drv = Some i)) then match_driver n' (i + 1) drv compat
      else
        match of_match i with
        | None => if bool_decide (drv <> None) then Some (i, None) else match_driver n' (i + 1) drv compat
        | Some l => match driver_check_compatible l compat with
                    | Some data => Some (i, Some data)
                    | None => match_driver n' (i + 1) drv compat
                    end
        end
  end.

(** [compats] are the strings of the property, in order. *)
Fixpoint try_compats (compats : list (list Z)) (p : Z) (node : option Z) (name : list Z) (drv : option Z) (pre_reloc_only node_pre_reloc : bool)
  : M (Z * option Z) :=
  match compats with
  | [] => ret (0, None)
  | compat :: compats' =>
      match match_driver (length drivers) 0 drv compat with
      | None => try_compats compats' p node name drv pre_reloc_only node_pre_reloc
      | Some (entry, data) =>
          let! v := get_drv drivers entry in
          if pre_reloc_only && negb node_pre_reloc && negb (has_flag (drv_flags v) DM_FLAG_PRE_RELOC) then ret (0, None)
          else
            let! got := device_bind_with_driver_data drivers uclass_drivers ext (Some p) entry (Some name) (default 0 data) node in
            let (r, dev) := (got : Z * option Z) in
            if r =? - ENODEV then try_compats compats' p node name drv pre_reloc_only node_pre_reloc
            else if negb (r =? 0) then ret (r, None) else ret (0, dev)
      end
  end.

(** [inl]: the property cannot be read, with the error. *)
Definition FDT_ERR_NOTFOUND : Z := 1.
Definition lists_bind_fdt (p : Z) (node : option Z) (name : list Z) (compatible : Z + list (list Z)) (drv : option Z) (pre_reloc_only node_pre_reloc : bool)
  : M (Z * option Z) :=
  match compatible with
  | inl e => if e =? - FDT_ERR_NOTFOUND then ret (0, None) else ret (e, None)
  | inr compats => try_compats compats p node name drv pre_reloc_only node_pre_reloc
  end.
End Find.
