(* ===== verification/DmProps.v ===== *)
(** The driver model: what holds in every state that calls can reach, theorems
    about binding, probing, removing and unbinding, and about finding the
    devices of a uclass and getting them ready. *)

From stdpp Require Import gmap.
From S2P Require Import Prelude Bytes Cstring Dm DmWf DmLife DmBind DmTree DmUnbind DmFind.

(** * Fields that the invariant does not read *)

Record same_shape (x x' : udevice) : Prop := {
  ss_driver : driver x' = driver x; ss_parent : parent x' = parent x; ss_children : child_head x' = child_head x;
  ss_uclass : dev_uclass x' = dev_uclass x; ss_flags : flags_ x' = flags_ x; ss_own : forall k, own x' k = own x k
}.

Section Reach.
Context {W : Type} (drivers : list (driver_rec W)) (uclass_drivers : list (uclass_driver W)) (ext : dm_ext W).
Context `{Q : !Quiet drivers uclass_drivers ext} `{R : !Polite drivers uclass_drivers ext}.

#[local] Abbreviation links := (links drivers uclass_drivers).
#[local] Abbreviation wf := (wf drivers uclass_drivers).

Lemma wf_reshape s m r : wf s ->
  (forall e x', m !! e = Some x' -> exists x, dm_devs s !! e = Some x /\ same_shape x x') ->
  (forall e x, dm_devs s !! e = Some x -> exists x', m !! e = Some x' /\ same_shape x x') -> wf (set_root (set_devs s m) r).
Proof using.
  intros [[L1 L2 L3 L4 L5 L6 L7 L8 L9 L10] [B1 B2 B3] A] Hb Hf. set (s' := set_root _ _).
  assert (forall o p, owns s' o = Some p -> owns s o = Some p) as Ho.
  { intros [e k|id k] p H; cbn [owns] in *; [|done]. destruct (dm_devs s' !! e) as [x'|] eqn:E; [|done]. destruct (Hb e x' E) as (x & Ex & S).
    rewrite Ex. by rewrite <- (ss_own _ _ S). }
  split; [split|split|].
  - intros e x' E. destruct (Hb e x' E) as (x & Ex & S). by apply (L1 e x).
  - intros e x' E. destruct (Hb e x' E) as (x & Ex & S). rewrite (ss_driver _ _ S). by apply (L2 e x).
  - intros e x' p E Hp. destruct (Hb e x' E) as (x & Ex & S). rewrite (ss_parent _ _ S) in Hp. destruct (L3 e x p Ex Hp) as (Lt & pu & Ep & Hin).
    split; [done|]. destruct (Hf p pu Ep) as (pu' & Ep' & Sp). exists pu'. by rewrite (ss_children _ _ Sp).
  - intros p pu' c E Hin. destruct (Hb p pu' E) as (pu & Ep & S). rewrite (ss_children _ _ S) in Hin. destruct (L4 p pu c Ep Hin) as (cu & Ec & Hp).
    destruct (Hf c cu Ec) as (cu' & Ec' & Sc). exists cu'. by rewrite (ss_parent _ _ Sc).
  - intros e x' E. destruct (Hb e x' E) as (x & Ex & S). rewrite (ss_children _ _ S). by apply (L5 e x).
  - intros e x' E. destruct (Hb e x' E) as (x & Ex & S). rewrite (ss_uclass _ _ S). by apply (L6 e x).
  - intros uc e Hin He. destruct (L7 uc e Hin He) as (x & Ex & Eu). destruct (Hf e x Ex) as (x' & Ex' & S). exists x'. by rewrite (ss_uclass _ _ S).
  - exact L8.
  - exact L9.
  - exact L10.
  - intros o p H. by apply (B1 o), Ho.
  - intros o o' p H H'. apply (B2 o o' p); by apply Ho.
  - exact B3.
  - intros e x' E Ha. destruct (Hb e x' E) as (x & Ex & S). unfold is_active, is_valid in *. rewrite (ss_flags _ _ S) in *.
    destruct (A e x Ex Ha) as [Hv Hp]. split; [done|]. intros p pu' Hpar Ep. rewrite (ss_parent _ _ S) in Hpar. destruct (Hb p pu' Ep) as (pu & Ep0 & Sp).
    rewrite (ss_flags _ _ Sp). by apply (Hp p pu).
Qed.

Lemma shape_refl x : same_shape x x.
Proof using. by split. Qed.
Lemma shape_node x n : same_shape x (with_node x n).
Proof using. by split. Qed.

(** * Sound states *)

Record sound (s : dm W) : Prop := { so_wf : wf s; so_started : started s; so_bound : all_bound s; so_next : 0 <= dm_next s }.

(** Enough for every recursion: a device is deeper than its parent, and there
    are no more than [dm_next]. *)
Definition dm_fuel (s : dm W) : nat := Z.to_nat (3 * dm_next s + 3).

Lemma below_next s : links s -> below (dm_next s) s.
Proof using. intros L d u E. by apply (lk_next _ _ _ L d u). Qed.

Lemma bound_same u u' : same_dev u u' -> has_flag (flags_ u') DM_FLAG_BOUND = has_flag (flags_ u) DM_FLAG_BOUND.
Proof using. intros S. by apply same_flag. Qed.

Lemma sound_evolves T s s' : sound s -> evolves T s s' -> wf s' -> sound s'.
Proof using.
  intros [Wf St Ab Hn] V Wf'. split; [done| | |pose proof (ev_next _ _ _ V); lia].
  - intros Hr. rewrite (ev_root _ _ _ V) in Hr. rewrite (ev_ucs _ _ _ V). by apply St.
  - intros e x' E. destruct (evolves_back _ _ _ _ _ V E) as (x & Ex & S & _). rewrite (bound_same x x' S). by apply (Ab e x).
Qed.

Lemma sound_sheds T s s' : sound s -> sheds T s s' -> wf s' -> sound s'.
Proof using.
  intros [Wf St Ab Hn] V Wf'. split; [done| | |by rewrite (sh_next _ _ _ V)].
  - intros Hr. rewrite (sh_root _ _ _ V) in Hr. by rewrite (sh_ucs _ _ _ V), (St Hr).
  - intros e x' E. destruct (sh_back _ _ _ V e x' E) as (x & Ex & ->). by apply (Ab e x).
Qed.

Lemma sound_bind s par drv name plat data node r x s' : sound s -> is_Some (dm_root s) -> bind_post drivers uclass_drivers ext s par drv name plat data node r x s' ->
  sound s' /\ dm_root s' = dm_root s.
Proof using.
  intros [Wf St Ab Hn] [rt Hr] H. destruct H as [r s1 n w v Ev Nr Us Wf' Hm|s1 d u n w v nm ucd uc En Ev Us Hd Hdn Eu El K Hb Tk Wf'].
  - destruct (uc_step_devs _ _ _ Us) as (Ed & _ & Er & Hs1). split; [|cbn; congruence]. split; [done| | |cbn; lia].
    + intros Hx. cbn in Hx. congruence.
    + intros e x E. cbn in E. rewrite Ed in E. by apply (Ab e x).
  - destruct (uc_step_devs _ _ _ Us) as (Ed & _ & Er & Hs1). split; [|cbn; congruence]. split; [done| | |cbn; lia].
    + intros Hx. cbn in Hx. congruence.
    + intros e x E. cbn in E. destruct (decide (e = d)) as [->|N]; [rewrite lookup_insert_eq in E; by injection E as <-|].
      rewrite lookup_insert_ne, Ed in E by done. unfold link_parent in E. destruct par as [p|]; [|by apply (Ab e x)].
      destruct (decide (p = e)) as [->|Np]; [|rewrite lookup_alter_ne in E by done; by apply (Ab e x)].
      rewrite lookup_alter_eq in E. apply fmap_Some in E as (y & Ey & ->). by apply (Ab e y).
Qed.

(** * Calls *)

Inductive dm_req :=
  | RBind (par : option Z) (drv : Z) (name : option (list Z)) (plat : option Z) (data : Z) (node : option Z)
  | RPlat (d : Z) | RProbe (d : Z) | RRemove (d flags : Z) | RUnbind (d : Z).

Definition serve (q : dm_req) : @M W Z :=
  fun s =>
    let fuel := dm_fuel s in
    match q with
    | RBind par drv name plat data node =>
        (let! got := device_bind_common drivers uclass_drivers ext par drv name plat data node in ret (fst (got : Z * option Z))) s
    | RPlat d => device_of_to_plat drivers uclass_drivers ext fuel d s
    | RProbe d => device_probe drivers uclass_drivers ext fuel d s
    | RRemove d flags => device_remove drivers uclass_drivers ext fuel d flags s
    | RUnbind d => device_unbind drivers uclass_drivers ext fuel d s
    end.

(** The pointers are to devices and drivers; removal does not select by the
    flags of DMA and of the operating system. *)
Definition ok_req (s : dm W) (q : dm_req) : Prop :=
  match q with
  | RBind par drv _ _ _ _ => 0 <= drv /\ is_Some (drivers !! Z.to_nat drv) /\ forall p, par = Some p -> is_Some (dm_devs s !! p)
  | RPlat d | RProbe d | RUnbind d => is_Some (dm_devs s !! d)
  | RRemove d flags => is_Some (dm_devs s !! d) /\ gentle flags
  end.

Lemma serve_sound s q : sound s -> is_Some (dm_root s) -> ok_req s q -> wp (serve q) s (fun _ s' => sound s' /\ dm_root s' = dm_root s).
Proof using Q R.
  intros So Hr Hq. pose proof So as [Wf St Ab Hn]. pose proof (wf_links _ _ _ Wf) as L. pose proof (below_next s L) as Hb.
  unfold serve, wp. destruct q as [par drv name plat data node|d|d|d flags|d]; cbn [ok_req] in Hq.
  - destruct Hq as (H0 & [v Ev] & Hp). apply wp_bind, (wp_bind_common drivers uclass_drivers ext s par drv name plat data node v); try done.
    intros r x s' Hpost. apply wp_ret. by eapply sound_bind.
  - destruct Hq as [u E]. pose proof (lk_next _ _ _ L d u E). apply (wp_of_to_plat drivers uclass_drivers ext (dm_fuel s) s d u); [split; apply Wf|apply Wf|done|unfold dm_fuel; lia|].
    intros r s' [[Li Bu] A V _ _]. split; [eapply sound_evolves; [done|exact V|by split]|by rewrite (ev_root _ _ _ V)].
  - destruct Hq as [u E]. pose proof (lk_next _ _ _ L d u E). apply (wp_device_probe drivers uclass_drivers ext (dm_fuel s) s d u (dm_next s)); [done..|unfold dm_fuel; lia|].
    intros r s' [W' V _]. split; [by eapply sound_evolves|by rewrite (ev_root _ _ _ V)].
  - destruct Hq as [[u E] Hg]. pose proof (lk_next _ _ _ L d u E). destruct (remove_all_ok drivers uclass_drivers ext flags Hg (dm_fuel s)) as [Ok _].
    apply (Ok s d u (dm_next s)); [done..|unfold dm_fuel; lia|]. intros r s' [W' V _ _] _. split; [by eapply sound_evolves|by rewrite (ev_root _ _ _ V)].
  - destruct Hq as [u E]. pose proof (lk_next _ _ _ L d u E). destruct (unbind_all_ok drivers uclass_drivers ext (dm_fuel s)) as [Ok _].
    apply (Ok s d u (dm_next s)); [done..|unfold dm_fuel; lia|]. intros r s' W' V _ _. split; [by eapply sound_sheds|by rewrite (sh_root _ _ _ V)].
Qed.

(** * From the start *)

(** Memory before the driver model starts. *)
Record blank (s : dm W) : Prop := { bl_devs : dm_devs s = ∅; bl_root : dm_root s = None; bl_heap : forall p, p ∈ dm_heap s -> p < dm_next s; bl_next : 0 <= dm_next s }.

Lemma blank_wf (s : dm W) up : blank s -> wf (Dm (dm_devs s) [] up (dm_root s) (dm_heap s) (dm_next s) (dm_world s)).
Proof using.
  intros [D Rt H N]. rewrite D. split; [split|split|]; cbn [dm_devs dm_ucs dm_heap dm_next].
  - intros d u E. by rewrite lookup_empty in E.
  - intros d u E. by rewrite lookup_empty in E.
  - intros d u p E. by rewrite lookup_empty in E.
  - intros p pu c E. by rewrite lookup_empty in E.
  - intros d u E. by rewrite lookup_empty in E.
  - intros d u E. by rewrite lookup_empty in E.
  - intros uc e Hin. by apply elem_of_nil in Hin.
  - intros uc Hin. by apply elem_of_nil in Hin.
  - constructor.
  - intros uc Hin. by apply elem_of_nil in Hin.
  - intros [e k|id k] p Ho; cbn in Ho; by rewrite ?lookup_empty in Ho.
  - intros [e k|id k] o' p Ho; cbn in Ho; by rewrite ?lookup_empty in Ho.
  - exact H.
  - intros e x E. cbn in E. by rewrite lookup_empty in E.
Qed.

Lemma lookup_index i l name : forall k, driver_index i l name = Some k -> exists v, i <= k /\ l !! Z.to_nat (k - i) = Some (v : driver_rec W).
Proof using.
  revert i. induction l as [|e l IH]; intros i k; cbn; [done|]. destruct (_ =? 0).
  - intros [= <-]. exists e. split; [lia|]. by replace (i - i) with 0 by lia.
  - intros H. destruct (IH (i + 1) k H) as (v & Le & E). exists v. split; [lia|]. replace (Z.to_nat (k - i)) with (S (Z.to_nat (k - (i + 1)))) by lia. done.
Qed.

Lemma lookup_driver name k : lists_driver_lookup_name drivers name = Some k -> 0 <= k /\ is_Some (drivers !! Z.to_nat k).
Proof using. intros H. destruct (lookup_index _ _ _ _ H) as (v & Le & E). rewrite Z.sub_0_r in E. split; [done|by exists v]. Qed.

(** The driver model starts, or it says so. *)
Lemma dm_init_sound fuel of_control node s : blank s -> (Z.to_nat (3 * dm_next s + 12) <= fuel)%nat ->
  wp (dm_init drivers uclass_drivers ext fuel of_control node) s (fun r s' => r = 0 -> sound s' /\ is_Some (dm_root s')).
Proof using Q R.
  intros Bl Hf. pose proof Bl as [D Rt H N]. unfold wp, dm_init. rewrite Rt. set (s0 := Dm _ _ _ _ _ _ _).
  assert (wf s0) as Wf0 by (subst s0; rewrite <- Rt at 1; by apply blank_wf).
  change (wp (let! got := device_bind_by_name drivers uclass_drivers ext None false root_driver None in
         let (r, d) := (got : Z * option Z) in
         if negb (r =? 0) then ret r
         else
           (fun s => Ok (tt, set_root s (Some (default 0 d)))) ;;
           (if of_control then dev_set_ofnode (default 0 d) node else ret tt) ;;
           device_probe drivers uclass_drivers ext fuel (default 0 d)) s0 (fun r s' => r = 0 -> sound s' /\ is_Some (dm_root s'))).
  apply wp_bind. unfold device_bind_by_name. destruct (lists_driver_lookup_name drivers root_driver) as [k|] eqn:Ek; [|by apply wp_ret, wp_ret].
  destruct (lookup_driver _ _ Ek) as (H0 & v & Ev). apply wp_bind. exists v, s0. split; [unfold get_drv; rewrite Ev; by destruct (Z.leb_spec 0 k); [|lia]|].
  cbn [andb]. apply (wp_bind_common drivers uclass_drivers ext s0 None k (Some root_driver) None 0 None v); [done|done|done|done|done|done|].
  intros r x s' Hp. destruct Hp as [r s1 n w v' Ev' Nr Us Wf' Hm|s1 d u n w v' nm ucd uc En Ev' Us Hd Hdn Eu El K Hb Tk Wf'].
  { destruct (Z.eqb_spec r 0); [done|]. cbn [negb]. by apply wp_ret. }
  cbn [negb Z.eqb default]. destruct (uc_step_devs _ _ _ Us) as (Ed & _ & _ & Hs1). cbn [dm_devs dm_next s0] in Ed, Hs1. rewrite D in Ed.
  set (s2 := ov _ _ _ _ _ _ _) in *. assert (dm_devs s2 = {[d := u]}) as E2 by (cbn; by rewrite Ed).
  apply wp_bind. exists tt. eexists. split; [reflexivity|].
  assert (forall u', same_shape u u' -> wp (device_probe drivers uclass_drivers ext fuel d) (set_root (set_devs s2 {[d := u']}) (Some d))
    (fun r s' => r = 0 -> sound s' /\ is_Some (dm_root s'))) as Go.
  { intros u' S. set (s3 := set_root _ _). assert (wf s3) as Wf3.
    { apply wf_reshape; [done| |]; rewrite E2; intros e y [<- <-]%lookup_singleton_Some; eexists; (split; [apply lookup_singleton_eq|done]). }
    assert (sound s3) as So3.
    { split; [done|done| |cbn; lia]. intros e y Ey. cbn in Ey. apply lookup_singleton_Some in Ey as [<- <-]. by rewrite (ss_flags _ _ S). }
    apply (wp_device_probe drivers uclass_drivers ext fuel s3 d u' (d + 1)); [done| |cbn; apply lookup_singleton_eq|cbn in *; lia|].
    - intros e y Ey. cbn in Ey. apply lookup_singleton_Some in Ey as [<- _]. lia.
    - intros r s4 [W4 V4 _] _. split; [by eapply sound_evolves|]. rewrite (ev_root _ _ _ V4). by exists d. }
  assert (set_devs s2 {[d := u]} = s2) as Es by (rewrite <- E2; by destruct s2).
  destruct of_control.
  - apply wp_bind, (wp_upd_dev d u); [cbn; rewrite Ed; cbn; by rewrite lookup_insert_eq|].
    replace (set_devs (set_root s2 (Some d)) _) with (set_root (set_devs s2 {[d := with_node u node]}) (Some d)); [apply Go, shape_node|].
    unfold set_devs, set_root. cbn [dm_devs dm_ucs dm_up dm_root dm_heap dm_next dm_world]. rewrite E2. f_equal. by rewrite insert_singleton_eq.
  - apply wp_bind, wp_ret. rewrite <- Es. apply Go, shape_refl.
Qed.

(** The states the driver model can be in. *)
Inductive reach : dm W -> Prop :=
  | reach_init fuel of_control node s0 s : blank s0 -> (Z.to_nat (3 * dm_next s0 + 12) <= fuel)%nat ->
      dm_init drivers uclass_drivers ext fuel of_control node s0 = Ok (0, s) -> reach s
  | reach_call s q r s' : reach s -> ok_req s q -> serve q s = Ok (r, s') -> reach s'.

Lemma wp_run {A} (m : @M W A) s a s' P : wp m s P -> m s = Ok (a, s') -> P a s'.
Proof using. intros (b & t & E & H) E'. rewrite E in E'. by injection E' as <- <-. Qed.

Lemma reach_sound s : reach s -> sound s /\ is_Some (dm_root s).
Proof using Q R.
  induction 1 as [fuel oc node s0 s Bl Hf E|s q r s' _ [IH Hr] Hq E].
  - by apply (wp_run _ _ _ _ _ (dm_init_sound fuel oc node s0 Bl Hf) E).
  - destruct (wp_run _ _ _ _ _ (serve_sound s q IH Hr Hq) E) as [So Er]. split; [done|]. by rewrite Er.
Qed.
End Reach.

Section Lemmas.
Context {W : Type} (drivers : list (driver_rec W)) (uclass_drivers : list (uclass_driver W)).
#[local] Abbreviation wf := (wf drivers uclass_drivers).

Lemma anc_fwd T (s s' : dm W) d e : evolves T s s' -> anc s d e -> anc s' d e.
Proof using.
  intros V. apply rtc_congruence with (f := id). intros a b (x & E & Hp). destruct (ev_dev _ _ _ V a x E) as (x' & E' & S & _). exists x'. by rewrite (sd_parent _ _ S).
Qed.

(** Above an active device all are active. *)
Lemma all_above T s s' d : wf s' -> evolves T s s' -> act_in s' d -> forall e, anc s d e -> act_in s' e.
Proof using. intros Wf V Ha e H. eapply anc_act; [apply Wf|apply Wf|by eapply anc_fwd|done]. Qed.

(** Below an inactive device none is active. *)
Lemma none_below T s s' d : wf s' -> evolves T s s' -> ~ act_in s' d -> forall e, sub s d e -> ~ act_in s' e.
Proof using. intros Wf V Hn e H Ha. apply Hn. by eapply all_above. Qed.

Lemma stays T (s s' : dm W) e x : evolves T s s' -> ~ T e -> dm_devs s !! e = Some x -> dm_devs s' !! e = Some x.
Proof using. intros V N E. destruct (ev_dev _ _ _ V e x E) as (x' & E' & _ & K). rewrite E'. f_equal. auto. Qed.

(** What is the same again when all that joined has left. *)
Lemma filter_here_all (s : dm W) l : (forall e, e ∈ l -> is_Some (dm_devs s !! e)) -> List.filter (here s) l = l.
Proof using. intros H. apply filter_keep_all. intros e He. apply bool_decide_eq_true_2, H, He. Qed.

(** What joined leaves again. *)
Lemma join_shed (s s'' : dm W) d par u id n w T : links drivers uclass_drivers s -> (forall e x, dm_devs s !! e = Some x -> e < d) -> taking (dm_heap s) u n ->
  sheds T (ov s (link_parent par d (dm_devs s)) (link_uclass id d (dm_ucs s)) d u n w) s'' -> (forall e, T e -> e = d) -> dm_devs s'' !! d = None ->
  dm_devs s'' = dm_devs s /\ dm_ucs s'' = dm_ucs s /\ dm_heap s'' = dm_heap s.
Proof using.
  intros L Hd Tk V HT Nd. set (s' := ov _ _ _ _ _ _ _) in *.
  assert (forall e x, dm_devs s !! e = Some x -> exists l, dm_devs s' !! e = Some (with_children x l) /\ (l = child_head x \/ l = child_head x ++ [d])) as F.
  { intros e x E. pose proof (Hd e x E). cbn. rewrite lookup_insert_ne by lia. unfold link_parent. destruct par as [p|].
    - destruct (decide (p = e)) as [->|N]; [rewrite lookup_alter_eq, E; by eexists; split; [|right]|].
      rewrite lookup_alter_ne by done. exists (child_head x). rewrite children_same. auto.
    - exists (child_head x). rewrite children_same. auto. }
  assert (forall e x, dm_devs s !! e = Some x -> is_Some (dm_devs s'' !! e)) as St.
  { intros e x E. destruct (F e x E) as (l & E' & _). apply (sh_stay _ _ _ V e _ E'). intros K%HT. pose proof (Hd e x E). lia. }
  assert (forall l, (forall e, e ∈ l -> is_Some (dm_devs s !! e)) -> List.filter (here s'') l = l /\ List.filter (here s'') (l ++ [d]) = l) as Fi.
  { intros l Hl. assert (List.filter (here s'') l = l) as E by (apply filter_here_all; intros e He; destruct (Hl e He); by eapply St).
    split; [done|]. rewrite List.filter_app, E. cbn. unfold here. rewrite Nd, bool_decide_eq_false_2 by (by intros [? ?]). apply app_nil_r. }
  split; [|split].
  - apply map_eq. intros e. destruct (dm_devs s !! e) as [x|] eqn:E.
    + destruct (St e x E) as [x2 E2]. destruct (sh_back _ _ _ V e x2 E2) as (x1 & E1 & ->). destruct (F e x E) as (l & E1' & Hl). rewrite E1 in E1'. injection E1' as ->.
      rewrite E2. f_equal. destruct (Fi (child_head x)) as [F1 F2]; [intros c Hc; destruct (lk_child _ _ _ L e x c E Hc) as (cu & Ec & _); by exists cu|].
      cbn [with_children child_head]. destruct Hl as [->| ->]; rewrite ?F1, ?F2; by destruct x.
    + destruct (dm_devs s'' !! e) as [x2|] eqn:E2; [|done]. exfalso. destruct (sh_back _ _ _ V e x2 E2) as (x1 & E1 & _). cbn in E1.
      destruct (decide (e = d)) as [->|N]; [congruence|]. rewrite lookup_insert_ne in E1 by done. unfold link_parent in E1. destruct par as [p|]; [|congruence].
      destruct (decide (p = e)) as [->|Np]; [by rewrite lookup_alter_eq, E in E1|rewrite lookup_alter_ne in E1 by done; congruence].
  - rewrite (sh_ucs _ _ _ V). cbn [s' ov dm_ucs]. unfold link_uclass. rewrite map_map. rewrite <- (map_id (dm_ucs s)) at 2. apply map_ext_in. intros uc Hin.
    apply list_elem_of_In in Hin. destruct (Fi (dev_head uc)) as [F1 F2]; [intros c Hc; destruct (lk_member _ _ _ L uc c Hin Hc) as (cu & Ec & _); by exists cu|].
    unfold with_members. destruct (uc_drv uc =? id); cbn; rewrite ?F1, ?F2; by destruct uc.
  - apply leibniz_equiv. intros p. rewrite (sh_heap _ _ _ V). cbn [s' ov dm_heap]. split.
    + intros [Hp Ng]. destruct (decide (p ∈ dm_heap s)) as [|N]; [done|]. exfalso. apply Ng.
      assert (exists k, (k < 3)%nat /\ own u k = Some p) as (k & Hk & Ho).
      { unfold plats in Hp. rewrite !push_elem in Hp. destruct Hp as [K|[K|[K|K]]]; [exists 1%nat|exists 2%nat|exists 0%nat|done]; (split; [lia|done]). }
      exists d, u, k. split; [apply lookup_insert_eq|done].
    + intros Hp. split; [unfold plats; rewrite !push_elem; auto|]. intros (e & x & k & Ex & En & Hk & Ho). destruct (decide (e = d)) as [->|N].
      * cbn in Ex. rewrite lookup_insert_eq in Ex. injection Ex as <-. by destruct (plats_own _ _ _ _ _ Tk Hk Ho).
      * apply N. apply HT. destruct (sh_stay _ _ _ V e x Ex) as [y Ey]; [|congruence]. intros K%HT. done.
Qed.

Lemma sub_leaf (s : dm W) d u e : links drivers uclass_drivers s -> dm_devs s !! d = Some u -> child_head u = [] -> sub s d e -> e = d.
Proof using.
  intros L E Hc H. apply rtc_inv_r in H as [->|(c & _ & (cu & Ec & Hp))]; [done|]. destruct (lk_parent _ _ _ L c cu d Ec Hp) as (_ & pu & Ep & Hin).
  rewrite E in Ep. injection Ep as <-. rewrite Hc in Hin. by apply elem_of_nil in Hin.
Qed.
End Lemmas.

Section Claims.
Context {W : Type} (drivers : list (driver_rec W)) (uclass_drivers : list (uclass_driver W)) (ext : dm_ext W).
Context `{Q : !Quiet drivers uclass_drivers ext} `{R : !Polite drivers uclass_drivers ext}.
#[local] Abbreviation wf := (wf drivers uclass_drivers).
#[local] Abbreviation dm_probe := (device_probe drivers uclass_drivers ext).




(** A bind that succeeds adds exactly one device.  It has the driver, name,
    data, node and parent asked for, is bound and not active, has no children,
    and is last in its parent's list; nothing else in the tree changes.  The
    invariant holds.  A number that is given automatically is above that of
    every device of the uclass (below the limit of an int). *)
Theorem device_bind_adds s par drv nm plat data node v : wf s -> started s -> 0 <= dm_next s -> 0 <= drv -> drivers !! Z.to_nat drv = Some v ->
  (forall p, par = Some p -> is_Some (dm_devs s !! p)) ->
  exists r x s', device_bind_common drivers uclass_drivers ext par drv (Some nm) plat data node s = Ok (r, x, s') /\
    (r = 0 -> exists d u, x = Some d /\ dm_devs s !! d = None /\ dm_devs s' = <[d := u]> (link_parent par d (dm_devs s)) /\ wf s' /\
      driver u = drv /\ dev_name u = nm /\ driver_data u = data /\ node_ u = node /\ parent u = par /\ dev_uclass u = drv_id v /\ child_head u = [] /\
      has_flag (flags_ u) DM_FLAG_BOUND = true /\ ~ is_active u /\
      (node = None -> forall ucd, lists_uclass_lookup uclass_drivers (drv_id v) = Some ucd -> has_flag (uc_flags ucd) DM_UC_FLAG_NO_AUTO_SEQ = false ->
        -1 <= seq_base ext ucd < 2147483647 ->
        (forall e x, dm_devs s !! e = Some x -> seq_ x < 2147483647) -> forall e x, dm_devs s !! e = Some x -> dev_uclass x = drv_id v -> seq_ x < seq_ u)).
Proof using Q.
  intros Wf St Hn H0 Ev Hp.
  destruct (wp_bind_common drivers uclass_drivers ext s par drv (Some nm) plat data node v
    (fun rx s' => bind_post drivers uclass_drivers ext s par drv (Some nm) plat data node (fst rx) (snd rx) s')) as ([r x] & s' & E & Post); [done..|].
  cbn [fst snd] in Post. exists r, x, s'. split; [done|]. destruct Post as [r s1 n w v' Ev' Nr Us Wf' Hm|s1 d u n w v' nm' ucd uc En Ev' Us Hd Hdn Eu El K Hb Tk Wf']; [done|].
  intros _. injection En as <-. rewrite Ev in Ev'. injection Ev' as <-. destruct (uc_step_devs _ _ _ Us) as (Ed & _ & Er & Hs). exists d, u.
  assert (dm_devs s !! d = None) as Nd.
  { destruct (dm_devs s !! d) as [y|] eqn:Ey; [|done]. pose proof (lk_next _ _ _ (wf_links _ _ _ Wf) d y Ey). lia. }
  pose proof (kin_inactive _ _ K eq_refl) as Na'. destruct K as (a & b & c & f & -> & Ef). split; [done|]. split; [done|].
  split; [cbn; by rewrite Ed|]. split; [done|]. do 7 (split; [done|]). split; [done|]. split; [exact Na'|].
  intros -> ucd' El' Na Hb0 Hmax e y Ey Eyu. rewrite El in El'. injection El' as <-.
  change (seq_ y < seq_of ext s1 ucd uc (new_dev par drv nm plat data None (drv_id v) (-1))). unfold seq_of.
  change (node_ (new_dev par drv nm plat data None (drv_id v) (-1))) with (@None Z). rewrite (bool_decide_eq_false_2 (None <> None)) by (intros K; by apply K).
  rewrite andb_false_r, Na. destruct (top_seq_le (dm_devs s1) (dev_head uc) (seq_base ext ucd)) as [Hlo Hall].
  assert (wf s1) as Wf1 by (destruct Us as [->|m priv n' w' -> Hm Hm2 Hpr En]; [done|apply new_uc_wf; try done; by exists ucd]).
  assert (e ∈ dev_head uc) as Hin.
  { rewrite <- Ed in Ey. destruct (lk_uclass _ _ _ (wf_links _ _ _ Wf1) e y Ey) as (uc' & Eu' & Hin). rewrite Eyu in Eu'. rewrite Eu in Eu'. by injection Eu' as <-. }
  assert (top_seq (dm_devs s1) (dev_head uc) (seq_base ext ucd) < 2147483647) as Hhi.
  { clear Hall Hlo Hin. rewrite Ed. revert Hb0. generalize (seq_base ext ucd). induction (dev_head uc) as [|e' l IH]; intros b0 Hb0; cbn; [lia|].
    apply IH. destruct (dm_devs s !! e') as [z|] eqn:Ez; [|lia]. pose proof (Hmax e' z Ez). lia. }
  specialize (Hall e y Hin ltac:(by rewrite Ed)). unfold s32. rewrite Z.mod_small by lia. lia.
Qed.

(** C32: Unbinding a device always returns, and keeps the invariant.  When it
    returns 0 the device and everything below it are gone.  Whatever happens,
    devices that are not below it stay, the lists lose exactly the devices that
    are gone, and exactly the memory that binding took for those is given
    back.  When nothing refuses, an inactive device is unbound. *)
Theorem device_unbind_removes s d u : wf s -> dm_devs s !! d = Some u ->
  exists r s', device_unbind drivers uclass_drivers ext (dm_fuel s) d s = Ok (r, s') /\ wf s' /\
    (r = 0 -> forall e, sub s d e -> dm_devs s' !! e = None) /\
    (forall e x, dm_devs s !! e = Some x -> ~ sub s d e -> dm_devs s' !! e = Some (with_children x (List.filter (here s') (child_head x)))) /\
    (forall p, p ∈ dm_heap s' <-> p ∈ dm_heap s /\ ~ gone_plat s s' p) /\
    (agreeable drivers uclass_drivers -> all_bound s -> ~ is_active u -> r = 0).
Proof using Q.
  intros Wf E. pose proof (wf_links _ _ _ Wf) as L. pose proof (lk_next _ _ _ L d u E).
  destruct (proj1 (unbind_all_ok drivers uclass_drivers ext (dm_fuel s)) s d u (dm_next s)
    (fun r s' => wf s' /\ sheds (sub s d) s s' /\ (r = 0 -> dm_devs s' !! d = None) /\ (agreeable drivers uclass_drivers -> all_bound s -> ~ is_active u -> r = 0)))
    as (r & s' & Er & Wf' & V & Hd & Hg); [done|by eapply below_next|done|unfold dm_fuel; lia|auto|].
  exists r, s'. split; [done|]. split; [done|]. split; [|split; [|split; [apply V|done]]].
  - intros Hr e He. by eapply shed_all; [..|apply Hd].
  - intros e x Ex Ns. destruct (sh_stay _ _ _ V e x Ex Ns) as [x' Ex']. rewrite Ex'. f_equal. destruct (sh_back _ _ _ V e x' Ex') as (y & Ey & ->). congruence.
Qed.



(** Private memory that [device_of_to_plat] took for a device that was never
    probed is still allocated after a successful unbind, and nobody has it. *)
Theorem unbind_leaks_priv s d u k p : wf s -> dm_devs s !! d = Some u -> (3 <= k)%nat -> own u k = Some p ->
  exists r s', device_unbind drivers uclass_drivers ext (dm_fuel s) d s = Ok (r, s') /\ (r = 0 -> p ∈ dm_heap s' /\ forall o, owns s' o <> Some p).
Proof using Q.
  intros Wf E Hk Ho. pose proof (wf_links _ _ _ Wf) as L. pose proof (wf_bufs _ _ _ Wf) as [B1 B2 _]. pose proof (lk_next _ _ _ L d u E).
  assert (owns s (ODev d k) = Some p) as Hp by (cbn; by rewrite E).
  destruct (proj1 (unbind_all_ok drivers uclass_drivers ext (dm_fuel s)) s d u (dm_next s)
    (fun r s' => sheds (sub s d) s s' /\ (r = 0 -> dm_devs s' !! d = None))) as (r & s' & Er & V & Hd);
    [done|by eapply below_next|done|unfold dm_fuel; lia|auto|].
  exists r, s'. split; [done|]. intros Hr. split.
  - apply (sh_heap _ _ _ V). split; [by apply (B1 (ODev d k))|]. intros (e & x & j & Ex & _ & Hj & Hx).
    assert (ODev e j = ODev d k) as [= -> ->]; [|lia]. apply (B2 _ _ p); [cbn; by rewrite Ex|done].
  - intros o Hn. assert (owns s o = Some p) as Hs.
    { destruct o as [e j|id j]; cbn [owns] in Hn |- *.
      - destruct (dm_devs s' !! e) as [x|] eqn:Ex; [|done]. destruct (sh_back _ _ _ V e x Ex) as (y & Ey & ->). rewrite Ey. by rewrite own_children in Hn.
      - unfold uc_find in *. rewrite (sh_ucs _ _ _ V), find_members in Hn. by destruct (find _ (dm_ucs s)). }
    assert (o = ODev d k) as -> by (by eapply B2). cbn in Hn. by rewrite (Hd Hr) in Hn.
Qed.
End Claims.

(** * A small system *)

(** The root, a bus that takes memory for its children, and a device on it;
    every method counts its calls. *)
Module Demo.
Definition tick : @hook Z := fun _ s => Ok (0, set_world s (dm_world s + 1)).
Definition t : option (@hook Z) := Some tick.
Definition drv (name : list Z) (id plat priv child childp : Z) : driver_rec Z := Driver Z name id 0 plat priv child childp t t t t t t t t.
Definition drivers : list (driver_rec Z) := [drv root_driver 0 0 0 0 0; drv [98] 1 8 8 4 4; drv [108] 2 8 16 0 0].
Definition ucd (id priv dev devp : Z) : uclass_driver Z := UclassDriver Z [117] id 0 priv dev devp 4 4 t t t t t t t t t t.
Definition uclasses : list (uclass_driver Z) := [ucd 0 0 0 0; ucd 1 8 0 4; ucd 2 0 4 4].
Definition ext : dm_ext Z :=
  Ext Z (fun _ => true) (fun _ => tick) true tick tick None tick true tick true (fun _ s => Ok ((0, 0), s)) tick tick tick
    false (fun _ => None) (fun _ => -1) 90 91 92.

Lemma quiet_tick : quiet tick.
Proof. intros d s. by exists 0, (dm_world s + 1). Qed.
Lemma oquiet_t : oquiet t.
Proof. intros f [= <-]. apply quiet_tick. Qed.
Lemma polite_t : polite t.
Proof. intros f d s r s' [= <-] [= <- _]. done. Qed.
Lemma agrees_t : agrees t.
Proof. intros f d s r s' [= <-] [= <- _]. done. Qed.

Lemma driver_t i v : drivers !! i = Some v -> drv_bind v = t /\ drv_probe v = t /\ drv_remove v = t /\ drv_unbind v = t /\ drv_of_to_plat v = t /\
  drv_child_post_bind v = t /\ drv_child_pre_probe v = t /\ drv_child_post_remove v = t.
Proof. revert i v. apply Forall_lookup. repeat constructor. Qed.
Lemma uclass_t id v : lists_uclass_lookup uclasses id = Some v -> uc_post_bind v = t /\ uc_pre_unbind v = t /\ uc_pre_probe v = t /\ uc_post_probe v = t /\
  uc_pre_remove v = t /\ uc_child_post_bind v = t /\ uc_child_pre_probe v = t /\ uc_child_post_probe v = t /\ uc_init v = t /\ uc_destroy v = t.
Proof.
  intros [H _]%find_some. destruct H as [<-|[<-|[<-|[]]]]; repeat (split; [done|]); done.
Qed.

#[global] Instance demo_quiet : Quiet drivers uclasses ext.
Proof.
  split.
  - intros i v H. destruct (driver_t i v H) as (E1 & E2 & E3 & E4 & E5 & E6 & E7 & E8). unfold quiet_driver.
    rewrite E1, E2, E3, E4, E5, E6, E7, E8. repeat (split; [apply oquiet_t|]). apply oquiet_t.
  - intros id v H. destruct (uclass_t id v H) as (E1 & E2 & E3 & E4 & E5 & E6 & E7 & E8 & E9 & E10). unfold quiet_uclass.
    rewrite E1, E2, E3, E4, E5, E6, E7, E8, E9, E10. repeat (split; [apply oquiet_t|]). apply oquiet_t.
  - split; try (intros; apply quiet_tick). intros d s. exists (0, 0), (dm_world s). cbn. by rewrite set_world_same.
Qed.
#[global] Instance demo_polite : Polite drivers uclasses ext.
Proof.
  split; try apply polite_t.
  - intros i v H. destruct (driver_t i v H) as (_ & _ & -> & _). apply polite_t.
  - intros id v H. destruct (uclass_t id v H) as (_ & _ & _ & _ & -> & _). apply polite_t.
Qed.
Lemma demo_agreeable : agreeable drivers uclasses.
Proof.
  split.
  - intros i v H. destruct (driver_t i v H) as (_ & _ & _ & -> & _). apply agrees_t.
  - intros id v H. destruct (uclass_t id v H) as (_ & -> & _). apply agrees_t.
Qed.

Definition start : dm Z := Dm ∅ [] false None ∅ 1 0.
Definition get (x : result (Z * dm Z)) : dm Z := match x with Ok (_, s) => s | _ => start end.
Definition booted : dm Z := get (dm_init drivers uclasses ext 100 false None start).
Fixpoint run (qs : list dm_req) (s : dm Z) : dm Z := match qs with [] => s | q :: qs' => run qs' (get (serve drivers uclasses ext q s)) end.
Definition root_ : Z := default 0 (dm_root booted).
(** A bus below the root, a device on the bus. *)
Definition s1 : dm Z := run [RBind (Some root_) 1 (Some [98; 48]) None 0 None] booted.
Definition bus : Z := 5.
Definition s2 : dm Z := run [RBind (Some bus) 2 (Some [108; 48]) None 0 None] s1.
Definition leaf : Z := 10.
Definition s3 : dm Z := run [RProbe leaf] s2.

Lemma start_blank : blank start.
Proof. split; [done|done|set_solver|done]. Qed.
Lemma reach_booted : reach drivers uclasses ext booted.
Proof. apply (reach_init _ _ _ 100 false None start); [apply start_blank|vm_compute; lia|vm_compute; reflexivity]. Qed.
Lemma reach_s1 : reach drivers uclasses ext s1.
Proof.
  apply (reach_call _ _ _ booted (RBind (Some root_) 1 (Some [98; 48]) None 0 None) 0 s1); [apply reach_booted| |vm_compute; reflexivity].
  split; [done|]. split; [by eexists|]. intros p [= <-]. eexists. vm_compute. reflexivity.
Qed.
Lemma reach_s2 : reach drivers uclasses ext s2.
Proof.
  apply (reach_call _ _ _ s1 (RBind (Some bus) 2 (Some [108; 48]) None 0 None) 0 s2); [apply reach_s1| |vm_compute; reflexivity].
  split; [done|]. split; [by eexists|]. intros p [= <-]. eexists. vm_compute. reflexivity.
Qed.
Lemma reach_s3 : reach drivers uclasses ext s3.
Proof.
  apply (reach_call _ _ _ s2 (RProbe leaf) 0 s3); [apply reach_s2| |vm_compute; reflexivity]. eexists. vm_compute. reflexivity.
Qed.

Definition dev (s : dm Z) (d : Z) : udevice := default (Dev 0 [] None None None 0 None None None None 0 [] 0 0 None 0) (dm_devs s !! d).
Lemma wf_of s : reach drivers uclasses ext s -> wf drivers uclasses s.
Proof. intros H. apply (reach_sound drivers uclasses ext s H). Qed.
Lemma sound_of s : reach drivers uclasses ext s -> sound drivers uclasses s.
Proof. intros H. apply (reach_sound drivers uclasses ext s H). Qed.
End Demo.





Lemma device_bind_adds_witness : exists r x s',
  device_bind_common Demo.drivers Demo.uclasses Demo.ext (Some Demo.bus) 2 (Some [108]) None 0 None Demo.s2 = Ok (r, x, s') /\ (r = 0 -> exists d, x = Some d).
Proof.
  destruct (device_bind_adds Demo.drivers Demo.uclasses Demo.ext Demo.s2 (Some Demo.bus) 2 [108] None 0 None (Demo.drv [108] 2 8 16 0 0)) as (r & x & s' & E & H).
  - apply Demo.wf_of, Demo.reach_s2.
  - exact (so_started _ _ _ (Demo.sound_of _ Demo.reach_s2)).
  - exact (so_next _ _ _ (Demo.sound_of _ Demo.reach_s2)).
  - lia.
  - reflexivity.
  - intros p [= <-]. eexists. vm_compute. reflexivity.
  - exists r, x, s'. split; [exact E|]. intros K. destruct (H K) as (d & u & K1 & _). by exists d.
Defined.

Lemma device_unbind_removes_witness : exists r s', device_unbind Demo.drivers Demo.uclasses Demo.ext (dm_fuel Demo.s2) Demo.bus Demo.s2 = Ok (r, s') /\
  (r = 0 -> dm_devs s' !! Demo.bus = None).
Proof.
  destruct (device_unbind_removes Demo.drivers Demo.uclasses Demo.ext Demo.s2 Demo.bus (Demo.dev Demo.s2 Demo.bus)) as (r & s' & E & _ & H & _).
  - apply Demo.wf_of, Demo.reach_s2.
  - vm_compute. reflexivity.
  - exists r, s'. split; [exact E|]. intros K. apply (H K), rtc_refl.
Defined.


Section FindProps.
Context {W : Type} (drivers : list (driver_rec W)) (uclass_drivers : list (uclass_driver W)) (ext : dm_ext W).
Context `{Q : !Quiet drivers uclass_drivers ext} `{R : !Polite drivers uclass_drivers ext}.
#[local] Abbreviation links := (links drivers uclass_drivers).
#[local] Abbreviation wf := (wf drivers uclass_drivers).

(** The members of a uclass are the devices that say so. *)
Definition is_member (s : dm W) (id e : Z) : Prop := exists x, dm_devs s !! e = Some x /\ dev_uclass x = id.

Lemma member_list s id uc e : links s -> uc_find s id = Some uc -> e ∈ dev_head uc <-> is_member s id e.
Proof using.
  intros L Eu. destruct (find_uc_in _ _ _ Eu) as [Hin Hid]. split.
  - intros He. destruct (lk_member _ _ _ L uc e Hin He) as (x & Ex & K). exists x. split; [done|congruence].
  - intros (x & Ex & K). destruct (lk_uclass _ _ _ L e x Ex) as (uc' & Eu' & He). rewrite K, Eu in Eu'. by injection Eu' as <-.
Qed.

(** What looking at a uclass leaves: the devices, and perhaps a new uclass. *)
Record looked (s s1 : dm W) : Prop := {
  lo_wf : wf s1; lo_devs : dm_devs s1 = dm_devs s; lo_next : dm_next s <= dm_next s1
}.
Lemma looked_fin s n w : wf s -> dm_next s <= n -> looked s (fin s n w).
Proof using. intros Wf Hn. split; [by apply wf_fin|done|done]. Qed.
Lemma looked_got id s s1 : uc_got drivers uclass_drivers id s s1 -> looked s s1.
Proof using. intros [Us Wf1 _ _]. destruct (uc_step_devs _ _ _ Us) as (Ed & _ & _ & Hn). split; [done|done|lia]. Qed.

Lemma wp_members id s (P : Z * list Z -> dm W -> Prop) : wf s -> started s ->
  (forall r s1, r <> 0 -> looked s s1 -> P (r, []) s1) ->
  (forall s1 uc, looked s s1 -> uc_find s1 id = Some uc -> P (0, dev_head uc) s1) -> wp (members uclass_drivers ext id) s P.
Proof using Q.
  intros Wf St Hb Hg. apply wp_bind, (wp_uclass_get drivers uclass_drivers ext); [done..| |].
  - intros r n w Nr Hn. destruct (Z.eqb_spec r 0); [done|]. cbn [negb]. apply wp_ret, Hb; [done|by apply looked_fin].
  - intros s1 G. pose proof (looked_got _ _ _ G) as Lo. destruct G as [_ _ [uc Eu] _]. cbn [negb Z.eqb]. change (default 0 (Some id)) with id. apply wp_bind. exists uc, s1.
    unfold uc_get. fold (uc_find s1 id). rewrite Eu. split; [done|]. by apply wp_ret, Hg.
Qed.

Lemma wp_find_dev p l s (P : option Z -> dm W -> Prop) : (forall e, e ∈ l -> is_Some (dm_devs s !! e)) ->
  (forall e x, e ∈ l -> dm_devs s !! e = Some x -> p x = true -> P (Some e) s) ->
  ((forall e x, e ∈ l -> dm_devs s !! e = Some x -> p x = false) -> P None s) -> wp (find_dev p l) s P.
Proof using.
  induction l as [|e l IH]; intros Hl Hs Hn; cbn [find_dev]; [apply wp_ret, Hn; by intros e x H%elem_of_nil|].
  destruct (Hl e) as [x Ex]; [by left|]. apply wp_bind, (wp_get_dev e x); [done|]. destruct (p x) eqn:Ep.
  - apply wp_ret, (Hs e x); [by left|done..].
  - apply IH.
    + intros e' He. apply Hl. by right.
    + intros e' x' He. apply Hs. by right.
    + intros Hno. apply Hn. intros e' x' [->|He]%elem_of_cons Ex'; [congruence|by eapply Hno].
Qed.

(** A search gives a member of the uclass that [p] holds of, or an error. *)
Lemma wp_uclass_search id p s (P : Z * option Z -> dm W -> Prop) : wf s -> started s ->
  (forall e x s1, looked s s1 -> dm_devs s !! e = Some x -> dev_uclass x = id -> p x = true -> P (0, Some e) s1) ->
  (forall r s1, r <> 0 -> looked s s1 -> P (r, None) s1) ->
  wp (uclass_search uclass_drivers ext id p) s P.
Proof using Q.
  intros Wf St Hs Hb. apply wp_bind, wp_members; [done..| |].
  - intros r s1 Nr Lo. destruct (Z.eqb_spec r 0); [done|]. cbn [negb]. by apply wp_ret, Hb.
  - intros s1 uc Lo Eu. cbn [negb Z.eqb]. pose proof Lo as [Wf1 Ed _]. pose proof (wf_links _ _ _ Wf1) as L1.
    assert (forall e, e ∈ dev_head uc <-> is_member s id e) as Hm.
    { intros e. rewrite (member_list s1 id uc e L1 Eu). unfold is_member. by rewrite Ed. }
    apply wp_bind, wp_find_dev.
    + intros e (x & Ex & _)%Hm. rewrite Ed. by exists x.
    + intros e x (y & Ey & Eu')%Hm Ex Hp. rewrite Ed in Ex. apply wp_ret. cbn [found]. apply (Hs e x); try done. congruence.
    + intros _. apply wp_ret. cbn [found]. by apply Hb.
Qed.

(** Fuel for a probe after a look. *)
Definition find_fuel (s : dm W) : nat := Z.to_nat (3 * dm_next s + 3).

Lemma below_looked s s1 : wf s -> looked s s1 -> below (dm_next s) s1.
Proof using. intros Wf [_ Ed _] e x E. rewrite Ed in E. by apply (lk_next _ _ _ (wf_links _ _ _ Wf) e x). Qed.

Lemma wp_probe_looked s s1 d u (P : Z -> dm W -> Prop) : wf s -> wf s1 -> below (dm_next s) s1 -> dm_devs s1 !! d = Some u ->
  (forall r s', probe_post drivers uclass_drivers (to_wake s1 d) s1 d r s' -> P r s') -> wp (device_probe drivers uclass_drivers ext (find_fuel s) d) s1 P.
Proof using Q R.
  intros Wf Wf1 Hb E H. pose proof (lk_next _ _ _ (wf_links _ _ _ Wf1) d u E). pose proof (Hb d u E).
  apply (wp_device_probe drivers uclass_drivers ext (find_fuel s) s1 d u (dm_next s)); [done..|unfold find_fuel; lia|done].
Qed.

(** Asking a uclass for the device with a number gives, whenever it gives
    one, a device of that uclass with that number, and it is active.  The call
    always returns and keeps the invariant; if no device of the uclass has the
    number there is an error. *)
Theorem uclass_get_device_by_seq_active s id seq : wf s -> started s ->
  exists r x s', uclass_get_device_by_seq drivers uclass_drivers ext (find_fuel s) id seq s = Ok (r, x, s') /\ wf s' /\
    (r = 0 -> exists d u, x = Some d /\ dm_devs s' !! d = Some u /\ dev_uclass u = id /\ seq_ u = seq /\ is_active u) /\
    ((forall e y, dm_devs s !! e = Some y -> dev_uclass y = id -> seq_ y <> seq) -> r <> 0).
Proof using Q R.
  intros Wf St. unfold uclass_get_device_by_seq, get_found.
  set (P := fun (rx : Z * option Z) s' => wf s' /\ (fst rx = 0 -> exists d u, snd rx = Some d /\ dm_devs s' !! d = Some u /\ dev_uclass u = id /\ seq_ u = seq /\ is_active u) /\
    ((forall e y, dm_devs s !! e = Some y -> dev_uclass y = id -> seq_ y <> seq) -> fst rx <> 0)).
  assert (forall r s1, r <> 0 -> wf s1 -> wp (uclass_get_device_tail drivers uclass_drivers ext (find_fuel s) None r) s1 P) as Bad.
  { intros r s1 Nr Wf1. unfold uclass_get_device_tail. destruct (Z.eqb_spec r 0); [done|]. cbn [negb]. apply wp_ret. by split. }
  assert (wp (let! got := uclass_find_device_by_seq uclass_drivers ext id seq in
              let (r, dev) := (got : Z * option Z) in uclass_get_device_tail drivers uclass_drivers ext (find_fuel s) dev r) s P) as ([r x] & s' & E & H).
  2:{ exists r, x, s'. split; [exact E|exact H]. }
  apply wp_bind. unfold uclass_find_device_by_seq. destruct (seq =? -1); [by apply wp_ret, Bad|].
  apply wp_uclass_search; [done..| |by intros r s1 Nr Lo; apply Bad, Lo].
  intros e y s1 Lo Ey Eu Es%Z.eqb_eq. pose proof Lo as [Wf1 Ed _]. unfold uclass_get_device_tail. cbn [negb Z.eqb].
  apply wp_bind, (wp_probe_looked s s1 e y); [done|done|by eapply below_looked|by rewrite Ed|]. intros r s2 [Wf2 V2 A2].
  destruct (Z.eqb_spec r 0) as [->|Nr]; cbn [negb]; apply wp_ret; (split; [done|]); cbn [fst snd].
  - split; [|intros K; by destruct (K e y Ey Eu)]. intros _. destruct (proj1 A2 eq_refl) as (z & Ez & Ha). exists e, z. split; [done|]. split; [done|].
    destruct (evolves_back _ _ _ _ _ V2 Ez) as (y' & Ey' & S & _). rewrite Ed, Ey in Ey'. injection Ey' as <-. by rewrite (sd_uclass _ _ S), (sd_seq _ _ S).
  - by split.
Qed.

(** ** All the devices of a uclass *)

Lemma wp_next_dev s d u uc l1 l2 (P : Z * option Z -> dm W -> Prop) : links s -> dm_devs s !! d = Some u -> uc_find s (dev_uclass u) = Some uc ->
  dev_head uc = l1 ++ d :: l2 -> P (0, hd_error l2) s -> wp (uclass_find_next_device d) s P.
Proof using.
  intros L E Eu El H. apply wp_bind, (wp_get_dev d u); [done|]. apply wp_bind. exists uc, s. unfold uc_get. fold (uc_find s (dev_uclass u)). rewrite Eu. split; [done|].
  apply wp_ret. rewrite El, next_after_app; [done|]. destruct (find_uc_in _ _ _ Eu) as [Hin _]. pose proof (lk_members _ _ _ L uc Hin) as N. rewrite El in N.
  apply NoDup_app in N as (_ & N & _). intros K. apply (N d K). by left.
Qed.

Lemma act_mono s s' d r e : probe_post drivers uclass_drivers (to_wake s d) s d r s' -> act_in s e -> act_in s' e.
Proof using. intros [_ V _] (x & Ex & Ha). exists x. split; [|done]. eapply stays; [exact V| |done]. intros [_ K]. apply K. by exists x. Qed.

Lemma wp_probe_rest rounds : forall s0 s id d uc l1 l2 err (P : Z -> dm W -> Prop), wf s0 -> wf s -> below (dm_next s0) s -> uc_find s id = Some uc ->
  dev_head uc = l1 ++ d :: l2 -> (length l2 < rounds)%nat -> (err = 0 -> forall e, e ∈ l1 ++ [d] -> act_in s e) ->
  (forall r s', wf s' -> (r = 0 -> forall e, e ∈ dev_head uc -> act_in s' e) -> (forall e, act_in s e -> act_in s' e) -> (err <> 0 -> r <> 0) -> P r s') ->
  wp (probe_rest drivers uclass_drivers ext rounds (find_fuel s0) (Some d) err) s P.
Proof using Q R.
  induction rounds as [|n IH]; intros s0 s id d uc l1 l2 err P Wf0 Wf Hb Eu El Hr He H; [lia|]. cbn [probe_rest]. pose proof (wf_links _ _ _ Wf) as L.
  assert (forall e, e ∈ dev_head uc -> is_member s id e) as Hm by (intros e; by apply member_list).
  destruct (Hm d) as (u & E & Eid); [rewrite El; apply elem_of_app; right; by left|].
  apply wp_bind, wp_bind, (wp_next_dev s d u uc l1 l2); [done|done|by rewrite Eid|done|]. cbn [negb Z.eqb]. destruct l2 as [|c l2]; cbn [hd_error].
  - apply wp_ret. cbn [negb Z.eqb]. destruct n; apply wp_ret, H; try done; by rewrite El.
  - destruct (Hm c) as (cu & Ec & _); [rewrite El; apply elem_of_app; right; right; by left|].
    apply wp_bind, (wp_probe_looked s0 s c cu); [done..|]. intros r s1 Pp. pose proof Pp as [Wf1 V1 A1]. apply wp_ret.
    apply (IH s0 s1 id c uc (l1 ++ [d]) l2); [done|done|by eapply below_evolves|unfold uc_find; by rewrite (ev_ucs _ _ _ V1)|by rewrite <- app_assoc|cbn in Hr; lia| |].
    + destruct (Z.eqb_spec r 0) as [->|Nr]; cbn [negb]; [|done]. intros K e He'. apply elem_of_app in He' as [He'| ->%list_elem_of_singleton].
      * eapply act_mono; [exact Pp|by apply He].
      * by apply A1.
    + intros r' s2 Wf2 Hall Hmo Herr. apply H; [done|done| |].
      * intros e Ha. apply Hmo. by eapply act_mono.
      * intros Ne. apply Herr. by destruct (Z.eqb_spec r 0).
Qed.

Lemma member_count s uc : links s -> uc ∈ dm_ucs s -> (length (dev_head uc) <= size (dm_devs s))%nat.
Proof using.
  intros L Hin. pose proof (lk_members _ _ _ L uc Hin) as N. rewrite <- (size_dom (D := gset Z)), <- (size_list_to_set (C := gset Z) _ N). apply subseteq_size.
  intros e He. apply elem_of_list_to_set in He. destruct (lk_member _ _ _ L uc e Hin He) as (x & Ex & _). by apply elem_of_dom_2 in Ex.
Qed.

(** Probing all devices of a uclass always ends, even when some of them
    fail; it returns 0 only when every device of the uclass is active, and no
    device stops being active. *)
Theorem uclass_probe_all_active s id : wf s -> started s ->
  exists r s', uclass_probe_all drivers uclass_drivers ext (S (size (dm_devs s))) (find_fuel s) id s = Ok (r, s') /\ wf s' /\
    (r = 0 -> forall e x, dm_devs s !! e = Some x -> dev_uclass x = id -> act_in s' e) /\ (forall e, act_in s e -> act_in s' e).
Proof using Q R.
  intros Wf St. change (wp (uclass_probe_all drivers uclass_drivers ext (S (size (dm_devs s))) (find_fuel s) id) s (fun r s' => wf s' /\
    (r = 0 -> forall e x, dm_devs s !! e = Some x -> dev_uclass x = id -> act_in s' e) /\ (forall e, act_in s e -> act_in s' e))).
  assert (forall s1, looked s s1 -> forall e, act_in s e -> act_in s1 e) as Ha by (intros s1 [_ Ed _] e (x & Ex & Hx); exists x; by rewrite Ed).
  apply wp_bind, wp_bind, wp_bind, wp_members; [done..| |].
  - intros r s1 Nr Lo. destruct (Z.eqb_spec r 0); [done|]. cbn [negb]. apply wp_ret. destruct (Z.eqb_spec r 0); [done|]. cbn [negb]. apply wp_ret.
    cbn [probe_rest]. apply wp_ret. split; [apply Lo|]. split; [done|by apply Ha].
  - intros s1 uc Lo Eu. pose proof Lo as [Wf1 Ed _]. cbn [negb Z.eqb]. apply wp_ret. cbn [negb Z.eqb].
    assert (forall e x, dm_devs s !! e = Some x -> dev_uclass x = id -> e ∈ dev_head uc) as Hm.
    { intros e x Ex K. apply (member_list s1 id uc e (wf_links _ _ _ Wf1) Eu). exists x. by rewrite Ed. }
    destruct (dev_head uc) as [|d l] eqn:El; cbn [hd_error].
    + apply wp_ret. cbn [probe_rest]. apply wp_ret. split; [done|]. split; [|by apply Ha]. intros _ e x Ex K. pose proof (Hm e x Ex K) as Hx. by apply elem_of_nil in Hx.
    + destruct (proj1 (member_list s1 id uc d (wf_links _ _ _ Wf1) Eu)) as (u & E & _); [rewrite El; by left|].
      apply wp_bind, (wp_probe_looked s s1 d u); [done|done|by eapply below_looked|done|]. intros r s2 Pp. pose proof Pp as [Wf2 V2 A2]. apply wp_ret.
      assert (length (dev_head uc) <= size (dm_devs s))%nat as Hlen by (rewrite <- Ed; apply member_count; [apply Wf1|by eapply find_uc_in]).
      apply (wp_probe_rest (S (size (dm_devs s))) s s2 id d uc [] l r); [done|done|eapply below_evolves; [by eapply below_looked|exact V2]| |done| | |].
      * unfold uc_find. by rewrite (ev_ucs _ _ _ V2).
      * rewrite El in Hlen. cbn in Hlen. lia.
      * intros K e ->%list_elem_of_singleton. by apply A2.
      * intros r' s3 Wf3 Hall Hmo _. split; [done|]. split; [intros K e x Ex Eu'; apply (Hall K); rewrite El; by eapply Hm|].
        intros e K. apply Hmo. eapply act_mono; [exact Pp|by apply Ha].
Qed.
End FindProps.

Lemma uclass_get_device_by_seq_active_witness : exists r x s',
  uclass_get_device_by_seq Demo.drivers Demo.uclasses Demo.ext (find_fuel Demo.s2) 2 0 Demo.s2 = Ok (r, x, s') /\ wf Demo.drivers Demo.uclasses s'.
Proof.
  destruct (uclass_get_device_by_seq_active Demo.drivers Demo.uclasses Demo.ext Demo.s2 2 0) as (r & x & s' & E & H & _).
  - apply Demo.wf_of, Demo.reach_s2.
  - exact (so_started _ _ _ (Demo.sound_of _ Demo.reach_s2)).
  - exists r, x, s'. split; [exact E|exact H].
Defined.
Lemma uclass_probe_all_active_witness : exists r s',
  uclass_probe_all Demo.drivers Demo.uclasses Demo.ext (S (size (dm_devs Demo.s2))) (find_fuel Demo.s2) 1 Demo.s2 = Ok (r, s') /\ wf Demo.drivers Demo.uclasses s'.
Proof.
  destruct (uclass_probe_all_active Demo.drivers Demo.uclasses Demo.ext Demo.s2 1) as (r & s' & E & H & _).
  - apply Demo.wf_of, Demo.reach_s2.
  - exact (so_started _ _ _ (Demo.sound_of _ Demo.reach_s2)).
  - exists r, s'. split; [exact E|exact H].
Defined.
