(* ===== verification/Bloblist.v ===== *)
(** The bloblist (common/bloblist.c, lib/tables_csum.c): the model.

    A bloblist is one block of memory with a header and records; the memory
    from the header on is a list of bytes, little-endian, and pointers into it
    are offsets from the header, whose address is an argument where the code
    uses it.  Bytes behind the end of the memory read as nothing; a write
    there is the outcome [Outside].  [Diverges] is the outcome of a recursion
    or loop that does not end within its fuel. *)

From S2P Require Import Prelude Bytes Cstring.

Inductive outcome (A : Type) := Ret (a : A) | Outside | Diverges.
Arguments Ret {A} a.
Arguments Outside {A}.
Arguments Diverges {A}.

Definition obind {A B} (o : outcome A) (f : A -> outcome B) : outcome B :=
  match o with Ret a => f a | Outside => Outside | Diverges => Diverges end.
Notation "'let!' p := o 'in' k" := (obind o (fun p => k))
  (at level 10, p pattern, o at level 100, k at level 200) : uboot_scope.

(** * Memory *)

Definition ld8 (m : list Z) (off : Z) : Z := foldr (fun b w => b + 256 * w) 0 (slice m off (off + 1)).
Definition ld32 (m : list Z) (off : Z) : Z := foldr (fun b w => b + 256 * w) 0 (slice m off (off + 4)).
Definition in_mem (m : list Z) (off len : Z) : bool :=
  (0 <=? off) && (off + len <=? Z.of_nat (length m)).
Definition st8 (m : list Z) (off v : Z) : list Z := store m off (le_bytes 1 v).
Definition st32 (m : list Z) (off v : Z) : list Z := store m off (le_bytes 4 v).

(** [ALIGN] of a 32-bit value and [round_up] of an unsigned long. *)
Definition ALIGN32 (x a : Z) : Z := Z.land (u32 (x + (a - 1))) (u32 (Z.lnot (a - 1))).
Definition round_up (x a : Z) : Z := u64 (Z.lor (u64 (x - 1)) (a - 1) + 1).

Definition BLOBLIST_VERSION : Z := 1.
Definition BLOBLIST_MAGIC : Z := 0x4a0fb10b.
Definition BLOBLIST_BLOB_ALIGN_LOG2 : Z := 3.
Definition BLOBLIST_BLOB_ALIGN : Z := 2 ^ BLOBLIST_BLOB_ALIGN_LOG2.
Definition BLOBLIST_ALIGN : Z := 8.
Definition BLOBLISTT_VOID : Z := 0.
Definition BLOBLISTT_CONTROL_FDT : Z := 1.
Definition BLOBLISTR_TAG_MASK : Z := 0xffffff.
Definition BLOBLISTR_HDR_SIZE_SHIFT : Z := 24.
Definition BLOBLISTR_HDR_SIZE_MASK : Z := 0xff000000.
Definition EPROTONOSUPPORT : Z := 93.

(** The fields of struct bloblist_hdr, at the start of the memory, and of a
    struct bloblist_rec at offset [r]. *)
Definition sizeof_hdr : Z := 24.
Definition sizeof_rec : Z := 8.
Definition hdr_magic (m : list Z) : Z := ld32 m 0.
Definition hdr_chksum (m : list Z) : Z := ld8 m 4.
Definition hdr_version (m : list Z) : Z := ld8 m 5.
Definition hdr_hdr_size (m : list Z) : Z := ld8 m 6.
Definition hdr_align_log2 (m : list Z) : Z := ld8 m 7.
Definition hdr_used_size (m : list Z) : Z := ld32 m 8.
Definition hdr_total_size (m : list Z) : Z := ld32 m 12.
Definition set_used_size (m : list Z) (v : Z) : list Z := st32 m 8 v.
Definition rec_tag_and_hdr_size (m : list Z) (r : Z) : Z := ld32 m r.
Definition rec_size (m : list Z) (r : Z) : Z := ld32 m (r + 4).

Definition rec_hdr_size (m : list Z) (r : Z) : Z :=
  Z.shiftr (Z.land (rec_tag_and_hdr_size m r) BLOBLISTR_HDR_SIZE_MASK) BLOBLISTR_HDR_SIZE_SHIFT.
Definition rec_tag (m : list Z) (r : Z) : Z := Z.land (rec_tag_and_hdr_size m r) BLOBLISTR_TAG_MASK.

(** * Walking *)

Definition bloblist_first_blob (m : list Z) : option Z :=
  if hdr_used_size m <=? hdr_hdr_size m then None else Some (hdr_hdr_size m).

Definition bloblist_blob_end_ofs (m : list Z) (rec : Z) : Z :=
  let offset := rec + (rec_hdr_size m rec + rec_size m rec) in
  let offset := round_up (offset + rec_hdr_size m rec) (2 ^ hdr_align_log2 m) in
  u64 (offset - rec_hdr_size m rec).

Definition bloblist_next_blob (m : list Z) (rec : Z) : option Z :=
  let offset := bloblist_blob_end_ofs m rec in
  if hdr_used_size m <=? offset then None else Some offset.

(** [foreach_rec] until a record has the tag. *)
Fixpoint findrec_from (fuel : nat) (m : list Z) (tag : Z) (rec : option Z) : outcome (option Z) :=
  match rec with
  | None => Ret None
  | Some r =>
      if rec_tag m r =? tag then Ret (Some r)
      else match fuel with
           | O => Diverges
           | S n => findrec_from n m tag (bloblist_next_blob m r)
           end
  end.

(** Offsets never decrease and stay below the used size, so a walk of more
    steps than that visits a record twice and never ends. *)
Definition bloblist_findrec (m : list Z) (tag : Z) : outcome (option Z) :=
  findrec_from (Z.to_nat (hdr_used_size m)) m tag (bloblist_first_blob m).

(** * Adding *)

(** Write the record's header and zero its data. *)
Definition write_rec (m : list Z) (rec tag size : Z) : outcome (list Z) :=
  if negb (in_mem m rec 8) then Outside
  else
    let m := st32 m rec (Z.lor tag (Z.shiftl sizeof_rec BLOBLISTR_HDR_SIZE_SHIFT)) in
    let m := st32 m (rec + 4) size in
    if negb (in_mem m (rec + rec_hdr_size m rec) (rec_size m rec)) then Outside
    else Ret (memset m (rec + rec_hdr_size m rec) 0 (rec_size m rec)).

(** Put the record at the end of the used part if there is room: the return
    value, [*recp] and the memory. *)
Definition place_rec (addr : Z) (m : list Z) (tag size align_log2 data_start : Z)
  : outcome (Z * option Z * list Z) :=
  let new_alloced := u32 (data_start - addr + ALIGN32 size (2 ^ align_log2)) in
  if hdr_total_size m <? new_alloced then Ret (- ENOSPC, None, m)
  else
    let rec := hdr_used_size m in
    let! m := write_rec m rec tag (u32 size) in
    Ret (0, Some rec, set_used_size m new_alloced).

(** The return value, [*recp] and the memory; [addr] is the address of the
    header. *)
Fixpoint bloblist_addrec (fuel : nat) (addr : Z) (m : list Z) (tag size align_log2 : Z)
  : outcome (Z * option Z * list Z) :=
  match fuel with
  | O => Diverges
  | S n =>
      let align_log2 := if align_log2 =? 0 then BLOBLIST_BLOB_ALIGN_LOG2 else align_log2 in
      let data_start := u32 (addr + hdr_used_size m + sizeof_rec) in
      let aligned_start := u32 (ALIGN32 data_start (2 ^ align_log2) - data_start) in
      if aligned_start =? 0 then place_rec addr m tag size align_log2 data_start
      else
        let! (ret, _, m) := bloblist_addrec n addr m BLOBLISTT_VOID (s32 (aligned_start - sizeof_rec)) 0 in
        if negb (ret =? 0) then Ret (ret, None, m)
        else place_rec addr m tag size align_log2 (u32 (addr + hdr_used_size m + sizeof_rec))
  end.

(** Two levels are all an aligned list needs: the record and one void record
    in front of it. *)
Definition addrec_fuel : nat := 3.

(** The return value, [*recp] and the memory. *)
Definition bloblist_ensurerec (addr : Z) (m : list Z) (tag size align_log2 : Z)
  : outcome (Z * option Z * list Z) :=
  let! found := bloblist_findrec m tag in
  match found with
  | Some rec => if negb (size =? 0) && negb (u32 size =? rec_size m rec) then Ret (- ESPIPE, Some rec, m)
                else Ret (0, Some rec, m)
  | None => bloblist_addrec addrec_fuel addr m tag size align_log2
  end.

(** A pointer to the data and its size. *)
Definition bloblist_get_blob (m : list Z) (tag : Z) : outcome (option (Z * Z)) :=
  let! found := bloblist_findrec m tag in
  Ret (match found with
       | Some rec => Some (rec + rec_hdr_size m rec, rec_size m rec)
       | None => None
       end).

Definition bloblist_find (m : list Z) (tag size : Z) : outcome (option Z) :=
  let! blob := bloblist_get_blob m tag in
  Ret (match blob with
       | Some (p, blob_size) => if negb (size =? 0) && negb (u32 size =? blob_size) then None else Some p
       | None => None
       end).

Definition bloblist_add (addr : Z) (m : list Z) (tag size align_log2 : Z) : outcome (option Z * list Z) :=
  let! (ret, rec, m) := bloblist_addrec addrec_fuel addr m tag size align_log2 in
  Ret (match rec with
       | Some rec => if negb (ret =? 0) then None else Some (rec + rec_hdr_size m rec)
       | None => None
       end, m).

(** The return value, [*blobp] and the memory. *)
Definition bloblist_ensure_size (addr : Z) (m : list Z) (tag size align_log2 : Z)
  : outcome (Z * option Z * list Z) :=
  let! (ret, rec, m) := bloblist_ensurerec addr m tag size align_log2 in
  Ret (if negb (ret =? 0) then (ret, None, m)
       else (0, match rec with Some rec => Some (rec + rec_hdr_size m rec) | None => None end, m)).

Definition bloblist_ensure (addr : Z) (m : list Z) (tag size : Z) : outcome (option Z * list Z) :=
  let! (_, p, m) := bloblist_ensure_size addr m tag size 0 in Ret (p, m).

(** The return value, [*sizep], [*blobp] and the memory. *)
Definition bloblist_ensure_size_ret (addr : Z) (m : list Z) (tag size : Z)
  : outcome (Z * Z * option Z * list Z) :=
  let! (ret, rec, m) := bloblist_ensurerec addr m tag size 0 in
  Ret (match rec with
       | Some rec =>
           if ret =? - ESPIPE then (0, rec_size m rec, Some (rec + rec_hdr_size m rec), m)
           else if negb (ret =? 0) then (ret, size, None, m)
           else (0, size, Some (rec + rec_hdr_size m rec), m)
       | None => (ret, size, None, m)
       end).

(** * Resizing *)

(** Move the bytes of the following records; the length is a size_t. *)
Definition move_tail (m : list Z) (dst src len : Z) : outcome (list Z) :=
  if negb (in_mem m (u64 dst) (u64 len)) || negb (in_mem m src (u64 len)) then Outside
  else Ret (memmove m (u64 dst) src (u64 len)).

Definition bloblist_resize_rec (m : list Z) (rec new_size : Z) : outcome (Z * list Z) :=
  let expand_by := s32 (ALIGN32 (u32 (new_size - rec_size m rec)) BLOBLIST_BLOB_ALIGN) in
  let new_alloced := ALIGN32 (u32 (hdr_used_size m + expand_by)) BLOBLIST_BLOB_ALIGN in
  if new_size <? 0 then Ret (- EINVAL, m)
  else if hdr_total_size m <? new_alloced then Ret (- ENOSPC, m)
  else
    let next_ofs := bloblist_blob_end_ofs m rec in
    let! m :=
      if negb (next_ofs =? hdr_used_size m)
      then move_tail m (next_ofs + expand_by) next_ofs (s32 new_alloced - next_ofs)
      else Ret m in
    let m := set_used_size m new_alloced in
    let! m :=
      if 0 <? expand_by then
        let p := rec + rec_hdr_size m rec + rec_size m rec in
        let len := u32 (new_size - rec_size m rec) in
        if negb (in_mem m p len) then Outside else Ret (memset m p 0 len)
      else Ret m in
    Ret (0, st32 m (rec + 4) new_size).

Definition bloblist_resize (m : list Z) (tag new_size : Z) : outcome (Z * list Z) :=
  let! found := bloblist_findrec m tag in
  match found with
  | None => Ret (- ENOENT, m)
  | Some rec => bloblist_resize_rec m rec new_size
  end.

(** * The whole list *)

(** [checksum -= bytes\[i\]] over [len] bytes. *)
Definition table_compute_checksum (m : list Z) (len : Z) : Z :=
  fold_left (fun checksum b => u8 (checksum - b)) (slice m 0 len) 0.

Definition bloblist_calc_chksum (m : list Z) : Z :=
  u8 (table_compute_checksum m (hdr_used_size m) + hdr_chksum m).

(** The return value and the memory at [addr], which becomes the bloblist when
    the value is 0. *)
Definition bloblist_new (addr : Z) (m : list Z) (size flags align_log2 : Z) : outcome (Z * list Z) :=
  if size <? sizeof_hdr then Ret (- ENOSPC, m)
  else if negb (Z.land addr (BLOBLIST_ALIGN - 1) =? 0) then Ret (- EFAULT, m)
  else if negb (in_mem m 0 sizeof_hdr) then Outside
  else
    let m := memset m 0 0 sizeof_hdr in
    let m := st8 m 5 BLOBLIST_VERSION in
    let m := st8 m 6 sizeof_hdr in
    let m := st32 m 16 flags in
    let m := st32 m 0 BLOBLIST_MAGIC in
    let m := st32 m 8 (hdr_hdr_size m) in
    let m := st32 m 12 size in
    let m := st8 m 7 (if negb (align_log2 =? 0) then align_log2 else BLOBLIST_BLOB_ALIGN_LOG2) in
    Ret (0, st8 m 4 0).

Definition bloblist_check (m : list Z) (size : Z) : Z :=
  if negb (hdr_magic m =? BLOBLIST_MAGIC) then - ENOENT
  else if negb (hdr_version m =? BLOBLIST_VERSION) then - EPROTONOSUPPORT
  else if (hdr_total_size m =? 0) || (negb (size =? 0) && (size <? hdr_total_size m)) then - EFBIG
  else if hdr_total_size m <? hdr_used_size m then - ENOENT
  else if negb (hdr_hdr_size m =? sizeof_hdr) then - ENOENT
  else if negb (hdr_chksum m =? bloblist_calc_chksum m) then - EIO
  else 0.

Definition bloblist_finish (m : list Z) : list Z := st8 m 4 (bloblist_calc_chksum m).

Definition bloblist_get_size (m : list Z) : Z := hdr_used_size m.
Definition bloblist_get_total_size (m : list Z) : Z := hdr_total_size m.

(** The return value and the memory of the bloblist, which moves to [to]. *)
Definition bloblist_reloc (m to : list Z) (to_size : Z) : outcome (Z * list Z) :=
  if to_size =? 0 then Ret (0, m)
  else if to_size <? hdr_total_size m then Ret (- ENOSPC, m)
  else if negb (in_mem to 0 (hdr_total_size m)) then Outside
  else Ret (0, st32 (store to 0 (slice m 0 (hdr_total_size m))) 12 to_size).

(** * A run *)

Definition run_demo : outcome (option Z * Z) :=
  let! (_, m) := bloblist_new 0x1000 (replicate 128 0xaa) 128 0 0 in
  let! (_, m) := bloblist_add 0x1000 m 0x10 5 0 in
  let! (_, m) := bloblist_add 0x1000 m 0x11 16 4 in
  let! p := bloblist_find m 0x11 16 in
  Ret (p, hdr_used_size m).
Lemma bloblist_run : run_demo = Ret (Some 48, 64).
Proof. vm_compute. reflexivity. Qed.
