(* ===== verification/BloblistRep.v ===== *)
(** The bloblist as a list of tagged blobs: little-endian fields, rounding,
    and the relation between the bytes of memory and the records they hold. *)

From S2P Require Import Prelude Bytes Cstring CstringProps Bloblist.

(** * Little-endian fields *)

Lemma ld8_word m off : ld8 m off = word_of (slice m off (off + 1)).
Proof. reflexivity. Qed.
Lemma ld32_word m off : ld32 m off = word_of (slice m off (off + 4)).
Proof. reflexivity. Qed.

Lemma le_bytes_length n : forall w, length (le_bytes n w) = n.
Proof. induction n as [|n IH]; intros w; simpl; [done|by rewrite IH]. Qed.

Lemma le_bytes_range n : forall w, Forall (fun b => 0 <= b < 256) (le_bytes n w).
Proof.
  induction n as [|n IH]; intros w; simpl; constructor; auto.
  change 255 with (Z.ones 8). rewrite Z.land_ones by lia. apply Z.mod_pos_bound. lia.
Qed.

Lemma word_of_le_bytes n : forall w, word_of (le_bytes n w) = w mod 256 ^ Z.of_nat n.
Proof.
  induction n as [|n IH]; intros w; simpl word_of.
  - by rewrite Z.mod_1_r.
  - fold (word_of (le_bytes n (Z.shiftr w 8))). rewrite IH. change 255 with (Z.ones 8).
    rewrite Z.land_ones, Z.shiftr_div_pow2 by lia. change (2 ^ 8) with 256.
    rewrite Nat2Z.inj_succ, Z.pow_succ_r by lia. assert (0 < 256 ^ Z.of_nat n) by lia.
    rewrite Z.rem_mul_r by lia. lia.
Qed.

Lemma le_bytes4 w : 0 <= w < 4294967296 -> word_of (le_bytes 4 w) = w.
Proof. intros. rewrite word_of_le_bytes. apply Z.mod_small. change (256 ^ Z.of_nat 4) with 4294967296. lia. Qed.

Section Fields.
Variables (m : list Z).

Lemma st32_length off v : 0 <= off -> off + 4 <= Z.of_nat (length m) -> length (st32 m off v) = length m.
Proof. intros. unfold st32. apply store_length; rewrite ?le_bytes_length; lia. Qed.
Lemma st8_length off v : 0 <= off -> off + 1 <= Z.of_nat (length m) -> length (st8 m off v) = length m.
Proof. intros. unfold st8. apply store_length; rewrite ?le_bytes_length; lia. Qed.

Lemma st32_slice off v lo hi :
  0 <= off -> off + 4 <= Z.of_nat (length m) -> 0 <= lo -> hi <= off \/ off + 4 <= lo ->
  slice (st32 m off v) lo hi = slice m lo hi.
Proof. intros. unfold st32. apply slice_store_other; rewrite ?le_bytes_length; lia. Qed.
Lemma st8_slice off v lo hi :
  0 <= off -> off + 1 <= Z.of_nat (length m) -> 0 <= lo -> hi <= off \/ off + 1 <= lo ->
  slice (st8 m off v) lo hi = slice m lo hi.
Proof. intros. unfold st8. apply slice_store_other; rewrite ?le_bytes_length; lia. Qed.

Lemma st32_same off v :
  0 <= off -> off + 4 <= Z.of_nat (length m) -> slice (st32 m off v) off (off + 4) = le_bytes 4 v.
Proof.
  intros. unfold st32. pose proof (slice_store_same m off (le_bytes 4 v)) as E.
  rewrite le_bytes_length in E. apply E; lia.
Qed.
Lemma st8_same off v :
  0 <= off -> off + 1 <= Z.of_nat (length m) -> slice (st8 m off v) off (off + 1) = le_bytes 1 v.
Proof.
  intros. unfold st8. pose proof (slice_store_same m off (le_bytes 1 v)) as E.
  rewrite le_bytes_length in E. apply E; lia.
Qed.

Lemma ld32_st32 off v : 0 <= off -> off + 4 <= Z.of_nat (length m) -> ld32 (st32 m off v) off = u32 v.
Proof. intros. by rewrite ld32_word, st32_same, word_of_le_bytes by lia. Qed.
Lemma ld8_st8 off v : 0 <= off -> off + 1 <= Z.of_nat (length m) -> ld8 (st8 m off v) off = u8 v.
Proof. intros. by rewrite ld8_word, st8_same, word_of_le_bytes by lia. Qed.

Lemma slice_slice lo hi a b :
  0 <= lo -> lo <= a -> b <= hi -> slice m a b = slice (slice m lo hi) (a - lo) (b - lo).
Proof. intros. slice_ext. Qed.
End Fields.

(** A range written nowhere reads as before. *)
Lemma slice_sub (m m' : list Z) lo lo' n a b :
  0 <= lo -> 0 <= lo' -> 0 <= a -> b <= n ->
  slice m' lo' (lo' + n) = slice m lo (lo + n) ->
  slice m' (lo' + a) (lo' + b) = slice m (lo + a) (lo + b).
Proof.
  intros. rewrite (slice_slice m' lo' (lo' + n)), (slice_slice m lo (lo + n)) by lia.
  replace (lo' + a - lo') with (lo + a - lo) by lia. replace (lo' + b - lo') with (lo + b - lo) by lia. congruence.
Qed.

(** * Rounding *)

Lemma land_high y k :
  0 <= k < 32 -> 0 <= y < 4294967296 -> Z.land y (u32 (Z.lnot (2 ^ k - 1))) = y - y mod 2 ^ k.
Proof.
  intros Hk Hy. replace (2 ^ k - 1) with (Z.ones k) by (rewrite Z.ones_equiv; lia).
  assert (forall x, u32 x = Z.land x (Z.ones 32)) as -> by (intros; by rewrite Z.land_ones by lia).
  rewrite Z.land_assoc, (Z.land_comm y), <- Z.land_assoc.
  rewrite Z.land_ones by lia. rewrite (Z.mod_small y (2 ^ 32)) by lia.
  rewrite Z.land_comm, <- Z.ldiff_land, Z.ldiff_ones_r by lia.
  rewrite Z.shiftl_mul_pow2, Z.shiftr_div_pow2 by lia.
  pose proof (Z.div_mod y (2 ^ k) ltac:(lia)). lia.
Qed.

Lemma pow2_pos k : 0 <= k -> 0 < 2 ^ k.
Proof. intros. apply Z.pow_pos_nonneg; lia. Qed.

Lemma ALIGN32_pow2 x k :
  0 <= k < 32 -> ALIGN32 x (2 ^ k) = u32 (x + (2 ^ k - 1)) - u32 (x + (2 ^ k - 1)) mod 2 ^ k.
Proof. intros. unfold ALIGN32. apply land_high; [lia|apply u32_range]. Qed.

Lemma lor_ones y k : 0 <= k -> Z.lor y (2 ^ k - 1) = y - y mod 2 ^ k + (2 ^ k - 1).
Proof.
  intros Hk. replace (2 ^ k - 1) with (Z.ones k) by (rewrite Z.ones_equiv; lia).
  assert (y - y mod 2 ^ k = Z.ldiff y (Z.ones k)) as ->.
  { rewrite Z.ldiff_ones_r, Z.shiftl_mul_pow2, Z.shiftr_div_pow2 by lia.
    pose proof (Z.div_mod y (2 ^ k) ltac:(pose proof (pow2_pos k Hk); lia)). lia. }
  rewrite Z.add_nocarry_lxor by (rewrite Z.land_comm; apply Z.bits_inj'; intros n Hn;
    rewrite Z.land_spec, Z.ldiff_spec, Z.bits_0; by destruct (Z.testbit (Z.ones k) n), (Z.testbit y n)).
  apply Z.bits_inj'. intros n Hn. rewrite Z.lor_spec, Z.lxor_spec, Z.ldiff_spec.
  by destruct (Z.testbit (Z.ones k) n), (Z.testbit y n).
Qed.

(** Bytes a blob of [n] bytes takes. *)
Definition pad (n : Z) : Z := 8 * ((n + 7) / 8).

Lemma pad_spec n : n <= pad n < n + 8 /\ pad n mod 8 = 0.
Proof. unfold pad. split; [zlia|]. rewrite Z.mul_comm. apply Z.mod_mul. lia. Qed.

Lemma pad_aligned n : n mod 8 = 0 -> pad n = n.
Proof. unfold pad. zlia. Qed.

Lemma ALIGN32_8 x : 0 <= x < 4294967288 -> ALIGN32 x 8 = pad x.
Proof.
  intros. change 8 with (2 ^ 3) at 1. rewrite ALIGN32_pow2 by lia. change (2 ^ 3) with 8.
  rewrite u32_small by lia. unfold pad. zlia.
Qed.

Lemma round_up_8 x : 0 < x < 4294967296 -> round_up x 8 = pad x.
Proof.
  intros. unfold round_up. change 8 with (2 ^ 3) at 1. rewrite (u64_small (x - 1)) by (unfold U64_MAX; lia).
  rewrite lor_ones by lia. change (2 ^ 3) with 8. unfold pad. rewrite u64_small by (unfold U64_MAX; zlia). zlia.
Qed.

(** * Records *)

(** What a record holds. *)
Record blob := Blob { b_tag : Z; b_data : list Z }.
Definition b_len (b : blob) : Z := Z.of_nat (length (b_data b)).
Definition blob_ok (b : blob) : Prop := 0 <= b_tag b < 16777216.

(** The bytes of a record and the room it takes. *)
Definition rec_bytes (b : blob) : list Z :=
  le_bytes 4 (b_tag b + 8 * 16777216) ++ le_bytes 4 (b_len b) ++ b_data b.
Definition room (b : blob) : Z := 8 + pad (b_len b).
Fixpoint span (bs : list blob) : Z :=
  match bs with [] => 0 | b :: bs' => room b + span bs' end.

(** The records [bs] lie in memory from [ofs] on. *)
Fixpoint blobs_at (m : list Z) (ofs : Z) (bs : list blob) : Prop :=
  match bs with
  | [] => True
  | b :: bs' => slice m ofs (ofs + 8 + b_len b) = rec_bytes b /\ blobs_at m (ofs + room b) bs'
  end.

Lemma b_len_nonneg b : 0 <= b_len b.
Proof. unfold b_len. lia. Qed.
Lemma room_pos b : 8 + b_len b <= room b /\ room b mod 8 = 0.
Proof. unfold room. destruct (pad_spec (b_len b)). split; [lia|zlia]. Qed.
Lemma span_nonneg bs : 0 <= span bs /\ span bs mod 8 = 0.
Proof.
  induction bs as [|b bs [IH1 IH2]]; simpl; [done|].
  destruct (room_pos b). pose proof (b_len_nonneg b). split; [lia|zlia].
Qed.
Lemma span_app bs cs : span (bs ++ cs) = span bs + span cs.
Proof. induction bs as [|b bs IH]; simpl; lia. Qed.

Lemma blobs_at_app m bs : forall ofs cs,
  blobs_at m ofs (bs ++ cs) <-> blobs_at m ofs bs /\ blobs_at m (ofs + span bs) cs.
Proof.
  induction bs as [|b bs IH]; intros ofs cs; simpl.
  - rewrite Z.add_0_r. tauto.
  - rewrite IH. replace (ofs + room b + span bs) with (ofs + (room b + span bs)) by lia. tauto.
Qed.

(** Records move with their bytes. *)
Lemma blobs_at_move m m' bs : forall ofs ofs',
  0 <= ofs -> 0 <= ofs' ->
  slice m' ofs' (ofs' + span bs) = slice m ofs (ofs + span bs) -> blobs_at m ofs bs -> blobs_at m' ofs' bs.
Proof.
  induction bs as [|b bs IH]; intros ofs ofs' Ho Ho' E; simpl in *; [done|].
  destruct (room_pos b). pose proof (b_len_nonneg b). destruct (span_nonneg bs).
  intros [Eb B]. split.
  - rewrite <- Eb. pose proof (slice_sub m m' ofs ofs' (room b + span bs) 0 (8 + b_len b)) as Q.
    rewrite !Z.add_0_r, !Z.add_assoc in Q. apply Q; lia || (rewrite <- !Z.add_assoc; exact E).
  - apply (IH (ofs + room b)); [lia|lia| |done].
    pose proof (slice_sub m m' ofs ofs' (room b + span bs) (room b) (room b + span bs)) as Q.
    rewrite !Z.add_assoc in Q. apply Q; try lia. rewrite <- !Z.add_assoc. exact E.
Qed.

Lemma blobs_at_same m m' bs ofs :
  0 <= ofs -> slice m' ofs (ofs + span bs) = slice m ofs (ofs + span bs) ->
  blobs_at m ofs bs -> blobs_at m' ofs bs.
Proof. intros. by eapply blobs_at_move. Qed.

(** * The relation *)

Record bl_rep (addr : Z) (m : list Z) (bs : list blob) : Prop := {
  rep_addr : 0 <= addr /\ addr mod 8 = 0;
  rep_magic : hdr_magic m = BLOBLIST_MAGIC /\ hdr_version m = BLOBLIST_VERSION;
  rep_hdr : hdr_hdr_size m = sizeof_hdr;
  rep_align : hdr_align_log2 m = BLOBLIST_BLOB_ALIGN_LOG2;
  rep_used : hdr_used_size m = sizeof_hdr + span bs;
  rep_fits : sizeof_hdr + span bs <= hdr_total_size m;
  rep_total : hdr_total_size m <= Z.of_nat (length m) /\ hdr_total_size m <= 2 ^ 30;
  rep_tags : Forall blob_ok bs;
  rep_blobs : blobs_at m sizeof_hdr bs
}.

(** A new state of the list: the fields of the header other than the checksum
    and the used size are as before. *)
Lemma rep_change addr m m' bs bs' :
  bl_rep addr m bs -> length m' = length m ->
  slice m' 0 4 = slice m 0 4 -> slice m' 5 8 = slice m 5 8 -> slice m' 12 16 = slice m 12 16 ->
  hdr_used_size m' = sizeof_hdr + span bs' -> sizeof_hdr + span bs' <= hdr_total_size m ->
  Forall blob_ok bs' -> blobs_at m' sizeof_hdr bs' -> bl_rep addr m' bs'.
Proof.
  intros [Ra [Rm Rv] Rh Rl _ _ [Rt Rt'] _ _] L S0 S5 S12 Hu Hf Ht Hb.
  assert (hdr_total_size m' = hdr_total_size m) as Et
    by (unfold hdr_total_size; rewrite !ld32_word; by f_equal).
  assert (forall a, 0 <= a < 3 -> ld8 m' (5 + a) = ld8 m (5 + a)) as E8.
  { intros a Ha. rewrite !ld8_word, <- !Z.add_assoc. f_equal. apply (slice_sub m m' 5 5 3 a (a + 1)); lia || done. }
  pose proof (E8 0 ltac:(lia)) as Ev. pose proof (E8 1 ltac:(lia)) as Eh. pose proof (E8 2 ltac:(lia)) as Ea.
  change (5 + 0) with 5 in Ev. change (5 + 1) with 6 in Eh. change (5 + 2) with 7 in Ea.
  unfold hdr_version, hdr_hdr_size, hdr_align_log2 in *.
  assert (hdr_magic m' = hdr_magic m) as Em by (unfold hdr_magic; rewrite !ld32_word; by f_equal).
  constructor; try done; unfold hdr_version, hdr_hdr_size, hdr_align_log2.
  - split; [by rewrite Em|by rewrite Ev].
  - by rewrite Eh.
  - by rewrite Ea.
  - by rewrite Et.
  - by rewrite Et, L.
Qed.

(** The header fields of a record in place. *)
Lemma tag_fields m ofs tag :
  0 <= tag < 16777216 -> slice m ofs (ofs + 4) = le_bytes 4 (tag + 8 * 16777216) ->
  rec_hdr_size m ofs = 8 /\ rec_tag m ofs = tag.
Proof.
  intros Hb E. unfold rec_hdr_size, rec_tag, rec_tag_and_hdr_size. rewrite ld32_word, E.
  rewrite le_bytes4 by lia. split.
  - unfold BLOBLISTR_HDR_SIZE_MASK, BLOBLISTR_HDR_SIZE_SHIFT.
    rewrite Z.shiftr_land. change (Z.shiftr 0xff000000 24) with (Z.ones 8).
    rewrite Z.land_ones, Z.shiftr_div_pow2 by lia. change (2 ^ 24) with 16777216. change (2 ^ 8) with 256. zlia.
  - unfold BLOBLISTR_TAG_MASK. change 0xffffff with (Z.ones 24). rewrite Z.land_ones by lia.
    change (2 ^ 24) with 16777216. zlia.
Qed.

Lemma tag_word m ofs b :
  0 <= ofs -> slice m ofs (ofs + 8 + b_len b) = rec_bytes b ->
  slice m ofs (ofs + 4) = le_bytes 4 (b_tag b + 8 * 16777216).
Proof.
  intros Ho E. pose proof (b_len_nonneg b). rewrite (slice_slice m ofs (ofs + 8 + b_len b)), E by lia.
  unfold rec_bytes, slice. replace (Z.to_nat (ofs + 4 - ofs - (ofs - ofs))) with 4%nat by lia.
  replace (Z.to_nat (ofs - ofs)) with 0%nat by lia. rewrite drop_0.
  by apply take_app_length'.
Qed.

Lemma rec_fields m ofs b :
  0 <= ofs -> blob_ok b -> b_len b < 4294967296 ->
  slice m ofs (ofs + 8 + b_len b) = rec_bytes b ->
  rec_hdr_size m ofs = 8 /\ rec_tag m ofs = b_tag b /\ rec_size m ofs = b_len b /\
  slice m (ofs + 8) (ofs + 8 + b_len b) = b_data b.
Proof.
  intros Ho Hb Hl E. pose proof (b_len_nonneg b) as Hn. pose proof (le_bytes_length 4) as L4.
  pose proof (tag_word m ofs b Ho E) as E1.
  assert (slice m (ofs + 4) (ofs + 4 + 4) = le_bytes 4 (b_len b)) as E2.
  { rewrite (slice_slice m ofs (ofs + 8 + b_len b)), E by lia. unfold rec_bytes, slice.
    replace (Z.to_nat (ofs + 4 + 4 - ofs - (ofs + 4 - ofs))) with 4%nat by lia.
    replace (Z.to_nat (ofs + 4 - ofs)) with 4%nat by lia. rewrite drop_app_length' by done.
    by rewrite take_app_length'. }
  assert (slice m (ofs + 8) (ofs + 8 + b_len b) = b_data b) as E3.
  { rewrite (slice_slice m ofs (ofs + 8 + b_len b)), E by lia. unfold rec_bytes, slice.
    replace (Z.to_nat (ofs + 8 - ofs)) with 8%nat by lia. rewrite app_assoc, drop_app_length' by done.
    apply take_ge. unfold b_len. lia. }
  destruct (tag_fields m ofs (b_tag b) Hb E1) as [F1 F2]. split_and!; try done.
  unfold rec_size. rewrite ld32_word, E2. apply le_bytes4. lia.
Qed.
