(* ===== verification/BloblistProps.v ===== *)
(** The bloblist: finding and adding blobs. *)

From S2P Require Import Prelude Bytes Cstring CstringProps Bloblist BloblistRep.

(** * Finding *)

(** The first record with the tag, with its offset. *)
Fixpoint first_with (tag ofs : Z) (bs : list blob) : option (Z * blob) :=
  match bs with
  | [] => None
  | b :: bs' => if b_tag b =? tag then Some (ofs, b) else first_with tag (ofs + room b) bs'
  end.

Lemma end_ofs_ok m ofs b :
  0 <= ofs -> ofs mod 8 = 0 -> hdr_align_log2 m = 3 -> blob_ok b -> ofs + room b <= 2 ^ 30 ->
  slice m ofs (ofs + 8 + b_len b) = rec_bytes b ->
  bloblist_blob_end_ofs m ofs = ofs + room b.
Proof.
  intros Ho H8 Ha Hb Hr E. destruct (room_pos b). pose proof (b_len_nonneg b).
  destruct (rec_fields m ofs b Ho Hb ltac:(lia) E) as (F1 & _ & F3 & _).
  unfold bloblist_blob_end_ofs. rewrite F1, F3, Ha. change (2 ^ 3) with 8. rewrite round_up_8 by lia.
  unfold room, pad in *. rewrite u64_small by (unfold U64_MAX; zlia). zlia.
Qed.

Lemma findrec_walk m tag bs : forall ofs fuel,
  0 <= ofs -> ofs mod 8 = 0 -> hdr_align_log2 m = 3 -> hdr_used_size m = ofs + span bs ->
  ofs + span bs <= 2 ^ 30 -> Forall blob_ok bs -> blobs_at m ofs bs -> (length bs <= fuel)%nat ->
  findrec_from fuel m tag (if span bs =? 0 then None else Some ofs)
  = Ret (fst <$> first_with tag ofs bs).
Proof.
  induction bs as [|b bs IH]; intros ofs fuel Ho H8 Ha Hu Hs F B Hf; [by destruct fuel|].
  apply Forall_cons in F as [Fb F]. destruct B as [Eb B]. cbn [span first_with length] in *.
  destruct (room_pos b). pose proof (b_len_nonneg b). destruct (span_nonneg bs).
  destruct (Z.eqb_spec (room b + span bs) 0); [lia|].
  destruct (rec_fields m ofs b Ho Fb ltac:(lia) Eb) as (_ & F2 & _ & _).
  destruct fuel as [|fuel]; [lia|]. cbn [findrec_from]. rewrite F2.
  destruct (Z.eqb_spec (b_tag b) tag); [done|].
  unfold bloblist_next_blob. rewrite end_ofs_ok with (b := b) by (done || lia). rewrite Hu.
  rewrite <- (IH (ofs + room b) fuel); try done; try lia; [|zlia].
  destruct (Z.leb_spec (ofs + (room b + span bs)) (ofs + room b)), (Z.eqb_spec (span bs) 0); try lia; done.
Qed.

Lemma span_length bs : 8 * Z.of_nat (length bs) <= span bs.
Proof. induction bs as [|b bs IH]; simpl; [lia|]. destruct (room_pos b). pose proof (b_len_nonneg b). lia. Qed.

Lemma findrec_ok addr m bs tag :
  bl_rep addr m bs -> bloblist_findrec m tag = Ret (fst <$> first_with tag 24 bs).
Proof.
  intros [Ra Rm Rh Rl Ru Rf [Rt Rt'] Rg Rb]. unfold bloblist_findrec, bloblist_first_blob.
  unfold sizeof_hdr in *. rewrite Rh, Ru. pose proof (span_length bs). destruct (span_nonneg bs).
  rewrite <- (findrec_walk m tag bs 24 (Z.to_nat (24 + span bs))); try done; try lia.
  destruct (Z.leb_spec (24 + span bs) 24), (Z.eqb_spec (span bs) 0); try lia; done.
Qed.

Lemma first_with_split tag bs : forall ofs o b,
  first_with tag ofs bs = Some (o, b) ->
  exists pre post, bs = pre ++ b :: post /\ o = ofs + span pre /\ b_tag b = tag /\
    Forall (fun c => b_tag c <> tag) pre.
Proof.
  induction bs as [|c bs IH]; intros ofs o b E; [done|]. simpl in E.
  destruct (Z.eqb_spec (b_tag c) tag).
  - injection E as <- <-. exists [], bs. split_and!; [done|simpl; lia|done|constructor].
  - destruct (IH _ _ _ E) as (pre & post & -> & -> & Et & F).
    exists (c :: pre), post. split_and!; [done|simpl; lia|done|by constructor].
Qed.

Lemma first_with_at tag pre b post : forall ofs,
  Forall (fun c => b_tag c <> tag) pre -> b_tag b = tag ->
  first_with tag ofs (pre ++ b :: post) = Some (ofs + span pre, b).
Proof.
  induction pre as [|c pre IH]; intros ofs F Et; simpl.
  - rewrite Et, Z.eqb_refl. do 2 f_equal. lia.
  - apply Forall_cons in F as [Hc F]. destruct (Z.eqb_spec (b_tag c) tag); [done|].
    rewrite IH by done. do 2 f_equal. lia.
Qed.

(** A record in place, with its fields. *)
Lemma rep_at addr m pre b post :
  bl_rep addr m (pre ++ b :: post) ->
  let ofs := 24 + span pre in
  rec_hdr_size m ofs = 8 /\ rec_size m ofs = b_len b /\
  slice m (ofs + 8) (ofs + 8 + b_len b) = b_data b /\
  bloblist_blob_end_ofs m ofs = ofs + room b /\ ofs mod 8 = 0 /\ b_len b < 2 ^ 30 /\ blob_ok b /\
  slice m ofs (ofs + 8 + b_len b) = rec_bytes b.
Proof.
  intros [Ra Rm Rh Rl Ru Rf [Rt Rt'] Rg Rb] ofs. unfold sizeof_hdr in *.
  rewrite span_app in *. cbn [span] in *. apply blobs_at_app in Rb as [_ [Eb _]].
  apply Forall_app in Rg as [_ [Hb _]%Forall_cons].
  destruct (room_pos b). pose proof (b_len_nonneg b). destruct (span_nonneg post). destruct (span_nonneg pre).
  destruct (rec_fields m ofs b ltac:(lia) Hb ltac:(lia) Eb) as (F1 & F2 & F3 & F4).
  split_and!; try done; [|subst ofs; zlia|lia].
  apply end_ofs_ok; try done; subst ofs; try lia. zlia.
Qed.

(** Looking a blob up finds the first record with its tag: on memory that
    holds the blobs [bs], [bloblist_get_blob] ends and returns a pointer to
    that blob's bytes with their number, or NULL when no blob has the tag. *)
Theorem bloblist_get_blob_first (addr : Z) (m : list Z) (bs : list blob) (tag : Z) :
  bl_rep addr m bs ->
  match first_with tag 24 bs with
  | Some (ofs, b) =>
      bloblist_get_blob m tag = Ret (Some (ofs + 8, b_len b)) /\
      slice m (ofs + 8) (ofs + 8 + b_len b) = b_data b /\ b_tag b = tag
  | None => bloblist_get_blob m tag = Ret None
  end.
Proof.
  intros R. unfold bloblist_get_blob. rewrite (findrec_ok addr m bs tag R). cbn [obind].
  destruct (first_with tag 24 bs) as [[ofs b]|] eqn:E; [|done].
  apply first_with_split in E as (pre & post & -> & -> & Et & _).
  destruct (rep_at addr m pre b post R) as (F1 & F2 & F3 & _). cbn [fmap option_fmap option_map fst].
  rewrite F1, F2. done.
Qed.

(** * Adding *)

Lemma lor_hdr tag : 0 <= tag < 16777216 -> Z.lor tag (Z.shiftl sizeof_rec BLOBLISTR_HDR_SIZE_SHIFT) = tag + 8 * 16777216.
Proof.
  intros Ht. change (Z.shiftl sizeof_rec BLOBLISTR_HDR_SIZE_SHIFT) with (8 * 16777216).
  pose proof (Z.add_lor_land tag (8 * 16777216)) as E.
  enough (Z.land tag (8 * 16777216) = 0) by lia.
  change (8 * 16777216) with (Z.shiftl 8 24). apply Z.bits_inj'. intros n Hn.
  rewrite Z.land_spec, Z.bits_0. destruct (Z.ltb_spec n 24).
  - rewrite Z.shiftl_spec_low by lia. apply andb_false_r.
  - rewrite <- (Z.mod_small tag (2 ^ 24)) by (change (2 ^ 24) with 16777216; lia).
    by rewrite Z.mod_pow2_bits_high by lia.
Qed.

Definition zeros (n : Z) : list Z := replicate (Z.to_nat n) 0.

Lemma in_mem_true m off len : 0 <= off -> off + len <= Z.of_nat (length m) -> in_mem m off len = true.
Proof. intros. unfold in_mem. apply andb_true_iff. split; apply Z.leb_le; lia. Qed.

Lemma write_rec_ok m r tag size :
  0 <= r -> 0 <= tag < 16777216 -> 0 <= size < 4294967296 -> r + 8 + size <= Z.of_nat (length m) ->
  exists m', write_rec m r tag size = Ret m' /\ length m' = length m /\
    slice m' r (r + 8 + size) = rec_bytes (Blob tag (zeros size)) /\
    (forall lo hi, 0 <= lo -> hi <= r \/ r + 8 + size <= lo -> slice m' lo hi = slice m lo hi).
Proof.
  intros Hr Ht Hs Hl. unfold write_rec. rewrite in_mem_true by lia. cbn [negb].
  rewrite lor_hdr by done. set (m1 := st32 m r (tag + 8 * 16777216)).
  assert (length m1 = length m) as L1 by (apply st32_length; lia).
  set (m2 := st32 m1 (r + 4) size).
  assert (length m2 = length m) as L2 by (rewrite <- L1; apply st32_length; rewrite ?L1; lia).
  assert (slice m2 r (r + 4) = le_bytes 4 (tag + 8 * 16777216)) as E1.
  { subst m2. rewrite st32_slice by (rewrite ?L1; lia). apply st32_same; lia. }
  assert (slice m2 (r + 4) (r + 4 + 4) = le_bytes 4 size) as E2 by (apply st32_same; rewrite ?L1; lia).
  destruct (tag_fields m2 r tag Ht E1) as [-> _].
  assert (rec_size m2 r = size) as -> by (unfold rec_size; rewrite ld32_word, E2; apply le_bytes4; lia).
  rewrite in_mem_true by (rewrite ?L2; lia). cbn [negb]. rewrite memset_ok by (rewrite ?L2; lia).
  change (u8 0) with 0. fold (zeros size). assert (length (zeros size) = Z.to_nat size) as Lz by apply length_replicate.
  eexists. split; [done|]. split; [rewrite store_length; rewrite ?Lz, ?L2; lia|]. split.
  - rewrite slice_store_app by (rewrite ?Lz, ?L2; lia). unfold rec_bytes, b_len; cbn [b_tag b_data].
    rewrite Lz, Z2Nat.id by lia. rewrite app_assoc. f_equal.
    rewrite (slice_split m2 r (r + 4) (r + 8)) by lia. rewrite E1. f_equal.
    by replace (r + 8) with (r + 4 + 4) by lia.
  - intros lo hi H0 Ho. rewrite slice_store_other by (rewrite ?Lz, ?L2; lia). subst m2.
    rewrite st32_slice by (rewrite ?L1; lia). by apply st32_slice; lia.
Qed.

(** The gap up to the next aligned address. *)
Lemma align_gap ds k :
  0 <= ds < 4294967296 -> 0 <= k < 32 -> u32 (ALIGN32 ds (2 ^ k) - ds) = (- ds) mod 2 ^ k.
Proof.
  intros Hd Hk. rewrite ALIGN32_pow2 by lia. pose proof (pow2_pos k ltac:(lia)) as Hp.
  assert (2 ^ k <= 2 ^ 31) as Hq by (apply Z.pow_le_mono_r; lia). change (2 ^ 31) with 2147483648 in Hq.
  set (P := 2 ^ k) in *. set (y := ds + (P - 1)).
  assert (u32 y mod P = y mod P) as ->.
  { unfold u32. change 4294967296 with (2 ^ 32). subst P.
    replace (2 ^ 32) with (2 ^ k * 2 ^ (32 - k)) by (rewrite <- Z.pow_add_r by lia; f_equal; lia).
    rewrite Z.rem_mul_r by (pose proof (pow2_pos (32 - k) ltac:(lia)); lia).
    rewrite Z.mul_comm, Z.mod_add by lia. apply Z.mod_mod. lia. }
  assert ((- ds) mod P = P - 1 - y mod P) as ->.
  { symmetry. apply (Z.mod_unique _ _ (- (y / P))); pose proof (Z.mod_pos_bound y P Hp); [lia|].
    pose proof (Z.div_mod y P ltac:(lia)). subst y. lia. }
  pose proof (Z.mod_pos_bound y P Hp). unfold u32. rewrite <- Z.sub_add_distr, Zminus_mod_idemp_l.
  rewrite Z.mod_small; subst y; lia.
Qed.

Lemma blob_zeros tag size : 0 <= size -> b_len (Blob tag (zeros size)) = size.
Proof. intros. unfold b_len, zeros. cbn [b_data]. rewrite length_replicate. lia. Qed.

Lemma set_used_size_ld m v : 12 <= Z.of_nat (length m) -> 0 <= v < 4294967296 -> hdr_used_size (set_used_size m v) = v.
Proof. intros. unfold hdr_used_size, set_used_size. rewrite ld32_st32 by lia. by apply u32_small. Qed.

(** Placing a record: it is appended, or there is no room. *)
Lemma place_rec_ok addr m bs tag size k :
  bl_rep addr m bs -> 0 <= tag < 16777216 -> 0 <= size <= 2 ^ 30 ->
  ALIGN32 size (2 ^ k) = pad size ->
  let r := place_rec addr m tag size k (u32 (addr + hdr_used_size m + sizeof_rec)) in
  if hdr_total_size m <? 24 + span bs + 8 + pad size then r = Ret (- ENOSPC, None, m)
  else exists m', r = Ret (0, Some (24 + span bs), m') /\ length m' = length m /\
    hdr_total_size m' = hdr_total_size m /\
    bl_rep addr m' (bs ++ [Blob tag (zeros size)]).
Proof.
  intros R Ht Hs Ha r. pose proof R as [Ra Rm Rh Rl Ru Rf [Rt Rt'] Rg Rb]. unfold sizeof_hdr in *.
  destruct (span_nonneg bs). destruct (pad_spec size). change (2 ^ 30) with 1073741824 in *.
  assert (u32 (u32 (addr + hdr_used_size m + sizeof_rec) - addr + ALIGN32 size (2 ^ k))
          = 24 + span bs + 8 + pad size) as En.
  { rewrite Ha, Ru. unfold u32, sizeof_rec. rewrite <- Z.add_sub_swap, Zminus_mod, Zplus_mod_idemp_l, <- Zminus_mod.
    rewrite Z.mod_small; lia. }
  subst r. unfold place_rec. rewrite En.
  destruct (Z.ltb_spec (hdr_total_size m) (24 + span bs + 8 + pad size)); [done|].
  rewrite u32_small by lia. rewrite Ru.
  destruct (write_rec_ok m (24 + span bs) tag size) as (m1 & -> & L1 & E1 & O1); try lia.
  cbn [obind]. assert (length (set_used_size m1 (24 + span bs + 8 + pad size)) = length m) as L2
    by (rewrite <- L1; apply st32_length; lia).
  assert (forall lo hi, 0 <= lo -> hi <= 8 \/ 12 <= lo ->
    slice (set_used_size m1 (24 + span bs + 8 + pad size)) lo hi = slice m1 lo hi) as O2
    by (intros; apply st32_slice; lia).
  eexists. split; [done|]. split; [done|].
  split; [unfold hdr_total_size; rewrite !ld32_word, O2, O1 by lia; done|].
  apply rep_change with (m := m) (bs := bs); try done; try (rewrite O2, O1 by lia; done).
  - rewrite set_used_size_ld by lia. rewrite span_app. cbn [span]. unfold room. rewrite blob_zeros by lia.
    unfold sizeof_hdr. lia.
  - rewrite span_app. cbn [span]. unfold room, sizeof_hdr. rewrite blob_zeros by lia. lia.
  - apply Forall_app. split; [done|]. by constructor.
  - apply blobs_at_app. split.
    + apply blobs_at_same with (m := m); [done| |done]. rewrite O2, O1 by (unfold sizeof_hdr; lia). done.
    + cbn [blobs_at]. rewrite blob_zeros by lia. split; [|done]. unfold sizeof_hdr. rewrite O2 by lia. exact E1.
Qed.

Lemma u32_mod_pow2 x k : 0 <= k < 32 -> (- u32 x) mod 2 ^ k = (- x) mod 2 ^ k.
Proof.
  intros Hk. pose proof (pow2_pos k ltac:(lia)). unfold u32. change 4294967296 with (2 ^ 32).
  replace (2 ^ 32) with (2 ^ k * 2 ^ (32 - k)) by (rewrite <- Z.pow_add_r by lia; f_equal; lia).
  rewrite Z.rem_mul_r by (pose proof (pow2_pos (32 - k) ltac:(lia)); lia).
  rewrite Z.opp_add_distr, <- Z.mul_opp_r, Z.mul_comm, Z.mod_add by lia.
  rewrite <- (Z.sub_0_l (x mod 2 ^ k)), Zminus_mod_idemp_r. done.
Qed.

(** The alignment gap in front of the next record. *)
Definition gap (addr k : Z) (bs : list blob) : Z := (- (addr + (24 + span bs) + 8)) mod 2 ^ k.

Lemma gap_spec addr k bs :
  addr mod 8 = 0 -> 3 <= k -> 0 <= gap addr k bs < 2 ^ k /\ gap addr k bs mod 8 = 0 /\
  (addr + (24 + span bs) + 8 + gap addr k bs) mod 2 ^ k = 0.
Proof.
  intros Ha Hk. unfold gap. destruct (span_nonneg bs) as [_ Hs]. pose proof (pow2_pos k ltac:(lia)).
  set (x := addr + (24 + span bs) + 8). assert (x mod 8 = 0) as Hx by (subst x; zlia).
  pose proof (Z.mod_pos_bound (- x) (2 ^ k) ltac:(lia)). split; [lia|]. split.
  - replace (2 ^ k) with (8 * 2 ^ (k - 3)) by (change 8 with (2 ^ 3); rewrite <- Z.pow_add_r by lia; f_equal; lia).
    rewrite Z.rem_mul_r by (pose proof (pow2_pos (k - 3) ltac:(lia)); lia). zlia.
  - rewrite Zplus_mod_idemp_r, Z.add_opp_diag_r. apply Z.mod_0_l. lia.
Qed.

Lemma gap_start addr m bs k :
  bl_rep addr m bs -> 0 <= k < 32 ->
  u32 (ALIGN32 (u32 (addr + hdr_used_size m + sizeof_rec)) (2 ^ k) - u32 (addr + hdr_used_size m + sizeof_rec))
  = gap addr k bs.
Proof.
  intros R Hk. rewrite align_gap by (lia || apply u32_range). rewrite u32_mod_pow2 by lia.
  by rewrite (rep_used _ _ _ R).
Qed.

(** An add as the records it leaves: a void record of [v] fills the gap. *)
Definition voids (g : Z) : list blob := if g =? 0 then [] else [Blob BLOBLISTT_VOID (zeros (g - 8))].

Lemma voids_span g : 0 <= g -> g mod 8 = 0 -> span (voids g) = g.
Proof.
  intros. unfold voids. destruct (Z.eqb_spec g 0); simpl; [lia|]. unfold room.
  rewrite blob_zeros by zlia. rewrite pad_aligned by zlia. lia.
Qed.

Lemma addrec_ok addr m bs tag size k align_log2 :
  bl_rep addr m bs -> 0 <= tag < 16777216 -> 0 <= size <= 2 ^ 30 -> 3 <= k <= 30 ->
  (align_log2 = k \/ align_log2 = 0 /\ k = 3) -> ALIGN32 size (2 ^ k) = pad size ->
  let g := gap addr k bs in
  let r := bloblist_addrec addrec_fuel addr m tag size align_log2 in
  if hdr_total_size m <? 24 + span bs + g then r = Ret (- ENOSPC, None, m)
  else if hdr_total_size m <? 24 + span bs + g + 8 + pad size
  then exists m', r = Ret (- ENOSPC, None, m') /\ bl_rep addr m' (bs ++ voids g)
  else exists m', r = Ret (0, Some (24 + span bs + g), m') /\
    bl_rep addr m' ((bs ++ voids g) ++ [Blob tag (zeros size)]).
Proof.
  intros R Ht Hs Hk Hal Ha g r. pose proof (rep_addr _ _ _ R) as [Ra Ra8].
  destruct (gap_spec addr k bs Ra8 ltac:(lia)) as (G1 & G2 & G3). fold g in G1, G2, G3.
  assert (2 ^ k <= 2 ^ 30) by (apply Z.pow_le_mono_r; lia). destruct (pad_spec size).
  subst r. unfold addrec_fuel. cbn [bloblist_addrec].
  replace (if align_log2 =? 0 then BLOBLIST_BLOB_ALIGN_LOG2 else align_log2) with k.
  2:{ destruct Hal as [->|[-> ->]]; [|done]. destruct (Z.eqb_spec k 0); [lia|done]. }
  rewrite (gap_start addr m bs k R) by lia. fold g. pose proof (rep_fits _ _ _ R). unfold sizeof_hdr in *.
  destruct (Z.eqb_spec g 0) as [E0|N0].
  - unfold voids. rewrite E0. change (0 =? 0) with true. cbn [app]. rewrite !Z.add_0_r, app_nil_r.
    pose proof (place_rec_ok addr m bs tag size k R Ht Hs Ha) as P. cbn zeta in P.
    destruct (Z.ltb_spec (hdr_total_size m) (24 + span bs)); [lia|].
    destruct (Z.ltb_spec (hdr_total_size m) (24 + span bs + 8 + pad size)); [eauto|].
    destruct P as (m' & P & _ & _ & Q). eauto.
  - change (0 =? 0) with true. cbn iota. rewrite (gap_start addr m bs BLOBLIST_BLOB_ALIGN_LOG2 R) by (unfold BLOBLIST_BLOB_ALIGN_LOG2; lia).
    assert (gap addr BLOBLIST_BLOB_ALIGN_LOG2 bs = 0) as ->.
    { unfold gap. change (2 ^ BLOBLIST_BLOB_ALIGN_LOG2) with 8. destruct (span_nonneg bs). zlia. }
    change (0 =? 0) with true. cbn iota. change (2 ^ 30) with 1073741824 in *.
    assert (8 <= g) by zlia. rewrite s32_small by (unfold sizeof_rec; lia).
    pose proof (place_rec_ok addr m bs BLOBLISTT_VOID (g - 8) BLOBLIST_BLOB_ALIGN_LOG2 R ltac:(done) ltac:(lia)) as P.
    cbn zeta in P. change (2 ^ BLOBLIST_BLOB_ALIGN_LOG2) with 8 in P.
    specialize (P ltac:(apply ALIGN32_8; lia)). unfold sizeof_rec in P.
    assert (pad (g - 8) = g - 8) as Ep by (apply pad_aligned; zlia). rewrite Ep in P.
    replace (24 + span bs + 8 + (g - 8)) with (24 + span bs + g) in P by lia. unfold sizeof_rec.
    destruct (Z.ltb_spec (hdr_total_size m) (24 + span bs + g)).
    { rewrite P. done. }
    destruct P as (m1 & -> & L1 & T1 & R1). cbn [obind]. change (negb (0 =? 0)) with false. cbn iota.
    assert (voids g = [Blob BLOBLISTT_VOID (zeros (g - 8))]) as Ev.
    { unfold voids. destruct (Z.eqb_spec g 0); [lia|done]. }
    rewrite <- Ev in R1. pose proof (place_rec_ok addr m1 (bs ++ voids g) tag size k R1 Ht Hs Ha) as P2.
    cbn zeta in P2. unfold sizeof_rec in P2. rewrite span_app, voids_span, T1, Z.add_assoc in P2 by lia.
    destruct (Z.ltb_spec (hdr_total_size m) (24 + span bs + g + 8 + pad size)); [eauto|].
    destruct P2 as (m' & P2 & _ & _ & Q). eauto.
Qed.


(** * An example list *)

(** The memory after a sequence of operations, if every one succeeds. *)
Definition mem_of (o : outcome (Z * list Z)) : list Z :=
  match o with Ret (_, m) => m | _ => [] end.
Definition added (m : list Z) (tag size align_log2 : Z) : list Z :=
  match bloblist_add 0x1000 m tag size align_log2 with Ret (_, m) => m | _ => [] end.

(** Two blobs in a list of 128 bytes, in a memory of 160. *)
Definition blob_demo : list Z :=
  added (added (mem_of (bloblist_new 0x1000 (replicate 160 0) 128 0 0)) 0x10 8 0) 0x11 16 4.
Definition blob_demo_list : list blob := [Blob 0x10 (zeros 8); Blob 0x11 (zeros 16)].

Ltac rep_compute :=
  constructor;
  [vm_compute; split; [discriminate|reflexivity] | vm_compute; split; reflexivity
  | vm_compute; reflexivity | vm_compute; reflexivity | vm_compute; reflexivity | vm_compute; discriminate
  | vm_compute; split; discriminate | repeat (apply Forall_cons; split; [unfold blob_ok; simpl; lia|]); apply Forall_nil; exact I
  | vm_compute; split_and?; done].

Lemma blob_demo_rep : bl_rep 0x1000 blob_demo blob_demo_list.
Proof. rep_compute. Qed.

Lemma bloblist_get_blob_first_witness :
  bloblist_get_blob blob_demo 0x11 = Ret (Some (48, 16)) /\
  slice blob_demo 48 64 = zeros 16 /\ b_tag (Blob 0x11 (zeros 16)) = 0x11.
Proof. exact (bloblist_get_blob_first 0x1000 blob_demo blob_demo_list 0x11 blob_demo_rep). Defined.

