(* ===== verification/BloblistOps.v ===== *)
(** The bloblist: making, finishing, checking, moving a list, and resizing a
    blob. *)

From S2P Require Import Prelude Bytes Cstring CstringProps Bloblist BloblistRep BloblistProps.

(** * The checksum *)

Definition total (l : list Z) : Z := foldr Z.add 0 l.

Lemma total_app l k : total (l ++ k) = total l + total k.
Proof. unfold total. induction l as [|x l IH]; simpl; lia. Qed.

Lemma checksum_fold l : forall c, fold_left (fun c b => u8 (c - b)) l c mod 256 = (c - total l) mod 256.
Proof.
  induction l as [|b l IH]; intros c; simpl; [f_equal; lia|].
  rewrite IH. unfold u8. rewrite Zminus_mod_idemp_l. f_equal. lia.
Qed.

Lemma ld8_total m off : 0 <= off -> off + 1 <= Z.of_nat (length m) -> ld8 m off = total (slice m off (off + 1)).
Proof.
  intros. rewrite ld8_word. assert (length (slice m off (off + 1)) = 1%nat) as L by (rewrite slice_length_tot; lia).
  destruct (slice m off (off + 1)) as [|b [|c l]]; try discriminate L. simpl. lia.
Qed.

(** The checksum covers every byte of the used part but itself. *)
Lemma calc_chksum_rest m u :
  hdr_used_size m = u -> 5 <= u <= Z.of_nat (length m) ->
  bloblist_calc_chksum m = u8 (- (total (slice m 0 4) + total (slice m 5 u))).
Proof.
  intros E Hu. unfold bloblist_calc_chksum, table_compute_checksum, hdr_chksum, u8. rewrite E.
  rewrite <- Zplus_mod_idemp_l, checksum_fold, Zplus_mod_idemp_l. f_equal.
  rewrite ld8_total by lia. change (4 + 1) with 5. rewrite (slice_split m 0 4 u), (slice_split m 4 5 u), !total_app by lia. lia.
Qed.

Lemma check_ok addr m bs size :
  bl_rep addr m bs -> size = 0 \/ hdr_total_size m <= size ->
  bloblist_check m size = if hdr_chksum m =? bloblist_calc_chksum m then 0 else - EIO.
Proof.
  intros [Ra [Rm Rv] Rh Rl Ru Rf [Rt Rt'] Rg Rb] Hs. unfold bloblist_check. rewrite Rm, Rv, Rh.
  rewrite !Z.eqb_refl. cbn [negb]. destruct (span_nonneg bs). unfold sizeof_hdr in *.
  destruct (Z.eqb_spec (hdr_total_size m) 0); [lia|]. cbn [orb].
  replace (negb (size =? 0) && (size <? hdr_total_size m)) with false.
  2:{ destruct Hs as [-> |Hs]; [done|]. destruct (Z.ltb_spec size (hdr_total_size m)); [lia|]. by rewrite andb_false_r. }
  destruct (Z.ltb_spec (hdr_total_size m) (hdr_used_size m)); [lia|]. by destruct (_ =? _).
Qed.

Lemma finish_rep addr m bs : bl_rep addr m bs -> bl_rep addr (bloblist_finish m) bs.
Proof.
  intros R. pose proof R as [Ra Rm Rh Rl Ru Rf [Rt Rt'] Rg Rb]. destruct (span_nonneg bs). unfold sizeof_hdr in *.
  unfold bloblist_finish. apply rep_change with (m := m) (bs := bs); try done; try (apply st8_slice; lia).
  - apply st8_length; lia.
  - unfold hdr_used_size. rewrite ld32_word, st8_slice by lia. exact Ru.
  - apply blobs_at_same with (m := m); [done| |done]. unfold sizeof_hdr. apply st8_slice; lia.
Qed.

Lemma calc_finish addr m bs : bl_rep addr m bs -> bloblist_calc_chksum (bloblist_finish m) = bloblist_calc_chksum m.
Proof.
  intros R. pose proof (finish_rep addr m bs R) as R'. pose proof (rep_used _ _ _ R) as U.
  pose proof (rep_used _ _ _ R') as U'. pose proof (rep_fits _ _ _ R). pose proof (rep_total _ _ _ R).
  destruct (span_nonneg bs). unfold sizeof_hdr in *.
  assert (length (bloblist_finish m) = length m) as L by (apply st8_length; lia).
  rewrite (calc_chksum_rest m _ U), (calc_chksum_rest (bloblist_finish m) _ U') by (rewrite ?L; lia).
  unfold bloblist_finish. by rewrite !st8_slice by lia.
Qed.

Lemma u8_range x : 0 <= u8 x < 256.
Proof. unfold u8. zlia. Qed.

Lemma finish_chksum addr m bs : bl_rep addr m bs ->
  hdr_chksum (bloblist_finish m) = bloblist_calc_chksum m.
Proof.
  intros R. pose proof (rep_fits _ _ _ R). pose proof (rep_total _ _ _ R). destruct (span_nonneg bs). unfold sizeof_hdr in *.
  unfold hdr_chksum, bloblist_finish. rewrite ld8_st8 by lia. apply u8_small, u8_range.
Qed.

(** One changed byte among the records. *)
Lemma total_change m i v u :
  0 <= i < u -> u <= Z.of_nat (length m) ->
  total (slice (store m i [v]) 5 u) = total (slice m 5 u) + (v - m !!! Z.to_nat i) \/ i < 5.
Proof.
  intros Hi Hu. destruct (Z.ltb_spec i 5); [by right|left].
  assert (length (store m i [v]) = length m) as L by (apply store_length; simpl; lia).
  rewrite (slice_split (store m i [v]) 5 i u), (slice_split (store m i [v]) i (i + 1) u) by (rewrite ?L; lia).
  rewrite (slice_split m 5 i u), (slice_split m i (i + 1) u), !total_app by lia.
  rewrite (slice_store_other m i [v] 5 i), (slice_store_other m i [v] (i + 1) u) by (simpl; lia).
  change (i + 1) with (i + Z.of_nat (length [v])) at 1. rewrite slice_store_same by (simpl; lia).
  assert (slice m i (i + 1) = [m !!! Z.to_nat i]) as ->.
  { rewrite slice_cons by lia. rewrite slice_empty by lia. done. }
  simpl. lia.
Qed.

(** A finished bloblist is accepted and a damaged one refused: after
    [bloblist_finish] the memory holds the same blobs and [bloblist_check]
    returns 0 for any size limit the list respects; and after any single byte
    behind the header is changed, it returns -EIO. *)
Theorem bloblist_finish_check (addr : Z) (m : list Z) (bs : list blob) (size : Z) :
  bl_rep addr m bs -> size = 0 \/ hdr_total_size m <= size ->
  Forall (fun b => 0 <= b < 256) m ->
  bl_rep addr (bloblist_finish m) bs /\ bloblist_check (bloblist_finish m) size = 0 /\
  forall i v, 24 <= i < hdr_used_size m -> 0 <= v < 256 -> bloblist_finish m !!! Z.to_nat i <> v ->
    bloblist_check (store (bloblist_finish m) i [v]) size = - EIO.
Proof.
  intros R Hs By. pose proof (finish_rep addr m bs R) as R'. pose proof (rep_fits _ _ _ R).
  pose proof (rep_total _ _ _ R) as [Rt Rt']. destruct (span_nonneg bs). pose proof (rep_used _ _ _ R) as U.
  pose proof (rep_used _ _ _ R') as U'. unfold sizeof_hdr in *. set (f := bloblist_finish m) in *.
  assert (length f = length m) as Lf by (apply st8_length; lia).
  assert (hdr_total_size f = hdr_total_size m) as Tf
    by (unfold hdr_total_size; subst f; rewrite !ld32_word; unfold bloblist_finish; by rewrite st8_slice by lia).
  assert (hdr_chksum f = bloblist_calc_chksum f) as Cf
    by (subst f; rewrite (calc_finish addr m bs R); exact (finish_chksum addr m bs R)).
  split; [done|]. split.
  { rewrite (check_ok addr f bs) by (done || rewrite Tf; done). by rewrite Cf, Z.eqb_refl. }
  intros i v Hi Hv Hn. assert (length (store f i [v]) = length f) as Lg by (apply store_length; simpl; lia).
  set (g := store f i [v]) in *.
  assert (forall lo hi, 0 <= lo -> hi <= 24 -> slice g lo hi = slice f lo hi) as O
    by (intros; apply slice_store_other; simpl; lia).
  assert (0 <= f !!! Z.to_nat i < 256) as Hb.
  { assert (Forall (fun b => 0 <= b < 256) f) as Bf.
    { subst f. unfold bloblist_finish, st8, store. repeat (apply Forall_app; split);
        [by apply Forall_take|apply le_bytes_range|by apply Forall_drop]. }
    rewrite Forall_lookup in Bf. apply (Bf (Z.to_nat i)). apply list_lookup_lookup_total_lt. lia. }
  assert (hdr_chksum g <> bloblist_calc_chksum g) as Ne.
  { assert (hdr_used_size g = 24 + span bs) as Ug by (rewrite <- U'; unfold hdr_used_size; rewrite !ld32_word; by rewrite O by lia).
    rewrite (calc_chksum_rest g _ Ug) by lia. assert (hdr_chksum g = hdr_chksum f) as -> by
      (unfold hdr_chksum; rewrite !ld8_word; by rewrite O by lia).
    rewrite Cf, (calc_chksum_rest f _ U') by lia. rewrite O by lia.
    destruct (total_change f i v (24 + span bs)) as [Tc|]; [lia..| |lia]. fold g in Tc. rewrite Tc. unfold u8. intros Eq.
    assert (v - f !!! Z.to_nat i <> 0) by lia. zlia. }
  unfold bloblist_check, hdr_magic, hdr_version, hdr_total_size, hdr_used_size, hdr_hdr_size in *.
  rewrite !ld32_word, !ld8_word in *. rewrite !O by lia. rewrite <- !ld32_word, <- !ld8_word in *.
  pose proof (check_ok addr f bs size R' ltac:(unfold hdr_total_size; rewrite Tf; done)) as K.
  unfold bloblist_check, hdr_magic, hdr_version, hdr_total_size, hdr_used_size, hdr_hdr_size in K.
  rewrite Cf, Z.eqb_refl in K. cbn [negb] in K.
  rewrite (proj2 (Z.eqb_neq (hdr_chksum g) _)) by done. cbn [negb].
  repeat match type of K with (if ?c then _ else _) = _ => destruct c; [discriminate K|] end. done.
Qed.

(** * Moving *)

Lemma reloc_ok addr addr' m bs to to_size :
  bl_rep addr m bs -> 0 <= addr' -> addr' mod 8 = 0 -> hdr_total_size m <= to_size <= 2 ^ 30 ->
  to_size <= Z.of_nat (length to) ->
  exists m', bloblist_reloc m to to_size = Ret (0, m') /\ bl_rep addr' m' bs.
Proof.
  intros R Ha Ha8 Hs Hl. pose proof R as [Ra [Rm Rv] Rh Rl Ru Rf [Rt Rt'] Rg Rb]. destruct (span_nonneg bs).
  unfold sizeof_hdr in *. unfold bloblist_reloc. destruct (Z.eqb_spec to_size 0); [lia|].
  destruct (Z.ltb_spec to_size (hdr_total_size m)); [lia|]. rewrite in_mem_true by lia. cbn [negb].
  set (t := hdr_total_size m) in *. set (c := store to 0 (slice m 0 t)).
  assert (Z.of_nat (length (slice m 0 t)) = t) as Ls by (rewrite slice_length; lia).
  assert (length c = length to) as Lc by (apply store_length; lia).
  assert (forall lo hi, 0 <= lo -> hi <= t -> slice c lo hi = slice m lo hi) as O.
  { intros lo hi Hlo Hhi. assert (slice c 0 t = slice m 0 t) as E
      by (pose proof (slice_store_same to 0 (slice m 0 t)) as Q; rewrite Z.add_0_l, Ls in Q; apply Q; lia).
    pose proof (slice_sub m c 0 0 t lo hi) as Q. simpl in Q. apply Q; lia || done. }
  assert (forall lo hi, 0 <= lo -> hi <= 12 \/ 16 <= lo -> hi <= t -> slice (st32 c 12 to_size) lo hi = slice m lo hi) as O2
    by (intros; rewrite st32_slice by lia; apply O; lia).
  eexists. split; [done|].
  assert (hdr_total_size (st32 c 12 to_size) = to_size) as Et
    by (unfold hdr_total_size; rewrite ld32_st32 by lia; apply u32_small; lia).
  constructor; try done; rewrite ?Et; unfold sizeof_hdr, hdr_magic, hdr_version, hdr_hdr_size, hdr_align_log2, hdr_used_size in *;
    rewrite ?ld32_word, ?ld8_word in *; try (rewrite O2 by lia; done); try lia.
  - rewrite !O2 by lia. done.
  - rewrite st32_length; lia.
  - apply blobs_at_same with (m := m); [done| |done]. apply O2; lia.
Qed.

(** * Making *)

(** One step of setting up the header: the field reads back and the other
    bytes are as before. *)
Lemma st8_step m off v : 0 <= off -> off + 1 <= Z.of_nat (length m) ->
  length (st8 m off v) = length m /\ slice (st8 m off v) off (off + 1) = le_bytes 1 v /\
  forall lo hi, 0 <= lo -> hi <= off \/ off + 1 <= lo -> slice (st8 m off v) lo hi = slice m lo hi.
Proof. intros. split_and!; [by apply st8_length|by apply st8_same|intros; by apply st8_slice]. Qed.
Lemma st32_step m off v : 0 <= off -> off + 4 <= Z.of_nat (length m) ->
  length (st32 m off v) = length m /\ slice (st32 m off v) off (off + 4) = le_bytes 4 v /\
  forall lo hi, 0 <= lo -> hi <= off \/ off + 4 <= lo -> slice (st32 m off v) lo hi = slice m lo hi.
Proof. intros. split_and!; [by apply st32_length|by apply st32_same|intros; by apply st32_slice]. Qed.

Lemma new_ok addr m size flags :
  0 <= addr -> addr mod 8 = 0 -> 24 <= size <= 2 ^ 30 -> size <= Z.of_nat (length m) ->
  exists m', bloblist_new addr m size flags 0 = Ret (0, m') /\ bl_rep addr m' [].
Proof.
  intros Ha Ha8 Hs Hl. change (2 ^ 30) with 1073741824 in *. unfold bloblist_new, sizeof_hdr.
  destruct (Z.ltb_spec size 24); [lia|].
  change (BLOBLIST_ALIGN - 1) with (Z.ones 3). rewrite Z.land_ones by lia. change (2 ^ 3) with 8. rewrite Ha8.
  change (negb (0 =? 0)) with false. rewrite in_mem_true by lia. cbn [negb]. cbn iota.
  rewrite memset_ok by lia. set (m0 := store m 0 _).
  assert (length m0 = length m) as L0 by (apply store_length; rewrite ?length_replicate; lia).
  destruct (st8_step m0 5 BLOBLIST_VERSION) as (L1 & S1 & O1); [lia..|]. set (m1 := st8 m0 _ _) in *.
  destruct (st8_step m1 6 24) as (L2 & S2 & O2); [lia..|]. set (m2 := st8 m1 _ _) in *.
  destruct (st32_step m2 16 flags) as (L3 & S3 & O3); [lia..|]. set (m3 := st32 m2 _ _) in *.
  destruct (st32_step m3 0 BLOBLIST_MAGIC) as (L4 & S4 & O4); [lia..|]. set (m4 := st32 m3 _ _) in *.
  assert (hdr_hdr_size m4 = 24) as Eh.
  { unfold hdr_hdr_size. rewrite ld8_word, O4, O3 by lia. change (6 + 1) with 7. change (6 + 1) with 7 in S2. by rewrite S2. }
  rewrite Eh. destruct (st32_step m4 8 24) as (L5 & S5 & O5); [lia..|]. set (m5 := st32 m4 _ _) in *.
  destruct (st32_step m5 12 size) as (L6 & S6 & O6); [lia..|]. set (m6 := st32 m5 _ _) in *.
  destruct (st8_step m6 7 BLOBLIST_BLOB_ALIGN_LOG2) as (L7 & S7 & O7); [lia..|]. set (m7 := st8 m6 _ _) in *.
  destruct (st8_step m7 4 0) as (L8 & S8 & O8); [lia..|]. set (m8 := st8 m7 _ _) in *.
  change (negb (0 =? 0)) with false. exists m8. split; [done|].
  assert (hdr_total_size m8 = size) as Et.
  { unfold hdr_total_size. rewrite ld32_word, O8, O7 by lia. change (12 + 4) with 16. change (12 + 4) with 16 in S6.
    rewrite S6. apply le_bytes4. lia. }
  constructor; rewrite ?Et; try done. lia.
Qed.

Lemma bloblist_finish_check_witness :
  bl_rep 0x1000 (bloblist_finish blob_demo) blob_demo_list /\
  bloblist_check (bloblist_finish blob_demo) 128 = 0 /\
  forall i v, 24 <= i < hdr_used_size blob_demo -> 0 <= v < 256 -> bloblist_finish blob_demo !!! Z.to_nat i <> v ->
    bloblist_check (store (bloblist_finish blob_demo) i [v]) 128 = - EIO.
Proof.
  apply (bloblist_finish_check 0x1000 blob_demo blob_demo_list 128 blob_demo_rep).
  - right. vm_compute. discriminate.
  - apply Forall_forall. intros x Hx. 
    assert (forallb (fun b => (0 <=? b) && (b <? 256)) blob_demo = true) as F by (vm_compute; reflexivity).
    rewrite forallb_forall in F. rewrite list_elem_of_In in Hx. apply F in Hx. lia.
Defined.

Lemma expand_by_ok x : - 2 ^ 30 <= x <= 2 ^ 30 -> s32 (ALIGN32 (u32 x) 8) = pad x.
Proof.
  change (2 ^ 30) with 1073741824. intros Hx. change 8 with (2 ^ 3) at 1. rewrite ALIGN32_pow2 by lia.
  change (2 ^ 3) with 8. unfold u32. rewrite Zplus_mod_idemp_l. unfold s32, pad. zlia.
Qed.

(** The bytes of a resized blob: cut, or extended by zeros. *)
Definition resized (n : Z) (d : list Z) : list Z := take (Z.to_nat n) d ++ zeros (n - Z.of_nat (length d)).

Lemma resized_length n d : 0 <= n -> Z.of_nat (length (resized n d)) = n.
Proof. intros. unfold resized, zeros. rewrite length_app, length_take, length_replicate. lia. Qed.

(** Making room: the records behind [q] end up [e] bytes further on. *)
Lemma move_ok m q e l :
  0 <= q -> 0 <= e -> 0 < l -> q + l + 2 * e <= Z.of_nat (length m) -> Z.of_nat (length m) <= U64_MAX ->
  exists m', move_tail m (q + e) q (l + e) = Ret m' /\ length m' = length m /\
    (forall lo hi, 0 <= lo -> hi <= q + e -> slice m' lo hi = slice m lo hi) /\
    slice m' (q + e) (q + e + l) = slice m q (q + l).
Proof.
  intros Hq He Hl Hm Hu. unfold move_tail. rewrite !u64_small by lia.
  rewrite !in_mem_true by lia. cbn [negb orb]. rewrite memmove_ok by lia.
  assert (Z.of_nat (length (slice m q (q + (l + e)))) = l + e) as L by (rewrite slice_length; lia).
  eexists. split; [done|]. split; [apply store_length; lia|]. split.
  - intros lo hi Hlo Hhi. apply slice_store_other; lia.
  - pose proof (slice_store_same m (q + e) (slice m q (q + (l + e)))) as Q. rewrite L in Q.
    specialize (Q ltac:(lia) ltac:(lia)).
    pose proof (slice_sub m (store m (q + e) (slice m q (q + (l + e)))) q (q + e) (l + e) 0 l) as T.
    rewrite !Z.add_0_r in T. apply T; lia || exact Q.
Qed.

(** Zeroing the new part of the blob at [ofs]. *)
Lemma fill_ok m ofs l n :
  0 <= ofs -> 0 <= l -> 0 <= n <= 2 ^ 30 -> l <= 2 ^ 30 -> rec_hdr_size m ofs = 8 -> rec_size m ofs = l ->
  ofs + 8 + Z.max l n <= Z.of_nat (length m) ->
  exists m',
    (if 0 <? pad (n - l)
     then let p := ofs + rec_hdr_size m ofs + rec_size m ofs in
          let len := u32 (n - rec_size m ofs) in
          if negb (in_mem m p len) then Outside else Ret (memset m p 0 len)
     else Ret m) = Ret m' /\ length m' = length m /\
    (forall lo hi, 0 <= lo -> hi <= ofs + 8 + l \/ ofs + 8 + n <= lo -> slice m' lo hi = slice m lo hi) /\
    slice m' (ofs + 8) (ofs + 8 + n) = resized n (slice m (ofs + 8) (ofs + 8 + l)).
Proof.
  change (2 ^ 30) with 1073741824. intros Ho Hl Hn Hl2 Eh Es Hm. rewrite Eh, Es.
  assert (Z.of_nat (length (slice m (ofs + 8) (ofs + 8 + l))) = l) as L by (rewrite slice_length; lia).
  destruct (pad_spec (n - l)) as [Hp H8]. unfold resized. rewrite L. destruct (Z.ltb_spec 0 (pad (n - l))).
  - assert (l < n) by zlia. cbn zeta. rewrite u32_small by lia. rewrite in_mem_true by lia. cbn [negb].
    rewrite memset_ok by lia. change (u8 0) with 0. fold (zeros (n - l)).
    assert (Z.of_nat (length (zeros (n - l))) = n - l) as Lz by (unfold zeros; rewrite length_replicate; lia).
    eexists. split; [done|]. split; [apply store_length; lia|]. split.
    + intros lo hi Hlo Hhi. apply slice_store_other; lia.
    + rewrite slice_store_app by lia. f_equal. symmetry. apply take_ge. lia.
  - assert (n <= l) by zlia. exists m. split_and!; try done.
    unfold zeros. replace (Z.to_nat (n - l)) with 0%nat by lia. cbn [replicate]. rewrite app_nil_r.
    rewrite take_slice by lia. by rewrite Z2Nat.id by lia.
Qed.

(** Writing the new size of the record. *)
Lemma set_size_ok m ofs b n :
  0 <= ofs -> blob_ok b -> 0 <= n <= 2 ^ 30 -> ofs + 8 + n <= Z.of_nat (length m) ->
  slice m ofs (ofs + 4) = le_bytes 4 (b_tag b + 8 * 16777216) ->
  slice m (ofs + 8) (ofs + 8 + n) = resized n (b_data b) ->
  slice (st32 m (ofs + 4) n) ofs (ofs + 8 + n) = rec_bytes (Blob (b_tag b) (resized n (b_data b))).
Proof.
  intros Ho Hb Hn Hl E1 E2. assert (length (st32 m (ofs + 4) n) = length m) as L by (apply st32_length; lia).
  rewrite (slice_split _ ofs (ofs + 4) (ofs + 8 + n)), (slice_split _ (ofs + 4) (ofs + 8) (ofs + 8 + n)) by lia.
  rewrite (st32_slice m _ _ ofs), (st32_slice m _ _ (ofs + 8)), E1, E2 by lia.
  unfold rec_bytes, b_len. cbn [b_tag b_data]. rewrite resized_length by lia. do 2 f_equal.
  replace (ofs + 8) with (ofs + 4 + 4) by lia. apply st32_same; lia.
Qed.

Section Resize.
Variables (addr : Z) (m : list Z) (pre post : list blob) (b : blob) (n : Z).
Hypothesis R : bl_rep addr m (pre ++ b :: post).
Hypothesis Hn : 0 <= n <= 2 ^ 30.
(** Padding the difference is the difference of the padded sizes: true when the
    old size is a multiple of 8. *)
Hypothesis He : pad (n - b_len b) = pad n - pad (b_len b).
Let ofs := 24 + span pre.
Let q := ofs + room b.
Let e := pad n - pad (b_len b).

Lemma resize_bounds :
  24 <= ofs /\ ofs + 8 + pad (b_len b) = q /\ 0 <= b_len b <= pad (b_len b) /\ n <= pad n /\ 0 <= span post /\
  hdr_used_size m = q + span post /\ q + span post <= hdr_total_size m <= Z.of_nat (length m) /\
  hdr_total_size m <= 2 ^ 30 /\ (q + span post + e) mod 8 = 0 /\ 0 <= q + span post + e /\
  e <= 2 ^ 30 + 8.
Proof.
  pose proof R as [Ra Rm Rh Rl Ru Rf [Rt Rt'] Rg Rb]. rewrite span_app in *. cbn [span] in *. unfold sizeof_hdr in *.
  destruct (span_nonneg pre), (span_nonneg post), (room_pos b), (pad_spec n), (pad_spec (b_len b)).
  pose proof (b_len_nonneg b). subst ofs q e. unfold room in *. split_and!; lia || zlia.
Qed.

(** The state after the move, whether there was one or not. *)
Lemma resize_move :
  post = [] \/ 0 <= e /\ q + span post + 2 * e <= Z.of_nat (length m) ->
  Z.of_nat (length m) <= U64_MAX -> q + span post + e <= hdr_total_size m ->
  exists m1,
    (if negb (q =? hdr_used_size m)
     then move_tail m (q + e) q (s32 (q + span post + e) - q) else Ret m) = Ret m1 /\
    length m1 = length m /\ (forall lo hi, 0 <= lo -> hi <= q -> slice m1 lo hi = slice m lo hi) /\
    slice m1 (q + e) (q + e + span post) = slice m q (q + span post).
Proof.
  destruct resize_bounds as (B1 & B2 & B3 & B4 & B5 & B6 & B7 & B8 & B9 & B10 & B11). change (2 ^ 30) with 1073741824 in *.
  intros C Hu Ht. rewrite B6. pose proof (span_length post). destruct (Z.eqb_spec q (q + span post)) as [E|E]; cbn [negb].
  - exists m. split_and!; try done. rewrite !slice_empty by lia. done.
  - destruct C as [->|[C1 C2]]; [simpl in E; lia|]. rewrite s32_small by lia.
    destruct (move_ok m q e (span post)) as (m1 & E1 & L1 & O1 & M1); try lia.
    replace (q + span post + e - q) with (span post + e) by lia. exists m1. split_and!; try done.
    intros lo hi Hlo Hhi. apply O1; lia.
Qed.

Lemma resize_ok :
  post = [] \/ 0 <= e /\ q + span post + 2 * e <= Z.of_nat (length m) -> Z.of_nat (length m) <= U64_MAX ->
  if hdr_total_size m <? hdr_used_size m + e then bloblist_resize_rec m ofs n = Ret (- ENOSPC, m)
  else exists m', bloblist_resize_rec m ofs n = Ret (0, m') /\
    bl_rep addr m' (pre ++ Blob (b_tag b) (resized n (b_data b)) :: post).
Proof.
  intros C Hu. destruct resize_bounds as (B1 & B2 & B3 & B4 & B5 & B6 & B7 & B8 & B9 & B10 & B11).
  change (2 ^ 30) with 1073741824 in *.
  destruct (rep_at addr m pre b post R) as (F1 & F2 & F3 & F4 & F5 & F6 & F7 & F8). fold ofs in F1, F2, F3, F4, F5, F8.
  unfold bloblist_resize_rec. change BLOBLIST_BLOB_ALIGN with 8. rewrite F2, F4. fold q.
  rewrite expand_by_ok by lia. rewrite He. fold e. rewrite B6.
  rewrite (u32_small (q + span post + e)) by lia. rewrite ALIGN32_8 by lia. rewrite pad_aligned by done.
  destruct (Z.ltb_spec n 0); [lia|]. destruct (Z.ltb_spec (hdr_total_size m) (q + span post + e)); [done|].
  destruct (resize_move C Hu ltac:(lia)) as (m1 & E1 & L1 & O1 & M1). rewrite B6 in E1. rewrite E1. cbn [obind].
  set (m2 := set_used_size m1 (q + span post + e)). assert (length m2 = length m) as L2
    by (rewrite <- L1; apply st32_length; lia).
  assert (forall lo hi, 0 <= lo -> hi <= 8 \/ 12 <= lo -> slice m2 lo hi = slice m1 lo hi) as O2
    by (intros; apply st32_slice; lia).
  assert (slice m2 ofs (ofs + 8 + b_len b) = rec_bytes b) as F8' by (rewrite O2, O1 by lia; exact F8).
  destruct (rec_fields m2 ofs b) as (G1 & _ & G3 & G4); try done; try lia.
  assert (ofs + 8 + pad n = q + e) as Eq by (subst e; lia).
  destruct (fill_ok m2 ofs (b_len b) n) as (m3 & E3 & L3 & O3 & D3); try lia; try done.
  rewrite He in E3. fold e in E3. cbn zeta in E3. rewrite E3. cbn [obind]. rewrite G4 in D3.
  eexists. split; [done|].
  assert (forall lo hi, 0 <= lo -> hi <= ofs + 4 \/ ofs + 8 <= lo -> slice (st32 m3 (ofs + 4) n) lo hi = slice m3 lo hi) as O4
    by (intros; apply st32_slice; lia).
  assert (b_len (Blob (b_tag b) (resized n (b_data b))) = n) as Ln by (apply resized_length; lia).
  assert (room (Blob (b_tag b) (resized n (b_data b))) = 8 + pad n) as Rn by (unfold room; by rewrite Ln).
  pose proof (rep_blobs _ _ _ R) as Rb. apply blobs_at_app in Rb as [Rb1 [_ Rb2]].
  pose proof (rep_tags _ _ _ R) as Rg. unfold sizeof_hdr in *. fold ofs in Rb2.
  apply rep_change with (m := m) (bs := pre ++ b :: post); try done.
  - rewrite st32_length by lia. lia.
  - rewrite O4, O3, O2, O1 by lia. done.
  - rewrite O4, O3, O2, O1 by lia. done.
  - rewrite O4, O3, O2, O1 by lia. done.
  - rewrite span_app. cbn [span]. rewrite Rn. unfold hdr_used_size. rewrite ld32_word, O4, O3 by lia.
    rewrite <- ld32_word. change (ld32 m2 8) with (hdr_used_size m2). unfold m2, sizeof_hdr.
    rewrite set_used_size_ld by lia. lia.
  - rewrite span_app. cbn [span]. rewrite Rn. unfold sizeof_hdr. lia.
  - apply Forall_app in Rg as [Rg1 [Rgb Rg2]%Forall_cons]. apply Forall_app. split; [done|]. by constructor.
  - apply blobs_at_app. unfold sizeof_hdr. split.
    + apply blobs_at_same with (m := m); [lia| |done]. fold ofs. rewrite O4, O3, O2, O1 by lia. done.
    + cbn [blobs_at]. fold ofs. rewrite Ln, Rn. split.
      * apply set_size_ok; try done; try lia. rewrite O3, O2, O1 by lia. apply tag_word; [lia|exact F8].
      * rewrite Z.add_assoc, Eq. apply blobs_at_move with (m := m) (ofs := q); try lia; try done.
        rewrite O4, O3, O2 by lia. exact M1.
Qed.
End Resize.

(** Resizing a blob changes that blob only: it keeps the common prefix of
    its bytes, is extended by zeros, and every other blob, tag and order is as
    it was; without room it returns -ENOSPC, for an unknown tag -ENOENT, and
    changes nothing.  (Hypotheses: padding the difference is the difference of
    the padded sizes, as when the old size is a multiple of 8; the blob is the
    last one, or it grows and the memory has room for twice the growth.) *)
Theorem bloblist_resize_keeps (addr : Z) (m : list Z) (bs : list blob) (tag n : Z) :
  bl_rep addr m bs -> 0 <= n <= 2 ^ 30 -> Z.of_nat (length m) <= U64_MAX ->
  match first_with tag 24 bs with
  | None => bloblist_resize m tag n = Ret (- ENOENT, m)
  | Some (ofs, b) =>
      let e := pad n - pad (b_len b) in
      pad (n - b_len b) = e ->
      ofs + room b = hdr_used_size m \/ 0 <= e /\ hdr_used_size m + 2 * e <= Z.of_nat (length m) ->
      if hdr_total_size m <? hdr_used_size m + e then bloblist_resize m tag n = Ret (- ENOSPC, m)
      else exists m' pre post, bs = pre ++ b :: post /\ ofs = 24 + span pre /\
        bloblist_resize m tag n = Ret (0, m') /\
        bl_rep addr m' (pre ++ Blob tag (resized n (b_data b)) :: post)
  end.
Proof.
  intros R Hn Hu. unfold bloblist_resize. rewrite (findrec_ok addr m bs tag R).
  destruct (first_with tag 24 bs) as [[ofs b]|] eqn:E; [|done]. cbn [obind fmap option_fmap option_map fst].
  apply first_with_split in E as (pre & post & -> & -> & Et & _). intros He C. set (e := pad n - pad (b_len b)) in *.
  pose proof (rep_used _ _ _ R) as U. rewrite span_app in U. cbn [span] in U. unfold sizeof_hdr in U.
  pose proof (span_length post).
  assert (post = [] \/ 0 <= e /\ 24 + span pre + room b + span post + 2 * e <= Z.of_nat (length m)) as C'.
  { destruct C as [C|[C1 C2]]; [left|right; split; lia]. destruct post; [done|]. simpl in *. lia. }
  pose proof (resize_ok addr m pre post b n R Hn He) as Q. fold e in Q. specialize (Q C' Hu).
  destruct (hdr_total_size m <? hdr_used_size m + e); [done|]. destruct Q as (m' & Q & R').
  exists m', pre, post. rewrite <- Et. done.
Qed.

Lemma bloblist_resize_keeps_witness :
  exists m' pre post, blob_demo_list = pre ++ Blob 0x10 (zeros 8) :: post /\ 24 = 24 + span pre /\
    bloblist_resize blob_demo 0x10 24 = Ret (0, m') /\
    bl_rep 0x1000 m' (pre ++ Blob 0x10 (resized 24 (zeros 8)) :: post).
Proof.
  pose proof (bloblist_resize_keeps 0x1000 blob_demo blob_demo_list 0x10 24 blob_demo_rep) as W.
  apply W; [lia|vm_compute; discriminate|reflexivity|right; vm_compute; split; discriminate].
Defined.

(** * Where resizing goes wrong *)

(** Two blobs of 16 bytes, the second one holding the numbers 1 to 16. *)
Definition shrink_demo : list Z :=
  let m := added (added (mem_of (bloblist_new 0x1000 (replicate 128 0) 128 0 0)) 0x10 16 0) 0x11 16 0 in
  store m 56 (map Z.of_nat (seq 1 16)).

(** Shrinking a blob damages the ones behind it: [bloblist_resize] moves
    too few bytes when the list gets shorter, so that after shrinking a blob
    of 16 bytes to 8 it reports success but the next blob has lost its
    bytes. *)
Theorem bloblist_resize_corrupts :
  bl_rep 0x1000 shrink_demo [Blob 0x10 (zeros 16); Blob 0x11 (map Z.of_nat (seq 1 16))] /\
  exists m' p, bloblist_resize shrink_demo 0x10 8 = Ret (0, m') /\
    bloblist_get_blob m' 0x11 = Ret (Some (p, 16)) /\ slice m' p (p + 16) <> map Z.of_nat (seq 1 16).
Proof.
  split; [rep_compute|]. eexists _, _. split; [vm_compute; reflexivity|].
  split; [vm_compute; reflexivity|vm_compute; discriminate].
Qed.

(** Growing a blob that is not the last moves too many bytes: filling the list
    exactly writes behind the end of its memory. *)
Theorem bloblist_resize_overrun : bloblist_resize shrink_demo 0x10 72 = Outside.
Proof. vm_compute. reflexivity. Qed.

(** Shrinking by more than the bytes that follow makes the number of bytes to
    move wrap around. *)
Theorem bloblist_resize_wraps :
  bloblist_resize (added (added (mem_of (bloblist_new 0x1000 (replicate 128 0) 128 0 0)) 0x10 64 0) 0x11 8 0) 0x10 0
  = Outside.
Proof. vm_compute. reflexivity. Qed.

(** When the old size is not a multiple of 8 the following blobs can be moved
    although the padded size does not change; they are lost. *)
Definition unpadded_demo : list Z :=
  let m := added (added (mem_of (bloblist_new 0x1000 (replicate 128 0) 128 0 0)) 0x10 3 0) 0x11 8 0 in
  store m 48 (replicate 8 7).
Theorem bloblist_resize_unpadded :
  bl_rep 0x1000 unpadded_demo [Blob 0x10 (zeros 3); Blob 0x11 (replicate 8 7)] /\
  exists m' p, bloblist_resize unpadded_demo 0x10 8 = Ret (0, m') /\
    bloblist_get_blob m' 0x11 = Ret (Some (p, 8)) /\ slice m' p (p + 8) <> replicate 8 7.
Proof.
  split; [rep_compute|]. eexists _, _. split; [vm_compute; reflexivity|].
  split; [vm_compute; reflexivity|vm_compute; discriminate].
Qed.

(** * Where adding goes wrong *)

(** A blob aligned to more than the list's alignment is allocated more room
    than the walk skips: a later blob is never reached and the walk never
    ends. *)
Theorem bloblist_add_unreachable :
  let m := added (added (mem_of (bloblist_new 0x1000 (replicate 128 0) 128 0 0)) 0x10 4 4) 0x11 8 0 in
  bloblist_findrec m 0x11 = Diverges.
Proof. vm_compute. reflexivity. Qed.

(** After a blob with an alignment below 8 the used size is not a multiple of
    8, and the next add recurses for ever. *)
Theorem bloblist_add_endless (fuel : nat) (tag size : Z) :
  let m := added (mem_of (bloblist_new 0x1000 (replicate 128 0) 128 0 0)) 0x10 1 1 in
  bloblist_addrec fuel 0x1000 m tag size 0 = Diverges.
Proof.
  intros m. revert tag size. induction fuel as [|fuel IH]; intros tag size; [done|]. cbn [bloblist_addrec].
  set (g := u32 (ALIGN32 _ _ - _)). assert (g = 6) as -> by (vm_compute; reflexivity).
  change (6 =? 0) with false. cbn iota. by rewrite IH.
Qed.
