(* ===== verification/NetDefrag.v ===== *)
(** Reassembly of fragmented IP datagrams: [__net_defragment] and
    [net_defragment] of src/net/net.c.

    The code keeps one datagram in [pkt_buff] and threads a doubly linked list
    of hole descriptors through the part of the buffer that has not been
    received yet (RFC 815).  The model keeps the buffer as the list of its
    bytes, so a descriptor is the three little-endian 16-bit fields at its
    place in it and a link is a number read from these bytes, whatever was
    written there.  A read or write outside the buffer and a walk that never
    ends are values of the result type. *)

From S2P Require Import Prelude Bytes.

Definition IP_OFFS : Z := 8191.
Definition IP_FLAGS_MFRAG : Z := 8192.
Definition IP_HDR_SIZE : Z := 20.

(** What a piece of the code does: go on with a value, touch memory outside
    the buffer, or loop for ever. *)
Inductive frag_res (A : Type) : Type :=
| FOk (a : A)
| FOob
| FHang.
Arguments FOk {A} a.
Arguments FOob {A}.
Arguments FHang {A}.

Definition frag_bind {A B} (m : frag_res A) (k : A -> frag_res B) : frag_res B :=
  match m with FOk a => k a | FOob => FOob | FHang => FHang end.

Declare Scope frag_scope.
Delimit Scope frag_scope with frag.
Notation "'let!' x := m 'in' k" := (frag_bind m (fun x => k))
  (at level 200, x pattern, m at level 100, k at level 200, only parsing) : frag_scope.
Open Scope frag_scope.

(** A 16-bit field of memory, in the byte order of a little-endian machine. *)
Definition rd16 (b : list Z) (a : Z) : frag_res Z :=
  if (0 <=? a) && (a + 2 <=? Z.of_nat (length b))
  then FOk (b !!! Z.to_nat a + 256 * b !!! Z.to_nat (a + 1))
  else FOob.

Definition wr16 (b : list Z) (a v : Z) : frag_res (list Z) :=
  if (0 <=? a) && (a + 2 <=? Z.of_nat (length b))
  then FOk (store b a [u16 v mod 256; u16 v / 256])
  else FOob.

(** ntohs of the 16-bit field at [a] of a packet. *)
Definition be16 (p : list Z) (a : nat) : Z := 256 * p !!! a + p !!! S a.

Definition hdr_ip_len (p : list Z) : Z := be16 p 2.
Definition hdr_ip_off (p : list Z) : Z := be16 p 6.
Definition hdr_ip_id (p : list Z) : list Z := slice p 4 6.

(** struct hole at index [i] of payload. *)
Definition hole_at (i : Z) : Z := IP_HDR_SIZE + 8 * i.
Definition last_byte (b : list Z) (i : Z) : frag_res Z := rd16 b (hole_at i).
Definition next_hole (b : list Z) (i : Z) : frag_res Z := rd16 b (hole_at i + 2).
Definition prev_hole (b : list Z) (i : Z) : frag_res Z := rd16 b (hole_at i + 4).
Definition set_last_byte (b : list Z) (i v : Z) : frag_res (list Z) := wr16 b (hole_at i) v.
Definition set_next_hole (b : list Z) (i v : Z) : frag_res (list Z) := wr16 b (hole_at i + 2) v.
Definition set_prev_hole (b : list Z) (i v : Z) : frag_res (list Z) := wr16 b (hole_at i + 4) v.

(** [*newh = *h]: all eight bytes. *)
Definition copy_hole (b : list Z) (to from : Z) : frag_res (list Z) :=
  let n := Z.of_nat (length b) in
  if (0 <=? hole_at from) && (hole_at from + 8 <=? n) &&
     (0 <=? hole_at to) && (hole_at to + 8 <=? n)
  then FOk (store b (hole_at to) (slice b (hole_at from) (hole_at from + 8)))
  else FOob.

(** memcpy of packet bytes into the buffer. *)
Definition copy_in (b : list Z) (a : Z) (data : list Z) : frag_res (list Z) :=
  if (0 <=? a) && (a + Z.of_nat (length data) <=? Z.of_nat (length b))
  then FOk (store b a data)
  else FOob.

(** The static variables of [__net_defragment]. *)
Record frag_state : Type := mkFrag {
  pkt_buff : list Z;
  first_hole : Z;
  total_len : Z
}.

(** The walk to the first hole that does not end before [start]; [None] is
    the early return.  A link is a 16-bit index, so a walk that takes more
    than 65536 steps has come back to a descriptor it has seen and never
    ends. *)
Fixpoint find_hole (fuel : nat) (b : list Z) (start h : Z) : frag_res (option Z) :=
  match fuel with
  | O => FHang
  | S fuel =>
    let! l := last_byte b h in
    if l <? start then
      let! n := next_hole b h in
      if n =? 0 then FOk None
      else find_hole fuel b start n
    else FOk (Some h)
  end.

Definition walk_fuel : nat := Z.to_nat 65537.

(** The fragment covers the hole [h]: take it off the list. *)
Definition remove_hole (b : list Z) (first h : Z) : frag_res (list Z * Z * bool) :=
  let! p := prev_hole b h in
  let! n := next_hole b h in
  if (p =? 0) && (n =? 0) then FOk (b, first, true)
  else if p =? 0 then
    let! b := set_prev_hole b n 0 in FOk (b, n, false)
  else if n =? 0 then
    let! b := set_next_hole b p 0 in FOk (b, first, false)
  else
    let! b := set_prev_hole b n p in
    let! n := next_hole b h in
    let! p := prev_hole b h in
    let! b := set_next_hole b p n in
    FOk (b, first, false).

(** The fragment covers the start of the hole: its descriptor moves. *)
Definition move_hole (b : list Z) (first h newh : Z) : frag_res (list Z * Z * bool) :=
  let! b := copy_hole b newh h in
  let! n := next_hole b newh in
  let! b := (if n =? 0 then FOk b else set_prev_hole b n newh) in
  let! p := prev_hole b newh in
  if p =? 0 then FOk (b, u16 newh, false)
  else let! b := set_next_hole b p newh in FOk (b, first, false).

(** The fragment is inside the hole: a second descriptor after it. *)
Definition split_hole (b : list Z) (first h newh start : Z) : frag_res (list Z * Z * bool) :=
  let! b := copy_hole b newh h in
  let! b := set_last_byte b h start in
  let! b := set_next_hole b h newh in
  let! b := set_prev_hole b newh h in
  let! n := next_hole b newh in
  let! b := (if n =? 0 then FOk b else set_prev_hole b n newh) in
  FOk (b, first, false).

(** The four ways a fragment [start .. start + len) meets the hole [h]. *)
Definition fix_holes (b : list Z) (first h offset8 start len : Z)
  : frag_res (list Z * Z * bool) :=
  let! l := last_byte b h in
  if (offset8 <=? h) && (l <=? start + len) then remove_hole b first h
  else if l <=? start + len then
    let! b := set_last_byte b h start in FOk (b, first, false)
  else
    let newh := offset8 + len / 8 in
    if offset8 <=? h then move_hole b first h newh
    else split_hole b first h newh start.

Section Defragment.
(** CONFIG_NET_MAXDEFRAG, the size of the buffer. *)
Variable IP_PKTSIZE : Z.

Definition IP_MAXUDP : Z := IP_PKTSIZE - IP_HDR_SIZE.

(** A new (or different) datagram. *)
Definition frag_reset (s : frag_state) (ip : list Z) : frag_res frag_state :=
  let! b := set_last_byte (pkt_buff s) 0 65535 in
  let! b := set_next_hole b 0 0 in
  let! b := set_prev_hole b 0 0 in
  let! b := copy_in b 0 (slice ip 0 IP_HDR_SIZE) in
  FOk (mkFrag b 0 65535).

(** The part of [__net_defragment] after the walk: [h] is the hole found. *)
Definition frag_fill (s : frag_state) (ip : list Z) (h offset8 start len : Z) (more : bool)
  : frag_res (frag_state * option (list Z * Z)) :=
  if offset8 + (len + 7) / 8 <=? h then FOk (s, None)
  else
    let! (b, total) :=
      (if more then FOk (pkt_buff s, total_len s)
       else let! b := set_last_byte (pkt_buff s) h (start + len) in
            FOk (b, u16 (start + len))) in
    let! l := last_byte b h in
    let len := if l <? start + len then l - start else len in
    let! (b, first, done) := fix_holes b (first_hole s) h offset8 start len in
    let! b := copy_in b (hole_at offset8) (slice ip IP_HDR_SIZE (IP_HDR_SIZE + len)) in
    if negb done then FOk (mkFrag b first total, None)
    else
      let lenp := total + IP_HDR_SIZE in
      let! b := copy_in b 2 [u16 lenp / 256; u16 lenp mod 256] in
      FOk (mkFrag b first total, Some (b, lenp)).

(** The whole of [__net_defragment]: the packet returned, as the buffer it
    points to, and the length stored through [lenp]. *)
Definition __net_defragment (s : frag_state) (ip : list Z)
  : frag_res (frag_state * option (list Z * Z)) :=
  let ip_off := hdr_ip_off ip in
  if hdr_ip_len ip <=? IP_HDR_SIZE then FOk (s, None)
  else
    let offset8 := Z.land ip_off IP_OFFS in
    let start := offset8 * 8 in
    let len := hdr_ip_len ip - IP_HDR_SIZE in
    let more := negb (Z.land ip_off IP_FLAGS_MFRAG =? 0) in
    if negb (Z.land len 7 =? 0) && more then FOk (s, None)
    else if IP_MAXUDP <? start + len then FOk (s, None)
    else
      let! s :=
        (if (total_len s =? 0) || negb (bool_decide (hdr_ip_id (pkt_buff s) = hdr_ip_id ip))
         then frag_reset s ip else FOk s) in
      let! found := find_hole walk_fuel (pkt_buff s) start (first_hole s) in
      match found with
      | None => FOk (s, None)
      | Some h => frag_fill s ip h offset8 start len more
      end.

(** [net_defragment]: a packet that is not a fragment is handed back with
    the length it came with. *)
Definition net_defragment (s : frag_state) (ip : list Z) (len : Z)
  : frag_res (frag_state * option (list Z * Z)) :=
  if Z.land (hdr_ip_off ip) (Z.lor IP_OFFS IP_FLAGS_MFRAG) =? 0
  then FOk (s, Some (ip, len))
  else __net_defragment s ip.

(** A sequence of packets, each handed over with its own ip_len as
    [net_process_received_packet] does, and what each call returned: the
    first [len] bytes of the packet. *)
Fixpoint defragment_all (s : frag_state) (ips : list (list Z))
  : frag_res (frag_state * list (option (list Z))) :=
  match ips with
  | [] => FOk (s, [])
  | ip :: ips =>
    let! (s, r) := net_defragment s ip (hdr_ip_len ip) in
    let! (s, rs) := defragment_all s ips in
    FOk (s, (match r with
             | Some (p, len) => Some (slice p 0 len)
             | None => None
             end) :: rs)
  end.
End Defragment.

(** The state at start-up: static storage is zero. *)
Definition frag_init (IP_PKTSIZE : Z) : frag_state :=
  mkFrag (replicate (Z.to_nat IP_PKTSIZE) 0) 0 0.

(** A fragment as a sender makes it: a 20 byte header with the length, the
    identification, flags and offset filled in, then the data. *)
Definition frag_packet (id : Z) (data : list Z) (off : Z) (more : bool) : list Z :=
  let len := IP_HDR_SIZE + Z.of_nat (length data) in
  let o := off / 8 + if more then IP_FLAGS_MFRAG else 0 in
  [69; 0; len / 256; len mod 256; id / 256; id mod 256; o / 256; o mod 256;
   64; 17; 0; 0; 10; 0; 0; 1; 10; 0; 0; 2] ++ data.
