(* ===== verification/NetDefragRep.v ===== *)
(** The list of holes in the reassembly buffer: what it means for the bytes of
    the buffer to hold a doubly linked list of descriptors, and what each of
    the four updates of [__net_defragment] does to such a list. *)

From stdpp Require Import sets fin_sets.
From S2P Require Import Prelude Bytes NetDefrag.

(** ** Fields *)

Lemma rd16_ok b a :
  0 <= a -> a + 2 <= Z.of_nat (length b) ->
  rd16 b a = FOk (b !!! Z.to_nat a + 256 * b !!! Z.to_nat (a + 1)).
Proof.
  intros. unfold rd16. rewrite (proj2 (Z.leb_le _ _)), (proj2 (Z.leb_le _ _)) by lia. done.
Qed.

Lemma rd16_bounds b a v : rd16 b a = FOk v -> 0 <= a /\ a + 2 <= Z.of_nat (length b).
Proof. unfold rd16. intros H. case_match; [bprop; lia|done]. Qed.

(** [b'] is [b] but for the bytes of the range. *)
Definition same_out (lo hi : Z) (b b' : list Z) : Prop :=
  length b' = length b /\
  forall x : nat, Z.of_nat x < lo \/ hi <= Z.of_nat x -> b' !! x = b !! x.

Lemma same_out_store b a bs :
  0 <= a -> a + Z.of_nat (length bs) <= Z.of_nat (length b) ->
  same_out a (a + Z.of_nat (length bs)) b (store b a bs).
Proof.
  intros. split; [by apply store_length|]. intros x Hx.
  rewrite store_lookup by done. repeat case_decide; [done|lia|done].
Qed.

Lemma rd16_same lo hi b b' a :
  same_out lo hi b b' -> 0 <= a -> a + 2 <= lo \/ hi <= a -> rd16 b' a = rd16 b a.
Proof.
  intros [Hl H] Ha Hd. unfold rd16. rewrite Hl. case_match; [|done]. bprop.
  rewrite !list_lookup_total_alt, !H by lia. done.
Qed.

Lemma wr16_ok b a v :
  0 <= a -> a + 2 <= Z.of_nat (length b) -> 0 <= v < 65536 ->
  exists b', wr16 b a v = FOk b' /\ rd16 b' a = FOk v /\ same_out a (a + 2) b b'.
Proof.
  intros. unfold wr16. rewrite (proj2 (Z.leb_le _ _)), (proj2 (Z.leb_le _ _)) by lia.
  eexists. split; [done|]. simpl. rewrite u16_small by lia. split.
  - rewrite rd16_ok; [|lia|rewrite store_length; simpl; lia].
    rewrite !list_lookup_total_alt, !store_lookup by (simpl; lia). simpl length.
    repeat (case_decide; try lia).
    replace (Z.to_nat a - Z.to_nat a)%nat with 0%nat by lia.
    replace (Z.to_nat (a + 1) - Z.to_nat a)%nat with 1%nat by lia. simpl. f_equal.
    pose proof (Z.div_mod v 256). lia.
  - apply same_out_store; simpl; lia.
Qed.

(** ** Descriptors *)

Definition cell (b : list Z) (i l n p : Z) : Prop :=
  last_byte b i = FOk l /\ next_hole b i = FOk n /\ prev_hole b i = FOk p.

(** [b'] is [b] but for the descriptor [i]. *)
Definition one_cell (i : Z) (b b' : list Z) : Prop := same_out (hole_at i) (hole_at i + 8) b b'.

Lemma cell_bounds b i l n p :
  cell b i l n p -> -20 <= 8 * i /\ hole_at i + 6 <= Z.of_nat (length b).
Proof.
  intros (?%rd16_bounds & ?%rd16_bounds & ?%rd16_bounds). unfold hole_at, IP_HDR_SIZE in *. lia.
Qed.

Lemma cell_frame i b b' j l n p :
  one_cell i b b' -> j <> i -> cell b j l n p -> cell b' j l n p.
Proof.
  intros Ho Hj Hc. pose proof (cell_bounds _ _ _ _ _ Hc) as Hb.
  destruct Hc as (? & ? & ?). unfold cell, last_byte, next_hole, prev_hole in *.
  rewrite !(rd16_same _ _ _ _ _ Ho) by (unfold hole_at, IP_HDR_SIZE in *; lia). done.
Qed.

Lemma one_cell_weaken i a (b b' : list Z) :
  hole_at i <= a -> a + 2 <= hole_at i + 8 -> same_out a (a + 2) b b' -> one_cell i b b'.
Proof. intros ? ? [? H]. split; [done|]. intros x Hx. apply H. lia. Qed.

Lemma one_cell_trans i b b' b'' : one_cell i b b' -> one_cell i b' b'' -> one_cell i b b''.
Proof.
  intros [L H] [L' H']. split; [congruence|]. intros x Hx. rewrite H' by done. by apply H.
Qed.

Ltac field_tac :=
  match goal with
  | Hc : cell ?b ?i ?l ?n ?p |- _ =>
    pose proof (cell_bounds _ _ _ _ _ Hc) as Hb; destruct Hc as (Cl & Cn & Cp);
    unfold last_byte, next_hole, prev_hole, set_last_byte, set_next_hole, set_prev_hole in *;
    assert (0 <= hole_at i) by (apply rd16_bounds in Cl; lia)
  end.

Lemma set_last_spec b i l n p v :
  cell b i l n p -> 0 <= v < 65536 ->
  exists b', set_last_byte b i v = FOk b' /\ cell b' i v n p /\ one_cell i b b'.
Proof.
  intros Hc Hv. field_tac.
  destruct (wr16_ok b (hole_at i) v) as (b' & -> & R & S); [lia..|].
  exists b'. split; [done|]. split; [|eapply one_cell_weaken; [..|exact S]; lia].
  split; [done|]. unfold next_hole, prev_hole.
  split; rewrite (rd16_same _ _ _ _ _ S) by lia; done.
Qed.

Lemma set_next_spec b i l n p v :
  cell b i l n p -> 0 <= v < 65536 ->
  exists b', set_next_hole b i v = FOk b' /\ cell b' i l v p /\ one_cell i b b'.
Proof.
  intros Hc Hv. field_tac.
  destruct (wr16_ok b (hole_at i + 2) v) as (b' & -> & R & S); [lia..|].
  exists b'. split; [done|]. split; [|eapply one_cell_weaken; [..|exact S]; lia].
  unfold cell, last_byte, next_hole, prev_hole.
  split; [rewrite (rd16_same _ _ _ _ _ S) by lia; done|]. split; [done|].
  rewrite (rd16_same _ _ _ _ _ S) by lia; done.
Qed.

Lemma set_prev_spec b i l n p v :
  cell b i l n p -> 0 <= v < 65536 ->
  exists b', set_prev_hole b i v = FOk b' /\ cell b' i l n v /\ one_cell i b b'.
Proof.
  intros Hc Hv. field_tac.
  destruct (wr16_ok b (hole_at i + 4) v) as (b' & -> & R & S); [lia..|].
  exists b'. split; [done|]. split; [|eapply one_cell_weaken; [..|exact S]; lia].
  unfold cell, last_byte, next_hole, prev_hole.
  split; [rewrite (rd16_same _ _ _ _ _ S) by lia; done|]. split; [|done].
  rewrite (rd16_same _ _ _ _ _ S) by lia; done.
Qed.

Lemma copy_hole_spec b i j l n p :
  cell b i l n p -> 0 <= i -> 0 <= j ->
  hole_at i + 8 <= Z.of_nat (length b) -> hole_at j + 8 <= Z.of_nat (length b) ->
  exists b', copy_hole b j i = FOk b' /\ cell b' j l n p /\ one_cell j b b'.
Proof.
  intros Hc ? ? ? ?. unfold copy_hole.
  rewrite !(proj2 (Z.leb_le _ _)) by (unfold hole_at, IP_HDR_SIZE in *; lia).
  eexists. split; [done|].
  assert (length (slice b (hole_at i) (hole_at i + 8)) = 8%nat) as L.
  { rewrite slice_length_tot. unfold hole_at, IP_HDR_SIZE in *. lia. }
  assert (0 <= hole_at i /\ 0 <= hole_at j) as [? ?] by (unfold hole_at, IP_HDR_SIZE; lia).
  split.
  - destruct Hc as (Hl & Hn & Hp). unfold cell, last_byte, next_hole, prev_hole in *.
    assert (forall d, 0 <= d <= 6 ->
      rd16 (store b (hole_at j) (slice b (hole_at i) (hole_at i + 8))) (hole_at j + d)
      = rd16 b (hole_at i + d)) as E.
    { intros d Hd. rewrite !rd16_ok by (rewrite ?store_length; lia).
      rewrite !list_lookup_total_alt, !store_lookup by (rewrite ?L; lia). rewrite L.
      repeat (case_decide; try lia). rewrite !slice_lookup by lia.
      repeat (case_decide; try lia). repeat f_equal; lia. }
    pose proof (E 0 ltac:(lia)) as E0. rewrite !Z.add_0_r in E0.
    rewrite E0, !E by lia. done.
  - unfold one_cell. replace 8 with (Z.of_nat (length (slice b (hole_at i) (hole_at i + 8)))) at 1 by lia.
    apply same_out_store; lia.
Qed.

(** ** Lists of holes *)

Abbreviation hole := (Z * Z)%type.

Definition heads (nx : Z) (hs : list hole) : Z := match hs with [] => nx | h :: _ => h.1 end.
Definition tails (p : Z) (hs : list hole) : Z := match last hs with Some h => h.1 | None => p end.

(** The descriptors of [hs], linked in this order, with [p] before the first
    and [nx] after the last. *)
Fixpoint seg (b : list Z) (p : Z) (hs : list hole) (nx : Z) : Prop :=
  match hs with
  | [] => True
  | h :: r => cell b h.1 h.2 (heads nx r) p /\ seg b h.1 r nx
  end.

Lemma seg_app b p xs ys nx :
  seg b p (xs ++ ys) nx <-> seg b p xs (heads nx ys) /\ seg b (tails p xs) ys nx.
Proof.
  revert p. induction xs as [|h xs IH]; intros p; simpl.
  - unfold tails. simpl. tauto.
  - rewrite IH. assert (heads nx (xs ++ ys) = heads (heads nx ys) xs) as -> by (by destruct xs).
    assert (tails h.1 xs = tails p (h :: xs)) as ->.
    { unfold tails. rewrite last_cons. by destruct (last xs). }
    tauto.
Qed.

Lemma seg_frame i b b' p hs nx :
  one_cell i b b' -> i ∉ (hs.*1) -> seg b p hs nx -> seg b' p hs nx.
Proof.
  intros Ho. revert p. induction hs as [|h hs IH]; intros p Hi Hs; simpl in *; [done|].
  destruct Hs as [Hc Hs]. split; [|apply IH; set_solver].
  eapply cell_frame; [done| |done]. set_solver.
Qed.

(** Relink the first or the last descriptor of a list. *)
Lemma seg_set_prev b p h hs nx v :
  seg b p (h :: hs) nx -> h.1 ∉ (hs.*1) -> 0 <= v < 65536 ->
  exists b', set_prev_hole b h.1 v = FOk b' /\ seg b' v (h :: hs) nx /\ one_cell h.1 b b'.
Proof.
  intros [Hc Hs] Hn Hv. destruct (set_prev_spec _ _ _ _ _ v Hc Hv) as (b' & E & Hc' & Ho).
  exists b'. split; [done|]. split; [|done]. split; [done|]. by eapply seg_frame.
Qed.

Lemma seg_set_next b p hs h nx v :
  seg b p (hs ++ [h]) nx -> h.1 ∉ (hs.*1) -> 0 <= v < 65536 ->
  exists b', set_next_hole b h.1 v = FOk b' /\ seg b' p (hs ++ [h]) v /\ one_cell h.1 b b'.
Proof.
  rewrite seg_app. intros [Hs [Hc _]] Hn Hv.
  destruct (set_next_spec _ _ _ _ _ v Hc Hv) as (b' & E & Hc' & Ho).
  exists b'. split; [done|]. rewrite seg_app. split; [|done].
  split; [by eapply seg_frame|]. simpl in *. done.
Qed.

(** [b'] is [b] but for the descriptors of [hs]. *)
Definition cells_out (hs : list hole) (b b' : list Z) : Prop :=
  length b' = length b /\
  forall x : nat, (forall h, h ∈ hs -> Z.of_nat x < hole_at h.1 \/ hole_at h.1 + 8 <= Z.of_nat x) ->
                  b' !! x = b !! x.

Lemma cells_out_refl hs b : cells_out hs b b.
Proof. done. Qed.

Lemma cells_out_step hs h b b' b'' :
  cells_out hs b b' -> h ∈ hs -> one_cell h.1 b' b'' -> cells_out hs b b''.
Proof.
  intros [L H] Hh [L' H']. split; [congruence|]. intros x Hx. rewrite H' by auto. by apply H.
Qed.

(** Ascending and apart from each other, each with room for its descriptor
    in a buffer of [M] bytes.  A link 0 means no hole, so the hole with index
    0 has to be the only one. *)
Definition hole_ok (M : Z) (h : hole) : Prop :=
  0 <= h.1 /\ 8 * h.1 < h.2 < 65536 /\ hole_at h.1 + 8 <= M.

Definition apart (h h' : hole) : Prop := h.2 < 8 * h'.1.

Definition zero_ok (hs : list hole) : Prop := Forall (fun h => h.1 <> 0) hs \/ (length hs <= 1)%nat.

Definition holes_ok (M : Z) (hs : list hole) : Prop :=
  StronglySorted apart hs /\ Forall (hole_ok M) hs.

Lemma sorted_app_inv hs hs' :
  StronglySorted apart (hs ++ hs') ->
  StronglySorted apart hs /\ StronglySorted apart hs' /\
  forall h h', h ∈ hs -> h' ∈ hs' -> apart h h'.
Proof.
  induction hs as [|h hs IH]; simpl; intros H.
  - split; [constructor|]. split; [done|]. intros ? ? Hh. by apply elem_of_nil in Hh.
  - apply StronglySorted_inv in H as [H F]. destruct (IH H) as (S1 & S2 & S3).
    apply Forall_app in F as [F1 F2]. split; [by constructor|]. split; [done|].
    intros h1 h2 [->|H1]%elem_of_cons H2; [|by apply S3]. by apply (proj1 (Forall_forall _ _) F2).
Qed.

Lemma sorted_app hs hs' :
  StronglySorted apart hs -> StronglySorted apart hs' ->
  (forall h h', h ∈ hs -> h' ∈ hs' -> apart h h') -> StronglySorted apart (hs ++ hs').
Proof.
  induction hs as [|h hs IH]; simpl; intros S1 S2 S3; [done|].
  apply StronglySorted_inv in S1 as [S1 F]. constructor.
  - apply IH; [done..|]. intros ? ? ?. apply S3. by right.
  - apply Forall_app. split; [done|]. apply Forall_forall. intros h' ?. apply S3; [by left|done].
Qed.

Lemma holes_ok_app M hs hs' :
  holes_ok M (hs ++ hs') <->
  holes_ok M hs /\ holes_ok M hs' /\ forall h h', h ∈ hs -> h' ∈ hs' -> apart h h'.
Proof.
  unfold holes_ok. rewrite Forall_app. split.
  - intros [(? & ? & ?)%sorted_app_inv [? ?]]. naive_solver.
  - intros ((? & ?) & (? & ?) & ?). split; [by apply sorted_app|done].
Qed.

Lemma holes_ok_cons M h hs :
  holes_ok M (h :: hs) <-> hole_ok M h /\ holes_ok M hs /\ forall h', h' ∈ hs -> apart h h'.
Proof.
  unfold holes_ok. rewrite Forall_cons. split.
  - intros [[? F]%StronglySorted_inv [? ?]]. split; [done|]. split; [done|]. by apply Forall_forall.
  - intros (? & [? ?] & F). split; [|done]. constructor; [done|]. by apply Forall_forall.
Qed.

Lemma hole_ok_in M hs h : holes_ok M hs -> h ∈ hs -> hole_ok M h.
Proof. intros [_ F]. by apply Forall_forall. Qed.

(** Holes that are apart have different descriptors. *)
Lemma apart_idx M h hs :
  hole_ok M h -> (forall h', h' ∈ hs -> apart h h') -> h.1 ∉ (hs.*1).
Proof.
  intros Ho H (h' & E & Hh')%list_elem_of_fmap. specialize (H _ Hh').
  unfold apart, hole_ok in *. lia.
Qed.

Lemma apart_idx_r M h hs :
  holes_ok M hs -> (forall h', h' ∈ hs -> apart h' h) -> h.1 ∉ (hs.*1).
Proof.
  intros Ho H (h' & E & Hh')%list_elem_of_fmap. specialize (H _ Hh').
  pose proof (hole_ok_in _ _ _ Ho Hh'). unfold apart, hole_ok in *. lia.
Qed.

Lemma heads_zero M h hs :
  hole_ok M h -> holes_ok M hs -> (forall h', h' ∈ hs -> apart h h') ->
  (heads 0 hs =? 0) = bool_decide (hs = []).
Proof.
  intros Ho Hs Ha. destruct hs as [|h' hs]; [done|].
  specialize (Ha h' ltac:(by left)). unfold apart, hole_ok in *.
  rewrite bool_decide_eq_false_2 by done. apply Z.eqb_neq. simpl. lia.
Qed.

Lemma tails_zero hs h hs' :
  zero_ok (hs ++ h :: hs') -> (tails 0 hs =? 0) = bool_decide (hs = []).
Proof.
  intros Hz. destruct (list_last_dec hs) as [->|(l & x & ->)]; [done|].
  unfold tails. rewrite last_snoc, bool_decide_eq_false_2 by (by destruct l). apply Z.eqb_neq.
  destruct Hz as [Hz|Hz].
  - rewrite !Forall_app, Forall_singleton in Hz. tauto.
  - rewrite !length_app in Hz. simpl in Hz. lia.
Qed.

(** The list in memory: the descriptors linked up, starting at [first]. *)
Definition holes_in (b : list Z) (first : Z) (hs : list hole) : Prop :=
  seg b 0 hs 0 /\ (hs <> [] -> first = heads 0 hs).

(** Everything but the descriptors of [hs] is kept. *)
Definition keeps (hs : list hole) (b b' : list Z) : Prop :=
  cells_out hs b b' /\
  forall i l n p, i ∉ (hs.*1) -> cell b i l n p -> cell b' i l n p.

Lemma keeps_refl hs b : keeps hs b b.
Proof. by split. Qed.

Lemma keeps_one hs h b b' : h ∈ hs -> one_cell h.1 b b' -> keeps hs b b'.
Proof.
  intros Hh Ho. split; [by eapply cells_out_step; [apply cells_out_refl|..]|].
  intros i l n p Hi. eapply cell_frame; [done|]. intros ->. apply Hi. apply list_elem_of_fmap. eauto.
Qed.

Lemma keeps_trans hs b b' b'' : keeps hs b b' -> keeps hs b' b'' -> keeps hs b b''.
Proof.
  intros [[L H] K] [[L' H'] K']. split; [split; [congruence|]|auto].
  intros x Hx. rewrite H' by done. by apply H.
Qed.

Lemma keeps_sub hs hs' b b' : keeps hs b b' -> hs ⊆ hs' -> keeps hs' b b'.
Proof.
  intros [[L H] K] Hs. split; [split; [done|]|].
  - intros x Hx. apply H. auto.
  - intros i l n p Hi. apply K. intros (h & -> & Hh)%list_elem_of_fmap. apply Hi, list_elem_of_fmap. eauto.
Qed.

Lemma seg_keeps hs b b' p l nx :
  keeps hs b b' -> (forall i, i ∈ (l.*1) -> i ∉ (hs.*1)) -> seg b p l nx -> seg b' p l nx.
Proof.
  intros [_ K]. revert p. induction l as [|h l IH]; intros p Hi Hs; simpl in *; [done|].
  destruct Hs as [Hc Hs]. split; [apply K; [set_solver|done]|apply IH; set_solver].
Qed.

(** ** The updates *)

Section Updates.
Context (M : Z) (pre post : list hole) (h : hole).
Hypothesis (HM : M <= 65536) (Hok : holes_ok M (pre ++ h :: post)) (Hz : zero_ok (pre ++ h :: post)).

Lemma ok_split :
  holes_ok M pre /\ hole_ok M h /\ holes_ok M post /\
  (forall q, q ∈ pre -> apart q h) /\ (forall q, q ∈ post -> apart h q) /\
  (forall p q, p ∈ pre -> q ∈ post -> apart p q).
Proof using Hok.
  apply holes_ok_app in Hok as (A & (B & C & D)%holes_ok_cons & F).
  split; [done|]. split; [done|]. split; [done|].
  split; [intros; apply F; [done|by left]|]. split; [done|]. intros. apply F; [done|by right].
Qed.

Lemma idx_apart :
  (h.1 ∉ pre.*1) /\ (h.1 ∉ post.*1) /\ (forall i, i ∈ (pre.*1) -> i ∉ (post.*1)).
Proof using Hok.
  destruct ok_split as (? & ? & ? & ? & ? & A).
  split; [by eapply apart_idx_r|]. split; [by eapply apart_idx|].
  intros i (q & -> & Hq)%list_elem_of_fmap. apply (apart_idx M q post); [by apply (hole_ok_in M pre)|eauto].
Qed.

Lemma tails_bool : (tails 0 pre =? 0) = bool_decide (pre = []).
Proof using Hz. by eapply tails_zero. Qed.

Lemma heads_bool : (heads 0 post =? 0) = bool_decide (post = []).
Proof using Hok. destruct ok_split as (_ & ? & ? & _ & ? & _). by eapply heads_zero. Qed.

Lemma link_range q : hole_ok M q -> 0 <= q.1 < 65536.
Proof using HM. clear Hok Hz. unfold hole_ok, hole_at, IP_HDR_SIZE. lia. Qed.

Lemma heads_range : 0 <= heads 0 post < 65536.
Proof using Hok HM.
  destruct ok_split as (_ & _ & Hp & _). clear Hz Hok. destruct post as [|q l]; simpl; [lia|].
  apply holes_ok_cons in Hp as (Hq & _). by apply link_range.
Qed.

Lemma tails_range : 0 <= tails 0 pre < 65536.
Proof using Hok HM.
  destruct ok_split as (Hp & _). clear Hz Hok.
  destruct (list_last_dec pre) as [E|(l & x & E)]; rewrite E in *; [unfold tails; simpl; lia|].
  unfold tails. rewrite last_snoc. apply link_range. eapply hole_ok_in; [done|set_solver].
Qed.

(** Make the first hole after [h] point back to [v], or the last hole before
    it point on to [v]. *)
Lemma relink_next b1 p v :
  seg b1 p post 0 -> 0 <= v < 65536 ->
  exists b2, (if heads 0 post =? 0 then FOk b1 else set_prev_hole b1 (heads 0 post) v) = FOk b2 /\
    seg b2 v post 0 /\ keeps post b1 b2.
Proof using Hok.
  intros Hs Hv. rewrite heads_bool. destruct ok_split as (_ & _ & Hp & _). clear Hok Hz HM.
  destruct post as [|q post'].
  { rewrite bool_decide_eq_true_2 by done. exists b1. split; [done|]. split; [done|apply keeps_refl]. }
  rewrite bool_decide_eq_false_2 by done. simpl heads.
  apply holes_ok_cons in Hp as (Hq & _ & Ha).
  destruct (seg_set_prev _ _ _ _ _ v Hs) as (b2 & E & S2 & O2); [by eapply apart_idx|done|].
  exists b2. split; [done|]. split; [done|]. eapply keeps_one; [by left|done].
Qed.

Lemma relink_prev b1 nx v :
  seg b1 0 pre nx -> 0 <= v < 65536 ->
  exists b2, (if tails 0 pre =? 0 then FOk b1 else set_next_hole b1 (tails 0 pre) v) = FOk b2 /\
    seg b2 0 pre v /\ keeps pre b1 b2.
Proof using Hok Hz.
  intros Hs Hv. rewrite tails_bool. destruct ok_split as (Hp & _). clear Hok Hz HM.
  destruct (list_last_dec pre) as [E|(l & x & E)]; rewrite E in *.
  { rewrite bool_decide_eq_true_2 by done. exists b1. split; [done|]. split; [done|apply keeps_refl]. }
  rewrite bool_decide_eq_false_2 by (by destruct l). unfold tails. rewrite last_snoc.
  apply holes_ok_app in Hp as (Hl & _ & Ha).
  destruct (seg_set_next _ _ _ _ _ v Hs) as (b2 & E2 & S2 & O2).
  { eapply apart_idx_r; [done|]. intros. apply Ha; [done|by left]. }
  { done. }
  exists b2. split; [done|]. split; [done|]. eapply keeps_one; [|done]. set_solver.
Qed.
End Updates.

Section Ops.
Context (M : Z) (pre post : list hole) (h : hole) (b : list Z) (first : Z).
Hypothesis (HM : M <= 65536) (Hok : holes_ok M (pre ++ h :: post)) (Hz : zero_ok (pre ++ h :: post)).
Hypothesis (Lb : Z.of_nat (length b) = M) (Hin : holes_in b first (pre ++ h :: post)).

Lemma in_split :
  seg b 0 pre h.1 /\ cell b h.1 h.2 (heads 0 post) (tails 0 pre) /\ seg b h.1 post 0.
Proof using HM Hok Hz Lb Hin.
  destruct Hin as [Hs _]. rewrite seg_app in Hs. simpl in Hs. tauto.
Qed.

Lemma first_pre : pre <> [] -> first = heads 0 pre.
Proof using HM Hok Hz Lb Hin.
  destruct Hin as [_ Hf]. intros Hp. rewrite Hf by (by destruct pre). by destruct pre.
Qed.

(** The hole goes; [true] is returned when it was the last one. *)
Lemma remove_spec :
  exists b' first',
    remove_hole b first h.1 = FOk (b', first', bool_decide (pre ++ post = [])) /\
    holes_in b' first' (pre ++ post) /\ keeps (pre ++ post) b b'.
Proof using HM Hok Hz Lb Hin.
  destruct in_split as (Sp & Hc & Sn). destruct (idx_apart _ _ _ _ Hok) as (Ip & In & Ipn).
  destruct (relink_next M pre post h Hok b h.1 (tails 0 pre) Sn) as (b1 & E1 & S1 & K1);
    [by eapply tails_range|].
  assert (cell b1 h.1 h.2 (heads 0 post) (tails 0 pre)) as Hc1 by (by apply K1).
  assert (seg b1 0 pre h.1) as Sp1 by (by eapply seg_keeps).
  destruct (relink_prev M pre post h Hok Hz b1 h.1 (heads 0 post) Sp1) as (b2 & E2 & S2 & K2);
    [by eapply heads_range|].
  assert (keeps (pre ++ post) b b2) as K.
  { eapply keeps_trans; eapply keeps_sub; [exact K1| |exact K2|]; set_solver. }
  assert (seg b2 0 (pre ++ post) 0) as S.
  { apply seg_app. split; [done|]. eapply seg_keeps; [exact K2|naive_solver|done]. }
  destruct Hc as (_ & Cn & Cp). destruct Hc1 as (_ & Cn1 & Cp1).
  pose proof (tails_bool _ _ _ Hz) as Bp. pose proof (heads_bool _ _ _ _ Hok) as Bn.
  pose proof first_pre as Hf. unfold remove_hole. rewrite Cp. cbn [frag_bind]. rewrite Cn. cbn [frag_bind].
  destruct (decide (pre = [])) as [->|Np], (decide (post = [])) as [->|Nn].
  - exists b2, first. cbn in E1, E2. replace b2 with b by congruence. done.
  - rewrite (bool_decide_eq_true_2 (@nil hole = [])) in Bp by done.
    rewrite (bool_decide_eq_false_2 _ Nn) in Bn. rewrite Bp, Bn in *. cbn [andb] in *.
    replace (tails 0 []) with 0 in E1 by done. rewrite E1. simplify_eq. cbn [frag_bind].
    exists b2, (heads 0 post). rewrite bool_decide_eq_false_2 by done. done.
  - rewrite (bool_decide_eq_false_2 _ Np) in Bp. rewrite (bool_decide_eq_true_2 (@nil hole = [])) in Bn by done.
    rewrite Bp, Bn in *. cbn [andb heads] in *. rewrite app_nil_r in *. injection E1 as ->. rewrite E2. cbn [frag_bind].
    exists b2, first. rewrite bool_decide_eq_false_2 by done. done.
  - rewrite (bool_decide_eq_false_2 _ Np) in Bp. rewrite (bool_decide_eq_false_2 _ Nn) in Bn.
    rewrite Bp, Bn in *. cbn [andb]. rewrite E1. cbn [frag_bind]. rewrite Cn1. cbn [frag_bind].
    rewrite Cp1. cbn [frag_bind]. rewrite E2. cbn [frag_bind].
    exists b2, first. rewrite bool_decide_eq_false_2 by (by destruct pre). split; [done|].
    split; [|done]. split; [done|]. intros _. rewrite Hf by done. by destruct pre.
Qed.

(** The end of the hole is cut off. *)
Lemma shorten_spec v :
  0 <= v < 65536 ->
  exists b', set_last_byte b h.1 v = FOk b' /\
    holes_in b' first (pre ++ (h.1, v) :: post) /\ keeps (pre ++ (h.1, v) :: post) b b'.
Proof using HM Hok Hz Lb Hin.
  intros Hv. destruct in_split as (Sp & Hc & Sn). destruct (idx_apart _ _ _ _ Hok) as (Ip & In & Ipn).
  destruct (set_last_spec _ _ _ _ _ v Hc Hv) as (b' & E & Hc' & Ho).
  exists b'. split; [done|].
  split; [|eapply (keeps_one _ (h.1, v)); [set_solver|done]]. split.
  - apply seg_app. split; [by eapply seg_frame|]. split; [done|]. by eapply seg_frame.
  - destruct Hin as [_ Hf]. intros _. rewrite Hf by (by destruct pre). by destruct pre.
Qed.

(** The descriptor moves up to [j]. *)
Lemma move_spec j :
  holes_ok M (pre ++ (j, h.2) :: post) ->
  exists b' first',
    move_hole b first h.1 j = FOk (b', first', false) /\
    holes_in b' first' (pre ++ (j, h.2) :: post) /\ keeps (pre ++ (j, h.2) :: post) b b'.
Proof using HM Hok Hz Lb Hin.
  intros Hj. destruct in_split as (Sp & Hc & Sn).
  destruct (idx_apart _ _ _ _ Hok) as (Ip & In & Ipn).
  destruct (idx_apart _ _ _ _ Hj) as (Jp & Jn & _). simpl in Jp, Jn.
  assert (hole_ok M (j, h.2)) as Oj by (eapply hole_ok_in; [exact Hj|set_solver]).
  assert (hole_ok M h) as Oh by (eapply hole_ok_in; [exact Hok|set_solver]).
  assert (0 <= j < 65536) as Rj by (by apply (link_range M HM (j, h.2))).
  destruct (copy_hole_spec b h.1 j _ _ _ Hc) as (b1 & E1 & Hc1 & O1);
    [unfold hole_ok in *; simpl in *; lia..|].
  destruct (relink_next M pre post h Hok b1 h.1 j) as (b2 & E2 & S2 & K2);
    [by eapply seg_frame|done|].
  assert (cell b2 j h.2 (heads 0 post) (tails 0 pre)) as Hc2 by (by apply K2).
  assert (seg b2 0 pre h.1) as Sp2.
  { eapply seg_keeps; [done|naive_solver|]. by eapply seg_frame. }
  destruct (relink_prev M pre post h Hok Hz b2 h.1 j Sp2 Rj) as (b3 & E3 & S3 & K3).
  assert (keeps (pre ++ (j, h.2) :: post) b b3) as K.
  { eapply keeps_trans; [eapply (keeps_one _ (j, h.2)); [set_solver|exact O1]|].
    eapply keeps_trans; eapply keeps_sub; [exact K2| |exact K3|]; set_solver. }
  assert (seg b3 0 (pre ++ (j, h.2) :: post) 0) as S.
  { apply seg_app. split; [done|]. split; [by apply K3|].
    eapply seg_keeps; [exact K3|naive_solver|done]. }
  pose proof (tails_bool _ _ _ Hz) as Bp. pose proof first_pre as Hf.
  unfold move_hole. rewrite E1. cbn [frag_bind]. rewrite (proj1 (proj2 Hc1)). cbn [frag_bind].
  rewrite E2. cbn [frag_bind]. rewrite (proj2 (proj2 Hc2)). cbn [frag_bind].
  destruct (decide (pre = [])) as [->|Np].
  - exists b3, j. cbn in E3 |- *. simplify_eq. rewrite u16_small by lia. done.
  - rewrite (bool_decide_eq_false_2 _ Np) in Bp. rewrite Bp in *. rewrite E3. cbn [frag_bind].
    exists b3, first. split; [done|]. split; [|done]. split; [done|].
    intros _. rewrite Hf by done. by destruct pre.
Qed.

(** A second descriptor at [j], the old one ends at [v]. *)
Lemma split_spec j v :
  holes_ok M (pre ++ (h.1, v) :: (j, h.2) :: post) ->
  exists b',
    split_hole b first h.1 j v = FOk (b', first, false) /\
    holes_in b' first (pre ++ (h.1, v) :: (j, h.2) :: post) /\
    keeps (pre ++ (h.1, v) :: (j, h.2) :: post) b b'.
Proof using HM Hok Hz Lb Hin.
  intros Hj. destruct in_split as (Sp & Hc & Sn).
  destruct (idx_apart _ _ _ _ Hok) as (Ip & In & Ipn).
  destruct (ok_split _ _ _ _ Hj) as (_ & _ & Hj2 & _ & Aj & Apj).
  assert (hole_ok M (j, h.2)) as Oj by (eapply hole_ok_in; [exact Hj|set_solver]).
  assert (hole_ok M (h.1, v)) as Ov by (eapply hole_ok_in; [exact Hj|set_solver]).
  assert (hole_ok M h) as Oh by (eapply hole_ok_in; [exact Hok|set_solver]).
  assert (0 <= j < 65536) as Rj by (by apply (link_range M HM (j, h.2))).
  assert (0 <= h.1 < 65536) as Rh by (by apply (link_range M HM h)).
  assert (h.1 <> j) as Nj.
  { specialize (Aj (j, h.2) ltac:(by left)). unfold apart, hole_ok in *. simpl in *. lia. }
  destruct (idx_apart M (pre ++ [(h.1, v)]) post (j, h.2)) as (Jp & Jn & _).
  { by rewrite <- (assoc_L (++)). }
  simpl in Jp, Jn. rewrite fmap_app, not_elem_of_app in Jp. destruct Jp as [Jp _].
  destruct (copy_hole_spec b h.1 j _ _ _ Hc) as (b1 & E1 & J1 & O1);
    [unfold hole_ok in *; simpl in *; lia..|].
  assert (cell b1 h.1 h.2 (heads 0 post) (tails 0 pre)) as H1 by (by eapply cell_frame).
  destruct (set_last_spec _ _ _ _ _ v H1) as (b2 & E2 & H2 & O2); [unfold hole_ok in *; simpl in *; lia|].
  destruct (set_next_spec _ _ _ _ _ j H2) as (b3 & E3 & H3 & O3); [done|].
  assert (keeps [(h.1, v)] b1 b3) as K13.
  { eapply keeps_trans; (eapply (keeps_one _ (h.1, v)); [by left|]); [exact O2|exact O3]. }
  assert (cell b3 j h.2 (heads 0 post) (tails 0 pre)) as J3 by (apply K13; [set_solver|done]).
  destruct (set_prev_spec _ _ _ _ _ h.1 J3) as (b4 & E4 & J4 & O4); [done|].
  assert (keeps [(h.1, v); (j, h.2)] b b4) as K4.
  { eapply keeps_trans; [eapply (keeps_one _ (j, h.2)); [set_solver|exact O1]|].
    eapply keeps_trans; [eapply keeps_sub; [exact K13|set_solver]|].
    eapply (keeps_one _ (j, h.2)); [set_solver|done]. }
  assert (forall i, i ∈ post.*1 -> i ∉ [(h.1, v); (j, h.2)].*1) as Nn by set_solver.
  assert (forall i, i ∈ pre.*1 -> i ∉ [(h.1, v); (j, h.2)].*1) as Np by set_solver.
  destruct (relink_next M pre post h Hok b4 h.1 j) as (b5 & E5 & S5 & K5);
    [by eapply seg_keeps|done|].
  exists b5. unfold split_hole.
  rewrite E1. cbn [frag_bind]. rewrite E2. cbn [frag_bind]. rewrite E3. cbn [frag_bind].
  rewrite E4. cbn [frag_bind]. rewrite (proj1 (proj2 J4)). cbn [frag_bind].
  rewrite E5. cbn [frag_bind]. split; [done|]. split.
  - split; [|destruct Hin as [_ Hf]; intros _; rewrite Hf by (by destruct pre); by destruct pre].
    apply seg_app. split.
    { eapply seg_keeps; [exact K5|naive_solver|]. by eapply seg_keeps. }
    split; [|split].
    + apply K5; [done|]. eapply cell_frame; [done|done|]. exact H3.
    + apply K5; [done|]. exact J4.
    + exact S5.
  - eapply keeps_trans; eapply keeps_sub; [exact K4| |exact K5|]; set_solver.
Qed.
End Ops.

(** The walk finds the first hole that does not end before [start]. *)
Lemma find_hole_spec b start : forall hs p pre h,
  seg b p (pre ++ h :: hs) 0 ->
  Forall (fun q => q.2 < start) pre -> 
  Forall (fun q => q.1 <> 0) (tail (pre ++ h :: hs)) ->
  forall fuel, (length pre < fuel)%nat -> start <= h.2 ->
  find_hole fuel b start (heads 0 (pre ++ h :: hs)) = FOk (Some h.1).
Proof.
  intros hs p pre. revert p. induction pre as [|q pre IH]; intros p h Hs Hp Hz fuel Hf Hh.
  - destruct fuel as [|fuel]; [simpl in Hf; lia|]. destruct Hs as [(Cl & _) _]. simpl.
    rewrite Cl. simpl. by rewrite (proj2 (Z.ltb_ge _ _)).
  - destruct fuel as [|fuel]; [simpl in Hf; lia|]. simpl in Hs. destruct Hs as [(Cl & Cn & _) Hs].
    apply Forall_cons in Hp as [Hq Hp]. simpl. rewrite Cl. simpl.
    rewrite (proj2 (Z.ltb_lt _ _)), Cn by done. cbn [frag_bind]. simpl in Hz.
    assert (heads 0 (pre ++ h :: hs) <> 0) as Nz.
    { destruct pre; simpl in *; apply Forall_cons in Hz; tauto. }
    rewrite (proj2 (Z.eqb_neq _ _)) by done. eapply IH; [done|done| |simpl in Hf; lia|done].
    destruct pre; simpl in *; apply Forall_cons in Hz; tauto.
Qed.

Lemma find_hole_none b start : forall hs p,
  seg b p hs 0 -> hs <> [] -> Forall (fun q => q.2 < start) hs -> Forall (fun q => q.1 <> 0) (tail hs) ->
  forall fuel, (length hs <= fuel)%nat ->
  find_hole fuel b start (heads 0 hs) = FOk None.
Proof.
  induction hs as [|q hs IH]; intros p Hs Hne Hl Hz fuel Hf; [done|].
  destruct fuel as [|fuel]; [simpl in Hf; lia|]. simpl in Hs. destruct Hs as [(Cl & Cn & _) Hs].
  apply Forall_cons in Hl as [Hq Hl]. simpl. rewrite Cl. simpl.
  rewrite (proj2 (Z.ltb_lt _ _)), Cn by done. cbn [frag_bind]. simpl in Hz.
  destruct hs as [|r hs]; [done|]. apply Forall_cons in Hz as [Hr Hz]. simpl heads.
  rewrite (proj2 (Z.eqb_neq _ _)) by done.
  apply (IH q.1); [done|done|done|done|simpl in *; lia].
Qed.

Lemma holes_length M hs : holes_ok M hs -> Z.of_nat (length hs) <= Z.max 0 M.
Proof.
  enough (forall k, 0 <= k -> Forall (fun h => k <= h.1) hs -> holes_ok M hs ->
            Z.of_nat (length hs) <= Z.max 0 (M - k)) as E.
  { intros H. specialize (E 0). rewrite Z.sub_0_r in E. apply E; [done| |done].
    apply Forall_forall. intros h Hh. by apply (hole_ok_in _ _ _ H). }
  induction hs as [|h hs IH]; intros k Hk Hf Ho; simpl; [lia|].
  apply holes_ok_cons in Ho as ((? & ? & ?) & Ho & Ha). apply Forall_cons in Hf as [? _].
  specialize (IH (h.1 + 1) ltac:(lia)). unfold hole_at, IP_HDR_SIZE in *.
  assert (Z.of_nat (length hs) <= Z.max 0 (M - (h.1 + 1))); [|lia].
  apply IH; [|done]. apply Forall_forall. intros h' Hh'. specialize (Ha _ Hh'). unfold apart in Ha. lia.
Qed.

(** What is left of the hole [h] when [8 * o .. e) is filled in. *)
Definition left_part (h : hole) (o : Z) : list hole := if h.1 <? o then [(h.1, 8 * o)] else [].
Definition right_part (h : hole) (e : Z) : list hole := if e <? h.2 then [(e / 8, h.2)] else [].

Lemma fix_spec M pre post h b first o len :
  M <= 65536 -> holes_ok M (pre ++ h :: post) -> zero_ok (pre ++ h :: post) ->
  Z.of_nat (length b) = M -> holes_in b first (pre ++ h :: post) ->
  h.1 <= o -> 0 < len -> 8 * o + len <= h.2 ->
  let hs := pre ++ left_part h o ++ right_part h (8 * o + len) ++ post in
  holes_ok M hs ->
  exists b' first',
    fix_holes b first h.1 o (8 * o) len = FOk (b', first', bool_decide (hs = [])) /\
    holes_in b' first' hs /\ keeps hs b b'.
Proof.
  intros HM Hok Hz Lb Hin Ho Hlen He hs Hs. unfold fix_holes.
  destruct (in_split _ _ _ _ _ _ HM Hok Hz Lb Hin) as (_ & (Cl & _) & _).
  rewrite Cl. cbn [frag_bind]. subst hs. unfold left_part, right_part in *.
  replace (o + len / 8) with ((8 * o + len) / 8) by (Z.div_mod_to_equations; lia).
  assert (hole_ok M h) as Oh by (eapply hole_ok_in; [exact Hok|set_solver]).
  destruct (Z.ltb_spec h.1 o), (Z.ltb_spec (8 * o + len) h.2); cbn [app] in *.
  - rewrite (proj2 (Z.leb_gt o h.1)), (proj2 (Z.leb_gt h.2 _)) by lia. cbn [andb].
    destruct (split_spec M pre post h b first HM Hok Hz Lb Hin _ _ Hs) as (b' & E & ? & ?).
    exists b', first. rewrite bool_decide_eq_false_2 by (by destruct pre). done.
  - rewrite (proj2 (Z.leb_gt o h.1)), (proj2 (Z.leb_le h.2 _)) by lia. cbn [andb].
    destruct (shorten_spec M pre post h b first HM Hok Hz Lb Hin (8 * o)) as (b' & E & ? & ?).
    { unfold hole_ok in Oh. lia. }
    rewrite E. cbn [frag_bind].
    exists b', first. rewrite bool_decide_eq_false_2 by (by destruct pre). done.
  - rewrite (proj2 (Z.leb_le o h.1)), (proj2 (Z.leb_gt h.2 _)) by lia. cbn [andb].
    destruct (move_spec M pre post h b first HM Hok Hz Lb Hin _ Hs) as (b' & first' & E & ? & ?).
    exists b', first'. rewrite bool_decide_eq_false_2 by (by destruct pre). done.
  - rewrite (proj2 (Z.leb_le o h.1)), (proj2 (Z.leb_le h.2 _)) by lia. cbn [andb].
    by apply (remove_spec M pre post h b first HM Hok Hz Lb Hin).
Qed.
