(* ===== verification/NetDefragProps.v ===== *)
(** Reassembly is exact: the fragments of a datagram, in any order that keeps
    the list of holes unambiguous and with any repetition, come out as the
    datagram when the last missing one arrives; and the situations in which
    the code fails, on concrete packets. *)

From stdpp Require Import sets fin_sets.
From S2P Require Import Prelude Bytes NetDefrag NetDefragRep.

(** ** The buffer *)

Section Data.
Context (D : list Z).

(** Position [x] of the payload is in none of the holes. *)
Definition outside (hs : list hole) (x : Z) : Prop :=
  forall h, h ∈ hs -> x < 8 * h.1 \/ h.2 <= x.

(** Everything that is not in a hole is the datagram's. *)
Definition data_ok (b : list Z) (hs : list hole) : Prop :=
  forall x : nat, (x < length D)%nat -> outside hs (Z.of_nat x) -> b !! (20 + x)%nat = D !! x.

Lemma data_ok_step b b' hs hs' lo hi :
  data_ok b hs -> cells_out hs' b b' -> (forall h, h ∈ hs' -> 8 * h.1 + 8 <= h.2) ->
  0 <= lo <= hi -> hi <= Z.of_nat (length D) -> 20 + Z.of_nat (length D) <= Z.of_nat (length b) ->
  (forall x, x < Z.of_nat (length D) -> outside hs' x -> outside hs x \/ lo <= x < hi) ->
  data_ok (store b' (20 + lo) (slice D lo hi)) hs'.
Proof.
  intros Hd [Lb Hc] Hw Hlo Hhi Hb Hx x Hn Ho.
  pose proof (slice_length D lo hi ltac:(lia) ltac:(lia) Hhi) as Ls.
  rewrite store_lookup by lia. rewrite Ls.
  assert (~ (lo <= Z.of_nat x < hi) -> b' !! (20 + x)%nat = D !! x) as Hout.
  { intros Nx. rewrite Hc.
    - apply Hd; [done|]. destruct (Hx (Z.of_nat x) ltac:(lia) Ho) as [|]; [done|lia].
    - intros h Hh. specialize (Ho h Hh). specialize (Hw h Hh). unfold hole_at, IP_HDR_SIZE. lia. }
  case_decide; [apply Hout; lia|]. case_decide; [|apply Hout; lia].
  rewrite slice_lookup by lia. case_decide; [f_equal; lia|lia].
Qed.

(** Data copied beside the descriptors leaves them alone. *)
Lemma cell_same_out lo hi b b' i l nx p :
  same_out lo hi b b' -> 0 <= i -> hole_at i + 8 <= lo \/ hi <= hole_at i ->
  cell b i l nx p -> cell b' i l nx p.
Proof.
  intros Hs Hi Hd (Cl & Cn & Cp). unfold cell, last_byte, next_hole, prev_hole in *.
  assert (0 <= hole_at i) by (unfold hole_at, IP_HDR_SIZE; lia).
  rewrite !(rd16_same _ _ _ _ _ Hs) by lia. done.
Qed.

Lemma seg_same_out lo hi b b' p hs nx :
  same_out lo hi b b' ->
  (forall h, h ∈ hs -> 0 <= h.1 /\ (hole_at h.1 + 8 <= lo \/ hi <= hole_at h.1)) ->
  seg b p hs nx -> seg b' p hs nx.
Proof.
  intros Hs. revert p. induction hs as [|h hs IH]; intros p Hd Hseg; simpl in *; [done|].
  destruct Hseg as [Hc Hseg]. destruct (Hd h ltac:(by left)) as [? ?].
  split; [by eapply cell_same_out|]. apply IH; [|done]. intros. apply Hd. by right.
Qed.

Lemma slice_same_out lo hi b b' a c :
  same_out lo hi b b' -> 0 <= a -> c <= lo -> slice b' a c = slice b a c.
Proof.
  intros [L H] Ha Hc. apply list_eq. intros i. rewrite !slice_lookup by done.
  case_decide; [|done]. apply H. lia.
Qed.

Lemma slice_cells_out hs b b' a c :
  cells_out hs b b' -> (forall h, h ∈ hs -> 0 <= h.1) -> 0 <= a -> c <= 20 ->
  slice b' a c = slice b a c.
Proof.
  intros [L H] Hh Ha Hc. apply list_eq. intros i. rewrite !slice_lookup by done.
  case_decide; [|done]. apply H. intros h ?%Hh. unfold hole_at, IP_HDR_SIZE. lia.
Qed.
End Data.

(** ** Fragments and holes *)

Section Tiles.
(** The datagram's payload is cut at [cut 0 .. cut n]. *)
Context (PKT : Z) (n : nat) (cut : nat -> Z).
Hypothesis (HM : PKT <= 65536) (cut0 : cut 0%nat = 0).
Hypothesis (cut_lt : forall k, (k < n)%nat -> cut k < cut (S k)).
Hypothesis (cut8 : forall k, (k < n)%nat -> cut k mod 8 = 0).
Hypothesis (cut_fit : forall k, (k < n)%nat -> cut k + 8 <= PKT - IP_HDR_SIZE).
Hypothesis (cut_end : cut n <= PKT - IP_HDR_SIZE).

Lemma cut_mono j k : (j <= k <= n)%nat -> cut j <= cut k.
Proof using All.
  intros [H ?]. induction H as [|k H IH]; [lia|]. pose proof (cut_lt k ltac:(lia)). lia.
Qed.

Lemma cut_mono_lt j k : (j < k <= n)%nat -> cut j < cut k.
Proof using All.
  intros [? ?]. pose proof (cut_lt j ltac:(lia)). pose proof (cut_mono (S j) k). lia.
Qed.

Lemma cut_le_inv j k : (j <= n)%nat -> (k <= n)%nat -> cut j <= cut k -> (j <= k)%nat.
Proof using All.
  intros ? ? Hc. destruct (decide (j <= k)%nat); [done|]. pose proof (cut_mono_lt k j). lia.
Qed.

Lemma cut_pos k : (k <= n)%nat -> 0 <= cut k.
Proof using All. intros. rewrite <- cut0. apply cut_mono. lia. Qed.

Lemma cut_div k : (k < n)%nat -> 8 * (cut k / 8) = cut k.
Proof using All. intros Hk. pose proof (cut8 k Hk). Z.div_mod_to_equations. lia. Qed.

(** A hole starts and ends at cuts; the last one is open until the last
    fragment tells where the datagram ends. *)
Definition runs (h : hole) : Prop :=
  exists j m, (j < m <= n)%nat /\ 8 * h.1 = cut j /\
    ((m < n)%nat /\ h.2 = cut m \/ m = n /\ h.2 = 65535).

(** The holes are what is missing when the fragments [R] have arrived. *)
Record tiles (R : list nat) (hs : list hole) : Prop := mkTiles {
  t_ok : holes_ok PKT hs;
  t_runs : forall h, h ∈ hs -> runs h;
  t_miss : forall k, (k < n)%nat -> k ∉ R ->
             exists h, h ∈ hs /\ 8 * h.1 <= cut k /\ cut (S k) <= h.2;
  t_have : forall k h, (k < n)%nat -> k ∈ R -> h ∈ hs -> h.2 <= cut k \/ cut (S k) <= 8 * h.1
}.

Lemma cut_le k : (k <= n)%nat -> cut k <= 65516.
Proof using All.
  intros Hk. pose proof (cut_mono k n). unfold IP_HDR_SIZE in *. lia.
Qed.

Lemma runs_wide h : runs h -> 8 * h.1 + 8 <= h.2.
Proof using All.
  intros (j & m & ? & E & [[? ->]|[-> ->]]); pose proof (cut_div j); pose proof (cut_le j).
  - pose proof (cut_mono_lt j m). pose proof (cut_div m). lia.
  - lia.
Qed.

(** All received: nothing is missing. *)
Lemma tiles_done R hs : tiles R hs -> (forall k, (k < n)%nat -> k ∈ R) -> hs = [].
Proof using All.
  intros T Hr. destruct hs as [|h hs]; [done|]. exfalso.
  destruct (t_runs _ _ T h ltac:(by left)) as (j & m & ? & E & Hm).
  pose proof (cut_lt j ltac:(lia)). pose proof (cut_le j).
  pose proof (cut_mono_lt j m).
  destruct (t_have _ _ T j h) as [?|?]; [lia|apply Hr; lia|by left| |lia].
  destruct Hm as [[? ?]|[? ?]]; lia.
Qed.

Lemma tiles_not_done R hs k : tiles R hs -> (k < n)%nat -> k ∉ R -> hs <> [].
Proof using All. intros T Hk Hr ->. destruct (t_miss _ _ T k Hk Hr) as (? & ?%elem_of_nil & _). done. Qed.

(** A fragment that has not arrived lies in the hole the walk finds. *)
Lemma tiles_found R pre h post k :
  tiles R (pre ++ h :: post) -> (k < n)%nat -> k ∉ R ->
  Forall (fun q => q.2 < cut k) pre -> cut k <= h.2 ->
  8 * h.1 <= cut k /\ cut (S k) <= h.2.
Proof using All.
  intros T Hk Hr Hp Hh. destruct (t_miss _ _ T k Hk Hr) as (q & Hq & ? & ?).
  pose proof (cut_lt k Hk). apply elem_of_app in Hq as [Hq|[->|Hq]%elem_of_cons]; [|lia|].
  - apply (proj1 (Forall_forall _ _) Hp) in Hq. simpl in Hq. lia.
  - destruct (ok_split _ _ _ _ (t_ok _ _ T)) as (_ & _ & _ & _ & A & _).
    specialize (A q Hq). unfold apart in A. lia.
Qed.

(** The end of the hole a fragment lies in. *)
Lemma tiles_last R hs h : tiles R hs -> h ∈ hs -> cut n <= h.2 -> h.2 = 65535.
Proof using All.
  intros T Hh Hn. destruct (t_runs _ _ T _ Hh) as (j & m & ? & _ & [[? E]|[_ ?]]); [|done].
  pose proof (cut_mono_lt m n). lia.
Qed.

Lemma tiles_zero R hs h : tiles R hs -> 0%nat ∈ R -> (0 < n)%nat -> h ∈ hs -> h.1 <> 0.
Proof using All.
  intros T H0 Hn Hh E. pose proof (runs_wide h (t_runs _ _ T h Hh)) as W.
  destruct (t_have _ _ T 0%nat h) as [?|?]; [done..| |].
  - lia.
  - pose proof (cut_lt 0%nat Hn). lia.
Qed.

(** The hole as the code sees it once the last fragment has told the length. *)
Definition trunc (h : hole) (k : nat) : hole := if decide (S k = n) then (h.1, cut n) else h.

Definition filled (h : hole) (k : nat) : list hole :=
  left_part (trunc h k) (cut k / 8) ++ right_part (trunc h k) (cut (S k)).

Lemma filled_in h k q :
  (k < n)%nat -> 8 * h.1 <= cut k ->
  q ∈ filled h k <->
  q = (h.1, cut k) /\ 8 * h.1 < cut k \/
  (S k < n)%nat /\ cut (S k) < h.2 /\ 8 * q.1 = cut (S k) /\ q.2 = h.2.
Proof using All.
  intros Hk Hh. unfold filled, left_part, right_part, trunc. rewrite elem_of_app.
  pose proof (cut_div k Hk) as Dk.
  assert ((if decide (S k = n) then (h.1, cut n) else h).1 = h.1) as -> by (by case_decide).
  rewrite Dk.
  assert (q ∈ (if h.1 <? cut k / 8 then [(h.1, cut k)] else []) <->
          q = (h.1, cut k) /\ 8 * h.1 < cut k) as ->.
  { destruct (Z.ltb_spec h.1 (cut k / 8)).
    - rewrite list_elem_of_singleton. intuition lia.
    - rewrite elem_of_nil. intuition lia. }
  case_decide as En; simpl.
  - rewrite <- En. rewrite Z.ltb_irrefl, elem_of_nil. intuition lia.
  - assert (S k < n)%nat as Sk by lia. pose proof (cut_div (S k) Sk) as Ds.
    destruct (Z.ltb_spec (cut (S k)) h.2).
    + rewrite list_elem_of_singleton. destruct q as [q1 q2]. simpl.
      assert ((q1, q2) = (cut (S k) / 8, h.2) <-> 8 * q1 = cut (S k) /\ q2 = h.2) as ->.
      { split; [intros [= -> ->]; lia|]. intros [? ->]. f_equal. lia. }
      intuition.
    + rewrite elem_of_nil. intuition lia.
Qed.

Lemma filled_ok h k :
  hole_ok PKT h -> (k < n)%nat -> 8 * h.1 <= cut k -> cut (S k) <= h.2 -> holes_ok PKT (filled h k).
Proof using All.
  intros (? & ? & ?) Hk Hh Ht. pose proof (cut_lt k Hk). pose proof (cut_pos k).
  assert (Forall (hole_ok PKT) (filled h k)) as F.
  { apply Forall_forall. intros q [[-> ?]|(? & ? & ? & ?)]%filled_in; [| |done|done].
    - unfold hole_ok. simpl. lia.
    - pose proof (cut_fit (S k)). unfold hole_ok, hole_at, IP_HDR_SIZE in *. lia. }
  split; [|done]. unfold filled. apply sorted_app.
  - unfold left_part. case_match; repeat constructor.
  - unfold right_part. case_match; repeat constructor.
  - intros q q' Hq Hq'.
    unfold apart. unfold left_part, right_part in *.
    repeat case_match; rewrite ?elem_of_nil, ?list_elem_of_singleton in *; [|done..]. subst. simpl in *.
    pose proof (cut_div k Hk). unfold trunc in *. case_decide as En; bprop; simpl in *; [rewrite En in *; lia|].
    pose proof (cut_div (S k)). lia.
Qed.

Lemma filled_between h k q :
  hole_ok PKT h -> (k < n)%nat -> 8 * h.1 <= cut k -> cut (S k) <= h.2 -> q ∈ filled h k ->
  h.1 <= q.1 /\ q.2 <= h.2 /\ (q.2 <= cut k \/ cut (S k) <= 8 * q.1).
Proof using All.
  intros (? & ? & ?) Hk Hh Ht Hq. pose proof (cut_lt k Hk).
  apply filled_in in Hq as [[-> ?]|(? & ? & ? & ?)]; simpl; [lia..|done|done].
Qed.

(** The fragment [k] fills its place in the hole [h]. *)
Lemma tiles_fill R pre h post k :
  tiles R (pre ++ h :: post) -> (k < n)%nat -> k ∉ R -> 8 * h.1 <= cut k -> cut (S k) <= h.2 ->
  tiles (k :: R) (pre ++ filled h k ++ post).
Proof using All.
  intros T Hk Hr Hh Ht. destruct (ok_split _ _ _ _ (t_ok _ _ T)) as (Op & Oh & On & Ap & An & Apn).
  pose proof (fun q => filled_between h k q Oh Hk Hh Ht) as Fb.
  pose proof (fun q => proj1 (filled_in h k q Hk Hh)) as Fi.
  assert (forall q, q ∈ pre ++ filled h k ++ post ->
            q ∈ filled h k \/ q ∈ pre ++ h :: post /\ q <> h) as Hsplit.
  { intros q Hq. rewrite !elem_of_app in Hq. rewrite elem_of_app, elem_of_cons.
    destruct Hq as [Hq|[Hq|Hq]]; [right|by left|right]; split; auto; intros ->.
    - specialize (Ap _ Hq). unfold apart, hole_ok in *. lia.
    - specialize (An _ Hq). unfold apart, hole_ok in *. lia. }
  split.
  - rewrite !holes_ok_app. split; [done|]. split; [split; [by apply filled_ok|split; [done|]]|].
    + intros q q' (? & ? & _)%Fb ?%An. unfold apart in *. lia.
    + intros q q' Hq [(? & ? & _)%Fb|Hq']%elem_of_app; [specialize (Ap _ Hq); unfold apart in *; lia|].
      by apply Apn.
  - intros q [Hq|[Hq _]]%Hsplit; [|by apply (t_runs _ _ T)].
    destruct (t_runs _ _ T h ltac:(set_solver)) as (j & m & Hjm & Ej & Em).
    apply Fi in Hq as [[-> ?]|(Sk & ? & E1 & E2)].
    + exists j, k. simpl. split; [|split; [done|left; lia]].
      pose proof (cut_mono k j). lia.
    + exists (S k), m. rewrite E1, E2. split; [|split; [done|done]]. split; [|lia].
      destruct Em as [[? Em]|[-> _]]; [|lia]. pose proof (cut_mono m (S k)). lia.
  - intros k' Hk' Hr'. destruct (t_miss _ _ T k' Hk') as (q & Hq & ? & ?); [set_solver|].
    assert (k <> k') as Nk by set_solver. pose proof (cut_lt k' Hk').
    destruct (decide (q = h)) as [->|Nq].
    + destruct (decide (k' < k)%nat) as [Lt|Ge].
      * exists (h.1, cut k). pose proof (cut_mono (S k') k).
        split; [|simpl; lia]. rewrite !elem_of_app. right. left. apply filled_in; [done..|].
        left. split; [done|lia].
      * assert (S k <= k')%nat as Gt by lia. pose proof (cut_mono (S k) k').
        assert (S k < n)%nat as Sk by lia.
        exists (cut (S k) / 8, h.2). pose proof (cut_div (S k) Sk).
        split; [|simpl; lia]. rewrite !elem_of_app. right. left. apply filled_in; [done..|].
        right. simpl. split; [done|]. split; [lia|]. split; [lia|done].
    + exists q. split; [|done]. rewrite !elem_of_app. rewrite elem_of_app, elem_of_cons in Hq. tauto.
  - intros k' q Hk' Hr' [Hq|[Hq Nq]]%Hsplit.
    + destruct (Fb _ Hq) as (? & ? & Hc).
      apply elem_of_cons in Hr' as [->|Hr']; [done|].
      destruct (t_have _ _ T k' h Hk' Hr' ltac:(set_solver)); lia.
    + apply elem_of_cons in Hr' as [->|Hr']; [|by apply (t_have _ _ T)].
      rewrite elem_of_app, elem_of_cons in Hq. destruct Hq as [Hq|[?|Hq]]; [|done|].
      * specialize (Ap _ Hq). unfold apart in Ap. lia.
      * specialize (An _ Hq). unfold apart in An. lia.
Qed.

(** A fragment that is there already changes nothing. *)
Lemma tiles_again R hs k : tiles R hs -> k ∈ R -> tiles (k :: R) hs.
Proof using All.
  intros [Ho Hr Hm Hh] Hk. split; [done|done| |].
  - intros k' Hk' Hn. apply Hm; [done|set_solver].
  - intros k' h Hk' Hn. apply Hh; [done|set_solver].
Qed.

(** ** One fragment *)

(** The datagram, its identification and the header that came first. *)
Context (D id hdr : list Z).
Hypothesis (cut_D : cut n = Z.of_nat (length D)) (cut_legal : cut n + IP_HDR_SIZE <= 65535).
Hypothesis (Hhdr : length hdr = 20%nat) (Hid : slice hdr 4 6 = id) (n2 : (2 <= n)%nat).

(** [p] is the fragment [k]. *)
Record frag_of (k : nat) (p : list Z) : Prop := mkFragOf {
  fo_hdr : (20 <= length p)%nat;
  fo_len : hdr_ip_len p = IP_HDR_SIZE + (cut (S k) - cut k);
  fo_id : hdr_ip_id p = id;
  fo_off : Z.land (hdr_ip_off p) IP_OFFS = cut k / 8;
  fo_more : (Z.land (hdr_ip_off p) IP_FLAGS_MFRAG =? 0) = bool_decide (S k = n);
  fo_data : slice p IP_HDR_SIZE (IP_HDR_SIZE + (cut (S k) - cut k)) = slice D (cut k) (cut (S k))
}.

Definition total_of (R : list nat) : Z := if decide (pred n ∈ R) then cut n else 65535.

(** The state when the fragments [R] have arrived and [hs] is missing. *)
Record frag_inv (R : list nat) (hs : list hole) (s : frag_state) : Prop := mkInv {
  i_len : Z.of_nat (length (pkt_buff s)) = PKT;
  i_total : total_len s = total_of R;
  i_hdr : slice (pkt_buff s) 0 20 = hdr;
  i_tiles : tiles R hs;
  i_zero : zero_ok hs;
  i_holes : holes_in (pkt_buff s) (first_hole s) hs;
  i_data : data_ok D (pkt_buff s) hs
}.

Definition truncate (s : frag_state) (h start len : Z) (more : bool) : frag_res (list Z * Z) :=
  if more then FOk (pkt_buff s, total_len s)
  else frag_bind (set_last_byte (pkt_buff s) h (start + len)) (fun b => FOk (b, u16 (start + len))).

Lemma total_cons R k : 
  total_of (k :: R) = if decide (S k = n) then cut n else total_of R.
Proof using All.
  unfold total_of. destruct (decide (S k = n)) as [<-|N].
  - rewrite decide_True; [done|]. simpl. by left.
  - apply decide_ext. rewrite elem_of_cons. intuition lia.
Qed.

(** The end of the last hole is cut to the length of the datagram. *)
Lemma truncate_spec R pre h post s k :
  frag_inv R (pre ++ h :: post) s -> (k < n)%nat ->
  8 * h.1 < cut (S k) -> (S k = n -> post = []) ->
  holes_ok PKT (pre ++ trunc h k :: post) /\
  exists b, truncate s h.1 (cut k) (cut (S k) - cut k) (negb (bool_decide (S k = n)))
              = FOk (b, total_of (k :: R)) /\
    holes_in b (first_hole s) (pre ++ trunc h k :: post) /\
    one_cell h.1 (pkt_buff s) b.
Proof using All.
  intros I Hk Hh Hp. pose proof (i_tiles _ _ _ I) as T. pose proof (t_ok _ _ T) as Hok.
  unfold truncate, trunc. rewrite total_cons. pose proof (cut_pos (S k)). pose proof (cut_le (S k)).
  destruct (decide (S k = n)) as [En|Nn].
  - rewrite bool_decide_eq_true_2 by done. cbn [negb]. rewrite (Hp En) in *.
    destruct (ok_split _ _ _ _ Hok) as (Op & Oh & _ & Ap & _ & _). split.
    { apply holes_ok_app. split; [done|]. split.
      - apply holes_ok_cons. split; [|split; [split; constructor|set_solver]].
        unfold hole_ok in *. simpl. rewrite <- En. lia.
      - intros q q' Hq ->%list_elem_of_singleton. specialize (Ap _ Hq). done. }
    destruct (shorten_spec PKT pre [] h (pkt_buff s) (first_hole s) HM Hok (i_zero _ _ _ I)
                (i_len _ _ _ I) (i_holes _ _ _ I) (cut n)) as (b & E & Hi & _); [rewrite <- En; lia|].
    destruct (in_split PKT pre [] h (pkt_buff s) (first_hole s) HM Hok (i_zero _ _ _ I)
                (i_len _ _ _ I) (i_holes _ _ _ I)) as (_ & Hc & _).
    destruct (set_last_spec _ _ _ _ _ (cut n) Hc) as (b' & E' & _ & Ho); [rewrite <- En; lia|].
    replace (cut k + (cut (S k) - cut k)) with (cut n) by (rewrite <- En; lia).
    assert (b' = b) as -> by congruence. rewrite E. cbn [frag_bind]. rewrite u16_small by (rewrite <- En; lia).
    exists b. done.
  - rewrite bool_decide_eq_false_2 by done. cbn [negb]. split; [done|].
    exists (pkt_buff s). rewrite (i_total _ _ _ I). split; [done|]. split; [apply I|]. done.
Qed.

Lemma trunc_fst h k : (trunc h k).1 = h.1.
Proof using All. unfold trunc. by case_decide. Qed.

Lemma zero_ok_trunc pre h post k :
  zero_ok (pre ++ h :: post) -> zero_ok (pre ++ trunc h k :: post).
Proof using All.
  intros [H|H]; [left|right].
  - rewrite Forall_app, Forall_cons in *. by rewrite trunc_fst.
  - rewrite length_app in *. done.
Qed.

(** The open hole is the last one. *)
Lemma open_last R pre h post : tiles R (pre ++ h :: post) -> cut n <= h.2 -> post = [].
Proof using All.
  intros T Hn. destruct (ok_split _ _ _ _ (t_ok _ _ T)) as (_ & _ & On & _ & An & _).
  pose proof (tiles_last _ _ h T ltac:(set_solver) Hn) as E.
  destruct post as [|q post]; [done|]. apply holes_ok_cons in On as ((? & ? & Hq) & _).
  specialize (An q ltac:(by left)). unfold apart, hole_at, IP_HDR_SIZE in *. lia.
Qed.

(** The data goes to its place, all of it or a part from its start. *)
Lemma slice_take (m : list Z) lo hi hi' :
  hi' <= hi -> slice m lo hi' = take (Z.to_nat (hi' - lo)) (slice m lo hi).
Proof using All. intros. unfold slice. rewrite take_take. f_equal. lia. Qed.

Lemma copy_data b2 k p e :
  Z.of_nat (length b2) = PKT -> (k < n)%nat -> frag_of k p -> cut k <= e <= cut (S k) ->
  copy_in b2 (hole_at (cut k / 8)) (slice p IP_HDR_SIZE (IP_HDR_SIZE + (e - cut k)))
    = FOk (store b2 (20 + cut k) (slice D (cut k) e)) /\
  same_out (20 + cut k) (20 + e) b2 (store b2 (20 + cut k) (slice D (cut k) e)).
Proof using All.
  intros L2 Hk F He. pose proof (cut_pos k). pose proof (cut_lt k Hk).
  pose proof (cut_mono (S k) n). unfold IP_HDR_SIZE in *.
  assert (slice p 20 (20 + (e - cut k)) = slice D (cut k) e) as ->.
  { rewrite (slice_take _ _ (20 + (cut (S k) - cut k))), (slice_take D _ (cut (S k))) by lia.
    unfold IP_HDR_SIZE in F. rewrite <- (fo_data _ _ F). f_equal. lia. }
  pose proof (slice_length D (cut k) e ltac:(lia) ltac:(lia) ltac:(lia)) as Ls.
  unfold copy_in, hole_at, IP_HDR_SIZE. rewrite cut_div, Ls by done.
  rewrite !(proj2 (Z.leb_le _ _)) by lia. split; [done|].
  replace (20 + e) with (20 + cut k + Z.of_nat (length (slice D (cut k) e))) by lia.
  apply same_out_store; lia.
Qed.

(** A write to the descriptor of a hole damages nothing that was received. *)
Lemma hole_write R hs hs' s h b1 :
  frag_inv R hs s -> h ∈ hs -> one_cell h.1 (pkt_buff s) b1 ->
  same_out 20 PKT (pkt_buff s) b1 /\ data_ok D b1 (hs ++ hs').
Proof using All.
  intros I Hh [L H]. pose proof (hole_ok_in _ _ _ (t_ok _ _ (i_tiles _ _ _ I)) Hh) as (? & _ & ?).
  pose proof (runs_wide _ (t_runs _ _ (i_tiles _ _ _ I) _ Hh)) as W. split.
  - split; [done|]. intros x Hx. apply H. unfold hole_at, IP_HDR_SIZE in *. lia.
  - intros x Hx Ho. rewrite H.
    + apply (i_data _ _ _ I); [done|]. intros q Hq. apply Ho, elem_of_app. by left.
    + specialize (Ho h ltac:(apply elem_of_app; by left)). unfold hole_at, IP_HDR_SIZE. lia.
Qed.

(** Writing data keeps the list and the rest of the buffer. *)
Lemma inv_after R R' hs hs' s b1 b2 first' k e :
  frag_inv R hs s -> (k < n)%nat -> tiles R' hs' -> zero_ok hs' -> cut k <= e <= cut (S k) ->
  cells_out hs' b1 b2 -> same_out 20 PKT (pkt_buff s) b1 ->
  data_ok D b1 (hs ++ hs') -> holes_in b2 first' hs' ->
  (forall h, h ∈ hs' -> h.2 <= cut k \/ e <= 8 * h.1) ->
  (forall x, x < cut n -> outside hs' x -> outside hs x \/ cut k <= x < e) ->
  frag_inv R' hs' (mkFrag (store b2 (20 + cut k) (slice D (cut k) e)) first' (total_of R')).
Proof using All.
  intros I Hk T' Z' He C S1 D1 Hin Ha Hx.
  pose proof (cut_pos k). pose proof (cut_lt k Hk). pose proof (cut_mono (S k) n).
  pose proof (i_len _ _ _ I) as Ls. unfold IP_HDR_SIZE in *.
  pose proof (slice_length D (cut k) e ltac:(lia) ltac:(lia) ltac:(lia)) as Lsl.
  destruct S1 as [L1 S1]. pose proof C as [L2 _].
  assert (same_out (20 + cut k) (20 + e) b2 (store b2 (20 + cut k) (slice D (cut k) e))) as So.
  { replace (20 + e) with (20 + cut k + Z.of_nat (length (slice D (cut k) e))) by lia.
    apply same_out_store; lia. }
  split; cbn [pkt_buff first_hole total_len]; [|done| |done|done| |].
  - destruct So as [-> _]. lia.
  - rewrite (slice_same_out _ _ _ _ _ _ So) by lia.
    rewrite (slice_cells_out hs' b1); [|done| |done|done].
    + rewrite <- (i_hdr _ _ _ I). apply list_eq. intros i. rewrite !slice_lookup by done.
      case_decide; [|done]. apply S1. lia.
    + intros h Hh. by apply (hole_ok_in _ _ _ (t_ok _ _ T')).
  - destruct Hin as [Hs Hf]. split; [|done]. eapply seg_same_out; [exact So| |done].
    intros h Hh. pose proof (hole_ok_in _ _ _ (t_ok _ _ T') Hh) as (? & _).
    pose proof (runs_wide _ (t_runs _ _ T' _ Hh)). specialize (Ha _ Hh).
    unfold hole_at, IP_HDR_SIZE. lia.
  - eapply data_ok_step with (hs := hs ++ hs'); [exact D1|exact C| |lia|lia|lia|].
    + intros h Hh. by apply runs_wide, (t_runs _ _ T').
    + intros x Hn Ho. destruct (Hx x ltac:(lia) Ho) as [Hx'|]; [left|by right].
      intros h [Hh|Hh]%elem_of_app; auto.
Qed.

(** What the call returns once the data is in place. *)
Definition finish (b : list Z) (first total : Z) (done : bool)
  : frag_res (frag_state * option (list Z * Z)) :=
  if negb done then FOk (mkFrag b first total, None)
  else
    frag_bind (copy_in b 2 [u16 (total + IP_HDR_SIZE) / 256; u16 (total + IP_HDR_SIZE) mod 256])
      (fun b => FOk (mkFrag b first total, Some (b, total + IP_HDR_SIZE))).

(** The steps of [frag_fill] put together. *)
Lemma fill_steps s ip h o start len more b1 total l b2 first' done b3 :
  h < o + (len + 7) / 8 ->
  truncate s h start len more = FOk (b1, total) ->
  last_byte b1 h = FOk l ->
  let len' := if l <? start + len then l - start else len in
  fix_holes b1 (first_hole s) h o start len' = FOk (b2, first', done) ->
  copy_in b2 (hole_at o) (slice ip IP_HDR_SIZE (IP_HDR_SIZE + len')) = FOk b3 ->
  frag_fill s ip h o start len more = finish b3 first' total done.
Proof using All.
  intros Hh Et El len' Ef Ec. unfold frag_fill. rewrite (proj2 (Z.leb_gt _ _)) by lia.
  fold (truncate s h start len more). rewrite Et. cbn [frag_bind]. rewrite El. cbn [frag_bind].
  fold len'. rewrite Ef. cbn [frag_bind]. rewrite Ec. done.
Qed.

(** A fragment that had not arrived yet. *)
Lemma fill_new R pre h post s k p :
  frag_inv R (pre ++ h :: post) s -> (k < n)%nat -> frag_of k p -> k ∉ R ->
  8 * h.1 <= cut k -> cut (S k) <= h.2 -> zero_ok (pre ++ filled h k ++ post) ->
  let hs' := pre ++ filled h k ++ post in
  exists b first',
    frag_inv (k :: R) hs' (mkFrag b first' (total_of (k :: R))) /\
    frag_fill s p h.1 (cut k / 8) (cut k) (cut (S k) - cut k) (negb (bool_decide (S k = n)))
      = finish b first' (total_of (k :: R)) (bool_decide (hs' = [])).
Proof using All.
  intros I Hk F Hr Hh Ht Hz' hs'. pose proof (cut_lt k Hk). pose proof (cut_pos k).
  pose proof (i_tiles _ _ _ I) as T. assert (h ∈ pre ++ h :: post) as Hin by set_solver.
  pose proof (tiles_fill _ _ _ _ _ T Hk Hr Hh Ht) as T'. fold hs' in T'.
  destruct (ok_split _ _ _ _ (t_ok _ _ T)) as (_ & Oh & _ & Ap & An & _).
  destruct (truncate_spec R pre h post s k I Hk) as (Hok1 & b1 & Et & Hi1 & Ho1); [lia| |].
  { intros En. eapply open_last; [exact T|]. by rewrite <- En. }
  destruct (hole_write _ _ hs' s h b1 I Hin Ho1) as [S1 D1].
  pose proof (zero_ok_trunc _ _ _ k (i_zero _ _ _ I)) as Hz1.
  assert (Z.of_nat (length b1) = PKT) as L1 by (destruct Ho1 as [-> _]; apply I).
  destruct (in_split _ _ _ _ _ _ HM Hok1 Hz1 L1 Hi1) as (_ & (El & _) & _). rewrite trunc_fst in El.
  assert (cut (S k) <= (trunc h k).2) as Ht'.
  { unfold trunc. case_decide as En; [rewrite <- En; simpl; lia|done]. }
  pose proof (cut_div k Hk) as Dk.
  destruct (fix_spec PKT pre post (trunc h k) b1 (first_hole s) (cut k / 8) (cut (S k) - cut k))
    as (b2 & first' & Ef & Hi2 & [C2 _]); rewrite ?trunc_fst, ?Dk, ?Zplus_minus; try done; [lia..| |].
  { rewrite (assoc_L (++) (left_part _ _)). apply T'. }
  rewrite trunc_fst, Dk, Zplus_minus in Ef. rewrite (assoc_L (++) (left_part _ _)) in Ef.
  rewrite Dk, Zplus_minus, (assoc_L (++) (left_part _ _)) in Hi2, C2.
  fold (filled h k) hs' in Ef, Hi2, C2.
  destruct (copy_data b2 k p (cut (S k))) as [Ec _]; [destruct C2; lia|done|done|lia|].
  exists (store b2 (20 + cut k) (slice D (cut k) (cut (S k)))), first'.
  split; [|eapply fill_steps; [|exact Et|exact El| |]].
  - eapply (inv_after R _ (pre ++ h :: post) _ s b1); try done; [lia| |].
    + intros q [Hq|[Hq|Hq]%elem_of_app]%elem_of_app.
      * specialize (Ap _ Hq). unfold apart in Ap. lia.
      * by eapply filled_between.
      * specialize (An _ Hq). unfold apart in An. lia.
    + intros x Hn Ho. destruct (decide (cut k <= x < cut (S k))); [by right|left].
      intros q [Hq|[->|Hq]%elem_of_cons]%elem_of_app; [apply Ho; set_solver| |apply Ho; set_solver].
      destruct (decide (x < cut k)) as [Lt|Ge].
      * destruct (decide (8 * h.1 < cut k)); [|lia].
        destruct (Ho (h.1, cut k)); [|simpl in *; lia..]. 
        unfold hs'. rewrite !elem_of_app. right. left. apply filled_in; [done..|]. by left.
      * destruct (decide (S k = n)) as [En|]; [rewrite En in *; lia|].
        destruct (decide (cut (S k) < h.2)); [|lia]. pose proof (cut_div (S k)).
        destruct (Ho (cut (S k) / 8, h.2)); [|simpl in *; lia..].
        unfold hs'. rewrite !elem_of_app. right. left. apply filled_in; [done..|]. right. simpl.
        split; [lia|]. split; [done|]. split; [lia|done].
  - Z.div_mod_to_equations. lia.
  - rewrite Zplus_minus, (proj2 (Z.ltb_ge _ _)) by lia. exact Ef.
  - rewrite Zplus_minus, (proj2 (Z.ltb_ge _ _)) by lia. exact Ec.
Qed.
(** A fragment that is there already, found next to the hole before it. *)
Lemma fill_again R pre h post s k p :
  frag_inv R (pre ++ h :: post) s -> (k < n)%nat -> frag_of k p -> k ∈ R -> h.2 = cut k ->
  exists b,
    frag_inv (k :: R) (pre ++ h :: post) (mkFrag b (first_hole s) (total_of (k :: R))) /\
    frag_fill s p h.1 (cut k / 8) (cut k) (cut (S k) - cut k) (negb (bool_decide (S k = n)))
      = FOk (mkFrag b (first_hole s) (total_of (k :: R)), None).
Proof using All.
  intros I Hk F Hr Eh. pose proof (cut_lt k Hk). pose proof (cut_pos k). pose proof (cut_le k).
  pose proof (i_tiles _ _ _ I) as T. assert (h ∈ pre ++ h :: post) as Hin by set_solver.
  destruct (ok_split _ _ _ _ (t_ok _ _ T)) as (_ & Oh & On & Ap & An & _).
  pose proof Oh as (? & ? & _). pose proof (cut_div k Hk) as Dk.
  destruct (truncate_spec R pre h post s k I Hk) as (Hok1 & b1 & Et & Hi1 & Ho1); [lia| |].
  { intros En. destruct post as [|q post']; [done|]. exfalso.
    destruct (t_runs _ _ T q ltac:(set_solver)) as (j & m & ? & Ej & _).
    specialize (An q ltac:(by left)). unfold apart in An.
    pose proof (cut_mono j k). lia. }
  destruct (hole_write _ _ (pre ++ h :: post) s h b1 I Hin Ho1) as [S1 D1].
  pose proof (zero_ok_trunc _ _ _ k (i_zero _ _ _ I)) as Hz1.
  assert (Z.of_nat (length b1) = PKT) as L1 by (destruct Ho1 as [-> _]; apply I).
  destruct (in_split _ _ _ _ _ _ HM Hok1 Hz1 L1 Hi1) as (_ & (El & _) & _). rewrite trunc_fst in El.
  destruct (shorten_spec _ _ _ _ _ _ HM Hok1 Hz1 L1 Hi1 (cut k)) as (b2 & Es & Hi2 & [C2 _]); [lia|].
  rewrite trunc_fst in Es, Hi2, C2. replace (h.1, cut k) with h in Hi2, C2 by (by destruct h; simpl in *; subst).
  set (e := (trunc h k).2).
  assert (cut k <= e <= cut (S k)) as He.
  { unfold e, trunc. case_decide as En; simpl; [rewrite <- En|]; lia. }
  assert ((if e <? cut k + (cut (S k) - cut k) then e - cut k else cut (S k) - cut k) = e - cut k) as Elen.
  { rewrite Zplus_minus. destruct (Z.ltb_spec e (cut (S k))); lia. }
  destruct (copy_data b2 k p e) as [Ec _]; [destruct C2; lia|done|done|done|].
  exists (store b2 (20 + cut k) (slice D (cut k) e)). split.
  - eapply (inv_after R _ (pre ++ h :: post) _ s b1); try done.
    + by apply tiles_again.
    + apply I.
    + intros q Hq. destruct (t_have _ _ T k q Hk Hr Hq); lia.
    + intros x _ Ho. by left.
  - transitivity (finish (store b2 (20 + cut k) (slice D (cut k) e)) (first_hole s) (total_of (k :: R)) false);
      [|done]. eapply fill_steps; [|exact Et|exact El| |].
    + Z.div_mod_to_equations. lia.
    + fold e. rewrite Elen. unfold fix_holes. rewrite El. cbn [frag_bind]. fold e.
      rewrite (proj2 (Z.leb_gt (cut k / 8) h.1)) by lia. cbn [andb].
      rewrite (proj2 (Z.leb_le e _)) by lia. rewrite Es. done.
    + fold e. rewrite Elen. exact Ec.
Qed.

(** The order of arrival the list of holes can represent: while the first
    fragment is missing, each new fragment is the first one itself or all
    those after it are there. *)
Definition in_turn (R : list nat) (k : nat) : Prop :=
  0%nat ∈ R \/ k = 0%nat \/ k ∈ R \/ forall k', (k < k' < n)%nat -> k' ∈ R.

Lemma in_turn_perm R R' k : R ≡ₚ R' -> in_turn R k -> in_turn R' k.
Proof using Type.
  intros P. unfold in_turn. rewrite P. intros [H|[H|[H|H]]]; auto. do 3 right.
  intros k' Hk'. rewrite <- P. auto.
Qed.

Lemma zero_ok_received R hs : tiles R hs -> 0%nat ∈ R -> zero_ok hs.
Proof using All.
  intros T H0. left. apply Forall_forall. intros h Hh. eapply tiles_zero; [exact T|done|lia|done].
Qed.

(** While the first fragment is missing there is one hole, at the front. *)
Lemma one_hole R pre h post :
  tiles R (pre ++ h :: post) -> zero_ok (pre ++ h :: post) -> 0%nat ∉ R ->
  pre = [] /\ post = [] /\ h.1 = 0.
Proof using All.
  intros T Hz H0. destruct (t_miss _ _ T 0%nat ltac:(lia) H0) as (q & Hq & Hq0 & _).
  pose proof (hole_ok_in _ _ _ (t_ok _ _ T) Hq) as (? & _).
  destruct Hz as [Hz|Hz].
  - apply (proj1 (Forall_forall _ _) Hz) in Hq. lia.
  - rewrite length_app in Hz. simpl in Hz. destruct pre, post; simpl in *; [|lia..].
    apply list_elem_of_singleton in Hq as ->. split; [done|]. split; [done|]. lia.
Qed.

Lemma in_turn_zero R pre h post k :
  tiles R (pre ++ h :: post) -> zero_ok (pre ++ h :: post) -> in_turn R k -> (k < n)%nat -> k ∉ R ->
  8 * h.1 <= cut k -> cut (S k) <= h.2 -> zero_ok (pre ++ filled h k ++ post).
Proof using All.
  intros T Hz Ht Hk Hr Hh Hl. pose proof (tiles_fill _ _ _ _ _ T Hk Hr Hh Hl) as T'.
  destruct (decide (0%nat ∈ k :: R)) as [H0|H0]; [by eapply zero_ok_received|].
  destruct Ht as [Ht|[->|[Ht|Ht]]]; [set_solver|set_solver|done|].
  destruct (one_hole _ _ _ _ T Hz) as (-> & -> & E); [set_solver|].
  right. rewrite app_nil_r. simpl. unfold filled. rewrite length_app.
  assert (right_part (trunc h k) (cut (S k)) = []) as ->.
  { unfold right_part, trunc. case_decide as En; simpl; [rewrite En, Z.ltb_irrefl; done|].
    destruct (Z.ltb_spec (cut (S k)) h.2) as [Lt|]; [|done]. exfalso.
    destruct (t_have _ _ T (S k) h ltac:(lia) ltac:(apply Ht; lia) ltac:(by left)).
    - lia.
    - pose proof (cut_pos (S (S k))). pose proof (cut_lt (S k) ltac:(lia)). pose proof (cut_pos (S k)). lia. }
  unfold left_part. case_match; simpl; lia.
Qed.

Lemma total_again R k : k ∈ R -> total_of (k :: R) = total_of R.
Proof using All.
  intros Hk. rewrite total_cons. case_decide as En; [|done]. unfold total_of.
  rewrite decide_True; [done|]. by rewrite <- En.
Qed.

(** The links of the holes after the first are not 0. *)
Lemma tail_nonzero R hs : tiles R hs -> Forall (fun q => q.1 <> 0) (tail hs).
Proof using All.
  intros T. destruct hs as [|h hs]; [constructor|]. pose proof (t_ok _ _ T) as Ho.
  apply holes_ok_cons in Ho as ((? & ? & _) & _ & Ha). apply Forall_forall. intros q Hq.
  specialize (Ha q Hq). unfold apart in Ha. lia.
Qed.

Lemma walk_enough R hs : tiles R hs -> (length hs < walk_fuel)%nat.
Proof using All.
  intros T. pose proof (holes_length _ _ (t_ok _ _ T)). unfold walk_fuel. lia.
Qed.

(** What the code checks before it looks for the hole. *)
Lemma guards_any s k p :
  (k < n)%nat -> frag_of k p ->
  __net_defragment PKT s p =
  frag_bind
    (if (total_len s =? 0) || negb (bool_decide (hdr_ip_id (pkt_buff s) = id))
     then frag_reset s p else FOk s) (fun s =>
  frag_bind (find_hole walk_fuel (pkt_buff s) (cut k) (first_hole s)) (fun found =>
    match found with
    | None => FOk (s, None)
    | Some h => frag_fill s p h (cut k / 8) (cut k) (cut (S k) - cut k) (negb (bool_decide (S k = n)))
    end)).
Proof using All.
  intros Hk F. unfold __net_defragment. pose proof (cut_lt k Hk). pose proof (cut_div k Hk) as Dk.
  pose proof (cut_pos k). pose proof (cut_mono (S k) n).
  rewrite (fo_len _ _ F), (fo_off _ _ F), (fo_more _ _ F), (fo_id _ _ F).
  unfold IP_MAXUDP, IP_HDR_SIZE in *. rewrite (proj2 (Z.leb_gt _ _)) by lia.
  replace (20 + (cut (S k) - cut k) - 20) with (cut (S k) - cut k) by lia.
  rewrite (Z.mul_comm _ 8), Dk.
  assert (negb (Z.land (cut (S k) - cut k) 7 =? 0) && negb (bool_decide (S k = n)) = false) as ->.
  { destruct (decide (S k = n)) as [|Nn]; [rewrite bool_decide_eq_true_2, andb_false_r by done; done|].
    change 7 with (Z.ones 3). rewrite Z.land_ones by done. change (2 ^ 3) with 8.
    pose proof (cut_div (S k)). replace ((cut (S k) - cut k) mod 8) with 0; [done|].
    Z.div_mod_to_equations. lia. }
  rewrite (proj2 (Z.ltb_ge _ _)) by lia. done.
Qed.

Lemma guards R hs s k p :
  frag_inv R hs s -> (k < n)%nat -> frag_of k p ->
  __net_defragment PKT s p =
  frag_bind (find_hole walk_fuel (pkt_buff s) (cut k) (first_hole s)) (fun found =>
    match found with
    | None => FOk (s, None)
    | Some h => frag_fill s p h (cut k / 8) (cut k) (cut (S k) - cut k) (negb (bool_decide (S k = n)))
    end).
Proof using All.
  intros I Hk F. rewrite (guards_any s k p Hk F).
  assert ((total_len s =? 0) = false) as ->.
  { apply Z.eqb_neq. rewrite (i_total _ _ _ I). unfold total_of.
    pose proof (cut_mono_lt 0 n). case_decide; lia. }
  assert (hdr_ip_id (pkt_buff s) = id) as ->.
  { unfold hdr_ip_id. rewrite <- Hid, <- (i_hdr _ _ _ I). pose proof (i_len _ _ _ I).
    slice_ext. }
  rewrite bool_decide_eq_true_2 by done. done.
Qed.

(** One call, while something is missing. *)
Lemma frag_step R hs s k p :
  frag_inv R hs s -> hs <> [] -> (k < n)%nat -> frag_of k p -> in_turn R k ->
  exists b first' hs',
    frag_inv (k :: R) hs' (mkFrag b first' (total_of (k :: R))) /\
    __net_defragment PKT s p = finish b first' (total_of (k :: R)) (bool_decide (hs' = [])).
Proof using All.
  intros I Hne Hk F Hturn. pose proof (i_tiles _ _ _ I) as T.
  pose proof (i_holes _ _ _ I) as [Hs Hf]. specialize (Hf Hne).
  pose proof (tail_nonzero _ _ T) as Htl. pose proof (walk_enough _ _ T) as Hw.
  assert (k ∈ R -> exists b first' hs', frag_inv (k :: R) hs' (mkFrag b first' (total_of (k :: R))) /\
    FOk (s, None) = finish b first' (total_of (k :: R)) (bool_decide (hs' = []))) as Hsame.
  { intros Hr. exists (pkt_buff s), (first_hole s), hs. rewrite bool_decide_eq_false_2 by done.
    rewrite total_again by done. rewrite <- (i_total _ _ _ I). destruct I, s. split; [|done].
    split; try done; [by rewrite total_again|by apply tiles_again]. }
  rewrite (guards _ _ _ _ _ I Hk F), Hf.
  destruct (first_fail (fun q : hole => q.2 < cut k) hs) as [Hall|(pre & h & post & -> & Hpre & Hh)].
  - rewrite (find_hole_none _ _ _ 0) by (done || lia). cbn [frag_bind]. apply Hsame.
    destruct (decide (k ∈ R)) as [|Hr]; [done|]. exfalso.
    destruct (t_miss _ _ T k Hk Hr) as (q & Hq & _ & ?). pose proof (cut_lt k Hk).
    apply (proj1 (Forall_forall _ _) Hall) in Hq. simpl in Hq. lia.
  - rewrite (find_hole_spec _ _ _ 0); [|done|done|done|rewrite length_app in Hw; lia|lia].
    cbn [frag_bind]. destruct (decide (k ∈ R)) as [Hr|Hr].
    + destruct (t_have _ _ T k h Hk Hr ltac:(set_solver)) as [Hl|Hl].
      * destruct (fill_again _ _ _ _ _ _ _ I Hk F Hr ltac:(lia)) as (b & I' & E).
        exists b, (first_hole s), (pre ++ h :: post). split; [done|].
        rewrite (bool_decide_eq_false_2 _ Hne). exact E.
      * unfold frag_fill. rewrite (proj2 (Z.leb_le _ _)); [by apply Hsame|].
        pose proof (cut_div k Hk). Z.div_mod_to_equations. lia.
    + destruct (tiles_found _ _ _ _ _ T Hk Hr Hpre ltac:(lia)) as [? ?].
      destruct (fill_new _ _ _ _ _ _ _ I Hk F Hr) as (b & first' & I' & E); [done|done| |eauto].
      eapply in_turn_zero; eauto. apply I.
Qed.

(** The first fragment of a datagram: everything is one open hole. *)
Lemma tiles_none : tiles [] [(0, 65535)].
Proof using All.
  pose proof (cut_fit 0%nat ltac:(lia)). unfold IP_HDR_SIZE in *. split.
  - apply holes_ok_cons. split; [unfold hole_ok, hole_at, IP_HDR_SIZE; simpl; lia|].
    split; [split; constructor|]. set_solver.
  - intros h ->%list_elem_of_singleton. exists 0%nat, n. simpl. split; [lia|]. split; [lia|].
    by right.
  - intros k Hk _. exists (0, 65535). pose proof (cut_pos k). pose proof (cut_le (S k)).
    split; [by left|]. simpl. lia.
  - intros k h _ ?%elem_of_nil. done.
Qed.

Lemma reset_spec s p :
  Z.of_nat (length (pkt_buff s)) = PKT -> (20 <= length p)%nat -> slice p 0 20 = hdr ->
  exists s', frag_reset s p = FOk s' /\ frag_inv [] [(0, 65535)] s'.
Proof using All.
  intros Ls Lp Hp. pose proof (cut_fit 0%nat ltac:(lia)). unfold IP_HDR_SIZE in *.
  assert (exists l nx pr, cell (pkt_buff s) 0 l nx pr) as (l & nx & pr & C0).
  { unfold cell, last_byte, next_hole, prev_hole, hole_at, IP_HDR_SIZE.
    rewrite !rd16_ok by lia. by eexists _, _, _. }
  destruct (set_last_spec _ _ _ _ _ 65535 C0) as (b1 & E1 & C1 & O1); [lia|].
  destruct (set_next_spec _ _ _ _ _ 0 C1) as (b2 & E2 & C2 & O2); [lia|].
  destruct (set_prev_spec _ _ _ _ _ 0 C2) as (b3 & E3 & C3 & O3); [lia|].
  pose proof (one_cell_trans _ _ _ _ (one_cell_trans _ _ _ _ O1 O2) O3) as [L3 _].
  unfold frag_reset. rewrite E1. cbn [frag_bind]. rewrite E2. cbn [frag_bind].
  rewrite E3. cbn [frag_bind]. unfold copy_in. unfold IP_HDR_SIZE. rewrite Hp, Hhdr.
  rewrite !(proj2 (Z.leb_le _ _)) by lia. cbn [andb frag_bind]. eexists. split; [done|].
  assert (same_out 0 20 b3 (store b3 0 hdr)) as So.
  { change 20 with (0 + Z.of_nat 20). rewrite <- Hhdr at 1. apply same_out_store; lia. }
  split; cbn [pkt_buff first_hole total_len].
  - destruct So as [-> _]. lia.
  - done.
  - assert (Z.of_nat (length hdr) = 20) as Lh by lia. rewrite <- Lh. change (Z.of_nat (length hdr)) with (0 + Z.of_nat (length hdr)).
    apply slice_store_same; lia.
  - apply tiles_none.
  - by right.
  - split; [|done]. split; [|done]. eapply cell_same_out; [exact So|done| |exact C3].
    unfold hole_at, IP_HDR_SIZE. simpl. lia.
  - intros x Hx Ho. pose proof (cut_le n).
    destruct (Ho (0, 65535) ltac:(by left)); simpl in *; lia.
Qed.

Lemma frag_fresh s k p :
  Z.of_nat (length (pkt_buff s)) = PKT -> total_len s = 0 \/ hdr_ip_id (pkt_buff s) <> id ->
  (k < n)%nat -> frag_of k p -> slice p 0 20 = hdr ->
  exists s', frag_inv [] [(0, 65535)] s' /\ __net_defragment PKT s p = __net_defragment PKT s' p.
Proof using All.
  intros Ls Hs Hk F Hp. destruct (reset_spec s p Ls (fo_hdr _ _ F) Hp) as (s' & E & I).
  exists s'. split; [done|]. rewrite (guards _ _ _ _ _ I Hk F), (guards_any s k p Hk F).
  assert ((total_len s =? 0) || negb (bool_decide (hdr_ip_id (pkt_buff s) = id)) = true) as ->.
  { destruct Hs as [->|Hs]; [done|]. rewrite bool_decide_eq_false_2 by done. apply orb_true_r. }
  rewrite E. done.
Qed.

(** The datagram as it is handed on: the header that came first with the
    length of the whole, then the payload. *)
Definition reassembled : list Z :=
  let len := IP_HDR_SIZE + Z.of_nat (length D) in
  store hdr 2 [len / 256; len mod 256] ++ D.

Lemma finish_done R b first total :
  frag_inv R [] (mkFrag b first total) ->
  exists s' b', finish b first total true = FOk (s', Some (b', IP_HDR_SIZE + Z.of_nat (length D))) /\
    slice b' 0 (IP_HDR_SIZE + Z.of_nat (length D)) = reassembled.
Proof using All.
  intros I. assert (total = cut n) as ->.
  { pose proof (i_total _ _ _ I) as E. cbn in E. rewrite E. unfold total_of.
    destruct (decide (pred n ∈ R)) as [|N]; [done|].
    by destruct (tiles_not_done _ _ (pred n) (i_tiles _ _ _ I) ltac:(lia) N). }
  unfold finish, copy_in. cbn [negb].
  pose proof (i_len _ _ _ I) as L. pose proof (i_hdr _ _ _ I) as H.
  pose proof (i_data _ _ _ I) as Hd. cbn [pkt_buff] in *. unfold IP_HDR_SIZE in *.
  rewrite cut_D in *. rewrite (Z.add_comm (Z.of_nat (length D)) 20). rewrite u16_small by lia. simpl length.
  rewrite !(proj2 (Z.leb_le _ _)) by lia. cbn [andb frag_bind].
  eexists _, _. split; [done|]. unfold reassembled, IP_HDR_SIZE. rewrite <- H.
  apply list_eq. intros i. rewrite slice_lookup, store_lookup by (simpl; lia). simpl length.
  rewrite lookup_app_if, store_lookup_tot, store_length_tot, slice_length_tot. cbv zeta. simpl length.
  repeat (case_decide; try lia); try done.
  - rewrite slice_lookup by lia. case_decide; [done|lia].
  - f_equal. lia.
  - rewrite slice_lookup by lia. case_decide; [f_equal; lia|lia].
  - replace (Z.to_nat 0 + i)%nat with (20 + (i - 20))%nat by lia. rewrite Hd.
    + f_equal. lia.
    + lia.
    + intros h ?%elem_of_nil. done.
  - symmetry. apply lookup_ge_None. lia.
Qed.

Lemma frag_not_whole s k p len :
  (k < n)%nat -> frag_of k p -> net_defragment PKT s p len = __net_defragment PKT s p.
Proof using All.
  intros Hk F. unfold net_defragment. rewrite (proj2 (Z.eqb_neq _ _)); [done|].
  rewrite Z.land_lor_distr_r, (fo_off _ _ F). intros E%Z.lor_eq_0_iff. destruct E as [E1 E2].
  pose proof (fo_more _ _ F) as Em. rewrite E2 in Em. symmetry in Em. apply bool_decide_eq_true in Em.
  pose proof (cut_div k Hk). pose proof (cut_mono_lt 0 k). lia.
Qed.

(** A run of calls that ends when nothing is missing any more. *)
Lemma frag_run ks k : forall R hs s ps,
  frag_inv R hs s -> (exists j, (j < n)%nat /\ j ∉ ks ++ R) -> (forall j, (j < n)%nat -> j ∈ k :: ks ++ R) ->
  Forall2 frag_of (ks ++ [k]) ps -> Forall (fun j => (j < n)%nat) (ks ++ [k]) ->
  (forall pre j post, ks ++ [k] = pre ++ j :: post -> in_turn (pre ++ R) j) ->
  exists s', defragment_all PKT s ps = FOk (s', replicate (length ks) None ++ [Some reassembled]).
Proof using All.
  induction ks as [|j ks IH]; intros R hs s ps I (m & Hm & Nm) Hall Hps Hlt Hturn.
  - simpl app in *. apply Forall2_cons_inv_l in Hps as (p & ps' & F & Hnil & ->).
    apply Forall2_nil_inv_l in Hnil as ->. assert (k < n)%nat as Hk by (by inversion Hlt).
    assert (hs <> []) as Hne by (eapply tiles_not_done; [apply I|exact Hm|done]).
    destruct (frag_step _ _ _ _ _ I Hne Hk F (Hturn [] k [] eq_refl)) as (b & first' & hs' & I' & E).
    assert (hs' = []) as -> by (eapply tiles_done; [apply I'|exact Hall]).
    rewrite bool_decide_eq_true_2 in E by done.
    destruct (finish_done _ _ _ _ I') as (s' & b' & E' & Hb).
    simpl. rewrite (frag_not_whole _ _ _ _ Hk F), E, E'. simpl. rewrite Hb. eauto.
  - rewrite <- !app_comm_cons in *. apply Forall2_cons_inv_l in Hps as (p & ps' & F & Hps & ->).
    apply Forall_cons in Hlt as [Hj Hlt].
    assert (hs <> []) as Hne by (eapply tiles_not_done; [apply I|exact Hm|set_solver]).
    destruct (frag_step _ _ _ _ _ I Hne Hj F (Hturn [] j _ eq_refl)) as (b & first' & hs' & I' & E).
    assert (hs' <> []) as Hne' by (eapply tiles_not_done; [apply I'|exact Hm|set_solver]).
    rewrite bool_decide_eq_false_2 in E by done. cbn [finish negb] in E.
    destruct (IH (j :: R) hs' _ ps' I') as (s' & Es).
    + exists m. set_solver.
    + intros i Hi. specialize (Hall i Hi). set_solver.
    + done.
    + done.
    + intros pre i post Ei. specialize (Hturn (j :: pre) i post). rewrite Ei in Hturn.
      eapply in_turn_perm; [|by apply Hturn]. by rewrite <- Permutation_middle.
    + simpl defragment_all. rewrite (frag_not_whole _ _ _ _ Hj F), E. cbn [frag_bind finish negb]. rewrite Es. simpl. eauto.
Qed.

End Tiles.

(** ** Reassembly *)

(** A datagram with payload [D], cut into [n] fragments: every cut but the
    last is at a multiple of eight, and with room for a descriptor behind it
    in the buffer. *)
Record cuts_ok (PKT : Z) (n : nat) (cut : nat -> Z) (D : list Z) : Prop := mkCuts {
  c_size : PKT <= 65536;
  c_zero : cut 0%nat = 0;
  c_lt : forall k, (k < n)%nat -> cut k < cut (S k);
  c_mod : forall k, (k < n)%nat -> cut k mod 8 = 0;
  c_fit : forall k, (k < n)%nat -> cut k + 8 <= PKT - IP_HDR_SIZE;
  c_end : cut n <= PKT - IP_HDR_SIZE;
  c_data : cut n = Z.of_nat (length D);
  c_legal : cut n + IP_HDR_SIZE <= 65535;
  c_two : (2 <= n)%nat
}.

Definition received (R : list nat) (k : nat) : bool := existsb (Nat.eqb k) R.
Definition complete (n : nat) (R : list nat) : bool := forallb (received R) (seq 0 n).

(** The orders of arrival the list of holes can represent: while the first
    fragment is missing, a new fragment is that one or all after it are
    there.  In particular any order that starts with the first fragment, and
    the order from the last to the first. *)
Definition turn (n : nat) (R : list nat) (k : nat) : bool :=
  received R 0 || (k =? 0)%nat || received R k || forallb (received R) (seq (S k) (n - S k)).

Fixpoint turns (n : nat) (R ks : list nat) : bool :=
  match ks with [] => true | k :: ks => turn n R k && turns n (k :: R) ks end.

Lemma received_spec R k : received R k = true <-> k ∈ R.
Proof.
  unfold received. rewrite existsb_exists. split.
  - intros (x & Hx & ->%Nat.eqb_eq). by apply list_elem_of_In.
  - intros H. exists k. split; [by apply list_elem_of_In|]. apply Nat.eqb_refl.
Qed.

Lemma received_all R a m : forallb (received R) (seq a m) = true <->
  forall k, (a <= k < a + m)%nat -> k ∈ R.
Proof.
  rewrite forallb_forall. split; intros H k Hk.
  - apply received_spec, H, in_seq. lia.
  - apply received_spec, H. apply in_seq in Hk. lia.
Qed.

Lemma not_complete n R : complete n R = false -> exists k, (k < n)%nat /\ k ∉ R.
Proof.
  intros H. destruct (decide (Exists (fun k => k ∉ R) (seq 0 n))) as [E|E].
  - apply Exists_exists in E as (k & Hk & Nk). exists k. split; [|done].
    apply list_elem_of_In, in_seq in Hk. lia.
  - exfalso. apply not_Exists_Forall in E; [|apply _].
    assert (complete n R = true) as Ht; [|congruence]. apply received_all. intros k Hk.
    destruct (decide (k ∈ R)); [done|]. exfalso.
    apply (proj1 (Forall_forall _ _) E k); [|done]. apply list_elem_of_In, in_seq. lia.
Qed.

Lemma turn_spec n R k : turn n R k = true -> in_turn n R k.
Proof.
  unfold turn, in_turn. intros [[[H|H]%orb_true_iff|H]%orb_true_iff|H]%orb_true_iff.
  - left. by apply received_spec.
  - right. left. by apply Nat.eqb_eq.
  - right. right. left. by apply received_spec.
  - do 3 right. intros k' Hk'. apply (proj1 (received_all _ _ _) H). lia.
Qed.

Lemma turns_spec n ks : forall R pre j post,
  turns n R ks = true -> ks = pre ++ j :: post -> in_turn n (pre ++ R) j.
Proof.
  induction ks as [|k ks IH]; intros R pre j post H E; [by destruct pre|].
  simpl in H. apply andb_true_iff in H as [H1 H2]. destruct pre as [|i pre]; simplify_eq/=.
  - by apply turn_spec.
  - eapply in_turn_perm; [|by eapply IH]. by rewrite <- Permutation_middle.
Qed.


(** Three fragments of 16, 16 and 5 bytes. *)
Definition demo_cut (k : nat) : Z := nth k [0; 16; 32; 37] 37.
Definition demo_data : list Z := replicate 16 17 ++ replicate 16 34 ++ replicate 5 51.
Definition demo_frag (k : nat) : list Z :=
  frag_packet 7 (slice demo_data (demo_cut k) (demo_cut (S k))) (demo_cut k) (k <? 2)%nat.

Lemma demo_cuts : cuts_ok 128 3 demo_cut demo_data.
Proof.
  split; try (vm_compute; congruence);
    try (intros k Hk; do 3 (destruct k as [|k]; [vm_compute; congruence|]); lia).
  lia.
Qed.

Lemma demo_frags k : (k < 3)%nat -> frag_of 3 demo_cut demo_data [0; 7] k (demo_frag k).
Proof.
  intros Hk. do 3 (destruct k as [|k];
    [split; first [vm_compute; reflexivity|vm_compute; lia]|]). lia.
Qed.


(** ** Where the code goes wrong

    Index 0 stands both for the hole at the start of the datagram and for
    the end of the list.  When the middle fragment comes first, the second
    of the two holes is taken for the only one, and the last fragment
    completes a datagram whose first sixteen bytes never arrived: the packet
    handed on begins with the bytes of a hole descriptor. *)
Theorem defragment_middle_first :
  exists s', defragment_all 16384 (frag_init 16384) [demo_frag 1; demo_frag 2] =
    FOk (s', [None; Some (reassembled
      ([16; 0; 4; 0; 0; 0; 0; 0; 0; 0; 0; 0; 0; 0; 0; 0] ++ replicate 16 34 ++ replicate 5 51)
      (slice (demo_frag 1) 0 20))]).
Proof. eexists. vm_compute. reflexivity. Qed.

(** The descriptor after a fragment that ends less than eight bytes before
    the end of the buffer does not fit: one such fragment makes the code
    write outside [pkt_buff]. *)
Theorem defragment_overruns :
  defragment_all 16384 (frag_init 16384) [frag_packet 7 (replicate 16 1) 16344 true] = FOob.
Proof. vm_compute. reflexivity. Qed.

(** [total_len] is not cleared when a datagram is complete, and [first_hole]
    still names the hole filled last, where there is data now: the same
    fragment once more is followed through links that are packet data. *)
Theorem defragment_repeat_faults :
  let f0 := frag_packet 7 (replicate 16 1) 0 true in
  let f1 := frag_packet 7 (replicate 16 255) 16 false in
  (exists s', defragment_all 16384 (frag_init 16384) [f0; f1] =
     FOk (s', [None; Some (reassembled (replicate 16 1 ++ replicate 16 255) (slice f0 0 20))])) /\
  defragment_all 16384 (frag_init 16384) [f0; f1; f1] = FOob.
Proof. split; [eexists|]; vm_compute; reflexivity. Qed.
