(* ===== verification/Net.v ===== *)
(** The packet layer of the network stack: headers, sending, receiving, ARP and
    echo replies (src/net/net.c, src/net/arp.c, src/net/ping.c).

    A packet buffer is the list of its bytes and an address in it an offset;
    fields are written where the C structures put them.  Frames given to the
    Ethernet driver are recorded in order, and so are the calls of the
    protocol's packet handlers, which come last in [net_process_received_packet].
    The build has the network commands ping and tftpput, no CDP, RARP, IPv6,
    TCP, wake-on-LAN, NC-SI or link-local addresses; reassembly and UDP
    checksums are options.  A read of a header field beyond the frame reads
    the receive buffer, which is longer. *)

From S2P Require Import Prelude Bytes Cstring Crc32 NetUtils NetDefrag.

(** ** Constants *)

Definition ETHER_HDR_SIZE : Z := 14.
Definition E802_HDR_SIZE : Z := 22.
Definition VLAN_ETHER_HDR_SIZE : Z := 18.
Definition IP_UDP_HDR_SIZE : Z := 28.
Definition UDP_HDR_SIZE : Z := 8.
Definition ICMP_HDR_SIZE : Z := 8.
Definition IP_ICMP_HDR_SIZE : Z := 28.
Definition ARP_HDR_SIZE : Z := 28.
Definition PKTSIZE_ALIGN : Z := 1536.

Definition PROT_IP : Z := 2048.
Definition PROT_ARP : Z := 2054.
Definition PROT_VLAN : Z := 33024.
Definition IPPROTO_ICMP : Z := 1.
Definition IPPROTO_UDP : Z := 17.
Definition IP_FLAGS_DFRAG : Z := 16384.
Definition VLAN_NONE : Z := 4095.
Definition VLAN_IDMASK : Z := 4095.
Definition ARP_ETHER : Z := 1.
Definition ARPOP_REQUEST : Z := 1.
Definition ARPOP_REPLY : Z := 2.
Definition ICMP_ECHO_REPLY : Z := 0.
Definition ICMP_REDIRECT : Z := 5.
Definition ICMP_ECHO_REQUEST : Z := 8.

Definition net_bcast_ethaddr : list Z := replicate 6 255.
Definition net_null_ethaddr : list Z := replicate 6 0.

(** ** Fields of packets *)

Definition ntohs (x : Z) : Z := 256 * (x mod 256) + u16 x / 256.

(** The bytes of a 16-bit field in network order, as [htons] stores it, and
    of one stored as it is. *)
Definition net16 (v : Z) : list Z := [u16 v / 256; u16 v mod 256].
Definition host16 (v : Z) : list Z := [u16 v mod 256; u16 v / 256].

Definition get8 (b : list Z) (a : Z) : Z := b !!! Z.to_nat a.
Definition get16 (b : list Z) (a : Z) : Z := 256 * get8 b a + get8 b (a + 1).
Definition net_read_ip (b : list Z) (a : Z) : Z := le_load (slice b a (a + 4)).
Definition ip_bytes (ip : Z) : list Z := le_bytes 4 ip.

(** ** State *)

Inductive net_loop_state : Type :=
| NETLOOP_CONTINUE | NETLOOP_RESTART | NETLOOP_SUCCESS | NETLOOP_FAIL.

(** The Ethernet addresses that callers pass by reference. *)
Inductive ether_ref : Type := net_server_ethaddr | bcast_ethaddr.

(** What a handler is called with. *)
Inductive net_call : Type :=
| udp_call (pkt : list Z) (dest sip src len : Z)
| arp_call (pkt : list Z) (sip len : Z)
| icmp_call (type code dest sip src : Z).

Record net_config : Type := mkConfig {
  config_ip_defrag : bool;
  config_udp_checksum : bool;
  config_net_maxdefrag : Z;
  config_arp_timeout : Z;
  config_net_retry_count : Z
}.

(** The settings of the interface, which the packet layer only reads. *)
Record net_if : Type := mkIf {
  if_ethaddr : list Z;
  if_ip : Z;
  if_netmask : Z;
  if_gateway : Z;
  if_our_vlan : Z;
  if_native_vlan : Z;
  if_ping_ip : Z
}.

(** The packet that waits for an Ethernet address (static variables of arp.c). *)
Record arp_wait : Type := mkWait {
  wait_packet_ip : Z;
  wait_reply_ip : Z;
  wait_packet_ethaddr : option ether_ref;
  wait_tx_packet_size : Z;
  wait_timer_start : Z;
  wait_try : Z
}.

Record net : Type := mkNet {
  ifc : net_if;
  server_ethaddr : list Z;
  net_ip_id : Z;
  net_tx_packet : list Z;
  arp_tx_packet : list Z;
  arpw : arp_wait;
  ping_seq_number : Z;
  frag : frag_state;
  net_state : net_loop_state;
  sent : list (list Z);
  calls : list net_call
}.

Definition net_ethaddr (s : net) : list Z := if_ethaddr (ifc s).
Definition net_ip (s : net) : Z := if_ip (ifc s).
Definition net_netmask (s : net) : Z := if_netmask (ifc s).
Definition net_gateway (s : net) : Z := if_gateway (ifc s).
Definition net_our_vlan (s : net) : Z := if_our_vlan (ifc s).
Definition net_native_vlan (s : net) : Z := if_native_vlan (ifc s).
Definition net_ping_ip (s : net) : Z := if_ping_ip (ifc s).

Definition set_server_ethaddr (s : net) (e : list Z) : net :=
  let (i, _, d, t, a, w, p, f, l, x, c) := s in mkNet i e d t a w p f l x c.
Definition set_ip_id (s : net) (id : Z) : net :=
  let (i, e, _, t, a, w, p, f, l, x, c) := s in mkNet i e id t a w p f l x c.
Definition set_tx (s : net) (b : list Z) : net :=
  let (i, e, d, _, a, w, p, f, l, x, c) := s in mkNet i e d b a w p f l x c.
Definition set_arp_tx (s : net) (b : list Z) : net :=
  let (i, e, d, t, _, w, p, f, l, x, c) := s in mkNet i e d t b w p f l x c.
Definition set_arpw (s : net) (w : arp_wait) : net :=
  let (i, e, d, t, a, _, p, f, l, x, c) := s in mkNet i e d t a w p f l x c.
Definition set_ping_seq (s : net) (q : Z) : net :=
  let (i, e, d, t, a, w, _, f, l, x, c) := s in mkNet i e d t a w q f l x c.
Definition set_frag (s : net) (f : frag_state) : net :=
  let (i, e, d, t, a, w, p, _, l, x, c) := s in mkNet i e d t a w p f l x c.
Definition net_set_state (s : net) (l : net_loop_state) : net :=
  let (i, e, d, t, a, w, p, f, _, x, c) := s in mkNet i e d t a w p f l x c.
Definition add_sent (s : net) (m : list Z) : net :=
  let (i, e, d, t, a, w, p, f, l, x, c) := s in mkNet i e d t a w p f l (x ++ [m]) c.
Definition add_call (s : net) (k : net_call) : net :=
  let (i, e, d, t, a, w, p, f, l, x, c) := s in mkNet i e d t a w p f l x (c ++ [k]).

(** ** Ethernet *)

Section Ethernet.
Variable s : net.

Definition myvlan (vlan : Z) : Z := if ntohs vlan =? 65535 then VLAN_NONE else ntohs vlan.

Definition net_eth_hdr_size : Z :=
  if Z.land (myvlan (net_our_vlan s)) VLAN_IDMASK =? VLAN_NONE then ETHER_HDR_SIZE else VLAN_ETHER_HDR_SIZE.

Definition net_set_ether (xet dest_ethaddr : list Z) (prot : Z) : frag_res (list Z * Z) :=
  let myvlanid := myvlan (net_our_vlan s) in
  let! b := copy_in xet 0 dest_ethaddr in
  let! b := copy_in b 6 (net_ethaddr s) in
  if Z.land myvlanid VLAN_IDMASK =? VLAN_NONE then
    let! b := copy_in b 12 (net16 prot) in FOk (b, ETHER_HDR_SIZE)
  else
    let! b := copy_in b 12 (net16 PROT_VLAN) in
    let! b := copy_in b 14 (net16 (Z.land myvlanid VLAN_IDMASK)) in
    let! b := copy_in b 16 (net16 prot) in
    FOk (b, VLAN_ETHER_HDR_SIZE).

(** Turn a received header round; the protocol stays where it was. *)
Definition net_update_ether (et addr : list Z) (prot : Z) : frag_res (list Z * Z) :=
  let! b := copy_in et 0 addr in
  let! b := copy_in b 6 (net_ethaddr s) in
  let protlen := get16 b 12 in
  if protlen =? PROT_VLAN then
    let! b := copy_in b 16 (net16 prot) in FOk (b, VLAN_ETHER_HDR_SIZE)
  else if 1514 <? protlen then
    let! b := copy_in b 12 (net16 prot) in FOk (b, ETHER_HDR_SIZE)
  else
    let! b := copy_in b 20 (net16 prot) in FOk (b, E802_HDR_SIZE).

(** ** IP and UDP headers, at offset [o] of the buffer *)

Definition net_set_ip_header (b : list Z) (o dest source pkt_len proto : Z) : frag_res (list Z) :=
  let! b := copy_in b o [69; 0] in
  let! b := copy_in b (o + 2) (net16 pkt_len) in
  let! b := copy_in b (o + 9) [u8 proto] in
  let! b := copy_in b (o + 4) (net16 (net_ip_id s)) in
  let! b := copy_in b (o + 6) (net16 IP_FLAGS_DFRAG) in
  let! b := copy_in b (o + 8) [255] in
  let! b := copy_in b (o + 10) (host16 0) in
  let! b := copy_in b (o + 12) (ip_bytes source) in
  let! b := copy_in b (o + 16) (ip_bytes dest) in
  copy_in b (o + 10) (host16 (compute_ip_checksum (slice b o (o + IP_HDR_SIZE)))).

Definition net_set_udp_header (b : list Z) (o dest dport sport len : Z) : frag_res (list Z) :=
  let! b := (if Z.land len 1 =? 0 then FOk b else copy_in b (o + IP_UDP_HDR_SIZE + len) [0]) in
  let! b := net_set_ip_header b o dest (net_ip s) (IP_UDP_HDR_SIZE + len) IPPROTO_UDP in
  let! b := copy_in b (o + 20) (net16 sport) in
  let! b := copy_in b (o + 22) (net16 dport) in
  let! b := copy_in b (o + 24) (net16 (UDP_HDR_SIZE + len)) in
  copy_in b (o + 26) (host16 0).
End Ethernet.

(** ** Sending *)

(** [net_send_packet]: the driver gets the first [len] bytes. *)
Definition net_send_packet (s : net) (pkt : list Z) (len : Z) : frag_res net :=
  if (0 <=? len) && (len <=? Z.of_nat (length pkt)) then FOk (add_sent s (slice pkt 0 len)) else FOob.

Definition arp_raw_request (s : net) (source_ip : Z) (target_ethaddr : list Z) (target_ip : Z)
  : frag_res net :=
  let! (b, o) := net_set_ether s (arp_tx_packet s) net_bcast_ethaddr PROT_ARP in
  let! b := copy_in b o (net16 ARP_ETHER) in
  let! b := copy_in b (o + 2) (net16 PROT_IP) in
  let! b := copy_in b (o + 4) [6; 4] in
  let! b := copy_in b (o + 6) (net16 ARPOP_REQUEST) in
  let! b := copy_in b (o + 8) (net_ethaddr s) in
  let! b := copy_in b (o + 14) (ip_bytes source_ip) in
  let! b := copy_in b (o + 18) target_ethaddr in
  let! b := copy_in b (o + 24) (ip_bytes target_ip) in
  net_send_packet (set_arp_tx s b) b (o + ARP_HDR_SIZE).

Definition set_reply_ip (w : arp_wait) (ip : Z) : arp_wait :=
  let (p, _, e, z, t, y) := w in mkWait p ip e z t y.
Definition set_try (w : arp_wait) (start try : Z) : arp_wait :=
  let (p, r, e, z, _, _) := w in mkWait p r e z start try.

Definition arp_request (s : net) : frag_res net :=
  let w := arpw s in
  let reply :=
    if Z.land (wait_packet_ip w) (net_netmask s) =? Z.land (net_ip s) (net_netmask s)
    then wait_packet_ip w
    else if net_gateway s =? 0 then wait_packet_ip w else net_gateway s in
  arp_raw_request (set_arpw s (set_reply_ip w reply)) (net_ip s) net_null_ethaddr reply.

Definition arp_is_waiting (s : net) : bool := negb (wait_packet_ip (arpw s) =? 0).

(** The two transmit buffers: while one waits for ARP the other is used. *)
Definition net_get_async_tx_pkt_buf (s : net) : list Z :=
  if arp_is_waiting s then arp_tx_packet s else net_tx_packet s.

Definition set_async_tx_pkt_buf (s : net) (b : list Z) : net :=
  if arp_is_waiting s then set_arp_tx s b else set_tx s b.

Definition ether_of (s : net) (e : ether_ref) : list Z :=
  match e with net_server_ethaddr => server_ethaddr s | bcast_ethaddr => net_bcast_ethaddr end.

(** [net_send_udp_packet] through [net_send_ip_packet]: 0 when the packet
    went out, 1 when it waits for the address; [now] is the timer. *)
Definition net_send_udp_packet (s : net) (now : Z) (ether : ether_ref) (dest dport sport payload_len : Z)
  : frag_res (net * Z) :=
  let dest := if dest =? 0 then 4294967295 else dest in
  let ether := if dest =? 4294967295 then bcast_ethaddr else ether in
  let! (b, eth_hdr_size) := net_set_ether s (net_tx_packet s) (ether_of s ether) PROT_IP in
  let! b := net_set_udp_header s b eth_hdr_size dest dport sport payload_len in
  let s := set_ip_id (set_tx s b) (u32 (net_ip_id s + 1)) in
  let size := eth_hdr_size + IP_UDP_HDR_SIZE + payload_len in
  if bool_decide (ether_of s ether = net_null_ethaddr) then
    let s := set_arpw s (mkWait dest (wait_reply_ip (arpw s)) (Some ether) size now 1) in
    let! s := arp_request s in FOk (s, 1)
  else
    let! s := net_send_packet s (net_tx_packet s) size in FOk (s, 0).

Section Config.
Variable cfg : net_config.

(** ** ARP *)

Definition arp_timeout_check (s : net) (now : Z) : frag_res (net * Z) :=
  if negb (arp_is_waiting s) then FOk (s, 0)
  else
    let w := arpw s in
    if config_arp_timeout cfg <? u64 (now - wait_timer_start w) then
      let try := s32 (wait_try w + 1) in
      if config_net_retry_count cfg <=? try then
        FOk (net_set_state (set_arpw s (set_try w (wait_timer_start w) 0)) NETLOOP_FAIL, 1)
      else
        let! s := arp_request (set_arpw s (set_try w now try)) in FOk (s, 1)
    else FOk (s, 1).

(** Answer a request: the packet goes back with our addresses. *)
Definition arp_reply (s : net) (et : list Z) (o : Z) : frag_res net :=
  let! (b, eth_hdr_size) := net_update_ether s et (slice et 6 12) PROT_ARP in
  let! b := copy_in b (o + 6) (net16 ARPOP_REPLY) in
  let! b := copy_in b (o + 18) (slice b (o + 8) (o + 14)) in
  let! b := copy_in b (o + 24) (slice b (o + 14) (o + 18)) in
  let! b := copy_in b (o + 8) (net_ethaddr s) in
  let! b := copy_in b (o + 14) (ip_bytes (net_ip s)) in
  let size := eth_hdr_size + ARP_HDR_SIZE in
  let! t := copy_in (net_get_async_tx_pkt_buf s) 0 (slice b 0 size) in
  net_send_packet (set_async_tx_pkt_buf s t) t size.

(** The address we waited for: the packet goes out.  The broadcast address is
    never waited for, as it is known. *)
Definition arp_answered (s : net) (et : list Z) (o len : Z) : frag_res net :=
  let w := arpw s in
  let sha := slice et (o + 8) (o + 14) in
  let s := match wait_packet_ethaddr w with
           | Some net_server_ethaddr => set_server_ethaddr s sha
           | _ => s
           end in
  let s := add_call s (arp_call (slice et o (o + len)) (wait_reply_ip w) len) in
  let! b := copy_in (net_tx_packet s) 0 sha in
  let! s := net_send_packet (set_tx s b) b (wait_tx_packet_size w) in
  FOk (set_arpw s (mkWait 0 (wait_reply_ip w) None 0 (wait_timer_start w) (wait_try w))).

(** [et] is the frame, the ARP header at offset [o] of it. *)
Definition arp_receive (s : net) (et : list Z) (o len : Z) : frag_res net :=
  if len <? ARP_HDR_SIZE then FOk s
  else if negb (get16 et o =? ARP_ETHER) then FOk s
  else if negb (get16 et (o + 2) =? PROT_IP) then FOk s
  else if negb (get8 et (o + 4) =? 6) then FOk s
  else if negb (get8 et (o + 5) =? 4) then FOk s
  else if net_ip s =? 0 then FOk s
  else if negb (net_read_ip et (o + 24) =? net_ip s) then FOk s
  else
    let op := get16 et (o + 6) in
    if op =? ARPOP_REQUEST then arp_reply s et o
    else if op =? ARPOP_REPLY then
      if negb (arp_is_waiting s) then FOk s
      else if net_read_ip et (o + 14) =? wait_reply_ip (arpw s) then arp_answered s et o len
      else FOk s
    else FOk s.

(** ** ICMP *)

(** Where the datagram is: in the received frame, or in the reassembly
    buffer. *)
Inductive ip_place : Type := in_frame (o : Z) | in_defrag.

(** Write to the datagram, wherever it is. *)
Definition ip_write (s : net) (et : list Z) (pl : ip_place) (a : Z) (bs : list Z)
  : frag_res (net * list Z) :=
  match pl with
  | in_frame o => let! et := copy_in et (o + a) bs in FOk (s, et)
  | in_defrag =>
    let! b := copy_in (pkt_buff (frag s)) a bs in
    FOk (set_frag s (mkFrag b (first_hole (frag s)) (total_len (frag s))), et)
  end.

Definition ip_read (s : net) (et : list Z) (pl : ip_place) (a z : Z) : list Z :=
  match pl with
  | in_frame o => slice et (o + a) (o + z)
  | in_defrag => slice (pkt_buff (frag s)) a z
  end.

(** The answer is built in place and copied from the frame. *)
Definition ping_reply (s : net) (et : list Z) (pl : ip_place) (len : Z) : frag_res (net * list Z) :=
  let! (et, eth_hdr_size) := net_update_ether s et (slice et 6 12) PROT_IP in
  let! (s, et) := ip_write s et pl 10 (host16 0) in
  let! (s, et) := ip_write s et pl 6 (host16 0) in
  let! (s, et) := ip_write s et pl 16 (ip_read s et pl 12 16) in
  let! (s, et) := ip_write s et pl 12 (ip_bytes (net_ip s)) in
  let! (s, et) := ip_write s et pl 10 (host16 (compute_ip_checksum (ip_read s et pl 0 IP_HDR_SIZE))) in
  let! (s, et) := ip_write s et pl 20 [ICMP_ECHO_REPLY] in
  let! (s, et) := ip_write s et pl 22 (host16 0) in
  let! (s, et) := ip_write s et pl 22 (host16 (compute_ip_checksum (ip_read s et pl 20 len))) in
  let size := eth_hdr_size + len in
  if Z.of_nat (length et) <? size then FOob
  else
    let! t := copy_in (net_get_async_tx_pkt_buf s) 0 (slice et 0 size) in
    let! s := net_send_packet (set_async_tx_pkt_buf s t) t size in
    FOk (s, et).

Definition ping_receive (s : net) (et : list Z) (pl : ip_place) (len : Z) : frag_res (net * list Z) :=
  let ip := ip_read s et pl 0 21 in
  let type := get8 ip 20 in
  if type =? ICMP_ECHO_REPLY then
    FOk (if net_read_ip ip 12 =? net_ping_ip s then net_set_state s NETLOOP_SUCCESS else s, et)
  else if type =? ICMP_ECHO_REQUEST then
    if net_ip s =? 0 then FOk (s, et) else ping_reply s et pl len
  else FOk (s, et).

(** The ICMP handler gets the type, the code and the fields where UDP has its
    ports, as they are after [ping_receive]. *)
Definition receive_icmp (s : net) (et : list Z) (pl : ip_place) (len src_ip : Z) : frag_res net :=
  if get8 (ip_read s et pl 20 21) 0 =? ICMP_REDIRECT then FOk s
  else
    let! (s, et) := ping_receive s et pl len in
    let icmp := ip_read s et pl 20 24 in
    FOk (add_call s (icmp_call (get8 icmp 0) (get8 icmp 1) (get16 icmp 2) src_ip (get16 icmp 0))).

(** [ping_send] with [set_icmp_header]. *)
Definition ping_send (s : net) (now : Z) : frag_res net :=
  let w := arpw s in
  let! (b, o) := net_set_ether s (net_tx_packet s) net_null_ethaddr PROT_IP in
  let! b := net_set_ip_header s b o (net_ping_ip s) (net_ip s) IP_ICMP_HDR_SIZE IPPROTO_ICMP in
  let! b := copy_in b (o + 20) ([ICMP_ECHO_REQUEST; 0] ++ host16 0 ++ host16 0 ++ net16 (ping_seq_number s)) in
  let! b := copy_in b (o + 22) (host16 (compute_ip_checksum (slice b (o + 20) (o + 28)))) in
  let s := set_ping_seq (set_ip_id (set_tx s b) (u32 (net_ip_id s + 1))) (u16 (ping_seq_number s + 1)) in
  arp_request (set_arpw s
    (mkWait (net_ping_ip s) (wait_reply_ip w) (wait_packet_ethaddr w) (o + IP_ICMP_HDR_SIZE) now 1)).

(** ** Receiving *)

(** The sum of the pseudo header and the datagram; an odd byte at the end is
    counted twice, as the code has it. *)
Fixpoint udp_sum (xsum : Z) (bytes : list Z) : Z :=
  match bytes with
  | [] => xsum
  | [b] => u64 (xsum + (256 * b + b))
  | b0 :: b1 :: bytes => udp_sum (u64 (xsum + (256 * b0 + b1))) bytes
  end.

(** The carries are added until there are none. *)
Fixpoint fold_carries (fuel : nat) (xsum : Z) : Z :=
  match fuel with
  | O => xsum
  | S fuel =>
    if Z.shiftr xsum 16 =? 0 then xsum
    else fold_carries fuel (Z.land xsum 65535 + Z.land (Z.shiftr xsum 16) 65535)
  end.

Definition udp_checksum_ok (ip : list Z) : bool :=
  let udp_len := get16 ip 24 in
  let xsum := get8 ip 9 + udp_len + get16 ip 12 + get16 ip 14 + get16 ip 16 + get16 ip 18 in
  let xsum := fold_carries 16 (udp_sum xsum (slice ip 20 (20 + udp_len))) in
  (xsum =? 0) || (xsum =? 65535).

(** The datagram after reassembly. *)
Definition receive_datagram (s : net) (et : list Z) (pl : ip_place) (ip : list Z) (len src_ip : Z) : frag_res net :=
  let ip_p := get8 ip 9 in
  if ip_p =? IPPROTO_ICMP then receive_icmp s et pl len src_ip
  else if negb (ip_p =? IPPROTO_UDP) then FOk s
  else
    let udp_len := get16 ip 24 in
    if (udp_len <? UDP_HDR_SIZE) || (len - IP_HDR_SIZE <? udp_len) then FOk s
    else if config_udp_checksum cfg && negb (get16 ip 26 =? 0) && negb (udp_checksum_ok ip) then FOk s
    else
      FOk (add_call s (udp_call (slice ip IP_UDP_HDR_SIZE (IP_HDR_SIZE + udp_len))
                         (get16 ip 22) src_ip (get16 ip 20) (udp_len - UDP_HDR_SIZE))).

(** [net_defragment], or its stub without reassembly. *)
Definition reassemble (s : net) (ip : list Z) (len : Z) : frag_res (net * option (list Z * Z)) :=
  if config_ip_defrag cfg then
    let! (f, r) := net_defragment (config_net_maxdefrag cfg) (frag s) ip len in
    FOk (set_frag s f, r)
  else if Z.land (hdr_ip_off ip) (Z.lor IP_OFFS IP_FLAGS_MFRAG) =? 0
  then FOk (s, Some (ip, len)) else FOk (s, None).

(** An IP datagram at offset [o] of the frame; [len] may be negative when the
    frame is shorter than its header, and is compared as unsigned with the
    size of the IP header. *)
Definition ip_receive (s : net) (et : list Z) (o len : Z) : frag_res net :=
  let ip := drop (Z.to_nat o) et in
  if u64 len <? IP_HDR_SIZE then FOk s
  else if len <? get16 ip 2 then FOk s
  else
    let len := get16 ip 2 in
    if len <? IP_HDR_SIZE then FOk s
    else if negb (Z.land (get8 ip 0) 240 =? 64) then FOk s
    else if negb (Z.land (get8 ip 0) 15 =? 5) then FOk s
    else if negb (ip_checksum_ok (slice ip 0 IP_HDR_SIZE)) then FOk s
    else
      let dst_ip := net_read_ip ip 16 in
      if negb (net_ip s =? 0) && negb (dst_ip =? net_ip s) && negb (dst_ip =? 4294967295) then FOk s
      else
        let src_ip := net_read_ip ip 12 in
        let fragment := negb (Z.land (hdr_ip_off ip) (Z.lor IP_OFFS IP_FLAGS_MFRAG) =? 0) in
        let! (s, r) := reassemble s ip len in
        match r with
        | None => FOk s
        | Some (ip, len) =>
          receive_datagram s et (if fragment then in_defrag else in_frame o) ip len src_ip
        end.

(** The protocol, where the packet starts, what is left of the length and
    the VLAN of the frame; [None] when the frame is dropped. *)
Definition frame_type (s : net) (et : list Z) (len : Z) : option (Z * Z * Z * Z) :=
  let eth_proto := get16 et 12 in
  if eth_proto <? 1514 then Some (get16 et 20, E802_HDR_SIZE, len - E802_HDR_SIZE, VLAN_NONE)
  else if negb (eth_proto =? PROT_VLAN) then Some (eth_proto, ETHER_HDR_SIZE, len - ETHER_HDR_SIZE, VLAN_NONE)
  else if u64 len <? VLAN_ETHER_HDR_SIZE then None
  else if Z.land (ntohs (net_our_vlan s)) VLAN_IDMASK =? VLAN_NONE then None
  else Some (get16 et 16, VLAN_ETHER_HDR_SIZE, len - VLAN_ETHER_HDR_SIZE,
             Z.land (get16 et 14) VLAN_IDMASK).

Definition net_process_received_packet (s : net) (in_packet : list Z) (len : Z) : frag_res net :=
  if u64 len <? ETHER_HDR_SIZE then FOk s
  else
    let myvlanid := myvlan (net_our_vlan s) in
    let mynvlanid := myvlan (net_native_vlan s) in
    match frame_type s in_packet len with
    | None => FOk s
    | Some (eth_proto, o, len, vlanid) =>
      let mine := Z.land myvlanid VLAN_IDMASK in
      let vlanid := if vlanid =? VLAN_NONE then Z.land mynvlanid VLAN_IDMASK else vlanid in
      if negb (mine =? VLAN_NONE) && negb (vlanid =? mine) then FOk s
      else if eth_proto =? PROT_ARP then arp_receive s in_packet o len
      else if eth_proto =? PROT_IP then ip_receive s in_packet o len
      else FOk s
    end.
End Config.
