(* ===== verification/NetProps.v ===== *)
(** What the packet layer writes: the frames of src/net/net.c and src/net/arp.c
    as byte lists, and that the header functions produce them whatever the
    buffer held before; and what it guarantees: a datagram that is sent is what
    the receiver's handler gets. *)

From S2P Require Import Prelude Bytes Cstring Crc32 NetUtils NetDefrag Net.

(** ** Buffers with a prefix of known length *)

Lemma copy_in_app X R a bs :
  0 <= a -> a + Z.of_nat (length bs) <= Z.of_nat (length X) ->
  copy_in (X ++ R) a bs = FOk (store X a bs ++ R).
Proof.
  intros. unfold copy_in. rewrite !(proj2 (Z.leb_le _ _)) by (rewrite ?length_app; lia). cbn [andb].
  f_equal. unfold store. rewrite take_app_le, drop_app_le by lia.
  by rewrite <- !(assoc_L (++)).
Qed.

(** The same behind a part [E] that is left alone. *)
Definition behind (E : list Z) (m : frag_res (list Z)) : frag_res (list Z) :=
  frag_bind m (fun b => FOk (E ++ b)).

Lemma copy_in_behind E B o a bs :
  o = Z.of_nat (length E) -> 0 <= a ->
  copy_in (E ++ B) (o + a) bs = behind E (copy_in B a bs).
Proof.
  intros -> Ha. unfold copy_in, behind. rewrite length_app.
  rewrite !(proj2 (Z.leb_le 0 _)) by lia. cbn [andb].
  destruct (Z.leb_spec (a + Z.of_nat (length bs)) (Z.of_nat (length B))).
  - rewrite (proj2 (Z.leb_le _ _)) by lia. cbn [frag_bind]. f_equal. slice_ext.
  - rewrite (proj2 (Z.leb_gt _ _)) by lia. done.
Qed.

Lemma behind_bind {B} E m (k : list Z -> frag_res B) :
  frag_bind (behind E m) k = frag_bind m (fun b => k (E ++ b)).
Proof. by destruct m. Qed.

Lemma bind_behind {A} E (m : frag_res A) (k : A -> frag_res (list Z)) :
  frag_bind m (fun b => behind E (k b)) = behind E (frag_bind m k).
Proof. by destruct m. Qed.

Lemma slice_behind (E B : list Z) o lo hi :
  o = Z.of_nat (length E) -> 0 <= lo -> slice (E ++ B) (o + lo) (o + hi) = slice B lo hi.
Proof.
  intros -> ?. unfold slice. rewrite drop_app_ge by lia. f_equal; [lia|]. f_equal. lia.
Qed.

Lemma slice_app_l (X R : list Z) lo hi :
  0 <= lo -> hi <= Z.of_nat (length X) -> slice (X ++ R) lo hi = slice X lo hi.
Proof.
  intros. unfold slice. destruct (decide (lo <= hi)).
  - rewrite drop_app_le, take_app_le; [done|rewrite length_drop; lia|lia].
  - by replace (Z.to_nat (hi - lo)) with 0%nat by lia.
Qed.

Lemma get8_app_l X R a : 0 <= a < Z.of_nat (length X) -> get8 (X ++ R) a = get8 X a.
Proof. intros. unfold get8. apply lookup_total_app_l. lia. Qed.

Lemma get16_app_l X R a : 0 <= a -> a + 2 <= Z.of_nat (length X) -> get16 (X ++ R) a = get16 X a.
Proof. intros. unfold get16. by rewrite !get8_app_l by lia. Qed.

Lemma read_ip_app_l X R a : 0 <= a -> a + 4 <= Z.of_nat (length X) -> net_read_ip (X ++ R) a = net_read_ip X a.
Proof. intros. unfold net_read_ip. by rewrite slice_app_l by lia. Qed.

(** ** Fields *)

Definition is_byte (b : Z) : Prop := 0 <= b < 256.
Definition is_u32 (x : Z) : Prop := 0 <= x < 4294967296.
Definition is_mac (e : list Z) : Prop := length e = 6%nat /\ Forall is_byte e.

Lemma net16_read v : 0 <= v < 65536 -> 256 * (u16 v / 256) + u16 v mod 256 = v.
Proof. intros. rewrite u16_small by lia. zlia. Qed.

Lemma net16_bytes v : Forall is_byte (net16 v).
Proof. unfold net16, is_byte, u16. repeat constructor; zlia. Qed.

Lemma host16_bytes v : Forall is_byte (host16 v).
Proof. unfold host16, is_byte, u16. repeat constructor; zlia. Qed.

Lemma ip_bytes_eq ip :
  ip_bytes ip = [ip mod 256; ip / 256 mod 256; ip / 65536 mod 256; ip / 16777216 mod 256].
Proof.
  unfold ip_bytes. cbn [le_bytes]. change 255 with (Z.ones 8). rewrite !Z.land_ones by lia.
  rewrite !Z.shiftr_div_pow2 by lia. change (2 ^ 8) with 256. rewrite !Z.div_div by lia. done.
Qed.

Lemma ip_bytes_bytes ip : Forall is_byte (ip_bytes ip).
Proof. rewrite ip_bytes_eq. unfold is_byte. repeat constructor; zlia. Qed.

Lemma ip_bytes_load ip : is_u32 ip -> le_load (ip_bytes ip) = ip.
Proof.
  unfold is_u32. intros. rewrite ip_bytes_eq. unfold le_load. cbn [foldr]. Z.div_mod_to_equations. lia.
Qed.

(** ** Frames *)

Definition vlan_of (s : net) : Z := Z.land (myvlan (net_our_vlan s)) VLAN_IDMASK.

Definition eth_header (s : net) (dest : list Z) (prot : Z) : list Z :=
  dest ++ net_ethaddr s ++
  (if vlan_of s =? VLAN_NONE then [] else net16 PROT_VLAN ++ net16 (vlan_of s)) ++ net16 prot.

Definition ip_header_zero (id dest source pkt_len proto : Z) : list Z :=
  [69; 0] ++ net16 pkt_len ++ net16 id ++ net16 IP_FLAGS_DFRAG ++ [255; u8 proto] ++ [0; 0] ++
  ip_bytes source ++ ip_bytes dest.

Definition ip_header (id dest source pkt_len proto : Z) : list Z :=
  [69; 0] ++ net16 pkt_len ++ net16 id ++ net16 IP_FLAGS_DFRAG ++ [255; u8 proto] ++
  host16 (compute_ip_checksum (ip_header_zero id dest source pkt_len proto)) ++
  ip_bytes source ++ ip_bytes dest.

Definition udp_header (dport sport len : Z) : list Z :=
  net16 sport ++ net16 dport ++ net16 (UDP_HDR_SIZE + len) ++ [0; 0].

Definition udp_frame (s : net) (ether : list Z) (dest dport sport : Z) (payload : list Z) : list Z :=
  let len := Z.of_nat (length payload) in
  eth_header s ether PROT_IP ++
  ip_header (net_ip_id s) dest (net_ip s) (IP_UDP_HDR_SIZE + len) IPPROTO_UDP ++
  udp_header dport sport len ++ payload.

Definition arp_packet (op : Z) (sha : list Z) (spa : Z) (tha : list Z) (tpa : Z) : list Z :=
  net16 ARP_ETHER ++ net16 PROT_IP ++ [6; 4] ++ net16 op ++ sha ++ ip_bytes spa ++ tha ++ ip_bytes tpa.

Lemma mac_entries e : is_mac e -> exists a b c d f g, e = [a; b; c; d; f; g].
Proof. intros [L _]. do 6 (destruct e as [|? e]; [done|]). destruct e; [|done]. eauto 10. Qed.

Lemma eth_hdr_size_eq s : net_eth_hdr_size s = if vlan_of s =? VLAN_NONE then 14 else 18.
Proof. done. Qed.

(** [net_set_ether] fills in its header and leaves the rest. *)
Lemma set_ether_spec s X R dest prot :
  is_mac dest -> is_mac (net_ethaddr s) -> Z.of_nat (length X) = net_eth_hdr_size s ->
  net_set_ether s (X ++ R) dest prot = FOk (eth_header s dest prot ++ R, net_eth_hdr_size s).
Proof.
  intros (?&?&?&?&?&?&->)%mac_entries Hs L. unfold net_set_ether, eth_header.
  apply mac_entries in Hs as (?&?&?&?&?&?&->). rewrite eth_hdr_size_eq in *. fold (vlan_of s).
  destruct (vlan_of s =? VLAN_NONE).
  - do 14 (destruct X as [|? X]; [done|]). destruct X; [|simpl in L; lia].
    repeat (rewrite copy_in_app by (simpl; lia); cbn [frag_bind]). done.
  - do 18 (destruct X as [|? X]; [done|]). destruct X; [|simpl in L; lia].
    repeat (rewrite copy_in_app by (simpl; lia); cbn [frag_bind]). done.
Qed.

Lemma eth_header_length s dest prot :
  is_mac dest -> is_mac (net_ethaddr s) -> Z.of_nat (length (eth_header s dest prot)) = net_eth_hdr_size s.
Proof.
  intros [Ld _] [Ls _]. unfold eth_header. rewrite !length_app, Ld, Ls, eth_hdr_size_eq. by case_match.
Qed.


Lemma frag_bind_ext {A B} (m : frag_res A) (k k' : A -> frag_res B) :
  (forall a, k a = k' a) -> frag_bind m k = frag_bind m k'.
Proof. intros H. destruct m; simpl; auto. Qed.

Lemma frag_bind_assoc {A B C} (m : frag_res A) (k : A -> frag_res B) (k' : B -> frag_res C) :
  frag_bind (frag_bind m k) k' = frag_bind m (fun a => frag_bind (k a) k').
Proof. by destruct m. Qed.

(** Move a sequence of writes behind [E]. *)
Ltac go_behind E o :=
  repeat (rewrite (copy_in_behind E _ o) by (done || lia);
          rewrite behind_bind, <- bind_behind; apply frag_bind_ext; intros ?).

Lemma ip_header_behind s E B o dest source len proto :
  o = Z.of_nat (length E) ->
  net_set_ip_header s (E ++ B) o dest source len proto
  = behind E (net_set_ip_header s B 0 dest source len proto).
Proof.
  intros Ho. unfold net_set_ip_header. rewrite <- (Z.add_0_r o) at 1.
  go_behind E o.
  rewrite <- (Z.add_0_r o) at 2. rewrite (slice_behind E _ o) by (done || lia).
  by rewrite (copy_in_behind E _ o) by (done || lia).
Qed.

Lemma ip_header_at X R s dest source len proto :
  length X = 20%nat ->
  net_set_ip_header s (X ++ R) 0 dest source len proto
  = FOk (ip_header (net_ip_id s) dest source len proto ++ R).
Proof.
  intros L. do 20 (destruct X as [|? X]; [done|]). destruct X; [|done]. unfold net_set_ip_header.
  repeat (rewrite copy_in_app by (simpl; lia); cbn [frag_bind]).
  rewrite slice_app_l by (unfold IP_HDR_SIZE; simpl; lia). done.
Qed.

Lemma ip_header_spec s E X R o dest source len proto :
  o = Z.of_nat (length E) -> length X = 20%nat ->
  net_set_ip_header s (E ++ X ++ R) o dest source len proto
  = FOk (E ++ ip_header (net_ip_id s) dest source len proto ++ R).
Proof. intros Ho L. by rewrite ip_header_behind, ip_header_at. Qed.

Lemma ip_header_length id dest source len proto :
  length (ip_header id dest source len proto) = 20%nat.
Proof. done. Qed.

(** The four fields of the UDP header, at offset [o]. *)
Definition udp_fields (b : list Z) (o dport sport len : Z) : frag_res (list Z) :=
  frag_bind (copy_in b o (net16 sport)) (fun b =>
  frag_bind (copy_in b (o + 2) (net16 dport)) (fun b =>
  frag_bind (copy_in b (o + 4) (net16 (UDP_HDR_SIZE + len))) (fun b =>
  copy_in b (o + 6) (host16 0)))).

Lemma udp_fields_spec E X R o dport sport len :
  o = Z.of_nat (length E) -> length X = 8%nat ->
  udp_fields (E ++ X ++ R) o dport sport len = FOk (E ++ udp_header dport sport len ++ R).
Proof.
  intros Ho L. transitivity (behind E (udp_fields (X ++ R) 0 dport sport len)).
  - unfold udp_fields. rewrite <- (Z.add_0_r o) at 1. go_behind E o.
    by rewrite (copy_in_behind E _ o) by (done || lia).
  - do 8 (destruct X as [|? X]; [done|]). destruct X; [|done]. unfold udp_fields.
    repeat (rewrite copy_in_app by (simpl; lia); cbn [frag_bind]). done.
Qed.

(** The buffer a datagram is sent from: room for the headers [X], the
    payload [P], and a byte [z] to pad it to an even length. *)
Lemma set_udp_header_spec s E X P z R o dest dport sport :
  o = Z.of_nat (length E) -> length X = 28%nat ->
  exists z', net_set_udp_header s (E ++ X ++ P ++ z :: R) o dest dport sport (Z.of_nat (length P))
  = FOk (E ++ ip_header (net_ip_id s) dest (net_ip s) (IP_UDP_HDR_SIZE + Z.of_nat (length P)) IPPROTO_UDP ++
         udp_header dport sport (Z.of_nat (length P)) ++ P ++ z' :: R).
Proof.
  intros Ho L. unfold net_set_udp_header.
  assert (exists z', (if Z.land (Z.of_nat (length P)) 1 =? 0 then FOk (E ++ X ++ P ++ z :: R)
            else copy_in (E ++ X ++ P ++ z :: R) (o + IP_UDP_HDR_SIZE + Z.of_nat (length P)) [0])
          = FOk (E ++ X ++ P ++ z' :: R)) as (z' & ->).
  { case_match; [by exists z|]. exists 0. rewrite !(assoc_L (++)).
    rewrite <- (Z.add_0_r (_ + Z.of_nat (length P))).
    rewrite (copy_in_behind ((E ++ X) ++ P) (z :: R)); [|rewrite !length_app; unfold IP_UDP_HDR_SIZE; lia|done].
    change (z :: R) with ([z] ++ R). by rewrite copy_in_app by (simpl; lia). }
  exists z'. cbn [frag_bind]. rewrite <- (take_drop 20 X), <- (assoc_L (++) (take 20 X)).
  rewrite ip_header_spec by (done || rewrite length_take; lia). cbn [frag_bind].
  rewrite (assoc_L (++) E). set (H := E ++ ip_header _ _ _ _ _).
  pose proof (udp_fields_spec H (drop 20 X) (P ++ z' :: R) (o + 20) dport sport (Z.of_nat (length P))) as U.
  rewrite (assoc_L (++) E). unfold udp_fields in U. rewrite <- !Z.add_assoc in U. apply U.
  - unfold H. rewrite length_app, ip_header_length. lia.
  - rewrite length_drop. lia.
Qed.

(** ** What is sent *)

(** The transmit buffer with a payload in place. *)
Definition tx_holds (s : net) (P : list Z) : Prop :=
  exists X z R, net_tx_packet s = X ++ P ++ z :: R /\
    Z.of_nat (length X) = net_eth_hdr_size s + IP_UDP_HDR_SIZE.

(** The destination as it is put in the packet, and the address used. *)
Definition send_dest (dest : Z) : Z := if dest =? 0 then 4294967295 else dest.
Definition send_ether (s : net) (dest : Z) : list Z :=
  if send_dest dest =? 4294967295 then net_bcast_ethaddr else server_ethaddr s.

Lemma bcast_mac : is_mac net_bcast_ethaddr.
Proof. split; [done|]. repeat constructor; unfold is_byte; lia. Qed.

Lemma ether_of_send s dest :
  ether_of s (if send_dest dest =? 4294967295 then bcast_ethaddr else net_server_ethaddr) = send_ether s dest.
Proof. unfold send_ether. by case_match. Qed.

(** The frame in the transmit buffer, before it is sent or waits. *)
Lemma send_builds s P dest dport sport :
  tx_holds s P -> is_mac (net_ethaddr s) -> is_mac (server_ethaddr s) ->
  exists z' R,
    (let ether := send_ether s dest in
     frag_bind (net_set_ether s (net_tx_packet s) ether PROT_IP) (fun '(b, o) =>
     frag_bind (net_set_udp_header s b o (send_dest dest) dport sport (Z.of_nat (length P))) (fun b =>
     FOk (b, o)))) =
    FOk (udp_frame s (send_ether s dest) (send_dest dest) dport sport P ++ z' :: R, net_eth_hdr_size s).
Proof.
  intros (X & z & R & E & L) He Hs. cbv zeta.
  assert (is_mac (send_ether s dest)) as Hd by (unfold send_ether; case_match; [apply bcast_mac|done]).
  set (h := net_eth_hdr_size s) in *.
  assert (0 <= h) as Hh by (unfold h; rewrite eth_hdr_size_eq; case_match; lia).
  rewrite E, <- (take_drop (Z.to_nat h) X), <- (assoc_L (++)). unfold IP_UDP_HDR_SIZE in L.
  rewrite set_ether_spec; [|done|done|rewrite length_take; fold h; lia]. cbn [frag_bind].
  destruct (set_udp_header_spec s (eth_header s (send_ether s dest) PROT_IP) (drop (Z.to_nat h) X) P z R h
              (send_dest dest) dport sport) as (z' & U).
  - unfold h. by rewrite eth_header_length.
  - rewrite length_drop. lia.
  - exists z', R. fold h. rewrite U. cbn [frag_bind]. do 2 f_equal. unfold udp_frame.
    by rewrite <- !(assoc_L (++)).
Qed.

Lemma send_packet_prefix s f R :
  net_send_packet s (f ++ R) (Z.of_nat (length f)) = FOk (add_sent s f).
Proof.
  unfold net_send_packet. rewrite !(proj2 (Z.leb_le _ _)) by (rewrite ?length_app; lia). cbn [andb].
  do 2 f_equal. slice_ext.
Qed.

(** ** ARP packets *)

Definition arp_fields (b : list Z) (o op : Z) (sha : list Z) (spa : Z) (tha : list Z) (tpa : Z) : frag_res (list Z) :=
  frag_bind (copy_in b o (net16 ARP_ETHER)) (fun b =>
  frag_bind (copy_in b (o + 2) (net16 PROT_IP)) (fun b =>
  frag_bind (copy_in b (o + 4) [6; 4]) (fun b =>
  frag_bind (copy_in b (o + 6) (net16 op)) (fun b =>
  frag_bind (copy_in b (o + 8) sha) (fun b =>
  frag_bind (copy_in b (o + 14) (ip_bytes spa)) (fun b =>
  frag_bind (copy_in b (o + 18) tha) (fun b =>
  copy_in b (o + 24) (ip_bytes tpa)))))))).

Lemma arp_fields_spec E X R o op sha spa tha tpa :
  o = Z.of_nat (length E) -> length X = 28%nat -> is_mac sha -> is_mac tha ->
  arp_fields (E ++ X ++ R) o op sha spa tha tpa = FOk (E ++ arp_packet op sha spa tha tpa ++ R).
Proof.
  intros Ho L Hs Ht. transitivity (behind E (arp_fields (X ++ R) 0 op sha spa tha tpa)).
  - unfold arp_fields. rewrite <- (Z.add_0_r o) at 1. go_behind E o.
    by rewrite (copy_in_behind E _ o) by (done || lia).
  - apply mac_entries in Hs as (?&?&?&?&?&?&->). apply mac_entries in Ht as (?&?&?&?&?&?&->).
    do 28 (destruct X as [|? X]; [done|]). destruct X; [|done]. unfold arp_fields.
    repeat (rewrite copy_in_app by (simpl; lia); cbn [frag_bind]). done.
Qed.

Lemma arp_packet_length op sha spa tha tpa :
  is_mac sha -> is_mac tha -> length (arp_packet op sha spa tha tpa) = 28%nat.
Proof. intros [Ls _] [Lt _]. unfold arp_packet. rewrite !length_app, Ls, Lt. done. Qed.

(** A buffer big enough for a frame with an ARP packet. *)
Definition arp_room (s : net) (b : list Z) : Prop :=
  net_eth_hdr_size s + ARP_HDR_SIZE <= Z.of_nat (length b).

Definition arp_frame (s : net) (dest : list Z) (op : Z) (sha : list Z) (spa : Z) (tha : list Z) (tpa : Z) : list Z :=
  eth_header s dest PROT_ARP ++ arp_packet op sha spa tha tpa.

Lemma null_mac : is_mac net_null_ethaddr.
Proof. split; [done|]. repeat constructor; unfold is_byte; lia. Qed.

Lemma eth_size_pos s : 14 <= net_eth_hdr_size s <= 18.
Proof. rewrite eth_hdr_size_eq. case_match; lia. Qed.

Lemma arp_frame_length s dest op sha spa tha tpa :
  is_mac dest -> is_mac (net_ethaddr s) -> is_mac sha -> is_mac tha ->
  Z.of_nat (length (arp_frame s dest op sha spa tha tpa)) = net_eth_hdr_size s + ARP_HDR_SIZE.
Proof.
  intros. unfold arp_frame. rewrite length_app, arp_packet_length, Nat2Z.inj_add, eth_header_length by done. done.
Qed.

(** A request goes to everybody. *)
Lemma arp_raw_request_spec s source target_eth target :
  is_mac (net_ethaddr s) -> is_mac target_eth -> arp_room s (arp_tx_packet s) ->
  exists b,
    arp_raw_request s source target_eth target =
    FOk (add_sent (set_arp_tx s b)
           (arp_frame s net_bcast_ethaddr ARPOP_REQUEST (net_ethaddr s) source target_eth target)) /\
    length b = length (arp_tx_packet s).
Proof.
  intros Ha Ht Hr. unfold arp_room, ARP_HDR_SIZE in Hr. pose proof (eth_size_pos s).
  set (h := net_eth_hdr_size s) in *. set (B := arp_tx_packet s) in *.
  assert (B = take (Z.to_nat h) B ++ take 28 (drop (Z.to_nat h) B) ++ drop 28 (drop (Z.to_nat h) B)) as E
    by (by rewrite !take_drop).
  set (X := take (Z.to_nat h) B) in *. set (Y := take 28 (drop (Z.to_nat h) B)) in *.
  set (R := drop 28 (drop (Z.to_nat h) B)) in *.
  assert (Z.of_nat (length X) = h /\ length Y = 28%nat) as [Lx Ly].
  { unfold X, Y. rewrite !length_take, length_drop. lia. }
  clearbody X Y R.
  assert (length B = (Z.to_nat h + 28 + length R)%nat) as LB by (rewrite E, !length_app; lia).
  exists (arp_frame s net_bcast_ethaddr ARPOP_REQUEST (net_ethaddr s) source target_eth target ++ R).
  split; [|rewrite LB, length_app; pose proof (arp_frame_length s net_bcast_ethaddr ARPOP_REQUEST
             (net_ethaddr s) source target_eth target bcast_mac Ha Ha Ht) as Lf;
           unfold ARP_HDR_SIZE in Lf; fold h in Lf; lia].
  unfold arp_raw_request. fold B. rewrite E.
  rewrite set_ether_spec by (done || apply bcast_mac). cbn [frag_bind].
  transitivity (frag_bind (arp_fields (eth_header s net_bcast_ethaddr PROT_ARP ++ Y ++ R) h ARPOP_REQUEST
                  (net_ethaddr s) source target_eth target)
                  (fun b => net_send_packet (set_arp_tx s b) b (h + ARP_HDR_SIZE))).
  { unfold arp_fields. fold h. repeat (rewrite frag_bind_assoc; apply frag_bind_ext; intros ?). done. }
  rewrite arp_fields_spec by (done || (unfold h; by rewrite eth_header_length by (done || apply bcast_mac))).
  cbn [frag_bind]. rewrite (assoc_L (++)).
  fold (arp_frame s net_bcast_ethaddr ARPOP_REQUEST (net_ethaddr s) source target_eth target).
  unfold h. rewrite <- (arp_frame_length s net_bcast_ethaddr ARPOP_REQUEST (net_ethaddr s) source target_eth target)
    by (done || apply bcast_mac).
  apply send_packet_prefix.
Qed.

(** ** Sending *)

Lemma set_frag_id s : set_frag s (frag s) = s.
Proof. by destruct s. Qed.

(** The state after a datagram has been built in the transmit buffer. *)
Definition built (s : net) (b : list Z) : net := set_ip_id (set_tx s b) (u32 (net_ip_id s + 1)).

Lemma udp_frame_length s ether dest dport sport P :
  is_mac ether -> is_mac (net_ethaddr s) ->
  Z.of_nat (length (udp_frame s ether dest dport sport P))
  = net_eth_hdr_size s + IP_UDP_HDR_SIZE + Z.of_nat (length P).
Proof.
  intros He Hs. unfold udp_frame. rewrite !length_app, ip_header_length, !Nat2Z.inj_add.
  rewrite eth_header_length by done. unfold IP_UDP_HDR_SIZE. simpl length. lia.
Qed.

Lemma send_ether_mac s dest : is_mac (server_ethaddr s) -> is_mac (send_ether s dest).
Proof. intros. unfold send_ether. case_match; [apply bcast_mac|done]. Qed.

Lemma set_fields s b id :
  ifc (set_ip_id (set_tx s b) id) = ifc s /\ server_ethaddr (set_ip_id (set_tx s b) id) = server_ethaddr s /\
  net_tx_packet (set_ip_id (set_tx s b) id) = b /\ arp_tx_packet (set_ip_id (set_tx s b) id) = arp_tx_packet s /\
  arpw (set_ip_id (set_tx s b) id) = arpw s.
Proof. by destruct s. Qed.

(** With the address known, the frame goes out as it is. *)
Lemma send_udp_known s now P dest dport sport :
  tx_holds s P -> is_mac (net_ethaddr s) -> is_mac (server_ethaddr s) ->
  send_ether s dest <> net_null_ethaddr ->
  exists b,
    net_send_udp_packet s now net_server_ethaddr dest dport sport (Z.of_nat (length P)) =
    FOk (add_sent (built s b) (udp_frame s (send_ether s dest) (send_dest dest) dport sport P), 0).
Proof.
  intros Ht He Hs Hn. destruct (send_builds s P dest dport sport Ht He Hs) as (z & R & B).
  unfold net_send_udp_packet. fold (send_dest dest). cbv zeta in B. rewrite ether_of_send.
  destruct (net_set_ether s (net_tx_packet s) (send_ether s dest) PROT_IP) as [[b0 o]| |]; [|done..].
  cbn [frag_bind] in *.
  destruct (net_set_udp_header s b0 o (send_dest dest) dport sport (Z.of_nat (length P))) as [b1| |]; [|done..].
  cbn [frag_bind] in *. injection B as -> ->.
  eexists (_ ++ z :: R). rewrite bool_decide_eq_false_2.
  2: { by destruct s; unfold send_ether, ether_of in *; repeat case_match. }
  unfold built. destruct (set_fields s (udp_frame s (send_ether s dest) (send_dest dest) dport sport P ++ z :: R) (u32 (net_ip_id s + 1)))
    as (_ & _ & -> & _).
  rewrite <- udp_frame_length with (ether := send_ether s dest) (dest := send_dest dest) (dport := dport) (sport := sport);
    [|by apply send_ether_mac|done].
  rewrite send_packet_prefix. done.
Qed.

(** ** Receiving *)

Lemma checksum_range bs : 0 <= compute_ip_checksum bs < 65536.
Proof.
  unfold compute_ip_checksum. change 65535 with (Z.ones 16). rewrite (Z.land_ones (Z.lnot _)) by lia.
  apply Z.mod_pos_bound. lia.
Qed.

(** The header that is built passes the receiver's check. *)
Lemma ip_header_checks id dest source len proto :
  ip_checksum_ok (ip_header id dest source len proto) = true.
Proof.
  set (pre := [69; 0] ++ net16 len ++ net16 id ++ net16 IP_FLAGS_DFRAG ++ [255; u8 proto]).
  set (post := ip_bytes source ++ ip_bytes dest).
  assert (Forall (fun b => 0 <= b < 256) (pre ++ [0; 0] ++ post)) as F.
  { unfold pre, post. pose proof (net16_bytes len). pose proof (net16_bytes id).
    pose proof (ip_bytes_bytes source). pose proof (ip_bytes_bytes dest).
    change (Forall is_byte (([69; 0] ++ net16 len ++ net16 id ++ net16 IP_FLAGS_DFRAG ++ [255; u8 proto]) ++
              [0; 0] ++ ip_bytes source ++ ip_bytes dest)).
    rewrite !Forall_app, !Forall_cons, !Forall_nil. unfold is_byte at 1 2 5 6 7 8, u8.
    pose proof (net16_bytes IP_FLAGS_DFRAG). pose proof (Z.mod_pos_bound proto 256 ltac:(lia)).
    split_and!; try assumption; done || lia. }
  pose proof (proj2 (ip_checksum_accepts pre post F eq_refl ltac:(done))) as A.
  replace (ip_header id dest source len proto)
    with (pre ++ [compute_ip_checksum (pre ++ [0; 0] ++ post) mod 256;
                  compute_ip_checksum (pre ++ [0; 0] ++ post) / 256] ++ post); [exact A|].
  assert (host16 (compute_ip_checksum (ip_header_zero id dest source len proto)) =
    [compute_ip_checksum (pre ++ [0; 0] ++ post) mod 256;
     compute_ip_checksum (pre ++ [0; 0] ++ post) / 256]) as H.
  { unfold host16. rewrite u16_small by apply checksum_range.
    replace (ip_header_zero id dest source len proto) with (pre ++ [0; 0] ++ post) by done. done. }
  unfold ip_header. rewrite H. unfold pre. by rewrite <- !(assoc_L (++)).
Qed.

(** What the handler is called with: the datagram [Y] at the start of [Y ++ junk]. *)
Lemma ip_receive_udp cfg s et o id dest source dport sport P junk len :
  drop (Z.to_nat o) et =
    (ip_header id dest source (IP_UDP_HDR_SIZE + Z.of_nat (length P)) IPPROTO_UDP ++
     udp_header dport sport (Z.of_nat (length P)) ++ P) ++ junk ->
  28 + Z.of_nat (length P) <= len < 65536 -> is_u32 dest -> is_u32 source ->
  0 <= dport < 65536 -> 0 <= sport < 65536 ->
  net_ip s = 0 \/ dest = net_ip s \/ dest = 4294967295 ->
  ip_receive cfg s et o len = FOk (add_call s (udp_call P dport source sport (Z.of_nat (length P)))).
Proof.
  intros E Hlen Hd Hs Hdp Hsp Hdst. unfold ip_receive. rewrite E.
  set (n := Z.of_nat (length P)) in *. unfold IP_UDP_HDR_SIZE, IP_HDR_SIZE in *.
  set (H := ip_header id dest source (28 + n) IPPROTO_UDP).
  set (U := udp_header dport sport n). set (ip := (H ++ U ++ P) ++ junk).
  assert (ip = H ++ (U ++ P ++ junk)) as E1 by (unfold ip; by rewrite <- !(assoc_L (++))).
  assert (ip = (H ++ U) ++ (P ++ junk)) as E2 by (unfold ip; by rewrite <- !(assoc_L (++))).
  assert (0 <= n) as Hn by (unfold n; lia).
  assert (get16 ip 2 = 28 + n) as Ilen.
  { rewrite E1, get16_app_l by (simpl; lia). change (get16 H 2) with (256 * (u16 (28 + n) / 256) + u16 (28 + n) mod 256).
    apply net16_read. lia. }
  rewrite Ilen. rewrite u64_small by (unfold U64_MAX; lia).
  rewrite (proj2 (Z.ltb_ge len 20)), (proj2 (Z.ltb_ge len (28 + n))), (proj2 (Z.ltb_ge (28 + n) 20)) by lia.
  assert (get8 ip 0 = 69) as -> by (rewrite E1; rewrite get8_app_l by (simpl; lia); done).
  change (negb (Z.land 69 240 =? 64)) with false. change (negb (Z.land 69 15 =? 5)) with false. cbv iota.
  assert (slice ip 0 20 = H) as -> by (rewrite E1, slice_app_l by (simpl; lia); done).
  unfold H at 1. rewrite ip_header_checks. cbn [negb].
  assert (net_read_ip ip 16 = dest) as ->.
  { rewrite E1, read_ip_app_l by (simpl; lia). change (net_read_ip H 16) with (le_load (ip_bytes dest)). by apply ip_bytes_load. }
  assert (net_read_ip ip 12 = source) as ->.
  { rewrite E1, read_ip_app_l by (simpl; lia). change (net_read_ip H 12) with (le_load (ip_bytes source)). by apply ip_bytes_load. }
  assert (negb (net_ip s =? 0) && negb (dest =? net_ip s) && negb (dest =? 4294967295) = false) as ->.
  { destruct Hdst as [->|[-> | ->]]; [done|by rewrite Z.eqb_refl, andb_false_r|by rewrite andb_false_r]. }
  assert (hdr_ip_off ip = 16384) as Ioff by (rewrite E1; reflexivity).
  rewrite Ioff. change (Z.land 16384 (Z.lor IP_OFFS IP_FLAGS_MFRAG) =? 0) with true. cbn [negb].
  assert (reassemble cfg s ip (28 + n) = FOk (s, Some (ip, 28 + n))) as ->.
  { unfold reassemble, net_defragment. rewrite Ioff.
    change (Z.land 16384 (Z.lor IP_OFFS IP_FLAGS_MFRAG) =? 0) with true. cbn [frag_bind].
    rewrite set_frag_id. by case_match. }
  cbn [frag_bind]. unfold receive_datagram.
  assert (get8 ip 9 = IPPROTO_UDP) as -> by (rewrite E1, get8_app_l by (simpl; lia); done).
  change (IPPROTO_UDP =? IPPROTO_ICMP) with false. change (negb (IPPROTO_UDP =? IPPROTO_UDP)) with false. cbv iota.
  assert (get16 ip 24 = 8 + n) as ->.
  { rewrite E2, get16_app_l by (simpl; lia).
    change (get16 (H ++ U) 24) with (256 * (u16 (8 + n) / 256) + u16 (8 + n) mod 256). apply net16_read. lia. }
  assert (get16 ip 26 = 0) as -> by (rewrite E2, get16_app_l by (simpl; lia); done).
  unfold UDP_HDR_SIZE, IP_HDR_SIZE, IP_UDP_HDR_SIZE.
  rewrite (proj2 (Z.ltb_ge (8 + n) 8)), (proj2 (Z.ltb_ge (28 + n - 20) (8 + n))) by lia.
  cbn [orb]. change (negb (0 =? 0)) with false. rewrite andb_false_r. cbn [andb].
  assert (get16 ip 22 = dport) as ->.
  { rewrite E2, get16_app_l by (simpl; lia).
    change (get16 (H ++ U) 22) with (256 * (u16 dport / 256) + u16 dport mod 256). by apply net16_read. }
  assert (get16 ip 20 = sport) as ->.
  { rewrite E2, get16_app_l by (simpl; lia).
    change (get16 (H ++ U) 20) with (256 * (u16 sport / 256) + u16 sport mod 256). by apply net16_read. }
  assert (slice ip 28 (20 + (8 + n)) = P) as ->.
  { rewrite E2. replace 28 with (28 + 0) at 1 by lia. replace (20 + (8 + n)) with (28 + n) by lia.
    rewrite (slice_behind (H ++ U) (P ++ junk) 28) by (done || lia).
    rewrite slice_app_l by lia. apply slice_all. }
  replace (8 + n - 8) with n by lia. done.
Qed.

(** A frame from a station on the same VLAN reaches the protocol it is for. *)
Lemma vlan_range s : 0 <= vlan_of s < 4096.
Proof.
  unfold vlan_of, VLAN_IDMASK. change 4095 with (Z.ones 12). rewrite Z.land_ones by lia.
  apply Z.mod_pos_bound. lia.
Qed.

Lemma vlan_masked s : Z.land (vlan_of s) VLAN_IDMASK = vlan_of s.
Proof. unfold vlan_of. by rewrite <- Z.land_assoc, Z.land_diag. Qed.

Lemma eth_header_parts s dest prot :
  is_mac dest -> is_mac (net_ethaddr s) ->
  exists m, length m = 12%nat /\ eth_header s dest prot =
    m ++ (if vlan_of s =? VLAN_NONE then [] else net16 PROT_VLAN ++ net16 (vlan_of s)) ++ net16 prot.
Proof.
  intros [Ld _] [Ls _]. exists (dest ++ net_ethaddr s). rewrite length_app, Ld, Ls.
  split; [done|]. unfold eth_header. by rewrite <- !(assoc_L (++)).
Qed.

Lemma process_dispatch cfg A B dest prot Y len :
  is_mac dest -> is_mac (net_ethaddr A) -> net_our_vlan B = net_our_vlan A ->
  prot = PROT_IP \/ prot = PROT_ARP -> net_eth_hdr_size A <= len < 65536 ->
  let f := eth_header A dest prot ++ Y in
  let h := net_eth_hdr_size A in
  net_process_received_packet cfg B f len =
  if prot =? PROT_ARP then arp_receive B f h (len - h) else ip_receive cfg B f h (len - h).
Proof.
  intros Hd Ha Hv Hp Hl f h. unfold net_process_received_packet.
  assert (vlan_of B = vlan_of A) as Ev by (unfold vlan_of; by rewrite Hv).
  fold (vlan_of B). rewrite Ev.
  destruct (eth_header_parts A dest prot Hd Ha) as (m & Lm & Ef).
  do 12 (destruct m as [|? m]; [done|]). destruct m; [|done].
  assert (0 <= prot < 65536) as Rp by (unfold PROT_IP, PROT_ARP in *; lia).
  rewrite u64_small by (unfold U64_MAX; rewrite eth_hdr_size_eq in Hl; case_match; lia).
  unfold h, f in *. rewrite eth_hdr_size_eq in *. unfold frame_type.
  destruct (vlan_of A =? VLAN_NONE) eqn:Vn.
  - rewrite (proj2 (Z.ltb_ge len ETHER_HDR_SIZE)) by (unfold ETHER_HDR_SIZE; lia).
    assert (get16 (eth_header A dest prot ++ Y) 12 = prot) as ->.
    { rewrite Ef. rewrite get16_app_l by (simpl; lia). apply net16_read. done. }
    unfold PROT_VLAN. rewrite (proj2 (Z.ltb_ge prot 1514)), (proj2 (Z.eqb_neq prot 33024))
      by (unfold PROT_IP, PROT_ARP in *; lia).
    cbn [negb andb]. change (VLAN_NONE =? VLAN_NONE) with true. cbv iota. unfold ETHER_HDR_SIZE.
    destruct Hp as [-> | ->]; done.
  - rewrite (proj2 (Z.ltb_ge len ETHER_HDR_SIZE)) by (unfold ETHER_HDR_SIZE; lia).
    assert (get16 (eth_header A dest prot ++ Y) 12 = PROT_VLAN) as ->.
    { rewrite Ef. rewrite get16_app_l by (simpl; lia). done. }
    change (PROT_VLAN <? 1514) with false. change (negb (PROT_VLAN =? PROT_VLAN)) with false. cbv iota.
    rewrite u64_small by (unfold U64_MAX; lia).
    rewrite (proj2 (Z.ltb_ge len VLAN_ETHER_HDR_SIZE)) by (unfold VLAN_ETHER_HDR_SIZE; lia).
    assert ((Z.land (ntohs (net_our_vlan B)) VLAN_IDMASK =? VLAN_NONE) = false) as ->.
    { rewrite Hv. unfold vlan_of, myvlan in Vn. destruct (ntohs (net_our_vlan A) =? 65535) eqn:E5; [done|done]. }
    assert (get16 (eth_header A dest prot ++ Y) 16 = prot) as ->.
    { rewrite Ef. rewrite get16_app_l by (simpl; lia). apply net16_read. done. }
    assert (get16 (eth_header A dest prot ++ Y) 14 = vlan_of A) as ->.
    { rewrite Ef. rewrite get16_app_l by (simpl; lia). apply net16_read. pose proof (vlan_range A). lia. }
    rewrite vlan_masked, Vn, Z.eqb_refl. cbn [negb andb]. unfold VLAN_ETHER_HDR_SIZE.
    destruct Hp as [-> | ->]; done.
Qed.

Lemma drop_app_len (E B : list Z) o : o = Z.of_nat (length E) -> drop (Z.to_nat o) (E ++ B) = B.
Proof. intros ->. rewrite Nat2Z.id. apply drop_app_length. Qed.

(** A frame that was built reaches the handler of its destination. *)
Lemma receive_udp_frame cfg A B ether dest dport sport P junk len :
  is_mac ether -> is_mac (net_ethaddr A) -> net_our_vlan B = net_our_vlan A ->
  is_u32 dest -> is_u32 (net_ip A) -> 0 <= dport < 65536 -> 0 <= sport < 65536 ->
  net_ip B = 0 \/ dest = net_ip B \/ dest = 4294967295 ->
  let f := udp_frame A ether dest dport sport P in
  Z.of_nat (length f) <= len < 65536 ->
  net_process_received_packet cfg B (f ++ junk) len =
  FOk (add_call B (udp_call P dport (net_ip A) sport (Z.of_nat (length P)))).
Proof.
  intros He Ha Hv Hd Hs Hdp Hsp Hdst f Hlen. unfold f in *. rewrite udp_frame_length in Hlen by done.
  unfold IP_UDP_HDR_SIZE in Hlen. unfold udp_frame. rewrite <- (assoc_L (++) (eth_header A ether PROT_IP)).
  assert (0 <= net_eth_hdr_size A) by (rewrite eth_hdr_size_eq; case_match; lia).
  rewrite (process_dispatch cfg A B); [|done|done|done|by left|lia].
  change (PROT_IP =? PROT_ARP) with false. cbv iota.
  apply (ip_receive_udp cfg B _ _ (net_ip_id A) dest (net_ip A) dport sport P junk); try done; [|lia].
  rewrite drop_app_len by (by rewrite eth_header_length). done.
Qed.
