(* ===== verification/NetSafe.v ===== *)
(** Whatever arrives, the packet layer without reassembly stays inside its
    buffers; with reassembly a fragmented echo request overruns the transmit
    buffer, and the UDP checksum rejects good datagrams of odd length. *)

From S2P Require Import Prelude Bytes Cstring Crc32 NetUtils NetDefrag Net NetProps.

(** ** Staying inside *)

(** The result is there and satisfies [Q]. *)
Definition runs_to {A} (Q : A -> Prop) (r : frag_res A) : Prop :=
  match r with FOk a => Q a | _ => False end.

Lemma runs_bind {A B} (Q : B -> Prop) (m : frag_res A) (k : A -> frag_res B) :
  runs_to (fun a => runs_to Q (k a)) m -> runs_to Q (frag_bind m k).
Proof. by destruct m. Qed.

Lemma runs_mono {A} (Q Q' : A -> Prop) m : runs_to Q m -> (forall a, Q a -> Q' a) -> runs_to Q' m.
Proof. destruct m; simpl; auto. Qed.

(** A copy that fits leaves a buffer of the same length. *)
Lemma runs_copy (Q : list Z -> Prop) b a bs :
  0 <= a -> a + Z.of_nat (length bs) <= Z.of_nat (length b) ->
  (forall b', length b' = length b -> Q b') -> runs_to Q (copy_in b a bs).
Proof.
  intros. unfold copy_in. rewrite !(proj2 (Z.leb_le _ _)) by lia. simpl. auto using store_length.
Qed.

Lemma runs_copy_store (Q : list Z -> Prop) b a bs :
  0 <= a -> a + Z.of_nat (length bs) <= Z.of_nat (length b) ->
  Q (store b a bs) -> runs_to Q (copy_in b a bs).
Proof. intros. unfold copy_in. by rewrite !(proj2 (Z.leb_le _ _)) by lia. Qed.

(** The buffers have their size, the waiting packet is inside, addresses are
    six bytes. *)
Record net_ok (s : net) : Prop := mkNetOk {
  ok_tx : Z.of_nat (length (net_tx_packet s)) = PKTSIZE_ALIGN;
  ok_arp : Z.of_nat (length (arp_tx_packet s)) = PKTSIZE_ALIGN;
  ok_size : 0 <= wait_tx_packet_size (arpw s) <= PKTSIZE_ALIGN;
  ok_mac : length (net_ethaddr s) = 6%nat
}.

Lemma slice_le (b : list Z) lo hi : lo <= hi -> Z.of_nat (length (slice b lo hi)) <= hi - lo.
Proof. intros. rewrite slice_length_tot. lia. Qed.

(** The next copy of a sequence. *)
Ltac copy_step :=
  apply runs_bind, runs_copy; [lia| |intros ?b ?L];
  [first [rewrite ip_bytes_eq|idtac]; simpl; lia|].

(** The size of a received header, by the protocol field of the frame. *)
Definition header_size (protlen : Z) : Z :=
  if protlen =? PROT_VLAN then VLAN_ETHER_HDR_SIZE
  else if 1514 <? protlen then ETHER_HDR_SIZE else E802_HDR_SIZE.

Lemma header_size_range p : 14 <= header_size p <= 22.
Proof. unfold header_size, VLAN_ETHER_HDR_SIZE, ETHER_HDR_SIZE, E802_HDR_SIZE. repeat case_match; lia. Qed.

Lemma get16_store_before b a bs c :
  0 <= a -> a + Z.of_nat (length bs) <= c -> c + 2 <= Z.of_nat (length b) ->
  get16 (store b a bs) c = get16 b c.
Proof.
  intros. unfold get16, get8. rewrite !list_lookup_total_alt, !store_lookup by lia.
  by repeat (case_decide; try lia).
Qed.

Lemma runs_update_ether s et addr prot (Q : list Z * Z -> Prop) :
  net_ok s -> (22 <= length et)%nat -> length addr = 6%nat ->
  (forall b, length b = length et -> Q (b, header_size (get16 et 12))) ->
  runs_to Q (net_update_ether s et addr prot).
Proof.
  intros Hok Le La HQ. pose proof (ok_mac _ Hok) as Lm. unfold net_update_ether, header_size in *.
  assert (length (store et 0 addr) = length et) as L0 by (apply store_length; lia).
  apply runs_bind, runs_copy_store; [lia|lia|]. apply runs_bind, runs_copy_store; [lia|lia|].
  assert (length (store (store et 0 addr) 6 (net_ethaddr s)) = length et) as L1 by (rewrite store_length; lia).
  rewrite !get16_store_before by lia.
  repeat case_match; copy_step; simpl; apply HQ; lia.
Qed.

Lemma frame_type_size s et len p o l v :
  frame_type s et len = Some (p, o, l, v) -> p = PROT_IP \/ p = PROT_ARP ->
  o = header_size (get16 et 12) /\ l = len - o.
Proof.
  unfold frame_type, header_size. intros H Hp.
  destruct (Z.ltb_spec (get16 et 12) 1514).
  - injection H as <- <- <- <-. rewrite (proj2 (Z.eqb_neq _ _)) by (unfold PROT_VLAN; lia).
    rewrite (proj2 (Z.ltb_ge _ _)) by lia. done.
  - destruct (Z.eqb_spec (get16 et 12) PROT_VLAN) as [E|N]; simpl in H.
    + case_match; [done|]. case_match; [done|]. by injection H as <- <- <- <-.
    + injection H as <- <- <- <-. rewrite (proj2 (Z.ltb_lt _ _)); [done|].
      unfold PROT_IP, PROT_ARP in *. lia.
Qed.

(** ** Each reaction *)

Lemma runs_send (Q : net -> Prop) s pkt len :
  0 <= len <= Z.of_nat (length pkt) -> Q (add_sent s (slice pkt 0 len)) -> runs_to Q (net_send_packet s pkt len).
Proof. intros H HQ. unfold net_send_packet. rewrite !(proj2 (Z.leb_le _ _)) by lia. done. Qed.

Section Frame.
(** The state before, the frame and its length. *)
Context (s0 : net) (frame : list Z) (flen : Z).
Hypothesis (Lframe : Z.of_nat (length frame) = PKTSIZE_ALIGN).
Hypothesis (Hflen : 0 <= flen <= PKTSIZE_ALIGN).

(** A UDP handler is given bytes of the frame only. *)
Definition inside (c : net_call) : Prop :=
  match c with
  | udp_call pkt _ _ _ n =>
    exists a, 0 <= a /\ a + n <= flen /\ Z.of_nat (length pkt) = n /\ pkt = slice frame a (a + n)
  | _ => True
  end.

(** A state reached while the frame is processed. *)
Record fine (s : net) : Prop := mkFine {
  f_ok : net_ok s;
  f_calls : exists cs, calls s = calls s0 ++ cs /\ Forall inside cs
}.

Lemma fine_sent s f : fine s -> fine (add_sent s f).
Proof using All. intros [[? ? ? ?] ?]. split; [split|]; by destruct s. Qed.
Lemma fine_tx s b : fine s -> Z.of_nat (length b) = PKTSIZE_ALIGN -> fine (set_tx s b).
Proof using All. intros [[? ? ? ?] ?] ?. split; [split|]; by destruct s. Qed.
Lemma fine_arp_tx s b : fine s -> Z.of_nat (length b) = PKTSIZE_ALIGN -> fine (set_arp_tx s b).
Proof using All. intros [[? ? ? ?] ?] ?. split; [split|]; by destruct s. Qed.
Lemma fine_async s b : fine s -> Z.of_nat (length b) = PKTSIZE_ALIGN -> fine (set_async_tx_pkt_buf s b).
Proof using All. unfold set_async_tx_pkt_buf. case_match; auto using fine_tx, fine_arp_tx. Qed.
Lemma fine_server s e : fine s -> fine (set_server_ethaddr s e).
Proof using All. intros [[? ? ? ?] ?]. split; [split|]; by destruct s. Qed.
Lemma fine_state s l : fine s -> fine (net_set_state s l).
Proof using All. intros [[? ? ? ?] ?]. split; [split|]; by destruct s. Qed.
Lemma fine_arpw s w : fine s -> 0 <= wait_tx_packet_size w <= PKTSIZE_ALIGN -> fine (set_arpw s w).
Proof using All. intros [[? ? ? ?] ?] ?. split; [split|]; by destruct s. Qed.
Lemma fine_call s c : fine s -> inside c -> fine (add_call s c).
Proof using All.
  intros [[? ? ? ?] (cs & E & F)] Hc. split; [split; by destruct s|].
  exists (cs ++ [c]). rewrite Forall_app, Forall_singleton. split; [|done].
  destruct s. simpl in *. by rewrite E, (assoc_L (++)).
Qed.

Lemma async_length s : fine s -> Z.of_nat (length (net_get_async_tx_pkt_buf s)) = PKTSIZE_ALIGN.
Proof using All. intros [[? ? ? ?] _]. unfold net_get_async_tx_pkt_buf. by case_match. Qed.

(** The answer is copied to the free transmit buffer and sent. *)
Lemma runs_answer s et size :
  fine s -> 0 <= size <= PKTSIZE_ALIGN ->
  runs_to fine
    (frag_bind (copy_in (net_get_async_tx_pkt_buf s) 0 (slice et 0 size)) (fun t =>
       net_send_packet (set_async_tx_pkt_buf s t) t size)).
Proof using All.
  intros Hok Hs. pose proof (async_length s Hok) as La. pose proof (slice_le et 0 size ltac:(lia)).
  apply runs_bind, runs_copy; [lia|lia|]. intros t Lt. apply runs_send; [lia|].
  apply fine_sent, fine_async; [done|lia].
Qed.

Lemma runs_arp_reply s et :
  fine s -> Z.of_nat (length et) = PKTSIZE_ALIGN ->
  runs_to fine (arp_reply s et (header_size (get16 et 12))).
Proof using All.
  intros Hok Le. unfold PKTSIZE_ALIGN in Le. pose proof (header_size_range (get16 et 12)) as Ho.
  set (o := header_size (get16 et 12)) in *.
  pose proof (ok_mac _ (f_ok _ Hok)) as Lm. unfold arp_reply. apply runs_bind, runs_update_ether; [apply Hok|lia| |].
  { rewrite slice_length_tot. lia. }
  intros b L. fold o. cbv iota beta. copy_step.
  apply runs_bind, runs_copy; [lia|pose proof (slice_le b0 (o + 8) (o + 14)); lia|intros b1 L1].
  apply runs_bind, runs_copy; [lia|pose proof (slice_le b1 (o + 14) (o + 18)); lia|intros b2 L2].
  apply runs_bind, runs_copy; [lia|lia|intros b3 L3].
  copy_step. apply runs_answer; [done|unfold ARP_HDR_SIZE, PKTSIZE_ALIGN; lia].
Qed.

Lemma runs_arp_answered s et o len :
  fine s -> 0 <= o -> runs_to fine (arp_answered s et o len).
Proof using All.
  intros Hok Ho. unfold arp_answered. set (s1 := add_call _ _).
  assert (fine s1) as Hok1.
  { unfold s1. apply fine_call; [|done]. repeat case_match; auto using fine_server. }
  pose proof (ok_tx _ (f_ok _ Hok1)) as Lt. pose proof (ok_size _ (f_ok _ Hok)) as Hz. unfold PKTSIZE_ALIGN in *.
  pose proof (slice_le et (o + 8) (o + 14) ltac:(lia)).
  apply runs_bind, runs_copy; [lia|lia|intros b Lb]. apply runs_bind, runs_send; [lia|].
  simpl. apply fine_arpw; [|unfold PKTSIZE_ALIGN; simpl; lia]. apply fine_sent, fine_tx; [done|].
  unfold PKTSIZE_ALIGN. lia.
Qed.

Lemma runs_arp_receive s et len :
  fine s -> Z.of_nat (length et) = PKTSIZE_ALIGN ->
  runs_to fine (arp_receive s et (header_size (get16 et 12)) len).
Proof using All.
  intros Hok Le. unfold arp_receive. pose proof (header_size_range (get16 et 12)).
  repeat case_match; try done; auto using runs_arp_reply.
  apply runs_arp_answered; [done|lia].
Qed.

(** The steps of an echo reply, in the frame. *)
Lemma runs_ip_write s et o a bs (Q : net * list Z -> Prop) :
  0 <= o + a -> o + a + Z.of_nat (length bs) <= Z.of_nat (length et) ->
  (forall et', length et' = length et -> Q (s, et')) -> runs_to Q (ip_write s et (in_frame o) a bs).
Proof using All. intros. unfold ip_write. apply runs_bind, runs_copy; [lia|lia|]. intros. simpl. auto. Qed.

Lemma runs_ping_reply s et len :
  fine s -> Z.of_nat (length et) = PKTSIZE_ALIGN -> 20 <= len ->
  header_size (get16 et 12) + len <= PKTSIZE_ALIGN ->
  runs_to (fun '(s', _) => fine s') (ping_reply s et (in_frame (header_size (get16 et 12))) len).
Proof using All.
  intros Hok Le Hl Hfit. unfold PKTSIZE_ALIGN in Le. pose proof (header_size_range (get16 et 12)) as Ho.
  set (o := header_size (get16 et 12)) in *.
  unfold ping_reply. apply runs_bind, runs_update_ether; [apply Hok|lia| |].
  { rewrite slice_length_tot. lia. }
  intros b L. fold o. cbv iota beta.
  do 2 (apply runs_bind, runs_ip_write; [lia|simpl; lia|intros ?b ?L]; cbv iota beta).
  apply runs_bind, runs_ip_write; [lia|unfold ip_read; pose proof (slice_le b1 (o + 12) (o + 16)); lia|intros b2 L2].
  cbv iota beta.
  apply runs_bind, runs_ip_write; [lia|rewrite ip_bytes_eq; simpl; lia|intros ?b ?L]; cbv iota beta.
  do 4 (apply runs_bind, runs_ip_write; [lia|simpl; lia|intros ?b ?L]; cbv iota beta).
  rewrite (proj2 (Z.ltb_ge _ _)) by (unfold PKTSIZE_ALIGN in Hfit; lia).
  match goal with |- runs_to _ (frag_bind ?m (fun t => frag_bind (@?k t) ?j)) =>
    rewrite <- (frag_bind_assoc m k j) end.
  apply runs_bind. eapply runs_mono; [apply runs_answer; [done|lia]|]. done.
Qed.

Lemma slice_drop (b : list Z) (o : Z) lo hi :
  0 <= o -> 0 <= lo -> slice (drop (Z.to_nat o) b) lo hi = slice b (o + lo) (o + hi).
Proof using All.
  intros. unfold slice. rewrite drop_drop. f_equal; [lia|]. f_equal. lia.
Qed.

Lemma runs_icmp s len src :
  fine s -> 20 <= len -> header_size (get16 frame 12) + len <= PKTSIZE_ALIGN ->
  runs_to fine (receive_icmp s frame (in_frame (header_size (get16 frame 12))) len src).
Proof using All.
  intros Hok Hl Hfit. unfold receive_icmp. case_match; [done|]. apply runs_bind.
  eapply runs_mono with (Q := fun '(s', _) => fine s').
  - unfold ping_receive. repeat case_match; simpl; auto using fine_state. by apply runs_ping_reply.
  - intros [s' et'] Hs. simpl. by apply fine_call.
Qed.

Lemma runs_datagram cfg s len src :
  let o := header_size (get16 frame 12) in
  let ip := drop (Z.to_nat o) frame in
  fine s -> 20 <= len -> o + len <= flen ->
  runs_to fine (receive_datagram cfg s frame (in_frame o) ip len src).
Proof using All.
  intros o ip Hok Hl Hfit. unfold receive_datagram. pose proof (header_size_range (get16 frame 12)) as Ho. fold o in Ho.
  case_match; [apply runs_icmp; [done|done|unfold o in *; lia]|].
  case_match; [done|]. case_match eqn:El; [done|]. apply orb_false_iff in El as [El1 El2].
  apply Z.ltb_ge in El1, El2. case_match; [done|]. simpl. apply fine_call; [done|].
  unfold IP_HDR_SIZE, IP_UDP_HDR_SIZE, UDP_HDR_SIZE in *. set (n := get16 ip 24) in *.
  exists (o + 28). assert (slice ip 28 (20 + n) = slice frame (o + 28) (o + 28 + (n - 8))) as E.
  { unfold ip. rewrite slice_drop by lia. f_equal. lia. }
  split; [lia|]. split; [lia|]. split; [|done]. rewrite E, slice_length by lia. lia.
Qed.

Lemma runs_ip_receive cfg s :
  config_ip_defrag cfg = false ->
  let o := header_size (get16 frame 12) in
  fine s -> runs_to fine (ip_receive cfg s frame o (flen - o)).
Proof using All.
  intros Hc o Hok. unfold ip_receive. set (ip := drop (Z.to_nat o) frame).
  case_match; [done|]. case_match eqn:El; [done|]. apply Z.ltb_ge in El.
  case_match eqn:E20; [done|]. apply Z.ltb_ge in E20. unfold IP_HDR_SIZE in E20.
  repeat (case_match; [done|]). unfold reassemble. rewrite Hc.
  case_match eqn:Ef; [|done]. cbn [negb frag_bind].
  apply runs_datagram; [done|lia|fold o; lia].
Qed.

Lemma runs_process cfg :
  config_ip_defrag cfg = false -> fine s0 ->
  runs_to fine (net_process_received_packet cfg s0 frame flen).
Proof using All.
  intros Hc Hok. unfold net_process_received_packet. case_match; [done|].
  destruct (frame_type s0 frame flen) as [[[[p o] l] v]|] eqn:Et; [|done]. case_match; [done|].
  destruct (Z.eqb_spec p PROT_ARP) as [Ep|].
  - destruct (frame_type_size _ _ _ _ _ _ _ Et) as [-> ->]; [by right|]. by apply runs_arp_receive.
  - destruct (Z.eqb_spec p PROT_IP) as [Ep|]; [|done].
    destruct (frame_type_size _ _ _ _ _ _ _ Et) as [-> ->]; [by left|]. by apply runs_ip_receive.
Qed.
End Frame.


(** ** A station *)

Definition demo_if (mac ip : Z) : net_if :=
  mkIf [2; 0; 0; 0; 0; mac] ip 16777215 0 65535 65535 0.
Definition demo_wait : arp_wait := mkWait 0 0 None 0 0 0.
Definition demo_net (mac ip : Z) : net :=
  mkNet (demo_if mac ip) net_null_ethaddr 1 (replicate 1536 0) (replicate 1536 0) demo_wait 0
    (frag_init 16384) NETLOOP_CONTINUE [] [].
Definition demo_config (defrag xsum : bool) : net_config := mkConfig defrag xsum 16384 5000 5.

Definition padded (f : list Z) : list Z := f ++ replicate (1536 - length f) 0.

(** 10.0.0.1 and 10.0.0.2. *)
Definition ip_a : Z := 16777226.
Definition ip_b : Z := 33554442.

Lemma demo_net_ok mac ip : net_ok (demo_net mac ip).
Proof. split; done. Qed.


(** ** Echo requests in fragments *)

(** A datagram from [ip_a] to [ip_b] with its checksum, flags and offset as
    given. *)
Definition raw_ip (id off proto : Z) (data : list Z) : list Z :=
  let len := 20 + Z.of_nat (length data) in
  let pre := [69; 0] ++ net16 len ++ net16 id ++ net16 off ++ [64; proto] in
  let post := ip_bytes ip_a ++ ip_bytes ip_b in
  pre ++ host16 (compute_ip_checksum (pre ++ [0; 0] ++ post)) ++ post ++ data.

Definition raw_frame (p : list Z) : list Z := [2; 0; 0; 0; 0; 2; 2; 0; 0; 0; 0; 1; 8; 0] ++ p.

Definition echo_data (n : nat) : list Z := [ICMP_ECHO_REQUEST; 0] ++ replicate (n - 2) 0.

(** [ping_receive] copies as many bytes as the reassembled datagram has, from
    the last fragment's frame into a transmit buffer of 1536 bytes: a request
    of 1680 bytes in two fragments overruns both. *)
Theorem ping_fragments_overrun :
  let data := echo_data 1680 in
  let f1 := padded (raw_frame (raw_ip 9 IP_FLAGS_MFRAG IPPROTO_ICMP (take 1480 data))) in
  let f2 := padded (raw_frame (raw_ip 9 185 IPPROTO_ICMP (drop 1480 data))) in
  frag_bind (net_process_received_packet (demo_config true false) (demo_net 2 ip_b) f1 1514) (fun s =>
    net_process_received_packet (demo_config true false) s f2 234) = FOob.
Proof. vm_compute. reflexivity. Qed.

(** Even when it fits, the answer carries what was in the frame of the last
    fragment, not the request: here the request's last 8 bytes are sent back
    as the start of the datagram. *)
Theorem ping_fragments_wrong_answer :
  let data := [ICMP_ECHO_REQUEST; 0; 0; 0; 0; 1; 0; 1] ++ replicate 8 170 in
  let f1 := padded (raw_frame (raw_ip 9 IP_FLAGS_MFRAG IPPROTO_ICMP (take 8 data))) in
  let f2 := padded (raw_frame (raw_ip 9 1 IPPROTO_ICMP (drop 8 data))) in
  match frag_bind (net_process_received_packet (demo_config true false) (demo_net 2 ip_b) f1 42) (fun s =>
    net_process_received_packet (demo_config true false) s f2 42) with
  | FOk s => map (fun f => slice f 34 50) (sent s) = [replicate 8 170 ++ replicate 8 0]
  | _ => False
  end.
Proof. vm_compute. reflexivity. Qed.

(** A request that is not fragmented is answered with its data, valid
    checksums and the addresses exchanged. *)
Theorem ping_answers :
  let data := [ICMP_ECHO_REQUEST; 0; 0; 0; 0; 1; 0; 1] ++ replicate 8 170 in
  match net_process_received_packet (demo_config true false) (demo_net 2 ip_b)
          (padded (raw_frame (raw_ip 9 0 IPPROTO_ICMP data))) 50 with
  | FOk s =>
    match sent s with
    | [f] => slice f 0 14 = [2; 0; 0; 0; 0; 1; 2; 0; 0; 0; 0; 2; 8; 0] /\
        ip_checksum_ok (slice f 14 34) = true /\ slice f 26 34 = ip_bytes ip_b ++ ip_bytes ip_a /\
        ip_checksum_ok (slice f 34 50) = true /\ get8 f 34 = ICMP_ECHO_REPLY /\ slice f 38 50 = drop 4 data
    | _ => False
    end
  | _ => False
  end.
Proof. vm_compute. repeat (split; [reflexivity|]). reflexivity. Qed.

(** ** The UDP checksum *)

(** The datagram with the checksum its sender puts in: the complement of the
    sum over the pseudo header and the datagram, an odd byte at the end
    counting as the high byte of a word (RFC 768). *)
Fixpoint rfc_sum (bytes : list Z) : Z :=
  match bytes with
  | [] => 0
  | [b] => 256 * b
  | b0 :: b1 :: bytes => 256 * b0 + b1 + rfc_sum bytes
  end.

Definition udp_datagram (sport dport : Z) (payload : list Z) : list Z :=
  let len := 8 + Z.of_nat (length payload) in
  let pseudo := ip_bytes ip_a ++ ip_bytes ip_b ++ [0; IPPROTO_UDP] ++ net16 len in
  let zero := net16 sport ++ net16 dport ++ net16 len ++ [0; 0] ++ payload in
  let sum := fold_carries 16 (rfc_sum (pseudo ++ zero)) in
  net16 sport ++ net16 dport ++ net16 len ++ net16 (65535 - sum) ++ payload.

(** What handlers were called with when the datagram comes in and checksums
    are checked. *)
Definition udp_seen (payload : list Z) : option (list net_call) :=
  let f := raw_frame (raw_ip 9 0 IPPROTO_UDP (udp_datagram 69 1024 payload)) in
  match net_process_received_packet (demo_config false true) (demo_net 2 ip_b) (padded f) (Z.of_nat (length f)) with
  | FOk s => Some (calls s)
  | _ => None
  end.

(** A good datagram of even length is delivered; one of odd length, whose
    last byte the code counts twice, is thrown away. *)
Theorem udp_odd_checksum_rejected :
  udp_seen [1; 2; 3; 4] = Some [udp_call [1; 2; 3; 4] 1024 ip_a 69 4] /\ udp_seen [1; 2; 3] = Some [].
Proof. split; vm_compute; reflexivity. Qed.
