(* ===== verification/NetArp.v ===== *)
(** Address resolution (src/net/arp.c): a datagram for a station whose
    Ethernet address is not known is held back, the address is asked for, and
    the datagram goes out when the answer comes. *)

From S2P Require Import Prelude Bytes Cstring Crc32 NetUtils NetDefrag Net NetProps NetSafe.

(** ** Answering *)

Lemma update_ether_spec A B dest prot addr prot' R :
  is_mac dest -> is_mac (net_ethaddr A) -> is_mac (net_ethaddr B) -> is_mac addr ->
  net_our_vlan B = net_our_vlan A -> prot = PROT_IP \/ prot = PROT_ARP ->
  net_update_ether B (eth_header A dest prot ++ R) addr prot' =
  FOk (eth_header B addr prot' ++ R, net_eth_hdr_size A).
Proof.
  intros Hd Ha Hb Hx Hv Hp. assert (vlan_of B = vlan_of A) as Ev by (unfold vlan_of; by rewrite Hv).
  assert (0 <= prot < 65536) as Rp by (unfold PROT_IP, PROT_ARP in *; lia).
  unfold net_update_ether, eth_header. rewrite Ev, eth_hdr_size_eq.
  apply mac_entries in Hd as (?&?&?&?&?&?&->). apply mac_entries in Hx as (?&?&?&?&?&?&->).
  apply mac_entries in Ha as (?&?&?&?&?&?&->). apply mac_entries in Hb as (?&?&?&?&?&?&->).
  destruct (vlan_of A =? VLAN_NONE).
  - do 2 (rewrite copy_in_app by (simpl; lia); cbn [frag_bind]).
    rewrite get16_app_l by (simpl; lia).
    match goal with |- context [get16 ?l 12] => assert (get16 l 12 = prot) as -> by (by apply net16_read) end.
    unfold PROT_VLAN. rewrite (proj2 (Z.eqb_neq prot 33024)), (proj2 (Z.ltb_lt 1514 prot))
      by (unfold PROT_IP, PROT_ARP in *; lia).
    rewrite copy_in_app by (simpl; lia). done.
  - do 2 (rewrite copy_in_app by (simpl; lia); cbn [frag_bind]).
    rewrite get16_app_l by (simpl; lia).
    match goal with |- context [get16 ?l 12] => assert (get16 l 12 = PROT_VLAN) as -> by (by apply net16_read) end.
    rewrite Z.eqb_refl. rewrite copy_in_app by (simpl; lia). done.
Qed.

(** The fields of the answer, at offset [o]. *)
Definition arp_turn (b : list Z) (o : Z) (mac : list Z) (ip : Z) : frag_res (list Z) :=
  frag_bind (copy_in b (o + 6) (net16 ARPOP_REPLY)) (fun b =>
  frag_bind (copy_in b (o + 18) (slice b (o + 8) (o + 14))) (fun b =>
  frag_bind (copy_in b (o + 24) (slice b (o + 14) (o + 18))) (fun b =>
  frag_bind (copy_in b (o + 8) mac) (fun b =>
  copy_in b (o + 14) (ip_bytes ip))))).

Lemma arp_turn_spec E R o op sha spa tha tpa mac ip :
  o = Z.of_nat (length E) -> is_mac sha -> is_mac tha -> is_mac mac ->
  arp_turn (E ++ arp_packet op sha spa tha tpa ++ R) o mac ip =
  FOk (E ++ arp_packet ARPOP_REPLY mac ip sha spa ++ R).
Proof.
  intros Ho Hs Ht Hm. transitivity (behind E (arp_turn (arp_packet op sha spa tha tpa ++ R) 0 mac ip)).
  - unfold arp_turn.
    repeat (rewrite ?(slice_behind E _ o) by (done || lia); rewrite (copy_in_behind E _ o) by (done || lia);
            rewrite behind_bind, <- bind_behind; apply frag_bind_ext; intros ?).
    by rewrite (copy_in_behind E _ o) by (done || lia).
  - apply mac_entries in Hs as (?&?&?&?&?&?&->). apply mac_entries in Ht as (?&?&?&?&?&?&->).
    apply mac_entries in Hm as (?&?&?&?&?&?&->). unfold arp_turn.
    repeat (rewrite ?slice_app_l by (simpl; lia); rewrite copy_in_app by (simpl; lia); cbn [frag_bind]). done.
Qed.

Lemma copy_whole b f :
  Z.of_nat (length f) <= Z.of_nat (length b) -> exists R, copy_in b 0 f = FOk (f ++ R).
Proof.
  intros L. exists (drop (length f) b). unfold copy_in. rewrite !(proj2 (Z.leb_le _ _)) by lia. done.
Qed.

Lemma eth_header_src s dest prot R :
  is_mac dest -> is_mac (net_ethaddr s) -> slice (eth_header s dest prot ++ R) 6 12 = net_ethaddr s.
Proof.
  intros (?&?&?&?&?&?&->)%mac_entries Hs. unfold eth_header.
  apply mac_entries in Hs as (?&?&?&?&?&?&->). done.
Qed.

(** A request for our address is answered to the one who asked. *)
Lemma arp_reply_spec A B dest op tha tpa junk :
  is_mac dest -> is_mac tha -> is_mac (net_ethaddr A) -> is_mac (net_ethaddr B) ->
  net_our_vlan B = net_our_vlan A -> arp_room A (net_get_async_tx_pkt_buf B) ->
  exists b,
    arp_reply B (arp_frame A dest op (net_ethaddr A) (net_ip A) tha tpa ++ junk) (net_eth_hdr_size A) =
    FOk (add_sent (set_async_tx_pkt_buf B b)
           (arp_frame B (net_ethaddr A) ARPOP_REPLY (net_ethaddr B) (net_ip B) (net_ethaddr A) (net_ip A))).
Proof.
  intros Hd Ht Ha Hb Hv Hr. unfold arp_reply, arp_frame at 1. set (h := net_eth_hdr_size A).
  set (req := arp_packet op (net_ethaddr A) (net_ip A) tha tpa).
  assert (slice (arp_frame A dest op (net_ethaddr A) (net_ip A) tha tpa ++ junk) 6 12 = net_ethaddr A) as ->.
  { unfold arp_frame. rewrite <- (assoc_L (++)). by apply eth_header_src. }
  rewrite <- (assoc_L (++)). rewrite update_ether_spec by (done || by right). cbn [frag_bind]. fold h.
  assert (vlan_of B = vlan_of A) as Ev by (unfold vlan_of; by rewrite Hv).
  assert (net_eth_hdr_size B = h) as Eh by (unfold h; by rewrite !eth_hdr_size_eq, Ev).
  set (f := arp_frame B (net_ethaddr A) ARPOP_REPLY (net_ethaddr B) (net_ip B) (net_ethaddr A) (net_ip A)).
  assert (Z.of_nat (length f) = h + ARP_HDR_SIZE) as Lf by (unfold f; by rewrite arp_frame_length, Eh).
  destruct (copy_whole (net_get_async_tx_pkt_buf B) f) as (R & Ec); [unfold arp_room in Hr; fold h in Hr; lia|].
  eexists. transitivity (frag_bind (arp_turn (eth_header B (net_ethaddr A) PROT_ARP ++ req ++ junk) h (net_ethaddr B) (net_ip B))
    (fun b => frag_bind (copy_in (net_get_async_tx_pkt_buf B) 0 (slice b 0 (h + ARP_HDR_SIZE))) (fun t =>
       net_send_packet (set_async_tx_pkt_buf B t) t (h + ARP_HDR_SIZE)))).
  { unfold arp_turn. repeat (rewrite frag_bind_assoc; apply frag_bind_ext; intros ?). done. }
  unfold req. rewrite arp_turn_spec by (done || by rewrite eth_header_length). cbn [frag_bind].
  rewrite (assoc_L (++)).
  change (eth_header B (net_ethaddr A) PROT_ARP ++
          arp_packet ARPOP_REPLY (net_ethaddr B) (net_ip B) (net_ethaddr A) (net_ip A)) with f.
  rewrite <- Lf, slice_app_l by lia. rewrite slice_all, Ec. cbn [frag_bind].
  apply send_packet_prefix.
Qed.

(** ** Receiving *)

Lemma get8_behind E B o a : o = Z.of_nat (length E) -> 0 <= a -> get8 (E ++ B) (o + a) = get8 B a.
Proof. intros -> ?. unfold get8. rewrite lookup_total_app_r by lia. f_equal. lia. Qed.

Lemma get16_behind E B o a : o = Z.of_nat (length E) -> 0 <= a -> get16 (E ++ B) (o + a) = get16 B a.
Proof.
  intros Ho ?. unfold get16. replace (o + a + 1) with (o + (a + 1)) by lia.
  by rewrite !(get8_behind E B o) by lia.
Qed.

Lemma read_ip_behind E B o a : o = Z.of_nat (length E) -> 0 <= a -> net_read_ip (E ++ B) (o + a) = net_read_ip B a.
Proof.
  intros Ho ?. unfold net_read_ip. replace (o + a + 4) with (o + (a + 4)) by lia.
  by rewrite (slice_behind E B o) by lia.
Qed.

(** A well-formed packet for our address gets past the checks. *)
Lemma arp_receive_mine s E R o len op sha spa tha tpa :
  o = Z.of_nat (length E) -> ARP_HDR_SIZE <= len -> is_mac sha -> is_mac tha ->
  is_u32 spa -> is_u32 tpa -> 0 <= op < 65536 -> net_ip s = tpa -> tpa <> 0 ->
  let et := E ++ arp_packet op sha spa tha tpa ++ R in
  arp_receive s et o len =
  if op =? ARPOP_REQUEST then arp_reply s et o
  else if op =? ARPOP_REPLY then
    if negb (arp_is_waiting s) then FOk s
    else if spa =? wait_reply_ip (arpw s) then arp_answered s et o len
    else FOk s
  else FOk s.
Proof.
  intros Ho Hl Hs Ht Rs Rt Rop Hip Nip et. unfold arp_receive.
  rewrite (proj2 (Z.ltb_ge _ _)) by lia.
  assert (get16 et o = ARP_ETHER) as ->.
  { rewrite <- (Z.add_0_r o). unfold et. rewrite (get16_behind E _ o) by lia.
    rewrite get16_app_l by (rewrite ?arp_packet_length by done; lia). done. }
  assert (get16 et (o + 2) = PROT_IP) as ->.
  { unfold et. rewrite (get16_behind E _ o), get16_app_l by (rewrite ?arp_packet_length by done; lia). done. }
  assert (get8 et (o + 4) = 6) as ->.
  { unfold et. rewrite (get8_behind E _ o), get8_app_l by (rewrite ?arp_packet_length by done; lia). done. }
  assert (get8 et (o + 5) = 4) as ->.
  { unfold et. rewrite (get8_behind E _ o), get8_app_l by (rewrite ?arp_packet_length by done; lia). done. }
  apply mac_entries in Hs as (?&?&?&?&?&?&Es). apply mac_entries in Ht as (?&?&?&?&?&?&Et).
  assert (net_read_ip et (o + 24) = tpa) as ->.
  { unfold et. rewrite (read_ip_behind E _ o), read_ip_app_l by (rewrite ?Es, ?Et; simpl; lia).
    rewrite Es, Et. by apply ip_bytes_load. }
  assert (net_read_ip et (o + 14) = spa) as ->.
  { unfold et. rewrite (read_ip_behind E _ o), read_ip_app_l by (rewrite ?Es, ?Et; simpl; lia).
    rewrite Es, Et. by apply ip_bytes_load. }
  assert (get16 et (o + 6) = op) as ->.
  { unfold et. rewrite (get16_behind E _ o), get16_app_l by (rewrite ?Es, ?Et; simpl; lia).
    rewrite Es, Et. by apply net16_read. }
  rewrite Hip, !Z.eqb_refl. cbn [negb]. rewrite (proj2 (Z.eqb_neq tpa 0)) by done. done.
Qed.

(** ** Waiting for the address *)

(** Where the question is sent to: the station itself when it is on our
    network or there is no gateway. *)
Definition direct (s : net) (dest : Z) : Prop :=
  Z.land dest (net_netmask s) = Z.land (net_ip s) (net_netmask s) \/ net_gateway s = 0.

Definition waiting_for (s : net) (b : list Z) (dest size now : Z) : net :=
  set_arpw (built s b) (mkWait dest dest (Some net_server_ethaddr) size now 1).

(** With the address unknown, the frame stays in the buffer and a request
    goes out. *)
Lemma send_udp_unknown s now P dest dport sport :
  tx_holds s P -> is_mac (net_ethaddr s) -> server_ethaddr s = net_null_ethaddr ->
  arp_room s (arp_tx_packet s) -> dest <> 0 -> dest <> 4294967295 -> direct s dest ->
  let f := udp_frame s net_null_ethaddr dest dport sport P in
  exists R b,
    net_send_udp_packet s now net_server_ethaddr dest dport sport (Z.of_nat (length P)) =
    FOk (add_sent (set_arp_tx (waiting_for s (f ++ R) dest (Z.of_nat (length f)) now) b)
           (arp_frame s net_bcast_ethaddr ARPOP_REQUEST (net_ethaddr s) (net_ip s) net_null_ethaddr dest), 1).
Proof.
  intros Ht He Hs Hr Nd Nb Hdir f.
  assert (is_mac (server_ethaddr s)) as Hsm by (rewrite Hs; apply null_mac).
  destruct (send_builds s P dest dport sport Ht He Hsm) as (z & R & B).
  assert (send_dest dest = dest) as Ed by (unfold send_dest; by rewrite (proj2 (Z.eqb_neq _ _))).
  assert (send_ether s dest = net_null_ethaddr) as Ee
    by (unfold send_ether; rewrite Ed, (proj2 (Z.eqb_neq _ _)); done).
  unfold net_send_udp_packet. fold (send_dest dest). cbv zeta in B. rewrite ether_of_send, Ed, Ee in *.
  destruct (net_set_ether s (net_tx_packet s) net_null_ethaddr PROT_IP) as [[b0 o]| |]; [|done..].
  cbn [frag_bind] in *.
  destruct (net_set_udp_header s b0 o dest dport sport (Z.of_nat (length P))) as [b1| |]; [|done..].
  cbn [frag_bind] in *. injection B as -> ->. fold f.
  rewrite bool_decide_eq_true_2.
  2: { rewrite (proj2 (Z.eqb_neq dest 4294967295)) by done. destruct s; simpl in *. done. }
  rewrite <- (udp_frame_length s net_null_ethaddr dest dport sport P) by (done || apply null_mac). fold f.
  rewrite (proj2 (Z.eqb_neq dest 4294967295)) by done.
  exists (z :: R). unfold arp_request.
  set (s1 := set_arpw (set_ip_id _ _) _).
  assert (ifc s1 = ifc s /\ arp_tx_packet s1 = arp_tx_packet s /\ wait_packet_ip (arpw s1) = dest) as (I1 & A1 & W1)
    by (by unfold s1; destruct s).
  assert (set_arpw s1 (set_reply_ip (arpw s1) dest) = waiting_for s (f ++ z :: R) dest (Z.of_nat (length f)) now) as Ew
    by (by unfold s1, waiting_for, built; destruct s).
  assert ((if Z.land (wait_packet_ip (arpw s1)) (net_netmask s1) =? Z.land (net_ip s1) (net_netmask s1)
           then wait_packet_ip (arpw s1)
           else if net_gateway s1 =? 0 then wait_packet_ip (arpw s1) else net_gateway s1) = dest) as ->.
  { unfold net_netmask, net_ip, net_gateway in *. rewrite I1, W1. unfold direct, net_netmask, net_ip, net_gateway in Hdir.
    destruct Hdir as [-> | ->]; [by rewrite Z.eqb_refl|]. by case_match. }
  rewrite Ew. set (s2 := waiting_for _ _ _ _ _).
  assert (ifc s2 = ifc s /\ arp_tx_packet s2 = arp_tx_packet s) as (I2 & A2) by (by unfold s2; destruct s).
  destruct (arp_raw_request_spec s2 (net_ip s1) net_null_ethaddr dest) as (b & Eb & _).
  { unfold net_ethaddr in *. by rewrite I2. }
  { apply null_mac. }
  { unfold arp_room, net_eth_hdr_size, net_our_vlan in *. by rewrite I2, A2. }
  exists b. rewrite Eb. cbn [frag_bind]. do 2 f_equal.
  unfold arp_frame, eth_header, vlan_of, net_ethaddr, net_ip, net_our_vlan. by rewrite I1, I2.
Qed.

(** ** The answer *)

Lemma udp_frame_dest s e e' dest dport sport P R :
  is_mac e -> is_mac e' ->
  copy_in (udp_frame s e dest dport sport P ++ R) 0 e' = FOk (udp_frame s e' dest dport sport P ++ R).
Proof.
  intros (?&?&?&?&?&?&->)%mac_entries (?&?&?&?&?&?&->)%mac_entries.
  unfold udp_frame, eth_header. rewrite <- !(assoc_L (++)). by rewrite copy_in_app by (simpl; lia).
Qed.

(** The state in which the answer is processed. *)
Definition waits (s s0 : net) (f R : list Z) (dest : Z) : Prop :=
  ifc s = ifc s0 /\ net_tx_packet s = f ++ R /\ wait_packet_ip (arpw s) = dest /\
  wait_reply_ip (arpw s) = dest /\ wait_packet_ethaddr (arpw s) = Some net_server_ethaddr /\
  wait_tx_packet_size (arpw s) = Z.of_nat (length f).

Lemma arp_answered_spec s s0 R et o len mac dest dport sport P :
  is_mac (net_ethaddr s0) -> is_mac mac -> slice et (o + 8) (o + 14) = mac ->
  waits s s0 (udp_frame s0 net_null_ethaddr dest dport sport P) R dest ->
  exists s', arp_answered s et o len = FOk s' /\
    sent s' = sent s ++ [udp_frame s0 mac dest dport sport P] /\
    server_ethaddr s' = mac /\ arp_is_waiting s' = false /\ ifc s' = ifc s0.
Proof.
  intros Ha Hm Es (I & T & W & Wr & We & Wz). unfold arp_answered. rewrite We, Es, Wz, Wr.
  set (s1 := add_call _ _). assert (net_tx_packet s1 = net_tx_packet s) as -> by (by unfold s1; destruct s).
  rewrite T, udp_frame_dest by (done || apply null_mac). cbn [frag_bind].
  assert (Z.of_nat (length (udp_frame s0 net_null_ethaddr dest dport sport P)) =
          Z.of_nat (length (udp_frame s0 mac dest dport sport P))) as ->
    by (by rewrite !udp_frame_length by (done || apply null_mac)).
  rewrite send_packet_prefix. cbn [frag_bind]. eexists. split; [done|].
  unfold s1. destruct s. cbn in *. done.
Qed.

(** [f] arrives with padding behind it. *)
Definition receive (cfg : net_config) (s : net) (f : list Z) : frag_res net :=
  net_process_received_packet cfg s f (Z.of_nat (length f)).

(** The request of [A] for the address of [B]. *)
Definition request_of (A B : net) : list Z :=
  arp_frame A net_bcast_ethaddr ARPOP_REQUEST (net_ethaddr A) (net_ip A) net_null_ethaddr (net_ip B).

Definition answer_of (A B : net) : list Z :=
  arp_frame B (net_ethaddr A) ARPOP_REPLY (net_ethaddr B) (net_ip B) (net_ethaddr A) (net_ip A).

Lemma receive_request cfg A B j :
  is_mac (net_ethaddr A) -> is_mac (net_ethaddr B) -> net_our_vlan B = net_our_vlan A ->
  is_u32 (net_ip A) -> is_u32 (net_ip B) -> net_ip B <> 0 ->
  arp_room B (net_get_async_tx_pkt_buf B) -> Z.of_nat (length j) <= 60 ->
  exists b, receive cfg B (request_of A B ++ j) = FOk (add_sent (set_async_tx_pkt_buf B b) (answer_of A B)).
Proof.
  intros Ha Hb Hv Ra Rb Nb Hroom Lj.
  destruct (arp_reply_spec A B net_bcast_ethaddr ARPOP_REQUEST net_null_ethaddr (net_ip B) j) as (b & E);
    [apply bcast_mac|apply null_mac|done|done|done| |].
  { unfold arp_room, net_eth_hdr_size in *. by rewrite <- Hv. }
  exists b. pose proof (eth_size_pos A) as Hh. unfold receive, request_of.
  rewrite length_app, Nat2Z.inj_add, arp_frame_length by (done || apply bcast_mac || apply null_mac).
  unfold arp_frame. rewrite <- (assoc_L (++)). unfold ARP_HDR_SIZE in *.
  rewrite (process_dispatch cfg A B) by (done || apply bcast_mac || (by right) || lia).
  rewrite Z.eqb_refl.
  rewrite arp_receive_mine by (done || apply null_mac || (unfold ARP_HDR_SIZE; lia) ||
    (by rewrite eth_header_length by (done || apply bcast_mac))).
  change (ARPOP_REQUEST =? ARPOP_REQUEST) with true. cbv iota. rewrite (assoc_L (++)). exact E.
Qed.

Lemma receive_answer cfg A A1 B R P dport sport j :
  is_mac (net_ethaddr A) -> is_mac (net_ethaddr B) -> net_our_vlan B = net_our_vlan A ->
  is_u32 (net_ip A) -> is_u32 (net_ip B) -> net_ip A <> 0 -> net_ip B <> 0 -> Z.of_nat (length j) <= 60 ->
  waits A1 A (udp_frame A net_null_ethaddr (net_ip B) dport sport P) R (net_ip B) ->
  exists A2, receive cfg A1 (answer_of A B ++ j) = FOk A2 /\
    sent A2 = sent A1 ++ [udp_frame A (net_ethaddr B) (net_ip B) dport sport P] /\
    server_ethaddr A2 = net_ethaddr B /\ arp_is_waiting A2 = false /\ ifc A2 = ifc A.
Proof.
  intros Ha Hb Hv Ra Rb Na Nb Lj Wa. pose proof Wa as (IA & _ & Wp & Wr & _).
  pose proof (eth_size_pos B) as Hh.
  set (E := eth_header B (net_ethaddr A) PROT_ARP).
  set (ans := arp_packet ARPOP_REPLY (net_ethaddr B) (net_ip B) (net_ethaddr A) (net_ip A)).
  assert (net_eth_hdr_size B = Z.of_nat (length E)) as LE by (unfold E; by rewrite eth_header_length).
  destruct (arp_answered_spec A1 A R (E ++ ans ++ j) (net_eth_hdr_size B)
              (net_eth_hdr_size B + ARP_HDR_SIZE + Z.of_nat (length j) - net_eth_hdr_size B)
              (net_ethaddr B) (net_ip B) dport sport P Ha Hb) as (A2 & E3 & SA2 & Srest); [|done|].
  { rewrite (slice_behind E) by (done || lia).
    rewrite slice_app_l by (unfold ans; rewrite ?arp_packet_length by done; lia). unfold ans.
    apply mac_entries in Ha as (?&?&?&?&?&?&->). apply mac_entries in Hb as (?&?&?&?&?&?&->). done. }
  exists A2. split; [|done]. unfold receive, answer_of.
  rewrite length_app, Nat2Z.inj_add, arp_frame_length by done. unfold arp_frame.
  rewrite <- (assoc_L (++)). unfold ARP_HDR_SIZE in *.
  rewrite (process_dispatch cfg B A1); [|done|done| |by right|lia].
  2: { unfold net_our_vlan in *. by rewrite IA. }
  rewrite Z.eqb_refl.
  rewrite arp_receive_mine; try done; [|unfold ARP_HDR_SIZE; lia|unfold net_ip; by rewrite IA].
  change (ARPOP_REPLY =? ARPOP_REQUEST) with false. rewrite Z.eqb_refl. cbv iota.
  unfold arp_is_waiting. rewrite Wp, Wr, (proj2 (Z.eqb_neq _ _)), Z.eqb_refl by done. cbn [negb]. exact E3.
Qed.

(** C11: address resolution delivers.  Station [A] sends a datagram to a
    station [B] on its network whose Ethernet address it does not know.  The
    call leaves the datagram in the transmit buffer and sends a request;
    [B] answers the request; on the answer [A] stores the address and sends
    the datagram that waited, and is not waiting any more; and [B] hands
    exactly the payload, with the right ports and sender, to its handler.
    Frames may be padded on the way, and [A] and [B] are on the same VLAN or
    on none. *)
Theorem arp_exchange_delivers cfg A B now P dport sport j1 j2 j3 :
  tx_holds A P -> server_ethaddr A = net_null_ethaddr ->
  is_mac (net_ethaddr A) -> is_mac (net_ethaddr B) -> net_our_vlan B = net_our_vlan A ->
  is_u32 (net_ip A) -> is_u32 (net_ip B) -> net_ip A <> 0 ->
  net_ip B <> 0 -> net_ip B <> 4294967295 -> direct A (net_ip B) ->
  0 <= dport < 65536 -> 0 <= sport < 65536 ->
  arp_room A (arp_tx_packet A) -> arp_room B (net_get_async_tx_pkt_buf B) ->
  Z.of_nat (length P) <= 1472 ->
  Z.of_nat (length j1) <= 60 -> Z.of_nat (length j2) <= 60 -> Z.of_nat (length j3) <= 60 ->
  exists A1 A2 B1 request answer f,
    net_send_udp_packet A now net_server_ethaddr (net_ip B) dport sport (Z.of_nat (length P)) = FOk (A1, 1) /\
    sent A1 = sent A ++ [request] /\
    receive cfg B (request ++ j1) = FOk B1 /\ sent B1 = sent B ++ [answer] /\
    receive cfg A1 (answer ++ j2) = FOk A2 /\ sent A2 = sent A1 ++ [f] /\
    server_ethaddr A2 = net_ethaddr B /\ arp_is_waiting A2 = false /\
    receive cfg B1 (f ++ j3) = FOk (add_call B1 (udp_call P dport (net_ip A) sport (Z.of_nat (length P)))).
Proof.
  intros Ht Hs Ha Hb Hv Ra Rb Na Nb Nbc Hdir Rd Rs Hroom Hroomb LP L1 L2 L3.
  destruct (send_udp_unknown A now P (net_ip B) dport sport Ht Ha Hs Hroom Nb Nbc Hdir) as (R & b & E1).
  fold (request_of A B) in E1. set (A1 := add_sent _ (request_of A B)) in E1.
  destruct (receive_request cfg A B j1) as (b1 & R1); try done.
  set (B1 := add_sent _ (answer_of A B)) in R1.
  assert (waits A1 A (udp_frame A net_null_ethaddr (net_ip B) dport sport P) R (net_ip B) /\
          sent A1 = sent A ++ [request_of A B]) as [Wa Sa]
    by (unfold A1, waits, waiting_for, built; destruct A; done).
  assert (ifc B1 = ifc B /\ sent B1 = sent B ++ [answer_of A B]) as [Ib Sb].
  { unfold B1, set_async_tx_pkt_buf. destruct (arp_is_waiting B); destruct B; done. }
  destruct (receive_answer cfg A A1 B R P dport sport j2) as (A2 & R2 & SA2 & SE & SW & _); try done.
  exists A1, A2, B1, (request_of A B), (answer_of A B), (udp_frame A (net_ethaddr B) (net_ip B) dport sport P).
  repeat (split; [done|]). pose proof (eth_size_pos A). unfold receive. apply receive_udp_frame; try done.
  - unfold net_our_vlan in *. by rewrite Ib.
  - right. left. unfold net_ip. by rewrite Ib.
  - rewrite length_app, Nat2Z.inj_add, udp_frame_length by done. unfold IP_UDP_HDR_SIZE. lia.
Qed.

(** Two bytes from 10.0.0.1 to 10.0.0.2. *)
Definition demo_sender : net :=
  set_tx (demo_net 1 ip_a) (replicate 42 0 ++ [104; 105] ++ 0 :: replicate 1491 0).

Lemma arp_exchange_delivers_witness :
  exists A1 A2 B1 request answer f,
    net_send_udp_packet demo_sender 7 net_server_ethaddr ip_b 69 1024 2 = FOk (A1, 1) /\
    sent A1 = [request] /\
    receive (demo_config false false) (demo_net 2 ip_b) (request ++ replicate 18 0) = FOk B1 /\ sent B1 = [answer] /\
    receive (demo_config false false) A1 (answer ++ replicate 18 0) = FOk A2 /\ sent A2 = sent A1 ++ [f] /\
    server_ethaddr A2 = [2; 0; 0; 0; 0; 2] /\ arp_is_waiting A2 = false /\
    receive (demo_config false false) B1 (f ++ replicate 16 0) =
      FOk (add_call B1 (udp_call [104; 105] 69 ip_a 1024 2)).
Proof.
  apply (arp_exchange_delivers (demo_config false false) demo_sender (demo_net 2 ip_b) 7 [104; 105] 69 1024
           (replicate 18 0) (replicate 18 0) (replicate 16 0)).
  - exists (replicate 42 0), 0, (replicate 1491 0). split; reflexivity.
  - reflexivity.
  - split; [reflexivity|]. repeat constructor; discriminate.
  - split; [reflexivity|]. repeat constructor; discriminate.
  - reflexivity.
  - split; [discriminate|reflexivity].
  - split; [discriminate|reflexivity].
  - discriminate.
  - discriminate.
  - discriminate.
  - right. reflexivity.
  - lia.
  - lia.
  - discriminate.
  - discriminate.
  - discriminate.
  - discriminate.
  - discriminate.
  - discriminate.
Defined.

(** ** No answer *)

(** The time-out check at the moments [ts]. *)
Fixpoint timeouts (cfg : net_config) (s : net) (ts : list Z) : frag_res net :=
  match ts with
  | [] => FOk s
  | t :: ts => frag_bind (arp_timeout_check cfg s t) (fun '(s, _) => timeouts cfg s ts)
  end.

(** Moments that are more than the time-out apart, the first counted from [start]. *)
Fixpoint spaced (timeout start : Z) (ts : list Z) : Prop :=
  match ts with
  | [] => True
  | t :: ts => 0 <= start /\ start + timeout < t <= U64_MAX /\ spaced timeout t ts
  end.

Lemma arp_request_runs s :
  is_mac (net_ethaddr s) -> arp_room s (arp_tx_packet s) ->
  exists s' f, arp_request s = FOk s' /\ sent s' = sent s ++ [f] /\ ifc s' = ifc s /\ net_state s' = net_state s /\
    wait_packet_ip (arpw s') = wait_packet_ip (arpw s) /\
    wait_try (arpw s') = wait_try (arpw s) /\ wait_timer_start (arpw s') = wait_timer_start (arpw s) /\
    length (arp_tx_packet s') = length (arp_tx_packet s).
Proof.
  intros Hm Hr. unfold arp_request. set (r := if _ =? _ then _ else _).
  set (s1 := set_arpw s (set_reply_ip (arpw s) r)).
  assert (ifc s1 = ifc s /\ arp_tx_packet s1 = arp_tx_packet s) as [I1 A1] by (by unfold s1; destruct s).
  destruct (arp_raw_request_spec s1 (net_ip s) net_null_ethaddr r) as (b & E & Lb).
  { unfold net_ethaddr in *. by rewrite I1. }
  { apply null_mac. }
  { unfold arp_room, net_eth_hdr_size, net_our_vlan in *. by rewrite I1, A1. }
  rewrite E. exists (add_sent (set_arp_tx s1 b)
    (arp_frame s1 net_bcast_ethaddr ARPOP_REQUEST (net_ethaddr s1) (net_ip s) net_null_ethaddr r)).
  exists (arp_frame s1 net_bcast_ethaddr ARPOP_REQUEST (net_ethaddr s1) (net_ip s) net_null_ethaddr r).
  rewrite A1 in Lb. generalize (arp_frame s1 net_bcast_ethaddr ARPOP_REQUEST (net_ethaddr s1) (net_ip s) net_null_ethaddr r).
  intros f. split; [done|]. unfold s1. clear -Lb. destruct s as [? ? ? ? ? [] ? ? ? ? ?]. done.
Qed.

(** Without an answer the request is repeated until the count of tries is
    reached, and then the network loop fails. *)
Theorem arp_gives_up cfg : forall ts s,
  is_mac (net_ethaddr s) -> arp_room s (arp_tx_packet s) -> arp_is_waiting s = true ->
  1 <= wait_try (arpw s) < config_net_retry_count cfg -> config_net_retry_count cfg <= 2147483647 ->
  0 <= config_arp_timeout cfg ->
  wait_try (arpw s) + Z.of_nat (length ts) = config_net_retry_count cfg ->
  spaced (config_arp_timeout cfg) (wait_timer_start (arpw s)) ts ->
  exists s', timeouts cfg s ts = FOk s' /\ net_state s' = NETLOOP_FAIL /\
    length (sent s') = (length (sent s) + (length ts - 1))%nat.
Proof.
  induction ts as [|t ts IH]; intros s Hm Hr Hw Htry Hc Hto Hlen Hsp; [simpl in Hlen; lia|].
  simpl in Hsp, Hlen. destruct Hsp as (H0 & [Ht HtU] & Hsp). simpl timeouts. unfold arp_timeout_check.
  rewrite Hw. cbn [negb]. rewrite u64_small by lia. rewrite (proj2 (Z.ltb_lt _ _)) by lia.
  rewrite s32_small by lia. destruct (Z.leb_spec (config_net_retry_count cfg) (wait_try (arpw s) + 1)).
  - assert (ts = []) as -> by (apply length_zero_iff_nil; lia). cbn [frag_bind timeouts].
    eexists. split; [done|]. destruct s. simpl. split; [done|lia].
  - set (s1 := set_arpw s _).
    assert (ifc s1 = ifc s /\ arp_tx_packet s1 = arp_tx_packet s /\ sent s1 = sent s /\
            wait_packet_ip (arpw s1) = wait_packet_ip (arpw s) /\
            wait_try (arpw s1) = wait_try (arpw s) + 1 /\ wait_timer_start (arpw s1) = t) as (I1 & A1 & S1 & P1 & T1 & W1)
      by (by unfold s1; destruct s as [? ? ? ? ? [] ? ? ? ? ?]).
    destruct (arp_request_runs s1) as (s2 & f & E2 & S2 & I2 & _ & P2 & T2 & W2 & A2).
    { unfold net_ethaddr in *. by rewrite I1. }
    { unfold arp_room, net_eth_hdr_size, net_our_vlan in *. by rewrite I1, A1. }
    rewrite E2. cbn [frag_bind]. destruct (IH s2) as (s' & E & Es & Ls).
    + unfold net_ethaddr in *. by rewrite I2, I1.
    + unfold arp_room, net_eth_hdr_size, net_our_vlan in *. by rewrite I2, I1, A2, A1.
    + unfold arp_is_waiting in *. by rewrite P2, P1.
    + lia.
    + done.
    + done.
    + lia.
    + by rewrite W2, W1.
    + exists s'. split; [done|]. split; [done|]. rewrite Ls, S2, S1, length_app. simpl.
      destruct ts; simpl in *; lia.
Qed.
