(* ===== verification/Tftp.v ===== *)
(** The TFTP client and server of src/net/tftp.c: the state machine that
    loads a file block by block, or sends one, with option negotiation,
    windows, block numbers that wrap, time-outs and the check of every block
    against the reserved memory of lib/lmb.c.

    The static variables are the fields of four records.  Memory is a function
    from addresses to bytes; the packets handed to [net_send_udp_packet] are
    recorded with their addresses.  The build has tftpput and the server, no
    IPv6, no tsize option and no port variables; messages and hash marks are
    left out. *)

From S2P Require Import Prelude Bytes Cstring Strto Vsprintf NetUtils Alist Lmb.

Definition WELL_KNOWN_PORT : Z := 69.
Definition TIMEOUT : Z := 5000.

Definition TFTP_RRQ : Z := 1.
Definition TFTP_WRQ : Z := 2.
Definition TFTP_DATA : Z := 3.
Definition TFTP_ACK : Z := 4.
Definition TFTP_ERROR : Z := 5.
Definition TFTP_OACK : Z := 6.

Definition TFTP_ERR_FILE_NOT_FOUND : Z := 1.
Definition TFTP_ERR_ACCESS_DENIED : Z := 2.
Definition TFTP_ERR_OPTION_NEGOTIATION : Z := 8.

Definition TFTP_BLOCK_SIZE : Z := 512.
Definition TFTP_SEQUENCE_SIZE : Z := 65536.
Definition MAX_LEN : nat := 128.

Inductive tftp_states : Type :=
| STATE_SEND_RRQ | STATE_DATA | STATE_TOO_LARGE | STATE_BAD_MAGIC | STATE_OACK
| STATE_RECV_WRQ | STATE_SEND_WRQ | STATE_INVALID_OPTION.

#[export] Instance tftp_states_eq_dec : EqDecision tftp_states.
Proof. solve_decision. Defined.

(** What the network loop is told: [net_set_state] or [net_start_again]. *)
Inductive net_end : Type := Going | Success | Failed | StartAgain.

(** Block numbers, acknowledgements and the state of the transfer. *)
Record progress : Type := mkProg {
  cur_block : Z;
  prev_block : Z;
  block_wrap : Z;
  block_wrap_offset : Z;
  tstate : tftp_states;
  next_ack : Z;
  last_nack : Z;
  remote_port : Z;
  timeout_count : Z;
  put_final_block_sent : bool
}.

(** What was negotiated and what the user chose. *)
Record options : Type := mkOpts {
  block_size : Z;
  windowsize : Z;
  block_size_option : Z;
  window_size_option : Z;
  saved_block_size_option : Z;
  timeout_ms : Z;
  timeout_count_max : Z;
  tftp_timeout_count_max : Z
}.

(** The transfer asked for. *)
Record request : Type := mkReq {
  remote_ip : Z;
  our_port : Z;
  load_addr : Z;
  image_save_addr : Z;
  put_active : bool;
  filename : list Z
}.

(** A packet for [net_send_udp_packet]. *)
Record packet : Type := mkPacket { to_ip : Z; to_port : Z; from_port : Z; payload : list Z }.

(** The machine around: memory, its reservations, the size of the file, the
    packets sent, the end of the loop, the timer that is armed and
    [net_server_ethaddr]. *)
Record machine : Type := mkMach {
  mem : Z -> Z;
  lmb_state : lmb;
  boot_file_size : Z;
  outs : list packet;
  ended : net_end;
  timer : option Z;
  server_ether : list Z
}.

Record tftp : Type := mkTftp { prog : progress; opts : options; req : request; mach : machine }.

Definition with_prog (s : tftp) (f : progress -> progress) : tftp :=
  mkTftp (f (prog s)) (opts s) (req s) (mach s).
Definition with_opts (s : tftp) (f : options -> options) : tftp :=
  mkTftp (prog s) (f (opts s)) (req s) (mach s).
Definition with_req (s : tftp) (f : request -> request) : tftp :=
  mkTftp (prog s) (opts s) (f (req s)) (mach s).
Definition with_mach (s : tftp) (f : machine -> machine) : tftp :=
  mkTftp (prog s) (opts s) (req s) (f (mach s)).

Definition set_cur (v : Z) (p : progress) : progress :=
  let (_, b, c, d, e, f, g, h, i, j) := p in mkProg v b c d e f g h i j.
Definition set_prev (v : Z) (p : progress) : progress :=
  let (a, _, c, d, e, f, g, h, i, j) := p in mkProg a v c d e f g h i j.
Definition set_wrap (v o : Z) (p : progress) : progress :=
  let (a, b, _, _, e, f, g, h, i, j) := p in mkProg a b v o e f g h i j.
Definition set_tstate (v : tftp_states) (p : progress) : progress :=
  let (a, b, c, d, _, f, g, h, i, j) := p in mkProg a b c d v f g h i j.
Definition set_next_ack (v : Z) (p : progress) : progress :=
  let (a, b, c, d, e, _, g, h, i, j) := p in mkProg a b c d e v g h i j.
Definition set_last_nack (v : Z) (p : progress) : progress :=
  let (a, b, c, d, e, f, _, h, i, j) := p in mkProg a b c d e f v h i j.
Definition set_remote_port (v : Z) (p : progress) : progress :=
  let (a, b, c, d, e, f, g, _, i, j) := p in mkProg a b c d e f g v i j.
Definition set_timeout_count (v : Z) (p : progress) : progress :=
  let (a, b, c, d, e, f, g, h, _, j) := p in mkProg a b c d e f g h v j.
Definition set_put_final (v : bool) (p : progress) : progress :=
  let (a, b, c, d, e, f, g, h, i, _) := p in mkProg a b c d e f g h i v.

Definition set_block_size (v : Z) (o : options) : options :=
  let (_, b, c, d, e, f, g, h) := o in mkOpts v b c d e f g h.
Definition set_windowsize (v : Z) (o : options) : options :=
  let (a, _, c, d, e, f, g, h) := o in mkOpts a v c d e f g h.
Definition set_block_size_option (v saved : Z) (o : options) : options :=
  let (a, b, _, d, _, f, g, h) := o in mkOpts a b v d saved f g h.
Definition set_window_size_option (v : Z) (o : options) : options :=
  let (a, b, c, _, e, f, g, h) := o in mkOpts a b c v e f g h.
Definition set_timeout_ms (v : Z) (o : options) : options :=
  let (a, b, c, d, e, _, g, h) := o in mkOpts a b c d e v g h.
Definition set_timeout_count_max (v : Z) (o : options) : options :=
  let (a, b, c, d, e, f, _, h) := o in mkOpts a b c d e f v h.
Definition set_tftp_timeout_count_max (v : Z) (o : options) : options :=
  let (a, b, c, d, e, f, g, _) := o in mkOpts a b c d e f g v.

Definition set_mem (f : Z -> Z) (m : machine) : machine :=
  let (_, l, z, o, e, t, h) := m in mkMach f l z o e t h.
Definition set_lmb (l : lmb) (m : machine) : machine :=
  let (f, _, z, o, e, t, h) := m in mkMach f l z o e t h.
Definition set_file_size (z : Z) (m : machine) : machine :=
  let (f, l, _, o, e, t, h) := m in mkMach f l z o e t h.
Definition add_out (p : packet) (m : machine) : machine :=
  let (f, l, z, o, e, t, h) := m in mkMach f l z (o ++ [p]) e t h.
Definition set_ended (e : net_end) (m : machine) : machine :=
  let (f, l, z, o, _, t, h) := m in mkMach f l z o e t h.
Definition set_timer (t : Z) (m : machine) : machine :=
  let (f, l, z, o, e, _, h) := m in mkMach f l z o e (if t =? 0 then None else Some t) h.
(** memset(net_server_ethaddr, 0, 6) *)
Definition forget_server (m : machine) : machine :=
  let (f, l, z, o, e, t, _) := m in mkMach f l z o e t (replicate 6 0).

(** ** Blocks *)

(** memcpy of [src] to address [a]. *)
Definition mem_store (m : Z -> Z) (a : Z) (src : list Z) : Z -> Z :=
  fun x => if (a <=? x) && (x <? a + Z.of_nat (length src)) then src !!! Z.to_nat (x - a) else m x.

Definition mem_load (m : Z -> Z) (a : Z) (n : nat) : list Z := map (fun i => m (a + Z.of_nat i)) (seq 0 n).

Section Lmb.
(** The parameters of lib/lmb.c. *)
Variables (efi : bool) (notify : Z -> Z -> lmb_map_op -> Z) (mem_ok : bool).

Definition lmb_read_check (m : lmb) (addr len : Z) : Z * lmb :=
  lmb_alloc_addr efi notify mem_ok m addr len LMB_NONE.

(** Where a block goes; [block * tftp_block_size] is an int. *)
Definition block_offset (s : tftp) (block : Z) : Z :=
  u64 (s32 (block * block_size (opts s)) + block_wrap_offset (prog s) - block_size (opts s)).

Definition store_block (s : tftp) (block : Z) (src : list Z) : Z * tftp :=
  let len := Z.of_nat (length src) in
  let offset := block_offset s block in
  let newsize := u64 (offset + len) in
  let store_addr := u64 (load_addr (req s) + offset) in
  if store_addr <? load_addr (req s) then (-1, s)
  else
    let (ret, l) := lmb_read_check (lmb_state (mach s)) store_addr len in
    let s := with_mach s (set_lmb l) in
    if negb (ret =? 0) then (-1, s)
    else
      let s := with_mach s (fun m => set_mem (mem_store (mem m) store_addr src) m) in
      let s := if boot_file_size (mach s) <? newsize
               then with_mach s (set_file_size (u32 newsize)) else s in
      (0, s).

Definition new_transfer (s : tftp) : tftp :=
  with_prog s (fun p => set_put_final false (set_wrap 0 0 (set_prev 0 p))).

(** The bytes of a block to send; [block * tftp_block_size] is unsigned. *)
Definition load_block (s : tftp) (block len : Z) : list Z :=
  let offset := u64 (u32 (block * block_size (opts s)) + block_wrap_offset (prog s) - block_size (opts s)) in
  let tosend := Z.min (u64 (boot_file_size (mach s) - offset)) len in
  mem_load (mem (mach s)) (u64 (image_save_addr (req s) + offset)) (Z.to_nat tosend).

Definition update_block_number (s : tftp) : tftp :=
  let p := prog s in
  if (cur_block p =? 0) && negb (prev_block p =? 0) then
    with_prog s (fun p => set_timeout_count 0
      (set_wrap (u64 (block_wrap p + 1))
                (u64 (block_wrap_offset p + u64 (block_size (opts s) * TFTP_SEQUENCE_SIZE))) p))
  else s.

Definition tftp_complete (s : tftp) : tftp := with_mach s (set_ended Success).

(** ** Packets *)

Definition be16_bytes (v : Z) : list Z := [u16 v / 256; u16 v mod 256].

(** Strings of the protocol, with their final zero. *)
Definition s_octet : list Z := [111; 99; 116; 101; 116; 0].
Definition s_timeout : list Z := [116; 105; 109; 101; 111; 117; 116].
Definition s_blksize : list Z := [98; 108; 107; 115; 105; 122; 101].
Definition s_windowsize : list Z := [119; 105; 110; 100; 111; 119; 115; 105; 122; 101].
Definition s_too_large : list Z := [70; 105; 108; 101; 32; 116; 111; 111; 32; 108; 97; 114; 103; 101; 0].
Definition s_bad_magic : list Z :=
  [70; 105; 108; 101; 32; 104; 97; 115; 32; 98; 97; 100; 32; 109; 97; 103; 105; 99; 0].
Definition s_negotiation : list Z :=
  [79; 112; 116; 105; 111; 110; 32; 78; 101; 103; 111; 116; 105; 97; 116; 105; 111; 110; 32;
   70; 97; 105; 108; 101; 100; 0].

Definition decimal (n : Z) : list Z := rev (put_dec [] n).

(** The read or write request. *)
Definition request_packet (s : tftp) : list Z :=
  let rrq := bool_decide (tstate (prog s) = STATE_SEND_RRQ) in
  be16_bytes (if rrq then TFTP_RRQ else TFTP_WRQ) ++ cstr (filename (req s)) ++ [0] ++ s_octet ++
  s_timeout ++ [0] ++ decimal (timeout_ms (opts s) / 1000) ++ [0] ++
  s_blksize ++ [0] ++ decimal (block_size_option (opts s)) ++ [0] ++
  (if rrq && (1 <? window_size_option (opts s))
   then s_windowsize ++ [0] ++ decimal (window_size_option (opts s)) ++ [0] else []).

Definition send_payload (s : tftp) (p : list Z) : tftp :=
  with_mach s (add_out (mkPacket (remote_ip (req s)) (remote_port (prog s)) (our_port (req s)) p)).

(** An acknowledgement, or the current block when we are the sender. *)
Definition send_block (s : tftp) : tftp :=
  let cur := cur_block (prog s) in
  if put_active (req s) then
    let toload := block_size (opts s) in
    let data := load_block s cur toload in
    let s := send_payload s (be16_bytes TFTP_DATA ++ be16_bytes cur ++ data) in
    with_prog s (set_put_final (Z.of_nat (length data) <? toload))
  else send_payload s (be16_bytes TFTP_ACK ++ be16_bytes cur).

Definition send_error (s : tftp) (code : Z) (text : list Z) : tftp :=
  with_mach (send_payload s (be16_bytes TFTP_ERROR ++ be16_bytes code ++ text)) (set_ended Failed).

Definition tftp_send (s : tftp) : tftp :=
  match tstate (prog s) with
  | STATE_SEND_RRQ | STATE_SEND_WRQ => send_payload s (request_packet s)
  | STATE_OACK | STATE_RECV_WRQ | STATE_DATA => send_block s
  | STATE_TOO_LARGE => send_error s 3 s_too_large
  | STATE_BAD_MAGIC => send_error s 2 s_bad_magic
  | STATE_INVALID_OPTION => send_error s TFTP_ERR_OPTION_NEGOTIATION s_negotiation
  end.

(** ** The handler *)

Definition rd16be (p : list Z) : Z := 256 * rd p + rd (tl p).

(** An acknowledgement of a block we sent. *)
Definition handle_ack (s : tftp) (p : list Z) (src : Z) : tftp :=
  if negb (put_active (req s)) then s
  else
    let s := with_prog s (set_timeout_count 0) in
    if put_final_block_sent (prog s) then tftp_complete s
    else
      let block := rd16be p in
      let ack_ok := cur_block (prog s) =? block in
      let s := with_prog s (fun p => set_cur (u16 (block + 1)) (set_prev (cur_block p) p)) in
      let s := update_block_number s in
      if ack_ok then
        let s := if (block =? 0) && bool_decide (tstate (prog s) = STATE_SEND_WRQ)
                 then with_prog s (fun p => set_remote_port src (set_tstate STATE_DATA p)) else s in
        tftp_send (with_prog s (set_timeout_count 0))
      else s.

(** The options the server accepted, at every position of the packet. *)
Definition oack_at (s : tftp) (p : list Z) : tftp :=
  let s := if strcasecmp p s_blksize =? 0 then
             let v := u16 (fst (dectoul (drop 8 p))) in
             let s := with_opts s (set_block_size v) in
             if block_size_option (opts s) <? v
             then with_prog s (set_tstate STATE_INVALID_OPTION) else s
           else s in
  let s := if strcasecmp p s_timeout =? 0 then
             if negb (u16 (fst (dectoul (drop 8 p))) =? timeout_ms (opts s) / 1000)
             then with_prog s (set_tstate STATE_INVALID_OPTION) else s
           else s in
  if strcasecmp p s_windowsize =? 0
  then with_opts s (set_windowsize (u16 (fst (dectoul (drop 11 p))))) else s.

Fixpoint oack_loop (n : nat) (s : tftp) (p : list Z) : tftp :=
  match n with O => s | S n => oack_loop n (oack_at s p) (tl p) end.

Definition handle_oack (s : tftp) (p : list Z) (src len : Z) : tftp :=
  let s := with_prog s (fun p => set_remote_port src (set_tstate STATE_OACK p)) in
  let s := oack_loop (Z.to_nat (len - 8)) s p in
  let s := with_prog s (set_next_ack (windowsize (opts s))) in
  let s := if put_active (req s) && bool_decide (tstate (prog s) = STATE_OACK)
           then with_prog s (fun p => set_cur (u64 (cur_block p + 1)) (set_tstate STATE_DATA p)) else s in
  tftp_send s.

Definition sshort (v : Z) : Z := (v + 32768) mod 65536 - 32768.

(** A block that is not the next one: at most one negative acknowledgement. *)
Definition handle_unexpected (s : tftp) (block : Z) : tftp :=
  let cur := cur_block (prog s) in
  if 0 <? u16 (cur + 1) - sshort block then s
  else if last_nack (prog s) =? cur then s
  else
    let s := tftp_send s in
    with_prog s (fun p => set_next_ack (u16 (cur + windowsize (opts s))) (set_last_nack (u16 cur) p)).

(** The block is stored and acknowledged. *)
Definition accept_block (s : tftp) (data : list Z) : tftp :=
  let s := update_block_number s in
  let s := with_prog s (fun p => set_prev (cur_block p) p) in
  let s := with_opts s (fun o => set_timeout_count_max (tftp_timeout_count_max o) o) in
  let s := with_mach s (set_timer (timeout_ms (opts s))) in
  let (ret, s) := store_block s (cur_block (prog s)) data in
  if negb (ret =? 0) then with_mach s (set_ended Failed)
  else
    let s := with_prog s (set_timeout_count 0) in
    if Z.of_nat (length data) <? block_size (opts s) then tftp_complete (tftp_send s)
    else if cur_block (prog s) =? next_ack (prog s) then
      let s := tftp_send s in
      with_prog s (fun p => set_next_ack (u16 (next_ack p + windowsize (opts s))) p)
    else s.

Definition handle_data (s : tftp) (p : list Z) (src len : Z) : tftp :=
  if len <? 2 then s
  else
    let block := rd16be p in
    let data := take (Z.to_nat (len - 2)) (drop 2 p) in
    if negb (block =? u16 (cur_block (prog s) + 1)) then handle_unexpected s block
    else
      let s := with_prog s (fun p => set_cur (u64 (cur_block p + 1) mod TFTP_SEQUENCE_SIZE) p) in
      let first := tstate (prog s) in
      let s := if bool_decide (first = STATE_SEND_RRQ)
               then with_prog s (set_next_ack (windowsize (opts s))) else s in
      let is_first := bool_decide (first = STATE_SEND_RRQ) || bool_decide (first = STATE_OACK) ||
                      bool_decide (first = STATE_RECV_WRQ) in
      let s := if is_first
               then new_transfer (with_prog s (fun p => set_remote_port src (set_tstate STATE_DATA p))) else s in
      if is_first && negb (cur_block (prog s) =? 1) then with_mach s (set_ended StartAgain)
      else if cur_block (prog s) =? prev_block (prog s) then s
      else accept_block s data.

(** A write request, when we are the server; [now] is the timer. *)
Definition handle_wrq (s : tftp) (sip src now : Z) : tftp :=
  let s := with_req s (fun r => mkReq sip (1024 + now mod 3072) (load_addr r) (image_save_addr r)
                                  (put_active r) (filename r)) in
  tftp_send (new_transfer (with_prog s (set_remote_port src))).

Definition handle_error (s : tftp) (p : list Z) : tftp :=
  let code := rd16be p in
  if (code =? TFTP_ERR_FILE_NOT_FOUND) || (code =? TFTP_ERR_ACCESS_DENIED)
  then with_mach s (set_ended Failed) else with_mach s (set_ended StartAgain).

(** [pkt] is the packet and what follows it in the receive buffer, [len] the
    length of the packet. *)
Definition tftp_handler (s : tftp) (now : Z) (pkt : list Z) (dest sip src len : Z) : tftp :=
  let st := tstate (prog s) in
  if negb (dest =? our_port (req s)) then s
  else if negb (bool_decide (st = STATE_SEND_RRQ)) && negb (src =? remote_port (prog s)) &&
          negb (bool_decide (st = STATE_RECV_WRQ)) && negb (bool_decide (st = STATE_SEND_WRQ)) then s
  else if len <? 2 then s
  else
    let proto := rd16be pkt in
    let p := drop 2 pkt in
    let len := len - 2 in
    if proto =? TFTP_ACK then handle_ack s p src
    else if proto =? TFTP_WRQ then handle_wrq s sip src now
    else if proto =? TFTP_OACK then handle_oack s p src len
    else if proto =? TFTP_DATA then handle_data s p src len
    else if proto =? TFTP_ERROR then handle_error s p
    else s.

Definition tftp_timeout_handler (s : tftp) : tftp :=
  let n := s32 (timeout_count (prog s) + 1) in
  let s := with_prog s (set_timeout_count n) in
  if timeout_count_max (opts s) <? n then with_mach s (set_ended StartAgain)
  else
    let s := with_mach s (set_timer (timeout_ms (opts s))) in
    if bool_decide (tstate (prog s) = STATE_RECV_WRQ) then s else tftp_send s.
End Lmb.

Definition ICMP_NOT_REACH : Z := 3.
Definition ICMP_NOT_REACH_PORT : Z := 3.

(** The other end has gone away. *)
Definition icmp_handler (s : tftp) (type code : Z) : tftp :=
  if (type =? ICMP_NOT_REACH) && (code =? ICMP_NOT_REACH_PORT)
  then with_mach s (set_ended StartAgain) else s.

(** ** Starting *)

(** The boot file name: an address before a colon, if it is one, and the
    name; [None] when no name is set. *)
Definition net_parse_bootfile (name : list Z) (ip : Z) (max_len : nat) : option (Z * list Z) :=
  if rd name =? 0 then None
  else
    let colon := strchr name 58 in
    let found := match colon with Some _ => string_to_ip (Some name) | None => 0 end in
    match colon with
    | Some c =>
      if found =? 0 then Some (ip, take (max_len - 1) (cstr name))
      else Some (found, take (max_len - 1) (cstr (drop (Z.to_nat c + 1) name)))
    | None => Some (ip, take (max_len - 1) (cstr name))
    end.

Definition hex_up (d : Z) : Z := if d <? 10 then 48 + d else 55 + d.
Definition hex_byte_up (b : Z) : list Z := [hex_up (b / 16); hex_up (b mod 16)].

(** The address in hexadecimal and ".img". *)
Definition default_filename (net_ip : Z) : list Z :=
  hex_byte_up (Z.land net_ip 255) ++ hex_byte_up (Z.land (Z.shiftr net_ip 8) 255) ++
  hex_byte_up (Z.land (Z.shiftr net_ip 16) 255) ++ hex_byte_up (Z.land (Z.shiftr net_ip 24) 255) ++
  [46; 105; 109; 103].

(** The largest block: what reassembly can take, or one Ethernet frame. *)
Definition block_size_cap (put : bool) (max_defrag : option Z) : Z :=
  match max_defrag with
  | Some d => if put then 1468 else Z.min (d - 32) 65464
  | None => 1468
  end.

Definition sanitize_tftp_block_size_option (put : bool) (max_defrag : option Z) (o : options) : options :=
  let cap := block_size_cap put max_defrag in
  if cap <? block_size_option o then set_block_size_option (u16 cap) (block_size_option o) o else o.

(** The environment variables that choose the options. *)
Record tftp_env : Type := mkEnv {
  tftpblocksize : option (list Z);
  tftpwindowsize : option (list Z);
  tftptimeout : option (list Z);
  tftptimeoutcountmax : option (list Z)
}.

Definition env_number (v : option (list Z)) (dflt : Z) : Z :=
  match v with Some s => fst (simple_strtol s 10) | None => dflt end.

Definition env_options (e : tftp_env) (o : options) : options :=
  let o := set_block_size_option (u16 (env_number (tftpblocksize e) (block_size_option o)))
             (saved_block_size_option o) o in
  let o := set_window_size_option (u16 (env_number (tftpwindowsize e) (window_size_option o))) o in
  let t := u64 (env_number (tftptimeout e) (timeout_ms o)) in
  let o := set_timeout_ms (if t <? 1000 then 1000 else t) o in
  let n := s32 (env_number (tftptimeoutcountmax e) (tftp_timeout_count_max o)) in
  set_tftp_timeout_count_max (if n <? 0 then 0 else n) o.

(** What the rest of the system says when a transfer starts. *)
Record start_args : Type := mkStart {
  st_put : bool;
  st_env : tftp_env;
  st_max_defrag : option Z;
  st_server_ip : Z;
  st_net_ip : Z;
  st_boot_file_name : list Z;
  st_load_addr : Z;
  st_save_addr : Z;
  st_save_size : Z;
  st_now : Z
}.

Definition tftp_start (s : tftp) (a : start_args) : tftp :=
  let s := with_opts s (fun o =>
    if saved_block_size_option o =? 0 then o else set_block_size_option (saved_block_size_option o) 0 o) in
  let s := with_opts s (env_options (st_env a)) in
  let s := with_opts s (sanitize_tftp_block_size_option (st_put a) (st_max_defrag a)) in
  let (ip, name) :=
    match net_parse_bootfile (st_boot_file_name a) (st_server_ip a) MAX_LEN with
    | Some r => r
    | None => (st_server_ip a, default_filename (st_net_ip a))
    end in
  let s := with_req s (fun r => mkReq ip (1024 + st_now a mod 3072)
             (if st_put a then load_addr r else st_load_addr a) (st_save_addr a) (st_put a) name) in
  let s := if st_put a
           then new_transfer (with_prog (with_mach s (set_file_size (u32 (st_save_size a)))) (set_tstate STATE_SEND_WRQ))
           else with_prog s (set_tstate STATE_SEND_RRQ) in
  let s := with_opts s (fun o => set_timeout_count_max (tftp_timeout_count_max o) o) in
  let s := with_mach s (set_timer (timeout_ms (opts s))) in
  let s := with_prog s (fun p => set_last_nack 0 (set_cur 0 (set_timeout_count 0 (set_remote_port WELL_KNOWN_PORT p)))) in
  let s := with_mach s forget_server in
  let s := with_opts s (fun o => set_block_size TFTP_BLOCK_SIZE (set_windowsize 1 o)) in
  tftp_send s.

(** The server waits for a write request. *)
Definition tftp_start_server (s : tftp) (load : Z) : tftp :=
  let s := with_req s (fun r => mkReq (remote_ip r) WELL_KNOWN_PORT load (image_save_addr r) (put_active r) []) in
  let s := with_opts s (fun o => set_block_size TFTP_BLOCK_SIZE (set_windowsize 1
             (set_timeout_ms TIMEOUT (set_timeout_count_max (tftp_timeout_count_max o) o)))) in
  let s := with_mach (with_mach s (set_timer TIMEOUT)) forget_server in
  with_prog s (fun p => set_tstate STATE_RECV_WRQ (set_next_ack 1 (set_cur 0 (set_timeout_count 0 p)))).
