(* ===== verification/TftpGet.v ===== *)
(** Loading a file with TFTP: whatever packets of the server are lost, come
    twice or come out of order, and whenever the timer expires, the memory at
    the load address holds a prefix of the file, block by block, and success
    is reported exactly when the whole file is there. *)

From S2P Require Import Prelude Bytes Cstring Strto NetUtils Alist Lmb Tftp.

(** What the client needs of the memory reservations: while the file is
    loaded, each block in turn is granted.  [P c] holds when [c] blocks are
    in memory. *)
Class Grants (check : lmb -> Z -> Z -> Z * lmb) (load size bs : Z) (P : Z -> lmb -> Prop) : Prop :=
  grants : forall c m, P c m -> 0 <= c -> c * bs <= size ->
    exists m', check m (load + c * bs) (Z.min bs (size - c * bs)) = (0, m') /\ P (c + 1) m'.

(** ** Sending does not touch the transfer *)

Lemma send_payload_frame s p :
  prog (send_payload s p) = prog s /\ opts (send_payload s p) = opts s /\ req (send_payload s p) = req s /\
  mem (mach (send_payload s p)) = mem (mach s) /\ lmb_state (mach (send_payload s p)) = lmb_state (mach s) /\
  boot_file_size (mach (send_payload s p)) = boot_file_size (mach s) /\
  ended (mach (send_payload s p)) = ended (mach s).
Proof. by destruct s as [? ? ? []]. Qed.

(** The parts of the state that matter for loading. *)
Record same_load (s s' : tftp) : Prop := mkSame {
  sl_cur : cur_block (prog s') = cur_block (prog s);
  sl_prev : prev_block (prog s') = prev_block (prog s);
  sl_off : block_wrap_offset (prog s') = block_wrap_offset (prog s);
  sl_state : tstate (prog s') = tstate (prog s);
  sl_port : remote_port (prog s') = remote_port (prog s);
  sl_bs : block_size (opts s') = block_size (opts s);
  sl_req : req s' = req s;
  sl_mem : mem (mach s') = mem (mach s);
  sl_lmb : lmb_state (mach s') = lmb_state (mach s);
  sl_size : boot_file_size (mach s') = boot_file_size (mach s);
  sl_ended : ended (mach s') = ended (mach s)
}.

Lemma same_load_refl s : same_load s s.
Proof. by split. Qed.

Lemma same_load_trans s s' s'' : same_load s s' -> same_load s' s'' -> same_load s s''.
Proof. intros [] []. split; congruence. Qed.

Ltac same_tac s := destruct s as [[] [] ? []]; split; reflexivity.

Lemma same_send_payload s p : same_load s (send_payload s p).
Proof. same_tac s. Qed.
Lemma same_next_ack s v : same_load s (with_prog s (set_next_ack v)).
Proof. same_tac s. Qed.
Lemma same_last_nack s v : same_load s (with_prog s (set_last_nack v)).
Proof. same_tac s. Qed.
Lemma same_count s v : same_load s (with_prog s (set_timeout_count v)).
Proof. same_tac s. Qed.
Lemma same_timer s v : same_load s (with_mach s (set_timer v)).
Proof. same_tac s. Qed.
Lemma same_count_max s v : same_load s (with_opts s (set_timeout_count_max v)).
Proof. same_tac s. Qed.

(** A receiver that is waiting for blocks sends requests and
    acknowledgements only. *)
Definition receiving (st : tftp_states) : Prop :=
  st = STATE_SEND_RRQ \/ st = STATE_OACK \/ st = STATE_DATA.

Lemma same_send s :
  put_active (req s) = false -> receiving (tstate (prog s)) -> same_load s (tftp_send s).
Proof.
  intros Hp [E|[E|E]]; unfold tftp_send; rewrite E; [apply same_send_payload|..];
    unfold send_block; rewrite Hp; apply same_send_payload.
Qed.

Lemma same_unexpected s block :
  put_active (req s) = false -> receiving (tstate (prog s)) -> same_load s (handle_unexpected s block).
Proof.
  intros Hp Hr. unfold handle_unexpected. repeat case_match; try apply same_load_refl.
  eapply same_load_trans; [by apply same_send|]. generalize (tftp_send s). intros s'. same_tac s'.
Qed.

Lemma same_timeout s :
  put_active (req s) = false -> receiving (tstate (prog s)) ->
  ended (mach (tftp_timeout_handler s)) = StartAgain \/ same_load s (tftp_timeout_handler s).
Proof.
  intros Hp Hr. unfold tftp_timeout_handler. set (s1 := with_prog s _).
  assert (same_load s s1) as H1 by apply same_count. case_match; [left; by destruct s as [? ? ? []]|right].
  set (s2 := with_mach s1 _). assert (same_load s s2) as H2 by (eapply same_load_trans; [done|apply same_timer]).
  case_match; [done|]. eapply same_load_trans; [done|]. apply same_send.
  - by rewrite (sl_req _ _ H2).
  - by rewrite (sl_state _ _ H2).
Qed.

Lemma rd16be_bytes v l : rd16be (be16_bytes v ++ l) = u16 v.
Proof.
  unfold rd16be, be16_bytes. cbn [app rd hd tl]. pose proof (Z.div_mod (u16 v) 256). lia.
Qed.

(** ** Loading *)

Section Load.
Variables (efi : bool) (notify : Z -> Z -> lmb_map_op -> Z) (mem_ok : bool).

Abbreviation check := (lmb_read_check efi notify mem_ok).
Abbreviation handler := (tftp_handler efi notify mem_ok).

(** The file, the block size, where it is loaded, our port and the
    server's, and the memory before. *)
Context (F : list Z) (bs load me port : Z) (M0 : Z -> Z) (P : Z -> lmb -> Prop).
Context `{G : !Grants check load (Z.of_nat (length F)) bs P}.
Hypothesis (Hbs : 1 <= bs <= 32768) (HN : Z.of_nat (length F) < 4294967296).
Hypothesis (Hload : 0 <= load) (Hfit : load + Z.of_nat (length F) <= U64_MAX).

Local Abbreviation N := (Z.of_nat (length F)).

(** Number of blocks: the last one is shorter than [bs], perhaps empty. *)
Definition blocks : Z := N / bs + 1.
Definition block_len (c : Z) : Z := Z.min bs (N - c * bs).
Definition block (c : Z) : list Z := slice F (c * bs) (c * bs + block_len c).
Definition data_packet (j : Z) : list Z := be16_bytes TFTP_DATA ++ be16_bytes j ++ block (j - 1).

(** Memory with the first [c] blocks at the load address. *)
Definition loaded (c : Z) : Z -> Z := mem_store M0 load (take (Z.to_nat (Z.min (c * bs) N)) F).

(** [c] blocks have been received. *)
Record loading (c : Z) (s : tftp) : Prop := mkLoading {
  l_cur : cur_block (prog s) = c mod 65536;
  l_start : c = 0 -> tstate (prog s) = STATE_SEND_RRQ \/ tstate (prog s) = STATE_OACK /\ remote_port (prog s) = port;
  l_data : c <> 0 -> tstate (prog s) = STATE_DATA /\ remote_port (prog s) = port /\
             prev_block (prog s) = c mod 65536 /\ block_wrap_offset (prog s) = bs * 65536 * (c / 65536);
  l_bs : block_size (opts s) = bs;
  l_put : put_active (req s) = false;
  l_load : load_addr (req s) = load;
  l_me : our_port (req s) = me;
  l_mem : forall x, mem (mach s) x = loaded c x;
  l_size : boot_file_size (mach s) = Z.min (c * bs) N;
  l_lmb : P c (lmb_state (mach s))
}.

Lemma loading_same c s s' : same_load s s' -> loading c s -> loading c s'.
Proof using.
  intros [] []. split; rewrite ?sl_cur0, ?sl_state0, ?sl_port0, ?sl_prev0, ?sl_off0, ?sl_bs0, ?sl_req0, ?sl_mem0, ?sl_lmb0, ?sl_size0; done.
Qed.

Lemma loading_receiving c s : loading c s -> receiving (tstate (prog s)).
Proof using All.
  intros L. unfold receiving. destruct (decide (c = 0)) as [E|E].
  - destruct (l_start _ _ L E) as [->|[-> _]]; auto.
  - destruct (l_data _ _ L E) as [-> _]. auto.
Qed.

Lemma blocks_spec c : 0 <= c -> c < blocks <-> c * bs <= N.
Proof using All.
  intros Hc. unfold blocks. split; intros H.
  - assert (c <= N / bs) as Hd by lia. apply (Z.mul_le_mono_nonneg_r _ _ bs) in Hd; [|lia].
    pose proof (Z.mul_div_le N bs). lia.
  - assert (c <= N / bs); [|lia]. apply Z.div_le_lower_bound; lia.
Qed.

Lemma last_block c : 0 <= c < blocks -> block_len c < bs <-> c + 1 = blocks.
Proof using All.
  intros [H0 Hc]. unfold block_len. pose proof (blocks_spec c H0) as B.
  pose proof (blocks_spec (c + 1) ltac:(lia)) as B1. destruct (decide (c + 1 < blocks)); lia.
Qed.

Lemma block_length c : 0 <= c -> c * bs <= N -> Z.of_nat (length (block c)) = block_len c.
Proof using All. intros. unfold block, block_len. rewrite slice_length by nia. lia. Qed.

Lemma block_lookup c i :
  0 <= c -> c * bs <= N -> 0 <= i < block_len c -> block c !!! Z.to_nat i = F !!! Z.to_nat (c * bs + i).
Proof using All.
  intros H0 Hc Hi. unfold block. rewrite !list_lookup_total_alt, slice_lookup by nia.
  rewrite decide_True by lia. do 2 f_equal. nia.
Qed.

(** The block number is right modulo 2^16. *)
Lemma next_number c : u16 (c mod 65536 + 1) = (c + 1) mod 65536.
Proof using All. unfold u16. by rewrite Zplus_mod_idemp_l. Qed.

(** A block where it belongs. *)
Lemma offset_right c :
  0 <= c -> c * bs <= N ->
  u64 (s32 (((c + 1) mod 65536) * bs) + bs * 65536 * ((c + 1) / 65536) - bs) = c * bs.
Proof using All.
  intros H0 Hc. pose proof (Z.mod_pos_bound (c + 1) 65536 ltac:(lia)) as Hm.
  pose proof (Z.div_mod (c + 1) 65536 ltac:(lia)) as Hd.
  rewrite s32_small by nia. rewrite u64_small by (unfold U64_MAX; nia). nia.
Qed.

(** The state before the block is stored. *)
Record ready (c : Z) (s : tftp) : Prop := mkReady {
  y_cur : cur_block (prog s) = (c + 1) mod 65536;
  y_state : tstate (prog s) = STATE_DATA;
  y_port : remote_port (prog s) = port;
  y_prev : prev_block (prog s) = c mod 65536;
  y_off : block_wrap_offset (prog s) = bs * 65536 * (c / 65536);
  y_bs : block_size (opts s) = bs;
  y_put : put_active (req s) = false;
  y_load : load_addr (req s) = load;
  y_me : our_port (req s) = me;
  y_mem : forall x, mem (mach s) x = loaded c x;
  y_size : boot_file_size (mach s) = Z.min (c * bs) N;
  y_lmb : P c (lmb_state (mach s))
}.

Lemma wrap_bound c : 0 <= c -> c * bs <= N -> 0 <= bs * 65536 * (c / 65536) <= N.
Proof using All.
  intros H0 Hc. pose proof (Z.mul_div_le c 65536 ltac:(lia)) as D. pose proof (Z.div_pos c 65536 ltac:(lia) ltac:(lia)) as Dp.
  apply (Z.mul_le_mono_nonneg_l _ _ bs) in D; [|lia]. nia.
Qed.

(** The wrap of the block number is counted. *)
Lemma wrap_counted c s :
  ready c s -> 0 <= c -> c * bs <= N ->
  block_wrap_offset (prog (update_block_number s)) = bs * 65536 * ((c + 1) / 65536).
Proof using All.
  intros R H0 Hc. unfold update_block_number. rewrite (y_cur _ _ R), (y_prev _ _ R), (y_bs _ _ R).
  pose proof (Z.div_mod c 65536 ltac:(lia)) as Dc. pose proof (Z.mod_pos_bound c 65536 ltac:(lia)).
  pose proof (Z.div_mod (c + 1) 65536 ltac:(lia)) as D1. pose proof (Z.mod_pos_bound (c + 1) 65536 ltac:(lia)).
  destruct (Z.eqb_spec ((c + 1) mod 65536) 0) as [E|E]; simpl.
  - rewrite (proj2 (Z.eqb_neq (c mod 65536) 0)) by lia. cbn [negb].
    assert ((c + 1) / 65536 = c / 65536 + 1) as -> by lia.
    assert (block_wrap_offset (prog s) + u64 (bs * TFTP_SEQUENCE_SIZE) = bs * 65536 * (c / 65536 + 1)) as <-.
    { rewrite (y_off _ _ R). unfold TFTP_SEQUENCE_SIZE. rewrite u64_small by (unfold U64_MAX; lia). lia. }
    assert (0 <= block_wrap_offset (prog s) <= 4294967296) as Hb
      by (rewrite (y_off _ _ R); pose proof (wrap_bound c H0 Hc); lia).
    destruct s as [[] ? ? ?]. cbn in *. rewrite u64_small; [done|].
    unfold TFTP_SEQUENCE_SIZE, U64_MAX. rewrite u64_small by (unfold U64_MAX; lia). lia.
  - assert ((c + 1) / 65536 = c / 65536) as -> by lia. apply R.
Qed.

(** What [update_block_number] leaves alone. *)
Lemma update_frame s :
  let s' := update_block_number s in
  cur_block (prog s') = cur_block (prog s) /\ tstate (prog s') = tstate (prog s) /\
  remote_port (prog s') = remote_port (prog s) /\ opts s' = opts s /\ req s' = req s /\ mach s' = mach s.
Proof using All. unfold update_block_number. destruct s as [[] ? ? ?]. cbn. by case_match. Qed.

(** The state [store_block] is called in. *)
Definition placed (s : tftp) : tftp :=
  let s := update_block_number s in
  let s := with_prog s (fun p => set_prev (cur_block p) p) in
  let s := with_opts s (fun o => set_timeout_count_max (tftp_timeout_count_max o) o) in
  with_mach s (set_timer (timeout_ms (opts s))).

Lemma placed_spec c s :
  ready c s -> 0 <= c -> c * bs <= N ->
  let s' := placed s in
  cur_block (prog s') = (c + 1) mod 65536 /\ prev_block (prog s') = (c + 1) mod 65536 /\
  tstate (prog s') = STATE_DATA /\ remote_port (prog s') = port /\
  block_wrap_offset (prog s') = bs * 65536 * ((c + 1) / 65536) /\
  block_size (opts s') = bs /\ req s' = req s /\ mem (mach s') = mem (mach s) /\
  lmb_state (mach s') = lmb_state (mach s) /\ boot_file_size (mach s') = boot_file_size (mach s) /\
  ended (mach s') = ended (mach s).
Proof using All.
  intros R H0 Hc. pose proof (wrap_counted c s R H0 Hc) as W.
  destruct (update_frame s) as (Ec & Et & Ep & Eo & Er & Em). unfold placed.
  rewrite <- (y_cur _ _ R), <- (y_state _ _ R), <- (y_port _ _ R), <- (y_bs _ _ R), <- Ec, <- Et, <- Ep, <- Eo, <- Er, <- Em, <- W in *.
  destruct (update_block_number s) as [[] [] ? []]. done.
Qed.

(** The block is granted and stored. *)
Lemma store_spec c s :
  0 <= c -> c * bs <= N ->
  cur_block (prog s) = (c + 1) mod 65536 -> block_wrap_offset (prog s) = bs * 65536 * ((c + 1) / 65536) ->
  block_size (opts s) = bs -> load_addr (req s) = load -> P c (lmb_state (mach s)) ->
  boot_file_size (mach s) = Z.min (c * bs) N ->
  exists s', store_block efi notify mem_ok s (cur_block (prog s)) (block c) = (0, s') /\
    prog s' = prog s /\ opts s' = opts s /\ req s' = req s /\ ended (mach s') = ended (mach s) /\
    mem (mach s') = mem_store (mem (mach s)) (load + c * bs) (block c) /\
    boot_file_size (mach s') = Z.min ((c + 1) * bs) N /\ P (c + 1) (lmb_state (mach s')).
Proof using All.
  intros H0 Hc Ecur Eoff Ebs Eload HP Esize. pose proof (block_length c H0 Hc) as Lb.
  assert (0 <= block_len c <= bs) as Rb by (unfold block_len; lia).
  assert (0 <= c * bs) as R0 by nia.
  assert (c * bs + block_len c = Z.min ((c + 1) * bs) N) as En by (unfold block_len; lia).
  unfold store_block, block_offset. rewrite Ecur, Eoff, Ebs, Eload, Lb.
  rewrite offset_right by done. rewrite !u64_small by (unfold U64_MAX in *; lia).
  rewrite (proj2 (Z.ltb_ge _ _)) by lia.
  destruct (grants c (lmb_state (mach s)) HP H0 Hc) as (m' & E & HP'). fold (block_len c) in E.
  rewrite E. cbn [Z.eqb negb]. eexists. split; [reflexivity|]. rewrite <- En.
  destruct s as [? ? ? []]. cbn in *. rewrite Esize, (Z.min_l (c * bs)) by lia.
  destruct (Z.ltb_spec (c * bs) (c * bs + block_len c)); cbn.
  - rewrite u32_small by lia. done.
  - assert (block_len c = 0) as Z0 by lia. rewrite Z0, Z.add_0_r. split_and!; (done || lia).
Qed.

Lemma store_prefix c m x :
  0 <= c -> c * bs <= N -> (forall x, m x = loaded c x) ->
  mem_store m (load + c * bs) (block c) x = loaded (c + 1) x.
Proof using All.
  intros H0 Hc Hm. unfold mem_store at 1. rewrite Hm, block_length by done.
  assert (c * bs + block_len c = Z.min ((c + 1) * bs) N) as En by (unfold block_len; lia).
  assert (0 <= c * bs) as R0 by nia. assert (0 <= block_len c) as Rb by (unfold block_len; lia).
  unfold loaded, mem_store. rewrite !length_take, <- En, (Z.min_l (c * bs)) by lia.
  replace (Z.of_nat (Z.to_nat (c * bs) `min` length F)) with (c * bs) by lia.
  replace (Z.of_nat (Z.to_nat (c * bs + block_len c) `min` length F)) with (c * bs + block_len c) by lia.
  repeat case_Z; cbn [andb]; try lia; try done.
  - rewrite !list_lookup_total_alt, !lookup_take_lt by lia. done.
  - rewrite block_lookup, !list_lookup_total_alt, lookup_take_lt by lia. do 2 f_equal. lia.
Qed.

(** The state once the block is in memory. *)
Lemma stored_loading c s s' :
  ready c s -> 0 <= c -> c * bs <= N ->
  store_block efi notify mem_ok (placed s) (cur_block (prog (placed s))) (block c) = (0, s') ->
  loading (c + 1) s' /\ ended (mach s') = ended (mach s).
Proof using All.
  intros R H0 Hc E. destruct (placed_spec c s R H0 Hc) as (Pc & Pp & Pt & Pr & Po & Pb & Pq & Pm & Pl & Ps & Pe).
  destruct (store_spec c (placed s) H0 Hc Pc Po Pb) as (s1 & E1 & S1 & S2 & S3 & S4 & S5 & S6 & S7).
  { rewrite Pq. apply R. }
  { rewrite Pl. apply R. }
  { rewrite Ps. apply R. }
  rewrite E1 in E. injection E as ->. split; [|congruence].
  split; rewrite ?S1, ?S2, ?S3, ?S6, ?Pq; try (done || apply R || lia).
  intros x. rewrite S5, Pm. apply store_prefix; [done|done|apply R].
Qed.

Lemma store_granted c s :
  ready c s -> 0 <= c -> c * bs <= N ->
  exists s', store_block efi notify mem_ok (placed s) (cur_block (prog (placed s))) (block c) = (0, s').
Proof using All.
  intros R H0 Hc. destruct (placed_spec c s R H0 Hc) as (Pc & Pp & Pt & Pr & Po & Pb & Pq & Pm & Pl & Ps & Pe).
  destruct (store_spec c (placed s) H0 Hc Pc Po Pb) as (s1 & E1 & _); [|..|by exists s1].
  - rewrite Pq. apply R.
  - rewrite Pl. apply R.
  - rewrite Ps. apply R.
Qed.

Lemma loading_ended c s e : loading c s -> loading c (with_mach s (set_ended e)).
Proof using All. intros []. by destruct s as [? ? ? []]; split. Qed.

Lemma accept_spec c s :
  ready c s -> 0 <= c -> c * bs <= N ->
  let s' := accept_block efi notify mem_ok s (block c) in
  loading (c + 1) s' /\ ended (mach s') = if block_len c <? bs then Success else ended (mach s).
Proof using All.
  intros R H0 Hc. destruct (store_granted c s R H0 Hc) as (s1 & E).
  destruct (stored_loading c s s1 R H0 Hc E) as [L1 E1].
  unfold accept_block. fold (placed s). rewrite E. cbn [Z.eqb negb].
  set (s2 := with_prog s1 (set_timeout_count 0)).
  assert (loading (c + 1) s2) as L2 by (eapply loading_same; [apply same_count|done]).
  assert (ended (mach s2) = ended (mach s)) as E2 by (rewrite <- E1; by destruct s1).
  rewrite (l_bs _ _ L2), block_length by done.
  pose proof (same_send s2 (l_put _ _ L2) (loading_receiving _ _ L2)) as Sd.
  pose proof (loading_same _ _ _ Sd L2) as L3.
  destruct (block_len c <? bs).
  - split; [by apply loading_ended|]. unfold tftp_complete. by destruct (tftp_send s2) as [? ? ? []].
  - case_match; [|done]. split.
    + eapply loading_same; [|exact L3]. generalize (tftp_send s2). intros s3. same_tac s3.
    + rewrite <- E2, <- (sl_ended _ _ Sd). by destruct (tftp_send s2).
Qed.

(** ** The handler on a packet of the server *)

(** The handler looks at the packet as data. *)
Lemma handler_data c s now j junk sip :
  loading c s -> 
  handler s now (data_packet j ++ junk) me sip port (Z.of_nat (length (data_packet j))) =
  handle_data efi notify mem_ok s (be16_bytes j ++ block (j - 1) ++ junk) port
    (2 + Z.of_nat (length (block (j - 1)))).
Proof using All.
  intros L. unfold tftp_handler. rewrite (l_me _ _ L), Z.eqb_refl. cbn [negb].
  assert (negb (bool_decide (tstate (prog s) = STATE_SEND_RRQ)) && negb (port =? remote_port (prog s)) &&
          negb (bool_decide (tstate (prog s) = STATE_RECV_WRQ)) && negb (bool_decide (tstate (prog s) = STATE_SEND_WRQ))
          = false) as ->.
  { destruct (decide (c = 0)) as [E|E].
    - destruct (l_start _ _ L E) as [-> | [_ ->]]; [done|]. by rewrite Z.eqb_refl, andb_false_r.
    - destruct (l_data _ _ L E) as (_ & -> & _). by rewrite Z.eqb_refl, andb_false_r. }
  assert (Z.of_nat (length (data_packet j)) = 4 + Z.of_nat (length (block (j - 1)))) as ->
    by (unfold data_packet; rewrite !length_app; simpl; lia).
  rewrite (proj2 (Z.ltb_ge _ _)) by lia. unfold data_packet. rewrite <- !(assoc_L (++)), rd16be_bytes.
  change (u16 TFTP_DATA) with TFTP_DATA. cbn [be16_bytes app drop Z.eqb]. f_equal. lia.
Qed.

(** The state [accept_block] is called in. *)
Definition begun (s : tftp) : tftp :=
  let s := with_prog s (fun p => set_cur (u64 (cur_block p + 1) mod TFTP_SEQUENCE_SIZE) p) in
  match tstate (prog s) with
  | STATE_SEND_RRQ =>
    new_transfer (with_prog (with_prog s (set_next_ack (windowsize (opts s))))
                    (fun p => set_remote_port port (set_tstate STATE_DATA p)))
  | STATE_OACK => new_transfer (with_prog s (fun p => set_remote_port port (set_tstate STATE_DATA p)))
  | _ => s
  end.

Lemma begun_ready c s : loading c s -> 0 <= c -> ready c (begun s) /\ ended (mach (begun s)) = ended (mach s).
Proof using All.
  intros L H0. assert (u64 (c mod 65536 + 1) mod TFTP_SEQUENCE_SIZE = (c + 1) mod 65536) as Ecur.
  { pose proof (Z.mod_pos_bound c 65536 ltac:(lia)).
    rewrite u64_small by (unfold U64_MAX; lia). unfold TFTP_SEQUENCE_SIZE. by rewrite Zplus_mod_idemp_l. }
  destruct L as [Lc Ls Ld Lb Lp Ll Lm LM Lz LP].
  destruct s as [[cur prev wr wo st na ln rp tc pf] o q m]. unfold begun. cbn in *. subst cur.
  destruct (decide (c = 0)) as [-> |E].
  - destruct (Ls eq_refl) as [-> |[-> ->]]; (split; [split|]; first [done | rewrite Z.div_0_l by lia; cbn; lia]).
  - destruct (Ld E) as (-> & -> & -> & ->). split; [split|]; done.
Qed.

(** The expected block goes to [accept_block]. *)
Lemma handle_begun s data junk v :
  receiving (tstate (prog s)) -> u16 v = u16 (cur_block (prog s) + 1) ->
  handle_data efi notify mem_ok s (be16_bytes v ++ data ++ junk) port (2 + Z.of_nat (length data)) =
  if bool_decide (tstate (prog s) <> STATE_DATA) && negb (cur_block (prog (begun s)) =? 1)
  then with_mach (begun s) (set_ended StartAgain)
  else if cur_block (prog (begun s)) =? prev_block (prog (begun s)) then begun s
  else accept_block efi notify mem_ok (begun s) data.
Proof using All.
  intros Hr E. unfold handle_data. rewrite (proj2 (Z.ltb_ge _ _)) by lia.
  rewrite rd16be_bytes, E, Z.eqb_refl. cbn [negb].
  replace (Z.to_nat (2 + Z.of_nat (length data) - 2)) with (length data) by lia.
  change (drop 2 (be16_bytes v ++ data ++ junk)) with (data ++ junk). rewrite take_app_length.
  destruct s as [[cur prev wr wo st na ln rp tc pf] o q m]. cbn in Hr. by destruct Hr as [-> |[-> | ->]].
Qed.

Lemma handle_expected c s data junk :
  loading c s -> 0 <= c ->
  handle_data efi notify mem_ok s (be16_bytes (c + 1) ++ data ++ junk) port (2 + Z.of_nat (length data)) =
  accept_block efi notify mem_ok (begun s) data.
Proof using All.
  intros L H0. destruct (begun_ready c s L H0) as [R _].
  rewrite handle_begun by (first [by eapply loading_receiving | rewrite (l_cur _ _ L), next_number; done]).
  rewrite (y_cur _ _ R), (y_prev _ _ R).
  pose proof (Z.div_mod c 65536 ltac:(lia)). pose proof (Z.div_mod (c + 1) 65536 ltac:(lia)).
  rewrite (proj2 (Z.eqb_neq ((c + 1) mod 65536) (c mod 65536))) by lia.
  destruct (decide (c = 0)) as [-> |E]; [by rewrite andb_false_r|].
  destruct (l_data _ _ L E) as (-> & _). done.
Qed.

(** The next block. *)
Lemma deliver_next c s now junk sip :
  loading c s -> 0 <= c -> c * bs <= N ->
  let s' := handler s now (data_packet (c + 1) ++ junk) me sip port (Z.of_nat (length (data_packet (c + 1)))) in
  loading (c + 1) s' /\ ended (mach s') = if block_len c <? bs then Success else ended (mach s).
Proof using All.
  intros L H0 Hc. cbv zeta. rewrite (handler_data c) by done. replace (c + 1 - 1) with c by lia.
  rewrite (handle_expected c) by done. destruct (begun_ready c s L H0) as [R <-]. by apply accept_spec.
Qed.

(** Any other block: nothing of the transfer changes. *)
Lemma deliver_other c s now j junk sip :
  loading c s -> 0 <= c -> c + 1 - 65536 < j < c + 1 + 65536 -> j <> c + 1 ->
  same_load s (handler s now (data_packet j ++ junk) me sip port (Z.of_nat (length (data_packet j)))).
Proof using All.
  intros L H0 Hj Ne. rewrite (handler_data c) by done. unfold handle_data.
  rewrite (proj2 (Z.ltb_ge _ _)) by lia. rewrite rd16be_bytes, (l_cur _ _ L), next_number.
  assert (u16 j <> (c + 1) mod 65536) as E.
  { unfold u16. intros E. pose proof (Z.div_mod j 65536 ltac:(lia)). pose proof (Z.div_mod (c + 1) 65536 ltac:(lia)). lia. }
  apply Z.eqb_neq in E. rewrite E. cbn [negb]. apply same_unexpected; [apply L|by eapply loading_receiving].
Qed.

(** ** Runs of the network loop *)

(** What can happen: block [j] arrives from the server, with the time, what
    follows it in the buffer and the sender's address; a packet for another
    port arrives; the timer expires. *)
Inductive event : Type :=
| Deliver (j now : Z) (junk : list Z) (sip : Z)
| Stray (now : Z) (pkt : list Z) (dest sip src len : Z)
| Tick.

Definition happens (s : tftp) (e : event) : tftp :=
  match e with
  | Deliver j now junk sip => handler s now (data_packet j ++ junk) me sip port (Z.of_nat (length (data_packet j)))
  | Stray now pkt dest sip src len => handler s now pkt dest sip src len
  | Tick => tftp_timeout_handler s
  end.

(** The network loop goes on until it is told to stop or to start again. *)
Fixpoint run (s : tftp) (es : list event) : tftp :=
  match es with
  | [] => s
  | e :: es => match ended (mach s) with Going => run (happens s e) es | _ => s end
  end.

(** The abstract transfer: [c] blocks are there, and the next one counts. *)
Definition counts (c : Z) (e : event) : Z :=
  match e with Deliver j _ _ _ => if j =? c + 1 then c + 1 else c | _ => c end.
Definition received (c : Z) (es : list event) : Z := fold_left counts es c.

(** The server sends blocks of the file, less than 65536 away from the one
    that is expected; other packets are for other ports. *)
Definition plausible (c : Z) (e : event) : Prop :=
  match e with
  | Deliver j _ _ _ => 1 <= j <= blocks /\ c + 1 - 65536 < j < c + 1 + 65536
  | Stray _ _ dest _ _ _ => dest <> me
  | Tick => True
  end.
Fixpoint plausible_run (c : Z) (es : list event) : Prop :=
  match es with [] => True | e :: es => plausible c e /\ plausible_run (counts c e) es end.

(** The timer. *)
Lemma timeout_loading c s :
  loading c s -> let s' := tftp_timeout_handler s in
  loading c s' /\ (ended (mach s') = StartAgain \/ ended (mach s') = ended (mach s)).
Proof using All.
  intros L. cbv zeta. destruct (same_timeout s (l_put _ _ L) (loading_receiving _ _ L)) as [E|Sl].
  2:{ split; [by eapply loading_same|]. right. apply Sl. }
  split; [|auto]. unfold tftp_timeout_handler. set (s1 := with_prog s _).
  assert (loading c s1) as L1 by (eapply loading_same; [apply same_count|done]).
  case_match; [by apply loading_ended|]. set (s2 := with_mach s1 _).
  assert (loading c s2) as L2 by (eapply loading_same; [apply same_timer|done]).
  case_match; [done|]. eapply loading_same; [|exact L2]. apply same_send; [apply L2|by eapply loading_receiving].
Qed.

(** One event. *)
Lemma happens_loading c s e :
  loading c s -> 0 <= c < blocks -> ended (mach s) = Going -> plausible c e ->
  let s' := happens s e in
  loading (counts c e) s' /\
  (ended (mach s') = StartAgain /\ counts c e = c \/
   ended (mach s') = if counts c e =? blocks then Success else Going).
Proof using All.
  intros L [H0 Hc] Eg Pl. pose proof (proj1 (blocks_spec c H0) Hc) as Hc'. pose proof (last_block c (conj H0 Hc)) as La.
  assert ((c =? blocks) = false) as Nb by (apply Z.eqb_neq; lia).
  assert (forall s', same_load s s' -> loading c s' /\
    (ended (mach s') = StartAgain /\ c = c \/ ended (mach s') = if c =? blocks then Success else Going)) as Sm.
  { intros s' Sl. split; [by eapply loading_same|]. right. by rewrite (sl_ended _ _ Sl), Nb. }
  destruct e as [j now junk sip|now pkt dest sip src len|]; cbn [happens counts plausible] in *.
  - destruct (Z.eqb_spec j (c + 1)) as [-> |Nj].
    + destruct (deliver_next c s now junk sip L H0 Hc') as [L' E']. split; [done|]. right. rewrite E', Eg.
      destruct (Z.ltb_spec (block_len c) bs), (Z.eqb_spec (c + 1) blocks); done || lia.
    + apply Sm. apply (deliver_other c); done || lia.
  - apply Sm. unfold tftp_handler. rewrite (l_me _ _ L), (proj2 (Z.eqb_neq dest me)) by done. apply same_load_refl.
  - destruct (timeout_loading c s L) as [L' [E|E]]; (split; [done|]); [by left|right]. by rewrite E, Nb.
Qed.

Lemma counts_range c e : 0 <= c <= blocks -> plausible c e -> c <= counts c e <= blocks.
Proof using All. intros H Pl. destruct e; cbn in *; try lia. case_Z; lia. Qed.

(** All the blocks are there: nothing counts any more. *)
Lemma received_done es : plausible_run blocks es -> received blocks es = blocks.
Proof using All.
  unfold received. induction es as [|e es IH]; [done|]. cbn. intros [Pl Ps].
  assert (counts blocks e = blocks) as E.
  { assert (0 <= blocks) as B by (unfold blocks; pose proof (Z.div_pos N bs); lia).
    pose proof (counts_range blocks e ltac:(lia) Pl). lia. }
  rewrite E in *. by apply IH.
Qed.

(** Any run of the loop. *)
Lemma run_loading es : forall c s,
  loading c s -> 0 <= c < blocks -> ended (mach s) = Going -> plausible_run c es ->
  let s' := run s es in
  exists c', 0 <= c' <= blocks /\ loading c' s' /\
    (ended (mach s') = StartAgain /\ c' < blocks \/
     c' = received c es /\ ended (mach s') = if c' =? blocks then Success else Going).
Proof using All.
  induction es as [|e es IH]; intros c s L Hc Eg Pl; cbn [run].
  - exists c. split; [lia|]. split; [done|]. right. split; [done|]. by rewrite (proj2 (Z.eqb_neq c blocks)) by lia.
  - cbn in Pl. destruct Pl as [Pe Ps]. rewrite Eg. destruct (happens_loading c s e L Hc Eg Pe) as [L' E'].
    pose proof (counts_range c e ltac:(lia) Pe) as Hc'.
    assert (forall s e', ended (mach s) = e' -> e' <> Going -> run s es = s) as Stop.
    { intros t e' Et Ne. destruct es; [done|]. cbn. rewrite Et. by destruct e'. }
    destruct E' as [[E' Ec]|E'].
    { rewrite (Stop _ _ E') by done. exists (counts c e). split; [lia|]. split; [done|]. left. split; [done|]. lia. }
    destruct (Z.eqb_spec (counts c e) blocks) as [Eb|Nb].
    + rewrite (Stop _ _ E') by done. exists blocks. split; [lia|]. rewrite Eb in L'. split; [done|]. right.
      rewrite Z.eqb_refl. split; [|done]. unfold received. cbn. rewrite Eb in *. symmetry. by apply received_done.
    + apply (IH (counts c e) _ L'); done || lia.
Qed.
End Load.
