(* ===== verification/TftpLmb.v ===== *)
(** The allocator of lib/lmb.c lets TFTP load a file: when the area of the file,
    with one byte more, is free memory, every block in turn is granted, also
    the empty one that ends a file of whole blocks.  The blocks grow a single
    region, so the list of regions does not grow with the file. *)

From S2P Require Import Prelude Bytes Cstring Alist Lmb LmbFacts LmbMap LmbAlloc LmbProps Tftp TftpGet.

(** [e] is where the loaded part ends and [stop] where the file will end. *)
Record room (stop : Z) (first : bool) (e : Z) (ru : list lmb_region) : Prop := mkRoom {
  rm_free : Forall (fun r => rend r <= e \/ stop < r_base r) ru;
  rm_last : first = false -> Exists (fun r => rend r = e /\ r_flags r = LMB_NONE) ru;
  rm_len : Z.of_nat (length ru) < if first then 32767 else 32768
}.

Section Room.
Context (stop : Z) (first : bool) (ru : list lmb_region) (n : lmb_region).
Hypothesis (O : ordered ru) (Co : coalesced ru) (Vn : valid n).
Hypothesis (Hn : rend n <= stop) (Hf : r_flags n = LMB_NONE).
Hypothesis (Rm : room stop first (r_base n) ru).

Lemma room_apart : Forall (fun r => ~ meets n r) ru.
Proof using All.
  pose proof (rm_free _ _ _ _ Rm) as Fr. eapply Forall_impl; [exact Fr|]. cbn. intros r H. region. lia.
Qed.

Lemma room_compatible : compatible n ru.
Proof using All. eapply Forall_impl; [exact room_apart|]. cbn. intros r H M. by destruct H. Qed.

(** How the list splits at the next block. *)
Lemma room_split lo mid hi :
  ru = lo ++ mid ++ hi -> around n lo mid hi ->
  mid = [] /\ Forall (fun r => stop < r_base r) hi /\
  (first = false -> exists lo' p, lo = lo' ++ [p] /\ tight p n).
Proof using All.
  intros E Ar. pose proof room_apart as Ap. pose proof (rm_free _ _ _ _ Rm) as Fr.
  pose proof (rm_last _ _ _ _ Rm) as La. pose proof O as O'.
  rewrite E in *. apply Forall_app in Ap as [_ Ap]. apply Forall_app in Ap as [Am _].
  assert (mid = []) as ->.
  { pose proof (ar_mid _ _ _ _ Ar) as M. destruct mid as [|x mid]; [done|].
    apply Forall_cons in Am as [Ax _]. apply Forall_cons in M as [Mx _]. done. }
  cbn [app] in *. apply ordered_app in O' as (Ol & Oh & B). apply Forall_app in Fr as [_ Fh].
  pose proof (ar_hi _ _ _ _ Ar) as Hh. rewrite Forall_forall in Hh.
  split; [done|]. split.
  { pose proof (ordered_valid _ Oh) as V. rewrite Forall_forall in *. intros r Hr.
    specialize (V r Hr). destruct (Fh r Hr); [|done]. specialize (Hh r Hr). region. lia. }
  intros Hfi. apply Exists_exists in La as (r & Hr & Er & Fe); [|done].
  apply elem_of_app in Hr as [Hr|Hr].
  2:{ specialize (Hh r Hr). pose proof (ordered_valid _ Oh) as V. rewrite Forall_forall in V. specialize (V r Hr). region. lia. }
  destruct (list_last_dec lo) as [El|(lo' & p & El)]; [subst lo; by apply elem_of_nil in Hr|].
  exists lo', p. split; [done|]. assert (r = p) as ->; [|split; congruence].
  rewrite El in Hr, Ol. apply elem_of_app in Hr as [Hr|Hr]; [|by apply list_elem_of_singleton in Hr].
  exfalso. apply ordered_app in Ol as (_ & Op & Bp). rewrite Forall_forall in Bp. specialize (Bp r Hr).
  apply Forall_cons in Bp as [Bp _]. apply ordered_cons in Op as (Vp & _).
  pose proof (ar_lo _ _ _ _ Ar) as Hl. rewrite El in Hl. apply Forall_app in Hl as [_ [Hl _]%Forall_cons]. region. lia.
Qed.

(** The region after the block is added. *)
Lemma room_step lo mid hi rs' :
  ru = lo ++ mid ++ hi -> around n lo mid hi -> add_case lo mid hi n rs' -> room stop false (rend n) rs'.
Proof using All.
  intros E Ar Hc. destruct (room_split lo mid hi E Ar) as (Em & Fh & Hl).
  pose proof (rm_len _ _ _ _ Rm) as Len. pose proof (ar_lo _ _ _ _ Ar) as Flo.
  assert (forall h hi', hi = h :: hi' -> rend n < r_base h) as Nh.
  { intros h hi' ->. apply Forall_cons in Fh as [? _]. lia. }
  assert (forall x, rend x = rend n -> merge_next x hi = x :: hi) as Mn.
  { intros x Ex. destruct hi as [|h t]; [done|]. cbn. rewrite decide_False; [done|].
    intros [T _]. specialize (Nh h t eq_refl). lia. }
  assert (Forall (fun r => rend r <= rend n \/ stop < r_base r) lo) as Fl.
  { eapply Forall_impl; [exact Flo|]. cbn. intros r. region. lia. }
  assert (Forall (fun r => rend r <= rend n \/ stop < r_base r) hi) as Fi.
  { eapply Forall_impl; [exact Fh|]. cbn. auto. }
  destruct Hc as [lo' p El T _ | | | h hi' T _ Eh Th | h h1 t T _ Eh Eb | T _ Eh]; try congruence.
  - assert (rend (join p n) = rend n) as Ej by (unfold join, rend; simpl; lia).
    rewrite (Mn _ Ej). rewrite El in Fl. apply Forall_app in Fl as [Fl _]. split.
    + apply Forall_app. split; [done|]. apply Forall_cons. split; [lia|done].
    + intros _. apply Exists_app. right. left. split; [done|]. destruct T as [_ T]. unfold join. cbn. congruence.
    + revert Len. rewrite E, El, Em, !length_app. cbn [length]. destruct first; lia.
  - destruct Th as [Th _]. specialize (Nh h hi' Eh). lia.
  - specialize (Nh h (h1 :: t) Eh). lia.
  - split.
    + apply Forall_app. split; [done|]. apply Forall_cons. split; [lia|done].
    + intros _. apply Exists_app. right. by left.
    + destruct first; [|destruct (Hl eq_refl) as (lo' & p & El & Tp); by destruct (T lo' p)].
      revert Len. rewrite E, Em, !length_app. cbn [length]. lia.
Qed.
End Room.

(** ** Granting a block *)

Section Grant.
Context (efi : bool) (notify : Z -> Z -> lmb_map_op -> Z).
Hypothesis Quiet : forall a s op, notify a s op = 0.
Context (m : lmb) (ra ru : list lmb_region) (stop : Z) (r : lmb_region).
Hypothesis (I : lmb_inv m ra ru) (Co : coalesced ru) (Hr : r ∈ ra) (Hstop : stop < rend r).

(** A block of at least one byte. *)
Lemma grant_block first n :
  valid n -> r_base r <= r_base n -> rend n <= stop -> r_flags n = LMB_NONE ->
  room stop first (r_base n) ru ->
  exists m' ru', lmb_read_check efi notify true m (r_base n) (r_size n) = (0, m') /\
    lmb_inv m' ra ru' /\ coalesced ru' /\ LmbMap.updates ru n ru' /\ room stop false (rend n) ru'.
Proof using All.
  intros Vn Hb He Hf Rm. pose proof (inv_ou _ _ _ I) as O.
  pose proof (room_apart stop first ru n O Co Vn He Hf Rm) as Ap.
  pose proof (room_compatible stop first ru n O Co Vn He Hf Rm) as C.
  unfold lmb_read_check. rewrite <- Hf. rewrite (block_in_memory efi notify m ra ru n r) by (try done; split; lia).
  unfold lmb_reserve. rewrite (proj2 (can_reserve_compatible m ra ru n I Vn) C). cbn [negb].
  destruct (split_around n ru O Vn) as (lo & mid & hi & E & Ar).
  destruct (room_split stop first ru n O Co Vn He Hf Rm lo mid hi E Ar) as (Em & _).
  assert (Z.of_nat (length ru) < 32768) as Len by (pose proof (rm_len _ _ _ _ Rm); destruct first; lia).
  pose proof (inv_ru _ _ _ I) as R. pose proof Co as Co'. pose proof O as O'. pose proof C as C'.
  rewrite E in R, Len, Co', O', C'.
  destruct (lmb_add_region_flags_cases n (used_mem m) lo mid hi R O' Vn Ar C' Len) as (l' & rs' & -> & R' & Hc).
  cbn [Z.eqb negb]. rewrite notify_zero by done. cbn [Z.eqb]. do 2 eexists. split; [reflexivity|].
  split; [eapply lmb_inv_used; [done|done|]; by eapply add_case_ordered|].
  split; [by eapply add_case_coalesced|]. split; [rewrite E; by eapply add_case_updates|].
  by apply (room_step stop first ru n O Co Vn He Hf Rm lo mid hi).
Qed.

End Grant.

(** ** The empty block *)

Section Empty.
Context (e : Z).
Hypothesis He : 0 < e <= U64_MAX.

Lemma empty_overlap x :
  valid x -> lmb_addrs_overlap e 0 (r_base x) (r_size x) = bool_decide (r_base x < e < rend x).
Proof using All.
  intros V. unfold lmb_addrs_overlap. rewrite !u64_small by (region; lia).
  region. repeat case_Z; case_bool_decide; cbn; done || lia.
Qed.

Lemma empty_in_memory rs : forall k (l : rgn_lst) l1 i,
  repr l (l1 ++ rs) -> i = Z.of_nat (length l1) -> k = length rs -> Forall valid rs ->
  Exists (fun x => r_base x < e < rend x) rs ->
  exists l2 x l3, l1 ++ rs = l2 ++ x :: l3 /\ valid x /\ r_base x < e < rend x /\
    overlaps_from k l e 0 i = Z.of_nat (length l2).
Proof using All.
  induction rs as [|x rs IH]; intros k l l1 i R -> -> V Ex; [by apply Exists_nil in Ex|].
  pose proof (repr_count _ _ R) as Hc. rewrite length_app in Hc. cbn [length overlaps_from] in *.
  apply Forall_cons in V as [Vx V]. rewrite (proj2 (Z.ltb_lt _ _)) by lia.
  rewrite (repr_rgn l l1 x rs) by done. rewrite empty_overlap by done. case_bool_decide as Hx.
  - by exists l1, x, rs.
  - apply Exists_cons in Ex as [Ex|Ex]; [done|]. rewrite cons_middle, (assoc_L (++)) in R |- *.
    apply (IH _ l (l1 ++ [x])); [done| |done|done|done]. rewrite length_app. cbn. lia.
Qed.

Lemma empty_can_reserve rs : forall k (u : rgn_lst) l1 i,
  repr u (l1 ++ rs) -> i = Z.of_nat (length l1) -> Forall valid rs ->
  Forall (fun x => ~ (r_base x < e < rend x)) rs -> can_reserve_from k u e 0 LMB_NONE i = true.
Proof using All.
  induction rs as [|x rs IH]; intros [|k] u l1 i R -> V Ex; try done;
    pose proof (repr_count _ _ R) as Hc; rewrite length_app in Hc; cbn [length can_reserve_from] in *.
  - by rewrite (proj2 (Z.ltb_ge _ _)) by lia.
  - rewrite (proj2 (Z.ltb_lt _ _)) by lia. rewrite (repr_rgn u l1 x rs) by done.
    apply Forall_cons in V as [Vx V]. apply Forall_cons in Ex as [Ex Exs].
    rewrite empty_overlap, bool_decide_eq_false_2 by done. cbn [andb].
    rewrite cons_middle, (assoc_L (++)) in R. apply (IH k u (l1 ++ [x])); [done| |done|done].
    rewrite length_app. cbn. lia.
Qed.

(** The scan passes the lower regions and extends the one that ends at [e]. *)
Lemma empty_add_loop p hi lo : forall k (l : rgn_lst) l1 i,
  repr l (l1 ++ lo ++ p :: hi) -> i = Z.of_nat (length l1) -> (length lo < k)%nat ->
  Forall valid lo -> Forall (fun x => rend x < e) lo -> valid p -> rend p = e -> r_flags p = LMB_NONE ->
  add_loop k l e 0 LMB_NONE i =
  ScanAt (set_rgn l (i + Z.of_nat (length lo)) p) (i + Z.of_nat (length lo)) 1.
Proof using All.
  induction lo as [|x lo IH]; intros [|k] l l1 i R -> Hk V B Vp Ep Fp; cbn [length] in *; try lia;
    pose proof (repr_count _ _ R) as Hc; rewrite !length_app in Hc; cbn [length add_loop app] in *;
    (rewrite (proj2 (Z.ltb_lt _ _)) by lia).
  - rewrite (repr_rgn l l1 p hi) by done. unfold lmb_addrs_adjacent.
    rewrite !u64_small by (region; lia). rewrite (proj2 (Z.eqb_neq (r_base p) (e + 0))) by (region; lia).
    rewrite (proj2 (Z.eqb_eq e (r_base p + r_size p))) by (region; lia). cbn [Z.ltb Z.compare].
    rewrite Fp. cbn [Z.eqb negb]. rewrite !Z.add_0_r. destruct p. cbn in *. by subst.
  - rewrite (repr_rgn l l1 x (lo ++ p :: hi)) by done. apply Forall_cons in V as [Vx V]. apply Forall_cons in B as [Bx B].
    unfold lmb_addrs_adjacent. rewrite !u64_small by (region; lia).
    rewrite (proj2 (Z.eqb_neq (r_base x) (e + 0))) by (region; lia).
    rewrite (proj2 (Z.eqb_neq e (r_base x + r_size x))) by (region; lia). cbn [Z.ltb Z.compare].
    rewrite empty_overlap, bool_decide_eq_false_2 by (done || lia).
    rewrite cons_middle, (assoc_L (++)) in R. rewrite (IH k l (l1 ++ [x])); auto; [|rewrite length_app; cbn; lia|lia].
    by replace (Z.of_nat (length l1) + 1 + Z.of_nat (length lo)) with (Z.of_nat (length l1) + Z.of_nat (S (length lo))) by lia.
Qed.
End Empty.

(** Regions that end at [e] or lie beyond it, split at the one that ends there. *)
Lemma split_last stop ru :
  ordered ru -> room stop false stop ru ->
  exists lo p hi, ru = lo ++ p :: hi /\ rend p = stop /\ r_flags p = LMB_NONE /\
    Forall (fun x => rend x < stop) lo /\ Forall (before p) hi.
Proof.
  intros O [Fr La _]. apply Exists_exists in La as (p & Hp & Ep & Fp); [|done].
  apply list_elem_of_split in Hp as (lo & hi & ->). exists lo, p, hi.
  apply ordered_mid in O as (Ol & Vp & Oh & Bl & Bh). split_and!; try done.
  rewrite Forall_forall in *. intros x Hx. specialize (Bl x Hx). region. lia.
Qed.

Lemma grant_empty efi notify m ra ru stop r :
  (forall a s op, notify a s op = 0) ->
  lmb_inv m ra ru -> coalesced ru -> r ∈ ra -> r_base r < stop -> stop < rend r ->
  room stop false stop ru ->
  exists m', lmb_read_check efi notify true m stop 0 = (0, m') /\ lmb_inv m' ra ru.
Proof.
  intros Quiet I Co Hr Hb Hs Rm. pose proof (inv_oa _ _ _ I) as Oa. pose proof (inv_ou _ _ _ I) as Ou.
  pose proof (ordered_valid _ Oa) as Va. pose proof (ordered_valid _ Ou) as Vu.
  assert (valid r) as Vr by (by eapply Forall_forall in Va).
  assert (0 < stop <= U64_MAX) as He by (region; lia).
  unfold lmb_read_check, lmb_alloc_addr, lmb_overlaps_region.
  destruct (empty_in_memory stop He ra (Z.to_nat (al_count (available_mem m))) (available_mem m) [] 0)
    as (l2 & x & l3 & E & Vx & Hx & ->); [apply I|done|rewrite (repr_count _ _ (inv_ra _ _ _ I)); lia|done| |].
  { apply Exists_exists. eauto. }
  cbn [app] in E. rewrite (proj2 (Z.leb_le _ _)) by lia. pose proof (inv_ra _ _ _ I) as Ra. rewrite E in Ra.
  rewrite (repr_rgn _ l2 x l3) by done. rewrite Z.add_0_r, u64_small by (region; lia).
  assert (lmb_addrs_overlap (r_base x) (r_size x) (stop - 1) 1 = true) as ->.
  { apply (overlap_meets x (Region (stop - 1) 1 0) Vx); region; lia. }
  unfold lmb_reserve, lmb_can_reserve_region.
  rewrite (empty_can_reserve stop He ru _ _ []); [|apply I|done|done|].
  2:{ pose proof (rm_free _ _ _ _ Rm) as Fr. eapply Forall_impl; [exact Fr|]. cbn. lia. }
  cbn [negb]. destruct (split_last stop ru Ou Rm) as (lo & p & hi & -> & Ep & Fp & Bl & Bh).
  pose proof (inv_ru _ _ _ I) as R. pose proof (repr_count _ _ R) as Hc. rewrite length_app in Hc. cbn [length] in Hc.
  apply Forall_app in Vu as [Vl Vu]. apply Forall_cons in Vu as [Vp Vh].
  unfold lmb_add_region_flags. replace (alist_err (used_mem m)) with false by (symmetry; apply R).
  rewrite (empty_add_loop stop He p hi lo _ _ []) by (done || lia). rewrite Z.add_0_l.
  pose proof (repr_set _ _ _ _ _ p R eq_refl) as R1.
  destruct (add_check_merge p _ lo hi _ 1 R1 eq_refl Vp Vh Bh) as (l' & c' & -> & Hc' & R2 & _).
  assert (merge_next p hi = p :: hi) as Em.
  { destruct hi as [|h t]; [done|]. cbn. rewrite decide_False; [done|]. apply coalesced_app in Co as (_ & Co & _).
    apply coalesced_cons in Co as [_ Co]. by eapply Co. }
  rewrite Em in R2. rewrite (proj2 (Z.eqb_neq c' 0)) by lia. cbn [negb Z.eqb].
  rewrite notify_zero by done. cbn [Z.eqb]. eexists. split; [reflexivity|]. by eapply lmb_inv_used.
Qed.

(** ** The allocator grants the file *)

Section Instance_.
Context (efi : bool) (notify : Z -> Z -> lmb_map_op -> Z).
Hypothesis Quiet : forall a s op, notify a s op = 0.
Context (ra ru0 : list lmb_region) (r : lmb_region) (load size bs : Z).
Hypothesis (Hr : r ∈ ra) (Hb : r_base r <= load) (Hs : load + size < rend r).
Hypothesis (Hbs : 1 <= bs) (Hsize : 0 < size) (Hload : 0 <= load).

(** The reservations once [c] blocks are loaded: the old ones and the part of
    the file that is there. *)
Definition reserved_to (c : Z) (m : lmb) : Prop :=
  exists ru, lmb_inv m ra ru /\ coalesced ru /\
    room (load + size) (bool_decide (c = 0)) (load + Z.min (c * bs) size) ru /\
    forall a f, covers ru a f <->
      covers ru0 a f \/ load <= a < load + Z.min (c * bs) size /\ f = LMB_NONE.

#[local] Instance load_grants : Grants (lmb_read_check efi notify true) load size bs reserved_to.
Proof using All.
  intros c m (ru & I & Co & Rm & Cv) H0 Hc. pose proof (inv_oa _ _ _ I) as Oa.
  assert (valid r) as Vr by (pose proof (ordered_valid _ Oa) as V; by eapply Forall_forall in V).
  assert (bool_decide (c + 1 = 0) = false) as E1 by (apply bool_decide_eq_false_2; lia).
  rewrite (Z.min_l (c * bs)) in Rm, Cv by lia. unfold reserved_to. rewrite E1.
  assert (0 <= c * bs) as Hcb by nia.
  destruct (decide (size = c * bs)) as [E|E].
  - assert (c <> 0) as Hc0 by nia. rewrite bool_decide_eq_false_2 in Rm by done. rewrite <- E in Rm |- *.
    destruct (grant_empty efi notify m ra ru (load + size) r) as (m' & Em & I'); auto; [lia|].
    exists m'. replace (Z.min bs (size - size)) with 0 by lia. split; [done|]. exists ru.
    rewrite Z.min_r by lia. rewrite <- E in Cv. done.
  - set (n := Region (load + c * bs) (Z.min bs (size - c * bs)) LMB_NONE).
    assert (rend n = load + Z.min ((c + 1) * bs) size) as En by (unfold n, rend; cbn; lia).
    destruct (grant_block efi notify Quiet m ra ru (load + size) r I Co Hr Hs (bool_decide (c = 0)) n)
      as (m' & ru' & Em & I' & Co' & U & Rm').
    { region. lia. } { cbn. lia. } { rewrite En. lia. } { done. } { exact Rm. }
    exists m'. split; [exact Em|]. exists ru'. rewrite <- En. split_and!; try done.
    intros a f. rewrite (U a f), (Cv a f). unfold inside, n. cbn. destruct Rm as [Fr _ _].
    assert (covers ru0 a f -> ~ (load + c * bs <= a < load + c * bs + Z.min bs (size - c * bs))) as Ap.
    { intros C. assert (covers ru a f) as (x & Hx & Hin & _)%Exists_exists by (apply Cv; auto).
      eapply Forall_forall in Fr; [|exact Hx]. cbn in Fr. region. lia. }
    unfold rend. cbn. split.
    + intros [[? ->]|[[C|[? ->]] N]]; [right; split; [lia|done]|by left|right; split; [lia|done]].
    + intros [C|[? ->]]; [right; auto|]. destruct (decide (a < load + c * bs)); [right|left; split; [lia|done]].
      split; [right; split; [lia|done]|lia].
Qed.

(** Before the transfer: the area of the file and the byte after it are free. *)
Lemma reserved_start m :
  lmb_inv m ra ru0 -> coalesced ru0 -> Z.of_nat (length ru0) < 32767 ->
  Forall (fun x => ~ meets (Region load (size + 1) LMB_NONE) x) ru0 -> reserved_to 0 m.
Proof using All.
  intros I Co Len Fr. exists ru0. pose proof (ordered_valid _ (inv_ou _ _ _ I)) as V.
  rewrite Z.min_l by lia. split_and!; try done.
  - split; [|done|by rewrite bool_decide_eq_true_2].
    rewrite Forall_forall in *. intros x Hx. specialize (Fr x Hx). specialize (V x Hx). region. lia.
  - intros a f. split; [auto|]. intros [?|[? _]]; [done|lia].
Qed.
End Instance_.
