(* ===== verification/TftpRun.v ===== *)
(** Loading a file over TFTP: the options of an OACK packet, found by comparing
    at every position of it, are the ones the server wrote; and the transfer
    from the start of the command to its end, with the allocator of lib/lmb.c
    underneath; and behaviour of src/net/tftp.c that a server or a user can
    run into. *)

From S2P Require Import Prelude Bytes Alist Lmb LmbFacts LmbMap LmbAlloc LmbProps Cstring Strto Vsprintf.
From S2P Require Import VsprintfNumber VsprintfRound NetUtils Tftp TftpGet TftpLmb.

Inductive oack_opt : Type := Blksize (v : Z) | Timeout (v : Z) | Windowsize (v : Z).

Definition opt_value (o : oack_opt) : Z := match o with Blksize v | Timeout v | Windowsize v => v end.
Definition opt_name (o : oack_opt) : list Z :=
  match o with Blksize _ => s_blksize | Timeout _ => s_timeout | Windowsize _ => s_windowsize end.
Definition opt_bytes (o : oack_opt) : list Z := opt_name o ++ [0] ++ decimal (opt_value o) ++ [0].
Definition opts_bytes (os : list oack_opt) : list Z := concat (map opt_bytes os).
Definition oack_packet (os : list oack_opt) : list Z := be16_bytes TFTP_OACK ++ opts_bytes os.

(** What one option does. *)
Definition apply_opt (s : tftp) (o : oack_opt) : tftp :=
  match o with
  | Blksize v =>
    let s := with_opts s (set_block_size v) in
    if block_size_option (opts s) <? v then with_prog s (set_tstate STATE_INVALID_OPTION) else s
  | Timeout v =>
    if negb (v =? timeout_ms (opts s) / 1000) then with_prog s (set_tstate STATE_INVALID_OPTION) else s
  | Windowsize v => with_opts s (set_windowsize v)
  end.

(** ** Comparing names *)

(** Only the bytes up to the zero matter. *)
Lemma casecmp_word w : forall s r n n' c,
  (length w < n)%nat -> (length w < n')%nat ->
  strncasecmp_nat (w ++ 0 :: r) s n c = strncasecmp_nat (w ++ [0]) s n' c.
Proof.
  induction w as [|x w IH]; intros s r [|n] [|n'] c H H'; cbn [length] in *; try lia; cbn [strncasecmp_nat app rd hd tl]; [done|].
  rewrite (IH (tl s) r n n'), (IH (tl s) r n n') by lia. done.
Qed.

Lemma strcasecmp_word w r s :
  Z.of_nat (length w) < 1000 -> strcasecmp (w ++ 0 :: r) s = strcasecmp (w ++ [0]) s.
Proof.
  intros H. unfold strcasecmp, strncasecmp.
  rewrite (casecmp_word w s r _ (Z.to_nat (Z.min 4294967295 (Z.of_nat (S (length (w ++ [0]))))))); [done|..];
    rewrite length_app; cbn [length]; lia.
Qed.

(** No option starts here. *)
Definition misses (p : list Z) : Prop :=
  strcasecmp p s_blksize <> 0 /\ strcasecmp p s_timeout <> 0 /\ strcasecmp p s_windowsize <> 0.

Lemma strcasecmp_head c p d s :
  c = 0 \/ 48 <= c <= 57 -> 97 <= d <= 122 -> strcasecmp (c :: p) (d :: s) <> 0.
Proof.
  intros Hc Hd. unfold strcasecmp, strncasecmp.
  destruct (Z.to_nat (Z.min 4294967295 (Z.of_nat (S (length (c :: p)))))) as [|n] eqn:E; [cbn [length] in E; lia|].
  cbn [strncasecmp_nat rd hd tl]. rewrite (proj2 (Z.eqb_neq d 0)) by lia.
  destruct (Z.eqb_spec c 0); cbn [orb]; [lia|]. rewrite (proj2 (Z.eqb_neq c d)) by lia.
  assert (tolower c = c) as -> by (unfold tolower; repeat case_match; unfold isupper in *; try lia; done).
  assert (tolower d = d) as -> by (unfold tolower; repeat case_match; unfold isupper in *; try lia; done).
  rewrite (proj2 (Z.eqb_neq c d)) by lia. cbn [negb]. lia.
Qed.

Lemma misses_head c p : c = 0 \/ 48 <= c <= 57 -> misses (c :: p).
Proof. intros H. split_and!; apply strcasecmp_head; (done || lia). Qed.

Lemma oack_at_miss s p : misses p -> oack_at s p = s.
Proof.
  intros (H1 & H2 & H3). unfold oack_at. apply Z.eqb_neq in H1, H2, H3. by rewrite H1, H2, H3.
Qed.

(** Positions where nothing starts are passed. *)
Lemma oack_skip w : forall s rest k,
  (forall i, (i < length w)%nat -> misses (drop i w ++ rest)) ->
  oack_loop (length w + k) s (w ++ rest) = oack_loop k s rest.
Proof.
  induction w as [|x w IH]; intros s rest k H; [done|]. cbn [length Nat.add oack_loop app tl].
  rewrite oack_at_miss by (apply (H 0%nat); cbn; lia). apply IH. intros i Hi. apply (H (S i)). cbn. lia.
Qed.

Lemma oack_skip_short w s rest n :
  (n <= length w)%nat -> (forall i, (i < length w)%nat -> misses (drop i w ++ rest)) ->
  oack_loop n s (w ++ rest) = s.
Proof.
  intros Hn H. rewrite <- (take_drop n w), <- (assoc_L (++)).
  assert (length (take n w) = n) as E by (rewrite length_take; lia).
  replace n with (length (take n w) + 0)%nat at 1 by lia. rewrite oack_skip; [done|].
  intros i Hi. rewrite E in Hi. rewrite (assoc_L (++)).
  replace (drop i (take n w) ++ drop n w) with (drop i w); [apply H; lia|].
  rewrite <- (take_drop n w) at 1. by rewrite drop_app_le by lia.
Qed.

(** ** One option *)

Lemma decimal_plain v : 0 <= v <= U64_MAX -> decimal v = plain_text 10 v.
Proof. intros H. unfold decimal. rewrite put_dec_ok by done. unfold dig, plain_text. cbn [app]. by rewrite map_rev, rev_involutive. Qed.

Lemma decimal_digits v : 0 <= v <= U64_MAX -> Forall (fun c => 48 <= c <= 57) (decimal v) /\ decimal v <> [].
Proof.
  intros H. rewrite decimal_plain by done. unfold plain_text.
  destruct (digits_of_ok 10 64 v) as (_ & F & Ne); [lia| |lia|].
  { split; [apply H|]. eapply Z.le_lt_trans; [apply H|]. by apply pow64. }
  split; [|by destruct (digits_of 64 10 v)]. apply Forall_map. eapply Forall_impl; [exact F|].
  intros d Hd. cbn in *. unfold digit_char. destruct (Z.ltb_spec d 10); lia.
Qed.

Lemma dectoul_decimal v rest : 0 <= v <= U64_MAX -> fst (dectoul (decimal v ++ 0 :: rest)) = v.
Proof.
  intros H. rewrite decimal_plain by done. unfold dectoul. rewrite parse_plain_rest; [done|lia|done|].
  intros c [= <-]. done.
Qed.

(** The name is found at the start of the option, *)
Lemma oack_hit s o rest :
  0 <= opt_value o < 65536 -> oack_at s (opt_bytes o ++ rest) = apply_opt s o.
Proof.
  intros Hv. assert (0 <= opt_value o <= U64_MAX) as Hu by (unfold U64_MAX; lia).
  assert (opt_bytes o ++ rest = opt_name o ++ 0 :: decimal (opt_value o) ++ 0 :: rest) as ->
    by (unfold opt_bytes; rewrite <- !(assoc_L (++)); done).
  assert (fst (dectoul (drop (S (length (opt_name o))) (opt_name o ++ 0 :: decimal (opt_value o) ++ 0 :: rest))) = opt_value o) as Ed.
  { rewrite drop_app_ge by lia. replace (S (length (opt_name o)) - length (opt_name o))%nat with 1%nat by lia.
    by apply dectoul_decimal. }
  unfold oack_at. rewrite !(strcasecmp_word (opt_name o) (decimal (opt_value o) ++ 0 :: rest)) by (destruct o; cbn; lia).
  assert (u16 (opt_value o) = opt_value o) as Eu by (unfold u16; by rewrite Z.mod_small).
  destruct o as [v|v|v]; cbn [opt_name opt_value s_blksize s_timeout s_windowsize length] in *;
    fold s_blksize s_timeout s_windowsize in *; rewrite Ed, Eu; reflexivity.
Qed.

(** and nothing after it. *)
Lemma name_misses o i r : (0 < i < length (opt_name o))%nat -> misses (drop i (opt_name o) ++ 0 :: r).
Proof.
  intros Hi. unfold misses. rewrite !(strcasecmp_word (drop i (opt_name o)) r) by (rewrite length_drop; destruct o; cbn in *; lia).
  destruct o; cbn [opt_name s_blksize s_timeout s_windowsize length] in *;
    do 10 (destruct i as [|i]; [first [lia | (split_and!; vm_compute; discriminate)]|]); lia.
Qed.

Lemma value_misses v i r : 0 <= v <= U64_MAX -> (i < length (decimal v ++ [0%Z]))%nat -> misses (drop i (decimal v ++ [0]) ++ r).
Proof.
  intros Hv Hi. destruct (decimal_digits v Hv) as [F _].
  assert (Forall (fun c => c = 0 \/ 48 <= c <= 57) (decimal v ++ [0])) as F'.
  { apply Forall_app. split; [|by repeat constructor; left]. eapply Forall_impl; [exact F|]. cbn. lia. }
  destruct (lookup_lt_is_Some_2 _ _ Hi) as [c Hc]. rewrite (drop_S _ _ _ Hc). cbn [app].
  apply misses_head. by eapply Forall_lookup_1 in F'.
Qed.

Lemma tail_misses o rest i :
  0 <= opt_value o < 65536 -> (i < length (tl (opt_bytes o)))%nat -> misses (drop i (tl (opt_bytes o)) ++ rest).
Proof.
  intros Hv Hi. assert (0 <= opt_value o <= U64_MAX) as Hu by (unfold U64_MAX; lia).
  assert (tl (opt_bytes o) = drop 1 (opt_name o) ++ 0 :: decimal (opt_value o) ++ [0]) as E by (by destruct o).
  rewrite E in *. rewrite length_app, length_drop in Hi. cbn [length] in Hi.
  destruct (decide (i < length (opt_name o) - 1)%nat) as [L|L].
  - rewrite drop_app_le by (rewrite length_drop; lia). rewrite drop_drop, <- (assoc_L (++)).
    apply (name_misses o (1 + i)). lia.
  - rewrite drop_app_ge by (rewrite length_drop; lia). rewrite length_drop.
    destruct (i - (length (opt_name o) - 1))%nat as [|k] eqn:Ek; [by apply misses_head; left|].
    cbn [drop]. apply value_misses; [done|lia].
Qed.

Lemma opt_length o : 0 <= opt_value o < 65536 -> (10 <= length (opt_bytes o))%nat.
Proof.
  intros Hv. destruct (decimal_digits (opt_value o)) as [_ Ne]; [unfold U64_MAX; lia|].
  unfold opt_bytes. rewrite !length_app. cbn [length]. destruct (decimal (opt_value o)); [done|].
  destruct o; cbn; lia.
Qed.

(** ** The packet *)

Lemma oack_option s o rest n :
  0 <= opt_value o < 65536 -> (0 < n <= length (opt_bytes o))%nat ->
  oack_loop n s (opt_bytes o ++ rest) = apply_opt s o.
Proof.
  intros Hv Hn. destruct n as [|n]; [lia|]. cbn [oack_loop]. rewrite oack_hit by done.
  pose proof (opt_length o Hv). destruct (opt_bytes o) as [|x w] eqn:E; [cbn in *; lia|]. cbn [app tl length] in *.
  apply oack_skip_short; [lia|]. intros i Hi. pose proof (tail_misses o rest i Hv) as T. rewrite E in T. by apply T.
Qed.

Lemma oack_option_next s o rest k :
  0 <= opt_value o < 65536 ->
  oack_loop (length (opt_bytes o) + k) s (opt_bytes o ++ rest) = oack_loop k (apply_opt s o) rest.
Proof.
  intros Hv. pose proof (opt_length o Hv). destruct (length (opt_bytes o) + k)%nat as [|n] eqn:En; [lia|].
  cbn [oack_loop]. rewrite oack_hit by done.
  destruct (opt_bytes o) as [|x w] eqn:E; [cbn in *; lia|]. cbn [app tl length] in *.
  replace n with (length w + k)%nat by lia.
  apply oack_skip. intros i Hi. pose proof (tail_misses o rest i Hv) as T. rewrite E in T. by apply T.
Qed.

Lemma oack_options os : forall s junk,
  Forall (fun o => 0 <= opt_value o < 65536) os ->
  oack_loop (length (opts_bytes os) - 8) s (opts_bytes os ++ junk) = fold_left apply_opt os s.
Proof.
  induction os as [|o os IH]; intros s junk F; [done|]. apply Forall_cons in F as [Ho F].
  pose proof (opt_length o Ho) as Lo. unfold opts_bytes. cbn [map concat fold_left]. fold (opts_bytes os).
  rewrite length_app, <- (assoc_L (++)). destruct os as [|o' os].
  - cbn [opts_bytes map concat length fold_left app]. apply oack_option; [done|]. cbn. lia.
  - assert (10 <= length (opts_bytes (o' :: os)))%nat as Ls.
    { unfold opts_bytes. cbn [map concat]. rewrite length_app. apply Forall_cons in F as [Ho' _].
      pose proof (opt_length o' Ho'). lia. }
    replace (length (opt_bytes o) + length (opts_bytes (o' :: os)) - 8)%nat
      with (length (opt_bytes o) + (length (opts_bytes (o' :: os)) - 8))%nat by lia.
    rewrite oack_option_next by done. by apply IH.
Qed.

(** ** Starting *)

(** The state after a read request is sent. *)
Record started (s : tftp) (a : start_args) (s' : tftp) : Prop := mkStarted {
  st_cur : cur_block (prog s') = 0;
  st_state : tstate (prog s') = STATE_SEND_RRQ;
  st_bs : block_size (opts s') = TFTP_BLOCK_SIZE;
  st_noput : put_active (req s') = false;
  st_load : load_addr (req s') = st_load_addr a;
  st_me : our_port (req s') = 1024 + st_now a mod 3072;
  st_mem : mem (mach s') = mem (mach s);
  st_lmb : lmb_state (mach s') = lmb_state (mach s);
  st_size : boot_file_size (mach s') = boot_file_size (mach s);
  st_ended : ended (mach s') = ended (mach s)
}.

Lemma start_started s a : st_put a = false -> started s a (tftp_start s a).
Proof.
  intros E. unfold tftp_start. rewrite E. destruct (match _ with Some _ => _ | None => _ end) as [ip nm].
  set (o1 := fun o => sanitize_tftp_block_size_option false (st_max_defrag a) (env_options (st_env a)
    (if saved_block_size_option o =? 0 then o else set_block_size_option (saved_block_size_option o) 0 o))).
  assert (forall s, with_opts (with_opts (with_opts s (fun o =>
      if saved_block_size_option o =? 0 then o else set_block_size_option (saved_block_size_option o) 0 o))
      (env_options (st_env a))) (sanitize_tftp_block_size_option false (st_max_defrag a)) = with_opts s o1) as -> by done.
  destruct s as [p o q m]. unfold with_opts, with_req, with_prog, with_mach. cbn [prog opts req mach].
  destruct (o1 o) as [b1 b2 b3 b4 b5 b6 b7 b8]. match goal with |- started _ _ (tftp_send ?t) => set (s' := t) end.
  assert (same_load s' (tftp_send s')) as Sl by (apply same_send; [done|left; by destruct p]).
  destruct Sl as [L1 L2 L3 L4 L5 L6 L7 L8 L9 L10 L11].
  split; rewrite ?L1, ?L2, ?L3, ?L4, ?L5, ?L6, ?L7, ?L8, ?L9, ?L10, ?L11; destruct p, m; reflexivity.
Qed.

(** ** Negotiating *)

(** What a server may answer. *)
Definition acceptable (o : options) (x : oack_opt) : Prop :=
  0 <= opt_value x < 65536 /\
  match x with
  | Blksize v => v <= block_size_option o
  | Timeout v => v = timeout_ms o / 1000
  | Windowsize _ => True
  end.

Definition negotiated (b : Z) (os : list oack_opt) : Z :=
  fold_left (fun b x => match x with Blksize v => v | _ => b end) os b.

Lemma apply_acceptable os : forall s,
  Forall (acceptable (opts s)) os ->
  exists w, fold_left apply_opt os s =
    with_opts s (fun o => set_windowsize w (set_block_size (negotiated (block_size o) os) o)).
Proof.
  induction os as [|x os IH]; intros s Fa.
  - exists (windowsize (opts s)). by destruct s as [? [] ? ?].
  - apply Forall_cons in Fa as [[Hv Hx] Fa]. cbn [fold_left].
    assert (Forall (acceptable (opts (apply_opt s x))) os) as Fa'.
    { eapply Forall_impl; [exact Fa|]. intros y [Hy Ay]. split; [done|]. destruct s as [? [] ? ?], x, y; cbn in *;
      unfold with_opts, with_prog; cbn; repeat case_match; done. }
    destruct (IH _ Fa') as [w ->]. exists w. destruct s as [p [] q m], x as [v|v|v]; cbn in *.
    + rewrite (proj2 (Z.ltb_ge _ _)) by lia. done.
    + subst v. rewrite Z.eqb_refl. done.
    + done.
Qed.

(** The offer of the server, if it sends one, arrives first. *)
Section Get.
Context (efi : bool) (notify : Z -> Z -> lmb_map_op -> Z).

Definition negotiate (s : tftp) (offer : option (list oack_opt)) (now sip port : Z) (junk : list Z) : tftp :=
  match offer with
  | None => s
  | Some os => tftp_handler efi notify true s now (oack_packet os ++ junk) (our_port (req s)) sip port
                 (Z.of_nat (length (oack_packet os)))
  end.

Definition agreed (o : options) (offer : option (list oack_opt)) (bs : Z) : Prop :=
  match offer with
  | None => bs = TFTP_BLOCK_SIZE
  | Some os => Forall (acceptable o) os /\ negotiated TFTP_BLOCK_SIZE os = bs
  end.

Lemma loaded_start F bs load M x : loaded F bs load M 0 x = M x.
Proof.
  unfold loaded, mem_store. rewrite Z.mul_0_l, Z.min_l, take_0 by lia. cbn [length].
  repeat case_Z; cbn; try done; lia.
Qed.

(** The transfer is about to begin, with the block size agreed on. *)
Lemma negotiate_loading (s0 s : tftp) a offer bs now sip port junk F M P :
  started s0 a s -> agreed (opts s) offer bs ->
  (forall x, mem (mach s) x = M x) -> boot_file_size (mach s0) = 0 -> P 0 (lmb_state (mach s)) ->
  let s1 := negotiate s offer now sip port junk in
  loading F bs (st_load_addr a) (1024 + st_now a mod 3072) port M P 0 s1 /\ ended (mach s1) = ended (mach s0).
Proof.
  intros St Ag Em Es HP. unfold negotiate. destruct offer as [os|].
  - destruct Ag as [Fa En]. unfold tftp_handler. rewrite Z.eqb_refl, (st_state _ _ _ St). cbn [negb].
    rewrite bool_decide_eq_true_2 by done. cbn [negb andb].
    assert (length (oack_packet os) = S (S (length (opts_bytes os)))) as El by done.
    rewrite El, (proj2 (Z.ltb_ge _ _)) by lia. unfold oack_packet. rewrite <- (assoc_L (++)).
    rewrite (rd16be_bytes TFTP_OACK). change (u16 TFTP_OACK) with 6. cbn [TFTP_OACK TFTP_ACK TFTP_WRQ Z.eqb Pos.eqb].
    change (drop 2 (be16_bytes TFTP_OACK ++ opts_bytes os ++ junk)) with (opts_bytes os ++ junk).
    unfold handle_oack. set (s1 := with_prog s _).
    replace (Z.to_nat (Z.of_nat (S (S (length (opts_bytes os)))) - 2 - 8)) with (length (opts_bytes os) - 8)%nat by lia.
    rewrite oack_options by (eapply Forall_impl; [exact Fa|]; by intros x []).
    destruct (apply_acceptable os s1) as [w ->]; [by destruct s|].
    set (s2 := with_opts s1 _). set (s3 := with_prog s2 (set_next_ack _)).
    assert (put_active (req s3) = false) as Ep by apply St. rewrite Ep. cbn [andb].
    assert (tstate (prog s3) = STATE_OACK) as Et by (by destruct s as [[] ? ? ?]).
    pose proof (same_send s3 Ep ltac:(right; by left)) as Sl.
    assert (ended (mach s3) = ended (mach s0)) as Ee by (rewrite <- (st_ended _ _ _ St); by destruct s).
    split; [|rewrite (sl_ended _ _ Sl); done].
    eapply loading_same; [exact Sl|]. destruct St. destruct s as [[] [] ? []]. cbn in *. subst.
    split; cbn; (done || lia || by auto || by intros; rewrite loaded_start).
  - cbn in Ag. subst bs. destruct St. split; [split|]; (done || lia || by auto || by intros; rewrite loaded_start).
Qed.
End Get.

(** ** Loading a file *)

(** The blocks a run delivers. *)
Definition delivered (es : list event) : list Z :=
  omap (fun e => match e with Deliver j _ _ _ => Some j | _ => None end) es.

(** Blocks that arrive in order, whatever is in between, all count. *)
Lemma received_in_order n es : forall c,
  seqZ (c + 1) n `sublist_of` delivered es -> Forall (fun j => j <= c + n) (delivered es) -> 0 <= n ->
  received c es = c + n.
Proof.
  revert n. induction es as [|e es IH]; intros n c Sl Fa Hn.
  { apply sublist_nil_r in Sl. destruct (decide (n = 0)) as [-> |]; [cbn; lia|].
    rewrite seqZ_cons in Sl by lia. done. }
  unfold received. cbn [fold_left]. fold (received (counts c e) es).
  destruct e as [j now junk sip|now pkt dest sip src len|]; cbn [counts]; [|by apply IH..].
  cbn in Sl, Fa. apply Forall_cons in Fa as [Hj Fa].
  destruct (decide (n = 0)) as [-> |Nz].
  { rewrite (proj2 (Z.eqb_neq j (c + 1))) by lia. apply IH; [apply sublist_nil_l|done|lia]. }
  rewrite seqZ_cons in Sl by lia. replace (Z.succ (c + 1)) with (c + 1 + 1) in Sl by lia.
  destruct (Z.eqb_spec j (c + 1)) as [-> |Nj].
  - replace (c + n) with (c + 1 + Z.pred n) in * by lia. apply IH; [|done|lia].
    apply sublist_cons_l in Sl as (k1 & k2 & E & Sl). destruct k1 as [|x k1]; [injection E as E2|injection E as E1 E2]; fold (delivered es) in E2.
    + by rewrite E2.
    + etransitivity; [exact Sl|]. rewrite E2. apply sublist_inserts_l. by apply sublist_cons.
  - apply IH; [|done|lia]. apply sublist_cons_l in Sl as (k1 & k2 & E & Sl).
    destruct k1 as [|x k1]; injection E as E1 E2; [congruence|]. fold (delivered es) in E2. rewrite E2.
    rewrite seqZ_cons by lia. replace (Z.succ (c + 1)) with (c + 1 + 1) by lia.
    apply sublist_inserts_l. by apply sublist_skip.
Qed.

(** What loading file [F] needs: a read request, an idle network loop, and the
    area of the file with the byte after it free and in one region of memory. *)
Record get_ready (s : tftp) (a : start_args) (F : list Z) (ra ru : list lmb_region) (r : lmb_region) : Prop := mkGet {
  g_get : st_put a = false;
  g_size : boot_file_size (mach s) = 0;
  g_going : ended (mach s) = Going;
  g_file : 0 < Z.of_nat (length F) < 4294967296;
  g_load : 0 <= st_load_addr a;
  g_inv : lmb_inv (lmb_state (mach s)) ra ru;
  g_coalesced : coalesced ru;
  g_len : Z.of_nat (length ru) < 32767;
  g_in : r ∈ ra;
  g_contains : contains r (Region (st_load_addr a) (Z.of_nat (length F) + 1) LMB_NONE);
  g_free : Forall (fun x => ~ meets (Region (st_load_addr a) (Z.of_nat (length F) + 1) LMB_NONE) x) ru
}.

(** The transfer with [c] blocks done: memory, file size and reservations. *)
Record has_loaded (s s' : tftp) (load : Z) (part : list Z) (ra ru : list lmb_region) : Prop := mkLoaded {
  h_mem : forall x, mem (mach s') x = mem_store (mem (mach s)) load part x;
  h_size : boot_file_size (mach s') = Z.of_nat (length part);
  h_lmb : exists ru', lmb_inv (lmb_state (mach s')) ra ru' /\
    forall x f, covers ru' x f <-> covers ru x f \/ load <= x < load + Z.of_nat (length part) /\ f = LMB_NONE
}.

Lemma get_grants efi notify s a F ra ru r bs :
  (forall x n op, notify x n op = 0) -> get_ready s a F ra ru r -> 1 <= bs ->
  Grants (lmb_read_check efi notify true) (st_load_addr a) (Z.of_nat (length F)) bs
    (reserved_to ra ru (st_load_addr a) (Z.of_nat (length F)) bs) /\
  reserved_to ra ru (st_load_addr a) (Z.of_nat (length F)) bs 0 (lmb_state (mach s)) /\
  st_load_addr a + Z.of_nat (length F) <= U64_MAX.
Proof.
  intros Qu G Hbs. destruct G as [_ _ _ Hf Hl Hi Hc Hlen Hin [C1 C2] Hfree]. unfold rend in C2. cbn in C1, C2.
  split; [|split].
  - apply (load_grants efi notify Qu ra ru r); try done; unfold rend; lia.
  - apply (reserved_start efi notify Qu ra ru r); try done; unfold rend; lia.
  - pose proof (ordered_valid _ (inv_oa _ _ _ Hi)) as V. eapply Forall_forall in V; [|exact Hin]. region. lia.
Qed.

Lemma take_min (F : list Z) k : take (Z.to_nat (Z.min k (Z.of_nat (length F)))) F = take (Z.to_nat k) F.
Proof.
  destruct (Z.le_ge_cases k (Z.of_nat (length F))); [by rewrite Z.min_l|]. rewrite Z.min_r by done.
  rewrite !take_ge; [done|lia|lia].
Qed.

Lemma loading_loaded F bs load me port s ra ru c s' :
  0 <= c -> 1 <= bs ->
  loading F bs load me port (mem (mach s)) (reserved_to ra ru load (Z.of_nat (length F)) bs) c s' ->
  has_loaded s s' load (take (Z.to_nat (c * bs)) F) ra ru.
Proof.
  intros Hc Hb L. pose proof (l_mem _ _ _ _ _ _ _ _ _ L) as Lm. pose proof (l_size _ _ _ _ _ _ _ _ _ L) as Ls.
  destruct (l_lmb _ _ _ _ _ _ _ _ _ L) as (ru' & I & _ & _ & Cv).
  assert (0 <= c * bs) as Hcb by nia.
  assert (Z.of_nat (length (take (Z.to_nat (c * bs)) F)) = Z.min (c * bs) (Z.of_nat (length F))) as El
    by (rewrite length_take; lia).
  split.
  - intros x. rewrite Lm. unfold loaded. by rewrite take_min.
  - by rewrite El.
  - exists ru'. split; [done|]. by rewrite El.
Qed.

Lemma plausible_delivered F bs me es : forall c,
  plausible_run F bs me c es -> Forall (fun j => j <= blocks F bs) (delivered es).
Proof.
  induction es as [|e es IH]; intros c; [constructor|]. cbn [plausible_run]. intros [Pe Ps]. specialize (IH _ Ps).
  destruct e; cbn in *; [|done..]. constructor; [lia|done].
Qed.

(** C4: Loading a file with TFTP, from the command to the end of the transfer:
    the request is sent, the server's options (if it offers any) are taken
    over, and then blocks are lost, repeated or out of order, packets for
    other ports arrive and the timer expires, in any order.  At every point
    memory is the old memory with a prefix of the file, a number of whole
    blocks, at the load address, the file size is the length of that prefix,
    and the prefix and nothing else has been added to the reserved memory.
    Success is reported exactly when the whole file is there, failure never;
    the number of blocks is what arrived in order, and when every block
    arrives the transfer succeeds unless time-outs made it start again. *)
Theorem tftp_get_exact (efi : bool) (notify : Z -> Z -> lmb_map_op -> Z) (s : tftp) (a : start_args)
    (F : list Z) (bs : Z) (offer : option (list oack_opt)) (now sip port : Z) (junk : list Z)
    (ra ru : list lmb_region) (r : lmb_region) (es : list event) :
  (forall x n op, notify x n op = 0) -> get_ready s a F ra ru r -> 1 <= bs <= 32768 ->
  let s0 := tftp_start s a in
  let me := our_port (req s0) in
  agreed (opts s0) offer bs -> plausible_run F bs me 0 es ->
  let s' := run efi notify true F bs me port (negotiate efi notify s0 offer now sip port junk) es in
  exists c, 0 <= c <= blocks F bs /\
    has_loaded s s' (st_load_addr a) (take (Z.to_nat (c * bs)) F) ra ru /\
    (c = blocks F bs -> take (Z.to_nat (c * bs)) F = F) /\
    (ended (mach s') = StartAgain /\ c < blocks F bs \/
     c = received 0 es /\ ended (mach s') = if c =? blocks F bs then Success else Going) /\
    (seqZ 1 (blocks F bs) `sublist_of` delivered es ->
     ended (mach s') = Success \/ ended (mach s') = StartAgain).
Proof.
  intros Qu G Hbs s0 me Ag Pl s'. destruct (get_grants efi notify s a F ra ru r bs Qu G ltac:(lia)) as (Gr & R0 & Hfit).
  pose proof (start_started s a (g_get _ _ _ _ _ _ G)) as St. fold s0 in St.
  assert (me = 1024 + st_now a mod 3072) as Eme by apply St.
  destruct (negotiate_loading efi notify s s0 a offer bs now sip port junk F (mem (mach s))
    (reserved_to ra ru (st_load_addr a) (Z.of_nat (length F)) bs) St Ag) as [L E].
  { intros x. by rewrite (st_mem _ _ _ St). } { apply G. } { by rewrite (st_lmb _ _ _ St). }
  rewrite (g_going _ _ _ _ _ _ G) in E. rewrite <- Eme in L. pose proof (g_file _ _ _ _ _ _ G) as Hf.
  assert (1 <= blocks F bs) as Hb by (unfold blocks; pose proof (Z.div_pos (Z.of_nat (length F)) bs); lia).
  assert (Z.of_nat (length F) <= blocks F bs * bs) as Hall.
  { unfold blocks. pose proof (Z.div_mod (Z.of_nat (length F)) bs ltac:(lia)).
    pose proof (Z.mod_pos_bound (Z.of_nat (length F)) bs ltac:(lia)). lia. }
  destruct (run_loading efi notify true F bs (st_load_addr a) me port (mem (mach s)) _ Hbs (proj2 Hf)
    (g_load _ _ _ _ _ _ G) Hfit es 0 _ L ltac:(lia) E Pl) as (c & Hc & L' & Hend).
  fold s' in L', Hend. exists c. split; [done|]. split; [|split; [|split; [done|]]].
  - by apply (loading_loaded F bs _ me port); [lia..|].
  - intros ->. apply take_ge. lia.
  - intros Sl. destruct Hend as [[? _]|[Ec Ee]]; [by right|left].
    rewrite Ee, Ec, (received_in_order (blocks F bs) es 0 Sl); [|by eapply plausible_delivered|lia].
    by rewrite Z.add_0_l, Z.eqb_refl.
Qed.

(** ** A transfer *)

Definition demo_env : tftp_env := mkEnv None None None None.
Definition demo_opts : options := mkOpts 512 1 1468 1 0 5000 10 10.
Definition demo_mach : machine := mkMach (fun _ => 0) demo 0 [] Going None [].
Definition demo_tftp : tftp := mkTftp (mkProg 7 7 0 0 STATE_DATA 0 0 0 0 false) demo_opts (mkReq 0 0 0 0 false []) demo_mach.
Definition demo_start : start_args :=
  mkStart false demo_env None 3232235777 3232235778 [102; 46; 98; 0] 0x3000 0 0 100.
Definition demo_file : list Z := [1; 2; 3; 4; 5; 6; 7; 8; 9; 10; 11; 12; 13; 14; 15; 16; 17; 18; 19; 20].
Definition demo_offer : list oack_opt := [Timeout 5; Blksize 8].
Definition demo_events : list event :=
  [Tick; Deliver 2 0 [] 0; Deliver 1 0 [9; 9] 0; Stray 0 [0; 3; 0; 2; 5] 7 0 69 5; Deliver 1 0 [] 0; Deliver 2 0 [] 0; Tick;
   Deliver 3 0 [] 0].

Example demo_runs :
  let s0 := tftp_start demo_tftp demo_start in
  let s' := run false no_notify true demo_file 8 (our_port (req s0)) 3000
              (negotiate false no_notify s0 (Some demo_offer) 0 0 3000 []) demo_events in
  (ended (mach s'), boot_file_size (mach s'), mem_load (mem (mach s')) 0x3000 21, items (used_mem (lmb_state (mach s')))) =
  (Success, 20, demo_file ++ [0], [Region 0x2000 0x1014 LMB_NONE; Region 0x5000 0x1000 LMB_NOMAP]).
Proof. vm_compute. reflexivity. Qed.

Lemma tftp_get_exact_witness :
  let s0 := tftp_start demo_tftp demo_start in
  let s' := run false no_notify true demo_file 8 (our_port (req s0)) 3000
              (negotiate false no_notify s0 (Some demo_offer) 0 0 3000 []) demo_events in
  ended (mach s') = Success \/ ended (mach s') = StartAgain.
Proof.
  destruct (tftp_get_exact false no_notify demo_tftp demo_start demo_file 8 (Some demo_offer) 0 0 3000 []
    demo_ra demo_ru (Region 0x1000 0x8000 LMB_NONE) demo_events) as (c & _ & _ & _ & _ & H).
  - done.
  - split; [reflexivity..|vm_compute; by split|vm_compute; discriminate|exact demo_inv|exact demo_coalesced
            |reflexivity|by left|vm_compute; by split|].
    repeat (apply Forall_cons; split); [..|constructor]; unfold meets, rend; cbn; lia.
  - lia.
  - split; [|reflexivity]. repeat (apply Forall_cons; split); [..|constructor];
      (split; [cbn; lia|vm_compute; first [reflexivity | discriminate]]).
  - repeat (split; [first [exact Logic.I | (vm_compute; repeat split; discriminate)]|]). done.
  - apply H. vm_compute. repeat constructor.
Defined.

(** A block that comes too early asks for the missing one only while its
    number is below 32768: the number is read as a signed short. *)
Theorem high_block_never_nacked (s : tftp) (block : Z) :
  0 <= cur_block (prog s) -> 32768 <= block < 65536 -> handle_unexpected s block = s.
Proof.
  intros Hc Hb. unfold handle_unexpected, sshort, u16.
  replace (block + 32768) with (block - 32768 + 1 * 65536) by lia. rewrite Z.mod_add by lia. rewrite (Z.mod_small (block - 32768)) by lia.
  pose proof (Z.mod_pos_bound (cur_block (prog s) + 1) 65536 ltac:(lia)).
  by rewrite (proj2 (Z.ltb_lt _ _)) by lia.
Qed.

(** Once the last block is sent, an acknowledgement of any block ends the
    upload with success. *)
Theorem any_ack_completes_put (s : tftp) (p : list Z) (src : Z) :
  put_active (req s) = true -> put_final_block_sent (prog s) = true ->
  ended (mach (handle_ack s p src)) = Success.
Proof. intros H1 H2. unfold handle_ack. rewrite H1. destruct s as [[] ? ? []]. cbn in *. by rewrite H2. Qed.

(** The server does not leave the mode of an earlier upload. *)
Theorem server_keeps_put_active (s : tftp) (load : Z) :
  put_active (req (tftp_start_server s load)) = put_active (req s).
Proof. done. Qed.

(** A repeated OACK in the middle of a transfer makes the next block start
    everything again. *)
Theorem late_oack_restarts :
  let s := tftp_start demo_tftp demo_start in
  let h s pkt := tftp_handler false no_notify true s 0 pkt 1124 0 3000 (Z.of_nat (length pkt)) in
  let s := h s (oack_packet demo_offer) in
  let s := h s [0; 3; 0; 1; 1; 2; 3; 4; 5; 6; 7; 8] in
  let s := h s (oack_packet demo_offer) in
  ended (mach s) = Going /\ ended (mach (h s [0; 3; 0; 2; 1; 2; 3; 4; 5; 6; 7; 8])) = StartAgain.
Proof. vm_compute. by split. Qed.

(** A block size of zero is taken: an empty block does not end the transfer and
    every block is written to the load address. *)
Theorem zero_block_size_taken :
  let s := tftp_start demo_tftp demo_start in
  let h s pkt := tftp_handler false no_notify true s 0 pkt 1124 0 3000 (Z.of_nat (length pkt)) in
  let s := h s (oack_packet [Blksize 0]) in
  let s := h s [0; 3; 0; 1; 1; 2; 3; 4] in
  let s := h s [0; 3; 0; 2; 5; 6; 7; 8] in
  let s := h s [0; 3; 0; 3] in
  (ended (mach s), boot_file_size (mach s), mem_load (mem (mach s)) 0x3000 4) = (Going, 4, [5; 6; 7; 8]).
Proof. vm_compute. reflexivity. Qed.

(** With blocks larger than 32768 bytes the place of a late block is computed
    with an int that overflows: it falls below the load address. *)
Theorem large_blocks_overflow :
  let o := mkOpts 40000 1 40000 1 0 5000 10 10 in
  let s := mkTftp (mkProg 59999 59999 0 0 STATE_DATA 0 0 3000 0 false) o (mkReq 0 1124 0x80000000 0 false []) demo_mach in
  block_offset s 60000 = u64 (60000 * 40000 - 4294967296 - 40000) /\
  u64 (load_addr (req s) + block_offset s 60000) <> load_addr (req s) + 59999 * 40000.
Proof. vm_compute. by split. Qed.
