(* ===== verification/TftpSafe.v ===== *)
(** Reserved memory is safe from the network: whatever packets arrive, TFTP
    never changes a byte that is reserved with flags (the running program, the
    firmware's tables, what must not be mapped). *)

From S2P Require Import Prelude Bytes Cstring Strto NetUtils Alist Lmb LmbFacts LmbMap LmbAlloc LmbProps Tftp.

(** ** Adding a region keeps the flagged ones *)

Section Keep.
Context (n : lmb_region) (lo mid hi rs' : list lmb_region).
Hypothesis O : ordered (lo ++ mid ++ hi).
Hypothesis Vn : valid n.
Hypothesis Ar : around n lo mid hi.
Hypothesis C : compatible n (lo ++ mid ++ hi).

Lemma add_case_keeps a f :
  add_case lo mid hi n rs' -> f <> LMB_NONE -> covers (lo ++ mid ++ hi) a f -> covers rs' a f.
Proof using All.
  intros Hc Nf. destruct (parts_ordered lo mid hi O) as (Ol & Om & Oh).
  assert (~ covers mid a f) as Nm by (intros H; by apply (covers_mid_none n lo mid hi Ar C) in H).
  destruct Hc as [lo' p El T Em | lo' p m0 mids mid' ml El T Em Em'
                 | m0 mids mid' ml T Em Em' | h hi' T Em Eh Th
                 | h h1 t T Em Eh E F Th | T Em Eh].
  - assert (valid p) as Vp.
    { apply ordered_valid in Ol. rewrite El in Ol. by apply Forall_app in Ol as [_ [? _]%Forall_cons]. }
    rewrite El, Em in *. rewrite !covers_app, covers_merge_next; auto.
    2:{ destruct T. unfold join; region; lia. }
    rewrite !covers_cons, !covers_nil. rewrite inside_join_low by (auto; apply T). intuition.
  - pose proof (around_none n lo mid hi Ar C m0 mids Em) as Fn. destruct T as [_ T]. rewrite El in *.
    rewrite !covers_app, !covers_cons, !covers_nil. intuition congruence.
  - rewrite !covers_app, covers_merge_next; auto; [|eapply span_before; eauto]. rewrite covers_cons. intuition.
  - rewrite Em, Eh in *. apply ordered_cons in Oh as (Vh & Bh & Oh).
    rewrite !covers_app, covers_merge_next; auto.
    2:{ destruct Th. unfold join; region; lia. }
    rewrite !covers_cons, covers_nil, inside_join_low by (auto; apply Th). destruct Th as [_ Th]. cbn. intuition congruence.
  - rewrite Em, Eh in *. apply ordered_cons in Oh as (Vh & Bh & Oh). apply ordered_cons in Oh as (Vh1 & _ & _).
    rewrite !covers_app, !covers_cons, covers_nil, inside_join_low by (auto; apply Th). destruct Th as [_ Th]. cbn.
    intuition congruence.
  - rewrite Em. cbn [app]. rewrite !covers_app, covers_cons. intuition.
Qed.

Lemma add_case_length : add_case lo mid hi n rs' -> (length rs' <= S (length (lo ++ mid ++ hi)))%nat.
Proof using All.
  assert (forall x l, length (merge_next x l) <= S (length l))%nat as Lm.
  { intros x [|h t]; cbn; [lia|]. destruct (decide _); cbn; lia. }
  intros Hc. destruct Hc as [lo' p El T Em | lo' p m0 mids mid' ml El T Em Em'
                 | m0 mids mid' ml T Em Em' | h hi' T Em Eh Th
                 | h h1 t T Em Eh E F Th | T Em Eh]; subst; rewrite ?length_app; cbn [length] in *.
  - pose proof (Lm (join p n) hi). rewrite ?length_app. cbn. lia.
  - rewrite ?length_app. cbn. lia.
  - pose proof (Lm (span n m0 ml) hi). cbn. lia.
  - pose proof (Lm (join n h) hi'). lia.
  - lia.
  - lia.
Qed.
End Keep.

(** ** What leaves memory alone *)

(** Memory and reservations are as they were. *)
Definition ram_same (s s' : tftp) : Prop :=
  mem (mach s') = mem (mach s) /\ lmb_state (mach s') = lmb_state (mach s).

Lemma ram_same_trans s s' s'' : ram_same s s' -> ram_same s' s'' -> ram_same s s''.
Proof. intros [] []. split; congruence. Qed.

Create HintDb ram.

Lemma ram_refl s : ram_same s s.
Proof. by split. Qed.
Lemma ram_prog s0 s f : ram_same s0 s -> ram_same s0 (with_prog s f).
Proof. done. Qed.
Lemma ram_opts s0 s f : ram_same s0 s -> ram_same s0 (with_opts s f).
Proof. done. Qed.
Lemma ram_req s0 s f : ram_same s0 s -> ram_same s0 (with_req s f).
Proof. done. Qed.
Lemma ram_ended s0 s e : ram_same s0 s -> ram_same s0 (with_mach s (set_ended e)).
Proof. by destruct s as [p o q []]. Qed.
Lemma ram_timer s0 s t : ram_same s0 s -> ram_same s0 (with_mach s (set_timer t)).
Proof. by destruct s as [p o q []]. Qed.
Lemma ram_payload s0 s l : ram_same s0 s -> ram_same s0 (send_payload s l).
Proof. by destruct s as [p o q []]. Qed.
Lemma ram_new s0 s : ram_same s0 s -> ram_same s0 (new_transfer s).
Proof. done. Qed.
Lemma ram_complete s0 s : ram_same s0 s -> ram_same s0 (tftp_complete s).
Proof. apply ram_ended. Qed.
#[local] Hint Resolve ram_refl ram_prog ram_opts ram_req ram_ended ram_timer ram_payload ram_new ram_complete : ram.

Lemma ram_update s0 s : ram_same s0 s -> ram_same s0 (update_block_number s).
Proof. intros H. unfold update_block_number. case_match; auto with ram. Qed.
Lemma ram_send s0 s : ram_same s0 s -> ram_same s0 (tftp_send s).
Proof. intros H. unfold tftp_send, send_block, send_error. repeat case_match; auto with ram. Qed.
#[local] Hint Resolve ram_update ram_send : ram.

Lemma ram_oack s0 n : forall s p, ram_same s0 s -> ram_same s0 (oack_loop n s p).
Proof.
  induction n as [|n IH]; intros s p H; [done|]. cbn [oack_loop]. apply IH. unfold oack_at. repeat case_match; auto with ram.
Qed.
#[local] Hint Resolve ram_oack : ram.

Lemma ram_handle_ack s p src : ram_same s (handle_ack s p src).
Proof. unfold handle_ack. repeat case_match; auto 10 with ram. Qed.
Lemma ram_handle_oack s p src len : ram_same s (handle_oack s p src len).
Proof. unfold handle_oack. repeat case_match; auto 10 with ram. Qed.
Lemma ram_handle_wrq s sip src now : ram_same s (handle_wrq s sip src now).
Proof. unfold handle_wrq. auto 10 with ram. Qed.
Lemma ram_handle_error s p : ram_same s (handle_error s p).
Proof. unfold handle_error. case_match; auto with ram. Qed.
Lemma ram_handle_unexpected s b : ram_same s (handle_unexpected s b).
Proof. unfold handle_unexpected. repeat case_match; auto with ram. Qed.
Lemma ram_timeout s : ram_same s (tftp_timeout_handler s).
Proof. unfold tftp_timeout_handler. repeat case_match; auto 10 with ram. Qed.
Lemma ram_icmp s t c : ram_same s (icmp_handler s t c).
Proof. unfold icmp_handler. case_match; auto with ram. Qed.
#[local] Hint Resolve ram_handle_ack ram_handle_oack ram_handle_wrq ram_handle_error ram_handle_unexpected
  ram_timeout ram_icmp : ram.

(** ** One block *)

Section Store.
Context (efi : bool) (notify : Z -> Z -> lmb_map_op -> Z).
Context (ra : list lmb_region).
Hypothesis Top : Forall (fun r => rend r <= U64_MAX - 65536) ra.

(** The flagged reservations are kept, [k] regions at most are new. *)
Record kept (ru ru' : list lmb_region) (m' : lmb) : Prop := mkKept {
  k_inv : lmb_inv m' ra ru';
  k_len : (length ru' <= S (length ru))%nat;
  k_cov : forall x f, f <> LMB_NONE -> covers ru x f -> covers ru' x f
}.

Lemma kept_refl m ru : lmb_inv m ra ru -> kept ru ru m.
Proof using. intros I. split; [done|lia|done]. Qed.

(** [n] as a block of memory to write. *)
Lemma reserve_safe m ru n :
  lmb_inv m ra ru -> valid n -> r_flags n = LMB_NONE -> Z.of_nat (length ru) < 32768 ->
  exists ret m' ru', lmb_reserve efi notify true m (r_base n) (r_size n) LMB_NONE = (ret, m') /\
    kept ru ru' m' /\ (ret = 0 -> compatible n ru).
Proof using.
  intros I Vn Fn Len. unfold lmb_reserve. rewrite <- Fn.
  destruct (lmb_can_reserve_region _ _ _ _) eqn:Ec; cbn [negb].
  2:{ exists (- EEXIST), m, ru. split; [done|]. split; [by apply kept_refl|done]. }
  apply (can_reserve_compatible m ra ru n I Vn) in Ec as C. pose proof (inv_ou _ _ _ I) as O.
  destruct (split_around n ru O Vn) as (lo & mid & hi & E & Ar). pose proof (inv_ru _ _ _ I) as R.
  pose proof C as C'. pose proof Len as Len'. pose proof O as O'. rewrite E in R, C', Len', O'.
  destruct (lmb_add_region_flags_cases n (used_mem m) lo mid hi R O' Vn Ar C' Len') as (l' & rs' & -> & R' & Hc).
  cbn [Z.eqb negb]. do 3 eexists. split; [reflexivity|]. split; [|done]. split.
  - eapply lmb_inv_used; [done|exact R'|]. by eapply add_case_ordered.
  - rewrite E. by eapply add_case_length.
  - intros x f Nf. rewrite E. by eapply add_case_keeps.
Qed.

Lemma read_check_safe m ru addr len :
  lmb_inv m ra ru -> 0 <= addr <= U64_MAX -> 0 < len < 65536 -> Z.of_nat (length ru) < 32768 ->
  exists ret m' ru', lmb_read_check efi notify true m addr len = (ret, m') /\
    kept ru ru' m' /\ (ret = 0 -> valid (Region addr len LMB_NONE) /\ compatible (Region addr len LMB_NONE) ru).
Proof using All.
  intros I Ha Hl Len. unfold lmb_read_check, lmb_alloc_addr.
  destruct (Z.leb_spec 0 (lmb_overlaps_region (available_mem m) addr len)) as [Hi|Hi].
  2:{ exists (-1), m, ru. split; [done|]. split; [by apply kept_refl|done]. }
  set (n := Region addr len LMB_NONE).
  assert (valid n) as Vn.
  { destruct (decide (rend n <= U64_MAX)) as [|Hn]; [unfold n in *; region; lia|]. exfalso.
    enough (lmb_overlaps_region (available_mem m) addr len = -1) by lia.
    pose proof (inv_ra _ _ _ I) as R. pose proof (ordered_valid _ (inv_oa _ _ _ I)) as V.
    unfold lmb_overlaps_region. rewrite (repr_count _ _ R).
    assert (Forall (fun r => lmb_addrs_overlap addr len (r_base r) (r_size r) = false) ra) as No.
    { rewrite Forall_forall in *. intros r Hr. specialize (Top r Hr). specialize (V r Hr).
      unfold lmb_addrs_overlap. rewrite (u64_small (r_base r + r_size r - 1)) by (region; lia).
      apply andb_false_iff. left. apply Z.leb_gt. unfold n in Hn. region. lia. }
    clear Hi. rewrite Nat2Z.id.
    assert (forall rs k l1, l1 ++ rs = ra ->
      overlaps_from k (available_mem m) addr len (Z.of_nat (length l1)) = -1) as G; [|apply (G ra _ []); done].
    induction rs as [|r rs IH]; intros [|k] l1 E; cbn [overlaps_from]; try done.
    - rewrite (repr_count _ _ R), <- E, length_app. cbn [length]. by rewrite (proj2 (Z.ltb_ge _ _)) by lia.
    - destruct (Z.ltb_spec (Z.of_nat (length l1)) (al_count (available_mem m))); [|done].
      rewrite (repr_rgn _ l1 r rs) by (by rewrite ?E).
      pose proof No as No'. rewrite <- E in No'. apply Forall_app in No' as [_ [-> _]%Forall_cons].
      specialize (IH k (l1 ++ [r])). rewrite length_app, Nat2Z.inj_add in IH. apply IH. by rewrite <- (assoc_L (++)). }
  destruct (lmb_addrs_overlap _ _ (u64 (addr + len - 1)) 1).
  2:{ exists (-1), m, ru. split; [done|]. split; [by apply kept_refl|done]. }
  destruct (reserve_safe m ru n I Vn eq_refl Len) as (ret & m' & ru' & E & K & Hc).
  cbn in E. rewrite E. destruct (Z.eqb_spec ret 0); do 3 eexists; (split; [reflexivity|]; split; [done|]); [auto|done].
Qed.
(** What a step may do to reserved memory; the reservations only matter while
    the loop goes on. *)
Definition guarded (ru : list lmb_region) (s s' : tftp) : Prop :=
  (forall x f, f <> LMB_NONE -> covers ru x f -> mem (mach s') x = mem (mach s) x) /\
  (ended (mach s') = Going -> exists ru', kept ru ru' (lmb_state (mach s'))).

Lemma ram_guarded ru s s' : lmb_inv (lmb_state (mach s)) ra ru -> ram_same s s' -> guarded ru s s'.
Proof using. intros I [E1 E2]. split; [by rewrite E1|]. intros _. exists ru. rewrite E2. by apply kept_refl. Qed.

Lemma store_safe s ru block data :
  lmb_inv (lmb_state (mach s)) ra ru -> Z.of_nat (length data) < 65536 -> Z.of_nat (length ru) < 32768 ->
  let (ret, s') := store_block efi notify true s block data in
  opts s' = opts s /\
  (forall x f, f <> LMB_NONE -> covers ru x f -> mem (mach s') x = mem (mach s) x) /\
  (data <> [] -> exists ru', kept ru ru' (lmb_state (mach s'))).
Proof using All.
  intros I Hd Len. unfold store_block. set (addr := u64 (load_addr (req s) + block_offset s block)).
  assert (0 <= addr <= U64_MAX) as Ha by apply u64_range.
  destruct (addr <? load_addr (req s)); [split; [done|]; split; [done|]; intros _; exists ru; by apply kept_refl|].
  destruct data as [|d data].
  - destruct (lmb_read_check _ _ _ _ _ _) as [ret m']. destruct (negb (ret =? 0)); [destruct s as [p o q [mm ll zz oo ee tt hh]]; done|].
    destruct s as [p o q [mm ll zz oo ee tt hh]]. unfold with_mach. cbn. case_match; (split; [done|]; split; [|done]);
      intros x f _ _; unfold mem_store; cbn [length mem set_mem set_file_size mach];
      destruct (Z.leb_spec addr x), (Z.ltb_spec x (addr + Z.of_nat 0)); cbn; done || lia.
  - destruct (read_check_safe (lmb_state (mach s)) ru addr (Z.of_nat (length (d :: data))) I Ha) as (ret & m' & ru' & -> & K & Hc);
      [cbn [length] in *; lia|done|]. generalize dependent (d :: data). intros l Hl Hc.
    destruct (Z.eqb_spec ret 0) as [-> |]; cbn [negb];
      [|destruct s as [p o q [mm ll zz oo ee tt hh]]; split; [done|]; split; [done|]; by exists ru'].
    destruct (Hc eq_refl) as [Vn Cn].
    assert (forall x f, f <> LMB_NONE -> covers ru x f -> ~ (addr <= x < addr + Z.of_nat (length l))) as Out.
    { intros x f Nf Cx Hx. apply covers_elem in Cx as (r & Hr & Ir & Fr). eapply Forall_forall in Cn; [|exact Hr].
      destruct Cn as [_ Cn]; [|congruence]. region. lia. }
    destruct s as [p o q [mm ll zz oo ee tt hh]]. unfold with_mach. cbn. case_match; (split; [done|]; split; [|by exists ru']);
      intros x f Nf Cx; specialize (Out x f Nf Cx); unfold mem_store; cbn [mem set_mem set_file_size mach];
      destruct (Z.leb_spec addr x), (Z.ltb_spec x (addr + Z.of_nat (length l))); cbn; done || lia.
Qed.

(** ** One packet *)

Lemma guarded_before ru s0 s s' : ram_same s0 s -> guarded ru s s' -> guarded ru s0 s'.
Proof using. intros [E1 E2] [G1 G2]. split; [by rewrite <- E1|done]. Qed.

Lemma guarded_after ru s s' s'' :
  guarded ru s s' -> ram_same s' s'' -> (ended (mach s'') = Going -> ended (mach s') = Going) -> guarded ru s s''.
Proof using. intros [G1 G2] [E1 E2] E. split; [by rewrite E1|]. rewrite E2. auto. Qed.

Lemma accept_safe s ru data :
  lmb_inv (lmb_state (mach s)) ra ru -> Z.of_nat (length data) < 65536 -> Z.of_nat (length ru) < 32768 ->
  1 <= block_size (opts s) -> guarded ru s (accept_block efi notify true s data).
Proof using All.
  intros I Hd Len Hb. unfold accept_block. set (s1 := with_mach _ (set_timer _)).
  assert (ram_same s s1) as R1 by (unfold s1; auto 10 with ram).
  assert (block_size (opts s1) = block_size (opts s)) as Eb.
  { unfold s1, update_block_number. destruct s as [? [] ? ?]. cbn. by case_match. }
  apply (guarded_before ru s s1 _ R1). destruct R1 as [_ El].
  pose proof (store_safe s1 ru (cur_block (prog s1)) data) as St. rewrite El in St. specialize (St I Hd Len).
  destruct (store_block _ _ _ _ _ _) as [ret s2]. destruct St as (Eo & G1 & G2).
  destruct (negb (ret =? 0)).
  { split; [|by destruct s2 as [? ? ? []]]. intros x f Nf Cx. rewrite <- (G1 x f Nf Cx). by destruct s2 as [? ? ? []]. }
  set (s3 := with_prog s2 _). assert (ram_same s2 s3) as R3 by (unfold s3; auto with ram).
  assert (opts s3 = opts s2) as Eo3 by done. rewrite Eo3, Eo, Eb.
  assert (forall s', ram_same s2 s' -> (ended (mach s') = Going -> data <> []) -> guarded ru s1 s') as Fin.
  { intros s' [E1 E2] Hne. split; [by rewrite E1|]. rewrite E2. auto. }
  destruct (Z.ltb_spec (Z.of_nat (length data)) (block_size (opts s))).
  - apply Fin; [unfold s3; auto with ram|]. unfold tftp_complete. by destruct (tftp_send s3) as [? ? ? []].
  - assert (data <> []) as Nd by (intros ->; cbn in *; lia).
    case_match; apply Fin; unfold s3; auto 10 with ram.
Qed.

Lemma packet_safe s ru now pkt dest sip src len :
  lmb_inv (lmb_state (mach s)) ra ru -> Z.of_nat (length ru) < 32768 -> 1 <= block_size (opts s) -> len < 65536 ->
  guarded ru s (tftp_handler efi notify true s now pkt dest sip src len).
Proof using All.
  intros I Len Hb Hl.
  assert (forall s', ram_same s s' -> guarded ru s s') as Sm by (intros; by apply ram_guarded).
  unfold tftp_handler. repeat (case_match; [solve [apply Sm; auto with ram]|]). case_match; [|case_match; apply Sm; auto with ram].
  unfold handle_data. case_match; [apply Sm; auto with ram|]. case_match; [apply Sm; auto with ram|].
  match goal with |- guarded _ _ (if ?c && _ then with_mach ?t _ else _) => set (s1 := t) end.
  assert (ram_same s s1 /\ opts s1 = opts s) as [R1 E1] by (unfold s1; repeat case_match; split; auto with ram).
  case_match; [apply Sm; auto with ram|]. case_match; [by apply Sm|].
  apply (guarded_before _ _ _ _ R1). destruct R1 as [_ El]. apply accept_safe; rewrite ?El, ?E1; auto.
  rewrite length_take. lia.
Qed.
End Store.

(** ** Any network *)

(** Whatever can reach the client: any packet, the timer, an ICMP message. *)
Inductive net_event : Type :=
| AnyPacket (now : Z) (pkt : list Z) (dest sip src len : Z)
| AnyTimeout
| AnyIcmp (type code : Z).

(** The length of a UDP packet has 16 bits. *)
Definition sized (e : net_event) : Prop :=
  match e with AnyPacket _ _ _ _ _ len => len < 65536 | _ => True end.

Section Any.
Context (efi : bool) (notify : Z -> Z -> lmb_map_op -> Z).

Definition net_step (s : tftp) (e : net_event) : tftp :=
  match e with
  | AnyPacket now pkt dest sip src len => tftp_handler efi notify true s now pkt dest sip src len
  | AnyTimeout => tftp_timeout_handler s
  | AnyIcmp type code => icmp_handler s type code
  end.

Fixpoint net_run (s : tftp) (es : list net_event) : tftp :=
  match es with
  | [] => s
  | e :: es => match ended (mach s) with Going => net_run (net_step s e) es | _ => s end
  end.

Lemma step_safe ra ru s e :
  Forall (fun r => rend r <= U64_MAX - 65536) ra -> lmb_inv (lmb_state (mach s)) ra ru ->
  Z.of_nat (length ru) < 32768 -> 1 <= block_size (opts s) -> sized e -> guarded ra ru s (net_step s e).
Proof using.
  intros Top I Len Hb Hs. destruct e; cbn [net_step]; [by apply packet_safe|apply ram_guarded; auto with ram..].
Qed.

Lemma net_run_safe ra es : forall ru s,
  Forall (fun r => rend r <= U64_MAX - 65536) ra -> lmb_inv (lmb_state (mach s)) ra ru ->
  Z.of_nat (length ru) + Z.of_nat (length es) <= 32768 -> Forall sized es ->
  (forall k, 1 <= block_size (opts (net_run s (take k es)))) ->
  forall x f, f <> LMB_NONE -> covers ru x f -> mem (mach (net_run s es)) x = mem (mach s) x.
Proof using.
  induction es as [|e es IH]; intros ru s Top I Len Sz Hb x f Nf Cx; [done|]. cbn [net_run length] in *.
  destruct (ended (mach s)) eqn:Eg; try done. apply Forall_cons in Sz as [Se Sz].
  destruct (step_safe ra ru s e Top I ltac:(lia) (Hb 0%nat) Se) as [G1 G2]. rewrite <- (G1 x f Nf Cx).
  destruct (decide (es = [])) as [-> |Ne]; [done|].
  destruct (ended (mach (net_step s e))) eqn:Eg'; [|by destruct es as [|? ?]; [|cbn; rewrite Eg']..].
  destruct (G2 eq_refl) as (ru' & [I' L' C']).
  apply (IH ru' _ Top I' ltac:(lia) Sz) with (f := f); [|done|by apply C'].
  intros k. specialize (Hb (S k)). cbn in Hb. by rewrite Eg in Hb.
Qed.
End Any.


(** A block of eight bytes for an area whose second half is reserved. *)
Definition near_reserved : tftp :=
  mkTftp (mkProg 0 0 0 0 STATE_SEND_RRQ 0 0 69 0 false) (mkOpts 512 1 1468 1 0 5000 10 10)
    (mkReq 0 1124 0x4ffc 0 false []) (mkMach (fun x => x mod 256) demo 0 [] Going None []).

