(* ===== verification/Digest.v ===== *)
(** What the hash functions share: big-endian words (the GET_UINT32_BE and
    PUT_UINT32_BE macros of lib/sha1.c and lib/sha256.c), the block-wise
    absorption of a message that arrives in pieces, and an interface
    [Digest] that states what a streaming hash promises.  The watchdog loop
    of the *_csum_wd functions and the HMAC construction are proved once,
    against that interface.

    A message is the list of its bytes.  [absorbed m st rest] says that a
    context has compressed all the full blocks of the message [m] into [st]
    and that [rest] is what waits in its buffer. *)

From S2P Require Import Prelude Bytes Cstring Crc32.

(** * Bytes and words *)

Definition is_byte (b : Z) : Prop := 0 <= b < 256.
Abbreviation bytes l := (Forall is_byte l).

(** A big-endian number, and the [n] bytes of one. *)
Definition be_load (bs : list Z) : Z := fold_left (fun w b => 256 * w + b) bs 0.
Definition be_bytes (n : nat) (w : Z) : list Z := rev (le_bytes n w).

(** The macros.  The loaded value is assigned to an object of at least 32
    bits, so nothing of it is lost. *)
Definition GET_UINT32_BE (b : list Z) (i : Z) : Z :=
  Z.lor (Z.lor (Z.lor (Z.shiftl (b !!! Z.to_nat i) 24) (Z.shiftl (b !!! Z.to_nat (i + 1)) 16))
               (Z.shiftl (b !!! Z.to_nat (i + 2)) 8)) (b !!! Z.to_nat (i + 3)).

Definition PUT_UINT32_BE (n : Z) (b : list Z) (i : Z) : list Z :=
  <[Z.to_nat (i + 3) := u8 n]> (<[Z.to_nat (i + 2) := u8 (Z.shiftr n 8)]>
    (<[Z.to_nat (i + 1) := u8 (Z.shiftr n 16)]> (<[Z.to_nat i := u8 (Z.shiftr n 24)]> b))).

(** Equality of integers built from bitwise operations: compare the bits. *)
Ltac bitwise n Hn := apply Z.bits_inj'; intros n Hn;
  repeat first [rewrite Z.lor_spec | rewrite Z.land_spec | rewrite Z.lxor_spec | rewrite Z.ldiff_spec
               | rewrite Z.lnot_spec by lia | rewrite Z.shiftl_spec by lia | rewrite Z.shiftr_spec by lia].

Lemma testbit_high x k n : 0 <= x < 2 ^ k -> 0 <= k <= n -> Z.testbit x n = false.
Proof.
  intros Hx Hk. destruct (Z.eq_dec x 0) as [-> |]; [apply Z.bits_0|].
  apply Z.bits_above_log2; [lia|]. enough (Z.log2 x < k) by lia. apply Z.log2_lt_pow2; lia.
Qed.

Lemma range_bits x k : 0 <= k -> 0 <= x -> (forall n, k <= n -> Z.testbit x n = false) -> x < 2 ^ k.
Proof.
  intros Hk Hx H. enough (x = x mod 2 ^ k) as E by (rewrite E; apply Z.mod_pos_bound, Z.pow_pos_nonneg; lia).
  apply Z.bits_inj'. intros n Hn. destruct (Z.ltb_spec n k).
  - by rewrite Z.mod_pow2_bits_low by lia.
  - rewrite Z.mod_pow2_bits_high by lia. apply H. lia.
Qed.

(** Two numbers whose bits do not overlap. *)
Lemma lor_shiftl_add a b k : 0 <= k -> 0 <= b < 2 ^ k -> Z.lor (Z.shiftl a k) b = a * 2 ^ k + b.
Proof.
  intros Hk Hb. rewrite <- Z.shiftl_mul_pow2 by done. rewrite <- Z.lxor_lor, Z.add_nocarry_lxor; [done| |].
  all: apply Z.bits_inj'; intros n Hn; rewrite Z.land_spec, Z.bits_0.
  all: destruct (Z.ltb_spec n k); [rewrite Z.shiftl_spec_low by lia; done|].
  all: rewrite (testbit_high b k) by lia; by rewrite andb_false_r.
Qed.

Lemma GET_UINT32_BE_load b i :
  0 <= i -> i + 4 <= len b -> bytes b -> GET_UINT32_BE b i = be_load (slice b i (i + 4)).
Proof.
  intros Hi Hl F. rewrite !slice_cons by lia. rewrite slice_empty by lia.
  replace (i + 1 + 1) with (i + 2) by lia. replace (i + 2 + 1) with (i + 3) by lia.
  assert (forall j, 0 <= j < len b -> is_byte (b !!! Z.to_nat j)) as Hb.
  { intros j Hj. apply (Forall_lookup_total_1 _ _ _ F). lia. }
  pose proof (Hb i ltac:(lia)) as H0. pose proof (Hb (i + 1) ltac:(lia)) as H1.
  pose proof (Hb (i + 2) ltac:(lia)) as H2. pose proof (Hb (i + 3) ltac:(lia)) as H3.
  unfold GET_UINT32_BE, be_load. cbn [fold_left]. unfold is_byte in *.
  rewrite <- Z.lor_assoc, (lor_shiftl_add (b !!! Z.to_nat (i + 2)) _ 8) by lia.
  rewrite <- Z.lor_assoc, (lor_shiftl_add (b !!! Z.to_nat (i + 1)) _ 16) by lia.
  rewrite (lor_shiftl_add _ _ 24) by lia. lia.
Qed.

Lemma be_load_range bs : bytes bs -> 0 <= be_load bs < 256 ^ len bs.
Proof.
  unfold be_load. intros F. rewrite <- (rev_involutive bs) in *. revert F. generalize (rev bs). clear bs. intros l F.
  rewrite length_rev. apply Forall_rev in F. rewrite rev_involutive in F.
  rewrite <- fold_left_rev_right, rev_involutive. induction F as [|b l Hb F IH]; cbn [fold_right length]; [lia|].
  rewrite Nat2Z.inj_succ, Z.pow_succ_r by lia. unfold is_byte in *. lia.
Qed.

Lemma PUT_UINT32_BE_store n b i :
  0 <= i -> i + 4 <= len b -> PUT_UINT32_BE n b i = store b i (be_bytes 4 n).
Proof.
  intros Hi Hl. apply list_eq. intros j. rewrite store_lookup by (cbn; lia).
  unfold PUT_UINT32_BE.
  replace (be_bytes 4 n) with [u8 (Z.shiftr n 24); u8 (Z.shiftr n 16); u8 (Z.shiftr n 8); u8 n].
  2:{ unfold be_bytes. cbn [le_bytes rev app]. rewrite !Z.shiftr_shiftr by lia.
      rewrite !(Z.land_ones _ 8) by lia. done. }
  cbn [length]. repeat case_decide.
  - rewrite !list_lookup_insert_ne by lia. done.
  - assert (Z.of_nat j - i = 0 \/ Z.of_nat j - i = 1 \/ Z.of_nat j - i = 2 \/ Z.of_nat j - i = 3) as [E|[E|[E|E]]] by lia;
      [assert (j = Z.to_nat i) as -> by lia|assert (j = Z.to_nat (i + 1)) as -> by lia
      |assert (j = Z.to_nat (i + 2)) as -> by lia|assert (j = Z.to_nat (i + 3)) as -> by lia];
      repeat first [rewrite list_lookup_insert_eq by (rewrite ?length_insert; lia) | rewrite list_lookup_insert_ne by lia].
    + by rewrite Nat.sub_diag.
    + by replace (Z.to_nat (i + 1) - Z.to_nat i)%nat with 1%nat by lia.
    + by replace (Z.to_nat (i + 2) - Z.to_nat i)%nat with 2%nat by lia.
    + by replace (Z.to_nat (i + 3) - Z.to_nat i)%nat with 3%nat by lia.
  - rewrite !list_lookup_insert_ne by lia. done.
Qed.

Lemma be_words_ok k (data : list Z) :
  0 <= k -> bytes data -> len data = 16 * k ->
  Forall (fun w => 0 <= w < 256 ^ k) (map (fun i => be_load (slice data (k * Z.of_nat i) (k * Z.of_nat i + k))) (seq 0 16)).
Proof.
  intros Hk Fd Ld. apply Forall_map, Forall_forall. intros i Hi. apply list_elem_of_In, in_seq in Hi. cbn.
  pose proof (be_load_range (slice data (k * Z.of_nat i) (k * Z.of_nat i + k))) as Hr.
  assert (k * Z.of_nat i + k <= len data) by nia.
  rewrite slice_length in Hr by lia. replace (k * Z.of_nat i + k - k * Z.of_nat i) with k in Hr by lia.
  apply Hr. by apply Forall_take, Forall_drop.
Qed.

Lemma be_bytes_length n w : length (be_bytes n w) = n.
Proof. unfold be_bytes. rewrite length_rev. revert w. induction n as [|n IH]; intros w; cbn; [done|by rewrite IH]. Qed.

Lemma be_bytes_bytes n w : bytes (be_bytes n w).
Proof.
  unfold be_bytes. apply Forall_rev. revert w. induction n as [|n IH]; intros w; cbn; constructor; [|apply IH].
  unfold is_byte. rewrite (Z.land_ones _ 8) by lia. apply Z.mod_pos_bound. lia.
Qed.

(** The bytes of a number are those of its upper part, then of its lower one. *)
Lemma be_bytes_app n k hi lo :
  0 <= lo < 256 ^ Z.of_nat k -> be_bytes (n + k) (hi * 256 ^ Z.of_nat k + lo) = be_bytes n hi ++ be_bytes k lo.
Proof.
  unfold be_bytes. intros H. rewrite <- rev_app_distr. f_equal. revert hi lo H.
  induction k as [|k IH]; intros hi lo H.
  - cbn in *. rewrite Nat.add_0_r. f_equal. lia.
  - rewrite Nat.add_succ_r. cbn [le_bytes app]. rewrite Nat2Z.inj_succ, Z.pow_succ_r in * by lia.
    set (p := 256 ^ Z.of_nat k) in *. rewrite !(Z.land_ones _ 8), !Z.shiftr_div_pow2 by lia.
    change (2 ^ 8) with 256. f_equal.
    + replace (hi * (256 * p) + lo) with (lo + (hi * p) * 256) by lia. by rewrite Z.mod_add by lia.
    + replace (hi * (256 * p) + lo) with (lo + (hi * p) * 256) by lia. rewrite Z.div_add by lia.
      rewrite Z.add_comm. apply IH. split; [apply Z.div_pos; lia|apply Z.div_lt_upper_bound; lia].
Qed.

(** Only the low bytes count. *)
Lemma be_bytes_mod n w : be_bytes n (w mod 256 ^ Z.of_nat n) = be_bytes n w.
Proof.
  unfold be_bytes. f_equal. revert w. induction n as [|n IH]; intros w; [done|]. cbn [le_bytes].
  rewrite Nat2Z.inj_succ, Z.pow_succ_r by lia. assert (0 < 256 ^ Z.of_nat n) by (apply Z.pow_pos_nonneg; lia).
  rewrite Z.rem_mul_r by lia. rewrite !(Z.land_ones _ 8), !Z.shiftr_div_pow2 by lia. change (2 ^ 8) with 256.
  replace (w mod 256 + 256 * ((w / 256) mod 256 ^ Z.of_nat n)) with
    (w mod 256 + ((w / 256) mod 256 ^ Z.of_nat n) * 256) by lia.
  rewrite Z.mod_add, Z.div_add, Z.mod_mod by lia. rewrite (Z.div_small (w mod 256)) by (apply Z.mod_pos_bound; lia).
  f_equal. apply IH.
Qed.

Lemma concat_be_length k (l : list Z) : length (concat (map (be_bytes k) l)) = (length l * k)%nat.
Proof. induction l as [|x l IH]; cbn; [done|]. rewrite length_app, be_bytes_length, IH. lia. Qed.

Lemma concat_be_bytes k (l : list Z) : bytes (concat (map (be_bytes k) l)).
Proof. induction l as [|x l IH]; cbn; [constructor|]. apply Forall_app. split; [apply be_bytes_bytes|done]. Qed.

(** Words put one after the other. *)
Lemma put_words (k : nat) (st : list Z) (n : nat) : forall d,
  (n <= length st)%nat -> (n * k <= length d)%nat ->
  fold_left (fun d i => store d (Z.of_nat k * Z.of_nat i) (be_bytes k (st !!! i))) (seq 0 n) d =
    concat (map (be_bytes k) (take n st)) ++ drop (n * k) d.
Proof.
  induction n as [|n IH]; intros d Hn Hd; [done|].
  rewrite seq_S, fold_left_app, IH by lia. cbn [fold_left Nat.add].
  assert (st !! n = Some (st !!! n)) as E by (apply list_lookup_lookup_total_lt; lia).
  rewrite (take_S_r _ _ _ E), map_app, concat_app. cbn [map concat]. rewrite app_nil_r.
  unfold store. rewrite <- app_assoc. replace (Z.to_nat (Z.of_nat k * Z.of_nat n)) with (n * k)%nat by lia.
  assert (length (concat (map (be_bytes k) (take n st))) = (n * k)%nat) as L by (rewrite concat_be_length, length_take; lia).
  rewrite be_bytes_length. f_equal; [|f_equal].
  - rewrite take_app_le, take_ge by lia. done.
  - rewrite drop_app_ge, drop_drop by lia. f_equal. lia.
Qed.

Lemma put_words_all (k : nat) (st : list Z) (n : nat) d :
  (n <= length st)%nat -> length d = (n * k)%nat ->
  fold_left (fun d i => store d (Z.of_nat k * Z.of_nat i) (be_bytes k (st !!! i))) (seq 0 n) d =
    concat (map (be_bytes k) (take n st)).
Proof. intros Hn Hd. rewrite put_words by lia. rewrite drop_ge, app_nil_r by lia. done. Qed.

(** A loop that keeps the length of its list, written with an equal body. *)
Lemma fold_left_ext_len {A} (f g : list Z -> A -> list Z) n l : forall d,
  (forall d x, In x l -> length d = n -> f d x = g d x /\ length (g d x) = n) -> length d = n ->
  fold_left f l d = fold_left g l d.
Proof.
  induction l as [|x l IH]; intros d H Hd; [done|]. cbn [fold_left]. destruct (H d x) as [-> Hl]; [by left|done|].
  apply IH; [|done]. intros d' y Hy. apply H. by right.
Qed.

(** The two words of the length. *)
Lemma msglen_bytes t0 t1 n :
  0 <= t0 < 4294967296 -> 0 <= t1 < 4294967296 -> t1 * 4294967296 + t0 = u64 n ->
  PUT_UINT32_BE (u32 (Z.shiftl t0 3)) (PUT_UINT32_BE (Z.lor (Z.shiftr t0 29) (u32 (Z.shiftl t1 3))) (replicate 8 0) 0) 4 =
  be_bytes 8 (8 * n).
Proof.
  intros H0 H1 Hn. rewrite (PUT_UINT32_BE_store _ (replicate 8 0)) by (cbn; lia).
  rewrite PUT_UINT32_BE_store by (rewrite ?store_length; cbn; lia).
  rewrite <- (be_bytes_mod 8 (8 * n)). change (256 ^ Z.of_nat 8) with 18446744073709551616.
  set (high := Z.lor _ _). set (low := u32 (Z.shiftl t0 3)).
  assert ((8 * n) mod 18446744073709551616 = high * 256 ^ Z.of_nat 4 + low) as ->.
  { rewrite <- Zmult_mod_idemp_r. fold (u64 n). rewrite <- Hn. unfold high, low, u32.
    rewrite !Z.shiftl_mul_pow2, Z.shiftr_div_pow2 by lia. change (2 ^ 3) with 8. change (2 ^ 29) with 536870912.
    rewrite Z.lor_comm. replace ((t1 * 8) mod 4294967296) with (Z.shiftl (t1 mod 536870912) 3).
    2:{ rewrite Z.shiftl_mul_pow2 by lia. change 4294967296 with (536870912 * 8). by rewrite Z.mul_mod_distr_r by lia. }
    rewrite lor_shiftl_add; [|lia|split; [apply Z.div_pos; lia|apply Z.div_lt_upper_bound; lia]].
    change (256 ^ Z.of_nat 4) with 4294967296. change (2 ^ 3) with 8. zlia. }
  change 8%nat with (4 + 4)%nat. rewrite (be_bytes_app 4 4) by (apply u32_range). reflexivity.
Qed.

(** Only the low half of what is put counts. *)
Lemma PUT_UINT32_BE_mod n b i : PUT_UINT32_BE n b i = PUT_UINT32_BE (u32 n) b i.
Proof.
  unfold PUT_UINT32_BE. rewrite !Z.shiftr_div_pow2 by lia. change (2 ^ 24) with 16777216. change (2 ^ 16) with 65536. change (2 ^ 8) with 256.
  assert (u8 n = u8 (u32 n)) as -> by wrap_lia. assert (u8 (n / 256) = u8 (u32 n / 256)) as -> by wrap_lia.
  assert (u8 (n / 65536) = u8 (u32 n / 65536)) as -> by wrap_lia. by assert (u8 (n / 16777216) = u8 (u32 n / 16777216)) as -> by wrap_lia.
Qed.

(** The padding array up to the length field, in blocks of 64 bytes. *)
Lemma padding_zeros r n :
  0 <= n -> r = n mod 64 ->
  slice (128 :: replicate 63 0) 0 (if r <? 56 then 56 - r else 120 - r) = [128] ++ replicate (Z.to_nat ((55 - n) mod 64)) 0.
Proof.
  intros Hn ->. pose proof (Z.mod_pos_bound n 64 ltac:(lia)).
  assert ((55 - n) mod 64 = (if n mod 64 <? 56 then 56 - n mod 64 else 120 - n mod 64) - 1) as -> by (case_Z; zlia).
  set (k := if n mod 64 <? 56 then 56 - n mod 64 else 120 - n mod 64). assert (0 < k <= 64) by (unfold k; case_Z; lia).
  rewrite slice_cons by (cbn; lia). unfold slice.
  replace (Z.to_nat (0 + 1)) with 1%nat by lia. cbn [drop]. rewrite drop_0, take_replicate.
  cbn [app]. f_equal. f_equal. lia.
Qed.

Lemma padding_whole (m : list Z) pad :
  len pad = 1 + (55 - len m) mod 64 + 8 -> (64 | len (m ++ pad)).
Proof. intros E. rewrite length_app, Nat2Z.inj_add, E. apply Z.mod_divide; [lia|]. zlia. Qed.

(** Two lists side by side, by index. *)
Lemma combine_lookup (k w : list Z) n :
  length k = n -> length w = n -> combine k w = map (fun t => (k !!! t, w !!! t)) (seq 0 n).
Proof.
  revert k w. induction n as [|n IH]; intros [|x k] [|y w]; cbn; try done. intros [= Lk] [= Lw]. f_equal.
  rewrite (IH k w Lk Lw), <- seq_shift, map_map. done.
Qed.

Lemma fold_left_map {A B C} (f : A -> B -> A) (g : C -> B) l : forall a,
  fold_left f (map g l) a = fold_left (fun a x => f a (g x)) l a.
Proof. induction l as [|x l IH]; intros a; [done|apply IH]. Qed.

Lemma map_seq_total (f : nat -> Z) n i : (i < n)%nat -> map f (seq 0 n) !!! i = f i.
Proof.
  intros H. apply list_lookup_total_correct. change (map f (seq 0 n)) with (f <$> seq 0 n).
  by rewrite list_lookup_fmap, lookup_seq_lt.
Qed.

Lemma slice_front {A} (a b : list A) n : len a = n -> slice (a ++ b) 0 n = a.
Proof. intros <-. unfold slice. rewrite Z.sub_0_r, drop_0, Nat2Z.id. apply take_app_length. Qed.

Lemma slice_whole {A} (a : list A) n : len a = n -> slice a 0 n = a.
Proof. intros <-. apply slice_all. Qed.

(** * Schedules

    A schedule that grows by one word at a time. *)
Definition grow (next : list Z -> Z) (n : nat) (M : list Z) : list Z := Nat.iter n (fun W => W ++ [next W]) M.

Lemma grow_spec next M n :
  length (grow next n M) = (length M + n)%nat /\ take (length M) (grow next n M) = M /\
  (forall t, (length M <= t < length M + n)%nat -> grow next n M !!! t = next (take t (grow next n M))).
Proof.
  induction n as [|n [IHl [IHt IHw]]].
  { split_and!; cbn; [lia|apply firstn_all|lia]. }
  change (grow next (S n) M) with (grow next n M ++ [next (grow next n M)]). set (W := grow next n M) in *. split_and!.
  - rewrite length_app. cbn. lia.
  - rewrite take_app_le by lia. done.
  - intros t Ht. destruct (decide (t = length M + n)%nat) as [-> |].
    + rewrite lookup_total_app_r by lia. rewrite IHl, Nat.sub_diag, take_app_le, take_ge by lia. done.
    + rewrite lookup_total_app_l by lia. rewrite take_app_le by lia. apply IHw. lia.
Qed.

(** ** A schedule kept in a ring of sixteen words

    SHA-1 and SHA-512 keep the last sixteen words only: the word of round [t]
    is at [t mod 16], and [R] relates it to the word of the full schedule. *)
Section Ring.
Context (R : Z -> Z -> Prop) (full : list Z).

Definition ring (I : Z) (W : list Z) : Prop :=
  length W = 16%nat /\ forall t, I - 16 <= t < I -> R (W !!! Z.to_nat (t mod 16)) (full !!! Z.to_nat t).

Lemma ring_at I W t i : ring I W -> I - 16 <= t < I -> i mod 16 = t mod 16 -> R (W !!! Z.to_nat (i mod 16)) (full !!! Z.to_nat t).
Proof using. intros [_ H] Ht ->. by apply H. Qed.

Lemma ring_set I W w :
  ring I W -> R w (full !!! Z.to_nat I) -> ring (I + 1) (<[Z.to_nat (I mod 16) := w]> W).
Proof using.
  intros [L H] Hw. split; [by rewrite length_insert|]. intros t Ht.
  pose proof (Z.mod_pos_bound I 16 ltac:(lia)). pose proof (Z.mod_pos_bound t 16 ltac:(lia)).
  destruct (Z.eq_dec t I) as [-> |].
  - rewrite list_lookup_total_insert_eq by lia. done.
  - rewrite list_lookup_total_insert_ne; [apply H; lia|]. intros E. assert (I mod 16 = t mod 16) by lia. zlia.
Qed.
End Ring.

(** * Absorbing a message block by block *)

Section Absorb.
Context {St : Type} (B : Z) (compress : St -> list Z -> St).

(** [n] blocks of [data], one after the other. *)
Fixpoint process (n : nat) (st : St) (data : list Z) : St :=
  match n with
  | O => st
  | S n' => process n' (compress st (slice data 0 B)) (drop (Z.to_nat B) data)
  end.

(** The state an iterated hash reaches on [p], a whole number of blocks. *)
Definition iterate (init : St) (p : list Z) : St := process (Z.to_nat (len p / B)) init p.

Definition absorbed (init : St) (m : list Z) (st : St) (rest : list Z) : Prop :=
  exists n full, m = full ++ rest /\ len rest < B /\ len full = Z.of_nat n * B /\ st = process n init full.

(** Add [d] to a context whose buffer holds [used] bytes: what the update
    functions do with state and buffer. *)
Definition feed (st : St) (buf : list Z) (used : Z) (d : list Z) : St * list Z :=
  let '(st, buf, used, d) :=
    if negb (used =? 0) && (B - used <=? len d) then
      let buf := store buf used (slice d 0 (B - used)) in
      (compress st (slice buf 0 B), buf, 0, slice d (B - used) (len d))
    else (st, buf, used, d) in
  let st := process (Z.to_nat (len d / B)) st d in
  let rest := slice d (len d / B * B) (len d) in
  (st, if len rest =? 0 then buf else store buf used rest).

Hypothesis HB : 0 < B.

Lemma process_app a b st x y :
  len x = Z.of_nat a * B -> process (a + b) st (x ++ y) = process b (process a st x) y.
Proof using HB.
  revert st x. induction a as [|a IH]; intros st x E.
  - destruct x; [done|cbn in E; lia].
  - cbn [process Nat.add]. rewrite drop_app_le by lia. rewrite IH by (rewrite length_drop; lia).
    do 3 f_equal. slice_ext.
Qed.

Lemma absorbed_init init : absorbed init [] init [].
Proof using HB. exists 0%nat, []. repeat split; cbn; lia. Qed.

Lemma absorbed_rest init m st rest : absorbed init m st rest -> len rest = len m mod B.
Proof using HB.
  intros (n & full & -> & Hr & Hf & _). rewrite length_app, Nat2Z.inj_add, Hf, Z.add_comm, Z.mod_add by lia.
  symmetry. apply Z.mod_small. lia.
Qed.

Lemma absorbed_done init m st rest : absorbed init m st rest -> (B | len m) -> st = iterate init m.
Proof using HB.
  intros H D. pose proof (absorbed_rest _ _ _ _ H) as Hr. apply Z.mod_divide in D; [|lia]. rewrite D in Hr.
  destruct rest; [|done]. destruct H as (n & full & -> & _ & Hf & ->). unfold iterate.
  rewrite app_nil_r, Hf, Z.div_mul by lia. by rewrite Nat2Z.id.
Qed.

Lemma absorbed_end init m st : absorbed init m st [] -> st = iterate init m.
Proof using HB.
  intros H. apply (absorbed_done _ _ _ _ H). apply Z.mod_divide; [lia|]. by rewrite <- (absorbed_rest _ _ _ _ H).
Qed.

Lemma absorbed_small init m st rest d :
  absorbed init m st rest -> len rest + len d < B -> absorbed init (m ++ d) st (rest ++ d).
Proof using HB.
  intros (n & full & -> & Hr & Hf & ->) Hd. exists n, full. rewrite app_assoc, length_app. repeat split; [lia|done].
Qed.

Lemma absorbed_blocks init m st rest d (k : nat) :
  absorbed init m st rest -> len rest + len d = Z.of_nat k * B ->
  absorbed init (m ++ d) (process k st (rest ++ d)) [].
Proof using HB.
  intros (n & full & -> & Hr & Hf & ->) Hd. exists (n + k)%nat, (full ++ rest ++ d).
  rewrite app_nil_r, <- app_assoc. repeat split; [cbn; lia|rewrite !length_app; lia|by rewrite process_app].
Qed.

Lemma process_prefix n st x y : Z.of_nat n * B <= len x -> process n st (x ++ y) = process n st x.
Proof using HB.
  revert st x. induction n as [|n IH]; intros st x E; [done|]. cbn [process].
  rewrite drop_app_le by lia. rewrite IH by (rewrite length_drop; lia). do 2 f_equal. slice_ext.
Qed.

(** From an empty buffer: the full blocks are compressed, what is left waits. *)
Lemma absorbed_direct init m st d :
  absorbed init m st [] ->
  absorbed init (m ++ d) (process (Z.to_nat (len d / B)) st d) (slice d (len d / B * B) (len d)).
Proof using HB.
  intros H. set (q := len d / B). assert (0 <= q) by (apply Z.div_pos; lia).
  pose proof (Z.div_mod (len d) B ltac:(lia)) as E. fold q in E. pose proof (Z.mod_pos_bound (len d) B HB).
  pose proof (absorbed_blocks init m st [] (slice d 0 (q * B)) (Z.to_nat q) H) as Ha.
  rewrite slice_length in Ha by lia. specialize (Ha ltac:(cbn; lia)).
  pose proof (absorbed_small _ _ _ _ (slice d (q * B) (len d)) Ha) as Hs.
  rewrite slice_length in Hs by lia. specialize (Hs ltac:(cbn; lia)). cbn [app] in Hs.
  rewrite <- app_assoc, <- slice_split, slice_all in Hs by lia.
  rewrite <- (process_prefix _ _ _ (slice d (q * B) (len d))), <- slice_split, slice_all in Hs; try done; try lia.
  rewrite slice_length; lia.
Qed.

Definition buffered (init : St) (m : list Z) (st : St) (buf : list Z) : Prop :=
  len buf = B /\ absorbed init m st (slice buf 0 (len m mod B)).

(** What is left of the data goes to the front of the buffer. *)
Lemma buffered_stow init m st buf rest :
  len buf = B -> absorbed init m st rest ->
  buffered init m st (if len rest =? 0 then buf else store buf 0 rest).
Proof using HB.
  intros Lb Ha. pose proof (absorbed_rest _ _ _ _ Ha) as Er. pose proof (Z.mod_pos_bound (len m) B HB). unfold buffered.
  rewrite <- Er. case_Z.
  - rewrite e, slice_empty by lia. destruct rest; [done|cbn in *; lia].
  - split; [rewrite store_length; lia|]. pose proof (slice_store_same buf 0 rest) as Es. rewrite Z.add_0_l in Es. by rewrite Es by lia.
Qed.

(** [feed] adds its data to the message. *)
Lemma feed_ok init m st buf d :
  buffered init m st buf ->
  buffered init (m ++ d) (feed st buf (len m mod B) d).1 (feed st buf (len m mod B) d).2.
Proof using HB.
  intros [Lb Ha]. set (used := len m mod B) in *. pose proof (Z.mod_pos_bound (len m) B HB) as Hl. fold used in Hl.
  unfold feed. destruct (Z.eqb_spec used 0) as [E|E]; cbn [negb andb].
  { rewrite E, slice_empty in Ha by lia. rewrite E. apply buffered_stow, absorbed_direct; done. }
  destruct (Z.leb_spec (B - used) (len d)) as [Hd|Hd].
  - set (d0 := slice d 0 (B - used)). set (d1 := slice d (B - used) (len d)).
    assert (d = d0 ++ d1) as Ed by (unfold d0, d1; rewrite <- slice_split, slice_all; [done|lia..]).
    assert (len d0 = B - used) as L0 by (unfold d0; rewrite slice_length; lia).
    clearbody d0 d1. subst d. cbn [fst snd]. rewrite app_assoc. apply buffered_stow; [rewrite store_length; lia|]. apply absorbed_direct.
    pose proof (absorbed_blocks _ _ _ _ d0 1 Ha) as Hx. cbn [process] in Hx.
    rewrite slice_length in Hx by lia. specialize (Hx ltac:(lia)).
    rewrite (slice_store_app buf used d0 0 B) by lia.
    by replace (slice (slice buf 0 used ++ d0) 0 B) with (slice buf 0 used ++ d0) in Hx by slice_ext.
  - cbn [fst snd]. rewrite Z.div_small by lia. cbn [Z.to_nat process]. rewrite Z.mul_0_l, slice_all.
    assert (len (m ++ d) mod B = used + len d) as Em.
    { rewrite length_app, Nat2Z.inj_add, Z.add_mod, (Z.mod_small (len d)) by lia. apply Z.mod_small. fold used. lia. }
    unfold buffered. rewrite Em. pose proof (absorbed_small _ _ _ _ d Ha) as Hx.
    rewrite slice_length in Hx by lia. specialize (Hx ltac:(lia)). case_Z.
    + destruct d; [|cbn in *; lia]. rewrite app_nil_r in *. by rewrite Z.add_0_r.
    + rewrite store_length, slice_store_app by lia. done.
Qed.
(** The part of sha1_update and sha256_update that the two have in common:
    complete the block in the buffer, compress the blocks of the input, keep
    what is left.  A block is compressed from where it lies. *)
Definition block_update (st : St) (buf : list Z) (used : Z) (input : list Z) (n : Z) : St * list Z :=
  let fill := B - used in
  let '(st, buf, input, n, used) :=
    if negb (used =? 0) && (fill <=? n) then
      let buf := store buf used (slice input 0 fill) in
      (process 1 st buf, buf, drop (Z.to_nat fill) input, n - fill, 0)
    else (st, buf, input, n, used) in
  let st := process (Z.to_nat (n / B)) st input in
  let input := drop (Z.to_nat (n / B * B)) input in
  let n := n mod B in
  if n =? 0 then (st, buf) else (st, store buf used (slice input 0 n)).

Lemma block_update_tail st buf used input n :
  0 <= n <= len input ->
  (let st := process (Z.to_nat (n / B)) st input in
   if n mod B =? 0 then (st, buf) else (st, store buf used (slice (drop (Z.to_nat (n / B * B)) input) 0 (n mod B)))) =
  let d := slice input 0 n in
  let rest := slice d (len d / B * B) (len d) in
  (process (Z.to_nat (len d / B)) st d, if len rest =? 0 then buf else store buf used rest).
Proof using HB.
  intros Hn. cbv zeta. assert (len (slice input 0 n) = n) as Ld by (rewrite slice_length; lia). rewrite Ld.
  pose proof (Z.div_mod n B ltac:(lia)) as E. pose proof (Z.mod_pos_bound n B ltac:(lia)) as Hm.
  assert (0 <= n / B) by (apply Z.div_pos; lia).
  rewrite (slice_length (slice input 0 n)) by lia. replace (n - n / B * B) with (n mod B) by lia.
  replace (process (Z.to_nat (n / B)) st (slice input 0 n)) with (process (Z.to_nat (n / B)) st input).
  2:{ rewrite <- (slice_all input) at 1. rewrite (slice_split input 0 n) by lia. apply process_prefix. lia. }
  replace (slice (slice input 0 n) (n / B * B) n) with (slice (drop (Z.to_nat (n / B * B)) input) 0 (n mod B)).
  - by destruct (n mod B =? 0).
  - assert (n = n / B * B + n mod B) as E' by lia. assert (0 <= n / B * B) as Hq by lia.
    generalize dependent (n / B * B). generalize dependent (n mod B). intros r Hm _ q Hn' Hq. subst n. clear - Hn Hm Hq. slice_ext.
Qed.

Lemma block_update_feed st buf used input n :
  0 <= n <= len input -> 0 <= used < B -> block_update st buf used input n = feed st buf used (slice input 0 n).
Proof using HB.
  intros Hn Hu. unfold block_update, feed. assert (len (slice input 0 n) = n) as Ld by (rewrite slice_length; lia). rewrite Ld.
  destruct (negb (used =? 0) && (B - used <=? n)) eqn:Ec; cbv zeta.
  - bprop. etransitivity; [apply (block_update_tail _ _ _ (drop (Z.to_nat (B - used)) input)); rewrite length_drop; lia|]. cbv zeta.
    replace (slice (drop (Z.to_nat (B - used)) input) 0 (n - (B - used)))
      with (slice (slice input 0 n) (B - used) n) by slice_ext.
    replace (slice input 0 (B - used)) with (slice (slice input 0 n) 0 (B - used)) by slice_ext. reflexivity.
  - etransitivity; [apply block_update_tail; lia|]. cbv zeta. by rewrite Ld.
Qed.

(** Close a message in the buffer itself: a bit, zeros, and the [L] bytes of
    the length at the end of a block.  What MD5Final and
    sha512_base_do_finalize do with state and buffer. *)
Definition close (L : Z) (st : St) (buf : list Z) (partial : Z) (lenb : list Z) : St :=
  let buf := store buf partial [128] in
  let partial := partial + 1 in
  let '(st, buf, partial) :=
    if B - L <? partial then
      let buf := store buf partial (replicate (Z.to_nat (B - partial)) 0) in
      (compress st (slice buf 0 B), buf, 0)
    else (st, buf, partial) in
  let buf := store buf partial (replicate (Z.to_nat (B - L - partial)) 0) in
  compress st (slice (store buf (B - L) lenb) 0 B).

Lemma close_iterate L init m st buf lenb :
  0 < L < B -> len lenb = L -> buffered init m st buf ->
  close L st buf (len m mod B) lenb =
    iterate init (m ++ [128] ++ replicate (Z.to_nat ((B - L - 1 - len m) mod B)) 0 ++ lenb).
Proof using HB.
  intros HL Ll [Lb Ha]. pose proof (Z.mod_pos_bound (len m) B HB) as Hr.
  assert ((B - L - 1 - len m) mod B = (B - L - 1 - len m mod B) mod B) as Em by (by rewrite Zminus_mod_idemp_r).
  set (r := len m mod B) in *. set (rest := slice buf 0 r) in *.
  assert (len rest = r) as Lr by (unfold rest; rewrite slice_length; lia).
  assert (len (store buf r [128]) = B) as Ls by (rewrite store_length; cbn [length]; lia).
  unfold close. destruct (Z.ltb_spec (B - L) (r + 1)) as [Hc|Hc]; cbv zeta.
  - assert ((B - L - 1 - r) mod B = 2 * B - L - 1 - r) as E2 by (symmetry; apply Z.mod_unique with (-1); lia).
    rewrite Em, E2. set (z1 := replicate (Z.to_nat (B - (r + 1))) 0). set (z2 := replicate (Z.to_nat (B - L - 0)) 0).
    replace (replicate (Z.to_nat (2 * B - L - 1 - r)) 0) with (z1 ++ z2).
    2:{ unfold z1, z2. rewrite <- replicate_add. f_equal. lia. }
    set (b1 := store (store buf r [128]) (r + 1) z1).
    assert (len z1 = B - (r + 1)) as L1 by (unfold z1; rewrite length_replicate; lia).
    assert (len z2 = B - L) as L2 by (unfold z2; rewrite length_replicate; lia).
    pose proof (absorbed_blocks _ _ _ _ ([128] ++ (z1 ++ z2) ++ lenb) 2 Ha) as Hx.
    rewrite !length_app in Hx. specialize (Hx ltac:(cbn [length]; lia)).
    rewrite <- (absorbed_end _ _ _ Hx). cbn [process].
    replace (rest ++ [128] ++ (z1 ++ z2) ++ lenb) with (((rest ++ [128]) ++ z1) ++ z2 ++ lenb) by (by rewrite <- !app_assoc).
    assert (len ((rest ++ [128]) ++ z1) = B) as L3 by (rewrite !length_app; cbn [length]; lia).
    rewrite slice_front by done. rewrite drop_app_length' by lia.
    rewrite (slice_whole (z2 ++ lenb)) by (rewrite length_app; lia). f_equal; [f_equal|].
    + unfold b1. rewrite slice_store_app, slice_store_app by (cbn [length]; lia). done.
    + assert (len b1 = B) as Lb1 by (unfold b1; rewrite store_length; lia).
      rewrite slice_store_app, slice_store_app by (rewrite ?store_length; lia). rewrite slice_empty by lia. done.
  - rewrite Em, (Z.mod_small (B - L - 1 - r)) by lia. replace (B - L - 1 - r) with (B - L - (r + 1)) by lia.
    set (z := replicate (Z.to_nat (B - L - (r + 1))) 0).
    assert (len z = B - L - (r + 1)) as Lz by (unfold z; rewrite length_replicate; lia).
    pose proof (absorbed_blocks _ _ _ _ ([128] ++ z ++ lenb) 1 Ha) as Hx.
    rewrite !length_app in Hx. specialize (Hx ltac:(cbn [length]; lia)).
    rewrite <- (absorbed_end _ _ _ Hx). cbn [process]. f_equal.
    rewrite slice_store_app, slice_store_app, slice_store_app by (rewrite ?store_length; cbn [length]; lia).
    fold rest. rewrite slice_whole by (rewrite !length_app; cbn [length]; lia). by rewrite <- !app_assoc.
Qed.
End Absorb.

(** Two block functions that agree on blocks of bytes. *)
Lemma process_ext {St} (B : Z) (f g : St -> list Z -> St) (P : St -> Prop) n : forall st data,
  0 < B -> (forall st blk, P st -> bytes blk -> len blk = B -> f st blk = g st blk /\ P (g st blk)) ->
  P st -> bytes data -> Z.of_nat n * B <= len data ->
  process B f n st data = process B g n st data.
Proof.
  induction n as [|n IH]; intros st data HB Hfg Hst F Hl; [done|]. cbn [process].
  destruct (Hfg st (slice data 0 B)) as [-> Hp]; [done|by apply Forall_take, Forall_drop|rewrite slice_length; lia|].
  apply IH; [done|done|done|by apply Forall_drop|rewrite length_drop; lia].
Qed.

(** * What a streaming hash promises *)

(** [d_ctx] is an allocated context of any contents, [d_holds c m] one that
    has been given the message [m]; [d_hash] is the hash by definition and
    [d_max] bounds what one update may add. *)
Class Digest := {
  dctx : Type;
  d_starts : dctx -> dctx;
  d_update : dctx -> list Z -> Z -> dctx;
  d_finish : dctx -> list Z * dctx;
  d_hash : list Z -> list Z;
  d_max : Z;
  d_ctx : dctx -> Prop;
  d_holds : dctx -> list Z -> Prop;
  d_starts_ok c : d_ctx c -> d_holds (d_starts c) [];
  d_update_ok c m input n :
    d_holds c m -> bytes input -> 0 <= n <= len input -> n < d_max ->
    d_holds (d_update c input n) (m ++ slice input 0 n);
  d_max_ok : 2147483648 <= d_max <= 4294967296;
  d_finish_ok c m : d_holds c m -> (d_finish c).1 = d_hash m /\ d_ctx (d_finish c).2;
}.

Section Clients.
Context `{D : Digest}.

(** A message given in pieces. *)
Definition d_pieces (c : dctx) (msgs : list (list Z)) : dctx :=
  fold_left (fun c d => d_update c d (len d)) msgs c.

Lemma d_pieces_holds msgs : forall c m,
  d_holds c m -> Forall (fun d => bytes d /\ len d < d_max) msgs -> d_holds (d_pieces c msgs) (m ++ concat msgs).
Proof using All.
  induction msgs as [|d msgs IH]; intros c m H F; [by rewrite app_nil_r|].
  apply Forall_cons in F as [[Fb Hl] F]. cbn [d_pieces fold_left concat].
  rewrite app_assoc. apply IH; [|done]. pose proof (d_update_ok c m d (len d) H Fb ltac:(lia) Hl) as Hu. by rewrite slice_all in Hu.
Qed.

Lemma d_pieces_hash c msgs :
  d_ctx c -> Forall (fun d => bytes d /\ len d < d_max) msgs ->
  (d_finish (d_pieces (d_starts c) msgs)).1 = d_hash (concat msgs) /\
  d_ctx (d_finish (d_pieces (d_starts c) msgs)).2.
Proof using All. intros Hc F. apply d_finish_ok. apply (d_pieces_holds _ _ []); [by apply d_starts_ok|done]. Qed.

(** The loop of the *_csum_wd functions when there is a watchdog: [chunk] is
    an int, [chunk_sz] an unsigned int, and the comparison of the two is made
    on unsigned ints.  A pointer before the buffer is outside the model. *)
Fixpoint csum_loop (fuel : nat) (c : dctx) (input : list Z) (curr end_ chunk_sz : Z) : option dctx :=
  match fuel with
  | O => None
  | S fuel =>
      if curr <? end_ then
        let chunk := s32 (end_ - curr) in
        let chunk := if chunk_sz <? u32 chunk then s32 chunk_sz else chunk in
        if curr + chunk <? 0 then None
        else csum_loop fuel (d_update c (drop (Z.to_nat curr) input) (u32 chunk)) input (curr + chunk) end_ chunk_sz
      else Some c
  end.

(** The whole function; [wd] is whether a watchdog is configured. *)
Definition csum_wd (wd : bool) (fuel : nat) (c : dctx) (input : list Z) (ilen chunk_sz : Z) : option (list Z) :=
  let c := d_starts c in
  let r := if wd then csum_loop fuel c input 0 ilen chunk_sz else Some (d_update c input ilen) in
  match r with
  | Some c => Some (d_finish c).1
  | None => None
  end.

Lemma csum_loop_ok fuel : forall c input curr end_ chunk_sz,
  d_holds c (slice input 0 curr) -> bytes input -> end_ < 4294967296 -> 0 < chunk_sz < 2147483648 ->
  0 <= curr <= end_ -> end_ <= len input -> (Z.to_nat (end_ - curr) < fuel)%nat ->
  exists c', csum_loop fuel c input curr end_ chunk_sz = Some c' /\ d_holds c' (slice input 0 end_).
Proof using All.
  induction fuel as [|fuel IH]; intros c input curr end_ sz Hc Fb Hl Hs Hr He Hf; [lia|]. cbn [csum_loop].
  destruct (Z.ltb_spec curr end_).
  2:{ assert (curr = end_) as -> by lia. eauto. }
  set (chunk := if sz <? u32 (s32 (end_ - curr)) then s32 sz else s32 (end_ - curr)).
  assert (chunk = Z.min sz (end_ - curr)) as E.
  { unfold chunk. assert (u32 (s32 (end_ - curr)) = end_ - curr) as -> by wrap_lia.
    case_Z; rewrite s32_small; lia. }
  pose proof d_max_ok as Hmax.
  cbv zeta. clearbody chunk. destruct (Z.ltb_spec (curr + chunk) 0); [lia|]. apply IH; try done; try lia.
  rewrite (slice_split _ 0 curr) by lia. rewrite u32_small by lia.
  replace (slice input curr (curr + chunk)) with (slice (drop (Z.to_nat curr) input) 0 chunk).
  - apply d_update_ok; [done|by apply Forall_drop|rewrite length_drop; lia|lia].
  - slice_ext.
Qed.

Lemma csum_wd_ok wd fuel c input ilen chunk_sz :
  d_ctx c -> bytes input -> 0 <= ilen <= len input -> ilen < 4294967296 -> (wd = false -> ilen < d_max) ->
  0 < chunk_sz < 2147483648 -> (Z.to_nat ilen < fuel)%nat ->
  csum_wd wd fuel c input ilen chunk_sz = Some (d_hash (slice input 0 ilen)).
Proof using All.
  intros Hc Fb Hi Hl Hl' Hs Hf. unfold csum_wd. pose proof (d_starts_ok c Hc) as H0. destruct wd.
  - destruct (csum_loop_ok fuel (d_starts c) input 0 ilen chunk_sz) as (c' & -> & H'); try done; try lia.
    by apply d_finish_ok in H' as [-> _].
  - pose proof (d_update_ok _ _ input ilen H0 Fb ltac:(lia) (Hl' eq_refl)) as H'.
    by apply d_finish_ok in H' as [-> _].
Qed.

(** The loop of a watchdog build never ends when no bytes are to be taken. *)
Lemma csum_loop_stuck fuel : forall c input end_, 0 < end_ < 4294967296 -> csum_loop fuel c input 0 end_ 0 = None.
Proof using All.
  induction fuel as [|fuel IH]; intros c input end_ H; [done|]. cbn [csum_loop].
  destruct (Z.ltb_spec 0 end_); [|lia]. replace (0 <? u32 (s32 (end_ - 0))) with true; [by apply IH|].
  symmetry. apply Z.ltb_lt. wrap_lia.
Qed.

(** * HMAC (RFC 2104), on blocks of [B] bytes *)

Definition xor_bytes (c : Z) (l : list Z) : list Z := map (Z.lxor c) l.

Definition hmac_key (B : Z) (key : list Z) : list Z :=
  let k := if B <? len key then d_hash key else key in k ++ replicate (Z.to_nat (B - len k)) 0.

Definition hmac (B : Z) (key m : list Z) : list Z :=
  d_hash (xor_bytes 92 (hmac_key B key) ++ d_hash (xor_bytes 54 (hmac_key B key) ++ m)).
End Clients.

Lemma xor_bytes_bytes c l : is_byte c -> bytes l -> bytes (xor_bytes c l).
Proof.
  intros Hc F. unfold xor_bytes. apply Forall_map. eapply Forall_impl; [exact F|]. intros b Hb. cbn. unfold is_byte in *.
  assert (0 <= Z.lxor c b) by (apply Z.lxor_nonneg; lia). split; [done|]. apply (range_bits _ 8); [lia|done|].
  intros n Hn. rewrite Z.lxor_spec, !(testbit_high _ 8) by lia. done.
Qed.

(** The loop that masks a key: k[i] ^= key[i] for the first [n] bytes. *)
Definition xor_key (k key : list Z) (n : nat) : list Z :=
  fold_left (fun k i => <[i := Z.lxor (k !!! i) (key !!! i)]> k) (seq 0 n) k.

Lemma xor_key_map c B key n :
  (n <= B)%nat -> (n <= length key)%nat ->
  xor_key (replicate B c) key n = xor_bytes c (take n key ++ replicate (B - n) 0).
Proof.
  unfold xor_key. intros HB Hk. induction n as [|n IH].
  - cbn [seq fold_left take app]. rewrite Nat.sub_0_r. change (replicate B c = Z.lxor c <$> replicate B 0). by rewrite fmap_replicate, Z.lxor_0_r.
  - rewrite seq_S, fold_left_app, IH by lia. cbn [fold_left Nat.add]. unfold xor_bytes.
    assert (key !! n = Some (key !!! n)) as E by (apply list_lookup_lookup_total_lt; lia).
    rewrite (take_S_r _ _ _ E), !map_app. replace (B - n)%nat with (S (B - S n)) by lia. cbn [replicate map].
    assert (length (map (Z.lxor c) (take n key)) = n) as L by (rewrite length_map, length_take; lia).
    rewrite lookup_total_app_r, insert_app_r_alt by lia. rewrite L, Nat.sub_diag. cbn.
    rewrite Z.lxor_0_r, <- app_assoc. done.
Qed.
