(* ===== verification/Sha256.v ===== *)
(** SHA-256 (lib/sha256.c, lib/sha256_common.c) and the definition of the
    SHA-2 functions in FIPS 180-4.

    The first part is the standard: the operations on words, the message
    schedule, the rounds and the constants computed from the primes they come
    from, for any word width.  The second is the code.  An [unsigned int] is
    32 bits wide; the words W[16] .. W[63] of a block, which the code sets
    before it reads them, start at zero. *)

From S2P Require Import Prelude Bytes Cstring Crc32 Digest.

(** * The standard *)

Record sha2_params := {
  w_bits : Z;                   (** bits of a word *)
  big0 : Z * Z * Z;             (** the three rotations of the function Sigma_0, *)
  big1 : Z * Z * Z;             (** of Sigma_1, *)
  small0 : Z * Z * Z;           (** two rotations and the shift of sigma_0 *)
  small1 : Z * Z * Z;           (** and of sigma_1 *)
  round_k : list Z;             (** a constant for each round *)
}.

(** The working variables. *)
Record regs := Regs { rA : Z; rB : Z; rC : Z; rD : Z; rE : Z; rF : Z; rG : Z; rH : Z }.

Section Sha2.
Context (p : sha2_params).

Definition shr (n x : Z) : Z := x / 2 ^ n.
Definition rotr (n x : Z) : Z := x / 2 ^ n + x mod 2 ^ n * 2 ^ (w_bits p - n).
Definition sha2_Ch (x y z : Z) : Z := Z.lxor (Z.land x y) (Z.ldiff z x).
Definition sha2_Maj (x y z : Z) : Z := Z.lxor (Z.lxor (Z.land x y) (Z.land x z)) (Z.land y z).
Definition Sigma (r : Z * Z * Z) (x : Z) : Z := Z.lxor (Z.lxor (rotr r.1.1 x) (rotr r.1.2 x)) (rotr r.2 x).
Definition sigma (r : Z * Z * Z) (x : Z) : Z := Z.lxor (Z.lxor (rotr r.1.1 x) (rotr r.1.2 x)) (shr r.2 x).
Definition wrap (x : Z) : Z := x mod 2 ^ w_bits p.

(** The next word of the schedule, from those before it. *)
Definition next_word (W : list Z) : Z :=
  let t := length W in
  wrap (sigma (small1 p) (W !!! (t - 2)%nat) + W !!! (t - 7)%nat +
        sigma (small0 p) (W !!! (t - 15)%nat) + W !!! (t - 16)%nat).
Definition schedule (M : list Z) : list Z :=
  grow next_word (length (round_k p) - 16) M.

Definition sha2_round (r : regs) (kw : Z * Z) : regs :=
  let T1 := wrap (rH r + Sigma (big1 p) (rE r) + sha2_Ch (rE r) (rF r) (rG r) + kw.1 + kw.2) in
  let T2 := wrap (Sigma (big0 p) (rA r) + sha2_Maj (rA r) (rB r) (rC r)) in
  Regs (wrap (T1 + T2)) (rA r) (rB r) (rC r) (wrap (rD r + T1)) (rE r) (rF r) (rG r).

Definition regs_of (st : list Z) : regs :=
  Regs (st !!! 0%nat) (st !!! 1%nat) (st !!! 2%nat) (st !!! 3%nat)
       (st !!! 4%nat) (st !!! 5%nat) (st !!! 6%nat) (st !!! 7%nat).
Definition regs_list (r : regs) : list Z := [rA r; rB r; rC r; rD r; rE r; rF r; rG r; rH r].

Definition word_bytes : Z := w_bits p / 8.
Definition block_words (blk : list Z) : list Z :=
  map (fun i => be_load (slice blk (word_bytes * Z.of_nat i) (word_bytes * Z.of_nat i + word_bytes))) (seq 0 16).

Definition sha2_compress (st blk : list Z) : list Z :=
  let r := fold_left sha2_round (combine (round_k p) (schedule (block_words blk))) (regs_of st) in
  zip_with (fun x y => wrap (x + y)) st (regs_list r).

(** One bit, then zeros up to two words before the end of a block, then the
    length in bits in the two words. *)
Definition sha2_pad (n : Z) : list Z :=
  let B := 16 * word_bytes in
  [128] ++ replicate (Z.to_nat ((B - 2 * word_bytes - 1 - n) mod B)) 0 ++ be_bytes (Z.to_nat (2 * word_bytes)) (8 * n).

Definition sha2_hash (init : list Z) (m : list Z) : list Z :=
  concat (map (be_bytes (Z.to_nat word_bytes)) (iterate (16 * word_bytes) sha2_compress init (m ++ sha2_pad (len m)))).
End Sha2.

(** The constants: the fractional parts of the square and cube roots of the
    first primes. *)
Definition is_prime (n : nat) : bool := forallb (fun d => negb (n mod d =? 0)%nat) (seq 2 (n - 2)).
Definition primes : list Z := map Z.of_nat (List.filter is_prime (seq 2 408)).

(** The cube root, bit by bit. *)
Fixpoint cbrt_from (k : nat) (acc n : Z) : Z :=
  match k with
  | O => acc
  | S k => let x := acc + 2 ^ Z.of_nat k in cbrt_from k (if x ^ 3 <=? n then x else acc) n
  end.
Definition cbrt (bits : nat) (n : Z) : Z := cbrt_from bits 0 n.

Definition sqrt_frac (w q : Z) : Z := Z.sqrt (q * 2 ^ (2 * w)) mod 2 ^ w.
Definition cbrt_frac (w q : Z) : Z := cbrt (Z.to_nat (w + 3)) (q * 2 ^ (3 * w)) mod 2 ^ w.

(** [cbrt] is the integer cube root of a number of up to three times as many bits. *)
Lemma cbrt_from_spec n k : forall acc,
  0 <= acc -> acc ^ 3 <= n < (acc + 2 ^ Z.of_nat k) ^ 3 ->
  cbrt_from k acc n ^ 3 <= n < (cbrt_from k acc n + 1) ^ 3.
Proof.
  induction k as [|k IH]; intros acc Ha H; [done|]. cbn [cbrt_from].
  rewrite Nat2Z.inj_succ, Z.pow_succ_r in H by lia. assert (0 < 2 ^ Z.of_nat k) by (apply Z.pow_pos_nonneg; lia).
  case_Z; apply IH; [lia| |lia|lia]. split; [done|]. replace (acc + _ + _) with (acc + 2 * 2 ^ Z.of_nat k) by lia. lia.
Qed.

Lemma cbrt_spec bits n : 0 <= n < (2 ^ Z.of_nat bits) ^ 3 -> cbrt bits n ^ 3 <= n < (cbrt bits n + 1) ^ 3.
Proof. intros H. apply cbrt_from_spec; [lia|]. by rewrite Z.add_0_l. Qed.

Definition sha256_params : sha2_params :=
  {| w_bits := 32; big0 := (2, 13, 22); big1 := (6, 11, 25); small0 := (7, 18, 3); small1 := (17, 19, 10);
     round_k := map (cbrt_frac 32) (take 64 primes) |}.
Definition sha256_init : list Z := map (sqrt_frac 32) (take 8 primes).
Definition SHA256 (m : list Z) : list Z := sha2_hash sha256_params sha256_init m.

(** * The code *)

Record sha256_context := { total0 : Z; total1 : Z; state : list Z; buffer : list Z }.
Definition sha256_starts (ctx : sha256_context) : sha256_context :=
  {| total0 := 0; total1 := 0;
     state := [1779033703; 3144134277; 1013904242; 2773480762; 1359893119; 2600822924; 528734635; 1541459225];
     buffer := buffer ctx |}.

Definition SHR (x n : Z) : Z := Z.shiftr (Z.land x 4294967295) n.
Definition ROTR (x n : Z) : Z := Z.lor (SHR x n) (u32 (Z.shiftl x (32 - n))).
Definition S0 (x : Z) : Z := Z.lxor (Z.lxor (ROTR x 7) (ROTR x 18)) (SHR x 3).
Definition S1 (x : Z) : Z := Z.lxor (Z.lxor (ROTR x 17) (ROTR x 19)) (SHR x 10).
Definition S2 (x : Z) : Z := Z.lxor (Z.lxor (ROTR x 2) (ROTR x 13)) (ROTR x 22).
Definition S3 (x : Z) : Z := Z.lxor (Z.lxor (ROTR x 6) (ROTR x 11)) (ROTR x 25).
Definition F0 (x y z : Z) : Z := Z.lor (Z.land x y) (Z.land z (Z.lor x y)).
Definition F1 (x y z : Z) : Z := Z.lxor z (Z.land x (Z.lxor y z)).

(** W with W[t] set by the macro R(t); the first 16 words are not set again. *)
Definition R (W : list Z) (t : Z) : list Z :=
  if t <? 16 then W
  else <[Z.to_nat t := u32 (S1 (W !!! Z.to_nat (t - 2)) + W !!! Z.to_nat (t - 7) +
                            S0 (W !!! Z.to_nat (t - 15)) + W !!! Z.to_nat (t - 16))]> W.

(** The macro P: the new values of its arguments d and h. *)
Definition P (a b c d e f g h x K : Z) : Z * Z :=
  let temp1 := u32 (h + S3 e + F1 e f g + K + x) in
  let temp2 := u32 (S2 a + F0 a b c) in
  (u32 (d + temp1), u32 (temp1 + temp2)).

(** The constants of the 64 uses of P, in order. *)
Definition sha256_K : list Z :=
  [
   1116352408; 1899447441; 3049323471; 3921009573; 961987163; 1508970993;
   2453635748; 2870763221; 3624381080; 310598401; 607225278; 1426881987;
   1925078388; 2162078206; 2614888103; 3248222580; 3835390401; 4022224774;
   264347078; 604807628; 770255983; 1249150122; 1555081692; 1996064986;
   2554220882; 2821834349; 2952996808; 3210313671; 3336571891; 3584528711;
   113926993; 338241895; 666307205; 773529912; 1294757372; 1396182291;
   1695183700; 1986661051; 2177026350; 2456956037; 2730485921; 2820302411;
   3259730800; 3345764771; 3516065817; 3600352804; 4094571909; 275423344;
   430227734; 506948616; 659060556; 883997877; 958139571; 1322822218;
   1537002063; 1747873779; 1955562222; 2024104815; 2227730452; 2361852424;
   2428436474; 2756734187; 3204031479; 3329325298].

(** Eight uses of P; the code has eight such groups, for t = 0, 8, .., 56. *)
Definition eight (rW : regs * list Z) (t : Z) : regs * list Z :=
  let '(Regs A B C D E F G H, W) := rW in
  let W := R W (t + 0) in let '(D, H) := P A B C D E F G H (W !!! Z.to_nat (t + 0)) (sha256_K !!! Z.to_nat (t + 0)) in
  let W := R W (t + 1) in let '(C, G) := P H A B C D E F G (W !!! Z.to_nat (t + 1)) (sha256_K !!! Z.to_nat (t + 1)) in
  let W := R W (t + 2) in let '(B, F) := P G H A B C D E F (W !!! Z.to_nat (t + 2)) (sha256_K !!! Z.to_nat (t + 2)) in
  let W := R W (t + 3) in let '(A, E) := P F G H A B C D E (W !!! Z.to_nat (t + 3)) (sha256_K !!! Z.to_nat (t + 3)) in
  let W := R W (t + 4) in let '(H, D) := P E F G H A B C D (W !!! Z.to_nat (t + 4)) (sha256_K !!! Z.to_nat (t + 4)) in
  let W := R W (t + 5) in let '(G, C) := P D E F G H A B C (W !!! Z.to_nat (t + 5)) (sha256_K !!! Z.to_nat (t + 5)) in
  let W := R W (t + 6) in let '(F, B) := P C D E F G H A B (W !!! Z.to_nat (t + 6)) (sha256_K !!! Z.to_nat (t + 6)) in
  let W := R W (t + 7) in let '(E, A) := P B C D E F G H A (W !!! Z.to_nat (t + 7)) (sha256_K !!! Z.to_nat (t + 7)) in
  (Regs A B C D E F G H, W).

(** Of the context only the state takes part. *)
Definition sha256_process_one (state data : list Z) : list Z :=
  let W := map (fun i => GET_UINT32_BE data (4 * Z.of_nat i)) (seq 0 16) ++ replicate 48 0 in
  let '(r, _) := fold_left eight [0; 8; 16; 24; 32; 40; 48; 56] (regs_of state, W) in
  zip_with (fun x y => u32 (x + y)) state (regs_list r).

Definition sha256_process (state data : list Z) (blocks : nat) : list Z := process 64 sha256_process_one blocks state data.

Definition sha256_update (ctx : sha256_context) (input : list Z) (length : Z) : sha256_context :=
  if length =? 0 then ctx else
  let used := Z.land (total0 ctx) 63 in
  let t0 := Z.land (u32 (total0 ctx + length)) 4294967295 in
  let t1 := if t0 <? length then u32 (total1 ctx + 1) else total1 ctx in
  let '(st, buf) := block_update 64 sha256_process_one (state ctx) (buffer ctx) used input length in
  {| total0 := t0; total1 := t1; state := st; buffer := buf |}.

Definition sha256_padding : list Z := 128 :: replicate 63 0.

(** The digest, and the context it leaves. *)
Definition sha256_finish (ctx : sha256_context) (digest : list Z) : list Z * sha256_context :=
  let high := Z.lor (Z.shiftr (total0 ctx) 29) (u32 (Z.shiftl (total1 ctx) 3)) in
  let low := u32 (Z.shiftl (total0 ctx) 3) in
  let msglen := PUT_UINT32_BE low (PUT_UINT32_BE high (replicate 8 0) 0) 4 in
  let last := Z.land (total0 ctx) 63 in
  let padn := if last <? 56 then 56 - last else 120 - last in
  let ctx := sha256_update ctx sha256_padding padn in
  let ctx := sha256_update ctx msglen 8 in
  (fold_left (fun d i => PUT_UINT32_BE (state ctx !!! i) d (4 * Z.of_nat i)) (seq 0 8) digest, ctx).

(** The key, or its hash, in [keybuf], and how much of [keybuf] it takes. *)
Definition hmac_keybuf (ctx : sha256_context) (keybuf key : list Z) (keylen : Z) : list Z * Z * sha256_context :=
  if 64 <? keylen then
    let '(keybuf, ctx) := sha256_finish (sha256_update (sha256_starts ctx) key keylen) keybuf in
    (keybuf, 32, ctx)
  else (store (replicate 64 0) 0 (slice key 0 keylen), keylen, ctx).

(** The local [ctx], [keybuf] and [tmpbuf] hold what they please before.
    They are cleared at the end, which nothing can see. *)
Definition sha256_hmac (ctx : sha256_context) (keybuf : list Z) (key : list Z) (keylen : Z)
    (input : list Z) (ilen : Z) (tmpbuf output : list Z) : list Z * Z :=
  let '(keybuf, keybuf_len, ctx) := hmac_keybuf ctx keybuf key keylen in
  let k_ipad := xor_key (replicate 64 54) keybuf (Z.to_nat keybuf_len) in
  let k_opad := xor_key (replicate 64 92) keybuf (Z.to_nat keybuf_len) in
  let '(tmpbuf, ctx) := sha256_finish (sha256_update (sha256_update (sha256_starts ctx) k_ipad 64) input ilen) tmpbuf in
  let '(output, _) := sha256_finish (sha256_update (sha256_update (sha256_starts ctx) k_opad 64) tmpbuf 32) output in
  (output, 0).

(** * The operations on words *)

Section Sha2Facts.
Context (p : sha2_params).

Definition in_word (x : Z) : Prop := 0 <= x < 2 ^ w_bits p.
Definition regs_ok (r : regs) : Prop := Forall in_word (regs_list r).

Hypothesis Hw : 0 < w_bits p.

Lemma wrap_word x : in_word (wrap p x).
Proof using Hw. apply Z.mod_pos_bound, Z.pow_pos_nonneg; lia. Qed.

Lemma rotr_bits n x :
  0 < n < w_bits p -> in_word x ->
  Z.lor (Z.shiftr x n) (Z.shiftl x (w_bits p - n) mod 2 ^ w_bits p) = rotr p n x.
Proof using Hw.
  intros Hn [Hx0 Hx]. unfold rotr. assert (0 < 2 ^ n) by (apply Z.pow_pos_nonneg; lia).
  assert (0 < 2 ^ (w_bits p - n)) by (apply Z.pow_pos_nonneg; lia).
  assert (2 ^ w_bits p = 2 ^ n * 2 ^ (w_bits p - n)) as E by (rewrite <- Z.pow_add_r by lia; f_equal; lia).
  rewrite Z.shiftl_mul_pow2, Z.shiftr_div_pow2, E by lia.
  rewrite Z.mul_mod_distr_r by lia. rewrite Z.lor_comm, <- Z.shiftl_mul_pow2 by lia.
  rewrite lor_shiftl_add; [rewrite Z.shiftl_mul_pow2 by lia; apply Z.add_comm|lia|]. split; [apply Z.div_pos; lia|]. apply Z.div_lt_upper_bound; lia.
Qed.

Lemma Ch_bits x y z : Z.lxor z (Z.land x (Z.lxor y z)) = sha2_Ch x y z.
Proof using. unfold sha2_Ch. bitwise n Hn. by destruct (Z.testbit x n), (Z.testbit y n), (Z.testbit z n). Qed.

Lemma Maj_bits x y z : Z.lor (Z.land x y) (Z.land z (Z.lor x y)) = sha2_Maj x y z.
Proof using. unfold sha2_Maj. bitwise n Hn. by destruct (Z.testbit x n), (Z.testbit y n), (Z.testbit z n). Qed.

Lemma regs_ok_round r kw : regs_ok r -> regs_ok (sha2_round p r kw).
Proof using Hw.
  unfold regs_ok, regs_list. rewrite !Forall_cons. intros (? & ? & ? & ? & ? & ? & ? & ? & _). cbn.
  split_and!; try done; apply wrap_word.
Qed.

Lemma regs_of_ok st : length st = 8%nat -> Forall in_word st -> regs_ok (regs_of st).
Proof using.
  intros L F. unfold regs_ok, regs_of, regs_list. cbn [rA rB rC rD rE rF rG rH].
  rewrite !Forall_cons. split_and!; try apply Forall_nil; try done; apply Forall_lookup_total_1; try done; lia.
Qed.

(** What the rounds use of the schedule of the block [M], of [n] words. *)
Definition scheduled (n : nat) (M full : list Z) : Prop :=
  length full = n /\ take 16 full = M /\
  (forall t, (16 <= t < n)%nat -> full !!! t = next_word p (take t full)).

Lemma schedule_scheduled n M :
  (16 <= n)%nat -> length (round_k p) = n -> length M = 16%nat -> scheduled n M (schedule p M).
Proof using.
  intros Hn E HM. unfold schedule. pose proof (grow_spec (next_word p) M (n - 16)) as H. rewrite HM in H.
  rewrite E. unfold scheduled. replace (16 + (n - 16))%nat with n in H by lia. exact H.
Qed.

Lemma scheduled_words n M full : scheduled n M full -> Forall in_word M -> Forall in_word full.
Proof using Hw.
  intros (L & H16 & Hn) FM. apply (proj2 (Forall_lookup_total _ _)). intros t Ht.
  destruct (decide (t < 16)%nat).
  - rewrite <- (lookup_total_take_lt full 16 t) by done. rewrite H16. apply Forall_lookup_total_1; [done|rewrite <- H16, length_take; lia].
  - rewrite Hn by lia. apply wrap_word.
Qed.

Lemma next_word_at full n M t :
  scheduled n M full -> (16 <= t < n)%nat ->
  full !!! t = wrap p (sigma p (small1 p) (full !!! (t - 2)%nat) + full !!! (t - 7)%nat +
                       sigma p (small0 p) (full !!! (t - 15)%nat) + full !!! (t - 16)%nat).
Proof using.
  intros (L & _ & Hn) Ht. rewrite (Hn t) by lia. unfold next_word. rewrite length_take, L.
  replace (t `min` n)%nat with t by lia. by rewrite !lookup_total_take_lt by lia.
Qed.

Lemma block_words_ok data :
  w_bits p = 8 * word_bytes p -> bytes data -> len data = 16 * word_bytes p ->
  length (block_words p data) = 16%nat /\ Forall in_word (block_words p data).
Proof using Hw.
  intros Eb Fd Ld. unfold block_words. split; [by rewrite length_map, length_seq|].
  unfold in_word. rewrite Eb, Z.pow_mul_r by lia. apply be_words_ok; [lia|done..].
Qed.

Definition state_ok (st : list Z) : Prop := length st = 8%nat /\ Forall in_word st.

Lemma compress_ok st blk : state_ok st -> state_ok (sha2_compress p st blk).
Proof using Hw.
  intros [Ls Fs]. unfold sha2_compress, state_ok. split; [by rewrite length_zip_with, Ls|].
  apply Forall_lookup. intros i x (y & z & -> & _ & _)%lookup_zip_with_Some. apply wrap_word.
Qed.

Lemma iterate_ok B init q : state_ok init -> state_ok (iterate B (sha2_compress p) init q).
Proof using Hw.
  unfold iterate. generalize (Z.to_nat (len q / B)). intros k.
  revert q init. induction k as [|k IH]; intros q st Hs; [done|]. apply IH, compress_ok, Hs.
Qed.

Lemma sha2_hash_length init m : state_ok init -> length (sha2_hash p init m) = (8 * Z.to_nat (word_bytes p))%nat.
Proof using Hw.
  intros Hi. unfold sha2_hash. rewrite concat_be_length.
  by destruct (iterate_ok (16 * word_bytes p) init (m ++ sha2_pad p (len m)) Hi) as [-> _].
Qed.

Lemma sha2_pad_whole m : 0 < word_bytes p -> (16 * word_bytes p | len (m ++ sha2_pad p (len m))).
Proof using.
  intros Hb. rewrite length_app, Nat2Z.inj_add. unfold sha2_pad.
  rewrite !length_app, length_replicate, be_bytes_length. cbn [length]. set (k := word_bytes p) in *.
  set (B := 16 * k) in *. pose proof (Z.mod_pos_bound (B - 2 * k - 1 - len m) B ltac:(lia)) as Hm.
  exists (1 - (B - 2 * k - 1 - len m) / B). pose proof (Z.div_mod (B - 2 * k - 1 - len m) B ltac:(lia)). nia.
Qed.
End Sha2Facts.

(** * The compression of a block *)

Abbreviation p256 := sha256_params.

Lemma sha256_K_eq : round_k p256 = sha256_K.
Proof. vm_compute. reflexivity. Qed.

Lemma ROTR_eq x n : 0 < n < 32 -> in_word p256 x -> ROTR x n = rotr p256 n x.
Proof.
  intros Hn Hx. rewrite <- rotr_bits by done. unfold ROTR, SHR. f_equal. f_equal.
  rewrite (Z.land_ones _ 32) by lia. apply Z.mod_small, Hx.
Qed.

Lemma SHR_eq x n : 0 <= n -> in_word p256 x -> SHR x n = shr n x.
Proof. intros Hn Hx. unfold SHR, shr. rewrite (Z.land_ones _ 32), Z.mod_small, Z.shiftr_div_pow2 by (done || apply Hx || lia). done. Qed.

Lemma P_round a b c d e f g h x K :
  in_word p256 a -> in_word p256 e ->
  sha2_round p256 (Regs a b c d e f g h) (K, x) =
    Regs (P a b c d e f g h x K).2 a b c (P a b c d e f g h x K).1 e f g.
Proof.
  intros Ha He. unfold sha2_round, P, S2, S3, F0, F1, Sigma. cbn [rA rB rC rD rE rF rG rH fst snd p256 big0 big1].
  rewrite Ch_bits, Maj_bits, !ROTR_eq by (done || lia). done.
Qed.

Section Block.
Context (M full : list Z) (FM : Forall (in_word p256) M) (HS : scheduled p256 64 M full).

Definition rnd (r : regs) (t : Z) : regs := sha2_round p256 r (sha256_K !!! Z.to_nat t, full !!! Z.to_nat t).

(** The words of W that are set agree with the schedule. *)
Definition words_set (t : Z) (W : list Z) : Prop :=
  length W = 64%nat /\ take (Nat.max 16 (Z.to_nat t)) W = take (Nat.max 16 (Z.to_nat t)) full.

Lemma R_set t W : 0 <= t < 64 -> words_set t W -> words_set (t + 1) (R W t) /\ R W t !!! Z.to_nat t = full !!! Z.to_nat t.
Proof using FM HS.
  intros Ht [L E]. pose proof HS as (Lf & _ & _). unfold R.
  destruct (Z.ltb_spec t 16).
  - replace (Nat.max 16 (Z.to_nat t)) with 16%nat in E by lia.
    split; [split; [done|]|]; [by replace (Nat.max 16 (Z.to_nat (t + 1))) with 16%nat by lia|].
    rewrite <- (lookup_total_take_lt W 16 (Z.to_nat t)), E, lookup_total_take_lt by lia. done.
  - replace (Nat.max 16 (Z.to_nat t)) with (Z.to_nat t) in E by lia.
    assert (forall j, 0 <= j < t -> W !!! Z.to_nat j = full !!! Z.to_nat j) as Ej.
    { intros j Hj. rewrite <- (lookup_total_take_lt W (Z.to_nat t) (Z.to_nat j)), E, lookup_total_take_lt by lia. done. }
    assert (forall j, 0 <= j < 64 -> in_word p256 (full !!! Z.to_nat j)) as Fw.
    { intros j Hj. apply (Forall_lookup_total_1 _ _ _ (scheduled_words p256 eq_refl _ _ _ HS FM)). lia. }
    set (w := u32 _). assert (w = full !!! Z.to_nat t) as Ew.
    { unfold w. rewrite !Ej by lia. unfold S0, S1. rewrite !ROTR_eq, !SHR_eq by (lia || apply Fw; lia).
      rewrite (next_word_at p256 full 64 M (Z.to_nat t) HS) by lia. unfold wrap, u32, sigma. cbn [p256 w_bits small0 small1 fst snd].
      replace (Z.to_nat t - 2)%nat with (Z.to_nat (t - 2)) by lia. replace (Z.to_nat t - 7)%nat with (Z.to_nat (t - 7)) by lia.
      replace (Z.to_nat t - 15)%nat with (Z.to_nat (t - 15)) by lia. replace (Z.to_nat t - 16)%nat with (Z.to_nat (t - 16)) by lia.
      done. }
    clearbody w. subst w. split; [|rewrite list_lookup_total_insert_eq by lia; done]. split; [by rewrite length_insert|].
    replace (Nat.max 16 (Z.to_nat (t + 1))) with (S (Z.to_nat t)) by lia.
    rewrite !(take_S_r _ _ (full !!! Z.to_nat t)).
    + f_equal. rewrite take_insert_ge by lia. done.
    + apply list_lookup_lookup_total_lt. lia.
    + rewrite list_lookup_insert_eq by lia. done.
Qed.

(** One use of P, with the word it takes. *)
Lemma P_step t a b c d e f g h W :
  0 <= t < 64 -> regs_ok p256 (Regs a b c d e f g h) -> words_set t W ->
  exists d' h' W', R W t = W' /\ P a b c d e f g h (W' !!! Z.to_nat t) (sha256_K !!! Z.to_nat t) = (d', h') /\
    rnd (Regs a b c d e f g h) t = Regs h' a b c d' e f g /\ regs_ok p256 (Regs h' a b c d' e f g) /\ words_set (t + 1) W'.
Proof using FM HS.
  intros Ht Hr HW. destruct (R_set t W Ht HW) as [HW' Ew]. set (W' := R W t) in *.
  destruct (P a b c d e f g h (W' !!! Z.to_nat t) (sha256_K !!! Z.to_nat t)) as [d' h'] eqn:EP.
  exists d', h', W'. assert (rnd (Regs a b c d e f g h) t = Regs h' a b c d' e f g) as Er.
  { unfold rnd. unfold regs_ok, regs_list in Hr. cbn in Hr. rewrite !Forall_cons in Hr. destruct Hr as (? & ? & ? & ? & ? & ? & ? & ? & _).
    rewrite P_round, <- Ew, EP by done. done. }
  split_and!; try done. rewrite <- Er. apply regs_ok_round; done.
Qed.

Ltac p_step := lazymatch goal with
  HW : words_set ?t ?W, Hr : regs_ok _ (Regs ?a ?b ?c ?d ?e ?f ?g ?h) |- _ =>
    let d' := fresh "d" in let h' := fresh "h" in let W' := fresh "W" in
    let E1 := fresh in let E2 := fresh in let E3 := fresh in let Hr' := fresh in let HW' := fresh in
    destruct (P_step t a b c d e f g h W ltac:(lia) Hr HW) as (d' & h' & W' & E1 & E2 & E3 & Hr' & HW');
    rewrite E1; cbv zeta; rewrite E2, E3; clear E1 E2 E3 Hr HW;
    rewrite <- Z.add_assoc in HW';
    lazymatch type of HW' with context [?i + 1] => let j := eval vm_compute in (i + 1) in change (i + 1) with j in HW' end
  end.

Lemma eight_ok t r W :
  0 <= t <= 56 -> regs_ok p256 r -> words_set t W ->
  exists r' W', eight (r, W) t = (r', W') /\
    r' = fold_left rnd [t + 0; t + 1; t + 2; t + 3; t + 4; t + 5; t + 6; t + 7] r /\ regs_ok p256 r' /\ words_set (t + 8) W'.
Proof using FM HS.
  intros Ht Hr HW. destruct r as [A B C D E F G H]. unfold eight. rewrite <- (Z.add_0_r t) in HW. cbn [fold_left].
  do 8 p_step. eauto 6.
Qed.

(** The whole block: eight groups are the 64 rounds. *)
Lemma eights_ok r W :
  regs_ok p256 r -> words_set 0 W ->
  exists W', fold_left eight [0; 8; 16; 24; 32; 40; 48; 56] (r, W) =
    (fold_left (sha2_round p256) (combine (round_k p256) full) r, W').
Proof using FM HS.
  intros Hr HW. destruct HS as (L & _ & _). rewrite sha256_K_eq, (combine_lookup _ _ 64), fold_left_map by done.
  set (group t := [t + 0; t + 1; t + 2; t + 3; t + 4; t + 5; t + 6; t + 7]).
  assert (forall l a, fold_left (fun a x => sha2_round p256 a (sha256_K !!! x, full !!! x)) l a = fold_left rnd (map Z.of_nat l) a) as ->.
  { intros l a. rewrite fold_left_map. unfold rnd. revert a. induction l as [|x l IH]; intros a; [done|].
    cbn [fold_left]. by rewrite Nat2Z.id, IH. }
  change (map Z.of_nat (seq 0 64)) with (group 0 ++ group 8 ++ group 16 ++ group 24 ++ group 32 ++ group 40 ++ group 48 ++ group 56).
  rewrite !fold_left_app.
  assert (forall t ts W r, 0 <= t <= 56 -> regs_ok p256 r -> words_set t W ->
    exists W', fold_left eight (t :: ts) (r, W) = fold_left eight ts (fold_left rnd (group t) r, W') /\
      regs_ok p256 (fold_left rnd (group t) r) /\ words_set (t + 8) W') as Step.
  { intros t ts W0 r0 Ht Hr0 HW0. destruct (eight_ok t r0 W0) as (r' & W' & E & -> & Hr' & HW'); [done..|].
    exists W'. cbn [fold_left]. by rewrite E. }
  do 8 (lazymatch goal with HW : words_set _ ?W, Hr : regs_ok _ ?r |- context [fold_left eight (?t :: ?ts) _] =>
    let W' := fresh "W" in let E := fresh in let Hr' := fresh in let HW' := fresh in
    destruct (Step t ts W r ltac:(lia) Hr HW) as (W' & E & Hr' & HW'); rewrite E; clear Hr HW E end).
  eexists. reflexivity.
Qed.
End Block.

(** The code compresses a block as the standard does. *)
Lemma process_one_compress st data :
  state_ok p256 st -> bytes data -> len data = 64 -> sha256_process_one st data = sha2_compress p256 st data.
Proof.
  intros [Ls Fs] Fd Ld. unfold sha256_process_one, sha2_compress.
  assert (map (fun i => GET_UINT32_BE data (4 * Z.of_nat i)) (seq 0 16) = block_words p256 data) as ->.
  { unfold block_words. apply map_ext_in. intros i Hi%in_seq. change (word_bytes p256) with 4.
    apply GET_UINT32_BE_load; [lia|lia|done]. }
  set (M := block_words p256 data).
  destruct (block_words_ok p256 eq_refl data) as [LM FM]; [done..|]. fold M in LM, FM.
  pose proof (schedule_scheduled p256 64 M ltac:(lia) (f_equal length sha256_K_eq) LM) as HS. generalize dependent (schedule p256 M). intros full HS.
  destruct (eights_ok M full FM HS (regs_of st) (M ++ replicate 48 0)) as (W' & E).
  - by apply regs_of_ok.
  - split; [rewrite length_app, LM; done|]. destruct HS as (_ & E16 & _). change (Nat.max 16 (Z.to_nat 0)) with 16%nat. rewrite E16.
    by rewrite take_app_le, take_ge by lia.
  - rewrite E. done.
Qed.

(** * Streaming *)

(** An update feeds the buffer and counts the bytes. *)
Lemma update_feed ctx input n :
  0 <= n <= len input -> 0 <= total0 ctx -> n <> 0 ->
  let t0 := u32 (total0 ctx + n) in
  let f := feed 64 sha256_process_one (state ctx) (buffer ctx) (total0 ctx mod 64) (slice input 0 n) in
  sha256_update ctx input n =
    {| total0 := t0; total1 := if t0 <? n then u32 (total1 ctx + 1) else total1 ctx; state := f.1; buffer := f.2 |}.
Proof.
  intros Hn H0 Hz. unfold sha256_update. destruct (Z.eqb_spec n 0); [done|].
  rewrite (Z.land_ones _ 6), (Z.land_ones _ 32) by lia. rewrite (Z.mod_small (u32 _)) by apply u32_range.
  change (2 ^ 6) with 64. rewrite block_update_feed by (done || lia || apply Z.mod_pos_bound; lia).
  cbv zeta. by destruct (feed _ _ _ _ _ _).
Qed.

Lemma sha256_init_eq ctx : state (sha256_starts ctx) = sha256_init.
Proof. vm_compute. reflexivity. Qed.

Lemma sha256_init_ok : state_ok p256 sha256_init.
Proof.
  rewrite <- (sha256_init_eq {| total0 := 0; total1 := 0; state := []; buffer := [] |}).
  split; [done|]. cbn [sha256_starts state]. repeat (apply Forall_cons; split; [split; [lia|reflexivity]|]). apply Forall_nil. done.
Qed.

(** A context that has been given the bytes of [m]. *)
Record sha256_holds (ctx : sha256_context) (m : list Z) : Prop := {
  sh_bytes : bytes m;
  sh_total0 : 0 <= total0 ctx < 4294967296;
  sh_total1 : 0 <= total1 ctx < 4294967296;
  sh_total : total1 ctx * 4294967296 + total0 ctx = u64 (len m);
  sh_buffered : buffered 64 sha256_process_one sha256_init m (state ctx) (buffer ctx);
}.

Lemma sha256_starts_holds ctx : len (buffer ctx) = 64 -> sha256_holds (sha256_starts ctx) [].
Proof.
  intros L. split; cbn [sha256_starts total0 total1 state buffer]; [constructor|lia|lia|done|].
  split; [done|]. change (len [] mod 64) with 0. rewrite slice_empty by lia.
  rewrite <- (sha256_init_eq ctx).
  apply absorbed_init. lia.
Qed.

Lemma sha256_update_holds ctx m input n :
  sha256_holds ctx m -> bytes input -> 0 <= n <= len input -> n < 4294967296 ->
  sha256_holds (sha256_update ctx input n) (m ++ slice input 0 n).
Proof.
  intros H Fb Hn Hl. destruct (Z.eq_dec n 0) as [-> |Hz].
  { rewrite slice_empty, app_nil_r by lia. exact H. }
  destruct H as [Hm H0 H1 Ht Hb]. rewrite update_feed by (done || lia). cbv zeta.
  assert (total0 ctx mod 64 = len m mod 64) as E.
  { assert (total0 ctx = len m mod 4294967296) as -> by wrap_lia. zlia. }
  split; cbn [total0 total1 state buffer].
  - apply Forall_app; split; [done|]. by apply Forall_take, Forall_drop.
  - apply u32_range.
  - case_Z; [apply u32_range|done].
  - rewrite length_app, Nat2Z.inj_add, slice_length by lia.
    assert (0 <= len m) by lia. generalize dependent (len m). intros l. intros.
    clear - H0 H1 Ht Hl Hn Hz. unfold u64 in *. rewrite Z.sub_0_r, <- Zplus_mod_idemp_l, <- Ht.
    unfold u32. case_Z; zlia.
  - rewrite E. by apply feed_ok.
Qed.

Lemma padding_bytes r n :
  0 <= n -> r = n mod 64 ->
  slice sha256_padding 0 (if r <? 56 then 56 - r else 120 - r) ++ be_bytes 8 (8 * n) = sha2_pad p256 n.
Proof.
  intros Hn E. unfold sha256_padding. rewrite (padding_zeros r n Hn E). unfold sha2_pad. rewrite app_assoc.
  by change (word_bytes p256) with 4.
Qed.

Lemma SHA256_length m : length (SHA256 m) = 32%nat.
Proof. apply (sha2_hash_length p256 eq_refl sha256_init m), sha256_init_ok. Qed.

Lemma sha256_finish_hash ctx m digest :
  sha256_holds ctx m -> (32 <= length digest)%nat ->
  (sha256_finish ctx digest).1 = SHA256 m ++ drop 32 digest /\ len (buffer (sha256_finish ctx digest).2) = 64.
Proof.
  intros H Ld. pose proof H as [Hm H0 H1 Ht Hb]. unfold sha256_finish. rewrite (msglen_bytes _ _ (len m)) by done.
  rewrite (Z.land_ones _ 6) by lia. change (2 ^ 6) with 64. cbv zeta. cbn [fst snd].
  assert (total0 ctx mod 64 = len m mod 64) as E.
  { assert (total0 ctx = len m mod 4294967296) as -> by wrap_lia. zlia. }
  set (padn := if total0 ctx mod 64 <? 56 then 56 - total0 ctx mod 64 else 120 - total0 ctx mod 64). set (ctx1 := sha256_update ctx sha256_padding padn).
  set (ctx2 := sha256_update ctx1 (be_bytes 8 (8 * len m)) 8).
  assert (sha256_holds ctx2 (m ++ sha2_pad p256 (len m))) as H2.
  { rewrite <- (padding_bytes (total0 ctx mod 64)), app_assoc by lia. fold padn.
    assert (0 < padn <= 64) by (unfold padn; pose proof (Z.mod_pos_bound (total0 ctx) 64 ltac:(lia)); case_Z; lia).
    rewrite <- (slice_all (be_bytes 8 (8 * len m))), be_bytes_length.
    apply sha256_update_holds; [|apply be_bytes_bytes|rewrite be_bytes_length; lia|lia].
    apply sha256_update_holds; [done| |cbn; lia|lia]. vm_compute. repeat constructor; intros [=]. }
  assert (64 | len (m ++ sha2_pad p256 (len m))) as Hd.
  { apply (sha2_pad_whole p256 m). done. }
  destruct H2 as [Fp _ _ _ [Lb Ha]]. split; [|exact Lb]. apply absorbed_done in Ha; [|lia|done].
  set (q := m ++ sha2_pad p256 (len m)) in *.
  assert (state ctx2 = iterate 64 (sha2_compress p256) sha256_init q) as Es.
  { rewrite Ha. unfold iterate. apply process_ext with (P := state_ok p256); [lia| | |done|].
    - intros st blk Hs Fb Lblk. split; [by apply process_one_compress|by apply compress_ok].
    - apply sha256_init_ok.
    - zlia. }
  assert (state_ok p256 (state ctx2)) as [Ls _].
  { rewrite Es. apply iterate_ok; [done|apply sha256_init_ok]. }
  unfold SHA256, sha2_hash. change (m ++ sha2_pad p256 (len m)) with q. change (16 * word_bytes p256) with 64. rewrite <- Es.
  change (Z.to_nat (word_bytes p256)) with 4%nat. pose proof (put_words 4 (state ctx2) 8 digest) as Hp.
  rewrite take_ge in Hp by lia. change (8 * 4)%nat with 32%nat in Hp. rewrite <- Hp by lia.
  apply fold_left_ext_len with (n := length digest); [|done]. intros d i Hi%in_seq Hd'. change (Z.of_nat 4) with 4.
  rewrite PUT_UINT32_BE_store by lia. split; [done|]. rewrite store_length; rewrite ?be_bytes_length; lia.
Qed.

Lemma sha256_finish_ok ctx m :
  sha256_holds ctx m ->
  (sha256_finish ctx (replicate 32 0)).1 = SHA256 m /\ len (buffer (sha256_finish ctx (replicate 32 0)).2) = 64.
Proof.
  intros H. apply (sha256_finish_hash ctx m (replicate 32 0)) in H; [|done]. by rewrite drop_ge, app_nil_r in H.
Qed.

#[global] Instance sha256_digest : Digest := {|
  dctx := sha256_context;
  d_starts := sha256_starts;
  d_update := sha256_update;
  d_finish := fun c => sha256_finish c (replicate 32 0);
  d_hash := SHA256;
  d_max := 4294967296;
  d_ctx := fun c => len (buffer c) = 64;
  d_holds := sha256_holds;
  d_starts_ok := sha256_starts_holds;
  d_update_ok := sha256_update_holds;
  d_max_ok := ltac:(lia);
  d_finish_ok := sha256_finish_ok;
|}.

Definition sha256_csum_wd (wd : bool) (fuel : nat) (ctx : sha256_context) (input : list Z) (ilen chunk_sz : Z) : option (list Z) :=
  csum_wd (D := sha256_digest) wd fuel ctx input ilen chunk_sz.

(** * HMAC *)

Lemma hmac_pass ctx pad d digest :
  len (buffer ctx) = 64 -> bytes pad -> len pad = 64 -> bytes d -> len d < 4294967296 -> length digest = 32%nat ->
  let r := sha256_finish (sha256_update (sha256_update (sha256_starts ctx) pad 64) d (len d)) digest in
  r.1 = SHA256 (pad ++ d) /\ len (buffer r.2) = 64.
Proof.
  intros Hc Fp Lp Fd Ld Lg. cbv zeta.
  pose proof (sha256_update_holds _ [] pad 64 (sha256_starts_holds ctx Hc) Fp ltac:(lia) ltac:(lia)) as H.
  rewrite <- Lp, slice_all, Lp in H. pose proof (sha256_update_holds _ _ d (len d) H Fd ltac:(lia) Ld) as H'.
  rewrite slice_all in H'. apply (sha256_finish_hash _ _ digest) in H'; [|lia].
  by rewrite (drop_ge digest), app_nil_r in H' by lia.
Qed.

Lemma SHA256_bytes m : bytes (SHA256 m).
Proof. unfold SHA256, sha2_hash. apply concat_be_bytes. Qed.

Lemma hmac_keybuf_key ctx keybuf key :
  len (buffer ctx) = 64 -> length keybuf = 64%nat -> bytes key -> len key < 4294967296 ->
  let '(kb, n, ctx') := hmac_keybuf ctx keybuf key (len key) in
  0 <= n <= 64 /\ n <= len kb /\ len (buffer ctx') = 64 /\
  take (Z.to_nat n) kb ++ replicate (64 - Z.to_nat n) 0 = hmac_key (D := sha256_digest) 64 key.
Proof.
  intros Hc Lk Fk Hk. unfold hmac_keybuf, hmac_key. cbn [d_hash sha256_digest]. destruct (Z.ltb_spec 64 (len key)).
  - pose proof (sha256_update_holds _ [] key (len key) (sha256_starts_holds ctx Hc) Fk ltac:(lia) Hk) as H'.
    rewrite slice_all in H'. apply (sha256_finish_hash _ _ keybuf) in H'; [|lia].
    destruct (sha256_finish (sha256_update _ key _) keybuf) as [kb c]. cbn [fst snd app] in H'. destruct H' as [-> H'].
    rewrite length_app, SHA256_length. split_and!; [lia|lia|lia|done|].
    rewrite take_app_le, take_ge by (rewrite SHA256_length; lia). done.
  - rewrite slice_all. split_and!; [lia|lia|rewrite store_length; rewrite ?length_replicate; lia|done|]. f_equal.
    + unfold store. change (Z.to_nat 0) with 0%nat. rewrite take_0, Nat2Z.id. cbn [app]. apply take_app_length.
    + f_equal. lia.
Qed.

Lemma hmac_key_ok key : bytes key -> length (hmac_key (D := sha256_digest) 64 key) = 64%nat /\ bytes (hmac_key (D := sha256_digest) 64 key).
Proof.
  intros Fk. unfold hmac_key. cbn [d_hash sha256_digest]. set (k := if _ <? _ then _ else _).
  assert (bytes k /\ len k <= 64) as [Fb Lb].
  { unfold k. case_Z; [|split; [done|lia]]. split; [apply SHA256_bytes|]. rewrite SHA256_length. lia. }
  split; [rewrite length_app, length_replicate; lia|]. apply Forall_app. split; [done|]. by apply Forall_replicate.
Qed.

(** C27: sha256_hmac is the HMAC of RFC 2104 on SHA-256, whatever its local
    buffers held: keys longer than a block are hashed first. *)
Theorem sha256_hmac_rfc2104 ctx keybuf key input tmpbuf output :
  len (buffer ctx) = 64 -> length keybuf = 64%nat -> length tmpbuf = 32%nat -> length output = 32%nat ->
  bytes key -> len key < 2147483648 -> bytes input -> len input < 4294967296 ->
  sha256_hmac ctx keybuf key (len key) input (len input) tmpbuf output = (hmac (D := sha256_digest) 64 key input, 0).
Proof.
  intros Hc Lk Lt Lo Fk Hk Fi Hi. unfold sha256_hmac.
  pose proof (hmac_keybuf_key ctx keybuf key Hc Lk Fk ltac:(lia)) as H.
  destruct (hmac_keybuf ctx keybuf key (len key)) as [[kb n] ctx']. destruct H as (Hn & Hkb & Hc' & Ek).
  destruct (hmac_key_ok key Fk) as [L F]. rewrite !xor_key_map, Ek by lia. unfold hmac. cbn [d_hash sha256_digest].
  generalize dependent (hmac_key (D := sha256_digest) 64 key). intros k _ L F.
  assert (forall c, len (xor_bytes c k) = 64) as Lx by (intros c; unfold xor_bytes; rewrite length_map; lia).
  destruct (hmac_pass ctx' (xor_bytes 54 k) input tmpbuf) as [E1 E2]; [done|by apply xor_bytes_bytes|done..|].
  destruct (sha256_finish _ tmpbuf) as [tmp ctx2]. cbn [fst snd] in E1, E2. subst tmp.
  destruct (hmac_pass ctx2 (xor_bytes 92 k) (SHA256 (xor_bytes 54 k ++ input)) output) as [E3 _];
    [done|by apply xor_bytes_bytes|done|apply SHA256_bytes|rewrite SHA256_length; lia|done|].
  rewrite SHA256_length in E3. change (Z.of_nat 32) with 32 in E3.
  destruct (sha256_finish _ output) as [o c3]. cbn [fst] in E3. by subst o.
Qed.

Lemma sha256_hmac_rfc2104_witness :
  let c := {| total0 := 7; total1 := 9; state := replicate 8 1; buffer := replicate 64 3 |} in
  sha256_hmac c (replicate 64 5) [74; 101; 102; 101] 4 [119; 104; 97; 116] 4 (replicate 32 1) (replicate 32 2) =
    (hmac (D := sha256_digest) 64 [74; 101; 102; 101] [119; 104; 97; 116], 0) /\
  sha256_hmac c (replicate 64 5) (replicate 131 170) 131 [119] 1 (replicate 32 1) (replicate 32 2) =
    (hmac (D := sha256_digest) 64 (replicate 131 170) [119], 0).
Proof.
  cbv zeta. split.
  - apply (sha256_hmac_rfc2104 _ _ [74; 101; 102; 101] [119; 104; 97; 116]);
      try reflexivity; repeat constructor; intros [=].
  - apply (sha256_hmac_rfc2104 _ _ (replicate 131 170) [119]);
      try reflexivity; repeat constructor; intros [=].
Defined.

(** * The digest *)

(** C24: the digest of a message that arrives in pieces of any sizes is its
    SHA-256 by the definition of FIPS 180-4: buffering, the byte counter and
    its carry, the padding and the unrolled rounds with their constants
    compute the standard's function. *)
Theorem sha256_streams ctx msgs digest :
  len (buffer ctx) = 64 -> length digest = 32%nat ->
  Forall (fun d => bytes d /\ len d < 4294967296) msgs ->
  (sha256_finish (fold_left (fun c d => sha256_update c d (len d)) msgs (sha256_starts ctx)) digest).1 =
    SHA256 (concat msgs).
Proof.
  intros Hc Ld F. pose proof (d_pieces_holds (D := sha256_digest) msgs (sha256_starts ctx) []) as H.
  specialize (H (sha256_starts_holds ctx Hc) F). apply (sha256_finish_hash _ _ digest) in H; [|lia].
  rewrite drop_ge, app_nil_r in H by lia. apply H.
Qed.

(** The test vector of the standard, in two pieces. *)
Lemma sha256_streams_witness :
  let c := {| total0 := 7; total1 := 9; state := replicate 8 1; buffer := replicate 64 3 |} in
  (sha256_finish (sha256_update (sha256_update (sha256_starts c) [97; 98] 2) [99] 1) (replicate 32 0)).1 = SHA256 [97; 98; 99] /\
  SHA256 [97; 98; 99] = [186; 120; 22; 191; 143; 1; 207; 234; 65; 65; 64; 222; 93; 174; 34; 35;
                         176; 3; 97; 163; 150; 23; 122; 156; 180; 16; 255; 97; 242; 0; 21; 173].
Proof.
  split; [|vm_compute; reflexivity].
  apply (sha256_streams _ [[97; 98]; [99]]); try reflexivity. repeat constructor; intros [=].
Defined.
