(* ===== verification/Sha512.v ===== *)
(** SHA-512 and SHA-384 (lib/sha512.c), against the definition of FIPS 180-4
    in [Sha256].

    The schedule is kept in a ring of sixteen words, the length of the
    message in two 64-bit words, and the padding is written into the buffer
    itself.  An update of 2^31 bytes or more is outside what is proved: the
    code then computes [blocks * SHA512_BLOCK_SIZE] in an int, which
    overflows. *)

From S2P Require Import Prelude Bytes Cstring Crc32 Digest Sha256.

(** * The standard *)

Definition sha512_params : sha2_params :=
  {| w_bits := 64; big0 := (28, 34, 39); big1 := (14, 18, 41); small0 := (1, 8, 7); small1 := (19, 61, 6);
     round_k := map (cbrt_frac 64) (take 80 primes) |}.
Definition sha512_init : list Z := map (sqrt_frac 64) (take 8 primes).
Definition sha384_init : list Z := map (sqrt_frac 64) (take 8 (drop 8 primes)).
Definition SHA512 (m : list Z) : list Z := sha2_hash sha512_params sha512_init m.
(** The first six words. *)
Definition SHA384 (m : list Z) : list Z := take 48 (sha2_hash sha512_params sha384_init m).

(** * The code *)

Record sha512_context := { h_state : list Z; count0 : Z; count1 : Z; h_buf : list Z }.
Definition set_state (s : list Z) (c : sha512_context) : sha512_context :=
  {| h_state := s; count0 := count0 c; count1 := count1 c; h_buf := h_buf c |}.
Definition set_count (c0 c1 : Z) (c : sha512_context) : sha512_context :=
  {| h_state := h_state c; count0 := c0; count1 := c1; h_buf := h_buf c |}.
Definition set_buf (b : list Z) (c : sha512_context) : sha512_context :=
  {| h_state := h_state c; count0 := count0 c; count1 := count1 c; h_buf := b |}.

Definition Ch (x y z : Z) : Z := Z.lxor z (Z.land x (Z.lxor y z)).
Definition Maj (x y z : Z) : Z := Z.lor (Z.land x y) (Z.land z (Z.lor x y)).

Definition sha512_K : list Z :=
  [
   4794697086780616226; 8158064640168781261; 13096744586834688815;
   16840607885511220156; 4131703408338449720; 6480981068601479193;
   10538285296894168987; 12329834152419229976; 15566598209576043074;
   1334009975649890238; 2608012711638119052; 6128411473006802146;
   8268148722764581231; 9286055187155687089; 11230858885718282805;
   13951009754708518548; 16472876342353939154; 17275323862435702243;
   1135362057144423861; 2597628984639134821; 3308224258029322869;
   5365058923640841347; 6679025012923562964; 8573033837759648693;
   10970295158949994411; 12119686244451234320; 12683024718118986047;
   13788192230050041572; 14330467153632333762; 15395433587784984357;
   489312712824947311; 1452737877330783856; 2861767655752347644;
   3322285676063803686; 5560940570517711597; 5996557281743188959;
   7280758554555802590; 8532644243296465576; 9350256976987008742;
   10552545826968843579; 11727347734174303076; 12113106623233404929;
   14000437183269869457; 14369950271660146224; 15101387698204529176;
   15463397548674623760; 17586052441742319658; 1182934255886127544;
   1847814050463011016; 2177327727835720531; 2830643537854262169;
   3796741975233480872; 4115178125766777443; 5681478168544905931;
   6601373596472566643; 7507060721942968483; 8399075790359081724;
   8693463985226723168; 9568029438360202098; 10144078919501101548;
   10430055236837252648; 11840083180663258601; 13761210420658862357;
   14299343276471374635; 14566680578165727644; 15097957966210449927;
   16922976911328602910; 17689382322260857208; 500013540394364858;
   748580250866718886; 1242879168328830382; 1977374033974150939;
   2944078676154940804; 3659926193048069267; 4368137639120453308;
   4836135668995329356; 5532061633213252278; 6448918945643986474;
   6902733635092675308; 7801388544844847127].

Definition ror64 (word shift : Z) : Z :=
  Z.lor (Z.shiftr word (Z.land shift 63)) (u64 (Z.shiftl word (Z.land (u32 (- shift)) 63))).

Definition e0 (x : Z) : Z := Z.lxor (Z.lxor (ror64 x 28) (ror64 x 34)) (ror64 x 39).
Definition e1 (x : Z) : Z := Z.lxor (Z.lxor (ror64 x 14) (ror64 x 18)) (ror64 x 41).
Definition s0 (x : Z) : Z := Z.lxor (Z.lxor (ror64 x 1) (ror64 x 8)) (Z.shiftr x 7).
Definition s1 (x : Z) : Z := Z.lxor (Z.lxor (ror64 x 19) (ror64 x 61)) (Z.shiftr x 6).

Definition GET_UINT64_BE (b : list Z) (i : Z) : Z :=
  Z.lor (Z.lor (Z.lor (Z.lor (Z.lor (Z.lor (Z.lor
    (Z.shiftl (b !!! Z.to_nat i) 56) (Z.shiftl (b !!! Z.to_nat (i + 1)) 48))
    (Z.shiftl (b !!! Z.to_nat (i + 2)) 40)) (Z.shiftl (b !!! Z.to_nat (i + 3)) 32))
    (Z.shiftl (b !!! Z.to_nat (i + 4)) 24)) (Z.shiftl (b !!! Z.to_nat (i + 5)) 16))
    (Z.shiftl (b !!! Z.to_nat (i + 6)) 8)) (b !!! Z.to_nat (i + 7)).

Definition PUT_UINT64_BE (n : Z) (b : list Z) (i : Z) : list Z :=
  fold_left (fun b j => <[Z.to_nat (i + j) := u8 (Z.shiftr n (56 - 8 * j))]> b) [0; 1; 2; 3; 4; 5; 6; 7] b.

Definition LOAD_OP (I : Z) (W input : list Z) : list Z := <[Z.to_nat I := GET_UINT64_BE input (I * 8)]> W.

Definition BLEND_OP (I : Z) (W : list Z) : list Z :=
  <[Z.to_nat (Z.land I 15) := u64 (W !!! Z.to_nat (Z.land I 15) + (s1 (W !!! Z.to_nat (Z.land (I - 2) 15)) +
     W !!! Z.to_nat (Z.land (I - 7) 15) + s0 (W !!! Z.to_nat (Z.land (I - 15) 15))))]> W.

(** Two lines of the loop: t1, t2, and the new values of d and h. *)
Definition round_step (a b c d e f g h k w : Z) : Z * Z :=
  let t1 := u64 (h + e1 e + Ch e f g + k + w) in
  let t2 := u64 (e0 a + Maj a b c) in
  (u64 (d + t1), u64 (t1 + t2)).

Definition upto16 : list Z := [0; 1; 2; 3; 4; 5; 6; 7; 8; 9; 10; 11; 12; 13; 14; 15].

(** W at the start of a turn. *)
Definition turn_words (input : list Z) (i : Z) (W : list Z) : list Z :=
  if Z.land i 8 =? 0 then
    if i <? 16 then fold_left (fun W j => LOAD_OP (i + j) W input) upto16 W
    else fold_left (fun W j => BLEND_OP (i + j) W) upto16 W
  else W.

(** One turn of the loop on i. *)
Definition sha512_eight (input : list Z) (rW : regs * list Z) (i : Z) : regs * list Z :=
  let '(Regs a b c d e f g h, W) := rW in
  let W := turn_words input i W in
  let '(d, h) := round_step a b c d e f g h (sha512_K !!! Z.to_nat (i + 0)) (W !!! Z.to_nat (Z.land i 15 + 0)) in
  let '(c, g) := round_step h a b c d e f g (sha512_K !!! Z.to_nat (i + 1)) (W !!! Z.to_nat (Z.land i 15 + 1)) in
  let '(b, f) := round_step g h a b c d e f (sha512_K !!! Z.to_nat (i + 2)) (W !!! Z.to_nat (Z.land i 15 + 2)) in
  let '(a, e) := round_step f g h a b c d e (sha512_K !!! Z.to_nat (i + 3)) (W !!! Z.to_nat (Z.land i 15 + 3)) in
  let '(h, d) := round_step e f g h a b c d (sha512_K !!! Z.to_nat (i + 4)) (W !!! Z.to_nat (Z.land i 15 + 4)) in
  let '(g, c) := round_step d e f g h a b c (sha512_K !!! Z.to_nat (i + 5)) (W !!! Z.to_nat (Z.land i 15 + 5)) in
  let '(f, b) := round_step c d e f g h a b (sha512_K !!! Z.to_nat (i + 6)) (W !!! Z.to_nat (Z.land i 15 + 6)) in
  let '(e, a) := round_step b c d e f g h a (sha512_K !!! Z.to_nat (i + 7)) (W !!! Z.to_nat (Z.land i 15 + 7)) in
  (Regs a b c d e f g h, W).

(** The words of W are set before they are read. *)
Definition sha512_transform (state input : list Z) : list Z :=
  let '(r, _) := fold_left (sha512_eight input) [0; 8; 16; 24; 32; 40; 48; 56; 64; 72] (regs_of state, replicate 16 0) in
  zip_with (fun x y => u64 (x + y)) state (regs_list r).

Fixpoint sha512_block_fn (sst : sha512_context) (src : list Z) (blocks : nat) : sha512_context :=
  match blocks with
  | O => sst
  | S blocks => sha512_block_fn (set_state (sha512_transform (h_state sst) (slice src 0 128)) sst) (drop 128 src) blocks
  end.

(** [partial + len] is an unsigned int. *)
Definition sha512_base_do_update (sctx : sha512_context) (data : list Z) (n : Z) : sha512_context :=
  let partial := u32 (count0 sctx mod 128) in
  let c0 := u64 (count0 sctx + n) in
  let c1 := if c0 <? n then u64 (count1 sctx + 1) else count1 sctx in
  let sctx := set_count c0 c1 sctx in
  let '(sctx, data, n, partial) :=
    if 128 <=? u32 (partial + n) then
      let '(sctx, data, n) :=
        if negb (partial =? 0) then
          let p := 128 - partial in
          let sctx := set_buf (store (h_buf sctx) partial (slice data 0 p)) sctx in
          (sha512_block_fn sctx (h_buf sctx) 1, drop (Z.to_nat p) data, n - p)
        else (sctx, data, n) in
      let blocks := n / 128 in
      let n := n mod 128 in
      let '(sctx, data) :=
        if negb (blocks =? 0) then (sha512_block_fn sctx data (Z.to_nat blocks), drop (Z.to_nat (blocks * 128)) data)
        else (sctx, data) in
      (sctx, data, n, 0)
    else (sctx, data, n, partial) in
  if negb (n =? 0) then set_buf (store (h_buf sctx) partial (slice data 0 n)) sctx else sctx.

Definition sha512_base_do_finalize (sctx : sha512_context) : sha512_context :=
  let bit_offset := 112 in
  let partial := u32 (count0 sctx mod 128) in
  let sctx := set_buf (store (h_buf sctx) partial [128]) sctx in
  let partial := partial + 1 in
  let '(sctx, partial) :=
    if bit_offset <? partial then
      let sctx := set_buf (store (h_buf sctx) partial (replicate (Z.to_nat (128 - partial)) 0)) sctx in
      (sha512_block_fn sctx (h_buf sctx) 1, 0)
    else (sctx, partial) in
  let sctx := set_buf (store (h_buf sctx) partial (replicate (Z.to_nat (bit_offset - partial)) 0)) sctx in
  let sctx := set_buf (store (h_buf sctx) bit_offset
    (be_bytes 8 (Z.lor (u64 (Z.shiftl (count1 sctx) 3)) (Z.shiftr (count0 sctx) 61)))) sctx in
  let sctx := set_buf (store (h_buf sctx) (bit_offset + 8) (be_bytes 8 (u64 (Z.shiftl (count0 sctx) 3)))) sctx in
  sha512_block_fn sctx (h_buf sctx) 1.

Definition sha384_starts (ctx : sha512_context) : sha512_context :=
  {| h_state := [14680500436340154072; 7105036623409894663; 10473403895298186519; 1526699215303891257; 7436329637833083697; 10282925794625328401; 15784041429090275239; 5167115440072839076];
     count0 := 0; count1 := 0; h_buf := h_buf ctx |}.
Definition sha384_update (ctx : sha512_context) (input : list Z) (n : Z) : sha512_context := sha512_base_do_update ctx input n.
Definition sha384_finish (ctx : sha512_context) (digest : list Z) : list Z * sha512_context :=
  let ctx := sha512_base_do_finalize ctx in
  (fold_left (fun d i => PUT_UINT64_BE (h_state ctx !!! i) d (Z.of_nat i * 8)) (seq 0 6) digest, ctx).

Definition sha512_starts (ctx : sha512_context) : sha512_context :=
  {| h_state := [7640891576956012808; 13503953896175478587; 4354685564936845355; 11912009170470909681; 5840696475078001361; 11170449401992604703; 2270897969802886507; 6620516959819538809];
     count0 := 0; count1 := 0; h_buf := h_buf ctx |}.
Definition sha512_update (ctx : sha512_context) (input : list Z) (n : Z) : sha512_context := sha512_base_do_update ctx input n.
Definition sha512_finish (ctx : sha512_context) (digest : list Z) : list Z * sha512_context :=
  let ctx := sha512_base_do_finalize ctx in
  (fold_left (fun d i => PUT_UINT64_BE (h_state ctx !!! i) d (Z.of_nat i * 8)) (seq 0 8) digest, ctx).

(** * Words *)

Abbreviation p512 := sha512_params.

Lemma sha512_K_eq : round_k p512 = sha512_K.
Proof. vm_compute. reflexivity. Qed.

Lemma ror64_eq x n : 0 < n < 64 -> in_word p512 x -> ror64 x n = rotr p512 n x.
Proof.
  intros Hn Hx. rewrite <- rotr_bits by done. unfold ror64. rewrite !(Z.land_ones _ 6) by lia.
  replace (n mod 2 ^ 6) with n by (symmetry; apply Z.mod_small; lia).
  by replace (u32 (- n) mod 2 ^ 6) with (w_bits p512 - n) by (cbn [w_bits p512]; unfold u32; change (2 ^ 6) with 64; zlia).
Qed.

Lemma GET_UINT64_BE_load b i :
  0 <= i -> i + 8 <= len b -> bytes b -> GET_UINT64_BE b i = be_load (slice b i (i + 8)).
Proof.
  intros Hi Hl F. rewrite !slice_cons by lia. rewrite slice_empty by lia.
  assert (forall j, 0 <= j < len b -> is_byte (b !!! Z.to_nat j)) as Hb.
  { intros j Hj. apply (Forall_lookup_total_1 _ _ _ F). lia. }
  unfold GET_UINT64_BE, be_load. cbn [fold_left].
  replace (i + 1 + 1) with (i + 2) by lia. replace (i + 2 + 1) with (i + 3) by lia.
  replace (i + 3 + 1) with (i + 4) by lia. replace (i + 4 + 1) with (i + 5) by lia.
  replace (i + 5 + 1) with (i + 6) by lia. replace (i + 6 + 1) with (i + 7) by lia.
  pose proof (Hb i ltac:(lia)) as H0. pose proof (Hb (i + 1) ltac:(lia)) as H1. pose proof (Hb (i + 2) ltac:(lia)) as H2.
  pose proof (Hb (i + 3) ltac:(lia)) as H3. pose proof (Hb (i + 4) ltac:(lia)) as H4. pose proof (Hb (i + 5) ltac:(lia)) as H5.
  pose proof (Hb (i + 6) ltac:(lia)) as H6. pose proof (Hb (i + 7) ltac:(lia)) as H7. unfold is_byte in *.
  rewrite <- !Z.lor_assoc.
  rewrite (lor_shiftl_add (b !!! Z.to_nat (i + 6)) _ 8) by lia. rewrite (lor_shiftl_add (b !!! Z.to_nat (i + 5)) _ 16) by lia.
  rewrite (lor_shiftl_add (b !!! Z.to_nat (i + 4)) _ 24) by lia. rewrite (lor_shiftl_add (b !!! Z.to_nat (i + 3)) _ 32) by lia.
  rewrite (lor_shiftl_add (b !!! Z.to_nat (i + 2)) _ 40) by lia. rewrite (lor_shiftl_add (b !!! Z.to_nat (i + 1)) _ 48) by lia.
  rewrite (lor_shiftl_add (b !!! Z.to_nat i) _ 56) by lia. lia.
Qed.

Lemma store_next (b : list Z) i x xs :
  0 <= i -> i + 1 + len xs <= len b -> store b i (x :: xs) = store (<[Z.to_nat i := x]> b) (i + 1) xs.
Proof.
  intros Hi Hl. apply list_eq. intros j. rewrite !store_lookup by (rewrite ?length_insert; cbn [length]; lia). cbn [length].
  repeat case_decide; try lia; rewrite ?list_lookup_insert_ne by lia; try done.
  - assert (j = Z.to_nat i) as -> by lia. rewrite list_lookup_insert_eq by lia. by rewrite Nat.sub_diag.
  - replace (j - Z.to_nat i)%nat with (S (j - Z.to_nat (i + 1))) by lia. done.
Qed.

Lemma PUT_UINT64_BE_store n b i :
  0 <= i -> i + 8 <= len b -> PUT_UINT64_BE n b i = store b i (be_bytes 8 n).
Proof.
  intros Hi Hl. unfold PUT_UINT64_BE.
  replace (be_bytes 8 n) with (map (fun j => u8 (Z.shiftr n (56 - 8 * j))) [0; 1; 2; 3; 4; 5; 6; 7]).
  2:{ unfold be_bytes. cbn [le_bytes rev app map]. rewrite !Z.shiftr_shiftr by lia.
      rewrite !(Z.land_ones _ 8) by lia. done. }
  cbn [fold_left map]. rewrite !store_next by (rewrite ?length_insert; cbn [length]; lia).
  replace (i + 1 + 1) with (i + 2) by lia. replace (i + 2 + 1) with (i + 3) by lia. replace (i + 3 + 1) with (i + 4) by lia.
  replace (i + 4 + 1) with (i + 5) by lia. replace (i + 5 + 1) with (i + 6) by lia. replace (i + 6 + 1) with (i + 7) by lia.
  rewrite Z.add_0_r. unfold store. cbn [app length]. rewrite Nat.add_0_r. by rewrite take_drop.
Qed.

(** * The compression of a block *)

Lemma round_step_round a b c d e f g h k w :
  in_word p512 a -> in_word p512 e ->
  sha2_round p512 (Regs a b c d e f g h) (k, w) =
    Regs (round_step a b c d e f g h k w).2 a b c (round_step a b c d e f g h k w).1 e f g.
Proof.
  intros Ha He. unfold sha2_round, round_step, e0, e1, Ch, Maj, Sigma. cbn [rA rB rC rD rE rF rG rH fst snd p512 big0 big1].
  rewrite Ch_bits, Maj_bits, !ror64_eq by (done || lia). done.
Qed.

Section Block.
Context (data full : list Z) (FM : Forall (in_word p512) (block_words p512 data)).
Context (HS : scheduled p512 80 (block_words p512 data) full) (Ld : len data = 128) (Fd : bytes data).

Abbreviation window := (ring eq full).
Definition rnd512 (r : regs) (t : Z) : regs := sha2_round p512 r (sha512_K !!! Z.to_nat t, full !!! Z.to_nat t).

Lemma BLEND_window I W : 16 <= I < 80 -> window I W -> window (I + 1) (BLEND_OP I W).
Proof using FM HS.
  intros HI HW. unfold BLEND_OP. rewrite !(Z.land_ones _ 4) by lia. change (2 ^ 4) with 16. apply ring_set; [done|].
  assert (forall j, 0 <= j < 80 -> in_word p512 (full !!! Z.to_nat j)) as Fw.
  { pose proof HS as (L & _ & _). intros j Hj. apply (Forall_lookup_total_1 _ _ _ (scheduled_words p512 eq_refl _ _ _ HS FM)). lia. }
  rewrite (ring_at _ _ _ _ (I - 16) I HW) by (lia || zlia). rewrite (ring_at _ _ _ _ (I - 2) (I - 2) HW) by lia.
  rewrite (ring_at _ _ _ _ (I - 7) (I - 7) HW) by lia. rewrite (ring_at _ _ _ _ (I - 15) (I - 15) HW) by lia.
  unfold s0, s1. rewrite !ror64_eq, !Z.shiftr_div_pow2 by (lia || apply Fw; lia).
  rewrite (next_word_at p512 full 80 _ (Z.to_nat I) HS) by lia. unfold wrap, u64, sigma, shr. cbn [p512 w_bits small0 small1 fst snd].
  replace (Z.to_nat I - 2)%nat with (Z.to_nat (I - 2)) by lia. replace (Z.to_nat I - 7)%nat with (Z.to_nat (I - 7)) by lia.
  replace (Z.to_nat I - 15)%nat with (Z.to_nat (I - 15)) by lia. replace (Z.to_nat I - 16)%nat with (Z.to_nat (I - 16)) by lia.
  f_equal. lia.
Qed.

Lemma BLENDs_window i W : 16 <= i <= 64 -> window i W -> window (i + 16) (fold_left (fun W j => BLEND_OP (i + j) W) upto16 W).
Proof using FM HS.
  intros Hi HW. unfold upto16. cbn [fold_left]. rewrite <- (Z.add_0_r i) in HW.
  do 16 (match goal with H : window (i + ?k) ?W0 |- _ =>
    apply (BLEND_window (i + k) W0 ltac:(lia)) in H; rewrite <- Z.add_assoc in H;
    lazymatch type of H with context [k + 1] => let j := eval vm_compute in (k + 1) in change (k + 1) with j in H end end).
  exact HW.
Qed.

Lemma LOADs_window W : length W = 16%nat -> window 16 (fold_left (fun W j => LOAD_OP (0 + j) W data) upto16 W).
Proof using HS Ld Fd.
  intros L.
  assert (fold_left (fun W j => LOAD_OP (0 + j) W data) upto16 W = map (fun i => full !!! i) (seq 0 16)) as ->.
  { pose proof HS as (Lf & E16 & _). unfold LOAD_OP, upto16. cbn [fold_left].
    assert (forall j, 0 <= j < 16 -> GET_UINT64_BE data ((0 + j) * 8) = full !!! Z.to_nat j) as Ej.
    { intros j Hj. rewrite GET_UINT64_BE_load by (lia || done). rewrite <- (lookup_total_take_lt full 16 (Z.to_nat j)) by lia. rewrite E16.
      unfold block_words. change (word_bytes p512) with 8. rewrite map_seq_total by lia. f_equal. f_equal; lia. }
    rewrite !Ej by lia. do 16 (destruct W as [|? W]; [done|]). destruct W; [|done]. reflexivity. }
  split; [done|]. intros t Ht. rewrite Z.mod_small by lia.
  rewrite map_seq_total by lia. done.
Qed.

Definition eight_rounds (i : Z) (r : regs) : regs :=
  fold_left rnd512 [i + 0; i + 1; i + 2; i + 3; i + 4; i + 5; i + 6; i + 7] r.

Lemma step_ok t a b c d e f g h w :
  regs_ok p512 (Regs a b c d e f g h) -> w = full !!! Z.to_nat t ->
  exists d' h', round_step a b c d e f g h (sha512_K !!! Z.to_nat t) w = (d', h') /\
    rnd512 (Regs a b c d e f g h) t = Regs h' a b c d' e f g /\ regs_ok p512 (Regs h' a b c d' e f g).
Proof using.
  intros Hr ->. destruct (round_step a b c d e f g h (sha512_K !!! Z.to_nat t) (full !!! Z.to_nat t)) as [d' h'] eqn:EP.
  exists d', h'. assert (rnd512 (Regs a b c d e f g h) t = Regs h' a b c d' e f g) as Er.
  { unfold rnd512. unfold regs_ok, regs_list in Hr. cbn in Hr. rewrite !Forall_cons in Hr. destruct Hr as (? & ? & ? & ? & ? & ? & ? & ? & _).
    rewrite round_step_round, EP by done. done. }
  split_and!; try done. rewrite <- Er. apply regs_ok_round; done.
Qed.

(** One turn of the loop is eight rounds. *)
Lemma turn_ok i r W :
  0 <= i <= 72 -> i mod 8 = 0 -> regs_ok p512 r -> window (i - i mod 16 + 16) (turn_words data i W) ->
  sha512_eight data (r, W) i = (eight_rounds i r, turn_words data i W) /\ regs_ok p512 (eight_rounds i r).
Proof using.
  intros Hi H8 Hr HW. destruct r as [a b c d e f g h]. unfold sha512_eight, eight_rounds. set (W' := turn_words data i W) in *. clearbody W'.
  cbv zeta. cbn [fold_left].
  assert (forall k, 0 <= k < 8 -> W' !!! Z.to_nat (Z.land i 15 + k) = full !!! Z.to_nat (i + k)) as Ew.
  { intros k Hk. rewrite (Z.land_ones _ 4) by lia. change (2 ^ 4) with 16.
    replace (i mod 16 + k) with ((i + k) mod 16) by zlia. apply (ring_at _ _ _ _ (i + k) (i + k) HW); [zlia|done]. }
  do 8 (lazymatch goal with Hr : regs_ok _ (Regs ?a ?b ?c ?d ?e ?f ?g ?h) |-
      context [rnd512 (Regs ?a ?b ?c ?d ?e ?f ?g ?h) (i + ?k)] =>
    let d' := fresh "d" in let h' := fresh "h" in let E1 := fresh in let E2 := fresh in let Hr' := fresh in
    destruct (step_ok (i + k) a b c d e f g h _ Hr (Ew k ltac:(lia))) as (d' & h' & E1 & E2 & Hr');
    rewrite E1, E2; clear E1 E2 Hr end).
  done.
Qed.

(** Two turns are sixteen rounds; the words are renewed in the first. *)
Lemma two_turns i r W :
  In i [0; 16; 32; 48; 64] -> regs_ok p512 r -> length W = 16%nat -> (i <> 0 -> window i W) ->
  exists W', fold_left (sha512_eight data) [i; i + 8] (r, W) = (eight_rounds (i + 8) (eight_rounds i r), W') /\
    regs_ok p512 (eight_rounds (i + 8) (eight_rounds i r)) /\ length W' = 16%nat /\ window (i + 16) W'.
Proof using All.
  intros Hi Hr L HW. set (W1 := turn_words data i W).
  assert (i mod 16 = 0 /\ 0 <= i <= 64) as [H16 Hb] by (cbn [In] in Hi; destruct Hi as [<- |[<- |[<- |[<- |[<- |[]]]]]]; split; done || lia).
  assert (window (i + 16) W1) as H1.
  { unfold W1. destruct (Z.eq_dec i 0) as [-> |Hz]; [exact (LOADs_window W L)|].
    unfold turn_words. assert ((Z.land i 8 =? 0) = true) as ->.
    { clear - Hi. cbn [In] in Hi. destruct Hi as [<- |[<- |[<- |[<- |[<- |[]]]]]]; reflexivity. }
    destruct (Z.ltb_spec i 16); [zlia|]. apply BLENDs_window; [lia|by apply HW]. }
  assert (turn_words data (i + 8) W1 = W1) as E8.
  { unfold turn_words. assert ((Z.land (i + 8) 8 =? 0) = false) as ->; [|done].
    clear - Hi. cbn [In] in Hi. destruct Hi as [<- |[<- |[<- |[<- |[<- |[]]]]]]; reflexivity. }
  destruct (turn_ok i r W) as [E1 Hr1]; [lia|zlia|done|by rewrite H16, Z.sub_0_r|].
  destruct (turn_ok (i + 8) (eight_rounds i r) W1) as [E2 Hr2]; [lia|zlia|done| |].
  { rewrite E8. by replace (i + 8 - (i + 8) mod 16 + 16) with (i + 16) by zlia. }
  exists W1. cbn [fold_left]. rewrite E1. fold W1. rewrite E2, E8. split_and!; try done. apply H1.
Qed.

Lemma turns_ok r W :
  regs_ok p512 r -> length W = 16%nat ->
  exists W', fold_left (sha512_eight data) [0; 8; 16; 24; 32; 40; 48; 56; 64; 72] (r, W) =
    (fold_left (sha2_round p512) (combine (round_k p512) full) r, W').
Proof using All.
  intros Hr L. pose proof HS as (Lf & _ & _). rewrite sha512_K_eq, (combine_lookup _ _ 80), fold_left_map by done.
  assert (forall l a, fold_left (fun a x => sha2_round p512 a (sha512_K !!! x, full !!! x)) l a = fold_left rnd512 (map Z.of_nat l) a) as ->.
  { intros l a. rewrite fold_left_map. unfold rnd512. revert a. induction l as [|x l IH]; intros a; [done|].
    cbn [fold_left]. by rewrite Nat2Z.id, IH. }
  replace (fold_left rnd512 (map Z.of_nat (seq 0 80)) r) with
    (fold_left (fun r i => eight_rounds (i + 8) (eight_rounds i r)) [0; 16; 32; 48; 64] r) by reflexivity.
  change [0; 8; 16; 24; 32; 40; 48; 56; 64; 72] with (flat_map (fun i => [i; i + 8]) [0; 16; 32; 48; 64]).
  destruct (two_turns 0 r W) as (W1 & E1 & Hr1 & L1 & H1); [cbn [In]; tauto|done|done|done|].
  destruct (two_turns 16 _ W1 ltac:(cbn [In]; tauto) Hr1 L1 (fun _ => H1)) as (W2 & E2 & Hr2 & L2 & H2).
  destruct (two_turns 32 _ W2 ltac:(cbn [In]; tauto) Hr2 L2 (fun _ => H2)) as (W3 & E3 & Hr3 & L3 & H3).
  destruct (two_turns 48 _ W3 ltac:(cbn [In]; tauto) Hr3 L3 (fun _ => H3)) as (W4 & E4 & Hr4 & L4 & H4).
  destruct (two_turns 64 _ W4 ltac:(cbn [In]; tauto) Hr4 L4 (fun _ => H4)) as (W5 & E5 & Hr5 & L5 & H5).
  exists W5. cbn [flat_map]. rewrite !fold_left_app, E1, E2, E3, E4, E5. reflexivity.
Qed.
End Block.

Lemma transform_compress st data :
  state_ok p512 st -> bytes data -> len data = 128 -> sha512_transform st data = sha2_compress p512 st data.
Proof.
  intros [Ls Fs] Fd Ld. unfold sha512_transform, sha2_compress.
  destruct (block_words_ok p512 eq_refl data) as [LM FM]; [done..|].
  pose proof (schedule_scheduled p512 80 _ ltac:(lia) (f_equal length sha512_K_eq) LM) as HS.
  generalize dependent (schedule p512 (block_words p512 data)). intros full HS.
  destruct (turns_ok data full FM HS Ld Fd (regs_of st) (replicate 16 0)) as (W' & E); [by apply regs_of_ok|done|].
  rewrite E. done.
Qed.

(** * Streaming *)

Lemma block_fn_state n : forall ctx data,
  sha512_block_fn ctx data n = set_state (process 128 sha512_transform n (h_state ctx) data) ctx.
Proof.
  induction n as [|n IH]; intros [st c0 c1 b] data; [done|]. cbn [sha512_block_fn process].
  rewrite IH. change (Z.to_nat 128) with 128%nat. unfold set_state. cbn [h_state count0 count1 h_buf]. reflexivity.
Qed.

Lemma process_data n st (data : list Z) k :
  0 <= n <= len data -> 0 <= k -> k * 128 <= n ->
  process 128 sha512_transform (Z.to_nat k) st data = process 128 sha512_transform (Z.to_nat k) st (slice data 0 n).
Proof.
  intros Hn Hk Hkn. rewrite <- (slice_all data) at 1. rewrite (slice_split data 0 n) by lia.
  apply process_prefix; [lia|]. rewrite slice_length; lia.
Qed.

Lemma skip_none ctx (data : list Z) blocks :
  (if negb (blocks =? 0) then (sha512_block_fn ctx data (Z.to_nat blocks), drop (Z.to_nat (blocks * 128)) data) else (ctx, data)) =
  (sha512_block_fn ctx data (Z.to_nat blocks), drop (Z.to_nat (blocks * 128)) data).
Proof. by destruct (Z.eqb_spec blocks 0) as [-> |]. Qed.

(** The blocks in the data, and what is left. *)
Lemma do_update_tail ctx data n :
  0 <= n <= len data ->
  let d := slice data 0 n in
  let rest := slice d (len d / 128 * 128) (len d) in
  let ctx' := sha512_block_fn ctx data (Z.to_nat (n / 128)) in
  (if negb (n mod 128 =? 0)
   then set_buf (store (h_buf ctx') 0 (slice (drop (Z.to_nat (n / 128 * 128)) data) 0 (n mod 128))) ctx' else ctx') =
  {| h_state := process 128 sha512_transform (Z.to_nat (len d / 128)) (h_state ctx) d; count0 := count0 ctx; count1 := count1 ctx;
     h_buf := if len rest =? 0 then h_buf ctx else store (h_buf ctx) 0 rest |}.
Proof.
  intros Hn. cbv zeta. assert (len (slice data 0 n) = n) as Ld by (rewrite slice_length; lia). rewrite Ld.
  pose proof (Z.div_mod n 128 ltac:(lia)) as E. pose proof (Z.mod_pos_bound n 128 ltac:(lia)) as Hm.
  assert (0 <= n / 128) by (apply Z.div_pos; lia).
  rewrite (slice_length (slice data 0 n)) by lia. replace (n - n / 128 * 128) with (n mod 128) by lia.
  rewrite block_fn_state, <- (process_data n) by lia.
  replace (slice (drop (Z.to_nat (n / 128 * 128)) data) 0 (n mod 128)) with (slice (slice data 0 n) (n / 128 * 128) n).
  - destruct ctx. unfold set_buf, set_state. cbn [h_state h_buf count0 count1]. by destruct (n mod 128 =? 0).
  - set (q := n / 128) in *. set (r := n mod 128) in *. clearbody q r. subst n. slice_ext.
Qed.

(** An update feeds the buffer and counts the bytes. *)
Lemma do_update_feed ctx data n :
  0 <= n <= len data -> n < 2147483648 -> 0 <= count0 ctx ->
  let c0 := u64 (count0 ctx + n) in
  let f := feed 128 sha512_transform (h_state ctx) (h_buf ctx) (count0 ctx mod 128) (slice data 0 n) in
  sha512_base_do_update ctx data n =
    {| h_state := f.1; count0 := c0; count1 := if c0 <? n then u64 (count1 ctx + 1) else count1 ctx; h_buf := f.2 |}.
Proof.
  intros Hn Hl H0. unfold sha512_base_do_update, feed. pose proof (Z.mod_pos_bound (count0 ctx) 128 ltac:(lia)) as Hp.
  rewrite (u32_small (count0 ctx mod 128)) by lia. set (partial := count0 ctx mod 128) in *.
  rewrite u32_small by lia. set (c0 := u64 (count0 ctx + n)). set (c1 := if c0 <? n then _ else _).
  assert (len (slice data 0 n) = n) as Ld by (rewrite slice_length; lia). rewrite Ld.
  destruct (Z.leb_spec 128 (partial + n)), (Z.eqb_spec partial 0) as [Ep|Ep]; cbn [negb andb].
  - rewrite skip_none. etransitivity; [apply do_update_tail; lia|]. rewrite Ld, Ep. reflexivity.
  - destruct (Z.leb_spec (128 - partial) n); [|lia]. rewrite skip_none.
    etransitivity; [apply do_update_tail; rewrite length_drop; lia|]. rewrite block_fn_state.
    cbn [process set_state set_buf set_count h_state h_buf count0 count1]. cbv zeta.
    replace (slice (drop (Z.to_nat (128 - partial)) data) 0 (n - (128 - partial)))
      with (slice (slice data 0 n) (128 - partial) n) by slice_ext.
    replace (slice data 0 (128 - partial)) with (slice (slice data 0 n) 0 (128 - partial)) by slice_ext.
    unfold set_buf, set_state, set_count. cbn [h_state h_buf count0 count1 fst snd]. reflexivity.
  - rewrite Ep. cbv zeta. rewrite Z.div_small, Z.mul_0_l, (slice_whole (slice data 0 n)) by (done || lia). rewrite Ld. cbn [Z.to_nat process fst snd].
    by destruct (n =? 0).
  - destruct (Z.leb_spec (128 - partial) n); [lia|]. cbv zeta. rewrite Z.div_small, Z.mul_0_l, (slice_whole (slice data 0 n)) by (done || lia).
    rewrite Ld. cbn [Z.to_nat process fst snd]. by destruct (n =? 0).
Qed.

(** A context started with [init] that has been given the bytes of [m]. *)
Record sha512_holds (init : list Z) (ctx : sha512_context) (m : list Z) : Prop := {
  s5_bytes : bytes m;
  s5_count0 : 0 <= count0 ctx < 18446744073709551616;
  s5_count1 : 0 <= count1 ctx < 18446744073709551616;
  s5_count : count1 ctx * 18446744073709551616 + count0 ctx = len m mod 340282366920938463463374607431768211456;
  s5_buffered : buffered 128 sha512_transform init m (h_state ctx) (h_buf ctx);
}.

Lemma sha512_holds_nil init ctx :
  h_state ctx = init -> count0 ctx = 0 -> count1 ctx = 0 -> len (h_buf ctx) = 128 -> sha512_holds init ctx [].
Proof.
  intros Es E0 E1 L. split; rewrite ?E0, ?E1, ?Es; [constructor|lia|lia|done|].
  split; [done|]. change (len [] mod 128) with 0. rewrite slice_empty by lia. apply absorbed_init. lia.
Qed.

Lemma do_update_holds init ctx m data n :
  sha512_holds init ctx m -> bytes data -> 0 <= n <= len data -> n < 2147483648 ->
  sha512_holds init (sha512_base_do_update ctx data n) (m ++ slice data 0 n).
Proof.
  intros [Hm H0 H1 Ht Hb] Fb Hn Hl. rewrite do_update_feed by lia. cbv zeta.
  assert (count0 ctx mod 128 = len m mod 128) as E by zlia.
  split; cbn [count0 count1 h_state h_buf].
  - apply Forall_app; split; [done|]. by apply Forall_take, Forall_drop.
  - pose proof (u64_range (count0 ctx + n)). unfold U64_MAX in *. lia.
  - case_Z; [|done]. pose proof (u64_range (count1 ctx + 1)). unfold U64_MAX in *. lia.
  - rewrite length_app, Nat2Z.inj_add, slice_length by lia.
    assert (0 <= len m) by lia. generalize dependent (len m). intros l. intros.
    clear - H0 H1 Ht Hl Hn. rewrite Z.sub_0_r, <- Zplus_mod_idemp_l, <- Ht. unfold u64. case_Z; zlia.
  - rewrite E. apply feed_ok; [lia|done].
Qed.

(** The two words of the length. *)
Lemma bits_bytes c0 c1 n :
  0 <= c0 < 18446744073709551616 -> 0 <= c1 < 18446744073709551616 ->
  c1 * 18446744073709551616 + c0 = n mod 340282366920938463463374607431768211456 ->
  be_bytes 8 (Z.lor (u64 (Z.shiftl c1 3)) (Z.shiftr c0 61)) ++ be_bytes 8 (u64 (Z.shiftl c0 3)) = be_bytes 16 (8 * n).
Proof.
  intros H0 H1 Hn. rewrite <- (be_bytes_mod 16 (8 * n)). change (256 ^ Z.of_nat 16) with 340282366920938463463374607431768211456.
  set (low := u64 (Z.shiftl c0 3)). set (high := Z.lor _ _).
  assert ((8 * n) mod 340282366920938463463374607431768211456 = high * 256 ^ Z.of_nat 8 + low) as ->.
  { rewrite <- Zmult_mod_idemp_r, <- Hn. unfold high, low, u64.
    rewrite !Z.shiftl_mul_pow2, Z.shiftr_div_pow2 by lia. change (2 ^ 3) with 8. change (2 ^ 61) with 2305843009213693952.
    replace ((c1 * 8) mod 18446744073709551616) with (Z.shiftl (c1 mod 2305843009213693952) 3).
    2:{ rewrite Z.shiftl_mul_pow2 by lia. change 18446744073709551616 with (2305843009213693952 * 8). by rewrite Z.mul_mod_distr_r by lia. }
    rewrite lor_shiftl_add; [|lia|split; [apply Z.div_pos; lia|apply Z.div_lt_upper_bound; lia]].
    change (256 ^ Z.of_nat 8) with 18446744073709551616. change (2 ^ 3) with 8. zlia. }
  change 16%nat with (8 + 8)%nat. rewrite (be_bytes_app 8 8); [done|]. unfold low, u64. change (256 ^ Z.of_nat 8) with 18446744073709551616.
  apply Z.mod_pos_bound. lia.
Qed.

(** Finalizing closes the message. *)
Lemma finalize_close ctx :
  0 <= count0 ctx -> len (h_buf ctx) = 128 ->
  let lenb := be_bytes 8 (Z.lor (u64 (Z.shiftl (count1 ctx) 3)) (Z.shiftr (count0 ctx) 61)) ++
              be_bytes 8 (u64 (Z.shiftl (count0 ctx) 3)) in
  h_state (sha512_base_do_finalize ctx) = close 128 sha512_transform 16 (h_state ctx) (h_buf ctx) (count0 ctx mod 128) lenb /\
  len (h_buf (sha512_base_do_finalize ctx)) = 128.
Proof.
  intros H0 Lb. unfold sha512_base_do_finalize, close. pose proof (Z.mod_pos_bound (count0 ctx) 128 ltac:(lia)) as Hp.
  rewrite (u32_small (count0 ctx mod 128)) by lia. set (partial := count0 ctx mod 128) in *.
  assert (forall b x y : list Z, len b = 128 -> length x = 8%nat -> length y = 8%nat ->
    store (store b 112 x) (112 + 8) y = store b 112 (x ++ y)) as Eb by (intros; slice_ext).
  change (128 - 16) with 112. cbv zeta.
  assert (len (store (h_buf ctx) partial [128]) = 128) as L1 by (rewrite store_length; cbn [length]; lia).
  assert (forall (b : list Z) o k, len b = 128 -> 0 <= o -> 0 <= k -> o + k <= 128 -> len (store b o (replicate (Z.to_nat k) 0)) = 128) as Lz.
  { intros b o k E ? ? ?. rewrite store_length; rewrite ?length_replicate; lia. }
  destruct (Z.ltb_spec 112 (partial + 1)); rewrite ?block_fn_state; cbn [set_buf set_state h_state h_buf count0 count1 process].
  - pose proof (Lz _ (partial + 1) (128 - (partial + 1)) L1 ltac:(lia) ltac:(lia) ltac:(lia)) as L2.
    pose proof (Lz _ 0 (112 - 0) L2 ltac:(lia) ltac:(lia) ltac:(lia)) as L3.
    rewrite Eb by (done || apply be_bytes_length). split; [done|].
    rewrite store_length; rewrite ?length_app, ?be_bytes_length; lia.
  - pose proof (Lz _ (partial + 1) (112 - (partial + 1)) L1 ltac:(lia) ltac:(lia) ltac:(lia)) as L2.
    rewrite Eb by (done || apply be_bytes_length). split; [done|].
    rewrite store_length; rewrite ?length_app, ?be_bytes_length; lia.
Qed.

(** The state a finalized context ends in, and its digest of [n] words. *)
Lemma finalize_hash init ctx m n digest :
  state_ok p512 init -> sha512_holds init ctx m -> (n <= 8)%nat -> length digest = (n * 8)%nat ->
  fold_left (fun d i => PUT_UINT64_BE (h_state (sha512_base_do_finalize ctx) !!! i) d (Z.of_nat i * 8)) (seq 0 n) digest =
    take (n * 8) (sha2_hash p512 init m) /\
  len (h_buf (sha512_base_do_finalize ctx)) = 128.
Proof.
  intros Hi [Hm H0 H1 Ht Hb] Hn Ld. pose proof Hb as [Lb _].
  destruct (finalize_close ctx ltac:(lia) Lb) as [Es L]. split; [|done]. clear L.
  rewrite (bits_bytes _ _ (len m)) in Es by done.
  replace (count0 ctx mod 128) with (len m mod 128) in Es by zlia.
  rewrite (close_iterate 128 _ ltac:(lia) 16 init m) in Es; [|lia|by rewrite be_bytes_length|done].
  change ([128] ++ _ ++ _) with (sha2_pad p512 (len m)) in Es.
  set (st := h_state (sha512_base_do_finalize ctx)) in *. clearbody st. set (q := m ++ sha2_pad p512 (len m)) in *.
  assert (bytes q) as Fq.
  { apply Forall_app. split; [done|]. unfold sha2_pad. apply Forall_cons. split; [unfold is_byte; lia|].
    apply Forall_app. split; [by apply Forall_replicate|apply be_bytes_bytes]. }
  assert (st = iterate 128 (sha2_compress p512) init q) as Es'.
  { rewrite Es. unfold iterate. apply process_ext with (P := state_ok p512); [lia| |done|done|].
    - intros s blk Hs Fb Lblk. split; [by apply transform_compress|by apply compress_ok].
    - zlia. }
  destruct (iterate_ok p512 eq_refl 128 init q Hi) as [Ls _]. rewrite <- Es' in Ls.
  unfold sha2_hash. change (16 * word_bytes p512) with 128. change (Z.to_nat (word_bytes p512)) with 8%nat.
  change (m ++ sha2_pad p512 (len m)) with q. rewrite <- Es'.
  transitivity (concat (map (be_bytes 8) (take n st))).
  - rewrite <- (put_words_all 8 st n digest) by lia. apply fold_left_ext_len with (n := length digest); [|done].
    intros d i Hi'%in_seq Hd. rewrite PUT_UINT64_BE_store by lia. rewrite Z.mul_comm. split; [done|].
    rewrite store_length; rewrite ?be_bytes_length; lia.
  - rewrite <- (take_drop n st) at 2. rewrite map_app, concat_app, take_app_length'; [done|].
    rewrite concat_be_length, length_take. lia.
Qed.

Lemma sha512_init_eq ctx : h_state (sha512_starts ctx) = sha512_init.
Proof. vm_compute. reflexivity. Qed.
Lemma sha384_init_eq ctx : h_state (sha384_starts ctx) = sha384_init.
Proof. vm_compute. reflexivity. Qed.

Definition no_ctx : sha512_context := {| h_state := []; count0 := 0; count1 := 0; h_buf := [] |}.
Lemma sha512_init_ok : state_ok p512 sha512_init.
Proof.
  rewrite <- (sha512_init_eq no_ctx). split; [done|]. cbn [sha512_starts h_state].
  repeat (apply Forall_cons; split; [split; [lia|reflexivity]|]). by apply Forall_nil.
Qed.
Lemma sha384_init_ok : state_ok p512 sha384_init.
Proof.
  rewrite <- (sha384_init_eq no_ctx). split; [done|]. cbn [sha384_starts h_state].
  repeat (apply Forall_cons; split; [split; [lia|reflexivity]|]). by apply Forall_nil.
Qed.

Lemma sha512_starts_ok ctx : len (h_buf ctx) = 128 -> sha512_holds sha512_init (sha512_starts ctx) [].
Proof. intros L. apply sha512_holds_nil; [apply sha512_init_eq|done..]. Qed.
Lemma sha384_starts_ok ctx : len (h_buf ctx) = 128 -> sha512_holds sha384_init (sha384_starts ctx) [].
Proof. intros L. apply sha512_holds_nil; [apply sha384_init_eq|done..]. Qed.

Lemma sha512_finish_hash ctx m digest :
  sha512_holds sha512_init ctx m -> length digest = 64%nat ->
  (sha512_finish ctx digest).1 = SHA512 m /\ len (h_buf (sha512_finish ctx digest).2) = 128.
Proof.
  intros H Ld. destruct (finalize_hash _ ctx m 8 digest sha512_init_ok H) as [E L]; [lia|done|]. split; [|exact L].
  unfold sha512_finish. cbv zeta. cbn [fst]. rewrite E, take_ge; [done|].
  rewrite (sha2_hash_length p512 eq_refl sha512_init m sha512_init_ok). apply Nat.leb_le. reflexivity.
Qed.

Lemma sha384_finish_hash ctx m digest :
  sha512_holds sha384_init ctx m -> length digest = 48%nat ->
  (sha384_finish ctx digest).1 = SHA384 m /\ len (h_buf (sha384_finish ctx digest).2) = 128.
Proof.
  intros H Ld. destruct (finalize_hash _ ctx m 6 digest sha384_init_ok H) as [E L]; [lia|done|]. split; [|exact L].
  unfold sha384_finish. cbv zeta. cbn [fst]. rewrite E. reflexivity.
Qed.

(** The two functions meet the interface. *)
#[global] Instance sha512_digest : Digest := {|
  dctx := sha512_context;
  d_starts := sha512_starts;
  d_update := sha512_update;
  d_finish := fun c => sha512_finish c (replicate 64 0);
  d_hash := SHA512;
  d_max := 2147483648;
  d_ctx := fun c => len (h_buf c) = 128;
  d_holds := sha512_holds sha512_init;
  d_starts_ok := sha512_starts_ok;
  d_update_ok := do_update_holds sha512_init;
  d_max_ok := ltac:(lia);
  d_finish_ok := fun c m H => sha512_finish_hash c m (replicate 64 0) H eq_refl;
|}.

#[global] Instance sha384_digest : Digest := {|
  dctx := sha512_context;
  d_starts := sha384_starts;
  d_update := sha384_update;
  d_finish := fun c => sha384_finish c (replicate 48 0);
  d_hash := SHA384;
  d_max := 2147483648;
  d_ctx := fun c => len (h_buf c) = 128;
  d_holds := sha512_holds sha384_init;
  d_starts_ok := sha384_starts_ok;
  d_update_ok := do_update_holds sha384_init;
  d_max_ok := ltac:(lia);
  d_finish_ok := fun c m H => sha384_finish_hash c m (replicate 48 0) H eq_refl;
|}.

Definition sha384_csum_wd (wd : bool) (fuel : nat) (ctx : sha512_context) (input : list Z) (ilen chunk_sz : Z) : option (list Z) :=
  csum_wd (D := sha384_digest) wd fuel ctx input ilen chunk_sz.
Definition sha512_csum_wd (wd : bool) (fuel : nat) (ctx : sha512_context) (input : list Z) (ilen chunk_sz : Z) : option (list Z) :=
  csum_wd (D := sha512_digest) wd fuel ctx input ilen chunk_sz.

(** * The digests *)

(** C25: the digests of a message that arrives in pieces below 2^31 bytes are
    its SHA-512 and its SHA-384 by the definition of FIPS 180-4: the ring of
    sixteen words, the 128-bit counter with its carry and the padding written
    into the buffer compute the standard's functions. *)
Theorem sha512_streams ctx msgs digest digest384 :
  len (h_buf ctx) = 128 -> length digest = 64%nat -> length digest384 = 48%nat ->
  Forall (fun d => bytes d /\ len d < 2147483648) msgs ->
  (sha512_finish (fold_left (fun c d => sha512_update c d (len d)) msgs (sha512_starts ctx)) digest).1 = SHA512 (concat msgs) /\
  (sha384_finish (fold_left (fun c d => sha384_update c d (len d)) msgs (sha384_starts ctx)) digest384).1 = SHA384 (concat msgs).
Proof.
  intros Hc Ld L3 F. split.
  - pose proof (d_pieces_holds (D := sha512_digest) msgs (sha512_starts ctx) [] (sha512_starts_ok ctx Hc) F) as H.
    by apply (sha512_finish_hash _ _ digest) in H as [H _].
  - pose proof (d_pieces_holds (D := sha384_digest) msgs (sha384_starts ctx) [] (sha384_starts_ok ctx Hc) F) as H.
    by apply (sha384_finish_hash _ _ digest384) in H as [H _].
Qed.

(** The test vector of the standard, in two pieces. *)
Lemma sha512_streams_witness :
  let c := {| h_state := replicate 8 1; count0 := 7; count1 := 9; h_buf := replicate 128 3 |} in
  (sha512_finish (sha512_update (sha512_update (sha512_starts c) [97; 98] 2) [99] 1) (replicate 64 0)).1 = SHA512 [97; 98; 99] /\
  take 8 (SHA512 [97; 98; 99]) = [221; 175; 53; 161; 147; 97; 122; 186].
Proof.
  intros c. split; [|vm_compute; reflexivity].
  assert (Forall (fun d => bytes d /\ len d < 2147483648) [[97; 98]; [99]]) as F by (repeat constructor; intros [=]).
  exact (proj1 (sha512_streams c [[97; 98]; [99]] (replicate 64 0) (replicate 48 0) eq_refl eq_refl eq_refl F)).
Defined.
