(* ===== verification/Sha1.v ===== *)
(** SHA-1 (lib/sha1.c), against the definition of FIPS 180-4.

    An [unsigned long] is 64 bits wide: the working variables and the words
    of the schedule carry garbage above their low 32 bits, which the masks
    and the 32-bit state remove.  The schedule is a ring of sixteen words. *)

From S2P Require Import Prelude Bytes Cstring Crc32 Digest.

(** * The standard *)

(** The working variables. *)
Record regs := Regs { rA : Z; rB : Z; rC : Z; rD : Z; rE : Z }.

Definition rotl (n x : Z) : Z := u32 (x * 2 ^ n) + x / 2 ^ (32 - n).

Definition sha1_f (t : nat) (x y z : Z) : Z :=
  if (t <? 20)%nat then Z.lxor (Z.land x y) (Z.ldiff z x)
  else if (t <? 40)%nat then Z.lxor (Z.lxor x y) z
  else if (t <? 60)%nat then Z.lxor (Z.lxor (Z.land x y) (Z.land x z)) (Z.land y z)
  else Z.lxor (Z.lxor x y) z.

(** The constants are 2^30 times the square roots of 2, 3, 5 and 10. *)
Definition sha1_k (t : nat) : Z :=
  Z.sqrt ((if (t <? 20)%nat then 2 else if (t <? 40)%nat then 3 else if (t <? 60)%nat then 5 else 10) * 2 ^ 60).

Definition sha1_next (W : list Z) : Z :=
  let t := length W in
  rotl 1 (Z.lxor (Z.lxor (Z.lxor (W !!! (t - 3)%nat) (W !!! (t - 8)%nat)) (W !!! (t - 14)%nat)) (W !!! (t - 16)%nat)).
Definition sha1_schedule (M : list Z) : list Z := grow sha1_next 64 M.

Definition sha1_round (W : list Z) (r : regs) (t : nat) : regs :=
  Regs (u32 (rotl 5 (rA r) + sha1_f t (rB r) (rC r) (rD r) + rE r + sha1_k t + W !!! t))
       (rA r) (rotl 30 (rB r)) (rC r) (rD r).

Definition regs_of (st : list Z) : regs :=
  Regs (st !!! 0%nat) (st !!! 1%nat) (st !!! 2%nat) (st !!! 3%nat) (st !!! 4%nat).
Definition regs_list (r : regs) : list Z := [rA r; rB r; rC r; rD r; rE r].

Definition sha1_words (blk : list Z) : list Z :=
  map (fun i => be_load (slice blk (4 * Z.of_nat i) (4 * Z.of_nat i + 4))) (seq 0 16).

Definition sha1_compress (st blk : list Z) : list Z :=
  let r := fold_left (sha1_round (sha1_schedule (sha1_words blk))) (seq 0 80) (regs_of st) in
  zip_with (fun x y => u32 (x + y)) st (regs_list r).

Definition sha1_pad (n : Z) : list Z := [128] ++ replicate (Z.to_nat ((55 - n) mod 64)) 0 ++ be_bytes 8 (8 * n).

Definition sha1_init : list Z := [1732584193; 4023233417; 2562383102; 271733878; 3285377520].
Definition SHA1 (m : list Z) : list Z :=
  concat (map (be_bytes 4) (iterate 64 sha1_compress sha1_init (m ++ sha1_pad (len m)))).

(** * The code *)

Record sha1_context := { total0 : Z; total1 : Z; state : list Z; buffer : list Z }.

Definition sha1_starts (ctx : sha1_context) : sha1_context :=
  {| total0 := 0; total1 := 0; state := [1732584193; 4023233417; 2562383102; 271733878; 3285377520]; buffer := buffer ctx |}.

Definition S_ (x n : Z) : Z := Z.lor (u64 (Z.shiftl x n)) (Z.shiftr (Z.land x 4294967295) (32 - n)).

(** W with the word of round t set by the macro R(t); the first 16 are not set again. *)
Definition R (t : Z) (W : list Z) : list Z :=
  if t <? 16 then W else
  let temp := Z.lxor (Z.lxor (Z.lxor (W !!! Z.to_nat (Z.land (t - 3) 15)) (W !!! Z.to_nat (Z.land (t - 8) 15)))
                             (W !!! Z.to_nat (Z.land (t - 14) 15))) (W !!! Z.to_nat (Z.land t 15)) in
  <[Z.to_nat (Z.land t 15) := S_ temp 1]> W.

(** The macro P with the F and K in force: the new values of e and b. *)
Definition P (F : Z -> Z -> Z -> Z) (K a b c d e x : Z) : Z * Z :=
  (u64 (e + (S_ a 5 + F b c d + K + x)), S_ b 30).

(** The definitions of F and of K, in order. *)
Definition F1 (x y z : Z) : Z := Z.lxor z (Z.land x (Z.lxor y z)).
Definition F2 (x y z : Z) : Z := Z.lxor (Z.lxor x y) z.
Definition F3 (x y z : Z) : Z := Z.lor (Z.land x y) (Z.land z (Z.lor x y)).
Definition K1 : Z := 1518500249.
Definition K2 : Z := 1859775393.
Definition K3 : Z := 2400959708.
Definition K4 : Z := 3395469782.

(** Five uses of P; the code has four such groups for each F and K. *)
Definition five (F : Z -> Z -> Z -> Z) (K : Z) (rW : regs * list Z) (t : Z) : regs * list Z :=
  let '(Regs A B C D E, W) := rW in
  let W := R (t + 0) W in let '(E, B) := P F K A B C D E (W !!! Z.to_nat (Z.land (t + 0) 15)) in
  let W := R (t + 1) W in let '(D, A) := P F K E A B C D (W !!! Z.to_nat (Z.land (t + 1) 15)) in
  let W := R (t + 2) W in let '(C, E) := P F K D E A B C (W !!! Z.to_nat (Z.land (t + 2) 15)) in
  let W := R (t + 3) W in let '(B, D) := P F K C D E A B (W !!! Z.to_nat (Z.land (t + 3) 15)) in
  let W := R (t + 4) W in let '(A, C) := P F K B C D E A (W !!! Z.to_nat (Z.land (t + 4) 15)) in
  (Regs A B C D E, W).

(** Of the context only the state takes part. *)
Definition sha1_process_one (state data : list Z) : list Z :=
  let W := map (fun i => GET_UINT32_BE data (4 * Z.of_nat i)) (seq 0 16) in
  let rW := fold_left (five F1 K1) [0; 5; 10; 15] (regs_of state, W) in
  let rW := fold_left (five F2 K2) [20; 25; 30; 35] rW in
  let rW := fold_left (five F3 K3) [40; 45; 50; 55] rW in
  let rW := fold_left (five F2 K4) [60; 65; 70; 75] rW in
  zip_with (fun x y => u32 (x + y)) state (regs_list rW.1).

Definition sha1_process (state data : list Z) (blocks : nat) : list Z := process 64 sha1_process_one blocks state data.

Definition sha1_update (ctx : sha1_context) (input : list Z) (ilen : Z) : sha1_context :=
  if ilen <=? 0 then ctx else
  let used := Z.land (total0 ctx) 63 in
  let t0 := Z.land (u64 (total0 ctx + ilen)) 4294967295 in
  let t1 := if t0 <? ilen then u64 (total1 ctx + 1) else total1 ctx in
  let '(st, buf) := block_update 64 sha1_process_one (state ctx) (buffer ctx) used input ilen in
  {| total0 := t0; total1 := t1; state := st; buffer := buf |}.

Definition sha1_padding : list Z := 128 :: replicate 63 0.

Definition sha1_finish (ctx : sha1_context) (output : list Z) : list Z * sha1_context :=
  let high := Z.lor (Z.shiftr (total0 ctx) 29) (u64 (Z.shiftl (total1 ctx) 3)) in
  let low := u64 (Z.shiftl (total0 ctx) 3) in
  let msglen := PUT_UINT32_BE low (PUT_UINT32_BE high (replicate 8 0) 0) 4 in
  let last := Z.land (total0 ctx) 63 in
  let padn := if last <? 56 then 56 - last else 120 - last in
  let ctx := sha1_update ctx sha1_padding padn in
  let ctx := sha1_update ctx msglen 8 in
  (fold_left (fun d i => PUT_UINT32_BE (state ctx !!! i) d (4 * Z.of_nat i)) (seq 0 5) output, ctx).

(** The buffers are cleared at the end, which nothing can see. *)
Definition sha1_hmac (ctx : sha1_context) (key : list Z) (keylen : Z) (input : list Z) (ilen : Z)
    (tmpbuf output : list Z) : list Z :=
  let n := Z.to_nat (Z.min keylen 64) in
  let k_ipad := xor_key (replicate 64 54) key n in
  let k_opad := xor_key (replicate 64 92) key n in
  let '(tmpbuf, ctx) := sha1_finish (sha1_update (sha1_update (sha1_starts ctx) k_ipad 64) input ilen) tmpbuf in
  (sha1_finish (sha1_update (sha1_update (sha1_starts ctx) k_opad 64) tmpbuf 20) output).1.

(** * The low 32 bits *)

Lemma u32_land x : u32 x = Z.land x (Z.ones 32).
Proof. rewrite Z.land_ones by lia. reflexivity. Qed.

Ltac low_bits := rewrite !u32_land; let n := fresh "n" in let Hn := fresh "Hn" in bitwise n Hn;
  repeat match goal with |- context [Z.testbit ?x n] => destruct (Z.testbit x n) end; reflexivity.

Lemma u32_lxor x y : u32 (Z.lxor x y) = Z.lxor (u32 x) (u32 y).
Proof. low_bits. Qed.
Lemma u32_lor x y : u32 (Z.lor x y) = Z.lor (u32 x) (u32 y).
Proof. low_bits. Qed.

Lemma u32_u64 x : u32 (u64 x) = u32 x.
Proof. wrap_lia. Qed.

Lemma S_low x n : 0 < n < 32 -> u32 (S_ x n) = rotl n (u32 x).
Proof.
  intros Hn. unfold S_, rotl. rewrite u32_lor, u32_u64, (Z.land_ones _ 32), Z.shiftr_div_pow2 by lia. fold (u32 x).
  pose proof (u32_range x) as Hx. change (x mod 2 ^ 32) with (u32 x).
  assert (0 < 2 ^ n) by (apply Z.pow_pos_nonneg; lia). assert (0 < 2 ^ (32 - n)) by (apply Z.pow_pos_nonneg; lia).
  assert (2 ^ (32 - n) * 2 ^ n = 4294967296) as Ep by (rewrite <- Z.pow_add_r by lia; replace (32 - n + n) with 32 by lia; done).
  assert (0 <= u32 x / 2 ^ (32 - n) < 2 ^ n) as Hd by (split; [apply Z.div_pos; lia|apply Z.div_lt_upper_bound; lia]).
  assert (2 ^ n <= 4294967296) by nia. rewrite (u32_small (u32 x / _)) by lia.
  assert (forall y, u32 (y * 2 ^ n) = y mod 2 ^ (32 - n) * 2 ^ n) as Em.
  { intros y. unfold u32. rewrite <- Ep. apply Z.mul_mod_distr_r; lia. }
  rewrite Z.shiftl_mul_pow2, !Em by lia.
  assert (u32 x mod 2 ^ (32 - n) = x mod 2 ^ (32 - n)) as ->.
  { unfold u32. rewrite <- Ep. rewrite Z.rem_mul_r by lia. rewrite (Z.mul_comm (2 ^ (32 - n))), Z.mod_add, Z.mod_mod by lia. done. }
  rewrite <- Z.shiftl_mul_pow2, lor_shiftl_add by lia. by rewrite Z.shiftl_mul_pow2 by lia.
Qed.

(** * The compression of a block *)

Definition low (r : regs) : regs := Regs (u32 (rA r)) (u32 (rB r)) (u32 (rC r)) (u32 (rD r)) (u32 (rE r)).

(** F and K are those of round t. *)
Definition in_phase (F : Z -> Z -> Z -> Z) (K : Z) (t : Z) : Prop :=
  (forall x y z, sha1_f (Z.to_nat t) (u32 x) (u32 y) (u32 z) = u32 (F x y z)) /\ sha1_k (Z.to_nat t) = K.

Lemma phase1 t : 0 <= t < 20 -> in_phase F1 K1 t.
Proof.
  intros Ht. unfold in_phase, sha1_f, sha1_k. destruct (Nat.ltb_spec (Z.to_nat t) 20); [|lia]. split; [|reflexivity].
  intros x y z. unfold F1. low_bits.
Qed.
Lemma phase2 t : 20 <= t < 40 -> in_phase F2 K2 t.
Proof.
  intros Ht. unfold in_phase, sha1_f, sha1_k. destruct (Nat.ltb_spec (Z.to_nat t) 20); [lia|].
  destruct (Nat.ltb_spec (Z.to_nat t) 40); [|lia]. split; [|reflexivity]. intros x y z. unfold F2. low_bits.
Qed.
Lemma phase3 t : 40 <= t < 60 -> in_phase F3 K3 t.
Proof.
  intros Ht. unfold in_phase, sha1_f, sha1_k. destruct (Nat.ltb_spec (Z.to_nat t) 20); [lia|].
  destruct (Nat.ltb_spec (Z.to_nat t) 40); [lia|]. destruct (Nat.ltb_spec (Z.to_nat t) 60); [|lia].
  split; [|reflexivity]. intros x y z. unfold F3. low_bits.
Qed.
Lemma phase4 t : 60 <= t < 80 -> in_phase F2 K4 t.
Proof.
  intros Ht. unfold in_phase, sha1_f, sha1_k. destruct (Nat.ltb_spec (Z.to_nat t) 20); [lia|].
  destruct (Nat.ltb_spec (Z.to_nat t) 40); [lia|]. destruct (Nat.ltb_spec (Z.to_nat t) 60); [lia|].
  split; [|reflexivity]. intros x y z. unfold F2. low_bits.
Qed.

Section Block.
Context (M full : list Z) (LM : length M = 16%nat).
Context (Hfull : full = sha1_schedule M) (FM : Forall (fun w => 0 <= w < 4294967296) M).

(** A word of the code's ring agrees with the schedule in its low half. *)
Abbreviation window := (ring (fun w f => u32 w = f) full).
Definition rnd (r : regs) (t : Z) : regs := sha1_round full r (Z.to_nat t).

Lemma full_spec :
  length full = 80%nat /\ take 16 full = M /\
  (forall t, (16 <= t < 80)%nat -> full !!! t =
    rotl 1 (Z.lxor (Z.lxor (Z.lxor (full !!! (t - 3)%nat) (full !!! (t - 8)%nat)) (full !!! (t - 14)%nat)) (full !!! (t - 16)%nat))).
Proof using LM Hfull.
  rewrite Hfull. unfold sha1_schedule. pose proof (grow_spec sha1_next M 64) as (L & E & H). rewrite LM in *.
  set (W := grow sha1_next 64 M) in *. clearbody W. split_and!; [done|done|]. intros t Ht. rewrite (H t) by lia. unfold sha1_next. rewrite length_take, L.
  replace (t `min` (16 + 64))%nat with t by lia. by rewrite !lookup_total_take_lt by lia.
Qed.

Lemma R_window t W :
  0 <= t < 80 -> window (Z.max 16 t) W ->
  window (Z.max 16 (t + 1)) (R t W) /\ u32 (R t W !!! Z.to_nat (Z.land t 15)) = full !!! Z.to_nat t.
Proof using LM Hfull.
  intros Ht HW. destruct full_spec as (L & E16 & Hn). unfold R. rewrite !(Z.land_ones _ 4) by lia. change (2 ^ 4) with 16.
  destruct (Z.ltb_spec t 16).
  - replace (Z.max 16 (t + 1)) with (Z.max 16 t) by lia. split; [done|]. apply (ring_at _ _ _ _ t t HW); [lia|done].
  - replace (Z.max 16 t) with t in HW by lia. replace (Z.max 16 (t + 1)) with (t + 1) by lia.
    set (w := S_ _ 1). assert (u32 w = full !!! Z.to_nat t) as Ew.
    { unfold w. rewrite S_low, !u32_lxor by lia. rewrite (Hn (Z.to_nat t)) by lia.
      rewrite (ring_at _ _ _ _ (t - 3) (t - 3) HW), (ring_at _ _ _ _ (t - 8) (t - 8) HW) by lia.
      rewrite (ring_at _ _ _ _ (t - 14) (t - 14) HW), (ring_at _ _ _ _ (t - 16) t HW) by (lia || zlia).
      replace (Z.to_nat t - 3)%nat with (Z.to_nat (t - 3)) by lia. replace (Z.to_nat t - 8)%nat with (Z.to_nat (t - 8)) by lia.
      replace (Z.to_nat t - 14)%nat with (Z.to_nat (t - 14)) by lia. replace (Z.to_nat t - 16)%nat with (Z.to_nat (t - 16)) by lia.
      done. }
    split; [by apply ring_set|]. destruct HW as [LW _]. pose proof (Z.mod_pos_bound t 16 ltac:(lia)).
    rewrite list_lookup_total_insert_eq by lia. done.
Qed.

Lemma P_step1 F K t a b c d e W :
  0 <= t < 80 -> in_phase F K t -> window (Z.max 16 t) W ->
  exists W' e' b', R t W = W' /\ P F K a b c d e (W' !!! Z.to_nat (Z.land t 15)) = (e', b') /\
    rnd (low (Regs a b c d e)) t = low (Regs e' a b' c d) /\ window (Z.max 16 (t + 1)) W'.
Proof using LM Hfull.
  intros Ht [HF HK] HW. destruct (R_window t W Ht HW) as [HW' Ew]. set (W' := R t W) in *.
  eexists W', _, _. split_and!; [done|reflexivity| |done].
  unfold rnd, sha1_round, low. cbn [rA rB rC rD rE]. rewrite HF, HK, <- Ew, !S_low by lia. f_equal.
  rewrite u32_u64, <- (S_low a 5) by lia. generalize (S_ a 5) (F b c d) (W' !!! Z.to_nat (Z.land t 15)). intros x y z.
  clear. wrap_lia.
Qed.

Definition five_rounds (t : Z) (r : regs) : regs := fold_left rnd [t + 0; t + 1; t + 2; t + 3; t + 4] r.

Lemma five_ok F K t r W :
  0 <= t <= 75 -> (forall i, 0 <= i < 5 -> in_phase F K (t + i)) -> window (Z.max 16 t) W ->
  exists r' W', five F K (r, W) t = (r', W') /\ low r' = five_rounds t (low r) /\ window (Z.max 16 (t + 5)) W'.
Proof using LM Hfull.
  intros Ht Hp HW. destruct r as [A B C D E]. unfold five, five_rounds. rewrite <- (Z.add_0_r t) in HW. cbn [fold_left].
  do 5 (lazymatch goal with HW : window (Z.max 16 (t + ?k)) ?W0 |- context [rnd (low (Regs ?a ?b ?c ?d ?e)) (t + ?k)] =>
    let W' := fresh "W" in let e' := fresh "e" in let b' := fresh "b" in let E1 := fresh in let E2 := fresh in let E3 := fresh in let HW' := fresh in
    destruct (P_step1 F K (t + k) a b c d e W0 ltac:(lia) (Hp k ltac:(lia)) HW) as (W' & e' & b' & E1 & E2 & E3 & HW');
    rewrite E1; cbv zeta; rewrite E2, E3; clear E1 E2 E3 HW; rewrite <- Z.add_assoc in HW';
    let j := eval vm_compute in (k + 1) in change (k + 1) with j in HW' end).
  eauto.
Qed.
(** Four groups are the twenty rounds of a phase. *)
Lemma phase_ok F K t r W :
  0 <= t <= 60 -> (forall i, t <= i < t + 20 -> in_phase F K i) -> window (Z.max 16 t) W ->
  exists r' W', fold_left (five F K) [t; t + 5; t + 10; t + 15] (r, W) = (r', W') /\
    low r' = five_rounds (t + 15) (five_rounds (t + 10) (five_rounds (t + 5) (five_rounds t (low r)))) /\
    window (Z.max 16 (t + 20)) W'.
Proof using LM Hfull.
  intros Ht Hp HW. cbn [fold_left].
  destruct (five_ok F K t r W) as (r1 & W1 & -> & <- & H1); [lia|intros i Hi; apply Hp; lia|done|].
  destruct (five_ok F K (t + 5) r1 W1) as (r2 & W2 & -> & <- & H2); [lia|intros i Hi; apply Hp; lia|done|].
  rewrite <- Z.add_assoc in H2.
  destruct (five_ok F K (t + 10) r2 W2) as (r3 & W3 & -> & <- & H3); [lia|intros i Hi; apply Hp; lia|done|].
  rewrite <- Z.add_assoc in H3.
  destruct (five_ok F K (t + 15) r3 W3) as (r4 & W4 & -> & <- & H4); [lia|intros i Hi; apply Hp; lia|done|].
  rewrite <- Z.add_assoc in H4. eauto.
Qed.
End Block.

Definition state_ok (st : list Z) : Prop := length st = 5%nat /\ Forall (fun w => 0 <= w < 4294967296) st.

Lemma zip_low st r : length st = 5%nat ->
  zip_with (fun x y => u32 (x + y)) st (regs_list (low r)) = zip_with (fun x y => u32 (x + y)) st (regs_list r).
Proof.
  intros L. do 5 (destruct st as [|? st]; [done|]). destruct st; [|done]. cbn [regs_list low rA rB rC rD rE zip_with].
  assert (forall x y, u32 (x + u32 y) = u32 (x + y)) as E by (intros; wrap_lia). by rewrite !E.
Qed.

(** The code compresses a block as the standard does. *)
Lemma sha1_process_one_compress st data :
  state_ok st -> bytes data -> len data = 64 -> sha1_process_one st data = sha1_compress st data.
Proof.
  intros [Ls Fs] Fd Ld. unfold sha1_process_one, sha1_compress.
  assert (map (fun i => GET_UINT32_BE data (4 * Z.of_nat i)) (seq 0 16) = sha1_words data) as ->.
  { unfold sha1_words. apply map_ext_in. intros i Hi%in_seq. apply GET_UINT32_BE_load; [lia|lia|done]. }
  assert (length (sha1_words data) = 16%nat) as LM by (unfold sha1_words; by rewrite length_map, length_seq).
  pose proof (be_words_ok 4 data ltac:(lia) Fd Ld) as FM. change (256 ^ 4) with 4294967296 in FM.
  change (map _ (seq 0 16)) with (sha1_words data) in FM. set (M := sha1_words data) in *. clearbody M.
  remember (sha1_schedule M) as full eqn:Hf.
  assert (ring (fun w f => u32 w = f) full (Z.max 16 0) M) as H0.
  { split; [done|]. intros t Ht. destruct (full_spec M full LM Hf) as (L & E16 & _). rewrite Z.mod_small by lia.
    rewrite <- (lookup_total_take_lt full 16 (Z.to_nat t)), E16 by lia. apply u32_small.
    apply (Forall_lookup_total_1 _ _ _ FM). lia. }
  destruct (phase_ok M full LM Hf F1 K1 0 (regs_of st) M) as (r1 & W1 & E1 & R1 & H1); [lia|intros i Hi; apply phase1; lia|done|].
  destruct (phase_ok M full LM Hf F2 K2 20 r1 W1) as (r2 & W2 & E2 & R2 & H2); [lia|intros i Hi; apply phase2; lia|done|].
  destruct (phase_ok M full LM Hf F3 K3 40 r2 W2) as (r3 & W3 & E3 & R3 & H3); [lia|intros i Hi; apply phase3; lia|done|].
  destruct (phase_ok M full LM Hf F2 K4 60 r3 W3) as (r4 & W4 & E4 & R4 & H4); [lia|intros i Hi; apply phase4; lia|done|].
  change [0 + 5; 0 + 10; 0 + 15] with [5; 10; 15] in E1. change [20 + 5; 20 + 10; 20 + 15] with [25; 30; 35] in E2.
  change [40 + 5; 40 + 10; 40 + 15] with [45; 50; 55] in E3. change [60 + 5; 60 + 10; 60 + 15] with [65; 70; 75] in E4.
  cbv zeta. rewrite E1, E2, E3, E4. cbn [fst]. rewrite <- zip_low by done. do 2 f_equal.
  rewrite R4, R3, R2, R1.
  replace (low (regs_of st)) with (regs_of st).
  2:{ unfold low, regs_of. cbn [rA rB rC rD rE]. f_equal; symmetry; apply u32_small; apply (Forall_lookup_total_1 _ _ _ Fs); lia. }
  unfold five_rounds. rewrite <- !fold_left_app.
  assert (forall l r, fold_left (sha1_round full) l r = fold_left (rnd full) (map Z.of_nat l) r) as ->.
  { intros l. induction l as [|x l IH]; intros r; [done|]. cbn [fold_left map]. unfold rnd at 2. by rewrite Nat2Z.id, IH. }
  f_equal.
Qed.

Lemma sha1_compress_ok st blk : state_ok st -> state_ok (sha1_compress st blk).
Proof.
  intros [Ls Fs]. unfold sha1_compress, state_ok. split; [by rewrite length_zip_with, Ls|].
  apply Forall_lookup. intros i x (y & z & -> & _ & _)%lookup_zip_with_Some. apply u32_range.
Qed.

Lemma sha1_init_ok : state_ok sha1_init.
Proof. split; [done|]. unfold sha1_init. repeat (apply Forall_cons; split; [lia|]). by apply Forall_nil. Qed.

Lemma sha1_iterate_ok q : state_ok (iterate 64 sha1_compress sha1_init q).
Proof.
  unfold iterate. generalize (Z.to_nat (len q / 64)). intros k. generalize sha1_init, sha1_init_ok.
  revert q. induction k as [|k IH]; intros q st Hs; [done|]. apply IH, sha1_compress_ok, Hs.
Qed.

(** * Streaming *)

(** A context that has been given the bytes of [m]. *)
Record sha1_holds (ctx : sha1_context) (m : list Z) : Prop := {
  s1_bytes : bytes m;
  s1_total0 : 0 <= total0 ctx < 4294967296;
  s1_total1 : 0 <= total1 ctx < 18446744073709551616;
  s1_total : total1 ctx * 4294967296 + total0 ctx = len m mod 79228162514264337593543950336;
  s1_buffered : buffered 64 sha1_process_one sha1_init m (state ctx) (buffer ctx);
}.

Lemma sha1_starts_holds ctx : len (buffer ctx) = 64 -> sha1_holds (sha1_starts ctx) [].
Proof.
  intros L. split; cbn [sha1_starts total0 total1 state buffer]; [constructor|lia|lia|done|].
  split; [done|]. change (len [] mod 64) with 0. rewrite slice_empty by lia. apply absorbed_init. lia.
Qed.

Lemma sha1_update_holds ctx m input n :
  sha1_holds ctx m -> bytes input -> 0 <= n <= len input -> n < 4294967296 ->
  sha1_holds (sha1_update ctx input n) (m ++ slice input 0 n).
Proof.
  intros H Fb Hn Hl. unfold sha1_update. destruct (Z.leb_spec n 0) as [Hz|Hz].
  { rewrite slice_empty, app_nil_r by lia. exact H. }
  destruct H as [Hm H0 H1 Ht Hb]. rewrite (Z.land_ones _ 6), (Z.land_ones _ 32) by lia. change (2 ^ 6) with 64.
  rewrite block_update_feed by (done || lia || apply Z.mod_pos_bound; lia).
  change (2 ^ 32) with 4294967296. rewrite (u64_small (total0 ctx + n)) by (unfold U64_MAX; lia).
  assert (total0 ctx mod 64 = len m mod 64) as E by zlia.
  pose proof (feed_ok 64 sha1_process_one ltac:(lia) sha1_init m (state ctx) (buffer ctx) (slice input 0 n) Hb) as Hf. rewrite <- E in Hf.
  destruct (feed _ _ _ _ _ _) as [st buf]. split; cbn [total0 total1 state buffer].
  - apply Forall_app; split; [done|]. by apply Forall_take, Forall_drop.
  - apply Z.mod_pos_bound. lia.
  - case_Z; [|done]. pose proof (u64_range (total1 ctx + 1)). unfold U64_MAX in *. lia.
  - rewrite length_app, Nat2Z.inj_add, slice_length by lia.
    assert (0 <= len m) by lia. generalize dependent (len m). intros l. intros.
    clear - H0 H1 Ht Hl Hn Hz. unfold u64 in *. rewrite Z.sub_0_r, <- (Zplus_mod_idemp_l l), <- Ht. case_Z; zlia.
  - exact Hf.
Qed.

Lemma sha1_msglen t0 t1 n :
  0 <= t0 < 4294967296 -> 0 <= t1 < 18446744073709551616 -> t1 * 4294967296 + t0 = n mod 79228162514264337593543950336 ->
  PUT_UINT32_BE (u64 (Z.shiftl t0 3)) (PUT_UINT32_BE (Z.lor (Z.shiftr t0 29) (u64 (Z.shiftl t1 3))) (replicate 8 0) 0) 4 =
  be_bytes 8 (8 * n).
Proof.
  intros H0 H1 Hn. rewrite (PUT_UINT32_BE_mod (u64 (Z.shiftl t0 3))), (PUT_UINT32_BE_mod (Z.lor _ _)).
  rewrite u32_lor, !u32_u64. rewrite (u32_small (Z.shiftr t0 29)).
  - replace (u32 (Z.shiftl t1 3)) with (u32 (Z.shiftl (u32 t1) 3)).
    + apply msglen_bytes; [done|apply u32_range|]. wrap_lia.
    + rewrite !Z.shiftl_mul_pow2 by lia. change (2 ^ 3) with 8. wrap_lia.
  - rewrite Z.shiftr_div_pow2 by lia. split; [apply Z.div_pos; lia|apply Z.div_lt_upper_bound; lia].
Qed.

Lemma SHA1_length m : length (SHA1 m) = 20%nat.
Proof. unfold SHA1. rewrite concat_be_length. by destruct (sha1_iterate_ok (m ++ sha1_pad (len m))) as [-> _]. Qed.
Lemma SHA1_bytes m : bytes (SHA1 m).
Proof. apply concat_be_bytes. Qed.

Lemma sha1_finish_hash ctx m output :
  sha1_holds ctx m -> length output = 20%nat ->
  (sha1_finish ctx output).1 = SHA1 m /\ len (buffer (sha1_finish ctx output).2) = 64.
Proof.
  intros H Ld. pose proof H as [Hm H0 H1 Ht Hb]. unfold sha1_finish. rewrite (sha1_msglen _ _ (len m)) by done.
  rewrite (Z.land_ones _ 6) by lia. change (2 ^ 6) with 64. cbv zeta. cbn [fst snd].
  assert (total0 ctx mod 64 = len m mod 64) as E by zlia.
  set (padn := if total0 ctx mod 64 <? 56 then 56 - total0 ctx mod 64 else 120 - total0 ctx mod 64).
  set (ctx2 := sha1_update (sha1_update ctx sha1_padding padn) (be_bytes 8 (8 * len m)) 8).
  set (q := m ++ sha1_pad (len m)).
  assert (sha1_holds ctx2 q) as H2.
  { unfold q, sha1_pad. rewrite (app_assoc [128]), <- (padding_zeros (total0 ctx mod 64) (len m) ltac:(lia) E), app_assoc. fold padn.
    assert (0 < padn <= 64) by (unfold padn; pose proof (Z.mod_pos_bound (total0 ctx) 64 ltac:(lia)); case_Z; lia).
    rewrite <- (slice_all (be_bytes 8 (8 * len m))), be_bytes_length.
    apply sha1_update_holds; [|apply be_bytes_bytes|rewrite be_bytes_length; lia|lia].
    apply sha1_update_holds; [done| |cbn; lia|lia]. vm_compute. repeat constructor; intros [=]. }
  assert (64 | len q) as Hd.
  { apply padding_whole. unfold sha1_pad. rewrite !length_app, length_replicate, be_bytes_length. cbn [length].
    pose proof (Z.mod_pos_bound (55 - len m) 64 ltac:(lia)). lia. }
  destruct H2 as [Fp _ _ _ [Lb Ha]]. split; [|exact Lb]. apply absorbed_done in Ha; [|lia|done].
  assert (state ctx2 = iterate 64 sha1_compress sha1_init q) as Es.
  { rewrite Ha. unfold iterate. apply process_ext with (P := state_ok); [lia| |apply sha1_init_ok|done|zlia].
    intros st blk Hs Fb Lblk. split; [by apply sha1_process_one_compress|by apply sha1_compress_ok]. }
  assert (state_ok (state ctx2)) as [Ls _] by (rewrite Es; apply sha1_iterate_ok).
  unfold SHA1. fold q. rewrite <- Es. pose proof (put_words_all 4 (state ctx2) 5 output ltac:(lia) ltac:(lia)) as Hp.
  rewrite take_ge in Hp by lia. rewrite <- Hp. apply fold_left_ext_len with (n := length output); [|done].
  intros d i Hi%in_seq Hd'. change (Z.of_nat 4) with 4. rewrite PUT_UINT32_BE_store by lia. split; [done|].
  rewrite store_length; rewrite ?be_bytes_length; lia.
Qed.

#[global] Instance sha1_digest : Digest := {|
  dctx := sha1_context;
  d_starts := sha1_starts;
  d_update := sha1_update;
  d_finish := fun c => sha1_finish c (replicate 20 0);
  d_hash := SHA1;
  d_max := 4294967296;
  d_ctx := fun c => len (buffer c) = 64;
  d_holds := sha1_holds;
  d_starts_ok := sha1_starts_holds;
  d_update_ok := sha1_update_holds;
  d_max_ok := ltac:(lia);
  d_finish_ok := fun c m H => sha1_finish_hash c m (replicate 20 0) H eq_refl;
|}.

Definition sha1_csum_wd (wd : bool) (fuel : nat) (ctx : sha1_context) (input : list Z) (ilen chunk_sz : Z) : option (list Z) :=
  csum_wd (D := sha1_digest) wd fuel ctx input ilen chunk_sz.

(** * The digest and the HMAC *)

(** C29: the digest of a message that arrives in pieces of any sizes is its
    SHA-1 by the definition of FIPS 180-4, although the code computes in
    64-bit variables that carry garbage above their low halves. *)
Theorem sha1_streams ctx msgs output :
  len (buffer ctx) = 64 -> length output = 20%nat ->
  Forall (fun d => bytes d /\ len d < 4294967296) msgs ->
  (sha1_finish (fold_left (fun c d => sha1_update c d (len d)) msgs (sha1_starts ctx)) output).1 = SHA1 (concat msgs).
Proof.
  intros Hc Ld F. pose proof (d_pieces_holds (D := sha1_digest) msgs (sha1_starts ctx) [] (sha1_starts_holds ctx Hc) F) as H.
  by apply (sha1_finish_hash _ _ output) in H as [H _].
Qed.

Lemma sha1_streams_witness :
  let c := {| total0 := 7; total1 := 9; state := replicate 5 1; buffer := replicate 64 3 |} in
  (sha1_finish (sha1_update (sha1_update (sha1_starts c) [97; 98] 2) [99] 1) (replicate 20 0)).1 = SHA1 [97; 98; 99] /\
  SHA1 [97; 98; 99] = [169; 153; 62; 54; 71; 6; 129; 106; 186; 62; 37; 113; 120; 80; 194; 108; 156; 208; 216; 157].
Proof.
  intros c. split; [|vm_compute; reflexivity].
  assert (Forall (fun d => bytes d /\ len d < 4294967296) [[97; 98]; [99]]) as F by (repeat constructor; intros [=]).
  exact (sha1_streams c [[97; 98]; [99]] (replicate 20 0) eq_refl eq_refl F).
Defined.

Lemma sha1_two ctx pad d output :
  len (buffer ctx) = 64 -> bytes pad -> len pad = 64 -> bytes d -> len d < 4294967296 -> length output = 20%nat ->
  let r := sha1_finish (sha1_update (sha1_update (sha1_starts ctx) pad 64) d (len d)) output in
  r.1 = SHA1 (pad ++ d) /\ len (buffer r.2) = 64.
Proof.
  intros Hc Fp Lp Fd Ld Lg. cbv zeta.
  pose proof (d_pieces_holds (D := sha1_digest) [pad; d] (sha1_starts ctx) [] (sha1_starts_holds ctx Hc)) as H.
  cbn [concat] in H. rewrite app_nil_r in H. change (d_pieces _ _) with (sha1_update (sha1_update (sha1_starts ctx) pad (len pad)) d (len d)) in H.
  rewrite Lp in H. apply sha1_finish_hash; [|done]. apply H.
  apply Forall_cons. split; [split; [done|cbn; lia]|]. apply Forall_cons. split; [done|]. by apply Forall_nil.
Qed.

(** Sha1_hmac is the HMAC of RFC 2104 under the first 64 bytes of the
    key: for keys of up to a block it is the standard's, longer keys are cut
    where the standard hashes them. *)
Theorem sha1_hmac_cut ctx key input tmpbuf output :
  len (buffer ctx) = 64 -> length tmpbuf = 20%nat -> length output = 20%nat ->
  bytes key -> len key < 2147483648 -> bytes input -> len input < 4294967296 ->
  sha1_hmac ctx key (len key) input (len input) tmpbuf output = hmac (D := sha1_digest) 64 (take 64 key) input.
Proof.
  intros Hc Lt Lo Fk Hk Fi Hi. unfold sha1_hmac. replace (Z.to_nat (Z.min (len key) 64)) with (Nat.min 64 (length key)) by lia.
  rewrite !xor_key_map by lia.
  assert (take (Nat.min 64 (length key)) key ++ replicate (64 - Nat.min 64 (length key)) 0 = hmac_key (D := sha1_digest) 64 (take 64 key)) as ->.
  { unfold hmac_key. rewrite length_take. destruct (Z.ltb_spec 64 (Z.of_nat (64 `min` length key))); [lia|].
    rewrite length_take. f_equal; [|f_equal; lia]. rewrite <- take_take, (take_ge key (length key)) by lia. done. }
  unfold hmac. cbn [d_hash sha1_digest].
  assert (length (hmac_key (D := sha1_digest) 64 (take 64 key)) = 64%nat /\ bytes (hmac_key (D := sha1_digest) 64 (take 64 key))) as [L F].
  { unfold hmac_key. rewrite length_take. destruct (Z.ltb_spec 64 (Z.of_nat (64 `min` length key))); [lia|].
    split; [rewrite length_app, length_replicate, length_take; lia|]. apply Forall_app. split; [by apply Forall_take|by apply Forall_replicate]. }
  generalize dependent (hmac_key (D := sha1_digest) 64 (take 64 key)). intros k L F.
  assert (forall c, len (xor_bytes c k) = 64) as Lx by (intros c; unfold xor_bytes; rewrite length_map; lia).
  destruct (sha1_two ctx (xor_bytes 54 k) input tmpbuf) as [E1 E2]; [done|by apply xor_bytes_bytes|done..|].
  destruct (sha1_finish _ tmpbuf) as [tmp ctx2]. cbn [fst snd] in E1, E2. subst tmp.
  destruct (sha1_two ctx2 (xor_bytes 92 k) (SHA1 (xor_bytes 54 k ++ input)) output) as [E3 _];
    [done|by apply xor_bytes_bytes|done|apply SHA1_bytes|rewrite SHA1_length; lia|done|].
  rewrite SHA1_length in E3. exact E3.
Qed.

Lemma sha1_hmac_cut_witness :
  let c := {| total0 := 7; total1 := 9; state := replicate 5 1; buffer := replicate 64 3 |} in
  sha1_hmac c (replicate 80 170) 80 [119] 1 (replicate 20 1) (replicate 20 2) = hmac (D := sha1_digest) 64 (replicate 64 170) [119] /\
  hmac (D := sha1_digest) 64 (replicate 64 170) [119] <> hmac (D := sha1_digest) 64 (replicate 80 170) [119].
Proof.
  intros c. split; [|vm_compute; intros [=]].
  apply (sha1_hmac_cut c (replicate 80 170) [119] (replicate 20 1) (replicate 20 2)); try reflexivity; repeat constructor; intros [=].
Defined.
