(* ===== verification/Md5.v ===== *)
(** MD5 (lib/md5.c), against the definition of RFC 1321.

    The machine is little-endian: [byteReverse] reads each word as the four
    bytes it is made of and stores it back.  The context keeps the length in
    bits.  Blocks are copied to the context before they are used, so the
    buffer holds the last one when the update ends. *)

From S2P Require Import Prelude Bytes Cstring Crc32 Digest.

(** * The definition *)

Record regs := Regs { rA : Z; rB : Z; rC : Z; rD : Z }.

Definition not32 (x : Z) : Z := u32 (Z.lnot x).
Definition rotl (n x : Z) : Z := u32 (x * 2 ^ n) + x / 2 ^ (32 - n).

(** The function, the word and the shift of step [i]. *)
Definition md5_f (i : nat) (x y z : Z) : Z :=
  match (i / 16)%nat with
  | 0%nat => Z.lor (Z.land x y) (Z.land (not32 x) z)
  | 1%nat => Z.lor (Z.land x z) (Z.land y (not32 z))
  | 2%nat => Z.lxor (Z.lxor x y) z
  | _ => Z.lxor y (Z.lor x (not32 z))
  end.
Definition md5_k (i : nat) : nat :=
  match (i / 16)%nat with
  | 0%nat => i
  | 1%nat => (5 * i + 1) mod 16
  | 2%nat => (3 * i + 5) mod 16
  | _ => (7 * i) mod 16
  end.
Definition md5_s (i : nat) : Z :=
  nth (i mod 4) (nth (i / 16) [[7; 12; 17; 22]; [5; 9; 14; 20]; [4; 11; 16; 23]; [6; 10; 15; 21]] []) 0.

(** The constant of step [i] is the integer part of 2^32 |sin (i + 1)|, here
    by 130 terms of the series of the sine with 256 fractional bits. *)
Fixpoint sine_terms (n : nat) (k x term sum : Z) : Z :=
  match n with
  | O => sum
  | S n => sine_terms n (k + 2) x (- (term * x * x / ((k + 1) * (k + 2)))) (sum + term)
  end.
Definition md5_t (i : nat) : Z :=
  let x := Z.of_nat i + 1 in Z.abs (sine_terms 130 1 x (x * 2 ^ 256) 0) / 2 ^ 224.

Definition md5_step (X : list Z) (r : regs) (i : nat) : regs :=
  let a := u32 (rA r + md5_f i (rB r) (rC r) (rD r) + X !!! md5_k i + md5_t i) in
  Regs (rD r) (u32 (rB r + rotl (md5_s i) a)) (rB r) (rC r).

Definition regs_of (st : list Z) : regs := Regs (st !!! 0%nat) (st !!! 1%nat) (st !!! 2%nat) (st !!! 3%nat).
Definition regs_list (r : regs) : list Z := [rA r; rB r; rC r; rD r].

Definition le_words (blk : list Z) : list Z :=
  map (fun i => le_load (slice blk (4 * Z.of_nat i) (4 * Z.of_nat i + 4))) (seq 0 16).

Definition md5_compress (st blk : list Z) : list Z :=
  let r := fold_left (md5_step (le_words blk)) (seq 0 64) (regs_of st) in
  zip_with (fun x y => u32 (x + y)) st (regs_list r).

Definition md5_pad (n : Z) : list Z := [128] ++ replicate (Z.to_nat ((55 - n) mod 64)) 0 ++ le_bytes 8 (8 * n).

Definition md5_init : list Z := [1732584193; 4023233417; 2562383102; 271733878].
Definition MD5 (m : list Z) : list Z :=
  concat (map (le_bytes 4) (iterate 64 md5_compress md5_init (m ++ md5_pad (len m)))).

(** * The code *)

Record MD5Context := { m_buf : list Z; bits0 : Z; bits1 : Z; m_in : list Z }.

(** The first [longs] words of [buf]. *)
Definition byteReverse (buf : list Z) (longs : nat) : list Z :=
  fold_left (fun b i =>
    let p := 4 * Z.of_nat i in
    let t := Z.lor (u32 (Z.shiftl (Z.lor (Z.shiftl (b !!! Z.to_nat (p + 3)) 8) (b !!! Z.to_nat (p + 2))) 16))
                   (Z.lor (Z.shiftl (b !!! Z.to_nat (p + 1)) 8) (b !!! Z.to_nat p)) in
    store b p (le_bytes 4 t)) (seq 0 longs) buf.

Definition MD5Init (ctx : MD5Context) : MD5Context :=
  {| m_buf := [1732584193; 4023233417; 2562383102; 271733878]; bits0 := 0; bits1 := 0; m_in := m_in ctx |}.

Definition F1 (x y z : Z) : Z := Z.lxor z (Z.land x (Z.lxor y z)).
Definition F2 (x y z : Z) : Z := F1 z x y.
Definition F3 (x y z : Z) : Z := Z.lxor (Z.lxor x y) z.
Definition F4 (x y z : Z) : Z := Z.lxor y (Z.lor x (u32 (Z.lnot z))).

(** The new value of w. *)
Definition MD5STEP (f : Z -> Z -> Z -> Z) (w x y z data s : Z) : Z :=
  let w := u32 (w + (f x y z + data)) in
  let w := Z.lor (u32 (Z.shiftl w s)) (Z.shiftr w (32 - s)) in
  u32 (w + x).

(** The words and the constants of the 64 steps, in order. *)
Definition md5_data : list (Z * Z) :=
  [
   (0, 3614090360); (1, 3905402710); (2, 606105819); (3, 3250441966);
   (4, 4118548399); (5, 1200080426); (6, 2821735955); (7, 4249261313);
   (8, 1770035416); (9, 2336552879); (10, 4294925233); (11, 2304563134);
   (12, 1804603682); (13, 4254626195); (14, 2792965006); (15, 1236535329);
   (1, 4129170786); (6, 3225465664); (11, 643717713); (0, 3921069994);
   (5, 3593408605); (10, 38016083); (15, 3634488961); (4, 3889429448);
   (9, 568446438); (14, 3275163606); (3, 4107603335); (8, 1163531501);
   (13, 2850285829); (2, 4243563512); (7, 1735328473); (12, 2368359562);
   (5, 4294588738); (8, 2272392833); (11, 1839030562); (14, 4259657740);
   (1, 2763975236); (4, 1272893353); (7, 4139469664); (10, 3200236656);
   (13, 681279174); (0, 3936430074); (3, 3572445317); (6, 76029189);
   (9, 3654602809); (12, 3873151461); (15, 530742520); (2, 3299628645);
   (0, 4096336452); (7, 1126891415); (14, 2878612391); (5, 4237533241);
   (12, 1700485571); (3, 2399980690); (10, 4293915773); (1, 2240044497);
   (8, 1873313359); (15, 4264355552); (6, 2734768916); (13, 1309151649);
   (4, 4149444226); (11, 3174756917); (2, 718787259); (9, 3951481745)].

(** The data of step [i]: in[k] plus its constant. *)
Definition step_data (in_ : list Z) (i : Z) : Z :=
  let '(k, c) := nth (Z.to_nat i) md5_data (0, 0) in u32 (in_ !!! Z.to_nat k + c).

(** Four steps; the code has four such groups for each function, with the
    same four shifts. *)
Definition four (in_ : list Z) (f : Z -> Z -> Z -> Z) (s1 s2 s3 s4 : Z) (r : regs) (i : Z) : regs :=
  let '(Regs a b c d) := r in
  let a := MD5STEP f a b c d (step_data in_ (i + 0)) s1 in
  let d := MD5STEP f d a b c (step_data in_ (i + 1)) s2 in
  let c := MD5STEP f c d a b (step_data in_ (i + 2)) s3 in
  let b := MD5STEP f b c d a (step_data in_ (i + 3)) s4 in
  Regs a b c d.

Definition MD5Transform (buf in_ : list Z) : list Z :=
  let r := fold_left (four in_ F1 7 12 17 22) [0; 4; 8; 12] (regs_of buf) in
  let r := fold_left (four in_ F2 5 9 14 20) [16; 20; 24; 28] r in
  let r := fold_left (four in_ F3 4 11 16 23) [32; 36; 40; 44] r in
  let r := fold_left (four in_ F4 6 10 15 21) [48; 52; 56; 60] r in
  zip_with (fun x y => u32 (x + y)) buf (regs_list r).

(** The loop on whole blocks: it turns [len / 64] times. *)
Fixpoint md5_blocks (k : nat) (st in_ buf : list Z) : list Z * list Z :=
  match k with
  | O => (st, in_)
  | S k =>
      let in_ := byteReverse (store in_ 0 (slice buf 0 64)) 16 in
      md5_blocks k (MD5Transform st (le_words in_)) in_ (drop 64 buf)
  end.

Definition MD5Update (ctx : MD5Context) (buf : list Z) (n : Z) : MD5Context :=
  let t := bits0 ctx in
  let b0 := u32 (t + u32 (Z.shiftl n 3)) in
  let b1 := if b0 <? t then u32 (bits1 ctx + 1) else bits1 ctx in
  let b1 := u32 (b1 + Z.shiftr n 29) in
  let t := Z.land (Z.shiftr t 3) 63 in
  let fill := 64 - t in
  if negb (t =? 0) && (n <? fill) then
    {| m_buf := m_buf ctx; bits0 := b0; bits1 := b1; m_in := store (m_in ctx) t (slice buf 0 n) |}
  else
    let '(st, in_, buf, n) :=
      if negb (t =? 0) then
        let in_ := byteReverse (store (m_in ctx) t (slice buf 0 fill)) 16 in
        (MD5Transform (m_buf ctx) (le_words in_), in_, drop (Z.to_nat fill) buf, n - fill)
      else (m_buf ctx, m_in ctx, buf, n) in
    let '(st, in_) := md5_blocks (Z.to_nat (n / 64)) st in_ buf in
    {| m_buf := st; bits0 := b0; bits1 := b1;
       m_in := store in_ 0 (slice (drop (Z.to_nat (n / 64 * 64)) buf) 0 (n mod 64)) |}.

(** State and buffer once padded to 56 bytes. *)
Definition md5_padded (st in_ : list Z) (count : Z) : list Z * list Z :=
  let in_ := store in_ count [128] in
  let p := count + 1 in
  let count := 64 - 1 - count in
  if count <? 8 then
    let in_ := byteReverse (store in_ p (replicate (Z.to_nat count) 0)) 16 in
    (MD5Transform st (le_words in_), store in_ 0 (replicate 56 0))
  else (st, store in_ p (replicate (Z.to_nat (count - 8)) 0)).

(** The digest, and the context cleared. *)
Definition MD5Final (digest : list Z) (ctx : MD5Context) : list Z * MD5Context :=
  let '(st, in_) := md5_padded (m_buf ctx) (m_in ctx) (Z.land (Z.shiftr (bits0 ctx) 3) 63) in
  let in_ := byteReverse in_ 14 in
  let in_ := store in_ 56 (le_bytes 4 (bits0 ctx)) in
  let in_ := store in_ 60 (le_bytes 4 (bits1 ctx)) in
  let st := MD5Transform st (le_words in_) in
  (store digest 0 (slice (byteReverse (concat (map (le_bytes 4) st)) 4) 0 16),
   {| m_buf := replicate 4 0; bits0 := 0; bits1 := 0; m_in := replicate 64 0 |}).

(** * The steps *)

Definition word32 (x : Z) : Prop := 0 <= x < 4294967296.
Definition regs_ok (r : regs) : Prop := Forall word32 (regs_list r).

Lemma md5_data_eq : map (fun i => (Z.of_nat (md5_k i), md5_t i)) (seq 0 64) = md5_data.
Proof. vm_compute. reflexivity. Qed.

Lemma step_data_eq X i : (i < 64)%nat -> step_data X (Z.of_nat i) = u32 (X !!! md5_k i + md5_t i).
Proof.
  intros Hi. unfold step_data. rewrite <- md5_data_eq, Nat2Z.id. set (g := fun i => (Z.of_nat (md5_k i), md5_t i)).
  rewrite (nth_indep _ _ (g 0%nat)) by (rewrite length_map, length_seq; lia).
  rewrite map_nth, seq_nth by lia. unfold g. by rewrite Nat2Z.id.
Qed.

Lemma not32_bits x n : 0 <= n -> Z.testbit (not32 x) n = negb (Z.testbit x n) && (n <? 32).
Proof.
  intros Hn. unfold not32, u32. change 4294967296 with (2 ^ 32). destruct (Z.ltb_spec n 32).
  - rewrite Z.mod_pow2_bits_low, Z.lnot_spec by lia. by rewrite andb_true_r.
  - rewrite Z.mod_pow2_bits_high by lia. by rewrite andb_false_r.
Qed.

(** Equality of bitwise functions of words. *)
Ltac word_bits := let n := fresh "n" in let Hn := fresh "Hn" in
  bitwise n Hn; rewrite ?not32_bits by done; destruct (Z.ltb_spec n 32);
  [|rewrite ?(testbit_high _ 32 n) by (unfold word32 in *; change (2 ^ 32) with 4294967296; lia)];
  repeat match goal with |- context [Z.testbit ?x n] => destruct (Z.testbit x n) end; reflexivity.

Definition same_fn (f : Z -> Z -> Z -> Z) (i : nat) : Prop :=
  forall x y z, word32 x -> word32 y -> word32 z -> md5_f i x y z = f x y z.

Lemma same_fn1 i : (i / 16 = 0)%nat -> same_fn F1 i.
Proof. intros E x y z Hx Hy Hz. unfold md5_f. rewrite E. unfold F1. word_bits. Qed.
Lemma same_fn2 i : (i / 16 = 1)%nat -> same_fn F2 i.
Proof. intros E x y z Hx Hy Hz. unfold md5_f. rewrite E. unfold F2, F1. word_bits. Qed.
Lemma same_fn3 i : (i / 16 = 2)%nat -> same_fn F3 i.
Proof. intros E x y z Hx Hy Hz. unfold md5_f. by rewrite E. Qed.
Lemma same_fn4 i : (i / 16 = 3)%nat -> same_fn F4 i.
Proof. intros E x y z Hx Hy Hz. unfold md5_f. by rewrite E. Qed.

Lemma rotl_word w s : 0 < s < 32 -> word32 w -> Z.lor (u32 (Z.shiftl w s)) (Z.shiftr w (32 - s)) = rotl s w.
Proof.
  intros Hs Hw. unfold rotl, word32 in *. rewrite Z.shiftr_div_pow2 by lia.
  assert (0 < 2 ^ s) by (apply Z.pow_pos_nonneg; lia). assert (0 < 2 ^ (32 - s)) by (apply Z.pow_pos_nonneg; lia).
  assert (2 ^ (32 - s) * 2 ^ s = 4294967296) as Ep by (rewrite <- Z.pow_add_r by lia; replace (32 - s + s) with 32 by lia; done).
  rewrite Z.shiftl_mul_pow2 by lia. unfold u32. rewrite <- Ep, Z.mul_mod_distr_r, <- Z.shiftl_mul_pow2 by lia.
  rewrite lor_shiftl_add; [by rewrite Z.shiftl_mul_pow2 by lia|lia|].
  split; [apply Z.div_pos; lia|apply Z.div_lt_upper_bound; lia].
Qed.

Lemma MD5STEP_step X f s i a b c d :
  (i < 64)%nat -> same_fn f i -> md5_s i = s -> 0 < s < 32 -> regs_ok (Regs a b c d) ->
  md5_step X (Regs a b c d) i = Regs d (MD5STEP f a b c d (step_data X (Z.of_nat i)) s) b c /\
  regs_ok (Regs d (MD5STEP f a b c d (step_data X (Z.of_nat i)) s) b c).
Proof.
  intros Hi Hf Es Hs Hr. unfold regs_ok, regs_list in *. cbn in Hr |- *. rewrite !Forall_cons in Hr. destruct Hr as (Ha & Hb & Hc & Hd & _).
  assert (word32 (MD5STEP f a b c d (step_data X (Z.of_nat i)) s)) as Hw by (apply u32_range).
  split; [|by rewrite !Forall_cons]. unfold md5_step, MD5STEP. cbn [rA rB rC rD]. f_equal. rewrite Es, Hf by done.
  rewrite step_data_eq by done. rewrite rotl_word by (done || apply u32_range). rewrite Z.add_comm.
  do 3 f_equal. generalize (f b c d) (X !!! md5_k i) (md5_t i). intros. clear. wrap_lia.
Qed.

Lemma four_ok X f s1 s2 s3 s4 i r :
  (i + 3 < 64)%nat -> (forall j, (j < 4)%nat -> same_fn f (i + j)) ->
  md5_s (i + 0) = s1 -> md5_s (i + 1) = s2 -> md5_s (i + 2) = s3 -> md5_s (i + 3) = s4 ->
  0 < s1 < 32 -> 0 < s2 < 32 -> 0 < s3 < 32 -> 0 < s4 < 32 -> regs_ok r ->
  four X f s1 s2 s3 s4 r (Z.of_nat i) = fold_left (md5_step X) [i + 0; i + 1; i + 2; i + 3]%nat r /\
  regs_ok (four X f s1 s2 s3 s4 r (Z.of_nat i)).
Proof.
  intros Hi Hf E1 E2 E3 E4 H1 H2 H3 H4 Hr. destruct r as [a b c d]. unfold four. cbn [fold_left].
  replace (Z.of_nat i + 0) with (Z.of_nat (i + 0)) by lia. replace (Z.of_nat i + 1) with (Z.of_nat (i + 1)) by lia.
  replace (Z.of_nat i + 2) with (Z.of_nat (i + 2)) by lia. replace (Z.of_nat i + 3) with (Z.of_nat (i + 3)) by lia. cbv zeta.
  destruct (MD5STEP_step X f s1 (i + 0) a b c d) as [-> Hr1]; [lia|apply Hf; lia|done..|].
  set (a' := MD5STEP f a b c d _ s1) in *.
  destruct (MD5STEP_step X f s2 (i + 1) d a' b c) as [-> Hr2]; [lia|apply Hf; lia|done..|].
  set (d' := MD5STEP f d a' b c _ s2) in *.
  destruct (MD5STEP_step X f s3 (i + 2) c d' a' b) as [-> Hr3]; [lia|apply Hf; lia|done..|].
  set (c' := MD5STEP f c d' a' b _ s3) in *.
  destruct (MD5STEP_step X f s4 (i + 3) b c' d' a') as [-> Hr4]; [lia|apply Hf; lia|done..|].
  done.
Qed.

Definition group (i : nat) : list nat := [i + 0; i + 1; i + 2; i + 3]%nat.

(** The groups of one function. *)
Lemma fours_ok X f s1 s2 s3 s4 l : forall r,
  (forall i, In i l -> (i + 3 < 64)%nat /\ (forall j, (j < 4)%nat -> same_fn f (i + j)) /\ map md5_s (group i) = [s1; s2; s3; s4]) ->
  0 < s1 < 32 -> 0 < s2 < 32 -> 0 < s3 < 32 -> 0 < s4 < 32 -> regs_ok r ->
  fold_left (four X f s1 s2 s3 s4) (map Z.of_nat l) r = fold_left (md5_step X) (flat_map group l) r /\
  regs_ok (fold_left (md5_step X) (flat_map group l) r).
Proof.
  induction l as [|i l IH]; intros r Hl H1 H2 H3 H4 Hr; [done|].
  destruct (Hl i) as (Hi & Hf & [= E1 E2 E3 E4]); [by left|].
  destruct (four_ok X f s1 s2 s3 s4 i r) as [E Hr']; [done..|].
  cbn [map fold_left flat_map]. rewrite fold_left_app. unfold group at 2 4. rewrite <- E. apply IH; try done.
  intros k Hk. apply Hl. by right.
Qed.

Ltac group_tac H :=
  let i := fresh "i" in let Hi := fresh "Hi" in let j := fresh "j" in let Hj := fresh "Hj" in
  intros i Hi; repeat destruct Hi as [<- |Hi]; [..|done]; (split; [lia|split; [|reflexivity]]);
  intros j Hj; apply H; do 4 (destruct j as [|j]; [reflexivity|]); lia.

Lemma MD5Transform_eq st X :
  length st = 4%nat -> Forall word32 st ->
  MD5Transform st X = zip_with (fun x y => u32 (x + y)) st (regs_list (fold_left (md5_step X) (seq 0 64) (regs_of st))).
Proof.
  intros L F. unfold MD5Transform. cbv zeta. do 2 f_equal.
  assert (regs_ok (regs_of st)) as Hr.
  { unfold regs_ok, regs_of, regs_list. cbn [rA rB rC rD]. repeat (apply Forall_cons; split; [apply (Forall_lookup_total_1 _ _ _ F); lia|]).
    by apply Forall_nil. }
  change (seq 0 64) with (flat_map group [0; 4; 8; 12]%nat ++ flat_map group [16; 20; 24; 28]%nat ++
    flat_map group [32; 36; 40; 44]%nat ++ flat_map group [48; 52; 56; 60]%nat). rewrite !fold_left_app.
  change [0; 4; 8; 12] with (map Z.of_nat [0; 4; 8; 12]%nat). change [16; 20; 24; 28] with (map Z.of_nat [16; 20; 24; 28]%nat).
  change [32; 36; 40; 44] with (map Z.of_nat [32; 36; 40; 44]%nat). change [48; 52; 56; 60] with (map Z.of_nat [48; 52; 56; 60]%nat).
  generalize dependent (regs_of st). intros r Hr.
  destruct (fours_ok X F1 7 12 17 22 [0; 4; 8; 12]%nat r) as [-> Hr1]; [group_tac same_fn1|lia|lia|lia|lia|done|].
  generalize dependent (fold_left (md5_step X) (flat_map group [0; 4; 8; 12]%nat) r). clear r Hr. intros r Hr.
  destruct (fours_ok X F2 5 9 14 20 [16; 20; 24; 28]%nat r) as [-> Hr2]; [group_tac same_fn2|lia|lia|lia|lia|done|].
  generalize dependent (fold_left (md5_step X) (flat_map group [16; 20; 24; 28]%nat) r). clear r Hr. intros r Hr.
  destruct (fours_ok X F3 4 11 16 23 [32; 36; 40; 44]%nat r) as [-> Hr3]; [group_tac same_fn3|lia|lia|lia|lia|done|].
  generalize dependent (fold_left (md5_step X) (flat_map group [32; 36; 40; 44]%nat) r). clear r Hr. intros r Hr.
  destruct (fours_ok X F4 6 10 15 21 [48; 52; 56; 60]%nat r) as [-> _]; [group_tac same_fn4|lia|lia|lia|lia|done|].
  done.
Qed.

Definition state_ok (st : list Z) : Prop := length st = 4%nat /\ Forall word32 st.

(** One block that lies in [blk]. *)
Definition md5_block (st blk : list Z) : list Z := MD5Transform st (le_words blk).

Lemma md5_block_compress st blk : state_ok st -> md5_block st blk = md5_compress st blk.
Proof. intros [L F]. unfold md5_block, md5_compress. by rewrite MD5Transform_eq. Qed.

Lemma md5_compress_ok st blk : state_ok st -> state_ok (md5_compress st blk).
Proof.
  intros [Ls Fs]. unfold md5_compress, state_ok. split; [by rewrite length_zip_with, Ls|].
  apply Forall_lookup. intros i x (y & z & -> & _ & _)%lookup_zip_with_Some. apply u32_range.
Qed.

Lemma md5_init_ok : state_ok md5_init.
Proof. split; [done|]. unfold md5_init, word32. repeat (apply Forall_cons; split; [lia|]). by apply Forall_nil. Qed.

Lemma md5_iterate_ok q : state_ok (iterate 64 md5_compress md5_init q).
Proof.
  unfold iterate. generalize (Z.to_nat (len q / 64)). intros k. generalize md5_init, md5_init_ok.
  revert q. induction k as [|k IH]; intros q st Hs; [done|]. apply IH, md5_compress_ok, Hs.
Qed.

(** * The buffer *)

Lemma reverse_word b0 b1 b2 b3 :
  is_byte b0 -> is_byte b1 -> is_byte b2 -> is_byte b3 ->
  le_bytes 4 (Z.lor (u32 (Z.shiftl (Z.lor (Z.shiftl b3 8) b2) 16)) (Z.lor (Z.shiftl b1 8) b0)) = [b0; b1; b2; b3].
Proof.
  unfold is_byte. intros H0 H1 H2 H3. rewrite !(lor_shiftl_add _ _ 8) by lia. change (2 ^ 8) with 256.
  rewrite Z.shiftl_mul_pow2 by lia. change (2 ^ 16) with 65536. rewrite u32_small by lia.
  change 65536 with (2 ^ 16) at 1. rewrite <- Z.shiftl_mul_pow2, lor_shiftl_add by lia. change (2 ^ 16) with 65536.
  cbn [le_bytes]. rewrite !Z.shiftr_shiftr, !(Z.land_ones _ 8), !Z.shiftr_div_pow2 by lia.
  change (2 ^ 8) with 256. change (2 ^ (8 + 8)) with 65536. change (2 ^ (8 + 8 + 8)) with 16777216.
  f_equal; [zlia|]. f_equal; [zlia|]. f_equal; [zlia|]. f_equal. zlia.
Qed.

(** On a little-endian machine it changes nothing. *)
Lemma byteReverse_id buf k : bytes buf -> 4 * Z.of_nat k <= len buf -> byteReverse buf k = buf.
Proof.
  unfold byteReverse. intros F. induction k as [|k IH]; intros H; [done|].
  rewrite seq_S, fold_left_app, IH by lia. cbn [fold_left Nat.add].
  assert (forall j, 0 <= j < len buf -> is_byte (buf !!! Z.to_nat j)) as Hb.
  { intros j Hj. apply (Forall_lookup_total_1 _ _ _ F). lia. }
  set (p := 4 * Z.of_nat k) in *. rewrite reverse_word by (apply Hb; lia).
  replace [buf !!! Z.to_nat p; buf !!! Z.to_nat (p + 1); buf !!! Z.to_nat (p + 2); buf !!! Z.to_nat (p + 3)] with (slice buf p (p + 4)).
  - slice_ext.
  - rewrite !slice_cons by lia. rewrite slice_empty by lia.
    replace (p + 1 + 1) with (p + 2) by lia. by replace (p + 2 + 1) with (p + 3) by lia.
Qed.

Lemma bytes_store b off d : bytes b -> bytes d -> bytes (store b off d).
Proof. intros Fb Fd. unfold store. repeat (apply Forall_app; split); [by apply Forall_take|done|by apply Forall_drop]. Qed.

Lemma bytes_slice b lo hi : bytes b -> bytes (slice b lo hi).
Proof. intros Fb. by apply Forall_take, Forall_drop. Qed.

Lemma md5_blocks_ok k : forall st in_ buf,
  bytes in_ -> bytes buf -> len in_ = 64 -> Z.of_nat k * 64 <= len buf ->
  (md5_blocks k st in_ buf).1 = process 64 md5_block k st buf /\
  len (md5_blocks k st in_ buf).2 = 64 /\ bytes (md5_blocks k st in_ buf).2.
Proof.
  induction k as [|k IH]; intros st in_ buf Fi Fb Li Hl; [done|]. cbn [md5_blocks process].
  assert (store in_ 0 (slice buf 0 64) = slice buf 0 64) as E.
  { unfold store. change (Z.to_nat 0) with 0%nat. rewrite take_0. cbn [app Nat.add].
    rewrite drop_ge, app_nil_r; [done|]. pose proof (slice_length buf 0 64 ltac:(lia) ltac:(lia) ltac:(lia)). lia. }
  rewrite E, byteReverse_id; [|by apply bytes_slice|rewrite slice_length; lia].
  change (Z.to_nat 64) with 64%nat. unfold md5_block at 1. fold (md5_block st (slice buf 0 64)).
  apply IH; [by apply bytes_slice|by apply Forall_drop|rewrite slice_length; lia|rewrite length_drop; lia].
Qed.

(** A context that has been given the bytes of [m]. *)
Record md5_holds (ctx : MD5Context) (m : list Z) : Prop := {
  m5_bytes : bytes m;
  m5_bits0 : word32 (bits0 ctx);
  m5_bits1 : word32 (bits1 ctx);
  m5_bits : bits1 ctx * 4294967296 + bits0 ctx = u64 (8 * len m);
  m5_in : bytes (m_in ctx);
  m5_buffered : buffered 64 md5_block md5_init m (m_buf ctx) (m_in ctx);
}.

Definition md5_ctx (ctx : MD5Context) : Prop := len (m_in ctx) = 64 /\ bytes (m_in ctx).

Lemma MD5Init_holds ctx : md5_ctx ctx -> md5_holds (MD5Init ctx) [].
Proof.
  intros [L F]. split; cbn [MD5Init bits0 bits1 m_buf m_in]; [constructor|unfold word32; lia|unfold word32; lia|done|done|].
  split; [done|]. change (len [] mod 64) with 0. rewrite slice_empty by lia. apply absorbed_init. lia.
Qed.

(** The count of bits. *)
Lemma md5_bits b0 b1 l n :
  word32 b0 -> word32 b1 -> 0 <= n < 4294967296 -> b1 * 4294967296 + b0 = u64 (8 * l) ->
  let c0 := u32 (b0 + u32 (Z.shiftl n 3)) in
  let c1 := u32 ((if c0 <? b0 then u32 (b1 + 1) else b1) + Z.shiftr n 29) in
  word32 c0 /\ word32 c1 /\ c1 * 4294967296 + c0 = u64 (8 * (l + n)).
Proof.
  unfold word32. intros H0 H1 Hn E. cbv zeta. rewrite Z.shiftl_mul_pow2, Z.shiftr_div_pow2 by lia.
  change (2 ^ 3) with 8. change (2 ^ 29) with 536870912. split_and!; [apply u32_range..|apply u32_range|apply u32_range|].
  replace (8 * (l + n)) with (8 * l + 8 * n) by lia. unfold u64 in *. rewrite <- (Zplus_mod_idemp_l (8 * l)), <- E.
  unfold u32. case_Z; zlia.
Qed.

Lemma store_none (b : list Z) off : store b off [] = b.
Proof. unfold store. cbn [app length]. rewrite Nat.add_0_r. apply take_drop. Qed.

(** The whole blocks of the data and what is left of it, from an empty buffer. *)
Lemma md5_rest m st in_ buf n :
  absorbed 64 md5_block md5_init m st [] -> bytes in_ -> len in_ = 64 -> bytes buf -> 0 <= n <= len buf ->
  let r := md5_blocks (Z.to_nat (n / 64)) st in_ buf in
  let in2 := store r.2 0 (slice (drop (Z.to_nat (n / 64 * 64)) buf) 0 (n mod 64)) in
  buffered 64 md5_block md5_init (m ++ slice buf 0 n) r.1 in2 /\ bytes in2.
Proof.
  intros Ha Fi Li Fb Hn. cbv zeta. pose proof (Z.div_mod n 64 ltac:(lia)) as E. pose proof (Z.mod_pos_bound n 64 ltac:(lia)).
  assert (0 <= n / 64) by (apply Z.div_pos; lia).
  destruct (md5_blocks_ok (Z.to_nat (n / 64)) st in_ buf) as (E1 & L2 & F2); [done..|lia|].
  split; [|apply bytes_store; [done|]; by apply bytes_slice, Forall_drop].
  set (d := slice buf 0 n). assert (len d = n) as Ld by (unfold d; rewrite slice_length; lia).
  pose proof (absorbed_direct 64 md5_block ltac:(lia) md5_init m st d Ha) as Hd. rewrite Ld in Hd.
  rewrite E1. replace (process 64 md5_block (Z.to_nat (n / 64)) st buf) with (process 64 md5_block (Z.to_nat (n / 64)) st d).
  2:{ symmetry. rewrite <- (slice_all buf). rewrite (slice_split buf 0 n) by lia. apply process_prefix; lia. }
  replace (slice (drop (Z.to_nat (n / 64 * 64)) buf) 0 (n mod 64)) with (slice d (n / 64 * 64) n).
  2:{ unfold d. clear - E Hn H H0. assert (n = n / 64 * 64 + n mod 64) as E' by lia. revert E' H H0.
      generalize (n / 64), (n mod 64). intros q r E' H H0. subst n. clear E. slice_ext. }
  pose proof (buffered_stow 64 md5_block ltac:(lia) _ _ _ _ _ L2 Hd) as Hs.
  destruct (Z.eqb_spec (len (slice d (n / 64 * 64) n)) 0) as [Ez|]; [|done].
  destruct (slice d (n / 64 * 64) n); [|cbn in Ez; lia]. by rewrite store_none.
Qed.

Lemma MD5Update_holds ctx m buf n :
  md5_holds ctx m -> bytes buf -> 0 <= n <= len buf -> n < 4294967296 ->
  md5_holds (MD5Update ctx buf n) (m ++ slice buf 0 n).
Proof.
  intros [Hm H0 H1 Ht Fi Hb] Fb Hn Hl.
  destruct (md5_bits _ _ _ n H0 H1 ltac:(lia) Ht) as (B0 & B1 & Bt).
  assert (bytes (m ++ slice buf 0 n)) as Fm by (apply Forall_app; split; [done|by apply bytes_slice]).
  assert (len (slice buf 0 n) = n) as Ld by (rewrite slice_length; lia).
  assert (8 * len (m ++ slice buf 0 n) = 8 * (len m + n)) as El by (rewrite length_app; lia). rewrite <- El in Bt.
  assert (Z.land (Z.shiftr (bits0 ctx) 3) 63 = len m mod 64) as Eu.
  { rewrite (Z.land_ones _ 6), Z.shiftr_div_pow2 by lia. change (2 ^ 3) with 8. change (2 ^ 6) with 64.
    unfold word32 in *. unfold u64 in Ht. zlia. }
  unfold MD5Update. rewrite Eu. pose proof (Z.mod_pos_bound (len m) 64 ltac:(lia)) as Hu.
  pose proof Hb as [Lb Ha]. set (used := len m mod 64) in *. cbv zeta.
  destruct (Z.eqb_spec used 0) as [Ez|Ez]; cbn [negb andb].
  - rewrite Ez, slice_empty in Ha by lia.
    destruct (md5_rest m _ _ buf n Ha Fi Lb Fb Hn) as [Hs Fs].
    destruct (md5_blocks (Z.to_nat (n / 64)) (m_buf ctx) (m_in ctx) buf). by split.
  - destruct (Z.ltb_spec n (64 - used)).
    + split; cbn [bits0 bits1 m_in m_buf]; try done; [by apply bytes_store; [|apply bytes_slice]|].
      pose proof (feed_ok 64 md5_block ltac:(lia) md5_init m (m_buf ctx) (m_in ctx) (slice buf 0 n) Hb) as Hf.
      unfold feed in Hf. fold used in Hf. rewrite Ld in Hf. destruct (Z.eqb_spec used 0); [done|].
      destruct (Z.leb_spec (64 - used) n); [lia|]. cbn [negb andb fst snd] in Hf.
      rewrite Z.div_small, Z.mul_0_l, (slice_whole (slice buf 0 n)), Ld in Hf by (done || lia). cbn [Z.to_nat process] in Hf.
      destruct (Z.eqb_spec n 0) as [-> |]; [|done]. by rewrite (slice_empty buf), store_none in * by lia.
    + set (d0 := slice buf 0 (64 - used)). assert (len d0 = 64 - used) as L0 by (unfold d0; rewrite slice_length; lia).
      set (in1 := store (m_in ctx) used d0). assert (len in1 = 64) as L1 by (unfold in1; rewrite store_length; lia).
      assert (bytes in1) as F1 by (apply bytes_store; [done|by apply bytes_slice]).
      rewrite byteReverse_id by (done || lia).
      assert (absorbed 64 md5_block md5_init (m ++ d0) (md5_block (m_buf ctx) in1) []) as Ha1.
      { pose proof (absorbed_blocks 64 md5_block ltac:(lia) _ _ _ _ d0 1 Ha) as Hx. cbn [process] in Hx.
        rewrite slice_length in Hx by lia. specialize (Hx ltac:(lia)).
        replace in1 with (slice in1 0 64) by (by apply slice_whole). unfold in1. rewrite (slice_store_app _ used d0 0 64) by lia.
        by rewrite (slice_whole (slice (m_in ctx) 0 used ++ d0)) in Hx by (rewrite length_app; rewrite Nat2Z.inj_add, slice_length; lia). }
      destruct (md5_rest _ _ in1 (drop (Z.to_nat (64 - used)) buf) (n - (64 - used)) Ha1 F1 L1) as [Hs Fs];
        [by apply Forall_drop|rewrite length_drop; lia|].
      fold (md5_block (m_buf ctx) in1).
      destruct (md5_blocks (Z.to_nat ((n - (64 - used)) / 64)) (md5_block (m_buf ctx) in1) in1 (drop (Z.to_nat (64 - used)) buf)).
      split; try done. cbn [m_buf m_in]. rewrite <- app_assoc in Hs.
      by replace (d0 ++ slice (drop (Z.to_nat (64 - used)) buf) 0 (n - (64 - used))) with (slice buf 0 n) in Hs by (unfold d0; slice_ext).
Qed.

(** * The end of a message *)

Lemma le_rev n w : le_bytes n w = rev (be_bytes n w).
Proof. unfold be_bytes. by rewrite rev_involutive. Qed.
Lemma le_len n w : length (le_bytes n w) = n.
Proof. by rewrite le_rev, length_rev, be_bytes_length. Qed.
Lemma le_bytes_bytes n w : bytes (le_bytes n w).
Proof. rewrite le_rev. apply Forall_rev, be_bytes_bytes. Qed.

Lemma concat_le (l : list Z) : length (concat (map (le_bytes 4) l)) = (4 * length l)%nat /\ bytes (concat (map (le_bytes 4) l)).
Proof.
  induction l as [|x l [IH1 IH2]]; cbn [map concat]; [done|]. rewrite length_app, le_len, IH1. split; [cbn; lia|].
  apply Forall_app. split; [apply le_bytes_bytes|done].
Qed.

Lemma md5_bits_bytes b0 b1 n :
  word32 b0 -> word32 b1 -> b1 * 4294967296 + b0 = u64 n -> le_bytes 4 b0 ++ le_bytes 4 b1 = le_bytes 8 n.
Proof.
  intros H0 H1 E. rewrite !le_rev, <- rev_app_distr. f_equal. rewrite <- (be_bytes_mod 8 n).
  change (256 ^ Z.of_nat 8) with 18446744073709551616. fold (u64 n). rewrite <- E. symmetry. apply (be_bytes_app 4 4). apply H0.
Qed.

Lemma zeros_ok (b : list Z) o k :
  bytes b -> len b = 64 -> 0 <= o -> 0 <= k -> o + k <= 64 ->
  len (store b o (replicate (Z.to_nat k) 0)) = 64 /\ bytes (store b o (replicate (Z.to_nat k) 0)).
Proof.
  intros Fb Lb ? ? ?. split; [rewrite store_length; rewrite ?length_replicate; lia|].
  apply bytes_store; [done|]. by apply Forall_replicate.
Qed.

(** The last blocks are those of [close]. *)
Lemma md5_padded_close st in_ count lenb :
  len in_ = 64 -> bytes in_ -> 0 <= count < 64 ->
  let r := md5_padded st in_ count in
  len r.2 = 64 /\ bytes r.2 /\ close 64 md5_block 8 st in_ count lenb = md5_block r.1 (slice (store r.2 56 lenb) 0 64).
Proof.
  intros L F Hc. unfold md5_padded, close. change (64 - 8) with 56. cbv zeta.
  assert (len (store in_ count [128]) = 64) as L1 by (rewrite store_length; cbn [length]; lia).
  assert (bytes (store in_ count [128])) as F1 by (apply bytes_store; [done|repeat constructor; done]).
  set (in1 := store in_ count [128]) in *.
  destruct (Z.ltb_spec (64 - 1 - count) 8), (Z.ltb_spec 56 (count + 1)); try lia; cbn [fst snd].
  - destruct (zeros_ok in1 (count + 1) (64 - 1 - count)) as [L3 F3]; [done..|lia|lia|lia|].
    rewrite byteReverse_id by (done || lia). replace (64 - (count + 1)) with (64 - 1 - count) by lia.
    destruct (zeros_ok _ 0 56 F3 L3) as [L4 F4]; [lia..|]. split_and!; [done|done|].
    rewrite (slice_whole (store in1 (count + 1) _)) by done. done.
  - destruct (zeros_ok in1 (count + 1) (64 - 1 - count - 8)) as [L3 F3]; [done..|lia|lia|lia|].
    replace (56 - (count + 1)) with (64 - 1 - count - 8) by lia. done.
Qed.

Lemma MD5Final_close digest ctx :
  md5_ctx ctx -> length digest = 16%nat ->
  let count := Z.land (Z.shiftr (bits0 ctx) 3) 63 in
  let st := close 64 md5_block 8 (m_buf ctx) (m_in ctx) count (le_bytes 4 (bits0 ctx) ++ le_bytes 4 (bits1 ctx)) in
  length st = 4%nat -> (MD5Final digest ctx).1 = concat (map (le_bytes 4) st).
Proof.
  intros [L F] Ld. cbv zeta. unfold MD5Final.
  assert (0 <= Z.land (Z.shiftr (bits0 ctx) 3) 63 < 64) as Hc.
  { rewrite (Z.land_ones _ 6) by lia. apply Z.mod_pos_bound. lia. }
  destruct (md5_padded_close (m_buf ctx) (m_in ctx) _ (le_bytes 4 (bits0 ctx) ++ le_bytes 4 (bits1 ctx)) L F Hc) as (L2 & F2 & ->).
  destruct (md5_padded (m_buf ctx) (m_in ctx) (Z.land (Z.shiftr (bits0 ctx) 3) 63)) as [st2 in2]. cbn [fst snd] in *.
  rewrite (byteReverse_id in2 14) by (done || lia).
  assert (store (store in2 56 (le_bytes 4 (bits0 ctx))) 60 (le_bytes 4 (bits1 ctx)) =
          slice (store in2 56 (le_bytes 4 (bits0 ctx) ++ le_bytes 4 (bits1 ctx))) 0 64) as ->.
  { pose proof (le_len 4 (bits0 ctx)). pose proof (le_len 4 (bits1 ctx)).
    rewrite slice_whole by (rewrite store_length; rewrite ?length_app; lia). slice_ext. }
  unfold md5_block. generalize (MD5Transform st2 (le_words (slice (store in2 56 (le_bytes 4 (bits0 ctx) ++ le_bytes 4 (bits1 ctx))) 0 64))).
  intros st Ls. destruct (concat_le st) as [Lc Fc]. rewrite Ls in Lc. rewrite byteReverse_id by (done || lia). rewrite slice_whole by lia.
  unfold store. change (Z.to_nat 0) with 0%nat. rewrite take_0, drop_ge by lia. cbn [app]. by rewrite app_nil_r.
Qed.

Lemma MD5Final_hash digest ctx m :
  md5_holds ctx m -> length digest = 16%nat ->
  (MD5Final digest ctx).1 = MD5 m /\ md5_ctx (MD5Final digest ctx).2.
Proof.
  intros [Hm H0 H1 Ht Fi Hb] Ld. split.
  2:{ unfold MD5Final. destruct (md5_padded _ _ _). split; cbn [m_in]; [done|by apply Forall_replicate]. }
  assert (Z.land (Z.shiftr (bits0 ctx) 3) 63 = len m mod 64) as Eu.
  { rewrite (Z.land_ones _ 6), Z.shiftr_div_pow2 by lia. change (2 ^ 3) with 8. change (2 ^ 6) with 64.
    unfold word32, u64 in *. zlia. }
  pose proof Hb as [Lb _]. pose proof (MD5Final_close digest ctx (conj Lb Fi) Ld) as Hc. cbv zeta in Hc.
  rewrite Eu, (md5_bits_bytes _ _ (8 * len m)) in Hc by done.
  rewrite (close_iterate 64 _ ltac:(lia) 8 md5_init m) in Hc; [|lia|by rewrite le_len|done].
  change (64 - 8 - 1 - len m) with (55 - len m) in Hc. change ([128] ++ _ ++ _) with (md5_pad (len m)) in Hc.
  set (q := m ++ md5_pad (len m)) in *.
  assert (bytes q) as Fq.
  { apply Forall_app. split; [done|]. unfold md5_pad. apply Forall_cons. split; [unfold is_byte; lia|].
    apply Forall_app. split; [by apply Forall_replicate|apply le_bytes_bytes]. }
  assert (iterate 64 md5_block md5_init q = iterate 64 md5_compress md5_init q) as Es.
  { unfold iterate. apply process_ext with (P := state_ok); [lia| |apply md5_init_ok|done|zlia].
    intros st blk Hs _ _. split; [by apply md5_block_compress|by apply md5_compress_ok]. }
  rewrite Es in Hc. rewrite Hc; [done|]. apply md5_iterate_ok.
Qed.

#[global] Instance md5_digest : Digest := {|
  dctx := MD5Context;
  d_starts := MD5Init;
  d_update := MD5Update;
  d_finish := MD5Final (replicate 16 0);
  d_hash := MD5;
  d_max := 4294967296;
  d_ctx := md5_ctx;
  d_holds := md5_holds;
  d_starts_ok := MD5Init_holds;
  d_update_ok := MD5Update_holds;
  d_max_ok := ltac:(lia);
  d_finish_ok := fun c m H => MD5Final_hash (replicate 16 0) c m H eq_refl;
|}.

Definition md5_wd (wd : bool) (fuel : nat) (ctx : MD5Context) (input : list Z) (n chunk_sz : Z) : option (list Z) :=
  csum_wd (D := md5_digest) wd fuel ctx input n chunk_sz.

(** C30: the digest of a message that arrives in pieces of any sizes is its
    MD5 by the definition of RFC 1321, its table of sines included: the
    unrolled steps, the bit counter, the padding in place and the byte-order
    conversions compute that function. *)
Theorem md5_streams ctx msgs digest :
  md5_ctx ctx -> length digest = 16%nat ->
  Forall (fun d => bytes d /\ len d < 4294967296) msgs ->
  (MD5Final digest (fold_left (fun c d => MD5Update c d (len d)) msgs (MD5Init ctx))).1 = MD5 (concat msgs).
Proof.
  intros Hc Ld F. pose proof (d_pieces_holds (D := md5_digest) msgs (MD5Init ctx) [] (MD5Init_holds ctx Hc) F) as H.
  by apply (MD5Final_hash digest) in H as [H _].
Qed.

Lemma md5_streams_witness :
  let c := {| m_buf := replicate 4 1; bits0 := 7; bits1 := 9; m_in := replicate 64 3 |} in
  (MD5Final (replicate 16 0) (MD5Update (MD5Update (MD5Init c) [97; 98] 2) [99] 1)).1 = MD5 [97; 98; 99] /\
  MD5 [97; 98; 99] = [144; 1; 80; 152; 60; 210; 79; 176; 214; 150; 63; 125; 40; 225; 127; 114].
Proof.
  intros c. split; [|vm_compute; reflexivity].
  assert (Forall (fun d => bytes d /\ len d < 4294967296) [[97; 98]; [99]]) as F by (repeat constructor; intros [=]).
  assert (md5_ctx c) as Hc by (split; [reflexivity|repeat constructor; intros [=]]).
  exact (md5_streams c [[97; 98]; [99]] (replicate 16 0) Hc eq_refl F).
Defined.
