(* ===== verification/HashAlgo.v ===== *)
(** The hash algorithms by name (common/hash.c): lookup, hashing a block or
    progressively, and the hash command with its store and verify modes; with
    the two checksums lib/crc16-ccitt.c and lib/crc8.c.

    A call that follows a null pointer or leaves the memory it was given ends
    in [Overrun], as in [EnvCommon].  The machine is little-endian.  Memory is
    a list of bytes and an address an offset in it.  What is printed is left
    out; every algorithm is configured, without hardware acceleration. *)

From stdpp Require Import gmap.
From S2P Require Import Prelude Bytes Cstring CstringProps Strto Hashtable HashSearch HashProps HashEntries HashClaims EnvFlags Crc32 Vsprintf VsprintfNumber VsprintfRound EnvCommon EnvCommonProps NetUtils.
From S2P Require Import Digest Sha1 Sha256 Sha512 Md5.

(** * CRC-16 and CRC-8 *)

Definition crc16_tab : list Z :=
  [
   0; 4129; 8258; 12387; 16516; 20645; 24774; 28903; 33032; 37161; 41290; 45419;
   49548; 53677; 57806; 61935; 4657; 528; 12915; 8786; 21173; 17044; 29431; 25302;
   37689; 33560; 45947; 41818; 54205; 50076; 62463; 58334; 9314; 13379; 1056; 5121;
   25830; 29895; 17572; 21637; 42346; 46411; 34088; 38153; 58862; 62927; 50604; 54669;
   13907; 9842; 5649; 1584; 30423; 26358; 22165; 18100; 46939; 42874; 38681; 34616;
   63455; 59390; 55197; 51132; 18628; 22757; 26758; 30887; 2112; 6241; 10242; 14371;
   51660; 55789; 59790; 63919; 35144; 39273; 43274; 47403; 23285; 19156; 31415; 27286;
   6769; 2640; 14899; 10770; 56317; 52188; 64447; 60318; 39801; 35672; 47931; 43802;
   27814; 31879; 19684; 23749; 11298; 15363; 3168; 7233; 60846; 64911; 52716; 56781;
   44330; 48395; 36200; 40265; 32407; 28342; 24277; 20212; 15891; 11826; 7761; 3696;
   65439; 61374; 57309; 53244; 48923; 44858; 40793; 36728; 37256; 33193; 45514; 41451;
   53516; 49453; 61774; 57711; 4224; 161; 12482; 8419; 20484; 16421; 28742; 24679;
   33721; 37784; 41979; 46042; 49981; 54044; 58239; 62302; 689; 4752; 8947; 13010;
   16949; 21012; 25207; 29270; 46570; 42443; 38312; 34185; 62830; 58703; 54572; 50445;
   13538; 9411; 5280; 1153; 29798; 25671; 21540; 17413; 42971; 47098; 34713; 38840;
   59231; 63358; 50973; 55100; 9939; 14066; 1681; 5808; 26199; 30326; 17941; 22068;
   55628; 51565; 63758; 59695; 39368; 35305; 47498; 43435; 22596; 18533; 30726; 26663;
   6336; 2273; 14466; 10403; 52093; 56156; 60223; 64286; 35833; 39896; 43963; 48026;
   19061; 23124; 27191; 31254; 2801; 6864; 10931; 14994; 64814; 60687; 56684; 52557;
   48554; 44427; 40424; 36297; 31782; 27655; 23652; 19525; 15522; 11395; 7392; 3265;
   61215; 65342; 53085; 57212; 44955; 49082; 36825; 40952; 28183; 32310; 20053; 24180;
   11923; 16050; 3793; 7920].

(** [len] is an int. *)
Definition crc16_ccitt (cksum : Z) (buf : list Z) (len : Z) : Z :=
  fold_left (fun cksum b => u16 (Z.lxor (crc16_tab !!! Z.to_nat (Z.land (Z.lxor (Z.shiftr cksum 8) b) 255)) (Z.shiftl cksum 8)))
    (slice buf 0 len) cksum.

Definition crc16_ccitt_wd_buf (in_ : list Z) (len : Z) : list Z := be_bytes 2 (crc16_ccitt 0 in_ (s32 len)).

Definition POLY : Z := Z.shiftl 4208 3.
Definition _crc8 (data : Z) : Z :=
  let data := Nat.iter 8 (fun data => u16 (Z.shiftl (if negb (Z.land data 32768 =? 0) then u16 (Z.lxor data POLY) else data) 1)) data in
  u8 (Z.shiftr data 8).
Definition crc8 (crc : Z) (vptr : list Z) (len : Z) : Z :=
  fold_left (fun crc b => _crc8 (u16 (Z.shiftl (Z.lxor crc b) 8))) (slice vptr 0 len) crc.
Definition crc8_wd_buf (input : list Z) (len : Z) : list Z := [u8 (crc8 0 input (s32 len))].

(** * The table of algorithms *)

Inductive algo_id := ALGO_MD5 | ALGO_SHA1 | ALGO_SHA256 | ALGO_SHA384 | ALGO_SHA512 | ALGO_CRC16 | ALGO_CRC8 | ALGO_CRC32.

(** The function pointers are those of the identifier; [has_init] is whether
    the ones for progressive hashing are set. *)
Record hash_algo := HashAlgo { a_id : algo_id; a_name : list Z; digest_size : Z; chunk_size : Z; has_init : bool }.

Definition CHUNKSZ : Z := 65536.
Definition hash_algos : list hash_algo :=
  [HashAlgo ALGO_MD5 [109; 100; 53] 16 CHUNKSZ false;
   HashAlgo ALGO_SHA1 [115; 104; 97; 49] 20 CHUNKSZ true;
   HashAlgo ALGO_SHA256 [115; 104; 97; 50; 53; 54] 32 65536 true;
   HashAlgo ALGO_SHA384 [115; 104; 97; 51; 56; 52] 48 16384 true;
   HashAlgo ALGO_SHA512 [115; 104; 97; 53; 49; 50] 64 16384 true;
   HashAlgo ALGO_CRC16 [99; 114; 99; 49; 54; 45; 99; 99; 105; 116; 116] 2 CHUNKSZ true;
   HashAlgo ALGO_CRC8 [99; 114; 99; 56] 1 CHUNKSZ false;
   HashAlgo ALGO_CRC32 [99; 114; 99; 51; 50] 4 CHUNKSZ true].

Definition HASH_MAX_DIGEST_SIZE : Z := 64.
Definition EPROTONOSUPPORT : Z := 93.

Definition hash_lookup_algo (algo_name : list Z) : option hash_algo :=
  find (fun a => strcmp algo_name (a_name a) =? 0) hash_algos.
Definition hash_progressive_lookup_algo (algo_name : list Z) : option hash_algo :=
  find (fun a => (strcmp algo_name (a_name a) =? 0) && has_init a) hash_algos.

(** * Hashing in one call *)

(** What the contexts on the stack of the functions hold before they run. *)
Record locals := Locals {
  l_md5 : Md5.MD5Context; l_sha1 : Sha1.sha1_context; l_sha256 : Sha256.sha256_context; l_sha512 : Sha512.sha512_context
}.

(** The function hash_func_ws of an algorithm on [ilen] bytes at [addr]; [wd] is
    whether there is a watchdog, [None] a loop that does not end. *)
Definition hash_func_ws (id : algo_id) (wd : bool) (l : locals) (mem : list Z) (addr ilen chunk_sz : Z) : option (list Z) :=
  let input := drop (Z.to_nat addr) mem in
  let fuel := S (length input) in
  match id with
  | ALGO_MD5 => Md5.md5_wd wd fuel (l_md5 l) input ilen chunk_sz
  | ALGO_SHA1 => Sha1.sha1_csum_wd wd fuel (l_sha1 l) input ilen chunk_sz
  | ALGO_SHA256 => Sha256.sha256_csum_wd wd fuel (l_sha256 l) input ilen chunk_sz
  | ALGO_SHA384 => Sha512.sha384_csum_wd wd fuel (l_sha512 l) input ilen chunk_sz
  | ALGO_SHA512 => Sha512.sha512_csum_wd wd fuel (l_sha512 l) input ilen chunk_sz
  | ALGO_CRC16 => Some (crc16_ccitt_wd_buf input ilen)
  | ALGO_CRC8 => Some (crc8_wd_buf input ilen)
  | ALGO_CRC32 => crc32_wd_buf wd addr (slice input 0 ilen) chunk_sz
  end.

(** * Progressive hashing *)

Inductive hash_ctx :=
  | C_sha1 (c : Sha1.sha1_context) | C_sha256 (c : Sha256.sha256_context)
  | C_sha384 (c : Sha512.sha512_context) | C_sha512 (c : Sha512.sha512_context)
  | C_crc16 (v : Z) | C_crc32 (v : Z).

(** The memory malloc returned, [None] for a null pointer: no function looks. *)
Definition hash_init (id : algo_id) (m : option locals) : outcome hash_ctx :=
  match m with
  | None => Overrun
  | Some l =>
      match id with
      | ALGO_SHA1 => Done (C_sha1 (Sha1.sha1_starts (l_sha1 l)))
      | ALGO_SHA256 => Done (C_sha256 (Sha256.sha256_starts (l_sha256 l)))
      | ALGO_SHA384 => Done (C_sha384 (Sha512.sha384_starts (l_sha512 l)))
      | ALGO_SHA512 => Done (C_sha512 (Sha512.sha512_starts (l_sha512 l)))
      | ALGO_CRC16 => Done (C_crc16 0)
      | ALGO_CRC32 => Done (C_crc32 0)
      | ALGO_MD5 | ALGO_CRC8 => Overrun
      end
  end.

(** [size] bytes of [buf], which lies at [addr]. *)
Definition hash_update (ctx : hash_ctx) (addr : Z) (buf : list Z) (size : Z) : hash_ctx :=
  match ctx with
  | C_sha1 c => C_sha1 (Sha1.sha1_update c buf size)
  | C_sha256 c => C_sha256 (Sha256.sha256_update c buf size)
  | C_sha384 c => C_sha384 (Sha512.sha384_update c buf size)
  | C_sha512 c => C_sha512 (Sha512.sha512_update c buf size)
  | C_crc16 v => C_crc16 (crc16_ccitt v buf (s32 size))
  | C_crc32 v => C_crc32 (crc32 addr v (slice buf 0 size))
  end.

(** The return value, the buffer, and whether the context was freed. *)
Definition hash_finish (algo : hash_algo) (ctx : hash_ctx) (dest_buf : list Z) (size : Z) : Z * list Z * bool :=
  if size <? digest_size algo then (-1, dest_buf, false)
  else
    let n := Z.to_nat (digest_size algo) in
    let put sum := store dest_buf 0 sum in
    (0, match ctx with
        | C_sha1 c => put (Sha1.sha1_finish c (take n dest_buf)).1
        | C_sha256 c => put (Sha256.sha256_finish c (take n dest_buf)).1
        | C_sha384 c => put (Sha512.sha384_finish c (take n dest_buf)).1
        | C_sha512 c => put (Sha512.sha512_finish c (take n dest_buf)).1
        | C_crc16 v => put (le_bytes 2 v)
        | C_crc32 v => put (le_bytes 4 v)
        end, true).

(** * Digests as text *)

(** chr holds the two digits of byte [i]. *)
Definition parse_byte (chr : list Z) (str : list Z) (i : nat) : Z :=
  u8 (hextoul (cstr (strlcpy chr 0 (drop (2 * i) str) 3).2)).1.
Definition hash_parse_string (algo_name str : list Z) (chr result : list Z) : Z * list Z :=
  match hash_lookup_algo algo_name with
  | None => (- EPROTONOSUPPORT, result)
  | Some algo => (0, fold_left (fun r i => <[i := parse_byte chr str i]> r) (seq 0 (Z.to_nat (digest_size algo))) result)
  end.

(** The sum as hexadecimal digits in str_output, [None] for a write outside. *)
Definition hex_text (str_output : list Z) (sum : list Z) : option (list Z) :=
  match
    fold_left (fun r b =>
      match r with
      | None => None
      | Some (p, m) =>
          match sprintf false None None (drop p m) [37; 48; 50; 120] [ArgInt b] with
          | Some q => if pr_over q then None else Some (p + 2, take p m ++ pr_mem q)%nat
          | None => None
          end
      end) sum (Some (0%nat, str_output))
  with
  | Some (p, m) => Some (<[p := 0]> m)
  | None => None
  end.

(** * Hashing a block *)

Section Commands.
Context (wd : bool) (l : locals).

(** The return value, the output and its size; a null [output_size] is [None]. *)
Definition hash_block (algo_name : list Z) (mem : list Z) (data n : Z) (output : list Z) (output_size : option Z)
    : option (Z * list Z * option Z) :=
  match hash_lookup_algo algo_name with
  | None => Some (- EPROTONOSUPPORT, output, output_size)
  | Some algo =>
      if match output_size with Some s => s <? digest_size algo | None => false end
      then Some (- ENOSPC, output, output_size)
      else
        match hash_func_ws (a_id algo) wd l mem data n (chunk_size algo) with
        | None => None
        | Some sum => Some (0, store output 0 sum, option_map (fun _ => digest_size algo) output_size)
        end
  end.

(** * The hash command *)

Context `{EnvHooks} (config_env_size : Z) (default_environment : list Z).

Definition HASH_FLAG_VERIFY : Z := 1.
Definition HASH_FLAG_ENV : Z := 2.

Definition store_result (algo : hash_algo) (sum dest : list Z) (allow_env_vars : bool) (ram : list Z) (st : env_state)
    : outcome (list Z * env_state) :=
  let '(dest, env_var) :=
    if allow_env_vars then if rd dest =? 42 then (tl dest, false) else (dest, true) else (dest, false) in
  if env_var then
    match hex_text (replicate (Z.to_nat (HASH_MAX_DIGEST_SIZE * 2 + 1)) 0) (slice sum 0 (digest_size algo)) with
    | None => Overrun
    | Some m =>
        match env_set dest (Some (cstr m)) st with
        | Done (_, st) => Done (ram, st)
        | Overrun => Overrun
        | Hangs => Hangs
        end
    end
  else
    let addr := (hextoul dest).1 in
    if addr + digest_size algo <=? len ram then Done (store ram addr (slice sum 0 (digest_size algo)), st) else Overrun.

(** The return value and vsum; [chr] is what the digit buffer held. *)
Definition parse_verify_sum (algo : hash_algo) (verify_str vsum : list Z) (allow_env_vars : bool) (ram chr : list Z)
    (st : env_state) : outcome (Z * list Z * env_state) :=
  let '(verify_str, env_var) :=
    if allow_env_vars then if rd verify_str =? 42 then (tl verify_str, false) else (verify_str, true)
    else (verify_str, false) in
  if negb env_var then
    let addr := (hextoul verify_str).1 in
    if addr + digest_size algo <=? len ram then Done (0, store vsum 0 (slice ram addr (addr + digest_size algo)), st)
    else Overrun
  else
    let digits := digest_size algo * 2 in
    if strlen verify_str =? digits then Done (0, (hash_parse_string (a_name algo) verify_str chr vsum).2, st)
    else
      match env_get config_env_size default_environment verify_str st with
      | Done (Some vsum_str, st) =>
          if negb (strlen vsum_str =? digits) then Done (1, vsum, st)
          else Done (0, (hash_parse_string (a_name algo) vsum_str chr vsum).2, st)
      | Done (None, st) => Done (1, vsum, st)
      | Overrun => Overrun
      | Hangs => Hangs
      end.

Definition CMD_RET_FAILURE : Z := 1.

(** Verification is configured.  [output] is what memalign returned, [vsum] and
    [chr] what the local buffers held. *)
Definition hash_command (algo_name : list Z) (flags : Z) (argv : list (list Z)) (output : option (list Z)) (vsum chr : list Z)
    (ram : list Z) (st : env_state) : outcome (Z * list Z * env_state) :=
  let verify := negb (Z.land flags HASH_FLAG_VERIFY =? 0) in
  let allow_env := negb (Z.land flags HASH_FLAG_ENV =? 0) in
  match argv with
  | addr :: n :: rest =>
      if verify && (length argv <? 3)%nat then Done (CMD_RET_USAGE, ram, st)
      else
        let addr := (hextoul addr).1 in
        let n := (hextoul n).1 in
        match hash_lookup_algo algo_name with
        | None => Done (CMD_RET_USAGE, ram, st)
        | Some algo =>
            if HASH_MAX_DIGEST_SIZE <? digest_size algo then Done (1, ram, st)
            else
              match output with
              | None => Done (CMD_RET_FAILURE, ram, st)
              | Some output =>
                  if negb (addr + u32 n <=? len ram) then Overrun
                  else
                    match hash_func_ws (a_id algo) wd l ram addr (u32 n) (chunk_size algo) with
                    | None => Hangs
                    | Some sum =>
                        let output := store output 0 sum in
                        match rest with
                        | arg :: _ =>
                            if verify then
                              match parse_verify_sum algo arg vsum allow_env ram chr st with
                              | Done (r, vsum, st) =>
                                  if negb (r =? 0) then Done (1, ram, st)
                                  else if negb (memcmp output vsum (digest_size algo) =? 0) then Done (1, ram, st)
                                  else Done (0, ram, st)
                              | Overrun => Overrun
                              | Hangs => Hangs
                              end
                            else
                              match store_result algo output arg allow_env ram st with
                              | Done (ram, st) => Done (0, ram, st)
                              | Overrun => Overrun
                              | Hangs => Hangs
                              end
                        | [] => Done (0, ram, st)
                        end
                    end
              end
        end
  | _ => Done (CMD_RET_USAGE, ram, st)
  end.
End Commands.

(** * What the functions compute *)

(** The bit-serial CRC-16 with the polynomial x^16 + x^12 + x^5 + 1. *)
Definition crc16_bit (c : Z) : Z := if Z.testbit c 15 then Z.lxor (u16 (2 * c)) 4129 else u16 (2 * c).
Definition crc16_byte (c b : Z) : Z := Nat.iter 8 crc16_bit (Z.lxor c (256 * b)).
Definition crc16_spec (c : Z) (m : list Z) : Z := fold_left crc16_byte m c.

Definition all_bytes : list Z := map Z.of_nat (seq 0 256).
Lemma all_bytes_in b : is_byte b -> In b all_bytes.
Proof. intros H. unfold all_bytes. apply in_map_iff. exists (Z.to_nat b). unfold is_byte in H. split; [lia|]. apply in_seq. lia. Qed.

(** The table, for every upper and every lower byte. *)
Lemma crc16_table : forallb (fun hi => forallb (fun lo =>
  u16 (Z.lxor (crc16_tab !!! Z.to_nat hi) (256 * lo)) =? Nat.iter 8 crc16_bit (256 * hi + lo)) all_bytes) all_bytes = true.
Proof. vm_compute. reflexivity. Qed.

Lemma crc16_range c : 0 <= Nat.iter 8 crc16_bit c < 65536.
Proof.
  change (Nat.iter 8 crc16_bit c) with (crc16_bit (Nat.iter 7 crc16_bit c)). generalize (Nat.iter 7 crc16_bit c). intros x. unfold crc16_bit.
  pose proof (u16_range (2 * x)). destruct (Z.testbit x 15); [|done].
  assert (0 <= Z.lxor (u16 (2 * x)) 4129) by (apply Z.lxor_nonneg; lia). split; [done|].
  apply (range_bits _ 16); [lia|done|]. intros n Hn. rewrite Z.lxor_spec, !(testbit_high _ 16) by lia. done.
Qed.

Lemma crc16_step c b :
  0 <= c < 65536 -> is_byte b ->
  u16 (Z.lxor (crc16_tab !!! Z.to_nat (Z.land (Z.lxor (Z.shiftr c 8) b) 255)) (Z.shiftl c 8)) = crc16_byte c b.
Proof.
  intros Hc Hb. unfold is_byte in Hb. set (hi := Z.lxor (Z.shiftr c 8) b). set (lo := c mod 256).
  assert (Z.shiftr c 8 = c / 256) as Es by (by rewrite Z.shiftr_div_pow2).
  assert (is_byte hi) as Hhi.
  { unfold hi, is_byte. rewrite Es. assert (0 <= c / 256 < 256) by zlia.
    assert (0 <= Z.lxor (c / 256) b) by (apply Z.lxor_nonneg; lia). split; [done|]. apply (range_bits _ 8); [lia|done|].
    intros n Hn. rewrite Z.lxor_spec, !(testbit_high _ 8) by lia. done. }
  assert (is_byte lo) as Hlo by (apply Z.mod_pos_bound; lia).
  pose proof crc16_table as T. rewrite forallb_forall in T. specialize (T hi (all_bytes_in _ Hhi)).
  rewrite forallb_forall in T. specialize (T lo (all_bytes_in _ Hlo)). apply Z.eqb_eq in T.
  assert (Z.land hi 255 = hi) as -> by (rewrite (Z.land_ones _ 8) by lia; apply Z.mod_small, Hhi).
  unfold crc16_byte. replace (Z.lxor c (256 * b)) with (256 * hi + lo).
  - rewrite <- T. assert (forall t, u16 (Z.lxor t (Z.shiftl c 8)) = u16 (Z.lxor t (256 * lo))) as E; [|apply E].
    intros t. unfold u16. change 65536 with (2 ^ 16). apply Z.bits_inj'. intros n Hn. destruct (Z.ltb_spec n 16).
    + rewrite !Z.mod_pow2_bits_low, !Z.lxor_spec by lia. f_equal. rewrite (Z.mul_comm 256). change 256 with (2 ^ 8).
      rewrite <- Z.shiftl_mul_pow2, !Z.shiftl_spec by lia. unfold lo. change 256 with (2 ^ 8).
      destruct (Z.ltb_spec n 8); [rewrite !Z.testbit_neg_r by lia; done|]. by rewrite Z.mod_pow2_bits_low by lia.
    + by rewrite !Z.mod_pow2_bits_high by lia.
  - rewrite (Z.mul_comm 256 hi), (Z.mul_comm 256 b). change 256 with (2 ^ 8). rewrite <- !Z.shiftl_mul_pow2 by lia.
    assert (Z.shiftl hi 8 + lo = Z.lor (Z.shiftl hi 8) lo) as ->.
    { rewrite lor_shiftl_add by (lia || apply Hlo). by rewrite Z.shiftl_mul_pow2 by lia. }
    bitwise n Hn. unfold hi, lo. change 256 with (2 ^ 8).
    rewrite Z.lxor_spec. destruct (Z.ltb_spec n 8).
    + rewrite !(Z.testbit_neg_r _ (n - 8)), Z.mod_pow2_bits_low by lia. by destruct (Z.testbit c n).
    + rewrite Z.mod_pow2_bits_high, Z.shiftr_spec, orb_false_r by lia. by replace (n - 8 + 8) with n by lia.
Qed.

Lemma crc16_fold_range m : forall c, 0 <= c < 65536 -> 0 <= fold_left crc16_byte m c < 65536.
Proof. induction m as [|b m IH]; intros c Hc; [done|]. apply IH, crc16_range. Qed.

Lemma crc16_fold m : forall c, 0 <= c < 65536 -> bytes m ->
  fold_left (fun cksum b => u16 (Z.lxor (crc16_tab !!! Z.to_nat (Z.land (Z.lxor (Z.shiftr cksum 8) b) 255)) (Z.shiftl cksum 8))) m c
  = crc16_spec c m.
Proof.
  induction m as [|b m IH]; intros c Hc F; [done|]. apply Forall_cons in F as [Hb F]. cbn [fold_left]. rewrite crc16_step by done.
  apply IH; [apply crc16_range|done].
Qed.

(** The digest by definition. *)
Definition algo_hash (id : algo_id) (m : list Z) : list Z :=
  match id with
  | ALGO_MD5 => MD5 m
  | ALGO_SHA1 => SHA1 m
  | ALGO_SHA256 => SHA256 m
  | ALGO_SHA384 => SHA384 m
  | ALGO_SHA512 => SHA512 m
  | ALGO_CRC16 => be_bytes 2 (crc16_spec 0 m)
  | ALGO_CRC8 => [crc8 0 m (len m)]
  | ALGO_CRC32 => be_bytes 4 (crc_spec 0 m)
  end.

Definition locals_ok (l : locals) : Prop :=
  md5_ctx (l_md5 l) /\ len (Sha1.buffer (l_sha1 l)) = 64 /\ len (Sha256.buffer (l_sha256 l)) = 64 /\ len (h_buf (l_sha512 l)) = 128.

Lemma crc8_byte m : forall c, is_byte c -> is_byte (fold_left (fun crc b => _crc8 (u16 (Z.shiftl (Z.lxor crc b) 8))) m c).
Proof.
  induction m as [|b m IH]; intros c Hc; [done|]. apply IH. unfold _crc8, is_byte, u8. apply Z.mod_pos_bound. lia.
Qed.

Lemma hash_func_ws_ok id wd l mem addr n chunk_sz :
  locals_ok l -> bytes mem -> 0 <= addr -> 0 <= n < 2147483648 -> addr + n <= len mem -> 0 < chunk_sz < 2147483648 ->
  hash_func_ws id wd l mem addr n chunk_sz = Some (algo_hash id (slice mem addr (addr + n))).
Proof.
  intros (H5 & H1 & H2 & H3) F Ha Hn Hl Hc. unfold hash_func_ws. cbv zeta. set (input := drop (Z.to_nat addr) mem).
  assert (bytes input) as Fi by (by apply Forall_drop).
  assert (len input = len mem - addr) as Li by (unfold input; rewrite length_drop; lia).
  assert (slice mem addr (addr + n) = slice input 0 n) as -> by (unfold input; slice_ext).
  assert (len (slice input 0 n) = n) as Ld by (rewrite slice_length; lia).
  destruct id; cbn [algo_hash].
  - apply (csum_wd_ok (D := md5_digest)); cbn; try done; lia.
  - apply (csum_wd_ok (D := sha1_digest)); cbn; try done; lia.
  - apply (csum_wd_ok (D := sha256_digest)); cbn; try done; lia.
  - apply (csum_wd_ok (D := sha384_digest)); cbn; try done; lia.
  - apply (csum_wd_ok (D := sha512_digest)); cbn; try done; lia.
  - unfold crc16_ccitt_wd_buf, crc16_ccitt. rewrite s32_small, crc16_fold by (lia || by apply Forall_take, Forall_drop). done.
  - unfold crc8_wd_buf. rewrite s32_small by lia. rewrite Ld. unfold crc8. rewrite (slice_whole (slice input 0 n)) by done.
    rewrite u8_small; [done|]. by apply crc8_byte.
  - unfold crc32_wd_buf, crc32_wd. assert (bytes (slice input 0 n)) as Fs by (by apply Forall_take, Forall_drop).
    destruct wd; cbn [option_map].
    + rewrite crc32_chunks_ok by (done || lia). cbn [option_map]. case_decide as D; [|done]. by rewrite D.
    + by rewrite crc32_ok.
Qed.

Lemma lookup_name a : In a hash_algos -> hash_lookup_algo (a_name a) = Some a.
Proof. intros H. repeat destruct H as [<- |H]; [reflexivity..|done]. Qed.

Lemma algo_sizes a : In a hash_algos -> 0 < chunk_size a < 2147483648 /\ 0 < digest_size a <= 64.
Proof. intros H. repeat destruct H as [<- |H]; [..|done]; cbn; unfold CHUNKSZ; lia. Qed.

Lemma algo_hash_length a m : In a hash_algos -> len (algo_hash (a_id a) m) = digest_size a /\ bytes (algo_hash (a_id a) m).
Proof.
  intros H. repeat destruct H as [<- |H]; [..|done]; cbn [algo_hash a_id digest_size].
  - unfold MD5. destruct (concat_le (iterate 64 md5_compress md5_init (m ++ md5_pad (len m)))) as [L F]. split; [|done].
    rewrite L. by destruct (md5_iterate_ok (m ++ md5_pad (len m))) as [-> _].
  - rewrite SHA1_length. split; [done|apply SHA1_bytes].
  - rewrite SHA256_length. split; [done|apply SHA256_bytes].
  - unfold SHA384. rewrite length_take, (sha2_hash_length p512 eq_refl sha384_init m sha384_init_ok). split; [done|].
    apply Forall_take. unfold sha2_hash. apply concat_be_bytes.
  - unfold SHA512. rewrite (sha2_hash_length p512 eq_refl sha512_init m sha512_init_ok). split; [done|].
    unfold sha2_hash. apply concat_be_bytes.
  - rewrite be_bytes_length. split; [done|apply be_bytes_bytes].
  - split; [done|]. apply Forall_cons. split; [by apply crc8_byte|by apply Forall_nil].
  - rewrite be_bytes_length. split; [done|apply be_bytes_bytes].
Qed.

(** * Progressive hashing *)

Definition hash_updates (ctx : hash_ctx) (pieces : list (Z * list Z)) : hash_ctx :=
  fold_left (fun c p => hash_update c p.1 p.2 (len p.2)) pieces ctx.

(** The bytes a progressive hash delivers: the checksums come in the order of
    the machine, not of the network. *)
Definition progressive_hash (id : algo_id) (m : list Z) : list Z :=
  match id with
  | ALGO_CRC16 | ALGO_CRC32 => rev (algo_hash id m)
  | _ => algo_hash id m
  end.

Definition piece_ok (p : Z * list Z) : Prop := bytes p.2 /\ len p.2 < 2147483648.

(** The context of an algorithm that has been given [m]. *)
Definition ctx_holds (id : algo_id) (ctx : hash_ctx) (m : list Z) : Prop :=
  match id, ctx with
  | ALGO_SHA1, C_sha1 c => sha1_holds c m
  | ALGO_SHA256, C_sha256 c => sha256_holds c m
  | ALGO_SHA384, C_sha384 c => sha512_holds sha384_init c m
  | ALGO_SHA512, C_sha512 c => sha512_holds sha512_init c m
  | ALGO_CRC16, C_crc16 v => v = crc16_spec 0 m /\ 0 <= v < 65536
  | ALGO_CRC32, C_crc32 v => v = crc_spec 0 m
  | _, _ => False
  end.

Lemma hash_init_holds a l :
  In a hash_algos -> has_init a = true -> locals_ok l -> exists ctx, hash_init (a_id a) (Some l) = Done ctx /\ ctx_holds (a_id a) ctx [].
Proof.
  intros H Hi (H5 & H1 & H2 & H3). repeat destruct H as [<- |H]; [..|done]; try done; cbn [hash_init a_id ctx_holds];
    eexists; (split; [reflexivity|]).
  - by apply sha1_starts_holds.
  - by apply sha256_starts_holds.
  - by apply sha384_starts_ok.
  - by apply sha512_starts_ok.
  - split; [done|lia].
  - done.
Qed.

Lemma hash_update_holds id ctx m p :
  ctx_holds id ctx m -> piece_ok p -> ctx_holds id (hash_update ctx p.1 p.2 (len p.2)) (m ++ p.2).
Proof.
  intros H [F L]. destruct p as [addr d]. cbn [fst snd] in *.
  destruct id, ctx; try done; cbn [ctx_holds hash_update] in *.
  - pose proof (sha1_update_holds c m d (len d) H F ltac:(lia) ltac:(lia)) as Hu. by rewrite slice_all in Hu.
  - pose proof (sha256_update_holds c m d (len d) H F ltac:(lia) ltac:(lia)) as Hu. by rewrite slice_all in Hu.
  - pose proof (do_update_holds _ c m d (len d) H F ltac:(lia) ltac:(lia)) as Hu. by rewrite slice_all in Hu.
  - pose proof (do_update_holds _ c m d (len d) H F ltac:(lia) ltac:(lia)) as Hu. by rewrite slice_all in Hu.
  - destruct H as [-> Hr]. unfold crc16_ccitt. rewrite s32_small, slice_all, crc16_fold by (done || lia).
    unfold crc16_spec in *. rewrite fold_left_app. split; [done|]. by apply crc16_fold_range.
  - subst v. by rewrite slice_all, crc32_ok, crc_spec_app.
Qed.

Lemma hash_updates_holds id pieces : forall ctx m,
  ctx_holds id ctx m -> Forall piece_ok pieces -> ctx_holds id (hash_updates ctx pieces) (m ++ concat (map snd pieces)).
Proof.
  induction pieces as [|p pieces IH]; intros ctx m H F; cbn [hash_updates fold_left map concat]; [by rewrite app_nil_r|].
  apply Forall_cons in F as [Hp F]. rewrite app_assoc. apply IH; [|done]. by apply hash_update_holds.
Qed.

(** One call. *)
Lemma hash_block_algo wd l a m dest size :
  In a hash_algos -> locals_ok l -> bytes m -> len m < 2147483648 ->
  hash_block wd l (a_name a) m 0 (len m) dest (Some size) =
    if size <? digest_size a then Some (- ENOSPC, dest, Some size)
    else Some (0, store dest 0 (algo_hash (a_id a) m), Some (digest_size a)).
Proof.
  intros Ha Hl Fm Lm. unfold hash_block. rewrite lookup_name by done. case_match; [done|].
  destruct (algo_sizes a Ha) as [Hc _]. rewrite hash_func_ws_ok by (done || lia). rewrite Z.add_0_l, slice_all. done.
Qed.

(** C26: progressive hashing delivers the digest by its definition, for every
    way to cut the message, which is also what one call delivers for a message
    of less than 2 GiB; only the two checksums come with their bytes in the
    opposite order.  A buffer that is too small is refused with -1 and leaves
    the context allocated. *)
Theorem hash_progressive_digest (a : hash_algo) (l : locals) (pieces : list (Z * list Z)) (dest : list Z) (size : Z) :
  let m := concat (map snd pieces) in
  In a hash_algos -> has_init a = true -> locals_ok l -> Forall piece_ok pieces -> size <= len dest ->
  (exists ctx, hash_init (a_id a) (Some l) = Done ctx /\
    hash_finish a (hash_updates ctx pieces) dest size =
      if size <? digest_size a then (-1, dest, false) else (0, store dest 0 (progressive_hash (a_id a) m), true)) /\
  (len m < 2147483648 -> forall wd,
    hash_block wd l (a_name a) m 0 (len m) dest (Some size) =
      if size <? digest_size a then Some (- ENOSPC, dest, Some size)
      else Some (0, store dest 0 (algo_hash (a_id a) m), Some (digest_size a))).
Proof.
  intros m Ha Hi Hl Hp Hs. split; [|intros Lm wd; apply hash_block_algo; try done; apply Forall_concat, Forall_fmap; by eapply Forall_impl; [exact Hp|intros ? []]].
  destruct (hash_init_holds a l Ha Hi Hl) as (ctx & E & H). exists ctx. split; [done|].
  apply (hash_updates_holds _ pieces) in H; [|done]. cbn [app] in H. change (concat (map snd pieces)) with m in H. unfold hash_finish.
  destruct (Z.ltb_spec size (digest_size a)); [done|].
  destruct (algo_sizes a Ha) as [_ Hd].
  assert (length (take (Z.to_nat (digest_size a)) dest) = Z.to_nat (digest_size a)) as Lt by (rewrite length_take; lia).
  do 2 f_equal. clear E. set (c := hash_updates ctx pieces) in *. clearbody c m.
  repeat destruct Ha as [<- |Ha]; [..|done]; try done; cbn [a_id digest_size] in *; destruct c; try done; cbn [ctx_holds progressive_hash algo_hash] in *; f_equal.
  - by apply sha1_finish_hash.
  - apply (sha256_finish_hash _ _ (take (Z.to_nat 32) dest)) in H as [-> _]; [|lia]. rewrite drop_ge by lia. apply app_nil_r.
  - by apply sha384_finish_hash.
  - by apply sha512_finish_hash.
  - destruct H as [-> _]. apply le_rev.
  - subst v. apply le_rev.
Qed.

(** * Digests as text *)

Definition hex_pair (b : Z) : list Z := [digit_char (b / 16); digit_char (b mod 16)].

Lemma hex_pair_number : forallb (fun b => bool_decide (number_text b 16 2 (-1) (Z.lor SMALL ZEROPAD) = hex_pair b)) all_bytes = true.
Proof. vm_compute. reflexivity. Qed.

Lemma hex_pair_parse : forallb (fun b => (hextoul (hex_pair b)).1 =? b) all_bytes = true.
Proof. vm_compute. reflexivity. Qed.

Lemma hex_loop n : is_byte n ->
  forall e b, sk_str b = 0 -> format_loop e false None None 5 (VState [37; 48; 50; 120] [ArgInt n] b [])
    = Some (Some (VState [] [] (put_all e b (hex_pair n)) [])).
Proof.
  intros Hn e b _.
  assert (format_loop e false None None 5 (VState [37; 48; 50; 120] [ArgInt n] b [])
    = Some (Some (VState [] [] (number e b n 16 2 (-1) (Z.lor SMALL ZEROPAD)) []))) as ->.
  { cbn -[number int_arg u64]. unfold int_arg. cbn -[number u64 u32 s32]. change (flag_set _ SIGN) with false. cbn iota.
    rewrite u32_small by (unfold is_byte in Hn; lia). reflexivity. }
  rewrite number_put, number_chars_ok; [|by right; right|unfold is_byte, U64_MAX in *; lia|lia|lia].
  pose proof hex_pair_number as T. rewrite forallb_forall in T. specialize (T n (all_bytes_in _ Hn)).
  apply bool_decide_eq_true in T. by rewrite T.
Qed.

Lemma hex_pair_chars b : is_byte b -> map u8 (hex_pair b) = hex_pair b /\ Forall (fun c => c <> 0) (hex_pair b).
Proof.
  unfold is_byte. intros Hb. assert (0 <= b / 16 < 16) as H1 by zlia. assert (0 <= b mod 16 < 16) as H2 by zlia.
  assert (forall d, 0 <= d < 16 -> 0 < digit_char d < 256) as Hd by (intros d Hd; unfold digit_char; case_Z; lia).
  pose proof (Hd _ H1). pose proof (Hd _ H2). unfold hex_pair. cbn [map]. rewrite !u8_small by lia. split; [done|].
  repeat (apply Forall_cons; split; [lia|]). by apply Forall_nil.
Qed.

Definition hex_of (sum : list Z) : list Z := concat (map hex_pair sum).

Lemma hex_of_length sum : length (hex_of sum) = (2 * length sum)%nat.
Proof. unfold hex_of. induction sum as [|b sum IH]; cbn; [done|]. rewrite IH. lia. Qed.

Lemma hex_of_plain sum : bytes sum -> plain (hex_of sum).
Proof.
  unfold hex_of, plain. induction 1 as [|b sum Hb F IH]; cbn [map concat]; [constructor|].
  apply Forall_app. split; [by apply hex_pair_chars|done].
Qed.

(** The loop of store_result. *)
Lemma hex_text_loop sum : forall p m,
  bytes sum -> (p + 2 * length sum < length m)%nat -> Z.of_nat (length m) <= INT_MAX ->
  exists m', fold_left (fun r b =>
      match r with
      | None => None
      | Some (p, m) =>
          match sprintf false None None (drop p m) [37; 48; 50; 120] [ArgInt b] with
          | Some q => if pr_over q then None else Some (p + 2, take p m ++ pr_mem q)%nat
          | None => None
          end
      end) sum (Some (p, m)) = Some (p + 2 * length sum, m')%nat /\
    length m' = length m /\ take (p + 2 * length sum) m' = take p m ++ hex_of sum.
Proof.
  induction sum as [|b sum IH]; intros p m F Hl Hm.
  { exists m. cbn [fold_left length]. rewrite Nat.mul_0_r, Nat.add_0_r. split_and!; [done|done|]. unfold hex_of. by rewrite app_nil_r. }
  apply Forall_cons in F as [Hb F]. cbn [fold_left length] in *. destruct (hex_pair_chars b Hb) as [Eu _].
  rewrite (sprintf_fits false None None (drop p m) _ _ (hex_pair b) [] [] []); [|by apply hex_loop|cbn; rewrite length_drop; lia|rewrite length_drop; lia].
  cbn [pr_over pr_mem]. rewrite Eu. set (m1 := take p m ++ store (drop p m) 0 (hex_pair b ++ [0])).
  assert (length m1 = length m) as L1 by (unfold m1; rewrite length_app, length_take, store_length; rewrite ?length_drop; cbn; lia).
  destruct (IH (p + 2)%nat m1) as (m' & E & L' & T); [done|lia|lia|]. exists m'. rewrite E. split_and!; [do 2 f_equal; lia|lia|].
  replace (p + 2 * S (length sum))%nat with (p + 2 + 2 * length sum)%nat by lia. rewrite T. unfold hex_of. cbn [map concat].
  rewrite app_assoc. f_equal. unfold m1, store. change (Z.to_nat 0) with 0%nat. rewrite take_0. cbn [app].
  rewrite take_app_ge by (rewrite length_take; lia). rewrite length_take. replace (p + 2 - p `min` length m)%nat with 2%nat by lia.
  reflexivity.
Qed.

Lemma hex_text_ok sum : bytes sum -> (length sum <= 64)%nat ->
  exists m, hex_text (replicate (Z.to_nat (HASH_MAX_DIGEST_SIZE * 2 + 1)) 0) sum = Some m /\ cstr m = hex_of sum.
Proof.
  intros F L. unfold hex_text. set (m0 := replicate _ 0). assert (length m0 = 129%nat) as L0 by reflexivity.
  destruct (hex_text_loop sum 0 m0 F) as (m' & -> & L' & T); [lia|rewrite L0; unfold INT_MAX; lia|].
  eexists. split; [reflexivity|]. cbn [Nat.add take app] in *.
  rewrite insert_take_drop by lia. rewrite T. cbn [app]. apply cstr_app_end. by apply hex_of_plain.
Qed.

(** A byte is read back from its digits. *)
Lemma parse_byte_ok chr sum i :
  length chr = 3%nat -> bytes sum -> (i < length sum)%nat -> parse_byte chr (hex_of sum) i = sum !!! i.
Proof.
  intros Lc F Hi. unfold parse_byte, strlcpy.
  assert (exists rest, drop (2 * i) (hex_of sum) = hex_pair (sum !!! i) ++ rest /\ plain (hex_pair (sum !!! i) ++ rest)) as (rest & -> & Pl).
  { exists (hex_of (drop (S i) sum)).
    assert (drop (2 * i) (hex_of sum) = hex_of (drop i sum)) as ->.
    { clear - Hi. revert i Hi. induction sum as [|b sum IH]; intros [|i] Hi; cbn [length] in *; [lia|lia|done|].
      replace (2 * S i)%nat with (S (S (2 * i))) by lia. cbn [drop]. rewrite <- (IH i) by lia. done. }
    rewrite (drop_S sum (sum !!! i) i) by (apply list_lookup_lookup_total_lt; lia). split; [done|].
    change (hex_pair (sum !!! i) ++ hex_of (drop (S i) sum)) with (hex_of (sum !!! i :: drop (S i) sum)).
    apply hex_of_plain. apply Forall_cons. split; [apply (Forall_lookup_total_1 _ _ _ F); lia|by apply Forall_drop]. }
  assert (is_byte (sum !!! i)) as Hb by (apply (Forall_lookup_total_1 _ _ _ F); lia).
  assert (strlen (hex_pair (sum !!! i) ++ rest) = 2 + len rest) as -> by (rewrite strlen_cstr, cstr_plain, length_app by done; cbn [hex_pair length]; lia).
  change (negb (3 =? 0)) with true. cbn iota. cbn [snd].
  set (n := if 3 <=? 2 + len rest then 3 - 1 else 2 + len rest). assert (n = 2) as -> by (unfold n; case_Z; lia).
  assert (slice (hex_pair (sum !!! i) ++ rest) 0 2 = hex_pair (sum !!! i)) as -> by (by apply slice_front).
  replace (cstr _) with (hex_pair (sum !!! i)).
  - pose proof hex_pair_parse as T. rewrite forallb_forall in T. specialize (T _ (all_bytes_in _ Hb)). apply Z.eqb_eq in T.
    rewrite T. apply u8_small, Hb.
  - do 3 (destruct chr as [|? chr]; [done|]). destruct chr; [|done].
    change (store (store [z; z0; z1] 0 (hex_pair (sum !!! i))) (0 + 2) [0]) with (hex_pair (sum !!! i) ++ [0]).
    symmetry. apply cstr_app_end. by apply hex_pair_chars.
Qed.

(** A digest that was printed is read back. *)
Lemma parse_hex a chr sum result :
  In a hash_algos -> length chr = 3%nat -> bytes sum -> len sum = digest_size a -> len sum <= len result ->
  hash_parse_string (a_name a) (hex_of sum) chr result = (0, store result 0 sum).
Proof.
  intros Ha Lc F Ls Lr. unfold hash_parse_string.
  rewrite lookup_name by done. f_equal. rewrite <- Ls, Nat2Z.id. clear a Ha Ls.
  assert (forall n, (n <= length sum)%nat ->
    fold_left (fun r i => <[i := parse_byte chr (hex_of sum) i]> r) (seq 0 n) result = store result 0 (take n sum)) as E.
  { induction n as [|n IH]; intros Hn; [unfold store; cbn; by rewrite drop_0|].
    rewrite seq_S, fold_left_app, IH by lia. cbn [fold_left Nat.add]. rewrite parse_byte_ok by (done || lia).
    rewrite (take_S_r sum n (sum !!! n)) by (apply list_lookup_lookup_total_lt; lia).
    unfold store. change (Z.to_nat 0) with 0%nat. rewrite !take_0, !length_app, !length_take. cbn [app length].
    rewrite insert_app_r_alt by (rewrite length_take; lia). rewrite length_take, <- app_assoc.
    replace (0 + n `min` length sum)%nat with n by lia. replace (n - n `min` length sum)%nat with 0%nat by lia. f_equal.
    replace (0 + (n `min` length sum + 1))%nat with (S n) by lia.
    rewrite (drop_S result (result !!! n) n) by (apply list_lookup_lookup_total_lt; lia). done. }
  rewrite E by lia. by rewrite take_ge by lia.
Qed.

(** * The hash command *)

Section Round.
Context (wd : bool) (l : locals) (Hl : locals_ok l).
Context `{EnvHooks} (config_env_size : Z) (default_environment : list Z).

Abbreviation command := (hash_command wd l config_env_size default_environment).

(** What the command has hashed when it comes to its last argument. *)
Lemma command_hashes a flags sa sn arg output vsum chr ram st :
  In a hash_algos -> bytes ram -> (hextoul sn).1 < 2147483648 -> 0 <= (hextoul sn).1 -> 0 <= (hextoul sa).1 ->
  (hextoul sa).1 + (hextoul sn).1 <= len ram ->
  let sum := algo_hash (a_id a) (slice ram (hextoul sa).1 ((hextoul sa).1 + (hextoul sn).1)) in
  command (a_name a) flags [sa; sn; arg] (Some output) vsum chr ram st =
    if negb (Z.land flags HASH_FLAG_VERIFY =? 0) then
      match parse_verify_sum config_env_size default_environment a arg vsum (negb (Z.land flags HASH_FLAG_ENV =? 0)) ram chr st with
      | Done (r, vsum, st) =>
          if negb (r =? 0) then Done (1, ram, st)
          else if negb (memcmp (store output 0 sum) vsum (digest_size a) =? 0) then Done (1, ram, st) else Done (0, ram, st)
      | Overrun => Overrun
      | Hangs => Hangs
      end
    else
      match store_result a (store output 0 sum) arg (negb (Z.land flags HASH_FLAG_ENV =? 0)) ram st with
      | Done (ram, st) => Done (0, ram, st)
      | Overrun => Overrun
      | Hangs => Hangs
      end.
Proof using Hl.
  intros Ha Fr Hn Hn0 Ha0 Hr. cbv zeta. unfold hash_command. cbn [length Nat.ltb Nat.leb]. rewrite andb_false_r.
  rewrite lookup_name by done.
  destruct (algo_sizes a Ha) as [Hc Hd]. unfold HASH_MAX_DIGEST_SIZE. destruct (Z.ltb_spec 64 (digest_size a)); [lia|].
  rewrite u32_small by lia. destruct (Z.leb_spec ((hextoul sa).1 + (hextoul sn).1) (len ram)); [|lia]. cbn [negb].
  by rewrite hash_func_ws_ok by (done || lia).
Qed.
(** Verifying, then, compares the two digests. *)
Lemma memcmp_sums output vsum sum sum' n :
  0 <= n -> len sum = n -> len sum' = n -> n <= len output -> n <= len vsum ->
  (memcmp (store output 0 sum) (store vsum 0 sum') n =? 0) = bool_decide (sum = sum').
Proof.
  intros Hn L L' Lo Lv. apply eq_bool_prop_intro. rewrite bool_decide_spec, Is_true_true, Z.eqb_eq. unfold memcmp.
  rewrite memcmp_nat_eq by (rewrite store_length by lia; lia).
  assert (forall b s : list Z, len s = n -> take (Z.to_nat n) (store b 0 s) = s) as E.
  { intros b s Es. unfold store. change (Z.to_nat 0) with 0%nat. rewrite take_0. cbn [app]. apply take_app_length'. lia. }
  by rewrite !E.
Qed.

Lemma verify_stored a name vsum ram chr st M sum :
  In a hash_algos -> env_holds st M -> settable name -> rd name <> 42 -> len name <> digest_size a * 2 -> length chr = 3%nat ->
  digest_size a <= len vsum -> bytes sum -> len sum = digest_size a -> M !! name ≫= e_data = Some (hex_of sum) ->
  parse_verify_sum config_env_size default_environment a name vsum true ram chr st = Done (0, store vsum 0 sum, st).
Proof.
  intros Ha Hd Sn Ns Nl Lc Lv Fs Ls Em. unfold parse_verify_sum. rewrite (proj2 (Z.eqb_neq _ _) Ns). cbn [negb].
  rewrite strlen_cstr, cstr_plain by apply Sn. rewrite (proj2 (Z.eqb_neq _ _) Nl).
  rewrite (env_get_ok _ _ st M name) by (done || apply Sn). rewrite Em.
  rewrite strlen_cstr, cstr_plain by (by apply hex_of_plain). rewrite hex_of_length.
  destruct (Z.eqb_spec (Z.of_nat (2 * length sum)) (digest_size a * 2)); [|lia]. cbn [negb].
  by rewrite parse_hex by (done || lia).
Qed.

(** C22: the hash command with the environment: hashing a range of memory into a
    variable returns 0 and sets the variable to the digest (by its definition)
    in lower-case hexadecimal; when the environment took it, verifying a range
    of any memory against the variable returns 0 when the digests agree, and 1
    otherwise.  Neither changes the memory. *)
Theorem hash_store_verify (a : hash_algo) (sa sn name output vsum chr ram : list Z) (st : env_state) (M : env_map) :
  let addr := (hextoul sa).1 in
  let n := (hextoul sn).1 in
  let sum := algo_hash (a_id a) (slice ram addr (addr + n)) in
  In a hash_algos -> bytes ram -> 0 <= addr -> 0 <= n < 2147483648 -> addr + n <= len ram ->
  env_holds st M -> settable name -> rd name <> 42 -> len name <> digest_size a * 2 -> len output = 256 ->
  exists ret st' M',
    command (a_name a) HASH_FLAG_ENV [sa; sn; name] (Some output) vsum chr ram st = Done (0, ram, st') /\
    (ret, M') = set_var (filled (es_htab st) =? size (es_htab st)) name (hex_of sum) M /\ env_holds st' M' /\
    (ret = 0 -> forall output' vsum' chr' ram',
       bytes ram' -> addr + n <= len ram' -> len output' = 256 -> len vsum' = 64 -> length chr' = 3%nat ->
       command (a_name a) (Z.lor HASH_FLAG_ENV HASH_FLAG_VERIFY) [sa; sn; name] (Some output') vsum' chr' ram' st' =
         Done (if bool_decide (algo_hash (a_id a) (slice ram' addr (addr + n)) = sum) then 0 else 1, ram', st')).
Proof using Hl.
  intros addr n sum Ha Fr Hadr Hn Hr Hd Sn Ns Nl Lo. destruct (algo_sizes a Ha) as [_ Hs].
  destruct (algo_hash_length a (slice ram addr (addr + n)) Ha) as [Ls Fs]. fold sum in Ls, Fs.
  assert (hex_of sum <> []) as Nh by (intros E; apply (f_equal length) in E; rewrite hex_of_length in E; cbn in E; lia).
  destruct (env_set_ok st M name (hex_of sum) Hd Sn (hex_of_plain _ Fs)) as (st' & E & Hd' & _).
  destruct (set_var _ name (hex_of sum) M) as [ret M'] eqn:Es. cbn [fst snd] in E, Hd'. exists ret, st', M'.
  split; [|split; [done|split; [done|]]].
  - rewrite command_hashes by (done || lia). change (negb (Z.land HASH_FLAG_ENV HASH_FLAG_VERIFY =? 0)) with false.
    change (negb (Z.land HASH_FLAG_ENV HASH_FLAG_ENV =? 0)) with true. cbn iota. fold addr n sum. unfold store_result.
    rewrite (proj2 (Z.eqb_neq _ _) Ns).
    assert (slice (store output 0 sum) 0 (digest_size a) = sum) as ->
      by (unfold store; change (Z.to_nat 0) with 0%nat; rewrite take_0; cbn [app]; by apply slice_front).
    destruct (hex_text_ok sum Fs) as (m & -> & ->); [lia|]. by rewrite E.
  - intros -> output' vsum' chr' ram' Fr' Hr' Lo' Lv' Lc'. rewrite command_hashes by (done || lia).
    change (negb (Z.land (Z.lor HASH_FLAG_ENV HASH_FLAG_VERIFY) HASH_FLAG_VERIFY =? 0)) with true.
    change (negb (Z.land (Z.lor HASH_FLAG_ENV HASH_FLAG_VERIFY) HASH_FLAG_ENV =? 0)) with true. cbn iota. fold addr n.
    rewrite (verify_stored a name vsum' ram' chr' st' M' sum); try done; [|lia|by apply (set_var_value _ _ _ _ _ Nh Es)].
    cbn [Z.eqb negb]. destruct (algo_hash_length a (slice ram' addr (addr + n)) Ha) as [Ls' _].
    rewrite memcmp_sums by lia. by case_bool_decide.
Qed.
End Round.

(** * Concrete inputs *)

Definition demo_locals : locals :=
  Locals {| m_buf := replicate 4 1; bits0 := 7; bits1 := 9; m_in := replicate 64 3 |}
    {| Sha1.total0 := 7; Sha1.total1 := 9; Sha1.state := replicate 5 1; Sha1.buffer := replicate 64 3 |}
    {| Sha256.total0 := 7; Sha256.total1 := 9; Sha256.state := replicate 8 1; Sha256.buffer := replicate 64 3 |}
    {| h_state := replicate 8 1; count0 := 7; count1 := 9; h_buf := replicate 128 3 |}.
Definition algo_sha1 : hash_algo := HashAlgo ALGO_SHA1 [115; 104; 97; 49] 20 CHUNKSZ true.

Lemma demo_locals_ok : locals_ok demo_locals.
Proof. split_and!; [split; [reflexivity|repeat constructor; intros [=]]|reflexivity..]. Qed.

Lemma hash_progressive_digest_witness :
  exists ctx, hash_init ALGO_SHA1 (Some demo_locals) = Done ctx /\
    hash_finish algo_sha1 (hash_updates ctx [(0, [97; 98]); (2, [99])]) (replicate 24 0) 24 =
      (0, store (replicate 24 0) 0 (SHA1 [97; 98; 99]), true).
Proof.
  assert (In algo_sha1 hash_algos) as Ha by (right; left; reflexivity).
  assert (Forall piece_ok [(0, [97; 98]); (2, [99])]) as F by (repeat constructor; intros [=]).
  exact (proj1 (hash_progressive_digest algo_sha1 demo_locals _ (replicate 24 0) 24 Ha eq_refl demo_locals_ok F ltac:(done))).
Defined.

(** sha1sum 1 3 ab, then a verification of the same memory and of another. *)
Lemma hash_store_verify_witness :
  exists ret st' M',
    @hash_command false demo_locals no_hooks 64 [] [115; 104; 97; 49] HASH_FLAG_ENV [[49]; [51]; [97; 98]]
      (Some (replicate 256 0)) [] [] [96; 97; 98; 99; 100] demo_empty = Done (0, [96; 97; 98; 99; 100], st') /\
    (ret, M') = @set_var no_hooks false [97; 98] (hex_of (SHA1 [97; 98; 99])) ∅ /\ env_holds st' M' /\
    (ret = 0 ->
      @hash_command false demo_locals no_hooks 64 [] [115; 104; 97; 49] (Z.lor HASH_FLAG_ENV HASH_FLAG_VERIFY) [[49]; [51]; [97; 98]]
        (Some (replicate 256 0)) (replicate 64 0) [0; 0; 0] [95; 97; 98; 99] st' = Done (0, [95; 97; 98; 99], st')).
Proof.
  assert (In algo_sha1 hash_algos) as Ha by (right; left; reflexivity).
  assert (bytes [95; 97; 98; 99]) as F' by (repeat constructor; intros [=]).
  assert (bytes [96; 97; 98; 99; 100]) as F by (repeat constructor; intros [=]).
  destruct (@hash_store_verify false demo_locals demo_locals_ok no_hooks 64 [] algo_sha1 [49] [51] [97; 98] (replicate 256 0) [] []
    [96; 97; 98; 99; 100] demo_empty ∅ Ha F ltac:(done) ltac:(done) ltac:(done) demo_empty_holds demo_settable ltac:(done) ltac:(done) eq_refl)
    as (ret & st' & M' & E & S & Hd & V).
  exists ret, st', M'. split; [exact E|]. split; [exact S|]. split; [exact Hd|]. intros Er.
  etransitivity; [apply (V Er (replicate 256 0) (replicate 64 0) [0; 0; 0] [95; 97; 98; 99]); (reflexivity || done)|].
  by rewrite bool_decide_eq_true_2 by reflexivity.
Defined.
