(* ===== verification/Image.v ===== *)
(** Legacy boot images (include/image.h, boot/image.c, tools/default_image.c):
    the header and its two checksums, made by mkimage and checked before a
    boot, the parts of a multi-file image, and loading a payload (image_decomp
    with memmove_wd of boot/image-board.c).

    Memory is a list of bytes, an address an offset in it, and a header the
    address it lies at.  An access outside the memory ends in [Overrun].  What
    is printed is left out, but not the reads that printing makes.  The machine
    is little-endian. *)

From S2P Require Import Prelude Bytes Cstring CstringProps EnvFlags Crc32 Digest.

(** * The header *)

(** The offsets in struct legacy_img_hdr, of 32-bit fields up to ih_os. *)
Definition ih_magic : Z := 0.
Definition ih_hcrc : Z := 4.
Definition ih_time : Z := 8.
Definition ih_size : Z := 12.
Definition ih_load : Z := 16.
Definition ih_ep : Z := 20.
Definition ih_dcrc : Z := 24.
Definition ih_os : Z := 28.
Definition ih_arch : Z := 29.
Definition ih_type : Z := 30.
Definition ih_comp : Z := 31.
Definition ih_name : Z := 32.
Definition IH_NMLEN : Z := 32.
Definition image_get_header_size : Z := 64.

Definition IH_MAGIC : Z := 0x27051956.
Definition IH_OS_LINUX : Z := 5.
Definition IH_OS_TEE : Z := 26.
Definition IH_ARCH_ARM : Z := 2.
Definition IH_ARCH_I386 : Z := 3.
Definition IH_ARCH_ARM64 : Z := 22.
Definition IH_ARCH_X86_64 : Z := 24.
Definition IH_TYPE_STANDALONE : Z := 1.
Definition IH_TYPE_KERNEL : Z := 2.
Definition IH_TYPE_RAMDISK : Z := 3.
Definition IH_TYPE_MULTI : Z := 4.
Definition IH_TYPE_SCRIPT : Z := 6.
Definition IH_TYPE_FLATDT : Z := 8.
Definition IH_TYPE_KERNEL_NOLOAD : Z := 14.
Definition IH_TYPE_FIRMWARE_IVT : Z := 32.
Definition IH_TYPE_FDT_LEGACY : Z := 42.
Definition IH_COMP_NONE : Z := 0.
Definition IH_COMP_GZIP : Z := 1.
Definition IH_COMP_BZIP2 : Z := 2.
Definition IH_COMP_LZMA : Z := 3.
Definition IH_COMP_LZO : Z := 4.
Definition IH_COMP_LZ4 : Z := 5.
Definition IH_COMP_ZSTD : Z := 6.

(** The macros image_get_hdr_l, image_get_hdr_b, image_set_hdr_l and
    image_set_hdr_b; the fields are in network order. *)
Definition image_get_l (f : Z) (mem : list Z) (hdr : Z) : Z := be_load (slice mem (hdr + f) (hdr + f + 4)).
Definition image_get_b (f : Z) (mem : list Z) (hdr : Z) : Z := mem !!! Z.to_nat (hdr + f).
Definition image_set_l (f : Z) (mem : list Z) (hdr val : Z) : list Z := store mem (hdr + f) (be_bytes 4 val).
Definition image_set_b (f : Z) (mem : list Z) (hdr val : Z) : list Z := store mem (hdr + f) [u8 val].

Definition image_get_magic := image_get_l ih_magic.
Definition image_get_hcrc := image_get_l ih_hcrc.
Definition image_get_time := image_get_l ih_time.
Definition image_get_size := image_get_l ih_size.
Definition image_get_load := image_get_l ih_load.
Definition image_get_ep := image_get_l ih_ep.
Definition image_get_dcrc := image_get_l ih_dcrc.
Definition image_get_os := image_get_b ih_os.
Definition image_get_arch := image_get_b ih_arch.
Definition image_get_type := image_get_b ih_type.
Definition image_get_comp := image_get_b ih_comp.
Definition image_get_data_size := image_get_size.
Definition image_get_data (hdr : Z) : Z := hdr + image_get_header_size.
Definition image_get_image_size (mem : list Z) (hdr : Z) : Z := u32 (image_get_size mem hdr + image_get_header_size).
Definition image_get_image_end (mem : list Z) (hdr : Z) : Z := hdr + image_get_image_size mem hdr.

Definition image_set_name (mem : list Z) (hdr : Z) (name : list Z) : list Z :=
  store mem (hdr + ih_name) (slice name 0 (strnlen name IH_NMLEN)).

(** * Checks *)

Definition image_check_magic (mem : list Z) (hdr : Z) : bool := image_get_magic mem hdr =? IH_MAGIC.
Definition image_check_type (mem : list Z) (hdr type : Z) : bool := image_get_type mem hdr =? type.
Definition image_check_os (mem : list Z) (hdr os : Z) : bool := image_get_os mem hdr =? os.

(** Not the sandbox. *)
Definition image_check_arch (mem : list Z) (hdr arch : Z) : bool :=
  (image_get_arch mem hdr =? arch) || ((image_get_arch mem hdr =? IH_ARCH_ARM) && (arch =? IH_ARCH_ARM64)).

(** The copy of the header lies at [sp], whose alignment crc32 looks at. *)
Definition image_check_hcrc (sp : Z) (mem : list Z) (hdr : Z) : bool :=
  let header := image_set_l ih_hcrc (slice mem hdr (hdr + image_get_header_size)) 0 0 in
  crc32 sp 0 header =? image_get_hcrc mem hdr.

Definition CHUNKSZ_CRC32 : Z := 65536.

(** [wd] is whether there is a watchdog. *)
Definition image_check_dcrc (wd : bool) (mem : list Z) (hdr : Z) : outcome bool :=
  let data := image_get_data hdr in
  let n := image_get_data_size mem hdr in
  if negb (data + n <=? len mem) then Overrun
  else
    match crc32_wd wd data 0 (slice mem data (data + n)) CHUNKSZ_CRC32 with
    | None => Hangs
    | Some dcrc => Done (dcrc =? image_get_dcrc mem hdr)
    end.

(** * Multi-file images *)

(** The words of the table of sizes, as they lie in memory. *)
Definition size_word (mem : list Z) (size i : Z) : list Z := slice mem (size + 4 * i) (size + 4 * i + 4).

Fixpoint multi_count (fuel : nat) (mem : list Z) (size i : Z) : outcome Z :=
  if negb (size + 4 * i + 4 <=? len mem) then Overrun
  else if le_load (size_word mem size i) =? 0 then Done i
  else match fuel with O => Hangs | S fuel => multi_count fuel mem size (i + 1) end.
Definition image_multi_count (mem : list Z) (hdr : Z) : outcome Z :=
  multi_count (length mem) mem (image_get_data hdr) 0.

(** The address and the size of component [idx]. *)
Definition image_multi_getimg (mem : list Z) (hdr idx : Z) : outcome (Z * Z) :=
  match image_multi_count mem hdr with
  | Done count =>
      let size := image_get_data hdr in
      let img_data := image_get_data hdr + (count + 1) * 4 in
      if idx <? count then
        let offset := fold_left (fun offset i => offset + Z.land (u32 (be_load (size_word mem size (Z.of_nat i)) + 3)) 4294967292)
                        (seq 0 (Z.to_nat idx)) 0 in
        Done (img_data + offset, be_load (size_word mem size idx))
      else Done (0, 0)
  | Overrun => Overrun
  | Hangs => Hangs
  end.

(** What image_print_contents reads beyond the header. *)
Definition image_print_contents (mem : list Z) (hdr : Z) : outcome unit :=
  if image_check_type mem hdr IH_TYPE_MULTI || image_check_type mem hdr IH_TYPE_SCRIPT then
    match image_multi_count mem hdr with Done _ => Done tt | Overrun => Overrun | Hangs => Hangs end
  else Done tt.

(** * mkimage (tools/default_image.c) *)

Record image_tool_params := Params {
  p_type : Z; p_os : Z; p_arch : Z; p_comp : Z; p_addr : Z; p_ep : Z; p_imagename : list Z
}.

Definition CSF_MINUS_IVT : Z := 0x2060 - 32.

(** [file] is the file in memory, header first, at [ptr]; [time] is the time
    imagetool_get_source_date returns, [optee] the addresses that the header of
    an OP-TEE image holds (optee_image_get_load_addr and -_entry_point). *)
Definition image_set_header (ptr time : Z) (optee : list Z -> Z * Z) (params : image_tool_params) (file : list Z) : list Z :=
  let st_size := len file in
  let checksum := crc32 (ptr + image_get_header_size) 0 (drop (Z.to_nat image_get_header_size) file) in
  let imagesize :=
    if p_type params =? IH_TYPE_FIRMWARE_IVT then u32 (st_size - image_get_header_size + CSF_MINUS_IVT)
    else u32 (st_size - image_get_header_size) in
  let type := if p_type params =? IH_TYPE_FDT_LEGACY then IH_TYPE_FLATDT else p_type params in
  let '(addr, ep) := if p_os params =? IH_OS_TEE then optee file else (p_addr params, p_ep params) in
  let hdr := image_set_l ih_magic file 0 IH_MAGIC in
  let hdr := image_set_l ih_time hdr 0 time in
  let hdr := image_set_l ih_size hdr 0 imagesize in
  let hdr := image_set_l ih_load hdr 0 addr in
  let hdr := image_set_l ih_ep hdr 0 ep in
  let hdr := image_set_l ih_dcrc hdr 0 checksum in
  let hdr := image_set_b ih_os hdr 0 (p_os params) in
  let hdr := image_set_b ih_arch hdr 0 (p_arch params) in
  let hdr := image_set_b ih_type hdr 0 type in
  let hdr := image_set_b ih_comp hdr 0 (p_comp params) in
  let hdr := image_set_name hdr 0 (p_imagename params) in
  let checksum := crc32 ptr 0 (slice hdr 0 image_get_header_size) in
  image_set_l ih_hcrc hdr 0 checksum.

(** Whether the type is one of this tool. *)
Definition image_check_image_types (type : Z) : bool :=
  ((0 <? type) && (type <? IH_TYPE_FLATDT)) || (type =? IH_TYPE_KERNEL_NOLOAD) || (type =? IH_TYPE_FIRMWARE_IVT)
  || (type =? IH_TYPE_FDT_LEGACY).

(** tools/mkimage.c: what a data file adds to the image; [None] where mkimage
    gives up.  The option for execution in place is not given. *)
Definition copy_file (data : list Z) (pad : Z) : option (list Z) :=
  if len data =? 0 then None
  else
    let tail := len data mod 4 in
    Some (data ++ if (pad =? 1) && negb (tail =? 0) then replicate (Z.to_nat (4 - tail)) 0
                  else if 1 <? pad then replicate (Z.to_nat pad) 0 else []).
Fixpoint copy_datafile (files : list (list Z)) : option (list Z) :=
  match files with
  | [] => Some []
  | [file] => copy_file file 0
  | file :: files =>
      match copy_file file 1, copy_datafile files with
      | Some d, Some rest => Some (d ++ rest)
      | _, _ => None
      end
  end.

(** The body of main for an image of this kind: an empty header, the payload
    from the files, then the header.  A firmware image with an IVT, which gets
    more, is left out. *)
Definition size_table (files : list (list Z)) : list Z := concat (map (fun f => be_bytes 4 (len f)) files) ++ be_bytes 4 0.
Definition image_payload (params : image_tool_params) (files : list (list Z)) : option (list Z) :=
  if (p_type params =? IH_TYPE_MULTI) || (p_type params =? IH_TYPE_SCRIPT) then
    match copy_datafile files with Some d => Some (size_table files ++ d) | None => None end
  else match files with file :: _ => copy_file file 0 | [] => None end.
Definition mkimage (ptr time : Z) (optee : list Z -> Z * Z) (params : image_tool_params) (files : list (list Z)) : option (list Z) :=
  match image_payload params files with
  | Some d => Some (image_set_header ptr time optee params (replicate (Z.to_nat image_get_header_size) 0 ++ d))
  | None => None
  end.

(** FDT_ERR_BADMAGIC, FDT_ERR_BADSTATE, FDT_ERR_BADSTRUCTURE of libfdt. *)
Definition FDT_ERR_BADSTATE : Z := 7.
Definition FDT_ERR_BADMAGIC : Z := 9.
Definition FDT_ERR_BADSTRUCTURE : Z := 11.

Definition image_verify_header (sp ptr : Z) (file : list Z) : Z :=
  let image_size := len file in
  if image_size <? image_get_header_size then - FDT_ERR_BADSTRUCTURE
  else
    let hdr := slice file 0 image_get_header_size in
    if negb (image_get_magic hdr 0 =? IH_MAGIC) then - FDT_ERR_BADMAGIC
    else
      let checksum := image_get_hcrc hdr 0 in
      let hdr := image_set_l ih_hcrc hdr 0 0 in
      if negb (crc32 sp 0 hdr =? checksum) then - FDT_ERR_BADSTATE
      else
        let data := drop (Z.to_nat image_get_header_size) file in
        let n := image_get_data_size hdr 0 in
        let n := if image_get_type hdr 0 =? IH_TYPE_FIRMWARE_IVT then u32 (n - CSF_MINUS_IVT) else n in
        if image_size - image_get_header_size <? n then - FDT_ERR_BADSTRUCTURE
        else
          let checksum := image_get_dcrc hdr 0 in
          if negb (crc32 (ptr + image_get_header_size) 0 (slice data 0 n) =? checksum) then - FDT_ERR_BADSTRUCTURE else 0.

(** * Loading *)

Definition CHUNKSZ : Z := 65536.
Definition ENOSYS : Z := 38.

(** [None]: no progress. *)
Fixpoint move_loop (fuel : nat) (mem : list Z) (to from n chunksz : Z) : option (list Z) :=
  if 0 <? n then
    match fuel with
    | O => None
    | S fuel =>
        let tail := if chunksz <? n then chunksz else n in
        let '(to, from) := if from <? to then (to - tail, from - tail) else (to, from) in
        let mem := memmove mem to from tail in
        let '(to, from) := if to <? from then (to + tail, from + tail) else (to, from) in
        move_loop fuel mem to from (n - tail) chunksz
    end
  else Some mem.
Definition memmove_wd (wd : bool) (mem : list Z) (to from n chunksz : Z) : option (list Z) :=
  if to =? from then Some mem
  else if wd then
    let '(to, from) := if from <? to then (to + n, from + n) else (to, from) in
    move_loop (Z.to_nat n) mem to from n chunksz
  else Some (memmove mem to from n).

(** The table image_comp up to the entry that ends the search. *)
Definition image_comp : list (Z * list Z) :=
  [(IH_COMP_BZIP2, [0x42; 0x5a]); (IH_COMP_GZIP, [0x1f; 0x8b]); (IH_COMP_LZMA, [0x5d; 0x00]);
   (IH_COMP_LZO, [0x89; 0x4c]); (IH_COMP_LZ4, [0x04; 0x22]); (IH_COMP_ZSTD, [0x28; 0xb5])].
Definition image_decomp_type (buf : list Z) (n : Z) : Z :=
  if n <? 2 then - EINVAL
  else match find (fun c => memcmp buf (snd c) 2 =? 0) image_comp with Some c => fst c | None => IH_COMP_NONE end.

(** The decompressors, [None] where the configuration has none: from memory,
    the place and the space to decompress to, and where the input lies and its
    length, to the return value, the length of the output and memory. *)
Record decompressors := Decompressors {
  gunzip : option (list Z -> Z -> Z -> Z -> Z -> Z * Z * list Z);
  bunzip : option (list Z -> Z -> Z -> Z -> Z -> Z * Z * list Z);
  unlzma : option (list Z -> Z -> Z -> Z -> Z -> Z * Z * list Z);
  unlzo : option (list Z -> Z -> Z -> Z -> Z -> Z * Z * list Z);
  unlz4 : option (list Z -> Z -> Z -> Z -> Z -> Z * Z * list Z);
  unzstd : option (list Z -> Z -> Z -> Z -> Z -> Z * list Z)
}.

(** The return value, load_end and memory. *)
Definition image_decomp (wd : bool) (d : decompressors) (comp load image_start image_len unc_len : Z) (mem : list Z)
    : outcome (Z * Z * list Z) :=
  let call (f : option (list Z -> Z -> Z -> Z -> Z -> Z * Z * list Z)) :=
    match f with
    | Some f => f mem load unc_len image_start image_len
    | None => (- ENOSYS, image_len, mem)
    end in
  let r :=
    if comp =? IH_COMP_NONE then
      if load =? image_start then Done (0, image_len, mem)
      else if image_len <=? unc_len then
        if negb (load + image_len <=? len mem) || negb (image_start + image_len <=? len mem) then Overrun
        else match memmove_wd wd mem load image_start image_len CHUNKSZ with
             | Some mem => Done (0, image_len, mem)
             | None => Hangs
             end
      else Done (- ENOSPC, image_len, mem)
    else if comp =? IH_COMP_GZIP then Done (call (gunzip d))
    else if comp =? IH_COMP_BZIP2 then Done (call (bunzip d))
    else if comp =? IH_COMP_LZMA then Done (call (unlzma d))
    else if comp =? IH_COMP_LZO then Done (call (unlzo d))
    else if comp =? IH_COMP_LZ4 then Done (call (unlz4 d))
    else if comp =? IH_COMP_ZSTD then
      Done (match unzstd d with
            | Some f => let '(ret, mem) := f mem load unc_len image_start image_len in
                        if 0 <=? ret then (0, ret, mem) else (ret, image_len, mem)
            | None => (- ENOSYS, image_len, mem)
            end)
    else Done (- ENOSYS, image_len, mem) in
  match r with
  | Done (ret, image_len, mem) =>
      if ret =? - ENOSYS then Done (ret, load, mem) else Done (ret, u64 (load + image_len), mem)
  | Overrun => Overrun
  | Hangs => Hangs
  end.

(** * What CRC-32 detects *)

(** The shift register loses nothing. *)
Definition is_word (w : Z) : Prop := 0 <= w < 4294967296.

Lemma xor_word a b : is_word a -> is_word b -> is_word (Z.lxor a b).
Proof.
  unfold is_word. intros Ha Hb. assert (0 <= Z.lxor a b) by (apply Z.lxor_nonneg; lia). split; [done|].
  apply (range_bits _ 32); [lia|done|]. intros n Hn. rewrite Z.lxor_spec, !(testbit_high _ 32 n) by lia. done.
Qed.

Lemma crc_bit_word c : is_word c -> is_word (crc_bit c).
Proof.
  intros H. assert (is_word (Z.shiftr c 1)) as Hs.
  { unfold is_word in *. rewrite Z.shiftr_div_pow2 by lia. change (2 ^ 1) with 2. split; [apply Z.div_pos; lia|apply Z.div_lt_upper_bound; lia]. }
  unfold crc_bit. destruct (negb _); [|done]. apply xor_word; [|done]. split; reflexivity || done.
Qed.

Lemma crc_bit_zero d : is_word d -> crc_bit d = 0 -> d = 0.
Proof.
  unfold is_word, crc_bit. intros H. change (Z.land d 1) with (Z.land d (Z.ones 1)). rewrite Z.land_ones by lia.
  rewrite Z.shiftr_div_pow2 by lia. change (2 ^ 1) with 2. change crc_poly with 3988292384.
  destruct (Z.eqb_spec (d mod 2) 0) as [E|E]; cbn [negb]; intros Z0; [zlia|].
  apply Z.lxor_eq in Z0. exfalso. zlia.
Qed.

Lemma crc_iter_word n : forall c, is_word c -> is_word (Nat.iter n crc_bit c).
Proof. induction n as [|n IH]; intros c H; [done|]. cbn [Nat.iter]. by apply crc_bit_word, IH. Qed.

Lemma crc_iter_inj n a b : is_word a -> is_word b -> Nat.iter n crc_bit a = Nat.iter n crc_bit b -> a = b.
Proof.
  intros Ha Hb E. apply Z.lxor_eq. pose proof (xor_word a b Ha Hb) as Hd.
  assert (Nat.iter n crc_bit (Z.lxor a b) = 0) as Z0 by (rewrite crc_iter_xor, E; apply Z.lxor_nilpotent).
  clear E. revert Z0. generalize dependent (Z.lxor a b). clear. intros d Hd. induction n as [|n IH]; [done|]. cbn [Nat.iter].
  intros Z0. apply crc_bit_zero in Z0; [by apply IH|]. by apply crc_iter_word.
Qed.

Lemma byte_word b : is_byte b -> is_word b.
Proof. unfold is_byte, is_word. lia. Qed.

Lemma crc_fold_word s : forall c, bytes s -> is_word c -> is_word (fold_left crc_byte s c).
Proof.
  induction s as [|b s IH]; intros c F H; [done|]. apply Forall_cons in F as [Hb F]. apply IH; [done|].
  apply crc_iter_word, xor_word; [done|by apply byte_word].
Qed.

Lemma crc_fold_inj s : forall a b, bytes s -> is_word a -> is_word b -> fold_left crc_byte s a = fold_left crc_byte s b -> a = b.
Proof.
  induction s as [|x s IH]; intros a b F Ha Hb E; [done|]. apply Forall_cons in F as [Hx F]. apply byte_word in Hx. cbn [fold_left] in E.
  apply IH in E; [|done|by apply crc_iter_word, xor_word..]. apply crc_iter_inj in E; [|by apply xor_word..].
  apply (f_equal (fun z => Z.lxor z x)) in E. by rewrite !Z.lxor_assoc, Z.lxor_nilpotent, !Z.lxor_0_r in E.
Qed.

Lemma crc_fold_load w : forall c, bytes w -> fold_left crc_byte w c = Nat.iter (8 * length w) crc_bit (Z.lxor c (le_load w)).
Proof.
  induction w as [|b w IH]; intros c F; cbn [fold_left length]; [by rewrite Nat.mul_0_r, Z.lxor_0_r|].
  apply Forall_cons in F as [Hb F]. rewrite IH by done. cbn [le_load foldr]. fold (le_load w).
  rewrite <- !do_crc_byte by done. rewrite <- do_crc_word by (done || by apply le_load_nonneg).
  rewrite do_crc_byte by lia. unfold crc_byte. rewrite Z.lxor_0_r. replace (8 * S (length w))%nat with (8 * length w + 8)%nat by lia.
  by rewrite Nat.iter_add.
Qed.

Lemma le_load_inj w : forall w', bytes w -> bytes w' -> length w = length w' -> le_load w = le_load w' -> w = w'.
Proof.
  induction w as [|b w IH]; intros [|b' w'] F F' L E; try done. apply Forall_cons in F as [Hb F], F' as [Hb' F'].
  cbn [le_load foldr length] in *. fold (le_load w) in E. fold (le_load w') in E. unfold is_byte in *.
  assert (b = b' /\ le_load w = le_load w') as [-> E'] by lia. f_equal. apply IH; (done || lia).
Qed.

Lemma le_load_bound w : bytes w -> 0 <= le_load w < 256 ^ len w.
Proof.
  induction 1 as [|b w Hb F IH]; cbn [le_load foldr length]; [lia|]. fold (le_load w). rewrite Nat2Z.inj_succ, Z.pow_succ_r by lia.
  unfold is_byte in *. lia.
Qed.

(** Two texts that differ in a window of at most four bytes have different
    sums. *)
Lemma crc_window c p w w' s :
  is_word c -> bytes (p ++ w ++ s) -> bytes w' -> length w = length w' -> (length w <= 4)%nat ->
  crc_spec c (p ++ w ++ s) = crc_spec c (p ++ w' ++ s) -> w = w'.
Proof.
  intros Hc F Fw' L L4 E. apply Forall_app in F as [Fp F]. apply Forall_app in F as [Fw Fs].
  assert (forall v, bytes v -> length v = length w -> is_word (le_load v)) as Hv.
  { intros v Fv Lv. pose proof (le_load_bound v Fv) as B. rewrite Lv in B. unfold is_word. split; [lia|].
    eapply Z.lt_le_trans; [apply B|]. change 4294967296 with (256 ^ 4). apply Z.pow_le_mono_r; lia. }
  unfold crc_spec in E. apply (f_equal (fun z => Z.lxor z 4294967295)) in E.
  rewrite !Z.lxor_assoc, Z.lxor_nilpotent, !Z.lxor_0_r, !fold_left_app in E.
  assert (is_word (Z.lxor c 4294967295)) as H1 by (apply xor_word; [done|split; done]).
  pose proof (crc_fold_word p _ Fp H1) as H2. set (d := fold_left crc_byte p _) in *. clearbody d.
  apply crc_fold_inj in E; [|done|by apply crc_fold_word..]. rewrite !crc_fold_load, L in E by done.
  apply crc_iter_inj in E; [|by apply xor_word; auto..].
  apply (f_equal (Z.lxor d)) in E. rewrite <- !Z.lxor_assoc, Z.lxor_nilpotent, !Z.lxor_0_l in E.
  by apply le_load_inj.
Qed.

(** * Fields *)

Lemma be_load_rev l : be_load (rev l) = le_load l.
Proof.
  unfold be_load, le_load. rewrite <- fold_left_rev_right, rev_involutive. induction l as [|b l IH]; [done|]. cbn [fold_right foldr].
  rewrite IH. lia.
Qed.

Lemma be_load_bytes n w : be_load (be_bytes n w) = w mod 256 ^ Z.of_nat n.
Proof.
  unfold be_bytes. rewrite be_load_rev. revert w. induction n as [|n IH]; intros w; [cbn; by rewrite Z.mod_1_r|].
  cbn [le_bytes le_load foldr]. fold (le_load (le_bytes n (Z.shiftr w 8))). rewrite IH, (Z.land_ones _ 8), Z.shiftr_div_pow2 by lia.
  rewrite Nat2Z.inj_succ, Z.pow_succ_r by lia. change (2 ^ 8) with 256.
  rewrite Z.rem_mul_r; [done|lia|apply Z.pow_pos_nonneg; lia].
Qed.

Lemma strnlen_bound (s : list Z) n : 0 <= n -> 0 <= strnlen s n <= n /\ strnlen s n <= len s.
Proof.
  intros Hn. unfold strnlen. enough (forall k, 0 <= strnlen_nat s k <= Z.of_nat k /\ strnlen_nat s k <= len s) as H
    by (specialize (H (Z.to_nat n)); lia).
  induction s as [|c s IH]; intros [|k]; cbn [strnlen_nat length]; [lia..|]. destruct (c =? 0); [lia|]. specialize (IH k). lia.
Qed.

Lemma name_span name : 0 <= len (slice name 0 (strnlen name IH_NMLEN)) <= 32.
Proof. destruct (strnlen_bound name IH_NMLEN ltac:(done)) as [H1 H2]. unfold IH_NMLEN in *. rewrite slice_length by lia. lia. Qed.

(** A store beside a field leaves it. *)
Section Fields.
Context (m : list Z) (L : 64 <= len m).

Lemma get_store_same f v : 0 <= f <= 60 -> image_get_l f (image_set_l f m 0 v) 0 = u32 v.
Proof using L.
  intros Hf. unfold image_get_l, image_set_l. rewrite Z.add_0_l.
  pose proof (slice_store_same m f (be_bytes 4 v)) as E. rewrite be_bytes_length in E. change (Z.of_nat 4) with 4 in E.
  rewrite E by lia. rewrite be_load_bytes. done.
Qed.

Lemma get_store_other f g bs : 0 <= f <= 60 -> 0 <= g -> g + len bs <= len m -> f + 4 <= g \/ g + len bs <= f ->
  image_get_l f (store m g bs) 0 = image_get_l f m 0.
Proof using. intros Hf Hg Hl Hd. unfold image_get_l. rewrite slice_store_other by lia. done. Qed.

Lemma getb_store_same f v : 0 <= f < 64 -> image_get_b f (image_set_b f m 0 v) 0 = u8 v.
Proof using L.
  intros Hf. unfold image_get_b, image_set_b. rewrite Z.add_0_l. rewrite list_lookup_total_alt, store_lookup by (cbn; lia).
  cbn [length]. repeat case_decide; try lia. by rewrite Nat.sub_diag.
Qed.

Lemma getb_store_other f g bs : 0 <= f < 64 -> 0 <= g -> g + len bs <= len m -> f < g \/ g + len bs <= f ->
  image_get_b f (store m g bs) 0 = image_get_b f m 0.
Proof using.
  intros Hf Hg Hl Hd. unfold image_get_b. rewrite !list_lookup_total_alt, store_lookup by lia. repeat case_decide; try lia; done.
Qed.

Lemma set_l_ge f v : 0 <= f <= 60 -> len (image_set_l f m 0 v) = len m.
Proof using L. intros Hf. unfold image_set_l. rewrite store_length; [done|lia|rewrite be_bytes_length; lia]. Qed.

Lemma set_b_ge f v : 0 <= f < 64 -> len (image_set_b f m 0 v) = len m.
Proof using L. intros Hf. unfold image_set_b. rewrite store_length; [done|lia|cbn [length]; lia]. Qed.

Lemma set_name_ge name : len (image_set_name m 0 name) = len m.
Proof using L. unfold image_set_name, ih_name. pose proof (name_span name). rewrite store_length; [done|lia|lia]. Qed.

(** Each field after each kind of setting. *)
Lemma get_set_l f g v : 0 <= f <= 60 -> 0 <= g <= 60 -> f + 4 <= g \/ g + 4 <= f ->
  image_get_l f (image_set_l g m 0 v) 0 = image_get_l f m 0.
Proof using L. intros. unfold image_set_l. apply get_store_other; rewrite ?be_bytes_length; lia. Qed.

Lemma get_set_b f g v : 0 <= f <= 60 -> 0 <= g < 64 -> f + 4 <= g \/ g < f ->
  image_get_l f (image_set_b g m 0 v) 0 = image_get_l f m 0.
Proof using L. intros. unfold image_set_b. apply get_store_other; cbn [length]; lia. Qed.

Lemma get_set_name f name : 0 <= f <= 28 -> image_get_l f (image_set_name m 0 name) 0 = image_get_l f m 0.
Proof using L. intros. unfold image_set_name, ih_name. pose proof (name_span name). apply get_store_other; lia. Qed.

Lemma getb_set_l f g v : 0 <= f < 64 -> 0 <= g <= 60 -> f < g \/ g + 4 <= f ->
  image_get_b f (image_set_l g m 0 v) 0 = image_get_b f m 0.
Proof using L. intros. unfold image_set_l. apply getb_store_other; rewrite ?be_bytes_length; lia. Qed.

Lemma getb_set_b f g v : 0 <= f < 64 -> 0 <= g < 64 -> f <> g -> image_get_b f (image_set_b g m 0 v) 0 = image_get_b f m 0.
Proof using L. intros. unfold image_set_b. apply getb_store_other; cbn [length]; lia. Qed.

Lemma getb_set_name f name : 0 <= f < 32 -> image_get_b f (image_set_name m 0 name) 0 = image_get_b f m 0.
Proof using L. intros. unfold image_set_name, ih_name. pose proof (name_span name). apply getb_store_other; lia. Qed.

(** The rest of the file stays, and stays bytes. *)
Lemma set_l_rest f v : 0 <= f <= 60 -> drop 64 (image_set_l f m 0 v) = drop 64 m.
Proof using L.
  intros. unfold image_set_l. pose proof (be_bytes_length 4 v) as Lb. set (b := be_bytes 4 v) in *. clearbody b. clear v. slice_ext.
Qed.

Lemma set_b_rest f v : 0 <= f < 64 -> drop 64 (image_set_b f m 0 v) = drop 64 m.
Proof using L. intros. unfold image_set_b. slice_ext. Qed.

Lemma set_name_rest name : drop 64 (image_set_name m 0 name) = drop 64 m.
Proof using L. unfold image_set_name, ih_name. pose proof (name_span name) as H. set (b := slice name _ _) in *. clearbody b. slice_ext. Qed.
End Fields.

Lemma store_bytes_keep m off b : bytes m -> bytes b -> bytes (store m off b).
Proof. intros Fm Fb. unfold store. apply Forall_app. split; [by apply Forall_take|]. apply Forall_app. split; [done|by apply Forall_drop]. Qed.

(** At least a header. *)
Lemma set_l_64 m f v : 64 <= len m -> 0 <= f <= 60 -> 64 <= len (image_set_l f m 0 v).
Proof. intros L H. by rewrite set_l_ge. Qed.

Lemma set_b_64 m f v : 64 <= len m -> 0 <= f < 64 -> 64 <= len (image_set_b f m 0 v).
Proof. intros L H. by rewrite set_b_ge. Qed.

Lemma set_name_64 m name : 64 <= len m -> 64 <= len (image_set_name m 0 name).
Proof. intros L. by rewrite set_name_ge. Qed.

Ltac field_offsets := unfold ih_magic, ih_hcrc, ih_time, ih_size, ih_load, ih_ep, ih_dcrc, ih_os, ih_arch, ih_type, ih_comp in *.
Ltac field_side := lazymatch goal with
  | |- 64 <= len (image_set_name _ _ _) => apply set_name_64; field_side
  | |- 64 <= len (image_set_b _ _ _ _) => apply set_b_64; [field_side|clear; lia]
  | |- 64 <= len (image_set_l _ _ _ _) => apply set_l_64; [field_side|clear; lia]
  | |- 64 <= _ => assumption
  | |- _ => clear; lia
  end.
Ltac field_get := repeat first
  [rewrite get_store_same by field_side | rewrite getb_store_same by field_side | rewrite get_set_name by field_side
  |rewrite get_set_b by field_side | rewrite get_set_l by field_side | rewrite getb_set_name by field_side
  |rewrite getb_set_b by field_side | rewrite getb_set_l by field_side].
Ltac field_rest := repeat first
  [rewrite set_l_rest by field_side | rewrite set_b_rest by field_side | rewrite set_name_rest by field_side].
Ltac field_len := repeat first [rewrite set_l_ge by field_side | rewrite set_b_ge by field_side | rewrite set_name_ge by field_side].

(** * What mkimage makes *)

Lemma le_load_zero bs : bytes bs -> le_load bs = 0 -> Forall (fun b => b = 0) bs.
Proof.
  induction 1 as [|b l Hb F IH]; [done|]. cbn [le_load foldr]. fold (le_load l). intros E.
  pose proof (le_load_nonneg l F). unfold is_byte in Hb. apply Forall_cons. split; [lia|]. apply IH. lia.
Qed.

Lemma be_load_zero bs : bytes bs -> be_load bs = 0 -> bs = replicate (length bs) 0.
Proof.
  intros F E. assert (Forall (fun b => b = 0) bs) as Z.
  { rewrite <- (rev_involutive bs) in E |- *. apply Forall_rev, le_load_zero; [by apply Forall_rev|by rewrite be_load_rev in E]. }
  clear - Z. induction Z as [|b bs -> _ IH]; [done|]. cbn [length replicate]. by rewrite <- IH.
Qed.

Section Made.
Context (ptr time : Z) (optee : list Z -> Z * Z) (params : image_tool_params) (file : list Z).
Context (F : bytes file) (L : 64 <= len file) (Hz : image_get_hcrc file 0 = 0) (Fn : bytes (p_imagename params)).

Abbreviation addresses := (if p_os params =? IH_OS_TEE then optee file else (p_addr params, p_ep params)).
Abbreviation made_type := (if p_type params =? IH_TYPE_FDT_LEGACY then IH_TYPE_FLATDT else p_type params).
Abbreviation made := (image_set_header ptr time optee params file).

(** The fields of a header. *)
Definition header_fields (h : list Z) : Prop :=
  image_get_magic h 0 = IH_MAGIC /\
  image_get_size h 0 = (if p_type params =? IH_TYPE_FIRMWARE_IVT then u32 (len file - 64 + CSF_MINUS_IVT) else u32 (len file - 64)) /\
  image_get_load h 0 = u32 (fst addresses) /\ image_get_ep h 0 = u32 (snd addresses) /\
  image_get_dcrc h 0 = crc_spec 0 (drop 64 file) /\
  image_get_os h 0 = u8 (p_os params) /\ image_get_arch h 0 = u8 (p_arch params) /\
  image_get_type h 0 = u8 made_type /\ image_get_comp h 0 = u8 (p_comp params).

Lemma made_header :
  exists h, made = image_set_l ih_hcrc h 0 (crc32 ptr 0 (slice h 0 64)) /\ len h = len file /\ bytes h /\
    drop 64 h = drop 64 file /\ slice h 4 8 = replicate 4 0 /\ header_fields h.
Proof using F L Hz Fn.
  unfold image_set_header, header_fields. destruct addresses as [addr ep]. cbn [fst snd]. cbv zeta.
  change (Z.to_nat image_get_header_size) with 64%nat. change image_get_header_size with 64.
  assert (bytes (drop 64 file)) as Fd by (by apply Forall_drop). rewrite (crc32_ok (ptr + 64)) by done.
  assert (is_word (crc_spec 0 (drop 64 file))) as Hc.
  { unfold crc_spec. apply xor_word; [|split; done]. apply crc_fold_word; [done|]. split; done. }
  set (c := crc_spec 0 _) in *. clearbody c.
  set (sz := if p_type params =? IH_TYPE_FIRMWARE_IVT then _ else _).
  assert (u32 sz = sz) as Esz by (unfold sz; destruct (_ =? _); apply Z.mod_mod; done). clearbody sz.
  eexists. split; [reflexivity|]. field_offsets.
  unfold image_get_magic, image_get_size, image_get_load, image_get_ep, image_get_dcrc, image_get_os, image_get_arch, image_get_type, image_get_comp.
  field_offsets. field_rest. field_len.
  set (h := image_set_name _ 0 (p_imagename params)).
  assert (bytes h) as Fh.
  { unfold h, image_set_name, image_set_b, image_set_l.
    repeat (apply store_bytes_keep; [|first [apply be_bytes_bytes | by apply Forall_take, Forall_drop
      | apply Forall_cons; split; [apply Z.mod_pos_bound; lia|by apply Forall_nil]]]). done. }
  assert (len h = len file) as Lh by (unfold h; by field_len).
  assert (image_get_hcrc h 0 = 0) as Eh by (etransitivity; [|exact Hz]; unfold h, image_get_hcrc; field_offsets; by field_get).
  split_and!; try done; try (unfold h; by field_get).
  - apply be_load_zero in Eh; [|by apply Forall_take, Forall_drop].
    change (slice h 4 8) with (slice h (0 + ih_hcrc) (0 + ih_hcrc + 4)). rewrite Eh. f_equal.
    clearbody h. unfold ih_hcrc. rewrite slice_length_tot. lia.
  - unfold h. field_get. unfold u32, is_word in *. by apply Z.mod_small.
Qed.
Lemma made_length : len made = len file.
Proof using F L Hz Fn. destruct made_header as (h & -> & Lh & _). unfold ih_hcrc. rewrite set_l_ge; lia. Qed.
End Made.

(** ** An image in memory *)

Definition placed (mem : list Z) (hdr : Z) (img : list Z) : Prop :=
  0 <= hdr /\ hdr + len img <= len mem /\ slice mem hdr (hdr + len img) = img.

Section Placed.
Context (mem : list Z) (hdr : Z) (img : list Z) (P : placed mem hdr img).

Lemma placed_slice lo hi : 0 <= lo -> lo <= hi -> hi <= len img -> slice mem (hdr + lo) (hdr + hi) = slice img lo hi.
Proof using P. destruct P as (H0 & H1 & E). intros. rewrite <- E at 1. clear - H0 H1 H H2 H3. slice_ext. Qed.

Lemma placed_get_l f : 0 <= f -> f + 4 <= len img -> image_get_l f mem hdr = image_get_l f img 0.
Proof using P. intros. unfold image_get_l. by rewrite <- Z.add_assoc, placed_slice by lia. Qed.

Lemma placed_get_b f : 0 <= f < len img -> image_get_b f mem hdr = image_get_b f img 0.
Proof using P.
  intros Hf. destruct P as (H0 & H1 & E). unfold image_get_b. rewrite <- E at 1. rewrite !list_lookup_total_alt. f_equal.
  rewrite slice_lookup_tot. case_decide; [|lia]. f_equal. lia.
Qed.
End Placed.

Lemma crc_spec_word c m : is_word c -> bytes m -> is_word (crc_spec c m).
Proof. intros Hc Fm. unfold crc_spec. apply xor_word; [|split; done]. apply crc_fold_word; [done|]. apply xor_word; [done|split; done]. Qed.

Lemma zero_word : is_word 0.
Proof. split; done. Qed.

(** The two checks, by the sums that are compared. *)
Lemma check_hcrc_spec sp mem hdr img :
  placed mem hdr img -> bytes img -> 64 <= len img ->
  image_check_hcrc sp mem hdr = (crc_spec 0 (image_set_l ih_hcrc (slice img 0 64) 0 0) =? image_get_hcrc img 0).
Proof.
  intros P F L. unfold image_check_hcrc, image_get_hcrc, image_get_header_size, ih_hcrc. rewrite (placed_get_l _ _ _ P) by lia.
  rewrite <- (Z.add_0_r hdr) at 1. rewrite (placed_slice _ _ _ P) by lia. rewrite crc32_ok; [done|].
  unfold image_set_l. apply store_bytes_keep; [by apply Forall_take, Forall_drop|apply be_bytes_bytes].
Qed.

Lemma check_dcrc_spec wd mem hdr img :
  placed mem hdr img -> bytes img -> 64 <= len img -> 0 <= image_get_size img 0 < 4294967296 -> 64 + image_get_size img 0 <= len img ->
  image_check_dcrc wd mem hdr = Done (crc_spec 0 (slice img 64 (64 + image_get_size img 0)) =? image_get_dcrc img 0).
Proof.
  intros P F L Hs Hl. unfold image_check_dcrc, image_get_data_size, image_get_size, image_get_dcrc, image_get_data, image_get_header_size in *.
  field_offsets. rewrite !(placed_get_l _ _ _ P) by lia. set (n := image_get_l 12 img 0) in *. cbv zeta. destruct P as (H0 & H1 & E).
  destruct (Z.leb_spec (hdr + 64 + n) (len mem)); [|lia]. cbn [negb]. rewrite <- Z.add_assoc, (placed_slice mem hdr img) by (done || lia).
  set (d := slice img 64 (64 + n)). assert (bytes d) as Fd by (by apply Forall_take, Forall_drop).
  assert (len d = n) as Ld by (unfold d; rewrite slice_length; lia).
  destruct wd; cbn [crc32_wd]; [|by rewrite crc32_ok].
  rewrite crc32_chunks_ok by (done || lia). case_decide as D; [|done]. by rewrite D.
Qed.

(** ** Images that mkimage made *)

Lemma copy_file_bytes f pad d : copy_file f pad = Some d -> bytes f -> bytes d.
Proof.
  unfold copy_file. destruct (_ =? 0); [done|]. intros [= <-] F. apply Forall_app. split; [done|].
  repeat case_match; [|..|by apply Forall_nil]; apply Forall_replicate; split; done.
Qed.

Lemma copy_datafile_bytes files : forall d, copy_datafile files = Some d -> Forall (fun f => bytes f) files -> bytes d.
Proof.
  induction files as [|f files IH]; intros d; [by intros [= <-]; constructor|]. intros E F. apply Forall_cons in F as [Ff F].
  cbn [copy_datafile] in E. destruct files as [|g files]; [by eapply copy_file_bytes|].
  destruct (copy_file f 1) eqn:E1; [|done]. destruct (copy_datafile (g :: files)) eqn:E2; [|done]. injection E as <-.
  apply Forall_app. split; [by eapply copy_file_bytes|by apply IH].
Qed.

Lemma payload_bytes params files d : image_payload params files = Some d -> Forall (fun f => bytes f) files -> bytes d.
Proof.
  unfold image_payload. intros E F. destruct (_ || _).
  - destruct (copy_datafile files) eqn:E1; [|done]. injection E as <-. apply Forall_app. split; [|by eapply copy_datafile_bytes].
    unfold size_table. apply Forall_app. split; [|apply be_bytes_bytes].
    apply Forall_concat, Forall_map, Forall_true. intros x. apply be_bytes_bytes.
  - destruct files as [|f files]; [done|]. apply Forall_cons in F as [Ff F]. by eapply copy_file_bytes.
Qed.

(** Four bytes overwritten and put back. *)
Lemma patch_back (h b : list Z) : length b = 4%nat -> 64 <= len h -> store (slice (store h 4 b) 0 64) 4 (slice h 4 8) = slice h 0 64.
Proof.
  intros Lb Lh. assert (h = take 4 h ++ slice h 4 8 ++ drop 8 h) as E.
  { rewrite <- (take_drop 4 h) at 1. f_equal. rewrite <- (take_drop 4 (drop 4 h)), drop_drop. done. }
  assert (length (take 4 h) = 4%nat) as L1 by (rewrite length_take; lia).
  assert (length (slice h 4 8) = 4%nat) as L2 by (rewrite slice_length_tot; lia).
  revert E L1 L2. generalize (take 4 h) as p, (slice h 4 8) as z, (drop 8 h) as r. intros p z r -> L1 L2.
  do 4 (destruct p as [|? p]; [done|]). destruct p; [|done]. do 4 (destruct b as [|? b]; [done|]). destruct b; [|done].
  do 4 (destruct z as [|? z]; [done|]). destruct z; [|done]. reflexivity.
Qed.

Section Mkimage.
Context (ptr time : Z) (optee : list Z -> Z * Z) (params : image_tool_params) (d : list Z).
Context (F : bytes d) (Ld : 64 + len d < 4294967296) (Fn : bytes (p_imagename params)) (Ni : p_type params <> IH_TYPE_FIRMWARE_IVT).

Abbreviation file := (replicate 64 0 ++ d).
Abbreviation img := (image_set_header ptr time optee params file).

Lemma image_made :
  len img = 64 + len d /\ bytes img /\ drop 64 img = d /\ image_get_size img 0 = len d /\ header_fields optee params file img /\
  crc_spec 0 (image_set_l ih_hcrc (slice img 0 64) 0 0) = image_get_hcrc img 0 /\ crc_spec 0 d = image_get_dcrc img 0.
Proof using F Ld Fn Ni.
  assert (bytes file) as Ff by (apply Forall_app; split; [apply Forall_replicate; split; done|done]).
  assert (len file = 64 + len d) as Lf by (rewrite length_app, length_replicate; lia).
  destruct (made_header ptr time optee params file Ff ltac:(lia) ltac:(reflexivity) Fn) as (h & E & Lh & Fh & Dh & Zh & Hf).
  assert (is_word (crc_spec 0 (slice h 0 64))) as Hw by (apply crc_spec_word; [apply zero_word|by apply Forall_take, Forall_drop]).
  rewrite E, crc32_ok by (by apply Forall_take, Forall_drop). set (c := crc_spec 0 (slice h 0 64)) in *.
  assert (header_fields optee params file (image_set_l ih_hcrc h 0 c)) as Hf'.
  { unfold header_fields, image_get_magic, image_get_size, image_get_load, image_get_ep, image_get_dcrc, image_get_os, image_get_arch, image_get_type, image_get_comp in *.
    field_offsets. assert (64 <= len h) by lia. rewrite !get_set_l, !getb_set_l by field_side. exact Hf. }
  assert (drop 64 file = d) as Df by (by rewrite drop_app_length' by (by rewrite length_replicate)).
  pose proof Hf' as (_ & Es & _ & _ & Ed & _). rewrite (proj2 (Z.eqb_neq _ _) Ni), Lf in Es. rewrite Df in Ed.
  split_and!; try done.
  - unfold ih_hcrc. rewrite set_l_ge by lia. lia.
  - unfold image_set_l. apply store_bytes_keep; [done|apply be_bytes_bytes].
  - unfold ih_hcrc. rewrite set_l_rest by lia. by rewrite Dh.
  - rewrite Es. unfold u32. rewrite Z.mod_small; lia.
  - unfold image_get_hcrc, ih_hcrc in *. rewrite get_store_same by lia. unfold u32. rewrite Z.mod_small by done.
    unfold c at 2. f_equal. unfold image_set_l. change (be_bytes 4 0) with (replicate 4 0). rewrite <- Zh.
    apply patch_back; [rewrite be_bytes_length; done|lia].
Qed.
End Mkimage.

(** The same from the files. *)
Lemma mkimage_made ptr time optee params files img :
  mkimage ptr time optee params files = Some img -> Forall (fun f => bytes f) files -> bytes (p_imagename params) ->
  len img < 4294967296 -> p_type params <> IH_TYPE_FIRMWARE_IVT ->
  exists d, image_payload params files = Some d /\ bytes d /\
    len img = 64 + len d /\ bytes img /\ drop 64 img = d /\ image_get_size img 0 = len d /\
    header_fields optee params (replicate 64 0 ++ d) img /\
    crc_spec 0 (image_set_l ih_hcrc (slice img 0 64) 0 0) = image_get_hcrc img 0 /\ crc_spec 0 d = image_get_dcrc img 0.
Proof.
  intros Em Ff Fn Li Ni. unfold mkimage in Em. destruct (image_payload params files) as [d|] eqn:Ep; [|done]. apply Some_inj in Em.
  change (Z.to_nat image_get_header_size) with 64%nat in Em. pose proof (payload_bytes _ _ _ Ep Ff) as Fd.
  assert (64 + len d < 4294967296) as Ld.
  { rewrite <- Em, made_length, length_app, length_replicate in Li; [lia|..|done].
    - apply Forall_app. split; [apply Forall_replicate; split; done|done].
    - rewrite length_app, length_replicate. lia.
    - reflexivity. }
  exists d. split; [done|]. split; [done|]. pose proof (image_made ptr time optee params d Fd Ld Fn Ni) as H. by rewrite Em in H.
Qed.

Lemma made_type_ok t : image_check_image_types t = true -> t <> IH_TYPE_FIRMWARE_IVT ->
  u8 (if t =? IH_TYPE_FDT_LEGACY then IH_TYPE_FLATDT else t) <> IH_TYPE_FIRMWARE_IVT.
Proof.
  unfold image_check_image_types, IH_TYPE_FIRMWARE_IVT, IH_TYPE_FDT_LEGACY, IH_TYPE_FLATDT, IH_TYPE_KERNEL_NOLOAD. intros H N.
  destruct (Z.eqb_spec t 42); [done|]. rewrite u8_small; [done|].
  rewrite !orb_true_iff, andb_true_iff, !Z.ltb_lt, !Z.eqb_eq in H. lia.
Qed.

Lemma verify_made sp ptr img d :
  bytes img -> len img = 64 + len d -> drop 64 img = d -> image_get_magic img 0 = IH_MAGIC -> image_get_size img 0 = len d ->
  image_get_type img 0 <> IH_TYPE_FIRMWARE_IVT ->
  crc_spec 0 (image_set_l ih_hcrc (slice img 0 64) 0 0) = image_get_hcrc img 0 -> crc_spec 0 d = image_get_dcrc img 0 ->
  image_verify_header sp ptr img = 0.
Proof.
  intros Fm Lm Dm Hm Sm Hty Hc Hd. unfold image_verify_header. change (Z.to_nat image_get_header_size) with 64%nat.
  change image_get_header_size with 64. cbv zeta. destruct (Z.ltb_spec (len img) 64); [lia|].
  assert (len (slice img 0 64) = 64) as Lh by (rewrite slice_length; lia).
  assert (placed img 0 (slice img 0 64)) as P by (unfold placed; rewrite Lh; split_and!; [lia|lia|done]).
  unfold image_get_magic, image_get_hcrc, image_get_data_size, image_get_size, image_get_type, image_get_dcrc in *. field_offsets.
  assert (64 <= len (slice img 0 64)) by lia. rewrite !get_set_l, !getb_set_l by field_side. rewrite <- !(placed_get_l _ _ _ P), <- !(placed_get_b _ _ _ P) by lia.
  rewrite Hm, Z.eqb_refl. cbn [negb]. rewrite crc32_ok; [|unfold image_set_l; apply store_bytes_keep; [by apply Forall_take, Forall_drop|apply be_bytes_bytes]].
  rewrite Hc, Z.eqb_refl. cbn [negb]. rewrite (proj2 (Z.eqb_neq _ _) Hty), Sm, Dm. destruct (Z.ltb_spec (len img - 64) (len d)); [lia|].
  rewrite slice_all, crc32_ok, Hd, Z.eqb_refl by (rewrite <- Dm; by apply Forall_drop). done.
Qed.

(** Such an image in memory. *)
Lemma mkimage_checks ptr time optee params files img mem hdr sp wd :
  mkimage ptr time optee params files = Some img -> Forall (fun f => bytes f) files -> bytes (p_imagename params) ->
  len img < 4294967296 -> p_type params <> IH_TYPE_FIRMWARE_IVT -> placed mem hdr img ->
  image_check_magic mem hdr = true /\ image_check_hcrc sp mem hdr = true /\ image_check_dcrc wd mem hdr = Done true /\
  image_get_size mem hdr = len img - 64 /\
  image_payload params files = Some (slice mem (hdr + 64) (hdr + 64 + (len img - 64))) /\
  (p_os params <> IH_OS_TEE -> image_get_load mem hdr = u32 (p_addr params) /\ image_get_ep mem hdr = u32 (p_ep params)) /\
  image_get_os mem hdr = u8 (p_os params) /\ image_get_arch mem hdr = u8 (p_arch params) /\
  image_get_comp mem hdr = u8 (p_comp params) /\
  image_get_type mem hdr = u8 (if p_type params =? IH_TYPE_FDT_LEGACY then IH_TYPE_FLATDT else p_type params).
Proof.
  intros Em Ff Fn Li Ni P. destruct (mkimage_made _ _ _ _ _ _ Em Ff Fn Li Ni) as (d & Ep & Fd & Lm & Fm & Dm & Sm & Hf & Hc & Hd). rewrite Ep.
  assert (slice img 64 (64 + len d) = d) as Es by (rewrite <- Dm at 2; unfold slice; rewrite <- Lm; apply take_ge; rewrite length_drop; lia).
  rewrite (check_hcrc_spec sp _ _ _ P), (check_dcrc_spec wd _ _ _ P) by (done || lia). rewrite Sm, Es, Hc, Hd, !Z.eqb_refl.
  pose proof Hf as (Hm & _ & Hlo & Hep & _ & Hos & Har & Hty & Hco).
  unfold image_check_magic, image_get_magic, image_get_size, image_get_load, image_get_ep, image_get_os, image_get_arch, image_get_comp, image_get_type in *.
  field_offsets. rewrite !(placed_get_l _ _ _ P), !(placed_get_b _ _ _ P) by lia.
  rewrite Hm, Sm, Hos, Har, Hco, Hty, Hlo, Hep, Lm. replace (64 + len d - 64) with (len d) by lia.
  rewrite <- Z.add_assoc, (placed_slice _ _ _ P), Es by lia.
  split_and!; try done. intros Ne. by rewrite (proj2 (Z.eqb_neq _ _) Ne).
Qed.

(** C23: what mkimage makes from data files, of any of its types but the firmware
    image with an IVT and of less than 4 GiB, passes the checks before a boot
    wherever it lies in memory, and mkimage's own: the magic number, the
    header's and the data's checksum; its fields are those given to mkimage and
    its data the payload made from the files. *)
Theorem mkimage_accepted (ptr time : Z) (optee : list Z -> Z * Z) (params : image_tool_params) (files : list (list Z))
    (img mem : list Z) (hdr sp : Z) (wd : bool) :
  mkimage ptr time optee params files = Some img -> Forall (fun f => bytes f) files -> bytes (p_imagename params) ->
  len img < 4294967296 -> image_check_image_types (p_type params) = true -> p_type params <> IH_TYPE_FIRMWARE_IVT ->
  placed mem hdr img ->
  image_check_magic mem hdr = true /\ image_check_hcrc sp mem hdr = true /\ image_check_dcrc wd mem hdr = Done true /\
  image_verify_header sp ptr img = 0 /\
  image_payload params files =
    Some (slice mem (image_get_data hdr) (image_get_data hdr + image_get_data_size mem hdr)) /\
  (p_os params <> IH_OS_TEE -> image_get_load mem hdr = u32 (p_addr params) /\ image_get_ep mem hdr = u32 (p_ep params)) /\
  image_get_os mem hdr = u8 (p_os params) /\ image_get_arch mem hdr = u8 (p_arch params) /\
  image_get_comp mem hdr = u8 (p_comp params) /\
  image_get_type mem hdr = u8 (if p_type params =? IH_TYPE_FDT_LEGACY then IH_TYPE_FLATDT else p_type params).
Proof.
  intros Em Ff Fn Li Nt Ni P. pose proof (mkimage_checks _ _ _ _ _ _ _ _ sp wd Em Ff Fn Li Ni P) as (H1 & H2 & H3 & H4 & H5 & H6 & H7).
  destruct (mkimage_made _ _ _ _ _ _ Em Ff Fn Li Ni) as (d & Ep & Fd & Lm & Fm & Dm & Sm & Hf & Hc & Hd).
  unfold image_get_data, image_get_data_size, image_get_header_size. rewrite H4. split_and!; try done; try apply H7; [|by apply H6..].
  pose proof Hf as (Hm & _ & _ & _ & _ & _ & _ & Hty & _). apply (verify_made sp ptr img d); try done.
  rewrite Hty. by apply made_type_ok.
Qed.

(** * Multi-file images *)

Definition round4 (n : Z) : Z := 4 * ((n + 3) / 4).

Lemma round4_mask n : 0 <= n -> n + 3 < 4294967296 -> Z.land (u32 (n + 3)) 4294967292 = round4 n.
Proof.
  intros Hn Hl. rewrite u32_small by lia. unfold round4. set (x := n + 3) in *.
  assert (Z.land x 4294967292 = Z.ldiff x (Z.ones 2)) as ->.
  { apply Z.bits_inj'. intros k Hk. rewrite Z.land_spec, Z.ldiff_spec. destruct (Z.ltb_spec k 32).
    - f_equal. assert (k = 0 \/ k = 1 \/ 2 <= k) as [->|[->|Hk2]] by lia; [done|done|].
      rewrite Z.ones_spec_high by lia. change 4294967292 with (Z.shiftl (Z.ones 30) 2). rewrite Z.shiftl_spec, Z.ones_spec_low by lia. done.
    - rewrite (testbit_high x 32 k) by lia. done. }
  rewrite Z.ldiff_ones_r, Z.shiftl_mul_pow2, Z.shiftr_div_pow2 by lia. change (2 ^ 2) with 4. lia.
Qed.

(** What lies before component [i] of the data. *)
Definition part_offset (files : list (list Z)) (i : nat) : Z := foldr (fun f o => round4 (len f) + o) 0 (take i files).

Lemma copy_file_padded f d : copy_file f 1 = Some d -> f <> [] /\ len d = round4 (len f) /\ take (length f) d = f.
Proof.
  unfold copy_file. destruct (Z.eqb_spec (len f) 0) as [|N]; [done|]. intros [= <-]. split; [by intros ->|]. rewrite take_app_length.
  split; [|done]. rewrite length_app. unfold round4. destruct (Z.eqb_spec (len f mod 4) 0) as [E|E]; cbn [negb andb Z.eqb Pos.eqb length].
  - change (1 <? 1) with false. cbn [length]. zlia.
  - rewrite length_replicate. pose proof (Z.mod_pos_bound (len f) 4 ltac:(lia)). zlia.
Qed.

Lemma copy_parts files : forall d, copy_datafile files = Some d ->
  Forall (fun f => f <> []) files /\
  forall i f, files !! i = Some f -> 0 <= part_offset files i /\ part_offset files i + len f <= len d /\
    slice d (part_offset files i) (part_offset files i + len f) = f.
Proof.
  induction files as [|g files IH]; intros d E; [split; [constructor|done]|]. cbn [copy_datafile] in E. destruct files as [|g2 files].
  { unfold copy_file in E. destruct (Z.eqb_spec (len g) 0) as [|N]; [done|]. injection E as <-. split; [by apply Forall_cons; split; [intros ->|]|].
    intros [|i] f Hi; [|done]. injection Hi as <-. cbn [part_offset take foldr]. rewrite app_nil_r, Z.add_0_l, slice_all. split_and!; [done|lia|done]. }
  destruct (copy_file g 1) as [d1|] eqn:E1; [|done]. destruct (copy_datafile (g2 :: files)) as [d2|] eqn:E2; [|done]. injection E as <-.
  destruct (copy_file_padded _ _ E1) as (Ng & L1 & T1). destruct (IH d2 eq_refl) as [Nf Hp]. split; [by apply Forall_cons|].
  intros [|i] f Hi; cbn [part_offset take foldr].
  - injection Hi as <-. assert (length g <= length d1)%nat as Hle by (rewrite <- T1, length_take; lia).
    rewrite Z.add_0_l, length_app. split_and!; [lia|lia|]. unfold slice. rewrite Z.sub_0_r, Nat2Z.id. change (Z.to_nat 0) with 0%nat. rewrite drop_0, take_app_le by done. done.
  - cbn [lookup list_lookup] in Hi. destruct (Hp i f Hi) as (H0 & H1 & H2). fold (part_offset (g2 :: files) i).
    set (o := part_offset _ _) in *. clearbody o. rewrite <- L1, length_app. split_and!; [lia|lia|].
    etransitivity; [|exact H2]. unfold slice. replace (Z.to_nat (len d1 + o)) with (length d1 + Z.to_nat o)%nat by lia.
    rewrite <- drop_drop, drop_app_length. f_equal. lia.
Qed.

Lemma size_table_length files : len (size_table files) = 4 * len files + 4.
Proof.
  unfold size_table. rewrite length_app, be_bytes_length. induction files as [|f files IH]; [done|]. cbn [map concat length].
  rewrite length_app, be_bytes_length. lia.
Qed.

Lemma word_nonzero n : 0 < n < 4294967296 -> le_load (be_bytes 4 n) <> 0.
Proof.
  intros Hn E. apply le_load_zero in E; [|apply be_bytes_bytes]. assert (be_load (be_bytes 4 n) = n) as En.
  { rewrite be_load_bytes. apply Z.mod_small. lia. }
  pose proof (be_bytes_length 4 n) as Lb. destruct (be_bytes 4 n) as [|a [|b [|c [|d [|]]]]]; try done.
  rewrite !Forall_cons in E. destruct E as (-> & -> & -> & -> & _). cbn in En. lia.
Qed.

(** The words of a table in memory. *)
Lemma table_word mem size files i :
  0 <= size -> size + len (size_table files) <= len mem -> slice mem size (size + len (size_table files)) = size_table files ->
  (i <= length files)%nat ->
  size_word mem size (Z.of_nat i) = be_bytes 4 (match files !! i with Some f => len f | None => 0 end).
Proof.
  intros H0 H1 E Hi. rewrite size_table_length in *.
  assert (size_word mem size (Z.of_nat i) = slice (size_table files) (4 * Z.of_nat i) (4 * Z.of_nat i + 4)) as ->.
  { rewrite <- E. unfold size_word. clear - H0 H1 Hi. slice_ext. }
  clear - Hi. unfold size_table, slice. replace (Z.to_nat (4 * Z.of_nat i + 4 - 4 * Z.of_nat i)) with 4%nat by lia.
  replace (Z.to_nat (4 * Z.of_nat i)) with (4 * i)%nat by lia. revert i Hi.
  induction files as [|f files IH]; intros [|i] Hi; cbn [length map concat] in *; try lia.
  - done.
  - rewrite Nat.mul_0_r, drop_0, <- app_assoc. apply take_app_length'. by rewrite be_bytes_length.
  - change ((f :: files) !! S i) with (files !! i). rewrite <- (IH i) by lia. f_equal. rewrite <- app_assoc. replace (4 * S i)%nat with (4 + 4 * i)%nat by lia.
    rewrite <- drop_drop. reflexivity.
Qed.

Lemma multi_count_ok mem size files :
  0 <= size -> size + len (size_table files) <= len mem -> slice mem size (size + len (size_table files)) = size_table files ->
  Forall (fun f => f <> [] /\ len f < 4294967296) files -> forall fuel i, (i <= length files)%nat -> (length files <= i + fuel)%nat ->
  multi_count fuel mem size (Z.of_nat i) = Done (len files).
Proof.
  intros H0 H1 E F. induction fuel as [|fuel IH]; intros i Hi Hf; cbn [multi_count];
    rewrite (table_word mem size files i) by done; rewrite size_table_length in H1;
    (destruct (Z.leb_spec (size + 4 * Z.of_nat i + 4) (len mem)); [|lia]); cbn [negb].
  - rewrite lookup_ge_None_2 by lia. change (le_load (be_bytes 4 0)) with 0. cbn [Z.eqb]. do 2 f_equal. lia.
  - destruct (files !! i) as [f|] eqn:Ef.
    + apply (Forall_lookup_1 _ _ _ _ F) in Ef as Hn. destruct Hn as [Nf Lf]. apply lookup_lt_Some in Ef.
      assert (0 < len f) by (destruct f; [done|cbn; lia]).
      rewrite (proj2 (Z.eqb_neq _ _) (word_nonzero (len f) ltac:(lia))). rewrite Z.add_1_r, <- Nat2Z.inj_succ. apply IH; lia.
    + apply lookup_ge_None in Ef. change (le_load (be_bytes 4 0)) with 0. cbn [Z.eqb]. do 2 f_equal. lia.
Qed.

Lemma offsets_fold mem size files n :
  0 <= size -> size + len (size_table files) <= len mem -> slice mem size (size + len (size_table files)) = size_table files ->
  Forall (fun f => len f + 3 < 4294967296) files -> (n <= length files)%nat ->
  fold_left (fun offset i => offset + Z.land (u32 (be_load (size_word mem size (Z.of_nat i)) + 3)) 4294967292) (seq 0 n) 0 = part_offset files n.
Proof.
  intros H0 H1 E F. induction n as [|n IH]; intros Hn; [done|]. rewrite seq_S, fold_left_app, IH by lia. cbn [fold_left Nat.add].
  destruct (lookup_lt_is_Some_2 files n) as [f Ef]; [lia|]. rewrite (table_word mem size files n), Ef by (done || lia).
  pose proof (Forall_lookup_1 _ _ _ _ F Ef) as Lf. cbn beta in Lf. rewrite be_load_bytes, Z.mod_small, round4_mask by lia.
  unfold part_offset. rewrite (take_S_r _ _ _ Ef), foldr_app. cbn [foldr]. generalize (take n files). intros l. clear.
  induction l as [|x l IH]; cbn [foldr]; lia.
Qed.

(** C28: the parts of a multi-file image (or a script) that mkimage made come
    back: wherever it lies in memory, image_multi_count is the number of files,
    image_multi_getimg gives for each its bytes and its length, and 0 with 0
    beyond the last. *)
Theorem image_multi_parts (ptr time : Z) (optee : list Z -> Z * Z) (params : image_tool_params) (files : list (list Z))
    (img mem : list Z) (hdr : Z) :
  mkimage ptr time optee params files = Some img -> Forall (fun f => bytes f) files -> bytes (p_imagename params) ->
  len img < 4294967296 -> p_type params = IH_TYPE_MULTI \/ p_type params = IH_TYPE_SCRIPT -> placed mem hdr img ->
  image_multi_count mem hdr = Done (len files) /\
  (forall i f, files !! i = Some f ->
     exists data, image_multi_getimg mem hdr (Z.of_nat i) = Done (data, len f) /\ slice mem data (data + len f) = f) /\
  (forall idx, len files <= idx -> image_multi_getimg mem hdr idx = Done (0, 0)).
Proof.
  intros Em Ff Fn Li Ht P. assert ((p_type params =? IH_TYPE_MULTI) || (p_type params =? IH_TYPE_SCRIPT) = true) as Et by (by destruct Ht as [-> | ->]).
  assert (p_type params <> IH_TYPE_FIRMWARE_IVT) as Ni by (by destruct Ht as [-> | ->]).
  destruct (mkimage_made _ _ _ _ _ _ Em Ff Fn Li Ni) as (d & Ep & Fd & Lm & _ & Dm & _). clear Em.
  unfold image_payload in Ep. rewrite Et in Ep. destruct (copy_datafile files) as [body|] eqn:Eb; [|done]. injection Ep as <-.
  destruct (copy_parts files body Eb) as [Nf Hp]. rewrite length_app in Lm. pose proof P as (H0 & H1 & _).
  set (size := image_get_data hdr). assert (size = hdr + 64) as Es by reflexivity. pose proof (size_table_length files) as Lt.
  assert (forall a b, 0 <= a -> a <= b -> b <= len body + len (size_table files) ->
    slice mem (size + a) (size + b) = slice (size_table files ++ body) a b) as Hs.
  { intros a b Ha Hb Hl. rewrite Es, <- !Z.add_assoc, (placed_slice _ _ _ P), <- Dm by lia. clear - Ha Hb Hl Lm. slice_ext. }
  assert (slice mem size (size + len (size_table files)) = size_table files) as Ts.
  { rewrite <- (Z.add_0_r size) at 1. rewrite Hs by lia. by apply slice_front. }
  assert (forall i f, files !! i = Some f -> len f + 3 < 4294967296) as Hl by (intros i f Hi; destruct (Hp i f Hi) as (? & ? & _); lia).
  assert (image_multi_count mem hdr = Done (len files)) as Ec.
  { unfold image_multi_count. fold size. apply (multi_count_ok mem size files) with (i := 0%nat); try done; try lia.
    apply Forall_lookup. intros i f Hi. split; [by apply (Forall_lookup_1 _ _ _ _ Nf Hi)|pose proof (Hl i f Hi); lia]. }
  split; [done|]. unfold image_multi_getimg. rewrite Ec. fold size. split.
  - intros i f Hi. pose proof (lookup_lt_Some _ _ _ Hi). destruct (Z.ltb_spec (Z.of_nat i) (len files)); [|lia]. rewrite Nat2Z.id.
    rewrite (offsets_fold mem size files i), (table_word mem size files i), Hi; try done; try lia; [|apply Forall_lookup; by eauto].
    pose proof (Hl i f Hi). rewrite be_load_bytes, Z.mod_small by lia. eexists. split; [reflexivity|]. destruct (Hp i f Hi) as (Ho & Hb & E).
    replace (size + (len files + 1) * 4 + part_offset files i) with (size + (len (size_table files) + part_offset files i)) by lia.
    rewrite <- Z.add_assoc, Hs by lia. etransitivity; [|exact E]. unfold slice.
    replace (Z.to_nat (len (size_table files) + part_offset files i)) with (length (size_table files) + Z.to_nat (part_offset files i))%nat by lia.
    rewrite <- drop_drop, drop_app_length. f_equal. lia.
  - intros idx Hi. destruct (Z.ltb_spec idx (len files)); [lia|done].
Qed.

(** * Moving in pieces *)

Lemma move_up fuel : forall mem to from n chunksz,
  0 <= to < from -> 0 <= n <= Z.of_nat fuel -> from + n <= len mem -> 0 < chunksz ->
  move_loop fuel mem to from n chunksz = Some (store mem to (slice mem from (from + n))).
Proof.
  induction fuel as [|fuel IH]; intros mem to from n chunksz Ht Hn Hf Hc; cbn [move_loop]; (destruct (Z.ltb_spec 0 n) as [Hp|Hp];
    [|assert (n = 0) as -> by lia; rewrite slice_empty, store_nil by lia; done]); [lia|].
  set (tail := if chunksz <? n then chunksz else n). assert (0 < tail <= n) as Hta by (unfold tail; case_Z; lia). clearbody tail. cbv zeta.
  rewrite (proj2 (Z.ltb_ge from to)) by lia. rewrite (proj2 (Z.ltb_lt to from)) by lia. rewrite memmove_ok by lia.
  set (p := slice mem from (from + tail)). assert (len p = tail) as Lp by (unfold p; rewrite slice_length; lia).
  rewrite IH by (rewrite ?store_length by lia; lia). f_equal. rewrite slice_store_other by lia.
  replace (to + tail) with (to + len p) by lia. rewrite store_store_app; [|lia..|rewrite slice_length; lia]. f_equal. unfold p.
  rewrite (slice_split mem from (from + tail) (from + n)) by lia. do 2 f_equal. lia.
Qed.

Lemma move_down fuel : forall mem to from n chunksz,
  0 <= from < to -> 0 <= n <= Z.of_nat fuel -> to + n <= len mem -> 0 < chunksz ->
  move_loop fuel mem (to + n) (from + n) n chunksz = Some (store mem to (slice mem from (from + n))).
Proof.
  induction fuel as [|fuel IH]; intros mem to from n chunksz Ht Hn Hf Hc; cbn [move_loop]; (destruct (Z.ltb_spec 0 n) as [Hp|Hp];
    [|assert (n = 0) as -> by lia; rewrite slice_empty, store_nil by lia; done]); [lia|].
  set (tail := if chunksz <? n then chunksz else n). assert (0 < tail <= n) as Hta by (unfold tail; case_Z; lia). clearbody tail. cbv zeta.
  rewrite (proj2 (Z.ltb_lt (from + n) (to + n))) by lia. rewrite (proj2 (Z.ltb_ge (to + n - tail) (from + n - tail))) by lia.
  rewrite memmove_ok by lia. replace (from + n - tail + tail) with (from + n) by lia.
  set (p := slice mem (from + n - tail) (from + n)). assert (len p = tail) as Lp by (unfold p; rewrite slice_length; lia).
  replace (to + n - tail) with (to + (n - tail)) by lia. replace (from + n - tail) with (from + (n - tail)) by lia.
  rewrite IH by (rewrite ?store_length by lia; lia). f_equal. rewrite slice_store_other by lia.
  set (q := slice mem from (from + (n - tail))). assert (len q = n - tail) as Lq by (unfold q; rewrite slice_length; lia).
  rewrite store_comm by lia. replace (to + (n - tail)) with (to + len q) by lia. rewrite store_store_app by lia. f_equal. unfold p, q.
  rewrite (slice_split mem from (from + (n - tail)) (from + n)) by lia. do 2 f_equal; lia.
Qed.

(** However the blocks overlap, moving in pieces moves the whole. *)
Lemma memmove_wd_ok wd mem to from n chunksz :
  0 <= to -> 0 <= from -> 0 <= n -> to + n <= len mem -> from + n <= len mem -> 0 < chunksz ->
  memmove_wd wd mem to from n chunksz = Some (store mem to (slice mem from (from + n))).
Proof.
  intros Ht Hf Hn Hl Hl' Hc. unfold memmove_wd. destruct (Z.eqb_spec to from) as [->|N]; [f_equal; slice_ext|].
  destruct wd; [|by rewrite memmove_ok]. destruct (Z.ltb_spec from to); [apply move_down|apply move_up]; lia.
Qed.

(** * Concrete images *)

Definition demo_params (t : Z) : image_tool_params := Params t IH_OS_LINUX IH_ARCH_ARM IH_COMP_NONE 80 84 [107].
Definition demo_make (t : Z) (files : list (list Z)) : list Z :=
  match mkimage 0 7 (fun _ => (0, 0)) (demo_params t) files with Some img => img | None => [] end.
Definition demo_kernel : list Z := Eval vm_compute in demo_make IH_TYPE_KERNEL [[11; 12; 13; 14; 15]].
Definition demo_multi : list Z := Eval vm_compute in demo_make IH_TYPE_MULTI [[11; 12; 13]; [14; 15]].

Lemma bytes_dec (l : list Z) : forallb (fun b => (0 <=? b) && (b <? 256)) l = true -> bytes l.
Proof.
  intros H. apply Forall_forall. intros b Hb. rewrite forallb_forall in H. apply list_elem_of_In, H in Hb.
  apply andb_true_iff in Hb as [H1 H2]. unfold is_byte. lia.
Qed.

Lemma placed_app p img r : placed (p ++ img ++ r) (len p) img.
Proof.
  unfold placed. rewrite !length_app. split_and!; [lia|lia|]. unfold slice. rewrite Nat2Z.id, drop_app_length.
  apply take_app_length'. lia.
Qed.

Lemma mkimage_accepted_witness :
  image_check_hcrc 2 ([1; 2; 3] ++ demo_kernel ++ [9]) 3 = true /\
  image_check_dcrc true ([1; 2; 3] ++ demo_kernel ++ [9]) 3 = Done true /\ image_verify_header 2 0 demo_kernel = 0.
Proof.
  destruct (mkimage_accepted 0 7 (fun _ => (0, 0)) (demo_params IH_TYPE_KERNEL) [[11; 12; 13; 14; 15]] demo_kernel
    ([1; 2; 3] ++ demo_kernel ++ [9]) 3 2 true) as (_ & H1 & H2 & H3 & _); [vm_compute; reflexivity|..|by split_and!].
  - apply Forall_cons. split; [by apply bytes_dec|by apply Forall_nil].
  - by apply bytes_dec.
  - reflexivity.
  - reflexivity.
  - intros [=].
  - apply (placed_app [1; 2; 3] demo_kernel [9]).
Defined.

Lemma image_multi_parts_witness :
  image_multi_count ([1; 2; 3] ++ demo_multi ++ [9]) 3 = Done 2 /\
  exists data, image_multi_getimg ([1; 2; 3] ++ demo_multi ++ [9]) 3 1 = Done (data, 2) /\
    slice ([1; 2; 3] ++ demo_multi ++ [9]) data (data + 2) = [14; 15].
Proof.
  destruct (image_multi_parts 0 7 (fun _ => (0, 0)) (demo_params IH_TYPE_MULTI) [[11; 12; 13]; [14; 15]] demo_multi
    ([1; 2; 3] ++ demo_multi ++ [9]) 3) as (H1 & H2 & _);
    [vm_compute; reflexivity|..|split; [exact H1|exact (H2 1%nat [14; 15] eq_refl)]].
  - repeat (apply Forall_cons; split; [by apply bytes_dec|]). by apply Forall_nil.
  - by apply bytes_dec.
  - reflexivity.
  - by left.
  - apply (placed_app [1; 2; 3] demo_multi [9]).
Defined.
