(* ===== verification/Bootm.v ===== *)
(** Booting a legacy image (boot/bootm.c with image_get_ramdisk and
    genimg_get_format of boot/image-board.c): finding the kernel and checking
    it, loading it, and reserving what was loaded.

    Legacy images are configured; FIT, Android images, the pre-load stage and
    the arm64 booti step are not.  Memory, headers and outcomes are as in
    [Image], and so is what is left out; an address is mapped to itself.  The
    environment is that of [EnvCommon], the memory map that of [Lmb]. *)

From stdpp Require Import gmap.
From S2P Require Import Prelude Bytes Cstring CstringProps Strto Alist Lmb Hashtable HashSearch HashEntries HashClaims EnvFlags Crc32 EnvCommon EnvCommonProps Digest Image.

Definition EPROTOTYPE : Z := 91.
Definition EXDEV : Z := 18.
Definition BOOTM_ERR_RESET : Z := -1.
Definition BOOTM_ERR_OVERLAP : Z := -2.
Definition BOOTM_ERR_UNIMPLEMENTED : Z := -3.
Definition BOOTM_STATE_START : Z := 1.
Definition IMAGE_FORMAT_INVALID : Z := 0.
Definition IMAGE_FORMAT_LEGACY : Z := 1.
Definition IMAGE_FORMAT_FIT : Z := 2.
Definition SZ_1M : Z := 0x100000.
Definition SZ_2M : Z := 0x200000.

Record image_info := Info {
  i_start : Z; i_end : Z; image_start : Z; image_len : Z; load : Z; comp : Z; type : Z; os : Z; arch : Z
}.

(** The members that legacy images use. *)
Record bootm_headers := Headers {
  legacy_hdr_os : Z; legacy_hdr_os_copy : list Z; legacy_hdr_valid : Z; b_os : image_info; ep : Z; verify : Z; state : Z
}.

Definition with_os (i : bootm_headers) (o : image_info) : bootm_headers :=
  Headers (legacy_hdr_os i) (legacy_hdr_os_copy i) (legacy_hdr_valid i) o (ep i) (verify i) (state i).
Definition with_ep (i : bootm_headers) (e : Z) : bootm_headers :=
  Headers (legacy_hdr_os i) (legacy_hdr_os_copy i) (legacy_hdr_valid i) (b_os i) e (verify i) (state i).
Definition with_image (i : bootm_headers) (data n : Z) : bootm_headers :=
  let o := b_os i in with_os i (Info (i_start o) (i_end o) data n (load o) (comp o) (type o) (os o) (arch o)).

Section Bootm.
(** A watchdog, where the copies of headers lie, the architecture, what
    fdt_check_header says of an address, and image_load_addr. *)
Context (wd : bool) (sp IH_ARCH_DEFAULT : Z) (fdt_check_header : list Z -> Z -> Z) (image_load_addr : Z).
Implicit Types (mem : list Z) (images : bootm_headers).

(** * Checking *)

(** Whether the header is returned. *)
Definition image_get_kernel mem (img_addr verify : Z) : outcome bool :=
  if negb (image_check_magic mem img_addr) then Done false
  else if negb (image_check_hcrc sp mem img_addr) then Done false
  else
    match image_print_contents mem img_addr with
    | Overrun => Overrun
    | Hangs => Hangs
    | Done _ =>
        let arch_ok := Done (image_check_arch mem img_addr IH_ARCH_DEFAULT) in
        if negb (verify =? 0) then
          match image_check_dcrc wd mem img_addr with
          | Done true => arch_ok
          | Done false => Done false
          | Overrun => Overrun
          | Hangs => Hangs
          end
        else arch_ok
    end.

Definition image_get_ramdisk mem (rd_addr arch verify : Z) : outcome bool :=
  if negb (image_check_magic mem rd_addr) then Done false
  else if negb (image_check_hcrc sp mem rd_addr) then Done false
  else
    match image_print_contents mem rd_addr with
    | Overrun => Overrun
    | Hangs => Hangs
    | Done _ =>
        let fields_ok := Done (image_check_os mem rd_addr IH_OS_LINUX && image_check_arch mem rd_addr arch
                               && image_check_type mem rd_addr IH_TYPE_RAMDISK) in
        if negb (verify =? 0) then
          match image_check_dcrc wd mem rd_addr with
          | Done true => fields_ok
          | Done false => Done false
          | Overrun => Overrun
          | Hangs => Hangs
          end
        else fields_ok
    end.

(** * Finding the kernel *)

Definition genimg_get_format mem (img_addr : Z) : Z :=
  if image_check_magic mem img_addr then IMAGE_FORMAT_LEGACY
  else if fdt_check_header mem img_addr =? 0 then IMAGE_FORMAT_FIT
  else IMAGE_FORMAT_INVALID.

Definition genimg_get_kernel_addr_fit (img_addr : option (list Z)) : Z :=
  match img_addr with
  | None => image_load_addr
  | Some s => (hextoul s).1
  end.

(** The return value, the headers with the address and length of the data in
    them, and the address of the image; a header that is not all in memory is
    an access outside it. *)
Definition boot_get_kernel mem (addr_fit : option (list Z)) images : outcome (Z * bootm_headers * Z) :=
  let img_addr := genimg_get_kernel_addr_fit addr_fit in
  let images := with_image images 0 0 in
  if negb (img_addr + image_get_header_size <=? len mem) then Overrun
  else if genimg_get_format mem img_addr =? IMAGE_FORMAT_LEGACY then
    match image_get_kernel mem img_addr (verify images) with
    | Overrun => Overrun
    | Hangs => Hangs
    | Done false => Done (- EINVAL, images, img_addr)
    | Done true =>
        let t := image_get_type mem img_addr in
        let found data n :=
          let images := with_image images data n in
          Done (0, Headers img_addr (slice mem img_addr (img_addr + image_get_header_size)) 1 (b_os images) (ep images)
                     (verify images) (state images), img_addr) in
        if (t =? IH_TYPE_KERNEL) || (t =? IH_TYPE_KERNEL_NOLOAD) then
          found (image_get_data img_addr) (image_get_data_size mem img_addr)
        else if t =? IH_TYPE_MULTI then
          match image_multi_getimg mem img_addr 0 with
          | Done (data, n) => found data n
          | Overrun => Overrun
          | Hangs => Hangs
          end
        else if t =? IH_TYPE_STANDALONE then found (image_get_data img_addr) (image_get_data_size mem img_addr)
        else Done (- EPROTOTYPE, images, img_addr)
    end
  else Done (- EPROTOTYPE, images, img_addr).

Context `{EnvHooks} (config_env_size : Z) (default_environment : list Z).

(** The headers are cleared. *)
Definition bootm_start (st : env_state) : outcome (bootm_headers * env_state) :=
  match env_get_yesno config_env_size default_environment [118; 101; 114; 105; 102; 121] st with
  | Done (v, st) => Done (Headers 0 (replicate (Z.to_nat image_get_header_size) 0) 0 (Info 0 0 0 0 0 0 0 0 0) 0 v BOOTM_STATE_START, st)
  | Overrun => Overrun
  | Hangs => Hangs
  end.

Definition bootm_find_os mem (addr_fit : option (list Z)) images : outcome (Z * bootm_headers) :=
  match boot_get_kernel mem addr_fit images with
  | Overrun => Overrun
  | Hangs => Hangs
  | Done (ret, images, os_hdr) =>
      if negb (ret =? 0) then Done (1, images)
      else if genimg_get_format mem os_hdr =? IMAGE_FORMAT_LEGACY then
        let o := b_os images in
        let images := with_os images
          (Info (i_start o) (image_get_image_end mem os_hdr) (image_start o) (image_len o) (image_get_load mem os_hdr)
             (image_get_comp mem os_hdr) (image_get_type mem os_hdr) (image_get_os mem os_hdr) (image_get_arch mem os_hdr)) in
        let o := b_os images in
        let entry :=
          (* boot_get_setup returns -ENOENT *)
          if (arch o =? IH_ARCH_I386) || (arch o =? IH_ARCH_X86_64) then Some images
          else if negb (legacy_hdr_valid images =? 0) then Some (with_ep images (image_get_ep (legacy_hdr_os_copy images) 0))
          else None in
        match entry with
        | None => Done (1, images)
        | Some images =>
            let noload := type o =? IH_TYPE_KERNEL_NOLOAD in
            let images := if noload then with_ep images (u64 (ep images + image_start o)) else images in
            Done (0, with_os images (Info os_hdr (i_end o) (image_start o) (image_len o)
                                       (if noload then image_start o else load o) (comp o) (type o) (os o) (arch o)))
        end
      else Done (1, images)
  end.

(** * Overlap *)

Definition check_overlap (base end_ os_start os_size : Z) : Z :=
  if base =? 0 then 0
  else
    let os_end := u64 (os_start + os_size) in
    if ((os_start <=? base) && (base <? os_end)) || ((os_start <? end_) && (end_ <=? os_end))
       || ((base <? os_start) && (os_end <=? end_))
    then - EXDEV else 0.

(** * Loading the kernel *)

Definition handle_decomp_error (ret : Z) : Z := if ret =? - ENOSYS then BOOTM_ERR_UNIMPLEMENTED else BOOTM_ERR_RESET.

(** EFI_LOADER with its notification, whether the list of regions can grow, the
    decompressors and CONFIG_SYS_BOOTM_LEN. *)
Context (efi : bool) (notify : Z -> Z -> lmb_map_op -> Z) (mem_ok : bool) (d : decompressors) (BOOTM_LEN : Z).

(** [None] from lmb_alloc stands for its fuel. *)
Definition bootm_load_os mem (m : lmb) images : outcome (Z * bootm_headers * list Z * lmb) :=
  let o := b_os images in
  let alloc :=
    if (type o =? IH_TYPE_KERNEL_NOLOAD) && negb (comp o =? IH_COMP_NONE) then
      match lmb_alloc efi notify mem_ok m (ALIGN (u64 (image_len o * 4)) SZ_1M) SZ_2M with
      | None => None
      | Some (a, m) => Some (a, m, with_ep images a, a =? 0)
      end
    else Some (load o, m, images, false) in
  match alloc with
  | None => Hangs
  | Some (_, m, _, true) => Done (1, images, mem, m)
  | Some (ld, m, images, false) =>
      match image_decomp wd d (comp o) ld (image_start o) (image_len o) BOOTM_LEN mem with
      | Overrun => Overrun
      | Hangs => Hangs
      | Done (err, load_end, mem) =>
          if negb (err =? 0) then Done (handle_decomp_error err, images, mem, m)
          else
            let images := with_image images (image_start (b_os images)) (u64 (load_end - ld)) in
            let no_overlap := (comp o =? IH_COMP_NONE) && (ld =? image_start o) in
            if negb no_overlap && (ld <? i_end o) && (i_start o <? load_end) then
              if negb (legacy_hdr_valid images =? 0) then Done (BOOTM_ERR_OVERLAP, images, mem, m)
              else Done (BOOTM_ERR_RESET, images, mem, m)
            else
              let base := load (b_os images) in
              Done (0, images, mem, snd (lmb_reserve efi notify mem_ok m base (u64 (load_end - base)) LMB_NONE))
      end
  end.
End Bootm.

(** * Damage *)

(** The same but in a window of four bytes at [lo]. *)
Definition damaged (lo : nat) (a b : list Z) : Prop :=
  length a = length b /\ forall i, (i < lo \/ lo + 4 <= i)%nat -> a !! i = b !! i.

Lemma damaged_parts lo a b : damaged lo a b -> take lo a = take lo b /\ drop (lo + 4) a = drop (lo + 4) b.
Proof.
  intros [L H]. split; apply list_eq; intros i.
  - rewrite !lookup_take_if. case_decide; [|done]. apply H. lia.
  - rewrite !lookup_drop. apply H. lia.
Qed.

(** CRC-32 tells the two apart. *)
Lemma crc_detects lo a b : damaged lo a b -> bytes a -> bytes b -> crc_spec 0 a = crc_spec 0 b -> a = b.
Proof.
  intros D Fa Fb E. destruct (damaged_parts lo a b D) as [Et Ed]. destruct D as [L _].
  assert (forall l : list Z, l = take lo l ++ take 4 (drop lo l) ++ drop (lo + 4) l) as Hs.
  { intros l. rewrite <- (take_drop lo l) at 1. f_equal. rewrite <- (take_drop 4 (drop lo l)) at 1. by rewrite drop_drop. }
  rewrite (Hs a), (Hs b) in E. rewrite Et, Ed in E. rewrite (Hs a), (Hs b), Et, Ed. do 2 f_equal.
  apply crc_window in E; [done|apply zero_word| |by apply Forall_take, Forall_drop|rewrite !length_take, !length_drop; lia|rewrite length_take; lia].
  rewrite <- Et, <- Ed, <- Hs. done.
Qed.

Lemma damaged_take lo n a b : damaged lo a b -> damaged lo (take n a) (take n b).
Proof. intros [L H]. split; [rewrite !length_take; lia|]. intros i Hi. rewrite !lookup_take_if. case_decide; [|done]. by apply H. Qed.

Lemma damaged_drop lo n a b : damaged lo a b -> damaged (lo - n) (drop n a) (drop n b).
Proof. intros [L H]. split; [rewrite !length_drop; lia|]. intros i Hi. rewrite !lookup_drop. apply H. lia. Qed.

Lemma damaged_store lo a b off z : 0 <= off -> off + len z <= len a -> damaged lo a b -> damaged lo (store a off z) (store b off z).
Proof.
  intros Ho Hl [L H]. split; [rewrite !store_length by lia; lia|]. intros i Hi. rewrite !store_lookup by lia.
  repeat case_decide; try done; by apply H.
Qed.

Lemma store_inj off (z a b : list Z) :
  store a off z = store b off z -> 0 <= off -> off + len z <= len a -> length a = length b ->
  (forall i, (Z.to_nat off <= i < Z.to_nat off + length z)%nat -> a !! i = b !! i) -> a = b.
Proof.
  intros E Ho Hl L H. apply list_eq. intros i. apply (f_equal (fun l => l !! i)) in E. rewrite !store_lookup in E by lia.
  repeat case_decide; try done. apply H. lia.
Qed.

(** A window beside the header's checksum leaves it. *)
Lemma damaged_hcrc lo a b : damaged lo a b -> lo = 0%nat \/ (8 <= lo)%nat -> image_get_hcrc a 0 = image_get_hcrc b 0.
Proof.
  intros [L H] Hlo. unfold image_get_hcrc, image_get_l, ih_hcrc. f_equal. apply list_eq. intros i. rewrite !slice_lookup_tot.
  case_decide; [|done]. apply H. lia.
Qed.

(** The fields of two images with the same header. *)
Lemma same_header_l f a b : take 64 a = take 64 b -> 0 <= f <= 60 -> image_get_l f a 0 = image_get_l f b 0.
Proof.
  intros E Hf. unfold image_get_l. f_equal. apply list_eq. intros i. rewrite !slice_lookup_tot. case_decide; [|done].
  apply (f_equal (fun l => l !! (Z.to_nat (0 + f) + i)%nat)) in E. rewrite !lookup_take_if in E. case_decide; [done|lia].
Qed.

Lemma same_header_b f a b : take 64 a = take 64 b -> 0 <= f < 64 -> image_get_b f a 0 = image_get_b f b 0.
Proof.
  intros E Hf. unfold image_get_b. rewrite !list_lookup_total_alt. f_equal.
  apply (f_equal (fun l => l !! Z.to_nat (0 + f))) in E. rewrite !lookup_take_if in E. case_decide; [done|lia].
Qed.

Section Refuse.
Context (wd : bool) (sp IH_ARCH_DEFAULT : Z) (fdt_check_header : list Z -> Z -> Z) (image_load_addr : Z).
Context (img : list Z) (Fm : bytes img) (Lm : 64 <= len img) (Sm : image_get_size img 0 = len img - 64) (L32 : len img < 4294967296).
Context (Hc : crc_spec 0 (image_set_l ih_hcrc (slice img 0 64) 0 0) = image_get_hcrc img 0) (Hd : crc_spec 0 (drop 64 img) = image_get_dcrc img 0).

(** A damaged image is not accepted. *)
Lemma damaged_kernel lo img' mem hdr v :
  damaged lo img img' -> img <> img' -> lo = 0%nat \/ (8 <= lo)%nat -> bytes img' -> placed mem hdr img' -> v <> 0 ->
  image_get_kernel wd sp IH_ARCH_DEFAULT mem hdr v = Done false \/
  image_check_magic mem hdr = true /\ image_check_type img 0 IH_TYPE_MULTI || image_check_type img 0 IH_TYPE_SCRIPT = true /\
    (image_get_kernel wd sp IH_ARCH_DEFAULT mem hdr v = Overrun \/ image_get_kernel wd sp IH_ARCH_DEFAULT mem hdr v = Hangs).
Proof using Fm Lm Sm L32 Hc Hd.
  intros D N Hlo Fm' P Hv. pose proof D as [L _]. unfold image_get_kernel. rewrite (proj2 (Z.eqb_neq _ _) Hv). cbn [negb].
  destruct (image_check_magic mem hdr) eqn:Em; [|by left]. cbn [negb]. destruct (image_check_hcrc sp mem hdr) eqn:Eh; [|by left]. cbn [negb].
  assert (take 64 img = take 64 img') as Et.
  { rewrite (check_hcrc_spec sp _ _ _ P) in Eh by (done || lia). apply Z.eqb_eq in Eh. rewrite <- (damaged_hcrc lo img img' D Hlo), <- Hc in Eh.
    assert (forall i : list Z, slice i 0 64 = take 64 i) as Es by (intros i; unfold slice; by rewrite drop_0).
    rewrite !Es in Eh. unfold image_set_l in Eh. symmetry in Eh. apply (crc_detects lo) in Eh.
    - apply (store_inj 4 (be_bytes 4 0)) in Eh; [done|lia|rewrite be_bytes_length, length_take; lia|rewrite !length_take; lia|].
      rewrite be_bytes_length. intros i Hi. rewrite !lookup_take_if. case_decide; [|done]. apply (proj2 D). lia.
    - apply damaged_store; [done|rewrite be_bytes_length, length_take; unfold ih_hcrc; lia|by apply damaged_take].
    - apply store_bytes_keep; [by apply Forall_take|apply be_bytes_bytes].
    - apply store_bytes_keep; [by apply Forall_take|apply be_bytes_bytes]. }
  assert (image_check_dcrc wd mem hdr = Done false) as ->.
  { assert (image_get_size img' 0 = len img' - 64) as Sm' by (rewrite <- L, <- Sm; symmetry; apply same_header_l; done).
    rewrite (check_dcrc_spec wd _ _ _ P) by (done || lia). rewrite Sm'. replace (64 + (len img' - 64)) with (len img') by lia.
    assert (forall i : list Z, slice i 64 (len i) = drop 64 i) as Es by (intros i; unfold slice; apply take_ge; rewrite length_drop; lia).
    rewrite Es. f_equal. apply Z.eqb_neq. unfold image_get_dcrc. rewrite <- (same_header_l ih_dcrc img img' Et) by done. fold (image_get_dcrc img 0).
    rewrite <- Hd. intros E. symmetry in E. apply (crc_detects (lo - 64)) in E; [|by apply damaged_drop|by apply Forall_drop..].
    apply N. rewrite <- (take_drop 64 img), <- (take_drop 64 img'). congruence. }
  unfold image_print_contents. assert (forall t, image_check_type mem hdr t = image_check_type img 0 t) as Ety.
  { intros t. unfold image_check_type, image_get_type. rewrite (placed_get_b _ _ _ P) by (unfold ih_type; lia). by rewrite (same_header_b ih_type img img'). }
  rewrite !Ety. destruct (_ || _) eqn:Eo; [|by left]. destruct (image_multi_count mem hdr); [right|right|by left]; split_and!; auto.
Qed.
End Refuse.

(** * Overlap *)

(** With the end of the image, the check is exact. *)
Lemma check_overlap_exact base end_ os_start os_size :
  0 < base < end_ -> 0 <= os_start -> 0 < os_size -> os_start + os_size <= U64_MAX ->
  check_overlap base end_ os_start os_size = - EXDEV <-> base < os_start + os_size /\ os_start < end_.
Proof.
  intros Hb Ho Hs Hm. unfold check_overlap. rewrite u64_small by lia. destruct (Z.eqb_spec base 0); [lia|].
  destruct (_ || _) eqn:E; rewrite ?orb_true_iff, ?orb_false_iff, ?andb_true_iff, ?andb_false_iff, ?Z.leb_le, ?Z.ltb_lt, ?Z.leb_gt, ?Z.ltb_ge in E;
    unfold EXDEV; split; intros; try lia.
Qed.

(** bootm_find_images gives the length of the device tree for its end: a tree of
    0x2000 bytes at 0x1000 that meets a kernel at 0x2800 passes. *)
Lemma fdt_overlap_missed : check_overlap 0x1000 0x2000 0x2800 0x1000 = 0 /\ check_overlap 0x1000 (0x1000 + 0x2000) 0x2800 0x1000 = - EXDEV.
Proof. split; reflexivity. Qed.

(** * Refusing and loading *)

Definition VERIFY : list Z := [118; 101; 114; 105; 102; 121].

(** The variable verify asks for the check of the data: it is not set, or its
    value begins like a yes. *)
Definition verify_on (M : env_map) : Prop :=
  match M !! VERIFY ≫= e_data with
  | None => True
  | Some v => rd v = 49 \/ rd v = 121 \/ rd v = 89 \/ rd v = 116 \/ rd v = 84
  end.

Lemma verify_plain : plain VERIFY.
Proof. repeat constructor; discriminate. Qed.

Lemma multi_type t : image_check_image_types t = true -> t <> IH_TYPE_MULTI -> t <> IH_TYPE_SCRIPT ->
  (u8 (if t =? IH_TYPE_FDT_LEGACY then IH_TYPE_FLATDT else t) =? IH_TYPE_MULTI)
  || (u8 (if t =? IH_TYPE_FDT_LEGACY then IH_TYPE_FLATDT else t) =? IH_TYPE_SCRIPT) = false.
Proof.
  unfold image_check_image_types, IH_TYPE_FIRMWARE_IVT, IH_TYPE_FDT_LEGACY, IH_TYPE_FLATDT, IH_TYPE_KERNEL_NOLOAD, IH_TYPE_MULTI, IH_TYPE_SCRIPT.
  intros H N1 N2. destruct (Z.eqb_spec t 42); [done|]. rewrite !orb_true_iff, andb_true_iff, !Z.ltb_lt, !Z.eqb_eq in H.
  rewrite u8_small by lia. by rewrite (proj2 (Z.eqb_neq _ _) N1), (proj2 (Z.eqb_neq _ _) N2).
Qed.

Section Boot.
Context (wd : bool) (sp IH_ARCH_DEFAULT : Z) (fdt_check_header : list Z -> Z -> Z) (image_load_addr : Z).
Context `{EnvHooks} (config_env_size : Z) (default_environment : list Z).

Abbreviation start := (bootm_start config_env_size default_environment).
Abbreviation find_os := (bootm_find_os wd sp IH_ARCH_DEFAULT fdt_check_header image_load_addr).

Lemma start_ok st M : env_holds st M ->
  exists images, start st = Done (images, st) /\ (verify images <> 0 <-> verify_on M).
Proof.
  intros Hd. unfold bootm_start, env_get_yesno. fold VERIFY. rewrite (env_get_ok _ _ st M VERIFY Hd verify_plain).
  unfold verify_on. destruct (M !! VERIFY ≫= e_data) as [v|]; eexists; (split; [reflexivity|]); cbn [verify]; [|split; [done|lia]].
  destruct (Z.eqb_spec (rd v) 49), (Z.eqb_spec (rd v) 121), (Z.eqb_spec (rd v) 89), (Z.eqb_spec (rd v) 116), (Z.eqb_spec (rd v) 84);
    cbn [orb]; split; (lia || auto 6).
Qed.

(** C6: damage is refused: with the verify variable unset or set to a yes, an
    image that mkimage made and of which up to four bytes in a row have
    changed, in the header beside its own checksum or in the data, is never
    booted: bootm_find_os returns 1, unless it is a multi-file image or a
    script, whose table of sizes is read before the data are checked. *)
Theorem bootm_refuses_damage (ptr time : Z) (optee : list Z -> Z * Z) (params : image_tool_params) (files : list (list Z))
    (img img' mem s : list Z) (lo : nat) (st : env_state) (M : env_map) :
  mkimage ptr time optee params files = Some img -> Forall (fun f => bytes f) files -> bytes (p_imagename params) ->
  len img < 4294967296 -> image_check_image_types (p_type params) = true -> p_type params <> IH_TYPE_FIRMWARE_IVT ->
  damaged lo img img' -> img <> img' -> lo = 0%nat \/ (8 <= lo)%nat -> bytes img' -> placed mem (hextoul s).1 img' ->
  env_holds st M -> verify_on M ->
  exists images, start st = Done (images, st) /\
    (forall images', find_os mem (Some s) images <> Done (0, images')) /\
    (p_type params <> IH_TYPE_MULTI -> p_type params <> IH_TYPE_SCRIPT -> exists images', find_os mem (Some s) images = Done (1, images')).
Proof.
  intros Em Ff Fn Li Nt Ni D Ne Hlo Fm' P Hd Vo. destruct (start_ok st M Hd) as (images & Es & Hv). exists images. split; [done|].
  destruct (mkimage_made _ _ _ _ _ _ Em Ff Fn Li Ni) as (d & _ & _ & Lm & Fm & Dm & Sm & Hf & Hc & Hdc). rewrite <- Dm in Hdc.
  pose proof (damaged_kernel wd sp IH_ARCH_DEFAULT img Fm ltac:(lia) ltac:(lia) Li Hc Hdc lo img' mem _ (verify images) D Ne Hlo Fm' P
    (proj2 Hv Vo)) as Hk.
  assert ((p_type params <> IH_TYPE_MULTI -> p_type params <> IH_TYPE_SCRIPT ->
    image_check_type img 0 IH_TYPE_MULTI || image_check_type img 0 IH_TYPE_SCRIPT = false)) as Ht.
  { intros N1 N2. destruct Hf as (_ & _ & _ & _ & _ & _ & _ & Hty & _). unfold image_check_type. rewrite Hty. by apply multi_type. }
  set (hdr := (hextoul s).1) in *. unfold bootm_find_os, boot_get_kernel. cbn [genimg_get_kernel_addr_fit]. fold hdr.
  destruct D as [Ll _]. destruct P as (H0 & H1 & _). unfold image_get_header_size. destruct (Z.leb_spec (hdr + 64) (len mem)); [|lia]. cbn [negb].
  change (verify (with_image images 0 0)) with (verify images).
  destruct (Z.eqb_spec (genimg_get_format fdt_check_header mem hdr) IMAGE_FORMAT_LEGACY); [|split; [done|by eexists]].
  destruct Hk as [-> |(_ & Ety & [-> | ->])]; [split; [done|by eexists]|split; [done|]..]; intros N1 N2; by rewrite Ht in Ety.
Qed.

Context (efi : bool) (notify : Z -> Z -> lmb_map_op -> Z) (mem_ok : bool) (dz : decompressors) (BOOTM_LEN : Z).
Abbreviation load_os := (bootm_load_os wd efi notify mem_ok dz BOOTM_LEN).

(** An uncompressed kernel is moved to its load address. *)
Lemma decomp_none mem ld from n :
  0 <= ld -> 0 <= from -> 0 <= n <= BOOTM_LEN -> ld + n <= len mem -> from + n <= len mem -> len mem <= U64_MAX ->
  image_decomp wd dz IH_COMP_NONE ld from n BOOTM_LEN mem = Done (0, ld + n, store mem ld (slice mem from (from + n))).
Proof.
  intros Hl Hf Hn H1 H2 Hm. unfold image_decomp. cbn [IH_COMP_NONE Z.eqb].
  destruct (Z.eqb_spec ld from) as [->|N].
  - change (0 =? - ENOSYS) with false. cbn iota. rewrite u64_small by lia. do 3 f_equal. slice_ext.
  - destruct (Z.leb_spec n BOOTM_LEN); [|lia]. destruct (Z.leb_spec (ld + n) (len mem)), (Z.leb_spec (from + n) (len mem)); try lia. cbn [negb orb].
    rewrite memmove_wd_ok by (unfold CHUNKSZ; lia). change (0 =? - ENOSYS) with false. cbn iota. by rewrite u64_small by lia.
Qed.

(** The kernel found in an image that passes the checks. *)
Lemma find_kernel mem s images :
  let hdr := (hextoul s).1 in
  let t := image_get_type mem hdr in
  let size := image_get_size mem hdr in
  0 <= hdr -> hdr + 64 <= len mem -> image_check_magic mem hdr = true -> image_check_hcrc sp mem hdr = true ->
  image_check_dcrc wd mem hdr = Done true -> image_check_arch mem hdr IH_ARCH_DEFAULT = true ->
  t = IH_TYPE_KERNEL \/ t = IH_TYPE_KERNEL_NOLOAD \/ t = IH_TYPE_STANDALONE ->
  image_get_arch mem hdr <> IH_ARCH_I386 -> image_get_arch mem hdr <> IH_ARCH_X86_64 -> 0 <= size -> size + 64 < 4294967296 ->
  find_os mem (Some s) images =
    Done (0, Headers hdr (slice mem hdr (hdr + 64)) 1
               (Info hdr (hdr + (size + 64)) (hdr + 64) size (if t =? IH_TYPE_KERNEL_NOLOAD then hdr + 64 else image_get_load mem hdr)
                  (image_get_comp mem hdr) t (image_get_os mem hdr) (image_get_arch mem hdr))
               (if t =? IH_TYPE_KERNEL_NOLOAD then u64 (image_get_ep mem hdr + (hdr + 64)) else image_get_ep mem hdr)
               (verify images) (state images)).
Proof.
  intros hdr t size H0 H1 Cm Ch Cd Ca Ht N3 N24 Hs Hs32.
  assert (genimg_get_format fdt_check_header mem hdr = IMAGE_FORMAT_LEGACY) as Eg by (unfold genimg_get_format; by rewrite Cm).
  assert (forall v, image_get_kernel wd sp IH_ARCH_DEFAULT mem hdr v = Done true) as Ek.
  { intros v. unfold image_get_kernel, image_print_contents, image_check_type. fold t. rewrite Cm, Ch, Cd, Ca. cbn [negb].
    assert ((t =? IH_TYPE_MULTI) || (t =? IH_TYPE_SCRIPT) = false) as -> by (by destruct Ht as [-> |[-> | ->]]). by destruct (v =? 0). }
  assert (len (slice mem hdr (hdr + 64)) = 64) as Lc by (rewrite slice_length; lia).
  assert (image_get_ep (slice mem hdr (hdr + 64)) 0 = image_get_ep mem hdr) as Ee.
  { unfold image_get_ep. symmetry. apply placed_get_l; [unfold placed; rewrite Lc; split_and!; [done|lia|done]|done|rewrite Lc; done]. }
  unfold bootm_find_os, boot_get_kernel. cbn [genimg_get_kernel_addr_fit]. fold hdr. change image_get_header_size with 64.
  destruct (Z.leb_spec (hdr + 64) (len mem)); [|lia]. rewrite Eg, Ek. cbn [negb]. rewrite Z.eqb_refl. fold t.
  assert (forall a b, (if (t =? IH_TYPE_KERNEL) || (t =? IH_TYPE_KERNEL_NOLOAD) then a else if t =? IH_TYPE_MULTI then b
    else if t =? IH_TYPE_STANDALONE then a else Done (- EPROTOTYPE, with_image images 0 0, hdr)) = a) as ->
    by (intros a b; by destruct Ht as [-> |[-> | ->]]).
  cbn [negb Z.eqb]. rewrite Eg, Z.eqb_refl.
  cbn [with_image with_os with_ep b_os i_start i_end image_start image_len load comp type os arch ep verify state legacy_hdr_os legacy_hdr_os_copy legacy_hdr_valid].
  rewrite (proj2 (Z.eqb_neq _ _) N3), (proj2 (Z.eqb_neq _ _) N24). cbn [orb negb Z.eqb]. rewrite Ee. unfold image_get_data, image_get_image_end, image_get_image_size, image_get_data_size.
  change image_get_header_size with 64. fold t size. rewrite u32_small by lia. by destruct (t =? IH_TYPE_KERNEL_NOLOAD).
Qed.

End Boot.

(** * Concrete boots *)

Definition demo_mem : list Z := [1; 2; 3] ++ demo_kernel ++ replicate 40 9.
Definition demo_lmb : lmb := Lmb (Alist [] 24 0 0 0) (Alist [] 24 0 0 0) false.
Definition demo_spoilt : list Z := <[66%nat := 0]> demo_kernel.

(** A byte of the kernel is changed. *)
Lemma bootm_refuses_damage_witness :
  exists images images', @bootm_start no_hooks 64 [] demo_empty = Done (images, demo_empty) /\
    bootm_find_os true 2 IH_ARCH_ARM (fun _ _ => 1) 0 ([1; 2; 3] ++ demo_spoilt ++ []) (Some [51]) images = Done (1, images').
Proof.
  destruct (@bootm_refuses_damage true 2 IH_ARCH_ARM (fun _ _ => 1) 0 no_hooks 64 [] 0 7 (fun _ => (0, 0)) (demo_params IH_TYPE_KERNEL)
    [[11; 12; 13; 14; 15]] demo_kernel demo_spoilt ([1; 2; 3] ++ demo_spoilt ++ []) [51] 66 demo_empty ∅) as (images & H1 & _ & H2);
    [vm_compute; reflexivity|..|destruct H2 as [images' H2]; [intros [=]|intros [=]|exists images, images'; by split]].
  - apply Forall_cons. split; [by apply bytes_dec|by apply Forall_nil].
  - by apply bytes_dec.
  - reflexivity.
  - reflexivity.
  - intros [=].
  - split; [reflexivity|]. intros i Hi. unfold demo_spoilt. by rewrite list_lookup_insert_ne by lia.
  - intros E. apply (f_equal (lookup 66%nat)) in E. vm_compute in E. discriminate.
  - right. lia.
  - by apply bytes_dec.
  - apply (placed_app [1; 2; 3] demo_spoilt []).
  - exact demo_empty_holds.
  - exact I.
Defined.

